(* ===== verification/_CoqProject ===== *)
-Q . S2P
Prelude.v
Dll.v
Frames.v
PmmManager.v
FitAlloc.v
NextFit.v
Buddy.v
PageTable.v
Vma.v
Swap.v
Vmm.v
AddrSpace.v
ExitSpace.v
Slob.v
SkewHeap.v
ProcData.v
Sched.v
Timers.v
Sync.v
Monitor.v
Proc.v
Bitmap.v
SfsDisk.v
Iobuf.v
SfsInode.v
SfsFile.v
SfsDir.v
Mksfs.v
Image.v
ImageMount.v
Vfs.v
File.v
Sysfile.v
Opens.v
Cstring.v
Console.v
Devices.v
Exec.v
ExecFile.v
Trap.v
ProcMem.v
