(* ===== verification/Prelude.v ===== *)
(** * A verification of the core of the LiNos kernel

    LiNos is a small teaching kernel for 32-bit x86 (the sources are under src/kern and src/libs, those of its
    tools under src/tools).  This
    library models its memory management, its processes, scheduling and synchronisation, its file
    systems, the loading of programs, system calls and traps, its console and its string functions as
    Rocq functions, and proves what makes them correct.

    ** How code becomes definitions

    A kernel function is a function of the same name in the monad [M S A := S → res (A * S)] of this
    file: [S] is the state of the component, [Ret] a normal return, [Err EPanic] a failed assertion or a
    call of [panic], [Err EFault] an access through a pointer that designates no object of the model, and
    [Err EFuel] the end of the fuel of a loop whose bound is not structural.  Out parameters are part of
    the result.  Machine words are values of [Z] with the wrap-around written out ([u32], [s32]).
    Pointers are keys of finite maps; linked structures keep their links, so that aliasing and the order
    of writes are those of the code.  What is not in the repository, or below the level of a component,
    is a parameter: a class such as [PageTable]'s frame allocator, [SfsInode.heap_env] for the kernel
    heap or [Vfs.dev_ops] for device drivers.

    A step of the model is what runs with interrupts disabled or under the lock that the code takes; a
    function that gives up the processor ([down], [do_wait], [do_sleep]) is two functions, before and
    after the call of [schedule].

    ** The files

    - [Prelude]: outcomes, the monad, machine words, shared tactics and lemmas, error codes.
    - [Dll]: the intrusive doubly linked lists of libs/list.h, refined to sequences.
    - [Frames], [PmmManager]: page descriptors (kern/mm/memlayout.h, pmm.h) and the interface
      [pmm_manager] between the page managers and their users.
    - [FitAlloc], [NextFit], [Buddy]: the page managers firstfit_pmm.c, bestfit_pmm.c, nextfit_pmm.c and
      buddy_pmm.c.
    - [PageTable]: the two-level page tables of kern/mm/pmm.c.
    - [Vma]: virtual memory areas, kern/mm/vmm.c.
    - [Swap], [Vmm]: replacement (swap.c, swap_fifo.c, swap_clock.c) with the swap file and the disk driver
      below it; page faults and the copying of strings from user memory (vmm.c).
    - [AddrSpace], [ExitSpace]: the address spaces of processes: copying at fork ([copy_mm], [dup_mmap],
      [copy_range]) and release at exit ([exit_mmap], [put_pgdir]), of kern/process/proc.c, vmm.c and pmm.c.
    - [Slob]: the kernel heap, kern/mm/kmalloc.c.
    - [SkewHeap]: libs/skew_heap.h, with parent pointers, refined to trees.
    - [ProcData], [Sched], [Timers], [Sync], [Monitor], [Proc]: struct proc_struct; the four scheduling classes
      behind the interface [sched_class] and [schedule], [wakeup_proc]; the timer list; wait queues and
      semaphores; monitors; process creation, exit, wait, kill (kern/process, kern/schedule, kern/sync).
    - [Bitmap], [SfsDisk], [Iobuf], [SfsInode], [SfsDir]: the simple file system, kern/fs/sfs: free map,
      disk layout and block transfer, transfer descriptors, inodes with their block maps and file input
      and output, directories, mounting.  [SfsFile] is the theory of file content.
    - [Mksfs]: the tool that builds disk images, tools/mksfs.c; [Image]: what it makes of a directory of the host;
      [ImageMount]: what the kernel finds on the image.
    - [Vfs], [File]: the virtual file system (kern/fs/vfs, devs/dev.c) and open files (kern/fs/file.c,
      fs.c).  [Opens] is the theory of open counts.
    - [Sysfile]: the system calls on files, kern/fs/sysfile.c, between user memory and [File].
    - [Devices]: the drivers below [Vfs], kern/fs/devs: the disk, the keyboard and the screen.
    - [Exec], [ExecFile]: [load_icode] of kern/process/proc.c, against the interface [exec_files] of the
      system calls on files that it makes, and the instance of that interface by [Sysfile] and all below it.
    - [Trap]: the stubs of user/libs/syscall.c, the trap dispatch of kern/trap/trap.c and the table of
      kern/syscall/syscall.c.
    - [ProcMem]: the instance of [Proc]'s interface [proc_env] by kernel stacks, trap frames, address spaces and
      files, and with it fork and exit of a whole process.
    - [Cstring]: libs/string.c and printfmt.c over a memory of bytes.
    - [Console]: console.c, picirq.c, kern/libs/stdio.c and readline.c over the ports of the machine.

    ** What the theorems show

    - Page managers: allocation takes the block that the policy names, free merges with both neighbours,
      and the frames are at all times partitioned into allocated and free ones, so that a free after an
      allocation gives back the same free memory; next fit from the head of the list is first fit.  In the
      buddy manager the entry of every block above a page tells which block lengths are free below it, and
      initialisation, allocation and free keep it so.
    - Kernel heap: an object returned by [kmalloc] is apart from every other object.  A small one has the size
      asked for; a large one, of 4088 bytes or more and below 2 GB, has the fewest pages 2^o that leave at most
      2^o - 1 bytes of it without room, since the code rounds down where it should round up (a finding).
      [kfree] gives the object back: each of its addresses, and each that could be used before, can be used by
      a later allocation, and the list of free blocks and the objects account for the whole heap.
    - Swapping: the page chosen is written and unmapped, its entry names its slot, and a later fault on the
      address brings the same bytes back; the clock hand finds a page within two rounds.
    - Page faults: an access that the area permits ends with the page mapped as the area says, any other
      with an error and nothing changed.
    - Page tables: insertion, removal and range unmapping change the translation and the reference counts
      as intended, and nothing else; when an insertion needs a table and no frame is free it fails, and nothing
      has changed, unless the kernel swaps and then faults ([Swap.out_of_memory_faults], a finding); the loops
      end within the fuel.
    - Areas: the list stays sorted and disjoint, the lookup with its cache finds the area of an address,
      and the check of user memory accepts exactly the ranges that are covered with the right access.
    - Scheduling: [schedule] runs the process that the class picks and queues the running one; under
      round robin every queued process runs within as many rounds as there are processes; timers expire in
      order; semaphores neither lose nor invent units and never fail an assertion; in a monitor one process
      at a time is active, however the processes interleave, and a signal finds a process that waits.
    - Processes: identifiers are unique, the search for one ends, fork and exit keep the table, the
      process list, the hash table and the family links consistent.
    - Whole processes: the child of a fork has a copy of every page of its parent, in frames of its own, and a
      kernel stack that no other process has, at whose top is the trap frame it starts from; exit gives back
      exactly the frames of the address space, and leaves those of every other process alone.
    - Programs: if all its loadable segments have bytes in the file (the code passes over the others, a finding)
      and lie in separate pages, [load_icode] succeeds, and the memory of the process is what the program
      headers say, with the bytes of the file read through the whole file system, zeros behind them, and up to
      32 arguments, of 16 KB at most, on the stack below the registers' start values.
    - System calls: a stub that a program calls has the effect and the result of the kernel function of
      its name, on the arguments it was given, and leaves the other registers alone.
    - Files: a write below the 4144 KB that the block map of an inode can address stores its bytes, allocates
      blocks no other file has and leaves every other byte alone; a read after it returns them; lookups in the block map fill at most one new block.
    - Disk images: from a directory that fits, the tool builds an image that the kernel mounts; looking up the names
      on the path of a file of the host and reading what was found gives the bytes of the file.
    - Open files: after any sequence of calls by any processes, the open count of every inode is the
      number of descriptors that hold it, and no descriptor refers to an inode that was reclaimed.
    - System calls on files: a write passes the bytes of the caller's memory to the file and a read those
      of the file to memory, in rounds of the kernel buffer, up to the first short round; a bad pointer is
      an error; the buffers of this layer and the lock of the address space are given back on every path.  The
      file system below counts the objects it does not give back ([SfsDisk.heap_log]); creating a file loses some
      ([Opens.create_leaks], a finding).
    - Drivers: the disk driver makes the sectors one sequence of bytes; what is typed is read in order,
      each byte once; a reader that waits is woken by a key or by a kill, and leaves the queue either way.
    - Strings: [memmove] is a copy also for overlapping ranges, [vsnprintf] never writes past its buffer and
      returns the full length, for every buffer that its test of the wrapped end address accepts, and [strtol]
      reads back what [snprintf] printed.
    - Console: a character put is on the screen at the cursor and has been sent to both ports; the input
      buffer is a queue as long as it does not overrun; [readline] returns the edited line.
    - The theorems that a finding of the code refers to state the failure: a scheduling class switched
      under queued processes, a kill that breaks the process list, a next-fit search from the list head.

    ** Bounds and fuel

    Loops over lists and ranges are structural, over the list or over the number of pages or blocks of
    the range.  Where the code follows pointers or repeats a search, the fuel is a measure that the
    theorems show to be enough: the number of list entries (walks in [Dll], [Vma], [Timers]), the depth of
    the heap ([SkewHeap]), the number of pages of the range ([PageTable]), twice the number of
    identifiers for the restarts of [get_pid] ([Proc]), the number of cells of the heap ([Slob]), one more
    than the number of links for a round of the clock ([Swap]), one more than the bytes of the memory for a
    scan of a string ([Cstring]), 64 digits for a number ([Cstring]), 33 halvings of a word ([Buddy]), one
    more than the bytes that wait in the devices for polling ([Console]), whose wait for a port is bounded
    in the code itself, one more round than bytes for a transfer ([Sysfile]), the number of blocks
    ([Devices]), three more than the pages of a segment ([Exec]),
    two more rounds than full blocks of a file ([Mksfs]), the pages or the page tables of the range
    ([AddrSpace], [ExitSpace]).  [FILES_STRUCT_NENTRY] and the sizes of the disk
    structures are the values the C expressions have on this machine.

    Counters that the code keeps in an [int] and that count objects in memory (references of a page, areas of an
    address space, descriptors of a file) are values of [Z] without a bound: they are smaller than memory.

    ** Not modelled

    The boot loader and start-up code, the interrupt descriptor table and the entry from assembly code,
    context switches, and the debugging aids: they act on the machine and keep little logic of their own.
    The code of [do_execve] around [load_icode], [do_malloc] and the kernel threads are not modelled.  Outside
    the self tests [check_mm_struct] is NULL, and the branches for another value ([pgdir_alloc_page]) are not there.  The
    LRU replacement (swap_lru.c) uses the result of a comparison as a pointer, and has no meaning to model.
    The other tools write the signature of the boot sector and the interrupt vectors.  The self tests of the
    components (the [check] functions) are test code, of which only those of the buddy manager are modelled.
    User programs are not part of the kernel, but for the stubs of their system calls. *)
From stdpp Require Export base list gmap fin_maps strings sets sorting.
From Stdlib Require Export ZArith Lia.

#[global] Open Scope Z_scope.
Set Default Proof Using "Type".

(** * Outcomes of kernel code *)

(** A piece of kernel code ends in one of four ways.  [Ret] is a normal return.  [EPanic] is a
    failed [assert] or a call of [panic] (kern/debug/assert.h, kern/debug/panic.c): the kernel
    stops.  [EFault] is an access through a pointer that designates no modelled object.  [EFuel]
    is what a bounded unrolling of a loop answers when the bound is used up. *)
Inductive err : Type :=
| EPanic
| EFault
| EFuel.

Inductive res (A : Type) : Type :=
| Ret (a : A)
| Err (e : err).
Arguments Ret {A} a.
Arguments Err {A} e.

#[export] Instance err_eq_dec : EqDecision err.
Proof. solve_decision. Defined.

#[export] Instance res_ret : MRet res := λ A a, Ret a.
#[export] Instance res_bind : MBind res := λ A B f m,
  match m with
  | Ret a => f a
  | Err e => Err e
  end.
#[export] Instance res_fmap : FMap res := λ A B f m,
  match m with
  | Ret a => Ret (f a)
  | Err e => Err e
  end.

(** The state and error monad in which the stateful code is written: [S] is the state of the
    component, an error discards the state. *)
Definition M (S A : Type) : Type := S → res (A * S).

#[export] Instance M_ret {S} : MRet (M S) := λ A a s, Ret (a, s).
#[export] Instance M_bind {S} : MBind (M S) := λ A B f m s,
  match m s with
  | Ret (a, s') => f a s'
  | Err e => Err e
  end.

Definition get {S} : M S S := λ s, Ret (s, s).
Definition gets {S A} (f : S → A) : M S A := λ s, Ret (f s, s).
Definition put {S} (s : S) : M S unit := λ _, Ret (tt, s).
Definition modify {S} (f : S → S) : M S unit := λ s, Ret (tt, f s).
Definition fail {S A} (e : err) : M S A := λ _, Err e.

(** [assert(b)] of kern/debug/assert.h. *)
Definition assert {S} (b : bool) : M S unit := λ s, if b then Ret (tt, s) else Err EPanic.

(** Dereferencing a pointer: an absent object is a fault. *)
Definition deref {S A} (f : S → option A) : M S A := λ s,
  match f s with
  | Some a => Ret (a, s)
  | None => Err EFault
  end.

Definition when {S} (b : bool) (m : M S unit) : M S unit := if b then m else mret tt.

(** * Machine integers *)

(** A w-bit unsigned integer is the [Z] in [0 .. 2^w - 1] it denotes; arithmetic that may leave
    the range is followed by [u32] and its like.  A signed 32-bit value is obtained with [s32]. *)
Definition u8 (x : Z) : Z := x mod 2 ^ 8.
Definition u16 (x : Z) : Z := x mod 2 ^ 16.
Definition u32 (x : Z) : Z := x mod 2 ^ 32.
Definition u64 (x : Z) : Z := x mod 2 ^ 64.
Definition s32 (x : Z) : Z :=
  let y := u32 x in if decide (y < 2 ^ 31) then y else y - 2 ^ 32.

Notation is_u32 x := (0 ≤ x < 2 ^ 32).

Lemma u32_small x : is_u32 x → u32 x = x.
Proof. intros. unfold u32. by apply Z.mod_small. Qed.

Lemma u32_range x : is_u32 (u32 x).
Proof. unfold u32. apply Z.mod_pos_bound. lia. Qed.

Lemma s32_range x : - 2 ^ 31 ≤ s32 x < 2 ^ 31.
Proof. unfold s32. pose proof (u32_range x). case_decide; lia. Qed.

Lemma s32_small x : - 2 ^ 31 ≤ x < 2 ^ 31 → s32 x = x.
Proof.
  intros. unfold s32, u32.
  destruct (decide (0 ≤ x)).
  - rewrite Z.mod_small by lia. case_decide; lia.
  - replace (x mod 2 ^ 32) with (x + 2 ^ 32).
    + case_decide; lia.
    + apply (Z.mod_unique_pos _ _ (-1)); lia.
Qed.

(** * Automation *)

Create HintDb linos.

(** Unfolds the monad and steps through the first binds. *)
Ltac unM := unfold mbind, mret, M_bind, M_ret, res_bind, res_ret, get, gets, put, modify,
  fail, assert, deref, when in *; simpl in *.

(** Decomposes a run [m s = Ret (a, s')] of a bind. *)
Lemma M_bind_Ret {S A B} (m : M S A) (f : A → M S B) s b s' :
  (m ≫= f) s = Ret (b, s') ↔ ∃ a s1, m s = Ret (a, s1) ∧ f a s1 = Ret (b, s').
Proof.
  unfold mbind, M_bind. destruct (m s) as [[a s1]|e]; naive_solver.
Qed.

(** Runs the first action of a bind with the equation [L]. *)
Lemma M_bind_step {S A B} (m : M S A) (f : A → M S B) s a s1 :
  m s = Ret (a, s1) → (m ≫= f) s = f a s1.
Proof. intros E. unfold mbind, M_bind. by rewrite E. Qed.

Lemma M_bind_err {S A B} (m : M S A) (f : A → M S B) s e :
  m s = Err e → (m ≫= f) s = Err e.
Proof. intros E. unfold mbind, M_bind. by rewrite E. Qed.

Tactic Notation "step_by" uconstr(L) := erewrite (M_bind_step _ _ _ _ _ L).
Tactic Notation "step" "using" tactic(t) :=
  erewrite M_bind_step; [|t].

Ltac bind_inv H :=
  let a := fresh "a" in let s1 := fresh "s" in let H1 := fresh H in
  apply M_bind_Ret in H as (a & s1 & H1 & H).

(** Case analysis on every [if], [decide] and [match] scrutinee of the goal or a hypothesis. *)
Ltac case_all :=
  repeat match goal with
  | |- context [decide ?P] => destruct (decide P)
  | H : context [decide ?P] |- _ => destruct (decide P)
  | |- context [if ?b then _ else _] => destruct b eqn:?
  | H : context [if ?b then _ else _] |- _ => destruct b eqn:?
  end.

(** Boolean comparisons of [Z] as propositions. *)
Ltac z_bool :=
  repeat match goal with
  | H : (_ <? _) = true |- _ => apply Z.ltb_lt in H
  | H : (_ <? _) = false |- _ => apply Z.ltb_ge in H
  | H : (_ <=? _) = true |- _ => apply Z.leb_le in H
  | H : (_ <=? _) = false |- _ => apply Z.leb_gt in H
  | H : (_ =? _) = true |- _ => apply Z.eqb_eq in H
  | H : (_ =? _) = false |- _ => apply Z.eqb_neq in H
  end.

(** * Lists *)

Definition Zsum (l : list Z) : Z := foldr Z.add 0 l.

Lemma Zsum_app l1 l2 : Zsum (l1 ++ l2) = Zsum l1 + Zsum l2.
Proof. induction l1; simpl; lia. Qed.

#[export] Instance Zsum_perm : Proper ((≡ₚ) ==> (=)) Zsum.
Proof. induction 1; simpl; lia. Qed.

Lemma filter_all {A} (P : A → Prop) `{!∀ x, Decision (P x)} l : Forall P l → filter P l = l.
Proof. induction 1; [done|]. rewrite filter_cons_True by done. by f_equal. Qed.

Lemma filter_none {A} (P : A → Prop) `{!∀ x, Decision (P x)} l :
  Forall (λ x, ¬ P x) l → filter P l = [].
Proof. induction 1; [done|]. by rewrite filter_cons_False. Qed.

Lemma find_ext_in {A} (f g : A → bool) l : (∀ x, x ∈ l → f x = g x) → List.find f l = List.find g l.
Proof.
  induction l as [|x l IH]; intros H; [done|]. simpl. rewrite (H x) by set_solver. case_match; [done|].
  apply IH. set_solver.
Qed.

Lemma find_some_in {A} (f : A → bool) l x : List.find f l = Some x → x ∈ l.
Proof. intros Hf. apply List.find_some in Hf as [Hf _]. by apply list_elem_of_In. Qed.

(** * Constants and macros of libs/error.h, libs/defs.h and kern/mm/mmu.h *)

Definition E_INVAL : Z := 3.
Definition E_NO_MEM : Z := 4.
Definition E_NO_FREE_PROC : Z := 5.
Definition E_BAD_PROC : Z := 2.
Definition E_SWAP_FAULT : Z := 7.
Definition E_KILLED : Z := 9.
Definition E_TIMEOUT : Z := 11.
Definition E_TOO_BIG : Z := 12.
Definition E_NOENT : Z := 16.
Definition E_ISDIR : Z := 17.
Definition E_NOTDIR : Z := 18.
Definition E_MAX_OPEN : Z := 22.
Definition E_EXISTS : Z := 23.

Definition ROUNDDOWN (a n : Z) : Z := a - a mod n.
Definition ROUNDUP (a n : Z) : Z := ROUNDDOWN (u32 (a + n - 1)) n.

Definition PGSIZE : Z := 4096.
Definition PTSIZE : Z := 4096 * 1024.

Lemma ROUNDDOWN_spec a n : 0 < n → ROUNDDOWN a n = n * (a / n).
Proof. intros. unfold ROUNDDOWN. pose proof (Z.div_mod a n). lia. Qed.

Lemma ROUNDDOWN_le a n : 0 < n → ROUNDDOWN a n ≤ a < ROUNDDOWN a n + n.
Proof. intros. unfold ROUNDDOWN. pose proof (Z.mod_pos_bound a n). lia. Qed.

Lemma ROUNDDOWN_mod a n : 0 < n → ROUNDDOWN a n mod n = 0.
Proof. intros. rewrite ROUNDDOWN_spec by done. rewrite Z.mul_comm. apply Z.mod_mul. lia. Qed.
