(* ===== verification/Dll.v ===== *)
(** libs/list.h: the intrusive circular doubly linked list, at the level of the pointers, and its
    refinement to sequences.

    [heap] maps the address of a [list_entry_t] to its two fields.  [dlist h head l] says that the
    entries [l], in this order, are linked behind the list head [head].  The [seq_*] functions are
    what the operations do to the sequence; the other components keep a C list as that sequence and
    change it with the [seq_*] functions, which the theorems of this file justify. *)
From S2P Require Import Prelude.

Module Dll.

(** [struct list_entry]. *)
Record list_entry := mk_entry { prev : Z; next : Z }.

Notation heap := (gmap Z list_entry).

Definition load (p : Z) : M heap list_entry := deref (λ h, h !! p).

(** [p->next = v] and [p->prev = v]. *)
Definition set_next (p v : Z) : M heap unit :=
  e ← load p; modify (λ h, <[p := mk_entry (prev e) v]> h).
Definition set_prev (p v : Z) : M heap unit :=
  e ← load p; modify (λ h, <[p := mk_entry v (next e)]> h).

Definition list_init (elm : Z) : M heap unit :=
  set_next elm elm ;; set_prev elm elm.

Definition list_next (listelm : Z) : M heap Z := e ← load listelm; mret (next e).
Definition list_prev (listelm : Z) : M heap Z := e ← load listelm; mret (prev e).

Definition list_empty (list : Z) : M heap bool :=
  n ← list_next list; mret (bool_decide (n = list)).

(** [prev->next = next->prev = elm; elm->next = next; elm->prev = prev;] *)
Definition __list_add (elm prv nxt : Z) : M heap unit :=
  set_prev nxt elm ;; set_next prv elm ;; set_next elm nxt ;; set_prev elm prv.

(** [prev->next = next; next->prev = prev;] *)
Definition __list_del (prv nxt : Z) : M heap unit :=
  set_next prv nxt ;; set_prev nxt prv.

Definition list_add_before (listelm elm : Z) : M heap unit :=
  p ← list_prev listelm; __list_add elm p listelm.

Definition list_add_after (listelm elm : Z) : M heap unit :=
  n ← list_next listelm; __list_add elm listelm n.

Definition list_add (listelm elm : Z) : M heap unit := list_add_after listelm elm.

Definition list_del (listelm : Z) : M heap unit :=
  e ← load listelm; __list_del (prev e) (next e).

Definition list_del_init (listelm : Z) : M heap unit :=
  list_del listelm ;; list_init listelm.

(** * What a well-formed list is *)

Definition nexts (h : heap) (path : list Z) : Prop :=
  ∀ i a b, path !! i = Some a → path !! S i = Some b → next <$> h !! a = Some b.
Definition prevs (h : heap) (path : list Z) : Prop :=
  ∀ i a b, path !! i = Some a → path !! S i = Some b → prev <$> h !! b = Some a.

(** The entries visited from the head back to the head. *)
Definition cycle (head : Z) (l : list Z) : list Z := head :: l ++ [head].

Definition dlist (h : heap) (head : Z) (l : list Z) : Prop :=
  NoDup (head :: l) ∧ nexts h (cycle head l) ∧ prevs h (cycle head l).

(** The entries a list occupies. *)
Definition entries (head : Z) (l : list Z) : list Z := head :: l.

(** [h] and [h'] agree on the entries [D]. *)
Definition agree_on (D : list Z) (h h' : heap) : Prop := ∀ a, a ∈ D → h !! a = h' !! a.

(** * Operations on sequences *)

(** [seq_add_before y x l]: [x] in front of the entry [y] of [l]; [y] is [None] for the list
    head, in front of which is the end of the sequence. *)
Fixpoint seq_insert_before {A} `{EqDecision A} (y x : A) (l : list A) : list A :=
  match l with
  | [] => []
  | z :: l' => if decide (z = y) then x :: z :: l' else z :: seq_insert_before y x l'
  end.

Definition seq_add_before {A} `{EqDecision A} (y : option A) (x : A) (l : list A) : list A :=
  match y with
  | None => l ++ [x]
  | Some y => seq_insert_before y x l
  end.

Fixpoint seq_insert_after {A} `{EqDecision A} (y x : A) (l : list A) : list A :=
  match l with
  | [] => []
  | z :: l' => if decide (z = y) then z :: x :: l' else z :: seq_insert_after y x l'
  end.

Definition seq_add_after {A} `{EqDecision A} (y : option A) (x : A) (l : list A) : list A :=
  match y with
  | None => x :: l
  | Some y => seq_insert_after y x l
  end.

Definition seq_del {A} `{EqDecision A} (x : A) (l : list A) : list A :=
  filter (λ y, y ≠ x) l.

Section seq.
Context {A : Type} `{EqDecision A}.
Implicit Types (x y : A) (l : list A).

Lemma seq_insert_before_split y x l1 l2 :
  y ∉ l1 → seq_insert_before y x (l1 ++ y :: l2) = l1 ++ x :: y :: l2.
Proof.
  induction l1 as [|z l1 IH]; intros Hy; simpl.
  - by rewrite decide_True.
  - apply not_elem_of_cons in Hy as [??]. rewrite decide_False by done. by rewrite IH.
Qed.

Lemma seq_insert_after_split y x l1 l2 :
  y ∉ l1 → seq_insert_after y x (l1 ++ y :: l2) = l1 ++ y :: x :: l2.
Proof.
  induction l1 as [|z l1 IH]; intros Hy; simpl.
  - by rewrite decide_True.
  - apply not_elem_of_cons in Hy as [??]. rewrite decide_False by done. by rewrite IH.
Qed.

Lemma seq_del_not_in x l : x ∉ l → seq_del x l = l.
Proof.
  unfold seq_del. induction l as [|z l IH]; intros Hx; [done|].
  apply not_elem_of_cons in Hx as [??].
  rewrite filter_cons_True by congruence. by rewrite IH.
Qed.

Lemma seq_del_split x l1 l2 :
  x ∉ l1 → x ∉ l2 → seq_del x (l1 ++ x :: l2) = l1 ++ l2.
Proof.
  intros H1 H2. unfold seq_del. rewrite filter_app.
  rewrite filter_cons_False by naive_solver.
  f_equal; by apply seq_del_not_in.
Qed.

Lemma elem_of_seq_del x y l : y ∈ seq_del x l ↔ y ≠ x ∧ y ∈ l.
Proof. unfold seq_del. by rewrite list_elem_of_filter. Qed.

Lemma seq_insert_before_perm y x l :
  y ∈ l → seq_insert_before y x l ≡ₚ x :: l.
Proof.
  induction l as [|z l IH]; intros Hy; simpl; [by apply elem_of_nil in Hy|].
  case_decide; [done|].
  apply elem_of_cons in Hy as [->|Hy]; [done|].
  rewrite IH by done. constructor.
Qed.

Lemma seq_insert_after_perm y x l :
  y ∈ l → seq_insert_after y x l ≡ₚ x :: l.
Proof.
  induction l as [|z l IH]; intros Hy; simpl; [by apply elem_of_nil in Hy|].
  case_decide; [constructor|].
  apply elem_of_cons in Hy as [->|Hy]; [done|].
  rewrite IH by done. constructor.
Qed.

Lemma seq_del_perm x l : NoDup l → x ∈ l → x :: seq_del x l ≡ₚ l.
Proof.
  intros Hnd Hx. apply list_elem_of_split in Hx as (l1 & l2 & ->).
  apply NoDup_app in Hnd as (? & Hd & Hnd2). apply NoDup_cons in Hnd2 as [??].
  rewrite seq_del_split; [|set_solver|done].
  by rewrite Permutation_middle.
Qed.
End seq.

(** * Effect of the pointer updates *)

Lemma set_next_run h p v e :
  h !! p = Some e → set_next p v h = Ret (tt, <[p := mk_entry (prev e) v]> h).
Proof. intros E. unfold set_next, load. unM. by rewrite E. Qed.

Lemma set_prev_run h p v e :
  h !! p = Some e → set_prev p v h = Ret (tt, <[p := mk_entry v (next e)]> h).
Proof. intros E. unfold set_prev, load. unM. by rewrite E. Qed.

(** The fields of every entry after [__list_add]. *)
Lemma __list_add_run h elm prv nxt :
  is_Some (h !! elm) → is_Some (h !! prv) → is_Some (h !! nxt) → elm ≠ prv → elm ≠ nxt →
  ∃ h', __list_add elm prv nxt h = Ret (tt, h') ∧
    (∀ a, next <$> h' !! a = if decide (a = elm) then Some nxt
                             else if decide (a = prv) then Some elm else next <$> h !! a) ∧
    (∀ a, prev <$> h' !! a = if decide (a = elm) then Some prv
                             else if decide (a = nxt) then Some elm else prev <$> h !! a).
Proof.
  intros [e He] [ep Hp] [en Hn] Hep Hen. unfold __list_add.
  step using (by apply set_prev_run). destruct (decide (prv = nxt)) as [<-|Hne].
  - assert (ep = en) as <- by congruence.
    step using (by apply set_next_run, lookup_insert_eq).
    step using (apply set_next_run; by rewrite !lookup_insert_ne by done).
    erewrite set_prev_run by apply lookup_insert_eq.
    eexists; split; [done|].
    split; intros a; rewrite !lookup_insert; repeat case_decide; naive_solver.
  - step using (apply set_next_run; by rewrite lookup_insert_ne by done).
    step using (apply set_next_run; by rewrite !lookup_insert_ne by done).
    erewrite set_prev_run by apply lookup_insert_eq.
    eexists; split; [done|].
    split; intros a; rewrite !lookup_insert; repeat case_decide; simplify_eq/=; try done;
      by rewrite ?Hn, ?Hp.
Qed.

Lemma __list_del_run h prv nxt :
  is_Some (h !! prv) → is_Some (h !! nxt) →
  ∃ h', __list_del prv nxt h = Ret (tt, h') ∧
    (∀ a, next <$> h' !! a = if decide (a = prv) then Some nxt else next <$> h !! a) ∧
    (∀ a, prev <$> h' !! a = if decide (a = nxt) then Some prv else prev <$> h !! a).
Proof.
  intros [ep Hp] [en Hn]. unfold __list_del.
  step using (by apply set_next_run). destruct (decide (prv = nxt)) as [<-|Hne].
  - assert (ep = en) as <- by congruence.
    erewrite set_prev_run by apply lookup_insert_eq.
    eexists; split; [done|].
    split; intros a; rewrite !lookup_insert; repeat case_decide; naive_solver.
  - erewrite set_prev_run by (by rewrite lookup_insert_ne by done).
    eexists; split; [done|].
    split; intros a; rewrite !lookup_insert; repeat case_decide; simplify_eq/=; try done;
      by rewrite ?Hn, ?Hp.
Qed.

Lemma list_init_run h elm :
  is_Some (h !! elm) → list_init elm h = Ret (tt, <[elm := mk_entry elm elm]> h).
Proof.
  intros [e He]. unfold list_init. step using (by apply set_next_run).
  erewrite set_prev_run by apply lookup_insert_eq. simpl. by rewrite insert_insert_eq.
Qed.

(** * Splicing an entry into or out of a path *)

(** [path] visits [a] as a source of a [next] link only at position [k]. *)
Lemma nexts_insert h h' p a b q x :
  nexts h (p ++ a :: b :: q) →
  (∀ i, (p ++ a :: b :: q) !! i = Some a → (S i < length (p ++ a :: b :: q))%nat → i = length p) →
  x ∉ p ++ a :: b :: q →
  (∀ c, next <$> h' !! c = if decide (c = x) then Some b
                           else if decide (c = a) then Some x else next <$> h !! c) →
  nexts h' (p ++ a :: x :: b :: q).
Proof.
  intros Hn Hu Hx Hh i u v Hi HSi.
  assert (∀ j w, (p ++ a :: b :: q) !! j = Some w → w ≠ x) as Hne.
  { intros j w Hj ->. apply Hx. by eapply list_elem_of_lookup_2. }
  rewrite Hh. destruct (decide (i < length p)%nat) as [Hlt|Hge].
  - rewrite lookup_app_l in Hi by done.
    assert ((p ++ a :: b :: q) !! i = Some u) as Hi' by by rewrite lookup_app_l.
    assert ((p ++ a :: b :: q) !! S i = Some v) as HSi'.
    { destruct (decide (S i < length p)%nat).
      - rewrite lookup_app_l in HSi |- * by done. done.
      - rewrite lookup_app_r in HSi |- * by lia.
        by replace (S i - length p)%nat with 0%nat in * by lia. }
    rewrite decide_False by eauto. rewrite decide_False; [by eapply Hn|].
    intros ->. assert (i = length p); [|lia].
    apply Hu; [done|]. rewrite length_app; simpl; lia.
  - rewrite lookup_app_r in Hi, HSi by lia.
    replace (S i - length p)%nat with (S (i - length p)) in HSi by lia.
    remember (i - length p)%nat as k eqn:Hk.
    destruct k as [|[|k]]; simplify_eq/=.
    + rewrite decide_False; [by rewrite decide_True|]. apply (Hne (length p)).
      rewrite lookup_app_r by lia. by rewrite Nat.sub_diag.
    + by rewrite decide_True.
    + assert ((p ++ a :: b :: q) !! (length p + S k)%nat = Some u) as Hu'.
      { rewrite lookup_app_r by lia. by replace (length p + S k - length p)%nat with (S k) by lia. }
      assert ((p ++ a :: b :: q) !! S (length p + S k) = Some v) as Hv'.
      { rewrite lookup_app_r by lia.
        by replace (S (length p + S k) - length p)%nat with (S (S k)) by lia. }
      rewrite decide_False by eauto. rewrite decide_False; [by eapply Hn|].
      intros ->. apply Hu in Hu'; [lia|]. by apply lookup_lt_Some in Hv'.
Qed.

Lemma nexts_delete h h' p a x b q :
  nexts h (p ++ a :: x :: b :: q) →
  (∀ i, (p ++ a :: x :: b :: q) !! i = Some a →
        (S i < length (p ++ a :: x :: b :: q))%nat → i = length p) →
  (∀ c, next <$> h' !! c = if decide (c = a) then Some b else next <$> h !! c) →
  nexts h' (p ++ a :: b :: q).
Proof.
  intros Hn Hu Hh i u v Hi HSi. rewrite Hh.
  destruct (decide (i < length p)%nat) as [Hlt|Hge].
  - rewrite lookup_app_l in Hi by done.
    assert ((p ++ a :: x :: b :: q) !! i = Some u) as Hi' by by rewrite lookup_app_l.
    assert ((p ++ a :: x :: b :: q) !! S i = Some v) as HSi'.
    { destruct (decide (S i < length p)%nat).
      - rewrite lookup_app_l in HSi |- * by done. done.
      - rewrite lookup_app_r in HSi |- * by lia.
        by replace (S i - length p)%nat with 0%nat in * by lia. }
    rewrite decide_False; [by eapply Hn|].
    intros ->. assert (i = length p); [|lia].
    apply Hu; [done|]. rewrite length_app; simpl; lia.
  - rewrite lookup_app_r in Hi, HSi by lia.
    replace (S i - length p)%nat with (S (i - length p)) in HSi by lia.
    remember (i - length p)%nat as k eqn:Hk.
    destruct k as [|k]; simplify_eq/=.
    + by rewrite decide_True.
    + assert ((p ++ a :: x :: b :: q) !! (length p + S (S k))%nat = Some u) as Hu'.
      { rewrite lookup_app_r by lia.
        by replace (length p + S (S k) - length p)%nat with (S (S k)) by lia. }
      assert ((p ++ a :: x :: b :: q) !! S (length p + S (S k)) = Some v) as Hv'.
      { rewrite lookup_app_r by lia.
        by replace (S (length p + S (S k)) - length p)%nat with (S (S (S k))) by lia. }
      rewrite decide_False; [by eapply Hn|].
      intros ->. apply Hu in Hu'; [lia|]. by apply lookup_lt_Some in Hv'.
Qed.

(** Swapping the two fields of every entry turns [prevs] into [nexts] of the reversed path. *)
Definition flip_entry (e : list_entry) : list_entry := mk_entry (next e) (prev e).
Definition mirror (h : heap) : heap := flip_entry <$> h.

Lemma mirror_next h a : next <$> mirror h !! a = prev <$> h !! a.
Proof. unfold mirror. rewrite lookup_fmap. by destruct (h !! a). Qed.

Lemma prevs_mirror h path : prevs h path ↔ nexts (mirror h) (reverse path).
Proof.
  assert (∀ i a b, path !! i = Some a → path !! S i = Some b →
    reverse path !! (length path - S (S i))%nat = Some b ∧
    reverse path !! S (length path - S (S i)) = Some a) as Hfw.
  { intros i a b Ha Hb. pose proof (lookup_lt_Some _ _ _ Hb).
    rewrite !reverse_lookup by lia.
    replace (length path - S (length path - S (S i)))%nat with (S i) by lia.
    replace (length path - S (S (length path - S (S i))))%nat with i by lia. done. }
  split.
  - intros Hp i b a Hb Ha. rewrite mirror_next.
    pose proof (lookup_lt_Some _ _ _ Ha) as Hl. rewrite length_reverse in Hl.
    rewrite reverse_lookup in Ha, Hb by lia.
    eapply (Hp (length path - S (S i))%nat); [done|].
    by replace (S (length path - S (S i))) with (length path - S i)%nat by lia.
  - intros Hn i a b Ha Hb. rewrite <-mirror_next.
    destruct (Hfw i a b Ha Hb) as [Hb' Ha']. by eapply Hn.
Qed.

Lemma entry_ext (h h' : heap) c :
  next <$> h' !! c = next <$> h !! c → prev <$> h' !! c = prev <$> h !! c → h' !! c = h !! c.
Proof. destruct (h !! c) as [[]|], (h' !! c) as [[]|]; naive_solver. Qed.

Lemma NoDup_lookup_unique {A} (l : list A) i j x :
  NoDup l → l !! i = Some x → l !! j = Some x → i = j.
Proof. intros Hnd Hi Hj. by eapply NoDup_lookup. Qed.

Lemma cycle_source_unique head l i j a :
  NoDup (head :: l) → cycle head l !! i = Some a → cycle head l !! j = Some a →
  (S i < length (cycle head l))%nat → (S j < length (cycle head l))%nat → i = j.
Proof.
  unfold cycle. intros Hnd Hi Hj Hli Hlj.
  rewrite app_comm_cons in Hi, Hj, Hli, Hlj. rewrite length_app in Hli, Hlj. simpl in Hli, Hlj.
  rewrite lookup_app_l in Hi by (simpl; lia). rewrite lookup_app_l in Hj by (simpl; lia).
  by eapply NoDup_lookup_unique.
Qed.

(** Reversing a cycle gives the cycle of the reversed list. *)
Lemma reverse_cycle head l : reverse (cycle head l) = cycle head (reverse l).
Proof. unfold cycle. by rewrite reverse_cons, reverse_app. Qed.

Lemma NoDup_cons_reverse (head : Z) l : NoDup (head :: l) → NoDup (head :: reverse l).
Proof. by rewrite reverse_Permutation. Qed.

Lemma splice_reverse (p q : list Z) a b :
  reverse (p ++ a :: b :: q) = reverse q ++ b :: a :: reverse p.
Proof. rewrite reverse_app, !reverse_cons, <-!app_assoc. done. Qed.

Lemma dlist_insert h h' head l l' p a b q x :
  dlist h head l → cycle head l = p ++ a :: b :: q → cycle head l' = p ++ a :: x :: b :: q →
  x ∉ head :: l →
  (∀ c, next <$> h' !! c = if decide (c = x) then Some b
                           else if decide (c = a) then Some x else next <$> h !! c) →
  (∀ c, prev <$> h' !! c = if decide (c = x) then Some a
                           else if decide (c = b) then Some x else prev <$> h !! c) →
  dlist h' head l'.
Proof.
  intros (Hnd & Hn & Hp) Hc Hc' Hx Hnx Hpx.
  assert (x ∉ cycle head l) as Hx' by (unfold cycle; set_solver).
  split_and!.
  - assert (head :: l' ≡ₚ x :: head :: l) as ->.
    { apply (inj (.++ [head])). simpl. unfold cycle in Hc, Hc'.
      rewrite Hc', Hc. rewrite <-!Permutation_middle. by constructor. }
    by constructor.
  - rewrite Hc'. eapply nexts_insert; [by rewrite <-Hc| |by rewrite <-Hc|done].
    rewrite <-Hc. intros i Hi Hli. eapply (cycle_source_unique head l); try done.
    + rewrite Hc. rewrite lookup_app_r by lia. by rewrite Nat.sub_diag.
    + rewrite Hc, length_app; simpl; lia.
  - rewrite prevs_mirror, Hc', (splice_reverse p (b :: q)), reverse_cons, <-app_assoc. simpl.
    rewrite prevs_mirror, reverse_cycle in Hp.
    assert (reverse q ++ b :: a :: reverse p = cycle head (reverse l)) as Hrc
      by by rewrite <-reverse_cycle, Hc, splice_reverse.
    eapply (nexts_insert (mirror h)).
    + by rewrite Hrc.
    + rewrite Hrc. intros i Hi Hli. eapply (cycle_source_unique head (reverse l)); try done.
      * by apply NoDup_cons_reverse.
      * rewrite <-Hrc, lookup_app_r by lia. by rewrite Nat.sub_diag.
      * rewrite <-Hrc, length_app; simpl; lia.
    + rewrite Hrc. unfold cycle. set_solver.
    + intros c. by rewrite !mirror_next.
Qed.

Lemma dlist_delete h h' head l l' p a x b q :
  dlist h head l → cycle head l = p ++ a :: x :: b :: q → cycle head l' = p ++ a :: b :: q →
  (∀ c, next <$> h' !! c = if decide (c = a) then Some b else next <$> h !! c) →
  (∀ c, prev <$> h' !! c = if decide (c = b) then Some a else prev <$> h !! c) →
  dlist h' head l'.
Proof.
  intros (Hnd & Hn & Hp) Hc Hc' Hnx Hpx. split_and!.
  - assert (head :: l ≡ₚ x :: head :: l') as Hperm.
    { apply (inj (.++ [head])). simpl. unfold cycle in Hc, Hc'.
      rewrite Hc', Hc. rewrite <-!Permutation_middle. by constructor. }
    rewrite Hperm in Hnd. by apply NoDup_cons in Hnd as [_ ?].
  - rewrite Hc'. eapply nexts_delete; [by rewrite <-Hc| |done].
    rewrite <-Hc. intros i Hi Hli. eapply (cycle_source_unique head l); try done.
    + rewrite Hc. rewrite lookup_app_r by lia. by rewrite Nat.sub_diag.
    + rewrite Hc, length_app; simpl; lia.
  - rewrite prevs_mirror, Hc', splice_reverse. rewrite prevs_mirror, reverse_cycle in Hp.
    assert (reverse q ++ b :: x :: a :: reverse p = cycle head (reverse l)) as Hrc
      by by rewrite <-reverse_cycle, Hc, (splice_reverse p (b :: q)), reverse_cons, <-app_assoc.
    eapply (nexts_delete (mirror h)).
    + by rewrite Hrc.
    + rewrite Hrc. intros i Hi Hli. eapply (cycle_source_unique head (reverse l)); try done.
      * by apply NoDup_cons_reverse.
      * rewrite <-Hrc, lookup_app_r by lia. by rewrite Nat.sub_diag.
      * rewrite <-Hrc, length_app; simpl; lia.
    + intros c. by rewrite !mirror_next.
Qed.

(** * The operations refine their effect on the sequence *)

(** The address of a position of the list: [None] is the list head. *)
Definition addr (head : Z) (y : option Z) : Z := default head y.
Definition position_ok (l : list Z) (y : option Z) : Prop := ∀ z, y = Some z → z ∈ l.

Lemma cycle_at head l y : position_ok l y → NoDup (head :: l) →
  ∃ p q, cycle head l = p ++ addr head y :: q ∧ q ≠ [] ∧
    (∀ x, cycle head (seq_add_after y x l) = p ++ addr head y :: x :: q).
Proof.
  intros Hy Hnd. unfold cycle. destruct y as [y|]; simpl.
  - specialize (Hy y eq_refl). apply list_elem_of_split_l in Hy as (l1 & l2 & -> & Hl1).
    exists (head :: l1), (l2 ++ [head]). rewrite <-app_assoc. split_and!; [done|by destruct l2|].
    intros x. rewrite seq_insert_after_split by done. by rewrite <-app_assoc.
  - exists [], (l ++ [head]). split_and!; [done|by destruct l|done].
Qed.

Lemma cycle_before head l y : position_ok l y → NoDup (head :: l) →
  ∃ p q, cycle head l = p ++ addr head y :: q ∧ p ≠ [] ∧
    (∀ x, cycle head (seq_add_before y x l) = p ++ x :: addr head y :: q).
Proof.
  intros Hy Hnd. unfold cycle. destruct y as [y|]; simpl.
  - specialize (Hy y eq_refl). apply list_elem_of_split_l in Hy as (l1 & l2 & -> & Hl1).
    exists (head :: l1), (l2 ++ [head]). rewrite <-app_assoc. split_and!; [done|done|].
    intros x. rewrite seq_insert_before_split by done. by rewrite <-app_assoc.
  - exists (head :: l), []. split_and!; [done|done|]. intros x. by rewrite <-app_assoc.
Qed.

Lemma dlist_next h head l p a b q :
  dlist h head l → cycle head l = p ++ a :: b :: q → next <$> h !! a = Some b.
Proof.
  intros (_ & Hn & _) Hc. rewrite Hc in Hn. apply (Hn (length p)).
  - rewrite lookup_app_r by lia. by rewrite Nat.sub_diag.
  - rewrite lookup_app_r by lia. by replace (S (length p) - length p)%nat with 1%nat by lia.
Qed.

Lemma dlist_prev h head l p a b q :
  dlist h head l → cycle head l = p ++ a :: b :: q → prev <$> h !! b = Some a.
Proof.
  intros (_ & _ & Hp) Hc. rewrite Hc in Hp. apply (Hp (length p)).
  - rewrite lookup_app_r by lia. by rewrite Nat.sub_diag.
  - rewrite lookup_app_r by lia. by replace (S (length p) - length p)%nat with 1%nat by lia.
Qed.

Lemma field_Some {A} (f : list_entry → A) (h : heap) a b :
  f <$> h !! a = Some b → ∃ e, h !! a = Some e ∧ f e = b.
Proof. destruct (h !! a); naive_solver. Qed.

Lemma cycle_mem head l p a q : cycle head l = p ++ a :: q → a ∈ head :: l.
Proof.
  intros Hc. assert (a ∈ cycle head l) as Ha by (rewrite Hc; set_solver).
  unfold cycle in Ha. set_solver.
Qed.

Lemma cycle_mem2 head l p a b q : cycle head l = p ++ a :: b :: q → b ∈ head :: l.
Proof. intros Hc. eapply (cycle_mem _ _ (p ++ [a])). rewrite Hc. by rewrite <-app_assoc. Qed.

(** [h] and [h'] differ at most on [D]. *)
Definition unchanged_outside (D : list Z) (h h' : heap) : Prop := ∀ c, c ∉ D → h' !! c = h !! c.

Lemma list_add_after_run h head l y x :
  dlist h head l → position_ok l y → is_Some (h !! x) → x ∉ head :: l →
  ∃ h', list_add_after (addr head y) x h = Ret (tt, h') ∧
    dlist h' head (seq_add_after y x l) ∧ unchanged_outside (x :: head :: l) h h'.
Proof.
  intros Hd Hy Hx Hnx.
  destruct (cycle_at head l y Hy (proj1 Hd)) as (p & q & Hc & Hq & Hc').
  destruct q as [|b q]; [done|].
  pose proof (dlist_next _ _ _ _ _ _ _ Hd Hc) as Hna.
  pose proof (dlist_prev _ _ _ _ _ _ _ Hd Hc) as Hpb.
  apply field_Some in Hna as (ea & Ha & Hea). apply field_Some in Hpb as (eb & Hb & _).
  assert (addr head y ∈ head :: l) by by eapply cycle_mem.
  assert (b ∈ head :: l) by by eapply cycle_mem2.
  destruct (__list_add_run h x (addr head y) b) as (h' & Hrun & Hn & Hp); eauto; [set_solver..|].
  exists h'. split_and!.
  - unfold list_add_after, list_next, load. unM. by rewrite Ha, Hea.
  - eapply dlist_insert; eauto.
  - intros c Hcn. apply entry_ext; rewrite ?Hn, ?Hp; rewrite !decide_False by set_solver; done.
Qed.

Lemma list_add_before_run h head l y x :
  dlist h head l → position_ok l y → is_Some (h !! x) → x ∉ head :: l →
  ∃ h', list_add_before (addr head y) x h = Ret (tt, h') ∧
    dlist h' head (seq_add_before y x l) ∧ unchanged_outside (x :: head :: l) h h'.
Proof.
  intros Hd Hy Hx Hnx.
  destruct (cycle_before head l y Hy (proj1 Hd)) as (p & q & Hc & Hp0 & Hc').
  destruct (exists_last Hp0) as (p' & a & ->). rewrite <-app_assoc in Hc. simpl in Hc.
  setoid_rewrite <-app_assoc in Hc'. simpl in Hc'.
  pose proof (dlist_next _ _ _ _ _ _ _ Hd Hc) as Hna.
  pose proof (dlist_prev _ _ _ _ _ _ _ Hd Hc) as Hpb.
  apply field_Some in Hna as (ea & Ha & _). apply field_Some in Hpb as (eb & Hb & Heb).
  assert (a ∈ head :: l) by by eapply cycle_mem.
  assert (addr head y ∈ head :: l) by by eapply cycle_mem2.
  destruct (__list_add_run h x a (addr head y)) as (h' & Hrun & Hn & Hp); eauto; [set_solver..|].
  exists h'. split_and!.
  - unfold list_add_before, list_prev, load. unM. by rewrite Hb, Heb.
  - eapply dlist_insert; eauto.
  - intros c Hcn. apply entry_ext; rewrite ?Hn, ?Hp; rewrite !decide_False by set_solver; done.
Qed.

Lemma list_del_run h head l x :
  dlist h head l → x ∈ l →
  ∃ h', list_del x h = Ret (tt, h') ∧ h' !! x = h !! x ∧
    dlist h' head (seq_del x l) ∧ unchanged_outside (head :: l) h h'.
Proof.
  intros Hd Hx. apply list_elem_of_split_l in Hx as (l1 & l2 & -> & Hl1).
  pose proof (proj1 Hd) as Hnd. apply NoDup_cons in Hnd as [Hh Hnd].
  apply NoDup_app in Hnd as (_ & Hdj & Hnd2). apply NoDup_cons in Hnd2 as [Hl2 _].
  assert (∃ p a, cycle head (l1 ++ x :: l2) = p ++ a :: x :: l2 ++ [head] ∧
            head :: l1 = p ++ [a]) as (p & a & Hc & Hpa).
  { destruct (exists_last (l := head :: l1)) as (p & a & Hpa); [done|].
    exists p, a. split; [|done]. unfold cycle. rewrite <-app_assoc, app_comm_cons, Hpa.
    by rewrite <-app_assoc. }
  assert (∃ b q, l2 ++ [head] = b :: q) as (b & q & Hbq) by (destruct l2; eauto).
  rewrite Hbq in Hc.
  pose proof (dlist_next _ _ _ _ _ _ _ Hd Hc) as Hna.
  pose proof (dlist_prev _ _ _ _ _ _ _ Hd Hc) as Hpx.
  assert (cycle head (l1 ++ x :: l2) = (p ++ [a]) ++ x :: b :: q) as Hc2
    by by rewrite <-app_assoc.
  pose proof (dlist_next _ _ _ _ _ _ _ Hd Hc2) as Hnx.
  pose proof (dlist_prev _ _ _ _ _ _ _ Hd Hc2) as Hpb.
  apply field_Some in Hna as (ea & Ha & _). apply field_Some in Hpx as (ex & Hx & Hpx).
  apply field_Some in Hpb as (eb & Hb & _). rewrite Hx in Hnx. injection Hnx as Hnx.
  destruct (__list_del_run h a b) as (h' & Hrun & Hn & Hp); eauto.
  assert (a ∈ head :: l1) by (rewrite Hpa; set_solver).
  assert (b ∈ l2 ++ [head]) by (rewrite Hbq; set_solver).
  assert (x ≠ a) by (intros ->; set_solver). assert (x ≠ b) by (intros ->; set_solver).
  exists h'. split_and!.
  - unfold list_del, load. unM. by rewrite Hx, Hpx, Hnx.
  - apply entry_ext; rewrite ?Hn, ?Hp; by rewrite decide_False by done.
  - eapply dlist_delete; eauto. rewrite seq_del_split by set_solver.
    unfold cycle. rewrite <-app_assoc, app_comm_cons, Hpa, Hbq. by rewrite <-app_assoc.
  - intros c Hcn. apply entry_ext; rewrite ?Hn, ?Hp; rewrite decide_False by set_solver; done.
Qed.

(** Inserting through [list_add_after], [list_add_before] (and [list_add]) at any position of
    a well-formed circular list, the head included, yields the well-formed list of the sequence
    with the new entry at that place, and touches no entry outside the list. *)
Theorem list_insert_refines h head l y x :
  dlist h head l → position_ok l y → is_Some (h !! x) → x ∉ head :: l →
  (∃ h', list_add_after (addr head y) x h = Ret (tt, h') ∧
    dlist h' head (seq_add_after y x l) ∧ unchanged_outside (x :: head :: l) h h') ∧
  (∃ h', list_add_before (addr head y) x h = Ret (tt, h') ∧
    dlist h' head (seq_add_before y x l) ∧ unchanged_outside (x :: head :: l) h h').
Proof. eauto using list_add_after_run, list_add_before_run. Qed.

(** Unlinking an entry with [list_del_init] yields the list without that entry, leaves the
    entry a list of its own (so that [list_empty] holds of it, the test used for "not queued"),
    and touches nothing else. *)
Theorem list_del_init_refines h head l x :
  dlist h head l → x ∈ l →
  ∃ h', list_del_init x h = Ret (tt, h') ∧ dlist h' head (seq_del x l) ∧ dlist h' x [] ∧
    list_empty x h' = Ret (true, h') ∧ unchanged_outside (head :: l) h h'.
Proof.
  intros Hd Hx. destruct (list_del_run h head l x Hd Hx) as (h1 & Hr & Hx1 & Hd1 & Hu).
  assert (is_Some (h1 !! x)) as Hs.
  { rewrite Hx1. apply list_elem_of_split in Hx as (l1 & l2 & ->).
    destruct Hd as (_ & Hn & _).
    assert (∃ b, cycle head (l1 ++ x :: l2) !! S (S (length l1)) = Some b) as [b Hb].
    { apply lookup_lt_is_Some. unfold cycle. simpl. rewrite !length_app. simpl. lia. }
    specialize (Hn (S (length l1)) x b). destruct (h !! x); [done|].
    exfalso. enough (@None Z = Some b) by done. apply Hn; [|done].
    unfold cycle. simpl. rewrite <-app_assoc, lookup_app_r by lia. by rewrite Nat.sub_diag. }
  exists (<[x := mk_entry x x]> h1).
  assert (∀ c, c ≠ x → <[x:=mk_entry x x]> h1 !! c = h1 !! c) as Hoth
    by (intros; by rewrite lookup_insert_ne).
  split_and!.
  - unfold list_del_init. step using done. by apply list_init_run.
  - destruct Hd1 as (Hnd & Hn & Hp).
    assert (∀ i a, cycle head (seq_del x l) !! i = Some a → a ≠ x) as Hne.
    { intros i a Hi ->. apply list_elem_of_lookup_2 in Hi. unfold cycle in Hi.
      destruct Hd as [Hnd0 _]. apply NoDup_cons in Hnd0 as [? _].
      rewrite elem_of_cons, elem_of_app, elem_of_seq_del, list_elem_of_singleton in Hi.
      naive_solver. }
    split_and!; [done| |]; intros i a b Ha Hb; rewrite Hoth by eauto; eauto.
  - split_and!; [by apply NoDup_singleton| |]; intros [|i] a b Ha Hb; simplify_eq/=;
      try (by rewrite lookup_insert_eq); destruct i; done.
  - unfold list_empty, list_next, load. unM. rewrite lookup_insert_eq. simpl.
    by rewrite bool_decide_true.
  - intros c Hc. rewrite Hoth by set_solver. auto.
Qed.

(** A list of two entries behind the head 100, and an unlinked entry. *)
Definition demo_heap : heap :=
  {[ 100 := mk_entry 2 1; 1 := mk_entry 100 2; 2 := mk_entry 1 100; 7 := mk_entry 0 0 ]}.

Lemma demo_dlist : dlist demo_heap 100 [1; 2].
Proof.
  split_and!.
  - apply (bool_decide_unpack _). by vm_compute.
  - intros i a b Ha Hb. do 4 (destruct i as [|i]; [by simplify_eq/=|]). done.
  - intros i a b Ha Hb. do 4 (destruct i as [|i]; [by simplify_eq/=|]). done.
Qed.

Lemma list_insert_refines_witness :
  ∃ h', list_add_before 2 7 demo_heap = Ret (tt, h') ∧ dlist h' 100 [1; 7; 2].
Proof.
  destruct (list_insert_refines demo_heap 100 [1; 2] (Some 2) 7) as [_ (h' & Hr & Hd & _)].
  - apply demo_dlist.
  - intros z [= <-]. set_solver.
  - by eexists.
  - set_solver.
  - exists h'. split; [exact Hr|exact Hd].
Defined.

Lemma list_del_init_refines_witness :
  ∃ h', list_del_init 1 demo_heap = Ret (tt, h') ∧ dlist h' 100 [2] ∧ dlist h' 1 [].
Proof.
  destruct (list_del_init_refines demo_heap 100 [1; 2] 1) as (h' & Hr & Hd & Hx & _).
  - apply demo_dlist.
  - set_solver.
  - exists h'. split_and!; [exact Hr|exact Hd|exact Hx].
Defined.

End Dll.
