(* ===== verification/Frames.v ===== *)
(** Page frames and free areas: [struct Page] with its flag bits (kern/mm/memlayout.h, libs/atomic.h,
    kern/mm/pmm.h), the state shared by the list-based physical memory managers, and the reading of
    that state as a set of disjoint free blocks.  The managers themselves are in FitAlloc.v.

    A [struct Page *] is modelled by the index of the descriptor in the array [pages], so that
    pointer arithmetic on descriptors is arithmetic on indices. *)
From S2P Require Import Prelude Dll.

Module Frames.
Import Dll.

(** * [struct Page] *)
Record Page := mkPage { ref : Z; flags : Z; property : Z }.

Definition PG_reserved : Z := 0.
Definition PG_property : Z := 1.

(** [set_bit], [clear_bit] and [test_bit] of libs/atomic.h on the word [flags]. *)
Definition set_bit (nr w : Z) : Z := Z.lor w (Z.shiftl 1 nr).
Definition clear_bit (nr w : Z) : Z := Z.ldiff w (Z.shiftl 1 nr).
Definition test_bit (nr w : Z) : bool := Z.testbit w nr.

Definition PageReserved (p : Page) : bool := test_bit PG_reserved (flags p).
Definition PageProperty (p : Page) : bool := test_bit PG_property (flags p).

Definition set_flags (p : Page) (f : Z) : Page := mkPage (ref p) f (property p).
Definition set_property (p : Page) (n : Z) : Page := mkPage (ref p) (flags p) n.
Definition set_page_ref (p : Page) (r : Z) : Page := mkPage r (flags p) (property p).
Definition SetPageProperty (p : Page) : Page := set_flags p (set_bit PG_property (flags p)).
Definition ClearPageProperty (p : Page) : Page := set_flags p (clear_bit PG_property (flags p)).
Definition SetPageReserved (p : Page) : Page := set_flags p (set_bit PG_reserved (flags p)).

Lemma test_set_bit a b w : 0 ≤ a → 0 ≤ b →
  test_bit a (set_bit b w) = bool_decide (a = b) || test_bit a w.
Proof.
  intros Ha Hb. unfold test_bit, set_bit. rewrite Z.lor_spec, Z.shiftl_spec by done.
  case_bool_decide as E; subst; simpl.
  - rewrite Z.sub_diag. by rewrite orb_true_r.
  - destruct (decide (a < b)); [rewrite (Z.testbit_neg_r _ (a - b)) by lia; by rewrite orb_false_r|].
    change 1 with (2 ^ 0). rewrite Z.pow2_bits_false by lia. by rewrite orb_false_r.
Qed.

Lemma test_clear_bit a b w : 0 ≤ a → 0 ≤ b →
  test_bit a (clear_bit b w) = negb (bool_decide (a = b)) && test_bit a w.
Proof.
  intros Ha Hb. unfold test_bit, clear_bit. rewrite Z.ldiff_spec, Z.shiftl_spec by done.
  case_bool_decide as E; subst; simpl.
  - rewrite Z.sub_diag. by rewrite andb_false_r.
  - destruct (decide (a < b)); [rewrite (Z.testbit_neg_r _ (a - b)) by lia; by rewrite andb_true_r|].
    change 1 with (2 ^ 0). rewrite Z.pow2_bits_false by lia. by rewrite andb_true_r.
Qed.

Lemma PageProperty_Set p : PageProperty (SetPageProperty p) = true.
Proof. unfold PageProperty, SetPageProperty, set_flags; cbn [flags]. by rewrite test_set_bit. Qed.
Lemma PageProperty_Clear p : PageProperty (ClearPageProperty p) = false.
Proof. unfold PageProperty, ClearPageProperty, set_flags; cbn [flags]. by rewrite test_clear_bit. Qed.
Lemma PageReserved_Set p : PageReserved (SetPageProperty p) = PageReserved p.
Proof. unfold PageReserved, SetPageProperty, set_flags; cbn [flags]. by rewrite test_set_bit. Qed.
Lemma PageReserved_Clear p : PageReserved (ClearPageProperty p) = PageReserved p.
Proof. unfold PageReserved, ClearPageProperty, set_flags; cbn [flags]. by rewrite test_clear_bit. Qed.
#[export] Hint Rewrite PageProperty_Set PageProperty_Clear PageReserved_Set PageReserved_Clear
  : linos.

(** * The free area *)

(** [free_area_t] and the array [pages]; the list is the sequence of the block heads. *)
Record pmm := mkPmm { pages : gmap Z Page; free_list : list Z; nr_free : Z }.

Definition set_pages (s : pmm) (m : gmap Z Page) : pmm := mkPmm m (free_list s) (nr_free s).
Definition set_free_list (s : pmm) (l : list Z) : pmm := mkPmm (pages s) l (nr_free s).
Definition set_nr_free (s : pmm) (n : Z) : pmm := mkPmm (pages s) (free_list s) n.

Definition page_at (p : Z) : M pmm Page := deref (λ s, pages s !! p).
(** Assigns fields of the descriptor [p]. *)
Definition page_upd (p : Z) (f : Page → Page) : M pmm unit :=
  pg ← page_at p; modify (λ s, set_pages s (<[p := f pg]> (pages s))).
Definition upd_list (f : list Z → list Z) : M pmm unit :=
  modify (λ s, set_free_list s (f (free_list s))).
Definition upd_nr_free (f : Z → Z) : M pmm unit := modify (λ s, set_nr_free s (u32 (f (nr_free s)))).

(** The loop [for (; p != base + n; p ++) { assert(chk(p)); update p; }]. *)
Fixpoint for_pages (chk : Page → bool) (upd : Page → Page) (p : Z) (cnt : nat) : M pmm unit :=
  match cnt with
  | O => mret tt
  | S cnt' =>
      pg ← page_at p;
      assert (chk pg) ;;
      page_upd p upd ;;
      for_pages chk upd (p + 1) cnt'
  end.

(** * Free blocks *)

(** A block is its first frame and its length. *)
Notation block := (Z * Z)%type.

Definition frames (b : block) : gset Z := list_to_set (seqZ b.1 b.2).
Definition free_set (bl : list block) : gset Z := ⋃ (frames <$> bl).

Definition disjoint_blocks (a b : block) : Prop := a.1 + a.2 ≤ b.1 ∨ b.1 + b.2 ≤ a.1.
(** Disjoint and not adjacent. *)
Definition apart (a b : block) : Prop := a.1 + a.2 < b.1 ∨ b.1 + b.2 < a.1.

(** Pairwise relations that do not depend on the order of the list. *)
Fixpoint pairwise (R : block → block → Prop) (bl : list block) : Prop :=
  match bl with
  | [] => True
  | b :: bl' => Forall (R b) bl' ∧ pairwise R bl'
  end.

Lemma elem_of_frames i b : i ∈ frames b ↔ b.1 ≤ i < b.1 + b.2.
Proof. unfold frames. rewrite elem_of_list_to_set, elem_of_seqZ. done. Qed.

Lemma elem_of_free_set i bl : i ∈ free_set bl ↔ ∃ b, b ∈ bl ∧ b.1 ≤ i < b.1 + b.2.
Proof.
  unfold free_set. rewrite elem_of_union_list. split.
  - intros (X & HX & Hi). apply list_elem_of_fmap in HX as (b & -> & Hb).
    rewrite elem_of_frames in Hi. eauto.
  - intros (b & Hb & Hi). exists (frames b). rewrite elem_of_frames. split; [|done].
    apply list_elem_of_fmap. eauto.
Qed.

Lemma free_set_cons b bl : free_set (b :: bl) = frames b ∪ free_set bl.
Proof. done. Qed.

#[export] Instance free_set_perm : Proper ((≡ₚ) ==> (=)) free_set.
Proof.
  intros l l' Hl. apply set_eq. intros i. rewrite !elem_of_free_set. by setoid_rewrite Hl.
Qed.

#[export] Instance disjoint_blocks_sym : Symmetric disjoint_blocks.
Proof. unfold disjoint_blocks. intros ??. tauto. Qed.
#[export] Instance apart_sym : Symmetric apart.
Proof. unfold apart. intros ??. tauto. Qed.

Lemma apart_disjoint a b : apart a b → disjoint_blocks a b.
Proof. unfold apart, disjoint_blocks. lia. Qed.

Section pairwise.
Context (R : block → block → Prop).

Lemma pairwise_app l1 l2 :
  pairwise R (l1 ++ l2) ↔ pairwise R l1 ∧ pairwise R l2 ∧ (∀ a b, a ∈ l1 → b ∈ l2 → R a b).
Proof.
  induction l1 as [|a l1 IH]; simpl.
  - split; [intros ?; split_and!; set_solver|naive_solver].
  - rewrite IH, Forall_app, !Forall_forall. split.
    + intros ([H1 H2] & H3 & H4 & H5). split_and!; auto.
      intros x y [->|Hx]%elem_of_cons Hy; auto.
    + intros ((H1 & H2) & H3 & H4). split_and!; auto; intros; apply H4; set_solver.
Qed.

Context `{!Symmetric R}.

Lemma pairwise_perm l l' : l ≡ₚ l' → pairwise R l → pairwise R l'.
Proof.
  induction 1 as [|b l l' Hp IH|a b l|l1 l2 l3 _ IH1 _ IH2]; simpl.
  - done.
  - intros [Hf ?]. split; [by rewrite <-Hp|auto].
  - intros (Hb & Ha & ?). apply Forall_cons in Hb as [Hba Hb].
    split_and!; [|done|done]. constructor; [by symmetry|done].
  - auto.
Qed.

#[export] Instance pairwise_proper : Proper ((≡ₚ) ==> iff) (pairwise R).
Proof. intros l l' Hl. split; apply pairwise_perm; [done|by symmetry]. Qed.

Lemma pairwise_sublist l l' : l `sublist_of` l' → pairwise R l' → pairwise R l.
Proof.
  induction 1 as [|b l l' Hs IH|b l l' Hs IH]; simpl; [done| |naive_solver].
  intros [Hf ?]. split; [|auto]. rewrite Forall_forall in Hf |- *. intros c Hc. apply Hf. by eapply elem_of_sublist.
Qed.

Lemma pairwise_elem l a b : pairwise R l → a ∈ l → b ∈ l → a = b ∨ R a b.
Proof.
  induction l as [|c l IH]; simpl; [set_solver|].
  rewrite Forall_forall. intros [Hf Hp] [->|Ha]%elem_of_cons [->|Hb]%elem_of_cons; auto.
Qed.
End pairwise.

Lemma pairwise_impl (R R' : block → block → Prop) l :
  (∀ a b, R a b → R' a b) → pairwise R l → pairwise R' l.
Proof.
  intros HR. induction l as [|b l IH]; simpl; [done|].
  intros [Hf ?]. split; [|auto]. eapply Forall_impl; eauto.
Qed.

Definition total (bl : list block) : Z := Zsum (snd <$> bl).

#[export] Instance total_perm : Proper ((≡ₚ) ==> (=)) total.
Proof. intros l l' Hl. unfold total. by rewrite Hl. Qed.

Lemma total_cons b bl : total (b :: bl) = b.2 + total bl.
Proof. done. Qed.

(** The number of free frames is the sum of the lengths of disjoint blocks. *)
Lemma size_free_set bl :
  Forall (λ b, 0 < b.2) bl → pairwise disjoint_blocks bl → Z.of_nat (size (free_set bl)) = total bl.
Proof.
  induction bl as [|b bl IH]; simpl; [done|].
  intros [Hb Hpos]%Forall_cons [Hf Hpw].
  rewrite free_set_cons, size_union, total_cons.
  - rewrite Nat2Z.inj_add, IH by done. f_equal.
    unfold frames. rewrite size_list_to_set by apply NoDup_seqZ.
    rewrite length_seqZ. lia.
  - intros i. rewrite elem_of_frames, elem_of_free_set. intros Hi (c & Hc & Hic).
    rewrite Forall_forall in Hf. specialize (Hf c Hc). unfold disjoint_blocks in Hf. lia.
Qed.

(** * The descriptors of a set of free blocks *)

(** At most [KMEMSIZE / PGSIZE] frames are managed (kern/mm/memlayout.h); the bound only has to
    keep block lengths within 32 bits. *)
Definition max_frames : Z := 2 ^ 20.

(** [bl] is what the descriptors say: the block heads, and they alone, have [PG_property] and hold
    the block length; the frames of a block are managed, not reserved and unreferenced; blocks are
    disjoint. *)
Record blocks_ok (pgs : gmap Z Page) (bl : list block) : Prop := {
  bo_bound : ∀ i, is_Some (pgs !! i) → 0 ≤ i < max_frames;
  bo_flag : ∀ i pg, pgs !! i = Some pg → (PageProperty pg = true ↔ i ∈ fst <$> bl);
  bo_head : ∀ b, b ∈ bl → 0 < b.2 ∧ ∃ pg, pgs !! b.1 = Some pg ∧ property pg = b.2;
  bo_free : ∀ i, i ∈ free_set bl → ∃ pg, pgs !! i = Some pg ∧ PageReserved pg = false ∧ ref pg = 0;
  bo_disj : pairwise disjoint_blocks bl }.

#[export] Instance blocks_ok_perm pgs : Proper ((≡ₚ) ==> iff) (blocks_ok pgs).
Proof.
  assert (∀ l l', l ≡ₚ l' → blocks_ok pgs l → blocks_ok pgs l') as Hone.
  { intros l l' Hl [H1 H2 H3 H4 H5]. split; [done|..].
    - intros. rewrite <-Hl. auto.
    - intros b. rewrite <-Hl. auto.
    - intros i. rewrite <-Hl. auto.
    - by rewrite <-Hl. }
  intros l l' Hl. split; apply Hone; [done|by symmetry].
Qed.

(** What the owner of a frame sees of its descriptor. *)
Definition status (p : Page) : bool * Z := (PageReserved p, ref p).
Definition same_status (pgs pgs' : gmap Z Page) : Prop :=
  ∀ i, status <$> pgs' !! i = status <$> pgs !! i.

Lemma status_Set p : status (SetPageProperty p) = status p.
Proof. unfold status. by autorewrite with linos. Qed.
Lemma status_Clear p : status (ClearPageProperty p) = status p.
Proof. unfold status. by autorewrite with linos. Qed.

Lemma same_status_insert pgs p pg pg' :
  pgs !! p = Some pg → status pg' = status pg → same_status pgs (<[p := pg']> pgs).
Proof.
  intros Hp Hs i. destruct (decide (i = p)) as [->|].
  - rewrite lookup_insert_eq, Hp. simpl. by rewrite Hs.
  - by rewrite lookup_insert_ne.
Qed.

#[export] Instance same_status_trans : Transitive same_status.
Proof. intros a b c H1 H2 i. by rewrite H2, H1. Qed.

(** The frames of [p .. p + n - 1] are allocated: managed, not reserved and in no free block. *)
Definition allocated (pgs : gmap Z Page) (bl : list block) (p n : Z) : Prop :=
  ∀ i, p ≤ i < p + n → i ∉ free_set bl ∧ ∃ pg, pgs !! i = Some pg ∧ PageReserved pg = false.

Section blocks_ok.
Context (pgs : gmap Z Page).

Lemma blocks_ok_pos bl b : blocks_ok pgs bl → b ∈ bl → 0 < b.2.
Proof. intros Hok Hb. by apply (bo_head _ _ Hok). Qed.

Lemma blocks_ok_in bl b : blocks_ok pgs bl → b ∈ bl → 0 ≤ b.1 ∧ b.1 + b.2 ≤ max_frames.
Proof.
  intros Hok Hb. pose proof (blocks_ok_pos _ _ Hok Hb).
  assert (∀ i, b.1 ≤ i < b.1 + b.2 → 0 ≤ i < max_frames) as Hr.
  { intros i Hi. destruct (bo_free _ _ Hok i) as (pg & Hpg & _).
    - apply elem_of_free_set. eauto.
    - eapply bo_bound; eauto. }
  pose proof (Hr b.1). pose proof (Hr (b.1 + b.2 - 1)). lia.
Qed.

Lemma blocks_ok_total bl : blocks_ok pgs bl → 0 ≤ total bl ≤ max_frames.
Proof.
  intros Hok. rewrite <-size_free_set.
  - split; [lia|]. transitivity (Z.of_nat (size (frames (0, max_frames)))).
    + apply inj_le, subseteq_size. intros i Hi. rewrite elem_of_frames; simpl.
      destruct (bo_free _ _ Hok i Hi) as (pg & Hpg & _). eapply bo_bound; eauto.
    + unfold frames. rewrite size_list_to_set by apply NoDup_seqZ. rewrite length_seqZ. unfold max_frames; simpl; lia.
  - apply Forall_forall. intros. by eapply blocks_ok_pos.
  - apply Hok.
Qed.

Lemma blocks_ok_disjoint b c bl :
  blocks_ok pgs (b :: bl) → c ∈ bl → disjoint_blocks b c.
Proof. intros Hok Hc. destruct (bo_disj _ _ Hok) as [Hf _]. by eapply Forall_forall in Hf. Qed.

Lemma blocks_ok_heads_ne b bl :
  blocks_ok pgs (b :: bl) → b.1 ∉ fst <$> bl.
Proof.
  intros Hok ((q & k) & Hq & Hin)%list_elem_of_fmap. simpl in *. subst.
  pose proof (blocks_ok_disjoint _ _ _ Hok Hin).
  pose proof (blocks_ok_pos _ b Hok ltac:(set_solver)).
  pose proof (blocks_ok_pos _ (b.1, k) Hok ltac:(set_solver)).
  unfold disjoint_blocks in *. simpl in *. lia.
Qed.

(** Taking the first [n] frames of a block. *)
Lemma blocks_ok_take p n pg bl :
  blocks_ok pgs ((p, n) :: bl) → pgs !! p = Some pg →
  blocks_ok (<[p := ClearPageProperty pg]> pgs) bl.
Proof.
  intros Hok Hp. pose proof (blocks_ok_heads_ne _ _ Hok) as Hne. simpl in Hne.
  pose proof (blocks_ok_pos _ _ Hok (list_elem_of_here _ _)) as Hn. simpl in Hn. split.
  - intros i Hi. eapply bo_bound; [exact Hok|]. destruct (decide (i = p)) as [->|]; [eauto|].
    by rewrite lookup_insert_ne in Hi.
  - intros i pg'. destruct (decide (i = p)) as [->|Hi].
    + rewrite lookup_insert_eq. intros [= <-]. autorewrite with linos. done.
    + rewrite lookup_insert_ne by done. intros Hpg.
      rewrite (bo_flag _ _ Hok i pg' Hpg). set_solver.
  - intros b Hb. split; [eapply blocks_ok_pos; [exact Hok|set_solver]|].
    rewrite lookup_insert_ne; [eapply (bo_head _ _ Hok); set_solver|].
    intros ->. apply Hne, list_elem_of_fmap. eauto.
  - intros i Hi. destruct (bo_free _ _ Hok i) as (pg' & Hpg' & ?).
    { rewrite free_set_cons. set_solver. }
    destruct (decide (i = p)) as [->|].
    + exists (ClearPageProperty pg). rewrite lookup_insert_eq. autorewrite with linos.
      simplify_eq. done.
    + exists pg'. by rewrite lookup_insert_ne.
  - apply (bo_disj _ _ Hok).
Qed.

(** Taking the first [n] frames of a longer block: the rest becomes a block. *)
Lemma blocks_ok_carve p m n pg pg2 bl :
  blocks_ok pgs ((p, m) :: bl) → 0 < n < m → pgs !! p = Some pg → pgs !! (p + n) = Some pg2 →
  blocks_ok (<[p := ClearPageProperty pg]> (<[p + n := SetPageProperty (set_property pg2 (m - n))]> pgs))
            ((p + n, m - n) :: bl).
Proof.
  intros Hok Hn Hp Hp2. pose proof (blocks_ok_heads_ne _ _ Hok) as Hne. simpl in Hne.
  assert (p ≠ p + n) by lia.
  assert (∀ b, b ∈ bl → disjoint_blocks (p, m) b ∧ 0 < b.2) as Hd.
  { intros b Hb. split; [by eapply blocks_ok_disjoint|].
    eapply blocks_ok_pos; [exact Hok|set_solver]. }
  assert (p + n ∉ fst <$> bl) as Hne2.
  { intros (b & Hb & Hin)%list_elem_of_fmap. destruct (Hd b Hin) as [Hdb ?].
    unfold disjoint_blocks in Hdb. simpl in Hdb. lia. }
  assert (∀ b, b ∈ bl → b.1 ≠ p ∧ b.1 ≠ p + n) as Hh.
  { intros b Hb. split; intros Heq; [apply Hne|apply Hne2]; apply list_elem_of_fmap; eauto. }
  set (pgs1 := <[p + n := _]> pgs).
  assert (pgs1 !! p = Some pg) as Hp1 by (unfold pgs1; by rewrite lookup_insert_ne by lia).
  split.
  - intros i Hi. eapply bo_bound; [exact Hok|]. unfold pgs1 in Hi.
    destruct (decide (i = p)) as [->|]; [eauto|]. destruct (decide (i = p + n)) as [->|]; [eauto|].
    by rewrite !lookup_insert_ne in Hi.
  - intros i pg'. unfold pgs1. destruct (decide (i = p)) as [->|Hi].
    + rewrite lookup_insert_eq. intros [= <-]. autorewrite with linos. set_solver.
    + rewrite lookup_insert_ne by done. destruct (decide (i = p + n)) as [->|Hi2].
      * rewrite lookup_insert_eq. intros [= <-]. autorewrite with linos. set_solver.
      * rewrite lookup_insert_ne by done. intros Hpg.
        rewrite (bo_flag _ _ Hok i pg' Hpg). set_solver.
  - intros b [->|Hb]%elem_of_cons; simpl.
    + split; [lia|]. unfold pgs1. rewrite lookup_insert_ne, lookup_insert_eq by lia. eauto.
    + split; [by apply Hd|]. destruct (Hh b Hb). unfold pgs1. rewrite !lookup_insert_ne by done.
      eapply (bo_head _ _ Hok); set_solver.
  - intros i Hi. destruct (bo_free _ _ Hok i) as (pg' & Hpg' & Hfr).
    { rewrite free_set_cons in Hi |- *. apply elem_of_union in Hi as [Hi|Hi]; [|set_solver].
      apply elem_of_union_l. rewrite elem_of_frames in *. simpl in *. lia. }
    unfold pgs1. destruct (decide (i = p)) as [->|].
    + exists (ClearPageProperty pg). rewrite lookup_insert_eq. autorewrite with linos.
      simplify_eq. done.
    + rewrite lookup_insert_ne by done. destruct (decide (i = p + n)) as [->|].
      * eexists. rewrite lookup_insert_eq. split; [done|]. autorewrite with linos.
        simplify_eq. done.
      * exists pg'. by rewrite lookup_insert_ne.
  - split; [|apply (bo_disj _ _ Hok)]. apply Forall_forall. intros b Hb.
    destruct (Hd b Hb) as [Hdb ?]. unfold disjoint_blocks in *. simpl in *. lia.
Qed.

(** Two adjacent blocks become one. *)
Lemma blocks_ok_join lo k m pg pg2 bl :
  blocks_ok pgs ((lo, k) :: (lo + k, m) :: bl) →
  pgs !! lo = Some pg → pgs !! (lo + k) = Some pg2 →
  blocks_ok (<[lo + k := ClearPageProperty pg2]> (<[lo := set_property pg (k + m)]> pgs))
            ((lo, k + m) :: bl).
Proof.
  intros Hok Hp Hp2.
  pose proof (blocks_ok_pos _ (lo, k) Hok ltac:(set_solver)) as Hk.
  pose proof (blocks_ok_pos _ (lo + k, m) Hok ltac:(set_solver)) as Hm. simpl in Hk, Hm.
  assert (∀ b, b ∈ bl → disjoint_blocks (lo, k) b ∧ disjoint_blocks (lo + k, m) b ∧ 0 < b.2) as Hd.
  { intros b Hb. destruct (bo_disj _ _ Hok) as (H1 & H2 & _).
    rewrite Forall_forall in H1, H2. split_and!; [apply H1; set_solver|by apply H2|].
    eapply blocks_ok_pos; [exact Hok|set_solver]. }
  assert (∀ b, b ∈ bl → b.1 ≠ lo ∧ b.1 ≠ lo + k) as Hh.
  { intros b Hb. destruct (Hd b Hb) as (H1 & H2 & ?). unfold disjoint_blocks in *. simpl in *. lia. }
  assert (lo + k ∉ fst <$> bl) as Hne.
  { intros (b & Hb & Hin)%list_elem_of_fmap. destruct (Hh b Hin). done. }
  split.
  - intros i Hi. eapply bo_bound; [exact Hok|].
    destruct (decide (i = lo)) as [->|]; [eauto|]. destruct (decide (i = lo + k)) as [->|]; [eauto|].
    by rewrite !lookup_insert_ne in Hi.
  - intros i pg'. destruct (decide (i = lo + k)) as [->|Hi].
    + rewrite lookup_insert_eq. intros [= <-]. autorewrite with linos.
      rewrite fmap_cons, elem_of_cons. simpl. intuition lia.
    + rewrite lookup_insert_ne by done. destruct (decide (i = lo)) as [->|Hi2].
      * rewrite lookup_insert_eq. intros [= <-].
        assert (PageProperty pg = true) by (apply (bo_flag _ _ Hok lo pg Hp); set_solver).
        split; [set_solver|done].
      * rewrite lookup_insert_ne by done. intros Hpg.
        rewrite (bo_flag _ _ Hok i pg' Hpg). set_solver.
  - intros b [->|Hb]%elem_of_cons; simpl.
    + split; [lia|]. rewrite lookup_insert_ne, lookup_insert_eq by lia. eauto.
    + destruct (Hh b Hb), (Hd b Hb) as (_ & _ & ?). split; [done|].
      rewrite !lookup_insert_ne by done. eapply (bo_head _ _ Hok); set_solver.
  - intros i Hi. destruct (bo_free _ _ Hok i) as (pg' & Hpg' & Hfr).
    { rewrite !free_set_cons in *. rewrite !elem_of_union, !elem_of_frames in *. simpl in *.
      destruct Hi as [Hi|Hi]; [|tauto]. destruct (decide (i < lo + k)); [left|right; left]; lia. }
    destruct (decide (i = lo + k)) as [->|].
    + exists (ClearPageProperty pg2). rewrite lookup_insert_eq. autorewrite with linos.
      simplify_eq. done.
    + rewrite lookup_insert_ne by done. destruct (decide (i = lo)) as [->|].
      * eexists. rewrite lookup_insert_eq. split; [done|]. simplify_eq. done.
      * exists pg'. by rewrite lookup_insert_ne.
  - destruct (bo_disj _ _ Hok) as (H1 & H2 & H3). split; [|done]. apply Forall_forall. intros b Hb.
    destruct (Hd b Hb) as (? & ? & ?). unfold disjoint_blocks in *. simpl in *. lia.
Qed.

(** Frames that are neither free nor reserved become a block once their descriptors are reset and
    the first one is marked. *)
Lemma blocks_ok_release pgs' base n bl :
  blocks_ok pgs bl → 0 < n →
  (∀ i, base ≤ i < base + n → i ∉ free_set bl ∧ is_Some (pgs !! i)) →
  (∀ i, ¬ (base ≤ i < base + n) → pgs' !! i = pgs !! i) →
  (∀ i, base < i < base + n → ∃ pg, pgs' !! i = Some pg ∧ flags pg = 0 ∧ ref pg = 0) →
  (∃ pg, pgs' !! base = Some pg ∧ PageProperty pg = true ∧ PageReserved pg = false ∧ ref pg = 0 ∧
         property pg = n) →
  blocks_ok pgs' ((base, n) :: bl).
Proof.
  intros Hok Hn Hal Hout Hin (pb & Hpb & Hfb & Hrb & Href & Hprop).
  assert (∀ b, b ∈ bl → disjoint_blocks (base, n) b) as Hd.
  { intros b Hb. pose proof (blocks_ok_pos _ _ Hok Hb).
    unfold disjoint_blocks; simpl.
    destruct (decide (base + n ≤ b.1)); [by left|]. destruct (decide (b.1 + b.2 ≤ base)); [by right|].
    exfalso. apply (Hal (Z.max base b.1)); [lia|]. apply elem_of_free_set. exists b. split; [done|lia]. }
  split.
  - intros i Hi. eapply bo_bound; [exact Hok|].
    destruct (decide (base ≤ i < base + n)); [by apply Hal|]. by rewrite <-Hout.
  - intros i pg Hpg. rewrite fmap_cons, elem_of_cons. simpl.
    destruct (decide (i = base)) as [->|Hi]; [simplify_eq; tauto|].
    destruct (decide (base < i < base + n)) as [Hr|Hr].
    + destruct (Hin i Hr) as (pg' & ? & Hfl & _). simplify_eq. unfold PageProperty. rewrite Hfl.
      split; [done|]. intros [?|(b & -> & Hb)%list_elem_of_fmap]; [done|].
      destruct (Hal b.1) as [Hnf _]; [lia|]. destruct Hnf. apply elem_of_free_set.
      exists b. split; [done|]. pose proof (blocks_ok_pos _ _ Hok Hb). lia.
    + rewrite Hout in Hpg by lia. rewrite (bo_flag _ _ Hok i pg Hpg). tauto.
  - intros b [->|Hb]%elem_of_cons; simpl; [eauto|].
    split; [by eapply blocks_ok_pos|].
    pose proof (Hd b Hb) as Hdb. unfold disjoint_blocks in Hdb. simpl in Hdb.
    pose proof (blocks_ok_pos _ _ Hok Hb).
    rewrite Hout by lia. by apply (bo_head _ _ Hok).
  - intros i. rewrite free_set_cons, elem_of_union, elem_of_frames. simpl.
    intros [Hi|Hi].
    + destruct (decide (i = base)) as [->|]; [eauto|].
      destruct (Hin i) as (pg & ? & Hfl & ?); [lia|]. exists pg. unfold PageReserved. by rewrite Hfl.
    + rewrite Hout; [by apply (bo_free _ _ Hok)|]. intros Hr. by destruct (Hal i Hr).
  - split; [apply Forall_forall; auto|apply Hok].
Qed.
End blocks_ok.

(** * Running the page operations *)

Lemma page_at_run s p pg : pages s !! p = Some pg → page_at p s = Ret (pg, s).
Proof. intros E. unfold page_at. unM. by rewrite E. Qed.

Lemma page_upd_run s p f pg :
  pages s !! p = Some pg → page_upd p f s = Ret (tt, set_pages s (<[p := f pg]> (pages s))).
Proof. intros E. unfold page_upd, page_at. unM. by rewrite E. Qed.

Lemma for_pages_run chk upd cnt p s :
  (∀ i, p ≤ i < p + Z.of_nat cnt → ∃ pg, pages s !! i = Some pg ∧ chk pg = true) →
  ∃ pgs, for_pages chk upd p cnt s = Ret (tt, set_pages s pgs) ∧
    ∀ i, pgs !! i = if decide (p ≤ i < p + Z.of_nat cnt) then upd <$> pages s !! i
                    else pages s !! i.
Proof.
  revert p s. induction cnt as [|cnt IH]; intros p s Hr.
  - exists (pages s). split; [by destruct s|]. intros i. rewrite decide_False by lia. done.
  - destruct (Hr p) as (pg & Hpg & Hchk); [lia|].
    set (s1 := set_pages s (<[p := upd pg]> (pages s))).
    destruct (IH (p + 1) s1) as (pgs & Hrun & Hpgs).
    { intros i Hi. simpl. rewrite lookup_insert_ne by lia. apply Hr. lia. }
    exists pgs. split.
    + simpl. step using (by apply page_at_run). unM. rewrite Hchk.
      by rewrite (page_upd_run s p upd pg Hpg).
    + intros i. rewrite Hpgs. simpl. destruct (decide (i = p)) as [->|].
      * rewrite decide_False, decide_True, lookup_insert_eq by lia. by rewrite Hpg.
      * rewrite lookup_insert_ne by done.
        destruct (decide (p ≤ i < p + Z.of_nat (S cnt))).
        -- by rewrite decide_True by lia.
        -- by rewrite decide_False by lia.
Qed.

End Frames.
