(* ===== verification/PmmManager.v ===== *)
(** [struct pmm_manager] of kern/mm/pmm.h as an interface: the operations of a physical memory
    manager and what it promises the rest of the kernel.  FitAlloc.v discharges the promises for the
    first-fit and best-fit managers; PageTable.v is proved against the interface. *)
From S2P Require Import Prelude Frames.

Module PmmManager.
Import Frames.

(** The operations of [struct pmm_manager], and the accessors of the reference count of a frame
    ([page_ref], [set_page_ref]). *)
Class pmm_manager (S : Type) := {
  init_memmap : Z → Z → M S unit;
  alloc_pages : Z → M S (option Z);
  free_pages : Z → Z → M S unit;
  nr_free_pages : M S Z;
  page_ref : Z → S → option Z;
  set_page_ref : Z → Z → M S unit }.

(** [pm_frames s] are the frames the manager was given, [pm_free s] those that are free. *)
Class pmm_laws (S : Type) `{pmm_manager S} := {
  pm_inv : S → Prop;
  pm_frames : S → gset Z;
  pm_free : S → gset Z;
  pm_free_frames s : pm_inv s → pm_free s ⊆ pm_frames s;
  pm_bound s i : pm_inv s → i ∈ pm_frames s → 0 ≤ i < max_frames;
  pm_ref_frames s i : pm_inv s → i ∈ pm_frames s → is_Some (page_ref i s);
  pm_count s : pm_inv s → nr_free_pages s = Ret (Z.of_nat (size (pm_free s)), s);
  pm_alloc s n : pm_inv s → 0 < n →
    ∃ r s', alloc_pages n s = Ret (r, s') ∧ pm_inv s' ∧ pm_frames s' = pm_frames s ∧
      match r with
      | Some p => frames (p, n) ⊆ pm_free s ∧ pm_free s' = pm_free s ∖ frames (p, n) ∧
          (∀ i, i ∈ frames (p, n) → page_ref i s' = Some 0) ∧
          (∀ i, i ∉ pm_free s → page_ref i s' = page_ref i s)
      | None => s' = s ∧ ∀ p, ¬ frames (p, n) ⊆ pm_free s
      end;
  pm_release s p n : pm_inv s → 0 < n → frames (p, n) ⊆ pm_frames s ∖ pm_free s →
    ∃ s', free_pages p n s = Ret (tt, s') ∧ pm_inv s' ∧ pm_frames s' = pm_frames s ∧
      pm_free s' = pm_free s ∪ frames (p, n) ∧
      (∀ i, i ∉ pm_free s ∪ frames (p, n) → page_ref i s' = page_ref i s);
  pm_set_ref s i r : pm_inv s → i ∈ pm_frames s ∖ pm_free s →
    ∃ s', set_page_ref i r s = Ret (tt, s') ∧ pm_inv s' ∧ pm_frames s' = pm_frames s ∧
      pm_free s' = pm_free s ∧ page_ref i s' = Some r ∧
      (∀ j, j ≠ i → page_ref j s' = page_ref j s) }.

End PmmManager.
