(* ===== verification/FitAlloc.v ===== *)
(** The list-based physical memory managers: kern/mm/firstfit_pmm.c, kern/mm/bestfit_pmm.c and
    kern/mm/nextfit_pmm.c.  The three files share [init_memmap] and [free_pages] to the letter; they
    differ in how [alloc_pages] picks a block and where it puts the rest of it. *)
From S2P Require Import Prelude Dll Frames PmmManager.

Module FitAlloc.
Import PmmManager Dll Frames.

(** * Code common to the three files *)

(** [*_init_memmap]. *)
Definition fit_init_memmap (base n : Z) : M pmm unit :=
  assert (0 <? n) ;;
  for_pages PageReserved (λ p, set_page_ref (set_property (set_flags p 0) 0) 0) base (Z.to_nat n) ;;
  page_upd base (λ p, set_property p n) ;;
  page_upd base SetPageProperty ;;
  upd_nr_free (λ k, k + n) ;;
  upd_list (seq_add_before None base).

(** The first loop of [*_free_pages]: [todo] is what [le] has still to visit. *)
Fixpoint merge_loop (base : Z) (todo : list Z) : M pmm Z :=
  match todo with
  | [] => mret base
  | p :: todo' =>
      b ← page_at base;
      q ← page_at p;
      if decide (base + property b = p) then
        page_upd base (λ b, set_property b (u32 (property b + property q))) ;;
        page_upd p ClearPageProperty ;;
        upd_list (seq_del p) ;;
        merge_loop base todo'
      else if decide (p + property q = base) then
        page_upd p (λ q, set_property q (u32 (property q + property b))) ;;
        page_upd base ClearPageProperty ;;
        upd_list (seq_del p) ;;
        merge_loop p todo'
      else merge_loop base todo'
  end.

(** The second loop: the entry in front of which [base] goes, [None] for the list head. *)
Fixpoint place_loop (base : Z) (todo : list Z) : M pmm (option Z) :=
  match todo with
  | [] => mret None
  | p :: todo' =>
      b ← page_at base;
      if decide (base + property b ≤ p) then
        assert (bool_decide (base + property b ≠ p)) ;;
        mret (Some p)
      else place_loop base todo'
  end.

(** [*_free_pages]. *)
Definition fit_free_pages (base n : Z) : M pmm unit :=
  assert (0 <? n) ;;
  for_pages (λ p, negb (PageReserved p) && negb (PageProperty p))
            (λ p, set_page_ref (set_flags p 0) 0) base (Z.to_nat n) ;;
  page_upd base (λ p, set_property p n) ;;
  page_upd base SetPageProperty ;;
  l ← gets free_list;
  base' ← merge_loop base l;
  upd_nr_free (λ k, k + n) ;;
  l' ← gets free_list;
  le ← place_loop base' l';
  upd_list (seq_add_before le base').

Definition fit_nr_free_pages : M pmm Z := gets nr_free.

(** What is done with the chosen block: the rest is linked where [link] says, the block is
    unlinked. *)
Definition take_block (link : Z → list Z → list Z) (page n : Z) : M pmm unit :=
  pg ← page_at page;
  when (n <? property pg) (
    let p := page + n in
    page_upd p (λ q, set_property q (u32 (property pg - n))) ;;
    page_upd p SetPageProperty ;;
    upd_list (link p)) ;;
  upd_list (seq_del page) ;;
  upd_nr_free (λ k, k - n) ;;
  page_upd page ClearPageProperty.

(** * firstfit_pmm.c *)

Definition firstfit_init (s : pmm) : pmm := set_nr_free (set_free_list s []) 0.
Definition firstfit_init_memmap := fit_init_memmap.
Definition firstfit_free_pages := fit_free_pages.
Definition firstfit_nr_free_pages := fit_nr_free_pages.

(** The search loop of [firstfit_alloc_pages]. *)
Fixpoint first_fit (n : Z) (todo : list Z) : M pmm (option Z) :=
  match todo with
  | [] => mret None
  | p :: todo' =>
      pg ← page_at p;
      if n <=? property pg then mret (Some p) else first_fit n todo'
  end.

Definition firstfit_alloc_pages (n : Z) : M pmm (option Z) :=
  assert (0 <? n) ;;
  nf ← gets nr_free;
  if nf <? n then mret None else
  l ← gets free_list;
  page ← first_fit n l;
  match page with
  | Some page => take_block (λ p, seq_add_after (Some page) p) page n ;; mret (Some page)
  | None => mret None
  end.

(** * bestfit_pmm.c *)

Definition best_init (s : pmm) : pmm := set_nr_free (set_free_list s []) 0.
Definition best_init_memmap := fit_init_memmap.
Definition best_free_pages := fit_free_pages.
Definition best_nr_free_pages := fit_nr_free_pages.

(** The search loop of [best_alloc_pages]; [best] is [best_p] with [best_property], [None] before
    a block was found ([best_property == -1], [flag == 0]). *)
Fixpoint best_fit (n : Z) (best : option block) (todo : list Z) : M pmm (option block) :=
  match todo with
  | [] => mret best
  | p :: todo' =>
      pg ← page_at p;
      let better := match best with None => true | Some b => property pg <? b.2 end in
      best_fit n (if (n <=? property pg) && better then Some (p, property pg) else best) todo'
  end.

Definition best_alloc_pages (n : Z) : M pmm (option Z) :=
  assert (0 <? n) ;;
  nf ← gets nr_free;
  if nf <? n then mret None else
  l ← gets free_list;
  best ← best_fit n None l;
  match best with
  | Some (page, _) => take_block (λ p, seq_add_after None p) page n ;; mret (Some page)
  | None => mret None
  end.

(** * The invariant *)

(** [bl] are the free blocks, in list order; free blocks are never adjacent. *)
Record free_area (s : pmm) (bl : list block) : Prop := {
  fa_list : free_list s = fst <$> bl;
  fa_ok : blocks_ok (pages s) bl;
  fa_apart : pairwise apart bl;
  fa_count : nr_free s = total bl }.

(** The blocks a state describes. *)
Definition blocks (s : pmm) : list block :=
  (λ p, (p, match pages s !! p with Some pg => property pg | None => 0 end)) <$> free_list s.

Definition fit_inv (s : pmm) : Prop := free_area s (blocks s).

Lemma free_area_blocks s bl : free_area s bl → blocks s = bl.
Proof.
  intros [Hl Hok _ _]. unfold blocks. rewrite Hl. rewrite <-list_fmap_compose.
  transitivity (id <$> bl); [|apply list_fmap_id]. apply list_fmap_ext. intros i [p m] Hi.
  destruct (bo_head _ _ Hok (p, m)) as (_ & pg & Hpg & Hprop).
  { by eapply list_elem_of_lookup_2. }
  simpl in *. by rewrite Hpg, Hprop.
Qed.

Lemma fit_inv_intro s bl : free_area s bl → fit_inv s.
Proof. intros Hfa. unfold fit_inv. by rewrite (free_area_blocks _ _ Hfa). Qed.

(** A run of free frames lies in one block, because blocks are not adjacent. *)
Lemma run_in_block bl p n :
  pairwise apart bl → 0 < n → frames (p, n) ⊆ free_set bl →
  ∃ b, b ∈ bl ∧ b.1 ≤ p ∧ p + n ≤ b.1 + b.2.
Proof.
  intros Hap Hn Hrun.
  assert (∀ i, p ≤ i < p + n → ∃ b, b ∈ bl ∧ b.1 ≤ i < b.1 + b.2) as Hin.
  { intros i Hi. apply elem_of_free_set, Hrun. by apply elem_of_frames. }
  destruct (Hin p) as (b & Hb & Hpb); [lia|]. exists b. split_and!; [done|lia|].
  destruct (decide (p + n ≤ b.1 + b.2)); [done|exfalso].
  destruct (Hin (b.1 + b.2)) as (c & Hc & Hcb); [lia|].
  destruct (pairwise_elem apart bl b c Hap Hb Hc) as [->|Hbc]; [lia|].
  unfold apart in Hbc. lia.
Qed.

Lemma free_area_elem s bl p :
  free_area s bl → p ∈ free_list s → ∃ m pg, (p, m) ∈ bl ∧ pages s !! p = Some pg ∧ property pg = m.
Proof.
  intros [Hl Hok _ _] Hp. rewrite Hl in Hp. apply list_elem_of_fmap in Hp as ([q m] & -> & Hb).
  destruct (bo_head _ _ Hok _ Hb) as (_ & pg & ? & ?). simpl in *. eauto.
Qed.

Lemma heads_NoDup pgs bl : blocks_ok pgs bl → NoDup (fst <$> bl).
Proof.
  intros Hok. pose proof (bo_disj _ _ Hok) as Hd.
  assert (∀ b, b ∈ bl → 0 < b.2) as Hpos by (intros; by eapply blocks_ok_pos).
  clear Hok. induction bl as [|b bl IH]; [constructor|].
  destruct Hd as [Hf Hd]. simpl. constructor; [|apply IH; set_solver].
  intros (c & Hc & Hin)%list_elem_of_fmap. rewrite Forall_forall in Hf. specialize (Hf c Hin).
  pose proof (Hpos c ltac:(set_solver)). pose proof (Hpos b ltac:(set_solver)).
  unfold disjoint_blocks in Hf. lia.
Qed.

(** The blocks left of [(p, m)] when its first [n] frames are taken. *)
Definition rest_of (p m n : Z) : list block := if decide (n < m) then [(p + n, m - n)] else [].

Lemma free_set_take p m n bl : 0 < n ≤ m →
  Forall (λ b, disjoint_blocks (p, m) b) bl →
  free_set (rest_of p m n ++ bl) = free_set ((p, m) :: bl) ∖ frames (p, n).
Proof.
  intros Hn Hd. apply set_eq. intros i.
  rewrite elem_of_difference, elem_of_frames, !elem_of_free_set. simpl.
  rewrite Forall_forall in Hd. unfold rest_of. split.
  - intros (b & Hb & Hi). apply elem_of_app in Hb as [Hb|Hb].
    + case_decide; [|set_solver]. apply list_elem_of_singleton in Hb as ->. simpl in *.
      split; [|lia]. exists (p, m). split; [set_solver|simpl; lia].
    + split; [exists b; split; [set_solver|done]|].
      specialize (Hd b Hb). unfold disjoint_blocks in Hd. simpl in Hd. lia.
  - intros [(b & [->|Hb]%elem_of_cons & Hi) Hnot]; simpl in *.
    + rewrite decide_True by lia. exists (p + n, m - n). split; [set_solver|simpl; lia].
    + exists b. split; [set_solver|done].
Qed.

(** A new block head is marked and linked. *)
Lemma mark_run s p f pg h :
  pages s !! p = Some pg →
  (page_upd p f ;; page_upd p SetPageProperty ;; upd_list h) s =
  Ret (tt, mkPmm (<[p := SetPageProperty (f pg)]> (pages s)) (h (free_list s)) (nr_free s)).
Proof.
  intros Hp. step using (by apply page_upd_run).
  step using (apply page_upd_run; apply lookup_insert_eq). simpl. by rewrite insert_insert_eq.
Qed.

Lemma take_block_run link s bl1 bl2 p m n :
  free_area s (bl1 ++ (p, m) :: bl2) → 0 < n ≤ m →
  ∃ s', take_block link p n s = Ret (tt, s') ∧
    free_list s' = seq_del p (if decide (n < m) then link (p + n) (free_list s) else free_list s) ∧
    blocks_ok (pages s') (rest_of p m n ++ bl1 ++ bl2) ∧
    nr_free s' = nr_free s - n ∧ same_status (pages s) (pages s').
Proof.
  intros [Hl Hok Hap Hcnt] Hn.
  rewrite <-Permutation_middle in Hok, Hcnt.
  destruct (bo_head _ _ Hok (p, m)) as (Hm & pg & Hpg & Hprop); [set_solver|]. simpl in Hpg, Hprop.
  destruct (blocks_ok_in _ _ (p, m) Hok) as [Hp0 Hpm]; [set_solver|]. simpl in Hp0, Hpm.
  pose proof (blocks_ok_total _ _ Hok) as Htot.
  assert (m ≤ total ((p, m) :: bl1 ++ bl2)).
  { rewrite total_cons. simpl. pose proof (blocks_ok_total _ _ (blocks_ok_take _ _ _ _ _ Hok Hpg)). lia. }
  assert (u32 (nr_free s - n) = nr_free s - n) as Hu.
  { apply u32_small. rewrite Hcnt. unfold max_frames in *. lia. }
  unfold take_block. step using (by apply page_at_run). rewrite Hprop.
  unfold rest_of. case_decide as Hlt.
  - rewrite (proj2 (Z.ltb_lt n m) Hlt). unfold when.
    destruct (bo_free _ _ Hok (p + n)) as (pg2 & Hpg2 & _).
    { apply elem_of_free_set. exists (p, m). split; [set_solver|simpl; lia]. }
    rewrite (u32_small (m - n)) by (unfold max_frames in *; lia).
    step using (by apply mark_run).
    step using reflexivity. step using reflexivity.
    erewrite page_upd_run by (simpl; rewrite !lookup_insert_ne by lia; exact Hpg).
    eexists. split; [reflexivity|]. simpl. split_and!; [done| |done|].
    + apply blocks_ok_carve; [done|lia|done|done].
    + etrans; [eapply same_status_insert; [exact Hpg2|]|eapply same_status_insert].
      * by rewrite status_Set.
      * by rewrite lookup_insert_ne by lia.
      * apply status_Clear.
  - rewrite (proj2 (Z.ltb_ge n m)) by lia. unfold when.
    step using reflexivity. step using reflexivity. step using reflexivity.
    erewrite page_upd_run by exact Hpg.
    eexists. split; [reflexivity|]. simpl. split_and!; [done| |done|].
    + by eapply blocks_ok_take.
    + eapply same_status_insert; [exact Hpg|apply status_Clear].
Qed.

(** The rest of a block is as far from the other blocks as the block was. *)
Lemma apart_rest p m n bl :
  0 < n ≤ m → pairwise apart ((p, m) :: bl) → pairwise apart (rest_of p m n ++ bl).
Proof.
  intros Hn [Hf Hap]. unfold rest_of. case_decide; [|done]. split; [|done].
  rewrite Forall_forall in Hf |- *. intros b Hb. specialize (Hf b Hb).
  unfold apart in *. simpl in *. lia.
Qed.

(** What every choice of a fitting block, followed by [take_block], does to the free area. *)
Lemma take_block_spec link s bl1 bl2 p m n bl' :
  free_area s (bl1 ++ (p, m) :: bl2) → 0 < n ≤ m →
  seq_del p (if decide (n < m) then link (p + n) (free_list s) else free_list s) = fst <$> bl' →
  bl' ≡ₚ rest_of p m n ++ bl1 ++ bl2 →
  ∃ s', take_block link p n s = Ret (tt, s') ∧ free_area s' bl' ∧
    free_set bl' = free_set (bl1 ++ (p, m) :: bl2) ∖ frames (p, n) ∧
    frames (p, n) ⊆ free_set (bl1 ++ (p, m) :: bl2) ∧ same_status (pages s) (pages s').
Proof.
  intros Hfa Hn Hlist Hperm. destruct (take_block_run link _ _ _ _ _ _ Hfa Hn)
    as (s' & Hrun & Hl' & Hok' & Hnr & Hfr).
  exists s'. destruct Hfa as [Hl Hok Hap Hcnt].
  rewrite <-Permutation_middle in Hok, Hap, Hcnt |- *.
  split_and!; [done| | | |done].
  - split.
    + by rewrite Hl'.
    + by rewrite Hperm.
    + rewrite Hperm. by apply apart_rest.
    + rewrite Hnr, Hcnt, Hperm. unfold rest_of. rewrite total_cons.
      case_decide; simpl; rewrite ?total_cons; simpl; lia.
  - rewrite Hperm. apply free_set_take; [done|]. apply (bo_disj _ _ Hok).
  - intros i. rewrite free_set_cons, elem_of_union, !elem_of_frames. simpl. lia.
Qed.

(** * The search loops *)

Definition heads_ok (s : pmm) (bl : list block) : Prop :=
  ∀ b, b ∈ bl → ∃ pg, pages s !! b.1 = Some pg ∧ property pg = b.2.

Lemma free_area_heads s bl : free_area s bl → heads_ok s bl.
Proof. intros [_ Hok _ _] b Hb. by apply (bo_head _ _ Hok). Qed.

Lemma first_fit_run s n bl :
  heads_ok s bl →
  first_fit n (fst <$> bl) s = Ret ((λ ib, ib.2.1) <$> list_find (λ b, n ≤ b.2) bl, s).
Proof.
  induction bl as [|b bl IH]; intros Hh; [done|].
  destruct (Hh b) as (pg & Hpg & Hprop); [set_solver|].
  rewrite fmap_cons. cbn [first_fit list_find].
  step using (by apply page_at_run). rewrite Hprop. case_decide as Hn.
  - by rewrite (proj2 (Z.leb_le n b.2) Hn).
  - rewrite (proj2 (Z.leb_gt n b.2)) by lia. rewrite IH.
    + by destruct (list_find (λ b : Z * Z, n ≤ b.2) bl) as [[i c]|].
    + intros c Hc. apply Hh. set_solver.
Qed.

(** [b] is as good as every fitting block of [bl]. *)
Definition best_of (n : Z) (bl : list block) (b : block) : Prop :=
  b ∈ bl ∧ n ≤ b.2 ∧ ∀ c, c ∈ bl → n ≤ c.2 → b.2 ≤ c.2.
Definition best_result (n : Z) (bl : list block) (r : option block) : Prop :=
  match r with Some b => best_of n bl b | None => ∀ c, c ∈ bl → c.2 < n end.

Lemma best_result_snoc n bl r b :
  best_result n bl r →
  best_result n (bl ++ [b])
    (if (n <=? b.2) && match r with None => true | Some c => b.2 <? c.2 end then Some b else r).
Proof.
  unfold best_result, best_of.
  assert (∀ P : block → Prop, (∀ d, d ∈ bl → P d) → P b → ∀ d, d ∈ bl ++ [b] → P d) as Hsnoc.
  { intros P H1 H2 d [Hd|Hd%list_elem_of_singleton]%elem_of_app; [auto|by subst]. }
  destruct r as [c|].
  - intros (Hc & Hn & Hmin). destruct (Z.leb_spec n b.2); simpl; [destruct (Z.ltb_spec b.2 c.2)|];
      (split_and!; [set_solver|lia|]);
      (match goal with |- ∀ d, _ → _ → ?x ≤ _ => apply (Hsnoc (λ d, n ≤ d.2 → x ≤ d.2)) end);
      try lia; intros d Hd; specialize (Hmin d Hd); lia.
  - intros Hall. destruct (Z.leb_spec n b.2); simpl.
    + split_and!; [set_solver|done|].
      apply (Hsnoc (λ d, n ≤ d.2 → b.2 ≤ d.2)); [|lia]. intros d Hd. specialize (Hall d Hd). lia.
    + by apply (Hsnoc (λ d, d.2 < n)).
Qed.

Lemma best_fit_run s n bl seen r :
  heads_ok s bl → best_result n seen r →
  ∃ r', best_fit n r (fst <$> bl) s = Ret (r', s) ∧ best_result n (seen ++ bl) r'.
Proof.
  revert seen r. induction bl as [|b bl IH]; intros seen r Hh Hr.
  - exists r. rewrite app_nil_r. done.
  - destruct (Hh b) as (pg & Hpg & Hprop); [set_solver|].
    rewrite fmap_cons. cbn [best_fit].
    step using (by apply page_at_run). rewrite Hprop.
    destruct (IH (seen ++ [b])
      (if (n <=? b.2) && match r with None => true | Some c => b.2 <? c.2 end then Some b else r))
      as (r' & Hrun & Hr').
    + intros c Hc. apply Hh. set_solver.
    + by apply best_result_snoc.
    + exists r'. rewrite <-app_assoc in Hr'. simpl in Hr'. split; [|done].
      by destruct b.
Qed.

(** * Releasing a block *)

(** The merge loop.  [dn] are the blocks already visited, [todo] those to come. *)
Lemma merge_loop_run todo dn base k s :
  blocks_ok (pages s) ((base, k) :: dn ++ todo) →
  free_list s = fst <$> dn ++ todo → pairwise apart (dn ++ todo) → Forall (apart (base, k)) dn →
  ∃ base' k' kept s', merge_loop base (fst <$> todo) s = Ret (base', s') ∧
    blocks_ok (pages s') ((base', k') :: dn ++ kept) ∧ free_list s' = fst <$> dn ++ kept ∧
    kept `sublist_of` todo ∧ Forall (apart (base', k')) (dn ++ kept) ∧ nr_free s' = nr_free s ∧
    total ((base', k') :: kept) = total ((base, k) :: todo) ∧
    free_set ((base', k') :: kept) = free_set ((base, k) :: todo) ∧
    (∀ i, i ∉ free_set ((base, k) :: todo) → pages s' !! i = pages s !! i).
Proof.
  revert dn base k s. induction todo as [|[p m] todo IH]; intros dn base k s Hok Hl Hap Hd.
  { exists base, k, [], s. split_and!; try done. by rewrite app_nil_r. }
  destruct (bo_head _ _ Hok (base, k)) as (Hk & b & Hb & Hbp); [set_solver|].
  destruct (bo_head _ _ Hok (p, m)) as (Hm & q & Hq & Hqp); [set_solver|].
  destruct (blocks_ok_in _ _ (base, k) Hok) as [Hb0 Hb1]; [set_solver|].
  destruct (blocks_ok_in _ _ (p, m) Hok) as [Hp0 Hp1]; [set_solver|].
  pose proof (blocks_ok_disjoint _ (base, k) (p, m) _ Hok ltac:(set_solver)) as Hdis.
  unfold disjoint_blocks in Hdis. simpl in *.
  assert (blocks_ok (pages s) ((base, k) :: (p, m) :: dn ++ todo)) as Hok2.
  { by rewrite Permutation_middle. }
  assert (Forall (apart (p, m)) (dn ++ todo) ∧ pairwise apart (dn ++ todo)) as [Hpd Hap2].
  { rewrite <-Permutation_middle in Hap. exact Hap. }
  assert (seq_del p (free_list s) = fst <$> dn ++ todo) as Hdel.
  { pose proof (heads_NoDup _ _ Hok) as Hnd. simpl in Hnd. apply NoDup_cons in Hnd as [_ Hnd].
    rewrite fmap_app in Hnd. apply NoDup_app in Hnd as (_ & Hnd1 & Hnd2).
    simpl in Hnd2. apply NoDup_cons in Hnd2 as [Hnd2 _].
    rewrite Hl, !fmap_app. simpl. apply seq_del_split; [|done]. intros Hin.
    apply (Hnd1 p Hin). set_solver. }
  assert (base ≠ p) by lia.
  assert (∀ c, c ∈ dn → 0 < c.2) as Hpos.
  { intros c Hc. eapply blocks_ok_pos; [exact Hok|set_solver]. }
  step using (by apply page_at_run). step using (by apply page_at_run). rewrite Hbp, Hqp.
  apply Forall_app in Hpd as [Hpd Hpt].
  destruct (decide (base + k = p)) as [Heq|Hne]; [|destruct (decide (p + m = base)) as [Heq|Hne2]].
  - rewrite <-Heq in *.
    step using (by apply page_upd_run).
    step using (apply page_upd_run; simpl; rewrite lookup_insert_ne by lia; exact Hq).
    step using reflexivity. simpl. rewrite Hbp.
    rewrite (u32_small (k + m)) by (unfold max_frames in *; lia).
    destruct (IH dn base (k + m)
      (mkPmm (<[base + k := ClearPageProperty q]> (<[base := set_property b (k + m)]> (pages s)))
             (seq_del (base + k) (free_list s)) (nr_free s)))
      as (base' & k' & kept & s' & Hrun & Hok' & Hl' & Hsub & Hap' & Hnr & Htot & Hfs & Hfr);
      simpl in *.
    + by apply blocks_ok_join.
    + by rewrite <-Hdel.
    + done.
    + rewrite Forall_forall in Hd, Hpd |- *. intros c Hc. specialize (Hd c Hc). specialize (Hpd c Hc).
      specialize (Hpos c Hc). unfold apart in *. simpl in *. lia.
    + exists base', k', kept, s'. split_and!; try done.
      * by constructor.
      * rewrite Htot, !total_cons. simpl. lia.
      * rewrite Hfs. apply set_eq. intros i.
        rewrite !free_set_cons, !elem_of_union, !elem_of_frames. simpl. intuition lia.
      * intros i Hi. rewrite !free_set_cons, !not_elem_of_union, !elem_of_frames in Hi. simpl in Hi.
        destruct Hi as (? & ? & ?). rewrite Hfr.
        -- by rewrite !lookup_insert_ne by lia.
        -- rewrite free_set_cons, not_elem_of_union, elem_of_frames. simpl. split; [lia|done].
  - subst base.
    step using (by apply page_upd_run).
    step using (apply page_upd_run; simpl; rewrite lookup_insert_ne by lia; exact Hb).
    step using reflexivity. simpl. rewrite Hqp.
    rewrite (u32_small (m + k)) by (unfold max_frames in *; lia).
    destruct (IH dn p (m + k)
      (mkPmm (<[p + m := ClearPageProperty b]> (<[p := set_property q (m + k)]> (pages s)))
             (seq_del p (free_list s)) (nr_free s)))
      as (base' & k' & kept & s' & Hrun & Hok' & Hl' & Hsub & Hap' & Hnr & Htot & Hfs & Hfr);
      simpl in *.
    + apply blocks_ok_join; [|done|done]. rewrite Permutation_swap. done.
    + by rewrite <-Hdel.
    + done.
    + rewrite Forall_forall in Hd, Hpd |- *. intros c Hc. specialize (Hd c Hc). specialize (Hpd c Hc).
      specialize (Hpos c Hc). unfold apart in *. simpl in *. lia.
    + exists base', k', kept, s'. split_and!; try done.
      * by constructor.
      * rewrite Htot, !total_cons. simpl. lia.
      * rewrite Hfs. apply set_eq. intros i.
        rewrite !free_set_cons, !elem_of_union, !elem_of_frames. simpl. intuition lia.
      * intros i Hi. rewrite !free_set_cons, !not_elem_of_union, !elem_of_frames in Hi. simpl in Hi.
        destruct Hi as (? & ? & ?). rewrite Hfr.
        -- by rewrite !lookup_insert_ne by lia.
        -- rewrite free_set_cons, not_elem_of_union, elem_of_frames. simpl. split; [lia|done].
  - destruct (IH (dn ++ [(p, m)]) base k s)
      as (base' & k' & kept & s' & Hrun & Hok' & Hl' & Hsub & Hap' & Hnr & Htot & Hfs & Hfr).
    + by rewrite <-app_assoc.
    + by rewrite <-app_assoc.
    + by rewrite <-app_assoc.
    + apply Forall_app. split; [done|]. constructor; [|done]. unfold apart. simpl. lia.
    + rewrite <-app_assoc in *. simpl in *.
      exists base', k', ((p, m) :: kept), s'. split_and!; try done.
      * by constructor.
      * rewrite !total_cons in *. simpl in *. lia.
      * rewrite !free_set_cons in *. clear -Hfs. set_solver.
      * intros i Hi. apply Hfr. rewrite !free_set_cons in *. set_solver.
Qed.

Lemma place_loop_run s base k pg bl :
  pages s !! base = Some pg → property pg = k → Forall (apart (base, k)) bl →
  Forall (λ b, 0 < b.2) bl → 0 < k →
  place_loop base (fst <$> bl) s = Ret ((λ ib, ib.2.1) <$> list_find (λ b, base + k ≤ b.1) bl, s).
Proof.
  intros Hpg Hk Hap Hpos Hk0. induction bl as [|b bl IH]; [done|].
  apply Forall_cons in Hap as [Hb Hap]. apply Forall_cons in Hpos as [Hb2 Hpos].
  rewrite fmap_cons. cbn [place_loop list_find].
  step using (by apply page_at_run). rewrite Hk. case_decide as Hle.
  - unM. rewrite bool_decide_true; [done|]. unfold apart in Hb. simpl in Hb. lia.
  - rewrite IH by done. by destruct (list_find (λ b : Z * Z, base + k ≤ b.1) bl) as [[i c]|].
Qed.

(** Inserting in front of the entry a search found. *)
Lemma add_before_find base k (P : block → Prop) `{∀ b, Decision (P b)} bl :
  NoDup (fst <$> bl) →
  ∃ bl1 bl2, bl = bl1 ++ bl2 ∧
    seq_add_before ((λ ib, ib.2.1) <$> list_find P bl) base (fst <$> bl) =
      fst <$> bl1 ++ (base, k) :: bl2 ∧
    Forall (λ b, ¬ P b) bl1 ∧ (∀ b bl3, bl2 = b :: bl3 → P b).
Proof.
  intros Hnd. destruct (list_find P bl) as [[i b]|] eqn:Hf; simpl.
  - apply list_find_Some in Hf as (Hi & HP & Hbefore).
    assert (bl = take i bl ++ b :: drop (S i) bl) as Hbl by by rewrite take_drop_middle.
    exists (take i bl), (b :: drop (S i) bl). split_and!; [done| | |].
    + rewrite Hbl, !fmap_app in Hnd. apply NoDup_app in Hnd as (_ & Hnd & _).
      rewrite Hbl at 1. rewrite !fmap_app. simpl.
      rewrite seq_insert_before_split; [done|]. intros Hin. apply (Hnd _ Hin). set_solver.
    + apply Forall_forall. intros c Hc. apply list_elem_of_lookup in Hc as (j & Hj).
      apply lookup_take_Some in Hj as [Hj ?]. eauto.
    + intros c bl3 Heq. by simplify_eq.
  - apply list_find_None in Hf. exists bl, []. rewrite app_nil_r. split_and!; [done| |done|done].
    by rewrite fmap_app.
Qed.

(** Address order. *)
Definition addr_sorted (bl : list block) : Prop := pairwise (λ a b, a.1 < b.1) bl.

Lemma addr_sorted_insert bl1 bl2 base k :
  addr_sorted (bl1 ++ bl2) → Forall (apart (base, k)) (bl1 ++ bl2) →
  Forall (λ b, 0 < b.2) (bl1 ++ bl2) → 0 < k →
  Forall (λ b, ¬ base + k ≤ b.1) bl1 → (∀ b bl3, bl2 = b :: bl3 → base + k ≤ b.1) →
  addr_sorted (bl1 ++ (base, k) :: bl2).
Proof.
  intros Hs Hap Hpos Hk H1 H2. unfold addr_sorted in *. rewrite pairwise_app in *.
  destruct Hs as (Hs1 & Hs2 & Hs12).
  apply Forall_app in Hap as [Hap1 Hap2]. apply Forall_app in Hpos as [Hpos1 Hpos2].
  assert (∀ a, a ∈ bl1 → a.1 < base) as Hlt1.
  { intros a Ha. rewrite Forall_forall in H1, Hap1, Hpos1.
    specialize (H1 a Ha). specialize (Hap1 a Ha). specialize (Hpos1 a Ha).
    unfold apart in Hap1. simpl in Hap1. lia. }
  assert (∀ b, b ∈ bl2 → base < b.1) as Hlt2.
  { destruct bl2 as [|b2 bl2]; [set_solver|]. specialize (H2 b2 bl2 eq_refl).
    destruct Hs2 as [Hf _]. rewrite Forall_forall in Hf.
    intros b [->|Hb]%elem_of_cons; [lia|]. specialize (Hf b Hb). lia. }
  split; [done|]. split; [split; [|done]|].
  - apply Forall_forall. intros b Hb. simpl. by apply Hlt2.
  - intros a b Ha [->|Hb]%elem_of_cons; [simpl; auto|auto].
Qed.

(** * The whole operations *)

(** Frames [base .. base + n - 1] that are not free and pass the test of the loop become free. *)
Lemma for_pages_mark chk upd base n s bl :
  blocks_ok (pages s) bl → 0 < n →
  (∀ i, base ≤ i < base + n → i ∉ free_set bl ∧ ∃ pg, pages s !! i = Some pg ∧ chk pg = true) →
  (∀ pg, flags (upd pg) = 0 ∧ ref (upd pg) = 0) →
  ∃ s1, (∀ A (k : M pmm A), (for_pages chk upd base (Z.to_nat n) ;;
            page_upd base (λ p, set_property p n) ;; page_upd base SetPageProperty ;; k) s = k s1) ∧
    free_list s1 = free_list s ∧ nr_free s1 = nr_free s ∧
    blocks_ok (pages s1) ((base, n) :: bl) ∧
    (∀ i, i ∉ frames (base, n) → pages s1 !! i = pages s !! i).
Proof.
  intros Hok Hn Hal Hupd.
  destruct (for_pages_run chk upd (Z.to_nat n) base s) as (pgs & Hrun & Hpgs).
  { intros i Hi. apply Hal. lia. }
  rewrite Z2Nat.id in Hpgs by lia.
  destruct (Hal base) as (_ & pg & Hpg & _); [lia|].
  assert (pgs !! base = Some (upd pg)) as Hb by by rewrite Hpgs, decide_True, Hpg by lia.
  exists (set_pages s (<[base := SetPageProperty (set_property (upd pg) n)]> pgs)). split_and!.
  - intros A k. step using (exact Hrun). step using (apply page_upd_run; exact Hb).
    step using (apply page_upd_run; apply lookup_insert_eq). simpl. by rewrite insert_insert_eq.
  - done.
  - done.
  - simpl. apply (blocks_ok_release (pages s)); [done|done|..].
    + intros i Hi. destruct (Hal i Hi) as (? & pg' & ? & _). eauto.
    + intros i Hi. rewrite lookup_insert_ne by lia. by rewrite Hpgs, decide_False by lia.
    + intros i Hi. rewrite lookup_insert_ne by lia. rewrite Hpgs, decide_True by lia.
      destruct (Hal i) as (_ & pg' & -> & _); [lia|]. exists (upd pg').
      by destruct (Hupd pg').
    + eexists. rewrite lookup_insert_eq. split; [done|]. destruct (Hupd pg) as [Hfl Hrf].
      autorewrite with linos. unfold PageReserved, set_property. simpl. by rewrite Hfl.
  - intros i Hi. rewrite elem_of_frames in Hi. simpl in *. rewrite lookup_insert_ne by lia.
    by rewrite Hpgs, decide_False by lia.
Qed.

Lemma fit_free_pages_run s bl base n :
  free_area s bl → 0 < n → allocated (pages s) bl base n →
  ∃ s' bl', fit_free_pages base n s = Ret (tt, s') ∧ free_area s' bl' ∧
    free_set bl' = free_set bl ∪ frames (base, n) ∧
    (addr_sorted bl → addr_sorted bl') ∧
    (∀ i, i ∉ free_set bl ∪ frames (base, n) → pages s' !! i = pages s !! i).
Proof.
  intros [Hl Hok Hap Hcnt] Hn Hal.
  destruct (for_pages_mark (λ p, negb (PageReserved p) && negb (PageProperty p))
    (λ p, set_page_ref (set_flags p 0) 0) base n s bl Hok Hn)
    as (s1 & Hrun1 & Hl1 & Hn1 & Hok1 & Hfr1); [|done|].
  { intros i Hi. destruct (Hal i Hi) as (Hnf & pg & Hpg & Hres). split; [done|].
    exists pg. split; [done|]. rewrite Hres. simpl. apply negb_true_iff, not_true_is_false.
    intros Hp. apply (bo_flag _ _ Hok _ _ Hpg) in Hp. apply list_elem_of_fmap in Hp as (b & -> & Hb).
    apply Hnf, elem_of_free_set. exists b. pose proof (blocks_ok_pos _ _ _ Hok Hb). split; [done|lia]. }
  destruct (merge_loop_run bl [] base n s1) as
    (base' & k' & kept & s2 & Hrun2 & Hok2 & Hl2 & Hsub & Hap2 & Hn2 & Htot & Hfs & Hfr2);
    [done|by rewrite Hl1|done|done|]. simpl in *.
  destruct (bo_head _ _ Hok2 (base', k')) as (Hk' & pg' & Hpg' & Hprop'); [set_solver|].
  assert (Forall (λ b, 0 < b.2) kept) as Hpos.
  { apply Forall_forall. intros b Hb. eapply blocks_ok_pos; [exact Hok2|set_solver]. }
  set (s3 := set_nr_free s2 (nr_free s2 + n)).
  pose proof (place_loop_run s3 base' k' pg' kept Hpg' Hprop' Hap2 Hpos Hk') as Hrun3.
  destruct (add_before_find base' k' (λ b, base' + k' ≤ b.1) kept)
    as (bl1 & bl2 & Hkept & Hins & Hb1 & Hb2).
  { pose proof (heads_NoDup _ _ Hok2) as Hnd. by apply NoDup_cons in Hnd as [_ ?]. }
  pose proof (blocks_ok_total _ _ Hok2) as Hbound. rewrite Htot, total_cons in Hbound. simpl in Hbound.
  exists (set_free_list s3 (fst <$> bl1 ++ (base', k') :: bl2)), (bl1 ++ (base', k') :: bl2).
  split_and!.
  - assert (upd_nr_free (λ k, k + n) s2 = Ret (tt, s3)) as Hnf.
    { unfold upd_nr_free, modify. rewrite u32_small; [done|]. unfold max_frames in *. lia. }
    unfold fit_free_pages.
    step using (unfold assert; rewrite (proj2 (Z.ltb_lt 0 n) Hn); reflexivity).
    rewrite Hrun1. step using reflexivity. rewrite Hl1, Hl. step using (exact Hrun2).
    step using (exact Hnf). step using reflexivity. simpl free_list. rewrite Hl2.
    step using (exact Hrun3). unfold upd_list, modify. simpl free_list. rewrite Hl2. by f_equal; f_equal; f_equal.
  - split; simpl; [done|..].
    + by rewrite <-Permutation_middle, <-Hkept.
    + rewrite <-Permutation_middle, <-Hkept. split; [done|]. by eapply pairwise_sublist.
    + rewrite <-Permutation_middle, <-Hkept, Htot, total_cons, Hn2, Hn1, Hcnt. simpl. lia.
  - rewrite <-Permutation_middle, <-Hkept, Hfs, free_set_cons. set_solver.
  - intros Hs. rewrite Hkept in Hsub, Hap2, Hpos.
    apply addr_sorted_insert; [by apply (pairwise_sublist _ _ _ Hsub)|done..|exact Hb2].
  - intros i Hi. simpl. rewrite Hfr2, Hfr1; [done|set_solver|rewrite free_set_cons; set_solver].
Qed.

Lemma elem_total pgs bl b : blocks_ok pgs bl → b ∈ bl → b.2 ≤ total bl.
Proof.
  intros Hok Hb. apply list_elem_of_split in Hb as (l1 & l2 & ->).
  rewrite <-Permutation_middle in Hok |- *. rewrite total_cons.
  destruct (bo_head _ _ Hok b) as (_ & pg & Hpg & _); [set_solver|]. destruct b as [p m].
  pose proof (blocks_ok_total _ _ (blocks_ok_take _ _ _ _ _ Hok Hpg)). lia.
Qed.

Lemma heads_split pgs bl1 p m bl2 :
  blocks_ok pgs (bl1 ++ (p, m) :: bl2) → p ∉ fst <$> bl1 ∧ p ∉ fst <$> bl2.
Proof.
  intros Hok. pose proof (heads_NoDup _ _ Hok) as Hnd. rewrite fmap_app in Hnd. simpl in Hnd.
  apply NoDup_app in Hnd as (_ & Hd & Hnd). apply NoDup_cons in Hnd as [Hnd _].
  split; [|done]. intros Hin. apply (Hd p Hin). set_solver.
Qed.

(** What an allocation answers, when [bl] are the blocks before and [bl'] those after. *)
Definition alloc_result (s s' : pmm) (bl bl' : list block) (n : Z) (r : option Z) : Prop :=
  match r with
  | Some p => frames (p, n) ⊆ free_set bl ∧ free_set bl' = free_set bl ∖ frames (p, n) ∧
              same_status (pages s) (pages s')
  | None => s' = s ∧ bl' = bl ∧ ∀ p, ¬ frames (p, n) ⊆ free_set bl
  end.

Lemma alloc_none s bl n :
  free_area s bl → 0 < n → (∀ b, b ∈ bl → b.2 < n) → alloc_result s s bl bl n None.
Proof.
  intros Hfa Hn Hsmall. split_and!; [done..|]. intros p Hp.
  destruct (run_in_block bl p n) as (b & Hb & ? & ?); [apply Hfa|done|done|].
  specialize (Hsmall b Hb). lia.
Qed.

Lemma alloc_none_count s bl n :
  free_area s bl → 0 < n → nr_free s < n → alloc_result s s bl bl n None.
Proof.
  intros Hfa Hn Hlt. apply alloc_none; [done|done|]. intros b Hb. destruct Hfa as [_ Hok _ Hcnt].
  pose proof (elem_total _ _ _ Hok Hb). lia.
Qed.

Lemma addr_sorted_rest bl1 p m n bl2 :
  addr_sorted (bl1 ++ (p, m) :: bl2) → Forall (apart (p, m)) bl2 → Forall (λ b, 0 < b.2) bl2 →
  0 < n ≤ m → addr_sorted (bl1 ++ rest_of p m n ++ bl2).
Proof.
  unfold addr_sorted. rewrite !pairwise_app. intros (H1 & [H2 H3] & H4) Hap Hpos Hn.
  rewrite Forall_forall in H2, Hap, Hpos.
  assert (∀ b, b ∈ bl2 → p + n < b.1) as Hlt.
  { intros b Hb. specialize (H2 b Hb). specialize (Hap b Hb). specialize (Hpos b Hb).
    unfold apart in Hap. simpl in *. lia. }
  unfold rest_of. case_decide; simpl; split_and!; try done.
  - intros a b [->|?%elem_of_nil]%elem_of_cons Hb; [by apply Hlt|done].
  - intros a b Ha [->|Hb]%elem_of_cons; simpl.
    + specialize (H4 a (p, m) Ha ltac:(set_solver)). simpl in H4. lia.
    + apply H4; [done|set_solver].
  - set_solver.
  - intros a b Ha Hb. apply H4; set_solver.
Qed.

Lemma firstfit_alloc_run s bl n :
  free_area s bl → 0 < n →
  ∃ r s' bl', firstfit_alloc_pages n s = Ret (r, s') ∧ free_area s' bl' ∧
    alloc_result s s' bl bl' n r ∧ (addr_sorted bl → addr_sorted bl') ∧
    (∀ p, r = Some p → ∃ i m, list_find (λ b, n ≤ b.2) bl = Some (i, (p, m))).
Proof.
  intros Hfa Hn. unfold firstfit_alloc_pages.
  step using (unfold assert; rewrite (proj2 (Z.ltb_lt 0 n) Hn); reflexivity).
  step using reflexivity. destruct (Z.ltb_spec (nr_free s) n).
  { exists None, s, bl. split_and!; [done|done|by apply alloc_none_count|done|done]. }
  step using reflexivity. rewrite (fa_list _ _ Hfa).
  step using (apply first_fit_run; by apply free_area_heads).
  destruct (list_find (λ b : Z * Z, n ≤ b.2) bl) as [[i [p m]]|] eqn:Hf; simpl.
  - apply list_find_Some in Hf as Hf'. destruct Hf' as (Hi & Hnm & _). simpl in Hnm.
    apply list_elem_of_split_length in Hi as (bl1 & bl2 & -> & _).
    pose proof Hfa as [Hl Hok Hap _]. destruct (heads_split _ _ _ _ _ Hok) as [Hp1 Hp2].
    destruct (take_block_spec (λ q, seq_add_after (Some p) q) s bl1 bl2 p m n
      (bl1 ++ rest_of p m n ++ bl2) Hfa) as (s' & Hrun & Hfa' & Hfs & Hin & Hst).
    + lia.
    + rewrite Hl, !fmap_app. simpl. unfold rest_of. case_decide; simpl.
      * rewrite seq_insert_after_split by done. apply seq_del_split; [done|].
        apply not_elem_of_cons. split; [lia|done].
      * by apply seq_del_split.
    + unfold rest_of. case_decide; simpl; [by rewrite Permutation_middle|done].
    + exists (Some p), s', (bl1 ++ rest_of p m n ++ bl2). split_and!; [|done|done| |].
      * by step using (exact Hrun).
      * intros Hs. eapply addr_sorted_rest; [done| | |lia].
        -- rewrite pairwise_app in Hap. by destruct Hap as (_ & [? _] & _).
        -- apply Forall_forall. intros b Hb. eapply blocks_ok_pos; [exact Hok|set_solver].
      * intros p' [= <-]. eauto.
  - apply list_find_None in Hf. rewrite Forall_forall in Hf. exists None, s, bl.
    split_and!; [done|done| |done|done]. apply alloc_none; [done|done|].
    intros b Hb. specialize (Hf b Hb). simpl in Hf. lia.
Qed.

Lemma best_alloc_run s bl n :
  free_area s bl → 0 < n →
  ∃ r s' bl', best_alloc_pages n s = Ret (r, s') ∧ free_area s' bl' ∧
    alloc_result s s' bl bl' n r ∧ (∀ p, r = Some p → ∃ m, best_of n bl (p, m)).
Proof.
  intros Hfa Hn. unfold best_alloc_pages.
  step using (unfold assert; rewrite (proj2 (Z.ltb_lt 0 n) Hn); reflexivity).
  step using reflexivity. destruct (Z.ltb_spec (nr_free s) n).
  { exists None, s, bl. split_and!; [done|done|by apply alloc_none_count|done]. }
  step using reflexivity. rewrite (fa_list _ _ Hfa).
  destruct (best_fit_run s n bl [] None) as (r & Hr & Hres); [by apply free_area_heads|set_solver|].
  step using (exact Hr). simpl in Hres. destruct r as [[p m]|]; simpl in Hres.
  - pose proof Hres as (Hin & Hnm & _). simpl in Hnm.
    apply list_elem_of_split in Hin as (bl1 & bl2 & ->).
    pose proof Hfa as [Hl Hok Hap _]. destruct (heads_split _ _ _ _ _ Hok) as [Hp1 Hp2].
    destruct (take_block_spec (λ q, seq_add_after None q) s bl1 bl2 p m n
      (rest_of p m n ++ bl1 ++ bl2) Hfa) as (s' & Hrun & Hfa' & Hfs & Hin & Hst).
    + lia.
    + rewrite Hl, !fmap_app. simpl. unfold rest_of. case_decide; simpl.
      * rewrite app_comm_cons, seq_del_split; [done| |done]. apply not_elem_of_cons. split; [lia|done].
      * by apply seq_del_split.
    + done.
    + exists (Some p), s', (rest_of p m n ++ bl1 ++ bl2). split_and!; [|done|done|].
      * by step using (exact Hrun).
      * intros p' [= <-]. eauto.
  - exists None, s, bl. split_and!; [done|done| |done]. by apply alloc_none.
Qed.

Lemma fit_init_memmap_run s bl base n :
  free_area s bl → 0 < n →
  (∀ i, base ≤ i < base + n → ∃ pg, pages s !! i = Some pg ∧ PageReserved pg = true) →
  Forall (apart (base, n)) bl →
  ∃ s', fit_init_memmap base n s = Ret (tt, s') ∧ free_area s' (bl ++ [(base, n)]) ∧
    (∀ i, i ∉ frames (base, n) → pages s' !! i = pages s !! i).
Proof.
  intros [Hl Hok Hap Hcnt] Hn Hres Hd.
  destruct (for_pages_mark PageReserved (λ p, Frames.set_page_ref (set_property (set_flags p 0) 0) 0)
    base n s bl Hok Hn) as (s1 & Hrun1 & Hl1 & Hn1 & Hok1 & Hfr1); [|done|].
  { intros i Hi. split; [|by apply Hres]. intros Hf.
    destruct (bo_free _ _ Hok i Hf) as (pg & Hpg & Hr & _).
    destruct (Hres i Hi) as (pg' & ? & ?). simplify_eq. congruence. }
  pose proof (blocks_ok_total _ _ Hok1) as Hbound. rewrite total_cons in Hbound. simpl in Hbound.
  exists (mkPmm (pages s1) (free_list s1 ++ [base]) (nr_free s1 + n)). split_and!; [| |done].
  - unfold fit_init_memmap.
    step using (unfold assert; rewrite (proj2 (Z.ltb_lt 0 n) Hn); reflexivity).
    rewrite Hrun1. step using reflexivity. unfold upd_list, modify. simpl.
    rewrite u32_small; [done|]. unfold max_frames in *. lia.
  - split; simpl.
    + by rewrite Hl1, Hl, fmap_app.
    + by rewrite <-Permutation_cons_append.
    + rewrite <-Permutation_cons_append. by split.
    + rewrite <-Permutation_cons_append, total_cons, Hn1, Hcnt. simpl. lia.
Qed.

(** * The free set determines the address-ordered free list *)

Lemma addr_sorted_min bl i :
  addr_sorted bl → i ∈ free_set bl → ∃ b bl', bl = b :: bl' ∧ b.1 ≤ i.
Proof.
  intros Hs (b & Hb & Hi)%elem_of_free_set. destruct bl as [|c bl]; [set_solver|].
  exists c, bl. split; [done|]. destruct Hs as [Hf _]. rewrite Forall_forall in Hf.
  apply elem_of_cons in Hb as [->|Hb]; [lia|]. specialize (Hf b Hb). lia.
Qed.

Lemma head_length_le p m bl k :
  pairwise apart ((p, m) :: bl) → 0 < m → frames (p, k) ⊆ free_set ((p, m) :: bl) → k ≤ m.
Proof.
  intros [Hf _] Hm Hsub. destruct (decide (k ≤ m)); [done|exfalso].
  assert (p + m ∈ free_set ((p, m) :: bl)) as Hin.
  { apply Hsub, elem_of_frames. simpl. lia. }
  rewrite free_set_cons, elem_of_union, elem_of_frames in Hin. simpl in Hin.
  destruct Hin as [?|(b & Hb & Hi)%elem_of_free_set]; [lia|].
  rewrite Forall_forall in Hf. specialize (Hf b Hb). unfold apart in Hf. simpl in Hf. lia.
Qed.

Lemma free_set_tail b bl :
  Forall (apart b) bl → free_set bl = free_set (b :: bl) ∖ frames b.
Proof.
  intros Hf. apply set_eq. intros i. rewrite free_set_cons.
  enough (i ∈ free_set bl → i ∉ frames b) by set_solver.
  rewrite elem_of_frames. intros (c & Hc & Hi)%elem_of_free_set.
  rewrite Forall_forall in Hf. specialize (Hf c Hc). unfold apart in Hf. lia.
Qed.

Lemma blocks_canonical bl bl' :
  addr_sorted bl → addr_sorted bl' → pairwise apart bl → pairwise apart bl' →
  Forall (λ b, 0 < b.2) bl → Forall (λ b, 0 < b.2) bl' → free_set bl = free_set bl' → bl = bl'.
Proof.
  revert bl'. induction bl as [|[p m] bl IH]; intros bl' Hs Hs' Ha Ha' Hp Hp' Hfs.
  - destruct bl' as [|[q k] bl']; [done|]. apply Forall_cons in Hp' as [? _]. simpl in *.
    assert (q ∈ free_set []) as Hq; [|by apply elem_of_free_set in Hq as (?&?%elem_of_nil&_)].
    rewrite Hfs, free_set_cons, elem_of_union, elem_of_frames. simpl. lia.
  - pose proof Hp as [Hm Hpt]%Forall_cons. simpl in Hm.
    assert (p ∈ free_set bl') as Hin.
    { rewrite <-Hfs, free_set_cons, elem_of_union, elem_of_frames. simpl. lia. }
    destruct (addr_sorted_min bl' p Hs' Hin) as ([q k] & bl'' & -> & Hqp). simpl in Hqp.
    pose proof Hp' as [Hk Hpt']%Forall_cons. simpl in Hk.
    assert (q ∈ free_set ((p, m) :: bl)) as Hin2.
    { rewrite Hfs, free_set_cons, elem_of_union, elem_of_frames. simpl. lia. }
    destruct (addr_sorted_min _ q Hs Hin2) as (b & bl3 & Heq & Hpq).
    injection Heq as <- <-. simpl in Hpq.
    assert (p = q) as <- by lia.
    assert (k ≤ m).
    { apply (head_length_le p m bl k); [done|done|]. rewrite Hfs, free_set_cons. set_solver. }
    assert (m ≤ k).
    { apply (head_length_le p k bl'' m); [done|done|]. rewrite <-Hfs, free_set_cons. set_solver. }
    assert (m = k) as <- by lia. f_equal.
    destruct Hs as [_ Hs], Hs' as [_ Hs'], Ha as [Hf Ha], Ha' as [Hf' Ha'].
    apply IH; try done. rewrite (free_set_tail (p, m) bl), (free_set_tail (p, m) bl'') by done.
    by rewrite Hfs.
Qed.

(** * The managers discharge the interface *)

Definition fit_free (s : pmm) : gset Z := free_set (blocks s).
Definition fit_frames (s : pmm) : gset Z :=
  dom (filter (λ ip : Z * Page, PageReserved ip.2 = false) (pages s)).
Definition fit_page_ref (i : Z) (s : pmm) : option Z := ref <$> pages s !! i.
Definition fit_set_page_ref (i r : Z) : M pmm unit := page_upd i (λ p, Frames.set_page_ref p r).

Lemma elem_of_fit_frames s i :
  i ∈ fit_frames s ↔ ∃ pg, pages s !! i = Some pg ∧ PageReserved pg = false.
Proof.
  unfold fit_frames. rewrite elem_of_dom. unfold is_Some. setoid_rewrite map_lookup_filter_Some.
  done.
Qed.

Lemma fit_frames_status s s' : same_status (pages s) (pages s') → fit_frames s' = fit_frames s.
Proof.
  intros Hst. apply set_eq. intros i. rewrite !elem_of_fit_frames. specialize (Hst i).
  unfold status in Hst. destruct (pages s !! i), (pages s' !! i); simplify_eq/=; [|done].
  split; intros (pg & ? & ?); simplify_eq; eexists; (split; [done|congruence]).
Qed.

Lemma fit_ref_status s s' i :
  same_status (pages s) (pages s') → fit_page_ref i s' = fit_page_ref i s.
Proof.
  intros Hst. unfold fit_page_ref. specialize (Hst i). unfold status in Hst.
  destruct (pages s !! i), (pages s' !! i); simplify_eq/=; congruence.
Qed.

Section fit_manager.
Context (alloc : Z → M pmm (option Z)).

Definition fit_manager : pmm_manager pmm := {|
  init_memmap := fit_init_memmap;
  alloc_pages := alloc;
  free_pages := fit_free_pages;
  nr_free_pages := fit_nr_free_pages;
  page_ref := fit_page_ref;
  PmmManager.set_page_ref := fit_set_page_ref |}.

Hypothesis alloc_ok : ∀ s bl n, free_area s bl → 0 < n →
  ∃ r s' bl', alloc n s = Ret (r, s') ∧ free_area s' bl' ∧ alloc_result s s' bl bl' n r.

Lemma fit_set_ref_run s i r :
  fit_inv s → i ∈ fit_frames s ∖ fit_free s →
  ∃ s', fit_set_page_ref i r s = Ret (tt, s') ∧ fit_inv s' ∧ fit_frames s' = fit_frames s ∧
    fit_free s' = fit_free s ∧ fit_page_ref i s' = Some r ∧
    (∀ j, j ≠ i → fit_page_ref j s' = fit_page_ref j s).
Proof.
  intros Hinv [Hfr Hnf]%elem_of_difference. apply elem_of_fit_frames in Hfr as (pg & Hpg & Hres).
  exists (set_pages s (<[i := Frames.set_page_ref pg r]> (pages s))).
  assert (∀ j, property <$> <[i := Frames.set_page_ref pg r]> (pages s) !! j =
               property <$> pages s !! j) as Hprop.
  { intros j. destruct (decide (j = i)) as [->|].
    - by rewrite lookup_insert_eq, Hpg.
    - by rewrite lookup_insert_ne. }
  assert (blocks (set_pages s (<[i := Frames.set_page_ref pg r]> (pages s))) = blocks s) as Hbl.
  { unfold blocks. simpl. apply list_fmap_ext. intros k p _. f_equal. specialize (Hprop p).
    destruct (pages s !! p), (<[i:=_]> (pages s) !! p); naive_solver. }
  split_and!.
  - unfold fit_set_page_ref. by erewrite page_upd_run.
  - unfold fit_inv. rewrite Hbl. destruct Hinv as [Hl [H1 H2 H3 H4 H5] Hap Hc].
    split; [done| |done|done]. split; simpl; [..|done].
    + intros j Hj. apply H1. destruct (decide (j = i)) as [->|]; [eauto|].
      by rewrite lookup_insert_ne in Hj.
    + intros j pg'. destruct (decide (j = i)) as [->|].
      * rewrite lookup_insert_eq. intros [= <-]. by rewrite <-(H2 i pg Hpg).
      * rewrite lookup_insert_ne by done. apply H2.
    + intros b Hb. destruct (H3 b Hb) as (? & pg' & Hpg' & ?). split; [done|].
      specialize (Hprop b.1). rewrite Hpg' in Hprop. simpl in Hprop.
      destruct (<[i:=_]> (pages s) !! b.1) as [pg2|]; [|done]. exists pg2. split; [done|].
      simpl in Hprop. congruence.
    + intros j Hj. rewrite lookup_insert_ne; [by apply H4|]. intros ->. by apply Hnf.
  - apply set_eq. intros j. rewrite !elem_of_fit_frames. simpl.
    destruct (decide (j = i)) as [->|].
    + rewrite lookup_insert_eq. naive_solver.
    + by rewrite lookup_insert_ne.
  - unfold fit_free. by rewrite Hbl.
  - unfold fit_page_ref. simpl. by rewrite lookup_insert_eq.
  - intros j Hj. unfold fit_page_ref. simpl. by rewrite lookup_insert_ne.
Qed.

Lemma fit_alloc_law s n :
  fit_inv s → 0 < n →
  ∃ r s', alloc n s = Ret (r, s') ∧ fit_inv s' ∧ fit_frames s' = fit_frames s ∧
    match r with
    | Some p => frames (p, n) ⊆ fit_free s ∧ fit_free s' = fit_free s ∖ frames (p, n) ∧
        (∀ i, i ∈ frames (p, n) → fit_page_ref i s' = Some 0) ∧
        (∀ i, i ∉ fit_free s → fit_page_ref i s' = fit_page_ref i s)
    | None => s' = s ∧ ∀ p, ¬ frames (p, n) ⊆ fit_free s
    end.
Proof.
  intros Hinv Hn. destruct (alloc_ok s (blocks s) n Hinv Hn) as (r & s' & bl' & Hrun & Hfa & Hr).
  pose proof (free_area_blocks _ _ Hfa) as Hbl. exists r, s'.
  split; [done|]. split; [by eapply fit_inv_intro|]. unfold fit_free. rewrite Hbl.
  destruct r as [p|].
  - destruct Hr as (Hin & Hfs & Hst). split_and!; [by apply fit_frames_status|done|done| |].
    + intros i Hi. rewrite (fit_ref_status s s') by done. unfold fit_page_ref.
      destruct (bo_free _ _ (fa_ok _ _ Hinv) i (Hin i Hi)) as (pg & -> & _ & Href). simpl. by f_equal.
    + intros i _. by apply fit_ref_status.
  - destruct Hr as (-> & -> & Hno). done.
Qed.

Lemma fit_release_law s p n :
  fit_inv s → 0 < n → frames (p, n) ⊆ fit_frames s ∖ fit_free s →
  ∃ s', fit_free_pages p n s = Ret (tt, s') ∧ fit_inv s' ∧ fit_frames s' = fit_frames s ∧
    fit_free s' = fit_free s ∪ frames (p, n) ∧
    (∀ i, i ∉ fit_free s ∪ frames (p, n) → fit_page_ref i s' = fit_page_ref i s).
Proof.
  intros Hinv Hn Hsub.
  destruct (fit_free_pages_run s (blocks s) p n Hinv Hn)
    as (s' & bl' & Hrun & Hfa & Hfs & _ & Hfr).
  { intros i Hi. assert (i ∈ frames (p, n)) as Hin by by apply elem_of_frames.
    apply Hsub, elem_of_difference in Hin as [Hin ?]. by apply elem_of_fit_frames in Hin. }
  pose proof (free_area_blocks _ _ Hfa) as Hbl. exists s'.
  split; [done|]. split; [by eapply fit_inv_intro|]. unfold fit_free. rewrite Hbl. split_and!.
  - apply set_eq. intros i.
    destruct (decide (i ∈ free_set (blocks s) ∪ frames (p, n))) as [Hi|Hi].
    + split; intros _.
      * apply elem_of_union in Hi as [Hi|Hi]; [|by apply Hsub, elem_of_difference in Hi as [? _]].
        destruct (bo_free _ _ (fa_ok _ _ Hinv) i Hi) as (pg & ? & ? & _).
        apply elem_of_fit_frames. eauto.
      * rewrite <-Hfs in Hi. destruct (bo_free _ _ (fa_ok _ _ Hfa) i Hi) as (pg & ? & ? & _).
        apply elem_of_fit_frames. eauto.
    + rewrite !elem_of_fit_frames. by rewrite Hfr.
  - done.
  - intros i Hi. unfold fit_page_ref. by rewrite Hfr.
Qed.

Definition fit_laws : @pmm_laws pmm fit_manager.
Proof.
  refine (@Build_pmm_laws pmm fit_manager fit_inv fit_frames fit_free _ _ _ _
            fit_alloc_law fit_release_law fit_set_ref_run).
  - intros s Hinv i Hi. destruct (bo_free _ _ (fa_ok _ _ Hinv) i Hi) as (pg & ? & ? & _).
    apply elem_of_fit_frames. eauto.
  - intros s i Hinv (pg & Hpg & _)%elem_of_fit_frames. eapply bo_bound; [apply Hinv|eauto].
  - intros s i Hinv (pg & Hpg & _)%elem_of_fit_frames. simpl. unfold fit_page_ref. rewrite Hpg. eauto.
  - intros s Hinv. simpl. unfold fit_nr_free_pages, gets, fit_free.
    rewrite size_free_set, (fa_count _ _ Hinv); [done| |apply Hinv].
    apply Forall_forall. intros b Hb. eapply blocks_ok_pos; [apply Hinv|done].
Defined.
End fit_manager.

Definition firstfit_pmm_manager : pmm_manager pmm := fit_manager firstfit_alloc_pages.
Definition best_pmm_manager : pmm_manager pmm := fit_manager best_alloc_pages.

Definition firstfit_laws : @pmm_laws pmm firstfit_pmm_manager.
Proof.
  apply fit_laws. intros s bl n Hfa Hn.
  destruct (firstfit_alloc_run s bl n Hfa Hn) as (r & s' & bl' & ? & ? & ? & _). eauto 10.
Defined.

Definition best_laws : @pmm_laws pmm best_pmm_manager.
Proof.
  apply fit_laws. intros s bl n Hfa Hn.
  destruct (best_alloc_run s bl n Hfa Hn) as (r & s' & bl' & ? & ? & ? & _). eauto 10.
Defined.

(** * Correctness of the managers *)

(** Initialising a region of reserved frames that touches no free block. *)
Definition fresh_region (s : pmm) (base n : Z) : Prop :=
  (∀ i, base ≤ i < base + n → ∃ pg, pages s !! i = Some pg ∧ PageReserved pg = true) ∧
  Forall (apart (base, n)) (blocks s).

Lemma firstfit_least bl n i p m :
  addr_sorted bl → pairwise apart bl → 0 < n →
  list_find (λ b, n ≤ b.2) bl = Some (i, (p, m)) → ∀ q, frames (q, n) ⊆ free_set bl → p ≤ q.
Proof.
  intros Hs Hap Hn Hf q Hq. apply list_find_Some in Hf as (Hi & _ & Hbefore).
  destruct (run_in_block bl q n Hap Hn Hq) as (b & Hb & Hbq & Hqb).
  apply list_elem_of_split_length in Hi as (bl1 & bl2 & -> & Hlen).
  unfold addr_sorted in Hs. rewrite pairwise_app in Hs. destruct Hs as (_ & [Hf _] & _).
  apply elem_of_app in Hb as [Hb|Hb].
  - apply list_elem_of_lookup in Hb as (j & Hj). pose proof (lookup_lt_Some _ _ _ Hj).
    exfalso. apply (Hbefore j b); [by rewrite lookup_app_l|lia|lia].
  - apply elem_of_cons in Hb as [->|Hb]; [simpl in *; lia|].
    rewrite Forall_forall in Hf. specialize (Hf b Hb). simpl in Hf. lia.
Qed.

(** C1: the first-fit manager allocates the lowest [n] contiguous free frames: the request fails
    only when no [n] contiguous frames are free, and otherwise exactly the granted frames leave the
    free set, the free list staying in address order without adjacent blocks. *)
Theorem firstfit_alloc_correct s n :
  fit_inv s → addr_sorted (blocks s) → 0 < n →
  ∃ r s', firstfit_alloc_pages n s = Ret (r, s') ∧ fit_inv s' ∧ addr_sorted (blocks s') ∧
    match r with
    | Some p => frames (p, n) ⊆ fit_free s ∧ fit_free s' = fit_free s ∖ frames (p, n) ∧
                (∀ q, frames (q, n) ⊆ fit_free s → p ≤ q)
    | None => s' = s ∧ ∀ q, ¬ frames (q, n) ⊆ fit_free s
    end.
Proof.
  intros Hinv Hs Hn.
  destruct (firstfit_alloc_run s (blocks s) n Hinv Hn) as (r & s' & bl' & Hrun & Hfa & Hr & Hs' & Hp).
  pose proof (free_area_blocks _ _ Hfa) as Hbl. exists r, s'. unfold fit_free. rewrite Hbl.
  split_and!; [done|by eapply fit_inv_intro|auto|]. destruct r as [p|].
  - destruct (Hp p eq_refl) as (i & m & Hf). destruct Hr as (? & ? & _). split_and!; [done|done|].
    eapply firstfit_least; [done|apply Hinv|done|done].
  - destruct Hr as (-> & -> & ?). done.
Qed.

(** The best-fit manager takes the frames from a smallest free block that can hold the request,
    and fails only when no [n] contiguous frames are free. *)
Theorem best_alloc_correct s n :
  fit_inv s → 0 < n →
  ∃ r s', best_alloc_pages n s = Ret (r, s') ∧ fit_inv s' ∧
    match r with
    | Some p => frames (p, n) ⊆ fit_free s ∧ fit_free s' = fit_free s ∖ frames (p, n) ∧
                (∃ m, (p, m) ∈ blocks s ∧ n ≤ m ∧ ∀ q k, (q, k) ∈ blocks s → n ≤ k → m ≤ k)
    | None => s' = s ∧ ∀ q, ¬ frames (q, n) ⊆ fit_free s
    end.
Proof.
  intros Hinv Hn.
  destruct (best_alloc_run s (blocks s) n Hinv Hn) as (r & s' & bl' & Hrun & Hfa & Hr & Hp).
  pose proof (free_area_blocks _ _ Hfa) as Hbl. exists r, s'. unfold fit_free. rewrite Hbl.
  split_and!; [done|by eapply fit_inv_intro|]. destruct r as [p|].
  - destruct (Hp p eq_refl) as (m & Hin & Hnm & Hmin). destruct Hr as (? & ? & _).
    split_and!; [done|done|]. exists m. split_and!; [done|done|].
    intros q k Hq Hk. by apply (Hmin (q, k)).
  - destruct Hr as (-> & -> & ?). done.
Qed.

(** C2: releasing allocated frames makes exactly them free again and coalesces: no two free blocks
    are adjacent afterwards, no assertion of [free_pages] fails, and an address-ordered free list
    stays so. *)
Theorem fit_free_correct s base n :
  fit_inv s → 0 < n → frames (base, n) ⊆ fit_frames s ∖ fit_free s →
  ∃ s', fit_free_pages base n s = Ret (tt, s') ∧ fit_inv s' ∧ pairwise apart (blocks s') ∧
    (addr_sorted (blocks s) → addr_sorted (blocks s')) ∧
    fit_free s' = fit_free s ∪ frames (base, n) ∧ nr_free s' = nr_free s + n.
Proof.
  intros Hinv Hn Hsub.
  destruct (fit_free_pages_run s (blocks s) base n Hinv Hn)
    as (s' & bl' & Hrun & Hfa & Hfs & Hs & _).
  { intros i Hi. assert (i ∈ frames (base, n)) as Hin by by apply elem_of_frames.
    apply Hsub, elem_of_difference in Hin as [Hin ?]. by apply elem_of_fit_frames in Hin. }
  pose proof (free_area_blocks _ _ Hfa) as Hbl. exists s'. unfold fit_free. rewrite Hbl.
  split_and!; [done|by eapply fit_inv_intro|apply Hfa|done|done|].
  rewrite (fa_count _ _ Hfa), (fa_count _ _ Hinv).
  assert (∀ s bl, free_area s bl → Z.of_nat (size (free_set bl)) = total bl) as Hsz.
  { intros s0 bl0 [_ Hok _ _]. apply size_free_set; [|apply Hok].
    apply Forall_forall. intros. by eapply blocks_ok_pos. }
  rewrite <-(Hsz _ _ Hfa), <-(Hsz _ _ Hinv), Hfs, size_union.
  - unfold frames at 1. rewrite size_list_to_set by apply NoDup_seqZ. rewrite length_seqZ. simpl. lia.
  - intros i Hi1 Hi2. apply Hsub, elem_of_difference in Hi2 as [_ ?]. done.
Qed.

(** Allocating and releasing again restores the first-fit free list exactly: the same blocks in
    the same order and the same count. *)
Theorem firstfit_alloc_free s s1 n p :
  fit_inv s → addr_sorted (blocks s) → 0 < n →
  firstfit_alloc_pages n s = Ret (Some p, s1) →
  ∃ s2, firstfit_free_pages p n s1 = Ret (tt, s2) ∧
    free_list s2 = free_list s ∧ blocks s2 = blocks s ∧ nr_free s2 = nr_free s.
Proof.
  intros Hinv Hs Hn Hal.
  destruct (firstfit_alloc_run s (blocks s) n Hinv Hn)
    as (r & s' & bl' & Hrun & Hfa & Hr & Hs' & _).
  rewrite Hal in Hrun. injection Hrun as <- <-. destruct Hr as (Hin & Hfs & Hst).
  destruct (fit_free_pages_run s1 bl' p n Hfa Hn) as (s2 & bl2 & Hrun2 & Hfa2 & Hfs2 & Hs2 & _).
  { intros i Hi. assert (i ∈ frames (p, n)) as Hi' by by apply elem_of_frames.
    rewrite Hfs. split; [set_solver|].
    destruct (bo_free _ _ (fa_ok _ _ Hinv) i (Hin i Hi')) as (pg & Hpg & Hres & _).
    specialize (Hst i). rewrite Hpg in Hst. destruct (pages s1 !! i) as [pg1|]; [|done].
    exists pg1. split; [done|]. unfold status in Hst. simpl in Hst. congruence. }
  assert (bl2 = blocks s) as Heq.
  { apply blocks_canonical; auto; try apply Hinv; try apply Hfa2.
    - apply Forall_forall. intros b Hb. eapply blocks_ok_pos; [apply Hfa2|done].
    - apply Forall_forall. intros b Hb. eapply blocks_ok_pos; [apply Hinv|done].
    - rewrite Hfs2, Hfs. apply set_eq. intros i. rewrite elem_of_union, elem_of_difference.
      destruct (decide (i ∈ frames (p, n))); set_solver. }
  subst bl2. exists s2. split_and!; [done| |by apply free_area_blocks|].
  - by rewrite (fa_list _ _ Hfa2), (fa_list _ _ Hinv).
  - by rewrite (fa_count _ _ Hfa2), (fa_count _ _ Hinv).
Qed.

(** [init_memmap] turns a region of reserved frames into one free block: all its frames, and no
    other, become free. *)
Theorem fit_init_memmap_correct s base n :
  fit_inv s → 0 < n → fresh_region s base n →
  ∃ s', fit_init_memmap base n s = Ret (tt, s') ∧ fit_inv s' ∧
    blocks s' = blocks s ++ [(base, n)] ∧ fit_free s' = fit_free s ∪ frames (base, n).
Proof.
  intros Hinv Hn [Hres Hd].
  destruct (fit_init_memmap_run s (blocks s) base n Hinv Hn Hres Hd) as (s' & Hrun & Hfa & _).
  pose proof (free_area_blocks _ _ Hfa) as Hbl. exists s'. unfold fit_free. rewrite Hbl.
  split_and!; [done|by eapply fit_inv_intro|done|].
  rewrite <-Permutation_cons_append, free_set_cons. set_solver.
Qed.

(** * A small machine *)

(** Twelve frames, all reserved, and no free block. *)
Definition demo_reserved : pmm :=
  mkPmm (list_to_map ((λ i, (i, mkPage 0 1 0)) <$> seqZ 0 12)) [] 0.
Definition run {A} (m : M pmm A) (s : pmm) : pmm :=
  match m s with Ret (_, s') => s' | Err _ => s end.
(** Frames 2 to 9 given to the manager. *)
Definition demo_free : pmm := run (fit_init_memmap 2 8) demo_reserved.
(** The same after an allocation of three frames. *)
Definition demo_alloc : pmm := run (firstfit_alloc_pages 3) demo_free.

Lemma demo_reserved_page i pg : pages demo_reserved !! i = Some pg → 0 ≤ i < 12 ∧ pg = mkPage 0 1 0.
Proof.
  intros H. apply elem_of_list_to_map_2, list_elem_of_fmap in H as (j & [= -> ->] & Hj).
  apply elem_of_seqZ in Hj. split; [lia|done].
Qed.

Lemma demo_reserved_inv : fit_inv demo_reserved.
Proof.
  split; [done| |done|done]. split; [..|done].
  - intros i [pg Hi]. apply demo_reserved_page in Hi as [? _]. unfold max_frames. lia.
  - intros i pg Hi. apply demo_reserved_page in Hi as [_ ->]. simpl. split; [done|set_solver].
  - intros b Hb. by apply elem_of_nil in Hb.
  - intros i Hi. apply elem_of_free_set in Hi as (b & Hb & _). by apply elem_of_nil in Hb.
Qed.

Lemma demo_fresh : fresh_region demo_reserved 2 8.
Proof.
  split; [|constructor]. intros i Hi. exists (mkPage 0 1 0). split; [|done].
  assert (i ∈ seqZ 2 8) as Hs by (apply elem_of_seqZ; lia).
  change (seqZ 2 8) with [2; 3; 4; 5; 6; 7; 8; 9] in Hs.
  repeat (apply elem_of_cons in Hs as [->|Hs]; [reflexivity|]). by apply elem_of_nil in Hs.
Qed.

Lemma demo_free_inv : fit_inv demo_free.
Proof.
  destruct (fit_init_memmap_run demo_reserved [] 2 8 demo_reserved_inv) as (s' & Hrun & Hfa & _);
    [lia|apply demo_fresh|done|].
  unfold demo_free, run. rewrite Hrun. by eapply fit_inv_intro.
Qed.

Lemma demo_free_sorted : addr_sorted (blocks demo_free).
Proof. vm_compute. auto. Qed.

Lemma firstfit_alloc_correct_witness :
  firstfit_alloc_pages 3 demo_free = Ret (Some 2, demo_alloc) ∧ fit_inv demo_alloc.
Proof.
  destruct (firstfit_alloc_correct demo_free 3) as (r & s' & Hrun & Hinv & _).
  - apply demo_free_inv.
  - apply demo_free_sorted.
  - lia.
  - unfold demo_alloc, run. rewrite Hrun in *. split; [|exact Hinv].
    assert (r = Some 2) as ->; [|reflexivity].
    assert (fst <$> firstfit_alloc_pages 3 demo_free = Ret (Some 2)) as E by (vm_compute; reflexivity).
    rewrite Hrun in E. simpl in E. congruence.
Defined.

Lemma best_alloc_correct_witness :
  ∃ r s', best_alloc_pages 3 demo_free = Ret (r, s') ∧ fit_inv s' ∧ r = Some 2.
Proof.
  destruct (best_alloc_correct demo_free 3) as (r & s' & Hrun & Hinv & _).
  - apply demo_free_inv.
  - lia.
  - exists r, s'. split; [exact Hrun|]. split; [exact Hinv|].
    assert (fst <$> best_alloc_pages 3 demo_free = Ret (Some 2)) as E by (vm_compute; reflexivity).
    rewrite Hrun in E. simpl in E. congruence.
Defined.

Lemma demo_alloc_inv : fit_inv demo_alloc ∧ frames (2, 3) ⊆ fit_frames demo_alloc ∖ fit_free demo_alloc.
Proof.
  split.
  - destruct (firstfit_alloc_run demo_free (blocks demo_free) 3 demo_free_inv)
      as (r & s' & bl' & Hrun & Hfa & _); [lia|].
    unfold demo_alloc, run. rewrite Hrun. by eapply fit_inv_intro.
  - apply (bool_decide_unpack _). vm_compute. exact I.
Qed.

Lemma fit_free_correct_witness :
  ∃ s', fit_free_pages 2 3 demo_alloc = Ret (tt, s') ∧ fit_inv s' ∧ nr_free s' = 8.
Proof.
  destruct (fit_free_correct demo_alloc 2 3) as (s' & Hrun & Hinv & _ & _ & _ & Hn).
  - apply demo_alloc_inv.
  - lia.
  - apply demo_alloc_inv.
  - exists s'. split; [exact Hrun|]. split; [exact Hinv|]. rewrite Hn. vm_compute. reflexivity.
Defined.

Lemma firstfit_alloc_free_witness :
  ∃ s2, firstfit_free_pages 2 3 demo_alloc = Ret (tt, s2) ∧ free_list s2 = [2] ∧ nr_free s2 = 8.
Proof.
  destruct (firstfit_alloc_free demo_free demo_alloc 3 2) as (s2 & Hrun & Hl & _ & Hn).
  - apply demo_free_inv.
  - apply demo_free_sorted.
  - lia.
  - vm_compute. reflexivity.
  - exists s2. split; [exact Hrun|]. rewrite Hl, Hn. split; vm_compute; reflexivity.
Defined.

Lemma fit_init_memmap_correct_witness :
  ∃ s', fit_init_memmap 2 8 demo_reserved = Ret (tt, s') ∧ blocks s' = [(2, 8)].
Proof.
  destruct (fit_init_memmap_correct demo_reserved 2 8) as (s' & Hrun & _ & Hbl & _).
  - apply demo_reserved_inv.
  - lia.
  - apply demo_fresh.
  - exists s'. split; [exact Hrun|exact Hbl].
Defined.

End FitAlloc.
