(* ===== verification/NextFit.v ===== *)
(** kern/mm/nextfit_pmm.c: the next-fit manager.  Its free area is that of FitAlloc.v with the
    global [Record], the list position at which the last search ended. *)
From S2P Require Import Prelude Dll Frames FitAlloc.

Module NextFit.
Import Dll Frames FitAlloc.

(** [Record] is [None] while it is [&free_list]. *)
Record next_area := mkNext { area : pmm; rec : option Z }.

Definition lift {A} (m : M pmm A) : M next_area A := λ s,
  match m (area s) with
  | Ret (a, s') => Ret (a, mkNext s' (rec s))
  | Err e => Err e
  end.
Definition set_rec (r : option Z) : M next_area unit := modify (λ s, mkNext (area s) r).

(** [list_next] and [list_prev] of a position of the list; [None] is the list head. *)
Fixpoint after (p : Z) (l : list Z) : option Z :=
  match l with
  | [] => None
  | q :: l' => if decide (q = p) then head l' else after p l'
  end.
Definition seq_next (le : option Z) (l : list Z) : option Z :=
  match le with None => head l | Some p => after p l end.
Definition seq_prev (le : option Z) (l : list Z) : option Z := seq_next le (reverse l).

Definition next_init (s : next_area) : next_area := mkNext (firstfit_init (area s)) None.
Definition next_init_memmap (base n : Z) : M next_area unit := lift (fit_init_memmap base n).
Definition next_free_pages (base n : Z) : M next_area unit := lift (fit_free_pages base n).
Definition next_nr_free_pages : M next_area Z := lift fit_nr_free_pages.

(** [le2page(le, page_link)]: the list head is no page descriptor. *)
Definition le2page (le : option Z) : M next_area Z :=
  match le with Some p => mret p | None => fail EFault end.

(** [while ((le = list_next(le)) != Record) ...]. *)
Fixpoint next_fit (fuel : nat) (n : Z) (le : option Z) : M next_area (option Z) :=
  match fuel with
  | O => fail EFuel
  | S fuel' =>
      l ← gets (λ s, free_list (area s));
      r ← gets rec;
      let le' := seq_next le l in
      if decide (le' = r) then mret None else
      p ← le2page le';
      pg ← lift (page_at p);
      if n <=? property pg then mret (Some p) else next_fit fuel' n le'
  end.

Definition next_alloc_pages (n : Z) : M next_area (option Z) :=
  assert (0 <? n) ;;
  nf ← gets (λ s, nr_free (area s));
  if nf <? n then mret None else
  le ← gets rec;
  l ← gets (λ s, free_list (area s));
  whole ← (if decide (n = nf) then
             p ← le2page le;
             pg ← lift (page_at p);
             mret (bool_decide (property pg = n))
           else mret false);
  if (whole : bool) then
    p ← le2page le;
    lift (upd_list (seq_del p)) ;;
    lift (upd_nr_free (λ k, k - n)) ;;
    lift (page_upd p ClearPageProperty) ;;
    set_rec (seq_prev (Some p) l) ;;
    mret (Some p)
  else
  page ← next_fit (S (length l)) n le;
  match page with
  | Some page =>
      lift (take_block (λ p, seq_add_after (Some page) p) page n) ;;
      set_rec (seq_prev (Some page) l) ;;
      mret (Some page)
  | None => mret None
  end.

Lemma after_split p l1 l2 : p ∉ l1 → after p (l1 ++ p :: l2) = head l2.
Proof.
  induction l1 as [|q l1 IH]; intros Hp; simpl.
  - by rewrite decide_True.
  - apply not_elem_of_cons in Hp as [??]. rewrite decide_False by done. auto.
Qed.

(** A search that starts at the list head visits the list once, in order. *)
Lemma next_fit_first s n bl1 bl2 fuel :
  free_area (area s) (bl1 ++ bl2) → rec s = None → (length bl2 < fuel)%nat →
  next_fit fuel n (fst <$> last bl1) s =
    match first_fit n (fst <$> bl2) (area s) with
    | Ret (r, _) => Ret (r, s)
    | Err e => Err e
    end.
Proof.
  revert bl1 fuel. induction bl2 as [|b bl2 IH]; intros bl1 fuel Hfa Hrec Hfuel.
  - destruct fuel as [|fuel]; [simpl in Hfuel; lia|]. cbn [next_fit].
    step using reflexivity. step using reflexivity. rewrite Hrec.
    rewrite decide_True; [done|]. rewrite (fa_list _ _ Hfa), app_nil_r.
    destruct bl1 as [|b bl1 _] using rev_ind; [done|]. rewrite last_snoc, fmap_app. simpl.
    apply after_split. pose proof (heads_NoDup _ _ (fa_ok _ _ Hfa)) as Hnd.
    rewrite app_nil_r, fmap_app in Hnd. apply NoDup_app in Hnd as (_ & Hnd & _).
    intros Hin. apply (Hnd _ Hin). set_solver.
  - destruct fuel as [|fuel]; [simpl in Hfuel; lia|]. cbn [next_fit].
    step using reflexivity. step using reflexivity. rewrite Hrec.
    assert (seq_next (fst <$> last bl1) (free_list (area s)) = Some b.1) as Hnext.
    { rewrite (fa_list _ _ Hfa), fmap_app. destruct bl1 as [|c bl1 _] using rev_ind; [done|].
      rewrite last_snoc, fmap_app, <-app_assoc. simpl. apply after_split.
      pose proof (heads_NoDup _ _ (fa_ok _ _ Hfa)) as Hnd.
      rewrite !fmap_app in Hnd. apply NoDup_app in Hnd as (Hnd & _ & _).
      apply NoDup_app in Hnd as (_ & Hnd & _). intros Hin. apply (Hnd _ Hin). set_solver. }
    rewrite Hnext, decide_False by done. step using reflexivity.
    destruct (free_area_heads _ _ Hfa b) as (pg & Hpg & Hprop); [set_solver|].
    step using (unfold lift; by rewrite (page_at_run _ _ _ Hpg)).
    rewrite fmap_cons. cbn [first_fit].
    erewrite (M_bind_step (page_at b.1)) by (by apply page_at_run).
    destruct (n <=? property pg); [by destruct s|].
    change (Some b.1) with (fst <$> Some b). rewrite <-(last_snoc b bl1).
    replace (mkNext (area s) (rec s)) with s by by destruct s.
    apply IH; [by rewrite <-app_assoc|done|simpl in Hfuel; lia].
Qed.

(** As long as [Record] is the list head and the request is not for every free frame, the
    next-fit manager grants what the first-fit manager would grant, leaves the same free area, and
    moves [Record] in front of the granted block. *)
Theorem next_alloc_is_first_fit s n :
  fit_inv (area s) → rec s = None → 0 < n → n ≠ nr_free (area s) →
  next_alloc_pages n s =
    match firstfit_alloc_pages n (area s) with
    | Ret (Some p, a) => Ret (Some p, mkNext a (seq_prev (Some p) (free_list (area s))))
    | Ret (None, a) => Ret (None, s)
    | Err e => Err e
    end.
Proof.
  intros Hinv Hrec Hn Hne. unfold next_alloc_pages, firstfit_alloc_pages.
  step using (unfold assert; rewrite (proj2 (Z.ltb_lt 0 n) Hn); reflexivity).
  erewrite (M_bind_step (assert (0 <? n)))
    by (unfold assert; rewrite (proj2 (Z.ltb_lt 0 n) Hn); reflexivity).
  step using reflexivity. erewrite (M_bind_step (gets nr_free)) by reflexivity.
  destruct (nr_free (area s) <? n); [done|].
  step using reflexivity. step using reflexivity. erewrite (M_bind_step (gets free_list)) by reflexivity.
  rewrite decide_False by done. step using reflexivity. rewrite Hrec.
  assert (next_fit (S (length (free_list (area s)))) n None s =
    match first_fit n (fst <$> blocks (area s)) (area s) with
    | Ret (r, _) => Ret (r, s) | Err e => Err e end) as Hf.
  { apply (next_fit_first s n [] (blocks (area s))); [done|done|].
    rewrite (fa_list _ _ Hinv), length_fmap. lia. }
  unfold mbind, M_bind. rewrite Hf. rewrite (fa_list _ _ Hinv).
  rewrite first_fit_run by by apply free_area_heads.
  destruct ((λ ib : nat * (Z * Z), ib.2.1) <$> list_find _ (blocks (area s))) as [p|]; [|done].
  unfold lift. destruct (take_block _ p n (area s)) as [[[] a]|]; done.
Qed.

Lemma next_alloc_is_first_fit_witness :
  ∃ s', next_alloc_pages 3 (mkNext demo_free None) = Ret (Some 2, s') ∧ free_list (area s') = [5].
Proof.
  exists (mkNext demo_alloc None). split; [|vm_compute; reflexivity].
  rewrite (next_alloc_is_first_fit (mkNext demo_free None) 3).
  - vm_compute. reflexivity.
  - apply demo_free_inv.
  - reflexivity.
  - lia.
  - vm_compute. discriminate.
Defined.

(** A request for all free frames while [Record] is the list head treats the list head as a
    page descriptor. *)
Theorem next_alloc_all_faults s n :
  rec s = None → 0 < n → n = nr_free (area s) → next_alloc_pages n s = Err EFault.
Proof.
  intros Hrec Hn ->. unfold next_alloc_pages.
  step using (unfold assert; rewrite (proj2 (Z.ltb_lt 0 _) Hn); reflexivity).
  step using reflexivity. rewrite Z.ltb_irrefl.
  step using reflexivity. step using reflexivity. rewrite decide_True by done. by rewrite Hrec.
Qed.

Lemma next_alloc_all_faults_witness : next_alloc_pages 8 (mkNext demo_free None) = Err EFault.
Proof. apply next_alloc_all_faults; [reflexivity|lia|vm_compute; reflexivity]. Defined.

End NextFit.
