(* ===== verification/Buddy.v ===== *)
(** The buddy manager of physical memory, kern/mm/buddy_pmm.c.

    [buddy_segment] is the word array at the start of the memory: entry [a] describes block [a] of a binary
    tree whose root is block 1.  The functions of this file are the code's; their meaning is given by a
    [tree] whose leaves are free or used blocks, of which the entry holds the sizes of the free ones, or-ed
    together. *)
From S2P Require Import Prelude Dll Frames.

Module Buddy.
Import Dll Frames.
Set Default Proof Using "Type".

(** * Macros *)

Definition UINT32_SHR_OR (a n : Z) : Z := Z.lor a (Z.shiftr a n).
Definition UINT32_MASK (a : Z) : Z :=
  UINT32_SHR_OR (UINT32_SHR_OR (UINT32_SHR_OR (UINT32_SHR_OR (UINT32_SHR_OR a 1) 2) 4) 8) 16.
Definition UINT32_REMAINDER (a : Z) : Z := Z.land a (Z.shiftr (UINT32_MASK a) 1).
Definition UINT32_ROUND_UP (a : Z) : Z :=
  if UINT32_REMAINDER a =? 0 then a else u32 (Z.shiftl (a - UINT32_REMAINDER a) 1).
Definition UINT32_ROUND_DOWN (a : Z) : Z := if UINT32_REMAINDER a =? 0 then a else a - UINT32_REMAINDER a.

Definition BUDDY_ROOT : Z := 1.
Definition BUDDY_LEFT (a : Z) : Z := u32 (Z.shiftl a 1).
Definition BUDDY_RIGHT (a : Z) : Z := u32 (Z.shiftl a 1 + 1).
Definition BUDDY_PARENT (a : Z) : Z := Z.shiftr a 1.

(** * State *)

Record buddy := mkBuddy {
  pm : pmm;                    (* page descriptors, free list, nr_free *)
  segment : gmap Z Z;          (* buddy_segment *)
  physical_size : Z; virtual_size : Z; segment_size : Z; alloc_size : Z;
  buddy_physical : Z; buddy_alloc : Z }.

Definition set_pm (s : buddy) x : buddy :=
  mkBuddy x (segment s) (physical_size s) (virtual_size s) (segment_size s) (alloc_size s) (buddy_physical s) (buddy_alloc s).
Definition set_segment (s : buddy) x : buddy :=
  mkBuddy (pm s) x (physical_size s) (virtual_size s) (segment_size s) (alloc_size s) (buddy_physical s) (buddy_alloc s).
Definition set_sizes (s : buddy) p v g a : buddy :=
  mkBuddy (pm s) (segment s) p v g a (buddy_physical s) (buddy_alloc s).
Definition set_bases (s : buddy) p a : buddy :=
  mkBuddy (pm s) (segment s) (physical_size s) (virtual_size s) (segment_size s) (alloc_size s) p a.

Definition in_pm {A} (c : M pmm A) : M buddy A := λ s,
  match c (pm s) with Ret (a, x) => Ret (a, set_pm s x) | Err e => Err e end.

(** [buddy_segment[a]]; the array ends with the pages set aside for it. *)
Definition seg_at (a : Z) : M buddy Z := deref (λ s, segment s !! a).
Definition seg_set (a v : Z) : M buddy unit := _ ← seg_at a; modify (λ s, set_segment s (<[a := u32 v]> (segment s))).

Definition BUDDY_LENGTH (V a : Z) : Z := V / UINT32_ROUND_DOWN a.
Definition BUDDY_BEGIN (V a : Z) : Z := UINT32_REMAINDER a * BUDDY_LENGTH V a.
Definition BUDDY_END (V a : Z) : Z := (UINT32_REMAINDER a + 1) * BUDDY_LENGTH V a.
Definition BUDDY_BLOCK (V a b : Z) : Z := V / (b - a) + a / (b - a).
Definition BUDDY_EMPTY (V a : Z) : M buddy bool := x ← seg_at a; mret (x =? BUDDY_LENGTH V a).

(** * Initialisation *)

Definition buddy_init : M buddy unit := modify (λ s, set_pm s (set_nr_free (set_free_list (pm s) []) 0)).

Definition buddy_init_size (n : Z) : M buddy unit :=
  assert (1 <? n) ;;
  let '(v, g) :=
    if n <? 512 then (UINT32_ROUND_UP (n - 1), 1)
    else
      let v := UINT32_ROUND_DOWN n in
      let g := v * 4 * 2 / PGSIZE in
      if v + u32 (Z.shiftl g 1) <? n then (u32 (Z.shiftl v 1), u32 (Z.shiftl g 1)) else (v, g) in
  modify (λ s, set_sizes s n v g (Z.min v (n - g))).

(** [page->property = size; list_add(&free_list, &page->page_link)] for [page = &buddy_alloc[begin]]. *)
Definition add_block (begin size : Z) : M buddy unit :=
  a ← gets buddy_alloc;
  in_pm (page_upd (a + begin) (λ p, set_property p size)) ;;
  in_pm (upd_list (seq_add_after None (a + begin))).

(** The loop of [buddy_init_segment]. *)
Fixpoint segment_loop (fuel : nat) (V block asize vsize : Z) : M buddy (Z * Z) :=
  match fuel with
  | O => fail EFuel
  | S fuel' =>
      if negb ((0 <? asize) && (asize <? vsize)) then mret (block, asize) else
      let half := Z.shiftr vsize 1 in
      if half <? asize then
        add_block (BUDDY_BEGIN V block) half ;;
        seg_set (BUDDY_LEFT block) half ;;
        seg_set (BUDDY_RIGHT block) (asize - half) ;;
        segment_loop fuel' V (BUDDY_RIGHT block) (asize - half) half
      else
        seg_set (BUDDY_LEFT block) asize ;;
        seg_set (BUDDY_RIGHT block) 0 ;;
        segment_loop fuel' V (BUDDY_LEFT block) asize half
  end.

(** The blocks are halved at most 32 times. *)
Definition loop_fuel : nat := 33.

Definition buddy_init_segment (base : Z) : M buddy unit :=
  s ← get;
  put (set_bases (set_segment s (list_to_map ((λ i, (i, 0)) <$> seqZ 0 (segment_size s * 1024)))) base (base + segment_size s)) ;;
  in_pm (upd_nr_free (λ k, k + alloc_size s)) ;;
  seg_set BUDDY_ROOT (alloc_size s) ;;
  r ← segment_loop loop_fuel (virtual_size s) BUDDY_ROOT (alloc_size s) (virtual_size s);
  when (0 <? r.2) (add_block (BUDDY_BEGIN (virtual_size s) r.1) r.2).

Definition buddy_init_memmap (base n : Z) : M buddy unit :=
  assert (0 <? n) ;;
  in_pm (for_pages PageReserved (λ p, set_property (set_flags p 0) 0) base (Z.to_nat n)) ;;
  buddy_init_size n ;;
  buddy_init_segment base.

(** * Allocation *)

(** A free block is split into its halves. *)
Definition split_block (V block : Z) : M buddy unit :=
  a ← gets buddy_alloc;
  let begin := BUDDY_BEGIN V block in
  let end_ := BUDDY_END V block in
  let mid := Z.shiftr (begin + end_) 1 in
  in_pm (upd_list (seq_del (a + begin))) ;;
  in_pm (page_upd (a + begin) (λ p, set_property p (Z.shiftr (property p) 1))) ;;
  pg ← in_pm (page_at (a + begin));
  in_pm (page_upd (a + mid) (λ p, set_property p (property pg))) ;;
  x ← seg_at block;
  seg_set (BUDDY_LEFT block) (Z.shiftr x 1) ;;
  seg_set (BUDDY_RIGHT block) (Z.shiftr x 1) ;;
  in_pm (upd_list (seq_add_after None (a + begin))) ;;
  in_pm (upd_list (seq_add_after None (a + mid))).

Fixpoint find_loop (fuel : nat) (V length block : Z) : M buddy Z :=
  match fuel with
  | O => fail EFuel
  | S fuel' =>
      x ← seg_at block;
      if negb ((length <=? x) && (length <? BUDDY_LENGTH V block)) then mret block else
      let left := BUDDY_LEFT block in
      let right := BUDDY_RIGHT block in
      if x =? BUDDY_LENGTH V block then split_block V block ;; find_loop fuel' V length left
      else
        l ← seg_at left;
        if negb (Z.land length l =? 0) then find_loop fuel' V length left else
        r ← seg_at right;
        if negb (Z.land length r =? 0) then find_loop fuel' V length right
        else if length <=? l then find_loop fuel' V length left
        else if length <=? r then find_loop fuel' V length right
        else fail EPanic
  end.

(** The entries above a block that was taken. *)
Fixpoint update_loop (fuel : nat) (block : Z) : M buddy unit :=
  match fuel with
  | O => fail EFuel
  | S fuel' =>
      if block =? BUDDY_ROOT then mret tt else
      let parent := BUDDY_PARENT block in
      l ← seg_at (BUDDY_LEFT parent);
      r ← seg_at (BUDDY_RIGHT parent);
      seg_set parent (Z.lor l r) ;;
      update_loop fuel' parent
  end.

Definition buddy_alloc_pages (n : Z) : M buddy (option Z) :=
  assert (0 <? n) ;;
  V ← gets virtual_size;
  let length := UINT32_ROUND_UP n in
  block ← find_loop loop_fuel V length BUDDY_ROOT;
  x ← seg_at block;
  if x <? length then mret None else
  a ← gets buddy_alloc;
  let page := a + BUDDY_BEGIN V block in
  in_pm (upd_list (seq_del page)) ;;
  seg_set block 0 ;;
  in_pm (upd_nr_free (λ k, k - length)) ;;
  update_loop loop_fuel block ;;
  mret (Some page).

(** * Release *)

Fixpoint merge_up (fuel : nat) (V block : Z) : M buddy unit :=
  match fuel with
  | O => fail EFuel
  | S fuel' =>
      if block =? BUDDY_ROOT then mret tt else
      let parent := BUDDY_PARENT block in
      let left := BUDDY_LEFT parent in
      let right := BUDDY_RIGHT parent in
      e1 ← BUDDY_EMPTY V left;
      e2 ← (if e1 : bool then BUDDY_EMPTY V right else mret false);
      l ← seg_at left;
      (if e2 : bool then
         a ← gets buddy_alloc;
         in_pm (upd_list (seq_del (a + BUDDY_BEGIN V left))) ;;
         in_pm (upd_list (seq_del (a + BUDDY_BEGIN V right))) ;;
         seg_set parent (Z.shiftl l 1) ;;
         in_pm (page_upd (a + BUDDY_BEGIN V left) (λ p, set_property p (u32 (Z.shiftl l 1)))) ;;
         in_pm (upd_list (seq_add_after None (a + BUDDY_BEGIN V left)))
       else
         r ← seg_at right;
         seg_set parent (Z.lor l r)) ;;
      merge_up fuel' V parent
  end.

Definition buddy_free_pages (base n : Z) : M buddy unit :=
  assert (0 <? n) ;;
  V ← gets virtual_size;
  a ← gets buddy_alloc;
  let length := UINT32_ROUND_UP n in
  let begin := base - a in
  let block := BUDDY_BLOCK V begin (begin + length) in
  in_pm (for_pages (λ p, negb (PageReserved p)) (λ p, set_page_ref (set_flags p 0) 0) base (Z.to_nat n)) ;;
  in_pm (page_upd base (λ p, set_property p length)) ;;
  in_pm (page_upd base SetPageProperty) ;;
  in_pm (upd_list (seq_add_after None base)) ;;
  in_pm (upd_nr_free (λ k, k + length)) ;;
  seg_set block length ;;
  merge_up loop_fuel V block.

Definition buddy_nr_free_pages : M buddy Z := gets (λ s, nr_free (pm s)).

(** * Self tests *)

Definition set_virtual_size (s : buddy) (v : Z) : buddy :=
  set_sizes s (physical_size s) v (segment_size s) (alloc_size s).

Definition macro_check : M buddy unit :=
  assert (BUDDY_ROOT =? 1) ;; assert (BUDDY_LEFT 3 =? 6) ;; assert (BUDDY_RIGHT 3 =? 7) ;;
  assert (BUDDY_PARENT 6 =? 3) ;; assert (BUDDY_PARENT 7 =? 3) ;;
  store ← gets virtual_size;
  root ← seg_at BUDDY_ROOT;
  modify (λ s, set_virtual_size s 16) ;;
  seg_set BUDDY_ROOT 16 ;;
  V ← gets virtual_size;
  assert (BUDDY_LENGTH V 6 =? 4) ;; assert (BUDDY_BEGIN V 6 =? 8) ;; assert (BUDDY_END V 6 =? 12) ;;
  assert (BUDDY_BLOCK V 8 12 =? 6) ;;
  e ← BUDDY_EMPTY V BUDDY_ROOT;
  assert e ;;
  modify (λ s, set_virtual_size s store) ;;
  seg_set BUDDY_ROOT root ;;
  assert (UINT32_SHR_OR 0xCC 2 =? 0xFF) ;; assert (UINT32_MASK 0x4000 =? 0x7FFF) ;;
  assert (UINT32_REMAINDER 0x4321 =? 0x321) ;; assert (UINT32_ROUND_UP 0x2321 =? 0x4000) ;;
  assert (UINT32_ROUND_UP 0x2000 =? 0x2000) ;; assert (UINT32_ROUND_DOWN 0x4321 =? 0x4000) ;;
  assert (UINT32_ROUND_DOWN 0x4000 =? 0x4000).

Definition check_virtual_size (v : Z) : M buddy unit := V ← gets virtual_size; assert (V =? v).

Definition size_check : M buddy unit :=
  store ← gets physical_size;
  buddy_init_size 200 ;; check_virtual_size 256 ;;
  buddy_init_size 1024 ;; check_virtual_size 1024 ;;
  buddy_init_size 1026 ;; check_virtual_size 1024 ;;
  buddy_init_size 1028 ;; check_virtual_size 1024 ;;
  buddy_init_size 1030 ;; check_virtual_size 2048 ;;
  buddy_init_size store.

(** The loop over the entries; the sum it makes is not used. *)
Fixpoint check_blocks (n : nat) (V block : Z) : M buddy unit :=
  match n with
  | O => mret tt
  | S n' =>
      e ← BUDDY_EMPTY V block;
      (if e : bool then mret tt else
       if block <? V then
         x ← seg_at block; l ← seg_at (BUDDY_LEFT block); r ← seg_at (BUDDY_RIGHT block);
         assert (x =? Z.lor l r)
       else mret tt) ;;
      check_blocks n' V (block + 1)
  end.

(** The loop over the free list. *)
Fixpoint sum_property (l : list Z) (total : Z) : M buddy Z :=
  match l with
  | [] => mret total
  | p :: l' => pg ← in_pm (page_at p); sum_property l' (u32 (total + property pg))
  end.

Definition segment_check : M buddy unit :=
  V ← gets virtual_size;
  check_blocks (Z.to_nat (u32 (Z.shiftl V 1) - BUDDY_ROOT)) V BUDDY_ROOT ;;
  fl ← gets (λ s, free_list (pm s));
  total ← sum_property fl 0;
  n ← buddy_nr_free_pages;
  assert (total =? n).

(** * The macros *)

Lemma SHR_OR_bits a n i : 0 ≤ n → 0 ≤ i → Z.testbit (UINT32_SHR_OR a n) i = Z.testbit a i || Z.testbit a (i + n).
Proof. intros. unfold UINT32_SHR_OR. by rewrite Z.lor_spec, Z.shiftr_spec. Qed.

(** [m] has a bit where [a] has one among the [n] bits from there on. *)
Definition smears (a m n : Z) : Prop :=
  ∀ i, 0 ≤ i → Z.testbit m i = true ↔ ∃ j, 0 ≤ j < n ∧ Z.testbit a (i + j) = true.

Lemma smears_double a m n : 0 < n → smears a m n → smears a (UINT32_SHR_OR m n) (n + n).
Proof.
  intros Hn Hm i Hi. rewrite SHR_OR_bits, orb_true_iff, (Hm i), (Hm (i + n)) by lia. split.
  - intros [(j & ? & ?)|(j & ? & ?)]; [exists j|exists (n + j)]; (split; [lia|]); [done|].
    by replace (i + (n + j)) with (i + n + j) by lia.
  - intros (j & ? & ?). destruct (decide (j < n)); [left; exists j|right; exists (j - n)]; (split; [lia|]); [done|].
    by replace (i + n + (j - n)) with (i + j) by lia.
Qed.

Lemma smears_one a : smears a a 1.
Proof.
  intros i Hi. split.
  - intros ?. exists 0. split; [lia|]. by rewrite Z.add_0_r.
  - intros (j & ? & Hj). replace (i + j) with i in Hj by lia. done.
Qed.

Lemma UINT32_MASK_spec a : 0 < a < 2 ^ 32 → UINT32_MASK a = Z.ones (Z.log2 a + 1).
Proof.
  intros Ha. assert (smears a (UINT32_MASK a) 32) as Hm.
  { unfold UINT32_MASK. apply (smears_double a _ 16), (smears_double a _ 8), (smears_double a _ 4), (smears_double a _ 2), (smears_double a _ 1), smears_one; lia. }
  assert (Z.log2 a < 32) by (apply Z.log2_lt_pow2; lia). pose proof (Z.log2_nonneg a).
  apply Z.bits_inj'. intros i Hi. rewrite Z.testbit_ones_nonneg by lia. apply eq_bool_prop_intro.
  rewrite !Is_true_true, (Hm i Hi), Z.ltb_lt. split.
  - intros (j & ? & Hj). destruct (decide (i < Z.log2 a + 1)); [done|].
    rewrite Z.bits_above_log2 in Hj by lia. done.
  - intros ?. exists (Z.log2 a - i). split; [lia|]. replace (i + (Z.log2 a - i)) with (Z.log2 a) by lia.
    apply Z.bit_log2. lia.
Qed.

Lemma log2_u32 a : 0 < a < 2 ^ 32 → 0 ≤ Z.log2 a < 32.
Proof. intros. split; [apply Z.log2_nonneg|]. apply Z.log2_lt_pow2; lia. Qed.

Lemma UINT32_REMAINDER_spec a : 0 < a < 2 ^ 32 → UINT32_REMAINDER a = a - 2 ^ Z.log2 a.
Proof.
  intros Ha. pose proof (log2_u32 a Ha). unfold UINT32_REMAINDER.
  rewrite UINT32_MASK_spec by done. rewrite Z.ones_equiv, Z.shiftr_div_pow2 by lia.
  replace (Z.pred (2 ^ (Z.log2 a + 1)) / 2 ^ 1) with (Z.ones (Z.log2 a)).
  - rewrite Z.land_ones by lia. pose proof (Z.log2_spec a ltac:(lia)) as Hl. rewrite Z.pow_succ_r in Hl by lia.
    symmetry. apply (Z.mod_unique_pos _ _ 1); lia.
  - rewrite Z.ones_equiv. apply (Z.div_unique_pos _ _ _ 1); [lia|]. rewrite Z.pow_add_r by lia. lia.
Qed.

Lemma UINT32_ROUND_DOWN_spec a : 0 < a < 2 ^ 32 → UINT32_ROUND_DOWN a = 2 ^ Z.log2 a.
Proof. intros Ha. unfold UINT32_ROUND_DOWN. rewrite UINT32_REMAINDER_spec by done. case_match; z_bool; lia. Qed.

(** The least power of two that is not below [n]. *)
Lemma UINT32_ROUND_UP_spec n : 0 < n ≤ 2 ^ 31 → UINT32_ROUND_UP n = 2 ^ Z.log2_up n.
Proof.
  intros Hn. pose proof (log2_u32 n ltac:(lia)). unfold UINT32_ROUND_UP.
  rewrite UINT32_REMAINDER_spec by lia. pose proof (Z.log2_spec n ltac:(lia)) as Hl. rewrite Z.pow_succ_r in Hl by lia.
  case_match; z_bool.
  - replace n with (2 ^ Z.log2 n) at 2 by lia. rewrite Z.log2_up_pow2 by lia. lia.
  - replace (n - (n - 2 ^ Z.log2 n)) with (2 ^ Z.log2 n) by lia.
    rewrite Z.shiftl_mul_pow2 by lia. replace (2 ^ Z.log2 n * 2 ^ 1) with (2 ^ (Z.succ (Z.log2 n))) by (rewrite Z.pow_succ_r by lia; lia).
    assert (Z.log2_up n = Z.succ (Z.log2 n)) as ->.
    { apply Z.log2_up_unique; rewrite ?Z.pred_succ, ?Z.pow_succ_r by lia; lia. }
    apply u32_small. split; [lia|]. apply Z.pow_lt_mono_r; [lia|lia|].
    assert (Z.log2 n < 31); [|lia]. apply Z.log2_lt_pow2; [lia|].
    destruct (decide (n = 2 ^ 31)) as [->|]; [exfalso|lia]. rewrite Z.log2_pow2 in * by lia. lia.
Qed.

(** Block [2 ^ d + r] of a tree over [2 ^ (d + h)] frames. *)
Lemma block_log2 d r : 0 ≤ d → 0 ≤ r < 2 ^ d → Z.log2 (2 ^ d + r) = d.
Proof. intros. apply Z.log2_unique; [lia|]. rewrite Z.pow_succ_r by lia. lia. Qed.

Section blocks.
Context (d h r : Z) (Hd : 0 ≤ d < 32) (Hh : 0 ≤ h) (Hr : 0 ≤ r < 2 ^ d).

Lemma block_u32 : 0 < 2 ^ d + r < 2 ^ 32.
Proof using Hd Hr.
  assert (2 ^ (d + 1) ≤ 2 ^ 32) as Hp by (apply Z.pow_le_mono_r; lia). rewrite Z.pow_add_r in Hp by lia. lia.
Qed.

Lemma BUDDY_LENGTH_spec : BUDDY_LENGTH (2 ^ (d + h)) (2 ^ d + r) = 2 ^ h.
Proof using Hd Hh Hr.
  unfold BUDDY_LENGTH. rewrite UINT32_ROUND_DOWN_spec, block_log2 by (apply block_u32 || lia).
  rewrite Z.pow_add_r by lia. rewrite Z.mul_comm. apply Z.div_mul. lia.
Qed.

Lemma BUDDY_BEGIN_spec : BUDDY_BEGIN (2 ^ (d + h)) (2 ^ d + r) = r * 2 ^ h.
Proof using Hd Hh Hr.
  unfold BUDDY_BEGIN. rewrite BUDDY_LENGTH_spec, UINT32_REMAINDER_spec, block_log2 by (apply block_u32 || lia). lia.
Qed.

Lemma BUDDY_END_spec : BUDDY_END (2 ^ (d + h)) (2 ^ d + r) = r * 2 ^ h + 2 ^ h.
Proof using Hd Hh Hr.
  unfold BUDDY_END. rewrite BUDDY_LENGTH_spec, UINT32_REMAINDER_spec, block_log2 by (apply block_u32 || lia). lia.
Qed.

Lemma BUDDY_BLOCK_spec : BUDDY_BLOCK (2 ^ (d + h)) (r * 2 ^ h) (r * 2 ^ h + 2 ^ h) = 2 ^ d + r.
Proof using Hd Hh Hr.
  unfold BUDDY_BLOCK. replace (r * 2 ^ h + 2 ^ h - r * 2 ^ h) with (2 ^ h) by lia.
  rewrite Z.pow_add_r, !Z.div_mul by lia. done.
Qed.
End blocks.

(** * The tree of blocks *)

(** A block is free, used, or split into two halves of half its length. *)
Inductive tree := Free | Used | Node (l r : tree).

#[export] Instance tree_eq_dec : EqDecision tree.
Proof. solve_decision. Defined.

Definition pw (h : nat) : Z := 2 ^ Z.of_nat h.

Lemma pw_S h : pw (S h) = 2 * pw h.
Proof. unfold pw. rewrite Nat2Z.inj_succ, Z.pow_succ_r by lia. done. Qed.

Lemma pw_half h : Z.shiftr (pw (S h)) 1 = pw h.
Proof. rewrite Z.shiftr_div_pow2 by lia. rewrite pw_S. change (2 ^ 1) with 2. rewrite Z.mul_comm. apply Z.div_mul. lia. Qed.

Lemma pw_pos h : 0 < pw h.
Proof. apply Z.pow_pos_nonneg; lia. Qed.

Lemma pw_le j k : (j ≤ k)%nat → pw j ≤ pw k.
Proof. intros. apply Z.pow_le_mono_r; lia. Qed.

Lemma pw_le_inv j k : pw j ≤ pw k → (j ≤ k)%nat.
Proof. intros Hp. apply Z.pow_le_mono_r_iff in Hp; lia. Qed.

Lemma pw_inj j k : pw j = pw k → j = k.
Proof. intros Hp. pose proof (pw_le_inv j k). pose proof (pw_le_inv k j). lia. Qed.

(** The entry of a block of height [h]: the lengths of the free blocks in it, or-ed together. *)
Fixpoint bits (h : nat) (t : tree) : Z :=
  match t with
  | Free => pw h
  | Used => 0
  | Node l r => Z.lor (bits (pred h) l) (bits (pred h) r)
  end.

(** The free blocks and the used ones, of a block that begins at frame [b]. *)
Fixpoint fblocks (b : Z) (h : nat) (t : tree) : list block :=
  match t with
  | Free => [(b, pw h)]
  | Used => []
  | Node l r => fblocks b (pred h) l ++ fblocks (b + pw (pred h)) (pred h) r
  end.

Fixpoint uleaves (b : Z) (h : nat) (t : tree) : list block :=
  match t with
  | Free => []
  | Used => [(b, pw h)]
  | Node l r => uleaves b (pred h) l ++ uleaves (b + pw (pred h)) (pred h) r
  end.

(** No block of one frame is split. *)
Fixpoint wf (h : nat) (t : tree) : Prop :=
  match t with Node l r => h ≠ 0%nat ∧ wf (pred h) l ∧ wf (pred h) r | _ => True end.

(** The entries [g] describe the tree [t] under block [a]. *)
Fixpoint rep (g : gmap Z Z) (h : nat) (a : Z) (t : tree) : Prop :=
  g !! a = Some (bits h t) ∧
  match t with
  | Node l r => h ≠ 0%nat ∧ rep g (pred h) (2 * a) l ∧ rep g (pred h) (2 * a + 1) r
  | _ => True
  end.

Lemma rep_at g h a t : rep g h a t → g !! a = Some (bits h t).
Proof. destruct t; simpl; tauto. Qed.

Lemma rep_wf g h a t : rep g h a t → wf h t.
Proof. revert h a. induction t; simpl; naive_solver. Qed.

Lemma lor_pw_lt h x y : 0 ≤ x ≤ pw h → 0 ≤ y ≤ pw h → 0 ≤ Z.lor x y < pw (S h).
Proof.
  intros Hx Hy. assert (0 ≤ Z.lor x y) by (apply Z.lor_nonneg; lia). split; [done|].
  assert (∀ z, 0 ≤ z ≤ pw h → Z.log2 z < Z.of_nat (S h)) as Hlog.
  { intros z Hz. destruct (decide (z = 0)) as [->|]; [simpl; lia|]. apply Z.log2_lt_pow2; [lia|].
    fold (pw (S h)). rewrite pw_S. lia. }
  destruct (decide (Z.lor x y = 0)) as [->|]; [apply pw_pos|].
  apply Z.log2_lt_pow2; [lia|]. rewrite Z.log2_lor by lia. pose proof (Hlog _ Hx). pose proof (Hlog _ Hy). lia.
Qed.

Lemma bits_range h t : wf h t → 0 ≤ bits h t ≤ pw h.
Proof.
  revert h. induction t as [| |l IHl r IHr]; intros h; simpl; [pose proof (pw_pos h); lia..|].
  intros (Hh & Hl & Hr). destruct h as [|h]; [done|]. simpl in *.
  pose proof (lor_pw_lt h _ _ (IHl h Hl) (IHr h Hr)). lia.
Qed.

Lemma bits_node_lt h l r : wf h (Node l r) → bits h (Node l r) < pw h.
Proof.
  intros (Hh & Hl & Hr). destruct h as [|h]; [done|]. simpl in *.
  apply lor_pw_lt; by apply bits_range.
Qed.

(** Only the entry of a free block is the length of the block. *)
Lemma bits_full h t : wf h t → bits h t = pw h ↔ t = Free.
Proof.
  intros Hw. split; [|by intros ->]. destruct t; [done| |].
  - simpl. pose proof (pw_pos h). lia.
  - pose proof (bits_node_lt _ _ _ Hw). lia.
Qed.

Lemma le_lor_pw k x y : 0 ≤ x → 0 ≤ y → pw k ≤ Z.lor x y → pw k ≤ x ∨ pw k ≤ y.
Proof.
  intros Hx Hy Hk. pose proof (pw_pos k). assert (0 < Z.lor x y) as Hpos by lia.
  apply Z.log2_le_pow2 in Hk; [|lia]. rewrite Z.log2_lor in Hk by lia.
  assert (∀ z, 0 ≤ z → Z.of_nat k ≤ Z.log2 z → z ≠ 0 → pw k ≤ z) as Hz.
  { intros z ???. apply Z.log2_le_pow2; lia. }
  destruct (decide (x = 0)) as [->|]; destruct (decide (y = 0)) as [->|].
  - exfalso. rewrite Z.lor_0_l in Hpos. lia.
  - right. apply Hz; [done| |done]. pose proof (Z.log2_nonneg y). change (Z.log2 0) with 0 in Hk. lia.
  - left. apply Hz; [done| |done]. pose proof (Z.log2_nonneg x). change (Z.log2 0) with 0 in Hk. lia.
  - destruct (Z.max_spec (Z.log2 x) (Z.log2 y)) as [[? Hm]|[? Hm]]; rewrite Hm in Hk; [right|left]; auto.
Qed.

Lemma land_pw_le k x : 0 ≤ x → Z.land (pw k) x ≠ 0 → pw k ≤ x.
Proof.
  intros Hx Hl. destruct (decide (pw k ≤ x)) as [|Hk]; [done|]. destruct Hl.
  apply Z.bits_inj'. intros i Hi. rewrite Z.land_spec, Z.bits_0. unfold pw in *.
  destruct (decide (i = Z.of_nat k)) as [->|]; [|by rewrite Z.pow2_bits_false by lia].
  apply andb_false_intro2. destruct (decide (x = 0)) as [->|]; [apply Z.bits_0|].
  apply Z.bits_above_log2; [done|]. apply Z.log2_lt_pow2; lia.
Qed.

Lemma le_lor x y : 0 ≤ x → 0 ≤ y → x ≤ Z.lor x y ∧ y ≤ Z.lor x y.
Proof.
  intros. pose proof (Z.add_lor_land x y).
  assert (∀ a b, 0 ≤ a → 0 ≤ b → Z.land a b ≤ b) as Hle.
  { intros a b ??. apply (Z.ldiff_le (Z.land a b) b); [done|]. apply Z.bits_inj'. intros i _.
    rewrite Z.ldiff_spec, Z.land_spec, Z.bits_0. destruct (Z.testbit a i), (Z.testbit b i); done. }
  pose proof (Hle x y). pose proof (Hle y x). rewrite (Z.land_comm y x) in *. lia.
Qed.

(** The largest free block is seen in the entry. *)
Lemma fblocks_le_bits b h t x : wf h t → x ∈ fblocks b h t → x.2 ≤ bits h t.
Proof.
  revert b h. induction t as [| |l IHl r IHr]; intros b h Hw; simpl.
  - by intros ->%list_elem_of_singleton.
  - by intros ?%elem_of_nil.
  - destruct Hw as (Hh & Hl & Hr). pose proof (bits_range _ _ Hl). pose proof (bits_range _ _ Hr).
    pose proof (le_lor (bits (pred h) l) (bits (pred h) r) ltac:(lia) ltac:(lia)).
    intros [Hx|Hx]%elem_of_app; [apply IHl in Hx|apply IHr in Hx]; (done || lia).
Qed.

(** Block [x] is block [a] or below it. *)
Definition in_sub (a x : Z) : Prop := ∃ k, 0 ≤ k ∧ x / 2 ^ k = a.

Lemma sub_refl a : in_sub a a.
Proof. exists 0. by rewrite Z.pow_0_r, Z.div_1_r. Qed.

Lemma sub_child a c x : c = 2 * a ∨ c = 2 * a + 1 → in_sub c x → in_sub a x.
Proof.
  intros Hc (k & ? & <-). exists (k + 1). split; [lia|]. rewrite Z.pow_add_r, <-Z.div_div by lia.
  change (2 ^ 1) with 2. symmetry. apply (Z.div_unique_pos _ _ _ (x / 2 ^ k - 2 * a)); lia.
Qed.

Lemma sub_ge a x : 0 < a → in_sub a x → a ≤ x.
Proof.
  intros Ha (k & ? & <-). assert (0 < 2 ^ k) by (apply Z.pow_pos_nonneg; lia).
  destruct (decide (0 ≤ x)); [apply Z.div_le_upper_bound; nia|].
  assert (x / 2 ^ k < 0) by (apply Z.div_lt_upper_bound; lia). lia.
Qed.

Lemma sub_disjoint a x : 0 < a → in_sub (2 * a) x → ¬ in_sub (2 * a + 1) x.
Proof.
  intros Ha (k & ? & Hk) (j & ? & Hj).
  assert (∀ i m y, 0 ≤ i → i ≤ m → y / 2 ^ m = y / 2 ^ i / 2 ^ (m - i)) as Hdd.
  { intros i m y ??. rewrite Z.div_div by lia. rewrite <-Z.pow_add_r by lia. do 2 f_equal. lia. }
  destruct (decide (k = j)) as [->|]; [lia|]. destruct (decide (k < j)).
  - rewrite (Hdd k j x), Hk in Hj by lia. assert (0 < 2 ^ (j - k)) by (apply Z.pow_pos_nonneg; lia).
    assert (2 * a / 2 ^ (j - k) ≤ 2 * a); [apply Z.div_le_upper_bound; nia|lia].
  - rewrite (Hdd j k x), Hj in Hk by lia. assert (2 ^ 1 ≤ 2 ^ (k - j)) by (apply Z.pow_le_mono_r; lia).
    assert ((2 * a + 1) / 2 ^ (k - j) < 2 * a); [apply Z.div_lt_upper_bound; nia|lia].
Qed.

Lemma seg_frame g g' h a t : (∀ x, in_sub a x → g' !! x = g !! x) → rep g h a t → rep g' h a t.
Proof.
  revert h a. induction t as [| |l IHl r IHr]; intros h a Hg; simpl; rewrite (Hg a (sub_refl a)); [done..|].
  intros (? & ? & Hl & Hr). split_and!; [done..|apply IHl|apply IHr]; try done; intros; apply Hg.
  - by apply (sub_child a (2 * a)); [left|].
  - by apply (sub_child a (2 * a + 1)); [right|].
Qed.

Lemma fblocks_range b h t x : wf h t → x ∈ fblocks b h t → b ≤ x.1 ∧ 0 < x.2 ∧ x.1 + x.2 ≤ b + pw h.
Proof.
  revert b h. induction t as [| |l IHl r IHr]; intros b h Hw; simpl.
  - intros ->%list_elem_of_singleton. pose proof (pw_pos h). simpl. lia.
  - by intros ?%elem_of_nil.
  - destruct Hw as (Hh & Hl & Hr). destruct h as [|h]; [done|]. simpl in *. rewrite pw_S. pose proof (pw_pos h).
    intros [Hx|Hx]%elem_of_app; [apply IHl in Hx|apply IHr in Hx]; try done; lia.
Qed.

Lemma fblocks_nodup b h t : wf h t → NoDup (fst <$> fblocks b h t).
Proof.
  revert b h. induction t as [| |l IHl r IHr]; intros b h Hw; simpl; [apply NoDup_singleton|apply NoDup_nil_2|].
  destruct Hw as (Hh & Hl & Hr). rewrite fmap_app. apply NoDup_app. split_and!; auto.
  intros x (y & -> & Hy)%list_elem_of_fmap (z & Hyz & Hz)%list_elem_of_fmap.
  apply fblocks_range in Hy, Hz; auto. lia.
Qed.

(** * Taking and releasing a block of [2 ^ k] frames *)

(** The tree in which the block at [q] was taken, larger blocks being split on the way. *)
Inductive taken (k : nat) : nat → Z → tree → tree → Z → Prop :=
| taken_here b : taken k k b Free Used b
| taken_split h b t' q : taken k (S h) b (Node Free Free) t' q → taken k (S h) b Free t' q
| taken_left h b l l' r q : taken k h b l l' q → taken k (S h) b (Node l r) (Node l' r) q
| taken_right h b l r r' q : taken k h (b + pw h) r r' q → taken k (S h) b (Node l r) (Node l r') q.

(** Two free halves are joined. *)
Definition join (l r : tree) : tree := if decide (l = Free ∧ r = Free) then Free else Node l r.

Inductive released (k : nat) : nat → Z → tree → tree → Z → Prop :=
| released_here b : released k k b Used Free b
| released_left h b l l' r q : released k h b l l' q → released k (S h) b (Node l r) (join l' r) q
| released_right h b l r r' q : released k h (b + pw h) r r' q → released k (S h) b (Node l r) (join l r') q.

Definition tfree (h : nat) (b : Z) (t : tree) : gset Z := free_set (fblocks b h t).

Lemma free_set_app l1 l2 : free_set (l1 ++ l2) = free_set l1 ∪ free_set l2.
Proof. unfold free_set. by rewrite fmap_app, union_list_app_L. Qed.

Lemma tfree_node h b l r : tfree (S h) b (Node l r) = tfree h b l ∪ tfree h (b + pw h) r.
Proof. unfold tfree. simpl. apply free_set_app. Qed.

Lemma frames_halves h b : frames (b, pw (S h)) = frames (b, pw h) ∪ frames (b + pw h, pw h).
Proof.
  apply set_eq. intros i. rewrite elem_of_union, !elem_of_frames. simpl. rewrite pw_S. pose proof (pw_pos h). lia.
Qed.

Lemma tfree_free h b : tfree h b Free = frames (b, pw h).
Proof. unfold tfree. simpl. rewrite free_set_cons. unfold free_set. simpl. set_solver. Qed.

Lemma tfree_join h b l r : tfree (S h) b (join l r) = tfree h b l ∪ tfree h (b + pw h) r.
Proof.
  unfold join. destruct (decide _) as [[-> ->]|]; [|apply tfree_node]. by rewrite !tfree_free, frames_halves.
Qed.

(** No two halves of a block are both free. *)
Fixpoint joined (t : tree) : Prop :=
  match t with Node l r => ¬ (l = Free ∧ r = Free) ∧ joined l ∧ joined r | _ => True end.

Lemma taken_joined k h b t t' q : taken k h b t t' q → t' ≠ Free ∧ (joined t ∨ t = Node Free Free → joined t').
Proof.
  induction 1 as [b|h b t' q Ht IH|h b l l' r q Ht IH|h b l r r' q Ht IH].
  - done.
  - destruct IH as [? IH]. split; [done|]. intros _. apply IH. by right.
  - destruct IH as [? IH]. split; [done|]. intros [(? & ? & ?)|[= -> ->]]; simpl; naive_solver.
  - destruct IH as [? IH]. split; [done|]. intros [(? & ? & ?)|[= -> ->]]; simpl; naive_solver.
Qed.

Lemma released_joined k h b t t' q : released k h b t t' q → joined t → joined t'.
Proof.
  induction 1 as [b|h b l l' r q Ht IH|h b l r r' q Ht IH]; [done|..]; intros (? & ? & ?);
    unfold join; destruct (decide _); simpl; auto.
Qed.

Lemma tfree_range h b t i : wf h t → i ∈ tfree h b t → b ≤ i < b + pw h.
Proof.
  intros Hw. unfold tfree. rewrite elem_of_free_set. intros (x & Hx & Hi).
  pose proof (fblocks_range _ _ _ _ Hw Hx). lia.
Qed.

Lemma total_app l1 l2 : total (l1 ++ l2) = total l1 + total l2.
Proof. unfold total. by rewrite fmap_app, Zsum_app. Qed.

Lemma taken_wf k h b t t' q : taken k h b t t' q → wf h t → wf h t'.
Proof. induction 1; simpl in *; naive_solver. Qed.

Lemma taken_range k h b t t' q : taken k h b t t' q → b ≤ q ∧ q + pw k ≤ b + pw h.
Proof.
  induction 1 as [b|h b t' q Ht IH|h b l l' r q Ht IH|h b l r r' q Ht IH]; rewrite ?pw_S in *; [|lia|..];
    pose proof (pw_pos k); try pose proof (pw_pos h); lia.
Qed.

Lemma taken_height k h b t t' q : taken k h b t t' q → (k ≤ h)%nat.
Proof. induction 1; lia. Qed.

Lemma diff_union_l (X Y F : gset Z) : (∀ i, i ∈ Y → i ∉ F) → X ∖ F ∪ Y = (X ∪ Y) ∖ F.
Proof. intros. apply set_eq. intros i. rewrite elem_of_union, !elem_of_difference, elem_of_union. naive_solver. Qed.

(** What is taken was free, and nothing else changes. *)
Lemma taken_free k h b t t' q : taken k h b t t' q → wf h t →
  frames (q, pw k) ⊆ tfree h b t ∧ tfree h b t' = tfree h b t ∖ frames (q, pw k).
Proof.
  induction 1 as [b|h b t' q Ht IH|h b l l' r q Ht IH|h b l r r' q Ht IH]; intros Hw.
  - rewrite tfree_free. unfold tfree, free_set. simpl. set_solver.
  - destruct IH as [H1 H2]; [done|]. rewrite tfree_node, !tfree_free in H1, H2. by rewrite tfree_free, frames_halves.
  - destruct Hw as (_ & Hl & Hr). destruct (IH Hl) as [H1 H2]. rewrite !tfree_node, H2. split; [set_solver|].
    apply diff_union_l. intros i Hi Hq.
    apply tfree_range in Hi; [|done]. rewrite elem_of_frames in Hq. apply taken_range in Ht. simpl in *. lia.
  - destruct Hw as (_ & Hl & Hr). destruct (IH Hr) as [H1 H2]. rewrite !tfree_node, H2. split; [set_solver|].
    rewrite union_comm_L, (union_comm_L (tfree h b l)). apply diff_union_l. intros i Hi Hq.
    apply tfree_range in Hi; [|done]. rewrite elem_of_frames in Hq. apply taken_range in Ht. simpl in *. lia.
Qed.

Lemma taken_used k h b t t' q : taken k h b t t' q → uleaves b h t' ≡ₚ (q, pw k) :: uleaves b h t.
Proof.
  induction 1 as [b|h b t' q Ht IH|h b l l' r q Ht IH|h b l r r' q Ht IH]; simpl in *; [done|done|..].
  - by rewrite IH.
  - by rewrite IH, Permutation_middle.
Qed.

Lemma taken_total k h b t t' q : taken k h b t t' q → total (fblocks b h t') = total (fblocks b h t) - pw k.
Proof.
  induction 1 as [b|h b t' q Ht IH|h b l l' r q Ht IH|h b l r r' q Ht IH]; simpl in *;
    rewrite ?total_app in *; unfold total in *; simpl in *; rewrite ?pw_S; lia.
Qed.

Lemma taken_aligned k h b t t' q : taken k h b t t' q → (pw h | b) → (pw k | q).
Proof.
  induction 1 as [b|h b t' q Ht IH|h b l l' r q Ht IH|h b l r r' q Ht IH]; intros Hb; [done|auto|..];
    apply IH; rewrite pw_S in Hb; [|apply Z.divide_add_r; [|done]];
    (etransitivity; [|exact Hb]; by exists 2).
Qed.

Lemma join_wf h l r : wf h l → wf h r → wf (S h) (join l r).
Proof. intros. unfold join. destruct (decide _); simpl; auto. Qed.

Lemma bits_join h l r : wf h l → wf h r →
  bits (S h) (join l r) = if decide (l = Free ∧ r = Free) then 2 * pw h else Z.lor (bits h l) (bits h r).
Proof. intros. unfold join. destruct (decide _); simpl; [apply pw_S|done]. Qed.

Lemma released_wf k h b t t' q : released k h b t t' q → wf h t → wf h t'.
Proof. induction 1; simpl in *; [done|..]; intros (_ & ? & ?); apply join_wf; auto. Qed.

Lemma released_free k h b t t' q : released k h b t t' q → tfree h b t' = tfree h b t ∪ frames (q, pw k).
Proof.
  induction 1 as [b|h b l l' r q Ht IH|h b l r r' q Ht IH].
  - rewrite tfree_free. unfold tfree, free_set. simpl. set_solver.
  - rewrite tfree_join, tfree_node, IH. set_solver.
  - rewrite tfree_join, tfree_node, IH. set_solver.
Qed.

Lemma uleaves_join h b l r : uleaves b (S h) (join l r) = uleaves b h l ++ uleaves (b + pw h) h r.
Proof. unfold join. by destruct (decide _) as [[-> ->]|]. Qed.

Lemma total_join h b l r :
  total (fblocks b (S h) (join l r)) = total (fblocks b h l) + total (fblocks (b + pw h) h r).
Proof.
  unfold join. destruct (decide _) as [[-> ->]|]; simpl; [|apply total_app].
  unfold total. simpl. rewrite pw_S. lia.
Qed.

Lemma released_used k h b t t' q : released k h b t t' q → (q, pw k) :: uleaves b h t' ≡ₚ uleaves b h t.
Proof.
  induction 1 as [b|h b l l' r q Ht IH|h b l r r' q Ht IH]; [done|..]; rewrite uleaves_join; simpl.
  - by rewrite <-IH.
  - by rewrite <-IH, Permutation_middle.
Qed.

Lemma released_total k h b t t' q : released k h b t t' q → total (fblocks b h t') = total (fblocks b h t) + pw k.
Proof.
  induction 1 as [b|h b l l' r q Ht IH|h b l r r' q Ht IH]; rewrite ?total_join; simpl; rewrite ?total_app; [|lia..].
  unfold total. simpl. lia.
Qed.

Lemma total_nonneg h b t : wf h t → 0 ≤ total (fblocks b h t) ≤ pw h.
Proof.
  revert h b. induction t as [| |l IHl r IHr]; intros h b Hw; pose proof (pw_pos h).
  - unfold total. simpl. lia.
  - unfold total. simpl. lia.
  - destruct Hw as (Hh & Hl & Hr). destruct h as [|h]; [done|]. simpl in *. rewrite total_app, pw_S.
    specialize (IHl h b Hl). specialize (IHr h (b + pw h) Hr). lia.
Qed.

(** The tree in which the first [n] frames are free. *)
Fixpoint init_tree (h : nat) (n : Z) : tree :=
  if n =? 0 then Used else if n =? pw h then Free else
  match h with
  | O => Used
  | S h' => if pw h' <? n then Node Free (init_tree h' (n - pw h')) else Node (init_tree h' n) Used
  end.

Lemma tfree_used h b : tfree h b Used = ∅.
Proof. done. Qed.

Lemma frames_nil b : frames (b, 0) = ∅.
Proof. apply set_eq. intros i. rewrite elem_of_frames. simpl. set_solver by lia. Qed.

Lemma lor_pw_add h x : 0 ≤ x < pw h → Z.lor (pw h) x = pw h + x.
Proof.
  intros Hx. pose proof (Z.add_lor_land (pw h) x). destruct (decide (Z.land (pw h) x = 0)) as [?|Hl]; [lia|].
  apply land_pw_le in Hl; lia.
Qed.

Lemma init_tree_used h : init_tree h 0 = Used.
Proof. by destruct h. Qed.

Lemma init_tree_free h : init_tree h (pw h) = Free.
Proof.
  pose proof (pw_pos h). assert (pw h =? 0 = false) as E by (apply Z.eqb_neq; lia).
  destruct h; cbn [init_tree]; by rewrite E, Z.eqb_refl.
Qed.

Lemma init_tree_spec h n : 0 ≤ n ≤ pw h →
  wf h (init_tree h n) ∧ bits h (init_tree h n) = n ∧ joined (init_tree h n) ∧ (init_tree h n = Free → n = pw h) ∧
  ∀ b, tfree h b (init_tree h n) = frames (b, n).
Proof.
  revert n. induction h as [|h IH]; intros n Hn; cbn [init_tree].
  - change (pw 0) with 1 in *. destruct (Z.eqb_spec n 0) as [->|]; [|destruct (Z.eqb_spec n 1) as [->|]; [|lia]].
    + split_and!; [done..|]. intros b. by rewrite frames_nil.
    + split_and!; [done..|]. intros b. by rewrite tfree_free.
  - pose proof (pw_S h) as HpS. pose proof (pw_pos h).
    destruct (Z.eqb_spec n 0) as [->|H0]; [split_and!; [done..|]; intros b; by rewrite frames_nil|].
    destruct (Z.eqb_spec n (pw (S h))) as [->|Hne]; [split_and!; [done..|]; intros b; by rewrite tfree_free|].
    destruct (Z.ltb_spec (pw h) n).
    + destruct (IH (n - pw h)) as (Hw & Hb & Hj & Hf & Hfr); [lia|]. split_and!; [done| |simpl|done|].
      * simpl. rewrite Hb, lor_pw_add by lia. lia.
      * split_and!; [intros [_ E%Hf]; lia|done|done].
      * intros b. rewrite tfree_node, tfree_free, Hfr. apply set_eq. intros i. rewrite elem_of_union, !elem_of_frames. simpl. lia.
    + destruct (IH n) as (Hw & Hb & Hj & Hf & Hfr); [lia|]. split_and!; [done| |simpl|done|].
      * simpl. rewrite Hb. apply Z.lor_0_r.
      * split_and!; [by intros [_ ?]|done|done].
      * intros b. rewrite tfree_node, tfree_used, Hfr. set_solver.
Qed.

Lemma init_tree_total h n b : 0 ≤ n ≤ pw h → total (fblocks b h (init_tree h n)) = n.
Proof.
  revert n b. induction h as [|h IH]; intros n b Hn; cbn [init_tree].
  - change (pw 0) with 1 in *. destruct (Z.eqb_spec n 0) as [->|]; [done|]. destruct (Z.eqb_spec n 1) as [->|]; [done|lia].
  - pose proof (pw_S h). destruct (Z.eqb_spec n 0) as [->|]; [done|].
    destruct (Z.eqb_spec n (pw (S h))) as [->|]; [unfold total; simpl; lia|].
    destruct (Z.ltb_spec (pw h) n); cbn [fblocks pred]; rewrite total_app, IH by lia; unfold total; simpl; lia.
Qed.

(** * Numbers of blocks *)

(** Block [a] has height [h] and begins at frame [b], in a tree of height [H]. *)
Definition at_block (H h : nat) (a b : Z) : Prop :=
  ∃ (d : nat) (r : Z), (d + h = H)%nat ∧ 0 ≤ r < pw d ∧ a = pw d + r ∧ b = r * pw h.

Lemma at_root H : at_block H H 1 0.
Proof. exists 0%nat, 0. change (pw 0) with 1. lia. Qed.

Lemma at_left H h a b : at_block H (S h) a b → at_block H h (2 * a) b.
Proof. intros (d & r & ? & ? & -> & ->). exists (S d), (2 * r). rewrite !pw_S. split_and!; try lia. Qed.

Lemma at_right H h a b : at_block H (S h) a b → at_block H h (2 * a + 1) (b + pw h).
Proof. intros (d & r & ? & ? & -> & ->). exists (S d), (2 * r + 1). rewrite !pw_S. split_and!; lia. Qed.

Section at_block.
Context (H h : nat) (a b : Z) (Hat : at_block H h a b) (HH : (H ≤ 31)%nat).

Lemma at_len : BUDDY_LENGTH (pw H) a = pw h.
Proof using Hat HH.
  destruct Hat as (d & r & ? & ? & -> & ->). replace (pw H) with (2 ^ (Z.of_nat d + Z.of_nat h)).
  - apply BUDDY_LENGTH_spec; unfold pw in *; lia.
  - unfold pw. f_equal. lia.
Qed.

Lemma at_begin : BUDDY_BEGIN (pw H) a = b.
Proof using Hat HH.
  destruct Hat as (d & r & ? & ? & -> & ->). replace (pw H) with (2 ^ (Z.of_nat d + Z.of_nat h)).
  - apply BUDDY_BEGIN_spec; unfold pw in *; lia.
  - unfold pw. f_equal. lia.
Qed.

Lemma at_end : BUDDY_END (pw H) a = b + pw h.
Proof using Hat HH.
  destruct Hat as (d & r & ? & ? & -> & ->). replace (pw H) with (2 ^ (Z.of_nat d + Z.of_nat h)).
  - apply BUDDY_END_spec; unfold pw in *; lia.
  - unfold pw. f_equal. lia.
Qed.

Lemma at_number : BUDDY_BLOCK (pw H) b (b + pw h) = a.
Proof using Hat HH.
  destruct Hat as (d & r & ? & ? & -> & ->). replace (pw H) with (2 ^ (Z.of_nat d + Z.of_nat h)).
  - apply BUDDY_BLOCK_spec; unfold pw in *; lia.
  - unfold pw. f_equal. lia.
Qed.

Lemma at_range : 0 < a < pw (S H).
Proof using Hat.
  clear HH.
  destruct Hat as (d & r & ? & ? & -> & ->). pose proof (pw_le (S d) (S H) ltac:(lia)). rewrite !pw_S in *. lia.
Qed.

Lemma at_frames : 0 ≤ b ∧ b + pw h ≤ pw H.
Proof using Hat.
  clear HH.
  destruct Hat as (d & r & Hd & ? & -> & ->). pose proof (pw_pos h).
  replace (pw H) with (pw d * pw h); [nia|]. unfold pw. rewrite <-Z.pow_add_r by lia. f_equal. lia.
Qed.
End at_block.

Section children.
Context (H h : nat) (a b : Z) (Hat : at_block H (S h) a b) (HH : (H ≤ 31)%nat).

Lemma child_u32 : 0 < 2 * a ∧ 2 * a + 1 < 2 ^ 32.
Proof using Hat HH.
  pose proof (at_range _ _ _ _ (at_right _ _ _ _ Hat)). pose proof (at_range _ _ _ _ Hat). pose proof (pw_le (S H) 32 ltac:(lia)).
  change (pw 32) with (2 ^ 32) in *. lia.
Qed.

Lemma at_LEFT : BUDDY_LEFT a = 2 * a.
Proof using Hat HH.
  pose proof child_u32. unfold BUDDY_LEFT. rewrite Z.shiftl_mul_pow2 by lia. rewrite u32_small; lia.
Qed.

Lemma at_RIGHT : BUDDY_RIGHT a = 2 * a + 1.
Proof using Hat HH.
  pose proof child_u32. unfold BUDDY_RIGHT. rewrite Z.shiftl_mul_pow2 by lia. rewrite u32_small; lia.
Qed.
End children.

Lemma PARENT_child a c : c = 2 * a ∨ c = 2 * a + 1 → BUDDY_PARENT c = a.
Proof.
  intros Hc. unfold BUDDY_PARENT. rewrite Z.shiftr_div_pow2 by lia. change (2 ^ 1) with 2.
  symmetry. apply (Z.div_unique_pos _ _ _ (c - 2 * a)); lia.
Qed.

(** The block of a frame range inside another is below it. *)
Lemma at_sub H k h x q a b : at_block H k x q → at_block H h a b → (k ≤ h)%nat → b ≤ q < b + pw h → in_sub a x.
Proof.
  intros (e & u & He & Hu & -> & ->) (d & r & Hd & Hr & -> & ->) Hk Hq. exists (Z.of_nat (h - k)). split; [lia|].
  fold (pw (h - k)). assert (∀ i j, pw (i + j) = pw i * pw j) as Hadd.
  { intros i j. unfold pw. rewrite <-Z.pow_add_r by lia. f_equal. lia. }
  assert (pw h = pw (h - k) * pw k) as Eh by (rewrite <-Hadd; f_equal; lia).
  assert (pw e = pw d * pw (h - k)) as Ee by (rewrite <-Hadd; f_equal; lia).
  pose proof (pw_pos k). pose proof (pw_pos (h - k)). rewrite Eh in Hq.
  assert (r * pw (h - k) ≤ u < (r + 1) * pw (h - k)) by (split; nia).
  symmetry. apply (Z.div_unique_pos _ _ _ (u - r * pw (h - k))); [lia|]. rewrite Ee. lia.
Qed.

Lemma uleaves_range b h t x : wf h t → x ∈ uleaves b h t → b ≤ x.1 ∧ 0 < x.2 ∧ x.1 + x.2 ≤ b + pw h.
Proof.
  revert b h. induction t as [| |l IHl r IHr]; intros b h Hw; simpl.
  - by intros ?%elem_of_nil.
  - intros ->%list_elem_of_singleton. pose proof (pw_pos h). simpl. lia.
  - destruct Hw as (Hh & Hl & Hr). destruct h as [|h]; [done|]. simpl in *. rewrite pw_S. pose proof (pw_pos h).
    intros [Hx|Hx]%elem_of_app; [apply IHl in Hx|apply IHr in Hx]; try done; lia.
Qed.

Lemma uleaves_at H k q t : ∀ h a b, at_block H h a b → wf h t → (q, pw k) ∈ uleaves b h t → ∃ x, at_block H k x q.
Proof.
  induction t as [| |l IHl r IHr]; intros h a b Hat Hw Hin.
  - by apply elem_of_nil in Hin.
  - apply list_elem_of_singleton in Hin as [= -> Hk]. apply pw_inj in Hk as ->. eauto.
  - destruct Hw as (Hh & Hl & Hr). destruct h as [|h]; [done|]. simpl in *. apply elem_of_app in Hin as [Hin|Hin].
    + eapply IHl; [by apply at_left|done|done].
    + eapply IHr; [by apply at_right|done|done].
Qed.

(** * The state under a block *)

Section state.
Context (A : Z) (H : nat).

Definition heads (b : Z) (h : nat) (t : tree) : list Z := (λ x, A + x.1) <$> fblocks b h t.

(** The descriptor at the start of a free block holds its length; its frames have descriptors. *)
Definition heads_ok (pgs : gmap Z Page) (b : Z) (h : nat) (t : tree) : Prop :=
  ∀ x, x ∈ fblocks b h t →
    (∃ p, pgs !! (A + x.1) = Some p ∧ property p = x.2) ∧
    (∀ i, x.1 ≤ i < x.1 + x.2 → is_Some (pgs !! (A + i))).

Record sub_inv (h : nat) (a b : Z) (t : tree) (rest : list Z) (s : buddy) : Prop := {
  si_rep : rep (segment s) h a t;
  si_list : free_list (pm s) ≡ₚ heads b h t ++ rest;
  si_heads : heads_ok (pages (pm s)) b h t }.

(** The other blocks of the free list. *)
Definition rest_ok (h : nat) (b : Z) (rest : list Z) : Prop :=
  NoDup rest ∧ ∀ y, y ∈ rest → ¬ (A + b ≤ y < A + b + pw h).

Definition consts (s : buddy) := (physical_size s, virtual_size s, segment_size s, alloc_size s, buddy_physical s, buddy_alloc s).

(** [s'] differs from [s] under block [a] and in the frames of that block only. *)
Record near (h : nat) (a b : Z) (s s' : buddy) : Prop := {
  nr_consts : consts s' = consts s;
  nr_seg : ∀ x, ¬ in_sub a x → segment s' !! x = segment s !! x;
  nr_dom : ∀ x, is_Some (segment s !! x) → is_Some (segment s' !! x);
  nr_pages : ∀ y, ¬ (A + b ≤ y < A + b + pw h) → pages (pm s') !! y = pages (pm s) !! y;
  nr_status : same_status (pages (pm s)) (pages (pm s')) }.

Definition set_up (s : buddy) : Prop :=
  virtual_size s = pw H ∧ buddy_alloc s = A ∧ ∀ x, 0 < x < pw (S H) → is_Some (segment s !! x).

#[local] Instance near_trans h a b : Transitive (near h a b).
Proof.
  intros s1 s2 s3 [C1 S1 D1 P1 T1] [C2 S2 D2 P2 T2]. split.
  - by rewrite C2.
  - intros x Hx. by rewrite S2, S1.
  - auto.
  - intros y Hy. by rewrite P2, P1.
  - by etransitivity.
Qed.

Lemma near_left h a b s s' : near h (2 * a) b s s' → near (S h) a b s s'.
Proof.
  intros [? Hs ? Hp ?]. split; try done.
  - intros x Hx. apply Hs. intros Hc. apply Hx. by apply (sub_child a (2 * a)); [left|].
  - intros y Hy. apply Hp. rewrite pw_S in Hy. pose proof (pw_pos h). lia.
Qed.

Lemma near_right h a b s s' : near h (2 * a + 1) (b + pw h) s s' → near (S h) a b s s'.
Proof.
  intros [? Hs ? Hp ?]. split; try done.
  - intros x Hx. apply Hs. intros Hc. apply Hx. by apply (sub_child a (2 * a + 1)); [right|].
  - intros y Hy. apply Hp. rewrite pw_S in Hy. pose proof (pw_pos h). lia.
Qed.

Lemma near_set_up h a b s s' : near h a b s s' → set_up s → set_up s'.
Proof. intros [Hc _ Hd _ _] (? & ? & Hf). unfold consts in Hc. split_and!; [congruence..|auto]. Qed.

Lemma seg_at_run s a x : segment s !! a = Some x → seg_at a s = Ret (x, s).
Proof. intros E. unfold seg_at, deref. by rewrite E. Qed.

Lemma seg_set_run s a v : is_Some (segment s !! a) → is_u32 v → seg_set a v s = Ret (tt, set_segment s (<[a := v]> (segment s))).
Proof. intros [x E] Hv. unfold seg_set. step using (by apply seg_at_run). unfold modify. by rewrite u32_small. Qed.

Lemma in_pm_run {X} (c : M pmm X) s x m : c (pm s) = Ret (x, m) → in_pm c s = Ret (x, set_pm s m).
Proof. intros E. unfold in_pm. by rewrite E. Qed.

Lemma heads_range b h t y : wf h t → y ∈ heads b h t → A + b ≤ y < A + b + pw h.
Proof. intros Hw (x & -> & Hx)%list_elem_of_fmap. pose proof (fblocks_range _ _ _ _ Hw Hx). lia. Qed.

Lemma heads_nodup b h t : wf h t → NoDup (heads b h t).
Proof.
  intros Hw. unfold heads. replace ((λ x : block, A + x.1) <$> fblocks b h t) with (Z.add A <$> (fst <$> fblocks b h t)).
  - apply NoDup_fmap_2; [intros ???; lia|]. by apply fblocks_nodup.
  - by rewrite <-list_fmap_compose.
Qed.

Lemma list_nodup h b t rest fl : wf h t → rest_ok h b rest → fl ≡ₚ heads b h t ++ rest → NoDup fl.
Proof.
  intros Hw [Hnd Hr] ->. apply NoDup_app. split_and!; [by apply heads_nodup| |done].
  intros y Hy Hy'. apply (Hr y Hy'). by eapply heads_range.
Qed.

Lemma rest_left h b r rest : wf h r → rest_ok (S h) b rest → rest_ok h b (heads (b + pw h) h r ++ rest).
Proof.
  intros Hw [Hnd Hr]. pose proof (pw_pos h). rewrite pw_S in Hr. split.
  - apply NoDup_app. split_and!; [by apply heads_nodup| |done].
    intros y Hy Hy'. apply (Hr y Hy'). apply heads_range in Hy; [|done]. lia.
  - intros y [Hy|Hy]%elem_of_app; [apply heads_range in Hy; [lia|done]|]. specialize (Hr y Hy). lia.
Qed.

Lemma rest_right h b l rest : wf h l → rest_ok (S h) b rest → rest_ok h (b + pw h) (heads b h l ++ rest).
Proof.
  intros Hw [Hnd Hr]. pose proof (pw_pos h). rewrite pw_S in Hr. split.
  - apply NoDup_app. split_and!; [by apply heads_nodup| |done].
    intros y Hy Hy'. apply (Hr y Hy'). apply heads_range in Hy; [|done]. lia.
  - intros y [Hy|Hy]%elem_of_app; [apply heads_range in Hy; [lia|done]|]. specialize (Hr y Hy). lia.
Qed.

Lemma heads_node h b l r : heads b (S h) (Node l r) = heads b h l ++ heads (b + pw h) h r.
Proof. unfold heads. simpl. by rewrite fmap_app. Qed.

(** The state under the two halves of a block, whatever the entry of the block itself is. *)
Record kids_inv (h : nat) (a b : Z) (l r : tree) (rest : list Z) (s : buddy) : Prop := {
  ki_left : rep (segment s) h (2 * a) l;
  ki_right : rep (segment s) h (2 * a + 1) r;
  ki_list : free_list (pm s) ≡ₚ heads b h l ++ heads (b + pw h) h r ++ rest;
  ki_hl : heads_ok (pages (pm s)) b h l;
  ki_hr : heads_ok (pages (pm s)) (b + pw h) h r }.

Lemma sub_kids h a b l r rest s : sub_inv (S h) a b (Node l r) rest s → kids_inv h a b l r rest s.
Proof.
  intros [Hr Hl Hh]. split; [apply Hr|apply Hr|by rewrite Hl, heads_node, app_assoc|..];
    intros x Hx; apply Hh; simpl; apply elem_of_app; tauto.
Qed.

Lemma kids_left h a b l r rest s : kids_inv h a b l r rest s → sub_inv h (2 * a) b l (heads (b + pw h) h r ++ rest) s.
Proof. intros []. by split. Qed.

Lemma kids_right h a b l r rest s :
  kids_inv h a b l r rest s → sub_inv h (2 * a + 1) (b + pw h) r (heads b h l ++ rest) s.
Proof. intros [? ? Hl ? ?]. split; [done| |done]. rewrite Hl. solve_Permutation. Qed.

(** The other half is kept. *)
Definition same_outside (h : nat) (a b : Z) (s s' : buddy) : Prop :=
  (∀ x, ¬ in_sub a x → segment s' !! x = segment s !! x) ∧
  (∀ y, ¬ (A + b ≤ y < A + b + pw h) → pages (pm s') !! y = pages (pm s) !! y).

Lemma near_outside h a b s s' : near h a b s s' → same_outside h a b s s'.
Proof. intros []. by split. Qed.

Lemma keep_right h a b r s s' : 0 < a → same_outside h (2 * a) b s s' → rep (segment s) h (2 * a + 1) r →
  heads_ok (pages (pm s)) (b + pw h) h r → rep (segment s') h (2 * a + 1) r ∧ heads_ok (pages (pm s')) (b + pw h) h r.
Proof.
  intros Ha [Hs Hp] Hr Hh. pose proof (rep_wf _ _ _ _ Hr) as Hw. split.
  - eapply seg_frame; [|exact Hr]. intros x Hx. apply Hs. intros Hl. by eapply sub_disjoint.
  - intros x Hx. pose proof (fblocks_range _ _ _ _ Hw Hx). destruct (Hh x Hx) as [Hpg Hi].
    split; [|intros i Hii]; rewrite Hp by lia; auto.
Qed.

Lemma keep_left h a b l s s' : 0 < a → same_outside h (2 * a + 1) (b + pw h) s s' → rep (segment s) h (2 * a) l →
  heads_ok (pages (pm s)) b h l → rep (segment s') h (2 * a) l ∧ heads_ok (pages (pm s')) b h l.
Proof.
  intros Ha [Hs Hp] Hr Hh. pose proof (rep_wf _ _ _ _ Hr) as Hw. split.
  - eapply seg_frame; [|exact Hr]. intros x Hx. apply Hs. by eapply sub_disjoint.
  - intros x Hx. pose proof (fblocks_range _ _ _ _ Hw Hx). destruct (Hh x Hx) as [Hpg Hi].
    split; [|intros i Hii]; rewrite Hp by lia; auto.
Qed.

Definition entry (a v : Z) (s : buddy) : buddy := set_segment s (<[a := v]> (segment s)).

Lemma same_status_refl pgs : same_status pgs pgs.
Proof. done. Qed.

Lemma near_entry h a b x v s : in_sub a x → near h a b s (entry x v s).
Proof.
  intros Hx. split; [done| | |done|apply same_status_refl].
  - intros y Hy. simpl. apply lookup_insert_ne. by intros ->.
  - intros y Hy. simpl. destruct (decide (y = x)) as [->|]; [rewrite lookup_insert_eq; eauto|by rewrite lookup_insert_ne].
Qed.

(** Writing the entry of a block leaves what is below it. *)
Lemma rep_entry g h a c t v : 0 < a → a < c → rep g h c t → rep (<[a := v]> g) h c t.
Proof.
  intros Ha Hc. apply seg_frame. intros x Hx. apply lookup_insert_ne.
  apply sub_ge in Hx; lia.
Qed.

Lemma sub_combine h a b l r rest s : 0 < a → kids_inv h a b l r rest s →
  sub_inv (S h) a b (Node l r) rest (entry a (Z.lor (bits h l) (bits h r)) s).
Proof.
  intros Ha [Hl Hr Hfl Hhl Hhr]. split.
  - simpl. rewrite lookup_insert_eq. split_and!; [done..| |]; apply rep_entry; (done || lia).
  - simpl. by rewrite Hfl, heads_node, app_assoc.
  - intros x. simpl. intros [Hx|Hx]%elem_of_app; [by apply Hhl|by apply Hhr].
Qed.

Lemma at_height h a b : at_block H h a b → (h ≤ H)%nat.
Proof. intros (d & r & ? & _). lia. Qed.

Section bounded.
Context (HH : (H ≤ 31)%nat).

Lemma pw_u32 h : (h ≤ H)%nat → pw h < 2 ^ 32.
Proof using HH. intros. pose proof (pw_le h 31 ltac:(lia)). change (pw 31) with (2 ^ 31) in *. lia. Qed.

(** One turn of the loop that updates the entries above a block. *)
Lemma update_step f h a b c l r s :
  set_up s → at_block H (S h) a b → c = 2 * a ∨ c = 2 * a + 1 →
  rep (segment s) h (2 * a) l → rep (segment s) h (2 * a + 1) r →
  update_loop (S f) c s = update_loop f a (entry a (Z.lor (bits h l) (bits h r)) s).
Proof using HH.
  intros (_ & _ & Hd) Hat Hc Hl Hr. pose proof (at_range _ _ _ _ Hat) as Ha. cbn [update_loop].
  destruct (Z.eqb_spec c BUDDY_ROOT) as [Hroot|_]; [unfold BUDDY_ROOT in Hroot; lia|].
  cbv zeta. rewrite (PARENT_child a c Hc), (at_LEFT _ _ _ _ Hat HH), (at_RIGHT _ _ _ _ Hat HH).
  step using (eapply seg_at_run, rep_at, Hl). step using (eapply seg_at_run, rep_at, Hr).
  pose proof (bits_range _ _ (rep_wf _ _ _ _ Hl)) as Hbl. pose proof (bits_range _ _ (rep_wf _ _ _ _ Hr)) as Hbr.
  pose proof (lor_pw_lt _ _ _ Hbl Hbr). pose proof (pw_u32 (S h) (at_height _ _ _ Hat)).
  step using (apply seg_set_run; [apply Hd; lia|lia]). done.
Qed.

Definition take_at (x q nf : Z) (s : buddy) : buddy :=
  set_pm (entry x 0 s) (mkPmm (pages (pm s)) (seq_del (A + q) (free_list (pm s))) nf).

(** The search under a block ends at a block of [2 ^ k] frames; once that is taken, the updates above
    it come back to the block with the state of the tree in which it is taken. *)
Definition found (k h : nat) (a b : Z) (t : tree) (rest : list Z) (s : buddy) (R : res (Z * buddy)) : Prop :=
  ∃ x q t' s1, R = Ret (x, s1) ∧ at_block H k x q ∧ taken k h b t t' q ∧
    segment s1 !! x = Some (pw k) ∧ near h a b s s1 ∧ nr_free (pm s1) = nr_free (pm s) ∧
    ∀ nf, ∃ s3, (∀ f, update_loop (h - k + f) x (take_at x q nf s1) = update_loop f a s3) ∧
      near h a b s s3 ∧ nr_free (pm s3) = nf ∧ sub_inv h a b t' rest s3.

Lemma found_left k h a b l r rest s R :
  set_up s → at_block H (S h) a b → kids_inv h a b l r rest s →
  found k h (2 * a) b l (heads (b + pw h) h r ++ rest) s R → found k (S h) a b (Node l r) rest s R.
Proof using HH.
  intros Hs Hat Hsub (x & q & l' & s1 & -> & Hx & Ht & Hseg & Hn & Hnf & Hup).
  pose proof (at_range _ _ _ _ Hat) as [Ha _]. pose proof (taken_height _ _ _ _ _ _ Ht).
  exists x, q, (Node l' r), s1. split_and!; [done|done|by constructor|done|by apply near_left|done|].
  intros nf. destruct (Hup nf) as (s3 & Hrun & Hn3 & Hnf3 & Hsub3).
  destruct (keep_right h a b r s s3) as [Hr Hhr]; [done|by apply near_outside|apply Hsub..|].
  exists (entry a (Z.lor (bits h l') (bits h r)) s3). split_and!.
  - intros f. replace (S h - k + f)%nat with (h - k + S f)%nat by lia. rewrite Hrun.
    eapply update_step; [by eapply near_set_up|done|by left|apply Hsub3|done].
  - etransitivity; [by apply near_left|apply near_entry, sub_refl].
  - done.
  - apply sub_combine; [done|]. split; [apply Hsub3|done|apply Hsub3|apply Hsub3|done].
Qed.

Lemma found_right k h a b l r rest s R :
  set_up s → at_block H (S h) a b → kids_inv h a b l r rest s →
  found k h (2 * a + 1) (b + pw h) r (heads b h l ++ rest) s R → found k (S h) a b (Node l r) rest s R.
Proof using HH.
  intros Hs Hat Hsub (x & q & r' & s1 & -> & Hx & Ht & Hseg & Hn & Hnf & Hup).
  pose proof (at_range _ _ _ _ Hat) as [Ha _]. pose proof (taken_height _ _ _ _ _ _ Ht).
  exists x, q, (Node l r'), s1. split_and!; [done|done|by constructor|done|by apply near_right|done|].
  intros nf. destruct (Hup nf) as (s3 & Hrun & Hn3 & Hnf3 & Hsub3).
  destruct (keep_left h a b l s s3) as [Hl Hhl]; [done|by apply near_outside|apply Hsub..|].
  exists (entry a (Z.lor (bits h l) (bits h r')) s3). split_and!.
  - intros f. replace (S h - k + f)%nat with (h - k + S f)%nat by lia. rewrite Hrun.
    eapply update_step; [by eapply near_set_up|done|by right|done|apply Hsub3].
  - etransitivity; [by apply near_right|apply near_entry, sub_refl].
  - done.
  - apply sub_combine; [done|]. split; [done|apply Hsub3| |done|apply Hsub3].
    rewrite (si_list _ _ _ _ _ _ Hsub3). solve_Permutation.
Qed.
Lemma split_run h a b rest s :
  set_up s → at_block H (S h) a b → rest_ok (S h) b rest → sub_inv (S h) a b Free rest s →
  ∃ s', split_block (pw H) a s = Ret (tt, s') ∧ near (S h) a b s s' ∧ nr_free (pm s') = nr_free (pm s) ∧
    kids_inv h a b Free Free rest s'.
Proof using HH.
  intros (HV & HA & Hd) Hat Hrest [[Hseg _] Hl Hh]. pose proof (at_range _ _ _ _ Hat) as Ha.
  pose proof (at_range _ _ _ _ (at_right _ _ _ _ Hat)). pose proof (at_range _ _ _ _ (at_left _ _ _ _ Hat)).
  pose proof (pw_pos h) as Hph. pose proof (pw_S h) as HpS.
  destruct (Hh (b, pw (S h))) as ((pg & Hpg & Hprop) & Hin); [by apply list_elem_of_singleton|]. simpl in Hpg, Hprop, Hin.
  destruct (Hin (b + pw h)) as [pm2 Hpm2]; [lia|].
  pose proof (pw_half h) as Hshr.
  assert (Z.shiftr (b + (b + pw (S h))) 1 = b + pw h) as Hmid.
  { rewrite Z.shiftr_div_pow2 by lia. rewrite HpS. change (2 ^ 1) with 2.
    replace (b + (b + 2 * pw h)) with ((b + pw h) * 2) by lia. apply Z.div_mul. lia. }
  pose proof (pw_u32 h ltac:(pose proof (at_height _ _ _ Hat); lia)).
  unfold split_block. cbn [gets]. step using done. cbv beta zeta. rewrite HA.
  rewrite (at_begin _ _ _ _ Hat HH), (at_end _ _ _ _ Hat HH), Hmid.
  rewrite (at_LEFT _ _ _ _ Hat HH), (at_RIGHT _ _ _ _ Hat HH).
  step using (by apply in_pm_run). step using (by apply in_pm_run, page_upd_run).
  step using (apply in_pm_run, page_at_run; simpl; apply lookup_insert_eq).
  step using (apply in_pm_run, page_upd_run; simpl; rewrite lookup_insert_ne by lia; exact Hpm2).
  step using (apply seg_at_run; exact Hseg). cbn [bits]. rewrite Hshr.
  step using (apply seg_set_run; [apply Hd; lia|lia]).
  step using (apply seg_set_run; [simpl; rewrite lookup_insert_ne by lia; apply Hd; lia|lia]).
  step using (by apply in_pm_run). eexists. split; [by apply in_pm_run|]. simpl.
  assert (property pg = pw (S h)) as Hpp by done. rewrite Hpp, Hshr. split; [|split; [done|]].
  - split; simpl; [done| | | |].
    + intros x Hx. rewrite !lookup_insert_ne; [done|..]; intros <-; apply Hx;
        eapply sub_child; [left|apply sub_refl|right|apply sub_refl]; done.
    + intros x Hx. destruct (decide (x = 2 * a + 1)) as [->|]; [rewrite lookup_insert_eq; eauto|].
      rewrite lookup_insert_ne by done. destruct (decide (x = 2 * a)) as [->|]; [rewrite lookup_insert_eq; eauto|].
      by rewrite lookup_insert_ne.
    + intros y Hy. rewrite !lookup_insert_ne by lia. done.
    + etransitivity; eapply same_status_insert; [exact Hpg|done|rewrite lookup_insert_ne by lia; exact Hpm2|done].
  - assert (NoDup (free_list (pm s))) as Hnd by (eapply (list_nodup (S h) b Free); [done|exact Hrest|exact Hl]).
    split; simpl.
    + rewrite lookup_insert_ne, lookup_insert_eq by lia. done.
    + by rewrite lookup_insert_eq.
    + unfold heads in Hl |- *. simpl in Hl |- *. rewrite seq_del_perm, Hl; [apply perm_swap|done|rewrite Hl; set_solver].
    + intros x ->%list_elem_of_singleton. simpl. split.
      * rewrite lookup_insert_ne, lookup_insert_eq by lia. eauto.
      * intros i Hi. destruct (decide (i = b)) as [->|]; [rewrite lookup_insert_ne, lookup_insert_eq by lia; eauto|].
        rewrite !lookup_insert_ne by lia. apply Hin. lia.
    + intros x ->%list_elem_of_singleton. simpl. split; [rewrite lookup_insert_eq; eauto|].
      intros i Hi. destruct (decide (i = b + pw h)) as [->|]; [rewrite lookup_insert_eq; eauto|].
      rewrite !lookup_insert_ne by lia. apply Hin. lia.
Qed.

Lemma near_refl h a b s : near h a b s s.
Proof using Type. by split. Qed.

Lemma found_here h a b rest s :
  at_block H h a b → rest_ok h b rest → sub_inv h a b Free rest s → found h h a b Free rest s (Ret (a, s)).
Proof using HH.
  intros Hat Hrest [[Hseg _] Hl _]. exists a, b, Used, s.
  split_and!; [done|done|constructor|done|apply near_refl|done|]. intros nf. exists (take_at a b nf s).
  rewrite Nat.sub_diag. split_and!; [done| |done|].
  - destruct (near_entry h a b a 0 s (sub_refl a)). by split.
  - split; simpl; [by rewrite lookup_insert_eq| |by intros ? ?%elem_of_nil].
    assert (NoDup (free_list (pm s))) by (eapply (list_nodup h b Free); [done|exact Hrest|exact Hl]).
    unfold heads in *. simpl in *. eapply (Permutation_cons_inv (a := A + b)).
    rewrite seq_del_perm, Hl; [done|done|rewrite Hl; set_solver].
Qed.

Lemma found_split k h a b rest s s' R :
  near (S h) a b s s' → nr_free (pm s') = nr_free (pm s) →
  found k (S h) a b (Node Free Free) rest s' R → found k (S h) a b Free rest s R.
Proof using HH.
  intros Hn Hnf (x & q & t' & s1 & -> & Hx & Ht & Hseg & Hn1 & Hnf1 & Hup). exists x, q, t', s1.
  split_and!; [done|done|by constructor|done|by etransitivity|congruence|]. intros nf.
  destruct (Hup nf) as (s3 & ? & ? & ? & ?). exists s3. split_and!; [done|by etransitivity|done|done].
Qed.

(** The search under a block whose entry is large enough. *)
Lemma find_run k h a b t rest s fuel :
  set_up s → at_block H h a b → rest_ok h b rest → sub_inv h a b t rest s → (h < fuel)%nat → pw k ≤ bits h t →
  found k h a b t rest s (find_loop fuel (pw H) (pw k) a s).
Proof using HH.
  revert h a b t rest s. induction fuel as [|fuel IH]; [lia|]. intros h a b t rest s Hs Hat Hrest Hsub Hf Hk.
  pose proof (rep_wf _ _ _ _ (si_rep _ _ _ _ _ _ Hsub)) as Hw. pose proof (bits_range _ _ Hw) as Hb.
  cbn [find_loop]. step using (eapply seg_at_run, rep_at, Hsub). rewrite (at_len _ _ _ _ Hat HH).
  rewrite (proj2 (Z.leb_le _ _) Hk). cbn [andb].
  destruct (Z.ltb_spec (pw k) (pw h)) as [Hlt|Hge]; cbn [negb].
  2:{ assert (k = h) as -> by (apply pw_inj; lia). assert (t = Free) as -> by (apply (bits_full h); [done|lia]).
      by apply found_here. }
  destruct h as [|h]; [pose proof (pw_le 0 k); lia|]. cbv zeta.
  rewrite (at_LEFT _ _ _ _ Hat HH), (at_RIGHT _ _ _ _ Hat HH).
  pose proof (at_left _ _ _ _ Hat) as Hatl. pose proof (at_right _ _ _ _ Hat) as Hatr.
  destruct t as [| |l r].
  - cbn [bits]. rewrite Z.eqb_refl. destruct (split_run _ _ _ _ _ Hs Hat Hrest Hsub) as (s' & Hrun & Hn & Hnf & Hkids).
    step using (exact Hrun). eapply found_split; [done|done|]. eapply near_set_up in Hs; [|done].
    eapply found_left; [done|done|exact Hkids|].
    apply IH; [done|done|by apply rest_left|by apply kids_left|lia|]. simpl. apply pw_le.
    enough (¬ (S h ≤ k)%nat) by lia. intros ?%pw_le. lia.
  - exfalso. simpl in Hk. pose proof (pw_pos k). lia.
  - pose proof (bits_node_lt _ _ _ Hw). destruct (Z.eqb_spec (bits (S h) (Node l r)) (pw (S h))) as [Heq|_]; [exfalso; lia|].
    destruct Hw as (_ & Hwl & Hwr). simpl in Hwl, Hwr. pose proof (sub_kids _ _ _ _ _ _ _ Hsub) as Hkids.
    pose proof (bits_range _ _ Hwl). pose proof (bits_range _ _ Hwr).
    assert (pw k ≤ bits h l → found k (S h) a b (Node l r) rest s (find_loop fuel (pw H) (pw k) (2 * a) s)) as Hleft.
    { intros ?. eapply found_left; [done|done|exact Hkids|]. apply IH; [done|done|by apply rest_left|by apply kids_left|lia|done]. }
    assert (pw k ≤ bits h r → found k (S h) a b (Node l r) rest s (find_loop fuel (pw H) (pw k) (2 * a + 1) s)) as Hright.
    { intros ?. eapply found_right; [done|done|exact Hkids|]. apply IH; [done|done|by apply rest_right|by apply kids_right|lia|done]. }
    step using (eapply seg_at_run, rep_at, Hkids).
    destruct (Z.eqb_spec (Z.land (pw k) (bits h l)) 0) as [_|Hl]; cbn [negb]; [|apply Hleft, land_pw_le; [lia|done]].
    step using (eapply seg_at_run, rep_at, Hkids).
    destruct (Z.eqb_spec (Z.land (pw k) (bits h r)) 0) as [_|Hr]; cbn [negb]; [|apply Hright, land_pw_le; [lia|done]].
    destruct (Z.leb_spec (pw k) (bits h l)) as [?|?]; [by apply Hleft|].
    destruct (Z.leb_spec (pw k) (bits h r)) as [?|?]; [by apply Hright|].
    exfalso. simpl in Hk. apply le_lor_pw in Hk; lia.
Qed.

Lemma BUDDY_EMPTY_run h x b t s : at_block H h x b → rep (segment s) h x t →
  BUDDY_EMPTY (pw H) x s = Ret (bool_decide (t = Free), s).
Proof using HH.
  intros Hat Hr. unfold BUDDY_EMPTY. step_by (seg_at_run _ _ _ (rep_at _ _ _ _ Hr)). rewrite (at_len _ _ _ _ Hat HH).
  unfold mret, M_ret. do 2 f_equal. apply eq_bool_prop_intro. rewrite bool_decide_spec, Is_true_true, Z.eqb_eq.
  apply bits_full. by eapply rep_wf.
Qed.

(** Joining two free halves. *)
Lemma merge_run h a b rest s :
  set_up s → at_block H (S h) a b → rest_ok (S h) b rest → kids_inv h a b Free Free rest s →
  ∃ s', (in_pm (upd_list (seq_del (A + b))) ;; in_pm (upd_list (seq_del (A + (b + pw h)))) ;;
         seg_set a (Z.shiftl (pw h) 1) ;; in_pm (page_upd (A + b) (λ p, set_property p (u32 (Z.shiftl (pw h) 1)))) ;;
         in_pm (upd_list (seq_add_after None (A + b)))) s = Ret (tt, s') ∧
    near (S h) a b s s' ∧ nr_free (pm s') = nr_free (pm s) ∧ sub_inv (S h) a b Free rest s'.
Proof using HH.
  intros (HV & HA & Hd) Hat Hrest Hk. pose proof (at_range _ _ _ _ Hat) as Ha.
  pose proof (pw_u32 (S h) (at_height _ _ _ Hat)) as Hu. pose proof (pw_pos h) as Hph. pose proof (pw_S h) as HpS.
  assert (Z.shiftl (pw h) 1 = pw (S h)) as -> by (rewrite Z.shiftl_mul_pow2 by lia; lia). rewrite u32_small by lia.
  assert (NoDup (free_list (pm s))) as Hnd.
  { eapply (list_nodup h b Free); [done|apply (rest_left h b Free); [done|exact Hrest]|apply Hk]. }
  pose proof (ki_list _ _ _ _ _ _ _ Hk) as Hfl. unfold heads in Hfl. simpl in Hfl.
  destruct (ki_hl _ _ _ _ _ _ _ Hk (b, pw h)) as ((pg & Hpg & _) & Hin1); [by apply list_elem_of_singleton|].
  destruct (ki_hr _ _ _ _ _ _ _ Hk (b + pw h, pw h)) as (_ & Hin2); [by apply list_elem_of_singleton|]. simpl in *.
  eexists. split.
  - step using (by apply in_pm_run). step using (by apply in_pm_run). step using (apply seg_set_run; [apply Hd; lia|lia]).
    step using (apply in_pm_run, page_upd_run; exact Hpg). by apply in_pm_run.
  - split; [|split; [done|]].
    + destruct (near_entry (S h) a b a (pw (S h)) s (sub_refl a)). split; simpl; [done|done|done| |].
      * intros y Hy. apply lookup_insert_ne. lia.
      * by eapply same_status_insert.
    + split; simpl; [by rewrite lookup_insert_eq| |].
      * unfold heads. simpl. constructor. apply (Permutation_cons_inv (a := A + (b + pw h))).
        rewrite seq_del_perm; [|by apply NoDup_filter|].
        -- apply (Permutation_cons_inv (a := A + b)). rewrite seq_del_perm; [done|done|rewrite Hfl; set_solver].
        -- apply elem_of_seq_del. split; [lia|rewrite Hfl; set_solver].
      * intros x ->%list_elem_of_singleton. simpl. split; [rewrite lookup_insert_eq; eauto|].
        intros i Hi. destruct (decide (i = b)) as [->|]; [rewrite lookup_insert_eq; eauto|].
        rewrite lookup_insert_ne by lia. destruct (decide (i < b + pw h)); [apply Hin1|apply Hin2]; lia.
Qed.

(** One turn of the loop that joins free halves. *)
Lemma merge_step h a b c l r rest s :
  set_up s → at_block H (S h) a b → c = 2 * a ∨ c = 2 * a + 1 → rest_ok (S h) b rest → kids_inv h a b l r rest s →
  ∃ s', (∀ f, merge_up (S f) (pw H) c s = merge_up f (pw H) a s') ∧ near (S h) a b s s' ∧
    nr_free (pm s') = nr_free (pm s) ∧ sub_inv (S h) a b (join l r) rest s'.
Proof using HH.
  intros Hs Hat Hc Hrest Hk. pose proof (at_range _ _ _ _ Hat) as Ha.
  pose proof (ki_left _ _ _ _ _ _ _ Hk) as Hl. pose proof (ki_right _ _ _ _ _ _ _ Hk) as Hr.
  pose proof (bits_range _ _ (rep_wf _ _ _ _ Hl)) as Hbl. pose proof (bits_range _ _ (rep_wf _ _ _ _ Hr)) as Hbr.
  pose proof (pw_u32 (S h) (at_height _ _ _ Hat)) as Hu. pose proof (lor_pw_lt _ _ _ Hbl Hbr) as Hlor.
  assert (∀ m, (if bool_decide (l = Free) : bool then BUDDY_EMPTY (pw H) (2 * a + 1) else mret false) s = Ret (m, s) →
    ∀ f s', (if m : bool then
         in_pm (upd_list (seq_del (A + b))) ;; in_pm (upd_list (seq_del (A + (b + pw h)))) ;;
         seg_set a (Z.shiftl (bits h l) 1) ;; in_pm (page_upd (A + b) (λ p, set_property p (u32 (Z.shiftl (bits h l) 1)))) ;;
         in_pm (upd_list (seq_add_after None (A + b)))
       else r ← seg_at (2 * a + 1); seg_set a (Z.lor (bits h l) r)) s = Ret (tt, s') →
    merge_up (S f) (pw H) c s = merge_up f (pw H) a s') as Hrun.
  { intros m Hm f s' Hb. cbn [merge_up]. destruct (Z.eqb_spec c BUDDY_ROOT) as [Hroot|_]; [unfold BUDDY_ROOT in Hroot; lia|].
    cbv zeta. rewrite (PARENT_child a c Hc), (at_LEFT _ _ _ _ Hat HH), (at_RIGHT _ _ _ _ Hat HH).
    rewrite (at_begin _ _ _ _ (at_left _ _ _ _ Hat) HH), (at_begin _ _ _ _ (at_right _ _ _ _ Hat) HH).
    step_by (BUDDY_EMPTY_run _ _ _ _ _ (at_left _ _ _ _ Hat) Hl). step_by Hm.
    step_by (seg_at_run _ _ _ (rep_at _ _ _ _ Hl)). destruct m.
    - erewrite M_bind_step; [reflexivity|]. step using done. cbv beta. rewrite (proj1 (proj2 Hs)). exact Hb.
    - erewrite M_bind_step; [reflexivity|]. exact Hb. }
  unfold join. destruct (decide (l = Free ∧ r = Free)) as [[-> ->]|Hne].
  - destruct (merge_run h a b rest s Hs Hat Hrest Hk) as (s' & Hm & ?). exists s'. split; [|done].
    intros f. apply (Hrun true); [by apply (BUDDY_EMPTY_run _ _ _ _ _ (at_right _ _ _ _ Hat) Hr)|exact Hm].
  - exists (entry a (Z.lor (bits h l) (bits h r)) s). split_and!; [|apply near_entry, sub_refl|done|by apply sub_combine; [lia|]].
    intros f. apply (Hrun false).
    + destruct (decide (l = Free)); [rewrite bool_decide_true by done|by rewrite bool_decide_false].
      rewrite (BUDDY_EMPTY_run _ _ _ _ _ (at_right _ _ _ _ Hat) Hr). by rewrite bool_decide_false by naive_solver.
    + step_by (seg_at_run _ _ _ (rep_at _ _ _ _ Hr)). apply seg_set_run; [apply Hs; lia|lia].
Qed.

(** A block is entered in the free list. *)
Definition added (b n : Z) (pg : Page) (s : buddy) : buddy :=
  set_pm s (mkPmm (<[A + b := set_property pg n]> (pages (pm s))) (A + b :: free_list (pm s)) (nr_free (pm s))).

Lemma add_block_run b n s pg : buddy_alloc s = A → pages (pm s) !! (A + b) = Some pg →
  add_block b n s = Ret (tt, added b n pg s).
Proof using Type.
  intros HA Hpg. unfold add_block. step using done. cbv beta. rewrite HA.
  step using (by apply in_pm_run, page_upd_run). reflexivity.
Qed.

Lemma near_added h a b n s pg : pages (pm s) !! (A + b) = Some pg → near h a b s (added b n pg s).
Proof using Type.
  intros Hpg. pose proof (pw_pos h). split; simpl; [done|done|done| |by eapply same_status_insert].
  intros y Hy. apply lookup_insert_ne. clear HH. lia.
Qed.

Lemma added_heads h b pg s : pages (pm s) !! (A + b) = Some pg → (∀ i, b ≤ i < b + pw h → is_Some (pages (pm s) !! (A + i))) →
  heads_ok (pages (pm (added b (pw h) pg s))) b h Free.
Proof using Type.
  clear HH. intros Hpg Hin x ->%list_elem_of_singleton. simpl. split; [rewrite lookup_insert_eq; eauto|].
  intros i Hi. destruct (decide (i = b)) as [->|]; [rewrite lookup_insert_eq; eauto|].
  rewrite lookup_insert_ne by lia. by apply Hin.
Qed.

Lemma near_entries h a b c c' v v' s s' : c = 2 * a ∨ c = 2 * a + 1 → c' = 2 * a ∨ c' = 2 * a + 1 →
  near h a b s s' → near h a b s (entry c v (entry c' v' s')).
Proof using Type.
  intros Hc Hc' Hn. do 2 (etransitivity; [|apply near_entry; eapply sub_child; [|apply sub_refl]; done]). done.
Qed.

Lemma sub_of_kids h a b l r rest s :
  kids_inv h a b l r rest s → segment s !! a = Some (Z.lor (bits h l) (bits h r)) → sub_inv (S h) a b (Node l r) rest s.
Proof using Type.
  intros [Hl Hr Hfl Hhl Hhr] Ha. split; [done|by rewrite Hfl, heads_node, app_assoc|].
  intros x. simpl. intros [Hx|Hx]%elem_of_app; [by apply Hhl|by apply Hhr].
Qed.

(** The loop of [buddy_init_segment] and the block that is added after it. *)
Definition fills (h : nat) (a b n : Z) (rest : list Z) (s : buddy) (R : res (Z * Z * buddy)) : Prop :=
  ∃ x m s1 s2, R = Ret ((x, m), s1) ∧
    when (0 <? m) (add_block (BUDDY_BEGIN (pw H) x) m) s1 = Ret (tt, s2) ∧
    near h a b s s2 ∧ nr_free (pm s2) = nr_free (pm s) ∧ sub_inv h a b (init_tree h n) rest s2.

Definition fill_pre (h : nat) (a b n : Z) (rest : list Z) (s : buddy) : Prop :=
  set_up s ∧ at_block H h a b ∧ 0 ≤ n ≤ pw h ∧ segment s !! a = Some n ∧ free_list (pm s) ≡ₚ rest ∧
  ∀ i, b ≤ i < b + n → is_Some (pages (pm s) !! (A + i)).

(** The left half is full: it becomes a block, and the rest goes to the right half. *)
Lemma fills_right h a b n rest s pg R :
  fill_pre (S h) a b n rest s → pw h < n < pw (S h) → pages (pm s) !! (A + b) = Some pg →
  let s' := entry (2 * a + 1) (n - pw h) (entry (2 * a) (pw h) (added b (pw h) pg s)) in
  (fill_pre h (2 * a + 1) (b + pw h) (n - pw h) (A + b :: rest) s' →
   fills h (2 * a + 1) (b + pw h) (n - pw h) (A + b :: rest) s' R) →
  fills (S h) a b n rest s R.
Proof using HH.
  intros (Hs & Hat & Hn & Hseg & Hl & Hin) Hr Hpg s' Hf. pose proof (at_range _ _ _ _ Hat) as [Ha _].
  pose proof (pw_S h). pose proof (pw_pos h).
  assert (near (S h) a b s s') as Hn1 by (apply near_entries; [by right|by left|by apply near_added]).
  destruct Hf as (x & m & s1 & s2 & -> & Hadd & Hn2 & Hnf & Hsub).
  { split_and!; [by eapply near_set_up|by apply at_right|lia|lia|by simpl; rewrite lookup_insert_eq|simpl; by rewrite Hl|].
    intros i Hi. simpl. rewrite lookup_insert_ne by lia. apply Hin. lia. }
  exists x, m, s1, s2. split_and!; [done|done|etransitivity; [done|by apply near_right]|done|].
  destruct (keep_left h a b Free s' s2) as [Hl2 Hh2]; [done|by apply near_outside| | |].
  { split; [|done]. simpl. rewrite lookup_insert_ne, lookup_insert_eq by lia. done. }
  { apply (added_heads h b pg s); [done|]. intros i Hi. apply Hin. lia. }
  destruct (init_tree_spec h (n - pw h)) as (_ & Hb & _); [lia|].
  cbn [init_tree]. rewrite (proj2 (Z.eqb_neq n 0)), (proj2 (Z.eqb_neq n (pw (S h)))), (proj2 (Z.ltb_lt (pw h) n)) by lia.
  apply sub_of_kids.
  - split; [done|apply Hsub| |done|apply Hsub]. rewrite (si_list _ _ _ _ _ _ Hsub). unfold heads at 2. simpl. solve_Permutation.
  - rewrite (nr_seg _ _ _ _ _ Hn2) by (intros Hx%sub_ge; lia). simpl. rewrite !lookup_insert_ne by lia.
    rewrite Hseg, Hb. simpl. rewrite lor_pw_add by lia. f_equal. lia.
Qed.

(** Nothing reaches the right half. *)
Lemma fills_left h a b n rest s R :
  fill_pre (S h) a b n rest s → 0 < n ≤ pw h →
  let s' := entry (2 * a + 1) 0 (entry (2 * a) n s) in
  (fill_pre h (2 * a) b n rest s' → fills h (2 * a) b n rest s' R) →
  fills (S h) a b n rest s R.
Proof using HH.
  intros (Hs & Hat & Hn & Hseg & Hl & Hin) Hr s' Hf. pose proof (at_range _ _ _ _ Hat) as [Ha _].
  pose proof (pw_S h). pose proof (pw_pos h).
  assert (near (S h) a b s s') as Hn1 by (apply near_entries; [by right|by left|by apply near_refl]).
  destruct Hf as (x & m & s1 & s2 & -> & Hadd & Hn2 & Hnf & Hsub).
  { split_and!; [by eapply near_set_up|by apply at_left|lia|lia| |done|done].
    simpl. by rewrite lookup_insert_ne, lookup_insert_eq by lia. }
  exists x, m, s1, s2. split_and!; [done|done|etransitivity; [done|by apply near_left]|done|].
  destruct (keep_right h a b Used s' s2) as [Hr2 Hh2]; [done|by apply near_outside| |by intros ? ?%elem_of_nil|].
  { split; [|done]. simpl. by rewrite lookup_insert_eq. }
  destruct (init_tree_spec h n) as (_ & Hb & _); [lia|].
  cbn [init_tree]. rewrite (proj2 (Z.eqb_neq n 0)), (proj2 (Z.eqb_neq n (pw (S h)))), (proj2 (Z.ltb_ge (pw h) n)) by lia.
  apply sub_of_kids.
  - split; [apply Hsub|done|apply Hsub|apply Hsub|done].
  - rewrite (nr_seg _ _ _ _ _ Hn2) by (intros Hx%sub_ge; lia). simpl. rewrite !lookup_insert_ne by lia.
    rewrite Hseg, Hb. by rewrite Z.lor_0_r.
Qed.

Lemma segment_run fuel : ∀ h a b n rest s,
  fill_pre h a b n rest s → (h < fuel)%nat → fills h a b n rest s (segment_loop fuel (pw H) a n (pw h) s).
Proof using HH.
  induction fuel as [|fuel IH]; [lia|]. intros h a b n rest s Hpre Hf. pose proof Hpre as (Hs & Hat & Hn & Hseg & Hl & Hin).
  cbn [segment_loop]. pose proof (at_range _ _ _ _ Hat) as Ha.
  destruct (decide (0 < n < pw h)) as [Hr|Hr].
  - rewrite (proj2 (Z.ltb_lt 0 n)), (proj2 (Z.ltb_lt n (pw h))) by lia. cbn [andb negb]. cbv zeta.
    destruct h as [|h]; [change (pw 0) with 1 in *; lia|].
    pose proof (at_range _ _ _ _ (at_right _ _ _ _ Hat)). pose proof (pw_u32 (S h) (at_height _ _ _ Hat)).
    pose proof (pw_S h). pose proof (pw_pos h). pose proof Hs as (_ & HA & Hd).
    rewrite pw_half, (at_LEFT _ _ _ _ Hat HH), (at_RIGHT _ _ _ _ Hat HH), (at_begin _ _ _ _ Hat HH).
    destruct (Z.ltb_spec (pw h) n).
    + destruct (Hin b) as [pg Hpg]; [lia|]. step_by (add_block_run b (pw h) s pg HA Hpg).
      step using (apply seg_set_run; [apply Hd; lia|lia]).
      step using (apply seg_set_run; [simpl; rewrite lookup_insert_ne by lia; apply Hd; lia|lia]).
      eapply fills_right; [done|lia|exact Hpg|]. intros Hp. apply IH; [exact Hp|lia].
    + step using (apply seg_set_run; [apply Hd; lia|lia]).
      step using (apply seg_set_run; [simpl; rewrite lookup_insert_ne by lia; apply Hd; lia|lia]).
      apply fills_left; [done|lia|]. intros Hp. apply IH; [exact Hp|lia].
  - exists a, n, s. assert (((0 <? n) && (n <? pw h)) = false) as -> by (apply andb_false_iff; rewrite !Z.ltb_ge; lia).
    cbn [negb]. destruct (decide (n = 0)) as [->|].
    + exists s. split_and!; [done|done|by apply near_refl|done|]. rewrite init_tree_used.
      split; [done|done|by intros ? ?%elem_of_nil].
    + assert (n = pw h) as -> by lia. destruct (Hin b) as [pg Hpg]; [lia|]. exists (added b (pw h) pg s).
      rewrite (proj2 (Z.ltb_lt 0 (pw h))), (at_begin _ _ _ _ Hat HH), init_tree_free by lia.
      split_and!; [done|apply add_block_run; [apply Hs|done]|by apply near_added|done|].
      split; [done|simpl; by rewrite Hl|by apply added_heads].
Qed.

(** The used block at [q] is put back: its entry, its descriptors and the free list. *)
Record put_back (k : nat) (x q : Z) (s s' : buddy) : Prop := {
  pb_consts : consts s' = consts s;
  pb_seg : segment s' = <[x := pw k]> (segment s);
  pb_list : free_list (pm s') = A + q :: free_list (pm s);
  pb_out : ∀ y, ¬ (A + q ≤ y < A + q + pw k) → pages (pm s') !! y = pages (pm s) !! y;
  pb_head : ∃ p, pages (pm s') !! (A + q) = Some p ∧ property p = pw k;
  pb_in : ∀ i, q ≤ i < q + pw k → is_Some (pages (pm s') !! (A + i)) }.

Lemma put_back_outside k h a b x q s s' :
  put_back k x q s s' → in_sub a x → b ≤ q ∧ q + pw k ≤ b + pw h → same_outside h a b s s'.
Proof using Type.
  intros [_ Hs _ Ho _ _] Hx Hq. split.
  - intros y Hy. rewrite Hs. apply lookup_insert_ne. by intros ->.
  - intros y Hy. apply Ho. clear HH. lia.
Qed.

Lemma same_outside_trans h a b s1 s2 s3 : same_outside h a b s1 s2 → same_outside h a b s2 s3 → same_outside h a b s1 s3.
Proof using Type. intros [S1 P1] [S2 P2]. split; intros; [rewrite S2, S1|rewrite P2, P1]; done. Qed.

Lemma release_run k x q t : at_block H k x q →
  ∀ h a b rest s s1, set_up s1 → at_block H h a b → rest_ok h b rest → sub_inv h a b t rest s →
  (q, pw k) ∈ uleaves b h t → put_back k x q s s1 →
  ∃ t' s3, (∀ f, merge_up (h - k + f) (pw H) x s1 = merge_up f (pw H) a s3) ∧ released k h b t t' q ∧
    near h a b s1 s3 ∧ nr_free (pm s3) = nr_free (pm s1) ∧ sub_inv h a b t' rest s3.
Proof using HH.
  intros Hx. induction t as [| |l IHl r IHr]; intros h a b rest s s1 Hs Hat Hrest Hsub Hin Hpb.
  - by apply elem_of_nil in Hin.
  - apply list_elem_of_singleton in Hin as [= -> Hpk]. apply pw_inj in Hpk as ->.
    assert (x = a) as -> by (rewrite <-(at_number _ _ _ _ Hx HH); apply (at_number _ _ _ _ Hat HH)).
    exists Free, s1. rewrite Nat.sub_diag. split_and!; [done|constructor|by apply near_refl|done|].
    destruct Hpb as [_ Hseg Hl _ Hhd Hall]. split.
    + split; [|done]. by rewrite Hseg, lookup_insert_eq.
    + rewrite Hl, (si_list _ _ _ _ _ _ Hsub). done.
    + intros y ->%list_elem_of_singleton. by split.
  - destruct h as [|h]; [by destruct (si_rep _ _ _ _ _ _ Hsub) as (_ & ? & _)|].
    pose proof (sub_kids _ _ _ _ _ _ _ Hsub) as Hk. pose proof (at_range _ _ _ _ Hat) as [Ha _].
    pose proof (rep_wf _ _ _ _ (ki_left _ _ _ _ _ _ _ Hk)) as Hwl.
    pose proof (rep_wf _ _ _ _ (ki_right _ _ _ _ _ _ _ Hk)) as Hwr.
    simpl in Hin. apply elem_of_app in Hin as [Hin|Hin].
    + pose proof (uleaves_range _ _ _ _ Hwl Hin) as Hq. simpl in Hq.
      assert (k ≤ h)%nat as Hkh by (apply pw_le_inv; lia).
      assert (in_sub (2 * a) x) as Hsx by (eapply at_sub; [exact Hx|by apply at_left|lia|lia]).
      destruct (IHl h (2 * a) b (heads (b + pw h) h r ++ rest) s s1) as (l' & s2 & Hrun & Hrel & Hn & Hnf & Hsub2);
        [done|by apply at_left|by apply rest_left|by apply kids_left|done|done|].
      destruct (keep_right h a b r s s2) as [Hr2 Hh2]; [done| |apply Hk..|].
      { eapply same_outside_trans; [eapply put_back_outside; [done|done|lia]|by apply near_outside]. }
      destruct (merge_step h a b (2 * a) l' r rest s2) as (s3 & Hstep & Hn3 & Hnf3 & Hsub3);
        [by eapply near_set_up|done|by left|done|split; [apply Hsub2|done|apply Hsub2|apply Hsub2|done]|].
      exists (join l' r), s3. split_and!; [|by constructor|etransitivity; [by apply near_left|done]|congruence|done].
      intros f. replace (S h - k + f)%nat with (h - k + S f)%nat by lia. by rewrite Hrun.
    + pose proof (uleaves_range _ _ _ _ Hwr Hin) as Hq. simpl in Hq.
      assert (k ≤ h)%nat as Hkh by (apply pw_le_inv; lia).
      assert (in_sub (2 * a + 1) x) as Hsx by (eapply at_sub; [exact Hx|by apply at_right|lia|lia]).
      destruct (IHr h (2 * a + 1) (b + pw h) (heads b h l ++ rest) s s1) as (r' & s2 & Hrun & Hrel & Hn & Hnf & Hsub2);
        [done|by apply at_right|by apply rest_right|by apply kids_right|done|done|].
      destruct (keep_left h a b l s s2) as [Hl2 Hh2]; [done| |apply Hk..|].
      { eapply same_outside_trans; [eapply put_back_outside; [done|done|lia]|by apply near_outside]. }
      destruct (merge_step h a b (2 * a + 1) l r' rest s2) as (s3 & Hstep & Hn3 & Hnf3 & Hsub3);
        [by eapply near_set_up|done|by right|done|
         split; [done|apply Hsub2|rewrite (si_list _ _ _ _ _ _ Hsub2); solve_Permutation|done|apply Hsub2]|].
      exists (join l r'), s3. split_and!; [|by constructor|etransitivity; [by apply near_right|done]|congruence|done].
      intros f. replace (S h - k + f)%nat with (h - k + S f)%nat by lia. by rewrite Hrun.
Qed.

End bounded.

End state.

(** * The manager *)

(** The state is that of a tree over [2 ^ H] frames: the entries, the free list and the descriptors
    say what the tree says, and free halves are joined. *)
Record buddy_inv (H : nat) (t : tree) (s : buddy) : Prop := {
  bi_height : (H ≤ 31)%nat;
  bi_set : set_up (buddy_alloc s) H s;
  bi_sub : sub_inv (buddy_alloc s) H 1 0 t [] s;
  bi_joined : joined t;
  bi_count : nr_free (pm s) = total (fblocks 0 H t) }.

Lemma bi_wf H t s : buddy_inv H t s → wf H t.
Proof. intros Hi. eapply rep_wf, si_rep, bi_sub, Hi. Qed.

Lemma rest_nil A h b : rest_ok A h b [].
Proof. split; [constructor|]. by intros y ?%elem_of_nil. Qed.

(** The request in powers of two. *)
Lemma ROUND_UP_pw n : 0 < n ≤ 2 ^ 31 → UINT32_ROUND_UP n = pw (Z.to_nat (Z.log2_up n)) ∧ n ≤ UINT32_ROUND_UP n.
Proof.
  intros Hn. pose proof (Z.log2_up_nonneg n). rewrite UINT32_ROUND_UP_spec by done. unfold pw.
  rewrite Z2Nat.id by done. split; [done|]. destruct (decide (n = 1)) as [->|]; [done|].
  apply Z.log2_up_spec. lia.
Qed.

Lemma find_none f V L a x s : segment s !! a = Some x → x < L → find_loop (S f) V L a s = Ret (a, s).
Proof. intros Ha Hx. cbn [find_loop]. step_by (seg_at_run _ _ _ Ha). by rewrite (proj2 (Z.leb_gt L x)). Qed.

Lemma update_root f s : (0 < f)%nat → update_loop f 1 s = Ret (tt, s).
Proof. destruct f; [lia|done]. Qed.

Lemma alloc_found H t s n k : buddy_inv H t s → 0 < n → UINT32_ROUND_UP n = pw k → pw k ≤ bits H t →
  ∃ q t' s', buddy_alloc_pages n s = Ret (Some (buddy_alloc s + q), s') ∧ taken k H 0 t t' q ∧
    buddy_inv H t' s' ∧ near (buddy_alloc s) H 1 0 s s'.
Proof.
  intros Hi Hn Hup Hk. destruct Hi as [HH Hset Hsub Hj Hcount]. set (A := buddy_alloc s) in *.
  destruct (find_run A H HH k H 1 0 t [] s loop_fuel Hset (at_root H) (rest_nil _ _ _) Hsub) as
    (x & q & t' & s1 & Hfind & Hx & Ht & Hseg & Hn1 & Hnf1 & Hupd); [unfold loop_fuel; lia|done|].
  pose proof (rep_wf _ _ _ _ (si_rep _ _ _ _ _ _ _ Hsub)) as Hw.
  pose proof (near_set_up _ _ _ _ _ _ _ Hn1 Hset) as (HV1 & HA1 & Hd1).
  destruct (Hupd (nr_free (pm s) - pw k)) as (s3 & Hrun & Hn3 & Hnf3 & Hsub3).
  pose proof (taken_total _ _ _ _ _ _ Ht) as Htot. pose proof (total_nonneg _ 0 _ (taken_wf _ _ _ _ _ _ Ht Hw)).
  pose proof (total_nonneg _ 0 _ Hw). pose proof (pw_u32 H HH H (le_n _)). pose proof (pw_pos k).
  exists q, t', s3. split_and!; [|done| |done].
  - unfold buddy_alloc_pages. rewrite (proj2 (Z.ltb_lt _ _) Hn). step using done. step using done. cbv beta zeta.
    rewrite (proj1 Hset), Hup. step using (exact Hfind). step using (apply seg_at_run, Hseg).
    rewrite Z.ltb_irrefl. step using done. cbv beta zeta. rewrite HA1, (at_begin _ _ _ _ Hx HH).
    step using (by apply in_pm_run).
    step using (apply seg_set_run; [apply Hd1, (at_range _ _ _ _ Hx)|lia]).
    step using (by apply in_pm_run). simpl pm. cbn [nr_free set_nr_free set_free_list].
    replace (u32 (nr_free (pm s1) - pw k)) with (nr_free (pm s) - pw k) by (rewrite Hnf1, u32_small; lia).
    step using (rewrite <-(update_root (loop_fuel - (H - k)) s3) by (unfold loop_fuel; lia); rewrite <-Hrun;
      replace (H - k + (loop_fuel - (H - k)))%nat with loop_fuel by (unfold loop_fuel; lia); reflexivity). done.
  - pose proof (near_set_up _ _ _ _ _ _ _ Hn3 Hset) as Hset3.
    assert (buddy_alloc s3 = A) as HA3 by apply Hset3. split; rewrite ?HA3; [done|done|done| |lia].
    apply (taken_joined _ _ _ _ _ _ Ht). by left.
Qed.

(** C18: [buddy_alloc_pages] rounds the request up to a power of two.  When it answers a page, that is the
    start of an aligned block of that length, all of whose frames were free; exactly these frames leave the
    free set, the block is added to the used ones, and the reference counts and reservations stand.  It
    answers [NULL] only when no free block is that long, and then changes nothing. *)
Theorem buddy_alloc_correct H t s n : buddy_inv H t s → 0 < n ≤ 2 ^ 31 →
  ∃ r s', buddy_alloc_pages n s = Ret (r, s') ∧
    let L := 2 ^ Z.log2_up n in
    match r with
    | Some p => ∃ t' q, p = buddy_alloc s + q ∧ buddy_inv H t' s' ∧ buddy_alloc s' = buddy_alloc s ∧
        n ≤ L ∧ (L | q) ∧ frames (q, L) ⊆ tfree H 0 t ∧ tfree H 0 t' = tfree H 0 t ∖ frames (q, L) ∧
        uleaves 0 H t' ≡ₚ (q, L) :: uleaves 0 H t ∧ same_status (pages (pm s)) (pages (pm s'))
    | None => s' = s ∧ ∀ x, x ∈ fblocks 0 H t → x.2 < L
    end.
Proof.
  intros Hi Hn. destruct (ROUND_UP_pw n Hn) as [Hup Hle]. cbv zeta. rewrite <-(UINT32_ROUND_UP_spec n Hn).
  set (k := Z.to_nat (Z.log2_up n)) in *. rewrite Hup in *. pose proof (bi_wf _ _ _ Hi) as Hw.
  destruct (decide (pw k ≤ bits H t)) as [Hk|Hk].
  - destruct (alloc_found H t s n k Hi ltac:(lia) Hup Hk) as (q & t' & s' & Hrun & Ht & Hi' & Hnear).
    eexists _, _. split; [exact Hrun|]. exists t', q. destruct (taken_free _ _ _ _ _ _ Ht Hw).
    split_and!; try done.
    + destruct Hnear as [Hc _ _ _ _]. unfold consts in Hc. congruence.
    + eapply taken_aligned; [exact Ht|apply Z.divide_0_r].
    + by eapply taken_used.
    + apply Hnear.
  - exists None, s. split; [|split; [done|]].
    + destruct Hi as [HH [HV _] Hsub _ _]. unfold buddy_alloc_pages. rewrite (proj2 (Z.ltb_lt 0 n)) by lia.
      step using done. step using done. cbv beta zeta. rewrite HV, Hup. pose proof (rep_at _ _ _ _ (si_rep _ _ _ _ _ _ _ Hsub)) as Hat.
      step_by (find_none 32 (pw H) (pw k) _ _ _ Hat ltac:(lia)). step_by (seg_at_run _ _ _ Hat).
      rewrite (proj2 (Z.ltb_lt (bits H t) (pw k))) by lia. done.
    + intros x Hx. pose proof (fblocks_le_bits _ _ _ _ Hw Hx). lia.
Qed.

(** The loop and the assignments of [buddy_free_pages] before the merging. *)
Lemma free_put_back H s n k x q :
  set_up (buddy_alloc s) H s → at_block H k x q → (H ≤ 31)%nat → 0 < n ≤ pw k → UINT32_ROUND_UP n = pw k →
  (∀ i, q ≤ i < q + pw k → ∃ pg, pages (pm s) !! (buddy_alloc s + i) = Some pg ∧ PageReserved pg = false) →
  ∃ s1, buddy_free_pages (buddy_alloc s + q) n s = merge_up loop_fuel (pw H) x s1 ∧
    put_back (buddy_alloc s) k x q s s1 ∧ nr_free (pm s1) = u32 (nr_free (pm s) + pw k) ∧
    (∀ y, status <$> pages (pm s1) !! y =
      if decide (buddy_alloc s + q ≤ y < buddy_alloc s + q + n) then Some (false, 0) else status <$> pages (pm s) !! y).
Proof.
  intros (HV & _ & Hd) Hx HH Hn Hup Hpg. set (A := buddy_alloc s) in *. pose proof (pw_pos k).
  pose proof (pw_u32 H HH k (at_height _ _ _ _ Hx)).
  destruct (for_pages_run (λ p, negb (PageReserved p)) (λ p, set_page_ref (set_flags p 0) 0) (Z.to_nat n) (A + q) (pm s)) as (pgs & Hrun & Hpgs).
  { intros i Hi. destruct (Hpg (i - A)) as (pg & Hp & Hr); [lia|]. exists pg. rewrite Hr.
    by replace (A + (i - A)) with i in Hp by lia. }
  destruct (Hpg q) as (pg & Hp & Hr); [lia|]. rewrite Z2Nat.id in Hpgs by lia.
  set (pg1 := set_page_ref (set_flags pg 0) 0).
  assert (pgs !! (A + q) = Some pg1) as Hp1 by (rewrite Hpgs, decide_True, Hp by lia; done).
  eexists. split; [|split; [|split]].
  - unfold buddy_free_pages. rewrite (proj2 (Z.ltb_lt 0 n)) by lia. step using done. step using done. step using done.
    cbv beta zeta. fold A. rewrite HV, Hup. replace (A + q - A) with q by lia. rewrite (at_number _ _ _ _ Hx HH).
    step_by (in_pm_run _ _ _ _ Hrun). step using (apply in_pm_run, page_upd_run; exact Hp1).
    step using (apply in_pm_run, page_upd_run; simpl; apply lookup_insert_eq).
    step using (by apply in_pm_run). step using (by apply in_pm_run).
    step using (apply seg_set_run; [apply Hd, (at_range _ _ _ _ Hx)|lia]). reflexivity.
  - split; simpl; [done|done|done|..].
    + intros y Hy. rewrite !lookup_insert_ne by lia. rewrite Hpgs. by rewrite decide_False by lia.
    + rewrite lookup_insert_eq. eauto.
    + intros i Hi. destruct (decide (i = q)) as [->|]; [rewrite lookup_insert_eq; eauto|].
      rewrite !lookup_insert_ne by lia. rewrite Hpgs. destruct (Hpg i Hi) as (pi & Hpi & _). case_decide; rewrite Hpi; eauto.
  - done.
  - intros y. simpl. destruct (decide (y = A + q)) as [->|Hy].
    + rewrite lookup_insert_eq, decide_True by lia. done.
    + rewrite !lookup_insert_ne by done. rewrite Hpgs. case_decide; [|done].
      destruct (Hpg (y - A)) as (pi & Hpi & _); [lia|]. replace (A + (y - A)) with y in Hpi by lia. by rewrite Hpi.
Qed.

Lemma merge_root f V s : (0 < f)%nat → merge_up f V 1 s = Ret (tt, s).
Proof. destruct f; [lia|done]. Qed.

(** C19: [buddy_free_pages] of a used block, with a length that rounds up to that of the block: its frames
    become free and no others, its reference counts are reset, free halves are joined all the way up, and the
    count of free frames grows by the length of the block. *)
Theorem buddy_free_correct H t s q n :
  let L := 2 ^ Z.log2_up n in
  buddy_inv H t s → 0 < n ≤ 2 ^ 31 → (q, L) ∈ uleaves 0 H t →
  (∀ i, q ≤ i < q + L → ∃ pg, pages (pm s) !! (buddy_alloc s + i) = Some pg ∧ PageReserved pg = false) →
  ∃ t' s', buddy_free_pages (buddy_alloc s + q) n s = Ret (tt, s') ∧ buddy_inv H t' s' ∧
    buddy_alloc s' = buddy_alloc s ∧
    tfree H 0 t' = tfree H 0 t ∪ frames (q, L) ∧ (q, L) :: uleaves 0 H t' ≡ₚ uleaves 0 H t ∧
    nr_free (pm s') = nr_free (pm s) + L ∧
    (∀ y, status <$> pages (pm s') !! y =
      if decide (buddy_alloc s + q ≤ y < buddy_alloc s + q + n) then Some (false, 0) else status <$> pages (pm s) !! y).
Proof.
  cbv zeta. intros Hi Hn. destruct (ROUND_UP_pw n Hn) as [Hup Hle]. rewrite <-(UINT32_ROUND_UP_spec n Hn).
  set (k := Z.to_nat (Z.log2_up n)) in *. rewrite Hup in *. intros Hq Hpg. pose proof (bi_wf _ _ _ Hi) as Hw.
  destruct Hi as [HH Hset Hsub Hj Hcount].
  destruct (uleaves_at H k q t H 1 0 (at_root H) Hw Hq) as [x Hx].
  destruct (free_put_back H s n k x q Hset Hx HH ltac:(lia) Hup Hpg) as (s1 & Hrun & Hpb & Hnf & Hst).
  assert (set_up (buddy_alloc s) H s1) as Hset1.
  { destruct Hset as (? & ? & Hd). destruct Hpb as [Hc Hseg _ _ _ _]. unfold consts in Hc. split_and!; [congruence..|].
    intros y Hy. rewrite Hseg. destruct (decide (y = x)) as [->|]; [rewrite lookup_insert_eq; eauto|].
    rewrite lookup_insert_ne by done. auto. }
  destruct (release_run _ H HH k x q t Hx H 1 0 [] s s1 Hset1 (at_root H) (rest_nil _ _ _) Hsub Hq Hpb)
    as (t' & s3 & Hm & Hrel & Hn3 & Hnf3 & Hsub3).
  pose proof (released_total _ _ _ _ _ _ Hrel) as Htot. pose proof (total_nonneg _ 0 _ (released_wf _ _ _ _ _ _ Hrel Hw)).
  pose proof (total_nonneg _ 0 _ Hw). pose proof (pw_u32 H HH H (le_n _)). pose proof (pw_pos k).
  rewrite u32_small in Hnf by lia. pose proof (near_set_up _ _ _ _ _ _ _ Hn3 Hset1) as Hset3.
  assert (buddy_alloc s3 = buddy_alloc s) as HA3 by apply Hset3.
  exists t', s3. split_and!.
  - rewrite Hrun. replace loop_fuel with (H - k + (loop_fuel - (H - k)))%nat by (unfold loop_fuel; lia).
    rewrite Hm. apply merge_root. unfold loop_fuel. lia.
  - split; rewrite ?HA3; [done|done|done|by eapply released_joined|lia].
  - done.
  - by eapply released_free.
  - by eapply released_used.
  - lia.
  - intros y. rewrite <-Hst. apply Hn3.
Qed.

(** The sizes computed for [n] frames: the tree spans [v = 2 ^ H] frames, its [2 * v] entries fill the [g]
    pages before the frames to give out, and no more frames are given out than there are. *)
Definition sizes_ok (n : Z) (H : nat) (v g a : Z) : Prop :=
  (H ≤ 31)%nat ∧ v = pw H ∧ 0 < g ∧ 2 * v ≤ g * 1024 ∧ 0 < a ≤ v ∧ g + a ≤ n.

Lemma init_size_run n s : 1 < n ≤ max_frames →
  ∃ H v g a, buddy_init_size n s = Ret (tt, set_sizes s n v g a) ∧ sizes_ok n H v g a.
Proof.
  intros Hn. unfold max_frames in Hn. unfold buddy_init_size. rewrite (proj2 (Z.ltb_lt 1 n)) by lia. step using done.
  destruct (Z.ltb_spec n 512) as [Hs|Hs].
  - destruct (ROUND_UP_pw (n - 1)) as [Hup Hle]; [lia|]. set (k := Z.to_nat _) in *.
    assert (k ≤ 9)%nat as Hk.
    { unfold k. enough (Z.log2_up (n - 1) ≤ 9) by lia. change 9 with (Z.log2_up 512). apply Z.log2_up_le_mono. lia. }
    apply pw_le in Hk as Hk9. change (pw 9) with 512 in Hk9. rewrite Hup in *.
    exists k, (pw k), 1, (Z.min (pw k) (n - 1)). split; [done|]. unfold sizes_ok. lia.
  - rewrite UINT32_ROUND_DOWN_spec by lia. pose proof (Z.log2_spec n ltac:(lia)) as Hl. rewrite Z.pow_succ_r in Hl by apply Z.log2_nonneg.
    set (e := Z.log2 n) in *. assert (9 ≤ e) as H9 by (change 9 with (Z.log2 512); apply Z.log2_le_mono; lia).
    assert (e ≤ 20) as H20 by (change 20 with (Z.log2 (2 ^ 20)); apply Z.log2_le_mono; lia).
    assert (2 ^ e = 2 ^ (e - 9) * 512) as E by (change 512 with (2 ^ 9); rewrite <-Z.pow_add_r by lia; f_equal; lia).
    assert (1 ≤ 2 ^ (e - 9)) by (apply (Z.pow_le_mono_r 2 0); lia).
    assert (2 ^ e ≤ 2 ^ 20) by (apply Z.pow_le_mono_r; lia).
    assert (2 ^ e * 4 * 2 / PGSIZE = 2 ^ (e - 9)) as ->.
    { rewrite E. unfold PGSIZE. replace (2 ^ (e - 9) * 512 * 4 * 2) with (2 ^ (e - 9) * 4096) by lia. apply Z.div_mul. lia. }
    rewrite !Z.shiftl_mul_pow2 by lia. change (2 ^ 1) with 2. rewrite !u32_small by lia. cbv zeta.
    assert (pw (Z.to_nat e) = 2 ^ e) as Ep by (unfold pw; f_equal; lia).
    destruct (Z.ltb_spec (2 ^ e + 2 ^ (e - 9) * 2) n).
    + eexists (S (Z.to_nat e)), _, _, _. split; [reflexivity|]. unfold sizes_ok. rewrite pw_S, Ep. lia.
    + eexists (Z.to_nat e), _, _, _. split; [reflexivity|]. unfold sizes_ok. rewrite Ep. lia.
Qed.

Lemma init_segment_run H base n s :
  sizes_ok n H (virtual_size s) (segment_size s) (alloc_size s) → n ≤ max_frames →
  free_list (pm s) = [] → nr_free (pm s) = 0 → (∀ i, base ≤ i < base + n → is_Some (pages (pm s) !! i)) →
  ∃ s', buddy_init_segment base s = Ret (tt, s') ∧ buddy_inv H (init_tree H (alloc_size s)) s' ∧
    buddy_alloc s' = base + segment_size s ∧ alloc_size s' = alloc_size s ∧ same_status (pages (pm s)) (pages (pm s')).
Proof.
  intros (HH & HV & Hg & Hseg & Ha & Hsum) Hmax Hl Hnf Hpg. unfold max_frames in Hmax.
  set (A := base + segment_size s). set (g0 := list_to_map ((λ i, (i, 0)) <$> seqZ 0 (segment_size s * 1024)) : gmap Z Z).
  set (s0 := set_bases (set_segment s g0) base A).
  assert (∀ x, 0 < x < pw (S H) → is_Some (g0 !! x)) as Hg0.
  { intros x Hx. exists 0. apply elem_of_list_to_map_1; [|apply list_elem_of_fmap; exists x; split; [done|apply elem_of_seqZ; rewrite pw_S in Hx; lia]].
    rewrite <-list_fmap_compose. unfold compose. simpl. rewrite list_fmap_id. apply NoDup_seqZ. }
  set (s1 := entry 1 (alloc_size s) (set_pm s0 (set_nr_free (pm s) (alloc_size s)))).
  destruct (init_tree_spec H (alloc_size s)) as (Hw & Hb & Hj & _ & Hfr); [lia|].
  destruct (segment_run A H HH loop_fuel H 1 0 (alloc_size s) [] s1) as (x & m & s2 & s3 & Hrun & Hadd & Hn & Hnf3 & Hsub).
  { split_and!; [|apply at_root|lia|lia|by simpl; rewrite lookup_insert_eq|by simpl; rewrite Hl|].
    - split_and!; [done|done|]. intros y Hy. simpl. destruct (decide (y = 1)) as [->|]; [rewrite lookup_insert_eq; eauto|].
      rewrite lookup_insert_ne by done. by apply Hg0.
    - intros i Hi. simpl. apply Hpg. unfold A. lia. }
  { unfold loop_fuel. lia. }
  assert (set_up A H s1) as Hset1.
  { split_and!; [done|done|]. intros y Hy. simpl. destruct (decide (y = 1)) as [->|]; [rewrite lookup_insert_eq; eauto|].
    rewrite lookup_insert_ne by done. by apply Hg0. }
  pose proof (near_set_up _ _ _ _ _ _ _ Hn Hset1) as Hset3. assert (buddy_alloc s3 = A) as HA3 by apply Hset3.
  exists s3. split_and!.
  - unfold buddy_init_segment. step using done. cbv beta. step using done. cbv beta zeta.
    step using (by apply in_pm_run). simpl pm. rewrite Hnf, Z.add_0_l, u32_small by lia.
    step using (apply seg_set_run; [simpl; apply Hg0; rewrite pw_S; pose proof (pw_pos H); unfold BUDDY_ROOT; lia|lia]).
    rewrite HV. step_by Hrun. exact Hadd.
  - split; rewrite ?HA3; [done|done|done|done|]. rewrite Hnf3. simpl.
    by rewrite init_tree_total by lia.
  - done.
  - destruct Hn as [Hc _ _ _ _]. unfold consts in Hc. simpl in Hc. congruence.
  - apply Hn.
Qed.

(** [buddy_init_memmap] of [n] reserved frames sets up the manager: the entries of its tree fit in the
    pages set aside at the start, every frame after those up to [buddy_alloc_size] is free, none beyond the
    memory, and the descriptors are no longer reserved. *)
Theorem buddy_init_memmap_correct base n s :
  1 < n ≤ max_frames → free_list (pm s) = [] → nr_free (pm s) = 0 →
  (∀ i, base ≤ i < base + n → ∃ pg, pages (pm s) !! i = Some pg ∧ PageReserved pg = true) →
  ∃ H t s', buddy_init_memmap base n s = Ret (tt, s') ∧ buddy_inv H t s' ∧
    tfree H 0 t = frames (0, alloc_size s') ∧ 0 < alloc_size s' ∧ base < buddy_alloc s' ∧
    buddy_alloc s' + alloc_size s' ≤ base + n ∧ 2 ^ Z.of_nat H * 2 * 4 ≤ (buddy_alloc s' - base) * PGSIZE ∧
    (∀ i, base ≤ i < base + n → ∃ pg, pages (pm s') !! i = Some pg ∧ PageReserved pg = false).
Proof.
  intros Hn Hl Hnf Hpg. unfold buddy_init_memmap. rewrite (proj2 (Z.ltb_lt 0 n)) by lia.
  destruct (for_pages_run PageReserved (λ p, set_property (set_flags p 0) 0) (Z.to_nat n) base (pm s)) as (pgs & Hrun & Hpgs).
  { intros i Hi. apply Hpg. lia. }
  rewrite Z2Nat.id in Hpgs by lia. set (s1 := set_pm s (set_pages (pm s) pgs)).
  assert (∀ i, base ≤ i < base + n → ∃ pg, pgs !! i = Some pg ∧ status pg = (false, ref pg)) as Hp1.
  { intros i Hi. destruct (Hpg i Hi) as (pg & Hp & _). rewrite Hpgs, decide_True, Hp by done. eexists. split; [done|]. done. }
  destruct (init_size_run n s1 Hn) as (H & v & g & a & Hsize & Hok).
  destruct (init_segment_run H base n (set_sizes s1 n v g a)) as (s' & Hseg & Hi & HA & Has & Hst); simpl; [done|lia|done|done| |].
  { intros i Hi. destruct (Hp1 i Hi) as (pg & -> & _). eauto. }
  exists H, (init_tree H a), s'. destruct Hok as (_ & Hv & Hg & Hfit & Ha & Hsum). simpl in *. fold (pw H). rewrite <-Hv.
  split_and!; [|done| |lia|lia|lia|unfold PGSIZE; lia|].
  - step using done. step_by (in_pm_run _ _ _ _ Hrun). step_by Hsize. exact Hseg.
  - rewrite Has. apply init_tree_spec. lia.
  - intros i Hir. destruct (Hp1 i Hir) as (pg & Hp & Hs). specialize (Hst i). rewrite Hp in Hst. simpl in Hst.
    destruct (pages (pm s') !! i) as [pg'|]; [|done]. exists pg'. split; [done|]. simpl in Hst. unfold status in *. congruence.
Qed.

(** * Witnesses *)

(** Four frames after one page of entries, all in one free block. *)
Definition demo_pages (f : Z) : gmap Z Page :=
  list_to_map ((λ i, (i, mkPage 0 f (if i =? 1 then 4 else 0))) <$> seqZ 0 8).
Definition demo_seg (l : list Z) : gmap Z Z := list_to_map (imap (λ i x, (Z.of_nat i, x)) l).
Definition demo (l : list Z) (fl : list Z) (nf : Z) : buddy :=
  mkBuddy (mkPmm (demo_pages 0) fl nf) (demo_seg l) 5 4 1 4 0 1.
Definition demo_free : buddy := demo [0; 4; 0; 0; 0; 0; 0; 0] [1] 4.
Definition demo_used : buddy := demo [0; 0; 0; 0; 0; 0; 0; 0] [] 0.

Lemma demo_set_up l fl nf : length l = 8%nat → set_up 1 2 (demo l fl nf).
Proof.
  intros Hl. split_and!; [done|done|]. intros x Hx. change (pw 3) with 8 in Hx.
  do 9 (destruct l as [|? l]; try done). simpl.
  assert (x = 1 ∨ x = 2 ∨ x = 3 ∨ x = 4 ∨ x = 5 ∨ x = 6 ∨ x = 7) as Hc by lia.
  destruct_or! Hc; subst x; eauto.
Qed.

Lemma free_demo_inv : buddy_inv 2 Free demo_free.
Proof.
  split; [lia|by apply demo_set_up| |done|done]. split; [done|done|].
  intros x ->%list_elem_of_singleton. simpl. change (pw 2) with 4. split; [eauto|]. intros i Hi.
  assert (i = 0 ∨ i = 1 ∨ i = 2 ∨ i = 3) as Hc by lia. destruct_or! Hc; subst i; eauto.
Qed.

Lemma used_demo_inv : buddy_inv 2 Used demo_used.
Proof.
  split; [lia|by apply demo_set_up| |done|done]. split; [done|done|]. by intros x ?%elem_of_nil.
Qed.

Lemma buddy_alloc_correct_witness : ∃ r s', buddy_alloc_pages 1 demo_free = Ret (r, s') ∧
  match r with
  | Some p => ∃ t' q, p = 1 + q ∧ buddy_inv 2 t' s' ∧ buddy_alloc s' = 1 ∧ 1 ≤ 1 ∧ (1 | q) ∧
      frames (q, 1) ⊆ tfree 2 0 Free ∧ tfree 2 0 t' = tfree 2 0 Free ∖ frames (q, 1) ∧
      uleaves 0 2 t' ≡ₚ [(q, 1)] ∧ same_status (pages (pm demo_free)) (pages (pm s'))
  | None => s' = demo_free ∧ ∀ x, x ∈ fblocks 0 2 Free → x.2 < 1
  end.
Proof. apply (buddy_alloc_correct 2 Free demo_free 1); [exact free_demo_inv|lia]. Defined.

Lemma buddy_free_correct_witness : ∃ t' s', buddy_free_pages 1 3 demo_used = Ret (tt, s') ∧ buddy_inv 2 t' s' ∧
  tfree 2 0 t' = tfree 2 0 Used ∪ frames (0, 4) ∧ nr_free (pm s') = 4.
Proof.
  destruct (buddy_free_correct 2 Used demo_used 0 3) as (t' & s' & Hr & Hi & _ & Hf & _ & Hn & _).
  - exact used_demo_inv.
  - lia.
  - by apply list_elem_of_singleton.
  - change (2 ^ Z.log2_up 3) with 4. intros i Hi. assert (i = 0 ∨ i = 1 ∨ i = 2 ∨ i = 3) as Hc by lia.
    destruct_or! Hc; subst i; eexists; done.
  - exists t', s'. split_and!; [exact Hr|exact Hi|exact Hf|exact Hn].
Defined.

Definition demo_start : buddy := mkBuddy (mkPmm (demo_pages 1) [] 0) ∅ 0 0 0 0 0 0.

Lemma buddy_init_memmap_correct_witness : ∃ H t s', buddy_init_memmap 0 8 demo_start = Ret (tt, s') ∧ buddy_inv H t s' ∧
  tfree H 0 t = frames (0, alloc_size s') ∧ 0 < alloc_size s'.
Proof.
  destruct (buddy_init_memmap_correct 0 8 demo_start) as (H & t & s' & Hr & Hi & Hf & Ha & _).
  - unfold max_frames. lia.
  - done.
  - done.
  - intros i Hi. assert (i = 0 ∨ i = 1 ∨ i = 2 ∨ i = 3 ∨ i = 4 ∨ i = 5 ∨ i = 6 ∨ i = 7) as Hc by lia.
    destruct_or! Hc; subst i; eexists; done.
  - exists H, t, s'. split_and!; [exact Hr|exact Hi|exact Hf|exact Ha].
Defined.

(** One frame of four: the block is split twice. *)
Example buddy_alloc_split : match buddy_alloc_pages 1 demo_free with
  | Ret (Some 1, s') => free_list (pm s') = [2; 3] ∧ nr_free (pm s') = 3 ∧ segment s' !! 1 = Some 3
  | _ => False
  end.
Proof. vm_compute. repeat split. Qed.

(** The self tests pass and leave the manager as it was. *)
Example buddy_self_tests : (macro_check ;; size_check ;; segment_check) demo_free = Ret (tt, demo_free).
Proof. vm_compute. reflexivity. Qed.

End Buddy.
