(* ===== verification/PageTable.v ===== *)
(** Two-level page tables: kern/mm/pmm.c (get_pte, get_page, page_remove_pte, page_remove,
    page_insert, tlb_invalidate, unmap_range, exit_range, copy_range, pgdir_alloc_page,
    boot_map_segment) with the address macros of kern/mm/mmu.h and kern/mm/pmm.h.

    Everything is proved against the interface of PmmManager.v.  Physical memory is read and written
    by frame and word; a [pte_t *] is such a pair, and a page directory is the frame that holds it.
    The TLB is the set of translations the processor has cached for the directory in cr3. *)
From S2P Require Import Prelude Frames PmmManager FitAlloc.

Module PageTable.
Set Default Proof Using "Type".
Import Frames PmmManager.

(** * kern/mm/mmu.h *)

Definition PDX (la : Z) : Z := Z.land (Z.shiftr la 22) 0x3FF.
Definition PTX (la : Z) : Z := Z.land (Z.shiftr la 12) 0x3FF.
Definition PPN (la : Z) : Z := Z.shiftr la 12.
Definition PGOFF (la : Z) : Z := Z.land la 0xFFF.
Definition PTE_ADDR (pte : Z) : Z := Z.ldiff pte 0xFFF.
Definition PDE_ADDR (pde : Z) : Z := PTE_ADDR pde.
Definition PTE_P : Z := 1.
Definition PTE_W : Z := 2.
Definition PTE_U : Z := 4.
Definition PTE_USER : Z := 7.

(** [USER_ACCESS] of kern/mm/memlayout.h. *)
Definition USERBASE : Z := 0x00200000.
Definition USERTOP : Z := 0xB0000000.
Definition KERNBASE : Z := 0xC0000000.
Definition USER_ACCESS (start end_ : Z) : bool :=
  (USERBASE <=? start) && (start <? end_) && (end_ <=? USERTOP).

(** [x & PTE_P]. *)
Definition present (x : Z) : bool := negb (Z.land x PTE_P =? 0).

Definition page2pa (page : Z) : Z := Z.shiftl page 12.

(** The frame an entry designates: [PPN(PTE_ADDR(pte))]. *)
Definition frame_of (x : Z) : Z := PPN (PTE_ADDR x).

Lemma frame_of_shiftr x : frame_of x = Z.shiftr x 12.
Proof.
  unfold frame_of, PPN, PTE_ADDR. apply Z.bits_inj'. intros n Hn.
  rewrite !Z.shiftr_spec, Z.ldiff_spec by done. change 0xFFF with (Z.ones 12).
  rewrite Z.ones_spec_high by lia. by rewrite andb_true_r.
Qed.

Lemma frame_of_entry p a b : 0 ≤ a < 4096 → 0 ≤ b < 4096 →
  frame_of (Z.lor (Z.lor (page2pa p) a) b) = p.
Proof.
  intros Ha Hb. rewrite frame_of_shiftr. unfold page2pa. rewrite !Z.shiftr_lor.
  rewrite Z.shiftr_shiftl_l, Z.shiftl_0_r by lia.
  rewrite !(Z.shiftr_div_pow2 _ 12) by lia.
  rewrite (Z.div_small a), (Z.div_small b) by lia. by rewrite !Z.lor_0_r.
Qed.

Lemma PPN_page2pa p : PPN (page2pa p) = p.
Proof. unfold PPN, page2pa. rewrite Z.shiftr_shiftl_l by lia. apply Z.shiftl_0_r. Qed.

Lemma present_testbit x : present x = Z.testbit x 0.
Proof.
  unfold present, PTE_P. change 1 with (Z.ones 1). rewrite Z.land_ones by lia. change (2 ^ 1) with 2.
  rewrite Z.bit0_odd, Zmod_odd. by destruct (Z.odd x).
Qed.

Lemma present_entry x y : present (Z.lor (Z.lor x PTE_P) y) = true.
Proof. rewrite present_testbit, !Z.lor_spec. simpl. by rewrite orb_true_r. Qed.
Lemma present_last x : present (Z.lor x PTE_P) = true.
Proof. rewrite present_testbit, Z.lor_spec. simpl. by rewrite orb_true_r. Qed.
Lemma present_0 : present 0 = false.
Proof. done. Qed.

(** The page number of a linear address splits into the two table indices. *)
Definition vpn (la : Z) : Z := la / 4096.

Lemma PDX_vpn la : is_u32 la → PDX la = vpn la / 1024.
Proof.
  intros Hla. unfold PDX, vpn. change 0x3FF with (Z.ones 10).
  rewrite Z.land_ones, Z.shiftr_div_pow2 by lia. rewrite Z.div_div by lia.
  change (2 ^ 22) with (4096 * 1024). apply Z.mod_small.
  split; [apply Z.div_pos; lia|]. apply Z.div_lt_upper_bound; lia.
Qed.
Lemma PTX_vpn la : PTX la = vpn la mod 1024.
Proof.
  unfold PTX, vpn. change 0x3FF with (Z.ones 10). rewrite Z.land_ones, Z.shiftr_div_pow2 by lia. done.
Qed.
Lemma PPN_vpn la : PPN la = vpn la.
Proof. unfold PPN, vpn. by rewrite Z.shiftr_div_pow2 by lia. Qed.

(** Entry [x] maps frame [f]. *)
Definition maps (x f : Z) : Prop := present x = true ∧ frame_of x = f.
#[global] Instance maps_dec x f : Decision (maps x f).
Proof. unfold maps. apply _. Defined.

(** The number of pages of [l] that [g] maps to frame [f]. *)
Definition count (g : Z → Z) (f : Z) (l : list Z) : Z :=
  Z.of_nat (length (filter (λ v, maps (g v) f) l)).

Lemma count_ext g g' f l : (∀ v, v ∈ l → g v = g' v) → count g f l = count g' f l.
Proof.
  intros H. unfold count. do 2 f_equal. induction l as [|v l IH]; [done|].
  rewrite !filter_cons, (H v), IH by set_solver. done.
Qed.

Lemma count_zero g f l : (∀ v, v ∈ l → ¬ maps (g v) f) → count g f l = 0.
Proof.
  intros H. unfold count. induction l as [|v l IH]; [done|].
  rewrite filter_cons_False by (apply H; set_solver). apply IH. set_solver.
Qed.

Lemma count_zero_inv g f l v : count g f l = 0 → v ∈ l → ¬ maps (g v) f.
Proof.
  intros Hc Hv Hm. unfold count in Hc.
  assert (v ∈ filter (λ v, maps (g v) f) l) as Hin by by apply list_elem_of_filter.
  destruct (filter _ l); [by apply elem_of_nil in Hin|]. simpl in Hc. lia.
Qed.

Lemma count_app g f l1 l2 : count g f (l1 ++ l2) = count g f l1 + count g f l2.
Proof. unfold count. rewrite filter_app, length_app. lia. Qed.

Lemma count_pos g f l : 0 ≤ count g f l.
Proof. unfold count. lia. Qed.

Lemma table_count_cons g f v l : count g f (v :: l) = (if decide (maps (g v) f) then 1 else 0) + count g f l.
Proof. unfold count. rewrite filter_cons. case_decide; simpl; lia. Qed.

(** Changing the entry of one page. *)
Lemma count_update g g' f v l :
  NoDup l → v ∈ l → (∀ w, w ≠ v → g' w = g w) →
  count g' f l + (if decide (maps (g v) f) then 1 else 0) =
  count g f l + (if decide (maps (g' v) f) then 1 else 0).
Proof.
  intros Hnd Hv Hg. apply list_elem_of_split in Hv as (l1 & l2 & ->).
  apply NoDup_app in Hnd as (_ & Hd & Hnd). apply NoDup_cons in Hnd as [Hv2 _].
  rewrite !count_app, !table_count_cons.
  rewrite (count_ext g' g f l1), (count_ext g' g f l2); [lia|..].
  - intros w Hw. apply Hg. set_solver.
  - intros w Hw. apply Hg. intros ->. apply (Hd v Hw). set_solver.
Qed.

Lemma size_remove_one (X : gset Z) p : (size X ≤ Datatypes.S (size (X ∖ {[ p ]})))%nat.
Proof.
  rewrite size_difference_alt. assert (size (X ∩ {[p]}) ≤ size ({[p]} : gset Z))%nat as H by (apply subseteq_size; set_solver).
  rewrite size_singleton in H. lia.
Qed.

Section page_table.
Context {S : Type} `{PM : pmm_manager S}.

(** * State *)
Record machine := mkMachine {
  pm : S;                      (* the physical memory manager and the page descriptors *)
  mem : gmap (Z * Z) Z;        (* memory: frame and word index *)
  npage : Z;
  cr3 : Z;                     (* frame of the directory the processor uses *)
  tlb : gmap Z Z;              (* cached translations of that directory, by page number *)
  swap_init_ok : bool }.

(** What the allocator asks of the swap component: [swap_out(check_mm_struct, n, 0)]. *)
Class swapper := { swap_out : Z → M machine unit }.
Context {SW : swapper}.

Definition read (m : machine) (a : Z * Z) : Z := default 0 (mem m !! a).
Definition set_pm (m : machine) (x : S) : machine :=
  mkMachine x (mem m) (npage m) (cr3 m) (tlb m) (swap_init_ok m).
Definition set_mem (m : machine) (x : gmap (Z * Z) Z) : machine :=
  mkMachine (pm m) x (npage m) (cr3 m) (tlb m) (swap_init_ok m).
Definition set_tlb (m : machine) (x : gmap Z Z) : machine :=
  mkMachine (pm m) (mem m) (npage m) (cr3 m) x (swap_init_ok m).

Definition lift_pm {A} (c : M S A) : M machine A := λ m,
  match c (pm m) with
  | Ret (a, x) => Ret (a, set_pm m x)
  | Err e => Err e
  end.

Definition load (a : Z * Z) : M machine Z := gets (λ m, read m a).
Definition store (a : Z * Z) (v : Z) : M machine unit :=
  modify (λ m, set_mem m (<[a := v]> (mem m))).
(** [memset(KADDR(page2pa(f)), 0, PGSIZE)]: words never written read as zero. *)
Definition clear_frame (f : Z) : M machine unit :=
  modify (λ m, set_mem m (filter (λ kv, kv.1.1 ≠ f) (mem m))).
(** [memcpy(kva_dst, kva_src, PGSIZE)] between two frames. *)
Definition copy_frame (dst src : Z) : M machine unit :=
  modify (λ m, set_mem m (list_to_map ((λ i, ((dst, i), read m (src, i))) <$> seqZ 0 1024) ∪ mem m)).

(** * kern/mm/pmm.h *)

(** [KADDR] and [pa2page] panic on an address outside physical memory; both give the frame. *)
Definition KADDR (pa : Z) : M machine Z :=
  n ← gets npage; if n <=? PPN pa then fail EPanic else mret (PPN pa).
Definition pa2page (pa : Z) : M machine Z :=
  n ← gets npage; if n <=? PPN pa then fail EPanic else mret (PPN pa).
Definition pte2page (pte : Z) : M machine Z :=
  if present pte then pa2page (PTE_ADDR pte) else fail EPanic.
Definition pde2page (pde : Z) : M machine Z := pa2page (PDE_ADDR pde).

Definition page_ref_add (page d : Z) : M machine Z :=
  r ← deref (λ m, page_ref page (pm m));
  lift_pm (set_page_ref page (r + d)) ;;
  mret (r + d).
Definition page_ref_inc (page : Z) : M machine Z := page_ref_add page 1.
Definition page_ref_dec (page : Z) : M machine Z := page_ref_add page (-1).

(** * kern/mm/pmm.c *)

(** [alloc_pages]: retries after [swap_out] while single frames are asked for and swapping is on. *)
Fixpoint alloc_pages_loop (fuel : nat) (n : Z) : M machine (option Z) :=
  match fuel with
  | O => fail EFuel
  | Datatypes.S fuel' =>
      page ← lift_pm (alloc_pages n);
      sw ← gets swap_init_ok;
      match page with
      | Some p => mret (Some p)
      | None => if (1 <? n) || negb sw then mret None
                else swap_out n ;; alloc_pages_loop fuel' n
      end
  end.
Definition swap_retries : nat := 1024.
Definition alloc_page : M machine (option Z) := alloc_pages_loop swap_retries 1.
Definition free_page (p : Z) : M machine unit := lift_pm (free_pages p 1).

(** The part of [get_pte] that adds a page table; false when no frame is left. *)
Definition get_pte_alloc (pgdir la : Z) : M machine bool :=
  page ← alloc_page;
  match page with
  | None => mret false
  | Some page =>
      lift_pm (set_page_ref page 1) ;;
      f ← KADDR (page2pa page);
      clear_frame f ;;
      store (pgdir, PDX la) (Z.lor (Z.lor (Z.lor (page2pa page) PTE_U) PTE_W) PTE_P) ;;
      mret true
  end.

Definition get_pte (pgdir la : Z) (create : bool) : M machine (option (Z * Z)) :=
  pde ← load (pgdir, PDX la);
  ok ← (if present pde then mret true
        else if negb create then mret false
        else get_pte_alloc pgdir la);
  if ok : bool then
    pde' ← load (pgdir, PDX la);
    t ← KADDR (PDE_ADDR pde');
    mret (Some (t, PTX la))
  else mret None.

Definition get_page (pgdir la : Z) : M machine (option Z * option (Z * Z)) :=
  ptep ← get_pte pgdir la false;
  match ptep with
  | None => mret (None, None)
  | Some a =>
      pte ← load a;
      if present pte then p ← pte2page pte; mret (Some p, Some a) else mret (None, Some a)
  end.

(** [if (rcr3() == PADDR(pgdir)) invlpg(la)]. *)
Definition tlb_invalidate (pgdir la : Z) : M machine unit :=
  modify (λ m, if decide (cr3 m = pgdir) then set_tlb m (delete (PPN la) (tlb m)) else m).

Definition page_remove_pte (pgdir la : Z) (ptep : Z * Z) : M machine unit :=
  pte ← load ptep;
  when (present pte) (
    page ← pte2page pte;
    r ← page_ref_dec page;
    when (r =? 0) (free_page page) ;;
    store ptep 0 ;;
    tlb_invalidate pgdir la).

Definition page_remove (pgdir la : Z) : M machine unit :=
  ptep ← get_pte pgdir la false;
  match ptep with
  | Some a => page_remove_pte pgdir la a
  | None => mret tt
  end.

Definition page_insert (pgdir page la perm : Z) : M machine Z :=
  ptep ← get_pte pgdir la true;
  match ptep with
  | None => mret (- E_NO_MEM)
  | Some a =>
      page_ref_inc page ;;
      pte ← load a;
      when (present pte) (
        p ← pte2page pte;
        if decide (p = page) then page_ref_dec page ;; mret tt else page_remove_pte pgdir la a) ;;
      store a (Z.lor (Z.lor (page2pa page) PTE_P) perm) ;;
      tlb_invalidate pgdir la ;;
      mret 0
  end.

(** The loop of [unmap_range]; [start] is a 32-bit address. *)
Fixpoint unmap_loop (fuel : nat) (pgdir start end_ : Z) : M machine unit :=
  match fuel with
  | O => fail EFuel
  | Datatypes.S fuel' =>
      ptep ← get_pte pgdir start false;
      start' ← match ptep with
               | None => mret (ROUNDDOWN (u32 (start + PTSIZE)) PTSIZE)
               | Some a =>
                   pte ← load a;
                   when (negb (pte =? 0)) (page_remove_pte pgdir start a) ;;
                   mret (u32 (start + PGSIZE))
               end;
      if negb (start' =? 0) && (start' <? end_) then unmap_loop fuel' pgdir start' end_ else mret tt
  end.

(** The loop advances by a page at least, so as many rounds as there are pages are enough. *)
Definition range_fuel (start end_ : Z) : nat := Z.to_nat ((end_ - start) / PGSIZE + 1).

Definition unmap_range (pgdir start end_ : Z) : M machine unit :=
  assert ((start mod PGSIZE =? 0) && (end_ mod PGSIZE =? 0)) ;;
  assert (USER_ACCESS start end_) ;;
  unmap_loop (range_fuel start end_) pgdir start end_.

Fixpoint exit_loop (fuel : nat) (pgdir start end_ : Z) : M machine unit :=
  match fuel with
  | O => fail EFuel
  | Datatypes.S fuel' =>
      pde ← load (pgdir, PDX start);
      when (present pde) (
        p ← pde2page pde;
        free_page p ;;
        store (pgdir, PDX start) 0) ;;
      let start' := u32 (start + PTSIZE) in
      if negb (start' =? 0) && (start' <? end_) then exit_loop fuel' pgdir start' end_ else mret tt
  end.

Definition exit_range (pgdir start end_ : Z) : M machine unit :=
  assert ((start mod PGSIZE =? 0) && (end_ mod PGSIZE =? 0)) ;;
  assert (USER_ACCESS start end_) ;;
  let start' := ROUNDDOWN start PTSIZE in
  exit_loop (Z.to_nat ((end_ - start') / PTSIZE + 1)) pgdir start' end_.

Fixpoint copy_loop (fuel : nat) (to from start end_ : Z) : M machine Z :=
  match fuel with
  | O => fail EFuel
  | Datatypes.S fuel' =>
      let continue (start' : Z) : M machine Z :=
        if negb (start' =? 0) && (start' <? end_) then copy_loop fuel' to from start' end_
        else mret 0 in
      ptep ← get_pte from start false;
      match ptep with
      | None => continue (ROUNDDOWN (u32 (start + PTSIZE)) PTSIZE)
      | Some a =>
          pte ← load a;
          if present pte then
            nptep ← get_pte to start true;
            match nptep with
            | None => mret (- E_NO_MEM)
            | Some _ =>
                pte' ← load a;
                let perm := Z.land pte' PTE_USER in
                page ← pte2page pte';
                npage_ ← alloc_page;
                match npage_ with
                | None => fail EPanic                 (* assert(npage != NULL) *)
                | Some np =>
                    src ← KADDR (page2pa page);
                    dst ← KADDR (page2pa np);
                    copy_frame dst src ;;
                    ret ← page_insert to np start perm;
                    assert (ret =? 0) ;;
                    continue (u32 (start + PGSIZE))
                end
            end
          else continue (u32 (start + PGSIZE))
      end
  end.

Definition copy_range (to from start end_ : Z) : M machine Z :=
  assert ((start mod PGSIZE =? 0) && (end_ mod PGSIZE =? 0)) ;;
  assert (USER_ACCESS start end_) ;;
  copy_loop (range_fuel start end_) to from start end_.

(** [swap_map_swappable(check_mm_struct, ...)] only runs during the self checks, when
    [check_mm_struct] is set; otherwise the function ends after the mapping is made. *)
Definition pgdir_alloc_page (pgdir la perm : Z) : M machine (option Z) :=
  page ← alloc_page;
  match page with
  | None => mret None
  | Some p =>
      r ← page_insert pgdir p la perm;
      if r =? 0 then mret (Some p) else free_page p ;; mret None
  end.

Fixpoint boot_map_loop (n : nat) (pgdir la pa perm : Z) : M machine unit :=
  match n with
  | O => mret tt
  | Datatypes.S n' =>
      ptep ← get_pte pgdir la true;
      match ptep with
      | None => fail EPanic                           (* assert(ptep != NULL) *)
      | Some a =>
          store a (Z.lor (Z.lor pa PTE_P) perm) ;;
          boot_map_loop n' pgdir (u32 (la + PGSIZE)) (u32 (pa + PGSIZE)) perm
      end
  end.

Definition boot_map_segment (pgdir la size pa perm : Z) : M machine unit :=
  assert (PGOFF la =? PGOFF pa) ;;
  let n := ROUNDUP (size + PGOFF la) PGSIZE / PGSIZE in
  boot_map_loop (Z.to_nat n) pgdir (ROUNDDOWN la PGSIZE) (ROUNDDOWN pa PGSIZE) perm.

Definition boot_alloc_page : M machine Z :=
  p ← alloc_page;
  match p with
  | None => fail EPanic
  | Some p => KADDR (page2pa p)
  end.

(** * The translation a directory defines *)

Definition pde_at (m : machine) (pgdir d : Z) : Z := read m (pgdir, d).
(** The entry for page [v]; pages without a table have entry 0. *)
Definition pte_at (m : machine) (pgdir v : Z) : Z :=
  let pde := pde_at m pgdir (v / 1024) in
  if present pde then read m (frame_of pde, v mod 1024) else 0.

(** * Well-formed address spaces *)

Context `{PL : !pmm_laws S}.

(** The directory indices under consideration, e.g. those of user space. *)
Context (lo hi : Z).

Definition in_range (v : Z) : Prop := lo * 1024 ≤ v < hi * 1024.
Definition range_pages : list Z := seqZ (lo * 1024) ((hi - lo) * 1024).
Definition used (m : machine) : gset Z := pm_frames (pm m) ∖ pm_free (pm m).
Definition ref_of (m : machine) (f : Z) : Z := default 0 (page_ref f (pm m)).

(** Frame [f] holds neither the directory nor one of its tables. *)
Definition data_frame (m : machine) (pgdir f : Z) : Prop :=
  f ≠ pgdir ∧ ∀ d, lo ≤ d < hi → present (pde_at m pgdir d) = true → frame_of (pde_at m pgdir d) ≠ f.

Record space_ok (m : machine) (pgdir : Z) : Prop := {
  so_inv : pm_inv (pm m);
  so_npage : ∀ f, f ∈ pm_frames (pm m) → f < npage m;
  so_dir : pgdir ∉ pm_free (pm m);
  so_table : ∀ d, lo ≤ d < hi → present (pde_at m pgdir d) = true →
    frame_of (pde_at m pgdir d) ∈ used m ∧ frame_of (pde_at m pgdir d) ≠ pgdir;
  so_inj : ∀ d d', lo ≤ d < hi → lo ≤ d' < hi →
    present (pde_at m pgdir d) = true → present (pde_at m pgdir d') = true →
    frame_of (pde_at m pgdir d) = frame_of (pde_at m pgdir d') → d = d';
  so_map : ∀ v, in_range v → present (pte_at m pgdir v) = true →
    frame_of (pte_at m pgdir v) ∈ used m ∧ data_frame m pgdir (frame_of (pte_at m pgdir v));
  so_ref : ∀ f, f ∈ used m → count (pte_at m pgdir) f range_pages ≤ ref_of m f;
  so_tlb : cr3 m = pgdir → ∀ v e, in_range v → tlb m !! v = Some e →
    e = pte_at m pgdir v ∧ present e = true }.

Lemma range_pages_elem v : v ∈ range_pages ↔ in_range v.
Proof. unfold range_pages, in_range. rewrite elem_of_seqZ. lia. Qed.

Lemma in_range_dir v : in_range v → lo ≤ v / 1024 < hi.
Proof.
  unfold in_range. intros. split; [apply Z.div_le_lower_bound; lia|apply Z.div_lt_upper_bound; lia].
Qed.

Lemma used_npage m pgdir f : space_ok m pgdir → f ∈ used m → (npage m <=? f) = false.
Proof.
  intros Hok Hf. unfold used in Hf. apply Z.leb_gt. apply (so_npage _ _ Hok). set_solver.
Qed.

Lemma used_ref m pgdir f : space_ok m pgdir → f ∈ used m → page_ref f (pm m) = Some (ref_of m f).
Proof.
  intros Hok Hf. unfold ref_of. destruct (pm_ref_frames (pm m) f) as [r Hr].
  - apply Hok.
  - unfold used in Hf. set_solver.
  - by rewrite Hr.
Qed.

(** ** Looking up an entry *)

Lemma KADDR_run m pgdir x :
  space_ok m pgdir → frame_of x ∈ used m → KADDR (PTE_ADDR x) m = Ret (frame_of x, m).
Proof.
  intros Hok Hf. unfold KADDR, mbind, M_bind, gets. fold (frame_of x).
  by rewrite (used_npage _ _ _ Hok Hf).
Qed.

Lemma get_pte_find m pgdir la create :
  space_ok m pgdir → is_u32 la → in_range (vpn la) →
  present (pde_at m pgdir (vpn la / 1024)) = true →
  get_pte pgdir la create m = Ret (Some (frame_of (pde_at m pgdir (vpn la / 1024)), vpn la mod 1024), m).
Proof.
  intros Hok Hla Hr Hp. unfold get_pte. rewrite PDX_vpn, PTX_vpn by done.
  pose proof (so_table _ _ Hok _ (in_range_dir _ Hr) Hp) as [Hu _].
  step using reflexivity. fold (pde_at m pgdir (vpn la / 1024)). rewrite Hp.
  step using reflexivity. cbv iota. step using reflexivity. fold (pde_at m pgdir (vpn la / 1024)).
  step using (by apply (KADDR_run m pgdir)). done.
Qed.

Lemma get_pte_absent m pgdir la :
  is_u32 la → present (pde_at m pgdir (vpn la / 1024)) = false →
  get_pte pgdir la false m = Ret (None, m).
Proof.
  intros Hla Hp. unfold get_pte. rewrite PDX_vpn by done. step using reflexivity.
  fold (pde_at m pgdir (vpn la / 1024)). by rewrite Hp.
Qed.

Lemma pte_at_absent m pgdir v :
  present (pde_at m pgdir (v / 1024)) = false → pte_at m pgdir v = 0.
Proof. intros Hp. unfold pte_at. by rewrite Hp. Qed.

Lemma pte_at_present m pgdir v :
  present (pde_at m pgdir (v / 1024)) = true →
  pte_at m pgdir v = read m (frame_of (pde_at m pgdir (v / 1024)), v mod 1024).
Proof. intros Hp. unfold pte_at. by rewrite Hp. Qed.

(** ** Writing an entry *)

(** The machine after [store a x; tlb_invalidate pgdir la] at the entry of page [v]. *)
Definition with_pte (m : machine) (pgdir v x : Z) : machine :=
  let a := (frame_of (pde_at m pgdir (v / 1024)), v mod 1024) in
  let m1 := set_mem m (<[a := x]> (mem m)) in
  if decide (cr3 m = pgdir) then set_tlb m1 (delete v (tlb m)) else m1.

Lemma read_with_pte m pgdir v x a :
  read (with_pte m pgdir v x) a =
    if decide (a = (frame_of (pde_at m pgdir (v / 1024)), v mod 1024)) then x else read m a.
Proof.
  unfold with_pte, read. case_decide; simpl; rewrite lookup_insert; repeat case_decide; subst; done.
Qed.

Lemma with_pte_fields m pgdir v x :
  pm (with_pte m pgdir v x) = pm m ∧ npage (with_pte m pgdir v x) = npage m ∧
  cr3 (with_pte m pgdir v x) = cr3 m ∧ swap_init_ok (with_pte m pgdir v x) = swap_init_ok m ∧
  (cr3 m = pgdir → tlb (with_pte m pgdir v x) = delete v (tlb m)).
Proof. unfold with_pte. by case_decide. Qed.

Lemma pde_with_pte m pgdir v x d :
  space_ok m pgdir → in_range v → present (pde_at m pgdir (v / 1024)) = true →
  pde_at (with_pte m pgdir v x) pgdir d = pde_at m pgdir d.
Proof.
  intros Hok Hr Hp. unfold pde_at at 1. rewrite read_with_pte.
  destruct (so_table _ _ Hok _ (in_range_dir _ Hr) Hp) as [_ Hne].
  rewrite decide_False; [done|]. intros [= ? ?]; done.
Qed.

Lemma vpn_split v w : v / 1024 = w / 1024 → v mod 1024 = w mod 1024 → v = w.
Proof. intros. rewrite (Z.div_mod v 1024), (Z.div_mod w 1024) by lia. congruence. Qed.

Lemma pte_with_pte m pgdir v x w :
  space_ok m pgdir → in_range v → in_range w → present (pde_at m pgdir (v / 1024)) = true →
  pte_at (with_pte m pgdir v x) pgdir w = if decide (w = v) then x else pte_at m pgdir w.
Proof.
  intros Hok Hv Hw Hp. unfold pte_at. rewrite pde_with_pte by done. case_decide as Hwv.
  - subst w. rewrite Hp, read_with_pte. by rewrite decide_True.
  - destruct (present (pde_at m pgdir (w / 1024))) eqn:Hpw; [|done].
    rewrite read_with_pte, decide_False; [done|]. intros [= Hf Ht].
    apply Hwv, vpn_split; [|done].
    eapply so_inj; eauto using in_range_dir.
Qed.

Lemma data_with_pte m pgdir v x f :
  space_ok m pgdir → in_range v → present (pde_at m pgdir (v / 1024)) = true →
  data_frame m pgdir f → data_frame (with_pte m pgdir v x) pgdir f.
Proof.
  intros Hok Hv Hp [Hne Hd]. split; [done|]. intros d. rewrite pde_with_pte by done. apply Hd.
Qed.

(** An entry is not in a data frame. *)
Lemma data_read_with_pte m pgdir v x f i :
  in_range v → present (pde_at m pgdir (v / 1024)) = true → data_frame m pgdir f →
  read (with_pte m pgdir v x) (f, i) = read m (f, i).
Proof.
  intros Hv Hp [_ Hd]. rewrite read_with_pte, decide_False; [done|]. intros [= -> _].
  by eapply Hd; [apply in_range_dir|..].
Qed.

(** Writing [x] keeps the address space well formed when the frame [x] maps is a counted data frame. *)
Lemma space_ok_with_pte m pgdir v x :
  space_ok m pgdir → in_range v → present (pde_at m pgdir (v / 1024)) = true →
  (present x = true → frame_of x ∈ used m ∧ data_frame m pgdir (frame_of x) ∧
     count (pte_at m pgdir) (frame_of x) range_pages +
       (if decide (maps (pte_at m pgdir v) (frame_of x)) then 0 else 1) ≤ ref_of m (frame_of x)) →
  space_ok (with_pte m pgdir v x) pgdir.
Proof.
  intros Hok Hv Hp Hx. destruct (with_pte_fields m pgdir v x) as (Hpm & Hnp & Hcr & _ & Htlb).
  assert (∀ f, ref_of (with_pte m pgdir v x) f = ref_of m f) as Href.
  { intros f. unfold ref_of. by rewrite Hpm. }
  assert (used (with_pte m pgdir v x) = used m) as Hused by (unfold used; by rewrite Hpm).
  split; rewrite ?Hpm, ?Hnp, ?Hused, ?Hcr.
  - apply Hok.
  - apply Hok.
  - apply Hok.
  - intros d Hd. rewrite pde_with_pte by done. by apply Hok.
  - intros d d' Hd Hd'. rewrite !pde_with_pte by done. by apply Hok.
  - intros w Hw. rewrite pte_with_pte by done. destruct (decide (w = v)) as [->|Hwv].
    + intros Hxp. destruct (Hx Hxp) as (? & ? & _). eauto using data_with_pte.
    + intros Hwp. destruct (so_map _ _ Hok w Hw Hwp). eauto using data_with_pte.
  - intros f Hf. rewrite Href.
    pose proof (count_update (pte_at m pgdir)
      (λ w, if decide (w = v) then x else pte_at m pgdir w) f v range_pages) as Hc.
    rewrite (count_ext (pte_at (with_pte m pgdir v x) pgdir)
      (λ w, if decide (w = v) then x else pte_at m pgdir w)).
    2:{ intros w Hw. apply pte_with_pte; try done. by apply range_pages_elem. }
    specialize (Hc (NoDup_seqZ _ _)). rewrite range_pages_elem in Hc. specialize (Hc Hv).
    specialize (Hc ltac:(intros w Hw; by rewrite decide_False)).
    rewrite (decide_True (P := v = v)) in Hc by done.
    pose proof (so_ref _ _ Hok f Hf). destruct (decide (maps x f)) as [[Hxp <-]|].
    + destruct (Hx Hxp) as (_ & _ & Hcnt). repeat case_decide; lia.
    + repeat case_decide; lia.
  - intros Hcr3 w e Hw. rewrite (Htlb Hcr3), lookup_delete.
    destruct (decide (v = w)) as [->|Hvw]; [done|]. intros He. rewrite pte_with_pte, decide_False by done.
    by apply (so_tlb _ _ Hok Hcr3).
Qed.

(** ** Changing descriptors *)

(** Frames that become free must be unmapped data frames, and counts stay below the references. *)
Lemma space_ok_set_pm m pgdir x :
  space_ok m pgdir → pm_inv x → pm_frames x = pm_frames (pm m) →
  (∀ f, f ∈ pm_free x → f ∉ pm_free (pm m) →
     data_frame m pgdir f ∧ count (pte_at m pgdir) f range_pages = 0) →
  (∀ f, f ∈ pm_frames x ∖ pm_free x → count (pte_at m pgdir) f range_pages ≤ default 0 (page_ref f x)) →
  space_ok (set_pm m x) pgdir.
Proof.
  intros Hok Hinv Hfr Hnew Hcnt.
  assert (∀ f, f ∈ used m → (f ∈ pm_free x → False) → f ∈ used (set_pm m x)) as Hu.
  { intros f. unfold used. simpl. rewrite Hfr. set_solver. }
  split; simpl.
  - done.
  - rewrite Hfr. apply Hok.
  - intros Hd. destruct (Hnew _ Hd (so_dir _ _ Hok)) as [[??] _]. done.
  - intros d Hd Hp. destruct (so_table _ _ Hok d Hd Hp) as [Hf Hne]. split; [|done].
    apply Hu; [done|]. intros Hfree. destruct (Hnew _ Hfree) as [[_ Hdf] _].
    + unfold used in Hf. set_solver.
    + by apply (Hdf d Hd Hp).
  - apply Hok.
  - intros v Hv Hp. destruct (so_map _ _ Hok v Hv Hp) as [Hf Hdf]. split; [|done].
    apply Hu; [done|]. intros Hfree. destruct (Hnew _ Hfree) as [_ Hc].
    + unfold used in Hf. set_solver.
    + apply (count_zero_inv _ _ _ v Hc); [by apply range_pages_elem|]. by split.
  - intros f Hf. by apply Hcnt.
  - apply Hok.
Qed.

Lemma data_frame_set_pm m pgdir x f : data_frame m pgdir f → data_frame (set_pm m x) pgdir f.
Proof. done. Qed.

(** Raising or lowering the reference count of a frame in use. *)
Lemma page_ref_add_run m pgdir f d :
  space_ok m pgdir → f ∈ used m →
  ∃ x, page_ref_add f d m = Ret (ref_of m f + d, set_pm m x) ∧ pm_inv x ∧
    pm_frames x = pm_frames (pm m) ∧ pm_free x = pm_free (pm m) ∧
    page_ref f x = Some (ref_of m f + d) ∧ (∀ g, g ≠ f → page_ref g x = page_ref g (pm m)).
Proof.
  intros Hok Hf. destruct (pm_set_ref (pm m) f (ref_of m f + d)) as (x & Hrun & ? & ? & ? & ? & ?).
  - apply Hok.
  - done.
  - exists x. split; [|done]. unfold page_ref_add.
    step using (unfold deref; rewrite (used_ref _ _ _ Hok Hf); reflexivity).
    by step using (unfold lift_pm; rewrite Hrun; reflexivity).
Qed.

Lemma pte2page_run m pgdir x :
  space_ok m pgdir → present x = true → frame_of x ∈ used m → pte2page x m = Ret (frame_of x, m).
Proof.
  intros Hok Hp Hf. unfold pte2page, pa2page. rewrite Hp. unfold mbind, M_bind, gets.
  fold (frame_of x). by rewrite (used_npage _ _ _ Hok Hf).
Qed.

Lemma frames_one p : frames (p, 1) = {[ p ]}.
Proof. apply set_eq. intros i. rewrite elem_of_frames, elem_of_singleton. simpl. lia. Qed.

(** Clearing a present entry takes one mapping off its frame. *)
Lemma count_without m pgdir v g :
  space_ok m pgdir → in_range v → present (pde_at m pgdir (v / 1024)) = true →
  present (pte_at m pgdir v) = true →
  count (pte_at (with_pte m pgdir v 0) pgdir) g range_pages =
  count (pte_at m pgdir) g range_pages - (if decide (g = frame_of (pte_at m pgdir v)) then 1 else 0).
Proof.
  intros Hok Hv Hp Hpte.
  pose proof (count_update (pte_at m pgdir)
    (λ w, if decide (w = v) then 0 else pte_at m pgdir w) g v range_pages) as Hc.
  specialize (Hc (NoDup_seqZ _ _)). rewrite range_pages_elem in Hc. specialize (Hc Hv).
  specialize (Hc ltac:(intros w Hw; by rewrite decide_False)).
  rewrite (decide_True (P := v = v)) in Hc by done.
  rewrite (count_ext _ (λ w, if decide (w = v) then 0 else pte_at m pgdir w)).
  2:{ intros w Hw. apply pte_with_pte; try done. by apply range_pages_elem. }
  rewrite (decide_False (P := maps 0 g)) in Hc by (by intros [? _]).
  destruct (decide (g = frame_of (pte_at m pgdir v))) as [->|Hgf].
  - rewrite (decide_True (P := maps (pte_at m pgdir v) _)) in Hc by done. lia.
  - rewrite (decide_False (P := maps (pte_at m pgdir v) g)) in Hc by (intros [_ ?]; by apply Hgf).
    lia.
Qed.

(** What unmapping page [v] does to the descriptors. *)
Definition unmapped (m m' : machine) (f : Z) : Prop :=
  pm_frames (pm m') = pm_frames (pm m) ∧
  (ref_of m f = 1 → pm_free (pm m') = pm_free (pm m) ∪ {[ f ]}) ∧
  (ref_of m f ≠ 1 → pm_free (pm m') = pm_free (pm m) ∧ ref_of m' f = ref_of m f - 1) ∧
  (∀ g, g ∈ used m → g ≠ f → ref_of m' g = ref_of m g).

(** The machine without the mapping of page [v]. *)
Definition without (m m' : machine) (pgdir v : Z) : Prop :=
  (∃ x, m' = set_pm (with_pte m pgdir v 0) x) ∧ space_ok m' pgdir ∧
  unmapped m m' (frame_of (pte_at m pgdir v)).

Lemma page_remove_pte_run m pgdir la :
  space_ok m pgdir → in_range (vpn la) → present (pde_at m pgdir (vpn la / 1024)) = true →
  present (pte_at m pgdir (vpn la)) = true →
  ∃ m', page_remove_pte pgdir la (frame_of (pde_at m pgdir (vpn la / 1024)), vpn la mod 1024) m =
          Ret (tt, m') ∧ without m m' pgdir (vpn la).
Proof.
  set (v := vpn la). set (f := frame_of (pte_at m pgdir v)). intros Hok Hv Hp Hpte.
  destruct (so_map _ _ Hok v Hv Hpte) as [Hfu Hfd]. fold f in Hfu, Hfd.
  destruct (page_ref_add_run m pgdir f (-1) Hok Hfu) as (x & Hrun & Hxi & Hxfr & Hxfree & Hxf & Hxo).
  assert (∃ y, when (ref_of m f + -1 =? 0) (free_page f) (set_pm m x) = Ret (tt, set_pm m y) ∧
    pm_inv y ∧ pm_frames y = pm_frames (pm m) ∧
    pm_free y = (if decide (ref_of m f = 1) then pm_free (pm m) ∪ {[ f ]} else pm_free (pm m)) ∧
    (ref_of m f ≠ 1 → page_ref f y = Some (ref_of m f - 1)) ∧
    (∀ g, g ∈ used m → g ≠ f → page_ref g y = page_ref g (pm m))) as (y & Hfree & Hyi & Hyfr & Hyfree & Hyf & Hyo).
  { destruct (Z.eqb_spec (ref_of m f + -1) 0) as [Hz|Hz]; simpl.
    - destruct (pm_release x f 1) as (y & Hy & ? & ? & Hyf & Hyr); [done|lia| |].
      + rewrite frames_one, Hxfr, Hxfree. unfold used in Hfu. set_solver.
      + exists y. rewrite decide_True by lia. rewrite frames_one, Hxfree in Hyf. split_and!.
        * unfold free_page, lift_pm. simpl. rewrite Hy. done.
        * done.
        * congruence.
        * done.
        * lia.
        * intros g Hg Hgf. rewrite Hyr, Hxo; [done|done|]. rewrite frames_one, Hxfree.
          unfold used in Hg. set_solver.
    - exists x. rewrite decide_False by lia. split_and!; [done|done|done|done|..].
      + intros _. rewrite Hxf. by f_equal.
      + intros g _ Hg. by apply Hxo. }
  exists (set_pm (with_pte m pgdir v 0) y). split.
  - unfold page_remove_pte. step using reflexivity.
    fold (pde_at m pgdir (v / 1024)). rewrite <-pte_at_present by done. rewrite Hpte. unfold when at 1.
    step using (by apply (pte2page_run m pgdir)). fold f. step using (exact Hrun).
    step using (exact Hfree). step using reflexivity. unfold tlb_invalidate, modify, with_pte.
    rewrite PPN_vpn. fold v. simpl. by destruct (decide (cr3 m = pgdir)).
  - destruct (with_pte_fields m pgdir v 0) as (Hpm & _).
    assert (space_ok (with_pte m pgdir v 0) pgdir) as Hok0.
    { apply space_ok_with_pte; try done. }
    pose proof (λ g, count_without m pgdir v g Hok Hv Hp Hpte) as Hcnt. fold f in Hcnt.
    split_and!; [by eexists| |].
    + apply space_ok_set_pm; [done|done|by rewrite Hpm| |].
      * rewrite Hpm. intros g Hg Hng. rewrite Hyfree in Hg. case_decide as Hr1; [|done].
        assert (g = f) as -> by set_solver. split; [by apply data_with_pte|].
        rewrite Hcnt, decide_True by done. pose proof (so_ref _ _ Hok f Hfu).
        pose proof (count_pos (pte_at (with_pte m pgdir v 0) pgdir) f range_pages) as Hcp.
        rewrite Hcnt, decide_True in Hcp by done. lia.
      * intros g Hg. assert (g ∈ used m) as Hgu.
        { unfold used. rewrite <-Hyfr. destruct (decide (ref_of m f = 1)); set_solver. }
        rewrite Hcnt. pose proof (so_ref _ _ Hok g Hgu).
        destruct (decide (g = f)) as [->|Hgf].
        -- destruct (decide (ref_of m f = 1)) as [Hr1|Hr1].
           ++ rewrite Hyfree in Hg. set_solver.
           ++ rewrite (Hyf Hr1). simpl. lia.
        -- rewrite Hyo by done. fold (ref_of m g). lia.
    + split_and!; simpl.
      * done.
      * intros Hr1. by rewrite Hyfree, decide_True.
      * intros Hr1. rewrite Hyfree, decide_False by done. split; [done|].
        transitivity (default 0 (page_ref f y)); [done|by rewrite (Hyf Hr1)].
      * intros g Hg Hgf. unfold ref_of. simpl. by rewrite Hyo.
Qed.

(** ** Allocating *)

Lemma alloc_page_run m :
  pm_inv (pm m) → swap_init_ok m = false ∨ pm_free (pm m) ≠ ∅ →
  ∃ r x, alloc_page m = Ret (r, set_pm m x) ∧
    match r with
    | Some p => p ∈ pm_free (pm m) ∧ pm_inv x ∧ pm_frames x = pm_frames (pm m) ∧
        pm_free x = pm_free (pm m) ∖ {[ p ]} ∧ page_ref p x = Some 0 ∧
        (∀ i, i ∉ pm_free (pm m) → page_ref i x = page_ref i (pm m))
    | None => x = pm m ∧ pm_free (pm m) = ∅
    end.
Proof.
  intros Hinv Hsw. destruct (pm_alloc (pm m) 1 Hinv) as (r & x & Hrun & Hxi & Hfr & Hr); [lia|].
  assert (r = None → pm_free (pm m) = ∅) as Hnone.
  { intros ->. destruct Hr as [_ Hno]. apply set_eq. intros i. split; [|set_solver].
    intros Hi. destruct (Hno i). rewrite frames_one. set_solver. }
  exists r, x. split.
  - unfold alloc_page, swap_retries. cbn [alloc_pages_loop].
    step using (unfold lift_pm; rewrite Hrun; reflexivity). step using reflexivity. simpl.
    destruct r as [p|]; [done|]. destruct Hsw as [->|[]]; [done|by apply Hnone].
  - destruct r as [p|].
    + destruct Hr as (Hsub & Hfree & Href & Hoth). rewrite frames_one in *.
      split_and!; [set_solver|done|done|done|apply Href; set_solver|done].
    + destruct Hr as [-> _]. auto.
Qed.

(** With swapping on and no frame left, the allocator first asks for a page to be swapped out, in the state
    it was called in; what that call fails with, it fails with. *)
Lemma alloc_page_exhausted m e :
  pm_inv (pm m) → swap_init_ok m = true → pm_free (pm m) = ∅ → swap_out 1 m = Err e → alloc_page m = Err e.
Proof.
  intros Hinv Hsw Hno Hout. destruct (pm_alloc (pm m) 1 Hinv) as (r & x & Hrun & _ & _ & Hr); [lia|].
  destruct r as [p|].
  { destruct Hr as (Hsub & _). rewrite frames_one, Hno in Hsub. set_solver. }
  destruct Hr as [-> _]. assert (set_pm m (pm m) = m) as Hm by (clear; by destruct m).
  unfold alloc_page, swap_retries. cbn [alloc_pages_loop].
  step using (unfold lift_pm; rewrite Hrun; reflexivity). rewrite Hm. step using reflexivity. rewrite Hsw.
  cbn [orb negb Z.ltb Z.compare Pos.compare Pos.compare_cont]. unfold mbind, M_bind. by rewrite Hout.
Qed.

(** With a free frame left, swapping plays no part. *)
Lemma alloc_page_free m :
  pm_inv (pm m) → pm_free (pm m) ≠ ∅ →
  ∃ p x, alloc_page m = Ret (Some p, set_pm m x) ∧ p ∈ pm_free (pm m) ∧ pm_inv x ∧
    pm_frames x = pm_frames (pm m) ∧ pm_free x = pm_free (pm m) ∖ {[ p ]} ∧ page_ref p x = Some 0 ∧
    (∀ i, i ∉ pm_free (pm m) → page_ref i x = page_ref i (pm m)).
Proof.
  intros Hinv Hne. destruct (alloc_page_run m Hinv (or_intror Hne)) as ([p|] & x & Hrun & Hr); [eauto 10|tauto].
Qed.

(** Taking a free frame out of the manager leaves an address space well formed. *)
Lemma space_ok_alloc m pgdir p x r :
  space_ok m pgdir → p ∈ pm_free (pm m) → pm_inv x → pm_frames x = pm_frames (pm m) →
  pm_free x = pm_free (pm m) ∖ {[ p ]} → page_ref p x = Some r → 0 ≤ r →
  (∀ i, i ∉ pm_free (pm m) → page_ref i x = page_ref i (pm m)) →
  space_ok (set_pm m x) pgdir ∧ p ∈ used (set_pm m x) ∧ data_frame m pgdir p ∧
  count (pte_at m pgdir) p range_pages = 0.
Proof.
  intros Hok Hp Hxi Hfr Hfree Href Hr Hoth.
  assert (∀ f, f ∈ used m → f ≠ p) as Hne by (intros f Hf ->; unfold used in Hf; set_solver).
  assert (count (pte_at m pgdir) p range_pages = 0) as Hc.
  { apply count_zero. intros v Hv [Hvp Hvf]. apply range_pages_elem in Hv.
    destruct (so_map _ _ Hok v Hv Hvp) as [Hu _]. apply (Hne _ Hu Hvf). }
  split_and!; [| |split|done].
  - apply space_ok_set_pm; [done|done|done|set_solver|]. intros f Hf.
    destruct (decide (f = p)) as [->|Hfp]; [rewrite Hc, Href; simpl; lia|].
    rewrite Hoth by set_solver. apply (so_ref _ _ Hok). unfold used. set_solver.
  - unfold used. simpl. rewrite Hfr, Hfree. pose proof (pm_free_frames (pm m) (so_inv _ _ Hok)).
    set_solver.
  - intros ->. by apply (so_dir _ _ Hok).
  - intros d Hd Hdp Heq. destruct (so_table _ _ Hok d Hd Hdp) as [Hu _]. by apply (Hne _ Hu).
Qed.

(** ** Adding a table *)

Definition new_pde (p : Z) : Z := Z.lor (Z.lor (Z.lor (page2pa p) PTE_U) PTE_W) PTE_P.

Lemma frame_of_new_pde p : frame_of (new_pde p) = p.
Proof.
  unfold new_pde. rewrite <-(Z.lor_assoc (page2pa p)). by apply frame_of_entry.
Qed.

(** [m] with a cleared table in frame [p] for directory index [d]. *)
Definition with_table (m : machine) (pgdir d p : Z) : machine :=
  set_mem m (<[(pgdir, d) := new_pde p]> (filter (λ kv, kv.1.1 ≠ p) (mem m))).

Lemma read_with_table m pgdir d p a :
  p ≠ pgdir →
  read (with_table m pgdir d p) a =
    if decide (a = (pgdir, d)) then new_pde p else if decide (a.1 = p) then 0 else read m a.
Proof.
  intros Hne. unfold with_table, read. simpl. rewrite lookup_insert.
  destruct (decide (a = (pgdir, d))) as [->|Hd].
  - by rewrite decide_True.
  - rewrite decide_False by done. rewrite map_lookup_filter. case_decide as Hap.
    + destruct (mem m !! a); simpl; [|done]. by rewrite option_guard_False by (intros H; by apply H).
    + destruct (mem m !! a); simpl; [|done]. by rewrite option_guard_True by done.
Qed.

Lemma pde_with_table m pgdir d p d' :
  p ≠ pgdir →
  pde_at (with_table m pgdir d p) pgdir d' = if decide (d' = d) then new_pde p else pde_at m pgdir d'.
Proof.
  intros Hne. unfold pde_at. rewrite read_with_table by done. simpl.
  rewrite (decide_False (P := pgdir = p)) by done.
  destruct (decide (d' = d)) as [->|]; [by rewrite decide_True|].
  by rewrite decide_False by (intros [= ?]; done).
Qed.

Lemma pte_with_table m pgdir d p v :
  space_ok m pgdir → data_frame m pgdir p → lo ≤ d < hi → present (pde_at m pgdir d) = false →
  in_range v → pte_at (with_table m pgdir d p) pgdir v = pte_at m pgdir v.
Proof.
  intros Hok [Hp Hdf] Hd Hpd Hv. unfold pte_at. rewrite pde_with_table by done. case_decide as Hvd.
  - rewrite Hvd, Hpd. unfold new_pde. rewrite present_last. fold (new_pde p).
    rewrite frame_of_new_pde, read_with_table by done. rewrite decide_False by (intros [= ? ?]; done).
    by rewrite decide_True.
  - destruct (present (pde_at m pgdir (v / 1024))) eqn:Hpv; [|done].
    pose proof (in_range_dir _ Hv) as Hvr. destruct (so_table _ _ Hok _ Hvr Hpv) as [_ Hne].
    rewrite read_with_table by done. rewrite decide_False by (intros [= ? ?]; done). simpl.
    by rewrite decide_False by (by apply Hdf).
Qed.

Lemma space_ok_with_table m pgdir d p :
  space_ok m pgdir → lo ≤ d < hi → present (pde_at m pgdir d) = false →
  p ∈ used m → data_frame m pgdir p → count (pte_at m pgdir) p range_pages = 0 →
  space_ok (with_table m pgdir d p) pgdir.
Proof.
  intros Hok Hd Hpd Hpu Hpdf Hc. destruct Hpdf as [Hne Hdf].
  assert (present (new_pde p) = true) as Hnp by apply present_last.
  split; simpl; try apply Hok.
  - intros d' Hd'. rewrite pde_with_table by done. case_decide.
    + intros _. by rewrite frame_of_new_pde.
    + by apply (so_table _ _ Hok).
  - intros d1 d2 H1 H2. rewrite !pde_with_table by done. repeat case_decide; subst.
    + done.
    + rewrite frame_of_new_pde. intros _ Hp2 Heq. by destruct (Hdf d2 H2 Hp2).
    + rewrite frame_of_new_pde. intros Hp1 _ Heq. by destruct (Hdf d1 H1 Hp1).
    + by apply (so_inj _ _ Hok).
  - intros v Hv. rewrite pte_with_table by done. intros Hvp.
    destruct (so_map _ _ Hok v Hv Hvp) as [Hu [Hn1 Hn2]]. split; [done|]. split; [done|].
    intros d' Hd'. rewrite pde_with_table by done. case_decide; [|by apply Hn2].
    intros _ Heq. rewrite frame_of_new_pde in Heq.
    apply (count_zero_inv _ _ _ v Hc); [by apply range_pages_elem|]. by split.
  - intros f Hf. rewrite (count_ext _ (pte_at m pgdir)); [by apply (so_ref _ _ Hok)|].
    intros v Hv. apply pte_with_table; try done. by apply range_pages_elem.
  - intros Hcr v e Hv He. rewrite pte_with_table by done. by apply (so_tlb _ _ Hok).
Qed.

(** [get_pte(pgdir, la, 1)] fails only for want of memory; otherwise the table exists afterwards and
    no translation has changed. *)
Definition table_added (m m' : machine) (pgdir : Z) : Prop :=
  space_ok m' pgdir ∧ npage m' = npage m ∧ cr3 m' = cr3 m ∧ swap_init_ok m' = swap_init_ok m ∧
  tlb m' = tlb m ∧
  pm_frames (pm m') = pm_frames (pm m) ∧
  (pm_free (pm m') ⊆ pm_free (pm m) ∧ (size (pm_free (pm m)) ≤ Datatypes.S (size (pm_free (pm m'))))%nat) ∧
  (∀ v, in_range v → pte_at m' pgdir v = pte_at m pgdir v) ∧
  (∀ f, f ∈ used m → ref_of m' f = ref_of m f) ∧
  (∀ f, f ∈ used m → data_frame m pgdir f → data_frame m' pgdir f) ∧
  (∀ f i, f ∈ used m → f ≠ pgdir → read m' (f, i) = read m (f, i)).

Lemma get_pte_create m pgdir la :
  space_ok m pgdir → is_u32 la → in_range (vpn la) →
  swap_init_ok m = false ∨ present (pde_at m pgdir (vpn la / 1024)) = true ∨ pm_free (pm m) ≠ ∅ →
  ∃ r m', get_pte pgdir la true m = Ret (r, m') ∧
    match r with
    | Some a => a = (frame_of (pde_at m' pgdir (vpn la / 1024)), vpn la mod 1024) ∧
        present (pde_at m' pgdir (vpn la / 1024)) = true ∧ table_added m m' pgdir
    | None => m' = m ∧ pm_free (pm m) = ∅ ∧ present (pde_at m pgdir (vpn la / 1024)) = false
    end.
Proof.
  intros Hok Hla Hv Hsw. pose proof (in_range_dir _ Hv) as Hd.
  destruct (present (pde_at m pgdir (vpn la / 1024))) eqn:Hp.
  { eexists _, m. split; [by apply get_pte_find|]. simpl. split_and!; [done|done|]. unfold table_added. split_and!; auto with lia. }
  assert (swap_init_ok m = false ∨ pm_free (pm m) ≠ ∅) as Hsw' by (destruct Hsw as [?|[?|?]]; [by left|done|by right]).
  clear Hsw. rename Hsw' into Hsw.
  destruct (alloc_page_run m (so_inv _ _ Hok) Hsw) as (r & x & Hrun & Hr).
  unfold get_pte. rewrite PDX_vpn, PTX_vpn by done. step using reflexivity.
  fold (pde_at m pgdir (vpn la / 1024)). rewrite Hp. simpl negb. cbv iota.
  destruct r as [p|].
  - destruct Hr as (Hpf & Hxi & Hfr & Hfree & Href & Hoth).
    destruct (pm_set_ref x p 1) as (y & Hy & Hyi & Hyfr & Hyfree & Hyr & Hyo); [done| |].
    { rewrite Hfr, Hfree. pose proof (pm_free_frames (pm m) (so_inv _ _ Hok)). set_solver. }
    assert (∀ i, i ∉ pm_free (pm m) → page_ref i y = page_ref i (pm m)) as Hoth2.
    { intros i Hi. rewrite Hyo by (intros ->; done). auto. }
    destruct (space_ok_alloc m pgdir p y 1) as (Hok1 & Hu1 & Hdf1 & Hc1); try done; try congruence.
    set (d := vpn la / 1024) in *. set (m1 := set_pm m y) in *.
    assert (space_ok (with_table m1 pgdir d p) pgdir) as Hok2 by by apply space_ok_with_table.
    exists (Some (p, vpn la mod 1024)), (with_table m1 pgdir d p).
    pose proof Hdf1 as [Hne Hdf2].
    assert (pde_at (with_table m1 pgdir d p) pgdir d = new_pde p) as Hpde.
    { rewrite pde_with_table by done. by rewrite decide_True. }
    split_and!.
    + assert (get_pte_alloc pgdir la m = Ret (true, with_table m1 pgdir d p)) as Halloc.
      { unfold get_pte_alloc. step using (exact Hrun). cbv iota.
        step using (unfold lift_pm; simpl; rewrite Hy; reflexivity).
        erewrite (M_bind_step (KADDR _)).
        2:{ unfold KADDR, mbind, M_bind, gets. rewrite PPN_page2pa. simpl.
            pose proof (used_npage m1 pgdir p Hok1 Hu1) as Hnp. simpl in Hnp. rewrite Hnp. reflexivity. }
        rewrite PDX_vpn by done. done. }
      step using (exact Halloc). cbv iota. step using reflexivity.
      fold (pde_at (with_table m1 pgdir d p) pgdir d). rewrite Hpde.
      step using (apply (KADDR_run _ pgdir); [done|by rewrite frame_of_new_pde]).
      by rewrite frame_of_new_pde.
    + by rewrite Hpde, frame_of_new_pde.
    + rewrite Hpde. apply present_last.
    + split_and!; try done; simpl.
      * congruence.
      * rewrite Hyfree, Hfree. set_solver.
      * rewrite Hyfree, Hfree. apply size_remove_one.
      * intros v Hvr. by apply (pte_with_table m1 pgdir d p v).
      * intros f Hf. unfold ref_of. simpl. rewrite Hoth2; [done|]. unfold used in Hf. set_solver.
      * intros f Hf [Hf1 Hf2]. split; [done|]. intros d' Hd'. rewrite pde_with_table by done.
        case_decide; [|by apply Hf2]. rewrite frame_of_new_pde. intros _ <-. unfold used in Hf. set_solver.
      * intros f i Hf Hfd. rewrite read_with_table by done. rewrite decide_False by (intros [= ? ?]; done).
        simpl. rewrite decide_False; [done|]. intros ->. unfold used in Hf. set_solver.
  - destruct Hr as [-> Hempty]. exists None, m. split; [|done].
    assert (set_pm m (pm m) = m) as Hm by (clear; by destruct m). rewrite Hm in Hrun.
    assert (get_pte_alloc pgdir la m = Ret (false, m)) as Halloc.
    { unfold get_pte_alloc. by step using (exact Hrun). }
    by step using (exact Halloc).
Qed.

(** ** Unmapping and mapping a page *)

Lemma used_without m m' pgdir v g :
  without m m' pgdir v → g ∈ used m → g ≠ frame_of (pte_at m pgdir v) → g ∈ used m'.
Proof.
  intros (_ & _ & Hfr & H1 & H2 & _) Hg Hgf. unfold used in *. rewrite Hfr.
  destruct (decide (ref_of m (frame_of (pte_at m pgdir v)) = 1)) as [Hr|Hr].
  - rewrite (H1 Hr). set_solver.
  - destruct (H2 Hr) as [-> _]. set_solver.
Qed.

Lemma pte_without m m' pgdir v w :
  space_ok m pgdir → in_range v → in_range w → present (pde_at m pgdir (v / 1024)) = true →
  without m m' pgdir v →
  pte_at m' pgdir w = if decide (w = v) then 0 else pte_at m pgdir w.
Proof.
  intros Hok Hv Hw Hp ((x & ->) & _). by apply (pte_with_pte m pgdir v 0 w).
Qed.

Lemma pde_without m m' pgdir v d :
  space_ok m pgdir → in_range v → present (pde_at m pgdir (v / 1024)) = true →
  without m m' pgdir v → pde_at m' pgdir d = pde_at m pgdir d.
Proof. intros Hok Hv Hp ((x & ->) & _). by apply (pde_with_pte m pgdir v 0 d). Qed.

Lemma present_pde_of_pte m pgdir v :
  present (pte_at m pgdir v) = true → present (pde_at m pgdir (v / 1024)) = true.
Proof. unfold pte_at. by destruct (present (pde_at m pgdir (v / 1024))). Qed.

(** [page_remove] unmaps exactly the page of [la]: every other translation stays, the reference
    count of the frame drops by one, the frame is freed precisely when that was the last reference,
    and the address space (with a coherent TLB) stays well formed. *)
Theorem page_remove_correct m pgdir la :
  space_ok m pgdir → is_u32 la → in_range (vpn la) →
  ∃ m', page_remove pgdir la m = Ret (tt, m') ∧ space_ok m' pgdir ∧
    present (pte_at m' pgdir (vpn la)) = false ∧
    (∀ w, in_range w → w ≠ vpn la → pte_at m' pgdir w = pte_at m pgdir w) ∧
    (if present (pte_at m pgdir (vpn la)) then unmapped m m' (frame_of (pte_at m pgdir (vpn la)))
     else m' = m).
Proof.
  intros Hok Hla Hv. unfold page_remove.
  destruct (present (pte_at m pgdir (vpn la))) eqn:Hpte.
  - pose proof (present_pde_of_pte _ _ _ Hpte) as Hp.
    destruct (page_remove_pte_run m pgdir la Hok Hv Hp Hpte) as (m' & Hrun & Hw).
    exists m'. split_and!.
    + by step using (by apply get_pte_find).
    + apply Hw.
    + by rewrite (pte_without m m' pgdir (vpn la)), decide_True.
    + intros w Hwr Hne. by rewrite (pte_without m m' pgdir (vpn la)), decide_False.
    + apply Hw.
  - exists m. split_and!; try done.
    destruct (present (pde_at m pgdir (vpn la / 1024))) eqn:Hp.
    + step using (by apply get_pte_find). unfold page_remove_pte.
      step using reflexivity. fold (pde_at m pgdir (vpn la / 1024)).
      rewrite <-pte_at_present by done. by rewrite Hpte.
    + by step using (by apply get_pte_absent).
Qed.

(** Writing the entry of a frame that is counted for it. *)
Lemma insert_store m pgdir page la perm :
  space_ok m pgdir → in_range (vpn la) → present (pde_at m pgdir (vpn la / 1024)) = true →
  page ∈ used m → data_frame m pgdir page → 0 ≤ perm < 4096 →
  count (pte_at m pgdir) page range_pages +
    (if decide (maps (pte_at m pgdir (vpn la)) page) then 0 else 1) ≤ ref_of m page →
  (store (frame_of (pde_at m pgdir (vpn la / 1024)), vpn la mod 1024)
     (Z.lor (Z.lor (page2pa page) PTE_P) perm) ;; tlb_invalidate pgdir la ;; mret 0) m =
    Ret (0, with_pte m pgdir (vpn la) (Z.lor (Z.lor (page2pa page) PTE_P) perm)) ∧
  space_ok (with_pte m pgdir (vpn la) (Z.lor (Z.lor (page2pa page) PTE_P) perm)) pgdir.
Proof.
  intros Hok Hv Hp Hu Hd Hperm Hc. split.
  - step using reflexivity. unfold tlb_invalidate. rewrite PPN_vpn. unfold with_pte. unM.
    by destruct (decide (cr3 m = pgdir)).
  - apply space_ok_with_pte; try done. intros _. rewrite frame_of_entry by (unfold PTE_P; lia). done.
Qed.

(** The references after [page_insert] put [page] where frame [f] was mapped, if any was. *)
Definition ref_after_insert (m m' : machine) (old page : Z) : Prop :=
  (∀ g, g ∈ used m → g ≠ page → ¬ maps old g → g ∈ used m' ∧ ref_of m' g = ref_of m g) ∧
  (maps old page → ref_of m' page = ref_of m page) ∧
  (¬ maps old page → ref_of m' page = ref_of m page + 1 ∧
    (present old = true →
      if decide (ref_of m (frame_of old) = 1) then frame_of old ∈ pm_free (pm m')
      else frame_of old ∈ used m' ∧ ref_of m' (frame_of old) = ref_of m (frame_of old) - 1)).

Lemma page_ref_inc_run m pgdir f :
  space_ok m pgdir → f ∈ used m →
  ∃ x, page_ref_inc f m = Ret (ref_of m f + 1, set_pm m x) ∧ space_ok (set_pm m x) pgdir ∧
    pm_frames x = pm_frames (pm m) ∧ pm_free x = pm_free (pm m) ∧
    ref_of (set_pm m x) f = ref_of m f + 1 ∧
    (∀ g, g ≠ f → ref_of (set_pm m x) g = ref_of m g).
Proof.
  intros Hok Hf. destruct (page_ref_add_run m pgdir f 1 Hok Hf) as (x & Hrun & Hxi & Hfr & Hfree & Hr & Ho).
  assert (ref_of (set_pm m x) f = ref_of m f + 1) as Hrf by (unfold ref_of at 1; simpl; by rewrite Hr).
  assert (∀ g, g ≠ f → ref_of (set_pm m x) g = ref_of m g) as Hro.
  { intros g Hg. unfold ref_of. simpl. by rewrite Ho. }
  exists x. split_and!; try done. apply space_ok_set_pm; [done|done|done|set_solver|].
  intros g Hg. rewrite Hfr, Hfree in Hg. pose proof (so_ref _ _ Hok g Hg).
  change (default 0 (page_ref g x)) with (ref_of (set_pm m x) g).
  destruct (decide (g = f)) as [->|]; [rewrite Hrf; lia|by rewrite Hro].
Qed.

(** [page_insert] once the table exists and the reference has been counted ([m1] to [m2]). *)
Lemma page_insert_entry m1 x pgdir page la perm :
  space_ok m1 pgdir → in_range (vpn la) → present (pde_at m1 pgdir (vpn la / 1024)) = true →
  page ∈ used m1 → data_frame m1 pgdir page → 0 ≤ perm < 4096 →
  space_ok (set_pm m1 x) pgdir → pm_frames x = pm_frames (pm m1) → pm_free x = pm_free (pm m1) →
  ref_of (set_pm m1 x) page = ref_of m1 page + 1 →
  (∀ g, g ≠ page → ref_of (set_pm m1 x) g = ref_of m1 g) →
  ∃ m3, (pte ← load (frame_of (pde_at m1 pgdir (vpn la / 1024)), vpn la mod 1024);
         when (present pte) (
           p ← pte2page pte;
           if decide (p = page) then page_ref_dec page ;; mret tt
           else page_remove_pte pgdir la (frame_of (pde_at m1 pgdir (vpn la / 1024)), vpn la mod 1024)))
        (set_pm m1 x) = Ret (tt, m3) ∧ space_ok m3 pgdir ∧
    (∀ d, pde_at m3 pgdir d = pde_at m1 pgdir d) ∧
    page ∈ used m3 ∧ data_frame m3 pgdir page ∧
    (∀ w, in_range w → w ≠ vpn la → pte_at m3 pgdir w = pte_at m1 pgdir w) ∧
    (∀ f i, data_frame m1 pgdir f → read m3 (f, i) = read m1 (f, i)) ∧
    count (pte_at m3 pgdir) page range_pages +
      (if decide (maps (pte_at m3 pgdir (vpn la)) page) then 0 else 1) ≤ ref_of m3 page ∧
    ref_after_insert m1 m3 (pte_at m1 pgdir (vpn la)) page.
Proof.
  set (v := vpn la). set (a := (frame_of (pde_at m1 pgdir (v / 1024)), v mod 1024)).
  intros Hok Hv Hp Hu Hd Hperm Hok2 Hfr Hfree Hrp Hro. pose proof (so_ref _ _ Hok page Hu) as Hcnt.
  assert (used (set_pm m1 x) = used m1) as Hused by (unfold used; simpl; congruence).
  assert (load a (set_pm m1 x) = Ret (pte_at m1 pgdir v, set_pm m1 x)) as Hload.
  { unfold a. rewrite pte_at_present by done. done. }
  destruct (present (pte_at m1 pgdir v)) eqn:Hpte.
  2:{ exists (set_pm m1 x). split_and!; try done.
    - step using (exact Hload). by rewrite Hpte.
    - by rewrite Hused.
    - change (pte_at (set_pm m1 x) pgdir) with (pte_at m1 pgdir). case_decide; lia.
    - split_and!.
      + intros g Hg Hgp _. rewrite Hused. split; [done|by apply Hro].
      + intros [? _]. congruence.
      + intros _. split; [done|congruence]. }
  destruct (so_map _ _ Hok v Hv Hpte) as [Hfu _].
  assert (pte2page (pte_at m1 pgdir v) (set_pm m1 x) = Ret (frame_of (pte_at m1 pgdir v), set_pm m1 x))
    as Hp2p by (apply (pte2page_run _ pgdir); [done|done|by rewrite Hused]).
  destruct (decide (frame_of (pte_at m1 pgdir v) = page)) as [Heq|Hne].
  - destruct (page_ref_add_run (set_pm m1 x) pgdir page (-1) Hok2) as
      (y & Hrun & Hyi & Hyfr & Hyfree & Hyr & Hyo); [by rewrite Hused|].
    rewrite Hrp in Hyr. simpl in Hyfr, Hyfree, Hyo.
    assert (∀ g, ref_of (set_pm m1 y) g = ref_of m1 g) as Href.
    { intros g. destruct (decide (g = page)) as [->|Hg].
      - unfold ref_of at 1. simpl. rewrite Hyr. simpl. lia.
      - rewrite <-(Hro g Hg). unfold ref_of. simpl. by rewrite Hyo. }
    assert (used (set_pm m1 y) = used m1) as Hused3 by (unfold used; simpl; congruence).
    assert (maps (pte_at m1 pgdir v) page) as Hmaps by done.
    exists (set_pm m1 y). split_and!; try done.
    + step using (exact Hload). rewrite Hpte. unfold when. step using (exact Hp2p).
      rewrite decide_True by done. unfold page_ref_dec. by step using (exact Hrun).
    + apply space_ok_set_pm; [done|done|congruence|rewrite Hyfree, Hfree; set_solver|].
      intros g Hg. change (default 0 (page_ref g y)) with (ref_of (set_pm m1 y) g). rewrite Href.
      apply (so_ref _ _ Hok). by rewrite <-Hused3.
    + by rewrite Hused3.
    + change (pte_at (set_pm m1 y) pgdir) with (pte_at m1 pgdir). rewrite decide_True by done.
      rewrite Href. lia.
    + split_and!.
      * intros g Hg _ _. rewrite Hused3. done.
      * by rewrite Href.
      * done.
  - destruct (page_remove_pte_run (set_pm m1 x) pgdir la Hok2 Hv Hp Hpte) as (m3 & Hrun & Hw).
    fold v in Hrun, Hw. pose proof Hw as ((y & Hm3) & Hok3 & Hfr3 & Hr1 & Hr2 & Hr3).
    change (pte_at (set_pm m1 x) pgdir) with (pte_at m1 pgdir) in Hr1, Hr2, Hr3.
    assert (¬ maps (pte_at m1 pgdir v) page) as Hnmaps by (intros [_ ?]; done).
    assert (∀ w, in_range w → pte_at m3 pgdir w = if decide (w = v) then 0 else pte_at m1 pgdir w) as Hpt3.
    { intros w Hwr. by rewrite (pte_without (set_pm m1 x) m3 pgdir v w). }
    assert (ref_of m3 page = ref_of m1 page + 1) as Hrp3.
    { rewrite Hr3; [done|by rewrite Hused|]. intros ->. done. }
    exists m3. split_and!; try done.
    + step using (exact Hload). rewrite Hpte. unfold when. step using (exact Hp2p).
      rewrite decide_False by done. exact Hrun.
    + intros d. by rewrite (pde_without (set_pm m1 x) m3 pgdir v).
    + eapply used_without; [exact Hw|by rewrite Hused|]. intros ->. done.
    + split; [apply Hd|]. intros d. rewrite (pde_without (set_pm m1 x) m3 pgdir v) by done. apply Hd.
    + intros w Hwr Hwv. by rewrite Hpt3, decide_False.
    + intros f i Hf. rewrite Hm3. by apply (data_read_with_pte (set_pm m1 x)).
    + rewrite (Hpt3 v Hv), (decide_True (P := v = v)) by done.
      rewrite decide_False by (by intros [? _]).
      assert (count (pte_at m3 pgdir) page range_pages = count (pte_at m1 pgdir) page range_pages) as ->; [|lia].
      rewrite Hm3. change (pte_at (set_pm (with_pte (set_pm m1 x) pgdir v 0) y) pgdir)
        with (pte_at (with_pte (set_pm m1 x) pgdir v 0) pgdir).
      rewrite (count_without (set_pm m1 x) pgdir v page) by done.
      rewrite decide_False by (intros ->; done).
      change (pte_at (set_pm m1 x) pgdir) with (pte_at m1 pgdir). lia.
    + split_and!.
      * intros g Hg Hgp Hgm. assert (g ≠ frame_of (pte_at m1 pgdir v)) as Hgf.
        { intros ->. by apply Hgm. }
        split; [eapply used_without; [exact Hw|by rewrite Hused|done]|].
        rewrite Hr3; [by apply Hro|by rewrite Hused|done].
      * done.
      * intros _. split; [done|]. intros _. rewrite <-(Hro _ Hne). case_decide as Hone.
        -- rewrite (Hr1 Hone). set_solver.
        -- destruct (Hr2 Hone) as [Hf3 Hrf3]. split; [|done].
           unfold used. rewrite Hfr3, Hf3. rewrite <-Hused in Hfu. done.
Qed.

Lemma page_insert_run m pgdir page la perm :
  space_ok m pgdir → is_u32 la → in_range (vpn la) →
  swap_init_ok m = false ∨ present (pde_at m pgdir (vpn la / 1024)) = true ∨ pm_free (pm m) ≠ ∅ →
  page ∈ used m → data_frame m pgdir page → 0 ≤ perm < 4096 →
  ∃ r m', page_insert pgdir page la perm m = Ret (r, m') ∧
    ((r = 0 ∧ space_ok m' pgdir ∧
      pte_at m' pgdir (vpn la) = Z.lor (Z.lor (page2pa page) PTE_P) perm ∧
      (∀ w, in_range w → w ≠ vpn la → pte_at m' pgdir w = pte_at m pgdir w) ∧
      (∀ f i, f ∈ used m → data_frame m pgdir f → read m' (f, i) = read m (f, i)) ∧
      ref_after_insert m m' (pte_at m pgdir (vpn la)) page) ∨
     (r = - E_NO_MEM ∧ m' = m ∧ pm_free (pm m) = ∅ ∧ present (pde_at m pgdir (vpn la / 1024)) = false)).
Proof.
  intros Hok Hla Hv Hsw Hu Hd Hperm. unfold page_insert.
  destruct (get_pte_create m pgdir la Hok Hla Hv Hsw) as (r & m1 & Hget & Hr).
  destruct r as [a|]; [|exists (- E_NO_MEM), m1; split; [by step using (exact Hget)|right; tauto]].
  destruct Hr as (-> & Hp & Hok1 & _ & _ & _ & _ & Hfr1 & Hfree1 & Hpte1 & Href1 & Hdf1 & Hread1).
  assert (∀ g, g ∈ used m → g ∈ used m1) as Hused1.
  { intros g. unfold used. rewrite Hfr1. set_solver. }
  destruct (page_ref_inc_run m1 pgdir page Hok1 (Hused1 _ Hu)) as (x & Hinc & Hok2 & Hfr2 & Hfree2 & Hrp & Hro).
  destruct (page_insert_entry m1 x pgdir page la perm) as
    (m3 & Hrun & Hok3 & Hpde3 & Hu3 & Hd3 & Hoth3 & Hread3 & Hcnt3 & Hra); auto.
  destruct (insert_store m3 pgdir page la perm) as [Hst Hok4]; try done; [by rewrite Hpde3|].
  exists 0, (with_pte m3 pgdir (vpn la) (Z.lor (Z.lor (page2pa page) PTE_P) perm)). split.
  - step using (exact Hget). cbv iota. step using (exact Hinc).
    apply M_bind_Ret in Hrun as (pte & s1 & Hl & Hw). step using (exact Hl). step using (exact Hw).
    rewrite <-Hst, Hpde3. done.
  - left. assert (present (pde_at m3 pgdir (vpn la / 1024)) = true) as Hp3 by by rewrite Hpde3.
    destruct (with_pte_fields m3 pgdir (vpn la) (Z.lor (Z.lor (page2pa page) PTE_P) perm)) as (Hpm & _).
    split_and!; try done.
    + rewrite pte_with_pte by done. by rewrite decide_True.
    + intros w Hwr Hwv. rewrite pte_with_pte by done. rewrite decide_False by done.
      by rewrite Hoth3, Hpte1.
    + intros f i Hf Hfd. pose proof (Hdf1 f Hf Hfd) as Hfd1. destruct Hfd as [Hfn _].
      rewrite <-Hread1, <-Hread3 by done. apply data_read_with_pte; [done|done|].
      split; [done|]. intros e He. rewrite Hpde3. by apply Hfd1.
    + unfold ref_after_insert, used, ref_of. rewrite Hpm. rewrite <-(Hpte1 _ Hv).
      destruct Hra as (H1 & H2 & H3). split_and!.
      * intros g Hg Hgp Hgm. destruct (H1 g (Hused1 g Hg) Hgp Hgm) as [? Hg2]. split; [done|].
        unfold ref_of in Hg2. rewrite Hg2. by apply Href1.
      * intros Hm. unfold ref_of in H2. rewrite (H2 Hm). by apply Href1.
      * intros Hm. destruct (H3 Hm) as [H4 H5]. split.
        -- unfold ref_of in H4. rewrite H4. f_equal. by apply Href1.
        -- intros Hpres. specialize (H5 Hpres).
           assert (frame_of (pte_at m1 pgdir (vpn la)) ∈ used m) as Hfu.
           { rewrite Hpte1 in * by done. by apply (so_map _ _ Hok). }
           pose proof (Href1 _ Hfu) as Hfr. unfold ref_of in Hfr. rewrite <-Hfr. exact H5.
Qed.

(** Running out of frames for a page table, with and without swapping. *)
Lemma page_insert_exhausted m pgdir page la perm e :
  space_ok m pgdir → is_u32 la → present (pde_at m pgdir (vpn la / 1024)) = false → swap_init_ok m = true →
  pm_free (pm m) = ∅ → swap_out 1 m = Err e → page_insert pgdir page la perm m = Err e.
Proof.
  intros Hok Hla Hp Hsw Hno Hout. pose proof (alloc_page_exhausted m e (so_inv _ _ Hok) Hsw Hno Hout) as Hrun.
  assert (get_pte pgdir la true m = Err e) as Hget.
  { unfold get_pte. rewrite PDX_vpn by done. step using reflexivity. fold (pde_at m pgdir (vpn la / 1024)). rewrite Hp.
    simpl negb. cbv iota. unfold get_pte_alloc, mbind, M_bind. by rewrite Hrun. }
  unfold page_insert, mbind, M_bind. by rewrite Hget.
Qed.

Lemma page_insert_none m pgdir page la perm :
  space_ok m pgdir → is_u32 la → present (pde_at m pgdir (vpn la / 1024)) = false →
  swap_init_ok m = false → pm_free (pm m) = ∅ → page_insert pgdir page la perm m = Ret (- E_NO_MEM, m).
Proof.
  intros Hok Hla Hp Hsw Hno.
  destruct (alloc_page_run m (so_inv _ _ Hok) (or_introl Hsw)) as ([p|] & x & Hrun & Hr); [set_solver|].
  destruct Hr as [-> _]. assert (set_pm m (pm m) = m) as Hm by (clear; by destruct m). rewrite Hm in Hrun.
  assert (get_pte_alloc pgdir la m = Ret (false, m)) as Halloc.
  { unfold get_pte_alloc. by step using (exact Hrun). }
  assert (get_pte pgdir la true m = Ret (None, m)) as Hget.
  { unfold get_pte. rewrite PDX_vpn by done. step using reflexivity. fold (pde_at m pgdir (vpn la / 1024)). rewrite Hp.
    simpl negb. cbv iota. by step using (exact Halloc). }
  unfold page_insert. by step using (exact Hget).
Qed.


(** ** Unmapping a range *)

(** The entry of page [w] after the pages [s .. e - 1] were unmapped. *)
Definition unmapped_pte (m : machine) (pgdir s e w : Z) : Z :=
  if decide (s ≤ w < e ∧ present (pte_at m pgdir w) = true) then 0 else pte_at m pgdir w.

(** [m'] is [m] after some pages of the range were unmapped, one after the other. *)
Definition unmaps (pgdir : Z) : relation machine := rtc (λ m m',
  ∃ v, space_ok m pgdir ∧ in_range v ∧ present (pde_at m pgdir (v / 1024)) = true ∧ present (pte_at m pgdir v) = true ∧
    without m m' pgdir v).

(** One round of the loop, for a page whose table exists. *)
Lemma unmap_step m pgdir start :
  space_ok m pgdir → is_u32 start → in_range (vpn start) →
  present (pde_at m pgdir (vpn start / 1024)) = true →
  ∃ m', (pte ← load (frame_of (pde_at m pgdir (vpn start / 1024)), vpn start mod 1024);
         when (negb (pte =? 0)) (page_remove_pte pgdir start
           (frame_of (pde_at m pgdir (vpn start / 1024)), vpn start mod 1024)) ;;
         mret (u32 (start + PGSIZE))) m = Ret (u32 (start + PGSIZE), m') ∧ space_ok m' pgdir ∧ unmaps pgdir m m' ∧
    ∀ w, in_range w → pte_at m' pgdir w = unmapped_pte m pgdir (vpn start) (vpn start + 1) w.
Proof.
  intros Hok Hs Hv Hp.
  assert (load (frame_of (pde_at m pgdir (vpn start / 1024)), vpn start mod 1024) m =
    Ret (pte_at m pgdir (vpn start), m)) as Hload by (rewrite pte_at_present by done; done).
  destruct (present (pte_at m pgdir (vpn start))) eqn:Hpte.
  - destruct (page_remove_pte_run m pgdir start Hok Hv Hp Hpte) as (m' & Hrun & Hw).
    exists m'. split_and!; [|apply Hw|apply rtc_once; eauto 10|].
    + step using (exact Hload). rewrite (proj2 (Z.eqb_neq _ 0)) by (intros Hz; by rewrite Hz in Hpte).
      unfold negb, when. by step using (exact Hrun).
    + intros w Hwr. rewrite (pte_without m m' pgdir (vpn start)) by done. unfold unmapped_pte.
      destruct (decide (w = vpn start)) as [->|Hne]; [by rewrite decide_True by (split; [lia|done])|].
      by rewrite decide_False by lia.
  - exists m. split_and!; [|done|apply rtc_refl|].
    + step using (exact Hload). destruct (pte_at m pgdir (vpn start) =? 0); [done|]. simpl.
      unfold page_remove_pte. erewrite (M_bind_step (_ ≫= _)); [done|].
      step using (exact Hload). by rewrite Hpte.
    + intros w Hwr. unfold unmapped_pte. rewrite decide_False; [done|]. intros [Hw Hwp].
      replace w with (vpn start) in Hwp by lia. congruence.
Qed.

Lemma unmapped_pte_join m m' pgdir s k e w :
  s ≤ k ≤ e → (∀ w, in_range w → pte_at m' pgdir w = unmapped_pte m pgdir s k w) → in_range w →
  unmapped_pte m' pgdir k e w = unmapped_pte m pgdir s e w.
Proof.
  intros Hk Hm' Hw. unfold unmapped_pte at 1. rewrite (Hm' w Hw). unfold unmapped_pte.
  destruct (decide (s ≤ w < k ∧ present (pte_at m pgdir w) = true)) as [Hd|Hd].
  - rewrite decide_False by (by intros [_ ?]). rewrite decide_True; [done|]. intuition lia.
  - destruct (decide (k ≤ w < e ∧ present (pte_at m pgdir w) = true)) as [Hd2|Hd2].
    + rewrite decide_True; [done|]. intuition lia.
    + rewrite decide_False; [done|]. intros [Hwr Hwp].
      destruct (decide (w < k)); [apply Hd|apply Hd2]; (split; [lia|done]).
Qed.

Lemma vpn_page k : vpn (4096 * k) = k.
Proof. unfold vpn. rewrite Z.mul_comm. by apply Z.div_mul. Qed.

(** Where a loop over pages goes on when page [s] has no table. *)
Lemma next_table s : 0 ≤ s → 4096 * s < USERTOP →
  ROUNDDOWN (u32 (4096 * s + PTSIZE)) PTSIZE = 4096 * ((s / 1024 + 1) * 1024).
Proof.
  intros. unfold USERTOP in *. unfold PTSIZE. rewrite u32_small by lia. rewrite ROUNDDOWN_spec by lia.
  replace (4096 * s + 4096 * 1024) with (4096 * (s + 1 * 1024)) by lia.
  rewrite Z.div_mul_cancel_l by lia. rewrite Z.div_add by lia. lia.
Qed.

Lemma unmap_loop_run fuel m pgdir s e :
  space_ok m pgdir → 0 ≤ s < e → 4096 * e ≤ USERTOP → e - s ≤ Z.of_nat fuel →
  (∀ w, s ≤ w < e → in_range w) →
  ∃ m', unmap_loop fuel pgdir (4096 * s) (4096 * e) m = Ret (tt, m') ∧ space_ok m' pgdir ∧ unmaps pgdir m m' ∧
    ∀ w, in_range w → pte_at m' pgdir w = unmapped_pte m pgdir s e w.
Proof.
  revert m s. induction fuel as [|fuel IH]; intros m s Hok Hs He Hf Hr; [lia|].
  unfold USERTOP in He. assert (is_u32 (4096 * s)) as Hu by lia.
  assert (∀ k m1, s < k → 4096 * k < 2 ^ 32 → space_ok m1 pgdir → unmaps pgdir m m1 →
    (∀ w, in_range w → pte_at m1 pgdir w = unmapped_pte m pgdir s (Z.min k e) w) →
    ∃ m', (if negb (4096 * k =? 0) && (4096 * k <? 4096 * e)
           then unmap_loop fuel pgdir (4096 * k) (4096 * e) else mret tt) m1 = Ret (tt, m') ∧
      space_ok m' pgdir ∧ unmaps pgdir m m' ∧ ∀ w, in_range w → pte_at m' pgdir w = unmapped_pte m pgdir s e w) as Hnext.
  { intros k m1 Hk Hku Hok1 Hu1 Hm1. rewrite (proj2 (Z.eqb_neq _ 0)) by lia. simpl.
    destruct (Z.ltb_spec (4096 * k) (4096 * e)).
    - rewrite Z.min_l in Hm1 by lia. destruct (IH m1 k) as (m' & Hrun & Hok' & Hu' & Hm'); [done|lia|done|lia| |].
      + intros w Hw. apply Hr. lia.
      + exists m'. split_and!; [done|done|by etrans|]. intros w Hw. rewrite Hm' by done.
        apply unmapped_pte_join; [lia|done|done].
    - rewrite Z.min_r in Hm1 by lia. by exists m1. }
  cbn [unmap_loop]. destruct (present (pde_at m pgdir (s / 1024))) eqn:Hp.
  - destruct (unmap_step m pgdir (4096 * s)) as (m1 & Hrun & Hok1 & Hu1 & Hm1); rewrite ?vpn_page; try done.
    { apply Hr. lia. }
    rewrite vpn_page in Hrun, Hm1.
    step using (apply get_pte_find; rewrite ?vpn_page; [done|done|apply Hr; lia|done]).
    rewrite vpn_page. cbv iota. step using (exact Hrun).
    replace (u32 (4096 * s + PGSIZE)) with (4096 * (s + 1)).
    2:{ unfold PGSIZE. rewrite u32_small; lia. }
    apply Hnext; [lia|lia|done|done|]. by rewrite Z.min_l by lia.
  - step using (apply get_pte_absent; rewrite ?vpn_page; done). step using reflexivity.
    set (k := (s / 1024 + 1) * 1024). pose proof (Z.div_mod s 1024 ltac:(lia)) as Hdm.
    pose proof (Z.mod_pos_bound s 1024 ltac:(lia)).
    replace (ROUNDDOWN (u32 (4096 * s + PTSIZE)) PTSIZE) with (4096 * k) by (symmetry; apply next_table; unfold USERTOP; lia).
    apply Hnext; [lia|lia|done|apply rtc_refl|]. intros w Hw. unfold unmapped_pte. rewrite decide_False; [done|].
    intros [Hws Hwp]. rewrite pte_at_absent in Hwp; [done|].
    replace (w / 1024) with (s / 1024); [done|]. unfold k in Hws.
    apply Z.div_unique_pos with (w - 1024 * (s / 1024)); lia.
Qed.

Lemma unmap_range_run m pgdir start end_ :
  space_ok m pgdir → start mod PGSIZE = 0 → end_ mod PGSIZE = 0 → USER_ACCESS start end_ = true →
  (∀ w, vpn start ≤ w < vpn end_ → in_range w) →
  ∃ m', unmap_range pgdir start end_ m = Ret (tt, m') ∧ space_ok m' pgdir ∧ unmaps pgdir m m' ∧
    ∀ w, in_range w →
      pte_at m' pgdir w =
        if decide (vpn start ≤ w < vpn end_ ∧ present (pte_at m pgdir w) = true) then 0
        else pte_at m pgdir w.
Proof.
  intros Hok Hs He Hua Hr. unfold unmap_range.
  step using (unfold assert; rewrite Hs, He; reflexivity).
  step using (unfold assert; rewrite Hua; reflexivity).
  unfold USER_ACCESS, USERBASE in Hua. apply andb_prop in Hua as [Hua He2].
  apply andb_prop in Hua as [Hs1 Hse]. z_bool.
  assert (start = 4096 * vpn start) as Hs4.
  { unfold vpn. pose proof (Z.div_mod start 4096). unfold PGSIZE in Hs. lia. }
  assert (end_ = 4096 * vpn end_) as He4.
  { unfold vpn. pose proof (Z.div_mod end_ 4096). unfold PGSIZE in He. lia. }
  destruct (unmap_loop_run (range_fuel start end_) m pgdir (vpn start) (vpn end_))
    as (m' & Hrun & Hok' & Hu' & Hm'); [done|lia|lia| |done|].
  - unfold range_fuel, PGSIZE. replace (end_ - start) with ((vpn end_ - vpn start) * 4096) by lia.
    rewrite Z.div_mul by lia. lia.
  - rewrite <-Hs4, <-He4 in Hrun. exists m'. split_and!; [done|done|done|]. exact Hm'.
Qed.

(** C28: [unmap_range] ends within one round per page, unmaps every mapped page of the range, keeps
    every other translation (and the entries of swapped-out pages), and leaves a well-formed address
    space. *)
Theorem unmap_range_correct m pgdir start end_ :
  space_ok m pgdir → start mod PGSIZE = 0 → end_ mod PGSIZE = 0 → USER_ACCESS start end_ = true →
  (∀ w, vpn start ≤ w < vpn end_ → in_range w) →
  ∃ m', unmap_range pgdir start end_ m = Ret (tt, m') ∧ space_ok m' pgdir ∧
    ∀ w, in_range w →
      pte_at m' pgdir w =
        if decide (vpn start ≤ w < vpn end_ ∧ present (pte_at m pgdir w) = true) then 0
        else pte_at m pgdir w.
Proof.
  intros Hok Hs He Hua Hr. destruct (unmap_range_run m pgdir start end_ Hok Hs He Hua Hr) as (m' & Hrun & Hok' & _ & Hm').
  by exists m'.
Qed.

End page_table.

(** * A small machine *)

(** The first-fit manager of FitAlloc.v with frames 2, 3 and 4 allocated, frame 2 referenced once;
    directory in frame 0, user space. *)
Definition demo_pm : pmm := FitAlloc.run (FitAlloc.fit_set_page_ref 2 1) FitAlloc.demo_alloc.
#[local] Existing Instance FitAlloc.firstfit_pmm_manager.
#[local] Existing Instance FitAlloc.firstfit_laws.
Definition user_lo : Z := 0.
Definition user_hi : Z := 704.
#[local] Instance no_swap : @swapper pmm := {| swap_out := λ _, fail EPanic |}.

Definition demo_empty : @machine pmm := mkMachine demo_pm ∅ 12 0 ∅ false.
(** Page 0x800 (address 0x800000) mapped to frame 2 through a table in frame 3. *)
Definition demo_table : @machine pmm := with_table demo_empty 0 2 3.
Definition demo_entry : Z := Z.lor (Z.lor (page2pa 2) PTE_P) (Z.lor PTE_U PTE_W).
Definition demo_mapped : @machine pmm := with_pte demo_table 0 2048 demo_entry.

Lemma demo_pm_inv : FitAlloc.fit_inv demo_pm.
Proof.
  destruct (FitAlloc.fit_set_ref_run FitAlloc.demo_alloc 2 1) as (s' & Hrun & Hinv & _).
  - apply FitAlloc.demo_alloc_inv.
  - apply FitAlloc.demo_alloc_inv. apply (bool_decide_unpack _). by vm_compute.
  - unfold demo_pm, FitAlloc.run. by rewrite Hrun.
Qed.

Lemma demo_used : used demo_empty = {[ 2; 3; 4 ]}.
Proof. apply (bool_decide_unpack _). by vm_compute. Qed.

Lemma demo_pde d : pde_at demo_empty 0 d = 0.
Proof. unfold pde_at, read, demo_empty, mem. by rewrite lookup_empty. Qed.
Lemma demo_pte v : pte_at demo_empty 0 v = 0.
Proof. apply pte_at_absent. by rewrite demo_pde. Qed.
Lemma demo_count f l : count (pte_at demo_empty 0) f l = 0.
Proof. apply count_zero. intros v _ [Hp _]. by rewrite demo_pte in Hp. Qed.

Lemma demo_empty_ok : space_ok user_lo user_hi demo_empty 0.
Proof.
  split.
  - apply demo_pm_inv.
  - intros f Hf.
    assert (set_Forall (λ f, f < 12) (pm_frames (pm demo_empty))) as H.
    { apply (bool_decide_unpack _). by vm_compute. }
    by apply H.
  - apply (bool_decide_unpack _). by vm_compute.
  - intros d _. by rewrite demo_pde.
  - intros d d' _ _. by rewrite demo_pde.
  - intros v _. by rewrite demo_pte.
  - intros f Hf. rewrite demo_count. rewrite demo_used in Hf.
    assert (set_Forall (λ f, 0 ≤ ref_of demo_empty f) ({[ 2; 3; 4 ]} : gset Z)) as H.
    { apply (bool_decide_unpack _). by vm_compute. }
    by apply H.
  - intros _ v e _ He. unfold demo_empty, tlb in He. by rewrite lookup_empty in He.
Qed.

Lemma demo_table_frame : data_frame user_lo user_hi demo_empty 0 3.
Proof. split; [done|]. intros d _. by rewrite demo_pde. Qed.

Lemma demo_table_ok : space_ok user_lo user_hi demo_table 0.
Proof.
  apply space_ok_with_table.
  - apply demo_empty_ok.
  - unfold user_lo, user_hi. lia.
  - by rewrite demo_pde.
  - rewrite demo_used. set_solver.
  - apply demo_table_frame.
  - apply demo_count.
Qed.

Lemma demo_data f : f ∈ ({[ 2; 4 ]} : gset Z) → data_frame user_lo user_hi demo_table 0 f.
Proof.
  intros Hf. split; [set_solver|]. intros d Hd. unfold demo_table. rewrite pde_with_table by done.
  case_decide; [|done]. rewrite frame_of_new_pde. intros _ <-. set_solver.
Qed.

Lemma demo_mapped_ok : space_ok user_lo user_hi demo_mapped 0.
Proof.
  apply space_ok_with_pte; [apply demo_table_ok| |done|].
  - unfold in_range, user_lo, user_hi. lia.
  - intros _. unfold demo_entry. rewrite frame_of_entry by (vm_compute; intuition discriminate).
    assert (∀ v, in_range user_lo user_hi v → pte_at demo_table 0 v = 0) as Hz.
    { intros v Hv. unfold demo_table. rewrite (pte_with_table user_lo user_hi).
      - apply demo_pte.
      - apply demo_empty_ok.
      - apply demo_table_frame.
      - unfold user_lo, user_hi; lia.
      - by rewrite demo_pde.
      - done. }
    split_and!.
    + change (used demo_table) with (used demo_empty). rewrite demo_used. set_solver.
    + apply demo_data. set_solver.
    + rewrite count_zero.
      * rewrite Hz by (unfold in_range, user_lo, user_hi; lia). by vm_compute.
      * intros v Hv [Hp _]. rewrite Hz in Hp; [done|]. by apply range_pages_elem in Hv.
Qed.

Lemma user_range w : 0 ≤ w < 704 * 1024 → in_range user_lo user_hi w.
Proof. unfold in_range, user_lo, user_hi. lia. Qed.

Lemma page_remove_correct_witness :
  ∃ m', page_remove 0 0x800000 demo_mapped = Ret (tt, m') ∧
    present (pte_at m' 0 2048) = false ∧ 2 ∈ pm_free (pm m').
Proof.
  destruct (page_remove_correct user_lo user_hi) with (m := demo_mapped) (pgdir := 0) (la := 0x800000)
    as (m' & Hrun & _ & Hp & _ & Hu).
  - apply demo_mapped_ok.
  - lia.
  - apply user_range. vm_compute. intuition discriminate.
  - exists m'. split; [exact Hrun|]. split; [exact Hp|].
    change (unmapped demo_mapped m' 2) in Hu. destruct Hu as (_ & H1 & _).
    rewrite H1; [set_solver|]. vm_compute. reflexivity.
Defined.


Lemma unmap_range_correct_witness :
  ∃ m', unmap_range 0 0x800000 0x802000 demo_mapped = Ret (tt, m') ∧ pte_at m' 0 2048 = 0.
Proof.
  destruct (unmap_range_correct user_lo user_hi)
    with (m := demo_mapped) (pgdir := 0) (start := 0x800000) (end_ := 0x802000) as (m' & Hrun & _ & Hp).
  - apply demo_mapped_ok.
  - reflexivity.
  - reflexivity.
  - reflexivity.
  - intros w Hw. apply user_range. vm_compute (vpn _) in Hw. lia.
  - exists m'. split; [exact Hrun|]. rewrite Hp by (apply user_range; lia).
    rewrite decide_True; [reflexivity|]. split; [vm_compute; intuition discriminate|reflexivity].
Defined.

End PageTable.
