(* ===== verification/Vma.v ===== *)
(** Virtual memory areas: [struct vma_struct] and [struct mm_struct] of kern/mm/vmm.h and the
    functions of kern/mm/vmm.c that work on the list of areas (vma_create, find_vma,
    insert_vma_struct, check_vma_overlap, mm_map, mm_destroy, user_mem_check).

    A [struct vma_struct *] is the key of the area in [vmas]; [mmap_list] holds these keys in list
    order.  [kmalloc] is a parameter: it answers a pointer that is not in use, or NULL. *)
From S2P Require Import Prelude Dll PageTable.

Module Vma.
Import Dll.
Set Default Proof Using "Type".

Record vma_struct := mkVma {
  vm_start : Z; vm_end : Z; vm_flags : Z; last_used_time : Z }.

Definition VM_READ : Z := 1.
Definition VM_WRITE : Z := 2.
Definition VM_EXEC : Z := 4.
Definition VM_STACK : Z := 8.

Record mm_struct := mkMm {
  vmas : gmap Z vma_struct;      (* the areas kmalloc has handed out *)
  mmap_list : list Z;
  mmap_cache : option Z;
  map_count : Z;
  mm_count : Z;
  time_now : Z }.

Definition set_vmas (m : mm_struct) (v : gmap Z vma_struct) : mm_struct :=
  mkMm v (mmap_list m) (mmap_cache m) (map_count m) (mm_count m) (time_now m).
Definition set_list (m : mm_struct) (l : list Z) : mm_struct :=
  mkMm (vmas m) l (mmap_cache m) (map_count m) (mm_count m) (time_now m).
Definition set_cache (m : mm_struct) (c : option Z) : mm_struct :=
  mkMm (vmas m) (mmap_list m) c (map_count m) (mm_count m) (time_now m).
Definition set_count (m : mm_struct) (n : Z) : mm_struct :=
  mkMm (vmas m) (mmap_list m) (mmap_cache m) n (mm_count m) (time_now m).
Definition set_time (m : mm_struct) (t : Z) : mm_struct :=
  mkMm (vmas m) (mmap_list m) (mmap_cache m) (map_count m) (mm_count m) t.

(** The list, cache and counters [mm_create] sets; the descriptor itself comes from kmalloc. *)
Definition mm_create : mm_struct := mkMm ∅ [] None 0 0 0.

Definition vma_at (p : Z) : M mm_struct vma_struct := deref (λ m, vmas m !! p).

Definition contains (v : vma_struct) (addr : Z) : bool :=
  (vm_start v <=? addr) && (addr <? vm_end v).

(** The walk of [find_vma] over the list. *)
Fixpoint find_in_list (addr : Z) (todo : list Z) : M mm_struct (option Z) :=
  match todo with
  | [] => mret None
  | p :: todo' =>
      v ← vma_at p;
      if contains v addr then mret (Some p) else find_in_list addr todo'
  end.

Definition find_vma (addr : Z) : M mm_struct (option Z) :=
  c ← gets mmap_cache;
  hit ← match c with
        | Some p => v ← vma_at p; mret (contains v addr)
        | None => mret false
        end;
  l ← gets mmap_list;
  r ← (if hit : bool then mret c else find_in_list addr l);
  match r with
  | Some p =>
      v ← vma_at p;
      modify (λ m, set_vmas (set_cache m (Some p))
        (<[p := mkVma (vm_start v) (vm_end v) (vm_flags v) (time_now m)]> (vmas m))) ;;
      mret (Some p)
  | None => mret None
  end.

Definition check_vma_overlap (prev next : vma_struct) : M mm_struct unit :=
  assert (vm_start prev <? vm_end prev) ;;
  assert (vm_end prev <=? vm_start next) ;;
  assert (vm_start next <? vm_end next).

(** The walk of [insert_vma_struct]: [le_prev] and [le_next], [None] for the list head. *)
Fixpoint insert_walk (start : Z) (le_prev : option Z) (todo : list Z) : M mm_struct (option Z * option Z) :=
  match todo with
  | [] => mret (le_prev, None)
  | p :: todo' =>
      v ← vma_at p;
      if start <? vm_start v then mret (le_prev, Some p)
      else insert_walk start (Some p) todo'
  end.

Definition insert_vma_struct (vma : Z) : M mm_struct unit :=
  v ← vma_at vma;
  assert (vm_start v <? vm_end v) ;;
  l ← gets mmap_list;
  pn ← insert_walk (vm_start v) None l;
  match pn.1 with
  | Some q => w ← vma_at q; check_vma_overlap w v
  | None => mret tt
  end ;;
  match pn.2 with
  | Some q => w ← vma_at q; check_vma_overlap v w
  | None => mret tt
  end ;;
  modify (λ m, set_list m (seq_add_after pn.1 vma (mmap_list m))) ;;
  modify (λ m, set_count m (map_count m + 1)).

(** [mm_destroy]: every area is unlinked and freed. *)
Definition mm_destroy : M mm_struct unit :=
  n ← gets mm_count;
  assert (n =? 0) ;;
  modify (λ m, set_vmas (set_list m []) (foldr delete (vmas m) (mmap_list m))).

Section kmalloc.
Context (kmalloc : gmap Z vma_struct → option Z).

Definition vma_create (start end_ flags : Z) : M mm_struct (option Z) :=
  r ← gets (λ m, kmalloc (vmas m));
  match r with
  | Some p => modify (λ m, set_vmas m (<[p := mkVma start end_ flags 0]> (vmas m))) ;; mret (Some p)
  | None => mret None
  end.

Definition mm_map (addr len flags : Z) : M mm_struct (Z * option Z) :=
  modify (λ m, set_time m (u32 (time_now m + 1))) ;;
  let start := ROUNDDOWN addr PGSIZE in
  let end_ := ROUNDUP (u32 (addr + len)) PGSIZE in
  if negb (PageTable.USER_ACCESS start end_) then mret (- E_INVAL, None) else
  r ← find_vma start;
  clash ← match r with
          | Some p => v ← vma_at p; mret (vm_start v <? end_)
          | None => mret false
          end;
  if clash : bool then mret (- E_INVAL, None) else
  vma ← vma_create start end_ flags;
  match vma with
  | None => mret (- E_NO_MEM, None)
  | Some p => insert_vma_struct p ;; mret (0, Some p)
  end.

End kmalloc.

(** The loop of [user_mem_check]; it ends after at most as many rounds as there are areas. *)
Fixpoint mem_check_loop (fuel : nat) (write : bool) (start end_ : Z) : M mm_struct bool :=
  if end_ <=? start then mret true else
  match fuel with
  | O => fail EFuel
  | S fuel' =>
      r ← find_vma start;
      match r with
      | None => mret false
      | Some p =>
          v ← vma_at p;
          if start <? vm_start v then mret false
          else if Z.land (vm_flags v) (if write then VM_WRITE else VM_READ) =? 0 then mret false
          else if write && negb (Z.land (vm_flags v) VM_STACK =? 0) && (start <? vm_start v + PGSIZE)
          then mret false
          else mem_check_loop fuel' write (vm_end v) end_
      end
  end.

Definition user_mem_check (addr len : Z) (write : bool) : M mm_struct bool :=
  if negb (PageTable.USER_ACCESS addr (u32 (addr + len))) then mret false else
  l ← gets mmap_list;
  mem_check_loop (S (length l)) write addr (u32 (addr + len)).

(** * The invariant *)

(** The areas in list order. *)
Definition areas (m : mm_struct) : list vma_struct := omap (λ p, vmas m !! p) (mmap_list m).

(** Areas are not empty, ordered by address and disjoint. *)
Fixpoint ordered (l : list vma_struct) : Prop :=
  match l with
  | [] => True
  | v :: l' => vm_start v < vm_end v ∧ Forall (λ w, vm_end v ≤ vm_start w) l' ∧ ordered l'
  end.

Record mm_ok (m : mm_struct) : Prop := {
  mo_nodup : NoDup (mmap_list m);
  mo_alive : ∀ p, p ∈ mmap_list m → is_Some (vmas m !! p);
  mo_ordered : ordered (areas m);
  mo_cache : ∀ p, mmap_cache m = Some p → p ∈ mmap_list m;
  mo_count : map_count m = Z.of_nat (length (mmap_list m)) }.

(** An area without its time stamp, which only page replacement reads. *)
Definition extent (v : vma_struct) : Z * Z * Z := (vm_start v, vm_end v, vm_flags v).

(** The pointers [l] lead to the areas [vs]. *)
Definition links (m : mm_struct) (l : list Z) (vs : list vma_struct) : Prop :=
  Forall2 (λ p v, vmas m !! p = Some v) l vs.

Lemma links_omap m l vs : links m l vs → omap (λ p, vmas m !! p) l = vs.
Proof. induction 1 as [|p v l vs Hp _ IH]; [done|]. csimpl. by rewrite Hp, IH. Qed.

Lemma mm_ok_links m : mm_ok m → links m (mmap_list m) (areas m).
Proof.
  intros Hok. pose proof (mo_alive _ Hok) as Ha. unfold areas. clear Hok.
  induction (mmap_list m) as [|p l IH]; [constructor|]. csimpl.
  destruct (Ha p) as [v Hv]; [set_solver|]. rewrite Hv. constructor; [done|]. apply IH. set_solver.
Qed.

Lemma links_elem m l vs v : links m l vs → v ∈ vs → ∃ p, p ∈ l ∧ vmas m !! p = Some v.
Proof.
  intros H Hv. apply list_elem_of_lookup in Hv as (i & Hi).
  eapply Forall2_lookup_r in H as (p & Hp & ?); [|done]. exists p.
  split; [by eapply list_elem_of_lookup_2|done].
Qed.

Lemma links_elem_l m l vs p : links m l vs → p ∈ l → ∃ v, v ∈ vs ∧ vmas m !! p = Some v.
Proof.
  intros H Hp. apply list_elem_of_lookup in Hp as (i & Hi).
  eapply Forall2_lookup_l in H as (v & Hv & ?); [|done]. exists v.
  split; [by eapply list_elem_of_lookup_2|done].
Qed.

Lemma vma_at_run m p v : vmas m !! p = Some v → vma_at p m = Ret (v, m).
Proof. intros E. unfold vma_at, deref. by rewrite E. Qed.

(** ** Lookup *)

Lemma find_in_list_run m addr l vs :
  links m l vs →
  ∃ r, find_in_list addr l m = Ret (r, m) ∧
    match r with
    | Some p => p ∈ l ∧ ∃ v, vmas m !! p = Some v ∧ contains v addr = true
    | None => Forall (λ v, contains v addr = false) vs
    end.
Proof.
  induction 1 as [|p v l vs Hp _ (r & Hrun & Hr)]; [by exists None|].
  destruct (contains v addr) eqn:Hc.
  - exists (Some p). cbn [find_in_list]. step using (by apply vma_at_run). rewrite Hc.
    split; [done|]. split; [set_solver|eauto].
  - exists r. cbn [find_in_list]. step using (by apply vma_at_run). rewrite Hc. split; [done|].
    destruct r; [|by constructor]. destruct Hr. split; [set_solver|done].
Qed.

(** Stamping an area keeps everything but the stamp. *)
Lemma stamp_extents m p v t (l : list Z) :
  vmas m !! p = Some v →
  extent <$> omap (λ q, <[p := mkVma (vm_start v) (vm_end v) (vm_flags v) t]> (vmas m) !! q) l =
  extent <$> omap (λ q, vmas m !! q) l.
Proof.
  intros Hp. induction l as [|q l IH]; [done|]. csimpl.
  destruct (decide (q = p)) as [->|Hq].
  - rewrite lookup_insert_eq, Hp. simpl. by f_equal.
  - rewrite lookup_insert_ne by done. destruct (vmas m !! q); simpl; [by f_equal|done].
Qed.

Lemma ordered_extent l l' : extent <$> l = extent <$> l' → ordered l → ordered l'.
Proof.
  revert l'. induction l as [|v l IH]; intros [|v' l'] He; try done.
  rewrite !fmap_cons in He.   injection He as Hs Hend Hf He. simpl. rewrite Hs, Hend. intros (H1 & H2 & H3).
  split_and!; [done| |by apply IH].
  rewrite Forall_forall in H2 |- *. intros w Hw.
  assert (extent w ∈ extent <$> l) as Hin by (rewrite He; by apply list_elem_of_fmap_2).
  apply list_elem_of_fmap in Hin as (w' & Hw' & Hin). specialize (H2 w' Hin).
  unfold extent in Hw'. congruence.
Qed.

Lemma find_vma_run m addr :
  mm_ok m →
  ∃ r m', find_vma addr m = Ret (r, m') ∧ mm_ok m' ∧ mmap_list m' = mmap_list m ∧
    (∀ p, is_Some (vmas m' !! p) ↔ is_Some (vmas m !! p)) ∧
    extent <$> areas m' = extent <$> areas m ∧
    match r with
    | Some p => p ∈ mmap_list m ∧ mmap_cache m' = Some p ∧
                ∃ v, vmas m' !! p = Some v ∧ contains v addr = true ∧ last_used_time v = time_now m
    | None => m' = m ∧ Forall (λ v, contains v addr = false) (areas m)
    end.
Proof.
  intros Hok. pose proof (mm_ok_links _ Hok) as Hl.
  destruct (find_in_list_run m addr _ _ Hl) as (r0 & Hrun0 & Hr0).
  assert (∃ hit r, match mmap_cache m with
      | Some p => v ← vma_at p; mret (contains v addr) | None => mret false end m = Ret (hit, m) ∧
    (if hit : bool then mret (mmap_cache m) else find_in_list addr (mmap_list m)) m = Ret (r, m) ∧
    match r with
    | Some p => p ∈ mmap_list m ∧ ∃ v, vmas m !! p = Some v ∧ contains v addr = true
    | None => Forall (λ v, contains v addr = false) (areas m)
    end) as (hit & r & Hhit & Hlook & Hr).
  { destruct (mmap_cache m) as [p|] eqn:Hc; [|exists false, r0; done].
    pose proof (mo_cache _ Hok p Hc) as Hp. destruct (mo_alive _ Hok p Hp) as [v Hv].
    destruct (contains v addr) eqn:Hcv.
    - exists true, (Some p). split_and!; [|done|done|eauto].
      step using (by apply vma_at_run). by rewrite Hcv.
    - exists false, r0. split_and!; [|done|done]. step using (by apply vma_at_run). by rewrite Hcv. }
  assert (∀ r1 s1, match r with
    | Some p => v ← vma_at p;
        modify (λ m, set_vmas (set_cache m (Some p))
          (<[p := mkVma (vm_start v) (vm_end v) (vm_flags v) (time_now m)]> (vmas m))) ;; mret (Some p)
    | None => mret None end m = Ret (r1, s1) → find_vma addr m = Ret (r1, s1)) as Hfind.
  { intros r1 s1 H. unfold find_vma. step using reflexivity. step using (exact Hhit).
    step using reflexivity. by step using (exact Hlook). }
  destruct r as [p|].
  - destruct Hr as (Hp & v & Hv & Hcv).
    set (v' := mkVma (vm_start v) (vm_end v) (vm_flags v) (time_now m)) in *.
    exists (Some p), (set_vmas (set_cache m (Some p)) (<[p := v']> (vmas m))).
    assert (∀ q, is_Some (<[p := v']> (vmas m) !! q) ↔ is_Some (vmas m !! q)) as Hal.
    { intros q. destruct (decide (q = p)) as [->|].
      - rewrite lookup_insert_eq, Hv. done.
      - by rewrite lookup_insert_ne. }
    assert (extent <$> areas (set_vmas (set_cache m (Some p)) (<[p := v']> (vmas m))) =
            extent <$> areas m) as Hext by by apply stamp_extents.
    split_and!; try done.
    + apply Hfind. by step using (by apply vma_at_run).
    + split; simpl; try apply Hok.
      * intros q Hq. apply Hal. by apply (mo_alive _ Hok).
      * eapply ordered_extent; [symmetry; exact Hext|apply Hok].
      * by intros ? [= <-].
    + exists v'. simpl. by rewrite lookup_insert_eq.
  - exists None, m. split_and!; try done. by apply Hfind.
Qed.

(** Two areas of an ordered list that contain the same address are the same. *)
Lemma ordered_unique vs i j v w addr :
  ordered vs → vs !! i = Some v → vs !! j = Some w → contains v addr = true →
  contains w addr = true → i = j.
Proof.
  unfold contains. intros Ho Hi Hj Hv Hw. apply andb_prop in Hv as [??], Hw as [??]. z_bool.
  revert i j Hi Hj. induction vs as [|x vs IH]; [done|]. destruct Ho as (Hx & Hf & Ho).
  rewrite Forall_forall in Hf.
  intros [|i] [|j] Hi Hj; simplify_eq/=; [done|..].
  - specialize (Hf w (list_elem_of_lookup_2 _ _ _ Hj)). lia.
  - specialize (Hf v (list_elem_of_lookup_2 _ _ _ Hi)). lia.
  - f_equal. by apply IH.
Qed.

(** [find_vma] answers the one area that contains the address, whatever the cache holds, or NULL
    when there is none; it changes nothing but the cache and the time stamp of that area. *)
Theorem find_vma_correct m addr :
  mm_ok m →
  ∃ r m', find_vma addr m = Ret (r, m') ∧ mm_ok m' ∧ mmap_list m' = mmap_list m ∧
    extent <$> areas m' = extent <$> areas m ∧
    match r with
    | Some p => ∃ i v, mmap_list m !! i = Some p ∧ areas m !! i = Some v ∧ contains v addr = true ∧
                 ∀ j w, areas m !! j = Some w → contains w addr = true → j = i
    | None => m' = m ∧ ∀ v, v ∈ areas m → contains v addr = false
    end.
Proof.
  intros Hok. pose proof (mm_ok_links _ Hok) as Hl.
  destruct (find_vma_run m addr Hok) as (r & m' & Hrun & Hok' & Hlist & _ & Hext & Hr).
  exists r, m'. split_and!; try done. destruct r as [p|]; [|by rewrite Forall_forall in Hr].
  destruct Hr as (Hp & _ & v' & Hv' & Hc & _).
  apply list_elem_of_lookup in Hp as (i & Hi).
  destruct (Forall2_lookup_l _ _ _ _ _ Hl Hi) as (v & Hv & _).
  exists i, v. assert (contains v addr = true) as Hcv.
  { pose proof (mm_ok_links _ Hok') as Hl'. rewrite Hlist in Hl'.
    destruct (Forall2_lookup_l _ _ _ _ _ Hl' Hi) as (v2 & Hv2 & Hv2').
    assert (extent v2 = extent v) as Heq.
    { apply (f_equal (lookup i)) in Hext. rewrite !list_lookup_fmap, Hv, Hv2 in Hext.
      simpl in Hext. congruence. }
    rewrite Hv' in Hv2'. injection Hv2' as <-. unfold contains, extent in *. congruence. }
  split_and!; try done. intros j w Hj Hw. by apply (ordered_unique (areas m) j i w v addr); try apply Hok.
Qed.

(** ** Insertion *)

Definition disjoint (v w : vma_struct) : Prop := vm_end w ≤ vm_start v ∨ vm_end v ≤ vm_start w.
#[global] Instance disjoint_dec v w : Decision (disjoint v w).
Proof. unfold disjoint. apply _. Defined.

(** The walk stops between the areas that start at or below [start] and the others. *)
Lemma insert_walk_run m start l vs prev :
  links m l vs →
  ∃ l1 l2 vs1 vs2, l = l1 ++ l2 ∧ vs = vs1 ++ vs2 ∧ links m l1 vs1 ∧ links m l2 vs2 ∧
    insert_walk start prev l m = Ret (match last l1 with Some p => Some p | None => prev end, head l2, m) ∧
    Forall (λ v, vm_start v ≤ start) vs1 ∧ (∀ v vs3, vs2 = v :: vs3 → start < vm_start v).
Proof.
  intros Hl. revert prev. induction Hl as [|p v l vs Hp Hl IH]; intros prev.
  - exists [], [], [], []. split_and!; try done; constructor.
  - cbn [insert_walk]. destruct (Z.ltb_spec start (vm_start v)) as [Hlt|Hge].
    + exists [], (p :: l), [], (v :: vs).
      split_and!; [done|done|constructor|by constructor| |constructor|].
      * step using (by apply vma_at_run). by rewrite (proj2 (Z.ltb_lt _ _) Hlt).
      * intros w vs3 Heq. by injection Heq as <- _.
    + destruct (IH (Some p)) as (l1 & l2 & vs1 & vs2 & -> & -> & H1 & H2 & Hrun & Hf & Hn).
      exists (p :: l1), l2, (v :: vs1), vs2.
      split_and!; [done|done|by constructor|done| |by constructor|done].
      * step using (by apply vma_at_run). rewrite (proj2 (Z.ltb_ge _ _) Hge), Hrun.
        destruct l1 as [|q l1]; [done|]. rewrite last_cons_cons. 
        destruct (last (q :: l1)) eqn:E; [done|by apply last_None in E].
Qed.

Lemma ordered_app l1 l2 :
  ordered (l1 ++ l2) ↔ ordered l1 ∧ ordered l2 ∧ ∀ v w, v ∈ l1 → w ∈ l2 → vm_end v ≤ vm_start w.
Proof.
  induction l1 as [|v l1 IH]; simpl.
  - split; [intros; split_and!; set_solver|naive_solver].
  - rewrite IH, Forall_app, !Forall_forall. split.
    + intros (H1 & [H2 H3] & H4 & H5 & H6). split_and!; auto.
      intros x w [->|Hx]%elem_of_cons Hw; auto.
    + intros ((H1 & H2 & H3) & H4 & H5). split_and!; auto; intros; apply H5; set_solver.
Qed.

Lemma ordered_nonempty l v : ordered l → v ∈ l → vm_start v < vm_end v.
Proof.
  induction l as [|w l IH]; [set_solver|]. intros (? & _ & ?) [->|?]%elem_of_cons; auto.
Qed.

(** The test against the neighbour below is a test against all areas below. *)
Lemma below_disjoint vs1 u v :
  ordered vs1 → last vs1 = Some u → Forall (λ w, vm_start w ≤ vm_start v) vs1 →
  vm_start v < vm_end v → (Forall (disjoint v) vs1 ↔ vm_end u ≤ vm_start v).
Proof.
  rewrite (Forall_forall (disjoint v)).
  intros Ho Hlast Hf Hv. apply last_Some in Hlast as (vs & ->).
  apply ordered_app in Ho as (_ & [Hu _] & Hb). rewrite Forall_forall in Hf. split.
  - intros Hd. specialize (Hd u ltac:(set_solver)). specialize (Hf u ltac:(set_solver)).
    unfold disjoint in Hd. lia.
  - intros Hle w [Hw|Hw%list_elem_of_singleton]%elem_of_app; left; [|by subst].
    specialize (Hb w u Hw ltac:(set_solver)). lia.
Qed.

Lemma above_disjoint u vs3 v :
  ordered (u :: vs3) → vm_start v < vm_start u → vm_start v < vm_end v →
  (Forall (disjoint v) (u :: vs3) ↔ vm_end v ≤ vm_start u).
Proof.
  rewrite (Forall_forall (disjoint v)).
  intros (Hu & Hf & _) Hs Hv. rewrite Forall_forall in Hf. split.
  - intros Hd. specialize (Hd u ltac:(set_solver)). unfold disjoint in Hd. lia.
  - intros Hle w [->|Hw]%elem_of_cons; right; [done|]. specialize (Hf w Hw). lia.
Qed.

Lemma check_vma_overlap_run v w m :
  vm_start v < vm_end v → vm_start w < vm_end w →
  check_vma_overlap v w m = if decide (vm_end v ≤ vm_start w) then Ret (tt, m) else Err EPanic.
Proof.
  intros Hv Hw. unfold check_vma_overlap, assert. unM.
  rewrite (proj2 (Z.ltb_lt _ _) Hv), (proj2 (Z.ltb_lt _ _) Hw). case_decide as H.
  - by rewrite (proj2 (Z.leb_le _ _) H).
  - by rewrite (proj2 (Z.leb_gt _ _)) by lia.
Qed.

Lemma seq_add_after_last (l1 l2 : list Z) p : NoDup (l1 ++ l2) →
  seq_add_after (last l1) p (l1 ++ l2) = l1 ++ p :: l2.
Proof.
  intros Hnd. destruct (last l1) as [q|] eqn:Hl.
  - apply last_Some in Hl as (l & ->). rewrite <-!app_assoc in *. simpl in *.
    apply seq_insert_after_split. apply NoDup_app in Hnd as (_ & Hd & _).
    intros Hin. apply (Hd q Hin). set_solver.
  - by apply last_None in Hl as ->.
Qed.

Lemma links_mono m m' l vs :
  (∀ p, p ∈ l → vmas m' !! p = vmas m !! p) → links m l vs → links m' l vs.
Proof.
  intros Hm. induction 1 as [|p v l vs Hp _ IH]; constructor.
  - rewrite Hm; [done|set_solver].
  - apply IH. set_solver.
Qed.

(** The result of inserting area [v] at pointer [p]. *)
Definition inserted (m m' : mm_struct) (p : Z) (v : vma_struct) : Prop :=
  mm_ok m' ∧ areas m' ≡ₚ v :: areas m ∧ vmas m' = vmas m ∧ mmap_cache m' = mmap_cache m ∧
  mmap_list m' ≡ₚ p :: mmap_list m ∧ mm_count m' = mm_count m.

(** The two neighbour tests of [insert_vma_struct]. *)
Lemma check_below m v l1 vs1 :
  links m l1 vs1 → ordered vs1 → Forall (λ w, vm_start w ≤ vm_start v) vs1 → vm_start v < vm_end v →
  match last l1 with Some q => w ← vma_at q; check_vma_overlap w v | None => mret tt end m =
  if decide (Forall (disjoint v) vs1) then Ret (tt, m) else Err EPanic.
Proof.
  intros Hl Ho Hf Hv. destruct (last vs1) as [u|] eqn:Hu.
  - pose proof Hu as Hu'. apply last_Some in Hu' as (vs & ->). unfold links in Hl.
    apply Forall2_app_inv_r in Hl as (la & lb & _ & Hlb & ->).
    apply Forall2_cons_inv_r in Hlb as (q & lc & Hq & Hlc & ->).
    apply Forall2_nil_inv_r in Hlc as ->. rewrite last_snoc.
    step using (by apply vma_at_run).
    rewrite check_vma_overlap_run; [|by eapply ordered_nonempty; [exact Ho|set_solver]|done].
    destruct (decide (vm_end u ≤ vm_start v)) as [Hle|Hle].
    + by rewrite decide_True by (by eapply below_disjoint).
    + rewrite decide_False; [done|]. intros Hd. apply Hle. by eapply below_disjoint.
  - apply last_None in Hu as ->. apply Forall2_nil_inv_r in Hl as ->. done.
Qed.

Lemma check_above m v l2 vs2 :
  links m l2 vs2 → ordered vs2 → (∀ u vs3, vs2 = u :: vs3 → vm_start v < vm_start u) →
  vm_start v < vm_end v →
  match head l2 with Some q => w ← vma_at q; check_vma_overlap v w | None => mret tt end m =
  if decide (Forall (disjoint v) vs2) then Ret (tt, m) else Err EPanic.
Proof.
  intros Hl Ho Hn Hv. destruct vs2 as [|u vs3].
  - apply Forall2_nil_inv_r in Hl as ->. done.
  - apply Forall2_cons_inv_r in Hl as (q & lc & Hq & _ & ->). simpl.
    step using (by apply vma_at_run).
    rewrite check_vma_overlap_run; [|done|by eapply ordered_nonempty; [exact Ho|set_solver]].
    specialize (Hn u vs3 eq_refl). destruct (decide (vm_end v ≤ vm_start u)) as [Hle|Hle].
    + by rewrite decide_True by (by eapply above_disjoint).
    + rewrite decide_False; [done|]. intros Hd. apply Hle. by eapply above_disjoint.
Qed.

Lemma ordered_insert vs1 vs2 v :
  ordered (vs1 ++ vs2) → vm_start v < vm_end v → Forall (disjoint v) (vs1 ++ vs2) →
  Forall (λ w, vm_start w ≤ vm_start v) vs1 → (∀ u vs3, vs2 = u :: vs3 → vm_start v < vm_start u) →
  ordered (vs1 ++ v :: vs2).
Proof.
  intros Ho Hv Hd Hf Hn. apply Forall_app in Hd as [Hd1 Hd2].
  pose proof (λ w, ordered_nonempty _ w Ho) as Hne.
  apply ordered_app in Ho as (Ho1 & Ho2 & Ho12). rewrite Forall_forall in Hd1, Hd2, Hf.
  assert (∀ w, w ∈ vs2 → vm_end v ≤ vm_start w) as Hup.
  { destruct vs2 as [|u vs3]; [set_solver|]. specialize (Hn u vs3 eq_refl).
    pose proof (Hd2 u ltac:(set_solver)) as Hdu. pose proof (Hne u ltac:(set_solver)).
    destruct Ho2 as (_ & Hfu & _). rewrite Forall_forall in Hfu. unfold disjoint in Hdu.
    intros w [->|Hw]%elem_of_cons; [lia|]. specialize (Hfu w Hw). lia. }
  apply ordered_app. split_and!; [done| |].
  - split_and!; [done|by apply Forall_forall|done].
  - intros a b Ha [->|Hb]%elem_of_cons; [|by apply Ho12].
    specialize (Hd1 a Ha). specialize (Hf a Ha). pose proof (Hne a ltac:(set_solver)).
    unfold disjoint in Hd1. lia.
Qed.

Lemma insert_vma_struct_run m p v :
  mm_ok m → vmas m !! p = Some v → p ∉ mmap_list m → vm_start v < vm_end v →
  if decide (Forall (disjoint v) (areas m)) then
    ∃ m', insert_vma_struct p m = Ret (tt, m') ∧ inserted m m' p v
  else insert_vma_struct p m = Err EPanic.
Proof.
  intros Hok Hp Hnp Hv. pose proof (mm_ok_links _ Hok) as Hl. pose proof (mo_ordered _ Hok) as Ho.
  destruct (insert_walk_run m (vm_start v) _ _ None Hl)
    as (l1 & l2 & vs1 & vs2 & Hll & Hvs & Hl1 & Hl2 & Hwalk & Hf1 & Hn2).
  rewrite Hvs in Ho |- *. pose proof Ho as (Ho1 & Ho2 & _)%ordered_app.
  pose proof (check_below m v l1 vs1 Hl1 Ho1 Hf1 Hv) as Hk1.
  pose proof (check_above m v l2 vs2 Hl2 Ho2 Hn2 Hv) as Hk2.
  assert (insert_walk (vm_start v) None (mmap_list m) m = Ret (last l1, head l2, m)) as Hw.
  { rewrite Hwalk. by destruct (last l1). }
  assert (∀ r, (match last l1 with Some q => w ← vma_at q; check_vma_overlap w v | None => mret tt end ;;
    match head l2 with Some q => w ← vma_at q; check_vma_overlap v w | None => mret tt end ;;
    modify (λ m, set_list m (seq_add_after (last l1) p (mmap_list m))) ;;
    modify (λ m, set_count m (map_count m + 1))) m = r → insert_vma_struct p m = r) as Heq.
  { intros r <-. unfold insert_vma_struct. step using (by apply vma_at_run).
    step using (unfold assert; rewrite (proj2 (Z.ltb_lt _ _) Hv); reflexivity).
    step using reflexivity. by step using (exact Hw). }
  destruct (decide (Forall (disjoint v) (vs1 ++ vs2))) as [Hd|Hd].
  - pose proof Hd as [Hd1 Hd2]%Forall_app. rewrite decide_True in Hk1 by done.
    rewrite decide_True in Hk2 by done.
    set (m' := set_count (set_list m (l1 ++ p :: l2)) (map_count m + 1)). exists m'.
    assert (links m' (l1 ++ p :: l2) (vs1 ++ v :: vs2)) as Hl'.
    { apply Forall2_app; [done|]. by constructor. }
    assert (areas m' = vs1 ++ v :: vs2) as Ha by by apply links_omap.
    split; [|split_and!].
    + apply Heq. step using (exact Hk1). step using (exact Hk2). step using reflexivity.
      unfold modify. rewrite Hll, seq_add_after_last; [done|]. rewrite <-Hll. apply Hok.
    + split; simpl.
      * rewrite <-Permutation_middle, <-Hll. constructor; [done|apply Hok].
      * intros q. rewrite <-Permutation_middle, <-Hll. intros [->|Hq]%elem_of_cons; [eauto|].
        by apply (mo_alive _ Hok).
      * rewrite Ha. by apply ordered_insert.
      * intros q Hq. rewrite <-Permutation_middle, <-Hll. apply list_elem_of_further.
        by apply (mo_cache _ Hok).
      * rewrite (mo_count _ Hok), Hll, !length_app. simpl. lia.
    + rewrite Ha, Hvs. by rewrite <-Permutation_middle.
    + done.
    + done.
    + simpl. by rewrite <-Permutation_middle, <-Hll.
    + done.
  - apply Heq. destruct (decide (Forall (disjoint v) vs1)); [|by apply M_bind_err].
    step using (exact Hk1). apply M_bind_err. rewrite Hk2, decide_False; [done|].
    intros ?. by apply Hd, Forall_app.
Qed.

(** C34: [insert_vma_struct] links a new area when it is disjoint from every area of the address
    space, keeping the list ordered and counted; when it overlaps one of them, an assertion fails. *)
Theorem insert_vma_correct m p v :
  mm_ok m → vmas m !! p = Some v → p ∉ mmap_list m → vm_start v < vm_end v →
  if decide (Forall (disjoint v) (areas m)) then
    ∃ m', insert_vma_struct p m = Ret (tt, m') ∧ mm_ok m' ∧ areas m' ≡ₚ v :: areas m
  else insert_vma_struct p m = Err EPanic.
Proof.
  intros Hok Hp Hnp Hv. pose proof (insert_vma_struct_run m p v Hok Hp Hnp Hv) as H.
  case_decide; [|done]. destruct H as (m' & ? & ? & ? & _). eauto.
Qed.

(** ** Mapping a region *)

Lemma extent_elem (l l' : list vma_struct) v : extent <$> l = extent <$> l' → v ∈ l → ∃ v', v' ∈ l' ∧ extent v' = extent v.
Proof.
  intros He Hv. assert (extent v ∈ extent <$> l') as Hin by (rewrite <-He; by apply list_elem_of_fmap_2).
  apply list_elem_of_fmap in Hin as (v' & ? & ?). eauto.
Qed.

Lemma disjoint_extent v (l l' : list vma_struct) :
  extent <$> l = extent <$> l' → Forall (disjoint v) l → Forall (disjoint v) l'.
Proof.
  intros He Hd. rewrite Forall_forall in Hd |- *. intros w Hw. symmetry in He.
  destruct (extent_elem _ _ w He Hw) as (w' & Hw' & Heq). specialize (Hd w' Hw').
  unfold disjoint, extent in *. injection Heq as Hs Hend _. lia.
Qed.

Section mm_map.
Context (kmalloc : gmap Z vma_struct → option Z).
Hypothesis kmalloc_fresh : ∀ h p, kmalloc h = Some p → h !! p = None.

Lemma vma_create_ok m p start end_ flags :
  mm_ok m → kmalloc (vmas m) = Some p →
  let v := mkVma start end_ flags 0 in
  let m' := set_vmas m (<[p := v]> (vmas m)) in
  vma_create kmalloc start end_ flags m = Ret (Some p, m') ∧ mm_ok m' ∧ areas m' = areas m ∧
  p ∉ mmap_list m ∧ vmas m' !! p = Some v.
Proof using kmalloc_fresh.
  intros Hok Hk v m'. pose proof (kmalloc_fresh _ _ Hk) as Hfr.
  assert (p ∉ mmap_list m) as Hnp.
  { intros Hp. destruct (mo_alive _ Hok p Hp) as [??]. congruence. }
  assert (links m' (mmap_list m) (areas m)) as Hl.
  { eapply links_mono; [|by apply mm_ok_links]. intros q Hq. simpl.
    rewrite lookup_insert_ne; [done|]. intros ->. done. }
  assert (areas m' = areas m) as Ha by by apply links_omap.
  split_and!; try done.
  - unfold vma_create. step using reflexivity. by rewrite Hk.
  - split; simpl; try apply Hok.
    + intros q Hq. rewrite lookup_insert_ne; [by apply (mo_alive _ Hok)|]. intros ->. done.
    + rewrite Ha. apply Hok.
  - simpl. by rewrite lookup_insert_eq.
Qed.

Lemma mm_ok_time m t : mm_ok m → mm_ok (set_time m t).
Proof. intros [H1 H2 H3 H4 H5]. by split. Qed.

(** [mm_map] on a range inside user space: if the first page is already mapped it answers
    -E_INVAL and maps nothing; otherwise, when memory suffices, it adds exactly the page-aligned area
    if that is disjoint from all others, and fails an assertion if a later area overlaps. *)
Theorem mm_map_correct m addr len flags :
  let start := ROUNDDOWN addr PGSIZE in
  let end_ := ROUNDUP (u32 (addr + len)) PGSIZE in
  mm_ok m → PageTable.USER_ACCESS start end_ = true →
  (Exists (λ v, contains v start = true) (areas m) →
    ∃ m', mm_map kmalloc addr len flags m = Ret ((- E_INVAL, None), m') ∧ mm_ok m' ∧
      extent <$> areas m' = extent <$> areas m) ∧
  (Forall (λ v, contains v start = false) (areas m) → is_Some (kmalloc (vmas m)) →
    if decide (Forall (disjoint (mkVma start end_ flags 0)) (areas m)) then
      ∃ p m', mm_map kmalloc addr len flags m = Ret ((0, Some p), m') ∧ mm_ok m' ∧
        areas m' ≡ₚ mkVma start end_ flags 0 :: areas m
    else mm_map kmalloc addr len flags m = Err EPanic).
Proof using kmalloc_fresh.
  intros start end_ Hok Hua.
  destruct (find_vma_run (set_time m (u32 (time_now m + 1))) start (mm_ok_time _ _ Hok))
    as (r & m1 & Hfind & Hok1 & Hlist1 & _ & Hext1 & Hr).
  change (areas (set_time m (u32 (time_now m + 1)))) with (areas m) in *.
  assert (vm_start (mkVma start end_ flags 0) < vm_end (mkVma start end_ flags 0)) as Hne.
  { simpl. unfold PageTable.USER_ACCESS in Hua. apply andb_prop in Hua as [Hua _].
    apply andb_prop in Hua as [_ ?]. by z_bool. }
  unfold mm_map. fold start end_. rewrite Hua. simpl negb. cbv iota.
  split.
  - intros Hex. destruct r as [p|].
    + destruct Hr as (Hp & _ & v & Hv & Hc & _). exists m1.
      split_and!; [|done|done]. step using reflexivity. step using (exact Hfind). cbv iota.
      erewrite (M_bind_step (_ ≫= _)) by (by step using (by apply vma_at_run)).
      rewrite (proj2 (Z.ltb_lt _ _)); [done|]. unfold contains in Hc. apply andb_prop in Hc as [? _].
      z_bool. simpl in Hne. lia.
    + destruct Hr as [_ Hnone]. exfalso. apply Exists_exists in Hex as (v & Hv & Hc).
      rewrite Forall_forall in Hnone. specialize (Hnone v Hv). congruence.
  - intros Hno [p Hk]. destruct r as [q|].
    { exfalso. destruct Hr as (Hq & _ & v & Hv & Hc & _).
      pose proof (mm_ok_links _ Hok1) as Hl1. rewrite Hlist1 in Hl1. simpl in Hl1, Hq.
      destruct (links_elem_l _ _ _ _ Hl1 Hq) as (v' & Hv' & Hv2).
      rewrite Hv in Hv2. injection Hv2 as <-. destruct (extent_elem _ _ v Hext1 Hv') as (w & Hw & Heq).
      rewrite Forall_forall in Hno. specialize (Hno w Hw). unfold contains, extent in *. congruence. }
    destruct Hr as [-> _]. set (m1 := set_time m (u32 (time_now m + 1))) in *.
    destruct (vma_create_ok m1 p start end_ flags Hok1 Hk) as (Hcr & Hok2 & Ha2 & Hnp & Hv2).
    set (m2 := set_vmas m1 _) in *.
    pose proof (insert_vma_struct_run m2 p _ Hok2 Hv2 Hnp Hne) as Hins. rewrite Ha2 in Hins.
    change (areas m1) with (areas m) in Hins. case_decide as Hd.
    + destruct Hins as (m3 & Hrun & Hok3 & Hperm & _). exists p, m3. rewrite Ha2 in Hperm.
      split_and!; [|done|done]. step using reflexivity. step using (exact Hfind). cbv iota.
      step using reflexivity. cbv iota. step using (exact Hcr). cbv iota. by step using (exact Hrun).
    + step using reflexivity. step using (exact Hfind). cbv iota.
      step using reflexivity. cbv iota. step using (exact Hcr). cbv iota. by apply M_bind_err.
Qed.
End mm_map.

(** ** Checking a user buffer *)

(** An access of kind [write] to address [x] is allowed by area [v]; the lowest page of a stack area
    is a guard page for writes. *)
Definition allows (write : bool) (x : Z) (v : vma_struct) : Prop :=
  contains v x = true ∧ Z.land (vm_flags v) (if write then VM_WRITE else VM_READ) ≠ 0 ∧
  (write = true → Z.land (vm_flags v) VM_STACK ≠ 0 → vm_start v + PGSIZE ≤ x).

(** The areas that [start] has not passed. *)
Definition remaining (start : Z) (l : list vma_struct) : nat :=
  length (filter (λ v, start < vm_end v) l).

Lemma remaining_le start start' l : start ≤ start' → (remaining start' l ≤ remaining start l)%nat.
Proof.
  intros Hle. unfold remaining. induction l as [|v l IH]; [done|].
  rewrite !filter_cons. repeat case_decide; simpl; lia.
Qed.

Lemma remaining_lt start v l :
  v ∈ l → start < vm_end v → (remaining (vm_end v) l < remaining start l)%nat.
Proof.
  intros Hv Hlt. unfold remaining. induction l as [|w l IH]; [set_solver|].
  pose proof (remaining_le start (vm_end v) l ltac:(lia)) as Hle. unfold remaining in Hle.
  rewrite !filter_cons. apply elem_of_cons in Hv as [->|Hv].
  - rewrite (decide_False (P := vm_end w < vm_end w)) by lia. rewrite decide_True by done. simpl. lia.
  - specialize (IH Hv). repeat case_decide; simpl; lia.
Qed.

Lemma remaining_extent start (l l' : list vma_struct) :
  extent <$> l = extent <$> l' → remaining start l = remaining start l'.
Proof.
  revert l'. unfold remaining. induction l as [|v l IH]; intros [|v' l'] He; try done.
  rewrite !fmap_cons in He. injection He as Hs Hend Hf He. rewrite !filter_cons, Hend.
  case_decide; simpl; by rewrite (IH l').
Qed.

Lemma allows_extent write x v v' : extent v = extent v' → allows write x v → allows write x v'.
Proof. unfold extent, allows, contains. intros [= -> -> ->]. done. Qed.

Lemma mem_check_run fuel m write start end_ :
  mm_ok m → (remaining start (areas m) < fuel)%nat →
  ∃ b m', mem_check_loop fuel write start end_ m = Ret (b, m') ∧ mm_ok m' ∧
    mmap_list m' = mmap_list m ∧ extent <$> areas m' = extent <$> areas m ∧
    (b = true ↔ ∀ x, start ≤ x < end_ → Exists (allows write x) (areas m)).
Proof.
  revert m start. induction fuel as [|fuel IH]; intros m start Hok Hfuel; [lia|].
  cbn [mem_check_loop]. destruct (Z.leb_spec end_ start).
  { exists true, m. split_and!; try done. split; [intros _ x Hx; lia|done]. }
  destruct (find_vma_run m start Hok) as (r & m1 & Hfind & Hok1 & Hlist1 & _ & Hext1 & Hr).
  assert (∀ P : Prop, ¬ Exists (allows write start) (areas m) →
    (false = true ↔ ∀ x, start ≤ x < end_ → Exists (allows write x) (areas m))) as Hfalse.
  { intros _ Hn. split; [done|]. intros Hall. destruct Hn. apply Hall. lia. }
  destruct r as [p|].
  2:{ destruct Hr as [-> Hnone]. exists false, m. split_and!; try done.
    - by step using (exact Hfind).
    - apply (Hfalse True). rewrite Exists_exists. intros (v & Hv & Hc & _).
      rewrite Forall_forall in Hnone. specialize (Hnone v Hv). congruence. }
  destruct Hr as (Hp & _ & v & Hv & Hc & _).
  pose proof (mm_ok_links _ Hok1) as Hl1. rewrite <-Hlist1 in Hp.
  destruct (links_elem_l _ _ _ _ Hl1 Hp) as (v' & Hv1 & Hv'). rewrite Hv in Hv'.
  injection Hv' as <-. pose proof Hc as Hc'. unfold contains in Hc'. apply andb_prop in Hc' as [Hs He].
  z_bool.
  (* the area found is the only one that can allow an access at [start] *)
  assert (∀ x, start ≤ x < vm_end v → Exists (allows write x) (areas m) ↔ allows write x v) as Honly.
  { intros x Hx. assert (Exists (allows write x) (areas m1) ↔ allows write x v) as H1.
    { rewrite Exists_exists. split; [|by eauto]. intros (w & Hw & Ha).
      apply list_elem_of_lookup in Hw as (j & Hj), Hv1 as (i & Hi).
      assert (i = j) as ->; [|congruence].
      apply (ordered_unique (areas m1) i j v w x); try done; [apply Hok1| |apply Ha].
      unfold contains. apply andb_true_intro. split; [apply Z.leb_le|apply Z.ltb_lt]; lia. }
    rewrite <-H1, !Exists_exists. split; intros (w & Hw & Ha).
    - symmetry in Hext1. destruct (extent_elem _ _ w Hext1 Hw) as (w' & ? & Heq).
      exists w'. split; [done|]. by eapply allows_extent.
    - destruct (extent_elem _ _ w Hext1 Hw) as (w' & ? & Heq).
      exists w'. split; [done|]. by eapply allows_extent. }
  step using (exact Hfind). cbv iota. step using (by apply vma_at_run).
  rewrite (proj2 (Z.ltb_ge start (vm_start v))) by done.
  destruct (Z.eqb_spec (Z.land (vm_flags v) (if write then VM_WRITE else VM_READ)) 0) as [Hz|Hz].
  { exists false, m1. split_and!; try done. apply (Hfalse True). rewrite Honly by lia. by intros (_ & ? & _). }
  destruct (write && negb (Z.land (vm_flags v) VM_STACK =? 0) && (start <? vm_start v + PGSIZE)) eqn:Hst.
  { apply andb_prop in Hst as [Hst Hlow]. apply andb_prop in Hst as [-> Hst].
    apply negb_true_iff in Hst. z_bool. exists false, m1. split_and!; try done.
    apply (Hfalse True). rewrite Honly by lia. intros (_ & _ & Hg). specialize (Hg eq_refl Hst). lia. }
  assert (∀ x, start ≤ x < vm_end v → allows write x v) as Hall.
  { intros x Hx. split_and!; [|done|].
    - unfold contains. apply andb_true_intro. split; [apply Z.leb_le|apply Z.ltb_lt]; lia.
    - intros -> Hns. simpl in Hst. rewrite (proj2 (Z.eqb_neq _ 0) Hns) in Hst. simpl in Hst. z_bool. lia. }
  destruct (IH m1 (vm_end v) Hok1) as (b & m2 & Hrun & Hok2 & Hlist2 & Hext2 & Hb).
  { pose proof (remaining_lt start v _ Hv1 He). rewrite (remaining_extent start _ _ Hext1) in *. lia. }
  exists b, m2. split_and!; [done|done|congruence|congruence|]. rewrite Hb. split.
  - intros Hrest x Hx. destruct (decide (x < vm_end v)) as [Hxv|Hxv].
    + apply Honly; [lia|]. apply Hall. lia.
    + specialize (Hrest x ltac:(lia)). apply Exists_exists in Hrest as (w & Hw & Ha).
      destruct (extent_elem _ _ w Hext1 Hw) as (w' & ? & Heq). apply Exists_exists.
      exists w'. split; [done|]. by eapply allows_extent.
  - intros Hrest x Hx. specialize (Hrest x ltac:(lia)). apply Exists_exists in Hrest as (w & Hw & Ha).
    symmetry in Hext1. destruct (extent_elem _ _ w Hext1 Hw) as (w' & ? & Heq). apply Exists_exists.
    exists w'. split; [done|]. by eapply allows_extent.
Qed.

Lemma user_mem_check_run m addr len write :
  mm_ok m →
  ∃ b m', user_mem_check addr len write m = Ret (b, m') ∧ mm_ok m' ∧
    mmap_list m' = mmap_list m ∧ extent <$> areas m' = extent <$> areas m ∧
    (b = true ↔ PageTable.USER_ACCESS addr (u32 (addr + len)) = true ∧
                ∀ x, addr ≤ x < u32 (addr + len) → Exists (allows write x) (areas m)).
Proof.
  intros Hok. unfold user_mem_check.
  destruct (PageTable.USER_ACCESS addr (u32 (addr + len))) eqn:Hua; simpl.
  2:{ exists false, m. split_and!; try done. split; [done|by intros [??]]. }
  destruct (mem_check_run (S (length (mmap_list m))) m write addr (u32 (addr + len)) Hok)
    as (b & m' & Hrun & Hok' & Hlist & Hext & Hb).
  { unfold remaining. pose proof (length_filter (λ v, addr < vm_end v) (areas m)) as Hl1.
    pose proof (Forall2_length _ _ _ (mm_ok_links _ Hok)). lia. }
  exists b, m'. split_and!; try done. rewrite Hb. tauto.
Qed.

(** [user_mem_check] ends, and accepts a buffer exactly when it lies in user space and every one
    of its addresses belongs to an area that permits the access (stack guard page excluded for
    writes). *)
Theorem user_mem_check_correct m addr len write :
  mm_ok m →
  ∃ b m', user_mem_check addr len write m = Ret (b, m') ∧ mm_ok m' ∧
    extent <$> areas m' = extent <$> areas m ∧
    (b = true ↔ PageTable.USER_ACCESS addr (u32 (addr + len)) = true ∧
                ∀ x, addr ≤ x < u32 (addr + len) → Exists (allows write x) (areas m)).
Proof.
  intros Hok. destruct (user_mem_check_run m addr len write Hok) as (b & m' & Hrun & Hok' & _ & Hrest).
  by exists b, m'.
Qed.

(** * An address space with a text area and a stack *)

Definition demo_text : vma_struct := mkVma 0x800000 0x802000 (Z.lor VM_READ VM_EXEC) 0.
Definition demo_stack : vma_struct := mkVma 0xAFF00000 0xB0000000 (Z.lor (Z.lor VM_READ VM_WRITE) VM_STACK) 0.
Definition demo_mm : mm_struct :=
  mkMm {[ 1 := demo_text; 2 := demo_stack; 3 := mkVma 0x900000 0x901000 VM_READ 0 ]} [1; 2] (Some 2) 2 0 0.
(** A kmalloc that hands out increasing pointers. *)
Definition demo_kmalloc (h : gmap Z vma_struct) : option Z :=
  Some (foldr Z.max 0 (elements (dom h)) + 1).

Lemma demo_kmalloc_fresh h p : demo_kmalloc h = Some p → h !! p = None.
Proof.
  intros [= <-]. apply not_elem_of_dom. rewrite <-elem_of_elements.
  assert (∀ l x, x ∈ l → x ≤ foldr Z.max 0 l) as Hmax.
  { induction l as [|y l IH]; intros x; [set_solver|]. simpl.
    intros [->|Hx]%elem_of_cons; [lia|]. specialize (IH x Hx). lia. }
  intros Hin. apply Hmax in Hin. lia.
Qed.

Lemma demo_mm_ok : mm_ok demo_mm.
Proof.
  split.
  - apply (bool_decide_unpack _). by vm_compute.
  - intros p Hp. apply elem_of_cons in Hp as [->|Hp]; [by eexists|].
    apply list_elem_of_singleton in Hp as ->. by eexists.
  - change (areas demo_mm) with [demo_text; demo_stack]. simpl.
    split_and!; try lia; repeat constructor; simpl; lia.
  - intros p [= <-]. simpl. set_solver.
  - reflexivity.
Qed.

Lemma find_vma_correct_witness :
  ∃ r m', find_vma 0x801000 demo_mm = Ret (r, m') ∧ mm_ok m' ∧ r = Some 1.
Proof.
  destruct (find_vma_correct demo_mm 0x801000) as (r & m' & Hrun & Hok & _).
  - apply demo_mm_ok.
  - exists r, m'. split; [exact Hrun|]. split; [exact Hok|].
    assert (fst <$> find_vma 0x801000 demo_mm = Ret (Some 1)) as E by (vm_compute; reflexivity).
    rewrite Hrun in E. simpl in E. congruence.
Defined.

Lemma insert_vma_correct_witness :
  ∃ m', insert_vma_struct 3 demo_mm = Ret (tt, m') ∧ mm_ok m'.
Proof.
  pose proof (insert_vma_correct demo_mm 3 (mkVma 0x900000 0x901000 VM_READ 0) demo_mm_ok eq_refl) as H.
  rewrite decide_True in H.
  - destruct H as (m' & Hrun & Hok & _).
    + apply (bool_decide_unpack _). vm_compute. exact I.
    + simpl. lia.
    + exists m'. split; [exact Hrun|exact Hok].
  - apply (bool_decide_unpack _). vm_compute. exact I.
Defined.

Lemma mm_map_correct_witness :
  ∃ p m', mm_map demo_kmalloc 0x900010 0x20 VM_READ demo_mm = Ret ((0, Some p), m') ∧ mm_ok m'.
Proof.
  destruct (mm_map_correct demo_kmalloc demo_kmalloc_fresh demo_mm 0x900010 0x20 VM_READ) as [_ H].
  - apply demo_mm_ok.
  - reflexivity.
  - rewrite decide_True in H.
    + destruct H as (p & m' & Hrun & Hok & _).
      * change (areas demo_mm) with [demo_text; demo_stack]. repeat constructor.
      * by eexists.
      * exists p, m'. split; [exact Hrun|exact Hok].
    + apply (bool_decide_unpack _). vm_compute. exact I.
Defined.

Lemma user_mem_check_correct_witness :
  ∃ m', user_mem_check 0x800ff0 0x20 false demo_mm = Ret (true, m') ∧ mm_ok m'.
Proof.
  destruct (user_mem_check_correct demo_mm 0x800ff0 0x20 false) as (b & m' & Hrun & Hok & _).
  - apply demo_mm_ok.
  - exists m'. split; [|exact Hok].
    assert (fst <$> user_mem_check 0x800ff0 0x20 false demo_mm = Ret true) as E by (vm_compute; reflexivity).
    rewrite Hrun in E. simpl in E. rewrite Hrun. congruence.
Defined.

End Vma.
