(* ===== verification/Swap.v ===== *)
(** Swapping: kern/mm/swap.c, the replacement policies swap_fifo.c and swap_clock.c, the swap area
    kern/fs/swap/swapfs.c and the transfers of kern/driver/ide.c, over the page tables.

    [struct swap_manager] is the interface [swap_manager]; its laws are what [swap_out] needs of a policy,
    and both policies discharge them.  The pages that may be replaced are linked, with the pointers of
    Dll.v, behind [pra_list_head]; the link of a page has the number of its frame as address.  The disk
    hardware is the class [ide_hw]: what a sector transfer answers. *)
From S2P Require Import Prelude Dll Frames PmmManager FitAlloc PageTable Vma.

Module Swap.
Import Frames PmmManager PageTable.
Set Default Proof Using "Type".

Definition PTE_A : Z := 0x20.
Definition PTE_D : Z := 0x40.
Definition MAX_NSECS : Z := 128.
Definition MAX_DISK_NSECS : Z := 0x10000000.
Definition PAGE_NSECT : Z := 8.
Definition MAX_SWAP_OFFSET_LIMIT : Z := Z.shiftl 1 24.

(** The address of [pra_list_head]. *)
Definition pra_list_head : Z := -1.

(** The swap disk: whether it was found, its size, and the transfer of a sector, which fails when the
    status register shows an error. *)
Class ide_hw (D : Type) := {
  ide_valid : D → bool;
  ide_sectors : D → Z;
  hw_read : Z → M D (option (list Z));
  hw_write : Z → list Z → M D bool }.

Section swap.
Context {S : Type} `{PM : pmm_manager S} {SW : swapper (S := S)} {D : Type} `{HW : ide_hw D}.

Notation machine := (machine (S := S)).

(** One address space, with what is kept for replacement. *)
Record vm := mkVm {
  mm : Vma.mm_struct;
  pgdir : Z;
  mc : machine;
  sm_priv : option Z;             (* mm->sm_priv *)
  pra : gmap Z Dll.list_entry;    (* pra_list_head and the pra_page_link of the descriptors *)
  pra_vaddr : gmap Z Z;           (* page->pra_vaddr *)
  max_swap_offset : Z;
  pgfault_num : Z;
  dsk : D }.

Definition set_mm (s : vm) x : vm :=
  mkVm x (pgdir s) (mc s) (sm_priv s) (pra s) (pra_vaddr s) (max_swap_offset s) (pgfault_num s) (dsk s).
Definition set_mc (s : vm) x : vm :=
  mkVm (mm s) (pgdir s) x (sm_priv s) (pra s) (pra_vaddr s) (max_swap_offset s) (pgfault_num s) (dsk s).
Definition set_priv (s : vm) x : vm :=
  mkVm (mm s) (pgdir s) (mc s) x (pra s) (pra_vaddr s) (max_swap_offset s) (pgfault_num s) (dsk s).
Definition set_pra (s : vm) x : vm :=
  mkVm (mm s) (pgdir s) (mc s) (sm_priv s) x (pra_vaddr s) (max_swap_offset s) (pgfault_num s) (dsk s).
Definition set_vaddr (s : vm) x : vm :=
  mkVm (mm s) (pgdir s) (mc s) (sm_priv s) (pra s) x (max_swap_offset s) (pgfault_num s) (dsk s).
Definition set_limit (s : vm) x : vm :=
  mkVm (mm s) (pgdir s) (mc s) (sm_priv s) (pra s) (pra_vaddr s) x (pgfault_num s) (dsk s).
Definition set_faults (s : vm) x : vm :=
  mkVm (mm s) (pgdir s) (mc s) (sm_priv s) (pra s) (pra_vaddr s) (max_swap_offset s) x (dsk s).
Definition set_dsk (s : vm) x : vm :=
  mkVm (mm s) (pgdir s) (mc s) (sm_priv s) (pra s) (pra_vaddr s) (max_swap_offset s) (pgfault_num s) x.

Definition zoom {X A} (prj : vm → X) (upd : vm → X → vm) (c : M X A) : M vm A := λ s,
  match c (prj s) with
  | Ret (a, x) => Ret (a, upd s x)
  | Err e => Err e
  end.
Definition in_mc {A} (c : M machine A) : M vm A := zoom mc set_mc c.
Definition in_mm {A} (c : M Vma.mm_struct A) : M vm A := zoom mm set_mm c.
Definition in_pra {A} (c : M (gmap Z Dll.list_entry) A) : M vm A := zoom pra set_pra c.
Definition in_dsk {A} (c : M D A) : M vm A := zoom dsk set_dsk c.

(** * kern/driver/ide.c *)

(** The words [off], [off + 1], ... of frame [f]. *)
Definition read_words (f off n : Z) (m : machine) : list Z := (λ i, read m (f, off + i)) <$> seqZ 0 n.
Fixpoint write_words (f off : Z) (ws : list Z) (m : machine) : machine :=
  match ws with
  | [] => m
  | w :: ws' => write_words f (off + 1) ws' (PageTable.set_mem m (<[(f, off) := w]> (mem m)))
  end.

Definition ide_check (secno nsecs : Z) : M vm unit :=
  v ← gets (λ s, ide_valid (dsk s));
  assert ((nsecs <=? MAX_NSECS) && v) ;;
  assert ((secno <? MAX_DISK_NSECS) && (secno + nsecs <=? MAX_DISK_NSECS)).

(** The sectors go to and come from frame [f], from word [off] on; a sector has 128 words. *)
Fixpoint ide_read_loop (n : nat) (secno f off : Z) : M vm Z :=
  match n with
  | O => mret 0
  | Datatypes.S n' =>
      r ← in_dsk (hw_read secno);
      match r with
      | None => mret (-1)
      | Some ws =>
          in_mc (modify (write_words f off ws)) ;;
          ide_read_loop n' (secno + 1) f (off + 128)
      end
  end.
Definition ide_read_secs (secno f nsecs : Z) : M vm Z :=
  ide_check secno nsecs ;; ide_read_loop (Z.to_nat nsecs) secno f 0.

Fixpoint ide_write_loop (n : nat) (secno f off : Z) : M vm Z :=
  match n with
  | O => mret 0
  | Datatypes.S n' =>
      ws ← gets (λ s, read_words f off 128 (mc s));
      ok ← in_dsk (hw_write secno ws);
      if ok : bool then ide_write_loop n' (secno + 1) f (off + 128) else mret (-1)
  end.
Definition ide_write_secs (secno f nsecs : Z) : M vm Z :=
  ide_check secno nsecs ;; ide_write_loop (Z.to_nat nsecs) secno f 0.

(** * kern/fs/swap/swapfs.c *)

Definition swapfs_init : M vm unit :=
  v ← gets (λ s, ide_valid (dsk s));
  assert v ;;
  modify (λ s, set_limit s (ide_sectors (dsk s) / PAGE_NSECT)).

Definition swap_offset (entry : Z) : M vm Z :=
  n ← gets max_swap_offset;
  let o := Z.shiftr entry 8 in
  if (0 <? o) && (o <? n) then mret o else fail EPanic.

Definition swapfs_read (entry page : Z) : M vm Z :=
  o ← swap_offset entry;
  f ← in_mc (KADDR (page2pa page));
  ide_read_secs (o * PAGE_NSECT) f PAGE_NSECT.
Definition swapfs_write (entry page : Z) : M vm Z :=
  o ← swap_offset entry;
  f ← in_mc (KADDR (page2pa page));
  ide_write_secs (o * PAGE_NSECT) f PAGE_NSECT.

(** * [struct swap_manager] *)

(** [swap_out_victim] answers the page, or [None] for a result that is not 0. *)
Class swap_manager := {
  init_mm : M vm Z;
  map_swappable : Z → Z → M vm Z;
  swap_out_victim : Z → M vm (option Z) }.

Definition page_vaddr (page : Z) : M vm Z := deref (λ s, pra_vaddr s !! page).

(** ** kern/mm/swap_fifo.c *)

Definition _fifo_init_mm : M vm Z :=
  in_pra (Dll.list_init pra_list_head) ;;
  modify (λ s, set_priv s (Some pra_list_head)) ;;
  mret 0.
Definition _fifo_map_swappable (addr page : Z) : M vm Z :=
  h ← gets sm_priv;
  match h with
  | None => fail EPanic                               (* assert(head != NULL) *)
  | Some head => in_pra (Dll.list_add head page) ;; mret 0
  end.
Definition _fifo_swap_out_victim (in_tick : Z) : M vm (option Z) :=
  h ← gets sm_priv;
  match h with
  | None => fail EPanic
  | Some head =>
      assert (in_tick =? 0) ;;
      le ← in_pra (Dll.list_prev head);
      assert (negb (le =? head)) ;;
      in_pra (Dll.list_del le) ;;
      mret (Some le)
  end.

(** ** kern/mm/swap_clock.c *)

Definition _clock_init_mm : M vm Z :=
  in_pra (Dll.list_init pra_list_head) ;;
  modify (λ s, set_priv s (Some pra_list_head)) ;;
  mret 0.
Definition _clock_map_swappable (addr page : Z) : M vm Z :=
  h ← gets sm_priv;
  match h with
  | None => fail EPanic
  | Some head => in_pra (Dll.list_add head page) ;; mret 0
  end.

Section clock.
(** The machine address of a link, which the code hands to [tlb_invalidate]. *)
Context (link_addr : Z → Z).

(** One round [i] over the list from its end, [le] on. *)
Fixpoint clock_round (fuel : nat) (i head le : Z) : M vm (option Z) :=
  match fuel with
  | O => fail EFuel
  | Datatypes.S fuel' =>
      if le =? head then mret None else
      v ← page_vaddr le;
      d ← gets pgdir;
      ptep ← in_mc (get_pte d v false);
      a ← deref (λ _, ptep);
      pte ← in_mc (load a);
      if (Z.land pte PTE_A =? 0) && (Z.land pte PTE_D =? 0) then
        in_pra (Dll.list_del le) ;; mret (Some le)
      else
        (if i =? 0 then in_mc (store a (Z.ldiff pte PTE_A))
         else if i =? 1 then in_mc (store a (Z.ldiff pte PTE_D)) else mret tt) ;;
        le' ← in_pra (Dll.list_prev le);
        in_mc (tlb_invalidate d (link_addr le')) ;;
        clock_round fuel' i head le'
  end.

(** The rounds [i .. 2]; the fuel of a round is one more than the links there are. *)
Fixpoint clock_rounds (n : nat) (i head : Z) : M vm (option Z) :=
  match n with
  | O => mret None
  | Datatypes.S n' =>
      le ← in_pra (Dll.list_prev head);
      assert (negb (le =? head)) ;;
      fuel ← gets (λ s, Datatypes.S (base.size (pra s)));
      r ← clock_round fuel i head le;
      match r with
      | Some p => mret (Some p)
      | None => clock_rounds n' (i + 1) head
      end
  end.
Definition _clock_swap_out_victim (in_tick : Z) : M vm (option Z) :=
  h ← gets sm_priv;
  match h with
  | None => fail EPanic
  | Some head => assert (in_tick =? 0) ;; clock_rounds 3 0 head
  end.

Definition swap_manager_clock : swap_manager := {|
  init_mm := _clock_init_mm;
  map_swappable := _clock_map_swappable;
  swap_out_victim := _clock_swap_out_victim |}.
End clock.

Definition swap_manager_fifo : swap_manager := {|
  init_mm := _fifo_init_mm;
  map_swappable := _fifo_map_swappable;
  swap_out_victim := _fifo_swap_out_victim |}.

(** * kern/mm/swap.c *)

(** The policy it selects, [swap_manager_fifo], is initialised by a function that does nothing. *)
Definition swap_init : M vm Z :=
  swapfs_init ;;
  n ← gets max_swap_offset;
  if negb ((1024 <=? n) && (n <? MAX_SWAP_OFFSET_LIMIT)) then fail EPanic else
  in_mc (modify (λ m, mkMachine (pm m) (mem m) (npage m) (cr3 m) (tlb m) true)) ;;
  mret 0.

(** [(page->pra_vaddr/PGSIZE+1)<<8], the swap entry of a page. *)
Definition swap_entry (va : Z) : Z := u32 (Z.shiftl (u32 (va / PGSIZE + 1)) 8).

Section manager.
Context {SM : swap_manager}.

Definition swap_init_mm : M vm Z := init_mm.
Definition swap_map_swappable (addr page : Z) : M vm Z := map_swappable addr page.

(** The rest of a round of [swap_out] once the victim is chosen. *)
Definition swap_out_page (page : Z) : M vm unit :=
  v ← page_vaddr page;
  d ← gets pgdir;
  ptep ← in_mc (get_pte d v false);
  a ← deref (λ _, ptep);
  pte ← in_mc (load a);
  assert (present pte) ;;
  r ← swapfs_write (swap_entry v) page;
  if negb (r =? 0) then map_swappable v page ;; mret tt
  else
    in_mc (store a (swap_entry v)) ;;
    in_mc (free_page page) ;;
    in_mc (tlb_invalidate d v).

(** The rounds of [swap_out] that are left, with the counter [i]. *)
Fixpoint swap_out_loop (n : nat) (i in_tick : Z) : M vm Z :=
  match n with
  | O => mret i
  | Datatypes.S n' =>
      r ← swap_out_victim in_tick;
      match r with
      | None => mret i
      | Some page => swap_out_page page ;; swap_out_loop n' (i + 1) in_tick
      end
  end.
Definition swap_out_mm (n in_tick : Z) : M vm Z := swap_out_loop (Z.to_nat n) 0 in_tick.

(** The status and [*ptr_result].  What the read answers is tested by [assert(r != 0)] where it is not 0. *)
Definition swap_in (addr : Z) : M vm (Z * Z) :=
  o ← in_mc alloc_page;
  match o with
  | None => fail EPanic
  | Some result =>
      d ← gets pgdir;
      ptep ← in_mc (get_pte d addr false);
      a ← deref (λ _, ptep);
      pte ← in_mc (load a);
      r ← swapfs_read pte result;
      when (negb (r =? 0)) (assert (negb (r =? 0))) ;;
      mret (0, result)
  end.

End manager.

(** * Transfers *)

Lemma zoom_run {X A} (prj : vm → X) upd (c : M X A) s a x :
  c (prj s) = Ret (a, x) → zoom prj upd c s = Ret (a, upd s x).
Proof. intros E. unfold zoom. by rewrite E. Qed.

Lemma set_mc_same s : set_mc s (mc s) = s.
Proof. by destruct s. Qed.
Lemma set_pra_same s : set_pra s (pra s) = s.
Proof. by destruct s. Qed.
Lemma set_dsk_same s : set_dsk s (dsk s) = s.
Proof. by destruct s. Qed.

Lemma in_mc_keep {A} (c : M machine A) s a : c (mc s) = Ret (a, mc s) → in_mc c s = Ret (a, s).
Proof. intros E. unfold in_mc. erewrite zoom_run by exact E. by rewrite set_mc_same. Qed.
Lemma in_pra_keep {A} (c : M _ A) s a : c (pra s) = Ret (a, pra s) → in_pra c s = Ret (a, s).
Proof. intros E. unfold in_pra. erewrite zoom_run by exact E. by rewrite set_pra_same. Qed.

Lemma write_words_fields f off ws m :
  pm (write_words f off ws m) = pm m ∧ npage (write_words f off ws m) = npage m ∧
  cr3 (write_words f off ws m) = cr3 m ∧ tlb (write_words f off ws m) = tlb m ∧
  swap_init_ok (write_words f off ws m) = swap_init_ok m.
Proof. revert off m. induction ws; intros; [done|]. exact (IHws _ _). Qed.

Lemma read_write_words f off ws m g i :
  read (write_words f off ws m) (g, i) =
    if decide (g = f ∧ off ≤ i < off + Z.of_nat (length ws)) then ws !!! Z.to_nat (i - off) else read m (g, i).
Proof.
  revert off m. induction ws as [|w ws IH]; intros off m; simpl.
  { rewrite decide_False; [done|lia]. }
  rewrite IH. unfold read at 1. simpl.
  destruct (decide (g = f ∧ off + 1 ≤ i < off + 1 + Z.of_nat (length ws))) as [H1|H1].
  - rewrite decide_True by lia. replace (Z.to_nat (i - off)) with (Datatypes.S (Z.to_nat (i - (off + 1)))) by lia. done.
  - destruct (decide (g = f ∧ i = off)) as [[-> ->]|H2].
    + rewrite lookup_insert_eq, decide_True by lia. by rewrite Z.sub_diag.
    + rewrite lookup_insert_ne by (intros [= ? ?]; naive_solver). rewrite decide_False by lia. done.
Qed.

Lemma length_read_words f off n m : length (read_words f off n m) = Z.to_nat n.
Proof. unfold read_words. by rewrite length_fmap, length_seqZ. Qed.

Lemma read_words_total f off n m i : 0 ≤ i < n → read_words f off n m !!! Z.to_nat i = read m (f, off + i).
Proof.
  intros Hi. apply list_lookup_total_correct. unfold read_words. rewrite list_lookup_fmap.
  rewrite lookup_seqZ_lt by lia. simpl. do 3 f_equal. lia.
Qed.

Lemma read_words_ext f g off n m m' :
  (∀ i, 0 ≤ i < n → read m (f, off + i) = read m' (g, off + i)) → read_words f off n m = read_words g off n m'.
Proof. intros H. apply list_fmap_ext. intros k i Hk. apply H. apply lookup_seqZ in Hk. lia. Qed.

(** What the swap code relies on of the disk while [hw_good] holds of it: sectors hold what was written
    to them. *)
Class ide_laws := {
  sector : D → Z → list Z;
  hw_good : D → Prop;
  hw_good_valid d : hw_good d → ide_valid d = true;
  sector_length d k : length (sector d k) = 128%nat;
  hw_read_good d k : hw_good d →
    ∃ d', hw_read k d = Ret (Some (sector d k), d') ∧ hw_good d' ∧ ∀ t, sector d' t = sector d t;
  hw_write_good d k ws : hw_good d → length ws = 128%nat →
    ∃ d', hw_write k ws d = Ret (true, d') ∧ hw_good d' ∧
      ∀ t, sector d' t = if decide (t = k) then ws else sector d t }.
Context {HL : ide_laws}.

Lemma ide_check_run s secno nsecs :
  hw_good (dsk s) → nsecs ≤ MAX_NSECS → 0 < nsecs → secno + nsecs ≤ MAX_DISK_NSECS →
  ide_check secno nsecs s = Ret (tt, s).
Proof.
  intros Hg H1 H2 H3. unfold ide_check, mbind, M_bind, gets, assert. rewrite hw_good_valid by done.
  rewrite (proj2 (Z.leb_le _ _) H1). simpl.
  by rewrite (proj2 (Z.ltb_lt _ _)), (proj2 (Z.leb_le _ _)) by lia.
Qed.

Lemma ide_write_loop_run n s k f off :
  hw_good (dsk s) →
  ∃ d, ide_write_loop n k f off s = Ret (0, set_dsk s d) ∧ hw_good d ∧
    ∀ t, sector d t = if decide (k ≤ t < k + Z.of_nat n)
      then read_words f (off + 128 * (t - k)) 128 (mc s) else sector (dsk s) t.
Proof.
  revert s k off. induction n as [|n IH]; intros s k off Hg; simpl.
  { exists (dsk s). rewrite set_dsk_same. split_and!; [done|done|]. intros t. rewrite decide_False; [done|lia]. }
  destruct (hw_write_good (dsk s) k (read_words f off 128 (mc s)) Hg) as (d1 & Hw & Hg1 & Hs1).
  { by rewrite length_read_words. }
  destruct (IH (set_dsk s d1) (k + 1) (off + 128) Hg1) as (d & Hrun & Hgd & Hsd).
  exists d. split_and!; [|done|].
  - step using reflexivity. step using (by apply zoom_run, Hw). exact Hrun.
  - intros t. rewrite Hsd. simpl. rewrite Hs1. destruct (decide (t = k)) as [->|].
    + rewrite decide_False, decide_True by lia. by rewrite Z.sub_diag, Z.add_0_r.
    + destruct (decide (k + 1 ≤ t < k + 1 + Z.of_nat n)).
      * rewrite decide_True by lia. f_equal. lia.
      * rewrite decide_False; [done|lia].
Qed.

Lemma ide_read_loop_run n s k f off :
  hw_good (dsk s) →
  ∃ m d, ide_read_loop n k f off s = Ret (0, set_dsk (set_mc s m) d) ∧ hw_good d ∧
    (∀ t, sector d t = sector (dsk s) t) ∧
    pm m = pm (mc s) ∧ npage m = npage (mc s) ∧ cr3 m = cr3 (mc s) ∧ tlb m = tlb (mc s) ∧
    swap_init_ok m = swap_init_ok (mc s) ∧
    (∀ g i, read m (g, i) = if decide (g = f ∧ off ≤ i < off + 128 * Z.of_nat n)
      then sector (dsk s) (k + (i - off) / 128) !!! Z.to_nat ((i - off) mod 128) else read (mc s) (g, i)).
Proof.
  revert s k off. induction n as [|n IH]; intros s k off Hg; cbn [ide_read_loop].
  { exists (mc s), (dsk s). rewrite set_mc_same, set_dsk_same. split_and!; try done.
    intros g i. rewrite decide_False; [done|lia]. }
  destruct (hw_read_good (dsk s) k Hg) as (d1 & Hr & Hg1 & Hs1).
  set (m1 := write_words f off (sector (dsk s) k) (mc s)).
  destruct (write_words_fields f off (sector (dsk s) k) (mc s)) as (F1 & F2 & F3 & F4 & F5). fold m1 in F1, F2, F3, F4, F5.
  destruct (IH (set_mc (set_dsk s d1) m1) (k + 1) (off + 128) Hg1) as (m & d & Hrun & Hgd & Hsd & G1 & G2 & G3 & G4 & G5 & Hm).
  exists m, d. split_and!; try (cbn [mc set_mc set_dsk] in *; congruence).
  - step using (by apply zoom_run, Hr). cbv beta iota. step using reflexivity. exact Hrun.
  - intros t. rewrite Hsd. apply Hs1.
  - intros g i. rewrite Hm. cbn [mc dsk set_mc set_dsk]. unfold m1. rewrite read_write_words, sector_length.
    destruct (decide (g = f ∧ off + 128 ≤ i < off + 128 + 128 * Z.of_nat n)) as [[-> Hi]|Hn].
    + rewrite decide_True by lia. rewrite Hs1.
      replace (i - off) with ((i - (off + 128)) + 1 * 128) by lia. rewrite Z.div_add, Z.mod_add by lia.
      f_equal. f_equal. lia.
    + destruct (decide (g = f ∧ off ≤ i < off + Z.of_nat 128)) as [[-> Hi]|Hn2].
      * rewrite decide_True by lia. rewrite Z.div_small, Z.mod_small by lia. by rewrite Z.add_0_r.
      * rewrite decide_False; [done|lia].
Qed.

(** * The swap entry *)

Lemma swap_entry_offset va : is_u32 va → swap_entry va = (vpn va + 1) * 256.
Proof.
  intros Hva. unfold swap_entry, vpn, PGSIZE.
  assert (0 ≤ va / 4096 < 2 ^ 20) by (split; [apply Z.div_pos|apply Z.div_lt_upper_bound]; lia).
  rewrite (u32_small (_ + 1)) by lia. rewrite Z.shiftl_mul_pow2, u32_small by lia. done.
Qed.

Lemma swap_entry_shiftr va : is_u32 va → Z.shiftr (swap_entry va) 8 = vpn va + 1.
Proof.
  intros Hva. rewrite swap_entry_offset, Z.shiftr_div_pow2 by done. by apply (Z.div_mul _ 256).
Qed.

Lemma swap_entry_absent va : is_u32 va → present (swap_entry va) = false.
Proof.
  intros Hva. rewrite swap_entry_offset by done. rewrite present_testbit, Z.testbit_odd, Z.shiftr_0_r.
  by rewrite Z.odd_mul, andb_false_r.
Qed.

Lemma vpn_pos va : is_u32 va → 0 ≤ vpn va.
Proof. intros. unfold vpn. apply Z.div_pos; lia. Qed.

Lemma swap_offset_run s va :
  is_u32 va → vpn va + 1 < max_swap_offset s → swap_offset (swap_entry va) s = Ret (vpn va + 1, s).
Proof.
  intros Hva Hlt. unfold swap_offset. step using reflexivity. rewrite swap_entry_shiftr by done.
  pose proof (vpn_pos va Hva). by rewrite !(proj2 (Z.ltb_lt _ _)) by lia.
Qed.

(** A page at an address beyond the size of the swap area cannot be written: user stacks, just below
    [USERTOP], need slot 0xB0000, and a swap area of 128 MB has 32768. *)
Lemma swap_offset_high s va :
  is_u32 va → max_swap_offset s ≤ vpn va + 1 → swap_offset (swap_entry va) s = Err EPanic.
Proof.
  intros Hva Hge. unfold swap_offset. step using reflexivity. rewrite swap_entry_shiftr by done.
  by rewrite (proj2 (Z.ltb_ge _ (max_swap_offset s))), andb_false_r by done.
Qed.

(** The slot of page [va] on the disk holds the words of frame [f]. *)
Definition holds (d : D) (va f : Z) (m : machine) : Prop :=
  ∀ k, 0 ≤ k < 8 → sector d ((vpn va + 1) * 8 + k) = read_words f (128 * k) 128 m.

(** [page2kva] of a page of physical memory. *)
Lemma page2kva_run s p : p < npage (mc s) → in_mc (KADDR (page2pa p)) s = Ret (p, s).
Proof.
  intros Hp. apply in_mc_keep. unfold KADDR, mbind, M_bind, gets. rewrite PPN_page2pa.
  by rewrite (proj2 (Z.leb_gt _ _)).
Qed.

Lemma swapfs_write_run s va f :
  f < npage (mc s) → is_u32 va → vpn va + 1 < max_swap_offset s → max_swap_offset s ≤ MAX_SWAP_OFFSET_LIMIT → hw_good (dsk s) →
  ∃ d, swapfs_write (swap_entry va) f s = Ret (0, set_dsk s d) ∧ hw_good d ∧ holds d va f (mc s) ∧
    ∀ t, ¬ ((vpn va + 1) * 8 ≤ t < (vpn va + 1) * 8 + 8) → sector d t = sector (dsk s) t.
Proof.
  intros Hf Hva Hlt Hlim Hg. pose proof (vpn_pos va Hva).
  destruct (ide_write_loop_run (Z.to_nat PAGE_NSECT) s ((vpn va + 1) * 8) f 0 Hg) as (d & Hrun & Hgd & Hs).
  change (Z.of_nat (Z.to_nat PAGE_NSECT)) with 8 in Hs.
  exists d. split_and!; [|done| |].
  - unfold swapfs_write. step using (by apply swap_offset_run).
    step using (by apply page2kva_run). unfold ide_write_secs.
    change MAX_SWAP_OFFSET_LIMIT with 16777216 in Hlim.
    step using (apply ide_check_run; [done|done|done|]; unfold PAGE_NSECT, MAX_DISK_NSECS; lia).
    exact Hrun.
  - intros k Hk. rewrite Hs, decide_True by lia. f_equal. lia.
  - intros t Ht. by rewrite Hs, decide_False.
Qed.

Lemma swapfs_read_run s va f :
  f < npage (mc s) → is_u32 va → vpn va + 1 < max_swap_offset s → max_swap_offset s ≤ MAX_SWAP_OFFSET_LIMIT → hw_good (dsk s) →
  ∃ m d, swapfs_read (swap_entry va) f s = Ret (0, set_dsk (set_mc s m) d) ∧ hw_good d ∧
    (∀ t, sector d t = sector (dsk s) t) ∧
    pm m = pm (mc s) ∧ npage m = npage (mc s) ∧ cr3 m = cr3 (mc s) ∧ tlb m = tlb (mc s) ∧
    swap_init_ok m = swap_init_ok (mc s) ∧ (∀ g i, g ≠ f → read m (g, i) = read (mc s) (g, i)) ∧
    (∀ k, 0 ≤ k < 8 → read_words f (128 * k) 128 m = sector (dsk s) ((vpn va + 1) * 8 + k)).
Proof.
  intros Hf Hva Hlt Hlim Hg. pose proof (vpn_pos va Hva).
  destruct (ide_read_loop_run (Z.to_nat PAGE_NSECT) s ((vpn va + 1) * 8) f 0 Hg)
    as (m & d & Hrun & Hgd & Hs & F1 & F2 & F3 & F4 & F5 & Hm).
  change (Z.of_nat (Z.to_nat PAGE_NSECT)) with 8 in Hm.
  exists m, d. split_and!; try done.
  - unfold swapfs_read. step using (by apply swap_offset_run).
    step using (by apply page2kva_run). unfold ide_read_secs.
    change MAX_SWAP_OFFSET_LIMIT with 16777216 in Hlim.
    step using (apply ide_check_run; [done|done|done|]; unfold PAGE_NSECT, MAX_DISK_NSECS; lia).
    exact Hrun.
  - intros g i Hgf. rewrite Hm, decide_False; [done|]. naive_solver.
  - intros k Hk. apply list_eq_same_length with (n := 128%nat); [apply sector_length|by rewrite length_read_words|].
    intros i x y Hi Hx Hy. apply list_lookup_total_correct in Hx, Hy. subst x y.
    rewrite <-(Nat2Z.id i) at 1. rewrite read_words_total by lia. rewrite Hm, decide_True by lia.
    replace (128 * k + Z.of_nat i - 0) with (Z.of_nat i + k * 128) by lia.
    rewrite Z.div_add, Z.mod_add, Z.div_small, Z.mod_small by lia. by rewrite Nat2Z.id, Z.add_0_l.
Qed.

(** * What a policy promises *)

Context `{PL : !pmm_laws S}.
Context (lo hi : Z).
Notation space_ok := (space_ok lo hi).
Notation in_range := (in_range lo hi).
Notation data_frame := (data_frame lo hi).

(** Frame [p] is mapped at the address its descriptor names, and nowhere else; the address has a slot. *)
Definition swappable (s : vm) (p va : Z) : Prop :=
  pra_vaddr s !! p = Some va ∧ is_u32 va ∧ vpn va + 1 < max_swap_offset s ∧ in_range (vpn va) ∧
  maps (pte_at (mc s) (pgdir s) (vpn va)) p ∧
  ∀ w, in_range w → maps (pte_at (mc s) (pgdir s) w) p → w = vpn va.

(** The swappable frames are [l], the one that was added last first. *)
Record swap_ok (s : vm) (l : list Z) : Prop := {
  sw_space : space_ok (mc s) (pgdir s);
  sw_priv : sm_priv s = Some pra_list_head;
  sw_list : Dll.dlist (pra s) pra_list_head l;
  sw_limit : max_swap_offset s ≤ MAX_SWAP_OFFSET_LIMIT;
  sw_page : ∀ p, p ∈ l → ∃ va, swappable s p va }.

(** The entry [y] differs from [x] in flag bits at most, and only if [x] maps a frame. *)
Definition same_entry (x y : Z) : Prop :=
  present y = present x ∧ frame_of y = frame_of x ∧ (present x = false → y = x).

#[global] Instance same_entry_preorder : PreOrder same_entry.
Proof.
  split; [done|]. intros x y z (H1 & H2 & H3) (H4 & H5 & H6). split_and!; [congruence..|].
  intros Hx. rewrite <-(H3 Hx). apply H6. congruence.
Qed.

Lemma same_entry_maps x y q : same_entry x y → maps y q ↔ maps x q.
Proof. intros (H1 & H2 & _). unfold maps. by rewrite H1, H2. Qed.

(** [m'] differs from [m] in flag bits of table entries and in the TLB only. *)
Record same_frames (d : Z) (m m' : machine) : Prop := {
  sf_pm : pm m' = pm m;
  sf_npage : npage m' = npage m;
  sf_cr3 : cr3 m' = cr3 m;
  sf_swap : swap_init_ok m' = swap_init_ok m;
  sf_pde : ∀ e, pde_at m' d e = pde_at m d e;
  sf_pte : ∀ v, in_range v → same_entry (pte_at m d v) (pte_at m' d v);
  sf_data : ∀ f i, data_frame m d f → read m' (f, i) = read m (f, i) }.

(** Only the list and flag bits have changed. *)
Definition relinked (s s' : vm) : Prop :=
  s' = set_pra (set_mc s (mc s')) (pra s') ∧ same_frames (pgdir s) (mc s) (mc s') ∧
  dom (pra s') = dom (pra s).

(** [victim_pre] is what a policy needs of the processor for its choice. *)
Class swap_manager_laws (SM : swap_manager) := {
  init_law s : is_Some (pra s !! pra_list_head) →
    ∃ h, init_mm s = Ret (0, set_priv (set_pra s h) (Some pra_list_head)) ∧ Dll.dlist h pra_list_head [] ∧
      dom h = dom (pra s);
  victim_pre : vm → Prop;
  victim_pre_stable s s' : cr3 (mc s') = cr3 (mc s) → pgdir s' = pgdir s → victim_pre s → victim_pre s';
  victim_law s l : swap_ok s l → victim_pre s → l ≠ [] →
    ∃ p s', swap_out_victim 0 s = Ret (Some p, s') ∧ p ∈ l ∧ swap_ok s' (Dll.seq_del p l) ∧ relinked s s';
  map_law s l va p : sm_priv s = Some pra_list_head → Dll.dlist (pra s) pra_list_head l →
    is_Some (pra s !! p) → p ∉ pra_list_head :: l →
    ∃ h, map_swappable va p s = Ret (0, set_pra s h) ∧ Dll.dlist h pra_list_head (p :: l) ∧ dom h = dom (pra s) }.

(** * Swapping out *)

Lemma swappable_mono s s' q va :
  pra_vaddr s' = pra_vaddr s → max_swap_offset s' = max_swap_offset s →
  (∀ w, in_range w → maps (pte_at (mc s') (pgdir s') w) q ↔ maps (pte_at (mc s) (pgdir s) w) q) →
  swappable s q va → swappable s' q va.
Proof.
  intros Hv Hm Hpt (H1 & H2 & H3 & H4 & H5 & H6). unfold swappable. rewrite Hv, Hm.
  split_and!; try done; try lia; [by apply Hpt|]. intros w Hw Hq. apply H6, Hpt; done.
Qed.

Lemma same_frames_maps d m m' q w :
  same_frames d m m' → in_range w → maps (pte_at m' d w) q ↔ maps (pte_at m d w) q.
Proof. intros Hs Hw. by apply same_entry_maps, (sf_pte _ _ _ Hs). Qed.

Lemma same_frames_data d m m' f : same_frames d m m' → data_frame m d f → data_frame m' d f.
Proof. intros Hs [H1 H2]. split; [done|]. intros e He. rewrite (sf_pde _ _ _ Hs). by apply H2. Qed.

Lemma relinked_swappable s s' q va : relinked s s' → swappable s q va → swappable s' q va.
Proof.
  intros (-> & Hs & _). apply swappable_mono; [done|done|]. intros w Hw. by apply same_frames_maps.
Qed.

(** Frame [p], mapped at [va], has been moved to the disk. *)
Record evicted (s s' : vm) (p va : Z) : Prop := {
  ev_rest : s' = set_dsk (set_mc s (mc s')) (dsk s');
  ev_cr3 : cr3 (mc s') = cr3 (mc s);
  ev_swap : swap_init_ok (mc s') = swap_init_ok (mc s);
  ev_pte : pte_at (mc s') (pgdir s) (vpn va) = swap_entry va;
  ev_others : ∀ w, in_range w → w ≠ vpn va → pte_at (mc s') (pgdir s) w = pte_at (mc s) (pgdir s) w;
  ev_pde : ∀ e, pde_at (mc s') (pgdir s) e = pde_at (mc s) (pgdir s) e;
  ev_frames : pm_frames (pm (mc s')) = pm_frames (pm (mc s));
  ev_free : pm_free (pm (mc s')) = pm_free (pm (mc s)) ∪ {[ p ]};
  ev_data : ∀ f i, data_frame (mc s) (pgdir s) f → read (mc s') (f, i) = read (mc s) (f, i);
  ev_good : hw_good (dsk s');
  ev_slot : holds (dsk s') va p (mc s);
  ev_slots : ∀ t, ¬ ((vpn va + 1) * 8 ≤ t < (vpn va + 1) * 8 + 8) → sector (dsk s') t = sector (dsk s) t }.

(** Taking the only mapping of [p] away and freeing it. *)
Lemma space_ok_evict m d p v e x :
  space_ok m d → in_range v → maps (pte_at m d v) p → (∀ w, in_range w → maps (pte_at m d w) p → w = v) →
  present e = false → pm_inv x → pm_frames x = pm_frames (pm m) → pm_free x = pm_free (pm m) ∪ {[ p ]} →
  (∀ i, i ∉ pm_free (pm m) ∪ {[ p ]} → page_ref i x = page_ref i (pm m)) →
  space_ok (set_pm (with_pte m d v e) x) d.
Proof.
  intros Hok Hv [Hpte <-] Huniq He Hxi Hfr Hfree Href. pose proof (present_pde_of_pte _ _ _ Hpte) as Hp.
  destruct (so_map _ _ _ _ Hok v Hv Hpte) as [Hpu Hpd].
  assert (space_ok (with_pte m d v e) d) as Hok1 by (apply space_ok_with_pte; [done..|congruence]).
  destruct (with_pte_fields m d v e) as (Hpm & _).
  apply space_ok_set_pm; [done|done|by rewrite Hpm| |].
  - rewrite Hpm, Hfree. intros f Hf Hnf. assert (f = frame_of (pte_at m d v)) as -> by set_solver.
    split; [by apply data_with_pte|]. apply count_zero. intros w Hw. apply range_pages_elem in Hw.
    rewrite (pte_with_pte lo hi) by done. case_decide as Hwv; [intros [? _]; congruence|].
    intros Hm. by apply Hwv, Huniq.
  - rewrite Hfr, Hfree. intros f Hf. rewrite Href by set_solver.
    pose proof (so_ref _ _ _ _ Hok1 f) as Hr. unfold used, ref_of in Hr. rewrite Hpm in Hr. apply Hr. set_solver.
Qed.

Lemma swap_out_page_run {SM : swap_manager} s l p va :
  swap_ok s l → p ∉ l → swappable s p va → hw_good (dsk s) →
  ∃ s', swap_out_page p s = Ret (tt, s') ∧ swap_ok s' l ∧ evicted s s' p va.
Proof.
  intros Hok Hpl Hsw Hg. pose proof Hsw as (Hva & H32 & Hlim & Hv & Hmap & Huniq).
  pose proof (sw_space _ _ Hok) as Hsp. pose proof Hmap as [Hpte Hfr].
  pose proof (present_pde_of_pte _ _ _ Hpte) as Hp.
  destruct (so_map _ _ _ _ Hsp _ Hv Hpte) as [Hpu Hpd]. rewrite Hfr in Hpu, Hpd.
  destruct (swapfs_write_run s va p (proj1 (Z.leb_gt _ _) (used_npage _ _ _ _ _ Hsp Hpu)) H32 Hlim (sw_limit _ _ Hok) Hg) as (dk & Hwr & Hgd & Hh & Hs).
  destruct (pm_release (pm (mc s)) p 1) as (x & Hx & Hxi & Hxfr & Hxfree & Hxref);
    [apply Hsp|lia|rewrite frames_one; by intros ? ->%elem_of_singleton|]. rewrite frames_one in Hxfree, Hxref.
  set (m' := set_pm (with_pte (mc s) (pgdir s) (vpn va) (swap_entry va)) x).
  assert (space_ok m' (pgdir s)) as Hsp'.
  { apply space_ok_evict with (p := p); try done. by apply swap_entry_absent. }
  assert (∀ w, in_range w → pte_at m' (pgdir s) w = if decide (w = vpn va) then swap_entry va
            else pte_at (mc s) (pgdir s) w) as Hpt.
  { intros w Hw. by apply (pte_with_pte lo hi (mc s)). }
  exists (set_dsk (set_mc s m') dk). split; [|split].
  - unfold swap_out_page. step using (unfold page_vaddr, deref; rewrite Hva; reflexivity).
    step using reflexivity. step using (apply in_mc_keep; by apply (get_pte_find lo hi)).
    step using reflexivity. step using (by apply in_mc_keep). fold (pde_at (mc s) (pgdir s) (vpn va / 1024)).
    rewrite <-(pte_at_present (mc s)) by done. rewrite Hpte. step using reflexivity.
    step using (exact Hwr). cbv beta. change (negb (0 =? 0)) with false. cbv iota.
    step using reflexivity.
    step using (apply zoom_run; unfold free_page, lift_pm; simpl; rewrite Hx; reflexivity).
    unfold in_mc. erewrite zoom_run by reflexivity. unfold m', with_pte. simpl. rewrite PPN_vpn.
    by destruct (decide (cr3 (mc s) = pgdir s)).
  - split; cbn [mc pgdir sm_priv pra max_swap_offset set_dsk set_mc]; [done|apply Hok..|].
    intros q Hq. destruct (sw_page _ _ Hok q Hq) as [vq Hq2]. exists vq.
    apply (swappable_mono s); [done|done| |exact Hq2]. cbn [mc pgdir set_dsk set_mc]. intros w Hw.
    rewrite Hpt by done. case_decide as Hwv; [subst w|done].
    split; [intros [E _]; by rewrite swap_entry_absent in E|].
    intros [_ Hq3]. assert (p = q) as -> by congruence. done.
  - destruct (with_pte_fields (mc s) (pgdir s) (vpn va) (swap_entry va)) as (_ & _ & F3 & F4 & _).
    split; cbn [mc pgdir dsk set_dsk set_mc]; try done.
    + rewrite Hpt by done. by rewrite decide_True.
    + intros w Hw Hwv. by rewrite Hpt, decide_False.
    + intros e. by apply (pde_with_pte lo hi (mc s)).
    + intros f i [_ Hf]. change (read m' (f, i)) with (read (with_pte (mc s) (pgdir s) (vpn va) (swap_entry va)) (f, i)).
      rewrite read_with_pte, decide_False; [done|]. intros [= -> _]. by eapply Hf; [apply in_range_dir|..].
Qed.

(** The frames [out] have been moved to the disk. *)
Record swapped_out (s s' : vm) (out : list Z) : Prop := {
  so_mm : mm s' = mm s;
  so_pgdir : pgdir s' = pgdir s;
  so_links : dom (pra s') = dom (pra s);
  so_swap : swap_init_ok (mc s') = swap_init_ok (mc s);
  so_vaddr : pra_vaddr s' = pra_vaddr s;
  so_limit : max_swap_offset s' = max_swap_offset s;
  so_cr3 : cr3 (mc s') = cr3 (mc s);
  so_frames : pm_frames (pm (mc s')) = pm_frames (pm (mc s));
  so_free : pm_free (pm (mc s')) = pm_free (pm (mc s)) ∪ list_to_set out;
  so_pde : ∀ e, pde_at (mc s') (pgdir s) e = pde_at (mc s) (pgdir s) e;
  so_out : ∀ p va, p ∈ out → pra_vaddr s !! p = Some va →
    pte_at (mc s') (pgdir s) (vpn va) = swap_entry va ∧ holds (dsk s') va p (mc s);
  so_others : ∀ w, in_range w → (∀ p, p ∈ out → ¬ maps (pte_at (mc s) (pgdir s) w) p) →
    same_entry (pte_at (mc s) (pgdir s) w) (pte_at (mc s') (pgdir s) w);
  so_data : ∀ f i, data_frame (mc s) (pgdir s) f → read (mc s') (f, i) = read (mc s) (f, i);
  so_good : hw_good (dsk s');
  so_slots : ∀ t, (∀ p va, p ∈ out → pra_vaddr s !! p = Some va →
      ¬ ((vpn va + 1) * 8 ≤ t < (vpn va + 1) * 8 + 8)) → sector (dsk s') t = sector (dsk s) t }.

Lemma swapped_out_nil s : hw_good (dsk s) → swapped_out s s [].
Proof. intros Hg. split; try done; [set_solver|]. by intros ? ? ?%not_elem_of_nil. Qed.

Lemma holds_ext d va p m m' : (∀ i, read m (p, i) = read m' (p, i)) → holds d va p m → holds d va p m'.
Proof. intros Hr Hh k Hk. rewrite (Hh k Hk). by apply read_words_ext. Qed.

Lemma swapped_out_cons s s1 s2 s' p va l out :
  relinked s s1 → evicted s1 s2 p va → swap_ok s2 l → out ⊆ l → swappable s p va →
  data_frame (mc s) (pgdir s) p → swapped_out s2 s' out → swapped_out s s' (p :: out).
Proof.
  intros (Hs1 & Hsf & Hdom) Hev Hok2 Hsub Hsw Hpd Hso.
  pose proof Hsw as (Hva & _ & _ & Hv & Hpm & _).
  assert (pgdir s1 = pgdir s ∧ pra_vaddr s1 = pra_vaddr s ∧ max_swap_offset s1 = max_swap_offset s ∧ dsk s1 = dsk s)
    as (Ed1 & Ev1 & Em1 & Ek1) by (rewrite Hs1; done).
  assert (mm s1 = mm s) as Ea1 by (rewrite Hs1; done).
  assert (pgdir s2 = pgdir s1 ∧ pra_vaddr s2 = pra_vaddr s1 ∧ max_swap_offset s2 = max_swap_offset s1 ∧
    pra s2 = pra s1 ∧ mm s2 = mm s1) as (Ed2 & Ev2 & Em2 & Ep2 & Ea2) by (rewrite (ev_rest _ _ _ _ Hev); done).
  destruct Hev as [_ E3 E4 E5 E6 E7 E8 E9 E10 E11 E12 E13].
  destruct Hso as [Omm O1 Olk Osw O2 O3 O4 O5 O6 O7 O8 O9 O10 O11 O12].
  rewrite ?Ep2, ?Ea2, ?Ea1 in *.
  rewrite ?Ed2, ?Ev2, ?Em2 in *. rewrite ?Ed1, ?Ev1, ?Em1 in *.
  (* the other victims are mapped elsewhere *)
  assert (∀ q vq, q ∈ out → pra_vaddr s !! q = Some vq →
    vpn vq ≠ vpn va ∧ data_frame (mc s2) (pgdir s) q) as Hq.
  { intros q vq Hq Hvq. destruct (sw_page _ _ Hok2 q (Hsub q Hq)) as [vq' (Hvq' & _ & _ & Hvr & Hmq & _)].
    rewrite Ev2 in Hvq'. rewrite Ed2 in Hmq. assert (vq' = vq) as -> by congruence. split.
    - intros Heq. rewrite Heq, E5 in Hmq. destruct Hmq as [Hmq _]. rewrite swap_entry_absent in Hmq; [done|]. apply Hsw.
    - destruct Hmq as [Hmq <-]. pose proof (sw_space _ _ Hok2) as Hsp. rewrite Ed2 in Hsp.
      apply (so_map _ _ _ _ Hsp _ Hvr Hmq). }
  assert (∀ f, data_frame (mc s) (pgdir s) f → data_frame (mc s2) (pgdir s) f) as Hdf.
  { intros f [H1 H2]. split; [done|]. intros e He. rewrite E7, (sf_pde _ _ _ Hsf). by apply H2. }
  assert (∀ f, data_frame (mc s2) (pgdir s) f → data_frame (mc s) (pgdir s) f) as Hdf'.
  { intros f [H1 H2]. split; [done|]. intros e He. rewrite <-(sf_pde _ _ _ Hsf), <-E7. by apply H2. }
  assert (∀ f i, data_frame (mc s) (pgdir s) f → read (mc s2) (f, i) = read (mc s) (f, i)) as Hrd.
  { intros f i Hf. rewrite E10 by by eapply same_frames_data. by apply (sf_data _ _ _ Hsf). }
  split; try done.
  - congruence.
  - rewrite Osw, E4. apply (sf_swap _ _ _ Hsf).
  - rewrite O4, E3. apply (sf_cr3 _ _ _ Hsf).
  - by rewrite O5, E8, (sf_pm _ _ _ Hsf).
  - rewrite O6, E9, (sf_pm _ _ _ Hsf). simpl. by rewrite <-(assoc_L (∪)).
  - intros e. by rewrite O7, E7, (sf_pde _ _ _ Hsf).
  - intros q vq [->|Hqo]%elem_of_cons Hvq.
    + assert (vq = va) as -> by congruence. split.
      * destruct (O9 (vpn va) Hv) as (_ & _ & ->); [|done|].
        -- intros q _. rewrite E5. intros [Hx _]. rewrite swap_entry_absent in Hx; [done|]. apply Hsw.
        -- rewrite E5. apply swap_entry_absent, Hsw.
      * intros k Hk. rewrite O12.
        -- rewrite (E12 k Hk). apply read_words_ext. intros i _. by apply (sf_data _ _ _ Hsf).
        -- intros q vq Hqo Hvq2. destruct (Hq q vq Hqo Hvq2). lia.
    + destruct (O8 q vq Hqo Hvq) as [Ho1 Ho2]. split; [done|]. eapply holds_ext; [|exact Ho2].
      intros i. apply Hrd, Hdf', (Hq q vq); done.
  - intros w Hw Hnm. assert (w ≠ vpn va) as Hwv by (intros ->; apply (Hnm p); [by left|done]).
    etrans; [apply (sf_pte _ _ _ Hsf); done|]. rewrite <-E6 by done. apply O9; [done|].
    intros q Hqo. rewrite E6 by done. rewrite (same_frames_maps _ _ _ _ _ Hsf) by done. apply Hnm. by right.
  - intros f i Hf. rewrite O10 by auto. auto.
  - intros t Ht. rewrite O12.
    + rewrite E13; [by rewrite Ek1|]. apply (Ht p); [by left|done].
    + intros q vq Hqo. apply Ht. by right.
Qed.

Lemma swap_out_loop_run {SM : swap_manager} {SML : swap_manager_laws SM} n s l i :
  swap_ok s l → victim_pre s → hw_good (dsk s) → (n ≤ length l)%nat →
  ∃ out l' s', swap_out_loop n i 0 s = Ret (i + Z.of_nat n, s') ∧ length out = n ∧ l ≡ₚ out ++ l' ∧
    swap_ok s' l' ∧ swapped_out s s' out.
Proof.
  revert s l i. induction n as [|n IH]; intros s l i Hok Hpre Hg Hn.
  { exists [], l, s. rewrite Z.add_0_r. split_and!; try done. by apply swapped_out_nil. }
  destruct (victim_law s l Hok Hpre) as (p & s1 & Hrun & Hp & Hok1 & Hrel); [intros ->; simpl in Hn; lia|].
  pose proof Hrel as (Hs1 & Hsf & _).
  destruct (sw_page _ _ Hok p Hp) as [va Hsw].
  assert (NoDup l) as Hnd by (destruct (sw_list _ _ Hok) as [Hnd _]; by apply NoDup_cons in Hnd as [_ Hnd]).
  pose proof (Dll.seq_del_perm p l Hnd Hp) as Hperm.
  destruct (swap_out_page_run s1 (Dll.seq_del p l) p va) as (s2 & Hpage & Hok2 & Hev); [done| | |by rewrite Hs1|].
  { rewrite Dll.elem_of_seq_del. tauto. }
  { by apply (relinked_swappable s). }
  destruct (IH s2 (Dll.seq_del p l) (i + 1) Hok2) as (out & l' & s' & Hloop & Hlen & Hpl & Hok' & Hso).
  { apply (victim_pre_stable s); [|by rewrite (ev_rest _ _ _ _ Hev), Hs1|done].
    by rewrite (ev_cr3 _ _ _ _ Hev), (sf_cr3 _ _ _ Hsf). }
  { apply Hev. }
  { apply Permutation_length in Hperm. simpl in Hperm. lia. }
  exists (p :: out), l', s'. split_and!; [|by simpl; f_equal| |done|].
  - cbn [swap_out_loop]. step using (exact Hrun). cbv beta iota. step using (exact Hpage).
    rewrite Hloop. do 2 f_equal. lia.
  - by rewrite <-Hperm, Hpl.
  - eapply swapped_out_cons; try done.
    + intros q Hq. rewrite Hpl. set_solver.
    + destruct Hsw as (_ & _ & _ & Hv & [Hpt <-] & _). apply (so_map _ _ _ _ (sw_space _ _ Hok) _ Hv Hpt).
Qed.

(** * Swapping in *)

(** The state of an address space is what its tables and descriptors say. *)
Lemma space_ok_same (m m' : machine) d :
  pm m' = pm m → npage m' = npage m → cr3 m' = cr3 m → tlb m' = tlb m →
  (∀ e, pde_at m' d e = pde_at m d e) → (∀ v, in_range v → pte_at m' d v = pte_at m d v) →
  space_ok m d → space_ok m' d.
Proof.
  intros E1 E2 E3 E4 E5 E6 [H1 H2 H3 H4 H5 H6 H7 H8].
  assert (used m' = used m) as Eu by (unfold used; by rewrite E1).
  assert (∀ f, data_frame m d f → data_frame m' d f) as Ed.
  { intros f [Ha Hb]. split; [done|]. intros e. rewrite E5. apply Hb. }
  split; rewrite ?E1, ?E2, ?E3, ?E4, ?Eu; try done.
  - intros e. rewrite E5. apply H4.
  - intros e e'. rewrite !E5. apply H5.
  - intros v Hv. rewrite E6 by done. intros Hp. destruct (H6 v Hv Hp). auto.
  - intros f Hf. unfold ref_of. rewrite E1. rewrite (count_ext _ (pte_at m d)); [by apply H7|].
    intros v Hv. apply E6. by apply range_pages_elem.
  - intros Hc v x Hv. rewrite E6 by done. by apply H8.
Qed.

(** Writing to a data frame changes no translation. *)
Lemma data_write_tables (m m' : machine) d f :
  data_frame m d f → (∀ g i, g ≠ f → read m' (g, i) = read m (g, i)) →
  (∀ e, pde_at m' d e = pde_at m d e) ∧ (∀ v, in_range v → pte_at m' d v = pte_at m d v).
Proof.
  intros [Hf1 Hf2] Hr. assert (∀ e, pde_at m' d e = pde_at m d e) as Hp by (intros e; by apply Hr).
  split; [done|]. intros v Hv. unfold pte_at. rewrite Hp.
  destruct (present (pde_at m d (v / 1024))) eqn:E; [|done]. apply Hr.
  apply Hf2; [|done]. by apply in_range_dir.
Qed.

(** Frame [f] has been filled with the words of slot [vpn va + 1]. *)
Record swapped_in (s s' : vm) (f va : Z) : Prop := {
  si_rest : s' = set_dsk (set_mc s (mc s')) (dsk s');
  si_space : space_ok (mc s') (pgdir s);
  si_swap : swap_init_ok (mc s') = swap_init_ok (mc s);
  si_used : f ∈ used (mc s') ∧ data_frame (mc s') (pgdir s) f;
  si_free : f ∈ pm_free (pm (mc s)) ∧ pm_free (pm (mc s')) = pm_free (pm (mc s)) ∖ {[ f ]};
  si_frames : pm_frames (pm (mc s')) = pm_frames (pm (mc s));
  si_ref : ref_of (mc s') f = 0 ∧ ∀ g, g ∈ used (mc s) → ref_of (mc s') g = ref_of (mc s) g;
  si_pde : ∀ e, pde_at (mc s') (pgdir s) e = pde_at (mc s) (pgdir s) e;
  si_pte : ∀ v, in_range v → pte_at (mc s') (pgdir s) v = pte_at (mc s) (pgdir s) v;
  si_others : ∀ g i, g ≠ f → read (mc s') (g, i) = read (mc s) (g, i);
  si_words : ∀ k, 0 ≤ k < 8 → read_words f (128 * k) 128 (mc s') = sector (dsk s) ((vpn va + 1) * 8 + k);
  si_good : hw_good (dsk s');
  si_slots : ∀ t, sector (dsk s') t = sector (dsk s) t }.

Lemma entry_table (m : machine) d va :
  is_u32 va → pte_at m d (vpn va) = swap_entry va → present (pde_at m d (vpn va / 1024)) = true.
Proof.
  intros Hva. unfold pte_at. destruct (present _) eqn:E; [done|]. rewrite swap_entry_offset by done.
  pose proof (vpn_pos va Hva). lia.
Qed.

Lemma swap_in_run s va :
  space_ok (mc s) (pgdir s) → pm_free (pm (mc s)) ≠ ∅ → is_u32 va → in_range (vpn va) →
  vpn va + 1 < max_swap_offset s → max_swap_offset s ≤ MAX_SWAP_OFFSET_LIMIT → hw_good (dsk s) →
  pte_at (mc s) (pgdir s) (vpn va) = swap_entry va →
  ∃ f s', swap_in va s = Ret ((0, f), s') ∧ swapped_in s s' f va.
Proof.
  intros Hsp Hne Hva Hv Hlim Hmax Hg Hpte. pose proof (entry_table _ _ _ Hva Hpte) as Hp.
  destruct (alloc_page_free (mc s)) as (f & x & Hrun & Hf & Hxi & Hfr & Hfree & Href & Hoth); [apply Hsp|done|].
  destruct (space_ok_alloc lo hi (mc s) (pgdir s) f x 0) as (Hsp1 & Hu & Hdf & _); try done.
  set (s1 := set_mc s (set_pm (mc s) x)).
  destruct (swapfs_read_run s1 va f (proj1 (Z.leb_gt _ _) (used_npage _ _ _ _ _ Hsp1 Hu)) Hva) as (m & dk & Hrd & Hgd & Hs & F1 & F2 & F3 & F4 & F5 & Hmo & Hmw); try done.
  cbn [mc dsk set_mc s1] in *.
  destruct (data_write_tables (set_pm (mc s) x) m (pgdir s) f) as [Hpde Hpt]; [done|done|].
  exists f, (set_dsk (set_mc s m) dk). split.
  - unfold swap_in. step using (by apply zoom_run, Hrun). cbv beta iota. fold s1.
    step using reflexivity. step using (apply in_mc_keep; by apply (get_pte_find lo hi)).
    step using reflexivity. step using (by apply in_mc_keep).
    change (read (mc s1) _) with (read (mc s) (frame_of (pde_at (mc s) (pgdir s) (vpn va / 1024)), vpn va mod 1024)).
    rewrite <-(pte_at_present (mc s)), Hpte by done.
    step using (exact Hrd). done.
  - split; cbn [mc dsk pgdir set_mc set_dsk]; try done.
    + by apply (space_ok_same (set_pm (mc s) x)).
    + unfold used. rewrite F1. split; [done|]. destruct Hdf as [Ha Hb]. split; [done|]. intros e. rewrite Hpde. apply Hb.
    + rewrite F1. done.
    + by rewrite F1.
    + unfold ref_of. rewrite F1. simpl. rewrite Href. split; [done|]. intros g Hgu. rewrite Hoth; [done|].
      unfold used in Hgu. set_solver.
Qed.

(** Two frames that hold the same sectors agree on every word. *)
Lemma words_agree f g (m m' : machine) :
  (∀ k, 0 ≤ k < 8 → read_words f (128 * k) 128 m = read_words g (128 * k) 128 m') →
  ∀ i, 0 ≤ i < 1024 → read m (f, i) = read m' (g, i).
Proof.
  intros Hk i Hi. pose proof (Z.mod_pos_bound i 128). pose proof (Z.div_mod i 128).
  assert (0 ≤ i / 128 < 8) as Hd by (split; [apply Z.div_pos|apply Z.div_lt_upper_bound]; lia).
  replace i with (128 * (i / 128) + i mod 128) by lia.
  rewrite <-!(read_words_total _ _ 128) by lia. by rewrite Hk.
Qed.

(** * The policies *)

Lemma dlist_is_Some h head l a : Dll.dlist h head l → a ∈ head :: l → is_Some (h !! a).
Proof.
  intros (_ & Hn & _) Ha. apply list_elem_of_lookup in Ha as [i Hi].
  destruct (Dll.cycle head l !! Datatypes.S i) as [b|] eqn:Hb.
  - assert (Dll.cycle head l !! i = Some a) as Hc.
    { unfold Dll.cycle. rewrite app_comm_cons. by apply lookup_app_l_Some. }
    pose proof (Hn i a b Hc Hb) as Hf. by destruct (h !! a).
  - apply lookup_ge_None in Hb. apply lookup_lt_Some in Hi. unfold Dll.cycle in Hb. simpl in *.
    rewrite length_app in Hb. simpl in Hb. lia.
Qed.

Lemma dom_unchanged (E : list Z) (h h' : gmap Z Dll.list_entry) :
  (∀ a, a ∈ E → is_Some (h !! a)) → (∀ a, a ∈ E → is_Some (h' !! a)) → Dll.unchanged_outside E h h' →
  dom h' = dom h.
Proof.
  intros H1 H2 Hu. apply set_eq. intros a. rewrite !elem_of_dom.
  destruct (decide (a ∈ E)) as [Ha|Ha]; [naive_solver|]. by rewrite Hu.
Qed.

Lemma dlist_last_prev h head l p :
  Dll.dlist h head (l ++ [p]) → Dll.list_prev head h = Ret (p, h).
Proof.
  intros Hd. assert (Dll.cycle head (l ++ [p]) = (head :: l) ++ p :: head :: []) as Hc.
  { unfold Dll.cycle. by rewrite <-app_assoc. }
  pose proof (Dll.dlist_prev _ _ _ _ _ _ _ Hd Hc) as Hp. unfold Dll.list_prev, Dll.load. unM.
  destruct (h !! head); simpl in *; congruence.
Qed.

(** [last l], or the head of the list for the empty list. *)
Definition last_or (head : Z) (l : list Z) : Z := default head (last l).

Lemma dlist_inner_prev h head l1 p l2 :
  Dll.dlist h head (l1 ++ p :: l2) → Dll.list_prev p h = Ret (last_or head l1, h).
Proof.
  intros Hd. assert (∃ q, Dll.cycle head (l1 ++ p :: l2) = q ++ last_or head l1 :: p :: l2 ++ [head]) as [q Hc].
  { unfold Dll.cycle, last_or. destruct l1 as [|x l1'] using rev_ind; [by exists []|].
    rewrite last_snoc. exists (head :: l1'). simpl. by rewrite <-!app_assoc. }
  pose proof (Dll.dlist_prev _ _ _ _ _ _ _ Hd Hc) as Hp. unfold Dll.list_prev, Dll.load. unM.
  destruct (h !! p); simpl in *; congruence.
Qed.

Lemma pra_del_run s head l p :
  Dll.dlist (pra s) head l → p ∈ l →
  ∃ h, in_pra (Dll.list_del p) s = Ret (tt, set_pra s h) ∧ Dll.dlist h head (Dll.seq_del p l) ∧ dom h = dom (pra s).
Proof.
  intros Hd Hp. destruct (Dll.list_del_run _ _ _ _ Hd Hp) as (h & Hrun & Hx & Hd' & Hu).
  exists h. split_and!; [by apply zoom_run|done|]. eapply dom_unchanged; [|  |exact Hu].
  - intros a Ha. by eapply dlist_is_Some.
  - intros a Ha. destruct (decide (a = p)) as [->|Hne].
    + rewrite Hx. eapply dlist_is_Some; [exact Hd|by right].
    + eapply dlist_is_Some; [exact Hd'|]. rewrite elem_of_cons, Dll.elem_of_seq_del. set_solver.
Qed.

Lemma pra_add_run s l p :
  Dll.dlist (pra s) pra_list_head l → is_Some (pra s !! p) → p ∉ pra_list_head :: l →
  ∃ h, in_pra (Dll.list_add pra_list_head p) s = Ret (tt, set_pra s h) ∧ Dll.dlist h pra_list_head (p :: l) ∧
    dom h = dom (pra s).
Proof.
  intros Hd Hs Hp. destruct (Dll.list_add_after_run (pra s) pra_list_head l None p) as (h & Hrun & Hd' & Hu); try done.
  exists h. split_and!; [by apply zoom_run|done|]. eapply dom_unchanged; [| |exact Hu].
  - intros a [->|Ha]%elem_of_cons; [done|]. by eapply dlist_is_Some.
  - intros a Ha. eapply dlist_is_Some; [exact Hd'|]. simpl. set_solver.
Qed.

(** The list starts anew: what was queued for another address space is queued no more. *)
Lemma pra_init_run s :
  is_Some (pra s !! pra_list_head) →
  ∃ h, in_pra (Dll.list_init pra_list_head) s = Ret (tt, set_pra s h) ∧ Dll.dlist h pra_list_head [] ∧ dom h = dom (pra s).
Proof.
  intros Hs. exists (<[pra_list_head := Dll.mk_entry pra_list_head pra_list_head]> (pra s)). split_and!.
  - by apply zoom_run, Dll.list_init_run.
  - split_and!; [apply NoDup_singleton|..]; intros [|[|i]] a b Ha Hb; simplify_eq/=; by rewrite lookup_insert_eq.
  - rewrite dom_insert_L. apply elem_of_dom in Hs. set_solver.
Qed.

(** ** First in, first out *)

Lemma fifo_victim_run s l p :
  sm_priv s = Some pra_list_head → Dll.dlist (pra s) pra_list_head (l ++ [p]) →
  ∃ h, _fifo_swap_out_victim 0 s = Ret (Some p, set_pra s h) ∧
    Dll.dlist h pra_list_head (Dll.seq_del p (l ++ [p])) ∧ dom h = dom (pra s).
Proof.
  intros Hs Hd. destruct (pra_del_run s pra_list_head (l ++ [p]) p Hd) as (h & Hrun & Hd' & Hdom); [set_solver|].
  exists h. split; [|done]. unfold _fifo_swap_out_victim. step using reflexivity. rewrite Hs. cbv beta iota.
  step using reflexivity. step using (apply in_pra_keep; by eapply dlist_last_prev).
  assert ((p =? pra_list_head) = false) as ->.
  { apply Z.eqb_neq. intros ->. destruct Hd as [Hnd _]. apply NoDup_cons in Hnd as [Hnd _]. set_solver. }
  step using reflexivity. by step using (exact Hrun).
Qed.

Lemma same_frames_refl d m : same_frames d m m.
Proof. done. Qed.

Lemma swap_ok_relinked s l s' l' :
  relinked s s' → space_ok (mc s') (pgdir s) → swap_ok s l → Dll.dlist (pra s') pra_list_head l' → l' ⊆ l → swap_ok s' l'.
Proof.
  intros Hrel Hsp Hok Hd Hsub. pose proof Hrel as (Hs & Hsf & _). split; [|..|done| |].
  - rewrite Hs. exact Hsp.
  - rewrite Hs. apply Hok.
  - rewrite Hs. apply Hok.
  - intros q Hq. destruct (sw_page _ _ Hok q (Hsub q Hq)) as [va Hva]. exists va. by eapply relinked_swappable.
Qed.

#[global] Program Instance fifo_laws : swap_manager_laws swap_manager_fifo := {| victim_pre := λ _, True |}.
Next Obligation.
  intros s Hs. destruct (pra_init_run s Hs) as (h & Hrun & Hd). exists h. split; [|done]. simpl. unfold _fifo_init_mm.
  step using (exact Hrun). done.
Qed.
Next Obligation. done. Qed.
Next Obligation.
  intros s l Hok _ Hne. destruct l as [|p l _] using rev_ind; [done|].
  destruct (fifo_victim_run s l p) as (h & Hrun & Hd & Hdom); [apply Hok..|].
  exists p, (set_pra s h). assert (relinked s (set_pra s h)) as Hrel by by split_and!; destruct s.
  split_and!; [exact Hrun|set_solver| |done].
  eapply swap_ok_relinked; [done|apply Hok|done|done|]. intros q. rewrite Dll.elem_of_seq_del. tauto.
Qed.
Next Obligation.
  intros s l va p Hs Hd Hp Hn. destruct (pra_add_run s l p Hd Hp Hn) as (h & Hrun & Hd' & Hdom).
  exists h. split; [|done]. simpl. unfold _fifo_map_swappable. step using reflexivity. rewrite Hs. cbv beta iota.
  by step using (exact Hrun).
Qed.

(** ** Clock *)

Definition clean (x : Z) : bool := (Z.land x PTE_A =? 0) && (Z.land x PTE_D =? 0).
(** The flag that round [i] clears. *)
Definition round_flag (i : Z) : Z := if i =? 0 then PTE_A else PTE_D.
(** The entry that maps the swappable frame [p]. *)
Definition entry_of (s : vm) (p : Z) : Z := pte_at (mc s) (pgdir s) (vpn (default 0 (pra_vaddr s !! p))).

Lemma swappable_entry s p va : swappable s p va →
  pra_vaddr s !! p = Some va ∧ entry_of s p = pte_at (mc s) (pgdir s) (vpn va) ∧ maps (entry_of s p) p.
Proof. intros (Hva & _ & _ & _ & Hm & _). unfold entry_of. by rewrite Hva. Qed.

Lemma ldiff_flag x i : same_entry x (Z.ldiff x (round_flag i)) ∨ present x = false.
Proof.
  destruct (present x) eqn:Hx; [left|by right]. unfold same_entry. rewrite !present_testbit, !frame_of_shiftr, Z.shiftr_ldiff.
  rewrite Z.ldiff_spec. rewrite present_testbit in Hx. rewrite Hx. unfold round_flag, PTE_A, PTE_D.
  case_match; simpl; by rewrite Z.ldiff_0_r.
Qed.

Lemma clean_rounds x : clean (Z.ldiff (Z.ldiff x (round_flag 0)) (round_flag 1)) = true ∧
  clean (Z.ldiff x (round_flag 0)) = (Z.land x PTE_D =? 0).
Proof.
  unfold clean, round_flag, PTE_A, PTE_D. simpl. rewrite !Z.ldiff_land, <-!Z.land_assoc.
  change (Z.land (Z.lnot 32) 32) with 0. change (Z.land (Z.lnot 32) 64) with 64.
  change (Z.land (Z.lnot 32) (Z.land (Z.lnot 64) 32)) with 0. change (Z.land (Z.lnot 32) (Z.land (Z.lnot 64) 64)) with 0.
  by rewrite Z.land_0_r.
Qed.

Lemma clean_land x : clean x = true → (Z.land x PTE_D =? 0) = true.
Proof. unfold clean. by intros [_ ?]%andb_true_iff. Qed.

Lemma same_frames_trans d m1 m2 m3 : same_frames d m1 m2 → same_frames d m2 m3 → same_frames d m1 m3.
Proof.
  intros H12 H23. pose proof H12 as [A1 A2 A3 A4 A5 A6 A7]. pose proof H23 as [B1 B2 B3 B4 B5 B6 B7].
  split; try congruence.
  - intros v Hv. etrans; [by apply A6|by apply B6].
  - intros f i Hf. rewrite B7; [by apply A7|]. by eapply same_frames_data.
Qed.

(** Rewriting the entry of [v] to one that maps the same frame. *)
Lemma same_frames_with_pte m d v x :
  space_ok m d → in_range v → present (pte_at m d v) = true → same_entry (pte_at m d v) x →
  same_frames d m (with_pte m d v x) ∧ space_ok (with_pte m d v x) d.
Proof.
  intros Hok Hv Hpte Hx. pose proof (present_pde_of_pte _ _ _ Hpte) as Hp.
  destruct (with_pte_fields m d v x) as (F1 & F2 & F3 & F4 & _). split; [split; try done|].
  - intros e. by apply (pde_with_pte lo hi).
  - intros w Hw. rewrite (pte_with_pte lo hi) by done. by case_decide; subst.
  - intros f i Hf. by apply (data_read_with_pte lo hi).
  - apply space_ok_with_pte; try done. intros Hxp. destruct Hx as (H1 & H2 & _). rewrite H2.
    destruct (so_map _ _ _ _ Hok v Hv Hpte) as [Hu Hd]. split_and!; [done|done|].
    rewrite decide_True by done. pose proof (so_ref _ _ _ _ Hok _ Hu). lia.
Qed.

Lemma relinked_trans s1 s2 s3 : relinked s1 s2 → relinked s2 s3 → relinked s1 s3.
Proof.
  intros (H1 & H2 & H3) (H4 & H5 & H6). rewrite H1 in H5. cbn [pgdir set_pra set_mc] in H5.
  split_and!; [rewrite H4, H1; done| |congruence]. by eapply same_frames_trans.
Qed.

Section clock_laws.
Context (link_addr : Z → Z).

(** The frame under the hand is taken when its entry is clean. *)
Lemma clock_hit fuel i s l p :
  swap_ok s l → p ∈ l → clean (entry_of s p) = true →
  ∃ s', clock_round link_addr (Datatypes.S fuel) i pra_list_head p s = Ret (Some p, s') ∧
    swap_ok s' (Dll.seq_del p l) ∧ relinked s s'.
Proof.
  intros Hok Hp Hc. destruct (sw_page _ _ Hok p Hp) as [va Hsw].
  destruct (swappable_entry s p va Hsw) as (Hva & He & Hm). pose proof Hsw as (_ & H32 & _ & Hv & [Hpte _] & _).
  pose proof (present_pde_of_pte _ _ _ Hpte) as Hpd.
  destruct (pra_del_run s pra_list_head l p (sw_list _ _ Hok) Hp) as (h & Hrun & Hd & Hdom).
  exists (set_pra s h). assert (relinked s (set_pra s h)) as Hrel by by split_and!; destruct s.
  split_and!; [| |done].
  - cbn [clock_round]. destruct (Z.eqb_spec p pra_list_head) as [->|_].
    { exfalso. destruct (sw_list _ _ Hok) as [Hnd _]. by apply NoDup_cons in Hnd as [Hnd _]. }
    step using (unfold page_vaddr, deref; rewrite Hva; reflexivity). step using reflexivity.
    step using (apply in_mc_keep; by apply (get_pte_find lo hi); try apply Hok).
    step using reflexivity. step using (by apply in_mc_keep). fold (pde_at (mc s) (pgdir s) (vpn va / 1024)).
    rewrite <-(pte_at_present (mc s)), <-He by done. unfold clean in Hc. rewrite Hc. by step using (exact Hrun).
  - eapply swap_ok_relinked; [done|apply Hok|done|done|]. intros q. rewrite Dll.elem_of_seq_del. tauto.
Qed.

(** Otherwise round 0 or 1 clears its flag of that entry, and the hand moves on. *)
Lemma clock_miss fuel i s l1 l2 p :
  swap_ok s (l1 ++ p :: l2) → cr3 (mc s) ≠ pgdir s → i = 0 ∨ i = 1 → clean (entry_of s p) = false →
  ∃ s', clock_round link_addr (Datatypes.S fuel) i pra_list_head p s =
      clock_round link_addr fuel i pra_list_head (last_or pra_list_head l1) s' ∧
    swap_ok s' (l1 ++ p :: l2) ∧ relinked s s' ∧ pra s' = pra s ∧
    entry_of s' p = Z.ldiff (entry_of s p) (round_flag i) ∧
    (∀ q, q ∈ l1 ++ p :: l2 → q ≠ p → entry_of s' q = entry_of s q).
Proof.
  intros Hok Hcr Hi Hc. assert (p ∈ l1 ++ p :: l2) as Hp by set_solver.
  destruct (sw_page _ _ Hok p Hp) as [va Hsw].
  destruct (swappable_entry s p va Hsw) as (Hva & He & Hm). pose proof Hsw as (_ & H32 & _ & Hv & [Hpte _] & _).
  pose proof (present_pde_of_pte _ _ _ Hpte) as Hpd. pose proof (sw_space _ _ Hok) as Hsp.
  set (x := Z.ldiff (entry_of s p) (round_flag i)). set (m' := with_pte (mc s) (pgdir s) (vpn va) x).
  destruct (same_frames_with_pte (mc s) (pgdir s) (vpn va) x Hsp Hv Hpte) as [Hsf Hsp'].
  { unfold x. rewrite He. destruct (ldiff_flag (pte_at (mc s) (pgdir s) (vpn va)) i); [done|congruence]. }
  assert (relinked s (set_mc s m')) as Hrel by by split_and!; destruct s.
  assert (∀ w, in_range w → pte_at m' (pgdir s) w = if decide (w = vpn va) then x else pte_at (mc s) (pgdir s) w) as Hpt.
  { intros w Hw. by apply (pte_with_pte lo hi). }
  exists (set_mc s m'). split_and!; [| |done|done| |].
  - cbn [clock_round]. destruct (Z.eqb_spec p pra_list_head) as [->|_].
    { exfalso. destruct (sw_list _ _ Hok) as [Hnd _]. by apply NoDup_cons in Hnd as [Hnd _]. }
    step using (unfold page_vaddr, deref; rewrite Hva; reflexivity). step using reflexivity.
    step using (apply in_mc_keep; by apply (get_pte_find lo hi)).
    step using reflexivity. step using (by apply in_mc_keep). fold (pde_at (mc s) (pgdir s) (vpn va / 1024)).
    rewrite <-(pte_at_present (mc s)), <-He by done. unfold clean in Hc. rewrite Hc.
    assert (∀ y, in_mc (store (frame_of (pde_at (mc s) (pgdir s) (vpn va / 1024)), vpn va mod 1024) y) s =
      Ret (tt, set_mc s (with_pte (mc s) (pgdir s) (vpn va) y))) as Hst.
    { intros y. unfold in_mc. apply zoom_run. unfold store, modify, with_pte. by rewrite decide_False. }
    erewrite (M_bind_step _ _ s tt (set_mc s m')) by (unfold m', x; destruct Hi as [-> | ->]; apply Hst).
    step using (apply in_pra_keep; eapply dlist_inner_prev, Hok).
    step using (apply in_mc_keep; unfold tlb_invalidate, modify; rewrite decide_False; [reflexivity|];
      cbn [mc set_mc]; unfold m'; by rewrite (sf_cr3 _ _ _ Hsf)). done.
  - eapply swap_ok_relinked; [done|done|done|apply Hok|done].
  - unfold entry_of at 1. cbn [mc pgdir pra_vaddr set_mc]. rewrite Hva. simpl. by rewrite Hpt, decide_True.
  - intros q Hq Hqp. destruct (sw_page _ _ Hok q Hq) as [vq Hsq].
    destruct (swappable_entry s q vq Hsq) as (Hvq & Heq & [_ Hmq]). rewrite Heq.
    unfold entry_of. cbn [mc pgdir pra_vaddr set_mc]. rewrite Hvq. simpl. rewrite Hpt by apply Hsq.
    rewrite decide_False; [done|]. intros Hvv. rewrite Heq, Hvv in Hmq. destruct Hm as [_ Hm]. congruence.
Qed.

(** One of the first two rounds: the first clean frame from the end, or every flag is cleared. *)
Lemma clock_round_run fuel i s l1 l2 :
  swap_ok s (l1 ++ l2) → cr3 (mc s) ≠ pgdir s → i = 0 ∨ i = 1 → (length l1 < fuel)%nat →
  ∃ s', clock_round link_addr fuel i pra_list_head (last_or pra_list_head l1) s =
      Ret (List.find (λ p, clean (entry_of s p)) (reverse l1), s') ∧ relinked s s' ∧
    match List.find (λ p, clean (entry_of s p)) (reverse l1) with
    | Some p => swap_ok s' (Dll.seq_del p (l1 ++ l2))
    | None => swap_ok s' (l1 ++ l2) ∧ pra s' = pra s ∧
        (∀ p, p ∈ l1 → entry_of s' p = Z.ldiff (entry_of s p) (round_flag i)) ∧
        (∀ p, p ∈ l2 → entry_of s' p = entry_of s p)
    end.
Proof.
  revert fuel s l2. induction l1 as [|p l1 IH] using rev_ind; intros fuel s l2 Hok Hcr Hi Hf.
  { destruct fuel; [simpl in Hf; lia|]. exists s. simpl. unfold last_or. simpl.
    split_and!; try done; [by split_and!; destruct s|]. by intros p ?%not_elem_of_nil. }
  rewrite length_app in Hf. simpl in Hf. destruct fuel as [|fuel]; [lia|].
  unfold last_or at 1. rewrite last_snoc, reverse_snoc. simpl default. cbn [List.find].
  rewrite <-app_assoc in *. simpl in Hok. simpl app.
  destruct (clean (entry_of s p)) eqn:Hc.
  - destruct (clock_hit fuel i s (l1 ++ p :: l2) p Hok) as (s' & Hrun & Hok' & Hrel); [set_solver|done|].
    by exists s'.
  - destruct (clock_miss fuel i s l1 l2 p Hok Hcr Hi Hc) as (s1 & Hrun & Hok1 & Hrel & Hpra & Hep & Heq).
    assert (∀ q, q ∈ l1 → q ≠ p) as Hne.
    { intros q Hq ->. destruct (sw_list _ _ Hok) as [Hnd _]. apply NoDup_cons in Hnd as [_ Hnd].
      apply NoDup_app in Hnd as (_ & Hnd & _). apply (Hnd p Hq). by left. }
    assert (∀ q, q ∈ l2 → q ≠ p) as Hne2.
    { intros q Hq ->. destruct (sw_list _ _ Hok) as [Hnd _]. apply NoDup_cons in Hnd as [_ Hnd].
      apply NoDup_app in Hnd as (_ & _ & Hnd). by apply NoDup_cons in Hnd as [? _]. }
    destruct (IH fuel s1 (p :: l2)) as (s' & Hrun' & Hrel' & Hres); [done| |done|lia|].
    { destruct Hrel as (Hs1 & Hsf & _). rewrite (sf_cr3 _ _ _ Hsf). by rewrite Hs1. }
    assert (List.find (λ p, clean (entry_of s1 p)) (reverse l1) = List.find (λ p, clean (entry_of s p)) (reverse l1)) as Hfind.
    { apply find_ext_in. intros q Hq. rewrite elem_of_reverse in Hq. rewrite Heq; [done|set_solver|auto]. }
    rewrite Hfind in Hrun', Hres. exists s'. rewrite Hrun. split_and!; [done|by eapply relinked_trans|].
    destruct (List.find _ (reverse l1)); [done|]. destruct Hres as (Hok' & Hpra' & He1 & He2).
    split_and!; [done|congruence| |].
    + intros q [Hq|Hq]%elem_of_app.
      * rewrite He1 by done. rewrite Heq; [done|set_solver|auto].
      * apply list_elem_of_singleton in Hq as ->. rewrite He2 by by left. done.
    + intros q Hq. rewrite He2 by by right. apply Heq; [set_solver|auto].
Qed.

(** The frame the clock takes: the first one from the end that was neither used nor written, else the
    first one that was not written, else the last one. *)
Definition clock_choice (s : vm) (l : list Z) : option Z :=
  match List.find (λ p, clean (entry_of s p)) (reverse l) with
  | Some p => Some p
  | None => match List.find (λ p, Z.land (entry_of s p) PTE_D =? 0) (reverse l) with
            | Some p => Some p
            | None => last l
            end
  end.

Lemma clock_fuel s l : swap_ok s l → (length l < Datatypes.S (base.size (pra s)))%nat.
Proof.
  intros Hok. destruct (sw_list _ _ Hok) as [Hnd _]. apply NoDup_cons in Hnd as [_ Hnd].
  rewrite <-(size_list_to_set (C := gset Z)) by done. rewrite <-size_dom.
  assert (base.size (list_to_set l : gset Z) ≤ base.size (dom (pra s)))%nat; [|lia].
  apply subseteq_size. intros a Ha. apply elem_of_list_to_set in Ha. apply elem_of_dom.
  eapply dlist_is_Some; [apply Hok|by right].
Qed.

(** One round of the outer loop. *)
Lemma clock_rounds_step n i s l p0 l0 :
  swap_ok s l → l = l0 ++ [p0] →
  clock_rounds link_addr (Datatypes.S n) i pra_list_head s =
  (r ← clock_round link_addr (Datatypes.S (base.size (pra s))) i pra_list_head (last_or pra_list_head l);
   match r with
   | Some p => mret (Some p)
   | None => clock_rounds link_addr n (i + 1) pra_list_head
   end) s.
Proof.
  intros Hok ->. cbn [clock_rounds].
  step using (apply in_pra_keep; eapply dlist_last_prev, Hok).
  assert ((p0 =? pra_list_head) = false) as ->.
  { apply Z.eqb_neq. intros ->. destruct (sw_list _ _ Hok) as [Hnd _]. apply NoDup_cons in Hnd as [Hnd _]. set_solver. }
  step using reflexivity. step using reflexivity. unfold last_or. rewrite last_snoc. done.
Qed.

Lemma clock_victim_run s l :
  swap_ok s l → cr3 (mc s) ≠ pgdir s → l ≠ [] →
  ∃ p s', _clock_swap_out_victim link_addr 0 s = Ret (Some p, s') ∧ clock_choice s l = Some p ∧
    p ∈ l ∧ swap_ok s' (Dll.seq_del p l) ∧ relinked s s'.
Proof.
  intros Hok Hcr Hne. destruct l as [|p0 l0 _] eqn:Hl using rev_ind; [done|]. rewrite <-Hl in *.
  assert (_clock_swap_out_victim link_addr 0 s = clock_rounds link_addr 3 0 pra_list_head s) as ->.
  { unfold _clock_swap_out_victim. step using reflexivity. rewrite (sw_priv _ _ Hok). by step using reflexivity. }
  assert (∀ s1, relinked s s1 → cr3 (mc s1) ≠ pgdir s1) as Hcr1.
  { intros s1 (Hs1 & Hsf & _). rewrite (sf_cr3 _ _ _ Hsf). by rewrite Hs1. }
  (* round 0 *)
  rewrite (clock_rounds_step 2 0 s l p0 l0) by done.
  destruct (clock_round_run (Datatypes.S (base.size (pra s))) 0 s l []) as (s1 & Hr1 & Hrel1 & H1);
    rewrite ?app_nil_r in *; [done|done|by left|by apply clock_fuel|].
  step using (exact Hr1). unfold clock_choice.
  destruct (List.find (λ p, clean (entry_of s p)) (reverse l)) as [p|] eqn:Hf1.
  { exists p, s1. apply find_some_in in Hf1. rewrite elem_of_reverse in Hf1. done. }
  destruct H1 as (Hok1 & Hpra1 & He1 & _).
  (* round 1 *)
  rewrite (clock_rounds_step 1 _ s1 l p0 l0) by done.
  destruct (clock_round_run (Datatypes.S (base.size (pra s1))) 1 s1 l []) as (s2 & Hr2 & Hrel2 & H2);
    rewrite ?app_nil_r in *; [done|by apply Hcr1|by right|by apply clock_fuel|].
  change (0 + 1) with 1. step using (exact Hr2).
  assert (List.find (λ p, clean (entry_of s1 p)) (reverse l) =
    List.find (λ p, Z.land (entry_of s p) PTE_D =? 0) (reverse l)) as Hf2.
  { apply find_ext_in. intros q Hq. rewrite elem_of_reverse in Hq. rewrite He1 by done. apply clean_rounds. }
  rewrite Hf2 in H2 |- *. pose proof (relinked_trans _ _ _ Hrel1 Hrel2) as Hrel12.
  destruct (List.find (λ p, Z.land (entry_of s p) PTE_D =? 0) (reverse l)) as [p|] eqn:Hf3.
  { exists p, s2. apply find_some_in in Hf3. rewrite elem_of_reverse in Hf3. done. }
  destruct H2 as (Hok2 & Hpra2 & He2 & _).
  (* round 2 *)
  rewrite (clock_rounds_step 0 _ s2 l p0 l0) by done. assert (p0 ∈ l) as Hp0 by (rewrite Hl; set_solver).
  destruct (clock_hit (base.size (pra s2)) (1 + 1) s2 l p0 Hok2 Hp0) as (s3 & Hr3 & Hok3 & Hrel3).
  { rewrite He2, He1 by done. apply clean_rounds. }
  exists p0, s3. assert (last l = Some p0) as Hlast by (by rewrite Hl, last_snoc). unfold last_or.
  rewrite Hlast. simpl default. step using (exact Hr3). split_and!; try done. by eapply relinked_trans.
Qed.

#[global] Program Instance clock_laws : swap_manager_laws (swap_manager_clock link_addr) :=
  {| victim_pre := λ s, cr3 (mc s) ≠ pgdir s |}.
Next Obligation.
  intros s Hs. destruct (pra_init_run s Hs) as (h & Hrun & Hd). exists h. split; [|done]. simpl. unfold _clock_init_mm.
  step using (exact Hrun). done.
Qed.
Next Obligation. intros s s' E1 E2 H. simpl in *. congruence. Qed.
Next Obligation.
  intros s l Hok Hpre Hne. destruct (clock_victim_run s l Hok Hpre Hne) as (p & s' & Hrun & _ & Hp & Hok' & Hrel).
  by exists p, s'.
Qed.
Next Obligation.
  intros s l va p Hs Hd Hp Hn. destruct (pra_add_run s l p Hd Hp Hn) as (h & Hrun & Hd' & Hdom).
  exists h. split; [|done]. simpl. unfold _clock_map_swappable. step using reflexivity. rewrite Hs. cbv beta iota.
  by step using (exact Hrun).
Qed.

End clock_laws.

(** * Properties *)

(** A page that could not be written stays mapped and counts as the newest one again. *)
Lemma swap_out_page_failed {SM : swap_manager} {SML : swap_manager_laws SM} s l p va r d :
  swap_ok s l → p ∉ pra_list_head :: l → swappable s p va → is_Some (pra s !! p) →
  swapfs_write (swap_entry va) p s = Ret (r, set_dsk s d) → r ≠ 0 →
  ∃ s', swap_out_page p s = Ret (tt, s') ∧ swap_ok s' (p :: l) ∧ mc s' = mc s.
Proof.
  intros Hok Hpl Hsw Hlk Hwr Hr. pose proof Hsw as (Hva & H32 & Hlim & Hv & Hmap & _).
  pose proof (present_pde_of_pte _ _ _ (proj1 Hmap)) as Hp.
  destruct (map_law (set_dsk s d) l va p) as (h & Hrun & Hd & _); [apply Hok|apply Hok|done|done|].
  exists (set_pra (set_dsk s d) h). split_and!; [| |done].
  - unfold swap_out_page. step using (unfold page_vaddr, deref; rewrite Hva; reflexivity).
    step using reflexivity. step using (apply in_mc_keep; by apply (get_pte_find lo hi); try apply Hok).
    step using reflexivity. step using (by apply in_mc_keep). fold (pde_at (mc s) (pgdir s) (vpn va / 1024)).
    rewrite <-(pte_at_present (mc s)) by done. rewrite (proj1 Hmap). step using reflexivity.
    step using (exact Hwr). cbv beta. rewrite (proj2 (Z.eqb_neq _ _) Hr).
    change (negb false) with true. cbv iota. by step using (exact Hrun).
  - split; [apply Hok|apply Hok|done|apply Hok|].
    intros q [->|Hq]%elem_of_cons; [by exists va|]. by apply (sw_page _ _ Hok).
Qed.

(** C20: [swap_out] with a policy that keeps its promises moves as many pages as it is asked for to the
    disk: each of them has a swap entry in its table entry, its words are in the slot of that entry, and
    exactly their frames become free; no other translation and no data in memory changes, and the
    address space and the list of swappable pages stay well formed. *)
Theorem swap_out_correct {SM : swap_manager} {SML : swap_manager_laws SM} s l n :
  swap_ok s l → victim_pre s → hw_good (dsk s) → 0 ≤ n ≤ Z.of_nat (length l) →
  ∃ out l' s', swap_out_mm n 0 s = Ret (n, s') ∧ Z.of_nat (length out) = n ∧ l ≡ₚ out ++ l' ∧
    swap_ok s' l' ∧ swapped_out s s' out.
Proof.
  intros Hok Hpre Hg Hn.
  destruct (swap_out_loop_run (Z.to_nat n) s l 0 Hok Hpre Hg) as (out & l' & s' & Hrun & Hlen & Hrest); [lia|].
  exists out, l', s'. split_and!; [|lia|apply Hrest..].
  unfold swap_out_mm. rewrite Hrun. do 2 f_equal. lia.
Qed.

(** A page that [swap_out] moved to the disk comes back unchanged: [swap_in] at its address takes a
    free frame and fills it with the 1024 words the page had. *)
Theorem swap_roundtrip {SM : swap_manager} {SML : swap_manager_laws SM} s l n :
  swap_ok s l → victim_pre s → hw_good (dsk s) → 0 ≤ n ≤ Z.of_nat (length l) →
  ∃ out s', swap_out_mm n 0 s = Ret (n, s') ∧ Z.of_nat (length out) = n ∧
    ∀ p, p ∈ out → ∃ va f s'', pra_vaddr s !! p = Some va ∧ swap_in va s' = Ret ((0, f), s'') ∧
      f ∈ pm_free (pm (mc s')) ∧ ∀ i, 0 ≤ i < 1024 → read (mc s'') (f, i) = read (mc s) (p, i).
Proof.
  intros Hok Hpre Hg Hn.
  destruct (swap_out_loop_run (Z.to_nat n) s l 0 Hok Hpre Hg) as (out & l' & s' & Hrun & Hlen & Hperm & Hok' & Hso); [lia|].
  exists out, s'. split_and!; [unfold swap_out_mm; rewrite Hrun; do 2 f_equal; lia|lia|].
  intros p Hp. destruct (sw_page _ _ Hok p) as [va Hsw]; [rewrite Hperm; set_solver|].
  pose proof Hsw as (Hva & H32 & Hlim & Hv & _). destruct (so_out _ _ _ Hso p va Hp Hva) as [Hpte Hh].
  destruct (swap_in_run s' va) as (f & s'' & Hin & Hsi); try done.
  - apply Hok'.
  - rewrite (so_free _ _ _ Hso). set_solver.
  - by rewrite (so_limit _ _ _ Hso).
  - apply Hok'.
  - apply Hso.
  - by rewrite (so_pgdir _ _ _ Hso).
  - exists va, f, s''. split_and!; [done|done|apply Hsi|]. apply words_agree.
    intros k Hk. rewrite (si_words _ _ _ _ Hsi k Hk). by apply Hh.
Qed.

(** The clock always finds a victim within its three rounds: the first page from the end of the list
    that was neither used nor written, else the first one that was not written, else the last one. *)
Theorem clock_victim_correct (link_addr : Z → Z) s l :
  swap_ok s l → cr3 (mc s) ≠ pgdir s → l ≠ [] →
  ∃ p s', _clock_swap_out_victim link_addr 0 s = Ret (Some p, s') ∧ clock_choice s l = Some p ∧
    swap_ok s' (Dll.seq_del p l) ∧ relinked s s'.
Proof.
  intros Hok Hcr Hne. destruct (clock_victim_run link_addr s l Hok Hcr Hne) as (p & s' & ? & ? & _ & ? & ?).
  by exists p, s'.
Qed.

End swap.

(** * Running out of memory *)

(** [alloc_pages] calls [swap_out(check_mm_struct, n, 0)], and outside the self checks [check_mm_struct] is
    NULL: the first thing either policy does is to read [mm->sm_priv]. *)
Definition swap_out_null {S : Type} : swapper (S := S) := {| swap_out := λ _, fail EFault |}.

Lemma out_of_memory_faults {S : Type} `{PM : pmm_manager S} `{PL : !pmm_laws S} (m : @machine S) :
  pm_inv (pm m) → pm_free (pm m) = ∅ → swap_init_ok m = true → alloc_page (SW := swap_out_null) m = Err EFault.
Proof.
  intros Hinv Hno Hsw. by apply (alloc_page_exhausted (SW := swap_out_null)).
Qed.

(** * A small address space *)

#[local] Existing Instance FitAlloc.firstfit_pmm_manager.
#[local] Existing Instance FitAlloc.firstfit_laws.
#[local] Existing Instance PageTable.no_swap.

(** A disk that works: sectors that were never written read as zeroes. *)
Definition demo_sector (d : gmap Z (list Z)) (k : Z) : list Z :=
  let ws := default [] (d !! k) in if decide (length ws = 128%nat) then ws else replicate 128 0.
#[local] Instance demo_hw : ide_hw (gmap Z (list Z)) := {|
  ide_valid _ := true;
  ide_sectors _ := 262144;
  hw_read k d := Ret (Some (demo_sector d k), d);
  hw_write k ws d := Ret (true, <[k := ws]> d) |}.
#[local] Program Instance demo_ide_laws : ide_laws (HW := demo_hw) :=
  {| sector := demo_sector; hw_good := λ _, True |}.
Next Obligation. done. Qed.
Next Obligation. intros d k. unfold demo_sector. case_decide; [done|]. by rewrite length_replicate. Qed.
Next Obligation. intros d k _. by exists d. Qed.
Next Obligation.
  intros d k ws _ Hws. exists (<[k := ws]> d). split_and!; [done|done|]. intros t. unfold demo_sector.
  destruct (decide (t = k)) as [->|Hne].
  - rewrite lookup_insert_eq. simpl. by rewrite decide_True.
  - by rewrite lookup_insert_ne by congruence.
Qed.

(** The machine of PageTable.v with swapping on and another directory loaded. *)
Definition demo_machine : @machine Frames.pmm :=
  mkMachine (pm demo_mapped) (mem demo_mapped) (npage demo_mapped) 1 (tlb demo_mapped) true.
Definition demo_vm : @vm Frames.pmm (gmap Z (list Z)) :=
  mkVm Vma.mm_create 0 demo_machine (Some pra_list_head)
    {[ pra_list_head := Dll.mk_entry 2 2; 2 := Dll.mk_entry pra_list_head pra_list_head ]}
    {[ 2 := 0x800000 ]} 32768 0 ∅.

Lemma demo_machine_ok : space_ok user_lo user_hi demo_machine 0.
Proof. destruct demo_mapped_ok. by split. Qed.

Lemma demo_pra : Dll.dlist (pra demo_vm) pra_list_head [2].
Proof.
  split_and!.
  - apply (bool_decide_unpack _). by vm_compute.
  - intros [|[|[|i]]] a b; vm_compute; intros; simplify_eq; done.
  - intros [|[|[|i]]] a b; vm_compute; intros; simplify_eq; done.
Qed.

Lemma demo_swappable : swappable user_lo user_hi demo_vm 2 0x800000.
Proof.
  split_and!; [done|lia|lia|by vm_compute|apply user_range; vm_compute; intuition discriminate|by split|].
  intros w Hw [Hp _].
  assert (pte_at demo_mapped 0 w = if decide (w = 2048) then demo_entry else pte_at demo_table 0 w) as Hpt.
  { apply (pte_with_pte user_lo user_hi demo_table 0 2048); [apply demo_table_ok|apply user_range; lia|done|done]. }
  change (pte_at (mc demo_vm) (pgdir demo_vm) w) with (pte_at demo_mapped 0 w) in Hp. rewrite Hpt in Hp.
  case_decide as Hw2; [by rewrite Hw2|].
  unfold demo_table in Hp. rewrite (pte_with_table user_lo user_hi demo_empty 0 2 3 w) in Hp.
  - by rewrite demo_pte in Hp.
  - apply demo_empty_ok.
  - apply demo_table_frame.
  - unfold user_lo, user_hi. lia.
  - by rewrite demo_pde.
  - exact Hw.
Qed.

Lemma demo_vm_ok : swap_ok user_lo user_hi demo_vm [2].
Proof.
  split; [apply demo_machine_ok|done|apply demo_pra|done|].
  intros p ->%list_elem_of_singleton. exists 0x800000. apply demo_swappable.
Qed.

Lemma swap_out_correct_witness :
  ∃ out l' s', swap_out_mm (SM := swap_manager_fifo) 1 0 demo_vm = Ret (1, s') ∧ Z.of_nat (length out) = 1 ∧
    [2] ≡ₚ out ++ l' ∧ swap_ok user_lo user_hi s' l' ∧ swapped_out user_lo user_hi demo_vm s' out.
Proof.
  apply (swap_out_correct (SM := swap_manager_fifo) user_lo user_hi).
  - apply demo_vm_ok.
  - done.
  - done.
  - simpl. lia.
Defined.

Lemma swap_roundtrip_witness :
  ∃ out s', swap_out_mm (SM := swap_manager_clock (λ _, 0)) 1 0 demo_vm = Ret (1, s') ∧ Z.of_nat (length out) = 1 ∧
    ∀ p, p ∈ out → ∃ va f s'', pra_vaddr demo_vm !! p = Some va ∧ swap_in va s' = Ret ((0, f), s'') ∧
      f ∈ pm_free (pm (mc s')) ∧ ∀ i, 0 ≤ i < 1024 → read (mc s'') (f, i) = read (mc demo_vm) (p, i).
Proof.
  apply (swap_roundtrip (SM := swap_manager_clock (λ _, 0)) user_lo user_hi demo_vm [2] 1).
  - apply demo_vm_ok.
  - simpl. lia.
  - done.
  - simpl. lia.
Defined.

Lemma clock_victim_correct_witness :
  ∃ p s', _clock_swap_out_victim (λ _, 0) 0 demo_vm = Ret (Some p, s') ∧ clock_choice demo_vm [2] = Some p ∧
    swap_ok user_lo user_hi s' (Dll.seq_del p [2]) ∧ relinked user_lo user_hi demo_vm s'.
Proof.
  apply (clock_victim_correct user_lo user_hi).
  - apply demo_vm_ok.
  - simpl. lia.
  - done.
Defined.

End Swap.
