(* ===== verification/Vmm.v ===== *)
(** Virtual memory, above the areas, the page tables and swapping: the page fault handler [do_pgfault],
    [dup_mmap] and [exit_mmap], and the copies between kernel and user memory ([copy_from_user],
    [copy_to_user], [copy_string]) of kern/mm/vmm.c. *)
From S2P Require Import Prelude Dll Frames PmmManager FitAlloc PageTable Vma Swap.

Module Vmm.
Import Frames PmmManager PageTable Vma Swap.
Set Default Proof Using "Type".

(** * Page faults *)

Section pgfault.
Context {S : Type} `{PM : pmm_manager S} {SW : swapper (S := S)} {D : Type} `{HW : ide_hw D}.
Context {SM : swap_manager (S := S) (D := D)}.

Notation vm := (vm (S := S) (D := D)).
Notation machine := (machine (S := S)).

(** The test of the error code against the flags of the area: bit 0 is set when the page was present,
    bit 1 for a write. *)
Definition access_ok (error_code flags : Z) : bool :=
  let c := Z.land error_code 3 in
  if c =? 1 then false
  else if c =? 0 then negb (Z.land flags (Z.lor VM_READ VM_EXEC) =? 0)
  else negb (Z.land flags VM_WRITE =? 0).

Definition area_perm (flags : Z) : Z :=
  if Z.land flags VM_WRITE =? 0 then PTE_U else Z.lor PTE_U PTE_W.

(** [do_pgfault] from the lookup of the table entry on. *)
Definition pgfault_map (la perm : Z) : M vm Z :=
  d ← gets pgdir;
  ptep ← in_mc (get_pte d la true);
  match ptep with
  | None => mret (- E_NO_MEM)
  | Some a =>
      pte ← in_mc (load a);
      if pte =? 0 then
        page ← in_mc (pgdir_alloc_page d la perm);
        match page with
        | None => mret (- E_NO_MEM)
        | Some _ => mret 0
        end
      else if present pte then fail EPanic            (* panic("error write a non-writable pte") *)
      else
        sw ← gets (λ s, swap_init_ok (mc s));
        if negb sw then mret (- E_NO_MEM) else
        rp ← swap_in la;
        if negb (rp.1 =? 0) then mret rp.1 else
        in_mc (page_insert d rp.2 la perm) ;;
        swap_map_swappable la rp.2 ;;
        modify (λ s, set_vaddr s (<[rp.2 := la]> (pra_vaddr s))) ;;
        mret 0
  end.

Definition do_pgfault (error_code addr : Z) : M vm Z :=
  r ← in_mm (find_vma addr);
  modify (λ s, set_faults s (u32 (pgfault_num s + 1))) ;;
  match r with
  | None => mret (- E_INVAL)
  | Some p =>
      v ← in_mm (vma_at p);
      if addr <? vm_start v then mret (- E_INVAL) else
      if access_ok error_code (vm_flags v)
      then pgfault_map (ROUNDDOWN addr PGSIZE) (area_perm (vm_flags v))
      else mret (- E_INVAL)
  end.

(** * The memory of a process is copied and released *)

Section kmalloc.
Context (kmalloc : gmap Z vma_struct → option Z).

Definition lift_fst {X Y A} (c : M X A) : M (X * Y) A := λ s,
  match c s.1 with Ret (a, x) => Ret (a, (x, s.2)) | Err e => Err e end.
Definition lift_snd {X Y A} (c : M Y A) : M (X * Y) A := λ s,
  match c s.2 with Ret (a, y) => Ret (a, (s.1, y)) | Err e => Err e end.

(** The loop of [dup_mmap] over the areas [todo] of [from]; the state is the machine and [to]. *)
Fixpoint dup_loop (from : mm_struct) (to_pgdir from_pgdir : Z) (todo : list Z) : M (machine * mm_struct) Z :=
  match todo with
  | [] => mret 0
  | p :: todo' =>
      vma ← deref (λ _, vmas from !! p);
      nvma ← lift_snd (vma_create kmalloc (vm_start vma) (vm_end vma) (vm_flags vma));
      match nvma with
      | None => mret (- E_NO_MEM)
      | Some q =>
          lift_snd (insert_vma_struct q) ;;
          r ← lift_fst (copy_range to_pgdir from_pgdir (vm_start vma) (vm_end vma));
          if negb (r =? 0) then mret (- E_NO_MEM) else dup_loop from to_pgdir from_pgdir todo'
      end
  end.
(** The list is walked from its end. *)
Definition dup_mmap (from : mm_struct) (to_pgdir from_pgdir : Z) : M (machine * mm_struct) Z :=
  dup_loop from to_pgdir from_pgdir (reverse (mmap_list from)).
End kmalloc.

Fixpoint each_area (m : mm_struct) (f : vma_struct → M machine unit) (todo : list Z) : M machine unit :=
  match todo with
  | [] => mret tt
  | p :: todo' => v ← deref (λ _, vmas m !! p); f v ;; each_area m f todo'
  end.
Definition exit_mmap (m : mm_struct) (pgdir : Z) : M machine unit :=
  assert (mm_count m =? 0) ;;
  each_area m (λ v, unmap_range pgdir (vm_start v) (vm_end v)) (mmap_list m) ;;
  each_area m (λ v, exit_range pgdir (vm_start v) (vm_end v)) (mmap_list m).

(** ** What a fault does *)

Context `{PL : !pmm_laws S}.
Context (lo hi : Z).
Notation space_ok := (space_ok lo hi).
Notation in_range := (in_range lo hi).
Notation data_frame := (data_frame lo hi).

(** The area that contains [addr]. *)
Definition area_of (m : mm_struct) (addr : Z) : option vma_struct := List.find (λ v, contains v addr) (areas m).

Lemma area_of_unique m addr v :
  mm_ok m → v ∈ areas m → contains v addr = true → area_of m addr = Some v.
Proof.
  intros Hok Hv Hc. unfold area_of. destruct (List.find _ (areas m)) as [w|] eqn:Hf.
  - pose proof Hf as Hin. apply find_some_in in Hin. apply List.find_some in Hf as [_ Hw].
    apply list_elem_of_lookup in Hin as (i & Hi), Hv as (j & Hj).
    assert (i = j) as ->; [|congruence]. eapply ordered_unique; [apply Hok|done..].
  - exfalso. apply list_elem_of_In in Hv. by rewrite (List.find_none _ _ Hf v Hv) in Hc.
Qed.

Lemma find_area_run m addr :
  mm_ok m → ∃ r m', find_vma addr m = Ret (r, m') ∧ mm_ok m' ∧ extent <$> areas m' = extent <$> areas m ∧
    match area_of m addr with
    | None => r = None
    | Some v => ∃ p v', r = Some p ∧ vmas m' !! p = Some v' ∧ extent v' = extent v ∧ vm_start v ≤ addr
    end.
Proof.
  intros Hok. destruct (find_vma_run m addr Hok) as (r & m' & Hrun & Hok' & Hlist & _ & Hext & Hr).
  exists r, m'. split_and!; try done. destruct r as [p|].
  - destruct Hr as (Hp & _ & v' & Hv' & Hc & _). rewrite <-Hlist in Hp.
    destruct (links_elem_l _ _ _ _ (mm_ok_links _ Hok') Hp) as (v1 & Hin & Hv1).
    assert (v1 = v') as -> by congruence.
    destruct (extent_elem _ _ v' Hext Hin) as (v & Hv & Heq).
    rewrite (area_of_unique m addr v Hok Hv).
    + exists p, v'. split_and!; try done. unfold extent, contains in *.
      apply andb_prop in Hc as [Hc _]. z_bool. congruence.
    + unfold extent, contains in *. congruence.
  - destruct Hr as [-> Hno]. destruct (area_of m addr) as [v|] eqn:Ha; [|done].
    unfold area_of in Ha. pose proof Ha as Hin. apply find_some_in in Hin. apply List.find_some in Ha as [_ Hc].
    rewrite Forall_forall in Hno. rewrite (Hno v Hin) in Hc. done.
Qed.

Lemma round_page addr : is_u32 addr → is_u32 (ROUNDDOWN addr PGSIZE) ∧ vpn (ROUNDDOWN addr PGSIZE) = vpn addr.
Proof.
  intros Ha. rewrite ROUNDDOWN_spec by done. unfold PGSIZE. rewrite vpn_page. split; [|done].
  pose proof (Z.mul_div_le addr 4096 eq_refl). pose proof (Z.div_pos addr 4096 (proj1 Ha) eq_refl). lia.
Qed.

Lemma area_perm_range flags : 0 ≤ area_perm flags < 4096.
Proof. unfold area_perm. case_match; by vm_compute. Qed.

(** The translations and the data of [m] are those of [m'], but for page [v]. *)
Definition same_but (m m' : machine) (d v : Z) : Prop :=
  (∀ w, in_range w → w ≠ v → pte_at m' d w = pte_at m d w) ∧
  (∀ f i, f ∈ used m → data_frame m d f → read m' (f, i) = read m (f, i)).

Lemma pgdir_alloc_page_run m d la perm :
  space_ok m d → is_u32 la → in_range (vpn la) → swap_init_ok m = false → 0 ≤ perm < 4096 →
  present (pde_at m d (vpn la / 1024)) = true →
  ∃ r m', pgdir_alloc_page d la perm m = Ret (r, m') ∧ space_ok m' d ∧ same_but m m' d (vpn la) ∧
    match r with
    | Some page => page ∈ pm_free (pm m) ∧ pte_at m' d (vpn la) = Z.lor (Z.lor (page2pa page) PTE_P) perm
    | None => m' = m ∧ pm_free (pm m) = ∅
    end.
Proof.
  intros Hok Hla Hv Hsw Hperm Hp.
  destruct (alloc_page_run m (so_inv _ _ _ _ Hok) (or_introl Hsw)) as (r & x & Hrun & Hr). unfold pgdir_alloc_page.
  destruct r as [p|].
  - destruct Hr as (Hpf & Hxi & Hfr & Hfree & Href & Hoth).
    destruct (space_ok_alloc lo hi m d p x 0) as (Hok1 & Hu & Hdf & _); try done.
    destruct (page_insert_run lo hi (set_pm m x) d p la perm) as
      (r & m' & Hins & [(-> & Hok' & Hpt & Hpo & Hrd & _)|(_ & _ & _ & Hno)]); try done; [by left| |].
    + exists (Some p), m'. split_and!; try done.
      * step using (exact Hrun). cbv iota. by step using (exact Hins).
      * split; [done|]. intros f i Hf Hfd. apply (Hrd f i); [|done].
        unfold used in *. simpl. rewrite Hfr, Hfree. set_solver.
    + change (pde_at (set_pm m x)) with (pde_at m) in Hno. congruence.
  - destruct Hr as [-> Hempty]. exists None, m. assert (set_pm m (pm m) = m) as Hm by (clear; by destruct m).
    rewrite Hm in Hrun. split_and!; try done. by step using (exact Hrun).
Qed.

(** The mapping step while swapping is off. *)
Lemma pgfault_map_run s la perm :
  space_ok (mc s) (pgdir s) → is_u32 la → in_range (vpn la) → swap_init_ok (mc s) = false → 0 ≤ perm < 4096 →
  present (pte_at (mc s) (pgdir s) (vpn la)) = false →
  ∃ r m', pgfault_map la perm s = Ret (r, set_mc s m') ∧ space_ok m' (pgdir s) ∧
    same_but (mc s) m' (pgdir s) (vpn la) ∧
    ((r = 0 ∧ pte_at (mc s) (pgdir s) (vpn la) = 0 ∧ ∃ page, page ∈ pm_free (pm (mc s)) ∧
        pte_at m' (pgdir s) (vpn la) = Z.lor (Z.lor (page2pa page) PTE_P) perm) ∨
     (r = - E_NO_MEM ∧ pte_at m' (pgdir s) (vpn la) = pte_at (mc s) (pgdir s) (vpn la) ∧
        (pte_at (mc s) (pgdir s) (vpn la) ≠ 0 ∨ pm_free (pm m') = ∅))).
Proof.
  intros Hok Hla Hv Hsw Hperm Habs. unfold pgfault_map.
  destruct (get_pte_create lo hi (mc s) (pgdir s) la Hok Hla Hv (or_introl Hsw)) as (r & m1 & Hget & Hr).
  destruct r as [a|].
  2:{ destruct Hr as (-> & Hempty & _). exists (- E_NO_MEM), (mc s). split_and!; try done.
    - step using reflexivity. by step using (by apply zoom_run, Hget).
    - right. tauto. }
  destruct Hr as (-> & Hp & Hok1 & _ & _ & Hsw1 & _ & Hfr1 & Hfree1 & Hpte1 & _ & Hdf1 & Hrd1).
  assert (∀ f, f ∈ used (mc s) → f ∈ used m1) as Hus by (intros f; unfold used; rewrite Hfr1; set_solver).
  assert (same_but (mc s) m1 (pgdir s) (vpn la)) as Hsame1.
  { split; [intros; by apply Hpte1|]. intros f i Hf [Hfn _]. by apply Hrd1. }
  assert (∀ A (f : _ → M vm A), (pte ← in_mc (load (frame_of (pde_at m1 (pgdir s) (vpn la / 1024)), vpn la mod 1024)); f pte)
     (set_mc s m1) = f (pte_at (mc s) (pgdir s) (vpn la)) (set_mc s m1)) as Hload.
  { intros A f. step using (by apply in_mc_keep). do 2 f_equal. rewrite <-Hpte1 by done. by rewrite pte_at_present. }
  destruct (Z.eqb_spec (pte_at (mc s) (pgdir s) (vpn la)) 0) as [Hz|Hnz].
  - destruct (pgdir_alloc_page_run m1 (pgdir s) la perm) as (q & m2 & Hal & Hok2 & [Hs1 Hs2] & Hq); try done; [congruence|].
    assert (same_but (mc s) m2 (pgdir s) (vpn la)) as Hsame2.
    { split; [intros w Hw Hne; rewrite Hs1 by done; by apply Hpte1|].
      intros f i Hf Hfd. rewrite Hs2 by auto. apply Hsame1; done. }
    exists (if q is Some _ then 0 else - E_NO_MEM), m2. split_and!; [|done|done|].
    + step using reflexivity. step using (by apply zoom_run, Hget). cbv beta iota. rewrite Hload, Hz.
      change (0 =? 0) with true. cbv iota. step using (by apply zoom_run, Hal). by destruct q.
    + destruct q as [page|]; [left|right].
      * split_and!; [done|done|]. exists page. split; [set_solver|]. apply Hq.
      * destruct Hq as [-> Hemp]. split_and!; [done|by apply Hpte1|by right].
  - exists (- E_NO_MEM), m1. split_and!; [|done|done|].
    + step using reflexivity. step using (by apply zoom_run, Hget). cbv beta iota. rewrite Hload.
      rewrite (proj2 (Z.eqb_neq _ _) Hnz), Habs. step using reflexivity. cbn [mc set_mc]. by rewrite Hsw1, Hsw.
    + right. split_and!; [done|by apply Hpte1|by left].
Qed.

(** [do_pgfault] up to the mapping step. *)
Lemma do_pgfault_run s ec addr :
  mm_ok (mm s) →
  ∃ m n, mm_ok m ∧ extent <$> areas m = extent <$> areas (mm s) ∧
    do_pgfault ec addr s =
    match area_of (mm s) addr with
    | Some v => if access_ok ec (vm_flags v)
                then pgfault_map (ROUNDDOWN addr PGSIZE) (area_perm (vm_flags v)) (set_faults (set_mm s m) n)
                else Ret (- E_INVAL, set_faults (set_mm s m) n)
    | None => Ret (- E_INVAL, set_faults (set_mm s m) n)
    end.
Proof.
  intros Hok. destruct (find_area_run (mm s) addr Hok) as (r & m & Hfind & Hok' & Hext & Hr).
  exists m, (u32 (pgfault_num s + 1)). split_and!; [done|done|]. unfold do_pgfault.
  step using (by apply zoom_run, Hfind). step using reflexivity. destruct (area_of (mm s) addr) as [v|].
  - destruct Hr as (p & v' & -> & Hv' & He & Hst). injection He as E1 E2 E3.
    erewrite (M_bind_step (in_mm (vma_at p)) _ _ v').
    2:{ unfold in_mm, zoom. cbn [mm set_faults set_mm]. rewrite (vma_at_run _ _ _ Hv'). reflexivity. }
    rewrite E1, E3. rewrite (proj2 (Z.ltb_ge addr (vm_start v))) by done. simpl. by destruct (access_ok ec (vm_flags v)).
  - by rewrite Hr.
Qed.

(** C22: With swapping off, [do_pgfault] refuses an address outside every area and an access that the area
    does not permit ([-E_INVAL], memory untouched), and panics on an access to a page that is present.
    Otherwise it maps the page of the address to a free frame, writable exactly when the area is, leaving
    every other translation and all data alone; it fails with [-E_NO_MEM] only when no frame is left or the
    entry is one of the swap area. *)
Theorem do_pgfault_correct s ec addr :
  mm_ok (mm s) → space_ok (mc s) (pgdir s) → is_u32 addr → in_range (vpn addr) → swap_init_ok (mc s) = false →
  let old := pte_at (mc s) (pgdir s) (vpn addr) in
  match area_of (mm s) addr with
  | Some v =>
      if access_ok ec (vm_flags v) then
        if present old then do_pgfault ec addr s = Err EPanic
        else ∃ r s', do_pgfault ec addr s = Ret (r, s') ∧ mm_ok (mm s') ∧ space_ok (mc s') (pgdir s) ∧
          same_but (mc s) (mc s') (pgdir s) (vpn addr) ∧
          ((r = 0 ∧ old = 0 ∧ ∃ page, page ∈ pm_free (pm (mc s)) ∧
              pte_at (mc s') (pgdir s) (vpn addr) = Z.lor (Z.lor (page2pa page) PTE_P) (area_perm (vm_flags v))) ∨
           (r = - E_NO_MEM ∧ pte_at (mc s') (pgdir s) (vpn addr) = old ∧ (old ≠ 0 ∨ pm_free (pm (mc s')) = ∅)))
      else ∃ s', do_pgfault ec addr s = Ret (- E_INVAL, s') ∧ mm_ok (mm s') ∧ mc s' = mc s
  | None => ∃ s', do_pgfault ec addr s = Ret (- E_INVAL, s') ∧ mm_ok (mm s') ∧ mc s' = mc s
  end.
Proof.
  intros Hmm Hsp Ha Hv Hsw old. destruct (do_pgfault_run s ec addr Hmm) as (m & n & Hm & _ & Hrun).
  destruct (area_of (mm s) addr) as [v|]; [|by eexists].
  destruct (access_ok ec (vm_flags v)); [|by eexists].
  destruct (round_page addr Ha) as [Hla Hvp]. set (la := ROUNDDOWN addr PGSIZE) in *.
  set (s1 := set_faults (set_mm s m) n) in *. subst old. rewrite <-Hvp in *.
  destruct (present (pte_at (mc s) (pgdir s) (vpn la))) eqn:Hpr.
  - rewrite Hrun. pose proof (present_pde_of_pte _ _ _ Hpr) as Hp. unfold pgfault_map.
    step using reflexivity. step using (apply in_mc_keep; by apply (get_pte_find lo hi)). cbv beta iota.
    step using (by apply in_mc_keep). change (mc s1) with (mc s). change (pgdir s1) with (pgdir s).
    fold (pde_at (mc s) (pgdir s) (vpn la / 1024)). rewrite <-(pte_at_present (mc s)) by done. rewrite Hpr.
    destruct (Z.eqb_spec (pte_at (mc s) (pgdir s) (vpn la)) 0) as [Hz|]; [by rewrite Hz in Hpr|done].
  - destruct (pgfault_map_run s1 la (area_perm (vm_flags v))) as (r & m' & Hmap & Hok' & Hsame & Hres); try done.
    { apply area_perm_range. }
    exists r, (set_mc s1 m'). by rewrite Hrun, Hmap.
Qed.

(** ** A fault on a page that was swapped out *)

Context {HL : ide_laws (HW := HW)}.
Notation swap_ok := (swap_ok lo hi).
Notation swappable := (swappable lo hi).
Context {SML : swap_manager_laws lo hi SM}.
Implicit Types s : vm.

Lemma swap_entry_page va : is_u32 va → swap_entry (ROUNDDOWN va PGSIZE) = swap_entry va.
Proof.
  intros Hva. destruct (round_page va Hva) as [Hla Hvp]. by rewrite !swap_entry_offset, Hvp by done.
Qed.

Lemma swap_ok_used s l q : swap_ok s l → q ∈ l → q ∈ used (mc s).
Proof.
  intros Hok Hq. destruct (sw_page _ _ _ _ Hok q Hq) as (va & _ & _ & _ & Hv & [Hp <-] & _).
  apply (so_map _ _ _ _ (sw_space _ _ _ _ Hok) _ Hv Hp).
Qed.

(** The state after the page at [la] has come back in frame [f]. *)
Lemma swap_ok_back s l f la m' (s' : vm) h x :
  swap_ok s l → is_u32 la → in_range (vpn la) → vpn la + 1 < max_swap_offset s →
  f ∈ pm_free (pm (mc s)) → present (pte_at (mc s) (pgdir s) (vpn la)) = false →
  space_ok m' (pgdir s) → maps (pte_at m' (pgdir s) (vpn la)) f →
  (∀ w, in_range w → w ≠ vpn la → pte_at m' (pgdir s) w = pte_at (mc s) (pgdir s) w) →
  Dll.dlist h pra_list_head (f :: l) → s' = set_vaddr (set_pra (set_dsk (set_mc s m') x) h) (<[f := la]> (pra_vaddr s)) →
  swap_ok s' (f :: l).
Proof.
  intros Hok Hla Hv Hlim Hf Habs Hsp Hmap Hoth Hd ->. split; [done|apply Hok|done|apply Hok|].
  assert (∀ w, in_range w → ¬ maps (pte_at (mc s) (pgdir s) w) f) as Hnf.
  { intros w Hw [Hp Hfr]. destruct (so_map _ _ _ _ (sw_space _ _ _ _ Hok) w Hw Hp) as [Hu _].
    rewrite Hfr in Hu. unfold used in Hu. set_solver. }
  intros q [->|Hq]%elem_of_cons.
  - exists la. split_and!; cbn; [by rewrite lookup_insert_eq|lia|lia|done|done|done|].
    intros w Hw Hm. destruct (decide (w = vpn la)) as [|Hne]; [done|]. rewrite Hoth in Hm by done. by apply Hnf in Hm.
  - assert (q ≠ f) as Hqf by (intros ->; pose proof (swap_ok_used _ _ _ Hok Hq) as Hu; unfold used in Hu; set_solver).
    destruct (sw_page _ _ _ _ Hok q Hq) as (vq & H1 & H2 & H3 & H4 & H5 & H6).
    assert (vpn vq ≠ vpn la) as Hvn by (intros Heq; rewrite Heq in H5; destruct H5; congruence).
    exists vq. split_and!; cbn; [by rewrite lookup_insert_ne|lia|lia|done|done|by rewrite Hoth|].
    intros w Hw Hm. apply H6; [done|]. destruct (decide (w = vpn la)) as [->|Hne]; [|by rewrite Hoth in Hm].
    destruct Hm as [_ Hm], Hmap as [_ Hmap]. congruence.
Qed.

Lemma maps_entry page perm : 0 ≤ perm < 4096 → maps (Z.lor (Z.lor (page2pa page) PTE_P) perm) page.
Proof. intros. split; [apply present_entry|]. apply frame_of_entry; [unfold PTE_P; lia|done]. Qed.

Lemma pgfault_map_swapped s l la perm :
  swap_ok s l → hw_good (dsk s) → swap_init_ok (mc s) = true → pm_free (pm (mc s)) ≠ ∅ →
  (∀ f, f ∈ pm_frames (pm (mc s)) → is_Some (pra s !! f)) → 0 ≤ perm < 4096 →
  is_u32 la → in_range (vpn la) → vpn la + 1 < max_swap_offset s →
  pte_at (mc s) (pgdir s) (vpn la) = swap_entry la →
  ∃ f s', pgfault_map la perm s = Ret (0, s') ∧ swap_ok s' (f :: l) ∧
    pte_at (mc s') (pgdir s) (vpn la) = Z.lor (Z.lor (page2pa f) PTE_P) perm ∧
    (∀ k, 0 ≤ k < 8 → read_words f (128 * k) 128 (mc s') = sector (dsk s) ((vpn la + 1) * 8 + k)).
Proof using SML.
  intros Hok Hg Hsw Hne Hlk Hperm Hla Hv Hlim Hpte. pose proof (sw_space _ _ _ _ Hok) as Hsp.
  pose proof (entry_table _ _ _ Hla Hpte) as Hp. pose proof (swap_entry_absent la Hla) as Habs.
  destruct (swap_in_run lo hi s la) as (f & s1 & Hin & Hsi); try done; [apply Hok|].
  pose proof Hsi as [Hrest Hsp1 _ [Hu Hdf] [Hff Hfree] Hfr _ Hpde1 Hpte1 _ Hw1 _ _].
  assert (pgdir s1 = pgdir s ∧ pra s1 = pra s ∧ sm_priv s1 = sm_priv s ∧ pra_vaddr s1 = pra_vaddr s)
    as (Ed & Epra & Esm & Eva) by (rewrite Hrest; done).
  destruct (page_insert_run lo hi (mc s1) (pgdir s) f la perm) as
    (r & m2 & Hins & [(-> & Hsp2 & Hpt2 & Hpo2 & Hrd2 & _)|(_ & _ & _ & Hno)]); try done;
    [right; left; by rewrite Hpde1| |by rewrite Hpde1, Hp in Hno].
  assert (f ∉ pra_list_head :: l) as Hfl.
  { apply not_elem_of_cons. split.
    - pose proof (pm_free_frames _ (so_inv _ _ _ _ Hsp) _ Hff) as Hin2. apply (pm_bound _ _ (so_inv _ _ _ _ Hsp)) in Hin2.
      unfold pra_list_head. lia.
    - intros Hl. pose proof (swap_ok_used _ _ _ Hok Hl) as Hul. unfold used in Hul. set_solver. }
  destruct (map_law lo hi (set_mc s1 m2) l la f) as (h & Hmapr & Hd & _); cbn [sm_priv pra set_mc]; rewrite ?Esm, ?Epra.
  { apply Hok. }
  { apply Hok. }
  { apply Hlk. by apply (pm_free_frames _ (so_inv _ _ _ _ Hsp)). }
  { done. }
  exists f, (set_vaddr (set_pra (set_mc s1 m2) h) (<[f := la]> (pra_vaddr s1))). split_and!.
  - unfold pgfault_map. step using reflexivity. step using (apply in_mc_keep; by apply (get_pte_find lo hi)).
    cbv beta iota. step using (by apply in_mc_keep). fold (pde_at (mc s) (pgdir s) (vpn la / 1024)).
    rewrite <-(pte_at_present (mc s)), Hpte, Habs by done.
    destruct (Z.eqb_spec (swap_entry la) 0) as [Hz|_].
    { rewrite swap_entry_offset in Hz by done. pose proof (vpn_pos la Hla). lia. }
    step using reflexivity. rewrite Hsw. cbv beta. change (negb true) with false. cbv iota.
    step using (exact Hin). cbn [fst snd]. change (negb (0 =? 0)) with false. cbv iota.
    step using (by apply zoom_run, Hins). unfold swap_map_swappable. step using (exact Hmapr). done.
  - apply (swap_ok_back s l f la m2 _ h (dsk s1)); try done.
    + by rewrite Hpte.
    + rewrite Hpt2. by apply maps_entry.
    + intros w Hw Hwn. rewrite Hpo2 by done. by apply Hpte1.
    + clear -Hrest. destruct s, s1. cbn in Hrest |- *. injection Hrest as E1 E2 E3 E4 E5 E6 E7. subst. done.
  - done.
  - intros k Hk. rewrite <-(Hw1 k Hk). apply read_words_ext. intros i _. by apply Hrd2.
Qed.

(** C21: A page that was swapped out comes back on the next access: after [swap_out] has taken any number of
    pages, a fault that the area of such a page permits returns 0, maps the page again, to a frame that
    holds the 1024 words it had, and makes it the newest swappable page. *)
Theorem pgfault_restores s l n :
  swap_ok s l → victim_pre lo hi s → hw_good (dsk s) → 0 ≤ n ≤ Z.of_nat (length l) →
  mm_ok (mm s) → swap_init_ok (mc s) = true → (∀ f, f ∈ pm_frames (pm (mc s)) → is_Some (pra s !! f)) →
  ∃ out s', swap_out_mm n 0 s = Ret (n, s') ∧ Z.of_nat (length out) = n ∧
    ∀ p va ec v, p ∈ out → pra_vaddr s !! p = Some va → area_of (mm s) va = Some v →
      access_ok ec (vm_flags v) = true →
      ∃ f l' s'', do_pgfault ec va s' = Ret (0, s'') ∧ swap_ok s'' (f :: l') ∧
        pte_at (mc s'') (pgdir s) (vpn va) = Z.lor (Z.lor (page2pa f) PTE_P) (area_perm (vm_flags v)) ∧
        ∀ i, 0 ≤ i < 1024 → read (mc s'') (f, i) = read (mc s) (p, i).
Proof.
  intros Hok Hpre Hg Hn Hmm Hsw Hlk.
  destruct (swap_out_loop_run lo hi (Z.to_nat n) s l 0 Hok Hpre Hg) as (out & l' & s' & Hrun & Hlen & Hperm & Hok' & Hso); [lia|].
  exists out, s'. split_and!; [unfold swap_out_mm; rewrite Hrun; do 2 f_equal; lia|lia|].
  intros p va ec v Hp Hva Hav Hac.
  destruct (sw_page _ _ _ _ Hok p) as [va' Hsw']; [rewrite Hperm; set_solver|].
  pose proof Hsw' as (Hva' & H32 & Hlim & Hv & _). assert (va' = va) as -> by congruence.
  destruct (so_out _ _ _ _ _ Hso p va Hp Hva) as [Hpte Hh].
  destruct (round_page va H32) as [Hla Hvp]. set (la := ROUNDDOWN va PGSIZE) in *.
  destruct (do_pgfault_run s' ec va) as (m & k & Hm & _ & Hf); [by rewrite (so_mm _ _ _ _ _ Hso)|].
  rewrite (so_mm _ _ _ _ _ Hso), Hav, Hac in Hf.
  set (s1 := set_faults (set_mm s' m) k) in *.
  destruct (pgfault_map_swapped s1 l' la (area_perm (vm_flags v))) as (f & s'' & Hmap & Hok'' & Hpt & Hw).
  - destruct Hok'. by split.
  - apply Hso.
  - cbn. by rewrite (so_swap _ _ _ _ _ Hso).
  - cbn. rewrite (so_free _ _ _ _ _ Hso). set_solver.
  - cbn. intros g. rewrite (so_frames _ _ _ _ _ Hso). intros Hgf. apply elem_of_dom.
    rewrite (so_links _ _ _ _ _ Hso). apply elem_of_dom. by apply Hlk.
  - apply area_perm_range.
  - done.
  - by rewrite Hvp.
  - cbn. rewrite Hvp, (so_limit _ _ _ _ _ Hso). done.
  - cbn. rewrite Hvp, (so_pgdir _ _ _ _ _ Hso), Hpte. unfold la. by rewrite swap_entry_page.
  - exists f, l', s''. rewrite Hf. rewrite Hvp in Hpt, Hw. cbn in Hpt, Hw. rewrite (so_pgdir _ _ _ _ _ Hso) in Hpt.
    split_and!; try done. apply words_agree. intros j Hj. rewrite (Hw j Hj). by apply Hh.
Qed.

End pgfault.

(** * Copies between kernel and user memory *)

(** The memory as addresses reach it: the areas of the current process, if it is not a kernel thread, and the
    bytes, kernel and user. *)
Record uvm := mkUvm { umm : option mm_struct; bytes : gmap Z Z }.

Definition byte_at (s : uvm) (a : Z) : Z := default 0 (bytes s !! a).
Definition KERNTOP : Z := 0xF8000000.
Definition KERN_ACCESS (start end_ : Z) : bool := (KERNBASE <=? start) && (start <? end_) && (end_ <=? KERNTOP).

(** [user_mem_check], for [mm] that may be NULL. *)
Definition mem_check (addr len : Z) (write : bool) : M uvm bool := λ s,
  match umm s with
  | Some m => match user_mem_check addr len write m with Ret (b, m') => Ret (b, mkUvm (Some m') (bytes s)) | Err e => Err e end
  | None => Ret (KERN_ACCESS addr (u32 (addr + len)), s)
  end.

Fixpoint copy_bytes (dst : Z) (l : list Z) (b : gmap Z Z) : gmap Z Z :=
  match l with
  | [] => b
  | x :: l' => copy_bytes (dst + 1) l' (<[dst := x]> b)
  end.
Definition memcpy (dst src len : Z) : M uvm unit :=
  modify (λ s, mkUvm (umm s) (copy_bytes dst ((λ i, byte_at s (src + i)) <$> seqZ 0 len) (bytes s))).

(** [strnlen(s, len)]: the bytes before the first zero byte, at most [len]. *)
Fixpoint strnlen_loop (n : nat) (cnt src : Z) (s : uvm) : Z :=
  match n with
  | O => cnt
  | Datatypes.S n' => if byte_at s src =? 0 then cnt else strnlen_loop n' (cnt + 1) (src + 1) s
  end.
Definition strnlen (src len : Z) : M uvm Z := gets (strnlen_loop (Z.to_nat len) 0 src).

Definition copy_from_user (dst src len : Z) (writable : bool) : M uvm bool :=
  ok ← mem_check src len writable;
  if ok : bool then memcpy dst src len ;; mret true else mret false.
Definition copy_to_user (dst src len : Z) : M uvm bool :=
  ok ← mem_check dst len true;
  if ok : bool then memcpy dst src len ;; mret true else mret false.

(** Every round but the last takes at least one byte off [maxn]. *)
Fixpoint copy_string_loop (fuel : nat) (dst src maxn part : Z) : M uvm bool :=
  match fuel with
  | O => fail EFuel
  | Datatypes.S fuel' =>
      let part' := if maxn <? part then maxn else part in
      ok ← mem_check src part' false;
      if negb ok then mret false else
      alen ← strnlen src part';
      if alen <? part' then memcpy dst src (alen + 1) ;; mret true
      else if part' =? maxn then mret false
      else
        memcpy dst src part' ;;
        copy_string_loop fuel' (u32 (dst + part')) (u32 (src + part')) (maxn - part') PGSIZE
  end.
Definition copy_string (dst src maxn : Z) : M uvm bool :=
  copy_string_loop (Datatypes.S (Z.to_nat maxn)) dst src maxn
    (u32 (ROUNDDOWN (u32 (src + PGSIZE)) PGSIZE - src)).

(** ** What the copies do *)

(** [s'] is [s] after [n] bytes were copied from [src] to [dst]. *)
Definition copied (s s' : uvm) (dst src n : Z) : Prop :=
  ∀ a, byte_at s' a = if decide (dst ≤ a < dst + n) then byte_at s (src + (a - dst)) else byte_at s a.

Lemma copy_bytes_lookup dst l b a :
  default 0 (copy_bytes dst l b !! a) =
    if decide (dst ≤ a < dst + Z.of_nat (length l)) then l !!! Z.to_nat (a - dst) else default 0 (b !! a).
Proof.
  revert dst b. induction l as [|x l IH]; intros dst b; simpl.
  { by rewrite decide_False by lia. }
  rewrite IH. destruct (decide (dst + 1 ≤ a < dst + 1 + Z.of_nat (length l))).
  - rewrite decide_True by lia. replace (Z.to_nat (a - dst)) with (Datatypes.S (Z.to_nat (a - (dst + 1)))) by lia. done.
  - destruct (decide (a = dst)) as [->|Hne].
    + rewrite lookup_insert_eq, decide_True by lia. by rewrite Z.sub_diag.
    + rewrite lookup_insert_ne by done. by rewrite decide_False by lia.
Qed.

Lemma memcpy_run s dst src n :
  0 ≤ n → ∃ s', memcpy dst src n s = Ret (tt, s') ∧ umm s' = umm s ∧ copied s s' dst src n.
Proof.
  intros Hn. eexists. split_and!; [reflexivity|done|]. intros a. unfold byte_at at 1. cbn [bytes].
  rewrite copy_bytes_lookup, length_fmap, length_seqZ, Z2Nat.id by done.
  destruct (decide (dst ≤ a < dst + n)) as [Ha|]; [|done].
  apply list_lookup_total_correct. rewrite list_lookup_fmap, lookup_seqZ_lt by lia. simpl. do 2 f_equal. lia.
Qed.

Lemma strnlen_loop_spec n cnt src s :
  let r := strnlen_loop n cnt src s - cnt in
  0 ≤ r ≤ Z.of_nat n ∧ (∀ i, 0 ≤ i < r → byte_at s (src + i) ≠ 0) ∧
  (r < Z.of_nat n → byte_at s (src + r) = 0).
Proof.
  revert cnt src. induction n as [|n IH]; intros cnt src; simpl; [split_and!; lia|].
  destruct (Z.eqb_spec (byte_at s src) 0) as [Hz|Hz].
  - rewrite Z.sub_diag. split_and!; [lia|lia|lia|]. intros _. by rewrite Z.add_0_r.
  - destruct (IH (cnt + 1) (src + 1)) as (H1 & H2 & H3). split_and!; [lia|lia| |].
    + intros i Hi. destruct (decide (i = 0)) as [->|]; [by rewrite Z.add_0_r|].
      replace (src + i) with (src + 1 + (i - 1)) by lia. apply H2. lia.
    + intros Hlt. replace (src + (strnlen_loop n (cnt + 1) (src + 1) s - cnt))
        with (src + 1 + (strnlen_loop n (cnt + 1) (src + 1) s - (cnt + 1))) by lia. apply H3. lia.
Qed.

(** [mm_map] makes areas of whole pages inside user space. *)
Definition user_areas (m : mm_struct) : Prop :=
  ∀ v, v ∈ areas m → vm_start v mod 4096 = 0 ∧ vm_end v mod 4096 = 0 ∧ USERBASE ≤ vm_start v ∧ vm_end v ≤ USERTOP.
Definition readable (m : mm_struct) (x : Z) : Prop := Exists (allows false x) (areas m).

Lemma readable_extent m m' x : extent <$> areas m' = extent <$> areas m → readable m x → readable m' x.
Proof.
  intros He. symmetry in He. unfold readable. rewrite !Exists_exists. intros (v & Hv & Ha).
  destruct (extent_elem _ _ v He Hv) as (v' & Hv' & Heq). exists v'. split; [done|]. by eapply allows_extent.
Qed.
Lemma user_areas_extent m m' : extent <$> areas m' = extent <$> areas m → user_areas m → user_areas m'.
Proof.
  intros He Hu v Hv. destruct (extent_elem _ _ v He Hv) as (v' & Hv' & Heq).
  injection Heq as E1 E2 E3. rewrite <-E1, <-E2. by apply Hu.
Qed.

(** A readable byte lies in a readable page. *)
Lemma readable_page m x y : user_areas m → readable m x → x / 4096 = y / 4096 →
  readable m y ∧ USERBASE ≤ y < USERTOP.
Proof.
  intros Hu Hx Hxy. apply Exists_exists in Hx as (v & Hv & Hc & Hf & _). destruct (Hu v Hv) as (H1 & H2 & H3 & H4).
  unfold contains in Hc. apply andb_prop in Hc as [Hc1 Hc2]. z_bool.
  pose proof (Z.div_mod x 4096). pose proof (Z.div_mod y 4096). pose proof (Z.mod_pos_bound x 4096). pose proof (Z.mod_pos_bound y 4096).
  pose proof (Z.div_mod (vm_start v) 4096). pose proof (Z.div_mod (vm_end v) 4096).
  assert (vm_start v ≤ y < vm_end v) as Hy by lia. split; [|lia].
  apply Exists_exists. exists v. split; [done|]. split_and!; [|done|done].
  unfold contains. rewrite (proj2 (Z.leb_le _ _)), (proj2 (Z.ltb_lt _ _)) by lia. done.
Qed.

(** A string of [n] bytes at [src]. *)
Definition string_at (s : uvm) (src n : Z) : Prop :=
  byte_at s (src + n) = 0 ∧ ∀ i, 0 ≤ i < n → byte_at s (src + i) ≠ 0.

Definition reads (s : uvm) (x : Z) : Prop := ∃ m, umm s = Some m ∧ readable m x.

(** There is a readable string of fewer than [maxn] bytes. *)
Definition has_string (s : uvm) (src maxn n : Z) : Prop :=
  0 ≤ n < maxn ∧ string_at s src n ∧ ∀ x, src ≤ x ≤ src + n → reads s x.

(** The check of a part that does not cross a page. *)
Lemma check_part m src part :
  mm_ok m → user_areas m → is_u32 src → 0 ≤ part → (0 < part → (src + part - 1) / 4096 = src / 4096) →
  ∃ b m', user_mem_check src part false m = Ret (b, m') ∧ mm_ok m' ∧ extent <$> areas m' = extent <$> areas m ∧
    (b = true ↔ 0 < part ∧ readable m src).
Proof.
  intros Hok Hu Hsrc Hpart Hpage.
  destruct (user_mem_check_run m src part false Hok) as (b & m' & Hrun & Hok' & _ & Hext & Hb).
  exists b, m'. split_and!; try done. rewrite Hb. unfold USER_ACCESS. rewrite !andb_true_iff, Z.leb_le, Z.ltb_lt, Z.leb_le.
  split.
  - intros (((H1 & H2) & H3) & Hall). assert (0 < part) as Hp.
    { destruct (decide (part = 0)) as [->|]; [|lia]. rewrite Z.add_0_r, u32_small in H2 by done. lia. }
    split; [done|]. apply Hall. lia.
  - intros [Hp Hr]. specialize (Hpage Hp).
    assert (∀ x, src ≤ x < src + part → readable m x ∧ USERBASE ≤ x < USERTOP) as Hx.
    { intros x Hx. apply (readable_page m src); [done|done|].
      pose proof (Z.div_le_mono src x 4096). pose proof (Z.div_le_mono x (src + part - 1) 4096). lia. }
    destruct (Hx src) as [_ ?]; [lia|]. destruct (Hx (src + part - 1)) as [_ ?]; [lia|].
    unfold USERBASE, USERTOP in *. rewrite u32_small by lia.
    split_and!; [lia|lia|lia|]. intros x Hxr. apply Hx. lia.
Qed.

Lemma string_at_unique s src n k : 0 ≤ n → 0 ≤ k → string_at s src n → string_at s src k → n = k.
Proof.
  intros Hn Hk [Hn1 Hn2] [Hk1 Hk2]. destruct (Z.lt_trichotomy n k) as [H|[H|H]]; [|done|].
  - by destruct (Hk2 n).
  - by destruct (Hn2 k).
Qed.

(** A string that continues behind the [part] bytes copied. *)
Lemma has_string_next s s1 m0 m src dst maxn part n :
  copied (mkUvm (Some m) (bytes s)) s1 dst src part → umm s = Some m0 → umm s1 = Some m →
  extent <$> areas m = extent <$> areas m0 → user_areas m0 → KERNBASE ≤ dst → 0 < part →
  (∀ i, 0 ≤ i < part → byte_at s (src + i) ≠ 0) → (∀ x, src ≤ x < src + part → readable m0 x) →
  has_string s1 (src + part) (maxn - part) n ↔ has_string s src maxn (n + part) ∧ 0 ≤ n.
Proof.
  intros Hc Hm0 Hm He Hu Hdst Hp Hnz Hrd.
  assert (∀ x, reads s x ↔ readable m0 x) as Hr0.
  { intros x. split; [intros (m' & E & ?); congruence|by exists m0]. }
  assert (∀ x, reads s x ↔ reads s1 x) as Hre.
  { intros x. rewrite Hr0. split; [intros ?; exists m; split; [done|by eapply readable_extent]|].
    intros (m' & E & Hx). rewrite Hm in E. injection E as <-. by eapply readable_extent. }
  assert (∀ x, reads s x → byte_at s1 x = byte_at s x) as Hby.
  { intros x Hx%Hr0. destruct (readable_page _ x x Hu Hx eq_refl) as [_ Hux]. rewrite (Hc x).
    unfold KERNBASE, USERTOP in *. by rewrite decide_False by lia. }
  unfold has_string, string_at. split.
  - intros (Hn & [Hz Hnn] & Hr). split; [|lia]. split_and!; [lia|lia| | |].
    + rewrite <-Hby; [by replace (src + (n + part)) with (src + part + n) by lia|]. apply Hre, Hr. lia.
    + intros i Hi. destruct (decide (i < part)); [apply Hnz; lia|].
      rewrite <-Hby; [|apply Hre, Hr; lia]. replace (src + i) with (src + part + (i - part)) by lia. apply Hnn. lia.
    + intros x Hx. destruct (decide (x < src + part)); [apply Hr0, Hrd; lia|]. apply Hre, Hr. lia.
  - intros ((Hn & [Hz Hnn] & Hr) & H0). split_and!; [lia|lia| | |].
    + rewrite Hby by (apply Hr; lia). by replace (src + part + n) with (src + (n + part)) by lia.
    + intros i Hi. rewrite Hby by (apply Hr; lia). replace (src + part + i) with (src + (part + i)) by lia. apply Hnn. lia.
    + intros x Hx. apply Hre, Hr. lia.
Qed.

Lemma copy_string_loop_run fuel s m0 dst src maxn part :
  umm s = Some m0 → mm_ok m0 → user_areas m0 → KERNBASE ≤ dst → dst + maxn ≤ 2 ^ 32 → 0 ≤ maxn → is_u32 src →
  0 < part ≤ 4096 → (src + part) mod 4096 = 0 → (Z.to_nat maxn < fuel)%nat →
  ∃ b s' m', copy_string_loop fuel dst src maxn part s = Ret (b, s') ∧ umm s' = Some m' ∧ mm_ok m' ∧
    extent <$> areas m' = extent <$> areas m0 ∧
    (∀ a, ¬ (dst ≤ a < dst + maxn) → byte_at s' a = byte_at s a) ∧
    if b : bool then ∃ n, has_string s src maxn n ∧ ∀ i, 0 ≤ i ≤ n → byte_at s' (dst + i) = byte_at s (src + i)
    else ∀ n, ¬ has_string s src maxn n.
Proof.
  revert s m0 dst src maxn part. induction fuel as [|fuel IH]; intros s m0 dst src maxn part Hm0 Hok Hu Hdst Hend Hmax Hsrc Hpart Hal Hf; [lia|].
  cbn [copy_string_loop]. set (part' := if maxn <? part then maxn else part).
  assert (0 ≤ part' ∧ part' ≤ part ∧ part' ≤ maxn ∧ (part' < maxn → part' = part) ∧ (0 < maxn → 0 < part')) as (Hp0 & Hp1 & Hp2 & Hp3 & Hp4).
  { unfold part'. destruct (Z.ltb_spec maxn part); lia. }
  clearbody part'.
  assert (∀ x, src ≤ x < src + part' → src / 4096 = x / 4096) as Hpg.
  { intros x Hx. pose proof (Z.div_mod src 4096). pose proof (Z.div_mod x 4096).
    pose proof (Z.div_mod (src + part) 4096). pose proof (Z.mod_pos_bound src 4096). pose proof (Z.mod_pos_bound x 4096). lia. }
  destruct (check_part m0 src part') as (b & m & Hchk & Hok1 & Hext1 & Hb); try done.
  { intros Hpos. symmetry. apply Hpg. lia. }
  assert (mem_check src part' false s = Ret (b, mkUvm (Some m) (bytes s))) as Hin by (unfold mem_check; by rewrite Hm0, Hchk).
  assert (∀ x, reads s x ↔ readable m0 x) as Hr0.
  { intros x. split; [intros (m' & E & ?); congruence|by exists m0]. }
  step using (exact Hin). cbv beta. destruct b; [change (negb true) with false|change (negb false) with true]; cbv iota.
  2:{ exists false, (mkUvm (Some m) (bytes s)), m. split_and!; try done. intros n (Hn & _ & Hr).
    destruct Hb as [_ Hb]. discriminate Hb. split; [lia|]. apply Hr0, Hr. lia. }
  destruct (proj1 Hb eq_refl) as [Hpos Hrs].
  assert (∀ x, src ≤ x < src + part' → readable m0 x ∧ USERBASE ≤ x < USERTOP) as Hrd.
  { intros x Hx. apply (readable_page _ src); auto. }
  step using reflexivity.
  destruct (strnlen_loop_spec (Z.to_nat part') 0 src (mkUvm (Some m) (bytes s))) as (Ha1 & Ha2 & Ha3).
  rewrite Z.sub_0_r, Z2Nat.id in * by lia. set (alen := strnlen_loop _ _ _ _) in *. clearbody alen.
  change (byte_at (mkUvm (Some m) (bytes s))) with (byte_at s) in *.
  destruct (Z.ltb_spec alen part') as [Hlt|Hge].
  { destruct (memcpy_run (mkUvm (Some m) (bytes s)) dst src (alen + 1)) as (s' & Hcp & Hm' & Hc); [lia|].
    exists true, s', m. change (∀ a, byte_at s' a = if decide (dst ≤ a < dst + (alen + 1)) then byte_at s (src + (a - dst)) else byte_at s a) in Hc.
    split_and!; [by step using (exact Hcp)|by rewrite Hm'|done|done| |].
    - intros a Ha. by rewrite Hc, decide_False by lia.
    - exists alen. split.
      + split_and!; [lia|lia|split; [by apply Ha3|done]|]. intros x Hx. apply Hr0, Hrd. lia.
      + intros i Hi. rewrite Hc, decide_True by lia. f_equal. lia. }
  assert (alen = part') as -> by lia.
  destruct (Z.eqb_spec part' maxn) as [->|Hne].
  { exists false, (mkUvm (Some m) (bytes s)), m. split_and!; try done. intros n (Hn & [Hz _] & _). by destruct (Ha2 n). }
  assert (part' = part) as -> by lia. destruct (Hrd (src + part - 1)) as [_ Hlast]; [lia|].
  destruct (memcpy_run (mkUvm (Some m) (bytes s)) dst src part) as (s1 & Hcp & Hm' & Hc); [lia|].
  step using (exact Hcp). unfold USERTOP, KERNBASE, PGSIZE in *. rewrite !u32_small by lia.
  destruct (IH s1 m (dst + part) (src + part) (maxn - part) 4096) as (b & s' & m' & Hrun & Hs' & Hok' & Hext' & Hout & Hres); try (rewrite ?Hm'; done); try lia.
  { by apply (user_areas_extent m0). }
  { by rewrite Z.add_mod, Hal by lia. }
  assert (∀ n, has_string s1 (src + part) (maxn - part) n ↔ has_string s src maxn (n + part) ∧ 0 ≤ n) as Hnext.
  { intros n. apply (has_string_next s s1 m0 m src dst); try done. intros x Hx. by apply Hrd. }
  change (∀ a, byte_at s1 a = if decide (dst ≤ a < dst + part) then byte_at s (src + (a - dst)) else byte_at s a) in Hc.
  exists b, s', m'. split_and!; [done|done|done| | |].
  - by rewrite Hext'.
  - intros a Ha. rewrite Hout by lia. by rewrite Hc, decide_False by lia.
  - destruct b.
    + destruct Hres as (n & Hn & Hcpy). apply Hnext in Hn as [Hn Hn0]. exists (n + part). split; [done|].
      intros i Hi. destruct (decide (i < part)).
      * rewrite Hout by lia. rewrite Hc, decide_True by lia. f_equal. lia.
      * replace (dst + i) with (dst + part + (i - part)) by lia. rewrite Hcpy by lia.
        destruct Hn as (_ & _ & Hr). destruct (readable_page _ (src + i) (src + i) Hu) as [_ Hux]; [apply Hr0, Hr; lia|done|].
        unfold USERTOP in Hux. replace (src + part + (i - part)) with (src + i) by lia. by rewrite Hc, decide_False by lia.
    + intros n Hn. assert (part ≤ n) as Hpn.
      { destruct Hn as (? & [Hz _] & _). destruct (decide (n < part)); [|lia]. by destruct (Ha2 n); [lia|]. }
      apply (Hres (n - part)), Hnext. replace (n - part + part) with n by lia. split; [done|lia].
Qed.

(** The first part goes up to the end of the page. *)
Lemma first_part src : is_u32 src →
  let part := u32 (ROUNDDOWN (u32 (src + PGSIZE)) PGSIZE - src) in 0 < part ≤ 4096 ∧ (src + part) mod 4096 = 0.
Proof.
  intros Hs. unfold PGSIZE. rewrite ROUNDDOWN_spec by done. pose proof (Z.div_mod src 4096). pose proof (Z.mod_pos_bound src 4096).
  destruct (decide (src + 4096 < 2 ^ 32)) as [Hlt|Hge].
  - rewrite (u32_small (src + 4096)) by lia. replace (src + 4096) with (src + 1 * 4096) by lia. rewrite Z.div_add by lia.
    rewrite u32_small by lia. split; [lia|]. replace (src + _) with ((src / 4096 + 1) * 4096) by lia. by apply Z.mod_mul.
  - assert (u32 (src + 4096) = src + 4096 - 2 ^ 32) as ->.
    { unfold u32. symmetry. apply (Z.mod_unique_pos _ _ 1); lia. }
    rewrite (Z.div_small (src + 4096 - 2 ^ 32)) by lia.
    assert (u32 (4096 * 0 - src) = 2 ^ 32 - src) as ->.
    { unfold u32. symmetry. apply (Z.mod_unique_pos _ _ (-1)); lia. }
    split; [lia|]. replace (src + (2 ^ 32 - src)) with (1048576 * 4096) by lia. by apply Z.mod_mul.
Qed.

Lemma copy_string_run s m dst src maxn :
  umm s = Some m → mm_ok m → user_areas m → KERNBASE ≤ dst → 0 ≤ maxn → dst + maxn ≤ 2 ^ 32 → is_u32 src →
  ∃ b s' m', copy_string dst src maxn s = Ret (b, s') ∧ umm s' = Some m' ∧ mm_ok m' ∧
    extent <$> areas m' = extent <$> areas m ∧
    (∀ a, ¬ (dst ≤ a < dst + maxn) → byte_at s' a = byte_at s a) ∧
    if b : bool then ∃ n, has_string s src maxn n ∧ ∀ i, 0 ≤ i ≤ n → byte_at s' (dst + i) = byte_at s (src + i)
    else ∀ n, ¬ has_string s src maxn n.
Proof.
  intros Hm Hok Hu Hdst Hmax Hend Hsrc. destruct (first_part src Hsrc) as [Hp Hal].
  eapply copy_string_loop_run; try done. lia.
Qed.

(** [copy_string] into a kernel buffer of [maxn] bytes ends, and succeeds exactly when a string of fewer
    than [maxn] bytes lies at [src], every byte of it, the final zero included, in memory the process may
    read; the string is then in the buffer.  Nothing outside the buffer changes. *)
Theorem copy_string_correct s m dst src maxn :
  umm s = Some m → mm_ok m → user_areas m → KERNBASE ≤ dst → 0 ≤ maxn → dst + maxn ≤ 2 ^ 32 → is_u32 src →
  ∃ b s' m', copy_string dst src maxn s = Ret (b, s') ∧ umm s' = Some m' ∧ mm_ok m' ∧
    extent <$> areas m' = extent <$> areas m ∧
    (∀ a, ¬ (dst ≤ a < dst + maxn) → byte_at s' a = byte_at s a) ∧
    if b : bool then ∃ n, has_string s src maxn n ∧ ∀ i, 0 ≤ i ≤ n → byte_at s' (dst + i) = byte_at s (src + i)
    else ∀ n, ¬ has_string s src maxn n.
Proof. apply copy_string_run. Qed.

(** * A process with a text area *)

#[local] Existing Instance FitAlloc.firstfit_pmm_manager.
#[local] Existing Instance FitAlloc.firstfit_laws.
#[local] Existing Instance PageTable.no_swap.
#[local] Existing Instance Swap.demo_hw.
#[local] Existing Instance Swap.demo_ide_laws.
#[local] Existing Instance Swap.fifo_laws.

Definition demo_links : gmap Z Dll.list_entry :=
  pra demo_vm ∪ list_to_map ((λ f, (f, Dll.mk_entry 0 0)) <$> seqZ 0 12).
Definition demo_proc : @Swap.vm pmm (gmap Z (list Z)) := set_pra (set_mm demo_vm demo_mm) demo_links.
Definition demo_proc_off : @Swap.vm pmm (gmap Z (list Z)) := set_mc demo_proc demo_mapped.

Lemma demo_proc_ok : Swap.swap_ok user_lo user_hi demo_proc [2].
Proof.
  destruct demo_vm_ok as [H1 H2 H3 H4 H5]. split; [exact H1|exact H2| |exact H4|exact H5].
  split_and!.
  - apply (bool_decide_unpack _). by vm_compute.
  - intros [|[|[|i]]] a b; vm_compute; intros; simplify_eq; done.
  - intros [|[|[|i]]] a b; vm_compute; intros; simplify_eq; done.
Qed.

Lemma do_pgfault_correct_witness :
  ∃ r s', do_pgfault (SM := swap_manager_fifo) 0 0x801000 demo_proc_off = Ret (r, s') ∧ mm_ok (mm s') ∧
    space_ok user_lo user_hi (mc s') 0.
Proof.
  assert (present (pte_at demo_mapped 0 (vpn 0x801000)) = false) as Hold by (by vm_compute).
  pose proof (do_pgfault_correct (SM := swap_manager_fifo) user_lo user_hi demo_proc_off 0 0x801000) as H.
  destruct H as (r & s' & Hrun & Hm & Hs & _).
  - apply demo_mm_ok.
  - apply demo_mapped_ok.
  - lia.
  - apply user_range. vm_compute. intuition discriminate.
  - reflexivity.
  - exists r, s'. split; [exact Hrun|]. split; [exact Hm|exact Hs].
Defined.

Lemma pgfault_restores_witness :
  ∃ out s', swap_out_mm (SM := swap_manager_fifo) 1 0 demo_proc = Ret (1, s') ∧ Z.of_nat (length out) = 1 ∧
    ∀ p va ec v, p ∈ out → pra_vaddr demo_proc !! p = Some va → area_of demo_mm va = Some v →
      access_ok ec (vm_flags v) = true →
      ∃ f l' s'', do_pgfault (SM := swap_manager_fifo) ec va s' = Ret (0, s'') ∧
        Swap.swap_ok user_lo user_hi s'' (f :: l') ∧
        pte_at (mc s'') 0 (vpn va) = Z.lor (Z.lor (page2pa f) PTE_P) (area_perm (vm_flags v)) ∧
        ∀ i, 0 ≤ i < 1024 → read (mc s'') (f, i) = read (mc demo_proc) (p, i).
Proof.
  apply (pgfault_restores (SM := swap_manager_fifo) user_lo user_hi demo_proc [2] 1).
  - apply demo_proc_ok.
  - done.
  - done.
  - simpl. lia.
  - apply demo_mm_ok.
  - reflexivity.
  - intros f Hf. assert (set_Forall (λ f, is_Some (demo_links !! f)) (pm_frames (pm (mc demo_proc)))) as H.
    { apply (bool_decide_unpack _). by vm_compute. }
    by apply H.
Defined.

(** The string "ls" at the start of the text area. *)
Definition demo_uvm : uvm := mkUvm (Some demo_mm) {[ 0x800000 := 108; 0x800001 := 115; 0x800002 := 0 ]}.

Lemma copy_string_correct_witness :
  ∃ s', copy_string 0xC0100000 0x800000 256 demo_uvm = Ret (true, s') ∧ byte_at s' 0xC0100001 = 115.
Proof.
  destruct (copy_string_correct demo_uvm demo_mm 0xC0100000 0x800000 256) as (b & s' & _ & Hrun & _ & _ & _ & _ & Hb).
  - done.
  - apply demo_mm_ok.
  - intros v Hv. unfold areas in Hv. cbn in Hv. set_unfold in Hv. destruct Hv as [->|[->|[]]]; vm_compute; intuition discriminate.
  - done.
  - lia.
  - lia.
  - lia.
  - assert (has_string demo_uvm 0x800000 256 2) as Hs.
    { split_and!; [lia|lia|split; [done|]|].
      - intros i Hi. assert (i = 0 ∨ i = 1) as [-> | ->] by lia; vm_compute; done.
      - intros x Hx. exists demo_mm. split; [done|]. apply Exists_exists. exists demo_text. split; [apply list_elem_of_In; by left|].
        split_and!; [|done|done]. unfold contains. apply andb_true_intro. split; [apply Z.leb_le|apply Z.ltb_lt]; simpl; lia. }
    destruct b; [|by destruct (Hb 2)]. exists s'. split; [exact Hrun|].
    destruct Hb as (n & (Hn & Hsn & _) & Hc). destruct Hs as (_ & Hs2 & _).
    assert (n = 2) as -> by (apply (string_at_unique demo_uvm 0x800000); [lia|lia|done|done]).
    apply (Hc 1). lia.
Defined.

End Vmm.
