(* ===== verification/AddrSpace.v ===== *)
(** Address spaces of processes: [setup_pgdir], [put_pgdir], [copy_mm] and the release of the address space
    in [do_exit] (kern/process/proc.c), above [copy_range] (kern/mm/pmm.c) and [dup_mmap], [exit_mmap]
    (kern/mm/vmm.c).

    The first part is about two directories in one machine: what is done to one of them leaves the
    translations and the memory of the other alone. *)
From S2P Require Import Prelude Dll Frames PmmManager FitAlloc PageTable Vma Swap Vmm.

Module AddrSpace.
Import Frames PmmManager PageTable Vma Vmm.
Set Default Proof Using "Type".

Section spaces.
Context {S : Type} `{PM : pmm_manager S} {SW : swapper (S := S)}.
Notation machine := (machine (S := S)).
Context `{PL : !pmm_laws S}.
Context (lo hi : Z).
Notation space_ok := (space_ok lo hi).
Notation in_range := (in_range lo hi).
Notation data_frame := (data_frame lo hi).
Notation range_pages := (range_pages lo hi).
Implicit Types (m : machine) (X : gset Z).

(** * Growing an address space *)

(** Directory [d] got frames that were free: the frames in use that hold neither [d] nor a table of it keep
    their words and references, those of [X] excepted. *)
Record grow X (d : Z) m m' : Prop := {
  gr_ok : space_ok m' d;
  gr_npage : npage m' = npage m;
  gr_cr3 : cr3 m' = cr3 m;
  gr_swap : swap_init_ok m' = swap_init_ok m;
  gr_frames : pm_frames (pm m') = pm_frames (pm m);
  gr_free : pm_free (pm m') ⊆ pm_free (pm m);
  gr_tlb : cr3 m ≠ d → tlb m' = tlb m;
  gr_keep f : f ∈ used m → f ∉ X → data_frame m d f →
    data_frame m' d f ∧ ref_of m' f = ref_of m f ∧ ∀ i, read m' (f, i) = read m (f, i) }.

Lemma gr_used X d m m' f : grow X d m m' → f ∈ used m → f ∈ used m'.
Proof. intros H. unfold used. rewrite (gr_frames _ _ _ _ H). pose proof (gr_free _ _ _ _ H). set_solver. Qed.

Lemma used_not_free m f : f ∈ used m → f ∉ pm_free (pm m).
Proof. unfold used. by intros [_ ?]%elem_of_difference. Qed.

Lemma grow_refl X d m : space_ok m d → grow X d m m.
Proof. intros. by split. Qed.

Lemma grow_trans X d m1 m2 m3 : grow X d m1 m2 → grow X d m2 m3 → grow X d m1 m3.
Proof.
  intros H1 H2. split.
  - apply H2.
  - by rewrite (gr_npage _ _ _ _ H2), (gr_npage _ _ _ _ H1).
  - by rewrite (gr_cr3 _ _ _ _ H2), (gr_cr3 _ _ _ _ H1).
  - by rewrite (gr_swap _ _ _ _ H2), (gr_swap _ _ _ _ H1).
  - by rewrite (gr_frames _ _ _ _ H2), (gr_frames _ _ _ _ H1).
  - pose proof (gr_free _ _ _ _ H2). pose proof (gr_free _ _ _ _ H1). set_solver.
  - intros Hc. rewrite (gr_tlb _ _ _ _ H2), (gr_tlb _ _ _ _ H1); [done|done|]. by rewrite (gr_cr3 _ _ _ _ H1).
  - intros f Hf HX Hd. destruct (gr_keep _ _ _ _ H1 f Hf HX Hd) as (Hd2 & Hr2 & Hi2).
    destruct (gr_keep _ _ _ _ H2 f (gr_used _ _ _ _ _ H1 Hf) HX Hd2) as (Hd3 & Hr3 & Hi3).
    split_and!; [done|congruence|]. intros i. by rewrite Hi3.
Qed.

Lemma grow_weaken X Y d m m' : X ⊆ Y → grow X d m m' → grow Y d m m'.
Proof. intros HX []. split; try done. intros. apply gr_keep0; set_solver. Qed.

(** Frames that were free are no exceptions. *)
Lemma grow_fresh (p : Z) d m m' : p ∈ pm_free (pm m) → grow {[ p ]} d m m' → grow ∅ d m m'.
Proof.
  intros Hp []. split; try done. intros f Hf _ Hd. apply gr_keep0; [done| |done].
  intros ->%elem_of_singleton. unfold used in Hf. set_solver.
Qed.

(** Words of a data frame are no part of the translation. *)
Lemma data_words m (d p : Z) (w : gmap (Z * Z) Z) :
  space_ok m d → data_frame m d p → (∀ f i, f ≠ p → read (set_mem m w) (f, i) = read m (f, i)) →
  grow {[ p ]} d m (set_mem m w) ∧ (∀ x, pde_at (set_mem m w) d x = pde_at m d x) ∧
  (∀ v, in_range v → pte_at (set_mem m w) d v = pte_at m d v).
Proof.
  intros Hok [Hpd Hpt] Hw.
  assert (∀ x, pde_at (set_mem m w) d x = pde_at m d x) as Hpde by (intros x; by apply Hw).
  assert (∀ v, in_range v → pte_at (set_mem m w) d v = pte_at m d v) as Hpte.
  { intros v Hv. unfold pte_at. rewrite Hpde. destruct (present (pde_at m d (v / 1024))) eqn:Hp; [|done].
    apply Hw. by apply Hpt; [apply in_range_dir|]. }
  assert (∀ f, data_frame m d f → data_frame (set_mem m w) d f) as Hdf.
  { intros f [Hf1 Hf2]. split; [done|]. intros x. rewrite Hpde. apply Hf2. }
  split_and!; [|done|done]. split; try done.
  - split; simpl; try apply Hok.
    + intros x Hx. rewrite Hpde. by apply Hok.
    + intros x x' Hx Hx'. rewrite !Hpde. by apply Hok.
    + intros v Hv. rewrite Hpte by done. intros Hvp. destruct (so_map _ _ _ _ Hok v Hv Hvp). auto.
    + intros f Hf. rewrite (count_ext _ (pte_at m d)); [by apply Hok|].
      intros v Hv. by apply Hpte, range_pages_elem.
    + intros Hc v e Hv. rewrite Hpte by done. by apply Hok.
  - intros f _ Hf Hd. split_and!; [by apply Hdf|done|]. intros i. apply Hw. set_solver.
Qed.

(** [alloc_page] with a free frame left. *)
Lemma alloc_grow m d :
  space_ok m d → pm_free (pm m) ≠ ∅ →
  ∃ p x, alloc_page m = Ret (Some p, set_pm m x) ∧ p ∈ pm_free (pm m) ∧ grow ∅ d m (set_pm m x) ∧
    pm_free x = pm_free (pm m) ∖ {[ p ]} ∧ ref_of (set_pm m x) p = 0 ∧ p ∈ used (set_pm m x) ∧
    data_frame m d p ∧ count (pte_at m d) p range_pages = 0.
Proof.
  intros Hok Hne. destruct (alloc_page_free m (so_inv _ _ _ _ Hok) Hne)
    as (p & x & Hrun & Hp & Hxi & Hfr & Hfree & Href & Hoth).
  destruct (space_ok_alloc lo hi m d p x 0) as (Hok1 & Hu & Hd & Hc); try done.
  exists p, x. split_and!; try done.
  - split; try done; simpl; [rewrite Hfree; set_solver|]. intros f Hf _ Hfd. split_and!; [done| |done].
    unfold ref_of. simpl. rewrite Hoth; [done|]. unfold used in Hf. set_solver.
  - unfold ref_of. simpl. by rewrite Href.
Qed.

(** The frames that a table for page [v] takes. *)
Definition table_cost m (d v : Z) : nat := if present (pde_at m d (v / 1024)) then 0 else 1.

Lemma table_cost_le m d v : (table_cost m d v ≤ 1)%nat.
Proof. unfold table_cost. destruct (present _); lia. Qed.

(** [get_pte] with a table there, or a free frame to make one. *)
Lemma get_pte_grow m d la :
  space_ok m d → is_u32 la → in_range (vpn la) →
  present (pde_at m d (vpn la / 1024)) = true ∨ pm_free (pm m) ≠ ∅ →
  ∃ m', get_pte d la true m = Ret (Some (frame_of (pde_at m' d (vpn la / 1024)), vpn la mod 1024), m') ∧
    present (pde_at m' d (vpn la / 1024)) = true ∧ grow ∅ d m m' ∧
    (∀ w, in_range w → pte_at m' d w = pte_at m d w) ∧
    (size (pm_free (pm m)) ≤ table_cost m d (vpn la) + size (pm_free (pm m')))%nat.
Proof.
  intros Hok Hla Hv Hc. unfold table_cost. destruct (present (pde_at m d (vpn la / 1024))) eqn:Hpd.
  { exists m. split_and!; [by apply (get_pte_find lo hi)|done|by apply grow_refl|done|lia]. }
  assert (swap_init_ok m = false ∨ present (pde_at m d (vpn la / 1024)) = true ∨ pm_free (pm m) ≠ ∅) as Hc'.
  { destruct Hc as [?|?]; [done|by right; right]. }
  destruct (get_pte_create lo hi m d la Hok Hla Hv Hc') as ([a|] & m' & Hrun & Hr).
  - destruct Hr as (-> & Hp & Hok' & Hnp & Hcr & Hsw & Htlb & Hfr & [Hfree Hsz] & Hpte & Href & Hdf & Hread).
    exists m'. split_and!; try done. split; try done. intros f Hf _ Hfd. split_and!; [by apply Hdf|by apply Href|].
    intros i. apply Hread; [done|]. apply Hfd.
  - destruct Hr as (_ & He & Hn). destruct Hc; congruence.
Qed.

(** [page_insert] of a frame that is not mapped, where nothing is mapped. *)
Lemma insert_fresh m d p la perm :
  space_ok m d → is_u32 la → in_range (vpn la) → 0 ≤ perm < 4096 →
  present (pde_at m d (vpn la / 1024)) = true ∨ pm_free (pm m) ≠ ∅ →
  present (pte_at m d (vpn la)) = false →
  p ∈ used m → data_frame m d p → ref_of m p = 0 → count (pte_at m d) p range_pages = 0 →
  ∃ m', page_insert d p la perm m = Ret (0, m') ∧ grow {[ p ]} d m m' ∧
    data_frame m' d p ∧ ref_of m' p = 1 ∧ (∀ i, read m' (p, i) = read m (p, i)) ∧
    (∀ w, in_range w → pte_at m' d w =
       if decide (w = vpn la) then Z.lor (Z.lor (page2pa p) PTE_P) perm else pte_at m d w) ∧
    (size (pm_free (pm m)) ≤ table_cost m d (vpn la) + size (pm_free (pm m')))%nat.
Proof.
  intros Hok Hla Hv Hperm Hc Habs Hu Hd Hr Hcnt. set (v := vpn la) in *.
  destruct (get_pte_grow m d la Hok Hla Hv Hc) as (m1 & Hget & Hp & Hg & Hpte & Hsz). fold v in Hget, Hp.
  destruct (gr_keep _ _ _ _ Hg p Hu ltac:(set_solver) Hd) as (Hd1 & Hr1 & Hi1).
  pose proof (gr_ok _ _ _ _ Hg) as Hok1. pose proof (gr_used _ _ _ _ _ Hg Hu) as Hu1.
  destruct (page_ref_inc_run lo hi m1 d p Hok1 Hu1) as (x & Hinc & Hok2 & Hfr & Hfree & Hrp & Hro).
  set (m2 := set_pm m1 x) in *. set (e := Z.lor (Z.lor (page2pa p) PTE_P) perm).
  assert (used m2 = used m1) as Hused by (unfold used, m2; simpl; congruence).
  assert (count (pte_at m1 d) p range_pages = 0) as Hc1.
  { rewrite <-Hcnt. apply count_ext. intros w Hw. by apply Hpte, range_pages_elem. }
  destruct (insert_store lo hi m2 d p la perm) as [Hst Hok3]; try done; [by rewrite Hused| |].
  { change (pte_at m2 d) with (pte_at m1 d). case_decide; lia. }
  fold v e in Hst, Hok3. exists (with_pte m2 d v e).
  destruct (with_pte_fields m2 d v e) as (Hpm & Hnp & Hcr & Hsw & _).
  assert (∀ f, data_frame m1 d f → data_frame (with_pte m2 d v e) d f) as Hdf by (intros f Hf; by apply data_with_pte).
  assert (∀ f i, data_frame m1 d f → read (with_pte m2 d v e) (f, i) = read m1 (f, i)) as Hrd.
  { intros f i Hf. by rewrite (data_read_with_pte lo hi m2 d v e f i Hv Hp Hf). }
  split_and!; [| |by apply Hdf| | | |].
  - unfold page_insert. step using (exact Hget). cbv iota. step using (exact Hinc).
    step using (change (load _ _) with (Ret (read m1 (frame_of (pde_at m1 d (v / 1024)), v mod 1024), m2)); reflexivity).
    rewrite <-pte_at_present by done. rewrite Hpte, Habs by done. unfold when. step using reflexivity. exact Hst.
  - eapply grow_trans; [eapply grow_weaken; [|exact Hg]; set_solver|]. split; try done.
    + by rewrite Hpm.
    + rewrite Hpm. unfold m2. simpl. by rewrite Hfree.
    + intros Hcd. unfold with_pte. rewrite decide_False by done. done.
    + intros f Hf Hfp Hfd. split_and!; [by apply Hdf| |by intros i; apply Hrd].
      unfold ref_of. rewrite Hpm. apply Hro. set_solver.
  - unfold ref_of at 1. rewrite Hpm. change (ref_of m2 p = 1). lia.
  - intros i. by rewrite Hrd.
  - intros w Hw. rewrite (pte_with_pte lo hi m2 d v e w) by done. case_decide; [done|by apply Hpte].
  - rewrite Hpm. unfold m2. simpl. rewrite Hfree. done.
Qed.

(** [pgdir_alloc_page] where nothing is mapped: the frame that gets mapped was free. *)
Definition fresh_page (d v perm p : Z) m m' : Prop :=
  p ∈ pm_free (pm m) ∧ grow ∅ d m m' ∧ p ∈ used m' ∧ data_frame m' d p ∧ ref_of m' p = 1 ∧
  (∀ w, in_range w → pte_at m' d w =
     if decide (w = v) then Z.lor (Z.lor (page2pa p) PTE_P) perm else pte_at m d w) ∧
  (size (pm_free (pm m)) ≤ 1 + table_cost m d v + size (pm_free (pm m')))%nat.

(** A free frame is filled and mapped: [c] writes to the frame before it is mapped. *)
Lemma fill_and_map m d la perm p x w :
  space_ok m d → is_u32 la → in_range (vpn la) → 0 ≤ perm < 4096 →
  present (pde_at m d (vpn la / 1024)) = true ∨ (2 ≤ size (pm_free (pm m)))%nat →
  present (pte_at m d (vpn la)) = false →
  p ∈ pm_free (pm m) → grow ∅ d m (set_pm m x) → pm_free x = pm_free (pm m) ∖ {[ p ]} →
  ref_of (set_pm m x) p = 0 → p ∈ used (set_pm m x) → data_frame m d p → count (pte_at m d) p range_pages = 0 →
  (∀ f i, f ≠ p → read (set_mem (set_pm m x) w) (f, i) = read m (f, i)) →
  ∃ m', page_insert d p la perm (set_mem (set_pm m x) w) = Ret (0, m') ∧ fresh_page d (vpn la) perm p m m' ∧
    ∀ i, read m' (p, i) = read (set_mem (set_pm m x) w) (p, i).
Proof.
  intros Hok Hla Hv Hperm Hc Habs Hp Hg1 Hfree Hr Hu Hd Hcnt Hw. set (m1 := set_pm m x) in *.
  destruct (data_words m1 d p w (gr_ok _ _ _ _ Hg1) Hd Hw) as (Hg2 & Hpde & Hpte). set (m2 := set_mem m1 w) in *.
  destruct (insert_fresh m2 d p la perm) as (m' & Hrun & Hg3 & Hd3 & Hr3 & Hi3 & Hpt3 & Hsz); try done.
  - apply Hg2.
  - destruct Hc as [Hc|Hc]; [left; by rewrite Hpde|right]. change (pm_free x ≠ ∅). rewrite Hfree. intros He.
    pose proof (size_remove_one (pm_free (pm m)) p) as Hs. rewrite He, size_empty in Hs. lia.
  - by rewrite Hpte.
  - split; [apply Hd|]. intros y. rewrite Hpde. apply Hd.
  - rewrite <-Hcnt. apply count_ext. intros v Hvr. by apply Hpte, range_pages_elem.
  - exists m'. split; [done|]. split; [|done]. split_and!; try done.
    + apply (grow_fresh p); [done|]. eapply grow_trans; [eapply grow_weaken; [|exact Hg1]; set_solver|].
      by eapply grow_trans.
    + by eapply gr_used.
    + intros v Hvr. rewrite Hpt3 by done. case_decide; [done|by rewrite Hpte].
    + change (pm m2) with x in Hsz. rewrite Hfree in Hsz.
      assert (table_cost m2 d (vpn la) = table_cost m d (vpn la)) as Htc by (unfold table_cost; by rewrite Hpde).
      rewrite Htc in Hsz. pose proof (size_remove_one (pm_free (pm m)) p). lia.
Qed.

Lemma pgdir_alloc_fresh m d la perm :
  space_ok m d → is_u32 la → in_range (vpn la) → 0 ≤ perm < 4096 →
  (2 ≤ size (pm_free (pm m)))%nat → present (pte_at m d (vpn la)) = false →
  ∃ p m', pgdir_alloc_page d la perm m = Ret (Some p, m') ∧ fresh_page d (vpn la) perm p m m'.
Proof.
  intros Hok Hla Hv Hperm Hsz Habs.
  destruct (alloc_grow m d Hok) as (p & x & Hrun & Hp & Hg & Hfree & Hr & Hu & Hd & Hc).
  { intros He. rewrite He, size_empty in Hsz. lia. }
  destruct (fill_and_map m d la perm p x (mem m)) as (m' & Hins & Hf & _); try done; [by right|].
  assert (set_mem (set_pm m x) (mem m) = set_pm m x) as He by done. rewrite He in Hins.
  exists p, m'. split; [|done]. unfold pgdir_alloc_page. step using (exact Hrun). cbv iota. by step using (exact Hins).
Qed.

(** * A second address space *)

(** Frame [f] holds directory [s], one of its tables, or a page mapped in it. *)
Definition owns m (s f : Z) : Prop :=
  f = s ∨ (∃ x, lo ≤ x < hi ∧ present (pde_at m s x) = true ∧ frame_of (pde_at m s x) = f) ∨
  (∃ v, in_range v ∧ maps (pte_at m s v) f).

(** Nothing of [s] is the directory [d] or a table of it. *)
Definition apart m (s d : Z) : Prop := ∀ f, owns m s f → f ∈ used m ∧ data_frame m d f.

Lemma apart_ne m s d : apart m s d → s ≠ d.
Proof. intros H ->. destruct (H d) as [_ [? _]]; [by left|done]. Qed.

Lemma apart_keeps m m' s d f i : apart m s d → grow ∅ d m m' → owns m s f → read m' (f, i) = read m (f, i).
Proof. intros Ha Hg Ho. destruct (Ha f Ho) as [Hu Hd]. by apply (gr_keep _ _ _ _ Hg f Hu ltac:(set_solver) Hd). Qed.

Lemma apart_pde m m' s d x : apart m s d → grow ∅ d m m' → pde_at m' s x = pde_at m s x.
Proof. intros Ha Hg. apply (apart_keeps m m' s d); [done|done|by left]. Qed.

Lemma apart_pte m m' s d v : apart m s d → grow ∅ d m m' → in_range v → pte_at m' s v = pte_at m s v.
Proof.
  intros Ha Hg Hv. unfold pte_at. rewrite (apart_pde m m' s d) by done.
  destruct (present (pde_at m s (v / 1024))) eqn:Hp; [|done]. apply (apart_keeps m m' s d); [done|done|].
  right. left. exists (v / 1024). split; [by apply in_range_dir|done].
Qed.

Lemma apart_owns m m' s d f : apart m s d → grow ∅ d m m' → owns m' s f ↔ owns m s f.
Proof.
  intros Ha Hg. unfold owns. apply or_iff_compat_l. split; (intros [(x & Hx & H)|(v & Hv & H)]; [left; exists x|right; exists v]);
    (split; [done|]); first [rewrite (apart_pde m m' s d) in * by done|rewrite (apart_pte m m' s d) in * by done]; done.
Qed.

(** What is done to [d] leaves [s] well formed. *)
Lemma apart_grow m m' s d : space_ok m s → apart m s d → grow ∅ d m m' → space_ok m' s ∧ apart m' s d.
Proof.
  intros Hok Ha Hg. pose proof (apart_ne _ _ _ Ha) as Hne.
  assert (∀ f, owns m s f → f ∈ used m' ∧ data_frame m' d f ∧ ref_of m' f = ref_of m f) as Hkeep.
  { intros f Hf. destruct (Ha f Hf) as [Hu Hd]. destruct (gr_keep _ _ _ _ Hg f Hu ltac:(set_solver) Hd) as (? & ? & _).
    split_and!; [by eapply gr_used|done|done]. }
  assert (∀ f, (∀ v, in_range v → ¬ maps (pte_at m s v) f) ∨ owns m s f) as Hdec.
  { intros f. destruct (decide (Exists (λ v, maps (pte_at m s v) f) range_pages)) as [He|He].
    - right. apply Exists_exists in He as (v & Hv & Hm). right. right. exists v. split; [by apply range_pages_elem|done].
    - left. intros v Hv Hm. apply He, Exists_exists. exists v. split; [by apply range_pages_elem|done]. }
  split.
  - split.
    + apply (gr_ok _ _ _ _ Hg).
    + rewrite (gr_frames _ _ _ _ Hg), (gr_npage _ _ _ _ Hg). apply Hok.
    + destruct (Hkeep s) as (Hu & _); [by left|]. unfold used in Hu. set_solver.
    + intros x Hx. rewrite (apart_pde m m' s d) by done. intros Hp. split; [|by apply Hok].
      apply Hkeep. right. left. eauto.
    + intros x x' Hx Hx'. rewrite !(apart_pde m m' s d) by done. by apply Hok.
    + intros v Hv. rewrite (apart_pte m m' s d) by done. intros Hp. split.
      * apply Hkeep. right. right. exists v. done.
      * destruct (so_map _ _ _ _ Hok v Hv Hp) as [_ [H1 H2]]. split; [done|].
        intros x Hx. rewrite (apart_pde m m' s d) by done. by apply H2.
    + intros f Hf. rewrite (count_ext _ (pte_at m s)).
      2:{ intros v Hv. apply (apart_pte m m' s d); [done|done|by apply range_pages_elem]. }
      destruct (Hdec f) as [Hno|Ho].
      * rewrite count_zero by (intros v Hv; apply Hno; by apply range_pages_elem).
        pose proof (so_ref _ _ _ _ (gr_ok _ _ _ _ Hg) f Hf). pose proof (count_pos (pte_at m' d) f range_pages). lia.
      * destruct (Hkeep f Ho) as (_ & _ & ->). apply Hok. by apply Ha.
    + intros Hc v e Hv. rewrite (gr_cr3 _ _ _ _ Hg) in Hc. rewrite (gr_tlb _ _ _ _ Hg) by congruence.
      rewrite (apart_pte m m' s d) by done. by apply Hok.
  - intros f Hf. apply (apart_owns m m' s d) in Hf; [|done|done]. by destruct (Hkeep f Hf) as (? & ? & _).
Qed.

(** * Copying pages *)

(** Page [w] of [to] has got a frame of its own, with the words and permissions of page [w] of [from]. *)
Definition copied_page (from to w : Z) m m' : Prop :=
  ∃ p, pte_at m' to w = Z.lor (Z.lor (page2pa p) PTE_P) (Z.land (pte_at m from w) PTE_USER) ∧
    p ∈ pm_free (pm m) ∧ ref_of m' p = 1 ∧
    ∀ i, 0 ≤ i < 1024 → read m' (p, i) = read m (frame_of (pte_at m from w), i).

(** The pages of [P] that are mapped in [from] were copied to [to]; no other page of it changed. *)
Definition cloned (P : Z → Prop) (from to : Z) m m' : Prop :=
  grow ∅ to m m' ∧
  (∀ w, in_range w → P w → present (pte_at m from w) = true → copied_page from to w m m') ∧
  (∀ w, in_range w → ¬ (P w ∧ present (pte_at m from w) = true) → pte_at m' to w = pte_at m to w).

Lemma user_perm x : 0 ≤ Z.land x PTE_USER < 4096.
Proof.
  unfold PTE_USER. change 7 with (Z.ones 3). rewrite Z.land_ones by lia. pose proof (Z.mod_pos_bound x (2 ^ 3)). lia.
Qed.

Lemma cloned_none from to m (P : Z → Prop) :
  space_ok m to → (∀ w, in_range w → P w → present (pte_at m from w) = false) → cloned P from to m m.
Proof.
  intros Hok Hno. split_and!; [by apply grow_refl| |done]. intros w Hw HP Hp. rewrite Hno in Hp; done.
Qed.

(** Copies of disjoint sets of pages, one after the other. *)
Lemma cloned_join P Q from to m m1 m2 :
  apart m from to → cloned P from to m m1 → cloned Q from to m1 m2 →
  (∀ w, P w → Q w → False) → cloned (λ w, P w ∨ Q w) from to m m2.
Proof.
  intros Ha (Hg1 & H1 & H1') (Hg2 & H2 & H2') Hdis. split_and!.
  - by eapply grow_trans.
  - intros w Hw HPQ Hp. destruct HPQ as [HP|HQ].
    + destruct (H1 w Hw HP Hp) as (p & Hpt & Hfree & Hr & Hi). exists p.
      assert (pte_at m2 to w = pte_at m1 to w) as He.
      { apply H2'; [done|]. intros [HQ _]. by apply (Hdis w). }
      assert (maps (pte_at m1 to w) p) as Hmp.
      { rewrite Hpt. split; [apply present_entry|apply frame_of_entry]; [done|]. apply user_perm. }
      destruct Hmp as [Hm1 Hm2]. destruct (so_map _ _ _ _ (gr_ok _ _ _ _ Hg1) w Hw Hm1) as [Hu Hd]. rewrite Hm2 in Hu, Hd.
      destruct (gr_keep _ _ _ _ Hg2 p Hu ltac:(set_solver) Hd) as (_ & Hr2 & Hi2).
      split_and!; [by rewrite He|done|by rewrite Hr2|]. intros i Hi'. rewrite Hi2. by apply Hi.
    + assert (pte_at m1 from w = pte_at m from w) as He by by apply (apart_pte m m1 from to).
      destruct (H2 w Hw HQ) as (p & Hpt & Hfree & Hr & Hi); [by rewrite He|]. rewrite He in Hpt, Hi. exists p.
      split_and!; [done|by apply (gr_free _ _ _ _ Hg1)|done|]. intros i Hi'. rewrite Hi by done.
      apply (apart_keeps m m1 from to); [done|done|]. right. right. by exists w.
  - intros w Hw Hno. rewrite H2', H1'; [done|done|intros [? ?]; apply Hno; auto|done|].
    intros [HQ Hp]. apply Hno. rewrite (apart_pte m m1 from to) in Hp by done. auto.
Qed.

Lemma cloned_ext P Q from to m m' : (∀ w, in_range w → P w ↔ Q w) → cloned P from to m m' → cloned Q from to m m'.
Proof.
  intros HPQ (Hg & H1 & H2). split_and!; [done| |].
  - intros w Hw HQ. apply H1; [done|by apply HPQ].
  - intros w Hw Hno. apply H2; [done|]. intros [HP Hp]. apply Hno. by rewrite <-HPQ.
Qed.

Lemma KADDR_page m d p : space_ok m d → p ∈ used m → KADDR (page2pa p) m = Ret (p, m).
Proof.
  intros Hok Hp. unfold KADDR, mbind, M_bind, gets. rewrite PPN_page2pa. by rewrite (used_npage _ _ _ _ _ Hok Hp).
Qed.

(** The memory after [memcpy] of a frame. *)
Definition frame_copy m (dst src : Z) : gmap (Z * Z) Z :=
  list_to_map ((λ i, ((dst, i), read m (src, i))) <$> seqZ 0 1024) ∪ mem m.

Lemma list_to_map_words (g : Z → Z) (dst f i : Z) (l : list Z) : NoDup l →
  (list_to_map ((λ j, ((dst, j), g j)) <$> l) : gmap (Z * Z) Z) !! (f, i) =
    if decide (f = dst ∧ i ∈ l) then Some (g i) else None.
Proof.
  intros Hnd. induction Hnd as [|j l Hj Hnd IH]; csimpl.
  - rewrite lookup_empty. case_decide; set_solver.
  - rewrite lookup_insert, IH. destruct (decide ((dst, j) = (f, i))) as [[= -> ->]|Hne].
    + by rewrite decide_True by set_solver.
    + rewrite (decide_ext (f = dst ∧ i ∈ j :: l) (f = dst ∧ i ∈ l)); [done|]. rewrite elem_of_cons.
      split; [intros [-> [->|?]]; done|tauto].
Qed.

Lemma frame_copy_read m m0 (dst src f i : Z) : mem m0 = mem m →
  read (set_mem m0 (frame_copy m dst src)) (f, i) =
    if decide (f = dst ∧ 0 ≤ i < 1024) then read m (src, i) else read m (f, i).
Proof.
  intros Hm0. unfold read at 1. change (mem (set_mem m0 (frame_copy m dst src))) with (frame_copy m dst src).
  unfold frame_copy. rewrite lookup_union.
  rewrite (list_to_map_words (λ j, read m (src, j)) dst f i) by apply NoDup_seqZ.
  rewrite (decide_ext _ (f = dst ∧ 0 ≤ i < 1024)) by (rewrite elem_of_seqZ; lia).
  unfold read. case_decide; [by rewrite union_Some_l|by destruct (mem m !! (f, i))].
Qed.

(** One round of [copy_range], at a page that is mapped in [from]. *)
Lemma copy_page_run m from to start (k : M machine Z) :
  space_ok m from → space_ok m to → apart m from to → is_u32 start → in_range (vpn start) →
  present (pte_at m from (vpn start)) = true → present (pte_at m to (vpn start)) = false →
  (2 ≤ size (pm_free (pm m)))%nat →
  ∃ m', (nptep ← get_pte to start true;
     match nptep with
     | None => mret (- E_NO_MEM)
     | Some _ =>
         pte' ← load (frame_of (pde_at m from (vpn start / 1024)), vpn start mod 1024);
         let perm := Z.land pte' PTE_USER in
         page ← pte2page pte';
         npage_ ← alloc_page;
         match npage_ with
         | None => fail EPanic
         | Some np =>
             src ← KADDR (page2pa page);
             dst ← KADDR (page2pa np);
             copy_frame dst src ;;
             ret ← page_insert to np start perm;
             assert (ret =? 0) ;;
             k
         end
     end) m = k m' ∧ cloned (λ w, w = vpn start) from to m m' ∧
    (size (pm_free (pm m)) ≤ 2 + size (pm_free (pm m')))%nat.
Proof.
  intros Hokf Hok Ha Hla Hv Hp Habs Hsz. set (v := vpn start) in *. set (f := frame_of (pte_at m from v)).
  destruct (get_pte_grow m to start Hok Hla Hv) as (m1 & Hget & Hp1 & Hg1 & Hpt1 & Hsz1).
  { right. intros He. rewrite He, size_empty in Hsz. lia. }
  fold v in Hget, Hp1. destruct (apart_grow m m1 from to Hokf Ha Hg1) as [Hokf1 Ha1].
  assert (owns m from f) as Hof by (right; right; by exists v).
  assert (owns m1 from f) as Hof1 by by apply (apart_owns m m1 from to).
  assert (∀ i, read m1 (f, i) = read m (f, i)) as Hrf by (intros i; by apply (apart_keeps m m1 from to)).
  pose proof (apart_pte m m1 from to v Ha Hg1 Hv) as Hptf. pose proof (gr_ok _ _ _ _ Hg1) as Hok1.
  destruct (alloc_grow m1 to Hok1) as (p & x & Hal & Hpf & Hg2 & Hfree & Hr & Hu & Hd & Hc).
  { intros He. rewrite He, size_empty in Hsz1. pose proof (table_cost_le m to v). fold v in Hsz1. lia. }
  set (perm := Z.land (pte_at m from v) PTE_USER).
  destruct (fill_and_map m1 to start perm p x (frame_copy (set_pm m1 x) p f)) as (m' & Hins & Hfr & Hrd);
    try done; [apply user_perm|by left|fold v; by rewrite Hpt1| |].
  { intros g i Hgp. rewrite frame_copy_read by done. by rewrite decide_False by tauto. }
  destruct Hfr as (_ & Hg3 & Hu3 & Hd3 & Hr3 & Hpt3 & Hsz3).
  assert (p ∈ pm_free (pm m)) as Hpf0 by by apply (gr_free _ _ _ _ Hg1).
  exists m'. split_and!.
  - step using (exact Hget). cbv iota.
    step using (change (load _ _) with (Ret (read m1 (frame_of (pde_at m from (v / 1024)), v mod 1024), m1)); reflexivity).
    assert (read m1 (frame_of (pde_at m from (v / 1024)), v mod 1024) = pte_at m from v) as ->.
    { rewrite <-Hptf, <-(apart_pde m m1 from to) by done. rewrite pte_at_present; [done|].
      apply present_pde_of_pte. by rewrite Hptf. }
    cbv zeta. step using (apply (pte2page_run lo hi m1 from); [done|done|by apply Ha1]). fold f perm.
    step using (exact Hal). cbv iota.
    step using (apply (KADDR_page _ to); [apply Hg2|eapply gr_used; [exact Hg2|by apply Ha1]]).
    step using (apply (KADDR_page _ to); [apply Hg2|done]).
    assert (copy_frame p f (set_pm m1 x) = Ret (tt, set_mem (set_pm m1 x) (frame_copy (set_pm m1 x) p f))) as Hcp by reflexivity.
    step using (exact Hcp).
    step using (exact Hins). by step using reflexivity.
  - split_and!; [by eapply grow_trans| |].
    + intros w Hw -> _. exists p. split_and!; [|done|done|].
      * rewrite Hpt3 by done. by rewrite decide_True.
      * intros i Hi. rewrite Hrd, frame_copy_read, decide_True by done. apply Hrf.
    + intros w Hw Hno. rewrite Hpt3 by done. rewrite decide_False; [by apply Hpt1|]. intros ->. by apply Hno.
  - unfold table_cost in Hsz3. fold v in Hsz3, Hsz1. rewrite Hp1 in Hsz3. pose proof (table_cost_le m to v). lia.
Qed.

(** The number of pages of [l] that are mapped in [d]. *)
Definition mapped_pages m (d : Z) (l : list Z) : nat := length (filter (λ w, present (pte_at m d w) = true) l).

Lemma mapped_pages_cons m d v l :
  mapped_pages m d (v :: l) = ((if present (pte_at m d v) then 1 else 0) + mapped_pages m d l)%nat.
Proof. unfold mapped_pages. rewrite filter_cons. destruct (present (pte_at m d v)); by simpl. Qed.

Lemma mapped_pages_app m d l1 l2 : mapped_pages m d (l1 ++ l2) = (mapped_pages m d l1 + mapped_pages m d l2)%nat.
Proof. unfold mapped_pages. by rewrite filter_app, length_app. Qed.

Lemma mapped_pages_ext m m' d l : (∀ w, w ∈ l → pte_at m' d w = pte_at m d w) → mapped_pages m' d l = mapped_pages m d l.
Proof.
  induction l as [|v l IH]; intros H; [done|]. rewrite !mapped_pages_cons, (H v), IH by set_solver. done.
Qed.

Definition pages_of (s e : Z) : list Z := seqZ s (e - s).
Lemma pages_of_split s k e : s ≤ k ≤ e → pages_of s e = pages_of s k ++ pages_of k e.
Proof.
  intros. unfold pages_of. replace (e - s) with ((k - s) + (e - k)) by lia. rewrite seqZ_app by lia. by replace (s + (k - s)) with k by lia.
Qed.

Lemma mapped_pages_grow m m' from to l :
  apart m from to → grow ∅ to m m' → (∀ w, w ∈ l → in_range w) → mapped_pages m' from l = mapped_pages m from l.
Proof. intros Ha Hg Hl. apply mapped_pages_ext. intros w Hw. apply (apart_pte m m' from to); auto. Qed.

Lemma copy_loop_run fuel m from to s e :
  space_ok m from → space_ok m to → apart m from to → 0 ≤ s < e → 4096 * e ≤ USERTOP → e - s ≤ Z.of_nat fuel →
  (∀ w, s ≤ w < e → in_range w ∧ present (pte_at m to w) = false) →
  (2 * mapped_pages m from (pages_of s e) ≤ size (pm_free (pm m)))%nat →
  ∃ m', copy_loop fuel to from (4096 * s) (4096 * e) m = Ret (0, m') ∧ cloned (λ w, s ≤ w < e) from to m m' ∧
    (size (pm_free (pm m)) ≤ 2 * mapped_pages m from (pages_of s e) + size (pm_free (pm m')))%nat.
Proof.
  revert m s. induction fuel as [|fuel IH]; intros m s Hokf Hok Ha Hs He Hf Hr Hsz; [lia|].
  unfold USERTOP in He. assert (is_u32 (4096 * s)) as Hu by lia. assert (in_range s) as Hsr by (apply Hr; lia).
  assert (∀ k m1, s < k → 4096 * k < 2 ^ 32 → cloned (λ w, s ≤ w < Z.min k e) from to m m1 →
    (size (pm_free (pm m)) ≤ 2 * mapped_pages m from (pages_of s (Z.min k e)) + size (pm_free (pm m1)))%nat →
    ∃ m', (if negb (4096 * k =? 0) && (4096 * k <? 4096 * e)
           then copy_loop fuel to from (4096 * k) (4096 * e) else mret 0) m1 = Ret (0, m') ∧
      cloned (λ w, s ≤ w < e) from to m m' ∧
      (size (pm_free (pm m)) ≤ 2 * mapped_pages m from (pages_of s e) + size (pm_free (pm m')))%nat) as Hnext.
  { intros k m1 Hk Hku Hm1 Hsz1. rewrite (proj2 (Z.eqb_neq _ 0)) by lia. cbn [negb andb].
    destruct (Z.ltb_spec (4096 * k) (4096 * e)).
    - rewrite Z.min_l in Hm1, Hsz1 by lia. pose proof Hm1 as (Hg & _ & Hoth).
      destruct (apart_grow m m1 from to Hokf Ha Hg) as [Hokf1 Ha1].
      rewrite (pages_of_split s k e), mapped_pages_app in * by lia.
      assert (mapped_pages m1 from (pages_of k e) = mapped_pages m from (pages_of k e)) as Hmp.
      { apply (mapped_pages_grow m m1 from to); [done|done|]. intros w Hw. unfold pages_of in Hw.
        apply elem_of_seqZ in Hw. apply Hr. lia. }
      destruct (IH m1 k) as (m' & Hrun & Hm' & Hsz'); [done|apply Hg|done|lia|done|lia| |lia|].
      + intros w Hw. destruct (Hr w) as [Hwr Hwp]; [lia|]. split; [done|]. rewrite Hoth; [done|done|]. lia.
      + exists m'. split_and!; [done| |lia]. eapply cloned_ext; [|eapply cloned_join; [exact Ha|exact Hm1|exact Hm'|]];
          simpl; intros w; lia.
    - rewrite Z.min_r in Hm1, Hsz1 by lia. by exists m1. }
  cbn [copy_loop]. destruct (present (pde_at m from (s / 1024))) eqn:Hp.
  - step using (apply (get_pte_find lo hi); rewrite ?vpn_page; [done|done|apply Hr; lia|done]). rewrite vpn_page. cbv iota.
    step using (change (load _ _) with (Ret (read m (frame_of (pde_at m from (s / 1024)), s mod 1024), m)); reflexivity).
    rewrite <-pte_at_present by done.
    assert (u32 (4096 * s + PGSIZE) = 4096 * (s + 1)) as Hstep by (unfold PGSIZE; rewrite u32_small; lia).
    assert (pages_of s (Z.min (s + 1) e) = [s]) as Hone.
    { rewrite Z.min_l by lia. unfold pages_of. by replace (s + 1 - s) with 1 by lia. }
    destruct (present (pte_at m from s)) eqn:Hpte.
    + assert (2 ≤ size (pm_free (pm m)))%nat as Hsz2.
      { rewrite (pages_of_split s (s + 1) e), mapped_pages_app in Hsz by lia. rewrite Z.min_l in Hone by lia.
        rewrite Hone, mapped_pages_cons, Hpte in Hsz. lia. }
      set (next := u32 (4096 * s + PGSIZE)) in *.
      destruct (copy_page_run m from to (4096 * s)
        (if negb (next =? 0) && (next <? 4096 * e) then copy_loop fuel to from next (4096 * e) else mret 0))
        as (m1 & Hrun & Hcl & Hsz1); rewrite ?vpn_page; try done; [apply Hr; lia|].
      rewrite vpn_page in Hrun, Hcl.
      enough (∃ m', (if negb (next =? 0) && (next <? 4096 * e) then copy_loop fuel to from next (4096 * e) else mret 0) m1 = Ret (0, m') ∧
        cloned (λ w, s ≤ w < e) from to m m' ∧
        (size (pm_free (pm m)) ≤ 2 * mapped_pages m from (pages_of s e) + size (pm_free (pm m')))%nat) as (m' & H1 & H2).
      { exists m'. split; [|done]. etransitivity; [exact Hrun|exact H1]. }
      rewrite Hstep. apply Hnext; [lia|lia| |].
      * rewrite Z.min_l by lia. eapply cloned_ext; [|exact Hcl]. simpl. lia.
      * rewrite Hone, mapped_pages_cons, Hpte. simpl. lia.
    + cbv zeta. rewrite Hstep. apply Hnext; [lia|lia| |].
      * apply cloned_none; [done|]. intros w _ Hw. replace w with s by lia. done.
      * lia.
  - step using (apply get_pte_absent; rewrite ?vpn_page; done). cbv iota.
    set (k := (s / 1024 + 1) * 1024). pose proof (Z.div_mod s 1024 ltac:(lia)) as Hdm.
    pose proof (Z.mod_pos_bound s 1024 ltac:(lia)).
    replace (ROUNDDOWN (u32 (4096 * s + PTSIZE)) PTSIZE) with (4096 * k) by (symmetry; apply next_table; unfold USERTOP; lia).
    apply Hnext; [lia|lia| |lia]. apply cloned_none; [done|]. intros w _ Hw. rewrite pte_at_absent; [done|].
    replace (w / 1024) with (s / 1024); [done|]. unfold k in Hw. apply Z.div_unique_pos with (w - 1024 * (s / 1024)); lia.
Qed.

(** Addresses of the pages [s .. e - 1] of user space. *)
Lemma user_pages start end_ :
  start mod PGSIZE = 0 → end_ mod PGSIZE = 0 → USER_ACCESS start end_ = true →
  start = 4096 * vpn start ∧ end_ = 4096 * vpn end_ ∧ 0 ≤ vpn start < vpn end_ ∧ 4096 * vpn end_ ≤ USERTOP ∧
  vpn end_ - vpn start ≤ Z.of_nat (range_fuel start end_).
Proof.
  intros Hs He Hua. unfold USER_ACCESS, USERBASE in Hua. apply andb_prop in Hua as [Hua He2].
  apply andb_prop in Hua as [Hs1 Hse]. z_bool.
  assert (start = 4096 * vpn start) as Hs4.
  { unfold vpn. pose proof (Z.div_mod start 4096). unfold PGSIZE in Hs. lia. }
  assert (end_ = 4096 * vpn end_) as He4.
  { unfold vpn. pose proof (Z.div_mod end_ 4096). unfold PGSIZE in He. lia. }
  split_and!; [done|done|lia|lia|lia|]. unfold range_fuel, PGSIZE.
  replace (end_ - start) with ((vpn end_ - vpn start) * 4096) by lia. rewrite Z.div_mul by lia. lia.
Qed.

(** [copy_range] when the memory suffices. *)
Lemma copy_range_run m from to start end_ :
  space_ok m from → space_ok m to → apart m from to →
  start mod PGSIZE = 0 → end_ mod PGSIZE = 0 → USER_ACCESS start end_ = true →
  (∀ w, vpn start ≤ w < vpn end_ → in_range w ∧ present (pte_at m to w) = false) →
  (2 * mapped_pages m from (pages_of (vpn start) (vpn end_)) ≤ size (pm_free (pm m)))%nat →
  ∃ m', copy_range to from start end_ m = Ret (0, m') ∧ cloned (λ w, vpn start ≤ w < vpn end_) from to m m' ∧
    (size (pm_free (pm m)) ≤ 2 * mapped_pages m from (pages_of (vpn start) (vpn end_)) + size (pm_free (pm m')))%nat.
Proof.
  intros Hokf Hok Ha Hs He Hua Hr Hsz. destruct (user_pages start end_ Hs He Hua) as (Hs4 & He4 & Hlt & Htop & Hfuel).
  unfold copy_range. step using (unfold assert; rewrite Hs, He; reflexivity).
  step using (unfold assert; rewrite Hua; reflexivity). set (fuel := range_fuel start end_) in *.
  destruct (copy_loop_run fuel m from to (vpn start) (vpn end_)) as (m' & Hrun & Hm'); try done.
  rewrite <-Hs4, <-He4 in Hrun. by exists m'.
Qed.

(** * Copying the areas of a process *)

(** Areas of user space, as [mm_map] makes them, whose pages belong to the directory. *)
Definition user_area (v : vma_struct) : Prop :=
  vm_start v mod PGSIZE = 0 ∧ vm_end v mod PGSIZE = 0 ∧ USER_ACCESS (vm_start v) (vm_end v) = true ∧
  ∀ w, vpn (vm_start v) ≤ w < vpn (vm_end v) → in_range w.

Definition area_pages (v : vma_struct) : list Z := pages_of (vpn (vm_start v)) (vpn (vm_end v)).
Definition in_areas (vs : list vma_struct) (w : Z) : Prop := Exists (λ v, vpn (vm_start v) ≤ w < vpn (vm_end v)) vs.
#[global] Instance in_areas_dec vs w : Decision (in_areas vs w).
Proof. unfold in_areas. apply _. Defined.
(** The frames that copies of all areas need at most. *)
Definition pages_mapped m (d : Z) (vs : list vma_struct) : nat := mapped_pages m d (mjoin (area_pages <$> vs)).

Lemma pages_mapped_cons m d v vs :
  pages_mapped m d (v :: vs) = (mapped_pages m d (area_pages v) + pages_mapped m d vs)%nat.
Proof. unfold pages_mapped. by rewrite fmap_cons, <-mapped_pages_app. Qed.

Lemma elem_area_pages v w : w ∈ area_pages v ↔ vpn (vm_start v) ≤ w < vpn (vm_end v).
Proof. unfold area_pages, pages_of. rewrite elem_of_seqZ. lia. Qed.

(** A copy of an area is stamped afresh. *)
Definition unstamped (v : vma_struct) : vma_struct := mkVma (vm_start v) (vm_end v) (vm_flags v) 0.

Lemma ordered_snoc vs v : ordered (vs ++ [v]) → ordered vs ∧ vm_start v < vm_end v ∧ ∀ u, u ∈ vs → vm_end u ≤ vm_start v.
Proof.
  intros (Ho & (Hv & _) & Hlt)%ordered_app. split_and!; [done|done|]. intros u Hu. apply Hlt; [done|set_solver].
Qed.

Section kmalloc.
Context (kmalloc : gmap Z vma_struct → option Z).
Hypothesis kmalloc_fresh : ∀ h p, kmalloc h = Some p → h !! p = None.
Hypothesis kmalloc_some : ∀ h, is_Some (kmalloc h).

Lemma dup_areas_run (fm : mm_struct) from to l vs m t :
  links fm l vs → ordered (reverse vs) → Forall user_area vs →
  space_ok m from → space_ok m to → apart m from to → mm_ok t →
  (∀ u v, u ∈ areas t → v ∈ vs → vm_end v ≤ vm_start u) →
  (∀ w, in_areas vs w → present (pte_at m to w) = false) →
  (2 * pages_mapped m from vs ≤ size (pm_free (pm m)))%nat →
  ∃ m' t', dup_loop kmalloc fm to from l (m, t) = Ret (0, (m', t')) ∧ cloned (in_areas vs) from to m m' ∧
    mm_ok t' ∧ areas t' ≡ₚ (unstamped <$> vs) ++ areas t ∧ mm_count t' = mm_count t.
Proof using kmalloc_fresh kmalloc_some.
  intros Hl. revert m t. induction Hl as [|p v l vs Hp Hl IH]; intros m t Ho Hua Hokf Hok Ha Ht Hlow Habs Hsz.
  { exists m, t. split_and!; try done. apply cloned_none; [done|]. intros w _ Hw. by inversion Hw. }
  rewrite reverse_cons in Ho. apply ordered_snoc in Ho as (Ho & Hv & Hbelow).
  apply Forall_cons in Hua as [(Hs & He & Hacc & Hin) Hua].
  destruct (kmalloc_some (vmas t)) as [q Hq].
  destruct (vma_create_ok kmalloc kmalloc_fresh t q (vm_start v) (vm_end v) (vm_flags v) Ht Hq) as (Hcr & Ht1 & Ha1 & Hnq & Hvq).
  fold (unstamped v) in Hcr, Ht1, Ha1, Hnq, Hvq. set (t1 := set_vmas t _) in *.
  pose proof (insert_vma_struct_run t1 q (unstamped v) Ht1 Hvq Hnq Hv) as Hins.
  rewrite decide_True in Hins.
  2:{ apply Forall_forall. intros u Hu. rewrite Ha1 in Hu. right. apply (Hlow u v); [done|set_solver]. }
  destruct Hins as (t2 & Hins & Ht2 & Hperm & _ & _ & _ & Hc2). rewrite Ha1 in Hperm.
  rewrite pages_mapped_cons in Hsz.
  destruct (copy_range_run m from to (vm_start v) (vm_end v)) as (m1 & Hcopy & Hcl & Hsz1); try done.
  { intros w Hw. split; [by apply Hin|]. apply Habs. by left. }
  { fold (area_pages v). lia. }
  fold (area_pages v) in Hsz1. pose proof Hcl as (Hg & _ & Hoth). destruct (apart_grow m m1 from to Hokf Ha Hg) as [Hokf1 Ha1'].
  assert (∀ w, in_areas vs w → in_range w ∧ ¬ (vpn (vm_start v) ≤ w < vpn (vm_end v))) as Hdis.
  { intros w Hw. apply Exists_exists in Hw as (u & Hu & Hwu). rewrite Forall_forall in Hua. split; [by apply (Hua u Hu)|].
    pose proof (Hbelow u) as Hb. rewrite elem_of_reverse in Hb. specialize (Hb Hu).
    assert (vpn (vm_end u) ≤ vpn (vm_start v)) by (apply Z.div_le_mono; lia). lia. }
  assert (pages_mapped m1 from vs = pages_mapped m from vs) as Hmp.
  { apply (mapped_pages_grow m m1 from to); [done|done|]. intros w Hw. apply list_elem_of_join in Hw as (x & Hwx & Hx).
    apply list_elem_of_fmap in Hx as (u & -> & Hu). apply elem_area_pages in Hwx.
    rewrite Forall_forall in Hua. by apply (Hua u Hu). }
  destruct (IH m1 t2) as (m' & t' & Hrun & Hcl' & Ht' & Hperm' & Hcnt); try done.
  - apply Hg.
  - intros u w Hu Hw. rewrite Hperm in Hu. apply elem_of_cons in Hu as [->|Hu]; [|apply Hlow; [done|set_solver]].
    apply Hbelow. by rewrite elem_of_reverse.
  - intros w Hw. destruct (Hdis w Hw) as [Hwr Hwv]. rewrite Hoth; [|done|tauto]. apply Habs. by right.
  - rewrite Hmp. lia.
  - exists m', t'. split_and!; [| |done| |].
    + cbn [dup_loop]. step using (unfold deref; rewrite Hp; reflexivity).
      step using (unfold lift_snd; cbn [fst snd]; rewrite Hcr; reflexivity). cbv iota.
      step using (unfold lift_snd; cbn [fst snd]; rewrite Hins; reflexivity).
      step using (unfold lift_fst; cbn [fst snd]; rewrite Hcopy; reflexivity). exact Hrun.
    + eapply cloned_ext; [|eapply cloned_join; [exact Ha|exact Hcl|exact Hcl'|]]; cbv beta.
      * intros w _. unfold in_areas. by rewrite Exists_cons.
      * intros w Hw1 Hw2. by apply (Hdis w).
    + rewrite Hperm', Hperm. simpl. by rewrite Permutation_middle.
    + by rewrite Hcnt, Hc2.
Qed.
End kmalloc.

(** * Address spaces of processes *)

Definition VPT : Z := 0xFAC00000.
Definition CLONE_VM : Z := 0x100.

(** A [struct mm_struct] with its directory, and whether [mm_sem] is taken. *)
Record aspace := mkAspace { a_mm : mm_struct; a_pgdir : Z; a_locked : bool }.

(** The pages behind [pra_list_head], and the address spaces whose [sm_priv] points to it; that of the others is
    NULL.  Swap.v has the links of this list and what the policies do with them. *)
Record swap_queue := mkQueue { queued : list Z; privs : gset Z }.

(** The machine, the address spaces by pointer, the fields [mm] and [cr3] of the processes, and the queue. *)
Record astate := mkAstate {
  amc : machine;
  mms : gmap Z aspace;
  mm_of : gmap Z Z;
  cr3_of : gmap Z Z;
  swapq : swap_queue }.

Definition set_amc (s : astate) m : astate := mkAstate m (mms s) (mm_of s) (cr3_of s) (swapq s).
Definition set_mms (s : astate) (x : gmap Z aspace) : astate := mkAstate (amc s) x (mm_of s) (cr3_of s) (swapq s).
Definition set_swapq (s : astate) (x : swap_queue) : astate := mkAstate (amc s) (mms s) (mm_of s) (cr3_of s) x.
Definition in_amc {A} (c : M machine A) : M astate A := λ s,
  match c (amc s) with Ret (a, m) => Ret (a, set_amc s m) | Err e => Err e end.
Definition space_at (k : Z) : M astate aspace := deref (λ s, mms s !! k).
Definition space_set (k : Z) (x : aspace) : M astate unit := modify (λ s, set_mms s (<[k := x]> (mms s))).

Lemma space_at_run s k x : mms s !! k = Some x → space_at k s = Ret (x, s).
Proof. intros H. unfold space_at, deref. by rewrite H. Qed.

Section code.
Context (kmalloc : gmap Z vma_struct → option Z).
(** [kmalloc(sizeof(struct mm_struct))], and the frame of [boot_pgdir]. *)
Context (kmalloc_mm : gset Z → option Z) (boot_pgdir : Z).

(** [if (swap_init_ok) swap_init_mm(mm); else mm->sm_priv = NULL;]: the [init_mm] of either policy starts the one
    list [pra_list_head] anew and lets [mm->sm_priv] point to it. *)
Definition init_priv (sw : bool) (k : Z) (q : swap_queue) : swap_queue :=
  if sw then mkQueue [] ({[k]} ∪ privs q) else mkQueue (queued q) (privs q ∖ {[k]}).

Definition new_space : M astate (option Z) :=
  s ← get;
  match kmalloc_mm (dom (mms s)) with
  | None => mret None
  | Some k =>
      space_set k (mkAspace mm_create 0 false) ;;
      modify (λ s, set_swapq s (init_priv (swap_init_ok (amc s)) k (swapq s))) ;;
      mret (Some k)
  end.

Definition setup_pgdir (k : Z) : M astate Z :=
  page ← in_amc alloc_page;
  match page with
  | None => mret (- E_NO_MEM)
  | Some p =>
      d ← in_amc (KADDR (page2pa p));
      in_amc (copy_frame d boot_pgdir) ;;
      in_amc (store (d, PDX VPT) (Z.lor (Z.lor (page2pa d) PTE_P) PTE_W)) ;;
      x ← space_at k;
      space_set k (mkAspace (a_mm x) d (a_locked x)) ;;
      mret 0
  end.

Definition put_pgdir (k : Z) : M astate unit :=
  x ← space_at k;
  p ← in_amc (pa2page (page2pa (a_pgdir x)));
  in_amc (free_page p).

(** [lock_mm]: the caller would wait for a lock that is taken. *)
Definition lock_mm (k : Z) : M astate unit :=
  x ← space_at k;
  if a_locked x then fail EFault else space_set k (mkAspace (a_mm x) (a_pgdir x) true).
Definition unlock_mm (k : Z) : M astate unit :=
  x ← space_at k; space_set k (mkAspace (a_mm x) (a_pgdir x) false).

(** [mm_count_inc] and [mm_count_dec] with the new count. *)
Definition set_mm_count (m : mm_struct) (n : Z) : mm_struct :=
  mkMm (vmas m) (mmap_list m) (mmap_cache m) (map_count m) n (time_now m).
Definition mm_count_add (k d : Z) : M astate Z :=
  x ← space_at k;
  let n := mm_count (a_mm x) + d in
  space_set k (mkAspace (set_mm_count (a_mm x) n) (a_pgdir x) (a_locked x)) ;;
  mret n.

Definition dup_space (to from : Z) : M astate Z :=
  x ← space_at from;
  y ← space_at to;
  s ← get;
  match dup_mmap kmalloc (a_mm x) (a_pgdir y) (a_pgdir x) (amc s, a_mm y) with
  | Err e => fail e
  | Ret (r, (m, t)) => put (set_amc s m) ;; space_set to (mkAspace t (a_pgdir y) (a_locked y)) ;; mret r
  end.

Definition exit_space (k : Z) : M astate unit :=
  x ← space_at k; in_amc (exit_mmap (a_mm x) (a_pgdir x)).

(** [mm_destroy]: the areas and the structure itself are freed. *)
Definition destroy_space (k : Z) : M astate unit :=
  x ← space_at k;
  match mm_destroy (a_mm x) with
  | Err e => fail e
  | Ret _ => modify (λ s, set_mms s (delete k (mms s)))
  end.

(** The label [good_mm] of [copy_mm]. *)
Definition good_mm (k proc : Z) : M astate Z :=
  mm_count_add k 1 ;;
  x ← space_at k;
  modify (λ s, mkAstate (amc s) (mms s) (<[proc := k]> (mm_of s)) (<[proc := page2pa (a_pgdir x)]> (cr3_of s)) (swapq s)) ;;
  mret 0.

Definition copy_mm (clone_flags current proc : Z) : M astate Z :=
  o ← gets (λ s, mm_of s !! current);
  match o with
  | None => mret 0
  | Some oldmm =>
      if negb (Z.land clone_flags CLONE_VM =? 0) then good_mm oldmm proc else
      r ← new_space;
      match r with
      | None => mret (- E_NO_MEM)
      | Some mm =>
          e ← setup_pgdir mm;
          if negb (e =? 0) then destroy_space mm ;; mret (- E_NO_MEM) else
          lock_mm oldmm ;;
          ret ← dup_space mm oldmm;
          unlock_mm oldmm ;;
          if negb (ret =? 0) then exit_space mm ;; put_pgdir mm ;; destroy_space mm ;; mret ret
          else good_mm mm proc
      end
  end.

(** [lcr3(boot_cr3)]: the processor forgets the translations it has cached. *)
Definition lcr3_boot : M astate unit :=
  in_amc (modify (λ m, mkMachine (pm m) (mem m) (npage m) boot_pgdir ∅ (swap_init_ok m))).

(** The release of the address space in [do_exit] and [do_execve]. *)
Definition exit_mm (current : Z) : M astate unit :=
  o ← gets (λ s, mm_of s !! current);
  match o with
  | None => mret tt
  | Some mm =>
      lcr3_boot ;;
      n ← mm_count_add mm (-1);
      when (n =? 0) (exit_space mm ;; put_pgdir mm ;; destroy_space mm) ;;
      modify (λ s, mkAstate (amc s) (mms s) (delete current (mm_of s)) (cr3_of s) (swapq s))
  end.

End code.

(** ** A child gets a copy of its own *)

(** Word [i] of page [v], as directory [d] translates it. *)
Definition page_word m (d v i : Z) : option Z :=
  if present (pte_at m d v) then Some (read m (frame_of (pte_at m d v), i)) else None.

(** A directory without user entries. *)
Lemma empty_space m d s :
  space_ok m s → d ∉ pm_free (pm m) → cr3 m ≠ d → (∀ x, lo ≤ x < hi → present (pde_at m d x) = false) →
  space_ok m d ∧ ∀ v, in_range v → pte_at m d v = 0.
Proof.
  intros Hok Hd Hc Hno.
  assert (∀ v, in_range v → pte_at m d v = 0) as Hz by (intros v Hv; by apply pte_at_absent, Hno, in_range_dir).
  split; [|done]. split; try apply Hok; try done.
  - intros x Hx Hp. by rewrite Hno in Hp.
  - intros x x' Hx _ Hp. by rewrite Hno in Hp.
  - intros v Hv Hp. by rewrite Hz in Hp.
  - intros f Hf. rewrite count_zero.
    + pose proof (so_ref _ _ _ _ Hok f Hf). pose proof (count_pos (pte_at m s) f range_pages). lia.
    + intros v Hv [Hp _]. by rewrite Hz in Hp by by apply range_pages_elem.
Qed.

(** What [setup_pgdir] leaves: a fresh directory that is apart from everything in use. *)
Definition new_dir (s d : Z) m m' : Prop :=
  space_ok m' s ∧ space_ok m' d ∧ d ∈ pm_free (pm m) ∧ d ∈ used m' ∧
  (∀ v, in_range v → pte_at m' d v = 0) ∧ (∀ x, lo ≤ x < hi → present (pde_at m' d x) = false) ∧
  (∀ f, f ∈ used m → f ∈ used m' ∧ ref_of m' f = ref_of m f ∧ (∀ i, read m' (f, i) = read m (f, i)) ∧ data_frame m' d f) ∧
  pm_frames (pm m') = pm_frames (pm m) ∧ pm_free (pm m') = pm_free (pm m) ∖ {[ d ]} ∧
  npage m' = npage m ∧ cr3 m' = cr3 m ∧ tlb m' = tlb m ∧ swap_init_ok m' = swap_init_ok m.

Lemma setup_pgdir_run boot s k x sp :
  space_ok (amc s) sp → (∀ y, lo ≤ y < hi → present (pde_at (amc s) boot y) = false) → hi ≤ PDX VPT →
  (0 ≤ lo) → cr3 (amc s) ∉ pm_free (pm (amc s)) → pm_free (pm (amc s)) ≠ ∅ → mms s !! k = Some x →
  ∃ d m', setup_pgdir boot k s = Ret (0, set_mms (set_amc s m') (<[k := mkAspace (a_mm x) d (a_locked x)]> (mms s))) ∧
    new_dir sp d (amc s) m'.
Proof.
  intros Hok Hboot Hhi Hlo Hcr Hne Hx. set (m := amc s) in *.
  destruct (alloc_page_free m (so_inv _ _ _ _ Hok) Hne) as (d & y & Hal & Hd & Hyi & Hfr & Hfree & Hr & Hoth).
  destruct (space_ok_alloc lo hi m sp d y 0) as (Hok1 & Hu & Hdd & Hc); try done. set (m1 := set_pm m y) in *.
  set (vpte := Z.lor (Z.lor (page2pa d) PTE_P) PTE_W).
  set (w := <[(d, PDX VPT) := vpte]> (frame_copy m1 d boot)).
  assert (∀ f i, read (set_mem m1 w) (f, i) = if decide (f = d) then
     (if decide (i = PDX VPT) then vpte else if decide (0 ≤ i < 1024) then read m (boot, i) else read m (d, i)) else read m (f, i)) as Hw.
  { intros f i. pose proof (frame_copy_read m1 m1 d boot f i eq_refl) as Hfc. unfold read in Hfc at 1.
    change (mem (set_mem m1 (frame_copy m1 d boot))) with (frame_copy m1 d boot) in Hfc.
    unfold read at 1. change (mem (set_mem m1 w)) with w. unfold w. rewrite lookup_insert.
    destruct (decide ((d, PDX VPT) = (f, i))) as [[= <- <-]|Hni].
    - by rewrite !decide_True.
    - rewrite Hfc. destruct (decide (f = d)) as [->|].
      + rewrite (decide_False (P := i = PDX VPT)) by congruence. rewrite (decide_ext (d = d ∧ 0 ≤ i < 1024) (0 ≤ i < 1024)) by tauto. done.
      + by rewrite decide_False by tauto. }
  destruct (data_words m1 sp d w Hok1 Hdd) as (Hg2 & _ & _).
  { intros f i Hf. rewrite Hw. by rewrite decide_False. }
  set (m2 := set_mem m1 w) in *.
  assert (∀ z, lo ≤ z < hi → present (pde_at m2 d z) = false) as Hno.
  { intros z Hz. unfold pde_at. rewrite Hw. rewrite decide_True by done. assert (PDX VPT = 1003) as E by reflexivity.
    rewrite decide_False by lia. rewrite decide_True by lia. by apply Hboot. }
  destruct (empty_space m2 d sp) as [Hokd Hz]; [apply Hg2| | |done|].
  { change (d ∉ pm_free y). rewrite Hfree, elem_of_difference, elem_of_singleton. tauto. }
  { change (cr3 m ≠ d). intros E. by rewrite E in Hcr. }
  exists d, m2. split.
  - assert (in_amc alloc_page s = Ret (Some d, set_amc s m1)) as E1 by (unfold in_amc; fold m; by rewrite Hal).
    assert (in_amc (KADDR (page2pa d)) (set_amc s m1) = Ret (d, set_amc s m1)) as E2.
    { unfold in_amc. cbn [amc set_amc]. by rewrite (KADDR_page m1 sp d Hok1 Hu). }
    unfold setup_pgdir. step using (exact E1). cbv iota. step using (exact E2).
    assert (in_amc (copy_frame d boot) (set_amc s m1) = Ret (tt, set_amc s (set_mem m1 (frame_copy m1 d boot)))) as E3 by reflexivity.
    step using (exact E3).
    assert (in_amc (store (d, PDX VPT) vpte) (set_amc s (set_mem m1 (frame_copy m1 d boot))) = Ret (tt, set_amc s m2)) as E4 by reflexivity.
    step using (exact E4). step using (unfold space_at, deref; cbn [mms set_amc]; rewrite Hx; reflexivity).
    by step using reflexivity.
  - split_and!; [apply Hg2|exact Hokd|exact Hd|exact Hu|exact Hz|exact Hno| |exact Hfr|exact Hfree|reflexivity|reflexivity|reflexivity|reflexivity].
    + intros f Hf. assert (f ≠ d) as Hfd by (intros ->; by apply (used_not_free m d)).
      split_and!.
      * change (f ∈ pm_frames y ∖ pm_free y). rewrite Hfr, Hfree, !elem_of_difference. unfold used in Hf. apply elem_of_difference in Hf. tauto.
      * unfold ref_of. change (pm m2) with y. rewrite Hoth; [done|]. by apply used_not_free.
      * intros i. rewrite Hw. by rewrite decide_False.
      * split; [done|]. intros z Hz' Hp. by rewrite Hno in Hp.
Qed.

(** Process [cur] may be copied: its areas are sound, its directory is in order and what it owns is in use,
    nobody holds its lock, and the kernel's directory has no entries for user space. *)
Record forkable (boot : Z) (s : astate) (cur k : Z) (x : aspace) : Prop := {
  fk_mm : mm_of s !! cur = Some k;
  fk_space : mms s !! k = Some x;
  fk_free : a_locked x = false;
  fk_areas : mm_ok (a_mm x) ∧ Forall user_area (areas (a_mm x));
  fk_dir : space_ok (amc s) (a_pgdir x);
  fk_used : ∀ f, owns (amc s) (a_pgdir x) f → f ∈ used (amc s);
  fk_cr3 : cr3 (amc s) ∉ pm_free (pm (amc s));
  fk_boot : ∀ y, lo ≤ y < hi → present (pde_at (amc s) boot y) = false }.

(** Directory [d] of [m'] has a copy of the areas [vs] of directory [p] of [m] in frames that were free, and
    nothing that was in use has changed. *)
Record duplicate (vs : list vma_struct) (p d : Z) m m' : Prop := {
  dp_words v i : in_range v → in_areas vs v → 0 ≤ i < 1024 → page_word m' d v i = page_word m p v i;
  dp_perm v : in_range v → in_areas vs v → present (pte_at m p v) = true →
    Z.land (pte_at m' d v) PTE_USER = Z.land (pte_at m p v) PTE_USER;
  dp_only v : in_range v → present (pte_at m' d v) = true → in_areas vs v ∧ frame_of (pte_at m' d v) ∉ used m;
  dp_kept f i : f ∈ used m → read m' (f, i) = read m (f, i);
  dp_refs f : f ∈ used m → f ∈ used m' ∧ ref_of m' f = ref_of m f }.

Lemma land_user_entry p q : present q = true →
  Z.land (Z.lor (Z.lor (page2pa p) PTE_P) (Z.land q PTE_USER)) PTE_USER = Z.land q PTE_USER.
Proof.
  rewrite present_testbit. intros Hq. apply Z.bits_inj'. intros n Hn.
  unfold PTE_USER, PTE_P, page2pa. change 7 with (Z.ones 3). rewrite !Z.land_spec, !Z.lor_spec, Z.land_spec.
  destruct (decide (n < 3)) as [Hlt|Hge].
  - rewrite Z.ones_spec_low, !andb_true_r, Z.shiftl_spec_low, orb_false_l by lia.
    destruct (decide (n = 0)) as [->|]; [by rewrite Hq|]. replace (Z.testbit 1 n) with false; [done|].
    symmetry. rewrite <-(Z.pow_0_r 2). by apply Z.pow2_bits_false.
  - by rewrite Z.ones_spec_high, !andb_false_r by lia.
Qed.

Lemma duplicate_of_cloned vs p d m m1 m' :
  new_dir p d m m1 → (∀ f, owns m p f → f ∈ used m) → cloned (in_areas vs) p d m1 m' →
  duplicate vs p d m m'.
Proof.
  intros (Hokp & Hokd & Hfree & Hu & Hz & Hno & Hkeep & Hfr & Hfree1 & _) Hown (Hg & Hcp & Hoth).
  assert (∀ f i, f ∈ used m → read m' (f, i) = read m (f, i)) as Hread.
  { intros f i Hf. destruct (Hkeep f Hf) as (Hf1 & _ & Hi1 & Hd1). rewrite <-Hi1.
    by apply (gr_keep _ _ _ _ Hg f Hf1 (not_elem_of_empty _) Hd1). }
  assert (∀ v, in_range v → pte_at m1 p v = pte_at m p v) as Hpte.
  { intros v Hv. unfold pte_at. assert (∀ x, pde_at m1 p x = pde_at m p x) as Hpde.
    { intros x. apply Hkeep, Hown. by left. }
    rewrite Hpde. destruct (present (pde_at m p (v / 1024))) eqn:Hp; [|done].
    apply Hkeep, Hown. right. left. exists (v / 1024). split; [by apply in_range_dir|done]. }
  assert (∀ v, in_range v → present (pte_at m p v) = true → frame_of (pte_at m p v) ∈ used m) as Hfu.
  { intros v Hv Hp. apply Hown. right. right. by exists v. }
  split.
  - intros v i Hv Ha Hi. unfold page_word. destruct (present (pte_at m p v)) eqn:Hp.
    + destruct (Hcp v Hv Ha) as (q & Hq & _ & _ & Hw); [by rewrite Hpte|]. rewrite Hq, present_entry.
      rewrite frame_of_entry by (first [done|apply user_perm]). rewrite Hw by done. rewrite Hpte by done.
      f_equal. by apply Hkeep, Hfu.
    + rewrite Hoth, Hz; [done|done|done|]. intros [_ H]. rewrite Hpte in H by done. congruence.
  - intros v Hv Ha Hp. destruct (Hcp v Hv Ha) as (q & Hq & _); [by rewrite Hpte|]. rewrite Hq, Hpte by done.
    by apply land_user_entry.
  - intros v Hv Hp. assert (in_areas vs v ∧ present (pte_at m1 p v) = true) as [Ha Hpp].
    { destruct (decide (in_areas vs v ∧ present (pte_at m1 p v) = true)) as [|Hn]; [done|].
      rewrite Hoth, Hz in Hp; done. }
    split; [done|]. destruct (Hcp v Hv Ha Hpp) as (q & Hq & Hqf & _). rewrite Hq.
    rewrite frame_of_entry by (first [done|apply user_perm]). intros Hqu. apply used_not_free in Hqu.
    rewrite Hfree1 in Hqf. apply elem_of_difference in Hqf. tauto.
  - done.
  - intros f Hf. destruct (Hkeep f Hf) as (Hf1 & Hr1 & _ & Hd1).
    destruct (gr_keep _ _ _ _ Hg f Hf1 (not_elem_of_empty _) Hd1) as (_ & Hr & _).
    split; [by eapply gr_used|congruence].
Qed.

Section copy.
Context (kmalloc : gmap Z vma_struct → option Z) (kmalloc_mm : gset Z → option Z) (boot : Z).
Hypothesis kmalloc_fresh : ∀ h p, kmalloc h = Some p → h !! p = None.
Hypothesis kmalloc_some : ∀ h, is_Some (kmalloc h).

Lemma dup_mmap_run (fm : mm_struct) m m1 p d :
  mm_ok fm → Forall user_area (areas fm) → new_dir p d m m1 → (∀ f, owns m1 p f → f ∈ used m) →
  (2 * pages_mapped m1 p (areas fm) ≤ size (pm_free (pm m1)))%nat →
  ∃ m' t, dup_mmap kmalloc fm d p (m1, mm_create) = Ret (0, (m', t)) ∧ cloned (in_areas (areas fm)) p d m1 m' ∧
    mm_ok t ∧ areas t ≡ₚ unstamped <$> areas fm ∧ mm_count t = 0.
Proof using kmalloc_fresh kmalloc_some.
  intros Hfm Hua (Hokp & Hokd & Hfree & Hu & Hz & Hno & Hkeep & _) Hown Hsz.
  assert (apart m1 p d) as Ha.
  { intros f Hf. destruct (Hkeep f (Hown f Hf)) as (? & _ & _ & ?). done. }
  destruct (dup_areas_run kmalloc kmalloc_fresh kmalloc_some fm p d (reverse (mmap_list fm)) (reverse (areas fm)) m1 mm_create)
    as (m' & t & Hrun & Hcl & Ht & Hperm & Hcnt); try done.
  - apply Forall2_reverse. by apply mm_ok_links.
  - rewrite reverse_involutive. apply Hfm.
  - by apply Forall_reverse.
  - split; [constructor|set_solver|done|done|done].
  - intros u v Hu'. by apply not_elem_of_nil in Hu'.
  - intros w Hw. apply Exists_exists in Hw as (v & Hv & Hwv). rewrite elem_of_reverse in Hv.
    rewrite Forall_forall in Hua. rewrite Hz; [done|]. by apply (Hua v Hv).
  - assert (pages_mapped m1 p (reverse (areas fm)) = pages_mapped m1 p (areas fm)) as ->; [|done].
    unfold pages_mapped, mapped_pages. apply Permutation_length. by rewrite (reverse_Permutation (areas fm)).
  - exists m', t. split_and!; try done.
    + eapply cloned_ext; [|exact Hcl]. intros w _. unfold in_areas. rewrite !Exists_exists.
      by setoid_rewrite elem_of_reverse.
    + rewrite Hperm. cbn [areas mm_create]. rewrite app_nil_r. by rewrite (reverse_Permutation (areas fm)).
Qed.

Hypothesis user_dirs : 0 ≤ lo ∧ hi ≤ PDX VPT.

(** [copy_mm] without CLONE_VM gives the child an address space of its own.  With a free frame for the
    directory and two for every mapped page it returns 0; the child has the areas of the parent, and in them
    the same words at the same addresses with the same permissions, in frames that nobody used before; nothing
    that was in use, by the parent or anybody else, has changed, and the lock of the parent is given back. *)
Lemma copy_mm_run s cur proc k x k' fl :
  forkable boot s cur k x → Z.land fl CLONE_VM = 0 → kmalloc_mm (dom (mms s)) = Some k' → k' ∉ dom (mms s) →
  (1 + 2 * pages_mapped (amc s) (a_pgdir x) (areas (a_mm x)) ≤ size (pm_free (pm (amc s))))%nat →
  ∃ m' d t, copy_mm kmalloc kmalloc_mm boot fl cur proc s =
      Ret (0, mkAstate m' (<[k' := mkAspace t d false]> (mms s)) (<[proc := k']> (mm_of s)) (<[proc := page2pa d]> (cr3_of s))
                 (init_priv (swap_init_ok (amc s)) k' (swapq s))) ∧
    mm_ok t ∧ mm_count t = 1 ∧ areas t ≡ₚ unstamped <$> areas (a_mm x) ∧ space_ok m' d ∧
    duplicate (areas (a_mm x)) (a_pgdir x) d (amc s) m'.
Proof using kmalloc_fresh kmalloc_some user_dirs.
  intros [Hmm Hx Hlk [Hfm Hua] Hdir Hown Hcr Hboot] Hfl Hk Hk' Hsz.
  assert (k ≠ k') as Hkk by (intros ->; apply Hk', elem_of_dom; eauto). set (p := a_pgdir x) in *.
  set (s1 := set_swapq (set_mms s (<[k' := mkAspace mm_create 0 false]> (mms s))) (init_priv (swap_init_ok (amc s)) k' (swapq s))).
  destruct (setup_pgdir_run boot s1 k' (mkAspace mm_create 0 false) p) as (d & m1 & Hset & Hnd); try done.
  { by destruct user_dirs. }
  { by destruct user_dirs. }
  { intros He. change (amc s1) with (amc s) in He. rewrite He, size_empty in Hsz. lia. }
  { apply lookup_insert_eq. }
  change (amc s1) with (amc s) in Hnd. pose proof Hnd as (Hokp & Hokd & Hdf & _ & _ & _ & Hkeep & _ & Hfree1 & _).
  assert (∀ x, pde_at m1 p x = pde_at (amc s) p x) as Hpde by (intros y; apply Hkeep, Hown; by left).
  assert (∀ v, in_range v → pte_at m1 p v = pte_at (amc s) p v) as Hpte.
  { intros v Hv. unfold pte_at. rewrite Hpde. destruct (present (pde_at (amc s) p (v / 1024))) eqn:Hp; [|done].
    apply Hkeep, Hown. right. left. exists (v / 1024). split; [by apply in_range_dir|done]. }
  destruct (dup_mmap_run (a_mm x) (amc s) m1 p d) as (m' & t & Hdup & Hcl & Ht & Hperm & Hcnt); try done.
  { intros f [->|[(y & Hy & Hp & Hf)|(v & Hv & Hm)]]; apply Hown; [by left|..].
    - right. left. exists y. by rewrite <-Hpde.
    - right. right. exists v. by rewrite <-Hpte. }
  { rewrite Hfree1. pose proof (size_remove_one (pm_free (pm (amc s))) d).
    assert (pages_mapped m1 p (areas (a_mm x)) = pages_mapped (amc s) p (areas (a_mm x))) as ->; [|lia].
    apply mapped_pages_ext. intros w Hw. apply Hpte. apply list_elem_of_join in Hw as (l & Hwl & Hl).
    apply list_elem_of_fmap in Hl as (v & -> & Hv). apply elem_area_pages in Hwl. rewrite Forall_forall in Hua. by apply (Hua v Hv). }
  exists m', d, (set_mm_count t 1). split_and!.
  - unfold copy_mm. step using (unfold gets; rewrite Hmm; reflexivity). cbv iota. rewrite Hfl.
    change (negb (0 =? 0)) with false. cbv iota.
    assert (new_space kmalloc_mm s = Ret (Some k', s1)) as Hns.
    { unfold new_space. step using reflexivity. by rewrite Hk. }
    step using (exact Hns). cbv iota. step using (exact Hset). change (negb (0 =? 0)) with false. cbv iota.
    set (ms := <[k' := mkAspace (a_mm (mkAspace mm_create 0 false)) d (a_locked (mkAspace mm_create 0 false))]> (mms s1)).
    set (s2 := set_mms (set_amc s1 m1) ms).
    assert (mms s2 !! k = Some x) as Hk2 by (unfold s2, ms, s1; simpl; by rewrite !lookup_insert_ne).
    set (x' := mkAspace (a_mm x) p true). set (s3 := set_mms s2 (<[k := x']> ms)).
    assert (lock_mm k s2 = Ret (tt, s3)) as Hlock.
    { unfold lock_mm. step using (apply space_at_run; exact Hk2). by rewrite Hlk. }
    step using (exact Hlock). set (s4 := mkAstate m' (<[k' := mkAspace t d false]> (<[k := x']> ms)) (mm_of s) (cr3_of s) (swapq s1)).
    assert (dup_space kmalloc k' k s3 = Ret (0, s4)) as Hds.
    { unfold dup_space. step using (apply space_at_run; apply lookup_insert_eq).
      assert (mms s3 !! k' = Some (mkAspace mm_create d false)) as Hk3 by (unfold s3, ms; simpl; rewrite lookup_insert_ne by done; apply lookup_insert_eq).
      step using (apply space_at_run; exact Hk3).
      step using reflexivity. cbn [a_mm a_pgdir x'].
      change (amc s3) with m1. rewrite Hdup. done. }
    step using (exact Hds). set (s5 := set_mms s4 (<[k := x]> (<[k' := mkAspace t d false]> (<[k := x']> ms)))).
    assert (unlock_mm k s4 = Ret (tt, s5)) as Hun.
    { unfold unlock_mm. assert (mms s4 !! k = Some x') as Hk4 by (unfold s4; simpl; rewrite lookup_insert_ne by done; apply lookup_insert_eq).
      step using (apply space_at_run; exact Hk4).
      assert (mkAspace (a_mm x') (a_pgdir x') false = x) as -> by (unfold x', p; simpl; rewrite <-Hlk; by destruct x). done. }
    step using (exact Hun). change (negb (0 =? 0)) with false. cbv iota. unfold good_mm, mm_count_add.
    assert (mms s5 !! k' = Some (mkAspace t d false)) as Hk5 by (unfold s5; simpl; rewrite lookup_insert_ne by done; apply lookup_insert_eq).
    erewrite (M_bind_step (_ ≫= _)).
    2:{ step using (apply space_at_run; exact Hk5). cbv zeta. step using reflexivity. reflexivity. }
    step using (apply space_at_run; apply lookup_insert_eq). step using reflexivity.
    unfold mret, M_ret. cbn [a_mm a_pgdir]. rewrite Hcnt. do 3 f_equal. unfold s5, s4, ms, s1. simpl.
    apply map_eq. intros j. destruct (decide (j = k')) as [->|Hj]; [by rewrite !lookup_insert_eq|].
    rewrite (lookup_insert_ne _ k') by done. destruct (decide (j = k)) as [->|Hj2]; [by rewrite lookup_insert_eq, lookup_insert_ne|].
    by rewrite !lookup_insert_ne by done.
  - by destruct Ht; split.
  - done.
  - done.
  - apply Hcl.
  - by eapply duplicate_of_cloned.
Qed.
End copy.

End spaces.

(** * A process that forks *)

#[local] Existing Instance FitAlloc.firstfit_pmm_manager.
#[local] Existing Instance FitAlloc.firstfit_laws.
#[local] Existing Instance PageTable.no_swap.

(** The directory is in frame 4, its table for page 0x800 in frame 3 and the page in frame 2. *)
Definition demo_dir : @machine Frames.pmm := with_table demo_empty 4 2 3.
Definition demo_page : @machine Frames.pmm := with_pte demo_dir 4 2048 demo_entry.
Definition demo_parent : @machine Frames.pmm := set_mem demo_page (<[(2, 7) := 42]> (PageTable.mem demo_page)).
Definition demo_spaces : @astate Frames.pmm :=
  mkAstate demo_parent {[ 1 := mkAspace demo_mm 4 false ]} {[ 5 := 1 ]} {[ 5 := page2pa 4 ]} (mkQueue [] ∅).

Lemma demo_dir_ok : space_ok user_lo user_hi demo_empty 4 ∧ ∀ v, in_range user_lo user_hi v → pte_at demo_empty 4 v = 0.
Proof.
  apply (empty_space user_lo user_hi demo_empty 4 0).
  - apply demo_empty_ok.
  - apply (bool_decide_unpack _). by vm_compute.
  - done.
  - intros x _. unfold pde_at, read, demo_empty, PageTable.mem. by rewrite lookup_empty.
Qed.

Lemma demo_pde4 x : pde_at demo_empty 4 x = 0.
Proof. unfold pde_at, read, demo_empty, PageTable.mem. by rewrite lookup_empty. Qed.
Lemma demo_count4 f : count (pte_at demo_empty 4) f (range_pages user_lo user_hi) = 0.
Proof.
  apply count_zero. intros v Hv [Hp _]. apply range_pages_elem in Hv. by rewrite (proj2 demo_dir_ok v Hv) in Hp.
Qed.

Lemma demo_table4 : space_ok user_lo user_hi demo_dir 4.
Proof.
  apply space_ok_with_table.
  - apply demo_dir_ok.
  - unfold user_lo, user_hi. lia.
  - by rewrite demo_pde4.
  - rewrite demo_used. set_solver.
  - split; [done|]. intros x _. by rewrite demo_pde4.
  - apply demo_count4.
Qed.

Lemma demo_data4 : data_frame user_lo user_hi demo_dir 4 2.
Proof.
  split; [done|]. intros x _. unfold demo_dir. rewrite pde_with_table by done. case_decide; [|by rewrite demo_pde4].
  by rewrite frame_of_new_pde.
Qed.

Lemma demo_dir_pte v : in_range user_lo user_hi v → pte_at demo_dir 4 v = 0.
Proof.
  intros Hv. unfold demo_dir. rewrite (pte_with_table user_lo user_hi).
  - by apply demo_dir_ok.
  - apply demo_dir_ok.
  - split; [done|]. intros x _. by rewrite demo_pde4.
  - unfold user_lo, user_hi. lia.
  - by rewrite demo_pde4.
  - done.
Qed.

Lemma demo_page_ok : space_ok user_lo user_hi demo_page 4.
Proof.
  apply space_ok_with_pte; [apply demo_table4|apply user_range; lia|done|]. intros _.
  unfold demo_entry. rewrite frame_of_entry by (vm_compute; intuition discriminate). split_and!.
  - change (used demo_dir) with (used demo_empty). rewrite demo_used. set_solver.
  - apply demo_data4.
  - rewrite count_zero.
    + rewrite demo_dir_pte by (apply user_range; lia). by vm_compute.
    + intros v Hv [Hp _]. apply range_pages_elem in Hv. by rewrite demo_dir_pte in Hp.
Qed.

Lemma demo_page_pte v : in_range user_lo user_hi v → pte_at demo_page 4 v = if decide (v = 2048) then demo_entry else 0.
Proof.
  intros Hv. unfold demo_page. rewrite (pte_with_pte user_lo user_hi); [|apply demo_table4|apply user_range; lia|done|done].
  case_decide; [done|]. by apply demo_dir_pte.
Qed.

Lemma demo_parent_ok : space_ok user_lo user_hi demo_parent 4 ∧
  (∀ x, pde_at demo_parent 4 x = pde_at demo_page 4 x) ∧
  (∀ v, in_range user_lo user_hi v → pte_at demo_parent 4 v = pte_at demo_page 4 v).
Proof.
  destruct (data_words user_lo user_hi demo_page 4 2 (<[(2, 7) := 42]> (PageTable.mem demo_page))) as (Hg & Hpde & Hpte).
  - apply demo_page_ok.
  - apply data_with_pte; [apply demo_table4|apply user_range; lia|done|apply demo_data4].
  - intros f i Hf. unfold read. cbn [PageTable.mem set_mem]. rewrite lookup_insert_ne; [done|]. congruence.
  - split_and!; [apply (gr_ok _ _ _ _ _ _ Hg)|exact Hpde|exact Hpte].
Qed.

Lemma demo_forkable : forkable user_lo user_hi 0 demo_spaces 5 1 (mkAspace demo_mm 4 false).
Proof.
  assert (used demo_parent = {[ 2; 3; 4 ]}) as Hused by (change (used demo_parent) with (used demo_empty); apply demo_used).
  destruct demo_parent_ok as (Hok & Hpde & Hpte).
  split; [reflexivity|reflexivity|reflexivity| |exact Hok| | |].
  - split; [apply demo_mm_ok|]. change (areas demo_mm) with [demo_text; demo_stack].
    assert (∀ v, vm_start v mod PGSIZE = 0 → vm_end v mod PGSIZE = 0 → USER_ACCESS (vm_start v) (vm_end v) = true →
      user_area user_lo user_hi v) as Hua.
    { intros v H1 H2 H3. split_and!; [done|done|done|]. intros w Hw. apply user_range.
      destruct (user_pages _ _ H1 H2 H3) as (_ & _ & ? & ? & _). unfold USERTOP in *. lia. }
    apply Forall_cons. split; [apply Hua; reflexivity|]. apply Forall_singleton. apply Hua; reflexivity.
  - cbn [amc demo_spaces a_pgdir]. intros f Hf. rewrite Hused. destruct Hf as [->|[(x & _ & Hp & <-)|(v & Hv & Hp & <-)]].
    + set_solver.
    + rewrite Hpde in *. unfold demo_page in *. rewrite (pde_with_pte user_lo user_hi) in *;
        [|apply demo_table4|apply user_range; lia|done|apply demo_table4|apply user_range; lia|done].
      unfold demo_dir in *. rewrite pde_with_table in * by done. case_decide; [|by rewrite demo_pde4 in Hp].
      rewrite frame_of_new_pde. set_solver.
    + rewrite Hpte, demo_page_pte in * by done. case_decide; [|done].
      change (frame_of demo_entry) with 2. set_solver.
  - apply (bool_decide_unpack _). by vm_compute.
  - intros y Hy. change (present (read demo_parent (0, y)) = false).
    assert (read demo_parent (0, y) = 0) as ->; [|done].
    unfold read, demo_parent, demo_page, with_pte. rewrite decide_False by done.
    cbn [PageTable.mem set_mem]. rewrite lookup_insert_ne by done. rewrite lookup_insert_ne by (by vm_compute).
    unfold demo_dir, with_table. cbn [PageTable.mem set_mem]. rewrite lookup_insert_ne by done.
    unfold demo_empty. cbn [PageTable.mem]. rewrite map_lookup_filter, lookup_empty. done.
Qed.

Definition demo_new_mm (h : gset Z) : option Z := Some 9.

End AddrSpace.
