(* ===== verification/ExitSpace.v ===== *)
(** The end of an address space: [exit_mmap] and [put_pgdir] give back every frame of it and nothing else.

    Unmapping is followed page by page ([shed]), then the tables are released one by one ([bare]), then the
    directory. *)
From S2P Require Import Prelude Dll Frames PmmManager FitAlloc PageTable Vma Swap Vmm AddrSpace.

Module ExitSpace.
Import Frames PmmManager PageTable Vma Vmm AddrSpace.
Set Default Proof Using "Type".

Section exit.
Context {S : Type} `{PM : pmm_manager S} {SW : swapper (S := S)}.
Notation machine := (machine (S := S)).
Notation astate := (astate (S := S)).
Context `{PL : !pmm_laws S}.
Context (lo hi : Z).
Notation space_ok := (space_ok lo hi).
Notation in_range := (in_range lo hi).
Notation data_frame := (data_frame lo hi).
Notation range_pages := (range_pages lo hi).
Implicit Types (m : machine).

(** * Unmapping *)

(** Directory [d] maps frame [f]; and the only references to it are those of [d]. *)
Definition mapped m (d f : Z) : Prop := ∃ v, in_range v ∧ maps (pte_at m d v) f.
Definition exclusive m (d f : Z) : Prop :=
  ref_of m f = count (pte_at m d) f range_pages ∧ 0 < count (pte_at m d) f range_pages.

(** [m] is [m0] after pages of [d] were unmapped: the frames that lost their last reference are free. *)
Record shed (d : Z) m0 m : Prop := {
  sh_ok : space_ok m d;
  sh_npage : npage m = npage m0;
  sh_cr3 : cr3 m = cr3 m0;
  sh_frames : pm_frames (pm m) = pm_frames (pm m0);
  sh_pde y : pde_at m d y = pde_at m0 d y;
  sh_free f : f ∈ pm_free (pm m) → f ∈ pm_free (pm m0) ∨ mapped m0 d f;
  sh_grow : pm_free (pm m0) ⊆ pm_free (pm m);
  sh_owned f : mapped m0 d f → f ∈ used m → exclusive m d f;
  sh_other f : f ∈ used m0 → ¬ mapped m0 d f → f ∈ used m ∧ ref_of m f = ref_of m0 f;
  sh_words f i : data_frame m0 d f → read m (f, i) = read m0 (f, i);
  sh_pte w : in_range w → present (pte_at m d w) = true → pte_at m d w = pte_at m0 d w }.

Lemma shed_refl d m : space_ok m d → (∀ f, mapped m d f → ref_of m f = count (pte_at m d) f range_pages) → shed d m m.
Proof.
  intros Hok Hex. split; try done; [auto|]. intros f Hf _. split; [by apply Hex|].
  destruct Hf as (v & Hv & Hm). pose proof (count_pos (pte_at m d) f range_pages).
  destruct (decide (count (pte_at m d) f range_pages = 0)) as [Hz|]; [|lia].
  exfalso. refine (count_zero_inv _ _ _ v Hz _ Hm). by apply range_pages_elem.
Qed.

Lemma shed_step d m0 m m' v : shed d m0 m → in_range v → present (pde_at m d (v / 1024)) = true →
  present (pte_at m d v) = true → without lo hi m m' d v → shed d m0 m'.
Proof.
  intros [Hok Hn Hc Hfr Hpde Hfree Hgrow Hown Hoth Hw Hpt] Hv Hp Hpte Hwo. pose proof Hwo as ((x & ->) & Hok' & Hfr' & H1 & H2 & H3).
  set (g := frame_of (pte_at m d v)) in *.
  set (m' := set_pm (with_pte m d v 0) x) in *.
  assert (pte_at m d v = pte_at m0 d v) as Hsame by (by apply Hpt).
  assert (mapped m0 d g) as Hg by (exists v; rewrite <-Hsame; done).
  assert (g ∈ used m) as Hgu by (by apply (so_map _ _ _ _ Hok)).
  destruct (Hown g Hg Hgu) as [Href Hpos].
  assert (∀ f, count (pte_at m' d) f range_pages = count (pte_at m d) f range_pages - (if decide (f = g) then 1 else 0)) as Hcnt.
  { intros f. unfold m'. by apply (count_without lo hi m d v f). }
  destruct (with_pte_fields m d v 0) as (_ & Hn1 & Hc1 & _).
  assert (∀ f, f ∈ pm_free (pm m') → f ∈ pm_free (pm m) ∨ f = g) as Hfree'.
  { intros f Hf. destruct (decide (ref_of m g = 1)) as [Hr|Hr]; [rewrite (H1 Hr) in Hf; set_solver|].
    destruct (H2 Hr) as [Heq _]. rewrite Heq in Hf. by left. }
  split.
  - done.
  - unfold m'. cbn [npage set_pm]. congruence.
  - unfold m'. cbn [cr3 set_pm]. congruence.
  - congruence.
  - intros y. rewrite (pde_without lo hi m m' d v) by done. apply Hpde.
  - intros f Hf. destruct (Hfree' f Hf) as [Hf'| ->]; [by apply Hfree|by right].
  - etrans; [exact Hgrow|]. destruct (decide (ref_of m g = 1)) as [Hr|Hr]; [rewrite (H1 Hr); set_solver|]. by destruct (H2 Hr) as [-> _].
  - intros f Hf Hu. assert (f ∈ used m) as Hum.
    { unfold used in *. rewrite Hfr' in Hu. destruct (decide (ref_of m g = 1)) as [Hr|Hr]; [rewrite (H1 Hr) in Hu; set_solver|].
      destruct (H2 Hr) as [Heq _]. by rewrite Heq in Hu. }
    destruct (Hown f Hf Hum) as [Hrf Hpf]. unfold exclusive. rewrite Hcnt. destruct (decide (f = g)) as [->|Hne].
    + destruct (decide (ref_of m g = 1)) as [Hr|Hr].
      * exfalso. apply (used_not_free m' g Hu). rewrite (H1 Hr). set_solver.
      * destruct (H2 Hr) as [_ ->]. lia.
    + rewrite H3 by done. lia.
  - intros f Hf Hnm. destruct (Hoth f Hf Hnm) as [Hu Hr]. assert (f ≠ g) as Hne by (intros ->; done). split.
    + by eapply used_without.
    + by rewrite H3.
  - intros f i Hf. rewrite <-Hw by done. unfold m'. change (read (with_pte m d v 0) (f, i) = read m (f, i)).
    apply (data_read_with_pte lo hi); [done|done|]. destruct Hf as [Hf1 Hf2]. split; [done|]. intros y. rewrite Hpde. apply Hf2.
  - intros w Hwr. rewrite (pte_without lo hi m m' d v) by done. case_decide; [done|]. by apply Hpt.
Qed.

Lemma shed_unmaps d m0 m m' : shed d m0 m → unmaps lo hi d m m' → shed d m0 m'.
Proof.
  intros Hs Hu. revert Hs. induction Hu as [|m m1 m' (v & _ & Hv & Hp & Hpte & Hw) _ IH]; [done|].
  intros Hs. apply IH. by eapply shed_step.
Qed.

(** The first loop of [exit_mmap]. *)
Lemma unmap_areas_run d t m0 : ∀ todo m, shed d m0 m → (∀ p, p ∈ todo → ∃ v, vmas t !! p = Some v ∧ user_area lo hi v) →
  ∃ m', each_area t (λ v, unmap_range d (vm_start v) (vm_end v)) todo m = Ret (tt, m') ∧ shed d m0 m' ∧
    ∀ w, in_range w → present (pte_at m' d w) = true →
      present (pte_at m d w) = true ∧ ¬ in_areas (omap (λ p, vmas t !! p) todo) w.
Proof.
  induction todo as [|p todo IH]; intros m Hs Ht.
  { exists m. split_and!; [done|done|]. intros w _ Hp. split; [done|]. by intros ?%Exists_nil. }
  destruct (Ht p) as (v & Hv & Hua); [set_solver|]. destruct Hua as (Hu1 & Hu2 & Hu3 & Hu4).
  destruct (unmap_range_run lo hi m d (vm_start v) (vm_end v) (sh_ok _ _ _ Hs) Hu1 Hu2 Hu3 Hu4) as (m1 & Hrun & Hok1 & Hun & Hm1).
  destruct (IH m1) as (m' & Hrun' & Hs' & Hm'); [by eapply shed_unmaps|set_solver|].
  exists m'. split_and!; [|done|].
  - cbn [each_area]. step using (unfold deref; rewrite Hv; reflexivity). by step using (exact Hrun).
  - intros w Hw Hp. destruct (Hm' w Hw Hp) as [Hp1 Hno]. rewrite Hm1 in Hp1 by done. case_decide as Hd; [done|]. split; [done|].
    simpl. rewrite Hv. intros [Hin|Hin]%Exists_cons; [|done]. apply Hd. by split.
Qed.

(** * Releasing the tables *)

(** The tables of [d] are frames in use, each its own. *)
Record bare (d : Z) m : Prop := {
  ba_inv : pm_inv (pm m);
  ba_npage f : f ∈ pm_frames (pm m) → f < npage m;
  ba_table y : lo ≤ y < hi → present (pde_at m d y) = true → frame_of (pde_at m d y) ∈ used m ∧ frame_of (pde_at m d y) ≠ d;
  ba_inj y z : lo ≤ y < hi → lo ≤ z < hi → present (pde_at m d y) = true → present (pde_at m d z) = true →
    frame_of (pde_at m d y) = frame_of (pde_at m d z) → y = z }.

(** [m] is [m0] after tables of [d] were released. *)
Record released (d : Z) m0 m : Prop := {
  rl_bare : bare d m;
  rl_npage : npage m = npage m0;
  rl_cr3 : cr3 m = cr3 m0;
  rl_frames : pm_frames (pm m) = pm_frames (pm m0);
  rl_pde y : lo ≤ y < hi → present (pde_at m d y) = true → pde_at m d y = pde_at m0 d y;
  rl_free f : f ∈ pm_free (pm m) ↔ f ∈ pm_free (pm m0) ∨
    ∃ y, lo ≤ y < hi ∧ maps (pde_at m0 d y) f ∧ present (pde_at m d y) = false;
  rl_refs f : f ∈ used m → ref_of m f = ref_of m0 f;
  rl_words f i : f ≠ d → read m (f, i) = read m0 (f, i) }.

Lemma used_frames m f : f ∈ used m → f ∈ pm_frames (pm m).
Proof. unfold used. by intros [? _]%elem_of_difference. Qed.

Lemma released_refl d m : bare d m → released d m m.
Proof. intros Hb. split; try done. intros f. split; [by left|]. intros [?|(y & _ & [Hp _] & Hn)]; [done|congruence]. Qed.

Lemma released_step d m0 m y : released d m0 m → lo ≤ y < hi →
  ∃ m', (pde ← load (d, y); when (present pde) (p ← pde2page pde; free_page p ;; store (d, y) 0)) m = Ret (tt, m') ∧
    released d m0 m' ∧ present (pde_at m' d y) = false ∧
    ∀ z, present (pde_at m d z) = false → present (pde_at m' d z) = false.
Proof.
  intros [[Hinv Hnp Htab Hinj] Hn Hc Hfr Hpde Hfree Href Hw] Hy. set (e := pde_at m d y).
  assert (load (d, y) m = Ret (e, m)) as Hload by reflexivity.
  destruct (present e) eqn:He.
  2: { exists m. split_and!; [|by split; [split| | | | | | |]|done|done]. step using (exact Hload). by rewrite He. }
  destruct (Htab y Hy He) as [Hu Hne]. set (f := frame_of e) in *.
  destruct (pm_release (pm m) f 1 Hinv) as (x & Hrel & Hxi & Hxfr & Hxfree & Hxr); [lia|by rewrite frames_one, singleton_subseteq_l|].
  rewrite frames_one in Hxfree, Hxr. set (m' := set_mem (set_pm m x) (<[(d, y) := 0]> (mem m))).
  assert (∀ g i, (g, i) ≠ (d, y) → read m' (g, i) = read m (g, i)) as Hread.
  { intros g i Hgi. unfold read, m'. cbn [mem set_mem]. by rewrite lookup_insert_ne. }
  assert (∀ z, z ≠ y → pde_at m' d z = pde_at m d z) as Hz by (intros z Hz; apply Hread; congruence).
  assert (pde_at m' d y = 0) as Hy0 by (unfold pde_at, read, m'; cbn [mem set_mem]; by rewrite lookup_insert_eq).
  assert (∀ z, present (pde_at m' d z) = true → z ≠ y ∧ present (pde_at m d z) = true) as Hpz.
  { intros z Hpz. destruct (decide (z = y)) as [->|Hzy]; [by rewrite Hy0 in Hpz|]. by rewrite Hz in Hpz. }
  assert (∀ g, g ∈ used m' ↔ g ∈ used m ∧ g ≠ f) as Hused.
  { intros g. unfold used, m'. cbn [pm set_mem set_pm]. rewrite Hxfr, Hxfree. set_solver. }
  exists m'. split_and!.
  - step using (exact Hload). rewrite He. unfold when.
    assert (pde2page e m = Ret (f, m)) as Hp.
    { unfold pde2page, pa2page, PDE_ADDR, mbind, M_bind, gets. fold (frame_of e) f.
      rewrite (proj2 (Z.leb_gt _ _)); [done|]. by apply Hnp, used_frames. }
    step using (exact Hp). step using (unfold free_page, lift_pm; rewrite Hrel; reflexivity). reflexivity.
  - split.
    + split.
      * done.
      * intros g Hg. apply Hnp. unfold m' in Hg. cbn [pm set_mem set_pm] in Hg. by rewrite Hxfr in Hg.
      * intros z Hzr Hp. apply Hpz in Hp as [Hzy Hp]. rewrite Hz by done. destruct (Htab z Hzr Hp) as [H1 H2]. split; [|done].
        apply Hused. split; [done|]. intros Heq. apply Hzy. by apply Hinj.
      * intros z z' Hzr Hzr' Hp Hp' Heq. apply Hpz in Hp as [Hzy Hp]. apply Hpz in Hp' as [Hzy' Hp']. rewrite !Hz in Heq by done. by apply Hinj.
    + done.
    + done.
    + unfold m'. cbn [pm set_mem set_pm]. congruence.
    + intros z Hzr Hp. apply Hpz in Hp as [Hzy Hp]. rewrite Hz by done. by apply Hpde.
    + intros g. unfold m' at 1. cbn [pm set_mem set_pm]. rewrite Hxfree, elem_of_union, elem_of_singleton, Hfree. split.
      * intros [[Hg|(z & Hzr & Hm & Hp)]| ->]; [by left| |].
        -- right. exists z. split_and!; [lia|lia|done|]. rewrite Hz; [done|]. intros ->. unfold e in He. congruence.
        -- right. exists y. split_and!; [lia|lia| |by rewrite Hy0]. rewrite <-(Hpde y Hy He). done.
      * intros [Hg|(z & Hzr & Hm & Hp)]; [by left; left|]. destruct (decide (z = y)) as [->|Hzy].
        -- right. rewrite <-(Hpde y Hy He) in Hm. by destruct Hm as [_ <-].
        -- left. right. exists z. rewrite Hz in Hp by done. done.
    + intros g Hg. apply Hused in Hg as [Hg Hgf]. rewrite <-Href by done. unfold ref_of, m'. cbn [pm set_mem set_pm].
      rewrite Hxr; [done|]. apply used_not_free in Hg. set_solver.
    + intros g i Hg. rewrite Hread by congruence. by apply Hw.
  - by rewrite Hy0.
  - intros z Hp. destruct (decide (z = y)) as [->|Hzy]; [by rewrite Hy0|]. by rewrite Hz.
Qed.

Lemma exit_loop_run d m0 end_ : ∀ fuel y m, released d m0 m → 0 ≤ y → PTSIZE * y < end_ → end_ ≤ USERTOP →
  (end_ - PTSIZE * y) / PTSIZE < Z.of_nat fuel → (∀ z, y ≤ z → PTSIZE * z < end_ → lo ≤ z < hi) →
  ∃ m', exit_loop fuel d (PTSIZE * y) end_ m = Ret (tt, m') ∧ released d m0 m' ∧
    (∀ z, y ≤ z → PTSIZE * z < end_ → present (pde_at m' d z) = false) ∧
    ∀ z, present (pde_at m d z) = false → present (pde_at m' d z) = false.
Proof.
  unfold USERTOP. change PTSIZE with 4194304.
  induction fuel as [|fuel IH]; intros y m Hr Hy Hlt Hend Hfuel Hin.
  { exfalso. assert (0 ≤ (end_ - 4194304 * y) / 4194304) by (apply Z.div_pos; lia). lia. }
  destruct (released_step d m0 m y Hr) as (m1 & Hstep & Hr1 & Hy1 & Hmono); [apply Hin; lia|].
  assert (PDX (4194304 * y) = y) as Hpdx.
  { rewrite PDX_vpn by lia. unfold vpn. replace (4194304 * y) with (y * 1024 * 4096) by lia. by rewrite !Z.div_mul by lia. }
  cbn [exit_loop]. rewrite Hpdx.
  assert (u32 (4194304 * y + PTSIZE) = 4194304 * (y + 1)) as Hnext by (change PTSIZE with 4194304; rewrite u32_small; lia).
  apply M_bind_Ret in Hstep as (e & s1 & He & Hwhen).
  assert (∃ m', (if negb (4194304 * (y + 1) =? 0) && (4194304 * (y + 1) <? end_)
      then exit_loop fuel d (4194304 * (y + 1)) end_ else mret tt) m1 = Ret (tt, m') ∧ released d m0 m' ∧
    (∀ z, y ≤ z → 4194304 * z < end_ → present (pde_at m' d z) = false) ∧
    ∀ z, present (pde_at m1 d z) = false → present (pde_at m' d z) = false) as (m' & Hrest & Hr' & Hgone & Hmono').
  { rewrite (proj2 (Z.eqb_neq _ 0)) by lia. cbn [negb andb]. destruct (Z.ltb_spec (4194304 * (y + 1)) end_) as [Hmore|Hdone].
    - destruct (IH (y + 1) m1) as (m' & Hrun & Hr' & Hgone & Hm'); [done|lia|lia|done| |intros z Hz; apply Hin; lia|].
      + replace (end_ - 4194304 * y) with (end_ - 4194304 * (y + 1) + 1 * 4194304) in Hfuel by lia. rewrite Z.div_add in Hfuel by lia. lia.
      + exists m'. split_and!; [done|done| |done]. intros z Hz Hze. destruct (decide (z = y)) as [->|]; [by apply Hm'|]. apply Hgone; lia.
    - exists m1. split_and!; [done|done| |done]. intros z Hz Hze. assert (z = y) as -> by lia. done. }
  exists m'. split_and!; [|done|done|intros z Hz; by apply Hmono', Hmono].
  step using (exact He). step using (exact Hwhen). cbv zeta. rewrite Hnext. exact Hrest.
Qed.

(** The second loop of [exit_mmap]. *)
Lemma exit_areas_run d t m0 : ∀ todo m, released d m0 m → (∀ p, p ∈ todo → ∃ v, vmas t !! p = Some v ∧ user_area lo hi v) →
  ∃ m', each_area t (λ v, exit_range d (vm_start v) (vm_end v)) todo m = Ret (tt, m') ∧ released d m0 m' ∧
    (∀ z, present (pde_at m d z) = false → present (pde_at m' d z) = false) ∧
    ∀ w, in_areas (omap (λ p, vmas t !! p) todo) w → present (pde_at m' d (w / 1024)) = false.
Proof.
  induction todo as [|p todo IH]; intros m Hr Ht.
  { exists m. split_and!; [done|done|done|]. by intros w ?%Exists_nil. }
  destruct (Ht p) as (v & Hv & Hu1 & Hu2 & Hu3 & Hu4); [set_solver|].
  destruct (user_pages (vm_start v) (vm_end v) Hu1 Hu2 Hu3) as (Hs & He & Hse & Htop & _).
  set (s := vpn (vm_start v)) in *. set (e := vpn (vm_end v)) in *.
  pose proof (Z.div_mod s 1024 ltac:(lia)) as Hdm. pose proof (Z.mod_pos_bound s 1024 ltac:(lia)) as Hmod.
  assert (ROUNDDOWN (vm_start v) PTSIZE = PTSIZE * (s / 1024)) as Hround.
  { unfold PTSIZE. rewrite ROUNDDOWN_spec by lia. rewrite Hs. rewrite Z.div_mul_cancel_l by lia. lia. }
  destruct (exit_loop_run d m0 (vm_end v) (Z.to_nat ((vm_end v - PTSIZE * (s / 1024)) / PTSIZE + 1)) (s / 1024) m)
    as (m1 & Hrun & Hr1 & Hgone & Hmono); [done|lia|unfold PTSIZE; lia|lia| | |].
  { assert (0 ≤ (vm_end v - PTSIZE * (s / 1024)) / PTSIZE) by (unfold PTSIZE; apply Z.div_pos; lia). lia. }
  { intros z Hz Hlt. unfold PTSIZE in Hlt. destruct (decide (z = s / 1024)) as [->|].
    - apply (in_range_dir lo hi), Hu4. lia.
    - assert (in_range (z * 1024)) as Hzr by (apply Hu4; lia). apply (in_range_dir lo hi) in Hzr. by rewrite Z.div_mul in Hzr by lia. }
  destruct (IH m1) as (m' & Hrun' & Hr' & Hm' & Hin); [done|set_solver|].
  exists m'. split_and!; [|done|intros z Hz; by apply Hm', Hmono|].
  - cbn [each_area]. step using (unfold deref; rewrite Hv; reflexivity).
    assert (exit_range d (vm_start v) (vm_end v) m = Ret (tt, m1)) as Hex.
    { unfold exit_range. step using (unfold assert; rewrite Hu1, Hu2; reflexivity). step using (unfold assert; rewrite Hu3; reflexivity).
      rewrite Hround. exact Hrun. }
    by step using (exact Hex).
  - intros w Hw. simpl in Hw. rewrite Hv in Hw. apply Exists_cons in Hw as [Hw|Hw]; [|by apply Hin].
    fold s e in Hw. apply Hm', Hgone; [apply Z.div_le_mono; lia|]. pose proof (Z.div_mod w 1024). pose proof (Z.mod_pos_bound w 1024).
    unfold PTSIZE. lia.
Qed.

(** * Leaving an address space *)

(** [cur] runs in address space [k], which has all its pages and tables in its areas, and no frame of which is mapped
    elsewhere. *)
Record exitable (boot : Z) (s : astate) (cur k : Z) (x : aspace) : Prop := {
  ex_mm : mm_of s !! cur = Some k;
  ex_space : mms s !! k = Some x;
  ex_count : 1 ≤ mm_count (a_mm x);
  ex_areas : mm_ok (a_mm x) ∧ Forall (user_area lo hi) (areas (a_mm x));
  ex_dir : space_ok (amc s) (a_pgdir x);
  ex_used f : owns lo hi (amc s) (a_pgdir x) f → f ∈ used (amc s);
  ex_refs f : mapped (amc s) (a_pgdir x) f → ref_of (amc s) f = count (pte_at (amc s) (a_pgdir x)) f range_pages;
  ex_pages v : in_range v → present (pte_at (amc s) (a_pgdir x) v) = true → in_areas (areas (a_mm x)) v;
  ex_tables y : lo ≤ y < hi → present (pde_at (amc s) (a_pgdir x) y) = true → ∃ w, in_areas (areas (a_mm x)) w ∧ w / 1024 = y;
  ex_boot : boot ≠ a_pgdir x }.

(** What is left when all frames of directory [d] were released. *)
Record gone (d : Z) m m' : Prop := {
  go_inv : pm_inv (pm m');
  go_cr3 : cr3 m' = cr3 m;
  go_free f : f ∈ pm_free (pm m') ↔ f ∈ pm_free (pm m) ∨ owns lo hi m d f;
  go_kept f : f ∈ used m → ¬ owns lo hi m d f → ref_of m' f = ref_of m f ∧ ∀ i, read m' (f, i) = read m (f, i) }.

Lemma area_ptrs t p : mm_ok t → Forall (user_area lo hi) (areas t) → p ∈ mmap_list t → ∃ v, vmas t !! p = Some v ∧ user_area lo hi v.
Proof.
  intros Hok Hu Hp. destruct (mo_alive _ Hok p Hp) as [v Hv]. exists v. split; [done|]. rewrite Forall_forall in Hu. apply Hu.
  unfold areas. apply list_elem_of_omap. by exists p.
Qed.

(** [exit_mmap] and then [put_pgdir]. *)
Lemma exit_mmap_run t d m :
  mm_ok t → mm_count t = 0 → Forall (user_area lo hi) (areas t) → space_ok m d → (∀ f, owns lo hi m d f → f ∈ used m) →
  (∀ f, mapped m d f → ref_of m f = count (pte_at m d) f range_pages) →
  (∀ v, in_range v → present (pte_at m d v) = true → in_areas (areas t) v) →
  (∀ y, lo ≤ y < hi → present (pde_at m d y) = true → ∃ w, in_areas (areas t) w ∧ w / 1024 = y) →
  ∃ m1 m2, exit_mmap t d m = Ret (tt, m1) ∧ (p ← pa2page (page2pa d); free_page p) m1 = Ret (tt, m2) ∧ gone d m m2.
Proof.
  intros Ht Hcnt Hua Hok Hused Href Hpg Htb. pose proof (area_ptrs t) as Hptr.
  destruct (unmap_areas_run d t m (mmap_list t) m) as (ma & Hrun1 & Hs & Hno); [by apply shed_refl|intros p Hp; by apply Hptr|].
  assert (∀ w, in_range w → present (pte_at ma d w) = false) as Hnone.
  { intros w Hw. destruct (present (pte_at ma d w)) eqn:Hp; [|done]. destruct (Hno w Hw Hp) as [Hp0 Hni]. destruct Hni. by apply Hpg. }
  assert (∀ f, f ∈ pm_free (pm ma) ↔ f ∈ pm_free (pm m) ∨ mapped m d f) as Hfa.
  { intros f. split; [apply (sh_free _ _ _ Hs)|]. intros [Hf|Hf]; [by apply (sh_grow _ _ _ Hs)|].
    destruct (decide (f ∈ pm_free (pm ma))) as [|Hnf]; [done|]. exfalso.
    assert (f ∈ used m) as Hfu by (apply Hused; by right; right).
    destruct (sh_owned _ _ _ Hs f Hf) as [_ Hpos].
    - unfold used. apply elem_of_difference. split; [|done]. rewrite (sh_frames _ _ _ Hs). by apply used_frames.
    - rewrite count_zero in Hpos; [lia|]. intros v Hv [Hp _]. apply range_pages_elem in Hv. by rewrite Hnone in Hp. }
  assert (bare d ma) as Hbare.
  { pose proof (sh_ok _ _ _ Hs) as Hoka. split; [apply Hoka|apply Hoka|apply (so_table _ _ _ _ Hoka)|apply (so_inj _ _ _ _ Hoka)]. }
  destruct (exit_areas_run d t ma (mmap_list t) ma) as (mb & Hrun2 & Hr & _ & Hgone); [by apply released_refl|intros p Hp; by apply Hptr|].
  assert (∀ f, f ∈ pm_free (pm mb) ↔ f ∈ pm_free (pm m) ∨ mapped m d f ∨ ∃ y, lo ≤ y < hi ∧ maps (pde_at m d y) f) as Hfb.
  { intros f. rewrite (rl_free _ _ _ Hr), Hfa. split.
    - intros [[Hf|Hf]|(y & Hy & Hm & _)]; [by left|by right; left|]. right. right. exists y. by rewrite <-(sh_pde _ _ _ Hs).
    - intros [Hf|[Hf|(y & Hy & Hm)]]; [by left; left|by left; right|]. right. exists y. rewrite (sh_pde _ _ _ Hs). split_and!; [lia|lia|done|].
      destruct (Htb y Hy (proj1 Hm)) as (w & Hw & <-). by apply Hgone. }
  assert (d ∈ used mb) as Hdu.
  { assert (d ∈ used m) as Hd by (apply Hused; by left). unfold used. apply elem_of_difference.
    rewrite (rl_frames _ _ _ Hr), (sh_frames _ _ _ Hs). split; [by apply used_frames|]. rewrite Hfb.
    intros [Hf|[(v & Hv & Hp & Hm)|(y & Hy & Hp & Hm)]].
    - by apply used_not_free in Hd.
    - destruct (so_map _ _ _ _ Hok v Hv Hp) as [_ [Hne _]]. done.
    - by destruct (so_table _ _ _ _ Hok y Hy Hp). }
  destruct (rl_bare _ _ _ Hr) as [Hbi Hbn _ _].
  destruct (pm_release (pm mb) d 1 Hbi) as (x & Hrel & Hxi & Hxfr & Hxfree & Hxr); [lia|by rewrite frames_one, singleton_subseteq_l|].
  rewrite frames_one in Hxfree, Hxr. exists mb, (set_pm mb x). split_and!.
  - unfold exit_mmap. step using (unfold assert; rewrite Hcnt; reflexivity). by step using (exact Hrun1).
  - assert (pa2page (page2pa d) mb = Ret (d, mb)) as Hp.
    { unfold pa2page, mbind, M_bind, gets. rewrite PPN_page2pa, (proj2 (Z.leb_gt _ _)); [done|]. by apply Hbn, used_frames. }
    step using (exact Hp). unfold free_page, lift_pm. by rewrite Hrel.
  - split.
    + done.
    + cbn [cr3 set_pm]. rewrite (rl_cr3 _ _ _ Hr). apply (sh_cr3 _ _ _ Hs).
    + intros f. cbn [pm set_pm]. rewrite Hxfree, elem_of_union, elem_of_singleton, Hfb. unfold owns, mapped, maps. tauto.
    + intros f Hf Hno'. assert (f ≠ d) as Hfd by (intros ->; apply Hno'; by left).
      assert (¬ mapped m d f) as Hnm by (intros H; apply Hno'; by right; right).
      assert (data_frame m d f) as Hdf.
      { split; [done|]. intros y Hy Hp Heq. apply Hno'. right. left. by exists y. }
      destruct (sh_other _ _ _ Hs f Hf Hnm) as [Hfa' Hra].
      assert (f ∉ pm_free (pm mb)) as Hnf.
      { rewrite Hfb. intros [H|[H|(y & Hy & Hp & Hm)]]; [by apply used_not_free in Hf|done|]. by apply (proj2 Hdf y). }
      split.
      * transitivity (ref_of mb f); [unfold ref_of; cbn [pm set_pm]; rewrite Hxr; [done|set_solver]|].
        rewrite (rl_refs _ _ _ Hr); [done|]. unfold used. apply elem_of_difference. split; [|done].
        rewrite (rl_frames _ _ _ Hr). by apply used_frames.
      * intros i. change (read mb (f, i) = read m (f, i)). rewrite (rl_words _ _ _ Hr) by done. by apply (sh_words _ _ _ Hs).
Qed.

(** The machine after [lcr3(boot_cr3)]. *)
Definition on_boot (boot : Z) m : machine := mkMachine (pm m) (mem m) (npage m) boot ∅ (swap_init_ok m).

Lemma boot_ok boot m d : space_ok m d → boot ≠ d → space_ok (on_boot boot m) d.
Proof. intros [] Hne. by split. Qed.

(** A process that leaves its address space, in [do_exit] or for another program, goes on with the directory of
    the kernel.  When it was the last user, the address space is gone and exactly the frames of it have become free:
    the directory, the tables and the pages; otherwise no frame is freed and the count has gone down.  Every other
    frame in use keeps its words and its references. *)
Lemma exit_mm_run boot (s : astate) cur k x :
  exitable boot s cur k x →
  let n := mm_count (a_mm x) in let m := amc s in
  ∃ m', exit_mm boot cur s =
      Ret (tt, mkAstate m' (if decide (n = 1) then delete k (mms s)
                            else <[k := mkAspace (set_mm_count (a_mm x) (n - 1)) (a_pgdir x) (a_locked x)]> (mms s))
                 (delete cur (mm_of s)) (cr3_of s) (swapq s)) ∧
    pm_inv (pm m') ∧ cr3 m' = boot ∧
    (∀ f, f ∈ pm_free (pm m') ↔ f ∈ pm_free (pm m) ∨ n = 1 ∧ owns lo hi m (a_pgdir x) f) ∧
    ∀ f, f ∈ used m → n ≠ 1 ∨ ¬ owns lo hi m (a_pgdir x) f → ref_of m' f = ref_of m f ∧ ∀ i, read m' (f, i) = read m (f, i).
Proof.
  intros [Hmm Hsp Hcnt [Ht Hua] Hok Hused Href Hpg Htb Hboot] n m. set (d := a_pgdir x) in *. set (m1 := on_boot boot m).
  set (t' := set_mm_count (a_mm x) (n - 1)). set (x' := mkAspace t' d (a_locked x)).
  set (s1 := mkAstate m1 (<[k := x']> (mms s)) (mm_of s) (cr3_of s) (swapq s)).
  assert (lcr3_boot boot s = Ret (tt, set_amc s m1)) as Hlcr by reflexivity.
  assert (mm_count_add k (-1) (set_amc s m1) = Ret (n - 1, s1)) as Hdec.
  { unfold mm_count_add. step using (by apply (space_at_run (set_amc s m1))). cbv zeta. step using reflexivity. done. }
  assert (∀ c, (when (n - 1 =? 0) (exit_space k ;; put_pgdir k ;; destroy_space k)) s1 = Ret (tt, c) →
    exit_mm boot cur s = Ret (tt, mkAstate (amc c) (mms c) (delete cur (mm_of c)) (cr3_of c) (swapq c))) as Hrest.
  { intros c Hc. unfold exit_mm. step using (unfold gets; rewrite Hmm; reflexivity). cbv iota. step using (exact Hlcr).
    step using (exact Hdec). step using (exact Hc). done. }
  destruct (decide (n = 1)) as [Hn|Hn].
  - destruct (exit_mmap_run t' d m1) as (ma & mb & Hex & Hput & [Hgi Hgc Hgf Hgk]).
    + by destruct Ht; split.
    + cbn [mm_count t' set_mm_count]. lia.
    + done.
    + by apply boot_ok.
    + exact Hused.
    + exact Href.
    + exact Hpg.
    + exact Htb.
    + set (s2 := mkAstate ma (<[k := x']> (mms s)) (mm_of s) (cr3_of s) (swapq s)). set (s3 := set_amc s2 mb).
      assert (space_at k s1 = Ret (x', s1)) as E1 by (apply space_at_run, lookup_insert_eq).
      assert (exit_space k s1 = Ret (tt, s2)) as He.
      { unfold exit_space. step using (exact E1). unfold in_amc. cbn [amc s1 a_mm a_pgdir x']. by rewrite Hex. }
      assert (put_pgdir k s2 = Ret (tt, s3)) as Hp.
      { unfold put_pgdir. step using (apply space_at_run, lookup_insert_eq). cbn [a_pgdir x'].
        apply M_bind_Ret in Hput as (p & c & Hp1 & Hp2). step using (unfold in_amc; cbn [amc s2]; rewrite Hp1; reflexivity).
        unfold in_amc. cbn [amc set_amc]. by rewrite Hp2. }
      assert (destroy_space k s3 = Ret (tt, set_mms s3 (delete k (mms s3)))) as Hdes.
      { unfold destroy_space. step using (apply (space_at_run s3 k x'), lookup_insert_eq). unfold mm_destroy, mbind, M_bind, gets, assert.
        cbn [a_mm x' t' mm_count set_mm_count]. by rewrite Hn. }
      exists mb. split_and!.
      * erewrite Hrest.
        2: { rewrite Hn. change (1 - 1 =? 0) with true. unfold when. step using (exact He). step using (exact Hp). exact Hdes. }
        cbn [amc mms mm_of cr3_of set_mms s3 set_amc s2]. by rewrite delete_insert_eq.
      * done.
      * done.
      * intros f. rewrite Hgf. change (owns lo hi m1 d f) with (owns lo hi m d f). change (pm m1) with (pm m). intuition.
      * intros f Hf [Hno|Hno]; [done|]. by apply Hgk.
  - exists m1. split_and!; [|apply Hok|done|intros f; change (pm m1) with (pm m); intuition|done].
    rewrite (Hrest s1); [done|]. unfold when. by rewrite (proj2 (Z.eqb_neq _ _)) by lia.
Qed.


End exit.

(** The process of AddrSpace.v, as the only user of its address space. *)
#[local] Existing Instance FitAlloc.firstfit_pmm_manager.
#[local] Existing Instance FitAlloc.firstfit_laws.
#[local] Existing Instance PageTable.no_swap.

Definition demo_user_mm : mm_struct := set_mm_count demo_mm 1.
Definition demo_leaving : astate (S := Frames.pmm) :=
  mkAstate demo_parent {[ 1 := mkAspace demo_user_mm 4 false ]} {[ 5 := 1 ]} {[ 5 := page2pa 4 ]} (mkQueue [] ∅).

Lemma demo_exitable : exitable user_lo user_hi 0 demo_leaving 5 1 (mkAspace demo_user_mm 4 false).
Proof.
  destruct demo_forkable as [_ _ _ [Hok Hua] Hdir Hused _ _]. destruct demo_parent_ok as (_ & Hpde & Hpte).
  assert (∀ v, in_range user_lo user_hi v → present (pte_at demo_parent 4 v) = true → v = 2048) as Honly.
  { intros v Hv Hp. rewrite Hpte, demo_page_pte in Hp by done. by case_decide. }
  split; [reflexivity|reflexivity|vm_compute; discriminate| |exact Hdir|exact Hused| | | |done].
  - split; [by destruct Hok; split|exact Hua].
  - intros f (v & Hv & Hp & Hf). cbn [amc demo_leaving a_pgdir] in *. pose proof (Honly v Hv Hp) as ->.
    rewrite Hpte, demo_page_pte, decide_True in Hf by done. change (frame_of demo_entry) with 2 in Hf. subst f.
    set (g := λ w, if decide (w = 2048) then demo_entry else 0).
    rewrite (count_ext _ g) by (intros w Hw; apply range_pages_elem in Hw; by rewrite Hpte, demo_page_pte).
    assert (2048 ∈ range_pages user_lo user_hi) as Hin by (by apply range_pages_elem).
    pose proof (count_update (λ _, 0) g 2 2048 (range_pages user_lo user_hi) (NoDup_seqZ _ _) Hin) as Hc.
    rewrite (count_zero (λ _, 0)) in Hc by (by intros w _ [? _]).
    rewrite (decide_False (P := maps 0 2)), (decide_True (P := maps (g 2048) 2)) in Hc by (vm_compute; intuition discriminate).
    assert (ref_of demo_parent 2 = 1) as -> by (vm_compute; reflexivity).
    rewrite Z.add_0_r in Hc. rewrite Hc; [done|]. intros w Hw. unfold g. by rewrite decide_False.
  - intros v Hv Hp. rewrite (Honly v Hv Hp). left. vm_compute. intuition discriminate.
  - intros y Hy Hp. cbn [amc demo_leaving a_pgdir] in Hp. exists 2048. split; [left; vm_compute; intuition discriminate|].
    rewrite Hpde in Hp. unfold demo_page in Hp. rewrite (pde_with_pte user_lo user_hi) in Hp; [|apply demo_table4|apply user_range; lia|done].
    unfold demo_dir in Hp. rewrite pde_with_table in Hp by done. case_decide as Hd; [by subst y|by rewrite demo_pde4 in Hp].
Qed.

End ExitSpace.
