(* ===== verification/Slob.v ===== *)
(** The kernel heap, kern/mm/kmalloc.c: a list of free blocks sorted by address, in units of eight
    bytes, over whole pages; larger objects are pages of their own, kept on a second list.

    An address is the number of a byte.  [cells] are the block headers in memory, also of blocks in use;
    [bigs] the [bigblock] descriptors.  The page allocator below is the class [page_env].  Interrupts are
    disabled while the lists are changed, so that a call is one step. *)
From S2P Require Import Prelude.

Module Slob.
Set Default Proof Using "Type".

Record slob_block := mkCell { units : Z; next : Z }.
Record bigblock := mkBig { order : Z; bpages : Z; bnext : Z }.

Definition PAGE_SIZE : Z := PGSIZE.
Definition SLOB_UNIT : Z := 8.
Definition bigblock_size : Z := 12.
Definition SLOB_UNITS (size : Z) : Z := u32 (size + SLOB_UNIT - 1) / SLOB_UNIT.
Definition ALIGN (addr size : Z) : Z := Z.land (u32 (addr + size - 1)) (Z.lnot (size - 1)).

(** Allocation of [2 ^ order] pages, which answers an address or NULL, and their release, with the
    state [P] of the page allocator. *)
Class page_env (P : Type) := {
  __slob_get_free_pages : Z → M P Z;
  __slob_free_pages : Z → Z → M P unit }.

(** The static block [arena], at a fixed address, is the head of the list of free blocks. *)
Class arena_env := { arena : Z }.

(** Things that occupy numbers, pairwise disjoint. *)
Fixpoint disj {A} (mem : Z → A → Prop) (l : list A) : Prop :=
  match l with
  | [] => True
  | a :: l' => (∀ x, mem x a → ¬ Exists (mem x) l') ∧ disj mem l'
  end.

Section disj.
Context {A : Type} (mem : Z → A → Prop).

Lemma disj_app l k : disj mem (l ++ k) ↔ disj mem l ∧ disj mem k ∧ ∀ x, Exists (mem x) l → ¬ Exists (mem x) k.
Proof.
  induction l as [|a l IH]; simpl; [split; [intros; split_and!; try done; intros x Hx; by inversion Hx|naive_solver]|].
  rewrite IH. split.
  - intros (H1 & H2 & H3 & H4). split_and!; try done.
    + intros x Hx Hc. apply (H1 x Hx). rewrite Exists_app. by left.
    + intros x. rewrite Exists_cons. intros [Hx|Hx]; [|by apply H4]. intros Hc. apply (H1 x Hx). rewrite Exists_app. by right.
  - intros ((H1 & H2) & H3 & H4). split_and!; try done.
    + intros x Hx. rewrite Exists_app. intros [Hc|Hc]; [by apply (H1 x)|]. apply (H4 x); [by rewrite Exists_cons; left|done].
    + intros x Hx. apply H4. rewrite Exists_cons. by right.
Qed.

#[global] Instance disj_perm : Proper ((≡ₚ) ==> iff) (disj mem).
Proof.
  assert (∀ l k, l ≡ₚ k → disj mem l → disj mem k) as H.
  { induction 1 as [|a l k Hl IH|a b l|l k m _ IH1 _ IH2]; simpl; [done| | |by auto].
    - intros [H1 H2]. split; [|by auto]. intros x Hx. by rewrite <-Hl; apply H1.
    - intros (H1 & H2 & H3). split_and!; try done.
      + intros x Hx. rewrite Exists_cons. intros [Hb|Hc]; [|by apply (H2 x)]. apply (H1 x Hb). rewrite Exists_cons. by left.
      + intros x Hx Hc. apply (H1 x Hx). rewrite Exists_cons. by right. }
  intros l k Hl. split; apply H; [done|by symmetry].
Qed.

(** Removing a thing from the middle. *)
Lemma disj_middle l a k : disj mem (l ++ a :: k) → disj mem (l ++ k) ∧ ∀ x, mem x a → ¬ Exists (mem x) (l ++ k).
Proof. rewrite <-Permutation_middle. simpl. naive_solver. Qed.
End disj.

(** Things that lie in disjoint things are disjoint. *)
Lemma disj_fmap {A B} (mem : Z → A → Prop) (mem' : Z → B → Prop) (g : Z → Z) (f : A → B) l :
  (∀ x a, a ∈ l → mem' x (f a) → mem (g x) a) → disj mem l → disj mem' (f <$> l).
Proof.
  induction l as [|a l IH]; simpl; [done|]. intros Hf [H1 H2]. split; [|by apply IH; [intros; apply Hf; [by right|done]|]].
  intros x Hx Hex. apply (H1 (g x)); [by apply Hf; [left|]|]. change (Exists (mem' x) (f <$> l)) in Hex.
  apply Exists_exists in Hex as (b & (c & -> & Hc)%list_elem_of_fmap & Hb). apply Exists_exists. exists c. split; [done|]. apply Hf; [by right|done].
Qed.

Section slob.
Context {P : Type} `{PE : page_env P} `{AE : arena_env}.

Record slob := mkSlob { cells : gmap Z slob_block; slobfree : Z; bigs : gmap Z bigblock; bigblocks : Z; pm : P }.

Definition set_cells (s : slob) x := mkSlob x (slobfree s) (bigs s) (bigblocks s) (pm s).
Definition set_slobfree (s : slob) x := mkSlob (cells s) x (bigs s) (bigblocks s) (pm s).
Definition set_bigs (s : slob) x := mkSlob (cells s) (slobfree s) x (bigblocks s) (pm s).
Definition set_bigblocks (s : slob) x := mkSlob (cells s) (slobfree s) (bigs s) x (pm s).
Definition set_pm (s : slob) x := mkSlob (cells s) (slobfree s) (bigs s) (bigblocks s) x.

(** The state before the first allocation. *)
Definition slob_boot (p : P) : slob := mkSlob {[arena := mkCell 1 arena]} arena ∅ 0 p.

Definition cell (a : Z) : M slob slob_block := deref (λ s, cells s !! a).
Definition store (a : Z) (c : slob_block) : M slob unit := modify (λ s, set_cells s (<[a := c]> (cells s))).
Definition store_next (a n : Z) : M slob unit := c ← cell a; store a (mkCell (units c) n).
Definition store_units (a u : Z) : M slob unit := c ← cell a; store a (mkCell u (next c)).
Definition big (a : Z) : M slob bigblock := deref (λ s, bigs s !! a).
Definition pm_do {A} (m : M P A) : M slob A := λ s,
  match m (pm s) with Ret (a, p) => Ret (a, set_pm s p) | Err e => Err e end.

(** The search for the block after which [b] belongs. *)
Fixpoint free_loop (fuel : nat) (b cur : Z) : M slob Z :=
  match fuel with
  | O => fail EFuel
  | S fuel' =>
      c ← cell cur;
      if (cur <? b) && (b <? next c) then mret cur
      else if (next c <=? cur) && ((cur <? b) || (b <? next c)) then mret cur
      else free_loop fuel' b (next c)
  end.

(** Linking the block [b], whose header has its size, into the list. *)
Definition slob_insert (b : Z) : M slob unit :=
  s ← get;
  cur ← free_loop (S (base.size (cells s))) b (slobfree s);
  c ← cell cur;
  cb ← cell b;
  (if u32 (b + SLOB_UNIT * units cb) =? next c then
     n ← cell (next c);
     store b (mkCell (s32 (units cb + units n)) (next n))
   else store b (mkCell (units cb) (next c))) ;;
  cb ← cell b;
  c ← cell cur;
  (if u32 (cur + SLOB_UNIT * units c) =? b then store cur (mkCell (s32 (units c + units cb)) (next cb))
   else store cur (mkCell (units c) b)) ;;
  modify (λ s, set_slobfree s cur).

(** [slob_free]; a [size] of zero means that the header has it. *)
Definition slob_free (b size : Z) : M slob unit :=
  if b =? 0 then mret tt else
  (if negb (size =? 0) then n ← gets (λ s, from_option next 0 (cells s !! b)); store b (mkCell (SLOB_UNITS size) n)
   else mret tt) ;;
  slob_insert b.

(** Taking [n] units from the block [cur] behind [prev], after [delta] units for alignment. *)
Definition slob_take (n delta prev cur aligned : Z) : M slob Z :=
  '(prev, cur) ←
    (if negb (delta =? 0) then
       c ← cell cur;
       store aligned (mkCell (units c - delta) (next c)) ;;
       store cur (mkCell delta aligned) ;;
       mret (cur, aligned)
     else mret (prev, cur));
  c ← cell cur;
  (if units c =? n then store_next prev (next c)
   else
     let rest := u32 (cur + SLOB_UNIT * n) in
     store_next prev rest ;;
     c ← cell cur;
     store rest (mkCell (units c - n) (next c)) ;;
     store_units cur n) ;;
  modify (λ s, set_slobfree s prev) ;;
  mret cur.

Fixpoint alloc_loop (fuel : nat) (size n align prev cur : Z) : M slob Z :=
  match fuel with
  | O => fail EFuel
  | S fuel' =>
      c ← cell cur;
      let aligned := if align =? 0 then 0 else ALIGN cur align in
      let delta := if align =? 0 then 0 else (aligned - cur) / SLOB_UNIT in
      if n + delta <=? units c then slob_take n delta prev cur aligned
      else
        s ← get;
        if cur =? slobfree s then
          if size =? PAGE_SIZE then mret 0 else
          p ← pm_do (__slob_get_free_pages 0);
          if p =? 0 then mret 0 else
          slob_free p PAGE_SIZE ;;
          s ← get;
          c ← cell (slobfree s);
          alloc_loop fuel' size n align (slobfree s) (next c)
        else alloc_loop fuel' size n align cur (next c)
  end.

(** The fuel: once around the list, one more block after a page was added, and around again. *)
Definition slob_alloc (size align : Z) : M slob Z :=
  assert (u32 (size + SLOB_UNIT) <? PAGE_SIZE) ;;
  s ← get;
  c ← cell (slobfree s);
  alloc_loop (2 * base.size (cells s) + 4) size (SLOB_UNITS size) align (slobfree s) (next c).

Fixpoint order_loop (fuel : nat) (size order : Z) : Z :=
  match fuel with
  | O => order
  | S fuel' => if 4096 <? size then order_loop fuel' (Z.shiftr size 1) (order + 1) else order
  end.
Definition find_order (size : Z) : Z := order_loop 32 (s32 size) 0.

Definition __kmalloc (size : Z) : M slob Z :=
  if size <? PAGE_SIZE - SLOB_UNIT then
    m ← slob_alloc (size + SLOB_UNIT) 0;
    mret (if m =? 0 then 0 else u32 (m + SLOB_UNIT))
  else
    bb ← slob_alloc bigblock_size 0;
    if bb =? 0 then mret 0 else
    let o := find_order size in
    pages ← pm_do (__slob_get_free_pages o);
    if negb (pages =? 0) then
      modify (λ s, set_bigblocks (set_bigs s (<[bb := mkBig o pages (bigblocks s)]> (bigs s))) bb) ;;
      mret pages
    else slob_free bb bigblock_size ;; mret 0.
Definition kmalloc (size : Z) : M slob Z := __kmalloc size.

(** The walk over the big blocks: [last] is the descriptor whose link leads to [bb], if there is one.
    The answer is the descriptor of [block]. *)
Fixpoint big_loop (fuel : nat) (block : Z) (last : option Z) (bb : Z) : M slob (option (option Z * Z * bigblock)) :=
  match fuel with
  | O => fail EFuel
  | S fuel' =>
      if bb =? 0 then mret None else
      x ← big bb;
      if bpages x =? block then mret (Some (last, bb, x)) else big_loop fuel' block (Some bb) (bnext x)
  end.

Definition find_big (block : Z) : M slob (option (option Z * Z * bigblock)) :=
  s ← get;
  if Z.land block (PAGE_SIZE - 1) =? 0 then big_loop (S (base.size (bigs s))) block None (bigblocks s) else mret None.

Definition unlink_big (last : option Z) (n : Z) : M slob unit :=
  match last with
  | None => modify (λ s, set_bigblocks s n)
  | Some l => y ← big l; modify (λ s, set_bigs s (<[l := mkBig (order y) (bpages y) n]> (bigs s)))
  end.

Definition kfree (block : Z) : M slob unit :=
  if block =? 0 then mret tt else
  r ← find_big block;
  match r with
  | Some (last, bb, x) =>
      unlink_big last (bnext x) ;;
      pm_do (__slob_free_pages block (order x)) ;;
      modify (λ s, set_bigs s (delete bb (bigs s))) ;;
      slob_free bb bigblock_size
  | None => slob_free (block - SLOB_UNIT) 0
  end.

Definition ksize (block : Z) : M slob Z :=
  if block =? 0 then mret 0 else
  r ← find_big block;
  match r with
  | Some (_, _, x) => mret (u32 (Z.shiftl PAGE_SIZE (order x)))
  | None => c ← cell (block - SLOB_UNIT); mret (u32 (units c * SLOB_UNIT))
  end.

(** * The list of free blocks *)

(** A free block is its address and its number of units.  [chain h L e]: the blocks are linked in order,
    the last one to [e]. *)
Notation blk := (Z * Z)%type.
Definition hd (e : Z) (L : list blk) : Z := from_option fst e (head L).

Fixpoint chain (h : gmap Z slob_block) (L : list blk) (e : Z) : Prop :=
  match L with
  | [] => True
  | b :: L' => h !! b.1 = Some (mkCell b.2 (hd e L')) ∧ chain h L' e
  end.

(** Ascending, with gaps: adjacent blocks are always merged. *)
Fixpoint spaced (lo : Z) (L : list blk) : Prop :=
  match L with
  | [] => lo < 2 ^ 32
  | b :: L' => lo < b.1 ∧ 0 < b.2 ∧ b.1 mod 8 = 0 ∧ spaced (b.1 + 8 * b.2) L'
  end.

(** The free list: [arena], one unit that is never given away, and the blocks of [L] behind it. *)
Record slob_ok (s : slob) (L : list blk) : Prop := {
  ok_chain : chain (cells s) ((arena, 1) :: L) arena;
  ok_spaced : spaced (arena + 8) L;
  ok_arena : 0 < arena;
  ok_free : slobfree s ∈ arena :: L.*1 }.

(** The bytes of a block, of a list of blocks. *)
Definition inside (x : Z) (b : blk) : Prop := b.1 ≤ x < b.1 + 8 * b.2.
Definition covers (L : list blk) (x : Z) : Prop := Exists (inside x) L.

Lemma hd_app e L1 L2 : hd e (L1 ++ L2) = hd (hd e L2) L1.
Proof. by destruct L1. Qed.

Lemma chain_app h L1 L2 e : chain h (L1 ++ L2) e ↔ chain h L1 (hd e L2) ∧ chain h L2 e.
Proof. induction L1 as [|b L1 IH]; simpl; [naive_solver|]. rewrite IH, hd_app. naive_solver. Qed.

(** A circular list can be entered anywhere. *)
Lemma chain_rotate h L1 L2 : chain h (L1 ++ L2) (hd 0 (L1 ++ L2)) → chain h (L2 ++ L1) (hd 0 (L2 ++ L1)).
Proof.
  destruct L1 as [|b1 L1]; [by rewrite app_nil_r|]. destruct L2 as [|b2 L2]; [by rewrite app_nil_r|].
  rewrite !chain_app, !hd_app. simpl. naive_solver.
Qed.

Lemma chain_insert h L e a c : a ∉ L.*1 → chain h L e → chain (<[a := c]> h) L e.
Proof.
  induction L as [|b L IH]; [done|]. rewrite fmap_cons, not_elem_of_cons. simpl. intros [Hne Hn] [Hb Hc].
  split; [by rewrite lookup_insert_ne|by apply IH].
Qed.

Lemma chain_lookup h L1 b L2 e : chain h (L1 ++ b :: L2) e → h !! b.1 = Some (mkCell b.2 (hd e L2)).
Proof. rewrite chain_app. simpl. naive_solver. Qed.

Lemma spaced_app lo L1 L2 : spaced lo (L1 ++ L2) → ∃ lo', lo ≤ lo' ∧ spaced lo' L2 ∧ Forall (λ b, lo < b.1 ∧ 0 < b.2 ∧ b.1 + 8 * b.2 ≤ lo') L1.
Proof.
  revert lo. induction L1 as [|b L1 IH]; intros lo; simpl; [exists lo; split_and!; [lia|done|constructor]|].
  intros (H1 & H2 & H3 & (lo' & Hlo & Hs & Hall)%IH). exists lo'. split_and!; [lia|done|]. constructor; [lia|].
  eapply Forall_impl; [exact Hall|]. intros c. simpl. lia.
Qed.

Lemma spaced_all lo L : spaced lo L → Forall (λ b, lo < b.1 ∧ 0 < b.2 ∧ b.1 + 8 * b.2 < 2 ^ 32 ∧ b.1 mod 8 = 0) L ∧ lo < 2 ^ 32.
Proof.
  revert lo. induction L as [|b L IH]; intros lo; simpl; [done|]. intros (H1 & H2 & H3 & [Hall Hb]%IH). split; [|lia].
  constructor; [lia|]. eapply Forall_impl; [exact Hall|]. intros c. simpl. lia.
Qed.

Lemma spaced_weaken lo lo' L : lo' ≤ lo → spaced lo L → spaced lo' L.
Proof. destruct L; simpl; [lia|]. intros ? (? & ? & ? & ?). split_and!; try done. lia. Qed.

(** Replacing the part behind [L1]. *)
Lemma spaced_replace lo L1 L2 L2' : spaced lo (L1 ++ L2) → (∀ lo', spaced lo' L2 → lo ≤ lo' → spaced lo' L2') → spaced lo (L1 ++ L2').
Proof.
  revert lo. induction L1 as [|b L1 IH]; intros lo; simpl; [intros H Hr; apply Hr; [done|lia]|].
  intros (H1 & H2 & H3 & H4) Hr. split_and!; try done. apply IH; [done|]. intros lo' Hs Hlo. apply Hr; [done|lia].
Qed.

Lemma covers_app L1 L2 x : covers (L1 ++ L2) x ↔ covers L1 x ∨ covers L2 x.
Proof. apply Exists_app. Qed.
Lemma covers_cons b L x : covers (b :: L) x ↔ inside x b ∨ covers L x.
Proof. apply Exists_cons. Qed.

(** * Freeing *)

Fixpoint asc (lo : Z) (L : list blk) : Prop :=
  match L with
  | [] => True
  | b :: L' => lo < b.1 ∧ asc b.1 L'
  end.

Lemma spaced_asc lo lo' L : spaced lo L → lo' ≤ lo → asc lo' L.
Proof. revert lo lo'. induction L as [|b L IH]; intros lo lo'; simpl; [done|]. intros (? & ? & ? & ?) ?. split; [lia|]. eapply IH; [done|lia]. Qed.

(** The test that ends the search. *)
Definition stop (b a n : Z) : bool := (a <? b) && (b <? n) || (n <=? a) && ((a <? b) || (b <? n)).

Fixpoint nostop (b : Z) (X : list blk) (e : Z) : Prop :=
  match X with
  | [] => True
  | d :: X' => stop b d.1 (hd e X') = false ∧ nostop b X' e
  end.

Lemma nostop_app b X Y e : nostop b (X ++ Y) e ↔ nostop b X (hd e Y) ∧ nostop b Y e.
Proof. induction X as [|d X IH]; simpl; [naive_solver|]. rewrite IH, hd_app. naive_solver. Qed.

Ltac stop_false :=
  unfold stop; apply orb_false_iff; split;
  [apply andb_false_iff; rewrite ?Z.ltb_ge|apply andb_false_iff; rewrite ?orb_false_iff, ?Z.leb_gt, ?Z.ltb_ge]; lia.

Lemma nostop_low b e lo X : asc lo X → Forall (λ d, d.1 < e) X → e < b → nostop b X e.
Proof.
  intros Ha Hf He. revert lo Ha. induction Hf as [|d X Hd Hf IH]; intros lo; simpl; [done|]. intros [_ Ha]. split; [|by eapply IH].
  assert (d.1 < hd e X ∧ hd e X ≤ e); [|stop_false].
  destruct X as [|d' X]; [unfold hd; simpl; lia|]. apply Forall_cons_1 in Hf. simpl in *. unfold hd. simpl. lia.
Qed.

Lemma nostop_high b e lo X : asc lo X → Forall (λ d, b < d.1) X → e < b → nostop b X e.
Proof.
  intros Ha Hf He. revert lo Ha. induction Hf as [|d X Hd Hf IH]; intros lo; simpl; [done|]. intros [_ Ha]. split; [|by eapply IH].
  destruct X as [|d' X]; unfold hd; simpl in *; stop_false.
Qed.

Lemma free_walk (s : slob) b e R1 c R2 fuel : chain (cells s) (R1 ++ c :: R2) e → nostop b R1 c.1 → stop b c.1 (hd e R2) = true →
  (length R1 < fuel)%nat → free_loop fuel b (hd e (R1 ++ c :: R2)) s = Ret (c.1, s).
Proof.
  intros Hc Hn Hs. revert fuel Hc Hn. induction R1 as [|d R1 IH]; intros [|fuel] Hc Hn Hf; simpl in Hf; try lia.
  - destruct Hc as [Hc _]. change (hd e ([] ++ c :: R2)) with c.1. cbn [free_loop].
    step using (unfold cell, deref; rewrite Hc; reflexivity). cbn [next]. unfold stop in Hs.
    destruct (_ && (b <? _)) eqn:E1; [done|]. simpl in Hs. by rewrite Hs.
  - destruct Hc as [Hd Hc], Hn as [Hsd Hn]. change (hd e ((d :: R1) ++ c :: R2)) with d.1. cbn [free_loop].
    step using (unfold cell, deref; rewrite Hd; reflexivity). cbn [next]. unfold stop in Hsd.
    assert (hd c.1 R1 = hd e (R1 ++ c :: R2)) as Heq by (by rewrite hd_app). rewrite Heq in Hsd.
    apply orb_false_iff in Hsd as [E1 E2]. change (app R1 (c :: R2)) with (R1 ++ c :: R2). rewrite E1, E2. apply IH; [done|done|lia].
Qed.

Lemma asc_split lo b L : asc lo L → b ∉ L.*1 → ∃ A B, L = A ++ B ∧ Forall (λ d, d.1 < b) A ∧ Forall (λ d, b < d.1) B.
Proof.
  revert lo. induction L as [|d L IH]; intros lo; [intros _ _; exists [], []; by repeat constructor|].
  intros [Hlo Ha]. rewrite fmap_cons, not_elem_of_cons. intros [Hne Hn]. destruct (decide (d.1 < b)) as [Hd|Hd].
  - destruct (IH _ Ha Hn) as (A & B & -> & HA & HB). exists (d :: A), B. split_and!; [done|by constructor|done].
  - exists [], (d :: L). split_and!; [done|by constructor|]. assert (b < d.1) as Hbd by lia. constructor; [done|].
    clear -Ha Hbd. revert d Ha Hbd. induction L as [|c L IH]; intros d; [constructor|]. intros [H1 H2] Hb. constructor; [lia|].
    apply (IH c); [done|lia].
Qed.

Lemma asc_bound lo L : asc lo L → Forall (λ d, lo < d.1) L.
Proof.
  revert lo. induction L as [|d L IH]; intros lo; [constructor|]. intros [H1 H2]. constructor; [done|].
  eapply Forall_impl; [by apply IH|]. simpl. lia.
Qed.

Lemma asc_NoDup lo L : asc lo L → NoDup L.*1.
Proof.
  revert lo. induction L as [|d L IH]; intros lo; [constructor|]. intros [_ Ha]. rewrite fmap_cons. constructor; [|by eapply IH].
  intros (c & Hc & Hin)%list_elem_of_fmap. pose proof (asc_bound _ _ Ha) as Hb. rewrite Forall_forall in Hb. specialize (Hb _ Hin). lia.
Qed.

Lemma chain_dom h L e a : chain h L e → a ∈ L.*1 → a ∈ dom h.
Proof.
  intros Hc (b & -> & (L1 & L2 & ->)%list_elem_of_split)%list_elem_of_fmap. apply elem_of_dom. rewrite (chain_lookup _ _ _ _ _ Hc). by eexists.
Qed.

Lemma chain_length h L lo e : chain h L e → asc lo L → (length L ≤ base.size h)%nat.
Proof.
  intros Hc Ha. rewrite <-(length_fmap fst L), <-(size_list_to_set (C := gset Z) (L.*1)) by (by eapply asc_NoDup). rewrite <-size_dom.
  apply subseteq_size. intros a. rewrite elem_of_list_to_set. by eapply chain_dom.
Qed.

(** The whole list with [arena]. *)
Definition ring (L : list blk) : list blk := (arena, 1) :: L.

Lemma ring_asc L : spaced (arena + 8) L → asc (arena - 1) (ring L).
Proof. intros Hs. split; simpl; [lia|]. eapply spaced_asc; [done|lia]. Qed.

Lemma asc_app lo A c B : asc lo (A ++ c :: B) → asc lo A ∧ Forall (λ d, d.1 < c.1) A ∧ asc c.1 B.
Proof.
  revert lo. induction A as [|d A IH]; intros lo; simpl; [naive_solver|]. intros [H1 H2]. destruct (IH _ H2) as (H3 & H4 & H5).
  split_and!; try done. constructor; [|done]. pose proof (asc_bound _ _ H2) as [_ Hb]%Forall_app. by apply Forall_cons_1 in Hb as [? _].
Qed.

(** Walking from any block around the list. *)
Lemma free_walk_ring (s : slob) b A c B fuel f : let e := hd c.1 A in chain (cells s) (A ++ c :: B) e →
  (length A + length B < fuel)%nat → e < b → e ≤ c.1 < b → nostop b A c.1 → nostop b B e →
  Forall (λ d, b < d.1) B → f ∈ (A ++ c :: B).*1 → free_loop fuel b f s = Ret (c.1, s).
Proof.
  intros e Hch Hlen He Hc NA NB HB (g & -> & Hin)%list_elem_of_fmap.
  assert (stop b c.1 (hd e B) = true) as Hstop.
  { unfold stop. destruct B as [|d B]; unfold hd; simpl.
    - rewrite (proj2 (Z.ltb_lt _ _)), (proj2 (Z.leb_le _ _)) by lia. apply orb_true_r.
    - apply Forall_cons_1 in HB as [HB _]. by rewrite (proj2 (Z.ltb_lt _ _)), (proj2 (Z.ltb_lt b _)) by lia. }
  assert (∀ X Y, X ++ Y = A ++ c :: B → chain (cells s) (Y ++ X) (hd 0 (Y ++ X))) as Hrot.
  { intros X Y HXY. apply chain_rotate. rewrite HXY. rewrite hd_app. exact Hch. }
  apply elem_of_app in Hin as [Hin|Hin]; [|apply elem_of_cons in Hin as [->|Hin]].
  - apply list_elem_of_split in Hin as (A1 & A2 & ->). specialize (Hrot A1 (g :: A2 ++ c :: B)).
    rewrite <-app_assoc in Hrot. specialize (Hrot eq_refl). apply nostop_app in NA as [_ NA].
    pose proof (free_walk s b g.1 (g :: A2) c (B ++ A1) fuel) as Hw. cbn [app] in Hrot, Hw. rewrite <-app_assoc in Hrot. apply Hw; clear Hw.
    + exact Hrot.
    + exact NA.
    + rewrite <-Hstop. f_equal. unfold e. rewrite !hd_app. done.
    + rewrite length_app in Hlen. simpl in *. lia.
  - specialize (Hrot A (c :: B) eq_refl). pose proof (free_walk s b c.1 [] c (B ++ A) fuel) as Hw. apply Hw; clear Hw.
    + exact Hrot.
    + done.
    + rewrite <-Hstop. f_equal. by rewrite hd_app.
    + simpl. lia.
  - apply list_elem_of_split in Hin as (B1 & B2 & ->). specialize (Hrot (A ++ c :: B1) (g :: B2)).
    rewrite <-app_assoc in Hrot. specialize (Hrot eq_refl). apply nostop_app in NB as [_ NB].
    pose proof (free_walk s b g.1 ((g :: B2) ++ A) c B1 fuel) as Hw. rewrite <-app_assoc in Hw. apply Hw; clear Hw.
    + exact Hrot.
    + apply nostop_app. by split.
    + rewrite <-Hstop. f_equal. by rewrite hd_app.
    + rewrite length_app in *. simpl in *. lia.
Qed.

Lemma find_place s L b : slob_ok s L → arena < b → b ∉ L.*1 → ∃ A c B, ring L = A ++ c :: B ∧
  Forall (λ d, d.1 < b) A ∧ c.1 < b ∧ Forall (λ d, b < d.1) B ∧
  free_loop (S (base.size (cells s))) b (slobfree s) s = Ret (c.1, s).
Proof.
  intros [Hch Hsp Hpos Hfree] Hb Hn. pose proof (ring_asc _ Hsp) as Hasc.
  destruct (asc_split _ b _ Hasc) as (A0 & B & HL & HA0 & HB); [unfold ring; rewrite fmap_cons, not_elem_of_cons; split; [simpl; lia|done]|].
  destruct A0 as [|c A _] using rev_ind.
  { destruct B as [|d B]; [done|]. injection HL as <- ->. apply Forall_cons_1 in HB as [HB _]. simpl in HB. lia. }
  rewrite <-app_assoc in HL. simpl in HL. apply Forall_app in HA0 as [HA [Hc _]%Forall_cons_1].
  exists A, c, B. split_and!; try done. change ((arena, 1) :: L) with (ring L) in Hch.
  pose proof (chain_length _ _ _ _ Hch Hasc) as Hlen.
  assert (slobfree s ∈ (ring L).*1) as Hf by done.
  assert (hd c.1 A = arena) as He by (transitivity (hd 0 (ring L)); [rewrite HL, hd_app; done|done]).
  rewrite HL in *. destruct (asc_app _ _ _ _ Hasc) as (H1 & H2 & H3). 
  assert (arena ≤ c.1) as Hle.
  { destruct A as [|a A]; unfold hd in He; simpl in He; [lia|]. apply Forall_cons_1 in H2 as [H2 _]. lia. }
  apply (free_walk_ring s b A c B); rewrite ?He; try done.
  - rewrite length_app in Hlen. simpl in Hlen. lia.
  - eapply nostop_low; [done|done|done].
  - eapply nostop_high; [done|done|done].
Qed.

Lemma cell_run a c (s : slob) : cells s !! a = Some c → cell a s = Ret (c, s).
Proof. intros H. unfold cell, deref. by rewrite H. Qed.
Lemma store_run a c (s : slob) : store a c s = Ret (tt, set_cells s (<[a := c]> (cells s))).
Proof. done. Qed.

(** Joining the freed block with the one behind it. *)
Lemma merge_right (s : slob) B b u lo : chain (cells s) B arena → spaced lo B → 0 < arena < b → 0 < u → b + 8 * u < 2 ^ 32 →
  Forall (λ d, b + 8 * u ≤ d.1) B → ∃ u' B1,
  (if u32 (b + SLOB_UNIT * u) =? hd arena B
   then n ← cell (hd arena B); store b (mkCell (s32 (u + units n)) (next n))
   else store b (mkCell u (hd arena B))) s = Ret (tt, set_cells s (<[b := mkCell u' (hd arena B1)]> (cells s))) ∧
  chain (cells s) B1 arena ∧ spaced (b + 8 * u') B1 ∧ u ≤ u' ∧ b + 8 * u' < 2 ^ 32 ∧ B1.*1 ⊆ B.*1 ∧ (length B1 ≤ length B)%nat ∧
  (∀ x, covers ((b, u') :: B1) x ↔ inside x (b, u) ∨ covers B x).
Proof.
  intros Hch Hsp Hb Hu Hend Hall. change SLOB_UNIT with 8. rewrite u32_small by lia. destruct B as [|[d v] B].
  - exists u, []. change (hd arena []) with arena. rewrite (proj2 (Z.eqb_neq _ _)) by lia. split_and!; try done; try lia. intros x. by rewrite covers_cons.
  - destruct Hch as [Hd Hch], Hsp as (H1 & H2 & H3 & Hsp). change (hd arena ((d, v) :: B)) with d. cbn [fst snd] in *.
    apply Forall_cons_1 in Hall as [Hle Hall]. cbn [fst] in Hle. pose proof (proj2 (spaced_all _ _ Hsp)) as Hlt.
    destruct (Z.eqb_spec (b + 8 * u) d) as [<-|Hne].
    + exists (u + v), B. step_by (cell_run _ _ _ Hd). cbn [units next]. rewrite s32_small by lia. split_and!; try done; try lia.
      * eapply spaced_weaken; [|exact Hsp]. lia.
      * intros a Ha. by right.
      * simpl. lia.
      * intros x. rewrite !covers_cons. unfold inside. cbn [fst snd]. clear -Hu H2. intuition lia.
    + exists u, ((d, v) :: B). split_and!; try done; try lia.
      * cbn [spaced fst snd]. split_and!; try done. lia.
      * intros x. by rewrite covers_cons.
Qed.

(** What a block to be freed must satisfy. *)
Definition can_free (L : list blk) (b u : Z) : Prop :=
  0 < u ∧ b mod 8 = 0 ∧ arena + 8 < b ∧ b + 8 * u < 2 ^ 32 ∧ ∀ x, inside x (b, u) → ¬ covers L x.

Lemma can_free_notin lo L b u : can_free L b u → spaced lo L → b ∉ L.*1.
Proof.
  intros (Hu & _ & _ & _ & Hd) [Hall _]%spaced_all (d & -> & Hin)%list_elem_of_fmap. rewrite Forall_forall in Hall. specialize (Hall _ Hin).
  apply (Hd d.1); [unfold inside; simpl; lia|]. apply Exists_exists. exists d. split; [done|]. unfold inside. lia.
Qed.

(** Blocks below end before the freed one starts, blocks above start behind its end. *)
Lemma can_free_sides L b u d : can_free L b u → d ∈ L → 0 < d.2 → (d.1 < b → d.1 + 8 * d.2 ≤ b) ∧ (b < d.1 → b + 8 * u ≤ d.1).
Proof.
  intros (Hu & _ & _ & _ & Hd) Hin Hd2. split; intros Hlt; apply Z.nlt_ge; intros Hlt'.
  - apply (Hd b); [unfold inside; simpl; lia|]. apply Exists_exists. exists d. split; [done|]. unfold inside. lia.
  - apply (Hd d.1); [unfold inside; simpl; lia|]. apply Exists_exists. exists d. split; [done|]. unfold inside. lia.
Qed.

(** The new list when the freed block is joined with the one before it, or not. *)
Lemma merge_left L A ca cu B b u u' B1 : 0 < arena → ring L = A ++ (ca, cu) :: B → can_free L b u → spaced (arena + 8) L → ca < b → u ≤ u' →
  spaced (b + 8 * u') B1 → u32 (ca + SLOB_UNIT * cu) = ca + 8 * cu ∧ 0 < cu ∧ arena ≤ ca ∧ ca + 8 * cu ≤ b ∧ ∃ L',
  ring L' = A ++ (if ca + 8 * cu =? b then (ca, cu + u') :: B1 else (ca, cu) :: (b, u') :: B1) ∧
  spaced (arena + 8) L' ∧ (∀ x, covers L' x ↔ covers (tail (A ++ [(ca, cu)])) x ∨ covers ((b, u') :: B1) x).
Proof.
  intros Ha HL Hcf Hsp Hlt Hu Hs1. change SLOB_UNIT with 8. pose proof Hcf as (Hu0 & Hb8 & Hab & Hbe & _). unfold ring in *.
  destruct A as [|a A]; [injection HL as <- <- ->|injection HL as <- ->].
  - rewrite u32_small by lia. split_and!; [done|lia|lia|lia|]. exists ((b, u') :: B1). rewrite (proj2 (Z.eqb_neq _ _)) by lia.
    split_and!; [done|cbn [spaced fst snd]; split_and!; done || lia|]. intros x. simpl. split; [by right|]. intros [H|H]; [by inversion H|done].
  - destruct (spaced_all _ _ Hsp) as [Hall _]. rewrite Forall_app, Forall_cons in Hall. destruct Hall as (_ & Hc & _). cbn [fst snd] in Hc.
    destruct (can_free_sides _ _ _ (ca, cu) Hcf ltac:(set_solver) ltac:(simpl; lia)) as [Hside _]. specialize (Hside Hlt). cbn [fst snd] in Hside.
    rewrite u32_small by lia. split_and!; [done|lia|lia|done|].
    exists (A ++ (if ca + 8 * cu =? b then (ca, cu + u') :: B1 else (ca, cu) :: (b, u') :: B1)). split_and!; [done| |].
    + eapply spaced_replace; [exact Hsp|]. intros lo' (H1 & H2 & H3 & H4) Hlo. cbn [fst snd] in *. destruct (Z.eqb_spec (ca + 8 * cu) b) as [<-|Hne].
      * cbn [spaced fst snd]. split_and!; try lia. by replace (ca + 8 * (cu + u')) with (ca + 8 * cu + 8 * u') by lia.
      * cbn [spaced fst snd]. split_and!; done || lia.
    + intros x. cbn [tail app]. rewrite !covers_app. destruct (Z.eqb_spec (ca + 8 * cu) b) as [<-|Hne]; rewrite !covers_cons; unfold inside; cbn [fst snd].
      * split; [intros [?|[?|?]]|intros [[?|[?|H]]|[?|?]]]; try (by inversion H); tauto || (destruct (decide (x < ca + 8 * cu)); [left; right; left; lia|right; left; lia]) || (right; left; lia).
      * split; [tauto|]. intros [[?|[?|H]]|?]; try tauto. by inversion H.
Qed.

(** The parts of the state that the free list does not touch, and the headers outside [X]. *)
Definition same_rest (s s' : slob) (X : Z → Prop) : Prop :=
  bigs s' = bigs s ∧ bigblocks s' = bigblocks s ∧ pm s' = pm s ∧ ∀ a, ¬ X a → cells s' !! a = cells s !! a.

Lemma ring_covers L d : spaced (arena + 8) L → d ∈ ring L → covers (ring L) d.1.
Proof.
  intros [Hall _]%spaced_all Hin. apply Exists_exists. exists d. split; [done|]. rewrite Forall_forall in Hall.
  apply elem_of_cons in Hin as [->|Hin]; [unfold inside; simpl; lia|]. specialize (Hall _ Hin). unfold inside. lia.
Qed.

Lemma below_notin (A : list blk) (a : Z) : Forall (λ d, d.1 < a) A → a ∉ A.*1.
Proof. rewrite Forall_forall. intros H (d & -> & Hin)%list_elem_of_fmap. specialize (H _ Hin). simpl in H. lia. Qed.
Lemma above_notin (A : list blk) (a : Z) : Forall (λ d, a < d.1) A → a ∉ A.*1.
Proof. rewrite Forall_forall. intros H (d & -> & Hin)%list_elem_of_fmap. specialize (H _ Hin). simpl in H. lia. Qed.

(** Linking a block in adds exactly its bytes to the free memory, and keeps the list sorted and merged. *)
Lemma slob_insert_run s L b u nb : slob_ok s L → cells s !! b = Some (mkCell u nb) → can_free L b u →
  ∃ s' L', slob_insert b s = Ret (tt, s') ∧ slob_ok s' L' ∧ (∀ x, covers L' x ↔ covers L x ∨ inside x (b, u)) ∧
    Exists (λ d, u ≤ d.2) (ring L') ∧ (length L' ≤ S (length L))%nat ∧ same_rest s s' (λ a, covers (ring L) a ∨ inside a (b, u)).
Proof.
  intros Hok Hb Hcf. pose proof Hcf as (Hu0 & Hb8 & Hab & Hbe & _). pose proof Hok as [Hch Hsp Ha Hfree].
  destruct (find_place s L b Hok ltac:(lia) (can_free_notin _ _ _ _ Hcf Hsp)) as (A & [ca cu] & B & HL & HA & Hc & HB & Hrun).
  cbn [fst] in Hc, Hrun. pose proof (ring_asc _ Hsp) as Hasc. change ((arena, 1) :: L) with (ring L) in Hch. rewrite HL in Hch, Hasc.
  apply asc_app in Hasc as (_ & HAc & _). cbn [fst] in HAc. pose proof (chain_lookup _ _ _ _ _ Hch) as Hcell. cbn [fst snd] in Hcell.
  apply chain_app in Hch as [HchA [_ HchB]]. change (hd arena ((ca, cu) :: B)) with ca in HchA.
  assert (Forall (λ d, b + 8 * u ≤ d.1) B) as HBe.
  { apply Forall_forall. intros d Hd. destruct (spaced_all _ _ Hsp) as [Hall _]. rewrite Forall_forall in Hall, HB.
    assert (d ∈ L) as HdL by (destruct A; injection HL; intros; subst; set_solver).
    apply (can_free_sides L b u d Hcf HdL); [apply Hall|apply HB]; done. }
  assert (∃ lo, spaced lo B) as [lo HspB].
  { destruct A as [|a A]; injection HL as _ HL'; [intros; subst; by eexists|]. rewrite HL' in Hsp. apply spaced_app in Hsp as (lo & _ & Hs & _).
    simpl in Hs. destruct Hs as (_ & _ & _ & Hs). by eexists. }
  destruct (merge_right s B b u lo HchB HspB ltac:(lia) Hu0 Hbe HBe) as (u' & B1 & Hmr & HchB1 & HspB1 & Huu & Hbe' & Hsub & HlB & Hcov).
  destruct (merge_left L A ca cu B b u u' B1 Ha HL Hcf Hsp Hc Huu HspB1) as (Hu32 & Hcu & Hca & Hcb & L' & HL' & HspL' & HcovL').
  set (s1 := set_cells s (<[b := mkCell u' (hd arena B1)]> (cells s))) in *.
  assert (ca ∉ A.*1 ∧ b ∉ A.*1 ∧ ca ∉ B1.*1 ∧ b ∉ B1.*1) as (N1 & N2 & N3 & N4).
  { split_and!; [by apply below_notin|by apply below_notin|intros Hin%Hsub; revert Hin|intros Hin%Hsub; revert Hin]; apply above_notin; [|done].
    eapply Forall_impl; [exact HB|]. simpl. lia. }
  set (cc := if ca + 8 * cu =? b then mkCell (cu + u') (hd arena B1) else mkCell cu b).
  exists (set_slobfree (set_cells s1 (<[ca := cc]> (cells s1))) ca), L'. split_and!.
  - assert (cells s1 !! b = Some (mkCell u' (hd arena B1))) as Hb1 by apply lookup_insert_eq.
    assert (cells s1 !! ca = Some (mkCell cu (hd arena B))) as Hc1 by (unfold s1; cbn [cells set_cells]; by rewrite lookup_insert_ne by lia).
    unfold slob_insert. step using reflexivity. step using (exact Hrun). step_by (cell_run _ _ _ Hcell). step_by (cell_run _ _ _ Hb).
    cbn [units next]. step using (exact Hmr). step_by (cell_run _ _ _ Hb1). step_by (cell_run _ _ _ Hc1). cbn [units next]. rewrite Hu32.
    unfold cc. destruct (Z.eqb_spec (ca + 8 * cu) b); [rewrite s32_small by lia|]; done.
  - split; [|done|done|].
    + change ((arena, 1) :: L') with (ring L'). rewrite HL'. cbn [cells set_cells set_slobfree s1]. unfold cc.
      destruct (ca + 8 * cu =? b); apply chain_app.
      * split; [by do 2 (apply chain_insert; [done|])|]. split; [by rewrite lookup_insert_eq|].
        by do 2 (apply chain_insert; [done|]).
      * split; [by do 2 (apply chain_insert; [done|])|]. split; [by rewrite lookup_insert_eq|].
        split; [cbn [fst snd]; rewrite lookup_insert_ne by lia; by rewrite lookup_insert_eq|]. by do 2 (apply chain_insert; [done|]).
    + change (arena :: L'.*1) with ((ring L').*1). rewrite HL', fmap_app, elem_of_app. right. cbn [slobfree set_slobfree].
      destruct (_ =? b); rewrite fmap_cons; left.
  - intros x. rewrite HcovL', Hcov. assert (L = tail (A ++ [(ca, cu)]) ++ B) as Heq.
    { change L with (tail (ring L)). rewrite HL. destruct A as [|a A]; [done|]. simpl. by rewrite <-app_assoc. }
    rewrite Heq, covers_app. tauto.
  - rewrite HL', Exists_app. right.
    destruct (_ =? b); rewrite !Exists_cons; cbn [snd]; [left; lia|right; left; lia].
  - assert (length (ring L') ≤ S (length (ring L)))%nat as Hlen; [|simpl in Hlen; lia]. rewrite HL', HL, !length_app. destruct (_ =? b); simpl; lia.
  - split_and!; try done. intros a Hn. cbn [cells set_cells set_slobfree s1]. rewrite !lookup_insert_ne; [done| |]; intros <-; apply Hn.
    + right. unfold inside. cbn [fst snd]. lia.
    + left. apply (ring_covers L (ca, cu)); [done|]. rewrite HL. set_solver.
Qed.

Lemma slob_ok_store s L b c : slob_ok s L → b ∉ (ring L).*1 → slob_ok (set_cells s (<[b := c]> (cells s))) L.
Proof. intros [H1 H2 H3 H4] Hn. split; [|done|done|done]. cbn [cells set_cells]. by apply chain_insert. Qed.

(** [slob_free], of a block whose header has its size or of one of [size] bytes. *)
Lemma slob_free_run s L b u size : slob_ok s L → can_free L b u →
  (if size =? 0 then ∃ nb, cells s !! b = Some (mkCell u nb) else SLOB_UNITS size = u) →
  ∃ s' L', slob_free b size s = Ret (tt, s') ∧ slob_ok s' L' ∧ (∀ x, covers L' x ↔ covers L x ∨ inside x (b, u)) ∧
    Exists (λ d, u ≤ d.2) (ring L') ∧ (length L' ≤ S (length L))%nat ∧ same_rest s s' (λ a, covers (ring L) a ∨ inside a (b, u)).
Proof.
  intros Hok Hcf Hsz. pose proof Hcf as (Hu0 & Hb8 & Hab & Hbe & _). pose proof Hok as [_ Hsp Ha _]. unfold slob_free.
  rewrite (proj2 (Z.eqb_neq b 0)) by lia. destruct (size =? 0); simpl negb; cbv iota.
  - destruct Hsz as [nb Hb]. step using reflexivity. by eapply slob_insert_run.
  - rewrite Hsz. step using reflexivity. set (s1 := set_cells _ _).
    assert (b ∉ (ring L).*1) as Hn.
    { unfold ring. rewrite fmap_cons, not_elem_of_cons. split; [simpl; lia|]. by eapply can_free_notin. }
    destruct (slob_insert_run s1 L b u (from_option next 0 (cells s !! b))) as (s' & L' & Hrun & Hok' & Hcov & Hbig & Hll & H1 & H2 & H3 & H4).
    { by apply slob_ok_store. }
    { by apply lookup_insert_eq. }
    { done. }
    exists s', L'. split_and!; try done. split_and!; try done. intros a Hna. rewrite H4 by done. unfold s1. cbn [cells set_cells].
    apply lookup_insert_ne. intros <-. apply Hna. right. unfold inside. cbn [fst snd]. lia.
Qed.

(** * Allocating *)

(** [n] units at [r] are taken from the free bytes [F]. *)
Definition taken (F : Z → Prop) (L' : list blk) (r n : Z) : Prop :=
  (∀ x, covers L' x ↔ F x ∧ ¬ inside x (r, n)) ∧ (∀ x, inside x (r, n) → F x) ∧ 0 < n ∧ arena + 8 < r ∧ r mod 8 = 0 ∧ r + 8 * n < 2 ^ 32.

Lemma slob_take_run s L A pa pu a u L2 n : slob_ok s L → ring L = A ++ (pa, pu) :: (a, u) :: L2 → 0 < n ≤ u →
  ∃ s' L' nx, slob_take n 0 pa a 0 s = Ret (a, s') ∧ slob_ok s' L' ∧ taken (covers L) L' a n ∧ cells s' !! a = Some (mkCell n nx) ∧
    same_rest s s' (covers (ring L)).
Proof.
  intros [Hch Hsp Ha Hfree] HL Hn. pose proof (ring_asc _ Hsp) as Hasc. change ((arena, 1) :: L) with (ring L) in Hch.
  assert (∀ d, d ∈ ring L → covers (ring L) d.1) as Hrc by (intros d; by apply ring_covers). rewrite HL in Hch, Hasc, Hrc.
  pose proof (chain_lookup _ _ _ _ _ Hch) as Hp. cbn [fst snd] in Hp. change (hd arena ((a, u) :: L2)) with a in Hp.
  apply chain_app in Hch as [HchA [_ [Hc Hch2]]]. change (hd arena ((pa, pu) :: (a, u) :: L2)) with pa in HchA. cbn [fst snd] in Hc.
  apply asc_app in Hasc as (_ & HAp & [Hpa Hasc2]). cbn [fst] in HAp, Hpa, Hasc2. apply asc_bound in Hasc2.
  set (tl := if u =? n then L2 else (a + 8 * n, u - n) :: L2).
  assert (∃ X, L = X ++ (a, u) :: L2 ∧ tail (A ++ [(pa, pu)]) = X ∧ ring (X ++ tl) = A ++ (pa, pu) :: tl) as (X & HX & HtX & HX').
  { unfold ring in *. destruct A as [|d A]; injection HL; intros; subst; [exists []|exists (A ++ [(pa, pu)])]; split_and!; try done.
    - by rewrite <-app_assoc.
    - simpl. by rewrite <-app_assoc. }
  assert (arena + 8 < a ∧ 0 < u ∧ a + 8 * u < 2 ^ 32 ∧ a mod 8 = 0) as (Hra & Hru & Hre & Hr8).
  { destruct (spaced_all _ _ Hsp) as [Hall _]. rewrite HX, Forall_app, Forall_cons in Hall. apply Hall. }
  assert (∀ d, d ∈ L2 → a + 8 * u < d.1 ∧ 0 < d.2) as HL2.
  { intros d Hd. rewrite HX in Hsp. apply spaced_app in Hsp as (lo & _ & Hs & _). destruct Hs as (_ & _ & _ & [Hs _]%spaced_all).
    rewrite Forall_forall in Hs. specialize (Hs _ Hd). cbn [fst snd] in Hs. lia. }
  assert (pa ∉ A.*1 ∧ pa ∉ L2.*1 ∧ a ∉ L2.*1 ∧ a + 8 * n ∉ L2.*1) as (N1 & N2 & N3 & N4).
  { split_and!; [by apply below_notin| | |]; apply above_notin, Forall_forall; intros d Hd; pose proof (HL2 _ Hd); lia. }
  assert (a ∉ A.*1 ∧ a + 8 * n ∉ A.*1) as (N5 & N6).
  { split; apply below_notin; (eapply Forall_impl; [exact HAp|]); intros d; simpl; lia. }
  set (h' := if u =? n then <[pa := mkCell pu (hd arena L2)]> (cells s)
             else <[a := mkCell n (hd arena L2)]> (<[a + 8 * n := mkCell (u - n) (hd arena L2)]> (<[pa := mkCell pu (a + 8 * n)]> (cells s)))).
  exists (set_slobfree (set_cells s h') pa), (X ++ tl), (hd arena L2). split_and!.
  - unfold slob_take, store_next, store_units. change (negb (0 =? 0)) with false. cbv iota. step using reflexivity. cbv beta iota.
    step_by (cell_run _ _ _ Hc). cbn [units next]. unfold h'. destruct (u =? n).
    + assert ((c ← cell pa; store pa (mkCell (units c) (hd arena L2))) s = Ret (tt, set_cells s (<[pa := mkCell pu (hd arena L2)]> (cells s)))) as H1
        by (by step_by (cell_run _ _ _ Hp)).
      by step_by H1.
    + change SLOB_UNIT with 8. rewrite u32_small by lia.
      set (s1 := set_cells s (<[pa := mkCell pu (a + 8 * n)]> (cells s))).
      assert ((c ← cell pa; store pa (mkCell (units c) (a + 8 * n))) s = Ret (tt, s1)) as H1 by (by step_by (cell_run _ _ _ Hp)).
      assert (cells s1 !! a = Some (mkCell u (hd arena L2))) as Hc1 by (unfold s1; cbn [cells set_cells]; rewrite lookup_insert_ne by lia; exact Hc).
      set (s2 := set_cells s1 (<[a + 8 * n := mkCell (u - n) (hd arena L2)]> (cells s1))).
      assert (cells s2 !! a = Some (mkCell u (hd arena L2))) as Hc2 by (unfold s2; cbn [cells set_cells]; rewrite lookup_insert_ne by lia; exact Hc1).
      assert ((store_units a n) s2 = Ret (tt, set_cells s2 (<[a := mkCell n (hd arena L2)]> (cells s2)))) as H2
        by (unfold store_units; by step_by (cell_run _ _ _ Hc2)).
      erewrite M_bind_step; [|erewrite M_bind_step; [|exact H1]; step_by (cell_run _ _ _ Hc1); cbn [units next]; step_by (store_run _ _ _); exact H2].
      done.
  - split; [|rewrite HX in Hsp; eapply spaced_replace; [exact Hsp|]|done|].
    + change ((arena, 1) :: X ++ tl) with (ring (X ++ tl)). rewrite HX'. cbn [cells set_cells set_slobfree]. unfold h', tl. apply chain_app.
      destruct (u =? n); (split; [repeat (apply chain_insert; [done|]); done|]).
      * split; [by rewrite lookup_insert_eq|]. by apply chain_insert.
      * split; [cbn [fst snd]; rewrite !lookup_insert_ne by lia; by rewrite lookup_insert_eq|].
        split; [cbn [fst snd]; rewrite lookup_insert_ne by lia; by rewrite lookup_insert_eq|]. by repeat (apply chain_insert; [done|]).
    + intros lo (H1 & H2 & H3 & H4) _. cbn [fst snd] in *. unfold tl. destruct (Z.eqb_spec u n); [eapply spaced_weaken; [|exact H4]; lia|].
      cbn [spaced fst snd]. split_and!; try lia.
      * rewrite Z.mul_comm, Z.mod_add by lia. done.
      * by replace (a + 8 * n + 8 * (u - n)) with (a + 8 * u) by lia.
    + change (arena :: (X ++ tl).*1) with ((ring (X ++ tl)).*1). rewrite HX', fmap_app, elem_of_app. right. rewrite fmap_cons. left.
  - assert (∀ x, covers (X ++ L2) x → ¬ inside x (a, n)) as Hdis.
    { intros x Hx. rewrite HX in Hsp. apply spaced_app in Hsp as (lo & _ & (Hs & _) & Hall). cbn [fst] in Hs. unfold inside. cbn [fst snd].
      rewrite covers_app in Hx. destruct Hx as [(d & Hd & Hi)%Exists_exists|(d & Hd & Hi)%Exists_exists]; unfold inside in Hi.
      - rewrite Forall_forall in Hall. specialize (Hall _ Hd). lia.
      - specialize (HL2 _ Hd). lia. }
    split_and!; try done; try lia.
    + intros x. rewrite HX, !covers_app, covers_cons. specialize (Hdis x). rewrite covers_app in Hdis. unfold tl, inside in *. cbn [fst snd] in *.
      destruct (Z.eqb_spec u n) as [->|].
      * split; [intros Hx; split; [tauto|tauto]|]. intros [[?|[?|?]] ?]; tauto.
      * rewrite covers_cons. unfold inside. cbn [fst snd]. split.
        -- intros [?|[?|?]]; (split; [|tauto || lia]); [tauto|right; left; lia|tauto].
        -- intros [[?|[?|?]] ?]; [tauto|right; left; lia|tauto].
    + intros x Hx. rewrite HX, covers_app, covers_cons. right. left. unfold inside in *. cbn [fst snd] in *. lia.
  - cbn [cells set_cells set_slobfree]. unfold h'. destruct (Z.eqb_spec u n) as [->|]; [rewrite lookup_insert_ne by lia; exact Hc|by rewrite lookup_insert_eq].
  - split_and!; try done. intros x Hx. rewrite HL in Hx. cbn [cells set_cells set_slobfree].
    assert (x ≠ pa) as X1 by (intros ->; apply Hx, (Hrc (pa, pu)); set_solver).
    assert (x ≠ a) as X2 by (intros ->; apply Hx, (Hrc (a, u)); set_solver).
    unfold h'. destruct (Z.eqb_spec u n); [by rewrite lookup_insert_ne by done|].
    assert (x ≠ a + 8 * n) as X3.
    { intros ->. apply Hx. rewrite covers_app, !covers_cons. right. right. left. unfold inside. cbn [fst snd]. lia. }
    by rewrite !lookup_insert_ne by done.
Qed.

(** The walk of [slob_alloc]: past blocks that are too small, up to the first one that is not. *)
Definition lastp (prev : Z) (R : list blk) : Z := from_option fst prev (last R).

Lemma lastp_cons prev d R : lastp d.1 R = lastp prev (d :: R).
Proof. unfold lastp. rewrite last_cons. by destruct (last R). Qed.

Notation small n R := (Forall (λ d, d.2 < n) R).
Notation avoids s R := (Forall (λ d, d.1 ≠ slobfree s) R).

Lemma alloc_step s n size fuel prev e d R : chain (cells s) (d :: R) e → d.2 < n → d.1 ≠ slobfree s →
  alloc_loop (S fuel) size n 0 prev d.1 s = alloc_loop fuel size n 0 d.1 (hd e R) s.
Proof.
  intros [Hd _] Hn Hne. cbn [alloc_loop]. step_by (cell_run _ _ _ Hd). cbn [units next]. change (0 =? 0) with true. cbv iota.
  rewrite (proj2 (Z.leb_gt _ _)) by lia. step using reflexivity. by rewrite (proj2 (Z.eqb_neq _ _)).
Qed.

Lemma alloc_walk s n size R1 : ∀ fuel e prev c R2, chain (cells s) (R1 ++ c :: R2) e → small n R1 → avoids s R1 → n ≤ c.2 →
  alloc_loop (length R1 + S fuel) size n 0 prev (hd e (R1 ++ c :: R2)) s = slob_take n 0 (lastp prev R1) c.1 0 s.
Proof.
  induction R1 as [|d R1 IH]; intros fuel e prev c R2 Hc Hs Ha Hn.
  - destruct Hc as [Hc _]. change (hd e ([] ++ c :: R2)) with c.1. simpl length. cbn [alloc_loop Nat.add].
    step_by (cell_run _ _ _ Hc). cbn [units next]. change (0 =? 0) with true. cbv iota. by rewrite (proj2 (Z.leb_le _ _)) by lia.
  - apply Forall_cons_1 in Hs as [Hd Hs], Ha as [Hd' Ha]. change (hd e ((d :: R1) ++ c :: R2)) with d.1. simpl length. cbn [Nat.add].
    erewrite alloc_step; [|exact Hc|done|done]. destruct Hc as [_ Hc]. change (app R1 (c :: R2)) with (R1 ++ c :: R2). rewrite IH by done.
    by rewrite (lastp_cons prev).
Qed.

(** No block is large enough: around to [slobfree], and a new page. *)
Lemma alloc_walk_none s n size R1 f : ∀ fuel e prev, chain (cells s) (R1 ++ [f]) e → small n (R1 ++ [f]) → avoids s R1 → f.1 = slobfree s →
  size ≠ PAGE_SIZE →
  alloc_loop (length R1 + S fuel) size n 0 prev (hd e (R1 ++ [f])) s =
    (p ← pm_do (__slob_get_free_pages 0);
     if p =? 0 then mret 0 else
     slob_free p PAGE_SIZE ;; s ← get; c ← cell (slobfree s); alloc_loop fuel size n 0 (slobfree s) (next c)) s.
Proof.
  induction R1 as [|d R1 IH]; intros fuel e prev Hc Hs Ha Hf Hsz.
  - apply Forall_cons_1 in Hs as [Hd _]. destruct Hc as [Hc _]. change (hd e ([] ++ [f])) with f.1. simpl length. cbn [alloc_loop Nat.add].
    step_by (cell_run _ _ _ Hc). cbn [units next]. change (0 =? 0) with true. cbv iota. rewrite (proj2 (Z.leb_gt _ _)) by lia.
    step using reflexivity. rewrite (proj2 (Z.eqb_eq _ _)) by done. by rewrite (proj2 (Z.eqb_neq size PAGE_SIZE)).
  - apply Forall_cons_1 in Hs as [Hd Hs], Ha as [Hd' Ha]. change (hd e ((d :: R1) ++ [f])) with d.1. simpl length. cbn [Nat.add].
    erewrite alloc_step; [|exact Hc|done|done]. destruct Hc as [_ Hc]. change (app R1 [f]) with (R1 ++ [f]). by apply IH.
Qed.

(** The list as seen from the block behind [slobfree]. *)
Lemma ring_view s L : slob_ok s L → ∃ A f B, ring L = A ++ f :: B ∧ f.1 = slobfree s ∧
  cells s !! slobfree s = Some (mkCell f.2 (hd f.1 (B ++ A ++ [f]))) ∧ chain (cells s) (B ++ A ++ [f]) (hd f.1 (B ++ A ++ [f])) ∧
  avoids s (B ++ A).
Proof.
  intros [Hch Hsp Ha Hfree]. pose proof (asc_NoDup _ _ (ring_asc _ Hsp)) as Hnd. change ((arena, 1) :: L) with (ring L) in Hch.
  assert (slobfree s ∈ (ring L).*1) as (f & Hf & (A & B & HL)%list_elem_of_split)%list_elem_of_fmap by done.
  exists A, f, B. rewrite HL in *. assert (arena = hd f.1 A) as He.
  { transitivity (hd 0 (ring L)); [done|]. rewrite HL, hd_app. done. }
  split_and!; [done|done| | |].
  - rewrite Hf, (chain_lookup _ _ _ _ _ Hch). do 2 f_equal. rewrite He, !hd_app. by destruct A.
  - assert (hd 0 ((A ++ [f]) ++ B) = arena) as Hh by (rewrite <-app_assoc, hd_app; done).
    pose proof (chain_rotate (cells s) (A ++ [f]) B) as Hr. rewrite <-app_assoc in Hr. simpl in Hr. rewrite !hd_app in Hr. simpl in Hr.
    specialize (Hr ltac:(rewrite He in Hch; exact Hch)). rewrite !hd_app. simpl. by destruct A.
  - rewrite fmap_app, fmap_cons in Hnd. apply NoDup_app in Hnd as (_ & Hx & [Hn _]%NoDup_cons).
    apply Forall_app. split; apply Forall_forall; intros d Hd Heq; rewrite Hf in Heq.
    + apply Hn. rewrite <-Heq. by apply list_elem_of_fmap_2.
    + apply (Hx d.1); [by apply list_elem_of_fmap_2|]. rewrite Heq. left.
Qed.

Lemma first_split n (R : list blk) : Exists (λ d, n ≤ d.2) R → ∃ R1 c R2, R = R1 ++ c :: R2 ∧ small n R1 ∧ n ≤ c.2.
Proof.
  induction R as [|d R IH]; [by intros ?%Exists_nil|]. destruct (decide (n ≤ d.2)) as [Hd|Hd].
  - intros _. by exists [], d, R.
  - intros [?|H]%Exists_cons; [lia|]. destruct (IH H) as (R1 & c & R2 & -> & Hs & Hc). exists (d :: R1), c, R2. split_and!; [done| |done].
    constructor; [lia|done].
Qed.

Lemma lastp_snoc prev R d : lastp prev (R ++ [d]) = d.1.
Proof. unfold lastp. by rewrite last_snoc. Qed.

(** The block before [c] in the order of the walk is the one before it in the list. *)
Lemma ring_pred L A f B R1 c R2 : ring L = A ++ f :: B → B ++ A ++ [f] = R1 ++ c :: R2 → 2 ≤ c.2 →
  ∃ X p Y, ring L = X ++ p :: c :: Y ∧ lastp f.1 R1 = p.1.
Proof.
  intros HL HR Hc.
  assert (∀ Y Z, A ++ [f] = c :: Y ++ Z → False) as Hhead.
  { intros Y Z HY. assert (ring L = (A ++ [f]) ++ B) as H by (by rewrite <-app_assoc). rewrite HY in H. injection H as H1 _. subst c. simpl in Hc. lia. }
  apply app_eq_app in HR as (l & [[HB Hl]|[HR1 Hl]]).
  - destruct l as [|c' l]; [exfalso; apply (Hhead R2 []); rewrite app_nil_r; done|]. injection Hl as <- ->. rewrite HL, HB.
    destruct R1 as [|p R1 _] using rev_ind; [by exists A, f, l|]. exists (A ++ f :: R1), p, l. rewrite lastp_snoc. split; [|done].
    by rewrite <-!app_assoc.
  - destruct l as [|p l _] using rev_ind; [exfalso; apply (Hhead R2 []); rewrite app_nil_r; done|]. exists l, p, (R2 ++ B). split.
    + transitivity ((A ++ [f]) ++ B); [by rewrite <-app_assoc|]. rewrite Hl. by rewrite <-!app_assoc.
    + by rewrite HR1, app_assoc, lastp_snoc.
Qed.

Lemma avoids_prefix s (A : list blk) f B R1 c R2 : B ++ A ++ [f] = R1 ++ c :: R2 → avoids s (B ++ A) → avoids s R1.
Proof.
  intros HR Hav. rewrite app_assoc in HR. destruct R2 as [|g R2 _] using rev_ind; [by apply app_inj_tail in HR as [<- _]|].
  rewrite app_comm_cons, app_assoc in HR. apply app_inj_tail in HR as [HR _]. rewrite HR in Hav. by apply Forall_app in Hav as [? _].
Qed.

(** A block that is large enough is found within one round. *)
Lemma alloc_fit s L n size fuel : slob_ok s L → 2 ≤ n → Exists (λ d, n ≤ d.2) (ring L) → (length (ring L) ≤ fuel)%nat →
  ∃ c r s' L' nx, cells s !! slobfree s = Some c ∧ alloc_loop fuel size n 0 (slobfree s) (next c) s = Ret (r, s') ∧ slob_ok s' L' ∧
    taken (covers L) L' r n ∧ cells s' !! r = Some (mkCell n nx) ∧ same_rest s s' (covers (ring L)).
Proof.
  intros Hok Hn Hex Hfuel. destruct (ring_view s L Hok) as (A & f & B & HL & Hf & Hcell & Hch & Hav).
  assert (Exists (λ d, n ≤ d.2) (B ++ A ++ [f])) as (R1 & [a u] & R2 & HR & Hsm & Hc)%first_split.
  { rewrite HL in Hex. rewrite !Exists_app, ?Exists_cons in *. tauto. }
  assert (n ≤ u) as Hu by done. assert (2 ≤ (a, u).2) as Hu2 by (simpl; lia).
  destruct (ring_pred L A f B R1 (a, u) R2 HL HR Hu2) as (X & [pa pu] & Y & HX & Hlast).
  destruct (slob_take_run s L X pa pu a u Y n Hok HX ltac:(lia)) as (s' & L' & nx & Hrun & Hrest).
  exists (mkCell f.2 (hd f.1 (B ++ A ++ [f]))), a, s', L', nx. split; [done|]. split; [|done]. cbn [next]. rewrite <-Hf. rewrite HR in *.
  assert (length (ring L) = length (R1 ++ (a, u) :: R2)) as Hlen by (rewrite HL, <-HR, !length_app; simpl; lia).
  rewrite Hlen, length_app in Hfuel. simpl in Hfuel. replace fuel with (length R1 + S (fuel - length R1 - 1))%nat by lia.
  assert (∀ e, hd f.1 (R1 ++ (a, u) :: R2) = hd e (R1 ++ (a, u) :: R2)) as Hhd by (intros e; by rewrite !hd_app).
  rewrite (Hhd (hd f.1 (R1 ++ (a, u) :: R2))), alloc_walk; [|exact Hch|done|by eapply avoids_prefix|done]. rewrite Hlast. exact Hrun.
Qed.

Lemma ring_length s L : slob_ok s L → (length (ring L) ≤ base.size (cells s))%nat.
Proof. intros [Hch Hsp _ _]. eapply chain_length; [exact Hch|by apply ring_asc]. Qed.

Lemma slob_units_bound size : 8 < size → size + 8 < 4096 → 2 ≤ SLOB_UNITS size ≤ 511 ∧ size ≤ 8 * SLOB_UNITS size < size + 8.
Proof.
  intros H1 H2. unfold SLOB_UNITS, SLOB_UNIT. rewrite u32_small by lia.
  pose proof (Z.div_mod (size + 8 - 1) 8). pose proof (Z.mod_pos_bound (size + 8 - 1) 8). lia.
Qed.

(** The outcomes of [slob_alloc]: a free block, a block of a new page [pg], or no page. *)
Definition allocated (s s' : slob) (L L' : list blk) (pg : Z) (p' : P) (r n : Z) : Prop :=
  (pm s' = pm s ∧ r ≠ 0 ∧ taken (covers L) L' r n ∧ ∀ a, ¬ covers (ring L) a → cells s' !! a = cells s !! a) ∨
  (pm s' = p' ∧ pg ≠ 0 ∧ r ≠ 0 ∧ taken (λ x, covers L x ∨ inside x (pg, 512)) L' r n ∧
     ∀ a, ¬ covers (ring L) a → ¬ inside a (pg, 512) → cells s' !! a = cells s !! a) ∨
  (pm s' = p' ∧ pg = 0 ∧ r = 0 ∧ L' = L ∧ cells s' = cells s).

Lemma ring_covers_iff L L' F x : (∀ x, covers L' x ↔ covers L x ∨ F x) → covers (ring L') x → covers (ring L) x ∨ F x.
Proof. unfold ring. rewrite !covers_cons. intros ->. tauto. Qed.

Lemma taken_iff (F G : Z → Prop) L' r n : (∀ x, F x ↔ G x) → taken F L' r n → taken G L' r n.
Proof. intros HFG (H1 & H2 & H3). split_and!; [intros x; rewrite <-HFG; apply H1|intros x; rewrite <-HFG; apply H2|apply H3..]. Qed.

Lemma slob_ok_pm s L p : slob_ok s L → slob_ok (set_pm s p) L.
Proof. by intros [H1 H2 H3 H4]. Qed.

Lemma slob_alloc_run s L size pg p' : slob_ok s L → 8 < size → size + 8 < 4096 → __slob_get_free_pages 0 (pm s) = Ret (pg, p') →
  pg = 0 ∨ can_free L pg 512 → ∃ r s' L', slob_alloc size 0 s = Ret (r, s') ∧ slob_ok s' L' ∧
    bigs s' = bigs s ∧ bigblocks s' = bigblocks s ∧ allocated s s' L L' pg p' r (SLOB_UNITS size) ∧
    (r ≠ 0 → ∃ nx, cells s' !! r = Some (mkCell (SLOB_UNITS size) nx)).
Proof.
  intros Hok H1 H2 Hpg Hcf. destruct (slob_units_bound size H1 H2) as [Hn _]. pose proof (ring_length _ _ Hok) as Hlen.
  unfold slob_alloc. change SLOB_UNIT with 8. rewrite u32_small by lia. rewrite (proj2 (Z.ltb_lt _ _)) by (change PAGE_SIZE with 4096; lia).
  step using reflexivity. step using reflexivity. set (n := SLOB_UNITS size) in *.
  destruct (decide (Exists (λ d, n ≤ d.2) (ring L))) as [Hex|Hnex].
  { destruct (alloc_fit s L n size (2 * base.size (cells s) + 4) Hok ltac:(lia) Hex ltac:(lia)) as (c & r & s' & L' & nx & Hc & Hrun & Hok' & Ht & Hr & Hs1 & Hs2 & Hs3 & Hs4).
    step_by (cell_run _ _ _ Hc). exists r, s', L'. split_and!; try done; [|by eexists]. left. split_and!; try done.
    destruct Ht as (_ & _ & _ & Hr0 & _), Hok as [_ _ ? _]. lia. }
  destruct (ring_view s L Hok) as (A & f & B & HL & Hf & Hcell & Hch & Hav). step_by (cell_run _ _ _ Hcell). cbn [next].
  assert (small n ((B ++ A) ++ [f])) as Hsm.
  { apply not_Exists_Forall in Hnex; [|apply _]. rewrite HL, Forall_app, Forall_cons in Hnex. rewrite !Forall_app, Forall_singleton.
    destruct Hnex as (HA & Hf' & HB). split_and!; [| |simpl in Hf'; lia]; (eapply Forall_impl; [eassumption|]); simpl; lia. }
  assert (length (ring L) = S (length (B ++ A))) as HlBA by (rewrite HL, !length_app; simpl; lia).
  replace (2 * base.size (cells s) + 4)%nat with (length (B ++ A) + S (2 * base.size (cells s) + 3 - length (B ++ A)))%nat by lia.
  assert (∀ e, hd f.1 (B ++ A ++ [f]) = hd e ((B ++ A) ++ [f])) as Hhd by (intros e; by rewrite <-app_assoc, !hd_app; destruct B, A).
  rewrite (Hhd (hd f.1 (B ++ A ++ [f]))). rewrite alloc_walk_none; [|by rewrite <-app_assoc|done|done|done|change PAGE_SIZE with 4096; lia].
  assert (pm_do (__slob_get_free_pages 0) s = Ret (pg, set_pm s p')) as Hpm by (unfold pm_do; by rewrite Hpg). step_by Hpm.
  destruct (Z.eqb_spec pg 0) as [->|Hpg0].
  { exists 0, (set_pm s p'), L. split_and!; try done; [by apply slob_ok_pm|]. right. right. by split_and!. }
  destruct Hcf as [|Hcf]; [done|].
  destruct (slob_free_run (set_pm s p') L pg 512 PAGE_SIZE) as (s1 & L1 & Hrun1 & Hok1 & Hcov1 & Hex1 & Hll & Hb1 & Hb2 & Hb3 & Hb4); [by apply slob_ok_pm|done|done|].
  step_by Hrun1. step using reflexivity.
  destruct (alloc_fit s1 L1 n size (2 * base.size (cells s) + 3 - length (B ++ A)) Hok1 ltac:(lia)) as (c & r & s' & L' & nx & Hc & Hrun & Hok' & Ht & Hr & Hs1 & Hs2 & Hs3 & Hs4).
  { eapply Exists_impl; [exact Hex1|]. simpl. lia. }
  { change (length (ring L1)) with (S (length L1)). change (length (ring L)) with (S (length L)) in *. lia. }
  step_by (cell_run _ _ _ Hc). exists r, s', L'. assert (r ≠ 0) as Hr0.
  { destruct Ht as (_ & _ & _ & Ht & _), Hok as [_ _ ? _]. lia. }
  split_and!; try done; [by rewrite Hs1|by rewrite Hs2| |by eexists]. right. left. split_and!; try done; [by rewrite Hs3| |].
  - by apply (taken_iff (covers L1)).
  - intros a Ha1 Ha2. rewrite Hs4, Hb4; [done|tauto|]. intros Ha%(ring_covers_iff L L1 _ a Hcov1). tauto.
Qed.

(** * The heap *)

(** What the heap expects of the page allocator: [held] are the pages it has given to the heap; it hands out
    pages that are not held, above the kernel image, and takes back pages that are. *)
Definition pages_of (a o : Z) : gset Z := list_to_set (seqZ (a / 4096) (2 ^ o)).

Class page_laws := {
  held : P → gset Z;
  get_pages_ok p o : 0 ≤ o → ∃ a p', __slob_get_free_pages o p = Ret (a, p') ∧
    ((a = 0 ∧ held p' = held p) ∨
     (a mod 4096 = 0 ∧ arena + 8 < a ∧ a + 4096 * 2 ^ o < 2 ^ 32 ∧ pages_of a o ## held p ∧ held p' = held p ∪ pages_of a o));
  free_pages_ok p a o : 0 ≤ o → a mod 4096 = 0 → pages_of a o ⊆ held p →
    ∃ p', __slob_free_pages a o p = Ret (tt, p') ∧ held p' = held p ∖ pages_of a o }.

Context `{PL : page_laws}.

(** A large object: its descriptor, its order, its first page. *)
Record bigobj := mkBigobj { bo_desc : Z; bo_order : Z; bo_pages : Z }.
Definition desc_blk (b : bigobj) : blk := (bo_desc b, 2).

Fixpoint bchain (m : gmap Z bigblock) (bl : list bigobj) (start : Z) : Prop :=
  match bl with
  | [] => start = 0
  | b :: bl' => start = bo_desc b ∧ ∃ nx, m !! bo_desc b = Some (mkBig (bo_order b) (bo_pages b) nx) ∧ bchain m bl' nx
  end.

Definition in_big (q : Z) (b : bigobj) : Prop := q ∈ pages_of (bo_pages b) (bo_order b).
Definition big_page (bl : list bigobj) (q : Z) : Prop := Exists (in_big q) bl.

(** Free blocks [L] and blocks in use [U] do not meet, and are in pages that are held but not among the
    pages [Q] of large objects; no byte of those pages is lost, each one is free or in use. *)
Record used_ok (s : slob) (L U : list blk) (Q : Z → Prop) : Prop := {
  us_slob : slob_ok s L;
  us_used : Forall (λ b, 0 < b.2 ∧ b.1 mod 8 = 0 ∧ arena + 8 < b.1 ∧ b.1 + 8 * b.2 < 2 ^ 32) U;
  us_disj : disj inside U;
  us_free : ∀ x, covers U x → ¬ covers L x;
  us_held : ∀ x, covers L x ∨ covers U x → x / 4096 ∈ held (pm s) ∧ ¬ Q (x / 4096);
  us_full : ∀ x, x / 4096 ∈ held (pm s) → ¬ Q (x / 4096) → covers L x ∨ covers U x }.

(** The heap with the small objects [S] and the large ones [bl], whose descriptors are blocks in use too. *)
Record heap_ok (s : slob) (L S : list blk) (bl : list bigobj) : Prop := {
  hp_used : used_ok s L (S ++ (desc_blk <$> bl)) (big_page bl);
  hp_small : Forall (λ b, 2 ≤ b.2 ∧ ∃ nx, cells s !! b.1 = Some (mkCell b.2 nx)) S;
  hp_big : bchain (bigs s) bl (bigblocks s);
  hp_pages : Forall (λ b, 0 ≤ bo_order b ∧ bo_pages b mod 4096 = 0 ∧ arena + 8 < bo_pages b ∧ pages_of (bo_pages b) (bo_order b) ⊆ held (pm s)) bl;
  hp_bdisj : disj in_big bl }.

(** The objects in use: address and number of bytes. *)
Definition small_obj (b : blk) : Z * Z := (b.1 + 8, 8 * (b.2 - 1)).
Definition big_obj (b : bigobj) : Z * Z := (bo_pages b, 4096 * 2 ^ bo_order b).
Definition heap (s : slob) (objs : list (Z * Z)) : Prop :=
  ∃ L S bl, heap_ok s L S bl ∧ objs ≡ₚ (small_obj <$> S) ++ (big_obj <$> bl).

#[global] Instance covers_perm : Proper ((≡ₚ) ==> (=) ==> iff) covers.
Proof. intros U U' HU x ? <-. unfold covers. by rewrite HU. Qed.

Lemma page_inside a x : a mod 4096 = 0 → inside x (a, 512) ↔ x / 4096 = a / 4096.
Proof.
  intros Ha. unfold inside. cbn [fst snd]. pose proof (Z.div_mod a 4096). pose proof (Z.div_mod x 4096). pose proof (Z.mod_pos_bound x 4096).
  split; [|lia]. intros Hx. symmetry. apply (Z.div_unique x 4096 (a / 4096) (x - a)); lia.
Qed.

Lemma pages_of_0 a q : q ∈ pages_of a 0 ↔ q = a / 4096.
Proof. unfold pages_of. rewrite elem_of_list_to_set, elem_of_seqZ. lia. Qed.

(** A byte of a block in use is in no free block, [arena] included. *)
Lemma used_start s L U Q b : used_ok s L U Q → b ∈ U → ¬ covers (ring L) b.1.
Proof.
  intros [_ Hu _ Hf _ _] Hb. rewrite Forall_forall in Hu. specialize (Hu _ Hb). unfold ring. rewrite covers_cons. intros [Hi|Hc].
  - unfold inside in Hi. cbn [fst snd] in Hi. lia.
  - apply (Hf b.1); [|done]. apply Exists_exists. exists b. split; [done|]. unfold inside. lia.
Qed.

Lemma new_page_free s L U Q a : used_ok s L U Q → a mod 4096 = 0 → arena + 8 < a → a + 4096 < 2 ^ 32 → a / 4096 ∉ held (pm s) →
  can_free L a 512 ∧ ∀ x, inside x (a, 512) → ¬ covers U x.
Proof.
  intros [_ _ _ _ Hh _] Ha Hlo Hhi Hn. assert (∀ x, inside x (a, 512) → ¬ (covers L x ∨ covers U x)) as Hd.
  { intros x Hx%(page_inside a x Ha) Hc. apply Hn. rewrite <-Hx. by apply Hh. }
  split; [|intros x Hx Hc; apply (Hd x Hx); by right]. split_and!; try lia.
  - rewrite (Z.div_mod a 4096), Ha by lia. rewrite Z.add_0_r. replace (4096 * (a / 4096)) with ((512 * (a / 4096)) * 8) by lia. apply Z.mod_mul. lia.
  - intros x Hx Hc. apply (Hd x Hx). by left.
Qed.

(** Taking a block for use. *)
Lemma used_take s s' L L' U (Q : Z → Prop) (F : Z → Prop) r n : used_ok s L U Q → slob_ok s' L' → taken F L' r n →
  (∀ x, F x → ¬ covers U x) → (∀ x, F x ∨ covers U x → x / 4096 ∈ held (pm s') ∧ ¬ Q (x / 4096)) →
  (∀ x, x / 4096 ∈ held (pm s') → ¬ Q (x / 4096) → F x ∨ covers U x) → used_ok s' L' ((r, n) :: U) Q.
Proof.
  intros [H1 H2 H3 H4 H5 _] Hok (T1 & T2 & T3 & T4 & T5 & T6) HFU HF Hfull. split; [done| | | | |].
  - constructor; [done|done].
  - split; [|done]. intros x Hx. apply HFU, T2, Hx.
  - intros x. rewrite covers_cons, T1. intros [Hx|Hx] [HF' Hn]; [done|]. by apply (HFU x).
  - intros x. rewrite covers_cons, T1. intros [[? _]|[Hx|Hx]]; apply HF; [by left|left; by apply T2|by right].
  - intros x Hx Hq. rewrite covers_cons, T1. destruct (Hfull x Hx Hq) as [HFx|HUx]; [|tauto].
    destruct (decide (r ≤ x < r + 8 * n)) as [Hi|Hi]; [right; left; exact Hi|left; split; [done|exact Hi]].
Qed.

Lemma used_alloc s L U Q size : used_ok s L U Q → (∀ q, Q q → q ∈ held (pm s)) → 8 < size → size + 8 < 4096 →
  ∃ r s', slob_alloc size 0 s = Ret (r, s') ∧ bigs s' = bigs s ∧ bigblocks s' = bigblocks s ∧ held (pm s) ⊆ held (pm s') ∧
    (∀ b, b ∈ U → cells s' !! b.1 = cells s !! b.1) ∧
    ((r = 0 ∧ used_ok s' L U Q) ∨
     (r ≠ 0 ∧ ∃ L' nx, used_ok s' L' ((r, SLOB_UNITS size) :: U) Q ∧ cells s' !! r = Some (mkCell (SLOB_UNITS size) nx))).
Proof.
  intros Hus HQ H1 H2. pose proof Hus as [Hok Hu Hd Hf Hh Hfull].
  destruct (get_pages_ok (pm s) 0 ltac:(lia)) as (pg & p' & Hget & Hpg).
  assert (pg = 0 ∨ can_free L pg 512 ∧ ∀ x, inside x (pg, 512) → ¬ covers U x) as Hcf.
  { destruct Hpg as [[? _]|(P1 & P2 & P3 & P4 & _)]; [by left|right]. apply (new_page_free s L U Q); try done.
    intros Hin. apply (P4 (pg / 4096)); [|done]. by apply pages_of_0. }
  destruct (slob_alloc_run s L size pg p' Hok H1 H2 Hget) as (r & s' & L' & Hrun & Hok' & Hb1 & Hb2 & Hal & Hhdr); [tauto|].
  exists r, s'. split_and!; try done.
  - destruct Hal as [(-> & _)|[(-> & _)|(-> & _)]]; [done|destruct Hpg as [[_ ->]|(_ & _ & _ & _ & ->)]; set_solver..].
  - intros b Hb. pose proof (used_start _ _ _ _ _ Hus Hb) as Hns. destruct Hal as [(_ & _ & _ & Hc)|[(_ & Hpg0 & _ & _ & Hc)|(_ & _ & _ & _ & ->)]]; [by apply Hc| |done].
    apply Hc; [done|]. intros Hi. destruct Hcf as [|[_ Hcf]]; [done|]. apply (Hcf _ Hi). apply Exists_exists. exists b. split; [done|].
    rewrite Forall_forall in Hu. specialize (Hu _ Hb). unfold inside. lia.
  - destruct Hal as [(Hpm & Hr & Ht & _)|[(Hpm & Hpg0 & Hr & Ht & _)|(Hpm & Hpg0 & -> & -> & _)]].
    + right. split; [done|]. destruct (Hhdr Hr) as [nx Hnx]. exists L', nx. split; [|done]. eapply used_take; [exact Hus|done|exact Ht| | |].
      * intros x Hx Hc. by apply (Hf x).
      * rewrite Hpm. exact Hh.
      * rewrite Hpm. exact Hfull.
    + right. split; [done|]. destruct (Hhdr Hr) as [nx Hnx]. exists L', nx. split; [|done].
      destruct Hcf as [|[_ Hcf]]; [done|]. destruct Hpg as [[? _]|(P1 & P2 & P3 & P4 & P5)]; [done|]. eapply used_take; [exact Hus|done|exact Ht| | |].
      * intros x [Hx|Hx]; [intros Hc; by apply (Hf x)|by apply Hcf].
      * rewrite Hpm, P5. intros x [[Hx|Hx]|Hx]; [destruct (Hh x (or_introl Hx)); set_solver| |destruct (Hh x (or_intror Hx)); set_solver].
        rewrite (page_inside pg x P1) in Hx. rewrite Hx. assert (pg / 4096 ∈ pages_of pg 0) as Hin by (by apply pages_of_0).
        split; [set_solver|]. intros Hq%HQ. apply (P4 (pg / 4096)); done.
      * rewrite Hpm, P5. intros x [Hx|Hx%pages_of_0]%elem_of_union Hq; [destruct (Hfull x Hx Hq); tauto|].
        left. right. by apply page_inside.
    + left. split; [done|]. destruct Hpg as [[_ Hheld]|(_ & P2 & _)]; [|destruct Hok; lia]. split; try done; rewrite Hpm, Hheld; [exact Hh|exact Hfull].
Qed.

(** Giving a block back. *)
Lemma used_free s L U1 a u U2 Q size : used_ok s L (U1 ++ (a, u) :: U2) Q →
  (if size =? 0 then ∃ nb, cells s !! a = Some (mkCell u nb) else SLOB_UNITS size = u) →
  ∃ s' L', slob_free a size s = Ret (tt, s') ∧ used_ok s' L' (U1 ++ U2) Q ∧ bigs s' = bigs s ∧ bigblocks s' = bigblocks s ∧
    pm s' = pm s ∧ (∀ x, covers L' x ↔ covers L x ∨ inside x (a, u)) ∧
    ∀ b, b ∈ U1 ++ U2 → cells s' !! b.1 = cells s !! b.1.
Proof.
  intros Hus Hsz. pose proof Hus as [Hok Hu Hd Hf Hh Hfull]. destruct (disj_middle _ _ _ _ Hd) as [Hd' Hout].
  assert (∀ x, covers (U1 ++ (a, u) :: U2) x ↔ inside x (a, u) ∨ covers (U1 ++ U2) x) as Hcov.
  { intros x. rewrite !covers_app, covers_cons. tauto. }
  pose proof Hu as Hu'. rewrite Forall_app, Forall_cons in Hu'. destruct Hu' as (Hu1 & Hau & Hu2). cbn [fst snd] in Hau.
  assert (can_free L a u) as Hcf.
  { destruct Hau as (? & ? & ? & ?). split_and!; try done. intros x Hx. apply Hf. rewrite Hcov. by left. }
  destruct (slob_free_run s L a u size Hok Hcf Hsz) as (s' & L' & Hrun & Hok' & HL' & _ & _ & H1 & H2 & H3 & H4).
  exists s', L'. split_and!; try done.
  - split; [done|by apply Forall_app|done| | |].
    + intros x Hx. rewrite HL'. intros [Hc|Hc]; [|by apply (Hout x)]. apply (Hf x); [|done]. rewrite Hcov. by right.
    + intros x. rewrite HL', H3. intros Hx. apply Hh. rewrite Hcov. tauto.
    + intros x. rewrite HL', H3. intros Hx Hq. specialize (Hfull x Hx Hq). rewrite Hcov in Hfull. tauto.
  - intros b Hb. apply H4. assert (b ∈ U1 ++ (a, u) :: U2) as Hb' by (rewrite elem_of_app in *; set_solver). intros [Hc|Hc].
    + by apply (used_start _ _ _ _ _ Hus Hb').
    + apply (Hout _ Hc). apply Exists_exists. exists b. split; [done|]. rewrite Forall_forall in Hu. specialize (Hu _ Hb'). unfold inside. lia.
Qed.

Lemma used_perm s L U V Q : U ≡ₚ V → used_ok s L U Q → used_ok s L V Q.
Proof.
  intros HU [H1 H2 H3 H4 H5 H6]. split; [done|by rewrite <-HU|by rewrite <-HU| | |]; intros x; rewrite <-HU; [apply H4|apply H5|apply H6].
Qed.

Lemma big_page_held s L S bl q : heap_ok s L S bl → big_page bl q → q ∈ held (pm s).
Proof. intros [_ _ _ Hp _] (b & Hb & Hq)%Exists_exists. rewrite Forall_forall in Hp. destruct (Hp _ Hb) as (_ & _ & _ & Hs). by apply Hs. Qed.

Lemma pages_mono (bl : list bigobj) (H H' : gset Z) : H ⊆ H' →
  Forall (λ b, 0 ≤ bo_order b ∧ bo_pages b mod 4096 = 0 ∧ arena + 8 < bo_pages b ∧ pages_of (bo_pages b) (bo_order b) ⊆ H) bl →
  Forall (λ b, 0 ≤ bo_order b ∧ bo_pages b mod 4096 = 0 ∧ arena + 8 < bo_pages b ∧ pages_of (bo_pages b) (bo_order b) ⊆ H') bl.
Proof. intros HH Hf. eapply Forall_impl; [exact Hf|]. intros b (? & ? & ? & ?). split_and!; try done. set_solver. Qed.

Lemma small_cells s s' (U : list blk) : (∀ b, b ∈ U → cells s' !! b.1 = cells s !! b.1) → ∀ S, S ⊆ U →
  Forall (λ b, 2 ≤ b.2 ∧ ∃ nx, cells s !! b.1 = Some (mkCell b.2 nx)) S → Forall (λ b, 2 ≤ b.2 ∧ ∃ nx, cells s' !! b.1 = Some (mkCell b.2 nx)) S.
Proof. intros HU S HS. rewrite !Forall_forall. intros H b Hb. rewrite HU by (by apply HS). by apply H. Qed.

(** Allocating a block, small object or descriptor. *)
Lemma heap_alloc s L S bl size : heap_ok s L S bl → 8 < size → size + 8 < 4096 →
  ∃ r s', slob_alloc size 0 s = Ret (r, s') ∧
    ((r = 0 ∧ heap_ok s' L S bl) ∨ (r ≠ 0 ∧ ∃ L', heap_ok s' L' ((r, SLOB_UNITS size) :: S) bl)).
Proof.
  intros Hhp H1 H2. pose proof Hhp as [Hus Hsm Hbc Hpg Hbd].
  destruct (used_alloc _ _ _ _ size Hus (λ q, big_page_held _ _ _ _ q Hhp) H1 H2) as (r & s' & Hrun & Hb1 & Hb2 & Hheld & Hcells & Hr).
  exists r, s'. split; [done|]. assert (Forall (λ b, 2 ≤ b.2 ∧ ∃ nx, cells s' !! b.1 = Some (mkCell b.2 nx)) S) as Hsm'.
  { eapply small_cells; [exact Hcells|set_solver|done]. }
  destruct Hr as [[-> Hus']|(Hr & L' & nx & Hus' & Hnx)]; [left|right]; (split; [done|]); [|exists L'];
    split; try done; try (by rewrite Hb1, Hb2); try (by eapply pages_mono).
  constructor; [|done]. cbn [fst snd]. split; [apply (slob_units_bound size H1 H2)|by eexists].
Qed.

(** Freeing a small object. *)
Lemma heap_free s L S1 a u S2 bl : heap_ok s L (S1 ++ (a, u) :: S2) bl → ∀ size, size = 0 ∨ size ≠ 0 ∧ SLOB_UNITS size = u →
  ∃ s' L', slob_free a size s = Ret (tt, s') ∧ heap_ok s' L' (S1 ++ S2) bl ∧ pm s' = pm s ∧
    ∀ x, covers L' x ↔ covers L x ∨ inside x (a, u).
Proof.
  intros [Hus Hsm Hbc Hpg Hbd] size Hsz. rewrite <-app_assoc in Hus. simpl in Hus.
  destruct (used_free _ _ _ _ _ _ _ size Hus) as (s' & L' & Hrun & Hus' & Hb1 & Hb2 & Hpm & Hcov & Hcells).
  { destruct Hsz as [->|[Hsz Hu]]; [|by rewrite (proj2 (Z.eqb_neq _ _))]. simpl.
    rewrite Forall_app, Forall_cons in Hsm. by destruct Hsm as (_ & (_ & ?) & _). }
  exists s', L'. split; [done|]. split; [|done]. rewrite app_assoc in Hus'. split; [done| |by rewrite Hb1, Hb2|by rewrite Hpm|done].
  eapply small_cells; [exact Hcells|set_solver|]. rewrite Forall_app, Forall_cons in Hsm. apply Forall_app. tauto.
Qed.

(** ** [kmalloc] *)

Lemma order_loop_ge fuel size o : o ≤ order_loop fuel size o.
Proof. revert size o. induction fuel as [|fuel IH]; intros size o; simpl; [lia|]. destruct (4096 <? size); [|lia]. etransitivity; [|apply IH]. lia. Qed.

Lemma bchain_insert m bl st d x : Forall (λ b, bo_desc b ≠ d) bl → bchain m bl st → bchain (<[d := x]> m) bl st.
Proof.
  intros Hne. revert st. induction Hne as [|b bl Hb _ IH]; intros st; simpl; [done|]. intros (-> & nx & Hnx & Hc).
  split; [done|]. exists nx. rewrite lookup_insert_ne by congruence. split; [done|by apply IH].
Qed.

(** A descriptor that got its pages becomes a large object. *)
Lemma heap_big s L S bl d o pg p' : heap_ok s L ((d, 2) :: S) bl → 0 ≤ o → pg mod 4096 = 0 → arena + 8 < pg →
  pages_of pg o ## held (pm s) → held p' = held (pm s) ∪ pages_of pg o →
  heap_ok (set_bigblocks (set_bigs (set_pm s p') (<[d := mkBig o pg (bigblocks s)]> (bigs s))) d) L S (mkBigobj d o pg :: bl).
Proof.
  intros [[Hok Hu Hd Hf Hh Hfull] Hsm Hbc Hpg Hbd] Ho Ha Hlo Hdis Hheld.
  assert ((d, 2) :: S ++ (desc_blk <$> bl) ≡ₚ S ++ (desc_blk <$> mkBigobj d o pg :: bl)) as Hperm by (rewrite fmap_cons; apply Permutation_middle).
  apply Forall_cons_1 in Hsm as [_ Hsm]. split; [| |split; [done|]|constructor|]; cbn [pm cells bigs bigblocks set_pm set_bigs set_bigblocks].
  - apply (used_perm _ _ _ _ _ Hperm). split; [by destruct Hok; split|done|done|done| |];
      cbn [pm set_pm set_bigs set_bigblocks]; rewrite Hheld; intros x.
    + intros Hx. destruct (Hh x Hx) as [H1 H2]. split; [set_solver|]. unfold big_page. rewrite Exists_cons. intros [Hq|Hq]; [|done]. apply (Hdis (x / 4096)); [exact Hq|done].
    + intros [Hx|Hx]%elem_of_union Hq; [apply Hfull; [done|]; intros Hb; apply Hq; by apply Exists_cons_tl|destruct Hq; by apply Exists_cons_hd].
  - done.
  - exists (bigblocks s). split; [apply lookup_insert_eq|]. apply bchain_insert; [|done].
    simpl in Hd. destruct Hd as [Hd _]. apply Forall_forall. intros b Hb Heq. apply (Hd d); [unfold inside; cbn [fst snd]; lia|].
    apply Exists_app. right. apply Exists_fmap, Exists_exists. exists b. split; [done|]. unfold compose, inside, desc_blk. cbn [fst snd]. lia.
  - cbn [bo_order bo_pages]. split_and!; try done. rewrite Hheld. set_solver.
  - eapply pages_mono; [|exact Hpg]. rewrite Hheld. set_solver.
  - split; [|done]. intros q Hq (b & Hb & Hqb)%Exists_exists. rewrite Forall_forall in Hpg. destruct (Hpg _ Hb) as (_ & _ & _ & Hs).
    apply (Hdis q); [exact Hq|]. by apply Hs.
Qed.

Definition in_region (x : Z) (o : Z * Z) : Prop := o.1 ≤ x < o.1 + o.2.

Lemma big_region x b : 0 ≤ bo_order b → bo_pages b mod 4096 = 0 → in_region x (big_obj b) → in_big (x / 4096) b.
Proof.
  intros Ho Ha. unfold in_region, in_big, pages_of, big_obj. cbn [fst snd]. rewrite elem_of_list_to_set, elem_of_seqZ. intros Hx.
  pose proof (Z.div_mod (bo_pages b) 4096). split; [apply Z.div_le_mono; lia|]. apply Z.div_lt_upper_bound; lia.
Qed.

Lemma small_region x b : in_region x (small_obj b) → inside x b.
Proof. unfold in_region, inside, small_obj. cbn [fst snd]. lia. Qed.

(** The objects in use are pairwise disjoint. *)
Lemma heap_regions s L S bl : heap_ok s L S bl → disj in_region ((small_obj <$> S) ++ (big_obj <$> bl)).
Proof.
  intros [[_ _ Hd _ Hh _] _ _ Hpg Hbd]. rewrite Forall_forall in Hpg. apply disj_app in Hd as (Hd & _ & _). apply disj_app. split_and!.
  - eapply (disj_fmap _ _ id); [|exact Hd]. intros x b _. apply small_region.
  - eapply (disj_fmap _ _ (λ x, x / 4096)); [|exact Hbd]. intros x b Hb. destruct (Hpg _ Hb) as (? & ? & _). by apply big_region.
  - intros x (o1 & (b & -> & Hb)%list_elem_of_fmap & Hx)%Exists_exists (o2 & (c & -> & Hc)%list_elem_of_fmap & Hy)%Exists_exists.
    destruct (Hpg _ Hc) as (? & ? & _). apply (Hh x); [|apply Exists_exists; exists c; split; [done|by apply big_region]].
    right. rewrite covers_app. left. apply Exists_exists. exists b. split; [done|by apply small_region].
Qed.

Lemma heap_perm s objs objs' : objs ≡ₚ objs' → heap s objs → heap s objs'.
Proof. intros Hp (L & S & bl & Hok & Heq). exists L, S, bl. split; [done|]. by rewrite <-Hp. Qed.

Lemma heap_disjoint s r n objs : heap s ((r, n) :: objs) → ∀ o x, o ∈ objs → in_region x o → ¬ in_region x (r, n).
Proof.
  intros (L & S & bl & Hok & Heq) o x Ho Hx Hy. pose proof (heap_regions _ _ _ _ Hok) as Hd. rewrite <-Heq in Hd. destruct Hd as [Hd _].
  apply (Hd x Hy). apply Exists_exists. by exists o.
Qed.

(** The bytes [n] of the object for a request of [size] bytes: a small object has at least [size], and less than
    a unit more; a large one is a power of two of pages, the smallest that holds [size] up to less than a
    byte for each page. *)
Definition obj_bytes (size n : Z) : Prop :=
  if size <? PAGE_SIZE - SLOB_UNIT then size ≤ n < size + SLOB_UNIT
  else ∃ o, 0 ≤ o ∧ n = 4096 * 2 ^ o ∧ size < n + 2 ^ o ∧ (o = 0 ∨ 4096 * 2 ^ (o - 1) + 2 ^ (o - 1) ≤ size).

(** [find_order] halves until at most 4096 is left, [k] times. *)
Lemma order_loop_run fuel size o : size < 4097 * 2 ^ Z.of_nat fuel →
  ∃ k, 0 ≤ k ∧ order_loop fuel size o = o + k ∧ size < 4097 * 2 ^ k ∧ (k = 0 ∨ 4097 * 2 ^ (k - 1) ≤ size).
Proof.
  revert size o. induction fuel as [|fuel IH]; intros size o Hf.
  { exists 0. split_and!; [lia|simpl; lia|exact Hf|by left]. }
  cbn [order_loop]. destruct (Z.ltb_spec 4096 size) as [Hlt|Hle]; [|exists 0; split_and!; [lia|lia|lia|by left]].
  rewrite Z.shiftr_div_pow2 by lia. change (2 ^ 1) with 2. pose proof (Z.div_mod size 2 ltac:(lia)). pose proof (Z.mod_pos_bound size 2 ltac:(lia)).
  rewrite Nat2Z.inj_succ, Z.pow_succ_r in Hf by lia. destruct (IH (size / 2) (o + 1)) as (k & Hk & Hrun & H1 & H2); [lia|].
  exists (k + 1). rewrite Z.pow_add_r by lia. change (2 ^ 1) with 2. split_and!; [lia|lia|lia|right]. rewrite Z.add_simpl_r.
  destruct H2 as [->|H2]; [change (2 ^ 0) with 1; lia|]. destruct (decide (k = 0)) as [->|]; [change (2 ^ 0) with 1; lia|].
  replace k with (k - 1 + 1) at 1 by lia. rewrite Z.pow_add_r by lia. change (2 ^ 1) with 2. lia.
Qed.

Lemma find_order_bytes size : 4088 ≤ size < 2 ^ 31 → obj_bytes size (4096 * 2 ^ find_order size).
Proof.
  intros Hs. unfold obj_bytes. change (PAGE_SIZE - SLOB_UNIT) with 4088. rewrite (proj2 (Z.ltb_ge _ _)) by lia.
  unfold find_order. rewrite s32_small by lia.
  destruct (order_loop_run 32 size 0) as (k & Hk & -> & H1 & H2); [change (Z.of_nat 32) with 32; lia|].
  rewrite Z.add_0_l. exists k. split_and!; [done|done|lia|]. destruct H2; [by left|right; lia].
Qed.

(** The sizes that [__kmalloc] gives to [slob_alloc] although they do not fit there. *)
Lemma kmalloc_gap s size : 4080 ≤ size < 4088 → kmalloc size s = Err EPanic.
Proof.
  intros Hs. unfold kmalloc, __kmalloc. change (PAGE_SIZE - SLOB_UNIT) with 4088. rewrite (proj2 (Z.ltb_lt _ _)) by lia.
  unfold slob_alloc, SLOB_UNIT. rewrite u32_small by lia. by rewrite (proj2 (Z.ltb_ge _ _)) by (change PAGE_SIZE with 4096; lia).
Qed.

Lemma kmalloc_run s objs size : heap s objs → 0 < size < 2 ^ 31 → ¬ (4080 ≤ size < 4088) →
  ∃ r s', kmalloc size s = Ret (r, s') ∧
    ((r = 0 ∧ heap s' objs) ∨ (r ≠ 0 ∧ r mod 8 = 0 ∧ ∃ n, obj_bytes size n ∧ heap s' ((r, n) :: objs))).
Proof.
  intros (L & S & bl & Hok & Heq) Hsz Hgap. unfold kmalloc, __kmalloc. change (PAGE_SIZE - SLOB_UNIT) with 4088.
  change SLOB_UNIT with 8. destruct (Z.ltb_spec size 4088) as [Hlt|Hge].
  - destruct (heap_alloc s L S bl (size + 8) Hok ltac:(lia) ltac:(lia)) as (r & s' & Hrun & Hr). step_by Hrun.
    destruct Hr as [[-> Hok']|(Hr & L' & Hok')]; [exists 0, s'; split; [done|left; split; [done|by exists L, S, bl]]|].
    pose proof Hok' as [[_ Hu _ _ _ _] _ _ _ _]. apply Forall_cons_1 in Hu as [(Hn & H8 & Hlo & Hhi) _]. cbn [fst snd] in *.
    destruct Hok' as [Hus]. pose proof (us_slob _ _ _ _ Hus) as [_ _ Hpos _].
    rewrite (proj2 (Z.eqb_neq _ _)) by done. rewrite u32_small by lia. exists (r + 8), s'. split; [done|]. right. split; [lia|].
    split; [rewrite <-Z.add_mod_idemp_l, H8 by lia; done|]. exists (8 * (SLOB_UNITS (size + 8) - 1)).
    destruct (slob_units_bound (size + 8) ltac:(lia) ltac:(lia)) as (_ & Hb & Hb').
    split; [unfold obj_bytes; change (PAGE_SIZE - SLOB_UNIT) with 4088; rewrite (proj2 (Z.ltb_lt _ _)) by lia; change SLOB_UNIT with 8; lia|].
    exists L', ((r, SLOB_UNITS (size + 8)) :: S), bl. split; [done|]. rewrite fmap_cons. simpl. by rewrite Heq.
  - destruct (heap_alloc s L S bl bigblock_size Hok ltac:(done) ltac:(done)) as (r & s' & Hrun & Hr). step_by Hrun.
    change (SLOB_UNITS bigblock_size) with 2 in Hr.
    destruct Hr as [[-> Hok']|(Hr & L' & Hok')]; [exists 0, s'; split; [done|left; split; [done|by exists L, S, bl]]|].
    rewrite (proj2 (Z.eqb_neq _ _)) by done. assert (0 ≤ find_order size) as Ho by apply order_loop_ge.
    destruct (get_pages_ok (pm s') (find_order size) Ho) as (pg & p' & Hget & Hpg).
    assert (pm_do (__slob_get_free_pages (find_order size)) s' = Ret (pg, set_pm s' p')) as Hpm by (unfold pm_do; by rewrite Hget). step_by Hpm.
    destruct Hpg as [[-> Hheld]|(H1 & H2 & H3 & H4 & H5)].
    + change (negb (0 =? 0)) with false. cbv iota.
      assert (heap_ok (set_pm s' p') L' ((r, 2) :: S) bl) as Hok''.
      { destruct Hok' as [[A1 A2 A3 A4 A5 A6] B1 B2 B3 B4]. split; try done; [split; try done; [by apply slob_ok_pm|by cbn [pm set_pm]; rewrite Hheld..]|].
        cbn [pm set_pm]. by rewrite Hheld. }
      destruct (heap_free (set_pm s' p') L' [] r 2 S bl Hok'' bigblock_size) as (s2 & L2 & Hrun2 & Hok2 & _); [right; done|]. step_by Hrun2.
      exists 0, s2. split; [done|]. left. split; [done|]. by exists L2, S, bl.
    + pose proof (us_slob _ _ _ _ (hp_used _ _ _ _ Hok')) as [_ _ Hpos _]. rewrite (proj2 (Z.eqb_neq pg 0)) by lia. cbn [negb].
      exists pg, (set_bigblocks (set_bigs (set_pm s' p') (<[r := mkBig (find_order size) pg (bigblocks s')]> (bigs s'))) r).
      split; [done|]. right. split; [lia|]. split.
      { rewrite (Z.div_mod pg 4096), H1 by lia. rewrite Z.add_0_r. replace (4096 * (pg / 4096)) with ((512 * (pg / 4096)) * 8) by lia. apply Z.mod_mul. lia. }
      exists (4096 * 2 ^ find_order size). split; [apply find_order_bytes; lia|]. exists L', S, (mkBigobj r (find_order size) pg :: bl).
      split; [by apply heap_big|]. rewrite fmap_cons, <-Permutation_middle. by rewrite Heq.
Qed.

(** ** [kfree] *)

Lemma big_run a x (s : slob) : bigs s !! a = Some x → big a s = Ret (x, s).
Proof. intros H. unfold big, deref. by rewrite H. Qed.

Definition lastd (last : option Z) (bl : list bigobj) : option Z := from_option (λ b, Some (bo_desc b)) last (list.last bl).

Lemma lastd_cons last b bl : lastd (Some (bo_desc b)) bl = lastd last (b :: bl).
Proof. unfold lastd. rewrite last_cons. by destruct (list.last bl). Qed.

Notation nonnull bl := (Forall (λ b, bo_desc b ≠ 0) bl).
Notation pages_not block bl := (Forall (λ b, bo_pages b ≠ block) bl).

Lemma big_loop_none s block bl : ∀ fuel last st, bchain (bigs s) bl st → nonnull bl → pages_not block bl → (length bl < fuel)%nat →
  big_loop fuel block last st s = Ret (None, s).
Proof.
  induction bl as [|b bl IH]; intros [|fuel] last st Hc Hn Hp Hf; simpl in Hf; try lia; cbn [big_loop].
  - simpl in Hc. by subst st.
  - destruct Hc as (-> & nx & Hnx & Hc). apply Forall_cons_1 in Hn as [Hn1 Hn], Hp as [Hp1 Hp]. rewrite (proj2 (Z.eqb_neq _ _)) by done.
    step_by (big_run _ _ _ Hnx). cbn [bpages bnext]. rewrite (proj2 (Z.eqb_neq _ _)) by done. apply IH; [done|done|done|lia].
Qed.

Lemma big_loop_found s block bl1 b bl2 : ∀ fuel last st, bchain (bigs s) (bl1 ++ b :: bl2) st → nonnull (bl1 ++ b :: bl2) → pages_not block bl1 →
  bo_pages b = block → (length bl1 < fuel)%nat →
  ∃ nx, big_loop fuel block last st s = Ret (Some (lastd last bl1, bo_desc b, mkBig (bo_order b) block nx), s) ∧
    bigs s !! bo_desc b = Some (mkBig (bo_order b) block nx) ∧ bchain (bigs s) bl2 nx.
Proof.
  induction bl1 as [|c bl1 IH]; intros [|fuel] last st Hc Hn Hp Hb Hf; simpl in Hf; try lia; cbn [big_loop app] in *.
  - destruct Hc as (-> & nx & Hnx & Hc). apply Forall_cons_1 in Hn as [Hn1 Hn]. rewrite (proj2 (Z.eqb_neq _ _)) by done.
    step_by (big_run _ _ _ Hnx). cbn [bpages bnext]. rewrite (proj2 (Z.eqb_eq _ _)) by done. rewrite Hb in Hnx. exists nx. rewrite Hb. by split_and!.
  - destruct Hc as (-> & nx & Hnx & Hc). apply Forall_cons_1 in Hn as [Hn1 Hn], Hp as [Hp1 Hp]. rewrite (proj2 (Z.eqb_neq _ _)) by done.
    step_by (big_run _ _ _ Hnx). cbn [bpages bnext]. rewrite (proj2 (Z.eqb_neq _ _)) by done.
    destruct (IH fuel (Some (bo_desc c)) nx Hc Hn Hp Hb ltac:(lia)) as (nx' & Hrun & H1 & H2). exists nx'. by rewrite Hrun, (lastd_cons last).
Qed.

(** Facts about the descriptors. *)
Lemma desc_facts s L S bl : heap_ok s L S bl → NoDup (bo_desc <$> bl) ∧ nonnull bl ∧ (length bl ≤ base.size (bigs s))%nat.
Proof.
  intros [[Hsl Hu Hd _ _ _] _ Hbc _ _]. destruct Hsl as [_ _ Hpos _]. apply Forall_app in Hu as [_ Hu]. apply disj_app in Hd as (_ & Hd & _).
  rewrite Forall_fmap in Hu. assert (nonnull bl) as Hn.
  { eapply Forall_impl; [exact Hu|]. intros b. unfold compose, desc_blk. cbn [fst snd]. lia. }
  assert (NoDup (bo_desc <$> bl)) as Hnd.
  { clear -Hd. induction bl as [|b bl IH]; [constructor|]. rewrite fmap_cons in *. destruct Hd as [Hd Hd']. constructor; [|by apply IH].
    intros (c & Hc & Hin)%list_elem_of_fmap. apply (Hd (bo_desc b)); [unfold inside, desc_blk; cbn [fst snd]; lia|].
    apply Exists_exists. exists (desc_blk c). split; [by apply list_elem_of_fmap_2|]. unfold inside, desc_blk. cbn [fst snd]. lia. }
  split_and!; [done|done|]. rewrite <-(length_fmap bo_desc bl), <-(size_list_to_set (C := gset Z) _ Hnd), <-size_dom.
  apply subseteq_size. intros d (b & -> & Hb)%elem_of_list_to_set%list_elem_of_fmap. apply elem_of_dom. clear -Hbc Hb.
  revert Hbc. generalize (bigblocks s). induction Hb as [c bl|c d bl Hb IH]; intros st (_ & nx & H1 & H2); [by eexists|by eapply IH].
Qed.

(** A page-aligned small object is on no page of a large one. *)
Lemma find_big_small s L S1 a u S2 bl : heap_ok s L (S1 ++ (a, u) :: S2) bl → find_big (a + 8) s = Ret (None, s).
Proof.
  intros Hok. destruct (desc_facts _ _ _ _ Hok) as (_ & Hn & Hlen). destruct Hok as [[_ _ _ _ Hh _] Hsm Hbc Hpg _].
  unfold find_big. step using reflexivity. destruct (_ =? 0); [|done]. apply (big_loop_none s _ bl); [done|done| |lia].
  apply Forall_forall. intros b Hb Heq. rewrite Forall_forall in Hpg. destruct (Hpg _ Hb) as (Ho & Ha & _).
  rewrite Forall_app, Forall_cons in Hsm. destruct Hsm as (_ & (Hu & _) & _). cbn [snd] in Hu.
  destruct (Hh (a + 8)) as [_ Hq]; [right; rewrite !covers_app, covers_cons; left; right; left; unfold inside; cbn [fst snd]; lia|].
  apply Hq. apply Exists_exists. exists b. split; [done|]. apply big_region; [done|done|]. unfold in_region, big_obj. cbn [fst snd]. lia.
Qed.

Lemma desc_ne (bl : list bigobj) d : d ∉ bo_desc <$> bl → Forall (λ b, bo_desc b ≠ d) bl.
Proof. intros Hn. apply Forall_forall. intros b Hb <-. apply Hn. by apply list_elem_of_fmap_2. Qed.

Lemma bchain_cut m bl1 c b bl2 nx : bchain m bl2 nx → ∀ st, bchain m (bl1 ++ c :: b :: bl2) st → NoDup (bo_desc <$> bl1 ++ c :: b :: bl2) →
  bchain (<[bo_desc c := mkBig (bo_order c) (bo_pages c) nx]> m) (bl1 ++ c :: bl2) st.
Proof.
  intros H2. induction bl1 as [|d bl1 IH]; intros st.
  - intros (-> & _ & _ & _) Hnd. simpl in Hnd. apply NoDup_cons in Hnd as [Hn _]. split; [done|]. exists nx. split; [apply lookup_insert_eq|].
    apply bchain_insert; [|done]. apply desc_ne. set_solver.
  - simpl. intros (-> & nx' & Hd & Hc) Hnd. apply NoDup_cons in Hnd as [Hn Hnd]. split; [done|]. exists nx'.
    rewrite lookup_insert_ne by (intros Heq; apply Hn; rewrite <-Heq, fmap_app; set_solver). split; [done|by apply IH].
Qed.

Lemma bchain_at m bl1 b bl2 st : bchain m (bl1 ++ b :: bl2) st → ∃ nx, m !! bo_desc b = Some (mkBig (bo_order b) (bo_pages b) nx).
Proof. revert st. induction bl1 as [|c bl1 IH]; intros st (_ & nx & H & Hc); [by eexists|by eapply IH]. Qed.

Lemma bchain_delete m bl st d : Forall (λ b, bo_desc b ≠ d) bl → bchain m bl st → bchain (delete d m) bl st.
Proof.
  intros Hne. revert st. induction Hne as [|b bl Hb _ IH]; intros st; simpl; [done|]. intros (-> & nx & Hnx & Hc).
  split; [done|]. exists nx. rewrite lookup_delete_ne by congruence. split; [done|by apply IH].
Qed.

Lemma unlink_run s bl1 b bl2 nx : bchain (bigs s) (bl1 ++ b :: bl2) (bigblocks s) → NoDup (bo_desc <$> bl1 ++ b :: bl2) → bchain (bigs s) bl2 nx →
  ∃ m st, unlink_big (lastd None bl1) nx s = Ret (tt, set_bigblocks (set_bigs s m) st) ∧ bchain m (bl1 ++ bl2) st.
Proof.
  intros Hc Hnd H2. destruct bl1 as [|c bl1 _] using rev_ind; [by exists (bigs s), nx|]. unfold lastd. rewrite last_snoc. simpl.
  rewrite <-app_assoc in *. simpl in *. destruct (bchain_at _ _ _ _ _ Hc) as [nx' Hcell]. step_by (big_run _ _ _ Hcell). cbn [order bpages].
  eexists _, _. split; [reflexivity|]. by apply bchain_cut with b.
Qed.

Lemma kfree_big s L S bl1 b bl2 : heap_ok s L S (bl1 ++ b :: bl2) → ∃ s' L', kfree (bo_pages b) s = Ret (tt, s') ∧ heap_ok s' L' S (bl1 ++ bl2) ∧
  held (pm s') = held (pm s) ∖ pages_of (bo_pages b) (bo_order b) ∧ ∀ x, covers L' x ↔ covers L x ∨ inside x (desc_blk b).
Proof.
  intros Hok. destruct (desc_facts _ _ _ _ Hok) as (Hnd & Hn & Hlen). destruct Hok as [Hus Hsm Hbc Hpg Hbd].
  pose proof (us_slob _ _ _ _ Hus) as Hsl. destruct (disj_middle _ _ _ _ Hbd) as [Hbd' Hout].
  pose proof Hpg as Hpg'. rewrite Forall_app, Forall_cons in Hpg'. destruct Hpg' as (Hpg1 & (Ho & Ha & Hlo & Hsub) & Hpg2).
  assert (pages_not (bo_pages b) bl1) as Hfirst.
  { apply Forall_forall. intros c Hc Heq. rewrite Forall_forall in Hpg1. destruct (Hpg1 _ Hc) as (Hoc & Hac & _).
    apply (Hout (bo_pages b / 4096)); [apply big_region; [done|done|unfold in_region, big_obj; cbn [fst snd]; lia]|].
    apply Exists_app. left. apply Exists_exists. exists c. split; [done|]. rewrite <-Heq. apply big_region; [done|done|]. unfold in_region, big_obj. cbn [fst snd]. lia. }
  unfold kfree. rewrite (proj2 (Z.eqb_neq _ _)) by (destruct Hsl; lia).
  destruct (big_loop_found s (bo_pages b) bl1 b bl2 (Datatypes.S (base.size (bigs s))) None (bigblocks s) Hbc Hn Hfirst eq_refl) as (nx & Hloop & Hcell & H2);
    [rewrite length_app in Hlen; simpl in Hlen; lia|].
  assert (find_big (bo_pages b) s = Ret (Some (lastd None bl1, bo_desc b, mkBig (bo_order b) (bo_pages b) nx), s)) as Hfind.
  { unfold find_big. step using reflexivity. change (PAGE_SIZE - 1) with (Z.ones 12). rewrite Z.land_ones by lia. change (2 ^ 12) with 4096.
    rewrite Ha. exact Hloop. }
  step_by Hfind. cbv beta iota. cbn [bnext order]. destruct (unlink_run s bl1 b bl2 nx Hbc Hnd H2) as (m & st & Hun & Hm). step_by Hun.
  destruct (free_pages_ok (pm s) (bo_pages b) (bo_order b) Ho Ha Hsub) as (p' & Hfree & Hheld).
  assert (pm_do (__slob_free_pages (bo_pages b) (bo_order b)) (set_bigblocks (set_bigs s m) st) = Ret (tt, set_pm (set_bigblocks (set_bigs s m) st) p')) as Hpm
    by (unfold pm_do; cbn [pm set_bigblocks set_bigs]; by rewrite Hfree).
  step_by Hpm. step using reflexivity. cbn [bigs set_pm set_bigblocks set_bigs]. set (s1 := set_bigs _ _).
  assert (used_ok s1 L ((S ++ (desc_blk <$> bl1)) ++ (bo_desc b, 2) :: (desc_blk <$> bl2)) (big_page (bl1 ++ bl2))) as Hus1.
  { rewrite <-app_assoc. rewrite fmap_app, fmap_cons in Hus. destruct Hus as [A1 A2 A3 A4 A5 A6].
    split; [by destruct A1; split|done|done|done| |]; cbn [pm s1 set_bigs set_pm]; rewrite Hheld; unfold big_page in *; intros x.
    - intros Hx. destruct (A5 x Hx) as [Hin Hnb]. rewrite Exists_app, Exists_cons in Hnb.
      rewrite Exists_app. split; [|tauto]. apply elem_of_difference. split; [done|]. intros Hq. apply Hnb. right. left. exact Hq.
    - intros [Hx Hnp]%elem_of_difference Hq. apply A6; [done|]. rewrite Exists_app in Hq. rewrite Exists_app, Exists_cons. intros [?|[?|?]]; tauto. }
  destruct (used_free s1 L _ _ _ _ _ bigblock_size Hus1 eq_refl) as (s' & L' & Hrun & Hus' & Hb1 & Hb2 & Hb3 & Hcov & Hcells).
  exists s', L'. split; [exact Hrun|]. split; [|split; [by rewrite Hb3|exact Hcov]]. rewrite <-app_assoc, <-fmap_app in Hus', Hcells. split; [done| | | |done].
  - eapply small_cells; [exact Hcells|set_solver|done].
  - rewrite Hb1, Hb2. cbn [bigs bigblocks s1 set_bigs set_pm set_bigblocks]. apply bchain_delete; [|done]. apply desc_ne.
    rewrite fmap_app, fmap_cons in Hnd. rewrite fmap_app. apply NoDup_app in Hnd as (_ & Hx & [Hn2 _]%NoDup_cons). set_solver.
  - rewrite Hb3. cbn [pm s1 set_bigs set_pm]. rewrite Hheld. apply Forall_forall. intros c Hc.
    assert (c ∈ bl1 ++ b :: bl2) as Hc' by (rewrite elem_of_app in *; set_solver). rewrite Forall_forall in Hpg. destruct (Hpg _ Hc') as (? & ? & ? & Hsc).
    split_and!; try done. intros q Hq. apply elem_of_difference. split; [by apply Hsc|]. intros Hqb. apply (Hout q Hqb). apply Exists_exists. by exists c.
Qed.

(** The bytes that can be given out again: those on the list of free blocks, in which neighbours are always
    merged, and those of pages that the heap does not hold. *)
Definition reusable (s : slob) (x : Z) : Prop := (∃ L, slob_ok s L ∧ covers L x) ∨ x / 4096 ∉ held (pm s).

Lemma chain_unique h e L1 L2 : NoDup (e :: L1.*1) → NoDup (e :: L2.*1) → hd e L1 = hd e L2 → chain h L1 e → chain h L2 e → L1 = L2.
Proof.
  revert L2. induction L1 as [|b L1 IH]; intros L2 N1 N2 Hhd H1 H2.
  - destruct L2 as [|c L2]; [done|]. unfold hd in Hhd; simpl in Hhd. rewrite fmap_cons, Hhd in N2. apply NoDup_cons in N2 as [N2 _]. destruct N2. left.
  - destruct L2 as [|c L2].
    { unfold hd in Hhd; simpl in Hhd. rewrite fmap_cons, <-Hhd in N1. apply NoDup_cons in N1 as [N1 _]. destruct N1. left. }
    destruct H1 as [Hb H1], H2 as [Hc H2]. unfold hd in Hhd; simpl in Hhd. rewrite Hhd, Hc in Hb. injection Hb as Hu Hn. rewrite fmap_cons in N1, N2.
    apply NoDup_cons in N1 as [M1 [_ N1]%NoDup_cons], N2 as [M2 [_ N2]%NoDup_cons]. rewrite not_elem_of_cons in M1, M2.
    f_equal; [by destruct b, c; simpl in *; subst|]. apply IH; [apply NoDup_cons; tauto|apply NoDup_cons; tauto|done|done|done].
Qed.

(** The list of free blocks is determined by the headers. *)
Lemma slob_ok_unique s L1 L2 : slob_ok s L1 → slob_ok s L2 → L1 = L2.
Proof.
  intros [[H1 C1] S1 _ _] [[H2 C2] S2 _ _]. rewrite H1 in H2. injection H2 as Hn.
  apply (chain_unique (cells s) arena); try done; eapply (asc_NoDup (arena - 1) (ring _)), ring_asc; done.
Qed.

Lemma reusable_heap s L S bl x : heap_ok s L S bl → reusable s x ↔ covers L x ∨ x / 4096 ∉ held (pm s).
Proof.
  intros Hok. pose proof (us_slob _ _ _ _ (hp_used _ _ _ _ Hok)) as HL. unfold reusable.
  split; [|intros [?|?]; [left; by exists L|by right]]. intros [(L' & HL' & Hx)|?]; [left|by right]. by rewrite (slob_ok_unique s L L').
Qed.

Lemma kfree_run s r n objs : heap s ((r, n) :: objs) → ∃ s', kfree r s = Ret (tt, s') ∧ heap s' objs ∧
  (∀ x, reusable s x ∨ in_region x (r, n) → reusable s' x).
Proof.
  intros (L & S & bl & Hok & Heq).
  assert ((r, n) ∈ (small_obj <$> S) ++ (big_obj <$> bl)) as Hin by (rewrite <-Heq; left).
  apply elem_of_app in Hin as [([a u] & Hr & (S1 & S2 & ->)%list_elem_of_split)%list_elem_of_fmap|(b & Hr & (bl1 & bl2 & ->)%list_elem_of_split)%list_elem_of_fmap].
  - injection Hr as -> ->. cbn [fst snd] in *. destruct (heap_free s L S1 a u S2 bl Hok 0) as (s' & L' & Hrun & Hok' & Hpm & Hcov); [by left|].
    exists s'. split_and!.
    + pose proof (us_slob _ _ _ _ (hp_used _ _ _ _ Hok)) as [_ _ Hpos _]. pose proof (us_used _ _ _ _ (hp_used _ _ _ _ Hok)) as Hu.
      rewrite !Forall_app, Forall_cons in Hu. destruct Hu as ((_ & Hu & _) & _). cbn [fst snd] in Hu.
      unfold kfree. rewrite (proj2 (Z.eqb_neq _ _)) by lia. step_by (find_big_small _ _ _ _ _ _ _ Hok). change SLOB_UNIT with 8.
      by replace (a + 8 - 8) with a by lia.
    + exists L', (S1 ++ S2), bl. split; [done|]. apply (Permutation_cons_inv (a := (a + 8, 8 * (u - 1)))). rewrite Heq.
      rewrite !fmap_app, fmap_cons, <-Permutation_middle. done.
    + intros x. rewrite (reusable_heap _ _ _ _ x Hok), (reusable_heap _ _ _ _ x Hok'), Hcov, Hpm.
      intros [?|Hx]; [tauto|]. left. right. by apply (small_region x (a, u)).
  - injection Hr as -> ->. destruct (kfree_big s L S bl1 b bl2 Hok) as (s' & L' & Hrun & Hok' & Hheld & Hcov). exists s'. split; [done|]. split.
    + exists L', S, (bl1 ++ bl2). split; [done|]. apply (Permutation_cons_inv (a := big_obj b)). change (bo_pages b, 4096 * 2 ^ bo_order b) with (big_obj b) in Heq.
      rewrite Heq, !fmap_app, fmap_cons, app_assoc, <-Permutation_middle, app_assoc. done.
    + intros x. rewrite (reusable_heap _ _ _ _ x Hok), (reusable_heap _ _ _ _ x Hok'), Hcov, Hheld, not_elem_of_difference.
      intros [?|Hx]; [tauto|]. right. right. apply (big_region x b); [..|exact Hx];
        pose proof (hp_pages _ _ _ _ Hok) as Hp; rewrite Forall_app, Forall_cons in Hp; tauto.
Qed.

(** C16: the kernel heap hands out memory that no one else has: from any state with the objects [objs] in
    use, [kmalloc] of a size below 2 GB and outside the gap of [kmalloc_gap] either fails, and the heap then has
    these objects as before, or returns an aligned address whose region meets no object in use; the heap then
    has this object and the others.  The region of a size below 4088 has at least [size] bytes and fewer than 8
    more; from 4088 on it is the smallest power of two of pages, [2 ^ o], for which [size] is less than
    [4097 * 2 ^ o]: enough for one page, but for more it may fall short of [size] by less than a byte per page. *)
Theorem kmalloc_correct s objs size : heap s objs → 0 < size < 2 ^ 31 → ¬ (4080 ≤ size < 4088) →
  ∃ r s', kmalloc size s = Ret (r, s') ∧
    ((r = 0 ∧ heap s' objs) ∨
     (r ≠ 0 ∧ r mod 8 = 0 ∧ ∃ n, obj_bytes size n ∧ heap s' ((r, n) :: objs) ∧
        ∀ o x, o ∈ objs → in_region x o → ¬ in_region x (r, n))).
Proof.
  intros Hh H1 H2. destruct (kmalloc_run s objs size Hh H1 H2) as (r & s' & Hrun & [Hr|(Hr & H8 & n & Hn & Hh')]); exists r, s'; split; try done;
    [by left|right]. split_and!; try done. exists n. split_and!; try done. by apply heap_disjoint with s'.
Qed.

(** C17: [kfree] of any object in use, small or large, succeeds, and afterwards the heap has exactly the
    other objects: of the pages it still holds every byte is in one of their blocks or on the list of free
    blocks, whose neighbours are merged.  All bytes of the object can be given out again, as part of that list
    or of pages that the heap has returned to the page allocator, and so can all that could before. *)
Theorem kfree_correct s r n objs : heap s ((r, n) :: objs) → ∃ s', kfree r s = Ret (tt, s') ∧ heap s' objs ∧
  ∀ x, reusable s x ∨ in_region x (r, n) → reusable s' x.
Proof. apply kfree_run. Qed.

End slob.

(** * An example: pages numbered upwards from the last one held *)

#[local] Instance demo_arena : arena_env := {| arena := 8 |}.

Definition demo_get (o : Z) (p : gset Z) : Z :=
  let a := 4096 * (foldr Z.max 0 (elements p) + 1) in
  if decide (8 + 8 < a ∧ a + 4096 * 2 ^ o < 2 ^ 32 ∧ pages_of a o ## p) then a else 0.

#[local] Instance demo_pages : page_env (gset Z) := {|
  __slob_get_free_pages := λ o p, let a := demo_get o p in Ret (a, if a =? 0 then p else p ∪ pages_of a o);
  __slob_free_pages := λ a o p, Ret (tt, p ∖ pages_of a o) |}.

#[local] Instance demo_laws : page_laws (P := gset Z).
Proof.
  refine {| held := λ p, p |}.
  - intros p o Ho. simpl. eexists _, _. split; [reflexivity|]. unfold demo_get. destruct (decide _) as [(H1 & H2 & H3)|]; [|by left].
    right. rewrite (proj2 (Z.eqb_neq _ _)) by lia. split_and!; try done. rewrite Z.mul_comm. by apply Z.mod_mul.
  - intros p a o Ho Ha Hs. simpl. by eexists.
Defined.

Definition demo_slob : slob (P := gset Z) := slob_boot ∅.

Lemma demo_slob_heap : heap demo_slob [].
Proof.
  exists [], [], []. split; [|done]. split; [|constructor|done|constructor|done]. split; [|constructor|done|by intros x Hx; inversion Hx| |].
  - split; [split; [apply lookup_singleton_eq|done]|done|done|left].
  - intros x [Hx|Hx]; inversion Hx.
  - intros x Hx. by apply elem_of_empty in Hx.
Qed.

Lemma kmalloc_correct_witness :
  (∃ s', kmalloc 100 demo_slob = Ret (4104, s') ∧ ∃ n, 100 ≤ n < 108 ∧ heap s' [(4104, n)]) ∧
  ∃ s' n, kmalloc 10000 demo_slob = Ret (8192, s') ∧ obj_bytes 10000 n ∧ heap s' [(8192, n)].
Proof.
  split.
  - destruct (kmalloc_correct demo_slob [] 100 demo_slob_heap ltac:(lia) ltac:(lia)) as (r & s' & Hrun & Hr).
    assert (fst <$> kmalloc 100 demo_slob = Ret 4104) as Hc by (vm_compute; reflexivity). rewrite Hrun in Hc. injection Hc as ->.
    destruct Hr as [[H _]|(_ & _ & n & Hn & Hh & _)]; [discriminate|]. exists s'. split; [exact Hrun|]. exists n. split; [exact Hn|exact Hh].
  - destruct (kmalloc_correct demo_slob [] 10000 demo_slob_heap ltac:(lia) ltac:(lia)) as (r & s' & Hrun & Hr).
    assert (fst <$> kmalloc 10000 demo_slob = Ret 8192) as Hc by (vm_compute; reflexivity). rewrite Hrun in Hc. injection Hc as ->.
    destruct Hr as [[H _]|(_ & _ & n & Hn & Hh & _)]; [discriminate|]. exists s', n. split; [exact Hrun|]. split; [exact Hn|exact Hh].
Defined.

Lemma kfree_correct_witness :
  (∃ s' s'' n, kmalloc 10000 demo_slob = Ret (8192, s') ∧ heap s' [(8192, n)] ∧ kfree 8192 s' = Ret (tt, s'') ∧ heap s'' [] ∧ reusable s'' 8192) ∧
  ∃ s' s'' n, kmalloc 100 demo_slob = Ret (4104, s') ∧ heap s' [(4104, n)] ∧ kfree 4104 s' = Ret (tt, s'') ∧ heap s'' [] ∧ reusable s'' 4200.
Proof.
  split.
  - destruct (kmalloc_run demo_slob [] 10000 demo_slob_heap ltac:(lia) ltac:(lia)) as (r & s' & Hrun & Hr).
    assert (fst <$> kmalloc 10000 demo_slob = Ret 8192) as Hc by (vm_compute; reflexivity). rewrite Hrun in Hc. injection Hc as ->.
    destruct Hr as [[H _]|(_ & _ & n & Hn & Hh)]; [discriminate|].
    destruct (kfree_correct s' 8192 n [] Hh) as (s'' & Hf & Hh' & Hfree). exists s', s'', n. split_and!; [exact Hrun|exact Hh|exact Hf|exact Hh'|].
    apply Hfree. right. destruct Hn as (o & Ho & -> & _). unfold in_region. cbn [fst snd]. lia.
  - destruct (kmalloc_run demo_slob [] 100 demo_slob_heap ltac:(lia) ltac:(lia)) as (r & s' & Hrun & Hr).
    assert (fst <$> kmalloc 100 demo_slob = Ret 4104) as Hc by (vm_compute; reflexivity). rewrite Hrun in Hc. injection Hc as ->.
    destruct Hr as [[H _]|(_ & _ & n & Hn & Hh)]; [discriminate|].
    destruct (kfree_correct s' 4104 n [] Hh) as (s'' & Hf & Hh' & Hfree). exists s', s'', n. split_and!; [exact Hrun|exact Hh|exact Hf|exact Hh'|].
    apply Hfree. right. change (100 ≤ n < 108) in Hn. unfold in_region. cbn [fst snd]. lia.
Defined.

(** A request of 2 GB or more is taken for a negative number, and gets one page. *)
Lemma find_order_negative : find_order (2 ^ 31) = 0.
Proof. reflexivity. Qed.

(** An object of 8193 bytes gets two pages: [find_order] drops the bits it shifts out. *)
Lemma find_order_short : find_order 8193 = 1 ∧ 4096 * 2 ^ find_order 8193 < 8193.
Proof. split; reflexivity. Qed.

End Slob.
