(* ===== verification/SkewHeap.v ===== *)
(** libs/skew_heap.h: the intrusive skew heap, at the level of the pointers, and its refinement to
    binary trees.

    [nodes] maps the address of a [skew_heap_entry_t] to its three links; NULL is [None].  [rep h t]
    says that the links below the root of [t] are those of the tree [t], parent links included.  The
    scheduler keeps its run pool as such a tree and changes it with the [t_*] functions, which the
    theorems of this file justify. *)
From S2P Require Import Prelude.

Module SkewHeap.
Set Default Proof Using "Type".

(** [struct skew_heap_entry]. *)
Record skew_heap_entry := mkNode { parent : option Z; left : option Z; right : option Z }.
Notation nodes := (gmap Z skew_heap_entry).

Definition load (p : Z) : M nodes skew_heap_entry := deref (λ h, h !! p).
Definition set_parent (p : Z) (v : option Z) : M nodes unit :=
  e ← load p; modify (λ h, <[p := mkNode v (left e) (right e)]> h).
Definition set_left (p : Z) (v : option Z) : M nodes unit :=
  e ← load p; modify (λ h, <[p := mkNode (parent e) v (right e)]> h).
Definition set_right (p : Z) (v : option Z) : M nodes unit :=
  e ← load p; modify (λ h, <[p := mkNode (parent e) (left e) v]> h).

Definition skew_heap_init (a : Z) : M nodes unit :=
  set_parent a None ;; set_right a None ;; set_left a None.

(** * Trees *)

Inductive tree := Leaf | Node (x : Z) (l r : tree).

Definition root (t : tree) : option Z := match t with Leaf => None | Node x _ _ => Some x end.

Fixpoint elems (t : tree) : list Z :=
  match t with Leaf => [] | Node x l r => x :: elems l ++ elems r end.

Fixpoint size (t : tree) : nat :=
  match t with Leaf => 0 | Node _ l r => S (size l + size r) end.

(** * The pointers represent a tree *)

Fixpoint rep (h : nodes) (par : option Z) (t : tree) : Prop :=
  match t with
  | Leaf => True
  | Node x l r => h !! x = Some (mkNode par (root l) (root r)) ∧ rep h (Some x) l ∧ rep h (Some x) r
  end.

Lemma rep_frame h h' par t :
  (∀ x, x ∈ elems t → h' !! x = h !! x) → rep h par t → rep h' par t.
Proof.
  revert par. induction t as [|x l IHl r IHr]; intros par Hf; [done|]. simpl in *.
  intros (Hx & Hl & Hr). split_and!.
  - rewrite Hf; [done|set_solver].
  - apply IHl; [set_solver|done].
  - apply IHr; [set_solver|done].
Qed.

Lemma load_run h p e : h !! p = Some e → load p h = Ret (e, h).
Proof. intros E. unfold load, deref. by rewrite E. Qed.
Lemma set_parent_run h p v e :
  h !! p = Some e → set_parent p v h = Ret (tt, <[p := mkNode v (left e) (right e)]> h).
Proof. intros E. unfold set_parent. by step using (by apply load_run). Qed.
Lemma set_left_run h p v e :
  h !! p = Some e → set_left p v h = Ret (tt, <[p := mkNode (parent e) v (right e)]> h).
Proof. intros E. unfold set_left. by step using (by apply load_run). Qed.
Lemma set_right_run h p v e :
  h !! p = Some e → set_right p v h = Ret (tt, <[p := mkNode (parent e) (left e) v]> h).
Proof. intros E. unfold set_right. by step using (by apply load_run). Qed.

(** Giving the root of a tree a new parent. *)
Lemma reparent h q v t :
  NoDup (elems t) → rep h q t →
  ∃ h', match root t with Some x => set_parent x v | None => mret tt end h = Ret (tt, h') ∧
    rep h' v t ∧ (∀ x, x ∉ elems t → h' !! x = h !! x).
Proof.
  destruct t as [|x l r]; intros Hnd Hr; [by exists h|]. destruct Hr as (Hx & Hl & Hr).
  simpl in Hnd. apply NoDup_cons in Hnd as [Hnx _]. rewrite not_elem_of_app in Hnx.
  eexists. split; [by apply set_parent_run|]. simpl. split; [split_and!|].
  - by rewrite lookup_insert_eq.
  - eapply rep_frame; [|done]. intros y Hy. rewrite lookup_insert_ne; [done|]. intros ->. tauto.
  - eapply rep_frame; [|done]. intros y Hy. rewrite lookup_insert_ne; [done|]. intros ->. tauto.
  - intros y Hy. rewrite lookup_insert_ne; [done|]. set_solver.
Qed.

(** The writes at the end of a round: [a] gets the subtrees [m] and [l]. *)
Lemma relink h a pa ol or q m l :
  h !! a = Some (mkNode pa ol or) → rep h q m → rep h (Some a) l →
  NoDup (a :: elems m ++ elems l) →
  ∃ h', (set_left a (root m) ;; set_right a (root l) ;;
         match root m with Some x => set_parent x (Some a) | None => mret tt end ;;
         mret (Some a)) h = Ret (Some a, h') ∧
    rep h' pa (Node a m l) ∧ (∀ x, x ∉ a :: elems m ++ elems l → h' !! x = h !! x).
Proof.
  intros Ha Hm Hl Hnd. apply NoDup_cons in Hnd as [Hna Hnd].
  apply NoDup_app in Hnd as (Hndm & Hd & Hndl). rewrite not_elem_of_app in Hna.
  set (h1 := <[a := mkNode pa (root m) (root l)]> h).
  assert (∀ x, x ≠ a → h1 !! x = h !! x) as Hh1 by (intros; unfold h1; by rewrite lookup_insert_ne).
  destruct (reparent h1 q (Some a) m Hndm) as (h2 & Hrun & Hm2 & Hh2).
  { eapply rep_frame; [|exact Hm]. intros x Hx. apply Hh1. intros ->. tauto. }
  exists h2. split_and!.
  - step using (by apply set_left_run). step using (apply set_right_run; apply lookup_insert_eq). simpl.
    rewrite insert_insert_eq. fold h1. by step using (exact Hrun).
  - simpl. split_and!; [|done|].
    + rewrite Hh2 by tauto. unfold h1. by rewrite lookup_insert_eq.
    + eapply rep_frame; [|exact Hl]. intros x Hx. rewrite Hh2.
      * apply Hh1. intros ->. tauto.
      * intros Hxm. by apply (Hd x).
  - intros x Hx. rewrite Hh2 by set_solver. apply Hh1. set_solver.
Qed.

Section heap.
(** [comp(a, b) == -1]. *)
Context (lt : Z → Z → bool).

Fixpoint skew_heap_merge (fuel : nat) (a b : option Z) : M nodes (option Z) :=
  match a, b with
  | None, _ => mret b
  | _, None => mret a
  | Some a, Some b =>
      match fuel with
      | O => fail EFuel
      | S fuel' =>
          if lt a b then
            e ← load a;
            let r := left e in
            l ← skew_heap_merge fuel' (right e) (Some b);
            set_left a l ;;
            set_right a r ;;
            match l with Some l => set_parent l (Some a) | None => mret tt end ;;
            mret (Some a)
          else
            e ← load b;
            let r := left e in
            l ← skew_heap_merge fuel' (Some a) (right e);
            set_left b l ;;
            set_right b r ;;
            match l with Some l => set_parent l (Some b) | None => mret tt end ;;
            mret (Some b)
      end
  end.

Definition skew_heap_insert (fuel : nat) (a : option Z) (b : Z) : M nodes (option Z) :=
  skew_heap_init b ;; skew_heap_merge fuel a (Some b).

Definition skew_heap_remove (fuel : nat) (a : option Z) (b : Z) : M nodes (option Z) :=
  e ← load b;
  let p := parent e in
  rep ← skew_heap_merge fuel (left e) (right e);
  match rep with Some r => set_parent r p | None => mret tt end ;;
  match p with
  | Some p =>
      pe ← load p;
      (if decide (left pe = Some b) then set_left p rep else set_right p rep) ;;
      mret a
  | None => mret rep
  end.

Fixpoint t_merge (a : tree) : tree → tree :=
  fix merge_a (b : tree) : tree :=
    match a, b with
    | Leaf, _ => b
    | _, Leaf => a
    | Node x l r, Node y l' r' =>
        if lt x y then Node x (t_merge r b) l else Node y (merge_a r') l'
    end.

Definition t_insert (t : tree) (x : Z) : tree := t_merge t (Node x Leaf Leaf).

(** Replacing the node [x] by the merge of its subtrees. *)
Fixpoint t_remove (x : Z) (t : tree) : tree :=
  match t with
  | Leaf => Leaf
  | Node y l r => if decide (y = x) then t_merge l r else Node y (t_remove x l) (t_remove x r)
  end.

Lemma t_merge_leaf_r a : t_merge a Leaf = a.
Proof. by destruct a. Qed.

Lemma t_merge_node x l r y l' r' :
  t_merge (Node x l r) (Node y l' r') =
    if lt x y then Node x (t_merge r (Node y l' r')) l else Node y (t_merge (Node x l r) r') l'.
Proof. reflexivity. Qed.

Lemma elems_merge a b : elems (t_merge a b) ≡ₚ elems a ++ elems b.
Proof.
  revert b. induction a as [|x l _ r IHr]; intros b; [by destruct b|].
  induction b as [|y l' _ r' IHr']; [by rewrite t_merge_leaf_r, app_nil_r|].
  rewrite t_merge_node. destruct (lt x y).
  - cbn [elems]. rewrite IHr. cbn [app]. constructor.
    by rewrite Permutation_app_comm, app_assoc.
  - change (y :: elems (t_merge (Node x l r) r') ++ elems l' ≡ₚ
            elems (Node x l r) ++ y :: elems l' ++ elems r').
    rewrite IHr', <-Permutation_middle. constructor. rewrite <-app_assoc.
    f_equiv. apply Permutation_app_comm.
Qed.

Lemma elems_insert t x : elems (t_insert t x) ≡ₚ x :: elems t.
Proof. unfold t_insert. rewrite elems_merge. simpl. by rewrite Permutation_app_comm. Qed.

Lemma t_remove_notin x t : x ∉ elems t → t_remove x t = t.
Proof.
  induction t as [|y l IHl r IHr]; [done|]. simpl. rewrite not_elem_of_cons, not_elem_of_app.
  intros (Hy & Hl & Hr). rewrite decide_False by done. by rewrite IHl, IHr.
Qed.

Lemma elems_remove x t : NoDup (elems t) → x ∈ elems t → elems t ≡ₚ x :: elems (t_remove x t).
Proof.
  induction t as [|y l IHl r IHr]; [set_solver|]. simpl. intros Hnd Hx.
  apply NoDup_cons in Hnd as [Hy Hnd]. apply NoDup_app in Hnd as (Hndl & Hd & Hndr).
  case_decide as Hyx; [by rewrite Hyx, elems_merge|]. simpl.
  apply elem_of_cons in Hx as [?|Hx]; [done|]. apply elem_of_app in Hx as [Hx|Hx].
  - rewrite (t_remove_notin x r) by (by apply Hd). rewrite (IHl Hndl Hx) at 1. simpl. constructor.
  - assert (x ∉ elems l) as Hl by (intros ?; by apply (Hd x)).
    rewrite (t_remove_notin x l) by done. rewrite (IHr Hndr Hx) at 1.
    rewrite <-Permutation_middle. constructor.
Qed.

(** * Heap order *)

(** No element is smaller than the root of a subtree it is in. *)
Fixpoint heap_ordered (t : tree) : Prop :=
  match t with
  | Leaf => True
  | Node x l r => Forall (λ y, lt y x = false) (elems l ++ elems r) ∧ heap_ordered l ∧ heap_ordered r
  end.

Section order.
Hypothesis lt_asym : ∀ x y, lt x y = true → lt y x = false.
Hypothesis lt_cotrans : ∀ x y z, lt y x = false → lt z y = false → lt z x = false.

Lemma heap_ordered_root x l r :
  heap_ordered (Node x l r) → ∀ y, y ∈ elems (Node x l r) → lt y x = false.
Proof using lt_asym.
  intros [Hf _] y [->|Hy]%elem_of_cons; [|by eapply Forall_forall in Hf].
  destruct (lt x x) eqn:E; [|done]. by rewrite (lt_asym _ _ E) in E.
Qed.

Lemma heap_ordered_merge a b : heap_ordered a → heap_ordered b → heap_ordered (t_merge a b).
Proof using lt_asym lt_cotrans.
  revert b. induction a as [|x l _ r IHr]; intros b Ha Hb; [by destruct b|].
  induction b as [|y l' _ r' IHr']; [done|].
  rewrite t_merge_node. pose proof (heap_ordered_root _ _ _ Ha) as Hax.
  pose proof (heap_ordered_root _ _ _ Hb) as Hby.
  pose proof Ha as (Hfa & Hl & Hr). pose proof Hb as (Hfb & Hl' & Hr').
  apply Forall_app in Hfa as [Hfl Hfr], Hfb as [Hfl' Hfr'].
  destruct (lt x y) eqn:E; simpl; split_and!; auto.
  - rewrite elems_merge. apply Forall_app. split; [|done]. apply Forall_app. split; [done|].
    apply Forall_forall. intros z Hz. eapply lt_cotrans; [by apply lt_asym|by apply Hby].
  - apply Forall_app. split; [|done].
    change (Forall (λ z, lt z y = false) (elems (t_merge (Node x l r) r'))). rewrite elems_merge.
    apply Forall_app. split; [|done]. apply Forall_forall. intros z Hz.
    eapply lt_cotrans; [exact E|by apply Hax].
Qed.

Lemma heap_ordered_remove x t : NoDup (elems t) → heap_ordered t → heap_ordered (t_remove x t).
Proof using lt_asym lt_cotrans.
  induction t as [|y l IHl r IHr]; [done|]. simpl. intros Hnd (Hf & Hl & Hr).
  apply NoDup_cons in Hnd as [Hy Hnd]. apply NoDup_app in Hnd as (Hndl & Hd & Hndr).
  case_decide; [by apply heap_ordered_merge|]. simpl. split_and!; auto.
  assert (∀ u, NoDup (elems u) → ∀ z, z ∈ elems (t_remove x u) → z ∈ elems u) as Hsub.
  { intros u Hu z Hz. destruct (decide (x ∈ elems u)) as [Hx|Hx].
    - rewrite (elems_remove x u Hu Hx). set_solver.
    - by rewrite t_remove_notin in Hz. }
  rewrite Forall_forall in Hf |- *. intros z Hz. apply Hf.
  apply elem_of_app in Hz as [Hz|Hz]; apply elem_of_app; eauto.
Qed.

End order.

(** * Refinement *)

Lemma skew_heap_merge_run fuel h pa pb ta tb :
  (size ta + size tb ≤ fuel)%nat → NoDup (elems ta ++ elems tb) → rep h pa ta → rep h pb tb →
  ∃ h' q, skew_heap_merge fuel (root ta) (root tb) h = Ret (root (t_merge ta tb), h') ∧
    rep h' q (t_merge ta tb) ∧ (q = pa ∨ q = pb) ∧
    (∀ x, x ∉ elems ta ++ elems tb → h' !! x = h !! x).
Proof.
  revert h pa pb ta tb. induction fuel as [|fuel IH]; intros h pa pb ta tb Hf Hnd Ha Hb.
  { destruct ta; [|simpl in Hf; lia]. destruct tb; [|simpl in Hf; lia].
    exists h, pa. split_and!; try done. by left. }
  destruct ta as [|a la ra].
  { exists h, pb. split_and!; [|by destruct tb|by right|done]. by destruct tb. }
  destruct tb as [|b lb rb].
  { exists h, pa. split_and!; [done|done|by left|done]. }
  rewrite t_merge_node. cbn [root skew_heap_merge]. destruct (lt a b) eqn:E.
  - destruct Ha as (Hha & Hla & Hra).
    assert (elems (Node a la ra) ++ elems (Node b lb rb) ≡ₚ
      a :: (elems ra ++ elems (Node b lb rb)) ++ elems la) as Hperm.
    { cbn [elems app]. constructor. symmetry. rewrite (Permutation_app_comm _ (elems la)).
      by rewrite app_assoc. }
    rewrite Hperm in Hnd. pose proof Hnd as (Hna & Hnd')%NoDup_cons.
    pose proof Hnd' as (Hnd1 & Hd & _)%NoDup_app. rewrite not_elem_of_app in Hna.
    destruct (IH h (Some a) pb ra (Node b lb rb)) as (h1 & q & Hrun & Hm & _ & Hfr); try done.
    { simpl in Hf |- *. lia. }
    destruct (relink h1 a pa (root la) (root ra) q (t_merge ra (Node b lb rb)) la) as (h2 & Hrun2 & Hrep & Hfr2).
    + rewrite Hfr by tauto. done.
    + done.
    + eapply rep_frame; [|exact Hla]. intros x Hx. apply Hfr. intros Hx2. by apply (Hd x).
    + by rewrite elems_merge.
    + exists h2, pa. split_and!; [|done|by left|].
      * step using (by apply load_run). step using (exact Hrun). exact Hrun2.
      * intros x Hx. rewrite Hperm in Hx. rewrite Hfr2, Hfr; [done| |by rewrite elems_merge].
        set_solver.
  - destruct Hb as (Hhb & Hlb & Hrb).
    assert (elems (Node a la ra) ++ elems (Node b lb rb) ≡ₚ
      b :: (elems (Node a la ra) ++ elems rb) ++ elems lb) as Hperm.
    { cbn [elems]. rewrite <-Permutation_middle. constructor. rewrite <-app_assoc.
      f_equiv. apply Permutation_app_comm. }
    rewrite Hperm in Hnd. pose proof Hnd as (Hnb & Hnd')%NoDup_cons.
    pose proof Hnd' as (Hnd1 & Hd & _)%NoDup_app. rewrite not_elem_of_app in Hnb.
    destruct (IH h pa (Some b) (Node a la ra) rb) as (h1 & q & Hrun & Hm & _ & Hfr); try done.
    { simpl in Hf |- *. lia. }
    destruct (relink h1 b pb (root lb) (root rb) q (t_merge (Node a la ra) rb) lb) as (h2 & Hrun2 & Hrep & Hfr2).
    + rewrite Hfr by tauto. done.
    + done.
    + eapply rep_frame; [|exact Hlb]. intros x Hx. apply Hfr. intros Hx2. by apply (Hd x).
    + by rewrite elems_merge.
    + exists h2, pb. split_and!; [|done|by right|].
      * step using (by apply load_run). step using (exact Hrun). exact Hrun2.
      * intros x Hx. rewrite Hperm in Hx. rewrite Hfr2, Hfr; [done| |by rewrite elems_merge].
        set_solver.
Qed.

(** Merging the subtrees of [b] and handing the result to the parent of [b]. *)
Lemma cut_run fuel h q b l r v :
  (size l + size r ≤ fuel)%nat → NoDup (b :: elems l ++ elems r) → rep h q (Node b l r) →
  ∃ h', (x ← skew_heap_merge fuel (root l) (root r);
         match x with Some x => set_parent x v | None => mret tt end ;; mret x) h =
          Ret (root (t_merge l r), h') ∧
    rep h' v (t_merge l r) ∧ (∀ x, x ∉ elems l ++ elems r → h' !! x = h !! x).
Proof.
  intros Hf Hnd (Hb & Hl & Hr). apply NoDup_cons in Hnd as [_ Hnd].
  destruct (skew_heap_merge_run fuel h (Some b) (Some b) l r Hf Hnd Hl Hr) as (h1 & q1 & Hrun & Hm & _ & Hfr).
  destruct (reparent h1 q1 v (t_merge l r)) as (h2 & Hrun2 & Hm2 & Hfr2); [by rewrite elems_merge|done|].
  exists h2. split_and!; [|done|].
  - step using (exact Hrun). by step using (exact Hrun2).
  - intros x Hx. rewrite Hfr2, Hfr; [done|done|]. by rewrite elems_merge.
Qed.

Lemma root_remove_ne b t : root t ≠ Some b → root (t_remove b t) = root t.
Proof. destruct t as [|y l r]; [done|]. simpl. intros. by rewrite decide_False by congruence. Qed.

(** The three steps of [skew_heap_remove] as one equation. *)
Lemma remove_unfold fuel a b h e x h1 :
  h !! b = Some e →
  (x ← skew_heap_merge fuel (left e) (right e);
   match x with Some x => set_parent x (parent e) | None => mret tt end ;; mret x) h = Ret (x, h1) →
  skew_heap_remove fuel a b h =
    match parent e with
    | Some p => (pe ← load p;
                 (if decide (left pe = Some b) then set_left p x else set_right p x) ;; mret a) h1
    | None => Ret (x, h1)
    end.
Proof.
  intros Hb Hrun. unfold skew_heap_remove. step using (by apply load_run). cbn beta zeta.
  apply M_bind_Ret in Hrun as (x1 & s1 & Hm & Hrun). apply M_bind_Ret in Hrun as ([] & s2 & Hp & Hrun).
  injection Hrun as <- <-. step using (exact Hm). step using (exact Hp). by destruct (parent e).
Qed.

Lemma remove_below fuel h par a b t :
  (size t ≤ fuel)%nat → NoDup (elems t) → rep h par t → b ∈ elems t → root t ≠ Some b →
  ∃ h', skew_heap_remove fuel a b h = Ret (a, h') ∧ rep h' par (t_remove b t) ∧
    (∀ x, x ∉ elems t → h' !! x = h !! x).
Proof.
  revert par. induction t as [|y l IHl r IHr]; intros par Hf Hnd Hrep Hb Hroot; [set_solver|].
  destruct Hrep as (Hy & Hl & Hr). simpl in Hf, Hnd, Hb, Hroot.
  assert (y ≠ b) as Hyb by congruence.
  apply NoDup_cons in Hnd as [Hny Hnd]. pose proof Hnd as (Hndl & Hd & Hndr)%NoDup_app.
  rewrite not_elem_of_app in Hny. destruct Hny as [Hnyl Hnyr].
  apply elem_of_cons in Hb as [?|Hb]; [done|]. cbn [t_remove]. rewrite decide_False by done.
  destruct (decide (b ∈ elems l)) as [Hbl|Hbl].
  - assert (b ∉ elems r) as Hbr by (by apply Hd). rewrite (t_remove_notin b r Hbr).
    destruct (decide (root l = Some b)) as [Hrl|Hrl].
    + destruct l as [|b' l1 r1]; [done|]. injection Hrl as ->. simpl in Hf, Hndl, Hnyl.
      destruct (cut_run fuel h (Some y) b l1 r1 (Some y)) as (h1 & Hrun & Hm & Hfr); [lia|done|done|].
      pose proof Hl as (Hhb & _ & _).
      assert (h1 !! y = Some (mkNode par (Some b) (root r))) as Hy1 by (rewrite Hfr by set_solver; done).
      exists (<[y := mkNode par (root (t_merge l1 r1)) (root r)]> h1). split_and!.
      * rewrite (remove_unfold _ _ _ _ _ _ _ Hhb Hrun). simpl. step using (by apply load_run). simpl.
        rewrite decide_True by done. step using (by apply set_left_run). done.
      * simpl. rewrite decide_True by done. rewrite lookup_insert_eq. split_and!; [done| |].
        -- eapply rep_frame; [|exact Hm]. intros x Hx. rewrite elems_merge in Hx.
           rewrite lookup_insert_ne; [done|]. set_solver.
        -- eapply rep_frame; [|exact Hr]. intros x Hx. rewrite lookup_insert_ne by (intros ->; done).
           apply Hfr. intros Hx2. apply (Hd x); [set_solver|done].
      * intros x Hx. simpl in Hx. rewrite lookup_insert_ne by set_solver. apply Hfr. set_solver.
    + destruct (IHl (Some y)) as (h1 & Hrun & Hrep1 & Hfr); [lia|done|done|done|done|].
      exists h1. split_and!; [done| |].
      * simpl. rewrite root_remove_ne by done. split_and!; [by rewrite Hfr|done|].
        eapply rep_frame; [|exact Hr]. intros x Hx. apply Hfr. intros Hx2. by apply (Hd x).
      * intros x Hx. apply Hfr. set_solver.
  - assert (b ∈ elems r) as Hbr by set_solver. rewrite (t_remove_notin b l Hbl).
    destruct (decide (root r = Some b)) as [Hrr|Hrr].
    + destruct r as [|b' l1 r1]; [done|]. injection Hrr as ->. simpl in Hf, Hndr, Hnyr.
      destruct (cut_run fuel h (Some y) b l1 r1 (Some y)) as (h1 & Hrun & Hm & Hfr); [lia|done|done|].
      pose proof Hr as (Hhb & _ & _).
      assert (h1 !! y = Some (mkNode par (root l) (Some b))) as Hy1 by (rewrite Hfr by set_solver; done).
      exists (<[y := mkNode par (root l) (root (t_merge l1 r1))]> h1). split_and!.
      * rewrite (remove_unfold _ _ _ _ _ _ _ Hhb Hrun). simpl. step using (by apply load_run). simpl.
        rewrite decide_False. 2:{ intros Hrl. apply Hbl. destruct l; [done|]. injection Hrl as ->. set_solver. }
        step using (by apply set_right_run). done.
      * simpl. rewrite decide_True by done. rewrite lookup_insert_eq. split_and!; [done| |].
        -- eapply rep_frame; [|exact Hl]. intros x Hx. rewrite lookup_insert_ne by (intros ->; done).
           apply Hfr. intros Hx2. apply (Hd x); [done|set_solver].
        -- eapply rep_frame; [|exact Hm]. intros x Hx. rewrite elems_merge in Hx.
           rewrite lookup_insert_ne; [done|]. set_solver.
      * intros x Hx. simpl in Hx. rewrite lookup_insert_ne by set_solver. apply Hfr. set_solver.
    + destruct (IHr (Some y)) as (h1 & Hrun & Hrep1 & Hfr); [lia|done|done|done|done|].
      exists h1. split_and!; [done| |].
      * simpl. rewrite root_remove_ne by done. split_and!; [by rewrite Hfr| |done].
        eapply rep_frame; [|exact Hl]. intros x Hx. apply Hfr. intros Hx2. by apply (Hd x).
      * intros x Hx. apply Hfr. set_solver.
Qed.

(** [skew_heap_insert] refines insertion into the tree: the pointers represent the merged tree,
    which holds the old nodes and the new one, and no other node is touched. *)
Theorem skew_heap_insert_refines fuel h t b :
  (size t < fuel)%nat → NoDup (elems t) → rep h None t → is_Some (h !! b) → b ∉ elems t →
  ∃ h', skew_heap_insert fuel (root t) b h = Ret (root (t_insert t b), h') ∧
    rep h' None (t_insert t b) ∧ elems (t_insert t b) ≡ₚ b :: elems t ∧
    (∀ x, x ∉ b :: elems t → h' !! x = h !! x).
Proof.
  intros Hf Hnd Hrep [e He] Hb. set (h1 := <[b := mkNode None None None]> h).
  assert (skew_heap_init b h = Ret (tt, h1)) as Hinit.
  { unfold skew_heap_init. step using (by apply set_parent_run).
    step using (apply set_right_run; apply lookup_insert_eq).
    erewrite set_left_run by apply lookup_insert_eq. simpl. by rewrite !insert_insert_eq. }
  destruct (skew_heap_merge_run fuel h1 None None t (Node b Leaf Leaf)) as (h2 & q & Hrun & Hm & Hq & Hfr).
  - simpl. lia.
  - simpl. rewrite <-Permutation_cons_append. by constructor.
  - eapply rep_frame; [|exact Hrep]. intros x Hx. unfold h1. rewrite lookup_insert_ne; [done|].
    intros ->. done.
  - simpl. unfold h1. by rewrite lookup_insert_eq.
  - exists h2. split_and!.
    + unfold skew_heap_insert. by step using (exact Hinit).
    + destruct Hq as [->| ->]; exact Hm.
    + apply elems_insert.
    + intros x Hx. rewrite Hfr by set_solver. unfold h1. rewrite lookup_insert_ne; [done|]. set_solver.
Qed.

(** [skew_heap_remove] of any node of the heap refines removal from the tree: the pointers
    represent the tree without that node, all other nodes kept, and nothing else is touched. *)
Theorem skew_heap_remove_refines fuel h t b :
  (size t ≤ fuel)%nat → NoDup (elems t) → rep h None t → b ∈ elems t →
  ∃ h', skew_heap_remove fuel (root t) b h = Ret (root (t_remove b t), h') ∧
    rep h' None (t_remove b t) ∧ elems t ≡ₚ b :: elems (t_remove b t) ∧
    (∀ x, x ∉ elems t → h' !! x = h !! x).
Proof.
  intros Hf Hnd Hrep Hb. destruct (decide (root t = Some b)) as [Hr|Hr].
  - destruct t as [|b' l r]; [done|]. injection Hr as ->. simpl in Hf.
    pose proof (elems_remove b _ Hnd Hb) as Hperm. simpl in Hnd, Hb.
    destruct (cut_run fuel h None b l r None) as (h1 & Hrun & Hm & Hfr); [lia|done|done|].
    pose proof Hrep as (Hhb & _). exists h1. cbn [t_remove] in *. rewrite decide_True in * by done.
    split_and!; [|done|done|].
    + by rewrite (remove_unfold _ _ _ _ _ _ _ Hhb Hrun).
    + intros x Hx. apply Hfr. set_solver.
  - destruct (remove_below fuel h None (root t) b t Hf Hnd Hrep Hb Hr) as (h1 & Hrun & Hrep1 & Hfr).
    exists h1. rewrite root_remove_ne by done. split_and!; [done|done|by apply elems_remove|done].
Qed.

End heap.

Definition demo_tree : tree := Node 1 (Node 3 Leaf Leaf) (Node 2 Leaf Leaf).
Definition demo_nodes : nodes :=
  {[ 1 := mkNode None (Some 3) (Some 2); 3 := mkNode (Some 1) None None;
     2 := mkNode (Some 1) None None; 9 := mkNode None None None ]}.

Lemma demo_nodup : NoDup (elems demo_tree).
Proof. apply (bool_decide_unpack _). by vm_compute. Qed.

Lemma skew_heap_insert_refines_witness :
  ∃ h', skew_heap_insert Z.ltb 4 (Some 1) 9 demo_nodes =
          Ret (root (t_insert Z.ltb demo_tree 9), h') ∧ rep h' None (t_insert Z.ltb demo_tree 9).
Proof.
  destruct (skew_heap_insert_refines Z.ltb 4 demo_nodes demo_tree 9) as (h' & Hrun & Hrep & _).
  - simpl. lia.
  - apply demo_nodup.
  - vm_compute. repeat split.
  - by eexists.
  - apply (bool_decide_unpack _). vm_compute. exact I.
  - exists h'. split; [exact Hrun|exact Hrep].
Defined.

Lemma skew_heap_remove_refines_witness :
  ∃ h', skew_heap_remove Z.ltb 3 (Some 1) 1 demo_nodes = Ret (Some 2, h') ∧
    rep h' None (t_remove Z.ltb 1 demo_tree).
Proof.
  destruct (skew_heap_remove_refines Z.ltb 3 demo_nodes demo_tree 1) as (h' & Hrun & Hrep & _).
  - simpl. lia.
  - apply demo_nodup.
  - vm_compute. repeat split.
  - apply (bool_decide_unpack _). vm_compute. exact I.
  - exists h'. split; [exact Hrun|exact Hrep].
Defined.

End SkewHeap.
