(* ===== verification/ProcData.v ===== *)
(** [struct proc_struct] and [enum proc_state] of kern/process/proc.h, with one setter per field that
    the kernel assigns.  A [struct proc_struct *] is the key of the descriptor in the process map. *)
From S2P Require Import Prelude.

Module ProcData.

Inductive proc_state := PROC_UNINIT | PROC_SLEEPING | PROC_RUNNABLE | PROC_ZOMBIE.
#[global] Instance proc_state_eq_dec : EqDecision proc_state.
Proof. solve_decision. Defined.

Record proc_struct := mkProc {
  state : proc_state; pid : Z; runs : Z; need_resched : bool;
  parent : option Z; cptr : option Z; yptr : option Z; optr : option Z;
  cr3 : Z; flags : Z; exit_code : Z; wait_state : Z;
  in_rq : bool;                 (* proc->rq == rq *)
  time_slice : Z; stride : Z; priority : Z }.

Definition PF_EXITING : Z := 1.
Definition WT_INTERRUPTED : Z := 0x80000000.
Definition WT_CHILD : Z := Z.lor 1 WT_INTERRUPTED.
Definition WT_KSEM : Z := 0x100.
Definition WT_TIMER : Z := Z.lor 2 WT_INTERRUPTED.
Definition WT_KBD : Z := Z.lor 4 WT_INTERRUPTED.

(** [proc->wait_state & WT_INTERRUPTED]. *)
Definition interruptible (w : Z) : bool := negb (Z.land w WT_INTERRUPTED =? 0).

Definition set_state (p : proc_struct) (x : proc_state) : proc_struct :=
  mkProc x (pid p) (runs p) (need_resched p) (parent p) (cptr p) (yptr p) (optr p) (cr3 p) (flags p)
    (exit_code p) (wait_state p) (in_rq p) (time_slice p) (stride p) (priority p).
Definition set_pid (p : proc_struct) (x : Z) : proc_struct :=
  mkProc (state p) x (runs p) (need_resched p) (parent p) (cptr p) (yptr p) (optr p) (cr3 p) (flags p)
    (exit_code p) (wait_state p) (in_rq p) (time_slice p) (stride p) (priority p).
Definition set_runs (p : proc_struct) (x : Z) : proc_struct :=
  mkProc (state p) (pid p) x (need_resched p) (parent p) (cptr p) (yptr p) (optr p) (cr3 p) (flags p)
    (exit_code p) (wait_state p) (in_rq p) (time_slice p) (stride p) (priority p).
Definition set_need_resched (p : proc_struct) (x : bool) : proc_struct :=
  mkProc (state p) (pid p) (runs p) x (parent p) (cptr p) (yptr p) (optr p) (cr3 p) (flags p)
    (exit_code p) (wait_state p) (in_rq p) (time_slice p) (stride p) (priority p).
Definition set_parent (p : proc_struct) (x : option Z) : proc_struct :=
  mkProc (state p) (pid p) (runs p) (need_resched p) x (cptr p) (yptr p) (optr p) (cr3 p) (flags p)
    (exit_code p) (wait_state p) (in_rq p) (time_slice p) (stride p) (priority p).
Definition set_cptr (p : proc_struct) (x : option Z) : proc_struct :=
  mkProc (state p) (pid p) (runs p) (need_resched p) (parent p) x (yptr p) (optr p) (cr3 p) (flags p)
    (exit_code p) (wait_state p) (in_rq p) (time_slice p) (stride p) (priority p).
Definition set_yptr (p : proc_struct) (x : option Z) : proc_struct :=
  mkProc (state p) (pid p) (runs p) (need_resched p) (parent p) (cptr p) x (optr p) (cr3 p) (flags p)
    (exit_code p) (wait_state p) (in_rq p) (time_slice p) (stride p) (priority p).
Definition set_optr (p : proc_struct) (x : option Z) : proc_struct :=
  mkProc (state p) (pid p) (runs p) (need_resched p) (parent p) (cptr p) (yptr p) x (cr3 p) (flags p)
    (exit_code p) (wait_state p) (in_rq p) (time_slice p) (stride p) (priority p).
Definition set_flags (p : proc_struct) (x : Z) : proc_struct :=
  mkProc (state p) (pid p) (runs p) (need_resched p) (parent p) (cptr p) (yptr p) (optr p) (cr3 p) x
    (exit_code p) (wait_state p) (in_rq p) (time_slice p) (stride p) (priority p).
Definition set_exit_code (p : proc_struct) (x : Z) : proc_struct :=
  mkProc (state p) (pid p) (runs p) (need_resched p) (parent p) (cptr p) (yptr p) (optr p) (cr3 p)
    (flags p) x (wait_state p) (in_rq p) (time_slice p) (stride p) (priority p).
Definition set_wait_state (p : proc_struct) (x : Z) : proc_struct :=
  mkProc (state p) (pid p) (runs p) (need_resched p) (parent p) (cptr p) (yptr p) (optr p) (cr3 p)
    (flags p) (exit_code p) x (in_rq p) (time_slice p) (stride p) (priority p).
Definition set_in_rq (p : proc_struct) (x : bool) : proc_struct :=
  mkProc (state p) (pid p) (runs p) (need_resched p) (parent p) (cptr p) (yptr p) (optr p) (cr3 p)
    (flags p) (exit_code p) (wait_state p) x (time_slice p) (stride p) (priority p).
Definition set_time_slice (p : proc_struct) (x : Z) : proc_struct :=
  mkProc (state p) (pid p) (runs p) (need_resched p) (parent p) (cptr p) (yptr p) (optr p) (cr3 p)
    (flags p) (exit_code p) (wait_state p) (in_rq p) x (stride p) (priority p).
Definition set_stride (p : proc_struct) (x : Z) : proc_struct :=
  mkProc (state p) (pid p) (runs p) (need_resched p) (parent p) (cptr p) (yptr p) (optr p) (cr3 p)
    (flags p) (exit_code p) (wait_state p) (in_rq p) (time_slice p) x (priority p).
Definition set_priority (p : proc_struct) (x : Z) : proc_struct :=
  mkProc (state p) (pid p) (runs p) (need_resched p) (parent p) (cptr p) (yptr p) (optr p) (cr3 p)
    (flags p) (exit_code p) (wait_state p) (in_rq p) (time_slice p) (stride p) x.

(** The descriptor [alloc_proc] sets up. *)
Definition alloc_proc (boot_cr3 : Z) : proc_struct :=
  mkProc PROC_UNINIT (-1) 0 false None None None None boot_cr3 0 0 0 false 0 0 0.

End ProcData.
