(* ===== verification/Sched.v ===== *)
(** The scheduler: kern/schedule/sched.c with the four scheduling classes rr_sched.c, fcfs_sched.c,
    stride_sched.c and prior_sched.c.  The kernel timers are in Timers.v.

    [struct sched_class] is the record [sched_class]; [sched_laws] states what [schedule] and
    [wakeup_proc] rely on, and each class discharges it.  The run list is a sequence
    changed with the functions of Dll.v, the run pool is a tree changed with those of SkewHeap.v. *)
From S2P Require Import Prelude Dll SkewHeap ProcData.

Module Sched.
Import Dll ProcData.
Set Default Proof Using "Type".

(** [timer_t]. *)
Record timer := mkTimer { expires : Z; t_proc : Z }.

(** The run queue [rq], the timer list and the globals of sched.c and proc.c it works on. *)
Record sched := mkSched {
  procs : gmap Z proc_struct;
  current : Z;
  idleproc : Z;
  run_list : list Z;
  run_pool : SkewHeap.tree;
  proc_num : Z;
  max_time_slice : Z;
  timers : gmap Z timer;
  timer_list : list Z;
  mode : Z }.

Definition set_procs (s : sched) (x : gmap Z proc_struct) : sched :=
  mkSched x (current s) (idleproc s) (run_list s) (run_pool s) (proc_num s) (max_time_slice s)
    (timers s) (timer_list s) (mode s).
Definition set_current (s : sched) (x : Z) : sched :=
  mkSched (procs s) x (idleproc s) (run_list s) (run_pool s) (proc_num s) (max_time_slice s)
    (timers s) (timer_list s) (mode s).
Definition set_queue (s : sched) (l : list Z) (t : SkewHeap.tree) (n : Z) : sched :=
  mkSched (procs s) (current s) (idleproc s) l t n (max_time_slice s) (timers s) (timer_list s) (mode s).
Definition set_timers (s : sched) (x : gmap Z timer) (l : list Z) : sched :=
  mkSched (procs s) (current s) (idleproc s) (run_list s) (run_pool s) (proc_num s) (max_time_slice s)
    x l (mode s).
Definition set_mode (s : sched) (x : Z) : sched :=
  mkSched (procs s) (current s) (idleproc s) (run_list s) (run_pool s) (proc_num s) (max_time_slice s)
    (timers s) (timer_list s) x.

Definition proc_at (p : Z) : M sched proc_struct := deref (λ s, procs s !! p).
Definition proc_upd (p : Z) (f : proc_struct → proc_struct) : M sched unit :=
  pr ← proc_at p; modify (λ s, set_procs s (<[p := f pr]> (procs s))).

(** [struct sched_class]. *)
Record sched_class := mkClass {
  init : M sched unit;
  enqueue : Z → M sched unit;
  dequeue : Z → M sched unit;
  pick_next : M sched (option Z);
  proc_tick : Z → M sched unit }.

(** The time slice a class gives a process it enqueues, and [proc->rq = rq]. *)
Definition admit_slice (max : Z) (p : proc_struct) : proc_struct :=
  let p' := if (time_slice p =? 0) || (max <? time_slice p) then set_time_slice p max else p in
  set_in_rq p' true.

(** [proc_tick] of the round-robin and stride classes. *)
Definition tick_slice (p : Z) : M sched unit :=
  pr ← proc_at p;
  when (0 <? time_slice pr) (proc_upd p (λ q, set_time_slice q (time_slice q - 1))) ;;
  pr' ← proc_at p;
  when (time_slice pr' =? 0) (proc_upd p (λ q, set_need_resched q true)).

(** * rr_sched.c *)

Definition RR_init : M sched unit := modify (λ s, set_queue s [] (run_pool s) 0).

Definition RR_enqueue (p : Z) : M sched unit :=
  l ← gets run_list;
  assert (bool_decide (p ∉ l)) ;;
  modify (λ s, set_queue s (seq_add_before None p (run_list s)) (run_pool s) (proc_num s)) ;;
  m ← gets max_time_slice;
  proc_upd p (admit_slice m) ;;
  modify (λ s, set_queue s (run_list s) (run_pool s) (u32 (proc_num s + 1))).

Definition RR_dequeue (p : Z) : M sched unit :=
  l ← gets run_list;
  pr ← proc_at p;
  assert (bool_decide (p ∈ l) && in_rq pr) ;;
  modify (λ s, set_queue s (seq_del p (run_list s)) (run_pool s) (u32 (proc_num s - 1))).

Definition RR_pick_next : M sched (option Z) := l ← gets run_list; mret (head l).

Definition RR_proc_tick (p : Z) : M sched unit := tick_slice p.

Definition rr_sched_class : sched_class :=
  mkClass RR_init RR_enqueue RR_dequeue RR_pick_next RR_proc_tick.

(** * fcfs_sched.c: as round robin, but the clock takes no time from the running process *)

Definition FCFS_init := RR_init.
Definition FCFS_enqueue := RR_enqueue.
Definition FCFS_dequeue := RR_dequeue.
Definition FCFS_pick_next := RR_pick_next.
Definition FCFS_proc_tick (p : Z) : M sched unit := mret tt.

Definition fcfs_sched_class : sched_class :=
  mkClass FCFS_init FCFS_enqueue FCFS_dequeue FCFS_pick_next FCFS_proc_tick.

(** * stride_sched.c *)

Definition BIG_STRIDE : Z := 0x7FFFFFFF.

(** The comparison functions: [comp(a, b) == -1] for a key of the process. *)
Definition key_lt (key : proc_struct → Z) (m : gmap Z proc_struct) (a b : Z) : bool :=
  match m !! a, m !! b with
  | Some p, Some q => s32 (key p - key q) <? 0
  | _, _ => false
  end.
Definition proc_stride_comp_f (m : gmap Z proc_struct) (a b : Z) : bool := key_lt stride m a b.

Definition pool_init : M sched unit := modify (λ s, set_queue s [] SkewHeap.Leaf 0).

Definition pool_enqueue (comp : gmap Z proc_struct → Z → Z → bool) (p : Z) : M sched unit :=
  proc_at p ;;
  modify (λ s, set_queue s (run_list s) (SkewHeap.t_insert (comp (procs s)) (run_pool s) p) (proc_num s)) ;;
  m ← gets max_time_slice;
  proc_upd p (admit_slice m) ;;
  modify (λ s, set_queue s (run_list s) (run_pool s) (u32 (proc_num s + 1))).

Definition pool_dequeue (comp : gmap Z proc_struct → Z → Z → bool) (p : Z) : M sched unit :=
  modify (λ s, set_queue s (run_list s) (SkewHeap.t_remove (comp (procs s)) p (run_pool s))
                 (u32 (proc_num s - 1))).

Definition stride_init := pool_init.
Definition stride_enqueue := pool_enqueue proc_stride_comp_f.
Definition stride_dequeue := pool_dequeue proc_stride_comp_f.

(** [stride += BIG_STRIDE / priority], the step of a process that is picked. *)
Definition stride_step (p : proc_struct) : proc_struct :=
  set_stride p (u32 (stride p + (if priority p =? 0 then BIG_STRIDE else BIG_STRIDE / priority p))).

Definition stride_pick_next : M sched (option Z) :=
  t ← gets run_pool;
  match SkewHeap.root t with
  | None => mret None
  | Some p => proc_upd p stride_step ;; mret (Some p)
  end.

Definition stride_proc_tick (p : Z) : M sched unit := tick_slice p.

Definition stride_sched_class : sched_class :=
  mkClass stride_init stride_enqueue stride_dequeue stride_pick_next stride_proc_tick.

(** * prior_sched.c *)

Definition proc_prior_comp_f (m : gmap Z proc_struct) (a b : Z) : bool := key_lt priority m a b.
Definition prior_init := pool_init.
Definition prior_enqueue := pool_enqueue proc_prior_comp_f.
Definition prior_dequeue := pool_dequeue proc_prior_comp_f.

Definition prior_pick_next : M sched (option Z) :=
  t ← gets run_pool;
  match SkewHeap.root t with
  | None => mret None
  | Some p => proc_upd p (λ q, set_stride q (priority q)) ;; mret (Some p)
  end.

Definition prior_proc_tick (p : Z) : M sched unit := mret tt.

Definition prior_sched_class : sched_class :=
  mkClass prior_init prior_enqueue prior_dequeue prior_pick_next prior_proc_tick.

(** * sched.c *)

Definition class_of (mode : Z) : sched_class :=
  if mode =? 1 then stride_sched_class
  else if mode =? 2 then fcfs_sched_class
  else if mode =? 4 then prior_sched_class
  else rr_sched_class.

Definition sched_init : M sched unit :=
  modify (λ s, mkSched (procs s) (current s) (idleproc s) (run_list s) (run_pool s) (proc_num s) 5
                 (timers s) [] 3) ;;
  init rr_sched_class.

(** [do_change_sched]: other modes leave the class as it is. *)
Definition do_change_sched (m : Z) : M sched unit :=
  if bool_decide (m ∈ [1; 2; 3; 4]) then modify (λ s, set_mode s m) else mret tt.

Section class.
(** The class [sched_class] points to. *)
Context (c : sched_class).

Definition sched_class_enqueue (p : Z) : M sched unit :=
  i ← gets idleproc;
  if decide (p = i) then mret tt else enqueue c p.

Definition sched_class_proc_tick (p : Z) : M sched unit :=
  i ← gets idleproc;
  if decide (p = i) then proc_upd p (λ q, set_need_resched q true) else proc_tick c p.

Definition wakeup_proc (p : Z) : M sched unit :=
  pr ← proc_at p;
  assert (bool_decide (state pr ≠ PROC_ZOMBIE)) ;;
  if decide (state pr = PROC_RUNNABLE) then mret tt
  else
    proc_upd p (λ q, set_wait_state (set_state q PROC_RUNNABLE) 0) ;;
    cur ← gets current;
    if decide (p = cur) then mret tt else sched_class_enqueue p.

(** [proc_run]: the context switch makes [p] the current process. *)
Definition proc_run (p : Z) : M sched unit :=
  cur ← gets current;
  if decide (p = cur) then mret tt else proc_at p ;; modify (λ s, set_current s p).

Definition schedule : M sched unit :=
  cur ← gets current;
  proc_upd cur (λ q, set_need_resched q false) ;;
  pr ← proc_at cur;
  when (bool_decide (state pr = PROC_RUNNABLE)) (sched_class_enqueue cur) ;;
  next ← pick_next c;
  match next with Some n => dequeue c n | None => mret tt end ;;
  i ← gets idleproc;
  let next' := default i next in
  proc_upd next' (λ q, set_runs q (runs q + 1)) ;;
  cur' ← gets current;
  when (bool_decide (next' ≠ cur')) (proc_run next').

(** What [do_kill] of kern/process/proc.c does with the process that it has found. *)
Definition kill_proc (p : Z) : M sched Z :=
  pr ← proc_at p;
  if Z.land (flags pr) PF_EXITING =? 0 then
    proc_upd p (λ q, set_flags q (Z.lor (flags q) PF_EXITING)) ;;
    when (interruptible (wait_state pr)) (wakeup_proc p) ;;
    mret 0
  else mret (- E_KILLED).

End class.

(** * What the core of the scheduler relies on *)

(** The part of a descriptor that no scheduling class touches. *)
Definition view (p : proc_struct) :=
  (state p, (pid p, wait_state p, flags p, exit_code p), (parent p, cptr p, yptr p, optr p)).

(** The part of a descriptor that waking the process does not touch either. *)
Definition kin (p : proc_struct) :=
  (pid p, flags p, exit_code p, (parent p, cptr p, yptr p, optr p)).

Definition same_view (m m' : gmap Z proc_struct) : Prop := ∀ p, view <$> m' !! p = view <$> m !! p.

Record frame (s s' : sched) : Prop := {
  fr_view : same_view (procs s) (procs s');
  fr_current : current s' = current s;
  fr_idle : idleproc s' = idleproc s;
  fr_timers : timers s' = timers s;
  fr_timer_list : timer_list s' = timer_list s;
  fr_mode : mode s' = mode s;
  fr_slice : max_time_slice s' = max_time_slice s }.

#[global] Instance frame_refl : Reflexive frame.
Proof. by intros s. Qed.
#[global] Instance frame_trans : Transitive frame.
Proof.
  intros a b c [H1 H2 H3 H4 H5 H6 H7] [K1 K2 K3 K4 K5 K6 K7].
  split; try congruence.
Qed.

Lemma frame_proc s p pr f :
  procs s !! p = Some pr → view (f pr) = view pr → frame s (set_procs s (<[p := f pr]> (procs s))).
Proof.
  intros Hp Hf. split; try done. intros q. simpl. destruct (decide (q = p)) as [->|].
  - rewrite lookup_insert_eq, Hp. simpl. by rewrite Hf.
  - by rewrite lookup_insert_ne.
Qed.

Lemma frame_queue s s' l t n : frame s s' → frame s (set_queue s' l t n).
Proof. intros [H1 H2 H3 H4 H5 H6 H7]. by split. Qed.

Lemma frame_alive s s' p : frame s s' → is_Some (procs s !! p) → is_Some (procs s' !! p).
Proof.
  intros Hf [pr Hp]. pose proof (fr_view _ _ Hf p) as Hv. rewrite Hp in Hv.
  destruct (procs s' !! p); [eauto|done].
Qed.

Class sched_laws (c : sched_class) := {
  queued : sched → list Z;
  cinv : sched → Prop;
  cinv_nodup s : cinv s → NoDup (queued s);
  cinv_alive s p : cinv s → p ∈ queued s → is_Some (procs s !! p);
  enqueue_law s p : cinv s → is_Some (procs s !! p) → p ∉ queued s →
    ∃ s', enqueue c p s = Ret (tt, s') ∧ cinv s' ∧ frame s s' ∧ queued s' ≡ₚ p :: queued s;
  dequeue_law s p : cinv s → p ∈ queued s →
    ∃ s', dequeue c p s = Ret (tt, s') ∧ cinv s' ∧ frame s s' ∧ queued s ≡ₚ p :: queued s';
  pick_law s : cinv s →
    ∃ r s', pick_next c s = Ret (r, s') ∧ cinv s' ∧ frame s s' ∧ queued s' = queued s ∧
      match r with Some p => p ∈ queued s | None => queued s = [] end;
  tick_law s p : cinv s → is_Some (procs s !! p) →
    ∃ s', proc_tick c p s = Ret (tt, s') ∧ cinv s' ∧ frame s s' ∧ queued s' = queued s;
  (* neither the other fields of descriptors nor the identity of the current process matter *)
  upd_law s p pr f : cinv s → procs s !! p = Some pr → in_rq (f pr) = in_rq pr →
    cinv (set_procs s (<[p := f pr]> (procs s))) ∧
    queued (set_procs s (<[p := f pr]> (procs s))) = queued s;
  current_law s p : cinv s → cinv (set_current s p) ∧ queued (set_current s p) = queued s;
  add_law s p pr : cinv s → procs s !! p = None →
    cinv (set_procs s (<[p := pr]> (procs s))) ∧ queued (set_procs s (<[p := pr]> (procs s))) = queued s;
  del_law s p : cinv s → p ∉ queued s →
    cinv (set_procs s (delete p (procs s))) ∧ queued (set_procs s (delete p (procs s))) = queued s;
  timers_law s m l : cinv s → cinv (set_timers s m l) ∧ queued (set_timers s m l) = queued s }.

Lemma proc_at_run s p pr : procs s !! p = Some pr → proc_at p s = Ret (pr, s).
Proof. intros E. unfold proc_at, deref. by rewrite E. Qed.
Lemma proc_upd_run s p f pr :
  procs s !! p = Some pr → proc_upd p f s = Ret (tt, set_procs s (<[p := f pr]> (procs s))).
Proof. intros E. unfold proc_upd. by step using (by apply proc_at_run). Qed.

Lemma view_admit m p : view (admit_slice m p) = view p.
Proof. unfold admit_slice. by destruct ((time_slice p =? 0) || (m <? time_slice p)). Qed.

(** The clock tick of the classes that account time slices. *)
Lemma tick_slice_run s p pr :
  procs s !! p = Some pr →
  ∃ pr', tick_slice p s = Ret (tt, set_procs s (<[p := pr']> (procs s))) ∧
    view pr' = view pr ∧ in_rq pr' = in_rq pr.
Proof.
  intros Hp. unfold tick_slice. step using (by apply proc_at_run).
  set (pr1 := if 0 <? time_slice pr then set_time_slice pr (time_slice pr - 1) else pr).
  assert (when (0 <? time_slice pr) (proc_upd p (λ q, set_time_slice q (time_slice q - 1))) s =
    Ret (tt, set_procs s (<[p := pr1]> (procs s)))) as Hw.
  { unfold pr1, when. destruct (0 <? time_slice pr); [exact (proc_upd_run s p _ pr Hp)|].
    rewrite insert_id by done. by destruct s. }
  step using (exact Hw). step using (apply proc_at_run; simpl; apply lookup_insert_eq).
  assert (view pr1 = view pr ∧ in_rq pr1 = in_rq pr) as [Hv1 Hi1].
  { unfold pr1. by destruct (0 <? time_slice pr). }
  destruct (time_slice pr1 =? 0).
  - exists (set_need_resched pr1 true). split; [|done]. unfold when.
    erewrite proc_upd_run by (simpl; apply lookup_insert_eq). unfold set_procs. simpl.
    by rewrite insert_insert_eq.
  - by exists pr1.
Qed.

(** ** The list classes *)

Record list_inv (s : sched) : Prop := {
  li_nodup : NoDup (run_list s);
  li_rq : ∀ p, p ∈ run_list s → ∃ pr, procs s !! p = Some pr ∧ in_rq pr = true;
  li_num : proc_num s = u32 (Z.of_nat (length (run_list s))) }.

Lemma u32_step n : u32 (u32 (Z.of_nat n) + 1) = u32 (Z.of_nat (S n)).
Proof. unfold u32. rewrite Zplus_mod_idemp_l. f_equal. lia. Qed.
Lemma u32_unstep n : u32 (u32 (Z.of_nat (S n)) - 1) = u32 (Z.of_nat n).
Proof. unfold u32. rewrite Zminus_mod_idemp_l. f_equal. lia. Qed.

Lemma list_enqueue s p :
  list_inv s → is_Some (procs s !! p) → p ∉ run_list s →
  ∃ s', RR_enqueue p s = Ret (tt, s') ∧ list_inv s' ∧ frame s s' ∧ run_list s' = run_list s ++ [p].
Proof.
  intros [Hnd Hrq Hn] [pr Hp] Hq.
  exists (set_queue (set_procs s (<[p := admit_slice (max_time_slice s) pr]> (procs s)))
    (run_list s ++ [p]) (run_pool s) (u32 (proc_num s + 1))).
  split_and!.
  - unfold RR_enqueue. step using reflexivity.
    step using (unfold assert; rewrite bool_decide_true by done; reflexivity).
    step using reflexivity. step using reflexivity. by step using (by apply proc_upd_run).
  - split; simpl.
    + rewrite <-Permutation_cons_append. by constructor.
    + intros q [Hq2|Hq2%list_elem_of_singleton]%elem_of_app.
      * rewrite lookup_insert_ne; [by apply Hrq|]. intros ->. done.
      * subst q. rewrite lookup_insert_eq. eauto.
    + rewrite Hn, length_app, Nat.add_comm. apply u32_step.
  - apply frame_queue, frame_proc; [done|apply view_admit].
  - done.
Qed.

Lemma list_dequeue s p :
  list_inv s → p ∈ run_list s →
  ∃ s', RR_dequeue p s = Ret (tt, s') ∧ list_inv s' ∧ frame s s' ∧ run_list s' = seq_del p (run_list s).
Proof.
  intros [Hnd Hrq Hn] Hq. destruct (Hrq p Hq) as (pr & Hp & Hin).
  exists (set_queue s (seq_del p (run_list s)) (run_pool s) (u32 (proc_num s - 1))). split_and!; try done.
  - unfold RR_dequeue. step using reflexivity. step using (by apply proc_at_run).
    step using (unfold assert; rewrite bool_decide_true, Hin by done; reflexivity). done.
  - pose proof (seq_del_perm p _ Hnd Hq) as Hperm. split; simpl.
    + rewrite <-Hperm in Hnd. by apply NoDup_cons in Hnd as [_ ?].
    + intros q Hq2. apply Hrq. rewrite <-Hperm. set_solver.
    + rewrite Hn, <-(Permutation_length Hperm). simpl length. apply u32_unstep.
Qed.

Lemma list_upd s p pr f :
  list_inv s → procs s !! p = Some pr → in_rq (f pr) = in_rq pr →
  list_inv (set_procs s (<[p := f pr]> (procs s))).
Proof.
  intros [Hnd Hrq Hn] Hp Hf. split; simpl; try done.
  intros q Hq. destruct (Hrq q Hq) as (qr & Hqr & Hin). destruct (decide (q = p)) as [->|].
  - rewrite lookup_insert_eq. exists (f pr). split; [done|]. congruence.
  - rewrite lookup_insert_ne by done. eauto.
Qed.

#[global] Program Instance rr_laws : sched_laws rr_sched_class :=
  {| queued := run_list; cinv := list_inv |}.
Next Obligation. by intros s [? _ _]. Qed.
Next Obligation. intros s p [_ H _] Hp. destruct (H p Hp) as (pr & ? & _). eauto. Qed.
Next Obligation.
  intros s p Hi Ha Hq. destruct (list_enqueue s p Hi Ha Hq) as (s' & ? & ? & ? & Hl).
  exists s'. split_and!; try done. simpl. by rewrite Hl, <-Permutation_cons_append.
Qed.
Next Obligation.
  intros s p Hi Hq. destruct (list_dequeue s p Hi Hq) as (s' & ? & ? & ? & Hl).
  exists s'. split_and!; try done. simpl. rewrite Hl. by rewrite seq_del_perm by (done || apply Hi).
Qed.
Next Obligation.
  intros s Hi. exists (head (run_list s)), s. split_and!; try done.
  destruct (run_list s); simpl; [done|set_solver].
Qed.
Next Obligation.
  intros s p Hi [pr Hp]. destruct (tick_slice_run s p pr Hp) as (pr' & Hrun & Hv & Hin).
  eexists. split; [exact Hrun|]. split_and!; [|by apply (frame_proc s p pr (λ _, pr'))|done].
  by apply (list_upd s p pr (λ _, pr')).
Qed.
Next Obligation.
  intros s p pr f Hi Hp Hf. split; [by apply list_upd|done].
Qed.
Next Obligation. by intros s p [Hnd Hrq Hn]. Qed.
Next Obligation.
  intros s p pr [Hnd Hrq Hn] Hp. split; [|done]. split; try done. simpl. intros q Hq.
  destruct (Hrq q Hq) as (qr & ? & ?). rewrite lookup_insert_ne by congruence. eauto.
Qed.
Next Obligation.
  intros s p [Hnd Hrq Hn] Hp. split; [|done]. split; try done. simpl. intros q Hq.
  rewrite lookup_delete_ne by (by intros <-). auto.
Qed.
Next Obligation. by intros s m l [Hnd Hrq Hn]. Qed.

#[global] Instance fcfs_laws : sched_laws fcfs_sched_class.
Proof.
  refine (Build_sched_laws fcfs_sched_class (@queued _ rr_laws) (@cinv _ rr_laws)
    (@cinv_nodup _ rr_laws) (@cinv_alive _ rr_laws) (@enqueue_law _ rr_laws)
    (@dequeue_law _ rr_laws) (@pick_law _ rr_laws) _ (@upd_law _ rr_laws) (@current_law _ rr_laws)
    (@add_law _ rr_laws) (@del_law _ rr_laws) (@timers_law _ rr_laws)).
  intros s p Hi _. by exists s.
Defined.

(** ** The pool classes *)

Record pool_inv (s : sched) : Prop := {
  pi_nodup : NoDup (SkewHeap.elems (run_pool s));
  pi_alive : ∀ p, p ∈ SkewHeap.elems (run_pool s) → is_Some (procs s !! p);
  pi_num : proc_num s = u32 (Z.of_nat (length (SkewHeap.elems (run_pool s)))) }.

Section pool.
Context (comp : gmap Z proc_struct → Z → Z → bool).

Lemma pool_enqueue_run s p :
  pool_inv s → is_Some (procs s !! p) → p ∉ SkewHeap.elems (run_pool s) →
  ∃ s', pool_enqueue comp p s = Ret (tt, s') ∧ pool_inv s' ∧ frame s s' ∧
    run_pool s' = SkewHeap.t_insert (comp (procs s)) (run_pool s) p.
Proof.
  intros [Hnd Hal Hn] [pr Hp] Hq.
  exists (set_queue (set_procs s (<[p := admit_slice (max_time_slice s) pr]> (procs s)))
    (run_list s) (SkewHeap.t_insert (comp (procs s)) (run_pool s) p) (u32 (proc_num s + 1))).
  split_and!.
  - unfold pool_enqueue. step using (by apply proc_at_run). step using reflexivity.
    step using reflexivity. by step using (by apply proc_upd_run).
  - pose proof (SkewHeap.elems_insert (comp (procs s)) (run_pool s) p) as Hperm. split; simpl.
    + rewrite Hperm. by constructor.
    + intros q. rewrite Hperm. intros [->|Hq2]%elem_of_cons.
      * rewrite lookup_insert_eq. eauto.
      * destruct (decide (q = p)) as [->|]; [rewrite lookup_insert_eq; eauto|].
        rewrite lookup_insert_ne by done. auto.
    + rewrite Hn, (Permutation_length Hperm). apply u32_step.
  - apply frame_queue, frame_proc; [done|apply view_admit].
  - done.
Qed.

Lemma pool_dequeue_run s p :
  pool_inv s → p ∈ SkewHeap.elems (run_pool s) →
  ∃ s', pool_dequeue comp p s = Ret (tt, s') ∧ pool_inv s' ∧ frame s s' ∧
    SkewHeap.elems (run_pool s) ≡ₚ p :: SkewHeap.elems (run_pool s').
Proof.
  intros [Hnd Hal Hn] Hq.
  pose proof (SkewHeap.elems_remove (comp (procs s)) p (run_pool s) Hnd Hq) as Hperm.
  eexists. split; [reflexivity|]. split; [split; simpl|split; [|done]].
  - rewrite Hperm in Hnd. by apply NoDup_cons in Hnd as [_ ?].
  - intros q Hq2. apply Hal. rewrite Hperm. set_solver.
  - rewrite Hn, (Permutation_length Hperm). simpl length. apply u32_unstep.
  - by apply frame_queue.
Qed.

Lemma pool_upd_ok s p pr f :
  pool_inv s → procs s !! p = Some pr → pool_inv (set_procs s (<[p := f pr]> (procs s))).
Proof.
  intros [Hnd Hal Hn] Hp. split; simpl; try done. intros q Hq.
  destruct (decide (q = p)) as [->|]; [rewrite lookup_insert_eq; eauto|].
  rewrite lookup_insert_ne by done. auto.
Qed.

Lemma pool_add_ok s p pr :
  pool_inv s → procs s !! p = None → pool_inv (set_procs s (<[p := pr]> (procs s))).
Proof.
  intros [Hnd Hal Hn] Hp. split; simpl; try done. intros q Hq. destruct (Hal q Hq) as [qr ?].
  rewrite lookup_insert_ne by congruence. eauto.
Qed.

Lemma pool_del_ok s p :
  pool_inv s → p ∉ SkewHeap.elems (run_pool s) → pool_inv (set_procs s (delete p (procs s))).
Proof.
  intros [Hnd Hal Hn] Hp. split; simpl; try done. intros q Hq. rewrite lookup_delete_ne by (by intros <-). auto.
Qed.

Lemma pool_pick_run s (f : proc_struct → proc_struct) :
  pool_inv s → (∀ pr, view (f pr) = view pr) →
  ∃ r s', (t ← gets run_pool;
           match SkewHeap.root t with
           | None => mret None
           | Some p => proc_upd p f ;; mret (Some p)
           end) s = Ret (r, s') ∧ pool_inv s' ∧ frame s s' ∧
    SkewHeap.elems (run_pool s') = SkewHeap.elems (run_pool s) ∧
    match r with
    | Some p => p ∈ SkewHeap.elems (run_pool s)
    | None => SkewHeap.elems (run_pool s) = []
    end.
Proof.
  intros Hi Hf. destruct (run_pool s) as [|p l r] eqn:Hpool.
  - exists None, s. split_and!; try done; [|by rewrite Hpool]. step using reflexivity. by rewrite Hpool.
  - destruct (pi_alive _ Hi p) as [pr Hp]; [rewrite Hpool; set_solver|].
    exists (Some p), (set_procs s (<[p := f pr]> (procs s))). split_and!.
    + step using reflexivity. rewrite Hpool. simpl. by step using (by apply proc_upd_run).
    + by apply pool_upd_ok.
    + by apply frame_proc.
    + simpl. by rewrite Hpool.
    + set_solver.
Qed.
End pool.

#[global] Program Instance stride_laws : sched_laws stride_sched_class :=
  {| queued := λ s, SkewHeap.elems (run_pool s); cinv := pool_inv |}.
Next Obligation. by intros s [? _ _]. Qed.
Next Obligation. intros s p [_ H _]. apply H. Qed.
Next Obligation.
  intros s p Hi Ha Hq. destruct (pool_enqueue_run proc_stride_comp_f s p Hi Ha Hq) as (s' & ? & ? & ? & Hl).
  exists s'. split_and!; try done. simpl. rewrite Hl. apply SkewHeap.elems_insert.
Qed.
Next Obligation. intros s p Hi Hq. by apply pool_dequeue_run. Qed.
Next Obligation. intros s Hi. by apply pool_pick_run. Qed.
Next Obligation.
  intros s p Hi [pr Hp]. destruct (tick_slice_run s p pr Hp) as (pr' & Hrun & Hv & Hin).
  eexists. split; [exact Hrun|]. split_and!; [|by apply (frame_proc s p pr (λ _, pr'))|done].
  by apply (pool_upd_ok s p pr (λ _, pr')).
Qed.
Next Obligation. intros s p pr f Hi Hp _. split; [by apply pool_upd_ok|done]. Qed.
Next Obligation. by intros s p [? ? ?]. Qed.
Next Obligation. intros s p pr Hi Hp. split; [by apply pool_add_ok|done]. Qed.
Next Obligation. intros s p Hi Hp. split; [by apply pool_del_ok|done]. Qed.
Next Obligation. by intros s m l [? ? ?]. Qed.

#[global] Program Instance prior_laws : sched_laws prior_sched_class :=
  {| queued := λ s, SkewHeap.elems (run_pool s); cinv := pool_inv |}.
Next Obligation. by intros s [? _ _]. Qed.
Next Obligation. intros s p [_ H _]. apply H. Qed.
Next Obligation.
  intros s p Hi Ha Hq. destruct (pool_enqueue_run proc_prior_comp_f s p Hi Ha Hq) as (s' & ? & ? & ? & Hl).
  exists s'. split_and!; try done. simpl. rewrite Hl. apply SkewHeap.elems_insert.
Qed.
Next Obligation. intros s p Hi Hq. by apply pool_dequeue_run. Qed.
Next Obligation. intros s Hi. by apply pool_pick_run. Qed.
Next Obligation. intros s p Hi _. by exists s. Qed.
Next Obligation. intros s p pr f Hi Hp _. split; [by apply pool_upd_ok|done]. Qed.
Next Obligation. by intros s p [? ? ?]. Qed.
Next Obligation. intros s p pr Hi Hp. split; [by apply pool_add_ok|done]. Qed.
Next Obligation. intros s p Hi Hp. split; [by apply pool_del_ok|done]. Qed.
Next Obligation. by intros s m l [? ? ?]. Qed.

(** * No runnable process is lost *)

Section core.
Context (c : sched_class) `{L : !sched_laws c}.

Definition runnable (s : sched) (p : Z) : Prop :=
  ∃ pr, procs s !! p = Some pr ∧ state pr = PROC_RUNNABLE.

(** The run queue holds exactly the runnable processes that neither run nor are the idle process. *)
Record sched_ok (s : sched) : Prop := {
  so_cinv : cinv s;
  so_idle : runnable s (idleproc s);
  so_current : is_Some (procs s !! current s);
  so_queue : ∀ p, p ∈ queued s ↔ runnable s p ∧ p ≠ current s ∧ p ≠ idleproc s }.

Lemma runnable_view s s' p : same_view (procs s) (procs s') → runnable s p ↔ runnable s' p.
Proof.
  intros Hv. unfold runnable. specialize (Hv p). unfold view in Hv.
  destruct (procs s !! p), (procs s' !! p); simplify_eq/=; [|split; intros (? & ? & ?); done].
  split; intros (pr & [= <-] & ?); eexists; split; try done; congruence.
Qed.

Lemma upd_same_view s p f pr :
  procs s !! p = Some pr → view (f pr) = view pr →
  same_view (procs s) (procs (set_procs s (<[p := f pr]> (procs s)))).
Proof. intros Hp Hf. apply (frame_proc s p pr f Hp Hf). Qed.

Lemma set_current_same s p : p = current s → set_current s p = s.
Proof. intros ->. by destruct s. Qed.

Lemma proc_run_run s p :
  is_Some (procs s !! p) → proc_run p s = Ret (tt, set_current s p).
Proof.
  intros [pr Hp]. unfold proc_run. step using reflexivity. case_decide as Heq.
  - rewrite Heq. by destruct s.
  - by step using (by apply proc_at_run).
Qed.

(** The first half of [schedule]: the current process goes back to the queue if it is runnable. *)
Lemma requeue_run s :
  sched_ok s →
  ∃ s1, (proc_upd (current s) (λ q, set_need_resched q false) ;;
         pr ← proc_at (current s);
         when (bool_decide (state pr = PROC_RUNNABLE)) (sched_class_enqueue c (current s))) s = Ret (tt, s1) ∧
    cinv s1 ∧ frame s s1 ∧
    (∀ p, p ∈ queued s1 ↔ runnable s p ∧ p ≠ idleproc s).
Proof.
  intros [Hc Hid [pr Hp] Hq].
  set (s0 := set_procs s (<[current s := set_need_resched pr false]> (procs s))).
  assert (cinv s0 ∧ queued s0 = queued s) as [Hc0 Hq0] by by apply (upd_law s (current s) pr (λ q, set_need_resched q false)).
  assert (frame s s0) as Hf0 by by apply (frame_proc s (current s) pr (λ q, set_need_resched q false)).
  assert (procs s0 !! current s = Some (set_need_resched pr false)) as Hp0
    by (unfold s0; simpl; by rewrite lookup_insert_eq).
  assert (∀ s1 r, when (bool_decide (state pr = PROC_RUNNABLE)) (sched_class_enqueue c (current s)) s0 = Ret (r, s1) →
    (proc_upd (current s) (λ q, set_need_resched q false) ;; pr ← proc_at (current s);
     when (bool_decide (state pr = PROC_RUNNABLE)) (sched_class_enqueue c (current s))) s = Ret (r, s1)) as Hrun.
  { intros s1 r H. step using (by apply proc_upd_run). by step using (by apply proc_at_run). }
  destruct (decide (state pr = PROC_RUNNABLE)) as [Hr|Hr].
  - rewrite (bool_decide_true _ Hr) in Hrun. unfold when, sched_class_enqueue in Hrun.
    destruct (decide (current s = idleproc s)) as [Hi|Hi].
    + exists s0. split_and!; [|done|done|].
      * apply Hrun. step using reflexivity. by rewrite decide_True.
      * intros p. rewrite Hq0, Hq. rewrite <-Hi. tauto.
    + destruct (enqueue_law s0 (current s) Hc0) as (s1 & He & Hc1 & Hf1 & Hq1); [eauto| |].
      { rewrite Hq0, Hq. tauto. }
      exists s1. split_and!; [|done|by etrans|].
      * apply Hrun. step using reflexivity. by rewrite decide_False.
      * intros p. rewrite Hq1, Hq0, elem_of_cons, Hq. destruct (decide (p = current s)) as [->|]; [|tauto].
        split; [intros _; split; [by exists pr|done]|tauto].
  - rewrite (bool_decide_false _ Hr) in Hrun. exists s0. split_and!; [by apply Hrun|done|done|].
    intros p. rewrite Hq0, Hq. split; [tauto|]. intros [Hrp Hpi]. split_and!; [done| |done].
    intros ->. destruct Hrp as (? & ? & ?). congruence.
Qed.

Lemma schedule_run s :
  sched_ok s →
  ∃ s', schedule c s = Ret (tt, s') ∧ sched_ok s' ∧ runnable s' (current s') ∧
    same_view (procs s) (procs s') ∧ idleproc s' = idleproc s ∧
    (current s' = idleproc s → ∀ p, runnable s p → p = idleproc s).
Proof.
  intros Hok. destruct (requeue_run s Hok) as (s1 & Hrun1 & Hc1 & Hf1 & Hq1).
  destruct (pick_law s1 Hc1) as (r & s2 & Hpick & Hc2 & Hf2 & Hq2 & Hr).
  assert (∃ s3, match r with Some n => dequeue c n | None => mret tt end s2 = Ret (tt, s3) ∧ cinv s3 ∧
    frame s2 s3 ∧ (∀ p, p ∈ queued s3 ↔ p ∈ queued s1 ∧ r ≠ Some p)) as (s3 & Hdeq & Hc3 & Hf3 & Hq3).
  { destruct r as [n|].
    - destruct (dequeue_law s2 n Hc2) as (s3 & Hd & Hc3 & Hf3 & Hperm); [by rewrite Hq2|].
      exists s3. split_and!; try done. intros p. rewrite <-Hq2, Hperm, elem_of_cons.
      pose proof (cinv_nodup _ Hc2) as Hnd. rewrite Hperm in Hnd. apply NoDup_cons in Hnd as [Hnn _].
      split; [|naive_solver]. intros Hp. split; [by right|]. intros [= ->]. done.
    - exists s2. split_and!; try done. intros p. rewrite Hq2. naive_solver. }
  assert (frame s s3) as Hf by (etrans; [exact Hf1|etrans; [exact Hf2|exact Hf3]]).
  set (n := default (idleproc s) r).
  assert (runnable s n) as Hrn.
  { unfold n. destruct r as [p|]; [|apply Hok]. simpl. apply Hq1. exact Hr. }
  assert (runnable s3 n) as (nr & Hnr & Hns) by by apply (runnable_view s s3 n (fr_view _ _ Hf)).
  set (s4 := set_procs s3 (<[n := set_runs nr (runs nr + 1)]> (procs s3))).
  assert (frame s3 s4) as Hf4 by by apply (frame_proc s3 n nr (λ q, set_runs q (runs q + 1))).
  destruct (upd_law s3 n nr (λ q, set_runs q (runs q + 1)) Hc3 Hnr eq_refl) as [Hc4 Hq4].
  fold s4 in Hc4, Hq4. assert (frame s s4) as Hfs by (etrans; [exact Hf|exact Hf4]).
  destruct (current_law s4 n Hc4) as [Hc5 Hq5].
  assert (same_view (procs s) (procs (set_current s4 n))) as Hsv by apply (fr_view _ _ Hfs).
  exists (set_current s4 n). split_and!.
  - unfold schedule. step using reflexivity. apply M_bind_Ret in Hrun1 as ([] & t1 & Hu & Hrun1).
    step using (exact Hu). apply M_bind_Ret in Hrun1 as (pr & t2 & Hpa & Hw). step using (exact Hpa).
    step using (exact Hw). step using (exact Hpick). step using (exact Hdeq). step using reflexivity.
    rewrite (fr_idle _ _ Hf). fold n. step using (by apply proc_upd_run). fold s4. step using reflexivity.
    fold s4. destruct (decide (n = current s4)) as [Hne|Hne].
    + rewrite bool_decide_false by (by intros H). unfold when, mret, M_ret.
      by rewrite set_current_same.
    + rewrite bool_decide_true by done. unfold when. apply proc_run_run.
      eapply frame_alive; [exact Hf4|]. eauto.
  - split; simpl.
    + done.
    + rewrite (fr_idle _ _ Hf). apply (runnable_view s); [done|]. apply Hok.
    + unfold s4. simpl. rewrite lookup_insert_eq. eauto.
    + intros p. rewrite Hq5, Hq4, Hq3, Hq1, (fr_idle _ _ Hf), <-(runnable_view s _ p Hsv).
      unfold n. destruct r as [q|]; simpl; naive_solver.
  - simpl. by apply (runnable_view s).
  - done.
  - simpl. apply Hf.
  - simpl. intros Hn p Hp. destruct (decide (p = idleproc s)) as [|Hpi]; [done|].
    assert (p ∈ queued s1) as Hin by by apply Hq1. unfold n in Hn. destruct r as [q|]; simpl in Hn.
    + subst q. apply Hq1 in Hr as [_ ?]. done.
    + rewrite Hr in Hin. by apply elem_of_nil in Hin.
Qed.

(** C29: [schedule] succeeds, hands the processor to a runnable process, leaves the idle process
    running only when no other process is runnable, and keeps the run queue equal to the set of
    runnable processes that wait for the processor. *)
Theorem schedule_correct s :
  sched_ok s →
  ∃ s', schedule c s = Ret (tt, s') ∧ sched_ok s' ∧ runnable s' (current s') ∧
    same_view (procs s) (procs s') ∧ idleproc s' = idleproc s ∧
    (current s' = idleproc s → ∀ p, runnable s p → p = idleproc s).
Proof. apply schedule_run. Qed.

(** Changing fields the scheduler does not look at. *)
Lemma sched_ok_upd s p pr f :
  sched_ok s → procs s !! p = Some pr → state (f pr) = state pr → in_rq (f pr) = in_rq pr →
  sched_ok (set_procs s (<[p := f pr]> (procs s))).
Proof.
  intros [Hc Hi Hcur Hq] Hp Hst Hin. destruct (upd_law s p pr f Hc Hp Hin) as [Hc' Hq'].
  assert (∀ q, runnable (set_procs s (<[p := f pr]> (procs s))) q ↔ runnable s q) as Hr.
  { intros q. unfold runnable. simpl. destruct (decide (q = p)) as [->|]; [|by rewrite lookup_insert_ne by done].
    rewrite lookup_insert_eq, Hp. split; intros (? & [= <-] & ?); eexists; split; try done; congruence. }
  split; simpl; [done|by apply Hr| |].
  - destruct (decide (current s = p)) as [->|]; [rewrite lookup_insert_eq; eauto|]. by rewrite lookup_insert_ne.
  - intros q. rewrite Hq', Hq, Hr. done.
Qed.

(** The current process leaving the state [PROC_RUNNABLE]. *)
Lemma sched_ok_leave s pr f :
  sched_ok s → current s ≠ idleproc s → procs s !! current s = Some pr → in_rq (f pr) = in_rq pr →
  sched_ok (set_procs s (<[current s := f pr]> (procs s))).
Proof.
  intros [Hc Hi Hcur Hq] Hid Hp Hin.
  destruct (upd_law s (current s) pr f Hc Hp Hin) as [Hc' Hq'].
  assert (∀ p, p ≠ current s → runnable (set_procs s (<[current s := f pr]> (procs s))) p ↔ runnable s p) as Hr.
  { intros p Hpc. unfold runnable. simpl. by rewrite lookup_insert_ne by done. }
  split; simpl.
  - done.
  - apply Hr; [congruence|done].
  - rewrite lookup_insert_eq. eauto.
  - intros p. rewrite Hq', Hq. destruct (decide (p = current s)) as [->|Hpc]; [tauto|]. by rewrite Hr.
Qed.

(** A new process that is not runnable, and the removal of one. *)
Lemma sched_ok_add s p pr :
  sched_ok s → procs s !! p = None → state pr ≠ PROC_RUNNABLE →
  sched_ok (set_procs s (<[p := pr]> (procs s))).
Proof.
  intros [Hc Hi [cr Hcur] Hq] Hp Hst. destruct (add_law s p pr Hc Hp) as [Hc' Hq'].
  assert (∀ q, runnable (set_procs s (<[p := pr]> (procs s))) q ↔ runnable s q) as Hr.
  { intros q. unfold runnable. simpl. destruct (decide (q = p)) as [->|]; [|by rewrite lookup_insert_ne by done].
    rewrite lookup_insert_eq, Hp. split; intros (? & H & ?); congruence. }
  split; simpl; [done|by apply Hr| |].
  - rewrite lookup_insert_ne by congruence. eauto.
  - intros q. rewrite Hq', Hq, Hr. done.
Qed.

Lemma wakeup_run s p pr :
  sched_ok s → procs s !! p = Some pr → state pr ≠ PROC_ZOMBIE →
  ∃ s', wakeup_proc c p s = Ret (tt, s') ∧ sched_ok s' ∧ runnable s' p ∧
    current s' = current s ∧ idleproc s' = idleproc s ∧ timers s' = timers s ∧
    timer_list s' = timer_list s ∧
    (∀ q, q ≠ p → view <$> procs s' !! q = view <$> procs s !! q) ∧
    (state pr = PROC_RUNNABLE → s' = s) ∧
    (state pr ≠ PROC_RUNNABLE → ∃ pr', procs s' !! p = Some pr' ∧ wait_state pr' = 0) ∧
    (∀ q, kin <$> procs s' !! q = kin <$> procs s !! q).
Proof.
  intros Hok Hp Hz. unfold wakeup_proc.
  destruct (decide (state pr = PROC_RUNNABLE)) as [Hr|Hr].
  { exists s. split_and!; try done; [|by exists pr]. step using (by apply proc_at_run).
    step using (unfold assert; rewrite bool_decide_true by done; reflexivity). by rewrite decide_True. }
  set (f := λ q, set_wait_state (set_state q PROC_RUNNABLE) 0).
  set (s1 := set_procs s (<[p := f pr]> (procs s))).
  destruct (upd_law s p pr f (so_cinv _ Hok) Hp eq_refl) as [Hc1 Hq1]. fold s1 in Hc1, Hq1.
  assert (procs s1 !! p = Some (f pr)) as Hp1 by (unfold s1; simpl; by rewrite lookup_insert_eq).
  assert (∀ q, q ≠ p → procs s1 !! q = procs s !! q) as Hoth
    by (intros; unfold s1; simpl; by rewrite lookup_insert_ne).
  assert (∀ q, runnable s1 q ↔ runnable s q ∨ q = p) as Hrun1.
  { intros q. unfold runnable. destruct (decide (q = p)) as [->|Hq]; [|rewrite Hoth by done; tauto].
    split; [tauto|]. intros _. eauto. }
  assert (¬ runnable s p) as Hnr by (intros (? & ? & ?); congruence).
  assert (p ≠ idleproc s) as Hpi by (intros ->; apply Hnr, Hok).
  assert (∃ s2, (cur ← gets current; if decide (p = cur) then mret tt else sched_class_enqueue c p) s1 = Ret (tt, s2) ∧
    cinv s2 ∧ frame s1 s2 ∧ (∀ q, q ∈ queued s2 ↔ q ∈ queued s ∨ (q = p ∧ p ≠ current s))) as (s2 & Hrun & Hc2 & Hf2 & Hq2).
  { destruct (decide (p = current s)) as [Hcur|Hcur].
    - exists s1. split_and!; try done.
      + step using reflexivity. by rewrite decide_True.
      + intros q. rewrite Hq1. tauto.
    - destruct (enqueue_law s1 p Hc1) as (s2 & He & Hc2 & Hf2 & Hperm); [eauto| |].
      { rewrite Hq1, (so_queue _ Hok). tauto. }
      exists s2. split_and!; try done.
      + step using reflexivity. rewrite decide_False by done. unfold sched_class_enqueue.
        step using reflexivity. by rewrite decide_False.
      + intros q. rewrite Hperm, Hq1, elem_of_cons. tauto. }
  assert (∀ q, runnable s2 q ↔ runnable s q ∨ q = p) as Hrun2.
  { intros q. by rewrite <-(runnable_view s1 s2 q (fr_view _ _ Hf2)). }
  exists s2. split_and!.
  - step using (by apply proc_at_run). step using (unfold assert; rewrite bool_decide_true by done; reflexivity).
    rewrite decide_False by done. by step using (by apply proc_upd_run).
  - split; rewrite ?(fr_idle _ _ Hf2), ?(fr_current _ _ Hf2); simpl.
    + done.
    + apply Hrun2. left. apply Hok.
    + eapply frame_alive; [exact Hf2|]. destruct (decide (current s = p)) as [->|]; [eauto|].
      rewrite Hoth by done. apply Hok.
    + intros q. rewrite Hq2, (so_queue _ Hok), Hrun2. destruct (decide (q = p)) as [->|]; [|tauto].
      tauto.
  - apply Hrun2. by right.
  - by rewrite (fr_current _ _ Hf2).
  - by rewrite (fr_idle _ _ Hf2).
  - by rewrite (fr_timers _ _ Hf2).
  - by rewrite (fr_timer_list _ _ Hf2).
  - intros q Hq. rewrite (fr_view _ _ Hf2). by rewrite Hoth.
  - done.
  - intros _. pose proof (fr_view _ _ Hf2 p) as Hv. rewrite Hp1 in Hv.
    destruct (procs s2 !! p) as [pr'|]; [|done]. injection Hv as _ _ Hw _. by exists pr'.
  - intros q. transitivity (kin <$> procs s1 !! q).
    + pose proof (fr_view _ _ Hf2 q) as Hv. destruct (procs s1 !! q), (procs s2 !! q); try done.
      injection Hv as ? ? ? ? ? ? ? ? ?. simpl. unfold kin. congruence.
    + destruct (decide (q = p)) as [->|]; [by rewrite Hp1, Hp|by rewrite Hoth].
Qed.

(** [wakeup_proc] of a live process makes it runnable and queues it exactly once (not at all when
    it is the running process), touching no other process; waking a runnable process does nothing. *)
Theorem wakeup_proc_correct s p pr :
  sched_ok s → procs s !! p = Some pr → state pr ≠ PROC_ZOMBIE →
  ∃ s', wakeup_proc c p s = Ret (tt, s') ∧ sched_ok s' ∧ runnable s' p ∧
    current s' = current s ∧
    (∀ q, q ≠ p → view <$> procs s' !! q = view <$> procs s !! q) ∧
    (state pr = PROC_RUNNABLE → s' = s).
Proof.
  intros Hok Hp Hz. destruct (wakeup_run s p pr Hok Hp Hz) as (s' & Hrun & Hok' & Hr & Hcur & _ & _ & _ & H1 & H2 & _ & _).
  by exists s'.
Qed.

End core.

(** * Round robin is fair *)

#[global] Instance runnable_dec s p : Decision (runnable s p).
Proof.
  unfold runnable. destruct (procs s !! p) as [pr|] eqn:E.
  - destruct (decide (state pr = PROC_RUNNABLE)).
    + left. eauto.
    + right. intros (? & [= <-] & ?). done.
  - right. intros (? & ? & _). done.
Defined.

(** The processes [schedule] chooses from, in queue order. *)
Definition candidates (s : sched) : list Z :=
  run_list s ++ (if decide (current s ≠ idleproc s ∧ runnable s (current s)) then [current s] else []).

Lemma rr_requeue s :
  sched_ok rr_sched_class s →
  ∃ s1, (proc_upd (current s) (λ q, set_need_resched q false) ;;
         pr ← proc_at (current s);
         when (bool_decide (state pr = PROC_RUNNABLE)) (sched_class_enqueue rr_sched_class (current s))) s =
          Ret (tt, s1) ∧ list_inv s1 ∧ frame s s1 ∧ run_list s1 = candidates s.
Proof.
  intros [Hc Hid [pr Hp] Hq]. unfold candidates.
  set (s0 := set_procs s (<[current s := set_need_resched pr false]> (procs s))).
  destruct (upd_law (c := rr_sched_class) s (current s) pr (λ q, set_need_resched q false) Hc Hp eq_refl) as [Hc0 _].
  fold s0 in Hc0.
  assert (frame s s0) as Hf0 by by apply (frame_proc s (current s) pr (λ q, set_need_resched q false)).
  assert (procs s0 !! current s = Some (set_need_resched pr false)) as Hp0
    by (unfold s0; simpl; by rewrite lookup_insert_eq).
  destruct (decide (state pr = PROC_RUNNABLE)) as [Hr|Hr].
  - assert (runnable s (current s)) as Hrun by by exists pr.
    destruct (decide (current s = idleproc s)) as [Hi|Hi].
    + exists s0. rewrite (decide_False (P := _ ∧ _)) by tauto. rewrite app_nil_r. split_and!; try done.
      step using (by apply proc_upd_run). step using (by apply proc_at_run).
      rewrite bool_decide_true by done. unfold when, sched_class_enqueue. step using reflexivity.
      by rewrite decide_True.
    + rewrite (decide_True (P := _ ∧ _)) by done.
      destruct (list_enqueue s0 (current s) Hc0) as (s1 & He & Hi1 & Hf1 & Hl1); [eauto| |].
      { intros Hin. apply Hq in Hin. tauto. }
      exists s1. split_and!; [|done|by etrans|done].
      step using (by apply proc_upd_run). step using (by apply proc_at_run).
      rewrite bool_decide_true by done. unfold when, sched_class_enqueue. step using reflexivity.
      by rewrite decide_False.
  - exists s0. rewrite (decide_False (P := _ ∧ _)).
    2:{ intros [_ (? & ? & ?)]. congruence. }
    rewrite app_nil_r. split_and!; try done.
    step using (by apply proc_upd_run). step using (by apply proc_at_run).
    by rewrite bool_decide_false.
Qed.

(** One call of [schedule] takes the first candidate. *)
Lemma rr_schedule_run s n q :
  sched_ok rr_sched_class s → candidates s = n :: q →
  ∃ s', schedule rr_sched_class s = Ret (tt, s') ∧ current s' = n ∧ run_list s' = q.
Proof.
  intros Hok Hcand. destruct (rr_requeue s Hok) as (s1 & Hrun1 & Hi1 & Hf1 & Hl1).
  rewrite Hcand in Hl1. pose proof (li_nodup _ Hi1) as Hnd. rewrite Hl1 in Hnd.
  apply NoDup_cons in Hnd as [Hnq _].
  destruct (list_dequeue s1 n Hi1) as (s2 & Hdeq & Hi2 & Hf2 & Hl2); [rewrite Hl1; set_solver|].
  assert (run_list s2 = q) as Hq.
  { rewrite Hl2, Hl1. unfold seq_del. rewrite filter_cons_False by naive_solver. by apply seq_del_not_in. }
  destruct (li_rq _ Hi1 n) as (nr1 & Hnr1 & _); [rewrite Hl1; set_solver|].
  destruct (frame_alive s1 s2 n Hf2) as [nr Hnr]; [eauto|].
  set (s3 := set_procs s2 (<[n := set_runs nr (runs nr + 1)]> (procs s2))).
  assert (pick_next rr_sched_class s1 = Ret (Some n, s1)) as Hpick.
  { simpl. unfold RR_pick_next. unM. by rewrite Hl1. }
  exists (set_current s3 n). split_and!; [|done|done].
  unfold schedule. step using reflexivity. apply M_bind_Ret in Hrun1 as ([] & t1 & Hu & Hrun1).
  step using (exact Hu). apply M_bind_Ret in Hrun1 as (pr & t2 & Hpa & Hw). step using (exact Hpa).
  step using (exact Hw). step using (exact Hpick).
  step using (exact Hdeq). step using reflexivity. simpl default.
  step using (by apply proc_upd_run). fold s3. step using reflexivity.
  destruct (decide (n = current s3)) as [Hne|Hne].
  - rewrite bool_decide_false by (by intros H). unfold when, mret, M_ret.
    by rewrite set_current_same.
  - rewrite bool_decide_true by done. unfold when. apply proc_run_run.
    unfold s3. simpl. rewrite lookup_insert_eq. eauto.
Qed.

Lemma rr_schedule_ok s :
  sched_ok rr_sched_class s →
  ∃ s', schedule rr_sched_class s = Ret (tt, s') ∧ sched_ok rr_sched_class s'.
Proof. intros Hok. destruct (schedule_run rr_sched_class s Hok) as (s' & ? & ? & _). eauto. Qed.

(** [k] calls of [schedule] in a row. *)
Fixpoint schedules (c : sched_class) (k : nat) (s : sched) : res (unit * sched) :=
  match k with
  | O => Ret (tt, s)
  | S k' => match schedule c s with Ret (_, s') => schedules c k' s' | Err e => Err e end
  end.

(** C36: under round robin no runnable process starves: the process at position [k] of the run queue
    gets the processor at the [k + 1]-th call of [schedule]. *)
Theorem rr_no_starvation s k p :
  sched_ok rr_sched_class s → run_list s !! k = Some p →
  ∃ s', schedules rr_sched_class (S k) s = Ret (tt, s') ∧ current s' = p ∧ sched_ok rr_sched_class s'.
Proof.
  revert s. induction k as [|k IH]; intros s Hok Hk.
  - destruct (run_list s) as [|q l] eqn:Hl; [done|]. injection Hk as ->.
    destruct (rr_schedule_run s p (l ++ if decide (current s ≠ idleproc s ∧ runnable s (current s))
      then [current s] else [])) as (s' & Hrun & Hcur & _); [done|by unfold candidates; rewrite Hl|].
    destruct (rr_schedule_ok s Hok) as (s2 & Hrun2 & Hok2). rewrite Hrun in Hrun2. injection Hrun2 as <-.
    exists s'. cbn [schedules]. by rewrite Hrun.
  - destruct (run_list s) as [|q l] eqn:Hl; [done|]. simpl in Hk.
    destruct (rr_schedule_run s q (l ++ if decide (current s ≠ idleproc s ∧ runnable s (current s))
      then [current s] else [])) as (s1 & Hrun & Hcur & Hl1); [done|by unfold candidates; rewrite Hl|].
    destruct (rr_schedule_ok s Hok) as (s2 & Hrun2 & Hok2). rewrite Hrun in Hrun2. injection Hrun2 as <-.
    destruct (IH s1 Hok2) as (s' & Hs & Hc' & Hok').
    { rewrite Hl1, lookup_app_l; [done|]. by apply lookup_lt_Some in Hk. }
    exists s'. split_and!; try done. cbn [schedules]. by rewrite Hrun.
Qed.

(** * Changing the class *)

(** With an empty pool, a runnable process that schedules itself away under stride comes back. *)
Lemma stride_alone s :
  run_pool s = SkewHeap.Leaf → runnable s (current s) → current s ≠ idleproc s →
  ∃ s', schedule stride_sched_class s = Ret (tt, s') ∧ run_pool s' = SkewHeap.Leaf ∧
    current s' = current s ∧ idleproc s' = idleproc s ∧ run_list s' = run_list s ∧
    same_view (procs s) (procs s').
Proof.
  intros Hpool (pr & Hp & Hr) Hi.
  set (pr1 := set_need_resched pr false). set (pr2 := admit_slice (max_time_slice s) pr1).
  set (pr3 := stride_step pr2). set (pr4 := set_runs pr3 (runs pr3 + 1)).
  exists (set_queue (set_procs s (<[current s := pr4]> (procs s))) (run_list s) SkewHeap.Leaf
    (u32 (u32 (proc_num s + 1) - 1))).
  split_and!; try done.
  - unfold schedule. step using reflexivity. step using (by apply proc_upd_run).
    step using (apply proc_at_run; simpl; apply lookup_insert_eq). unfold when.
    rewrite bool_decide_true by done. unfold sched_class_enqueue, stride_sched_class.
    unfold enqueue, stride_enqueue, pool_enqueue, pick_next, stride_pick_next, dequeue, stride_dequeue, pool_dequeue.
    unM. rewrite decide_False by done. unfold proc_upd, proc_at, mbind, M_bind, deref. simpl.
    repeat (rewrite ?lookup_insert_eq, ?Hpool; simpl). rewrite decide_True by done.
    repeat (rewrite ?lookup_insert_eq; simpl).
    rewrite bool_decide_false by (intros H; by apply H). unfold modify, set_procs, set_queue. simpl.
    by rewrite !insert_insert_eq.
  - apply (frame_proc s (current s) pr (λ _, pr4) Hp). unfold pr4, pr3, stride_step.
    transitivity (view pr2); [done|]. unfold pr2. by rewrite view_admit.
Qed.

Lemma stride_alone_iter k s :
  run_pool s = SkewHeap.Leaf → runnable s (current s) → current s ≠ idleproc s →
  ∃ s', schedules stride_sched_class k s = Ret (tt, s') ∧ current s' = current s ∧
    run_list s' = run_list s ∧ same_view (procs s) (procs s').
Proof.
  revert s. induction k as [|k IH]; intros s Hpool Hr Hi; [by exists s|].
  destruct (stride_alone s Hpool Hr Hi) as (s1 & Hrun & Hpool1 & Hc1 & Hi1 & Hl1 & Hv1).
  destruct (IH s1) as (s2 & Hrun2 & Hc2 & Hl2 & Hv2); [done| |congruence|].
  { rewrite Hc1. by apply (runnable_view s s1 _ Hv1). }
  exists s2. split_and!; [|congruence|congruence|].
  - cbn [schedules]. by rewrite Hrun.
  - intros q. by rewrite Hv2, Hv1.
Qed.

(** [do_change_sched] switches the class without moving the queue: a process queued under round
    robin stays runnable after the switch to stride, but however often the running process calls
    [schedule] it is never chosen. *)
Theorem change_sched_starves s p k :
  sched_ok rr_sched_class s → p ∈ run_list s → run_pool s = SkewHeap.Leaf →
  runnable s (current s) → current s ≠ idleproc s →
  ∃ s1 s2, do_change_sched 1 s = Ret (tt, s1) ∧
    schedules (class_of (mode s1)) k s1 = Ret (tt, s2) ∧ runnable s2 p ∧ current s2 ≠ p.
Proof.
  intros Hok Hp Hpool Hr Hi. exists (set_mode s 1).
  destruct (stride_alone_iter k (set_mode s 1) Hpool Hr Hi) as (s2 & Hrun & Hc & _ & Hv).
  exists s2. apply (so_queue _ _ Hok) in Hp as (Hrp & Hpc & _). split_and!; [done|done| |].
  - by apply (runnable_view (set_mode s 1) s2 _ Hv).
  - rewrite Hc. simpl. congruence.
Qed.

(** * A concrete scheduler state *)

Definition demo_proc (st : proc_state) (n : Z) (q : bool) : proc_struct :=
  mkProc st n 0 false None None None None 0 0 0 (if decide (st = PROC_SLEEPING) then WT_TIMER else 0) q 3 0 1.

(** Process 1 runs, 2 and 4 wait for the processor, 3 sleeps. *)
Definition demo_sched : sched :=
  mkSched (<[0 := demo_proc PROC_RUNNABLE 0 false]> (<[1 := demo_proc PROC_RUNNABLE 1 false]>
    (<[2 := demo_proc PROC_RUNNABLE 2 true]> (<[3 := demo_proc PROC_SLEEPING 3 false]>
    (<[4 := demo_proc PROC_RUNNABLE 4 true]> ∅))))) 1 0 [2; 4] SkewHeap.Leaf 2 5 ∅ [] 3.

Lemma demo_sched_ok : sched_ok rr_sched_class demo_sched.
Proof.
  assert (∀ p, p ∈ [2; 4] ↔ p = 2 ∨ p = 4) as Hin by (intros p; set_solver).
  split.
  - split; [by apply (bool_decide_unpack (NoDup [2; 4])); vm_compute| |done].
    intros p Hp. apply Hin in Hp as [->| ->]; eexists; by split; [vm_compute|].
  - eexists. by split; [vm_compute|].
  - eexists. by vm_compute.
  - intros p. change (p ∈ [2; 4] ↔ runnable demo_sched p ∧ p ≠ 1 ∧ p ≠ 0). rewrite Hin. split.
    + intros [->| ->]; (split_and!; [|lia|lia]); eexists; by split; [vm_compute|].
    + intros ((pr & Hp & Hs) & H1 & H0). unfold demo_sched in Hp. simpl in Hp.
      destruct (decide (p = 2)); [tauto|]. destruct (decide (p = 4)); [tauto|].
      destruct (decide (p = 3)) as [->|]; [vm_compute in Hp; injection Hp as <-; done|].
      by rewrite !lookup_insert_ne in Hp by done.
Qed.

Lemma schedule_correct_witness :
  ∃ s', schedule rr_sched_class demo_sched = Ret (tt, s') ∧ runnable s' (current s').
Proof.
  destruct (schedule_correct rr_sched_class demo_sched demo_sched_ok) as (s' & Hrun & _ & Hr & _).
  by exists s'.
Defined.

Lemma wakeup_proc_correct_witness :
  ∃ s', wakeup_proc rr_sched_class 3 demo_sched = Ret (tt, s') ∧ runnable s' 3.
Proof.
  destruct (wakeup_proc_correct rr_sched_class demo_sched 3 (demo_proc PROC_SLEEPING 3 false)
    demo_sched_ok) as (s' & Hrun & _ & Hr & _); [by vm_compute|done|].
  by exists s'.
Defined.

Lemma rr_no_starvation_witness :
  ∃ s', schedules rr_sched_class 2 demo_sched = Ret (tt, s') ∧ current s' = 4.
Proof.
  destruct (rr_no_starvation demo_sched 1 4 demo_sched_ok eq_refl) as (s' & Hrun & Hc & _).
  by exists s'.
Defined.

Lemma change_sched_starves_witness :
  ∃ s1 s2, do_change_sched 1 demo_sched = Ret (tt, s1) ∧
    schedules (class_of (mode s1)) 7 s1 = Ret (tt, s2) ∧ current s2 ≠ 2.
Proof.
  destruct (change_sched_starves demo_sched 2 7 demo_sched_ok) as (s1 & s2 & H1 & H2 & _ & H3).
  - set_solver.
  - done.
  - eexists. by split; [vm_compute|].
  - done.
  - exists s1, s2. split; [exact H1|split; [exact H2|exact H3]].
Defined.

End Sched.
