(* ===== verification/Timers.v ===== *)
(** The kernel timers of kern/schedule/sched.c: [add_timer], [del_timer] and [run_timer_list].

    A timer stores the number of ticks by which it runs out after the timer in front of it; the
    theorems speak of the absolute times this encodes ([deadlines]). *)
From S2P Require Import Prelude Dll ProcData Sched.

Module Timers.
Import Dll ProcData Sched.
Set Default Proof Using "Type".

Definition timer_at (t : Z) : M sched timer := deref (λ s, timers s !! t).
Definition set_expires (t e : Z) : M sched unit :=
  x ← timer_at t;
  modify (λ s, set_timers s (<[t := mkTimer (u32 e) (t_proc x)]> (timers s)) (timer_list s)).

(** The walk of [add_timer]: the entry in front of which the timer goes, [None] for the list head. *)
Fixpoint add_walk (t : Z) (todo : list Z) : M sched (option Z) :=
  match todo with
  | [] => mret None
  | n :: todo' =>
      x ← timer_at t;
      y ← timer_at n;
      if expires x <? expires y then
        set_expires n (expires y - expires x) ;;
        mret (Some n)
      else
        set_expires t (expires x - expires y) ;;
        add_walk t todo'
  end.

Definition add_timer (t : Z) : M sched unit :=
  x ← timer_at t;
  assert (0 <? expires x) ;;
  l ← gets timer_list;
  assert (bool_decide (t ∉ l)) ;;
  le ← add_walk t l;
  modify (λ s, set_timers s (timers s) (seq_add_before le t (timer_list s))).

(** The entry behind [t]. *)
Fixpoint next_timer (t : Z) (l : list Z) : option Z :=
  match l with
  | [] => None
  | u :: l' => if decide (u = t) then head l' else next_timer t l'
  end.

Definition del_timer (t : Z) : M sched unit :=
  l ← gets timer_list;
  if decide (t ∈ l) then
    x ← timer_at t;
    when (negb (expires x =? 0))
      match next_timer t l with
      | Some n => y ← timer_at n; set_expires n (expires y + expires x)
      | None => mret tt
      end ;;
    modify (λ s, set_timers s (timers s) (seq_del t (timer_list s)))
  else mret tt.

Section class.
(** The class [sched_class] points to. *)
Context (c : sched_class).

(** The loop of [run_timer_list] over the timers that have run out. *)
Fixpoint expire_loop (todo : list Z) : M sched unit :=
  match todo with
  | [] => mret tt
  | t :: todo' =>
      x ← timer_at t;
      if expires x =? 0 then
        pr ← proc_at (t_proc x);
        when (negb (wait_state pr =? 0)) (assert (interruptible (wait_state pr))) ;;
        wakeup_proc c (t_proc x) ;;
        del_timer t ;;
        expire_loop todo'
      else mret tt
  end.

Definition run_timer_list : M sched unit :=
  l ← gets timer_list;
  match l with
  | [] => mret tt
  | t :: _ =>
      x ← timer_at t;
      assert (negb (expires x =? 0)) ;;
      set_expires t (expires x - 1) ;;
      expire_loop l
  end ;;
  cur ← gets current;
  sched_class_proc_tick c cur.

End class.

(** * Absolute times *)

Definition expires_of (ts : gmap Z timer) (t : Z) : Z :=
  match ts !! t with Some x => expires x | None => 0 end.

(** The timers of [l] with the absolute times at which they run out, for a list that starts at time [acc]. *)
Fixpoint deadlines (ts : gmap Z timer) (acc : Z) (l : list Z) : list (Z * Z) :=
  match l with
  | [] => []
  | t :: l' => (t, acc + expires_of ts t) :: deadlines ts (acc + expires_of ts t) l'
  end.

Definition span (ts : gmap Z timer) (l : list Z) : Z := Zsum (expires_of ts <$> l).

(** The timer list is well formed: no timer is on it twice, the differences are not negative and
    their sum does not overflow. *)
Record timers_wf (ts : gmap Z timer) (l : list Z) : Prop := {
  tw_nodup : NoDup l;
  tw_alive : ∀ t, t ∈ l → is_Some (ts !! t);
  tw_nonneg : ∀ t, t ∈ l → 0 ≤ expires_of ts t;
  tw_span : span ts l < 2 ^ 32 }.

Lemma deadlines_app ts acc l1 l2 :
  deadlines ts acc (l1 ++ l2) = deadlines ts acc l1 ++ deadlines ts (acc + span ts l1) l2.
Proof.
  revert acc. induction l1 as [|t l1 IH]; intros acc; simpl; [by rewrite Z.add_0_r|].
  rewrite IH. unfold span. csimpl. simpl. by rewrite Z.add_assoc.
Qed.

Lemma deadlines_ext ts ts' acc l :
  (∀ t, t ∈ l → expires_of ts t = expires_of ts' t) → deadlines ts acc l = deadlines ts' acc l.
Proof.
  revert acc. induction l as [|t l IH]; intros acc H; simpl; [done|].
  rewrite (H t) by set_solver. f_equal. apply IH. set_solver.
Qed.

Lemma deadlines_fst ts acc l : (deadlines ts acc l).*1 = l.
Proof. revert acc. induction l as [|t l IH]; intros acc; csimpl; [done|]. by rewrite IH. Qed.

Lemma span_nonneg ts l : (∀ u, u ∈ l → 0 ≤ expires_of ts u) → 0 ≤ span ts l.
Proof.
  unfold span. induction l as [|v l IH]; intros H; csimpl; [done|]. simpl.
  assert (0 ≤ expires_of ts v) by (apply H; set_solver).
  assert (0 ≤ Zsum (expires_of ts <$> l)) by (apply IH; set_solver). lia.
Qed.

Lemma deadlines_lower ts acc l t a :
  (∀ u, u ∈ l → 0 ≤ expires_of ts u) → (t, a) ∈ deadlines ts acc l → acc ≤ a ≤ acc + span ts l.
Proof.
  revert acc. induction l as [|u l IH]; intros acc Hn; simpl; [by intros ?%elem_of_nil|].
  assert (0 ≤ expires_of ts u) by (apply Hn; set_solver).
  assert (0 ≤ span ts l) by (apply span_nonneg; set_solver).
  assert (span ts (u :: l) = expires_of ts u + span ts l) as -> by done.
  intros [[= -> ->]|Hin]%elem_of_cons; [lia|]. apply IH in Hin; [lia|set_solver].
Qed.

Lemma expires_insert ts t x : expires_of (<[t := x]> ts) t = expires x.
Proof. unfold expires_of. by rewrite lookup_insert_eq. Qed.
Lemma expires_insert_ne ts t u x : u ≠ t → expires_of (<[t := x]> ts) u = expires_of ts u.
Proof. intros. unfold expires_of. by rewrite lookup_insert_ne. Qed.

Lemma timer_at_run s t x : timers s !! t = Some x → timer_at t s = Ret (x, s).
Proof. intros E. unfold timer_at, deref. by rewrite E. Qed.

Lemma set_expires_run s t x e :
  timers s !! t = Some x → is_u32 e →
  set_expires t e s = Ret (tt, set_timers s (<[t := mkTimer e (t_proc x)]> (timers s)) (timer_list s)).
Proof.
  intros E He. unfold set_expires. step using (by apply timer_at_run). by rewrite u32_small.
Qed.

(** The timers still belong to the same processes. *)
Definition same_procs (ts ts' : gmap Z timer) : Prop := ∀ u, t_proc <$> ts' !! u = t_proc <$> ts !! u.

Lemma same_procs_insert ts t x e :
  ts !! t = Some x → same_procs ts (<[t := mkTimer e (t_proc x)]> ts).
Proof.
  intros E u. destruct (decide (u = t)) as [->|]; [by rewrite lookup_insert_eq, E|].
  by rewrite lookup_insert_ne.
Qed.

Lemma expires_lookup ts t x : ts !! t = Some x → expires_of ts t = expires x.
Proof. intros E. unfold expires_of. by rewrite E. Qed.

(** ** [add_timer] *)

(** What the walk of [add_timer] leaves: the timers [l1] in front of [t] run out no later, those
    behind it later, and every absolute time is kept. *)
Record placed (ts ts' : gmap Z timer) (acc : Z) (t e : Z) (l1 l2 : list Z) : Prop := {
  pl_deadlines : deadlines ts' acc (l1 ++ t :: l2) =
    deadlines ts acc l1 ++ (t, acc + e) :: deadlines ts (acc + span ts l1) l2;
  pl_before : ∀ u a, (u, a) ∈ deadlines ts acc l1 → a ≤ acc + e;
  pl_after : ∀ u a, (u, a) ∈ deadlines ts (acc + span ts l1) l2 → acc + e < a;
  pl_procs : same_procs ts ts';
  pl_frame : ∀ u, u ∉ t :: l1 ++ l2 → ts' !! u = ts !! u;
  pl_nonneg : ∀ u, u ∈ t :: l1 ++ l2 → 0 ≤ expires_of ts' u }.

Lemma placed_here ts acc t x l2 :
  ts !! t = Some x → t ∉ l2 → NoDup l2 → 0 ≤ expires x →
  (∀ n, n ∈ l2 → is_Some (ts !! n) ∧ 0 ≤ expires_of ts n) →
  (∀ n l', l2 = n :: l' → expires x < expires_of ts n) →
  ∃ ts', placed ts ts' acc t (expires x) [] l2 ∧
    ts' = match l2 with
          | n :: _ => match ts !! n with
                      | Some y => <[n := mkTimer (expires y - expires x) (t_proc y)]> ts
                      | None => ts
                      end
          | [] => ts
          end.
Proof.
  intros Ht Hn Hnd H0 Hal Hlt. destruct l2 as [|n l].
  - exists ts. split; [|done]. split; simpl; try done; rewrite ?(expires_lookup _ _ _ Ht); try done.
    + by intros ? ? ?%elem_of_nil.
    + by intros ? ? ?%elem_of_nil.
    + intros u ->%list_elem_of_singleton. by rewrite (expires_lookup _ _ _ Ht).
  - destruct (Hal n) as [[y Hy] _]; [set_solver|]. rewrite Hy. eexists. split; [|done].
    specialize (Hlt n l eq_refl). rewrite (expires_lookup _ _ _ Hy) in Hlt.
    apply NoDup_cons in Hnd as [Hnl Hnd]. assert (n ≠ t) by set_solver.
    assert (∀ u, u ∈ l → 0 ≤ expires_of ts u) as Hnn by (intros; apply Hal; set_solver).
    split; simpl.
    + rewrite expires_insert, expires_insert_ne by done. rewrite (expires_lookup _ _ _ Ht), (expires_lookup _ _ _ Hy). simpl.
      unfold span. simpl. f_equal. replace (acc + expires x + (expires y - expires x)) with (acc + 0 + expires y) by lia.
      f_equal. apply deadlines_ext. intros u Hu. apply expires_insert_ne. by intros ->.
    + by intros ? ? ?%elem_of_nil.
    + unfold span. simpl. rewrite (expires_lookup _ _ _ Hy). intros u a [[= -> ->]|Hin]%elem_of_cons; [lia|].
      apply deadlines_lower in Hin; [lia|done].
    + by apply same_procs_insert.
    + intros u Hu. rewrite lookup_insert_ne; [done|]. set_solver.
    + intros u Hu. destruct (decide (u = n)) as [->|]; [rewrite expires_insert; simpl; lia|].
      rewrite expires_insert_ne by done. apply elem_of_cons in Hu as [->|Hu]; [by rewrite (expires_lookup _ _ _ Ht)|].
      apply Hal. set_solver.
Qed.

Lemma placed_skip ts ts' acc t x n y l1 l2 :
  ts !! t = Some x → ts !! n = Some y → n ∉ t :: l1 ++ l2 → t ∉ n :: l1 ++ l2 →
  0 ≤ expires y ≤ expires x →
  placed (<[t := mkTimer (expires x - expires y) (t_proc x)]> ts) ts' (acc + expires y) t
    (expires x - expires y) l1 l2 →
  placed ts ts' acc t (expires x) (n :: l1) l2.
Proof.
  intros Ht Hy Hn Htn Hle [Hd Hb Ha Hp Hf H0].
  set (ts1 := <[t := _]> ts) in *.
  assert (∀ u, u ∈ l1 ++ l2 → expires_of ts1 u = expires_of ts u) as Hext.
  { intros u Hu. apply expires_insert_ne. set_solver. }
  assert (span ts1 l1 = span ts l1) as Hspan.
  { unfold span. f_equal. apply list_fmap_ext. intros i u Hu. apply Hext.
    apply list_elem_of_lookup_2 in Hu. set_solver. }
  assert (∀ acc, deadlines ts1 acc l1 = deadlines ts acc l1) as Hd1
    by (intros; apply deadlines_ext; set_solver).
  assert (∀ acc, deadlines ts1 acc l2 = deadlines ts acc l2) as Hd2
    by (intros; apply deadlines_ext; set_solver).
  assert (ts' !! n = Some y) as Hn'.
  { rewrite Hf by done. unfold ts1. rewrite lookup_insert_ne by set_solver. done. }
  assert (span ts (n :: l1) = expires y + span ts l1) as Hs
    by (unfold span; csimpl; simpl; by rewrite (expires_lookup _ _ _ Hy)).
  rewrite Hspan, Hd1, Hd2 in *. clear Hext.
  replace (acc + expires y + (expires x - expires y)) with (acc + expires x) in * by lia.
  split.
  - simpl. rewrite (expires_lookup _ _ _ Hn'), (expires_lookup _ _ _ Hy), Hd. f_equal. f_equal. f_equal.
    rewrite Hs. by rewrite Z.add_assoc.
  - simpl. rewrite (expires_lookup _ _ _ Hy). intros u a [[= -> ->]|Hin]%elem_of_cons; [lia|by eapply Hb].
  - rewrite Hs, Z.add_assoc. exact Ha.
  - intros u. rewrite Hp. by apply same_procs_insert.
  - intros u Hu. rewrite Hf by (clear -Hu; set_solver). unfold ts1. rewrite lookup_insert_ne; [done|]. set_solver.
  - intros u Hu. destruct (decide (u = n)) as [->|]; [rewrite (expires_lookup _ _ _ Hn'); lia|].
    apply H0. clear -Hu n0. set_solver.
Qed.

Lemma add_walk_run t todo : ∀ s x acc,
  timers s !! t = Some x → t ∉ todo → NoDup todo → is_u32 (expires x) →
  (∀ n, n ∈ todo → is_Some (timers s !! n) ∧ is_u32 (expires_of (timers s) n)) →
  ∃ l1 l2 ts', todo = l1 ++ l2 ∧
    add_walk t todo s = Ret (head l2, set_timers s ts' (timer_list s)) ∧
    placed (timers s) ts' acc t (expires x) l1 l2.
Proof.
  induction todo as [|n todo IH]; intros s x acc Ht Hn Hnd Hx Hal.
  - exists [], [], (timers s). split_and!; [done|by destruct s|].
    destruct (placed_here (timers s) acc t x []) as (ts' & Hpl & ->); try done; [lia|set_solver].
  - destruct (Hal n) as [[y Hy] Hyr]; [set_solver|]. rewrite (expires_lookup _ _ _ Hy) in Hyr.
    destruct (expires x <? expires y) eqn:Hlt; z_bool.
    + destruct (placed_here (timers s) acc t x (n :: todo)) as (ts' & Hpl & Hts); try done; [lia| | |].
      { intros u Hu. destruct (Hal u Hu). split; [done|lia]. }
      { intros ? ? [= <- <-]. by rewrite (expires_lookup _ _ _ Hy). }
      rewrite Hy in Hts. subst ts'. exists [], (n :: todo). eexists. split_and!; [done| |exact Hpl].
      cbn [add_walk]. step using (by apply timer_at_run). step using (by apply timer_at_run).
      rewrite (proj2 (Z.ltb_lt _ _) Hlt). step using (apply set_expires_run; [exact Hy|lia]). done.
    + set (s1 := set_timers s (<[t := mkTimer (expires x - expires y) (t_proc x)]> (timers s)) (timer_list s)).
      assert (n ≠ t) by set_solver. apply NoDup_cons in Hnd as [Hnt Hnd].
      destruct (IH s1 (mkTimer (expires x - expires y) (t_proc x)) (acc + expires y)) as (l1 & l2 & ts' & -> & Hrun & Hpl);
        [apply lookup_insert_eq|set_solver|done|simpl; lia| |].
      { intros u Hu. unfold s1. simpl. rewrite expires_insert_ne, lookup_insert_ne by set_solver.
        apply Hal. set_solver. }
      exists (n :: l1), l2, ts'. split_and!; [done| |].
      * cbn [add_walk]. step using (by apply timer_at_run). step using (by apply timer_at_run).
        rewrite (proj2 (Z.ltb_ge _ _) Hlt). step using (apply set_expires_run; [exact Ht|lia]). exact Hrun.
      * eapply placed_skip; [exact Ht|exact Hy|set_solver|set_solver|lia|exact Hpl].
Qed.

Lemma span_bound ts l B :
  0 < B → (∀ u a, (u, a) ∈ deadlines ts 0 l → a < B) → span ts l < B.
Proof.
  intros HB H. destruct l as [|u l _] using rev_ind; [done|]. specialize (H u (span ts (l ++ [u]))).
  apply H. rewrite deadlines_app, elem_of_app. right. simpl. apply list_elem_of_singleton.
  f_equal. unfold span. rewrite fmap_app, Zsum_app. simpl. lia.
Qed.

Lemma seq_add_before_head (t : Z) l1 l2 :
  NoDup (l1 ++ l2) → seq_add_before (head l2) t (l1 ++ l2) = l1 ++ t :: l2.
Proof.
  destruct l2 as [|n l2]; simpl; [by rewrite app_nil_r|]. intros Hnd. apply NoDup_app in Hnd as (_ & Hd & _).
  apply seq_insert_before_split. intros Hn. apply (Hd n Hn). set_solver.
Qed.

(** [add_timer] puts a timer at the place its time gives it, behind those that run out at the
    same time or earlier and in front of all later ones, and changes no other timer's time. *)
Theorem add_timer_correct s t x :
  timers_wf (timers s) (timer_list s) → timers s !! t = Some x → 0 < expires x < 2 ^ 32 →
  t ∉ timer_list s →
  ∃ s', add_timer t s = Ret (tt, s') ∧ timers_wf (timers s') (timer_list s') ∧
    deadlines (timers s') 0 (timer_list s') =
      filter (λ d, d.2 ≤ expires x) (deadlines (timers s) 0 (timer_list s)) ++
      (t, expires x) :: filter (λ d, expires x < d.2) (deadlines (timers s) 0 (timer_list s)) ∧
    same_procs (timers s) (timers s') ∧ procs s' = procs s.
Proof.
  intros [Hnd Hal Hnn Hsp] Ht Hx Htl.
  assert (∀ u, u ∈ timer_list s → expires_of (timers s) u < 2 ^ 32) as Hub.
  { intros u Hu. apply list_elem_of_split in Hu as (k1 & k2 & Hl). rewrite Hl in Hnn, Hsp.
    assert (0 ≤ span (timers s) k1) by (apply span_nonneg; intros v Hv; apply Hnn; set_solver).
    assert (0 ≤ span (timers s) k2) by (apply span_nonneg; intros v Hv; apply Hnn; set_solver).
    unfold span in *. rewrite fmap_app, Zsum_app, fmap_cons in Hsp. simpl in Hsp. lia. }
  destruct (add_walk_run t (timer_list s) s x 0 Ht Htl Hnd) as (l1 & l2 & ts' & Hl & Hrun & [Hd Hb Ha Hp Hf H0]);
    [lia|intros n Hn; split; [by apply Hal|split; [by apply Hnn|by apply Hub]]|].
  exists (set_timers s ts' (l1 ++ t :: l2)). rewrite Hl in *. rewrite deadlines_app. split_and!.
  - unfold add_timer. step using (by apply timer_at_run).
    step using (unfold assert; rewrite (proj2 (Z.ltb_lt _ _)) by lia; reflexivity).
    step using reflexivity. step using (unfold assert; rewrite bool_decide_true by (by rewrite Hl); reflexivity).
    step using (rewrite Hl; exact Hrun). unfold modify, set_timers. simpl. by rewrite seq_add_before_head.
  - split; simpl.
    + rewrite Permutation_app_comm. simpl. rewrite Permutation_app_comm in Hnd. apply NoDup_cons. split; [set_solver|done].
    + intros u Hu. specialize (Hp u). destruct (ts' !! u); [eauto|]. destruct (timers s !! u) eqn:E; [done|].
      destruct (decide (u = t)) as [->|]; [congruence|]. destruct (Hal u); [set_solver|congruence].
    + intros u Hu. apply H0. set_solver.
    + apply span_bound; [lia|]. rewrite Hd. intros u a [Hin|[[= -> ->]|Hin]%elem_of_cons]%elem_of_app.
      * apply Hb in Hin. lia.
      * lia.
      * assert ((u, a) ∈ deadlines (timers s) 0 (l1 ++ l2)) as Hin2 by (rewrite deadlines_app; set_solver).
        apply deadlines_lower in Hin2; [lia|done].
  - simpl. rewrite Hd, !filter_app. rewrite (filter_all _ (deadlines (timers s) 0 l1)).
    2:{ apply Forall_forall. intros [u a] Hu. simpl. apply Hb in Hu. lia. }
    rewrite (filter_none _ (deadlines (timers s) (0 + span (timers s) l1) l2)).
    2:{ apply Forall_forall. intros [u a] Hu. simpl. apply Ha in Hu. lia. }
    rewrite (filter_none _ (deadlines (timers s) 0 l1)).
    2:{ apply Forall_forall. intros [u a] Hu. simpl. apply Hb in Hu. lia. }
    rewrite (filter_all _ (deadlines (timers s) (0 + span (timers s) l1) l2)).
    2:{ apply Forall_forall. intros [u a] Hu. simpl. apply Ha in Hu. lia. }
    by rewrite app_nil_r.
  - done.
  - done.
Qed.

(** ** [run_timer_list] *)

Definition proc_of (ts : gmap Z timer) (t : Z) : Z :=
  match ts !! t with Some x => t_proc x | None => 0 end.

(** A process [run_timer_list] may wake: it lives, and it does not wait without being interruptible. *)
Definition wakeable (s : sched) (p : Z) : Prop :=
  ∃ pr, procs s !! p = Some pr ∧ state pr ≠ PROC_ZOMBIE ∧
    (wait_state pr = 0 ∨ interruptible (wait_state pr) = true).

Lemma deadlines_shift ts acc d l :
  deadlines ts (acc - d) l = (λ x, (x.1, x.2 - d)) <$> deadlines ts acc l.
Proof.
  revert acc. induction l as [|t l IH]; intros acc; [done|]. cbn [deadlines]. rewrite fmap_cons, <-IH. simpl.
  f_equal; [f_equal; lia|]. f_equal. lia.
Qed.

Section run.
Context (c : sched_class) `{L : !sched_laws c}.

Lemma sched_ok_frame s s' :
  sched_ok c s → cinv s' → frame s s' → queued s' = queued s → sched_ok c s'.
Proof.
  intros [Hc Hi Hcur Hq] Hc' Hf Heq. pose proof (fr_view _ _ Hf) as Hv.
  split; rewrite ?(fr_idle _ _ Hf), ?(fr_current _ _ Hf); [done| |by eapply frame_alive|].
  - by apply (runnable_view s).
  - intros p. by rewrite Heq, Hq, (runnable_view s s' p Hv).
Qed.

Lemma sched_ok_timers s m l : sched_ok c s → sched_ok c (set_timers s m l).
Proof.
  intros [Hc Hi Hcur Hq]. destruct (timers_law s m l Hc) as [Hc' Hq']. split; [done|done|done|].
  intros p. rewrite Hq', Hq. done.
Qed.

Lemma tick_run s :
  sched_ok c s →
  ∃ s', sched_class_proc_tick c (current s) s = Ret (tt, s') ∧ sched_ok c s' ∧ frame s s'.
Proof.
  intros Hok. unfold sched_class_proc_tick. destruct (so_current _ _ Hok) as [pr Hp].
  destruct (decide (current s = idleproc s)) as [Hi|Hi].
  - set (f := λ q, set_need_resched q true).
    destruct (upd_law s (current s) pr f (so_cinv _ _ Hok) Hp eq_refl) as [Hc' Hq'].
    assert (frame s (set_procs s (<[current s := f pr]> (procs s)))) as Hf by by apply frame_proc.
    eexists. split_and!; [|by eapply sched_ok_frame|exact Hf].
    step using reflexivity. rewrite decide_True by done. by apply proc_upd_run.
  - destruct (tick_law s (current s) (so_cinv _ _ Hok)) as (s' & Hrun & Hc' & Hf & Hq'); [eauto|].
    exists s'. split_and!; [|by eapply sched_ok_frame|done].
    step using reflexivity. by rewrite decide_False.
Qed.

Lemma wake_run s p :
  sched_ok c s → wakeable s p →
  ∃ s', (pr ← proc_at p; when (negb (wait_state pr =? 0)) (assert (interruptible (wait_state pr))) ;;
         wakeup_proc c p) s = Ret (tt, s') ∧ sched_ok c s' ∧ runnable s' p ∧ current s' = current s ∧
    timers s' = timers s ∧ timer_list s' = timer_list s ∧ idleproc s' = idleproc s ∧
    (∀ q, q ≠ p → view <$> procs s' !! q = view <$> procs s !! q) ∧
    (∀ q, wakeable s q → wakeable s' q) ∧ (∀ q, runnable s q → runnable s' q).
Proof.
  intros Hok (pr & Hp & Hz & Hw).
  destruct (wakeup_run c s p pr Hok Hp Hz) as (s' & Hrun & Hok' & Hr & Hcur & Hid & Ht & Htl & Hv & Hsame & Hwait & _).
  exists s'. split_and!; try done.
  - assert (when (negb (wait_state pr =? 0)) (assert (interruptible (wait_state pr))) s = Ret (tt, s)) as Ha.
    { unfold when, assert. destruct (wait_state pr =? 0) eqn:E; [done|]. z_bool. simpl.
      by destruct Hw as [?| ->]. }
    step using (by apply proc_at_run). by step using (exact Ha).
  - intros q Hq. destruct (decide (q = p)) as [->|Hqp].
    + destruct (decide (state pr = PROC_RUNNABLE)) as [Hst|Hst]; [by rewrite Hsame|].
      destruct Hr as (pr' & Hp' & Hr'). destruct (Hwait Hst) as (pr2 & Hp2 & Hw2).
      rewrite Hp2 in Hp'. injection Hp' as <-. exists pr2. split_and!; [done|congruence|by left].
    + destruct Hq as (qr & Hqr & Hqz & Hqw). specialize (Hv q Hqp). rewrite Hqr in Hv.
      destruct (procs s' !! q) as [qr'|] eqn:E; [|done]. injection Hv as Hs _ Hw' _ _ _ _ _.
      exists qr'. split_and!; [done|congruence|congruence].
  - intros q (qr & Hqr & Hst). destruct (decide (q = p)) as [->|Hqp]; [done|].
    specialize (Hv q Hqp). rewrite Hqr in Hv. unfold runnable. destruct (procs s' !! q) as [qr'|]; [|done].
    injection Hv as Hs _. exists qr'. split; congruence.
Qed.

(** The processes whose timers run out. *)
Definition due (ts : gmap Z timer) (l : list Z) (p : Z) : Prop :=
  ∃ t, (t, 0) ∈ deadlines ts 0 l ∧ proc_of ts t = p.

Lemma del_expired s t x l :
  timer_list s = t :: l → t ∉ l → timers s !! t = Some x → expires x = 0 →
  del_timer t s = Ret (tt, set_timers s (timers s) l).
Proof.
  intros Hl Ht Hx H0. unfold del_timer. step using reflexivity.
  rewrite decide_True by (rewrite Hl; set_solver). step using (by apply timer_at_run).
  rewrite H0. simpl. step using reflexivity. unfold modify. rewrite Hl.
  by assert (seq_del t (t :: l) = l) as -> by (apply (seq_del_split t [] l); set_solver).
Qed.

Lemma expire_loop_run todo : ∀ s,
  sched_ok c s → timer_list s = todo → NoDup todo →
  (∀ t, t ∈ todo → is_Some (timers s !! t)) → (∀ t, t ∈ todo → 0 ≤ expires_of (timers s) t) →
  (∀ p, due (timers s) todo p → wakeable s p) →
  ∃ s', expire_loop c todo s = Ret (tt, s') ∧ sched_ok c s' ∧ timers s' = timers s ∧
    current s' = current s ∧
    deadlines (timers s) 0 (timer_list s') = filter (λ d, 0 < d.2) (deadlines (timers s) 0 todo) ∧
    (∀ p, due (timers s) todo p → runnable s' p) ∧ (∀ p, runnable s p → runnable s' p) ∧
    (∀ p, ¬ due (timers s) todo p → view <$> procs s' !! p = view <$> procs s !! p) ∧
    (∃ k, todo = k ++ timer_list s').
Proof.
  induction todo as [|t todo IH]; intros s Hok Hl Hnd Hal Hnn Hw.
  - exists s. rewrite Hl. split_and!; try done; [|by exists []].
    by intros p (t & ?%elem_of_nil & _).
  - destruct (Hal t) as [x Hx]; [set_solver|]. apply NoDup_cons in Hnd as [Htn Hnd].
    assert (0 ≤ expires x) as Hx0 by (rewrite <-(expires_lookup _ _ _ Hx); apply Hnn; set_solver).
    assert (∀ u, u ∈ todo → 0 ≤ expires_of (timers s) u) as Hnn' by set_solver.
    destruct (decide (expires x = 0)) as [He|He].
    + assert (deadlines (timers s) 0 (t :: todo) = (t, 0) :: deadlines (timers s) 0 todo) as Hd
        by (simpl; by rewrite (expires_lookup _ _ _ Hx), He).
      assert (proc_of (timers s) t = t_proc x) as Hpo by (unfold proc_of; by rewrite Hx).
      assert (∀ p, due (timers s) (t :: todo) p ↔ p = t_proc x ∨ due (timers s) todo p) as Hdue.
      { intros p. unfold due. rewrite Hd, <-Hpo. setoid_rewrite elem_of_cons. naive_solver. }
      destruct (wake_run s (t_proc x) Hok) as (s1 & Hrun & Hok1 & Hr1 & Hc1 & Hts1 & Htl1 & Hid1 & Hv1 & Hwk1 & Hm1).
      { apply Hw, Hdue. by left. }
      set (s2 := set_timers s1 (timers s1) todo).
      assert (∀ p, due (timers s) todo p → wakeable s2 p) as Hw2.
      { intros p Hp. apply (Hwk1 p), Hw, Hdue. by right. }
      destruct (IH s2) as (s' & Hrun' & Hok' & Hts' & Hc' & Hd' & Hr' & Hm' & Hv' & k & Hk); try (simpl; rewrite Hts1; done || set_solver).
      { by apply sched_ok_timers. } { done. } { done. }
      simpl in Hts', Hd', Hr', Hv'. rewrite Hts1 in *. exists s'. split_and!; [|done|done|by rewrite Hc'| | | | |].
      * cbn [expire_loop]. step using (by apply timer_at_run). rewrite (proj2 (Z.eqb_eq _ _) He).
        apply M_bind_Ret in Hrun as (pr & t1 & Hpa & Hrun). step using (exact Hpa).
        apply M_bind_Ret in Hrun as ([] & t2 & Hw' & Hrun). step using (exact Hw'). step using (exact Hrun).
        step using (eapply (del_expired s1 t x todo); [congruence|done|congruence|done]). exact Hrun'.
      * rewrite Hd, filter_cons_False by (simpl; lia). done.
      * intros p. rewrite Hdue. intros [->|Hp]; [|by apply Hr'].
        by apply Hm'.
      * intros p Hp. by apply Hm', Hm1.
      * intros p. rewrite Hdue. intros Hp. rewrite Hv' by tauto. apply Hv1. tauto.
      * exists (t :: k). simpl. by rewrite <-Hk.
    + assert (∀ u a, (u, a) ∈ deadlines (timers s) 0 (t :: todo) → 0 < a) as Hpos.
      { simpl. rewrite (expires_lookup _ _ _ Hx). intros u a [[= -> ->]|Hin]%elem_of_cons; [lia|].
        apply deadlines_lower in Hin; [lia|done]. }
      exists s. split_and!; try done.
      * cbn [expire_loop]. step using (by apply timer_at_run). by rewrite (proj2 (Z.eqb_neq _ _) He).
      * rewrite Hl, filter_all; [done|]. apply Forall_forall. intros [u a] Hu. simpl. by eapply Hpos.
      * intros p (u & Hu & _). apply Hpos in Hu. lia.
      * exists []. by rewrite Hl.
Qed.

(** The clock takes one tick off the first timer, and with it off every deadline. *)
Lemma tick_deadlines ts t l x :
  ts !! t = Some x → t ∉ l →
  deadlines (<[t := mkTimer (expires x - 1) (t_proc x)]> ts) 0 (t :: l) =
    (λ d, (d.1, d.2 - 1)) <$> deadlines ts 0 (t :: l).
Proof.
  intros Hx Ht. rewrite <-deadlines_shift. cbn [deadlines].
  rewrite expires_insert, (expires_lookup _ _ _ Hx). cbn [expires].
  replace (0 - 1 + expires x) with (0 + (expires x - 1)) by lia. f_equal. apply deadlines_ext.
  intros u Hu. apply expires_insert_ne. by intros ->.
Qed.

Lemma filter_shift (D : list (Z * Z)) :
  filter (λ d, 0 < d.2) ((λ d, (d.1, d.2 - 1)) <$> D) =
    (λ d : Z * Z, (d.1, d.2 - 1)) <$> filter (λ d, 1 < d.2) D.
Proof.
  induction D as [|[u a] D IH]; [done|]. rewrite fmap_cons. destruct (decide (1 < a)).
  - rewrite !filter_cons_True by (simpl; lia). rewrite fmap_cons. by rewrite IH.
  - by rewrite !filter_cons_False by (simpl; lia).
Qed.

Lemma shift_one (D : list (Z * Z)) t :
  (t, 0) ∈ (λ d : Z * Z, (d.1, d.2 - 1)) <$> D ↔ (t, 1) ∈ D.
Proof.
  rewrite list_elem_of_fmap. split.
  - intros ([u a] & [= -> Ha] & Hin). simpl in *. by replace 1 with a by lia.
  - intros Hin. by exists (t, 1).
Qed.

(** The part of [run_timer_list] that works on the timer list. *)
Lemma expire_run s t l x :
  sched_ok c s → timers_wf (timers s) (timer_list s) → timer_list s = t :: l →
  timers s !! t = Some x → 0 < expires x →
  (∀ u, (u, 1) ∈ deadlines (timers s) 0 (timer_list s) → wakeable s (proc_of (timers s) u)) →
  ∃ s', (set_expires t (expires x - 1) ;; expire_loop c (t :: l)) s = Ret (tt, s') ∧ sched_ok c s' ∧
    timers_wf (timers s') (timer_list s') ∧ current s' = current s ∧
    deadlines (timers s') 0 (timer_list s') =
      (λ d, (d.1, d.2 - 1)) <$> filter (λ d, 1 < d.2) (deadlines (timers s) 0 (timer_list s)) ∧
    (∀ u, (u, 1) ∈ deadlines (timers s) 0 (timer_list s) → runnable s' (proc_of (timers s) u)) ∧
    (∀ p, (∀ u, (u, 1) ∈ deadlines (timers s) 0 (timer_list s) → proc_of (timers s) u ≠ p) →
       view <$> procs s' !! p = view <$> procs s !! p).
Proof.
  intros Hok [Hnd Hal Hnn Hsp] Hl Hx Hpos Hw. rewrite Hl in *.
  set (ts1 := <[t := mkTimer (expires x - 1) (t_proc x)]> (timers s)).
  set (s1 := set_timers s ts1 (timer_list s)).
  pose proof (proj1 (proj1 (NoDup_cons _ _) Hnd)) as Htn.
  pose proof (tick_deadlines (timers s) t l x Hx Htn) as Hd. fold ts1 in Hd.
  assert (∀ u, proc_of ts1 u = proc_of (timers s) u) as Hpo.
  { intros u. unfold proc_of, ts1. destruct (decide (u = t)) as [->|]; [by rewrite lookup_insert_eq, Hx|].
    by rewrite lookup_insert_ne. }
  assert (∀ p, due ts1 (t :: l) p ↔ ∃ u, (u, 1) ∈ deadlines (timers s) 0 (t :: l) ∧ proc_of (timers s) u = p) as Hdue.
  { intros p. unfold due. rewrite Hd. setoid_rewrite shift_one. by setoid_rewrite Hpo. }
  assert (∀ u, u ∈ t :: l → is_Some (ts1 !! u)) as Hal1.
  { intros u Hu. unfold ts1. destruct (decide (u = t)) as [->|]; [rewrite lookup_insert_eq; eauto|].
    rewrite lookup_insert_ne by done. auto. }
  assert (∀ u, u ∈ t :: l → 0 ≤ expires_of ts1 u) as Hnn1.
  { intros u Hu. unfold ts1. destruct (decide (u = t)) as [->|]; [rewrite expires_insert; simpl; lia|].
    rewrite expires_insert_ne by done. auto. }
  destruct (expire_loop_run (t :: l) s1) as (s' & Hrun & Hok' & Hts & Hc & Hd' & Hr & _ & Hv & k & Hk);
    [by apply sched_ok_timers|done|done|done|done|intros p Hp; apply Hdue in Hp as (u & Hu & <-); by apply Hw|].
  change (timers s1) with ts1 in Hts, Hd', Hr, Hv. change (procs s1) with (procs s) in Hv.
  assert (expires x < 2 ^ 32) as Hx32.
  { assert (span (timers s) (t :: l) = expires x + span (timers s) l) as Hs
      by (unfold span; csimpl; simpl; by rewrite (expires_lookup _ _ _ Hx)).
    assert (0 ≤ span (timers s) l) by (apply span_nonneg; set_solver). lia. }
  exists s'. rewrite Hts. split_and!; try done.
  - step using (apply set_expires_run; [exact Hx|lia]). fold ts1. fold s1. exact Hrun.
  - split.
    + rewrite Hk in Hnd. by apply NoDup_app in Hnd as (_ & _ & ?).
    + intros u Hu. apply Hal1. rewrite Hk. set_solver.
    + intros u Hu. apply Hnn1. rewrite Hk. set_solver.
    + apply span_bound; [lia|]. intros u a. rewrite Hd'. intros [_ Hin]%list_elem_of_filter.
      rewrite Hd in Hin. apply list_elem_of_fmap in Hin as ([v b] & [= -> ->] & Hin). simpl.
      apply deadlines_lower in Hin; [lia|done].
  - rewrite Hd', Hd. apply filter_shift.
  - intros u Hu. apply Hr, Hdue. eauto.
  - intros p Hp. apply Hv. rewrite Hdue. intros (u & Hu & Hup). by apply (Hp u).
Qed.

(** A clock tick moves every deadline one tick nearer, wakes exactly the processes whose timers
    run out and takes those timers off the list; no process is lost from the run queue and none is
    disturbed that has no timer running out. *)
Theorem run_timer_list_correct s :
  sched_ok c s → timers_wf (timers s) (timer_list s) →
  (∀ t a, (t, a) ∈ deadlines (timers s) 0 (timer_list s) → 0 < a) →
  (∀ t, (t, 1) ∈ deadlines (timers s) 0 (timer_list s) → wakeable s (proc_of (timers s) t)) →
  ∃ s', run_timer_list c s = Ret (tt, s') ∧ sched_ok c s' ∧ timers_wf (timers s') (timer_list s') ∧
    current s' = current s ∧
    deadlines (timers s') 0 (timer_list s') =
      (λ d, (d.1, d.2 - 1)) <$> filter (λ d, 1 < d.2) (deadlines (timers s) 0 (timer_list s)) ∧
    (∀ t, (t, 1) ∈ deadlines (timers s) 0 (timer_list s) → runnable s' (proc_of (timers s) t)) ∧
    (∀ p, (∀ t, (t, 1) ∈ deadlines (timers s) 0 (timer_list s) → proc_of (timers s) t ≠ p) →
       view <$> procs s' !! p = view <$> procs s !! p).
Proof.
  intros Hok Hwf Hpos Hw. unfold run_timer_list.
  destruct (timer_list s) as [|t l] eqn:Hl.
  { destruct (tick_run s Hok) as (s' & Hrun & Hok' & Hf). exists s'.
    rewrite (fr_timers _ _ Hf), (fr_timer_list _ _ Hf), Hl. split_and!; try done.
    - step using reflexivity. rewrite Hl. step using reflexivity. by step using reflexivity.
    - by rewrite (fr_current _ _ Hf).
    - by intros t ?%elem_of_nil.
    - intros p _. apply (fr_view _ _ Hf). }
  destruct (tw_alive _ _ Hwf t) as [x Hx]; [set_solver|].
  assert (0 < expires x) as Hx0.
  { apply (Hpos t). simpl. rewrite (expires_lookup _ _ _ Hx). set_solver. }
  rewrite <-Hl in Hwf, Hw.
  destruct (expire_run s t l x Hok Hwf Hl Hx Hx0 Hw) as (s1 & Hrun & Hok1 & Hwf1 & Hc1 & Hd1 & Hr1 & Hv1).
  destruct (tick_run s1 Hok1) as (s' & Hrun' & Hok' & Hf). exists s'.
  rewrite (fr_timers _ _ Hf), (fr_timer_list _ _ Hf), (fr_current _ _ Hf). rewrite Hl in *. split_and!; try done.
  - step using reflexivity. rewrite Hl. apply M_bind_Ret in Hrun as ([] & s2 & Hse & Hrun).
    erewrite M_bind_step.
    2:{ step using (by apply timer_at_run).
        step using (unfold assert; rewrite (proj2 (Z.eqb_neq _ _)) by lia; reflexivity).
        step using (exact Hse). exact Hrun. }
    by step using reflexivity.
  - intros u Hu. apply (runnable_view s1 s' _ (fr_view _ _ Hf)). by apply Hr1.
  - intros p Hp. rewrite (fr_view _ _ Hf). by apply Hv1.
Qed.

End run.

(** * A concrete timer list *)

(** Process 3 sleeps on timer 10 for one more tick; timers 11 and 12 are not yet added. *)
Definition demo_timers : sched :=
  set_timers demo_sched (<[10 := mkTimer 1 3]> (<[11 := mkTimer 5 3]> (<[12 := mkTimer 1 3]> ∅))) [10].

Lemma demo_timers_wf : timers_wf (timers demo_timers) (timer_list demo_timers).
Proof.
  split; try (intros t ->%list_elem_of_singleton); try by vm_compute.
  - apply NoDup_singleton.
  - by eexists.
Qed.

Lemma add_timer_correct_witness :
  ∃ s', add_timer 11 demo_timers = Ret (tt, s') ∧
    deadlines (timers s') 0 (timer_list s') = [(10, 1); (11, 5)].
Proof.
  destruct (add_timer_correct demo_timers 11 (mkTimer 5 3) demo_timers_wf) as (s' & Hrun & _ & Hd & _).
  - by vm_compute.
  - by simpl.
  - change (11 ∉ [10]). set_solver.
  - exists s'. split; [exact Hrun|]. rewrite Hd. by vm_compute.
Defined.

Lemma run_timer_list_correct_witness :
  ∃ s', run_timer_list rr_sched_class demo_timers = Ret (tt, s') ∧ timer_list s' = [] ∧ runnable s' 3.
Proof.
  destruct (run_timer_list_correct rr_sched_class demo_timers) as (s' & Hrun & _ & _ & _ & Hd & Hr & _).
  - apply sched_ok_timers, demo_sched_ok.
  - apply demo_timers_wf.
  - intros t a. change (deadlines (timers demo_timers) 0 (timer_list demo_timers)) with [(10, 1)].
    intros [= -> ->]%list_elem_of_singleton. lia.
  - intros t. change (deadlines (timers demo_timers) 0 (timer_list demo_timers)) with [(10, 1)].
    intros [= ->]%list_elem_of_singleton. eexists. split; [by vm_compute|]. split; [done|by right].
  - exists s'. split; [exact Hrun|]. split.
    + pose proof (deadlines_fst (timers s') 0 (timer_list s')) as Hf. rewrite Hd in Hf. by rewrite <-Hf.
    + apply (Hr 10). change (deadlines (timers demo_timers) 0 (timer_list demo_timers)) with [(10, 1)].
      set_solver.
Defined.

End Timers.
