(* ===== verification/Sync.v ===== *)
(** Wait queues and semaphores: kern/sync/wait.c and kern/sync/sem.c on top of the scheduler.

    A [wait_t] and a [wait_queue_t] are keys of maps in [sync]; a [semaphore_t] has the key of the
    wait queue inside it.  [__down] gives up the processor in the middle: [down_begin] is the code up
    to and including the call of [schedule], [down_end] what the process does when it runs again.
    [sys] adds which processes are between the two, so that [perform] can interleave the operations of
    all processes in any order in which the scheduler runs them. *)
From S2P Require Import Prelude Dll ProcData Sched.

Module Sync.
Import Dll ProcData Sched.
Set Default Proof Using "Type".

(** [wait_t]. *)
Record wait := mkWait { w_proc : Z; wakeup_flags : Z; wait_queue : Z }.

Record sync := mkSync {
  sc : sched;
  waits : gmap Z wait;
  queues : gmap Z (list Z);
  sems : gmap Z Z }.

Definition set_sc (s : sync) (x : sched) : sync := mkSync x (waits s) (queues s) (sems s).
Definition set_waits (s : sync) (x : gmap Z wait) : sync := mkSync (sc s) x (queues s) (sems s).
Definition set_queues (s : sync) (x : gmap Z (list Z)) : sync := mkSync (sc s) (waits s) x (sems s).
Definition set_sems (s : sync) (x : gmap Z Z) : sync := mkSync (sc s) (waits s) (queues s) x.

Definition sc_do {A} (m : M sched A) : M sync A := λ s,
  match m (sc s) with
  | Ret (a, x) => Ret (a, set_sc s x)
  | Err e => Err e
  end.

Definition wait_at (w : Z) : M sync wait := deref (λ s, waits s !! w).
Definition queue_at (q : Z) : M sync (list Z) := deref (λ s, queues s !! q).
Definition sem_at (m : Z) : M sync Z := deref (λ s, sems s !! m).
Definition upd_queue (q : Z) (f : list Z → list Z) : M sync unit :=
  l ← queue_at q; modify (λ s, set_queues s (<[q := f l]> (queues s))).
Definition set_value (m v : Z) : M sync unit := modify (λ s, set_sems s (<[m := s32 v]> (sems s))).

(** * wait.c *)

(** [!list_empty(&(wait->wait_link))]: the wait is on some queue. *)
Definition linked (s : sync) (w : Z) : bool :=
  existsb (λ ql : Z * list Z, bool_decide (w ∈ ql.2)) (map_to_list (queues s)).

Definition wait_init (w proc : Z) : M sync unit :=
  modify (λ s, set_waits s (<[w := mkWait proc WT_INTERRUPTED 0]> (waits s))).

Definition wait_queue_init (q : Z) : M sync unit := modify (λ s, set_queues s (<[q := []]> (queues s))).

Definition wait_in_queue (w : Z) : M sync bool := gets (λ s, linked s w).

Definition wait_queue_add (q w : Z) : M sync unit :=
  b ← wait_in_queue w;
  assert (negb b) ;;
  x ← wait_at w;
  modify (λ s, set_waits s (<[w := mkWait (w_proc x) (wakeup_flags x) q]> (waits s))) ;;
  upd_queue q (seq_add_before None w).

(** The assertion [wait_queue_del], [wait_queue_next] and [wait_queue_prev] start with. *)
Definition check_linked (q w : Z) : M sync unit :=
  b ← wait_in_queue w;
  x ← wait_at w;
  assert (b && (wait_queue x =? q)).

Definition wait_queue_del (q w : Z) : M sync unit :=
  check_linked q w ;; upd_queue q (seq_del w).

(** The entry behind [w] in [l]. *)
Fixpoint seq_next (w : Z) (l : list Z) : option Z :=
  match l with
  | [] => None
  | v :: l' => if decide (v = w) then head l' else seq_next w l'
  end.

Definition wait_queue_next (q w : Z) : M sync (option Z) :=
  check_linked q w ;; l ← queue_at q; mret (seq_next w l).
Definition wait_queue_prev (q w : Z) : M sync (option Z) :=
  check_linked q w ;; l ← queue_at q; mret (seq_next w (reverse l)).
Definition wait_queue_first (q : Z) : M sync (option Z) := l ← queue_at q; mret (head l).
Definition wait_queue_last (q : Z) : M sync (option Z) := l ← queue_at q; mret (last l).
Definition wait_queue_empty (q : Z) : M sync bool := l ← queue_at q; mret (bool_decide (l = [])).

Section class.
Context (c : sched_class).

Definition wakeup_wait (q w flags : Z) (del : bool) : M sync unit :=
  when del (wait_queue_del q w) ;;
  x ← wait_at w;
  modify (λ s, set_waits s (<[w := mkWait (w_proc x) flags (wait_queue x)]> (waits s))) ;;
  sc_do (wakeup_proc c (w_proc x)).

Definition wakeup_first (q flags : Z) (del : bool) : M sync unit :=
  w ← wait_queue_first q;
  match w with Some w => wakeup_wait q w flags del | None => mret tt end.

(** The two loops of [wakeup_queue]. *)
Fixpoint wake_del_loop (fuel : nat) (q flags : Z) : M sync unit :=
  match fuel with
  | O => fail EFuel
  | S n =>
      w ← wait_queue_first q;
      match w with
      | Some w => wakeup_wait q w flags true ;; wake_del_loop n q flags
      | None => mret tt
      end
  end.

Fixpoint wake_keep_loop (fuel : nat) (q w flags : Z) : M sync unit :=
  match fuel with
  | O => fail EFuel
  | S n =>
      wakeup_wait q w flags false ;;
      w' ← wait_queue_next q w;
      match w' with
      | Some w' => wake_keep_loop n q w' flags
      | None => mret tt
      end
  end.

Definition wakeup_queue (q flags : Z) (del : bool) : M sync unit :=
  l ← queue_at q;
  match head l with
  | None => mret tt
  | Some w => if del then wake_del_loop (S (length l)) q flags else wake_keep_loop (length l) q w flags
  end.

Definition wait_current_set (q w ws : Z) : M sync unit :=
  p ← sc_do (gets current);
  wait_init w p ;;
  sc_do (proc_upd p (λ x, set_wait_state (set_state x PROC_SLEEPING) ws)) ;;
  wait_queue_add q w.

Definition wait_current_del (q w : Z) : M sync unit :=
  b ← wait_in_queue w; when b (wait_queue_del q w).

(** * sem.c *)

Definition sem_init (m v : Z) : M sync unit := set_value m v ;; wait_queue_init m.

Definition __up (m ws : Z) : M sync unit :=
  w ← wait_queue_first m;
  match w with
  | None => v ← sem_at m; set_value m (v + 1)
  | Some w =>
      x ← wait_at w;
      pr ← sc_do (proc_at (w_proc x));
      assert (wait_state pr =? ws) ;;
      wakeup_wait m w ws true
  end.

Definition up (m : Z) : M sync unit := __up m WT_KSEM.

(** [__down] up to the call of [schedule]: [true] when it returns 0 without waiting. *)
Definition down_begin (m ws w : Z) : M sync bool :=
  v ← sem_at m;
  if 0 <? v then set_value m (v - 1) ;; mret true
  else wait_current_set m w ws ;; sc_do (schedule c) ;; mret false.

(** The rest of [__down], and the assertion of [down] on its result. *)
Definition down_end (m ws w : Z) : M sync unit :=
  wait_current_del m w ;;
  x ← wait_at w;
  let flags := if negb (wakeup_flags x =? ws) then wakeup_flags x else 0 in
  assert (flags =? 0).

Definition try_down (m : Z) : M sync bool :=
  v ← sem_at m;
  if 0 <? v then set_value m (v - 1) ;; mret true else mret false.

(** * Processes that use semaphores *)

(** [in_down] has the processes inside [down] past the call of [schedule], with the semaphore and the
    wait; [downs] and [ups] list the semaphores of the calls of [down] and [up] that are complete. *)
Record sys := mkSys { st : sync; in_down : gmap Z (Z * Z); downs : list Z; ups : list Z }.

Inductive op :=
| ODown (m w : Z)      (* the current process calls [down] *)
| OResume              (* it returns from the [schedule] inside [down] *)
| OUp (m : Z)
| OTry (m : Z)
| OYield.              (* it loses the processor *)

Definition perform (o : op) (y : sys) : res sys :=
  let p := current (sc (st y)) in
  match o with
  | ODown m w =>
      match down_begin m WT_KSEM w (st y) with
      | Ret (true, s) => Ret (mkSys s (in_down y) (m :: downs y) (ups y))
      | Ret (false, s) => Ret (mkSys s (<[p := (m, w)]> (in_down y)) (downs y) (ups y))
      | Err e => Err e
      end
  | OResume =>
      match in_down y !! p with
      | None => Ret y
      | Some (m, w) =>
          match down_end m WT_KSEM w (st y) with
          | Ret (_, s) => Ret (mkSys s (delete p (in_down y)) (m :: downs y) (ups y))
          | Err e => Err e
          end
      end
  | OUp m =>
      match up m (st y) with
      | Ret (_, s) => Ret (mkSys s (in_down y) (downs y) (m :: ups y))
      | Err e => Err e
      end
  | OTry m =>
      match try_down m (st y) with
      | Ret (b, s) => Ret (mkSys s (in_down y) (if b then m :: downs y else downs y) (ups y))
      | Err e => Err e
      end
  | OYield =>
      match sc_do (schedule c) (st y) with
      | Ret (_, s) => Ret (mkSys s (in_down y) (downs y) (ups y))
      | Err e => Err e
      end
  end.

End class.

(** * The invariant *)

Definition queue_of (s : sync) (m : Z) : list Z := default [] (queues s !! m).
Definition count (m : Z) (l : list Z) : Z := Z.of_nat (length (filter (λ x, x = m) l)).

(** The processes to which [m] has been handed over but that have not run since. *)
Definition granted (s : sync) (d : gmap Z (Z * Z)) (m : Z) : Z :=
  Z.of_nat (length (filter (λ x : Z * (Z * Z), x.2.1 = m ∧ x.2.2 ∉ queue_of s m) (map_to_list d))).

(** What holds of a process [p] that is inside [down] on [m] with the wait [w]: it sleeps on the queue,
    or it has been handed the semaphore and is runnable. *)
Definition waiting (s : sync) (p m w : Z) : Prop :=
  ∃ fl pr, waits s !! w = Some (mkWait p fl m) ∧ procs (sc s) !! p = Some pr ∧ is_Some (sems s !! m) ∧
    p ≠ idleproc (sc s) ∧
    ((w ∈ queue_of s m ∧ state pr = PROC_SLEEPING ∧ wait_state pr = WT_KSEM) ∨
     (w ∉ queue_of s m ∧ fl = WT_KSEM ∧ state pr = PROC_RUNNABLE)).

#[local] Arguments count : simpl never.
#[local] Arguments granted : simpl never.
#[local] Arguments queue_of : simpl never.

Lemma linked_spec s w : linked s w = true ↔ ∃ m, w ∈ queue_of s m.
Proof.
  unfold linked. rewrite existsb_exists. split.
  - intros ([m l] & Hin & Hw). apply list_elem_of_In, elem_of_map_to_list in Hin. simpl in Hw.
    apply bool_decide_eq_true in Hw. exists m. unfold queue_of. by rewrite Hin.
  - intros (m & Hw). unfold queue_of in Hw. destruct (queues s !! m) as [l|] eqn:E; [|by apply elem_of_nil in Hw].
    exists (m, l). rewrite <-list_elem_of_In, elem_of_map_to_list. split; [done|]. by apply bool_decide_eq_true.
Qed.

Lemma queue_of_insert s m l m' :
  queue_of (set_queues s (<[m := l]> (queues s))) m' = if decide (m' = m) then l else queue_of s m'.
Proof.
  unfold queue_of, set_queues. cbn [queues]. destruct (decide (m' = m)) as [->|]; [by rewrite lookup_insert_eq|].
  by rewrite lookup_insert_ne.
Qed.

Lemma granted_split s d m p v :
  d !! p = Some v →
  granted s d m = (if decide (v.1 = m ∧ v.2 ∉ queue_of s m) then 1 else 0) + granted s (delete p d) m.
Proof.
  intros Hp. unfold granted. rewrite <-(map_to_list_delete d p v Hp).
  destruct (decide (v.1 = m ∧ v.2 ∉ queue_of s m)).
  - rewrite filter_cons_True by done. simpl length. lia.
  - by rewrite filter_cons_False.
Qed.

Lemma granted_ext s s' d m :
  (∀ p w, d !! p = Some (m, w) → w ∈ queue_of s m ↔ w ∈ queue_of s' m) →
  granted s d m = granted s' d m.
Proof.
  intros H. unfold granted. f_equal. f_equal.
  assert (∀ x, x ∈ map_to_list d → (x.2.1 = m ∧ x.2.2 ∉ queue_of s m) ↔ (x.2.1 = m ∧ x.2.2 ∉ queue_of s' m)) as Hx.
  { intros [p [m' w]] Hx%elem_of_map_to_list. simpl. split; intros [-> ?]; (split; [done|]); by rewrite (H p w) || rewrite <-(H p w). }
  revert Hx. generalize (map_to_list d) as l. induction l as [|x l IH]; intros Hx; [done|].
  assert (filter (λ x : Z * (Z * Z), x.2.1 = m ∧ x.2.2 ∉ queue_of s m) l =
    filter (λ x : Z * (Z * Z), x.2.1 = m ∧ x.2.2 ∉ queue_of s' m) l) as IH' by (apply IH; set_solver).
  destruct (decide (x.2.1 = m ∧ x.2.2 ∉ queue_of s m)) as [Hd|Hd].
  - rewrite !filter_cons_True; [by rewrite IH'| |done]. apply Hx; [set_solver|done].
  - rewrite !filter_cons_False; [done| |done]. rewrite <-Hx by set_solver. done.
Qed.

Lemma count_cons m m' l : count m (m' :: l) = (if decide (m' = m) then 1 else 0) + count m l.
Proof.
  unfold count. destruct (decide (m' = m)); [rewrite filter_cons_True by done; simpl length; lia|].
  by rewrite filter_cons_False.
Qed.

(** Rescheduling does not disturb semaphores. *)
Lemma waiting_view s x p m w :
  same_view (procs (sc s)) (procs x) → idleproc x = idleproc (sc s) →
  waiting s p m w → waiting (set_sc s x) p m w.
Proof.
  intros Hv Hi (fl & pr & Hw & Hp & Hs & Hid & Hd). specialize (Hv p). rewrite Hp in Hv.
  unfold waiting. simpl. destruct (procs x !! p) as [pr'|]; [|done]. injection Hv as Hst _ Hws _.
  exists fl, pr'. split_and!; try done; [congruence|]. by rewrite Hst, Hws.
Qed.

Section inv.
Context (c : sched_class) `{L : !sched_laws c}.
(** The initial values of the semaphores. *)
Context (v0 : Z → Z).

Record inv0 (y : sys) : Prop := {
  i_sched : sched_ok c (sc (st y));
  i_sem : ∀ m v, sems (st y) !! m = Some v →
    0 ≤ v < 2 ^ 31 ∧ is_Some (queues (st y) !! m) ∧ (queue_of (st y) m ≠ [] → v = 0) ∧
    v + count m (downs y) + granted (st y) (in_down y) m = v0 m + count m (ups y);
  i_nodup : ∀ m, NoDup (queue_of (st y) m);
  i_queue : ∀ m w, w ∈ queue_of (st y) m → ∃ p, in_down y !! p = Some (m, w);
  i_down : ∀ p m w, in_down y !! p = Some (m, w) → waiting (st y) p m w }.

Definition inv (y : sys) : Prop := inv0 y ∧ runnable (sc (st y)) (current (sc (st y))).

Definition enabled (o : op) (y : sys) : Prop :=
  let p := current (sc (st y)) in
  match o with
  | ODown m w => in_down y !! p = None ∧ is_Some (sems (st y) !! m) ∧ p ≠ idleproc (sc (st y)) ∧
      ∀ p' m', in_down y !! p' ≠ Some (m', w)
  | OResume => is_Some (in_down y !! p)
  | OUp m => in_down y !! p = None ∧ ∃ v, sems (st y) !! m = Some v ∧ v + 1 < 2 ^ 31
  | OTry m => in_down y !! p = None ∧ is_Some (sems (st y) !! m)
  | OYield => True
  end.

Lemma schedule_inv y :
  inv0 y →
  ∃ x, sc_do (schedule c) (st y) = Ret (tt, set_sc (st y) x) ∧
    inv (mkSys (set_sc (st y) x) (in_down y) (downs y) (ups y)).
Proof.
  intros [Hs Hsem Hnd Hq Hd]. destruct (schedule_run c (sc (st y)) Hs) as (x & Hrun & Hok & Hcur & Hv & Hi & _).
  exists x. split; [unfold sc_do; by rewrite Hrun|]. split; [|done]. split; try done.
  intros p m w Hp. apply waiting_view; auto.
Qed.

(** Taking one from a semaphore that has some. *)
Lemma take_inv y m v :
  inv y → sems (st y) !! m = Some v → 0 < v →
  inv (mkSys (set_sems (st y) (<[m := s32 (v - 1)]> (sems (st y)))) (in_down y) (m :: downs y) (ups y)).
Proof.
  intros [[Hs Hsem Hnd Hq Hd] Hr] Hm Hv. destruct (Hsem m v Hm) as (Hrange & Hql & Hempty & Hcount).
  split; [|done]. split; try done.
  - simpl. intros m' v'. rewrite count_cons. destruct (decide (m' = m)) as [->|Hne].
    + rewrite lookup_insert_eq. intros [= <-]. rewrite s32_small by lia. rewrite decide_True by done. split_and!; [lia|lia|done| |].
      * intros Hq'. specialize (Hempty Hq'). lia.
      * unfold granted in *. change (queue_of (set_sems (st y) (<[m:=v - 1]> (sems (st y)))) m) with (queue_of (st y) m). lia.
    + rewrite lookup_insert_ne by done. intros Hv'. rewrite decide_False by done. by apply Hsem.
  - simpl. intros p m' w Hp. destruct (Hd p m' w Hp) as (fl & pr & H1 & H2 & H3 & H4). exists fl, pr.
    split_and!; try done; [|apply H4|apply H4]. simpl. destruct (decide (m' = m)) as [->|]; [rewrite lookup_insert_eq; eauto|].
    by rewrite lookup_insert_ne.
Qed.

Lemma set_value_run s m v : set_value m v s = Ret (tt, set_sems s (<[m := s32 v]> (sems s))).
Proof. done. Qed.
Lemma sem_at_run s m v : sems s !! m = Some v → sem_at m s = Ret (v, s).
Proof. intros E. unfold sem_at, deref. by rewrite E. Qed.
Lemma wait_at_run s w x : waits s !! w = Some x → wait_at w s = Ret (x, s).
Proof. intros E. unfold wait_at, deref. by rewrite E. Qed.
Lemma queue_at_run s m : is_Some (queues s !! m) → queue_at m s = Ret (queue_of s m, s).
Proof. intros [l E]. unfold queue_at, deref, queue_of. by rewrite E. Qed.

Lemma wait_queue_first_run s m :
  is_Some (queues s !! m) → wait_queue_first m s = Ret (head (queue_of s m), s).
Proof. intros H. unfold wait_queue_first. by step using (by apply queue_at_run). Qed.

(** A process that returns from the [schedule] inside [down] finds itself handed the semaphore. *)
Lemma resume_run y m w :
  inv y → in_down y !! current (sc (st y)) = Some (m, w) →
  down_end m WT_KSEM w (st y) = Ret (tt, st y) ∧ w ∉ queue_of (st y) m.
Proof.
  intros [[Hs Hsem Hnd Hq Hd] (pr' & Hp' & Hr)] Hp.
  destruct (Hd _ m w Hp) as (fl & pr & Hw & Hpr & _ & _ & Hcase). rewrite Hpr in Hp'. injection Hp' as <-.
  destruct Hcase as [(_ & Hsl & _)|(Hnq & -> & _)]; [congruence|]. split; [|done].
  assert (linked (st y) w = false) as Hl.
  { apply not_true_is_false. rewrite linked_spec. intros (m' & Hin). destruct (Hq m' w Hin) as (p' & Hp').
    destruct (Hd p' m' w Hp') as (fl' & _ & Hw' & _). congruence. }
  unfold down_end, wait_current_del. rewrite (M_bind_step _ _ (st y) tt (st y)).
  - step using (by apply wait_at_run). simpl. done.
  - unfold wait_in_queue. step using reflexivity. by rewrite Hl.
Qed.

Lemma resume_inv y m w :
  inv y → in_down y !! current (sc (st y)) = Some (m, w) →
  inv (mkSys (st y) (delete (current (sc (st y))) (in_down y)) (m :: downs y) (ups y)).
Proof.
  intros Hinv Hp. destruct (resume_run y m w Hinv Hp) as [_ Hnq]. destruct Hinv as [[Hs Hsem Hnd Hq Hd] Hr].
  split; [|done]. split; simpl; try done.
  - intros m' v Hm. destruct (Hsem m' v Hm) as (? & ? & ? & Hcount). split_and!; try done; try lia.
    rewrite (granted_split _ _ m' _ _ Hp) in Hcount. simpl in Hcount. rewrite count_cons.
    destruct (decide (m = m')) as [->|Hne].
    + rewrite decide_True in Hcount by done. lia.
    + rewrite decide_False in Hcount by tauto. lia.
  - intros m' w' Hin. destruct (Hq m' w' Hin) as (p' & Hp'). exists p'. rewrite lookup_delete_ne; [done|].
    intros <-. rewrite Hp in Hp'. injection Hp' as <- <-. done.
  - intros p' m' w' [_ Hp']%lookup_delete_Some. auto.
Qed.

(** [up] on a semaphore nobody waits for. *)
Lemma up_free_inv y m v :
  inv y → sems (st y) !! m = Some v → v + 1 < 2 ^ 31 → queue_of (st y) m = [] →
  up c m (st y) = Ret (tt, set_sems (st y) (<[m := v + 1]> (sems (st y)))) ∧
  inv (mkSys (set_sems (st y) (<[m := v + 1]> (sems (st y)))) (in_down y) (downs y) (m :: ups y)).
Proof.
  intros [[Hs Hsem Hnd Hq Hd] Hr] Hm Hv Hemp. destruct (Hsem m v Hm) as (Hrange & Hql & Hempty & Hcount). split.
  { unfold up, __up. step using (by apply wait_queue_first_run).
    rewrite Hemp. simpl. step using (by apply sem_at_run). rewrite set_value_run. by rewrite s32_small by lia. }
  split; [|done]. split; try done.
  - simpl. intros m' v'. rewrite count_cons. destruct (decide (m' = m)) as [->|Hne].
    + rewrite lookup_insert_eq. intros [= <-]. rewrite decide_True by done. split_and!; [lia|lia|done|done|].
      unfold granted in *. change (queue_of (set_sems (st y) (<[m:=v + 1]> (sems (st y)))) m) with (queue_of (st y) m). lia.
    + rewrite lookup_insert_ne by done. intros Hv'. rewrite decide_False by done. by apply Hsem.
  - simpl. intros p m' w Hp. destruct (Hd p m' w Hp) as (fl & pr & H1 & H2 & H3 & H4). exists fl, pr.
    split_and!; try done; [|apply H4|apply H4]. simpl. destruct (decide (m' = m)) as [->|]; [rewrite lookup_insert_eq; eauto|].
    by rewrite lookup_insert_ne.
Qed.

(** [up] on a semaphore with waiters hands it to the first one. *)
Lemma up_wake_run y m w l :
  inv y → is_Some (queues (st y) !! m) → queue_of (st y) m = w :: l →
  ∃ p pr x, in_down y !! p = Some (m, w) ∧ procs (sc (st y)) !! p = Some pr ∧ state pr = PROC_SLEEPING ∧
    wakeup_proc c p (sc (st y)) = Ret (tt, x) ∧
    up c m (st y) = Ret (tt, mkSync x (<[w := mkWait p WT_KSEM m]> (waits (st y)))
      (<[m := l]> (queues (st y))) (sems (st y))).
Proof.
  intros [[Hs Hsem Hnd Hq Hd] Hr] Hal Hl.
  destruct (Hq m w) as (p & Hp); [rewrite Hl; set_solver|].
  destruct (Hd p m w Hp) as (fl & pr & Hw & Hpr & _ & _ & Hcase).
  destruct Hcase as [(_ & Hst & Hws)|(Hn & _)]; [|rewrite Hl in Hn; set_solver].
  assert (state pr ≠ PROC_ZOMBIE) as Hz by congruence.
  destruct (wakeup_run c (sc (st y)) p pr Hs Hpr Hz) as (x & Hrun & _).
  exists p, pr, x. split_and!; try done.
  unfold up, __up. step using (by apply wait_queue_first_run). rewrite Hl. cbn [head].
  step using (by apply wait_at_run).
  assert (sc_do (proc_at p) (st y) = Ret (pr, st y)) as Hpa.
  { unfold sc_do. rewrite (proc_at_run _ _ _ Hpr). by destruct (st y). }
  step using (exact Hpa). rewrite Hws. step using reflexivity.
  assert (linked (st y) w = true) as Hlk by (apply linked_spec; exists m; rewrite Hl; set_solver).
  assert (wait_queue_del m w (st y) = Ret (tt, set_queues (st y) (<[m := l]> (queues (st y))))) as Hdel.
  { unfold wait_queue_del, check_linked. rewrite (M_bind_step _ _ (st y) tt (st y)).
    - unfold upd_queue. step using (by apply queue_at_run). rewrite Hl.
      assert (seq_del w (w :: l) = l) as ->; [|done]. apply (seq_del_split w [] l); [set_solver|].
      specialize (Hnd m). rewrite Hl in Hnd. by apply NoDup_cons in Hnd as [? _].
    - unfold wait_in_queue. step using reflexivity. step using (by apply wait_at_run). rewrite Hlk.
      unfold assert. simpl. by rewrite Z.eqb_refl. }
  unfold wakeup_wait. unfold when. step using (exact Hdel). step using (by apply wait_at_run).
  step using reflexivity. unfold sc_do. simpl. rewrite Hrun. done.
Qed.

Lemma up_wake_inv y m w l p pr x v :
  inv y → sems (st y) !! m = Some v → queue_of (st y) m = w :: l →
  in_down y !! p = Some (m, w) → procs (sc (st y)) !! p = Some pr → state pr = PROC_SLEEPING →
  wakeup_proc c p (sc (st y)) = Ret (tt, x) →
  inv (mkSys (mkSync x (<[w := mkWait p WT_KSEM m]> (waits (st y))) (<[m := l]> (queues (st y)))
         (sems (st y))) (in_down y) (downs y) (m :: ups y)).
Proof.
  intros [[Hs Hsem Hnd Hq Hd] Hr] Hm Hl Hp Hpr Hst Hrun.
  assert (state pr ≠ PROC_ZOMBIE) as Hz by congruence.
  destruct (wakeup_run c (sc (st y)) p pr Hs Hpr Hz) as (x' & Hrun' & Hok & Hrp & Hcur & Hid & _ & _ & Hv & _).
  rewrite Hrun in Hrun'. injection Hrun' as <-.
  set (s' := mkSync x _ _ _).
  assert (∀ m', queue_of s' m' = if decide (m' = m) then l else queue_of (st y) m') as Hqo
    by apply (queue_of_insert (st y) m l).
  pose proof (Hnd m) as Hndm. rewrite Hl in Hndm. apply NoDup_cons in Hndm as [Hwl Hndl].
  assert (∀ q m' w', in_down y !! q = Some (m', w') → q ≠ p → w' ≠ w ∧ (w' ∈ queue_of s' m' ↔ w' ∈ queue_of (st y) m')) as Hother.
  { intros q m' w' Hqd Hqp. assert (w' ≠ w) as Hne.
    { intros ->. destruct (Hd _ _ _ Hqd) as (? & ? & H1 & _), (Hd _ _ _ Hp) as (? & ? & H2 & _). congruence. }
    split; [done|]. rewrite Hqo. destruct (decide (m' = m)) as [->|]; [|done]. rewrite Hl, elem_of_cons. tauto. }
  split; [split|].
  - done.
  - simpl. intros m' v' Hm'. destruct (Hsem m' v' Hm') as (? & Hqal & Hemp & Hcount). split_and!; try lia.
    + destruct (decide (m' = m)) as [->|]; [rewrite lookup_insert_eq; eauto|]. by rewrite lookup_insert_ne.
    + rewrite Hqo. destruct (decide (m' = m)) as [->|]; [|done]. intros _. apply Hemp. by rewrite Hl.
    + rewrite (granted_split (st y) _ m' _ _ Hp) in Hcount. rewrite (granted_split s' _ m' _ _ Hp).
      simpl in Hcount |- *. rewrite count_cons, Hqo.
      rewrite (granted_ext s' (st y)).
      2:{ intros q w' [Hqp Hqd]%lookup_delete_Some. destruct (Hother q m' w' Hqd); [done|tauto]. }
      destruct (decide (m = m')) as [<-|Hne].
      * rewrite decide_False in Hcount by (rewrite Hl; set_solver). rewrite decide_True by (rewrite decide_True by done; done).
        lia.
      * rewrite decide_False in Hcount by tauto. rewrite decide_False by tauto. lia.
  - simpl. intros m'. rewrite Hqo. by destruct (decide (m' = m)).
  - simpl. intros m' w'. rewrite Hqo. intros Hin. destruct (decide (m' = m)) as [->|]; [|by apply Hq].
    apply Hq. rewrite Hl. set_solver.
  - simpl. intros q m' w' Hqd. destruct (decide (q = p)) as [->|Hqp].
    + rewrite Hp in Hqd. injection Hqd as <- <-. destruct Hrp as (pr' & Hpr' & Hst').
      destruct (Hd p m w Hp) as (_ & _ & _ & _ & Hsm & Hpi & _).
      exists WT_KSEM, pr'. simpl. rewrite lookup_insert_eq, Hid. split_and!; try done. right.
      rewrite Hqo, decide_True by done. done.
    + destruct (Hother q m' w' Hqd Hqp) as [Hww Hqq]. destruct (Hd q m' w' Hqd) as (fl & qr & H1 & H2 & H3 & H4 & H5).
      specialize (Hv q Hqp). rewrite H2 in Hv. destruct (procs x !! q) as [qr'|] eqn:E; [|done].
      injection Hv as Hs1 _ Hs2 _. exists fl, qr'. simpl. rewrite Hid, lookup_insert_ne by done.
      split_and!; try done. by rewrite Hs1, Hs2, Hqq.
  - simpl. rewrite Hcur. destruct (decide (current (sc (st y)) = p)) as [->|Hcp]; [done|].
    destruct Hr as (cr & Hc & Hcs). specialize (Hv _ Hcp). rewrite Hc in Hv. unfold runnable.
    destruct (procs x !! current (sc (st y))) as [cr'|]; [|done]. injection Hv as Hs1 _. exists cr'. split; congruence.
Qed.

Lemma block_run y m w :
  inv y → enabled (ODown m w) y → sems (st y) !! m = Some 0 →
  ∃ s, wait_current_set m w WT_KSEM (st y) = Ret (tt, s) ∧ current (sc s) = current (sc (st y)) ∧
    sems s = sems (st y) ∧ idleproc (sc s) = idleproc (sc (st y)) ∧
    inv0 (mkSys s (<[current (sc (st y)) := (m, w)]> (in_down y)) (downs y) (ups y)).
Proof.
  intros [[Hs Hsem Hnd Hq Hd] (pr & Hp & Hr)] (Hnin & _ & Hidle & Hfresh) Hm. simpl in *.
  set (p := current (sc (st y))) in *.
  destruct (Hsem m 0 Hm) as (_ & Hqal & _).
  assert (∀ m', w ∉ queue_of (st y) m') as Hnq.
  { intros m' Hin. destruct (Hq m' w Hin) as (p' & Hp'). by apply (Hfresh p' m'). }
  set (pr' := set_wait_state (set_state pr PROC_SLEEPING) WT_KSEM).
  set (x := set_procs (sc (st y)) (<[p := pr']> (procs (sc (st y))))).
  set (s := mkSync x (<[w := mkWait p WT_INTERRUPTED m]> (waits (st y)))
    (<[m := queue_of (st y) m ++ [w]]> (queues (st y))) (sems (st y))).
  assert (∀ m', queue_of s m' = if decide (m' = m) then queue_of (st y) m ++ [w] else queue_of (st y) m') as Hqo
    by apply (queue_of_insert (st y) m).
  exists s. split_and!; [|done|done|done|split].
  - unfold wait_current_set. step using reflexivity. step using reflexivity.
    set (s0 := set_sc (st y) (sc (st y))).
    assert (sc_do (proc_upd p (λ q, set_wait_state (set_state q PROC_SLEEPING) WT_KSEM))
      (set_waits s0 (<[w := mkWait p WT_INTERRUPTED 0]> (waits s0))) =
      Ret (tt, set_sc (set_waits s0 (<[w := mkWait p WT_INTERRUPTED 0]> (waits s0))) x)) as Hu.
    { unfold sc_do. simpl. by rewrite (proc_upd_run _ _ _ _ Hp). }
    step using (exact Hu). unfold wait_queue_add, wait_in_queue. step using reflexivity.
    replace (linked _ w) with false.
    2:{ symmetry. apply not_true_is_false. rewrite linked_spec. intros (m' & Hin). by apply (Hnq m'). }
    step using reflexivity. step using (apply wait_at_run; simpl; apply lookup_insert_eq). step using reflexivity.
    unfold upd_queue. step using (by apply queue_at_run). unfold s, modify, set_queues, set_waits, set_sc. simpl.
    by rewrite insert_insert_eq.
  - simpl. by apply (sched_ok_leave c (sc (st y)) pr (λ q, set_wait_state (set_state q PROC_SLEEPING) WT_KSEM)).
  - simpl. intros m' v Hm'. destruct (Hsem m' v Hm') as (? & Hqal' & Hemp & Hcount). split_and!; try lia.
    + destruct (decide (m' = m)) as [->|]; [rewrite lookup_insert_eq; eauto|]. by rewrite lookup_insert_ne.
    + rewrite Hqo. destruct (decide (m' = m)) as [->|]; [|done]. congruence.
    + rewrite (granted_split s _ m' p (m, w)) by apply lookup_insert_eq.
      rewrite delete_insert_eq, delete_id by done. simpl. rewrite decide_False.
      2:{ intros [-> Hn]. apply Hn. rewrite Hqo, decide_True by done. set_solver. }
      rewrite (granted_ext s (st y)); [lia|]. intros q w' Hqd. rewrite Hqo. destruct (decide (m' = m)) as [->|]; [|done].
      assert (w' ≠ w) by (intros ->; by apply (Hfresh q m)). set_solver.
  - simpl. intros m'. rewrite Hqo. destruct (decide (m' = m)) as [->|]; [|done].
    apply NoDup_app. split_and!; [done| |apply NoDup_singleton]. intros w' Hw' ->%list_elem_of_singleton. by apply (Hnq m).
  - simpl. intros m' w'. rewrite Hqo. intros Hin.
    assert (w' ∈ queue_of (st y) m' ∨ (m' = m ∧ w' = w)) as [Hin'|[-> ->]].
    { destruct (decide (m' = m)) as [->|]; set_solver. }
    + destruct (Hq m' w' Hin') as (q & Hqd). exists q. rewrite lookup_insert_ne; [done|]. congruence.
    + exists p. apply lookup_insert_eq.
  - simpl. intros q m' w' [[<- [= <- <-]]|[Hqp Hqd]]%lookup_insert_Some.
    + exists WT_INTERRUPTED, pr'. simpl. rewrite !lookup_insert_eq. split_and!; try done. left. split; [|done].
      rewrite Hqo, decide_True by done. set_solver.
    + assert (w' ≠ w) by (intros ->; by apply (Hfresh q m')).
      destruct (Hd q m' w' Hqd) as (fl & qr & H1 & H2 & H3 & H4 & H5). exists fl, qr. simpl.
      rewrite !lookup_insert_ne by done. split_and!; try done. rewrite Hqo.
      destruct (decide (m' = m)) as [->|]; [|done]. rewrite elem_of_app, list_elem_of_singleton. tauto.
Qed.

Lemma perform_inv o y :
  inv y → enabled o y → ∃ y', perform c o y = Ret y' ∧ inv y'.
Proof.
  intros Hinv Hen. destruct o as [m w| |m|m|]; simpl.
  - pose proof Hen as (_ & [v Hm] & _). destruct (i_sem _ (proj1 Hinv) m v Hm) as ([Hv0 _] & _).
    unfold down_begin. rewrite (M_bind_step _ _ (st y) v (st y)) by (by apply sem_at_run).
    destruct (0 <? v) eqn:Hv; z_bool.
    + rewrite (M_bind_step _ _ _ _ _ (set_value_run (st y) m (v - 1))). eexists. split; [reflexivity|].
      by apply take_inv.
    + assert (v = 0) as -> by lia. destruct (block_run y m w Hinv Hen Hm) as (s & Hrun & _ & _ & _ & Hi).
      rewrite (M_bind_step _ _ _ _ _ Hrun). destruct (schedule_inv _ Hi) as (x & Hrun' & Hinv'). simpl in Hrun'.
      rewrite (M_bind_step _ _ _ _ _ Hrun'). eexists. split; [reflexivity|]. exact Hinv'.
  - simpl in Hen. destruct Hen as [[m w] Hp]. rewrite Hp. destruct (resume_run y m w Hinv Hp) as [-> _].
    eexists. split; [reflexivity|]. by eapply resume_inv.
  - destruct Hen as (_ & v & Hm & Hv). pose proof (i_sem _ (proj1 Hinv) m v Hm) as (_ & Hal & _).
    destruct (queue_of (st y) m) as [|w l] eqn:Hl.
    + destruct (up_free_inv y m v Hinv Hm Hv Hl) as [-> Hi]. eauto.
    + destruct (up_wake_run y m w l Hinv Hal Hl) as (p & pr & x & Hp & Hpr & Hst & Hx & ->).
      eexists. split; [reflexivity|]. by eapply up_wake_inv.
  - destruct Hen as (_ & v & Hm). unfold try_down. rewrite (M_bind_step _ _ (st y) v (st y)) by (by apply sem_at_run).
    destruct (0 <? v) eqn:Hv; z_bool.
    + rewrite (M_bind_step _ _ _ _ _ (set_value_run (st y) m (v - 1))). eexists. split; [reflexivity|].
      by apply take_inv.
    + eexists. split; [reflexivity|]. by destruct y.
  - destruct (schedule_inv y (proj1 Hinv)) as (x & -> & Hi). eauto.
Qed.

(** The states [perform] reaches from [y]. *)
Inductive reaches (y : sys) : sys → Prop :=
| reaches_here : reaches y y
| reaches_step o y1 y2 : reaches y y1 → enabled o y1 → perform c o y1 = Ret y2 → reaches y y2.

Lemma reaches_inv y y' : inv y → reaches y y' → inv y'.
Proof.
  intros Hi. induction 1 as [|o y1 y2 _ IH Hen Hrun]; [done|].
  destruct (perform_inv o y1 IH Hen) as (y2' & Hrun' & Hi'). rewrite Hrun in Hrun'. by injection Hrun' as <-.
Qed.

(** C32: whatever the order in which the processes run, no operation on a semaphore fails an
    assertion: [up] finds the process it wakes waiting for a semaphore, and a process that returns
    from the [schedule] inside [down] has been handed the semaphore. *)
Theorem semaphore_no_panic y y' o :
  inv y → reaches y y' → enabled o y' → ∃ y2, perform c o y' = Ret y2.
Proof.
  intros Hi Hr Hen. destruct (perform_inv o y' (reaches_inv y y' Hi Hr) Hen) as (y2 & ? & _). eauto.
Qed.

(** C33: a semaphore admits no more processes than it has units: at any time the calls of [down] that
    have returned are at most the initial value plus the calls of [up], and the difference is what the
    semaphore holds or has handed to processes that are about to return; so with initial value 1 it
    excludes. *)
Theorem semaphore_conserves y y' m v :
  inv y → reaches y y' → sems (st y') !! m = Some v →
  v + count m (downs y') + granted (st y') (in_down y') m = v0 m + count m (ups y') ∧
  count m (downs y') ≤ v0 m + count m (ups y') ∧
  (queue_of (st y') m ≠ [] → v = 0).
Proof.
  intros Hi Hr Hm. destruct (i_sem _ (proj1 (reaches_inv y y' Hi Hr)) m v Hm) as ([? _] & _ & He & Hc).
  split_and!; [done| |done]. unfold granted in Hc. lia.
Qed.

End inv.

(** * A concrete system *)

(** Semaphore 50 with one unit, which process 1 takes; then process 2 gets the processor. *)
Definition demo_sys : sys :=
  mkSys (mkSync demo_sched ∅ (<[50 := []]> ∅) (<[50 := 1]> ∅)) ∅ [] [].
Definition after (o : op) (y : sys) : sys :=
  match perform rr_sched_class o y with Ret y' => y' | Err _ => y end.
Definition is_Ret {A} (r : res A) : bool := match r with Ret _ => true | Err _ => false end.
Definition demo_held : sys := after OYield (after (ODown 50 100) demo_sys).

Lemma demo_inv : inv rr_sched_class (λ _, 1) demo_sys.
Proof.
  assert (∀ m, queue_of (st demo_sys) m = []) as Hq.
  { intros m. unfold queue_of. simpl. destruct (decide (m = 50)) as [->|]; [done|]. by rewrite lookup_insert_ne. }
  split; [|eexists; by split; [vm_compute|]]. split.
  - apply demo_sched_ok.
  - simpl. intros m v [[<- <-]|[_ ?%lookup_empty_Some]]%lookup_insert_Some; [|done].
    split_and!; try done; by eexists.
  - intros m. rewrite Hq. constructor.
  - intros m w. rewrite Hq. by intros ?%elem_of_nil.
  - intros p m w H. simpl in H. by rewrite lookup_empty in H.
Qed.

Lemma after_run o y : is_Ret (perform rr_sched_class o y) = true → perform rr_sched_class o y = Ret (after o y).
Proof. unfold after. by destruct (perform rr_sched_class o y). Qed.

Lemma demo_reaches : reaches rr_sched_class demo_sys demo_held.
Proof.
  apply (reaches_step _ _ OYield (after (ODown 50 100) demo_sys));
    [apply (reaches_step _ _ (ODown 50 100) demo_sys)| |].
  - apply reaches_here.
  - split_and!; [by vm_compute|eexists; by vm_compute|done|]. intros p m H. simpl in H. by rewrite lookup_empty in H.
  - apply after_run. by vm_compute.
  - done.
  - apply after_run. by vm_compute.
Qed.

Lemma semaphore_no_panic_witness :
  current (sc (st demo_held)) = 2 ∧ ∃ y2, perform rr_sched_class (ODown 50 200) demo_held = Ret y2.
Proof.
  split; [by vm_compute|].
  apply (semaphore_no_panic rr_sched_class (λ _, 1) demo_sys demo_held (ODown 50 200) demo_inv demo_reaches).
  assert (in_down demo_held = ∅) as Hd by by vm_compute.
  split_and!; [by rewrite Hd|eexists; by vm_compute|by vm_compute|]. intros p m H. rewrite Hd in H.
  by rewrite lookup_empty in H.
Defined.

Lemma semaphore_conserves_witness : count 50 (downs demo_held) ≤ 1 + count 50 (ups demo_held).
Proof.
  apply (semaphore_conserves rr_sched_class (λ _, 1) demo_sys demo_held 50 0 demo_inv demo_reaches).
  by vm_compute.
Defined.

End Sync.
