(* ===== verification/Monitor.v ===== *)
(** Monitors: kern/sync/monitor.c over the semaphores of Sync.v.

    A monitor has a semaphore for its entry, one for the processes that signal, and one for every condition
    variable.  The state [monitor] adds to the semaphores the counts of the monitor and where every process is
    in its code.  One step is one access to the counts or one call of [up] or [down]; between two steps any other
    process may run. *)
From S2P Require Import Prelude Dll ProcData Sched Sync.

Module Monitor.
Import Dll ProcData Sched Sync.
Set Default Proof Using "Type".

(** Where a process is in [cond_wait] and [cond_signal]. *)
Inductive wait_pc := WSel | WUp (m : Z) | WDown | WIn | WEnd.
Inductive sig_pc := SUp | SDown | SIn | SEnd.
(** Outside the monitor, inside the [down] at its entry, in the body of a routine, in [cond_wait] or
    [cond_signal] on a condition variable, or before the [up] at the end of the routine. *)
Inductive pc := Out | EnterIn | Body | Wait (i : wait_pc) (cv : Z) | Sig (i : sig_pc) (cv : Z) | LeaveUp (m : Z).

#[export] Instance wait_pc_eq_dec : EqDecision wait_pc.
Proof. solve_decision. Defined.
#[export] Instance sig_pc_eq_dec : EqDecision sig_pc.
Proof. solve_decision. Defined.
#[export] Instance pc_eq_dec : EqDecision pc.
Proof. solve_decision. Defined.

Record monitor := mkMonitor {
  sy : sys;                   (* the semaphores *)
  next_count : Z;
  counts : gmap Z Z;          (* count of the condition variables *)
  pcs : gmap Z pc }.

Definition pc_of (x : monitor) (p : Z) : pc := default Out (pcs x !! p).
Definition me (x : monitor) : Z := current (sc (st (sy x))).
Definition set_pc (x : monitor) (p : Z) (i : pc) : monitor := mkMonitor (sy x) (next_count x) (counts x) (<[p := i]> (pcs x)).
Definition set_counts (x : monitor) n c : monitor := mkMonitor (sy x) n c (pcs x).
Definition set_sy (x : monitor) y : monitor := mkMonitor y (next_count x) (counts x) (pcs x).

Section monitor.
Context (c : sched_class).
(** The semaphores [mutex] and [next] of the monitor; the semaphore of a condition variable stands for it. *)
Context (mutex next : Z).

Definition cv_count (x : monitor) (cv : Z) : res Z := match counts x !! cv with Some n => Ret n | None => Err EFault end.

(** A call of [up], and [down] up to its return or the call of [schedule] inside it. *)
Definition call_up (x : monitor) (m : Z) (i : pc) : res monitor :=
  y ← perform c (OUp m) (sy x); mret (set_sy (set_pc x (me x) i) y).
Definition call_down (x : monitor) (m : Z) (blocked done : pc) : res monitor :=
  y ← perform c (ODown m (me x)) (sy x);
  mret (set_sy (set_pc x (me x) (if in_down y !! me x then blocked else done)) y).
Definition resume (x : monitor) (done : pc) : res monitor :=
  y ← perform c OResume (sy x); mret (set_sy (set_pc x (me x) done) y).

(** [if (next_count > 0) up(&next); else up(&mutex);] *)
Definition handed (x : monitor) : Z := if 0 <? next_count x then next else mutex.

(** [cond_wait], from [cvp->count++] on. *)
Definition cond_wait (i : wait_pc) (cv : Z) (x : monitor) : res monitor :=
  let p := me x in
  match i with
  | WSel => mret (set_pc x p (Wait (WUp (handed x)) cv))
  | WUp m => call_up x m (Wait WDown cv)
  | WDown => call_down x cv (Wait WIn cv) (Wait WEnd cv)
  | WIn => resume x (Wait WEnd cv)
  | WEnd => n ← cv_count x cv; mret (set_pc (set_counts x (next_count x) (<[cv := s32 (n - 1)]> (counts x))) p Body)
  end.
Definition cond_wait_begin (cv : Z) (x : monitor) : res monitor :=
  n ← cv_count x cv;
  mret (set_pc (set_counts x (next_count x) (<[cv := s32 (n + 1)]> (counts x))) (me x) (Wait WSel cv)).

(** [cond_signal]. *)
Definition cond_signal_begin (cv : Z) (x : monitor) : res monitor :=
  n ← cv_count x cv;
  mret (if 0 <? n then set_pc (set_counts x (s32 (next_count x + 1)) (counts x)) (me x) (Sig SUp cv) else x).
Definition cond_signal (i : sig_pc) (cv : Z) (x : monitor) : res monitor :=
  let p := me x in
  match i with
  | SUp => call_up x cv (Sig SDown cv)
  | SDown => call_down x next (Sig SIn cv) (Sig SEnd cv)
  | SIn => resume x (Sig SEnd cv)
  | SEnd => mret (set_pc (set_counts x (s32 (next_count x - 1)) (counts x)) p Body)
  end.

(** The frame of a routine of the monitor. *)
Definition enter (x : monitor) : res monitor := call_down x mutex EnterIn Body.
Definition leave (x : monitor) : res monitor := mret (set_pc x (me x) (LeaveUp (handed x))).

(** What the running process does next: the body of a routine chooses. *)
Inductive act := AGo | AWait (cv : Z) | ASignal (cv : Z) | ALeave | AYield.

Definition mstep (a : act) (x : monitor) : res monitor :=
  match a with
  | AYield => y ← perform c OYield (sy x); mret (set_sy x y)
  | _ =>
      match pc_of x (me x), a with
      | Out, AGo => enter x
      | EnterIn, AGo => resume x Body
      | Body, AWait cv => cond_wait_begin cv x
      | Body, ASignal cv => cond_signal_begin cv x
      | Body, ALeave => leave x
      | Wait i cv, AGo => cond_wait i cv x
      | Sig i cv, AGo => cond_signal i cv x
      | LeaveUp m, AGo => call_up x m Out
      | _, _ => mret x
      end
  end.

(** The [num_cv] condition variables of 20 bytes that start at [base]. *)
Definition sizeof_condvar : Z := 20.
Definition cvs_at (base : Z) (num_cv : nat) : list Z := (λ i, base + sizeof_condvar * Z.of_nat i) <$> seq 0 num_cv.

(** [monitor_init]; [kmalloc] has given [mem] for the condition variables. *)
Fixpoint init_cvs (cvs : list Z) : M sync unit :=
  match cvs with [] => mret tt | cv :: l => sem_init cv 0 ;; init_cvs l end.
Definition monitor_init (num_cv : nat) (mem : option Z) (x : monitor) : res monitor :=
  '(cvs, s) ← (assert (0 <? Z.of_nat num_cv) ;; sem_init mutex 1 ;; sem_init next 0 ;;
    match mem with
    | None => fail EPanic
    | Some base => init_cvs (cvs_at base num_cv) ;; mret (cvs_at base num_cv)
    end) (st (sy x));
  mret (mkMonitor (mkSys s (in_down (sy x)) (downs (sy x)) (ups (sy x))) 0 (list_to_map ((λ cv, (cv, 0)) <$> cvs)) (pcs x)).

End monitor.

(** * What an operation on a semaphore changes *)

Section effect.
Context (c : sched_class) `{L : !sched_laws c} (v0 : Z → Z).

Definition effect (o : op) (y y' : sys) : Prop :=
  let p := current (sc (st y)) in
  match o with
  | ODown m w => ups y' = ups y ∧
      (in_down y' = in_down y ∧ downs y' = m :: downs y ∨ in_down y' = <[p := (m, w)]> (in_down y) ∧ downs y' = downs y)
  | OResume => ups y' = ups y ∧ ∃ m w, in_down y !! p = Some (m, w) ∧ in_down y' = delete p (in_down y) ∧ downs y' = m :: downs y
  | OUp m => in_down y' = in_down y ∧ downs y' = downs y ∧ ups y' = m :: ups y
  | OTry m => True
  | OYield => in_down y' = in_down y ∧ downs y' = downs y ∧ ups y' = ups y
  end.

Definition keeps (y y' : sys) : Prop :=
  idleproc (sc (st y')) = idleproc (sc (st y)) ∧ ∀ m, is_Some (sems (st y) !! m) → is_Some (sems (st y') !! m).

Lemma keeps_insert y m v d l u : is_Some (sems (st y) !! m) →
  keeps y (mkSys (set_sems (st y) (<[m := v]> (sems (st y)))) d l u).
Proof.
  intros Hm. split; [done|]. intros m' Hm'. simpl. destruct (decide (m' = m)) as [->|]; [rewrite lookup_insert_eq; eauto|].
  by rewrite lookup_insert_ne.
Qed.

Lemma perform_run o y : inv c v0 y → enabled o y →
  ∃ y', perform c o y = Ret y' ∧ inv c v0 y' ∧ keeps y y' ∧ effect o y y'.
Proof.
  intros Hinv Hen. destruct (perform_inv c v0 o y Hinv Hen) as (y' & Hrun & Hinv'). exists y'. split; [done|]. split; [done|].
  destruct o as [m w| |m|m|]; simpl in Hrun |- *.
  - pose proof Hen as (_ & [v Hm] & _). unfold down_begin in Hrun.
    rewrite (M_bind_step _ _ (st y) v (st y)) in Hrun by (by apply sem_at_run). destruct (0 <? v) eqn:Hv; z_bool.
    + rewrite (M_bind_step _ _ _ _ _ (set_value_run (st y) m (v - 1))) in Hrun. injection Hrun as <-.
      split; [apply keeps_insert; eauto|]. split; [done|by left].
    + destruct (i_sem _ _ _ (proj1 Hinv) m v Hm) as ([Hv0 _] & _). assert (v = 0) as -> by lia.
      destruct (block_run c v0 y m w Hinv Hen Hm) as (s & Hb & _ & Hsm & Hid & Hi0). rewrite (M_bind_step _ _ _ _ _ Hb) in Hrun.
      destruct (schedule_run c (sc s) (i_sched _ _ _ Hi0)) as (x & Hx & _ & _ & _ & Hidx & _).
      assert (sc_do (schedule c) s = Ret (tt, set_sc s x)) as Hsc by (unfold sc_do; by rewrite Hx).
      rewrite (M_bind_step _ _ _ _ _ Hsc) in Hrun. injection Hrun as <-. split.
      * split; simpl; [congruence|by rewrite Hsm].
      * split; [done|by right].
  - destruct Hen as [[m w] Hp]. rewrite Hp in Hrun |- *. destruct (resume_run c v0 y m w Hinv Hp) as [E _]. rewrite E in Hrun.
    injection Hrun as <-. split; [by split|]. split; [done|]. by exists m, w.
  - destruct Hen as (_ & v & Hm & Hv). pose proof (i_sem _ _ _ (proj1 Hinv) m v Hm) as (_ & Hal & _).
    destruct (queue_of (st y) m) as [|w l] eqn:Hl.
    + destruct (up_free_inv c v0 y m v Hinv Hm Hv Hl) as [E _]. rewrite E in Hrun. injection Hrun as <-.
      split; [apply keeps_insert; eauto|done].
    + destruct (up_wake_run c v0 y m w l Hinv Hal Hl) as (p & pr & x & Hp & Hpr & Hst & Hx & E). rewrite E in Hrun.
      injection Hrun as <-. split; [|done]. split; [|done]. simpl.
      destruct (wakeup_run c (sc (st y)) p pr (i_sched _ _ _ (proj1 Hinv)) Hpr ltac:(congruence)) as (x' & Hx' & _ & _ & _ & Hid & _).
      congruence.
  - split; [|done]. destruct Hen as (_ & v & Hm). unfold try_down in Hrun.
    rewrite (M_bind_step _ _ (st y) v (st y)) in Hrun by (by apply sem_at_run). destruct (0 <? v).
    + rewrite (M_bind_step _ _ _ _ _ (set_value_run (st y) m (v - 1))) in Hrun. injection Hrun as <-. apply keeps_insert; eauto.
    + injection Hrun as <-. by split.
  - destruct (schedule_run c (sc (st y)) (i_sched _ _ _ (proj1 Hinv))) as (x & Hx & _ & _ & _ & Hidx & _).
    unfold sc_do in Hrun. rewrite Hx in Hrun. injection Hrun as <-. split; [by split|done].
Qed.
End effect.

(** * Sums over processes and semaphores *)

Lemma sum_cons (f : Z → Z) q l : Zsum (f <$> q :: l) = f q + Zsum (f <$> l).
Proof. done. Qed.

Lemma sum_ext (f g : Z → Z) l : (∀ q, q ∈ l → f q = g q) → Zsum (f <$> l) = Zsum (g <$> l).
Proof. induction l as [|q l IH]; intros Hfg; [done|]. rewrite !sum_cons, Hfg, IH by set_solver. done. Qed.

Lemma sum_bounds (f : Z → Z) l : (∀ q, q ∈ l → 0 ≤ f q ≤ 1) → 0 ≤ Zsum (f <$> l) ≤ Z.of_nat (length l).
Proof.
  induction l as [|q l IH]; intros Hf; [simpl; lia|]. rewrite sum_cons. simpl length. pose proof (Hf q ltac:(set_solver)).
  assert (0 ≤ Zsum (f <$> l) ≤ Z.of_nat (length l)) by (apply IH; set_solver). lia.
Qed.

Lemma sum_nonneg (f : Z → Z) l : (∀ q, 0 ≤ f q) → 0 ≤ Zsum (f <$> l).
Proof. intros Hf. induction l as [|q l IH]; [done|]. rewrite sum_cons. pose proof (Hf q). lia. Qed.

Lemma sum_change (f g : Z → Z) l p : NoDup l → p ∈ l → (∀ q, q ≠ p → g q = f q) → Zsum (g <$> l) = Zsum (f <$> l) - f p + g p.
Proof.
  intros Hnd Hp Hg. induction Hnd as [|q l Hq Hnd IH]; [by apply elem_of_nil in Hp|]. rewrite !sum_cons.
  apply elem_of_cons in Hp as [->|Hp].
  - rewrite (sum_ext g f l); [lia|]. intros r Hr. apply Hg. by intros ->.
  - rewrite IH by done. rewrite (Hg q) by (by intros ->). lia.
Qed.

Lemma sum_pos (f : Z → Z) l : 0 < Zsum (f <$> l) → ∃ q, q ∈ l ∧ 0 < f q.
Proof.
  induction l as [|q l IH]; [simpl; lia|]. rewrite sum_cons. intros Hs. destruct (decide (0 < f q)); [exists q; set_solver|].
  destruct IH as (r & ? & ?); [lia|]. exists r. set_solver.
Qed.

Lemma sum_elem (f : Z → Z) l p : p ∈ l → (∀ r, 0 ≤ f r) → f p ≤ Zsum (f <$> l).
Proof.
  intros Hp Hf. induction l as [|q l IH]; [by apply elem_of_nil in Hp|]. rewrite sum_cons. pose proof (sum_nonneg f l Hf).
  pose proof (Hf q). apply elem_of_cons in Hp as [->|Hp]; [lia|]. specialize (IH Hp). lia.
Qed.

Lemma sum_two (f : Z → Z) l p q : p ∈ l → q ∈ l → p ≠ q → (∀ r, 0 ≤ f r) → f p + f q ≤ Zsum (f <$> l).
Proof.
  intros Hp Hq Hne Hf. induction l as [|r l IH]; [by apply elem_of_nil in Hp|]. rewrite sum_cons. pose proof (Hf r).
  apply elem_of_cons in Hp as [->|Hp]; apply elem_of_cons in Hq as [->|Hq]; [done|..].
  - pose proof (sum_elem f l q Hq Hf). lia.
  - pose proof (sum_elem f l p Hp Hf). lia.
  - specialize (IH Hp Hq). lia.
Qed.

Lemma sum_nonneg_in (f : Z → Z) l : (∀ q, q ∈ l → 0 ≤ f q) → 0 ≤ Zsum (f <$> l).
Proof.
  induction l as [|q l IH]; intros Hf; [done|]. rewrite sum_cons. pose proof (Hf q ltac:(set_solver)).
  assert (0 ≤ Zsum (f <$> l)) by (apply IH; set_solver). lia.
Qed.

Lemma sum_elem_in (f : Z → Z) l p : (∀ q, q ∈ l → 0 ≤ f q) → p ∈ l → f p ≤ Zsum (f <$> l).
Proof.
  induction l as [|q l IH]; intros Hf Hp; [by apply elem_of_nil in Hp|]. rewrite sum_cons.
  pose proof (sum_nonneg_in f l ltac:(set_solver)). pose proof (Hf q ltac:(set_solver)).
  apply elem_of_cons in Hp as [->|Hp]; [lia|]. specialize (IH ltac:(set_solver) Hp). lia.
Qed.

Lemma sum_sub (f g : Z → Z) l : Zsum ((λ m, f m - g m) <$> l) = Zsum (f <$> l) - Zsum (g <$> l).
Proof. induction l as [|m l IH]; [done|]. rewrite !sum_cons, IH. lia. Qed.

Lemma sum_zero l : Zsum ((λ _ : Z, 0) <$> l) = 0.
Proof. induction l as [|m l IH]; [done|]. by rewrite sum_cons. Qed.

Lemma sum_split (f g h k : Z → Z) l : (∀ m, m ∈ l → f m + g m = h m + k m) →
  Zsum (f <$> l) = Zsum (h <$> l) - (Zsum (g <$> l) - Zsum (k <$> l)).
Proof. induction l as [|m l IH]; intros Hm; [done|]. rewrite !sum_cons, IH by set_solver. pose proof (Hm m ltac:(set_solver)). lia. Qed.

(** * The invariant *)

(** The process may touch the data of the monitor. *)
Definition active (i : pc) : bool :=
  match i with
  | Body | Wait WSel _ | Wait (WUp _) _ | Wait WEnd _ | Sig SUp _ | Sig SEnd _ | LeaveUp _ => true
  | _ => false
  end.
Definition b2z (b : bool) : Z := if b then 1 else 0.
Definition act1 (i : pc) : Z := b2z (active i).
Definition wait1 (cv : Z) (i : pc) : Z := match i with Wait _ cv' => b2z (bool_decide (cv' = cv)) | _ => 0 end.
Definition sig1 (i : pc) : Z := match i with Sig _ _ => 1 | _ => 0 end.
Definition upping (m : Z) (i : pc) : Prop := match i with Wait (WUp m') _ | LeaveUp m' => m' = m | _ => False end.

(** Their ranges. *)
Lemma act1_range i : 0 ≤ act1 i ≤ 1.
Proof. unfold act1, b2z. destruct (active i); lia. Qed.
Lemma wait1_range cv i : 0 ≤ wait1 cv i ≤ 1.
Proof. unfold wait1, b2z. destruct i; try lia. destruct (bool_decide _); lia. Qed.
Lemma sig1_range i : 0 ≤ sig1 i ≤ 1.
Proof. unfold sig1. destruct i; lia. Qed.

Section inv.
Context (c : sched_class) `{L : !sched_laws c}.
Context (mutex next : Z) (cvs : list Z) (keys_nodup : NoDup (mutex :: next :: cvs)).
(** The processes that use the monitor. *)
Context (ps : list Z) (ps_nodup : NoDup ps) (ps_few : Z.of_nat (length ps) < 2 ^ 31).

Definition keys : list Z := mutex :: next :: cvs.
Definition v0 (m : Z) : Z := if decide (m = mutex) then 1 else 0.

(** The semaphore a process waits for inside [down]. *)
Definition blocked (i : pc) : option Z :=
  match i with EnterIn => Some mutex | Wait WIn cv => Some cv | Sig SIn _ => Some next | _ => None end.
Definition pc_ok (i : pc) : Prop :=
  match i with
  | Wait (WUp m) cv => cv ∈ cvs ∧ (m = mutex ∨ m = next)
  | Wait _ cv | Sig _ cv => cv ∈ cvs
  | LeaveUp m => m = mutex ∨ m = next
  | _ => True
  end.

Definition total (f : pc → Z) (x : monitor) : Z := Zsum ((λ q, f (pc_of x q)) <$> ps).
Definition balance (y : sys) : Z := Zsum ((λ m, count m (downs y) - count m (ups y)) <$> keys).

Record minv (x : monitor) : Prop := {
  mi_inv : inv c v0 (sy x);
  mi_sems : ∀ m, m ∈ keys → is_Some (sems (st (sy x)) !! m);
  mi_idle : idleproc (sc (st (sy x))) ∉ ps;
  mi_down : ∀ p, in_down (sy x) !! p = (λ m, (m, p)) <$> blocked (pc_of x p);
  mi_ok : ∀ p, pc_ok (pc_of x p) ∧ (pc_of x p ≠ Out → p ∈ ps);
  mi_balance : balance (sy x) = total act1 x;
  mi_count : ∀ cv, cv ∈ cvs → counts x !! cv = Some (total (wait1 cv) x);
  mi_next : next_count x = total sig1 x;
  mi_signal : ∀ p cv, pc_of x p = Sig SUp cv → 0 < total (wait1 cv) x;
  mi_handed : ∀ p, upping next (pc_of x p) → 0 < total sig1 x }.

(** ** The semaphores and the active processes share one unit *)

Set Default Proof Using "All".
Definition slack (x : monitor) (m : Z) : Z := default 0 (sems (st (sy x)) !! m) + granted (st (sy x)) (in_down (sy x)) m.

Lemma sum_v0 : Zsum (v0 <$> keys) = 1.
Proof.
  unfold keys. rewrite sum_cons. unfold v0 at 1. rewrite decide_True by done. apply NoDup_cons in keys_nodup as [Hm _].
  rewrite (sum_ext v0 (λ _, 0)); [by rewrite sum_zero|]. intros q Hq. unfold v0. rewrite decide_False; [done|]. by intros ->.
Qed.

Lemma one_unit x : minv x → Zsum (slack x <$> keys) + total act1 x = 1 ∧ ∀ m, m ∈ keys → 0 ≤ slack x m.
Proof.
  intros Hx. assert (∀ m, m ∈ keys → slack x m + count m (downs (sy x)) = v0 m + count m (ups (sy x)) ∧ 0 ≤ slack x m) as Hm.
  { intros m Hm. destruct (mi_sems x Hx m Hm) as [v Hv]. destruct (i_sem _ _ _ (proj1 (mi_inv x Hx)) m v Hv) as ([? _] & _ & _ & Hc).
    unfold slack. rewrite Hv. simpl. unfold granted in *. lia. }
  split; [|intros m Hk; by apply Hm]. rewrite <-(mi_balance x Hx). unfold balance. rewrite sum_sub.
  rewrite (sum_split (slack x) (λ m, count m (downs (sy x))) v0 (λ m, count m (ups (sy x)))) by (intros; by apply Hm).
  rewrite sum_v0. lia.
Qed.

Lemma active_in x p : minv x → active (pc_of x p) = true → p ∈ ps.
Proof. intros Hx Hp. apply (mi_ok x Hx p). intros E. by rewrite E in Hp. Qed.

Lemma active_unblocked i : active i = true → blocked i = None.
Proof. destruct i as [| | |[] ?|[] ?|]; done. Qed.

Lemma excludes x p q : minv x → active (pc_of x p) = true → active (pc_of x q) = true → p = q.
Proof.
  intros Hx Hp Hq. destruct (decide (p = q)) as [|Hne]; [done|]. exfalso. destruct (one_unit x Hx) as [Hu Hs].
  pose proof (sum_nonneg_in _ _ Hs).
  pose proof (sum_two (λ r, act1 (pc_of x r)) ps p q (active_in x p Hx Hp) (active_in x q Hx Hq) Hne (λ r, proj1 (act1_range _))) as H2.
  unfold total in Hu. unfold act1 at 1 2 in H2. rewrite Hp, Hq in H2. simpl in H2. lia.
Qed.

(** While a process is active, the semaphores of the monitor have no unit left. *)
Lemma no_units x p m : minv x → active (pc_of x p) = true → m ∈ keys → sems (st (sy x)) !! m = Some 0.
Proof.
  intros Hx Hp Hm. destruct (one_unit x Hx) as [Hu Hs].
  pose proof (sum_elem (λ r, act1 (pc_of x r)) ps p (active_in x p Hx Hp) (λ r, proj1 (act1_range _))) as H1.
  unfold act1 at 1 in H1. rewrite Hp in H1. simpl in H1. unfold total in Hu.
  pose proof (sum_elem_in _ _ m Hs Hm). pose proof (Hs m Hm). destruct (mi_sems x Hx m Hm) as [v Hv].
  destruct (i_sem _ _ _ (proj1 (mi_inv x Hx)) m v Hv) as ([? _] & _).
  unfold slack in *. rewrite Hv in *. simpl in *. unfold granted in *. f_equal. lia.
Qed.

(** ** Steps *)

Lemma pc_of_set y nc ct x p j q : pc_of (mkMonitor y nc ct (<[p := j]> (pcs x))) q = if decide (q = p) then j else pc_of x q.
Proof. unfold pc_of. simpl. destruct (decide (q = p)) as [->|]; [by rewrite lookup_insert_eq|by rewrite lookup_insert_ne]. Qed.

Lemma total_set f y nc ct x p j : p ∈ ps →
  total f (mkMonitor y nc ct (<[p := j]> (pcs x))) = total f x - f (pc_of x p) + f j.
Proof.
  intros Hp. unfold total.
  rewrite (sum_change (λ q, f (pc_of x q)) (λ q, f (pc_of (mkMonitor y nc ct (<[p := j]> (pcs x))) q)) ps p ps_nodup Hp).
  - rewrite pc_of_set, decide_True by done. done.
  - intros q Hq. by rewrite pc_of_set, decide_False.
Qed.

(** The running process goes from one place to another. *)
Lemma minv_step x y nc ct j :
  let p := me x in let i := pc_of x p in
  minv x → p ∈ ps → inv c v0 y → keeps (sy x) y →
  (∀ q, in_down y !! q = if decide (q = p) then (λ m, (m, p)) <$> blocked j else in_down (sy x) !! q) →
  balance y = balance (sy x) - act1 i + act1 j → pc_ok j →
  (∀ cv, cv ∈ cvs → ct !! cv = Some (total (wait1 cv) x - wait1 cv i + wait1 cv j)) →
  nc = total sig1 x - sig1 i + sig1 j →
  active i = true ∨ ((∀ cv, wait1 cv i = wait1 cv j) ∧ sig1 i = sig1 j) →
  (∀ cv, j = Sig SUp cv → 0 < total (wait1 cv) x - wait1 cv i + wait1 cv j) →
  (upping next j → 0 < total sig1 x - sig1 i + sig1 j) →
  minv (mkMonitor y nc ct (<[p := j]> (pcs x))).
Proof.
  intros p i Hx Hp Hy [Hid Hse] Hin Hbal Hok Hct Hnc Hch Hsig Hup. split; simpl.
  - done.
  - intros m Hm. apply Hse, (mi_sems x Hx m Hm).
  - rewrite Hid. apply Hx.
  - intros q. rewrite pc_of_set, Hin. destruct (decide (q = p)) as [->|]; [done|]. apply Hx.
  - intros q. rewrite pc_of_set. destruct (decide (q = p)) as [->|]; [done|]. apply Hx.
  - rewrite total_set, Hbal by done. fold i. by rewrite (mi_balance x Hx).
  - intros cv Hcv. rewrite total_set by done. by apply Hct.
  - by rewrite total_set.
  - intros q cv. rewrite pc_of_set, total_set by done. fold i. destruct (decide (q = p)) as [->|Hq]; [apply Hsig|].
    intros Hqc. destruct Hch as [Ha|[Hw _]]; [|rewrite Hw; pose proof (mi_signal x Hx q cv Hqc); lia].
    destruct Hq. apply (excludes x q p Hx); [by rewrite Hqc|done].
  - intros q. rewrite pc_of_set, total_set by done. fold i. destruct (decide (q = p)) as [->|Hq]; [apply Hup|].
    intros Hqc. destruct Hch as [Ha|[_ Hs]]; [|rewrite Hs; pose proof (mi_handed x Hx q Hqc); lia].
    destruct Hq. apply (excludes x q p Hx); [|done]. unfold upping in Hqc. destruct (pc_of x q) as [| | |[] ?|[] ?|]; done.
Qed.

Lemma count_here m l : count m (m :: l) = count m l + 1.
Proof. rewrite count_cons, decide_True by done. lia. Qed.
Lemma count_other m m' l : m ≠ m' → count m (m' :: l) = count m l.
Proof. intros. rewrite count_cons, decide_False by done. lia. Qed.

Lemma balance_down y y' m : m ∈ keys → downs y' = m :: downs y → ups y' = ups y → balance y' = balance y + 1.
Proof.
  intros Hm Hd Hu. unfold balance. rewrite (sum_change (λ k, count k (downs y) - count k (ups y)) _ keys m); [|done|done|].
  - rewrite Hd, Hu, count_here. lia.
  - intros k Hk. by rewrite Hd, Hu, count_other.
Qed.
Lemma balance_up y y' m : m ∈ keys → downs y' = downs y → ups y' = m :: ups y → balance y' = balance y - 1.
Proof.
  intros Hm Hd Hu. unfold balance. rewrite (sum_change (λ k, count k (downs y) - count k (ups y)) _ keys m); [|done|done|].
  - rewrite Hd, Hu, count_here. lia.
  - intros k Hk. by rewrite Hd, Hu, count_other.
Qed.

(** Places that differ only in whether the process is active or inside [down]. *)
Definition alike (i j : pc) : Prop :=
  (∀ cv, wait1 cv i = wait1 cv j) ∧ sig1 i = sig1 j ∧ pc_ok j ∧ (∀ cv, j ≠ Sig SUp cv) ∧ ¬ upping next j.

Lemma alike_step x y j :
  let p := me x in let i := pc_of x p in
  minv x → p ∈ ps → alike i j → inv c v0 y → keeps (sy x) y →
  (∀ q, in_down y !! q = if decide (q = p) then (λ m, (m, p)) <$> blocked j else in_down (sy x) !! q) →
  balance y = balance (sy x) - act1 i + act1 j → minv (set_sy (set_pc x p j) y).
Proof.
  intros p i Hx Hp (Hw & Hs & Hok & Hsup & Hup) Hy Hk Hin Hbal.
  apply (minv_step x y (next_count x) (counts x) j); [done|done|done|done|done|done|done| | |by right| |done].
  - intros cv Hcv. fold p i. rewrite Hw. rewrite (mi_count x Hx cv Hcv). f_equal. lia.
  - fold p i. rewrite Hs, (mi_next x Hx). lia.
  - intros cv Hj. by destruct (Hsup cv).
Qed.

Lemma call_up_step x m j :
  let i := pc_of x (me x) in
  minv x → active i = true → m ∈ keys → alike i j → active j = false → blocked j = None →
  ∃ x', call_up c x m j = Ret x' ∧ minv x'.
Proof.
  intros i Hx Hi Hm Hal Hj Hb. pose proof (active_in x _ Hx Hi) as Hp. pose proof (no_units x _ m Hx Hi Hm) as H0.
  assert (in_down (sy x) !! me x = None) as Hnd by (rewrite (mi_down x Hx); fold i; by rewrite (active_unblocked i Hi)).
  destruct (perform_run c v0 (OUp m) (sy x)) as (y & Hrun & Hy & Hk & Hd & Hdn & Hu); [apply Hx|split; [done|]; exists 0; split; [done|lia]|].
  eexists. split; [unfold call_up; rewrite Hrun; reflexivity|]. apply alike_step; try done.
  - intros q. rewrite Hd, Hb. destruct (decide (q = me x)) as [->|]; [by rewrite Hnd|done].
  - rewrite (balance_up (sy x) y m Hm Hdn Hu). fold i. unfold act1. rewrite Hi, Hj. simpl. lia.
Qed.

Lemma call_down_step x m jb jd :
  let i := pc_of x (me x) in
  minv x → me x ∈ ps → active i = false → blocked i = None → m ∈ keys → alike i jb → alike i jd →
  active jb = false → blocked jb = Some m → active jd = true → blocked jd = None →
  ∃ x', call_down c x m jb jd = Ret x' ∧ minv x'.
Proof.
  intros i Hx Hp Hi Hb Hm Hab Had Hjb Hbb Hjd Hbd.
  assert (in_down (sy x) !! me x = None) as Hnd by (rewrite (mi_down x Hx); fold i; by rewrite Hb).
  destruct (perform_run c v0 (ODown m (me x)) (sy x)) as (y & Hrun & Hy & Hk & Hu & Hcase); [apply Hx| |].
  { split_and!; [done|by apply Hx|intros E; apply (mi_idle x Hx); by rewrite <-E|]. intros q m' Hq. rewrite (mi_down x Hx) in Hq.
    destruct (blocked (pc_of x q)) eqn:E; [|done]. injection Hq as _ ->. unfold i in Hb. by rewrite Hb in E. }
  eexists. split; [unfold call_down; rewrite Hrun; reflexivity|]. unfold mret, res_ret. fold (me x) in Hcase.
  destruct Hcase as [[Hd Hdn]|[Hd Hdn]].
  - rewrite Hd, Hnd. apply alike_step; try done.
    + intros q. rewrite Hd, Hbd. destruct (decide (q = me x)) as [->|]; [by rewrite Hnd|done].
    + rewrite (balance_down (sy x) y m Hm Hdn Hu). fold i. unfold act1. rewrite Hi, Hjd. simpl. lia.
  - assert (in_down y !! me x = Some (m, me x)) as E by (rewrite Hd; apply lookup_insert_eq). rewrite E. apply alike_step; try done.
    + intros q. rewrite Hd, Hbb. destruct (decide (q = me x)) as [->|]; [by rewrite lookup_insert_eq|by rewrite lookup_insert_ne].
    + assert (balance y = balance (sy x)) as -> by (unfold balance; by rewrite Hdn, Hu). fold i. unfold act1. rewrite Hi, Hjb. simpl. lia.
Qed.

Lemma resume_step x m jd :
  let i := pc_of x (me x) in
  minv x → blocked i = Some m → active i = false → m ∈ keys → alike i jd → active jd = true → blocked jd = None →
  ∃ x', resume c x jd = Ret x' ∧ minv x'.
Proof.
  intros i Hx Hb Hi Hm Hal Hjd Hbd.
  assert (in_down (sy x) !! me x = Some (m, me x)) as Hnd by (rewrite (mi_down x Hx); fold i; by rewrite Hb).
  assert (me x ∈ ps) as Hp by (apply (mi_ok x Hx); fold i; intros E; by rewrite E in Hb).
  destruct (perform_run c v0 OResume (sy x)) as (y & Hrun & Hy & Hk & Hu & m' & w & Hq & Hd & Hdn); [apply Hx|by exists (m, me x)|].
  fold (me x) in Hq, Hd. rewrite Hnd in Hq. injection Hq as <- <-.
  eexists. split; [unfold resume; rewrite Hrun; reflexivity|]. apply alike_step; try done.
  - intros q. rewrite Hd, Hbd. destruct (decide (q = me x)) as [->|]; [by rewrite lookup_delete_eq|by rewrite lookup_delete_ne].
  - rewrite (balance_down (sy x) y m Hm Hdn Hu). fold i. unfold act1. rewrite Hi, Hjd. simpl. lia.
Qed.

Lemma keys_mutex : mutex ∈ keys.
Proof. apply list_elem_of_here. Qed.
Lemma keys_next : next ∈ keys.
Proof. apply list_elem_of_further, list_elem_of_here. Qed.
Lemma keys_cv cv : cv ∈ cvs → cv ∈ keys.
Proof. intros. by do 2 apply list_elem_of_further. Qed.

Lemma total_small f x : (∀ i, 0 ≤ f i ≤ 1) → 0 ≤ total f x < 2 ^ 31.
Proof. intros Hf. pose proof (sum_bounds (λ q, f (pc_of x q)) ps (λ q _, Hf _)). unfold total. lia. Qed.

(** Steps of an active process that touch the counts only. *)
Lemma count_step x nc ct j :
  let p := me x in let i := pc_of x p in
  minv x → active i = true → active j = true → pc_ok j →
  (∀ cv, cv ∈ cvs → ct !! cv = Some (total (wait1 cv) x - wait1 cv i + wait1 cv j)) →
  nc = total sig1 x - sig1 i + sig1 j →
  (∀ cv, j = Sig SUp cv → 0 < total (wait1 cv) x - wait1 cv i + wait1 cv j) →
  (upping next j → 0 < total sig1 x - sig1 i + sig1 j) →
  minv (mkMonitor (sy x) nc ct (<[p := j]> (pcs x))).
Proof.
  intros p i Hx Hi Hj Hok Hct Hnc Hs Hu. apply minv_step; try done.
  - by apply (active_in x).
  - apply Hx.
  - intros q. rewrite (active_unblocked j Hj). destruct (decide (q = me x)) as [->|]; [|done].
    rewrite (mi_down x Hx). by rewrite (active_unblocked (pc_of x (me x)) Hi).
  - fold p i. unfold act1. rewrite Hi, Hj. lia.
  - by left.
Qed.

Definition menabled (a : act) (x : monitor) : Prop :=
  match a with
  | AWait cv | ASignal cv => cv ∈ cvs
  | AGo => pc_of x (me x) = Out → me x ∈ ps
  | _ => True
  end.

Lemma handed_cases x : minv x → (handed mutex next x = mutex ∨ handed mutex next x = next) ∧
  (handed mutex next x = next → 0 < total sig1 x).
Proof.
  intros Hx. unfold handed. rewrite (mi_next x Hx). apply NoDup_cons in keys_nodup as [Hm _].
  destruct (Z.ltb_spec 0 (total sig1 x)); (split; [tauto|]); intros E; [done|]. destruct Hm. rewrite E. apply list_elem_of_here.
Qed.

Lemma alike_wait i j cv : cv ∈ cvs → (∀ m, j ≠ WUp m) → alike (Wait i cv) (Wait j cv).
Proof. intros Hcv Hj. destruct j as [|m| | |]; [|by destruct (Hj m)|..]; unfold alike; simpl; split_and!; (done || tauto). Qed.

Lemma alike_sig i j cv : cv ∈ cvs → j ≠ SUp → alike (Sig i cv) (Sig j cv).
Proof. intros Hcv Hj. unfold alike. simpl. split_and!; try (done || tauto). intros cv' [= E _]. done. Qed.

(** Places outside [cond_wait] and [cond_signal]. *)
Definition plain (i : pc) : Prop := match i with Wait _ _ | Sig _ _ => False | _ => True end.
Lemma alike_plain i j : plain i → plain j → (∀ m, j ≠ LeaveUp m) → alike i j.
Proof. intros Hi Hj Hm. destruct j as [| | | | |k]; try done; [..|by destruct (Hm k)]; destruct i; try done; unfold alike; simpl; split_and!; (done || tauto). Qed.

Lemma wait_step x i cv : minv x → pc_of x (me x) = Wait i cv → ∃ x', cond_wait c mutex next i cv x = Ret x' ∧ minv x'.
Proof.
  intros Hx Hpc. destruct (mi_ok x Hx (me x)) as [Hok Hps]. rewrite Hpc in Hok, Hps. specialize (Hps ltac:(done)).
  assert (cv ∈ cvs) as Hcv by (destruct i; simpl in Hok; tauto). pose proof (keys_cv cv Hcv) as Hk.
  destruct i as [|m| | |]; cbn [cond_wait].
  - eexists. split; [reflexivity|]. destruct (handed_cases x Hx) as [Hh Hh2]. apply (count_step x); rewrite ?Hpc; try done.
    + intros cv' Hcv'. rewrite (mi_count x Hx cv' Hcv'). f_equal. simpl. lia.
    + rewrite (mi_next x Hx). simpl. lia.
    + simpl. intros E. specialize (Hh2 E). lia.
  - apply call_up_step; rewrite ?Hpc; try done; [|by apply alike_wait].
    destruct Hok as [_ [->| ->]]; [apply keys_mutex|apply keys_next].
  - apply call_down_step; rewrite ?Hpc; try done; by apply alike_wait.
  - apply (resume_step x cv); rewrite ?Hpc; try done. by apply alike_wait.
  - unfold cv_count. rewrite (mi_count x Hx cv Hcv). eexists. split; [reflexivity|].
    pose proof (total_small (wait1 cv) x (wait1_range cv)) as Hsm.
    pose proof (sum_elem (λ q, wait1 cv (pc_of x q)) ps (me x) Hps (λ r, proj1 (wait1_range _ _))) as H1.
    cbv beta in H1. rewrite Hpc in H1. simpl in H1. rewrite bool_decide_true in H1 by done. simpl in H1. change (1 ≤ total (wait1 cv) x) in H1.
    apply (count_step x); rewrite ?Hpc; try done.
    + intros cv' Hcv'. simpl. destruct (decide (cv' = cv)) as [->|Hne].
      * rewrite lookup_insert_eq, bool_decide_true by done. simpl. rewrite s32_small by lia. f_equal. lia.
      * rewrite lookup_insert_ne, bool_decide_false by done. rewrite (mi_count x Hx cv' Hcv'). f_equal. simpl. lia.
    + simpl. rewrite (mi_next x Hx). lia.
Qed.

Lemma signal_step x i cv : minv x → pc_of x (me x) = Sig i cv → ∃ x', cond_signal c next i cv x = Ret x' ∧ minv x'.
Proof.
  intros Hx Hpc. destruct (mi_ok x Hx (me x)) as [Hcv Hps]. rewrite Hpc in Hcv, Hps. specialize (Hps ltac:(done)). simpl in Hcv.
  pose proof (keys_cv cv Hcv) as Hk. destruct i; cbn [cond_signal].
  - apply call_up_step; rewrite ?Hpc; try done. by apply alike_sig.
  - apply call_down_step; rewrite ?Hpc; try done; [apply keys_next|by apply alike_sig..].
  - apply (resume_step x next); rewrite ?Hpc; try done; [apply keys_next|by apply alike_sig].
  - eexists. split; [reflexivity|]. pose proof (total_small sig1 x sig1_range) as Hsm.
    pose proof (sum_elem (λ q, sig1 (pc_of x q)) ps (me x) Hps (λ r, proj1 (sig1_range _))) as H1.
    cbv beta in H1. rewrite Hpc in H1. simpl in H1. change (1 ≤ total sig1 x) in H1. apply (count_step x); rewrite ?Hpc; try done.
    + intros cv' Hcv'. simpl. rewrite (mi_count x Hx cv' Hcv'). f_equal. lia.
    + simpl. rewrite (mi_next x Hx), s32_small by lia. lia.
Qed.

Lemma mstep_run a x : minv x → menabled a x → ∃ x', mstep c mutex next a x = Ret x' ∧ minv x'.
Proof.
  intros Hx Hen. assert (∃ x', mret x = Ret x' ∧ minv x') as Hsame by (by exists x).
  destruct (mi_ok x Hx (me x)) as [Hok Hps]. pose proof (total_small sig1 x sig1_range) as Hss.
  destruct a as [|cv|cv| |]; unfold mstep; [destruct (pc_of x (me x)) eqn:Hpc..|]; try exact Hsame.
  - apply call_down_step; rewrite ?Hpc; try done; [by apply Hen|apply keys_mutex|by apply alike_plain..].
  - apply (resume_step x mutex); rewrite ?Hpc; try done; [apply keys_mutex|by apply alike_plain].
  - by apply wait_step.
  - by apply signal_step.
  - apply call_up_step; rewrite ?Hpc; try done; [|by apply alike_plain]. destruct Hok as [->| ->]; [apply keys_mutex|apply keys_next].
  - unfold cond_wait_begin, cv_count. simpl in Hen. rewrite (mi_count x Hx cv Hen). eexists. split; [reflexivity|].
    pose proof (total_small (wait1 cv) (mkMonitor (sy x) 0 ∅ (<[me x := Wait WSel cv]> (pcs x))) (wait1_range cv)) as Hsm.
    rewrite total_set, Hpc in Hsm by (by apply Hps). simpl in Hsm. rewrite bool_decide_true in Hsm by done. simpl in Hsm.
    pose proof (total_small (wait1 cv) x (wait1_range cv)). apply (count_step x); rewrite ?Hpc; try done.
    + intros cv' Hcv'. simpl. destruct (decide (cv' = cv)) as [->|Hne].
      * rewrite lookup_insert_eq, bool_decide_true by done. simpl. rewrite s32_small by lia. f_equal. lia.
      * rewrite lookup_insert_ne, bool_decide_false by done. rewrite (mi_count x Hx cv' Hcv'). f_equal. simpl. lia.
    + simpl. rewrite (mi_next x Hx). lia.
  - unfold cond_signal_begin, cv_count. simpl in Hen. rewrite (mi_count x Hx cv Hen). eexists. split; [reflexivity|].
    destruct (Z.ltb_spec 0 (total (wait1 cv) x)) as [Hw|]; [|done].
    pose proof (total_small sig1 (mkMonitor (sy x) 0 ∅ (<[me x := Sig SUp cv]> (pcs x))) sig1_range) as Hsm.
    rewrite total_set, Hpc in Hsm by (by apply Hps). simpl in Hsm. apply (count_step x); rewrite ?Hpc; try done.
    + intros cv' Hcv'. simpl. rewrite (mi_count x Hx cv' Hcv'). f_equal. lia.
    + simpl. rewrite (mi_next x Hx), s32_small by lia. lia.
    + intros cv' [= ->]. simpl. lia.
  - eexists. split; [reflexivity|]. destruct (handed_cases x Hx) as [Hh Hh2]. apply (count_step x); rewrite ?Hpc; try done.
    + intros cv' Hcv'. rewrite (mi_count x Hx cv' Hcv'). f_equal. simpl. lia.
    + rewrite (mi_next x Hx). simpl. lia.
    + simpl. intros E. specialize (Hh2 E). lia.
  - destruct (perform_run c v0 OYield (sy x)) as (y & Hrun & Hy & [Hid Hse] & Hd & Hdn & Hu); [apply Hx|done|].
    rewrite Hrun. eexists. split; [reflexivity|]. destruct Hx as [? Hsm Hidl Hdo ? Hb ? ? ? ?]. split; simpl; try done.
    + intros m Hm. by apply Hse, Hsm.
    + by rewrite Hid.
    + intros q. rewrite Hd. apply Hdo.
    + transitivity (balance (sy x)); [unfold balance; by rewrite Hdn, Hu|exact Hb].
Qed.

(** The states that the steps of the processes reach, in whatever order they run. *)
Inductive mreaches (x : monitor) : monitor → Prop :=
| mreaches_here : mreaches x x
| mreaches_step a x1 x2 : mreaches x x1 → menabled a x1 → mstep c mutex next a x1 = Ret x2 → mreaches x x2.

Lemma mreaches_inv x x' : minv x → mreaches x x' → minv x'.
Proof.
  intros Hx. induction 1 as [|a x1 x2 _ IH Hen Hrun]; [done|].
  destruct (mstep_run a x1 IH Hen) as (x2' & Hrun' & Hx2). rewrite Hrun in Hrun'. by injection Hrun' as <-.
Qed.

(** A new monitor is free: nobody has used its semaphores, and nobody is inside. *)
Record unused (x : monitor) : Prop := {
  u_sched : sched_ok c (sc (st (sy x)));
  u_run : runnable (sc (st (sy x))) (current (sc (st (sy x))));
  u_idle : idleproc (sc (st (sy x))) ∉ ps;
  u_sems : sems (st (sy x)) = ∅;
  u_queues : ∀ m, queue_of (st (sy x)) m = [];
  u_down : in_down (sy x) = ∅;
  u_log : downs (sy x) = [] ∧ ups (sy x) = [];
  u_pcs : pcs x = ∅ }.

Lemma minv_fresh x s : unused x → sc s = sc (st (sy x)) →
  (∀ m, sems s !! m = if decide (m ∈ keys) then Some (v0 m) else None) → (∀ m, queue_of s m = []) →
  (∀ m, m ∈ keys → is_Some (queues s !! m)) →
  minv (mkMonitor (mkSys s (in_down (sy x)) (downs (sy x)) (ups (sy x))) 0 (list_to_map ((λ cv, (cv, 0)) <$> cvs)) (pcs x)).
Proof.
  intros [Hs Hr Hi _ _ Hd [Hdn Hup] Hpc] Hsc Hsems Hq Hqs. rewrite Hd, Hdn, Hup, Hpc.
  assert (∀ f, f Out = 0 → total f (mkMonitor (mkSys s ∅ [] []) 0 (list_to_map ((λ cv, (cv, 0)) <$> cvs)) ∅) = 0) as Ht.
  { intros f Hf. unfold total, pc_of. simpl. rewrite (sum_ext _ (λ _, 0)); [apply sum_zero|]. intros q _. by rewrite lookup_empty. }
  split; simpl; rewrite ?Hsc; try done.
  - split; [|simpl; by rewrite Hsc]. split; simpl.
    + by rewrite Hsc.
    + intros m v. rewrite Hsems. case_decide as Hm; [intros [= <-]|done]. rewrite Hq.
      split; [unfold v0; case_decide; lia|]. split; [by apply Hqs|]. split; [done|].
      unfold granted. rewrite map_to_list_empty. simpl. unfold count. simpl. lia.
    + intros m. rewrite Hq. constructor.
    + intros m w. rewrite Hq. by intros ?%elem_of_nil.
    + intros p m w. by rewrite lookup_empty.
  - intros m Hm. rewrite Hsems, decide_True by done. eauto.
  - rewrite Ht by done. unfold balance. simpl. rewrite (sum_ext _ (λ _, 0)); [apply sum_zero|]. done.
  - intros cv Hcv. rewrite Ht by done. apply elem_of_list_to_map_1.
    + rewrite <-list_fmap_compose, list_fmap_id. by apply NoDup_cons in keys_nodup as [_ [_ ?]%NoDup_cons].
    + apply list_elem_of_fmap. by exists cv.
  - by rewrite Ht.
Qed.

(** C30: Only one process at a time is active in a monitor: in every reachable state, however the processes are
    scheduled, two processes that may touch the data of the monitor are the same, and no step that the running
    process may take there (entering, waiting, signalling, leaving or yielding) fails. *)
Theorem monitor_excludes x x' :
  minv x → mreaches x x' →
  (∀ p q, active (pc_of x' p) = true → active (pc_of x' q) = true → p = q) ∧
  (∀ a, menabled a x' → ∃ x2, mstep c mutex next a x' = Ret x2).
Proof.
  intros Hx Hr. pose proof (mreaches_inv x x' Hx Hr) as Hx'. split; [intros p q Hp Hq; by eapply excludes|].
  intros a Hen. destruct (mstep_run a x' Hx' Hen) as (x2 & ? & _). eauto.
Qed.

(** C31: A signal reaches a process that waits for the condition: when a process has found waiters and is about to
    release one, some process is at the [down] of [cond_wait] on that condition, past its release of the monitor;
    and when a process hands the monitor to [next], some process waits in [cond_signal]. *)
Theorem signal_not_lost x x' p :
  minv x → mreaches x x' →
  match pc_of x' p with
  | Sig SUp cv => ∃ q, q ∈ ps ∧ q ≠ p ∧ (pc_of x' q = Wait WDown cv ∨ pc_of x' q = Wait WIn cv)
  | Wait (WUp m) _ | LeaveUp m =>
      m = next → ∃ q cv, q ∈ ps ∧ q ≠ p ∧ (pc_of x' q = Sig SDown cv ∨ pc_of x' q = Sig SIn cv)
  | _ => True
  end.
Proof.
  intros Hx Hr. pose proof (mreaches_inv x x' Hx Hr) as Hx'.
  assert (∀ q, active (pc_of x' p) = true → q ≠ p → active (pc_of x' q) = false) as Hex.
  { intros q Ha Hq. apply not_true_is_false. intros Hb. apply Hq. by eapply excludes. }
  assert (active (pc_of x' p) = true → sig1 (pc_of x' p) = 0 → 0 < total sig1 x' →
    ∃ q cv, q ∈ ps ∧ q ≠ p ∧ (pc_of x' q = Sig SDown cv ∨ pc_of x' q = Sig SIn cv)) as Hsig.
  { intros Ha H0 Hs. destruct (sum_pos _ _ Hs) as (q & Hq & Hq1). cbv beta in Hq1. assert (q ≠ p) as Hne by (intros ->; lia).
    pose proof (Hex q Ha Hne) as Hb. destruct (pc_of x' q) as [| | | |i cv|] eqn:Hqc; try (simpl in Hq1; lia). exists q, cv.
    rewrite Hqc. destruct i; try done; eauto. }
  pose proof (mi_handed x' Hx' p) as Hh. pose proof (mi_signal x' Hx' p) as Hw.
  destruct (pc_of x' p) as [| | |i cv|i cv|m] eqn:Hpc; try done.
  - destruct i; try done. intros ->. apply Hsig; [done|done|by apply Hh].
  - destruct i; try done. destruct (sum_pos _ _ (Hw cv eq_refl)) as (q & Hq & Hq1). cbv beta in Hq1.
    assert (q ≠ p) as Hne by (intros ->; rewrite Hpc in Hq1; simpl in Hq1; lia). pose proof (Hex q eq_refl Hne) as Hb.
    destruct (pc_of x' q) as [| | |i' cv'| |] eqn:Hqc; try (simpl in Hq1; lia). simpl in Hq1.
    destruct (decide (cv' = cv)) as [->|]; [|rewrite bool_decide_false in Hq1 by done; simpl in Hq1; lia].
    exists q. rewrite Hqc. destruct i'; try done; eauto.
  - intros ->. apply Hsig; [done|done|by apply Hh].
Qed.

End inv.

(** * [monitor_init] *)

Lemma init_cvs_run cvs s : ∃ s', init_cvs cvs s = Ret (tt, s') ∧ sc s' = sc s ∧
  (∀ m, sems s' !! m = if decide (m ∈ cvs) then Some 0 else sems s !! m) ∧
  (∀ m, queues s' !! m = if decide (m ∈ cvs) then Some [] else queues s !! m).
Proof.
  revert s. induction cvs as [|cv cvs IH]; intros s.
  { exists s. split_and!; try done; intros m; rewrite decide_False; try done; by intros ?%elem_of_nil. }
  destruct (IH (set_queues (set_sems s (<[cv := 0]> (sems s))) (<[cv := []]> (queues s)))) as (s' & Hrun & Hsc & Hs & Hq).
  exists s'. split_and!; [exact Hrun|by rewrite Hsc|..]; intros m.
  - rewrite Hs. simpl. destruct (decide (m = cv)) as [->|Hm].
    + rewrite lookup_insert_eq. rewrite (decide_True (P := cv ∈ cv :: cvs)) by set_solver. by case_decide.
    + rewrite lookup_insert_ne by done. by rewrite (decide_ext (m ∈ cvs) (m ∈ cv :: cvs)) by set_solver.
  - rewrite Hq. simpl. destruct (decide (m = cv)) as [->|Hm].
    + rewrite lookup_insert_eq. rewrite (decide_True (P := cv ∈ cv :: cvs)) by set_solver. by case_decide.
    + rewrite lookup_insert_ne by done. by rewrite (decide_ext (m ∈ cvs) (m ∈ cv :: cvs)) by set_solver.
Qed.

Lemma monitor_init_minv (c : sched_class) `{L : !sched_laws c} mutex next base num_cv ps x :
  NoDup (mutex :: next :: cvs_at base num_cv) → NoDup ps → Z.of_nat (length ps) < 2 ^ 31 → 0 < Z.of_nat num_cv → unused c ps x →
  ∃ x', monitor_init mutex next num_cv (Some base) x = Ret x' ∧ minv c mutex next (cvs_at base num_cv) ps x'.
Proof.
  intros Hnd Hps Hlen Hn Hx. unfold monitor_init. set (cvs := cvs_at base num_cv) in *.
  set (s0 := set_queues (set_sems (st (sy x)) (<[next := 0]> (<[mutex := 1]> (sems (st (sy x))))))
    (<[next := []]> (<[mutex := []]> (queues (st (sy x)))))).
  destruct (init_cvs_run cvs s0) as (s & Hrun & Hsc & Hs & Hq). eexists. split.
  { assert ((assert (0 <? Z.of_nat num_cv) ;; sem_init mutex 1 ;; sem_init next 0 ;; init_cvs cvs ;; mret cvs) (st (sy x))
      = Ret (cvs, s)) as ->; [|reflexivity].
    unfold assert. rewrite (proj2 (Z.ltb_lt _ _) Hn). transitivity ((init_cvs cvs ;; mret cvs) s0); [reflexivity|].
    by rewrite (M_bind_step _ _ _ _ _ Hrun). }
  apply NoDup_cons in Hnd as Hnd'. destruct Hnd' as [Hmn _].
  apply (minv_fresh c); try done.
  - intros m. rewrite Hs. unfold keys, v0. simpl. rewrite (u_sems _ _ _ Hx).
    destruct (decide (m ∈ cvs)) as [Hm|Hm]; [rewrite !decide_True by set_solver|]; [by rewrite decide_False by set_solver|].
    destruct (decide (m = next)) as [->|]; [rewrite lookup_insert_eq, decide_True by set_solver; by rewrite decide_False by set_solver|].
    rewrite lookup_insert_ne by done. destruct (decide (m = mutex)) as [->|]; [by rewrite lookup_insert_eq, decide_True by set_solver|].
    by rewrite lookup_insert_ne, lookup_empty, decide_False by set_solver.
  - intros m. unfold queue_of. rewrite Hq. case_decide; [done|]. simpl. pose proof (u_queues _ _ _ Hx m) as Hm. unfold queue_of in Hm.
    destruct (decide (m = next)) as [->|]; [by rewrite lookup_insert_eq|]. rewrite lookup_insert_ne by done.
    destruct (decide (m = mutex)) as [->|]; [by rewrite lookup_insert_eq|]. by rewrite lookup_insert_ne by done.
  - intros m Hm. rewrite Hq. case_decide; [eauto|]. simpl. destruct (decide (m = next)) as [->|]; [rewrite lookup_insert_eq; eauto|].
    rewrite lookup_insert_ne by done. destruct (decide (m = mutex)) as [->|]; [rewrite lookup_insert_eq; eauto|].
    unfold keys in Hm. set_solver.
Qed.

(** * A concrete monitor *)

#[export] Instance menabled_dec cvs ps a x : Decision (menabled cvs ps a x).
Proof. destruct a; simpl; apply _. Defined.

(** The state after the acts [l], when each of them is enabled and returns. *)
Fixpoint mruns (c : sched_class) (mutex next : Z) (cvs ps : list Z) (l : list act) (x : monitor) : option monitor :=
  match l with
  | [] => Some x
  | a :: l =>
      if decide (menabled cvs ps a x) then
        match mstep c mutex next a x with Ret x' => mruns c mutex next cvs ps l x' | Err _ => None end
      else None
  end.

Lemma mruns_reaches (c : sched_class) mutex next cvs ps l x x1 x2 :
  mreaches c mutex next cvs ps x x1 → mruns c mutex next cvs ps l x1 = Some x2 → mreaches c mutex next cvs ps x x2.
Proof.
  revert x1. induction l as [|a l IH]; simpl; intros x1 Hr Hrun; [by injection Hrun as <-|].
  destruct (decide (menabled cvs ps a x1)); [|done]. destruct (mstep c mutex next a x1) as [x'|] eqn:E; [|done].
  by apply (IH x'); [eapply mreaches_step|].
Qed.

(** A monitor with one condition variable, used by the processes 1, 2 and 4 of [demo_sched]. *)
Definition demo_empty : monitor := mkMonitor (mkSys (mkSync demo_sched ∅ ∅ ∅) ∅ [] []) 0 ∅ ∅.
Definition demo_monitor : monitor :=
  match monitor_init 50 51 1 (Some 60) demo_empty with Ret x => x | Err _ => demo_empty end.
(** Process 1 enters and waits for the condition; process 2 enters and signals it. *)
Definition demo_signal : monitor :=
  default demo_monitor (mruns rr_sched_class 50 51 [60] [1; 2; 4]
    [AGo; AWait 60; AGo; AGo; AGo; AGo; ASignal 60] demo_monitor).

Lemma demo_unused : unused rr_sched_class [1; 2; 4] demo_empty.
Proof.
  split; try done.
  - apply demo_sched_ok.
  - eexists. by split; [vm_compute|].
  - apply (bool_decide_unpack (0 ∉ [1; 2; 4])). by vm_compute.
Qed.

Lemma demo_minv : minv rr_sched_class 50 51 [60] [1; 2; 4] demo_monitor.
Proof.
  destruct (monitor_init_minv rr_sched_class 50 51 60 1 [1; 2; 4] demo_empty) as (x & Hrun & Hx).
  - apply (bool_decide_unpack (NoDup [50; 51; 60])). by vm_compute.
  - apply (bool_decide_unpack (NoDup [1; 2; 4])). by vm_compute.
  - done.
  - done.
  - apply demo_unused.
  - unfold demo_monitor. by rewrite Hrun.
Qed.

Lemma demo_signal_reached : mreaches rr_sched_class 50 51 [60] [1; 2; 4] demo_monitor demo_signal.
Proof.
  eapply mruns_reaches; [apply mreaches_here|]. unfold demo_signal.
  instantiate (1 := [AGo; AWait 60; AGo; AGo; AGo; AGo; ASignal 60]). by vm_compute.
Qed.

Lemma monitor_excludes_witness :
  active (pc_of demo_signal 2) = true ∧ ∃ x2, mstep rr_sched_class 50 51 AGo demo_signal = Ret x2.
Proof.
  split; [by vm_compute|].
  refine (proj2 (monitor_excludes rr_sched_class 50 51 [60] ltac:(apply (bool_decide_unpack (NoDup [50; 51; 60])); by vm_compute)
    [1; 2; 4] ltac:(apply (bool_decide_unpack (NoDup [1; 2; 4])); by vm_compute) ltac:(done) demo_monitor demo_signal
    demo_minv demo_signal_reached) AGo _). by vm_compute.
Defined.

Lemma signal_not_lost_witness :
  pc_of demo_signal 2 = Sig SUp 60 ∧
  ∃ q, q ∈ [1; 2; 4] ∧ q ≠ 2 ∧ (pc_of demo_signal q = Wait WDown 60 ∨ pc_of demo_signal q = Wait WIn 60).
Proof.
  split; [by vm_compute|].
  pose proof (signal_not_lost rr_sched_class 50 51 [60] ltac:(apply (bool_decide_unpack (NoDup [50; 51; 60])); by vm_compute)
    [1; 2; 4] ltac:(apply (bool_decide_unpack (NoDup [1; 2; 4])); by vm_compute) ltac:(done) demo_monitor demo_signal 2
    demo_minv demo_signal_reached) as H.
  assert (pc_of demo_signal 2 = Sig SUp 60) as E by by vm_compute. by rewrite E in H.
Defined.

End Monitor.
