(* ===== verification/Proc.v ===== *)
(** Processes: kern/process/proc.c - process identifiers, the process list and hash table, the family
    pointers, and [do_fork], [do_exit], [do_wait], [do_kill], [do_yield] and [do_sleep].

    The memory and files of a process belong to other components; [proc_env] is the interface through
    which this one uses them.  [do_exit], [do_wait] and [do_sleep] give up the processor in the middle:
    a function ends with the call of [schedule], and what the process does when it runs again is a
    function of its own. *)
From S2P Require Import Prelude Dll SkewHeap ProcData Sched Timers.

Module Proc.
Import Dll ProcData Sched Timers.
Set Default Proof Using "Type".

Definition MAX_PROCESS : Z := 4096.
Definition MAX_PID : Z := MAX_PROCESS * 2.
Definition HASH_SHIFT : Z := 10.
Definition GOLDEN_RATIO_PRIME_32 : Z := 0x9e370001.

(** [hash32] of libs/hash.c. *)
Definition hash32 (val bits : Z) : Z := Z.shiftr (u32 (val * GOLDEN_RATIO_PRIME_32)) (32 - bits).
Definition pid_hashfn (x : Z) : Z := hash32 (u32 x) HASH_SHIFT.
#[global] Opaque pid_hashfn.

(** The address of the list head [proc_list]. *)
Definition proc_list : Z := -1.

Section env.
Context {R : Type}.

(** What proc.c uses of the memory and file components, for the process with a given key:
    [kmalloc(sizeof(struct proc_struct))] and [kfree], [setup_kstack] and [put_kstack], [copy_fs] and
    [put_fs], [copy_mm], [copy_thread], and the release of the address space at the head of [do_exit]. *)
Class proc_env := {
  new_proc : M R (option Z);
  free_proc : Z → M R unit;
  setup_kstack : Z → M R Z;
  put_kstack : Z → M R unit;
  copy_fs : Z → Z → Z → M R Z;     (* clone_flags, current, proc *)
  put_fs : Z → M R unit;
  copy_mm : Z → Z → Z → M R Z;
  copy_thread : Z → Z → Z → M R unit;  (* proc, esp, the address of the trap frame *)
  exit_mm : Z → M R unit;
  user_mem_ok : Z → Z → M R bool;  (* current, code_store *)
  store_code : Z → Z → Z → M R unit }.

(** The globals of proc.c.  [links] holds the list head [proc_list] and the [list_link] of each process,
    under the key of the process. *)
Record ptab := mkPtab {
  ps : sched;
  links : Dll.heap;
  hash_list : gmap Z (list Z);
  nr_process : Z;
  initproc : Z;
  next_safe : Z;
  last_pid : Z;
  env : R }.

Definition set_ps (s : ptab) (x : sched) : ptab :=
  mkPtab x (links s) (hash_list s) (nr_process s) (initproc s) (next_safe s) (last_pid s) (env s).
Definition set_links_of (s : ptab) (x : Dll.heap) : ptab :=
  mkPtab (ps s) x (hash_list s) (nr_process s) (initproc s) (next_safe s) (last_pid s) (env s).
Definition set_nr (s : ptab) (n : Z) : ptab :=
  mkPtab (ps s) (links s) (hash_list s) n (initproc s) (next_safe s) (last_pid s) (env s).
Definition set_hash (s : ptab) (x : gmap Z (list Z)) : ptab :=
  mkPtab (ps s) (links s) x (nr_process s) (initproc s) (next_safe s) (last_pid s) (env s).
Definition set_pids (s : ptab) (safe last : Z) : ptab :=
  mkPtab (ps s) (links s) (hash_list s) (nr_process s) (initproc s) safe last (env s).
Definition set_env (s : ptab) (x : R) : ptab :=
  mkPtab (ps s) (links s) (hash_list s) (nr_process s) (initproc s) (next_safe s) (last_pid s) x.

Definition sdo {A} (m : M sched A) : M ptab A := λ s,
  match m (ps s) with
  | Ret (a, x) => Ret (a, set_ps s x)
  | Err e => Err e
  end.
Definition edo {A} (m : M R A) : M ptab A := λ s,
  match m (env s) with
  | Ret (a, x) => Ret (a, set_env s x)
  | Err e => Err e
  end.

Definition ldo {A} (m : M Dll.heap A) : M ptab A := λ s,
  match m (links s) with
  | Ret (a, x) => Ret (a, set_links_of s x)
  | Err e => Err e
  end.

Definition pget (p : Z) : M ptab proc_struct := sdo (proc_at p).
Definition pset (p : Z) (f : proc_struct → proc_struct) : M ptab unit := sdo (proc_upd p f).
Definition getcur : M ptab Z := sdo (gets current).

(** ** The family pointers *)

Definition set_links (p : Z) : M ptab unit :=
  ldo (list_add proc_list p) ;;
  pset p (λ x, set_yptr x None) ;;
  pr ← pget p;
  q ← deref (λ _, parent pr);
  qr ← pget q;
  pset p (λ x, set_optr x (cptr qr)) ;;
  match cptr qr with Some o => pset o (λ x, set_yptr x (Some p)) | None => mret tt end ;;
  pset q (λ x, set_cptr x (Some p)) ;;
  modify (λ s, set_nr s (nr_process s + 1)).

Definition remove_links (p : Z) : M ptab unit :=
  ldo (list_del p) ;;
  pr ← pget p;
  match optr pr with Some o => pset o (λ x, set_yptr x (yptr pr)) | None => mret tt end ;;
  match yptr pr with
  | Some y => pset y (λ x, set_optr x (optr pr))
  | None => q ← deref (λ _, parent pr); pset q (λ x, set_cptr x (optr pr))
  end ;;
  modify (λ s, set_nr s (nr_process s - 1)).

(** ** Process identifiers *)

(** One pass of the loop of [get_pid] over the identifiers in use: [inl] the last_pid and next_safe it
    ends with, [inr] the last_pid with which it jumps to [repeat]. *)
Fixpoint pid_scan (pids : list Z) (last safe : Z) : (Z * Z) + Z :=
  match pids with
  | [] => inl (last, safe)
  | pid :: pids' =>
      if pid =? last then
        if safe <=? last + 1 then inr (if MAX_PID <=? last + 1 then 1 else last + 1)
        else pid_scan pids' (last + 1) safe
      else if (last <? pid) && (pid <? safe) then pid_scan pids' last pid
      else pid_scan pids' last safe
  end.

Fixpoint pid_repeat (fuel : nat) (pids : list Z) (last : Z) : option (Z * Z) :=
  match fuel with
  | O => None
  | S n =>
      match pid_scan pids last MAX_PID with
      | inl r => Some r
      | inr last' => pid_repeat n pids last'
      end
  end.

(** The identifiers of the processes on [proc_list] behind the entry [le]. *)
Fixpoint list_pids (fuel : nat) (le : Z) : M ptab (list Z) :=
  match fuel with
  | O => fail EFuel
  | S n =>
      p ← ldo (list_next le);
      if decide (p = proc_list) then mret []
      else pr ← pget p; r ← list_pids n p; mret (pid pr :: r)
  end.

(** More passes than the loop can make. *)
Definition pid_fuel : nat := Z.to_nat (2 * MAX_PID + 1).

Definition get_pid : M ptab Z :=
  s ← get;
  let last := last_pid s + 1 in
  let wrapped := MAX_PID <=? last in
  let last' := if wrapped then 1 else last in
  if wrapped || (next_safe s <=? last') then
    pids ← list_pids (S (size (links s))) proc_list;
    match pid_repeat pid_fuel pids last' with
    | Some (l, n) => modify (λ s, set_pids s n l) ;; mret l
    | None => fail EFuel
    end
  else modify (λ s, set_pids s (next_safe s) last') ;; mret last'.

(** ** The hash table *)

Definition bucket (s : ptab) (b : Z) : list Z := default [] (hash_list s !! b).

Definition hash_proc (p : Z) : M ptab unit :=
  pr ← pget p;
  modify (λ s, set_hash s (<[pid_hashfn (pid pr) := seq_add_after None p (bucket s (pid_hashfn (pid pr)))]>
                 (hash_list s))).

(** [list_del] unlinks the process from the list it is on. *)
Definition unhash_proc (p : Z) : M ptab unit := modify (λ s, set_hash s (seq_del p <$> hash_list s)).

Fixpoint find_loop (pid_ : Z) (l : list Z) : M ptab (option Z) :=
  match l with
  | [] => mret None
  | p :: l' => pr ← pget p; if pid pr =? pid_ then mret (Some p) else find_loop pid_ l'
  end.

Definition find_proc (pid_ : Z) : M ptab (option Z) :=
  if (0 <? pid_) && (pid_ <? MAX_PID) then
    s ← get; find_loop pid_ (bucket s (pid_hashfn pid_))
  else mret None.

(** ** System calls *)

Context `{E : proc_env} (c : sched_class) (boot_cr3 : Z).

Definition do_fork (clone_flags stack tf : Z) : M ptab Z :=
  n ← gets nr_process;
  if MAX_PROCESS <=? n then mret (- E_NO_FREE_PROC) else
  r ← edo new_proc;
  match r with
  | None => mret (- E_NO_MEM)
  | Some p =>
      cur ← getcur;
      sdo (modify (λ x, set_procs x (<[p := set_parent (alloc_proc boot_cr3) (Some cur)]> (procs x)))) ;;
      ldo (modify (λ h, <[p := mk_entry 0 0]> h)) ;;
      cr ← pget cur;
      assert (wait_state cr =? 0) ;;
      let cleanup := edo (free_proc p) ;; sdo (modify (λ x, set_procs x (delete p (procs x)))) ;; mret (- E_NO_MEM) in
      k ← edo (setup_kstack p);
      if negb (k =? 0) then cleanup else
      f ← edo (copy_fs clone_flags cur p);
      if negb (f =? 0) then edo (put_kstack p) ;; cleanup else
      m ← edo (copy_mm clone_flags cur p);
      if negb (m =? 0) then edo (put_fs p) ;; edo (put_kstack p) ;; cleanup else
      edo (copy_thread p stack tf) ;;
      id ← get_pid;
      pset p (λ x, set_pid x id) ;;
      hash_proc p ;;
      set_links p ;;
      sdo (wakeup_proc c p) ;;
      pr ← pget p;
      mret (pid pr)
  end.

(** The loop of [do_exit] that gives the children of [cur] to [initproc]. *)
Fixpoint reparent_loop (fuel : nat) (cur : Z) : M ptab unit :=
  match fuel with
  | O => fail EFuel
  | S n =>
      cr ← pget cur;
      match cptr cr with
      | None => mret tt
      | Some p =>
          pr ← pget p;
          pset cur (λ x, set_cptr x (optr pr)) ;;
          i ← gets initproc;
          pset p (λ x, set_yptr x None) ;;
          ir ← pget i;
          pset p (λ x, set_optr x (cptr ir)) ;;
          match cptr ir with Some o => pset o (λ x, set_yptr x (Some p)) | None => mret tt end ;;
          pset p (λ x, set_parent x (Some i)) ;;
          pset i (λ x, set_cptr x (Some p)) ;;
          pr' ← pget p;
          ir' ← pget i;
          when (bool_decide (state pr' = PROC_ZOMBIE) && (wait_state ir' =? WT_CHILD)) (sdo (wakeup_proc c i)) ;;
          reparent_loop n cur
      end
  end.

(** [do_exit] up to the call of [schedule], from which it does not return. *)
Definition do_exit (error_code : Z) : M ptab unit :=
  cur ← getcur;
  x ← sdo (gets idleproc);
  i ← gets initproc;
  assert (bool_decide (cur ≠ x) && bool_decide (cur ≠ i)) ;;
  edo (exit_mm cur) ;;
  edo (put_fs cur) ;;
  pset cur (λ q, set_exit_code (set_state q PROC_ZOMBIE) error_code) ;;
  cr ← pget cur;
  q ← deref (λ _, parent cr);
  qr ← pget q;
  when (wait_state qr =? WT_CHILD) (sdo (wakeup_proc c q)) ;;
  n ← sdo (gets (λ x, size (procs x)));
  reparent_loop (S n) cur ;;
  sdo (schedule c).

Definition do_yield : M ptab Z :=
  cur ← getcur; pset cur (λ q, set_need_resched q true) ;; mret 0.

Definition lab6_set_priority (pri : Z) : M ptab unit :=
  cur ← getcur; pset cur (λ q, set_priority q (if pri =? 0 then 1 else pri)).

(** The children of [do_wait(0)], from [p] on: a zombie, and whether there is a child at all. *)
Fixpoint wait_loop (fuel : nat) (p : option Z) (haskid : bool) : M ptab (option Z * bool) :=
  match fuel with
  | O => fail EFuel
  | S n =>
      match p with
      | None => mret (None, haskid)
      | Some p =>
          pr ← pget p;
          if decide (state pr = PROC_ZOMBIE) then mret (Some p, true) else wait_loop n (optr pr) true
      end
  end.

(** The search of [do_wait] for a zombie child. *)
Definition wait_search (pid_ : Z) : M ptab (option Z * bool) :=
  cur ← getcur;
  if negb (pid_ =? 0) then
    r ← find_proc pid_;
    match r with
    | None => mret (None, false)
    | Some p =>
        pr ← pget p;
        if decide (parent pr = Some cur) then
          mret (if decide (state pr = PROC_ZOMBIE) then Some p else None, true)
        else mret (None, false)
    end
  else
    cr ← pget cur;
    n ← sdo (gets (λ x, size (procs x)));
    wait_loop (S n) (cptr cr) false.

(** What [do_wait] does with the zombie it finds. *)
Definition reap (p : Z) (code_store : option Z) : M ptab unit :=
  x ← sdo (gets idleproc);
  i ← gets initproc;
  assert (bool_decide (p ≠ x) && bool_decide (p ≠ i)) ;;
  cur ← getcur;
  pr ← pget p;
  match code_store with Some a => edo (store_code cur a (exit_code pr)) | None => mret tt end ;;
  unhash_proc p ;;
  remove_links p ;;
  edo (put_kstack p) ;;
  edo (free_proc p) ;;
  sdo (modify (λ x, set_procs x (delete p (procs x)))).

(** From the label [repeat] of [do_wait] to its return, [Some], or to its call of [schedule], [None]. *)
Definition wait_round (pid_ : Z) (code_store : option Z) : M ptab (option Z) :=
  r ← wait_search pid_;
  match r with
  | (Some p, _) => reap p code_store ;; mret (Some 0)
  | (None, true) =>
      cur ← getcur;
      pset cur (λ q, set_wait_state (set_state q PROC_SLEEPING) WT_CHILD) ;;
      sdo (schedule c) ;;
      mret None
  | (None, false) => mret (Some (- E_BAD_PROC))
  end.

Definition do_wait (pid_ : Z) (code_store : option Z) : M ptab (option Z) :=
  cur ← getcur;
  b ← match code_store with Some a => edo (user_mem_ok cur a) | None => mret true end;
  if negb b then mret (Some (- E_INVAL)) else wait_round pid_ code_store.

(** [do_wait] when the process runs again. *)
Definition do_wait_resume (pid_ : Z) (code_store : option Z) : M ptab (option Z) :=
  cur ← getcur;
  cr ← pget cur;
  if negb (Z.land (flags cr) PF_EXITING =? 0) then do_exit (- E_KILLED) ;; mret None
  else wait_round pid_ code_store.

(** [do_kill] starts with [lec->next = lec->next->next] for the list head, when the first process of
    the list is the one to kill. *)
Definition do_kill (pid_ : Z) : M ptab Z :=
  p ← ldo (list_next proc_list);
  (if decide (p = proc_list) then mret tt
   else
     pr ← pget p;
     when (pid pr =? pid_) (n ← ldo (list_next p); ldo (set_next proc_list n))) ;;
  r ← find_proc pid_;
  match r with
  | None => mret (- E_INVAL)
  | Some p => sdo (kill_proc c p)
  end.

(** [do_sleep] with the timer at the key [t], up to the call of [schedule], and what is left of it. *)
Definition do_sleep (time t : Z) : M ptab bool :=
  if time =? 0 then mret true else
  cur ← getcur;
  sdo (modify (λ x, set_timers x (<[t := mkTimer time cur]> (timers x)) (timer_list x))) ;;
  pset cur (λ q, set_wait_state (set_state q PROC_SLEEPING) WT_TIMER) ;;
  sdo (add_timer t) ;;
  sdo (schedule c) ;;
  mret false.

Definition do_sleep_resume (t : Z) : M ptab Z := sdo (del_timer t) ;; mret 0.

End env.

(** * Process identifiers are fresh *)

(** The scan ends at an identifier no process has, with a gap up to [next_safe] behind it. *)
Lemma pid_scan_inl done todo last safe last' safe' :
  (∀ x, x ∈ done → ¬ (last ≤ x < safe)) → last < safe →
  pid_scan todo last safe = inl (last', safe') →
  last ≤ last' < safe' ∧ safe' ≤ safe ∧ (∀ x, x ∈ done ++ todo → ¬ (last' ≤ x < safe')).
Proof.
  revert done last safe. induction todo as [|pid todo IH]; intros done last safe Hd Hlt; simpl.
  - intros [= <- <-]. rewrite app_nil_r. split_and!; [lia|lia|lia|done].
  - destruct (pid =? last) eqn:He; z_bool.
    + destruct (safe <=? last + 1) eqn:Hs; [done|]. z_bool. intros H.
      apply (IH (done ++ [pid])) in H as (? & ? & Hx); [|intros x [Hx| ->%list_elem_of_singleton]%elem_of_app; [|lia]|lia].
      2:{ specialize (Hd x Hx). lia. }
      rewrite <-app_assoc in Hx. split_and!; [lia|lia|lia|done].
    + destruct ((last <? pid) && (pid <? safe)) eqn:Hc.
      * apply andb_prop in Hc as [H1 H2]. z_bool. intros H.
        apply (IH (done ++ [pid])) in H as (? & ? & Hx); [|intros x [Hx| ->%list_elem_of_singleton]%elem_of_app; [|lia]|lia].
        2:{ specialize (Hd x Hx). lia. }
        rewrite <-app_assoc in Hx. split_and!; [lia|lia|lia|done].
      * apply andb_false_iff in Hc. intros H.
        apply (IH (done ++ [pid])) in H as (? & ? & Hx); [|intros x [Hx| ->%list_elem_of_singleton]%elem_of_app|lia].
        -- rewrite <-app_assoc in Hx. split_and!; [lia|lia|lia|done].
        -- by apply Hd.
        -- destruct Hc; z_bool; lia.
Qed.

(** A restart is at the next identifier that is not known to be in use. *)
Lemma pid_scan_inr todo last safe r :
  1 ≤ last < safe → safe ≤ MAX_PID → pid_scan todo last safe = inr r →
  ∃ top, last ≤ top < MAX_PID ∧ (∀ x, last ≤ x ≤ top → x ∈ todo) ∧
    r = (if MAX_PID <=? top + 1 then 1 else top + 1).
Proof.
  revert last safe. induction todo as [|pid todo IH]; intros last safe Hl Hs; simpl; [done|].
  destruct (pid =? last) eqn:He; z_bool.
  - destruct (safe <=? last + 1) eqn:Hc; z_bool.
    + intros [= <-]. exists last. split_and!; [lia|lia| |done]. intros x Hx. apply elem_of_cons. left. lia.
    + intros H. apply IH in H as (top & Ht & Hx & ->); [|lia|lia]. exists top. split_and!; [lia|lia| |done].
      intros x Hr. destruct (decide (x = last)) as [->|]; apply elem_of_cons; [left; lia|]. right. apply Hx. lia.
  - intros H. assert (∃ top, last ≤ top < MAX_PID ∧ (∀ x, last ≤ x ≤ top → x ∈ todo) ∧
      r = (if MAX_PID <=? top + 1 then 1 else top + 1)) as (top & ? & Hx & ?).
    { destruct ((last <? pid) && (pid <? safe)) eqn:Hc; [|by apply IH in H].
      apply andb_prop in Hc as [H1 H2]. z_bool. by apply IH in H; [|lia|lia]. }
    exists top. split_and!; [lia|lia| |done]. intros x Hr. right. by apply Hx.
Qed.

(** The number of identifiers [get_pid] may still have to skip before it reaches the free one [u]. *)
Definition pid_distance (u last : Z) : Z := if decide (last ≤ u) then u - last else MAX_PID - last + u.

Lemma pid_repeat_total pids u : ∀ fuel last,
  1 ≤ u < MAX_PID → u ∉ pids → 1 ≤ last < MAX_PID → pid_distance u last < Z.of_nat fuel →
  ∃ l n, pid_repeat fuel pids last = Some (l, n) ∧ 1 ≤ l < n ∧ n ≤ MAX_PID ∧
    (∀ x, x ∈ pids → ¬ (l ≤ x < n)).
Proof.
  induction fuel as [|fuel IH]; intros last Hu Hnu Hl Hf.
  { unfold pid_distance in Hf. case_decide; lia. }
  simpl. destruct (pid_scan pids last MAX_PID) as [[l n]|r] eqn:Hs.
  - apply (pid_scan_inl [] pids) in Hs as (? & ? & ?); [|by intros ? ?%elem_of_nil|lia].
    exists l, n. split_and!; [done|lia|lia|lia|done].
  - apply pid_scan_inr in Hs as (top & Ht & Hx & ->); [|lia|done]. apply IH; [done|done| |].
    + destruct (MAX_PID <=? top + 1) eqn:Hc; z_bool; unfold MAX_PID, MAX_PROCESS in *; lia.
    + assert (¬ (last ≤ u ≤ top)) as Hno by (intros Hr; apply Hnu, Hx, Hr).
      unfold pid_distance in *. destruct (MAX_PID <=? top + 1) eqn:Hc; z_bool; repeat case_decide; lia.
Qed.

Lemma pid_free_exists pids :
  Z.of_nat (length pids) < MAX_PID - 1 → ∃ u, 1 ≤ u < MAX_PID ∧ u ∉ pids.
Proof.
  intros Hlen. destruct (decide (Forall (λ u, u ∈ pids) (seqZ 1 (MAX_PID - 1)))) as [Hall|Hn].
  - exfalso. rewrite Forall_forall in Hall. assert (seqZ 1 (MAX_PID - 1) ⊆+ pids) as Hsub.
    { apply NoDup_submseteq; [apply NoDup_seqZ|]. exact Hall. }
    apply submseteq_length in Hsub. rewrite length_seqZ in Hsub. lia.
  - apply not_Forall_Exists in Hn; [|apply _]. apply Exists_exists in Hn as (u & Hu & Hnu).
    apply elem_of_seqZ in Hu. exists u. split; [lia|done].
Qed.

Section pids.
Context {R : Type}.
Implicit Types (s : @ptab R).

Lemma pget_run s p pr : procs (ps s) !! p = Some pr → pget p s = Ret (pr, s).
Proof. intros H. unfold pget, sdo. rewrite (proc_at_run _ _ _ H). by destruct s. Qed.

Lemma pset_run s p f pr :
  procs (ps s) !! p = Some pr →
  pset p f s = Ret (tt, set_ps s (set_procs (ps s) (<[p := f pr]> (procs (ps s))))).
Proof. intros H. unfold pset, sdo. by rewrite (proc_upd_run _ _ _ _ H). Qed.

Lemma list_next_run s a b : next <$> links s !! a = Some b → ldo (list_next a) s = Ret (b, s).
Proof.
  intros H. unfold ldo, list_next, load, deref, mbind, M_bind. destruct (links s !! a) as [e|]; [|done].
  injection H as <-. by destruct s.
Qed.

(** The identifiers of the processes [l]. *)
Definition pids_of s (l : list Z) : list Z := omap (λ p, pid <$> procs (ps s) !! p) l.
Definition alive s (l : list Z) : Prop := ∀ p, p ∈ l → is_Some (procs (ps s) !! p).

Lemma pids_of_cons s p pr l : procs (ps s) !! p = Some pr → pids_of s (p :: l) = pid pr :: pids_of s l.
Proof. intros H. unfold pids_of. csimpl. by rewrite H. Qed.

Lemma length_pids_of s l : alive s l → length (pids_of s l) = length l.
Proof.
  induction l as [|p l IH]; intros Ha; [done|]. destruct (Ha p) as [pr Hp]; [set_solver|].
  rewrite (pids_of_cons s p pr) by done. simpl. f_equal. apply IH. intros q Hq. apply Ha. set_solver.
Qed.

Lemma list_pids_walk s l : dlist (links s) proc_list l → alive s l → ∀ l2 l1 a fuel,
  cycle proc_list l = l1 ++ a :: l2 ++ [proc_list] → (length l2 < fuel)%nat →
  list_pids fuel a s = Ret (pids_of s l2, s).
Proof.
  intros Hd Ha. induction l2 as [|p l2 IH]; intros l1 a fuel Hc Hf; (destruct fuel as [|fuel]; [simpl in Hf; lia|]).
  - simpl. step using (apply list_next_run; by eapply dlist_next). by rewrite decide_True.
  - assert (p ∈ l) as Hp.
    { assert (p ∈ proc_list :: l) as Hin by (eapply cycle_mem2; exact Hc).
      apply elem_of_cons in Hin as [->|]; [|done]. exfalso.
      destruct Hd as (Hnd & _ & _). unfold cycle in Hc.
      assert (proc_list :: l = l1 ++ a :: proc_list :: l2) as Heq.
      { apply (app_inj_tail (proc_list :: l) (l1 ++ a :: proc_list :: l2) proc_list proc_list).
        rewrite <-app_assoc. exact Hc. }
      destruct l1 as [|b l1]; simplify_eq/=; apply NoDup_cons in Hnd as [Hn _]; set_solver. }
    destruct (Ha p Hp) as [pr Hpr]. cbn [list_pids].
    step using (apply list_next_run; by eapply dlist_next). rewrite decide_False.
    2:{ intros ->. destruct Hd as (Hnd & _). apply NoDup_cons in Hnd as [? _]. done. }
    step using (by apply pget_run).
    step using (apply (IH (l1 ++ [a]) p fuel); [by rewrite <-app_assoc|simpl in Hf; lia]).
    by rewrite (pids_of_cons s p pr).
Qed.

Lemma dlist_size h head l : dlist h head l → (length l < size h)%nat.
Proof.
  intros (Hnd & Hn & _).
  assert (list_to_set (head :: l) ⊆ dom h) as Hsub.
  { intros x. rewrite elem_of_list_to_set. intros (i & Hi)%list_elem_of_lookup. apply elem_of_dom.
    assert (∃ b, cycle head l !! S i = Some b) as [b Hb].
    { apply lookup_lt_is_Some. unfold cycle. simpl. apply lookup_lt_Some in Hi. simpl in Hi. rewrite length_app. simpl. lia. }
    specialize (Hn i x b). destruct (h !! x); [eauto|]. exfalso.
    enough (@None Z = Some b) by done. apply Hn; [|done]. unfold cycle. rewrite app_comm_cons. by apply lookup_app_l_Some. }
  apply subseteq_size in Hsub. rewrite size_list_to_set, size_dom in Hsub by done. simpl in Hsub. lia.
Qed.

Lemma list_pids_run s l :
  dlist (links s) proc_list l → alive s l →
  list_pids (S (size (links s))) proc_list s = Ret (pids_of s l, s).
Proof.
  intros Hd Ha. apply (list_pids_walk s l Hd Ha l []); [done|]. pose proof (dlist_size _ _ _ Hd). lia.
Qed.

(** Between [last_pid] and [next_safe] there is no identifier in use. *)
Definition pid_gap s (l : list Z) : Prop :=
  0 ≤ last_pid s ≤ MAX_PID ∧ next_safe s ≤ MAX_PID ∧ ∀ x, x ∈ pids_of s l → ¬ (last_pid s < x < next_safe s).

Lemma get_pid_run s l :
  dlist (links s) proc_list l → alive s l → Z.of_nat (length l) < MAX_PID - 1 → pid_gap s l →
  ∃ id n, get_pid s = Ret (id, set_pids s n id) ∧ 1 ≤ id < MAX_PID ∧ n ≤ MAX_PID ∧ id ∉ pids_of s l ∧
    ∀ x, x ∈ pids_of s l → ¬ (id < x < n).
Proof.
  intros Hd Ha Hlen (Hr & Hn & Hgap). unfold get_pid. step using reflexivity. cbv zeta.
  set (last := if MAX_PID <=? last_pid s + 1 then 1 else last_pid s + 1).
  assert (1 ≤ last < MAX_PID) as Hl.
  { unfold last, MAX_PID, MAX_PROCESS in *. destruct (_ <=? _) eqn:E; z_bool; lia. }
  destruct ((MAX_PID <=? last_pid s + 1) || (next_safe s <=? last)) eqn:Hslow.
  - destruct (pid_free_exists (pids_of s l)) as (u & Hu & Hnu); [by rewrite length_pids_of|].
    destruct (pid_repeat_total (pids_of s l) u pid_fuel last Hu Hnu Hl) as (id & n & Hrep & Hid & Hnm & Hx).
    { unfold pid_distance, pid_fuel. case_decide; lia. }
    exists id, n. split_and!; try lia.
    + step using (by apply list_pids_run). rewrite Hrep. done.
    + intros Hin. apply (Hx id Hin). lia.
    + intros x Hin Hbad. apply (Hx x Hin). lia.
  - apply orb_false_iff in Hslow as [Hw Hs]. unfold last in *. rewrite Hw in *. z_bool.
    exists (last_pid s + 1), (next_safe s). split_and!; try lia.
    + done.
    + intros Hin. apply (Hgap _ Hin). lia.
    + intros x Hin Hbad. apply (Hgap x Hin). lia.
Qed.

(** C35: [get_pid] always returns, in the range [1, MAX_PID), an identifier that no process of the
    process list has, however the identifiers in use are spread and whether or not the counter wraps
    around; and the gap it remembers stays free of identifiers in use. *)
Theorem get_pid_correct s l :
  dlist (links s) proc_list l → alive s l → Z.of_nat (length l) < MAX_PID - 1 → pid_gap s l →
  ∃ id s', get_pid s = Ret (id, s') ∧ 1 ≤ id < MAX_PID ∧ id ∉ pids_of s l ∧
    pid_gap s' l ∧ ps s' = ps s ∧ links s' = links s ∧ hash_list s' = hash_list s.
Proof.
  intros Hd Ha Hlen Hgap. destruct (get_pid_run s l Hd Ha Hlen Hgap) as (id & n & Hrun & Hid & Hn & Hnin & Hx).
  exists id, (set_pids s n id). split_and!; try done; [lia|lia|]. split_and!; simpl; [lia|lia|done|done].
Qed.

End pids.

(** * The family pointers *)

(** [l] are the children of [q], the youngest first: [cptr] of [q] leads to the first, [optr] from each
    to the next, [yptr] back.  While [do_exit] takes children away from the front, the [yptr] of the
    first one is stale ([strict = false]). *)
Record siblings (strict : bool) (m : gmap Z proc_struct) (q : Z) (l : list Z) : Prop := {
  sb_nodup : NoDup (q :: l);
  sb_first : cptr <$> m !! q = Some (l !! 0%nat);
  sb_links : ∀ i p, l !! i = Some p → ∃ pr, m !! p = Some pr ∧ parent pr = Some q ∧ optr pr = l !! S i ∧
    match i with O => strict = true → yptr pr = None | S j => yptr pr = l !! j end }.
Notation kids := (siblings true).

(** Updates elsewhere. *)
Lemma siblings_ext b m m' q l :
  (∀ x, x ∈ q :: l → kin <$> m' !! x = kin <$> m !! x) → siblings b m q l → siblings b m' q l.
Proof.
  intros He [Hnd Hf Hl]. split; [done| |].
  - specialize (He q). destruct (m !! q) as [qr|], (m' !! q) as [qr'|]; try (specialize (He ltac:(set_solver)); done).
    injection (He ltac:(set_solver)) as ? ? ? ? Hc ? ?. simpl in *. by rewrite Hc.
  - intros i p Hi. destruct (Hl i p Hi) as (pr & Hp & H). assert (p ∈ q :: l) as Hin.
    { right. by eapply list_elem_of_lookup_2. }
    specialize (He p Hin). rewrite Hp in He. destruct (m' !! p) as [pr'|]; [|done].
    injection He as ? ? ? H1 ? H2 H3. exists pr'. split; [done|]. by rewrite H1, H2, H3.
Qed.

(** A process put in front of the children of [q]. *)
Lemma push_kids m m' p q k :
  kids m q k → p ∉ q :: k →
  (∃ pr, m' !! p = Some pr ∧ parent pr = Some q ∧ optr pr = k !! 0%nat ∧ yptr pr = None) →
  cptr <$> m' !! q = Some (Some p) →
  (∀ o x, k !! 0%nat = Some o → m !! o = Some x → m' !! o = Some (set_yptr x (Some p))) →
  (∀ x, x ∈ k → k !! 0%nat ≠ Some x → m' !! x = m !! x) →
  kids m' q (p :: k).
Proof.
  intros [Hnd Hf Hl] Hp (pr & Hpr & Hpar & Hopt & Hypt) Hq Ho Hx. split.
  - rewrite Permutation_swap. apply NoDup_cons. split; [set_solver|done].
  - done.
  - intros [|i] x Hi; simpl in Hi.
    + injection Hi as <-. exists pr. split_and!; try done.
    + destruct (Hl i x Hi) as (xr & Hxr & H1 & H2 & H3). assert (x ∈ k) by by eapply list_elem_of_lookup_2.
      destruct i as [|i].
      * exists (set_yptr xr (Some p)). split; [by apply Ho|]. simpl. by rewrite H1, H2.
      * exists xr. rewrite Hx; [done|done|]. intros H0.
        apply NoDup_cons in Hnd as [_ Hnd]. by pose proof (NoDup_lookup _ _ _ _ Hnd H0 Hi).
Qed.

(** A process taken away from the front of the children of [q]. *)
Lemma pop_kids b m m' p q l :
  siblings b m q (p :: l) → cptr <$> m' !! q = Some (l !! 0%nat) →
  (∀ x, x ∈ l → m' !! x = m !! x) → siblings false m' q l.
Proof.
  intros [Hnd Hf Hl] Hq Hx. apply NoDup_cons in Hnd as [Hqn Hnd]. apply NoDup_cons in Hnd as [Hpn Hnd]. split.
  - apply NoDup_cons. set_solver.
  - done.
  - intros i x Hi. destruct (Hl (S i) x Hi) as (xr & Hxr & H1 & H2 & H3).
    exists xr. rewrite Hx by by eapply list_elem_of_lookup_2. split_and!; try done.
    destruct i; [done|]. exact H3.
Qed.

Section family.
Context {R : Type}.
Implicit Types (s : @ptab R).

(** The state after the descriptors have become [m]. *)
Definition with_procs s (m : gmap Z proc_struct) : @ptab R := set_ps s (set_procs (ps s) m).

Lemma with_procs_id s : with_procs s (procs (ps s)) = s.
Proof. by destruct s as [[] ? ? ? ? ? ? ?]. Qed.

Lemma pset_with s m p f pr :
  m !! p = Some pr → pset p f (with_procs s m) = Ret (tt, with_procs s (<[p := f pr]> m)).
Proof. intros H. by rewrite (pset_run (with_procs s m) p f pr H). Qed.

Lemma pget_with s m p pr : m !! p = Some pr → pget p (with_procs s m) = Ret (pr, with_procs s m).
Proof. intros H. by apply pget_run. Qed.

(** The descriptors when [p], with descriptor [pr], has been put in front of the children of [q]. *)
Definition push_map (m : gmap Z proc_struct) (p : Z) (pr : proc_struct) (q : Z) (qr : proc_struct) : gmap Z proc_struct :=
  let m2 := <[p := set_optr (set_yptr pr None) (cptr qr)]> m in
  let m3 := match cptr qr with
            | Some o => match m2 !! o with Some x => <[o := set_yptr x (Some p)]> m2 | None => m2 end
            | None => m2
            end in
  <[q := set_cptr qr (Some p)]> m3.

Lemma push_map_other m p pr q qr x :
  x ≠ p → x ≠ q → cptr qr ≠ Some x → push_map m p pr q qr !! x = m !! x.
Proof.
  intros Hp Hq Ho. unfold push_map. rewrite lookup_insert_ne by done. destruct (cptr qr) as [o|].
  - assert (x ≠ o) by congruence. destruct (_ !! o); rewrite ?lookup_insert_ne by done; done.
  - by rewrite lookup_insert_ne.
Qed.

(** Nothing but family pointers change, except in the descriptor given for [p]. *)
Lemma push_map_keeps {A} (g : proc_struct → A) m p pr q qr x :
  (∀ y v, g (set_yptr y v) = g y) → (∀ y v, g (set_optr y v) = g y) → (∀ y v, g (set_cptr y v) = g y) →
  m !! q = Some qr → q ≠ p → x ≠ p → g <$> push_map m p pr q qr !! x = g <$> m !! x.
Proof.
  intros Hy Ho Hc Hq Hqp Hx. unfold push_map. destruct (decide (x = q)) as [->|].
  { rewrite lookup_insert_eq, Hq. simpl. by rewrite Hc. }
  rewrite lookup_insert_ne by done. destruct (cptr qr) as [o|]; [|by rewrite lookup_insert_ne].
  destruct (<[p:=_]> m !! o) as [z|] eqn:E; [|by rewrite lookup_insert_ne].
  destruct (decide (x = o)) as [->|]; [|by rewrite !lookup_insert_ne].
  rewrite lookup_insert_ne in E by done. rewrite lookup_insert_eq, E. simpl. by rewrite Hy.
Qed.

Lemma push_map_away {A} (g : proc_struct → A) m p pr q qr x :
  (∀ y v, g (set_yptr y v) = g y) → x ≠ p → x ≠ q → g <$> push_map m p pr q qr !! x = g <$> m !! x.
Proof.
  intros Hy Hp Hq. unfold push_map. rewrite lookup_insert_ne by done. destruct (cptr qr) as [o|]; [|by rewrite lookup_insert_ne].
  destruct (<[p:=_]> m !! o) as [z|] eqn:E; [|by rewrite lookup_insert_ne].
  destruct (decide (x = o)) as [->|]; [|by rewrite !lookup_insert_ne].
  rewrite lookup_insert_ne in E by done. rewrite lookup_insert_eq, E. simpl. by rewrite Hy.
Qed.

Lemma push_map_kids m p pr q qr k :
  kids m q k → p ∉ q :: k → m !! q = Some qr → parent pr = Some q →
  kids (push_map m p pr q qr) q (p :: k).
Proof.
  intros Hk Hp Hq Hpar. pose proof (sb_first _ _ _ _ Hk) as Hf. rewrite Hq in Hf. injection Hf as Hf.
  pose proof (sb_nodup _ _ _ _ Hk) as [Hqk _]%NoDup_cons. assert (p ≠ q) by set_solver.
  assert (∀ o, k !! 0%nat = Some o → o ≠ q ∧ o ≠ p ∧ is_Some (m !! o)) as Hko.
  { intros o Ho. destruct (sb_links _ _ _ _ Hk 0%nat o Ho) as (or & Hor & _).
    apply list_elem_of_lookup_2 in Ho. split_and!; [set_solver|set_solver|eauto]. }
  apply (push_kids m); [done|done| | | |].
  - exists (set_optr (set_yptr pr None) (cptr qr)). split_and!; try done.
    unfold push_map. rewrite lookup_insert_ne by done. rewrite Hf. destruct (k !! 0%nat) as [o|]; [|apply lookup_insert_eq].
    destruct (Hko o eq_refl) as (_ & ? & _). destruct (_ !! o); [|apply lookup_insert_eq].
    rewrite lookup_insert_ne by done. apply lookup_insert_eq.
  - unfold push_map. by rewrite lookup_insert_eq.
  - intros o x Ho Hx. destruct (Hko o Ho) as (? & ? & _). unfold push_map. rewrite lookup_insert_ne by done.
    rewrite Hf, Ho. rewrite (lookup_insert_ne _ p o) by done. rewrite Hx. apply lookup_insert_eq.
  - intros x Hx Hx0. apply push_map_other; [set_solver|set_solver|congruence].
Qed.

Lemma set_links_run s p pr q qr k l :
  dlist (links s) proc_list l → p ∉ proc_list :: l → is_Some (links s !! p) →
  procs (ps s) !! p = Some pr → parent pr = Some q → procs (ps s) !! q = Some qr →
  kids (procs (ps s)) q k → p ∉ q :: k →
  ∃ h, set_links p s = Ret (tt, set_nr (set_links_of (with_procs s (push_map (procs (ps s)) p pr q qr)) h)
         (nr_process s + 1)) ∧ dlist h proc_list (p :: l).
Proof.
  intros Hd Hpl Hlp Hp Hpar Hq Hk Hpk.
  destruct (list_add_after_run (links s) proc_list l None p Hd) as (h & Hadd & Hd' & _); [done|done|done|].
  exists h. split; [|done]. unfold set_links.
  assert (ldo (list_add proc_list p) s = Ret (tt, set_links_of s h)) as Hl.
  { unfold ldo, list_add. simpl in Hadd. by rewrite Hadd. }
  step using (exact Hl). set (s1 := set_links_of s h). set (m := procs (ps s)) in *.
  replace s1 with (with_procs s1 m) by apply (with_procs_id s1). assert (p ≠ q) by set_solver.
  step using (by apply pset_with). step using (apply pget_with; apply lookup_insert_eq).
  step using (unfold deref; simpl; rewrite Hpar; reflexivity).
  step using (apply pget_with; by rewrite lookup_insert_ne).
  step using (apply pset_with; apply lookup_insert_eq). rewrite insert_insert_eq.
  pose proof (sb_first _ _ _ _ Hk) as Hf. fold m in Hf. rewrite Hq in Hf. injection Hf as Hf.
  unfold push_map. rewrite Hf. destruct (k !! 0%nat) as [o|] eqn:Ho.
  - destruct (sb_links _ _ _ _ Hk 0%nat o Ho) as (or & Hor & _). apply list_elem_of_lookup_2 in Ho.
    pose proof (sb_nodup _ _ _ _ Hk) as [? _]%NoDup_cons. assert (o ≠ p) by set_solver. assert (o ≠ q) by set_solver.
    rewrite (lookup_insert_ne m p o) by done. fold m in Hor. rewrite Hor.
    step using (apply pset_with; by rewrite lookup_insert_ne).
    step using (apply pset_with; by rewrite !lookup_insert_ne). done.
  - step using reflexivity. step using (apply pset_with; by rewrite !lookup_insert_ne). done.
Qed.

End family.

(** * The process table *)

Lemma dlist_frame h h' head l :
  (∀ a, a ∈ head :: l → h' !! a = h !! a) → dlist h head l → dlist h' head l.
Proof.
  intros He (Hnd & Hn & Hp).
  assert (∀ i a, cycle head l !! i = Some a → h' !! a = h !! a) as Hc.
  { intros i a Hi. apply He. apply list_elem_of_lookup_2 in Hi. unfold cycle in Hi. set_solver. }
  split_and!; [done| |]; intros i a b Ha Hb; rewrite (Hc _ _ Hb) || rewrite (Hc _ _ Ha); eauto.
Qed.

Section table.
Context {R : Type} (c : sched_class) `{L : !sched_laws c}.
Implicit Types (s : @ptab R).

(** The process list, the hash table and the scheduler agree on the processes [l]. *)
Record tab_ok s (l : list Z) : Prop := {
  t_list : dlist (links s) proc_list l;
  t_alive : alive s l;
  t_pids : NoDup (pids_of s l);
  t_range : ∀ x, x ∈ pids_of s l → 1 ≤ x < MAX_PID;
  t_hash : ∀ b p, p ∈ bucket s b ↔ p ∈ l ∧ ∃ pr, procs (ps s) !! p = Some pr ∧ pid_hashfn (pid pr) = b;
  t_sched : sched_ok c (ps s);
  t_gap : pid_gap s l;
  t_nr : nr_process s = Z.of_nat (length l) + 1 }.

End table.

Section find.
Context {R : Type}.
Implicit Types (s : @ptab R).

Lemma elem_of_pids s l x :
  x ∈ pids_of s l ↔ ∃ p pr, p ∈ l ∧ procs (ps s) !! p = Some pr ∧ pid pr = x.
Proof.
  unfold pids_of. rewrite list_elem_of_omap. split.
  - intros (p & Hp & H). destruct (procs (ps s) !! p) as [pr|] eqn:E; [|done]. injection H as <-. eauto.
  - intros (p & pr & Hp & E & <-). exists p. by rewrite E.
Qed.

Lemma pids_inj s l p q pr qr :
  alive s l → NoDup l → NoDup (pids_of s l) → p ∈ l → q ∈ l → procs (ps s) !! p = Some pr →
  procs (ps s) !! q = Some qr → pid pr = pid qr → p = q.
Proof.
  induction l as [|x l IH]; intros Ha Hnl Hnd Hp Hq Hpr Hqr Hid; [by apply elem_of_nil in Hp|].
  destruct (Ha x) as [xr Hx]; [set_solver|]. rewrite (pids_of_cons s x xr) in Hnd by done.
  apply NoDup_cons in Hnd as [Hn Hnd]. apply NoDup_cons in Hnl as [_ Hnl].
  apply elem_of_cons in Hp as [->|Hp], Hq as [->|Hq]; simplify_eq.
  - done.
  - exfalso. apply Hn, elem_of_pids. exists q, qr. split_and!; [done|done|congruence].
  - exfalso. apply Hn, elem_of_pids. eauto.
  - apply IH; try done. intros z Hz. apply Ha. set_solver.
Qed.

Lemma find_loop_run s id l p :
  (∀ x, x ∈ l → ∃ xr, procs (ps s) !! x = Some xr ∧ (pid xr = id ↔ x = p)) →
  find_loop id l s = Ret (if decide (p ∈ l) then Some p else None, s).
Proof.
  induction l as [|x l IH]; intros H; [done|]. destruct (H x) as (xr & Hx & Hid); [set_solver|].
  simpl. step using (by apply pget_run). destruct (decide (x = p)) as [->|Hne].
  - rewrite (proj2 (Z.eqb_eq _ _)) by by apply Hid. rewrite decide_True by set_solver. done.
  - rewrite (proj2 (Z.eqb_neq _ _)) by (by intros ?%Hid). rewrite IH by set_solver.
    destruct (decide (p ∈ l)), (decide (p ∈ x :: l)); try done; set_solver.
Qed.

Lemma find_proc_by s l p pr :
  alive s l → NoDup l → NoDup (pids_of s l) → (∀ x, x ∈ pids_of s l → 1 ≤ x < MAX_PID) →
  (∀ b p, p ∈ bucket s b ↔ p ∈ l ∧ ∃ pr, procs (ps s) !! p = Some pr ∧ pid_hashfn (pid pr) = b) →
  p ∈ l → procs (ps s) !! p = Some pr → find_proc (pid pr) s = Ret (Some p, s).
Proof.
  intros Ha Hndl Hnd Hr Hh Hp Hpr. unfold find_proc.
  assert (1 ≤ pid pr < MAX_PID) as Hpid by (apply Hr, elem_of_pids; eauto).
  rewrite (proj2 (Z.ltb_lt _ _)), (proj2 (Z.ltb_lt _ _)) by lia. simpl. step using reflexivity.
  rewrite (find_loop_run _ _ _ p).
  - rewrite decide_True; [done|]. apply Hh. eauto.
  - intros x (Hx & xr & Hxr & _)%Hh. exists xr. split; [done|]. split; [|intros ->; congruence].
    intros Hid. by apply (pids_inj s l x p xr pr).
Qed.

Lemma dlist_nodup h head l : dlist h head l → NoDup l.
Proof. intros (Hnd & _). by apply NoDup_cons in Hnd as [_ ?]. Qed.

Lemma find_proc_run (c : sched_class) `{L : !sched_laws c} s l p pr :
  tab_ok c s l → p ∈ l → procs (ps s) !! p = Some pr → find_proc (pid pr) s = Ret (Some p, s).
Proof.
  intros [Hd Ha Hnd Hr Hh _ _ _]. apply find_proc_by; try done. by eapply dlist_nodup.
Qed.

End find.

(** * [do_fork] *)

Section fork.
Context {R : Type} `{E : !@proc_env R} (c : sched_class) `{L : !sched_laws c} (boot_cr3 : Z).
Implicit Types (s : @ptab R).

Lemma sched_ok_push x m p pr0 pr q qr :
  sched_ok c (set_procs x m) → m !! p = Some pr0 → state pr = state pr0 → in_rq pr = in_rq pr0 →
  m !! q = Some qr → q ≠ p →
  (∀ o, cptr qr = Some o → o ≠ p ∧ o ≠ q ∧ is_Some (m !! o)) →
  sched_ok c (set_procs x (push_map m p pr q qr)).
Proof.
  intros Hok Hp Hst Hin Hq Hqp Ho. unfold push_map.
  pose proof (sched_ok_upd c _ p pr0 (λ _, set_optr (set_yptr pr None) (cptr qr)) Hok Hp Hst Hin) as H2.
  simpl in H2. set (m2 := <[p := set_optr (set_yptr pr None) (cptr qr)]> m) in *.
  assert (m2 !! q = Some qr) as Hq2 by (unfold m2; by rewrite lookup_insert_ne).
  destruct (cptr qr) as [o|] eqn:Hc.
  - destruct (Ho o eq_refl) as (Hop & Hoq & [or Hor]).
    assert (m2 !! o = Some or) as Ho2 by (unfold m2; by rewrite lookup_insert_ne). rewrite Ho2.
    pose proof (sched_ok_upd c _ o or (λ y, set_yptr y (Some p)) H2 Ho2 eq_refl eq_refl) as H3. simpl in H3.
    apply (sched_ok_upd c _ q qr (λ y, set_cptr y (Some p)) H3); [simpl; by rewrite lookup_insert_ne|done|done].
  - by apply (sched_ok_upd c _ q qr (λ y, set_cptr y (Some p)) H2).
Qed.

(** The resources [do_fork] obtains when nothing fails. *)
Definition resources (e : R) (fl stack tf cur p : Z) (e' : R) : Prop :=
  ∃ e1 e2 e3 e4, new_proc e = Ret (Some p, e1) ∧ setup_kstack p e1 = Ret (0, e2) ∧
    copy_fs fl cur p e2 = Ret (0, e3) ∧ copy_mm fl cur p e3 = Ret (0, e4) ∧ copy_thread p stack tf e4 = Ret (tt, e').

(** The state in which [do_fork] wakes the new process. *)
Definition forked s (p id n : Z) (h : Dll.heap) (e : R) (cr : proc_struct) : @ptab R :=
  let cur := current (ps s) in
  let pr1 := set_pid (set_parent (alloc_proc boot_cr3) (Some cur)) id in
  mkPtab (set_procs (ps s) (push_map (<[p := pr1]> (procs (ps s))) p pr1 cur cr)) h
    (<[pid_hashfn id := p :: bucket s (pid_hashfn id)]> (hash_list s)) (nr_process s + 1) (initproc s) n id e.

Lemma pids_of_ext s s' l :
  (∀ x, x ∈ l → pid <$> procs (ps s') !! x = pid <$> procs (ps s) !! x) → pids_of s' l = pids_of s l.
Proof.
  induction l as [|x l IH]; intros H; [done|]. unfold pids_of in *. csimpl. rewrite (H x) by set_solver.
  destruct (procs (ps s) !! x); simpl; [f_equal|]; apply IH; set_solver.
Qed.

Lemma do_fork_prefix s l fl stack tf p e cr k :
  tab_ok c s l → nr_process s < MAX_PROCESS → resources (env s) fl stack tf (current (ps s)) p e →
  procs (ps s) !! p = None → p ≠ proc_list →
  procs (ps s) !! current (ps s) = Some cr → wait_state cr = 0 → kids (procs (ps s)) (current (ps s)) k →
  ∃ id n h, do_fork c boot_cr3 fl stack tf s =
      (sdo (wakeup_proc c p) ;; pr ← pget p; mret (pid pr)) (forked s p id n h e cr) ∧
    1 ≤ id < MAX_PID ∧ n ≤ MAX_PID ∧ id ∉ pids_of s l ∧ (∀ x, x ∈ pids_of s l → ¬ (id < x < n)) ∧
    dlist h proc_list (p :: l).
Proof.
  intros Hok Hnr (e1 & e2 & e3 & e4 & He1 & He2 & He3 & He4 & He5) Hp Hpl Hcr Hw Hk.
  set (cur := current (ps s)) in *. set (m := procs (ps s)) in *.
  assert (p ∉ l) as Hpnl by (intros Hin; destruct (t_alive _ _ _ Hok p Hin) as [? Hx]; fold m in Hx; congruence).
  assert (cur ≠ p) as Hcp by congruence.
  set (pr0 := set_parent (alloc_proc boot_cr3) (Some cur)).
  set (s5 := set_env (set_links_of (with_procs s (<[p := pr0]> m)) (<[p := mk_entry 0 0]> (links s))) e).
  assert (dlist (links s5) proc_list l) as Hd5.
  { eapply dlist_frame; [|apply (t_list _ _ _ Hok)]. intros a Ha. apply lookup_insert_ne. intros <-.
    by apply elem_of_cons in Ha as [?|?]. }
  assert (pids_of s5 l = pids_of s l) as Hpids.
  { apply pids_of_ext. intros x Hx. unfold s5. simpl. rewrite lookup_insert_ne; [done|]. by intros ->. }
  assert (alive s5 l) as Ha5.
  { intros x Hx. unfold s5. simpl. rewrite lookup_insert_ne by (by intros ->). by apply (t_alive _ _ _ Hok). }
  destruct (get_pid_run s5 l Hd5 Ha5) as (id & n & Hget & Hid & Hn & Hnin & Hgap).
  { rewrite (t_nr _ _ _ Hok) in Hnr. unfold MAX_PID, MAX_PROCESS in *. lia. }
  { destruct (t_gap _ _ _ Hok) as (? & ? & ?). unfold pid_gap. rewrite Hpids. done. }
  rewrite Hpids in Hnin, Hgap.
  set (pr1 := set_pid pr0 id).
  set (s7 := set_hash (with_procs (set_pids s5 n id) (<[p := pr1]> m))
    (<[pid_hashfn id := p :: bucket s (pid_hashfn id)]> (hash_list s))).
  assert (p ∉ cur :: k) as Hpk.
  { intros [->|Hin]%elem_of_cons; [done|]. apply list_elem_of_lookup in Hin as (i & Hi).
    destruct (sb_links _ _ _ _ Hk i p Hi) as (? & ? & _). congruence. }
  destruct (set_links_run s7 p pr1 cur cr k l) as (h & Hlinks & Hdh); try done.
  { by apply not_elem_of_cons. } { unfold s7. simpl. rewrite lookup_insert_eq. eauto. } { apply lookup_insert_eq. }
  { simpl. by rewrite lookup_insert_ne. }
  { eapply siblings_ext; [|exact Hk]. intros x Hx. simpl. rewrite lookup_insert_ne; [done|]. by intros ->. }
  exists id, n, h. split_and!; try done; try lia.
  unfold do_fork. step using reflexivity. rewrite (proj2 (Z.leb_gt _ _)) by done.
  step using (unfold edo; rewrite He1; reflexivity). cbv iota. step using reflexivity. step using reflexivity.
  step using reflexivity. change (current (ps _)) with cur.
  step using (apply pget_run; simpl; rewrite lookup_insert_ne by congruence; exact Hcr).
  rewrite Hw. step using reflexivity. cbv zeta.
  step using (unfold edo; simpl; rewrite He2; reflexivity). simpl (negb _). cbv iota.
  step using (unfold edo; simpl; rewrite He3; reflexivity). simpl (negb _). cbv iota.
  step using (unfold edo; simpl; rewrite He4; reflexivity). simpl (negb _). cbv iota.
  step using (unfold edo; simpl; rewrite He5; reflexivity).
  step using (exact Hget).
  step using (apply pset_run; simpl; apply lookup_insert_eq).
  assert (∀ s', procs (ps s') = <[p := pr1]> m → bucket s' = bucket s → hash_list s' = hash_list s →
    hash_proc p s' = Ret (tt, set_hash s' (<[pid_hashfn id := p :: bucket s (pid_hashfn id)]> (hash_list s)))) as Hhash.
  { intros s' H1 H2 H3. unfold hash_proc. step using (apply pget_run; rewrite H1; apply lookup_insert_eq).
    unfold modify. simpl. by rewrite H2, H3. }
  step using (apply Hhash; [simpl; by rewrite insert_insert_eq|done|done]).
  match goal with |- (set_links p ≫= _) ?x = _ => replace x with s7 end.
  2:{ unfold s7, s5, with_procs, set_ps, set_procs, set_pids, set_env, set_links_of, set_hash. simpl. by rewrite insert_insert_eq. }
  step using (exact Hlinks). done.
Qed.

Lemma push_map_self m p pr q qr :
  q ≠ p → cptr qr ≠ Some p → push_map m p pr q qr !! p = Some (set_optr (set_yptr pr None) (cptr qr)).
Proof.
  intros Hq Ho. unfold push_map. rewrite lookup_insert_ne by done. destruct (cptr qr) as [o|]; [|apply lookup_insert_eq].
  assert (o ≠ p) by congruence. destruct (<[p:=_]> m !! o); [|apply lookup_insert_eq].
  rewrite lookup_insert_ne by done. apply lookup_insert_eq.
Qed.

(** The table stays in order when [p] is added to it. *)
Lemma forked_ok s l p id n h e cr k :
  tab_ok c s l → procs (ps s) !! p = None → procs (ps s) !! current (ps s) = Some cr →
  kids (procs (ps s)) (current (ps s)) k → 1 ≤ id < MAX_PID → n ≤ MAX_PID → id ∉ pids_of s l →
  (∀ y, y ∈ pids_of s l → ¬ (id < y < n)) → dlist h proc_list (p :: l) →
  ∃ x, wakeup_proc c p (ps (forked s p id n h e cr)) = Ret (tt, x) ∧
  tab_ok c (set_ps (forked s p id n h e cr) x) (p :: l) ∧ runnable x p ∧ kids (procs x) (current (ps s)) (p :: k) ∧
  (∃ pr, procs x !! p = Some pr ∧ pid pr = id).
Proof.
  intros Hok Hp Hcr Hk Hid Hn Hnin Hgap Hdh.
  set (m := procs (ps s)) in *. set (cur := current (ps s)) in *.
  set (pr1 := set_pid (set_parent (alloc_proc boot_cr3) (Some cur)) id).
  set (m1 := <[p := pr1]> m). set (m2 := push_map m1 p pr1 cur cr).
  assert (cur ≠ p) as Hcp by congruence.
  assert (p ∉ l) as Hpnl by (intros Hin; destruct (t_alive _ _ _ Hok p Hin) as [? Hx]; fold m in Hx; congruence).
  assert (m1 !! cur = Some cr) as Hcr1 by (unfold m1; by rewrite lookup_insert_ne).
  assert (p ∉ cur :: k) as Hpk.
  { intros [->|Hin]%elem_of_cons; [done|]. apply list_elem_of_lookup in Hin as (i & Hi).
    destruct (sb_links _ _ _ _ Hk i p Hi) as (? & ? & _). congruence. }
  assert (∀ o, cptr cr = Some o → o ≠ p ∧ o ≠ cur ∧ is_Some (m1 !! o)) as Ho.
  { intros o Ho. pose proof (sb_first _ _ _ _ Hk) as Hf. rewrite Hcr in Hf. injection Hf as Hf. rewrite Ho in Hf.
    symmetry in Hf. destruct (sb_links _ _ _ _ Hk 0%nat o Hf) as (or & Hor & _). apply list_elem_of_lookup_2 in Hf.
    apply not_elem_of_cons in Hpk as [_ Hpk]. pose proof (sb_nodup _ _ _ _ Hk) as [Hck _]%NoDup_cons.
    assert (o ≠ p) by (by intros ->). split_and!; [done|by intros ->|]. unfold m1. rewrite lookup_insert_ne by done. eauto. }
  assert (sched_ok c (set_procs (ps s) m2)) as Hs2.
  { apply (sched_ok_push _ _ _ pr1); try done; [|apply lookup_insert_eq].
    apply sched_ok_add; [apply (t_sched _ _ _ Hok)|done|done]. }
  assert (cptr cr ≠ Some p) as Hcrp by (intros H; by destruct (Ho p H)).
  pose proof (push_map_self m1 p pr1 cur cr Hcp Hcrp) as Hp2. fold m2 in Hp2.
  destruct (wakeup_run c (set_procs (ps s) m2) p _ Hs2 Hp2) as (x & Hrun & Hok' & Hr & Hcur' & Hid' & _ & _ & _ & _ & _ & Hkin); [done|].
  set (s' := set_ps (forked s p id n h e cr) x).
  assert (∀ y, kin <$> procs x !! y = kin <$> m2 !! y) as Hkin' by exact Hkin.
  assert (∀ y, pid <$> procs x !! y = pid <$> m2 !! y) as Hpid.
  { intros y. specialize (Hkin' y). destruct (procs x !! y), (m2 !! y); try done. injection Hkin' as ? _. simpl. congruence. }
  assert (∀ y, y ≠ p → pid <$> m2 !! y = pid <$> m !! y) as Hpid2.
  { intros y Hy. unfold m2. rewrite (push_map_keeps pid m1 p pr1 cur cr y) by done. unfold m1. by rewrite lookup_insert_ne. }
  assert (∃ pr, procs x !! p = Some pr ∧ pid pr = id) as Hpx.
  { specialize (Hpid p). rewrite Hp2 in Hpid. destruct (procs x !! p) as [pr|]; [|done]. injection Hpid as ?. eauto. }
  assert (pids_of s' l = pids_of s l) as Hpl.
  { apply pids_of_ext. intros y Hy. unfold s'. simpl. rewrite Hpid. apply Hpid2. by intros ->. }
  assert (pids_of s' (p :: l) = id :: pids_of s l) as Hpids.
  { destruct Hpx as (pr & Hpr & <-). rewrite (pids_of_cons s' p pr) by done. by rewrite Hpl. }
  exists x. fold s'. split_and!; [exact Hrun|split|done| |done].
  - done.
  - intros y Hy. unfold s'. simpl. apply elem_of_cons in Hy as [->|Hy]; [destruct Hpx as (pr & ? & _); eauto|].
    destruct (t_alive _ _ _ Hok y Hy) as [yr Hyr]. fold m in Hyr.
    assert (pid <$> procs x !! y = Some (pid yr)) as He by (rewrite Hpid, Hpid2, Hyr by (by intros ->); done).
    destruct (procs x !! y); [eauto|done].
  - rewrite Hpids. apply NoDup_cons. split; [done|apply (t_pids _ _ _ Hok)].
  - rewrite Hpids. intros y [->|Hy]%elem_of_cons; [done|by apply (t_range _ _ _ Hok)].
  - intros b q. unfold s', bucket. simpl.
    assert (q ∈ bucket s b ↔ q ∈ l ∧ ∃ qr, procs x !! q = Some qr ∧ pid_hashfn (pid qr) = b) as Hold.
    { rewrite (t_hash _ _ _ Hok). fold m. split; intros [Hq (qr & Hqr & Hb)]; (split; [done|]).
      - assert (pid <$> procs x !! q = Some (pid qr)) as He by (rewrite Hpid, Hpid2, Hqr by (by intros ->); done).
        destruct (procs x !! q) as [qr'|]; [|done]. injection He as He. exists qr'. by rewrite He.
      - assert (pid <$> m !! q = Some (pid qr)) as He by (rewrite <-Hpid2, <-Hpid, Hqr by (by intros ->); done).
        destruct (m !! q) as [qr'|]; [|done]. injection He as He. exists qr'. by rewrite He. }
    destruct Hpx as (pr & Hpr & Hprid). destruct (decide (b = pid_hashfn id)) as [->|Hb].
    + rewrite lookup_insert_eq. simpl. rewrite !elem_of_cons, Hold. split.
      * intros [->|[? ?]]; [split; [by left|]; exists pr; by rewrite Hprid|]. split; [by right|done].
      * intros [[->|?] ?]; [by left|right; done].
    + rewrite lookup_insert_ne by done. change (default [] (hash_list s !! b)) with (bucket s b). rewrite Hold, elem_of_cons.
      split; [intros [? ?]; split; [by right|done]|]. intros [[->|?] (qr & Hqr & Hh)]; [|eauto].
      exfalso. apply Hb. rewrite <-Hh. congruence.
  - done.
  - unfold pid_gap. rewrite Hpids. unfold s'. simpl. split_and!; [lia|lia|done|].
    intros y [->|Hy]%elem_of_cons; [lia|by apply Hgap].
  - unfold s'. simpl. rewrite (t_nr _ _ _ Hok). simpl. lia.
  - eapply siblings_ext; [intros y _; apply Hkin'|]. apply push_map_kids; [|done|done|done].
    eapply siblings_ext; [|exact Hk]. intros y Hy. unfold m1. rewrite lookup_insert_ne; [done|]. by intros ->.
Qed.

Lemma do_fork_run s l fl stack tf p e cr k :
  tab_ok c s l → nr_process s < MAX_PROCESS → resources (env s) fl stack tf (current (ps s)) p e →
  procs (ps s) !! p = None → p ≠ proc_list →
  procs (ps s) !! current (ps s) = Some cr → wait_state cr = 0 → kids (procs (ps s)) (current (ps s)) k →
  ∃ id s', do_fork c boot_cr3 fl stack tf s = Ret (id, s') ∧ 1 ≤ id < MAX_PID ∧ id ∉ pids_of s l ∧
    tab_ok c s' (p :: l) ∧ runnable (ps s') p ∧ kids (procs (ps s')) (current (ps s)) (p :: k) ∧
    find_proc id s' = Ret (Some p, s') ∧ env s' = e.
Proof.
  intros Hok Hnr Hres Hp Hpl Hcr Hw Hk.
  destruct (do_fork_prefix s l fl stack tf p e cr k Hok Hnr Hres Hp Hpl Hcr Hw Hk) as (id & n & h & Hrun & Hid & Hn & Hnin & Hgap & Hd).
  destruct (forked_ok s l p id n h e cr k Hok Hp Hcr Hk Hid Hn Hnin Hgap Hd) as (x & Hwake & Hok' & Hr & Hk' & pr & Hpr & Hprid).
  exists id, (set_ps (forked s p id n h e cr) x). split_and!; try done; try lia.
  - rewrite Hrun. step using (unfold sdo; rewrite Hwake; reflexivity). step using (by apply pget_run). by rewrite Hprid.
  - assert (p ∈ p :: l) as Hin by by left. pose proof (find_proc_run c _ (p :: l) p pr Hok' Hin Hpr) as Hf.
    by rewrite Hprid in Hf.
Qed.

(** C25: when the resources are available [do_fork] succeeds: it returns a process identifier nobody
    has, under which [find_proc] finds the new process; the process is runnable, it is the youngest
    child of its parent, and the process list, hash table, identifiers and run queue stay consistent. *)
Theorem do_fork_correct s l fl stack tf p e cr k :
  tab_ok c s l → nr_process s < MAX_PROCESS → resources (env s) fl stack tf (current (ps s)) p e →
  procs (ps s) !! p = None → p ≠ proc_list →
  procs (ps s) !! current (ps s) = Some cr → wait_state cr = 0 → kids (procs (ps s)) (current (ps s)) k →
  ∃ id s', do_fork c boot_cr3 fl stack tf s = Ret (id, s') ∧ 1 ≤ id < MAX_PID ∧ id ∉ pids_of s l ∧
    tab_ok c s' (p :: l) ∧ runnable (ps s') p ∧ kids (procs (ps s')) (current (ps s)) (p :: k) ∧
    find_proc id s' = Ret (Some p, s') ∧ env s' = e.
Proof. apply do_fork_run. Qed.

End fork.

(** * [do_exit] *)

Definition sib (p : proc_struct) := (parent p, yptr p, optr p).

Lemma siblings_sib b m m' q l :
  cptr <$> m' !! q = cptr <$> m !! q → (∀ x, x ∈ l → sib <$> m' !! x = sib <$> m !! x) →
  siblings b m q l → siblings b m' q l.
Proof.
  intros Hq He [Hnd Hf Hl]. split; [done|by rewrite Hq|].
  intros i p Hi. destruct (Hl i p Hi) as (pr & Hp & H). specialize (He p (list_elem_of_lookup_2 _ _ _ Hi)).
  rewrite Hp in He. destruct (m' !! p) as [pr'|]; [|done]. injection He as H1 H2 H3. exists pr'. split; [done|].
  by rewrite H1, H2, H3.
Qed.

Section exit.
Context {R : Type} `{E : !@proc_env R} (c : sched_class) `{L : !sched_laws c}.
Implicit Types (s : @ptab R).

(** [x'] differs from [x] only in family pointers and in that [i] may have been woken. *)
Record tended (i : Z) (x x' : sched) : Prop := {
  td_current : current x' = current x;
  td_idle : idleproc x' = idleproc x;
  td_ident : ∀ y, (λ p, (pid p, flags p, exit_code p)) <$> procs x' !! y =
                  (λ p, (pid p, flags p, exit_code p)) <$> procs x !! y;
  td_state : ∀ y, y ≠ i → (λ p, (state p, wait_state p)) <$> procs x' !! y =
                          (λ p, (state p, wait_state p)) <$> procs x !! y;
  td_runnable : ∀ y, runnable x y → runnable x' y;
  td_waiting : (λ p, (state p, wait_state p)) <$> procs x' !! i = (λ p, (state p, wait_state p)) <$> procs x !! i
    ∨ runnable x' i }.

#[global] Instance tended_refl i : Reflexive (tended i).
Proof. intros x. split; try done. by left. Qed.
#[global] Instance tended_trans i : Transitive (tended i).
Proof.
  intros x y z [A1 A2 A3 A4 A5 A6] [B1 B2 B3 B4 B5 B6]. split; try congruence.
  - intros q Hq. rewrite B4, A4 by done. done.
  - auto.
  - destruct B6 as [B6|]; [|by right]. destruct A6 as [A6|]; [left; congruence|right; auto].
Qed.

Definition not_zombie (x : sched) (i : Z) : Prop := ∃ ir, procs x !! i = Some ir ∧ state ir ≠ PROC_ZOMBIE.

Lemma tended_not_zombie i x x' : tended i x x' → not_zombie x i → not_zombie x' i.
Proof.
  intros Ht (ir & Hi & Hz). destruct (td_waiting _ _ _ Ht) as [He|(ir' & Hi' & Hr)].
  - rewrite Hi in He. unfold not_zombie. destruct (procs x' !! i) as [ir'|]; [|done]. injection He as ? ?. exists ir'. split; congruence.
  - exists ir'. split; [done|congruence].
Qed.

Lemma maybe_wake_run s i (b : bool) :
  sched_ok c (ps s) → not_zombie (ps s) i →
  ∃ x, when b (sdo (wakeup_proc c i)) s = Ret (tt, set_ps s x) ∧ sched_ok c x ∧ tended i (ps s) x ∧
    (∀ y, kin <$> procs x !! y = kin <$> procs (ps s) !! y) ∧ (b = true → runnable x i).
Proof.
  intros Hok (ir & Hi & Hz). destruct b; [|exists (ps s); split_and!; [by destruct s|done|done|done|done]].
  destruct (wakeup_run c (ps s) i ir Hok Hi Hz) as (x & Hrun & Hok' & Hr & Hcur & Hid & _ & _ & Hv & Hsame & _ & Hkin).
  exists x. split_and!; try done; [unfold when, sdo; by rewrite Hrun|]. split; try done.
  - intros y. specialize (Hkin y). destruct (procs x !! y), (procs (ps s) !! y); try done. injection Hkin as ? ? ? _.
    simpl. congruence.
  - intros y Hy. specialize (Hv y Hy). destruct (procs x !! y), (procs (ps s) !! y); try done.
    injection Hv as ? ? ? _. simpl. congruence.
  - intros y (yr & Hyr & Hst). destruct (decide (y = i)) as [->|Hy]; [done|]. specialize (Hv y Hy). rewrite Hyr in Hv.
    unfold runnable. destruct (procs x !! y) as [yr'|]; [|done]. injection Hv as ? _. exists yr'. split; congruence.
  - by right.
Qed.

(** One round of the loop of [do_exit]: the first child of [cur] becomes the first child of [i]. *)
Definition adopt (m : gmap Z proc_struct) (cur p i : Z) (cr pr ir : proc_struct) : gmap Z proc_struct :=
  push_map (<[cur := set_cptr cr (optr pr)]> m) p (set_parent pr (Some i)) i ir.

Lemma adopt_family m cur p i cr pr ir l k :
  siblings false m cur (p :: l) → kids m i k → cur ≠ i → i ∉ p :: l →
  m !! cur = Some cr → m !! p = Some pr → m !! i = Some ir →
  let m' := adopt m cur p i cr pr ir in siblings false m' cur l ∧ kids m' i (p :: k).
Proof.
  intros Hs Hk Hci Hil Hcr Hpr Hir m'. pose proof (sb_nodup _ _ _ _ Hs) as Hnd.
  apply NoDup_cons in Hnd as [Hcpl Hnd]. apply NoDup_cons in Hnd as [Hpl Hndl].
  apply not_elem_of_cons in Hcpl as [Hcp Hcl], Hil as [Hip Hil].
  destruct (sb_links _ _ _ _ Hs 0%nat p eq_refl) as (pr' & Hpr' & Hpar & Hopt & _). rewrite Hpr in Hpr'. injection Hpr' as <-.
  simpl in Hopt. set (m1 := <[cur := set_cptr cr (optr pr)]> m).
  assert (∀ x, x ∈ k → parent <$> m !! x = Some (Some i)) as Hkpar.
  { intros x (j & Hj)%list_elem_of_lookup. destruct (sb_links _ _ _ _ Hk j x Hj) as (xr & -> & H & _). simpl. by rewrite H. }
  assert (p ∉ k) as Hpk. { intros Hin. specialize (Hkpar p Hin). rewrite Hpr in Hkpar. simpl in Hkpar. congruence. }
  assert (∀ x, x ∈ l → x ∉ k) as Hlk.
  { intros x (j & Hj)%list_elem_of_lookup Hin. specialize (Hkpar x Hin).
    destruct (sb_links _ _ _ _ Hs (S j) x Hj) as (xr & Hxr & H & _). rewrite Hxr in Hkpar. simpl in Hkpar. congruence. }
  assert (kids m1 i k) as Hk1.
  { eapply siblings_sib; [| |exact Hk]; unfold m1; [by rewrite lookup_insert_ne|]. intros x Hx.
    destruct (decide (x = cur)) as [->|]; [by rewrite lookup_insert_eq, Hcr|by rewrite lookup_insert_ne]. }
  assert (m1 !! i = Some ir) as Hir1 by (unfold m1; by rewrite lookup_insert_ne).
  assert (p ∉ i :: k) by (apply not_elem_of_cons; split; [congruence|done]).
  split; [|by apply push_map_kids].
  assert (siblings false m1 cur l) as Hs1.
  { eapply pop_kids; [exact Hs| |]; unfold m1; [rewrite lookup_insert_eq; simpl; by rewrite Hopt|].
    intros x Hx. apply lookup_insert_ne. by intros <-. }
  assert (cptr ir = k !! 0%nat) as Hf. { pose proof (sb_first _ _ _ _ Hk) as H0. rewrite Hir in H0. by injection H0. }
  eapply siblings_sib; [| |exact Hs1]; unfold m', adopt; fold m1.
  - by apply push_map_away.
  - intros x Hx. rewrite push_map_other; [done|by intros ->|by intros ->|].
    rewrite Hf. intros H0%list_elem_of_lookup_2. by apply (Hlk x).
Qed.

Lemma adopt_keeps {A} (g : proc_struct → A) m cur p i cr pr ir y :
  (∀ y v, g (set_yptr y v) = g y) → (∀ y v, g (set_optr y v) = g y) → (∀ y v, g (set_cptr y v) = g y) →
  (∀ y v, g (set_parent y v) = g y) → cur ≠ i → cur ≠ p → i ≠ p → cptr ir ≠ Some p →
  m !! cur = Some cr → m !! p = Some pr → m !! i = Some ir →
  g <$> adopt m cur p i cr pr ir !! y = g <$> m !! y.
Proof.
  intros H1 H2 H3 H4 Hci Hcp Hip Ho Hcr Hpr Hir. unfold adopt.
  destruct (decide (y = p)) as [->|Hy].
  - rewrite push_map_self by done. rewrite Hpr. simpl. by rewrite H2, H1, H4.
  - rewrite push_map_keeps by (done || by rewrite lookup_insert_ne).
    destruct (decide (y = cur)) as [->|]; [rewrite lookup_insert_eq, Hcr; simpl; by rewrite H3|by rewrite lookup_insert_ne].
Qed.

Lemma adopt_tended x cur p i cr pr ir :
  let m := procs x in
  cur ≠ i → cur ≠ p → i ≠ p → cptr ir ≠ Some p →
  m !! cur = Some cr → m !! p = Some pr → m !! i = Some ir →
  tended i x (set_procs x (adopt m cur p i cr pr ir)).
Proof.
  intros m Hci Hcp Hip Ho Hcr Hpr Hir. split; simpl; try done.
  - intros y. by apply adopt_keeps.
  - intros y _. by apply adopt_keeps.
  - intros y (yr & Hy & Hst). pose proof (adopt_keeps state m cur p i cr pr ir y) as Hk. unfold runnable. simpl.
    fold m in Hy. rewrite Hy in Hk. destruct (adopt m cur p i cr pr ir !! y) as [yr'|].
    + exists yr'. split; [done|]. injection Hk as ->; done.
    + discriminate Hk; done.
  - left. by apply adopt_keeps.
Qed.

(** The body of the loop up to the test of the child's state. *)
Lemma adopt_run s cur p i cr pr ir k {A} (f : Z → M ptab A) :
  let m := procs (ps s) in
  cur ≠ i → cur ≠ p → i ≠ p → p ∉ k → kids m i k →
  m !! cur = Some cr → m !! p = Some pr → m !! i = Some ir → initproc s = i →
  (pset cur (λ x, set_cptr x (optr pr)) ;;
   i ← gets initproc;
   pset p (λ x, set_yptr x None) ;;
   ir ← pget i;
   pset p (λ x, set_optr x (cptr ir)) ;;
   match cptr ir with Some o => pset o (λ x, set_yptr x (Some p)) | None => mret tt end ;;
   pset p (λ x, set_parent x (Some i)) ;;
   pset i (λ x, set_cptr x (Some p)) ;; f i) s = f i (with_procs s (adopt m cur p i cr pr ir)).
Proof.
  intros m Hci Hcp Hip Hpk Hk Hcr Hpr Hir Hinit. pose proof (with_procs_id s) as Hs. fold m in Hs. rewrite <-Hs at 1.
  pose proof (sb_first _ _ _ _ Hk) as Hf. rewrite Hir in Hf. injection Hf as Hf.
  step using (by apply pset_with). step using reflexivity. change (initproc (with_procs _ _)) with (initproc s). rewrite Hinit.
  step using (apply pset_with; by rewrite lookup_insert_ne).
  step using (apply pget_with; by rewrite !lookup_insert_ne by done).
  step using (apply pset_with; apply lookup_insert_eq). rewrite insert_insert_eq.
  unfold adopt, push_map. set (m1 := <[cur := set_cptr cr (optr pr)]> m).
  assert (m1 !! i = Some ir) as Hir1 by (unfold m1; by rewrite lookup_insert_ne).
  rewrite Hf. destruct (k !! 0%nat) as [o|] eqn:Ho.
  - destruct (sb_links _ _ _ _ Hk 0%nat o Ho) as (or & Hor & _). apply list_elem_of_lookup_2 in Ho.
    pose proof (sb_nodup _ _ _ _ Hk) as [Hik _]%NoDup_cons.
    assert (o ≠ p) by (by intros ->). assert (o ≠ i) by (by intros ->).
    assert (∃ or1, m1 !! o = Some or1) as [or1 Hor1].
    { unfold m1. destruct (decide (o = cur)) as [->|]; [rewrite lookup_insert_eq; eauto|rewrite lookup_insert_ne by done; eauto]. }
    rewrite (lookup_insert_ne m1 p o) by done. rewrite Hor1.
    step using (apply pset_with; by rewrite lookup_insert_ne).
    step using (apply pset_with; rewrite lookup_insert_ne by done; apply lookup_insert_eq).
    step using (apply pset_with; rewrite !lookup_insert_ne by done; exact Hir1).
    do 3 f_equal. rewrite (insert_insert_ne _ p o) by done. by rewrite insert_insert_eq.
  - step using reflexivity. step using (apply pset_with; apply lookup_insert_eq).
    step using (apply pset_with; rewrite !lookup_insert_ne by done; exact Hir1). by rewrite insert_insert_eq.
Qed.

Lemma sched_ok_adopt x cur p i cr pr ir k :
  let m := procs x in
  sched_ok c x → cur ≠ i → cur ≠ p → i ≠ p → p ∉ k → kids m i k →
  m !! cur = Some cr → m !! p = Some pr → m !! i = Some ir →
  sched_ok c (set_procs x (adopt m cur p i cr pr ir)).
Proof.
  intros m Hok Hci Hcp Hip Hpk Hk Hcr Hpr Hir.
  pose proof (sched_ok_upd c x cur cr (λ y, set_cptr y (optr pr)) Hok Hcr eq_refl eq_refl) as H1.
  apply (sched_ok_push c _ _ p pr); try done; [by rewrite lookup_insert_ne|by rewrite lookup_insert_ne|].
  pose proof (sb_first _ _ _ _ Hk) as Hf. rewrite Hir in Hf. injection Hf as Hf. rewrite Hf. intros o Ho.
  destruct (sb_links _ _ _ _ Hk 0%nat o Ho) as (or & Hor & _). apply list_elem_of_lookup_2 in Ho.
  pose proof (sb_nodup _ _ _ _ Hk) as [Hik _]%NoDup_cons.
  split_and!; [by intros ->|by intros ->|].
  destruct (decide (o = cur)) as [->|]; [rewrite lookup_insert_eq; eauto|rewrite lookup_insert_ne by done; eauto].
Qed.

Lemma reparent_run cur i l : ∀ k s fuel,
  sched_ok c (ps s) → cur ≠ i → siblings false (procs (ps s)) cur l → kids (procs (ps s)) i k → i ∉ l →
  initproc s = i → not_zombie (ps s) i → (length l < fuel)%nat →
  ∃ x, reparent_loop c fuel cur s = Ret (tt, set_ps s x) ∧ sched_ok c x ∧ tended i (ps s) x ∧
    siblings false (procs x) cur [] ∧ kids (procs x) i (reverse l ++ k) ∧
    ((∃ p pr, p ∈ l ∧ procs (ps s) !! p = Some pr ∧ state pr = PROC_ZOMBIE) →
     (wait_state <$> procs (ps s) !! i) = Some WT_CHILD → runnable x i).
Proof.
  induction l as [|p l IH]; intros k s fuel Hok Hci Hs Hk Hil Hinit Hnz Hf; (destruct fuel as [|fuel]; [simpl in Hf; lia|]).
  - exists (ps s). pose proof (sb_first _ _ _ _ Hs) as Hc. destruct (procs (ps s) !! cur) as [cr|] eqn:Hcr; [|done].
    injection Hc as Hc. split_and!; try done.
    + cbn [reparent_loop]. step using (by apply pget_run). rewrite Hc. by destruct s.
    + intros (p & _ & Hp & _). by apply elem_of_nil in Hp.
  - pose proof (sb_first _ _ _ _ Hs) as Hc. destruct (procs (ps s) !! cur) as [cr|] eqn:Hcr; [|done]. injection Hc as Hc.
    destruct (sb_links _ _ _ _ Hs 0%nat p eq_refl) as (pr & Hpr & Hpar & Hopt & _).
    destruct Hnz as (ir & Hir & Hz). pose proof (sb_nodup _ _ _ _ Hs) as [Hcl Hndl]%NoDup_cons.
    assert (cur ≠ p) by (intros ->; set_solver). assert (i ≠ p) as Hip by (intros ->; set_solver).
    assert (p ∉ k) as Hpk.
    { intros (j & Hj)%list_elem_of_lookup. destruct (sb_links _ _ _ _ Hk j p Hj) as (pr' & Hpr' & Hpar' & _). congruence. }
    assert (cptr ir ≠ Some p) as Hirp.
    { pose proof (sb_first _ _ _ _ Hk) as H0. rewrite Hir in H0. injection H0 as ->. intros ?%list_elem_of_lookup_2. done. }
    set (m' := adopt (procs (ps s)) cur p i cr pr ir). set (s1 := with_procs s m').
    destruct (adopt_family (procs (ps s)) cur p i cr pr ir l k) as [Hs1 Hk1]; try done. fold m' in Hs1, Hk1.
    assert (tended i (ps s) (ps s1)) as Ht1 by by apply adopt_tended.
    assert (sched_ok c (ps s1)) as Hok1 by by eapply sched_ok_adopt.
    assert (not_zombie (ps s1) i) as Hnz1 by (eapply tended_not_zombie; [exact Ht1|by exists ir]).
    assert (∃ pr', m' !! p = Some pr' ∧ state pr' = state pr) as (pr' & Hpr' & Hst').
    { unfold m', adopt. rewrite push_map_self by done. eauto. }
    destruct Hnz1 as (ir' & Hir' & Hz').
    assert (wait_state <$> m' !! i = wait_state <$> procs (ps s) !! i) as Hwi by by apply adopt_keeps.
    destruct (maybe_wake_run s1 i (bool_decide (state pr' = PROC_ZOMBIE) && (wait_state ir' =? WT_CHILD)) Hok1) as (x1 & Hwake & Hok2 & Ht2 & Hkin2 & Hr2).
    { by exists ir'. }
    destruct (IH (p :: k) (set_ps s1 x1) fuel) as (x & Hrun & Hok3 & Ht3 & Hs3 & Hk3 & Hr3); try done.
    { eapply siblings_ext; [intros y _; apply Hkin2|done]. } { eapply siblings_ext; [intros y _; apply Hkin2|done]. }
    { set_solver. } { eapply tended_not_zombie; [exact Ht2|]. by exists ir'. } { simpl in Hf. lia. }
    exists x. split_and!; try done.
    + cbn [reparent_loop]. step using (by apply pget_run). rewrite Hc. cbn [lookup list_lookup].
      step using (by apply pget_run).
      etrans; [by apply (adopt_run s cur p i cr pr ir k (λ i, pr' ← pget p; ir' ← pget i;
        when (bool_decide (state pr' = PROC_ZOMBIE) && (wait_state ir' =? WT_CHILD)) (sdo (wakeup_proc c i)) ;;
        reparent_loop c fuel cur))|].
      fold m' s1. step using (by apply pget_run). step using (by apply pget_run). step using (exact Hwake). exact Hrun.
    + etrans; [exact Ht1|]. etrans; [exact Ht2|]. exact Ht3.
    + by rewrite reverse_cons, <-app_assoc.
    + intros (z & zr & Hz1 & Hz2 & Hz3) Hwc. rewrite Hir in Hwc. injection Hwc as Hwc.
      change (procs (ps s1) !! i) with (m' !! i) in Hir'. rewrite Hir', Hir in Hwi. injection Hwi as Hwi.
      apply elem_of_cons in Hz1 as [->|Hz1].
      * apply (td_runnable _ _ _ Ht3). apply Hr2. apply andb_true_intro. split.
        -- apply bool_decide_eq_true. congruence.
        -- apply Z.eqb_eq. congruence.
      * destruct (td_waiting _ _ _ Ht2) as [Hw|Hw]; [|by apply (td_runnable _ _ _ Ht3)].
        change (procs (ps s1) !! i) with (m' !! i) in Hw. rewrite Hir' in Hw.
        apply Hr3; [|simpl; destruct (procs x1 !! i); [injection Hw as _ Hw2; simpl; congruence|done]].
        assert (z ≠ i) as Hzi by (intros ->; set_solver).
        pose proof (td_state _ _ _ Ht1 z Hzi) as H1. pose proof (td_state _ _ _ Ht2 z Hzi) as H2. rewrite H1, Hz2 in H2.
        exists z. simpl. destruct (procs x1 !! z) as [zr'|]; [|done]. injection H2 as H2 _. exists zr'. split_and!; [done|done|congruence].
Qed.

Lemma siblings_size b m q l : siblings b m q l → (length l < S (size m))%nat.
Proof.
  intros [Hnd _ Hl]. apply NoDup_cons in Hnd as [_ Hnd].
  assert (list_to_set l ⊆ dom m) as Hsub.
  { intros x. rewrite elem_of_list_to_set. intros (j & Hj)%list_elem_of_lookup. apply elem_of_dom.
    destruct (Hl j x Hj) as (xr & ? & _). eauto. }
  apply subseteq_size in Hsub. rewrite size_list_to_set, size_dom in Hsub by done. lia.
Qed.

Lemma view_kin m m' : same_view m m' → ∀ y, kin <$> m' !! y = kin <$> m !! y.
Proof.
  intros Hv y. specialize (Hv y). destruct (m !! y), (m' !! y); try done.
  injection Hv as ? ? ? ? ? ? ? ? ?. simpl. unfold kin. congruence.
Qed.

Lemma not_zombie_wake q i x x' : tended q x x' → not_zombie x i → not_zombie x' i.
Proof.
  intros Ht Hz. destruct (decide (i = q)) as [->|Hne]; [by eapply tended_not_zombie|].
  destruct Hz as (ir & Hi & Hz). pose proof (td_state _ _ _ Ht i Hne) as He. rewrite Hi in He. unfold not_zombie.
  destruct (procs x' !! i) as [ir'|]; [|done]. injection He as ? ?. exists ir'. split; congruence.
Qed.

(** A dead process with its exit code. *)
Definition dead (x : sched) (p code : Z) : Prop :=
  ∃ pr, procs x !! p = Some pr ∧ state pr = PROC_ZOMBIE ∧ exit_code pr = code.

Lemma dead_tended q x x' p code : p ≠ q → tended q x x' → dead x p code → dead x' p code.
Proof.
  intros Hp Ht (pr & Hpr & Hst & Hc). pose proof (td_state _ _ _ Ht p Hp) as H1. pose proof (td_ident _ _ _ Ht p) as H2.
  rewrite Hpr in H1, H2. unfold dead. destruct (procs x' !! p) as [pr'|]; [|done]. injection H1 as ? ?. injection H2 as ? ? ?.
  exists pr'. split_and!; congruence.
Qed.

Lemma do_exit_run s code i cr q l k e1 e2 :
  let cur := current (ps s) in
  sched_ok c (ps s) → initproc s = i → cur ≠ idleproc (ps s) → cur ≠ i →
  exit_mm cur (env s) = Ret (tt, e1) → put_fs cur e1 = Ret (tt, e2) →
  procs (ps s) !! cur = Some cr → parent cr = Some q → q ≠ cur →
  not_zombie (ps s) q → not_zombie (ps s) i →
  kids (procs (ps s)) cur l → kids (procs (ps s)) i k → i ∉ l →
  ∃ s', do_exit c code s = Ret (tt, s') ∧ sched_ok c (ps s') ∧ current (ps s') ≠ cur ∧
    dead (ps s') cur code ∧ siblings false (procs (ps s')) cur [] ∧
    kids (procs (ps s')) i (reverse l ++ k) ∧
    (wait_state <$> procs (ps s) !! q = Some WT_CHILD → runnable (ps s') q) ∧
    ((∃ p pr, p ∈ l ∧ procs (ps s) !! p = Some pr ∧ state pr = PROC_ZOMBIE) →
     wait_state <$> procs (ps s) !! i = Some WT_CHILD → runnable (ps s') i) ∧ env s' = e2.
Proof.
  intros cur Hok Hinit Hidle Hci He1 He2 Hcr Hpar Hqc Hzq Hzi Hl Hk Hil.
  set (cr' := set_exit_code (set_state cr PROC_ZOMBIE) code).
  set (s1 := with_procs (set_env s e2) (<[cur := cr']> (procs (ps s)))).
  assert (sched_ok c (ps s1)) as Hok1
    by by apply (sched_ok_leave c (ps s) cr (λ y, set_exit_code (set_state y PROC_ZOMBIE) code)).
  assert (∀ b y z, siblings b (procs (ps s)) y z → siblings b (procs (ps s1)) y z) as Hsib1.
  { intros b y z. apply siblings_sib; [|intros w _]; simpl.
    - destruct (decide (y = cur)) as [->|]; [by rewrite lookup_insert_eq, Hcr|by rewrite lookup_insert_ne].
    - destruct (decide (w = cur)) as [->|]; [by rewrite lookup_insert_eq, Hcr|by rewrite lookup_insert_ne]. }
  assert (∀ y, y ≠ cur → procs (ps s1) !! y = procs (ps s) !! y) as Hoth by (intros; simpl; by rewrite lookup_insert_ne).
  assert (not_zombie (ps s1) q ∧ not_zombie (ps s1) i) as [Hzq1 Hzi1] by (unfold not_zombie; rewrite !Hoth by done; done).
  assert (dead (ps s1) cur code) as Hdead1 by (exists cr'; simpl; by rewrite lookup_insert_eq).
  destruct Hzq1 as (qr & Hqr & Hzqr).
  destruct (maybe_wake_run s1 q (wait_state qr =? WT_CHILD) Hok1) as (x2 & Hwake & Hok2 & Ht2 & Hkin2 & Hr2); [by exists qr|].
  destruct (reparent_run cur i l k (set_ps s1 x2) (S (size (procs x2)))) as (x3 & Hrun3 & Hok3 & Ht3 & Hs3 & Hk3 & Hr3); try done.
  { eapply siblings_ext; [intros y _; apply Hkin2|]. apply Hsib1. destruct Hl as [H1 H2 H3]. split; [done|done|].
    intros j p Hj. destruct (H3 j p Hj) as (pr & ? & ? & ? & ?). exists pr. split_and!; try done. by destruct j. }
  { eapply siblings_ext; [intros y _; apply Hkin2|]. by apply Hsib1. }
  { by eapply not_zombie_wake. }
  { apply (siblings_size true _ cur). eapply siblings_ext; [intros y _; apply Hkin2|]. by apply Hsib1. }
  destruct (schedule_run c x3 Hok3) as (x4 & Hrun4 & Hok4 & Hcur4 & Hv4 & _).
  assert (dead x4 cur code) as Hdead4.
  { assert (dead x3 cur code) as (pr & Hpr & H1 & H2) by (eapply (dead_tended i); [done|done|]; by eapply (dead_tended q)).
    specialize (Hv4 cur). rewrite Hpr in Hv4. unfold dead. destruct (procs x4 !! cur) as [pr'|]; [|done].
    injection Hv4 as ? ? ? ? ? ? ? ? ?. exists pr'. split_and!; congruence. }
  exists (set_ps s1 x4). split_and!; try done.
  - unfold do_exit. step using reflexivity. fold cur. step using reflexivity. step using reflexivity.
    change (initproc (set_ps _ _)) with (initproc s). rewrite Hinit.
    step using (unfold assert; simpl; rewrite bool_decide_true, bool_decide_true by done; reflexivity).
    step using (unfold edo; simpl; rewrite He1; reflexivity). step using (unfold edo; simpl; rewrite He2; reflexivity).
    step using (by apply pset_run). step using (apply pget_run; apply lookup_insert_eq).
    step using (unfold deref; simpl; rewrite Hpar; reflexivity). step using (by apply pget_run).
    step using (exact Hwake). step using reflexivity.
    step using (exact Hrun3). unfold sdo. simpl. by rewrite Hrun4.
  - simpl. intros Heq. destruct Hcur4 as (pr & Hpr & Hst), Hdead4 as (pr' & Hpr' & Hst' & _). congruence.
  - eapply siblings_ext; [intros y _; apply (view_kin _ _ Hv4)|done].
  - eapply siblings_ext; [intros y _; apply (view_kin _ _ Hv4)|done].
  - intros Hw. rewrite <-Hoth, Hqr in Hw by done. injection Hw as Hw. simpl.
    apply (runnable_view x3 x4 q Hv4), (td_runnable _ _ _ Ht3), Hr2. by apply Z.eqb_eq.
  - intros (p & pr & Hp & Hpr & Hpz) Hw. simpl. apply (runnable_view x3 x4 i Hv4).
    destruct (decide (i = q)) as [->|Hiq].
    + rewrite <-Hoth, Hqr in Hw by done. injection Hw as Hw. apply (td_runnable _ _ _ Ht3), Hr2. by apply Z.eqb_eq.
    + assert (p ≠ cur) as Hpc by (intros ->; pose proof (sb_nodup _ _ _ _ Hl) as [? _]%NoDup_cons; done).
      assert (p ≠ q) as Hpq.
      { intros ->. rewrite Hoth, Hpr in Hqr by done. injection Hqr as <-. done. }
      apply Hr3.
      * pose proof (td_state _ _ _ Ht2 p Hpq) as Est. rewrite Hoth, Hpr in Est by done. simpl.
        destruct (procs x2 !! p) as [pr2|] eqn:Ex2; [|done]. injection Est as Est _. exists p, pr2. split_and!; congruence.
      * pose proof (td_state _ _ _ Ht2 i Hiq) as Est. rewrite Hoth in Est by done. simpl.
        destruct (procs x2 !! i) as [ir2|], (procs (ps s) !! i) as [ir|]; try done. injection Est as _ Est. simpl in Hw |- *. congruence.
Qed.

(** C26: [do_exit] of a process other than idle and init does not panic: it leaves the process a zombie
    with its exit code, gives all its children to init, wakes the parent if it waits for a child and
    init if it waits and inherits a zombie, and hands the processor to another process for good. *)
Theorem do_exit_correct s code i cr q l k e1 e2 :
  let cur := current (ps s) in
  sched_ok c (ps s) → initproc s = i → cur ≠ idleproc (ps s) → cur ≠ i →
  exit_mm cur (env s) = Ret (tt, e1) → put_fs cur e1 = Ret (tt, e2) →
  procs (ps s) !! cur = Some cr → parent cr = Some q → q ≠ cur →
  not_zombie (ps s) q → not_zombie (ps s) i →
  kids (procs (ps s)) cur l → kids (procs (ps s)) i k → i ∉ l →
  ∃ s', do_exit c code s = Ret (tt, s') ∧ sched_ok c (ps s') ∧ current (ps s') ≠ cur ∧
    dead (ps s') cur code ∧ siblings false (procs (ps s')) cur [] ∧
    kids (procs (ps s')) i (reverse l ++ k) ∧
    (wait_state <$> procs (ps s) !! q = Some WT_CHILD → runnable (ps s') q) ∧
    ((∃ p pr, p ∈ l ∧ procs (ps s) !! p = Some pr ∧ state pr = PROC_ZOMBIE) →
     wait_state <$> procs (ps s) !! i = Some WT_CHILD → runnable (ps s') i).
Proof.
  intros cur Hok Hinit Hidle Hci He1 He2 Hcr Hpar Hqc Hzq Hzi Hl Hk Hil.
  destruct (do_exit_run s code i cr q l k e1 e2) as (s' & Hrun & H1 & H2 & H3 & H4 & H5 & H6 & H7 & _); try done.
  exists s'. split_and!; done.
Qed.

End exit.

(** * [do_kill] *)

Section kill.
Context {R : Type} (c : sched_class) `{L : !sched_laws c}.
Implicit Types (s : @ptab R).

(** Skipping the first entry in the forward direction only leaves no well-formed list. *)
Lemma skip_first_broken h p l e :
  dlist h proc_list (p :: l) → h !! proc_list = Some e →
  ∀ l', ¬ dlist (<[proc_list := mk_entry (prev e) (default proc_list (head l))]> h) proc_list l'.
Proof.
  intros (Hnd & _ & Hp) He l' (Hnd' & Hn' & Hp'). apply NoDup_cons in Hnd as [Hpl Hnd].
  apply not_elem_of_cons in Hpl as [Hpp Hpl].
  pose proof (Hn' 0%nat proc_list) as Hb. destruct l' as [|b l'].
  - specialize (Hb proc_list eq_refl eq_refl). rewrite lookup_insert_eq in Hb. injection Hb as Hb.
    specialize (Hp' 0%nat proc_list proc_list eq_refl eq_refl). rewrite lookup_insert_eq in Hp'. injection Hp' as Hp'.
    destruct l as [|x l]; simpl in Hb; [|subst x; set_solver].
    specialize (Hp 1%nat p proc_list eq_refl eq_refl). rewrite He in Hp. injection Hp as Hp. congruence.
  - specialize (Hb b eq_refl eq_refl). rewrite lookup_insert_eq in Hb. injection Hb as Hb.
    apply NoDup_cons in Hnd' as [Hn0 _]. apply not_elem_of_cons in Hn0 as [Hn0 _].
    specialize (Hp' 0%nat proc_list b eq_refl eq_refl). rewrite lookup_insert_ne in Hp' by done.
    destruct l as [|x l]; simpl in Hb; [congruence|]. subst x.
    specialize (Hp 1%nat p b eq_refl eq_refl). rewrite Hp in Hp'. congruence.
Qed.

(** C40: killing the process at the front of the process list (the youngest one), when it is not already exiting
    and does not wait for anything, returns 0 but leaves the list damaged: the head now leads to the entry after
    the process ([n], or the head itself when there is none), while the process still leads to that entry and that
    entry still names the process as the one before it, so that no sequence of processes is linked consistently
    any more. *)
Theorem do_kill_breaks_list s p l pr :
  tab_ok c s (p :: l) → procs (ps s) !! p = Some pr → Z.land (flags pr) PF_EXITING = 0 → wait_state pr = 0 →
  let n := default proc_list (head l) in
  ∃ s', do_kill c (pid pr) s = Ret (0, s') ∧
    p ≠ n ∧ next <$> links s' !! proc_list = Some n ∧ next <$> links s' !! p = Some n ∧ prev <$> links s' !! n = Some p ∧
    ∀ l', ¬ dlist (links s') proc_list l'.
Proof.
  intros Hok Hp Hfl Hw n. pose proof (t_list _ _ _ Hok) as Hd. destruct Hd as (Hnd & Hn & Hpv).
  assert (p ≠ proc_list) as Hpl by (apply NoDup_cons in Hnd as [? _]; set_solver).
  pose proof (Hn 0%nat proc_list p eq_refl eq_refl) as H0. destruct (links s !! proc_list) as [e|] eqn:He; [|done].
  injection H0 as H0.
  assert (next <$> links s !! p = Some n) as H1.
  { destruct l as [|x l]; apply (Hn 1%nat p _ eq_refl eq_refl). }
  set (s1 := set_links_of s (<[proc_list := mk_entry (prev e) n]> (links s))).
  set (s2 := with_procs s1 (<[p := set_flags pr (Z.lor (flags pr) PF_EXITING)]> (procs (ps s)))).
  assert (prev <$> links s !! n = Some p) as H2.
  { destruct l as [|x l]; apply (Hpv 1%nat p _ eq_refl eq_refl). }
  assert (p ≠ n) as Hpn by (destruct l; [done|]; intros ->; apply NoDup_cons in Hnd as [_ Hnd]; inversion Hnd; set_solver).
  exists s2. split; [|split_and!; [done|..|by apply (skip_first_broken _ p); [apply Hok|]]].
  2: { simpl. by rewrite lookup_insert_eq. } 2: { simpl. by rewrite lookup_insert_ne. }
  2: { simpl. destruct (decide (n = proc_list)) as [Hnp|]; [|by rewrite lookup_insert_ne].
       rewrite Hnp, lookup_insert_eq. rewrite Hnp, He in H2. done. }
  unfold do_kill. step using (apply list_next_run; rewrite He; simpl; by rewrite H0). rewrite decide_False by done.
  assert (∀ b, (pr ← pget p; when (pid pr =? b) (n ← ldo (list_next p); ldo (set_next proc_list n))) s =
    (when (pid pr =? b) (n ← ldo (list_next p); ldo (set_next proc_list n))) s) as Hg.
  { intros b. by step using (by apply pget_run). }
  assert ((n ← ldo (list_next p); ldo (set_next proc_list n)) s = Ret (tt, s1)) as Hu.
  { step using (by apply list_next_run). unfold ldo. erewrite set_next_run by exact He. done. }
  erewrite M_bind_step; [|rewrite Hg, Z.eqb_refl; exact Hu].
  assert (find_proc (pid pr) s1 = Ret (Some p, s1)) as Hfind.
  { apply (find_proc_by s1 (p :: l)); try apply Hok; [by eapply dlist_nodup, Hok|by left|done]. }
  step using (exact Hfind). cbv iota. unfold sdo.
  assert (kill_proc c p (ps s1) = Ret (0, ps s2)) as ->; [|done].
  unfold kill_proc. step using (by apply proc_at_run). rewrite Hfl. simpl (0 =? 0). cbv iota.
  step using (by apply proc_upd_run). rewrite Hw. by step using reflexivity.
Qed.

End kill.

(** * A concrete process table *)

(** Resources that are always available; the next free key is the state. *)
Definition demo_env : @proc_env Z := {|
  new_proc := λ e, Ret (Some e, e + 1);
  free_proc := λ _ e, Ret (tt, e);
  setup_kstack := λ _ e, Ret (0, e);
  put_kstack := λ _ e, Ret (tt, e);
  copy_fs := λ _ _ _ e, Ret (0, e);
  put_fs := λ _ e, Ret (tt, e);
  copy_mm := λ _ _ _ e, Ret (0, e);
  copy_thread := λ _ _ _ e, Ret (tt, e);
  exit_mm := λ _ e, Ret (tt, e);
  user_mem_ok := λ _ _ e, Ret (true, e);
  store_code := λ _ _ _ e, Ret (tt, e) |}.

(** Idle (0), init (1) waiting for a child, its running child 2, and the zombie child 3 of that. *)
Definition demo_procs : gmap Z proc_struct :=
  <[0 := mkProc PROC_RUNNABLE 0 0 false None (Some 1) None None 0 0 0 0 false 0 0 0]>
  (<[1 := mkProc PROC_SLEEPING 1 0 false (Some 0) (Some 2) None None 0 0 0 WT_CHILD false 3 0 1]>
  (<[2 := mkProc PROC_RUNNABLE 2 0 false (Some 1) (Some 3) None None 0 0 0 0 false 3 0 1]>
  (<[3 := mkProc PROC_ZOMBIE 3 0 false (Some 2) None None None 0 0 7 0 false 3 0 1]> ∅))).

Definition demo_ptab : @ptab Z :=
  mkPtab (mkSched demo_procs 2 0 [] SkewHeap.Leaf 0 5 ∅ [] 3)
    (<[-1 := mk_entry 1 3]> (<[3 := mk_entry (-1) 2]> (<[2 := mk_entry 3 1]> (<[1 := mk_entry 2 (-1)]> ∅))))
    (<[pid_hashfn 1 := [1]]> (<[pid_hashfn 2 := [2]]> (<[pid_hashfn 3 := [3]]> ∅))) 4 1 MAX_PID 3 10.

Lemma demo_lookup p pr :
  demo_procs !! p = Some pr → p = 0 ∨ p = 1 ∨ p = 2 ∨ p = 3.
Proof.
  intros H. destruct (decide (p = 0)); [tauto|]. destruct (decide (p = 1)); [tauto|].
  destruct (decide (p = 2)); [tauto|]. destruct (decide (p = 3)); [tauto|].
  unfold demo_procs in H. by rewrite !lookup_insert_ne in H by done.
Qed.

Lemma demo_sched_ok2 : sched_ok rr_sched_class (ps demo_ptab).
Proof.
  split.
  - split; [constructor|intros p Hp; by apply elem_of_nil in Hp|done].
  - by eexists.
  - by eexists.
  - intros p. simpl. split; [by intros ?%elem_of_nil|]. intros ((pr & Hp & Hst) & H2 & H0). exfalso. simpl in Hp.
    pose proof Hp as Hp'. apply demo_lookup in Hp' as [->|[->|[->| ->]]]; try done; vm_compute in Hp; by injection Hp as <-.
Qed.

Lemma demo_kids : kids demo_procs 1 [2] ∧ kids demo_procs 2 [3].
Proof.
  split; (split; [apply (bool_decide_unpack _); by vm_compute|done|]); intros [|[|i]] p Hi; try done;
    injection Hi as <-; by eexists.
Qed.

Lemma demo_tab_ok : tab_ok rr_sched_class demo_ptab [3; 2; 1].
Proof.
  assert (pids_of demo_ptab [3; 2; 1] = [3; 2; 1]) as Hpids by done.
  split.
  - split_and!; [apply (bool_decide_unpack _); by vm_compute| |];
      intros i a b Ha Hb; do 5 (destruct i as [|i]; [by simplify_eq/=|]); done.
  - intros p Hp. rewrite !elem_of_cons in Hp. destruct Hp as [->|[->|[->|[]%elem_of_nil]]]; by eexists.
  - rewrite Hpids. apply (bool_decide_unpack _). by vm_compute.
  - rewrite Hpids. unfold MAX_PID, MAX_PROCESS. intros x. rewrite !elem_of_cons. intros [->|[->|[->|[]%elem_of_nil]]]; lia.
  - assert (pid_hashfn 1 ≠ pid_hashfn 2 ∧ pid_hashfn 1 ≠ pid_hashfn 3 ∧ pid_hashfn 2 ≠ pid_hashfn 3) as (H12 & H13 & H23)
      by (apply (bool_decide_unpack _); by vm_compute).
    intros b p. unfold bucket. cbn [hash_list demo_ptab]. split.
    + destruct (decide (b = pid_hashfn 1)) as [->|]; [|rewrite lookup_insert_ne by done].
      { rewrite lookup_insert_eq. intros ->%list_elem_of_singleton. split; [set_solver|]. by eexists. }
      destruct (decide (b = pid_hashfn 2)) as [->|]; [|rewrite lookup_insert_ne by done].
      { rewrite lookup_insert_eq. intros ->%list_elem_of_singleton. split; [set_solver|]. by eexists. }
      destruct (decide (b = pid_hashfn 3)) as [->|]; [|rewrite lookup_insert_ne, lookup_empty by done; by intros ?%elem_of_nil].
      rewrite lookup_insert_eq. intros ->%list_elem_of_singleton. split; [set_solver|]. by eexists.
    + rewrite !elem_of_cons. intros [Hp (pr & Hpr & <-)].
      destruct Hp as [->|[->|[->|[]%elem_of_nil]]]; vm_compute in Hpr; injection Hpr as <-; cbn [pid];
        repeat (rewrite lookup_insert_ne by done); rewrite lookup_insert_eq; set_solver.
  - apply demo_sched_ok2.
  - split_and!; [done|done|done|]. rewrite Hpids. intros x. rewrite !elem_of_cons. simpl.
    intros [->|[->|[->|[]%elem_of_nil]]]; lia.
  - done.
Qed.

Lemma get_pid_correct_witness : ∃ id s', get_pid demo_ptab = Ret (id, s') ∧ id ∉ [3; 2; 1].
Proof.
  destruct (get_pid_correct demo_ptab [3; 2; 1]) as (id & s' & Hrun & _ & Hn & _).
  - apply demo_tab_ok.
  - apply (t_alive _ _ _ demo_tab_ok).
  - done.
  - apply (t_gap _ _ _ demo_tab_ok).
  - exists id, s'. split; [exact Hrun|exact Hn].
Defined.

Lemma do_fork_correct_witness :
  ∃ id s', @do_fork Z demo_env rr_sched_class 0 0 0 0 demo_ptab = Ret (id, s') ∧ find_proc id s' = Ret (Some 10, s').
Proof.
  destruct (@do_fork_correct Z demo_env rr_sched_class rr_laws 0 demo_ptab [3; 2; 1] 0 0 0 10 11
    (mkProc PROC_RUNNABLE 2 0 false (Some 1) (Some 3) None None 0 0 0 0 false 3 0 1) [3])
    as (id & s' & Hrun & _ & _ & _ & _ & _ & Hf & _).
  - apply demo_tab_ok.
  - done.
  - exists 11, 11, 11, 11. done.
  - done.
  - done.
  - done.
  - done.
  - apply demo_kids.
  - exists id, s'. split; [exact Hrun|exact Hf].
Defined.

Lemma do_exit_correct_witness :
  ∃ s', @do_exit Z demo_env rr_sched_class 5 demo_ptab = Ret (tt, s') ∧ dead (ps s') 2 5 ∧
    kids (procs (ps s')) 1 [3; 2] ∧ runnable (ps s') 1.
Proof.
  destruct (@do_exit_correct Z demo_env rr_sched_class rr_laws demo_ptab 5 1
    (mkProc PROC_RUNNABLE 2 0 false (Some 1) (Some 3) None None 0 0 0 0 false 3 0 1) 1 [3] [2] 10 10)
    as (s' & Hrun & _ & _ & Hd & _ & Hk & _ & Hr).
  - apply demo_sched_ok2.
  - done.
  - done.
  - done.
  - done.
  - done.
  - done.
  - done.
  - done.
  - by eexists.
  - by eexists.
  - apply demo_kids.
  - apply demo_kids.
  - set_solver.
  - exists s'. split; [exact Hrun|]. split; [exact Hd|]. split; [exact Hk|]. apply Hr; [|done].
    exists 3. eexists. split; [by left|]. split; done.
Defined.

Lemma do_kill_breaks_list_witness :
  ∃ s', do_kill rr_sched_class 3 demo_ptab = Ret (0, s') ∧ next <$> links s' !! proc_list = Some 2 ∧
    prev <$> links s' !! 2 = Some 3.
Proof.
  destruct (do_kill_breaks_list rr_sched_class demo_ptab 3 [2; 1]
    (mkProc PROC_ZOMBIE 3 0 false (Some 2) None None None 0 0 7 0 false 3 0 1)) as (s' & Hrun & _ & H1 & _ & H2 & _).
  - apply demo_tab_ok.
  - done.
  - done.
  - done.
  - exists s'. split; [exact Hrun|]. split; [exact H1|exact H2].
Defined.

End Proc.
