(* ===== verification/Bitmap.v ===== *)
(** The block bitmap of the file system, kern/fs/sfs/bitmap.c: a bit is 1 when the block is free. *)
From S2P Require Import Prelude.

Module Bitmap.
Set Default Proof Using "Type".

Definition WORD_BITS : Z := 32.

(** [struct bitmap]. *)
Record bitmap := mkBitmap { nbits : Z; nwords : Z; map : list Z }.

(** [ROUNDUP_DIV] of libs/defs.h. *)
Definition ROUNDUP_DIV (a n : Z) : Z := u32 (a + n - 1) / n.

(** [map[ix] ^= (1 << overbits)] for [overbits] up to 31. *)
Fixpoint clear_over (n : nat) (overbits w : Z) : Z :=
  match n with
  | O => w
  | S n' => clear_over n' (overbits + 1) (Z.lxor w (Z.shiftl 1 overbits))
  end.

(** [bitmap_create]; the two booleans are the outcomes of the calls of [kmalloc]. *)
Definition bitmap_create (k1 k2 : bool) (n : Z) : res (option bitmap) :=
  if negb (negb (n =? 0) && (n <? u32 (n + WORD_BITS))) then Err EPanic
  else if negb (k1 && k2) then Ret None
  else
    let nw := ROUNDUP_DIV n WORD_BITS in
    let m := replicate (Z.to_nat nw) (2 ^ 32 - 1) in
    if negb (n =? u32 (nw * WORD_BITS)) then
      let ix := nw - 1 in
      let overbits := n - ix * WORD_BITS in
      if negb ((n / WORD_BITS =? ix) && (0 <? overbits) && (overbits <? WORD_BITS)) then Err EPanic
      else
        let w := clear_over (Z.to_nat (WORD_BITS - overbits)) overbits (default 0 (m !! Z.to_nat ix)) in
        Ret (Some (mkBitmap n nw (<[Z.to_nat ix := w]> m)))
    else Ret (Some (mkBitmap n nw m)).

(** The search of [bitmap_alloc]: the first word that is not 0, and its lowest bit that is 1. *)
Fixpoint find_word (ws : list Z) (ix : nat) : option (nat * Z) :=
  match ws with
  | [] => None
  | w :: ws' => if w =? 0 then find_word ws' (S ix) else Some (ix, w)
  end.

Fixpoint find_offset (n : nat) (offset w : Z) : option Z :=
  match n with
  | O => None
  | S n' => if negb (Z.land w (Z.shiftl 1 offset) =? 0) then Some offset else find_offset n' (offset + 1) w
  end.

(** [bitmap_alloc]: the result and [*index_store]. *)
Definition bitmap_alloc : M bitmap (Z * Z) :=
  b ← get;
  match find_word (map b) 0 with
  | None => mret (- E_NO_MEM, 0)
  | Some (ix, w) =>
      match find_offset (Z.to_nat WORD_BITS) 0 w with
      | None => fail EPanic
      | Some offset =>
          put (mkBitmap (nbits b) (nwords b) (<[ix := Z.lxor w (Z.shiftl 1 offset)]> (map b))) ;;
          mret (0, Z.of_nat ix * WORD_BITS + offset)
      end
  end.

(** [bitmap_translate]: the index of the word, its value and the mask. *)
Definition bitmap_translate (index : Z) : M bitmap (nat * Z * Z) :=
  b ← get;
  assert (index <? nbits b) ;;
  let ix := Z.to_nat (index / WORD_BITS) in
  w ← deref (λ b, map b !! ix);
  mret (ix, w, Z.shiftl 1 (index mod WORD_BITS)).

Definition bitmap_test (index : Z) : M bitmap bool :=
  '(ix, w, mask) ← bitmap_translate index; mret (negb (Z.land w mask =? 0)).

Definition bitmap_free (index : Z) : M bitmap unit :=
  '(ix, w, mask) ← bitmap_translate index;
  assert (Z.land w mask =? 0) ;;
  modify (λ b, mkBitmap (nbits b) (nwords b) (<[ix := Z.lor w mask]> (map b))).

Definition bitmap_getdata (b : bitmap) : list Z * Z := (map b, 4 * nwords b).

(** * The set of free blocks *)

Definition free (b : bitmap) (i : Z) : Prop :=
  0 ≤ i ∧ ∃ w, map b !! Z.to_nat (i / 32) = Some w ∧ Z.testbit w (i mod 32) = true.

Record wf (b : bitmap) : Prop := {
  wf_len : Z.of_nat (length (map b)) = nwords b;
  wf_words : ∀ i w, map b !! i = Some w → is_u32 w;
  wf_bits : nbits b ≤ 32 * nwords b;
  wf_pad : ∀ i, free b i → i < nbits b }.

#[global] Instance free_dec b i : Decision (free b i).
Proof.
  unfold free. destruct (decide (0 ≤ i)); [|right; by intros [? _]].
  destruct (map b !! Z.to_nat (i / 32)) as [w|]; [|right; by intros (_ & ? & ? & _)].
  destruct (Z.testbit w (i mod 32)) eqn:E; [left; eauto|right; intros (_ & ? & [= <-] & ?); congruence].
Defined.

Lemma land_bit w k : 0 ≤ k → (Z.land w (Z.shiftl 1 k) =? 0) = negb (Z.testbit w k).
Proof.
  intros Hk. rewrite Z.shiftl_1_l. destruct (Z.testbit w k) eqn:E; simpl.
  - apply Z.eqb_neq. intros H0. assert (Z.testbit (Z.land w (2 ^ k)) k = true) as H.
    { rewrite Z.land_spec, E, Z.pow2_bits_true by done. done. }
    rewrite H0, Z.bits_0 in H. done.
  - apply Z.eqb_eq. apply Z.bits_inj'. intros j Hj. rewrite Z.land_spec, Z.bits_0, Z.pow2_bits_eqb by done.
    destruct (k =? j) eqn:Hkj; [|by rewrite andb_false_r]. z_bool. subst. by rewrite E.
Qed.

Lemma find_offset_spec n : ∀ k w,
  0 ≤ k → match find_offset n k w with
          | Some j => k ≤ j < k + Z.of_nat n ∧ Z.testbit w j = true ∧ ∀ i, k ≤ i < j → Z.testbit w i = false
          | None => ∀ i, k ≤ i < k + Z.of_nat n → Z.testbit w i = false
          end.
Proof.
  induction n as [|n IH]; intros k w Hk; cbn [find_offset]; [lia|].
  rewrite land_bit, negb_involutive by done. destruct (Z.testbit w k) eqn:E.
  - split_and!; [lia|lia|done|lia].
  - specialize (IH (k + 1) w ltac:(lia)). destruct (find_offset n (k + 1) w) as [j|].
    + destruct IH as (? & ? & Hlt). split_and!; [lia|lia|done|]. intros i Hi.
      destruct (decide (i = k)) as [->|]; [done|apply Hlt; lia].
    + intros i Hi. destruct (decide (i = k)) as [->|]; [done|apply IH; lia].
Qed.

Lemma find_word_spec ws : ∀ k,
  match find_word ws k with
  | Some (ix, w) => (k ≤ ix)%nat ∧ ws !! (ix - k)%nat = Some w ∧ w ≠ 0 ∧ ∀ i, (i < ix - k)%nat → ws !! i = Some 0
  | None => ∀ i w, ws !! i = Some w → w = 0
  end.
Proof.
  induction ws as [|w ws IH]; intros k; cbn [find_word]; [done|].
  destruct (w =? 0) eqn:E; z_bool.
  - subst w. specialize (IH (S k)). destruct (find_word ws (S k)) as [[ix w]|].
    + destruct IH as (? & Hw & ? & Hlt). split_and!; [lia| |done|].
      * replace (ix - k)%nat with (S (ix - S k)) by lia. done.
      * intros [|i] Hi; [done|]. simpl. apply Hlt. lia.
    + intros [|i] w Hi; [by injection Hi as <-|by eapply IH].
  - rewrite Nat.sub_diag. split_and!; [lia|done|done|lia].
Qed.

Lemma u32_nonzero_bit w : is_u32 w → w ≠ 0 → ∃ j, 0 ≤ j < 32 ∧ Z.testbit w j = true.
Proof.
  intros [H0 H1] Hw. exists (Z.log2 w). split; [|by apply Z.bit_log2; lia].
  split; [apply Z.log2_nonneg|]. apply Z.log2_lt_pow2; lia.
Qed.

(** Changing one bit of one word. *)
Definition set_word (b : bitmap) (ix : nat) (w : Z) : bitmap := mkBitmap (nbits b) (nwords b) (<[ix := w]> (map b)).

Lemma split_index i : 0 ≤ i → i = Z.of_nat (Z.to_nat (i / 32)) * 32 + i mod 32 ∧ 0 ≤ i mod 32 < 32.
Proof. intros. pose proof (Z.div_mod i 32). pose proof (Z.mod_pos_bound i 32). pose proof (Z.div_pos i 32). lia. Qed.

Lemma join_index (ix : nat) k : 0 ≤ k < 32 →
  (Z.of_nat ix * 32 + k) / 32 = Z.of_nat ix ∧ (Z.of_nat ix * 32 + k) mod 32 = k.
Proof.
  intros. split; [rewrite Z.div_add_l by lia; rewrite Z.div_small by lia; lia|].
  rewrite Z.add_comm, Z.mod_add by lia. by apply Z.mod_small.
Qed.

Lemma free_set_word b ix w w' i :
  map b !! ix = Some w → 0 ≤ i →
  free (set_word b ix w') i ↔ if decide (Z.to_nat (i / 32) = ix) then Z.testbit w' (i mod 32) = true else free b i.
Proof.
  intros Hw Hi. unfold free, set_word. cbn [map]. destruct (decide (Z.to_nat (i / 32) = ix)) as [->|Hne].
  - rewrite list_lookup_insert_eq by by eapply lookup_lt_Some. naive_solver.
  - by rewrite list_lookup_insert_ne.
Qed.

Lemma free_mono b ix w k :
  map b !! ix = Some w → 0 ≤ k < 32 →
  (∀ i, 0 ≤ i → (Z.to_nat (i / 32) = ix ∧ i mod 32 = k) ↔ i = Z.of_nat ix * 32 + k).
Proof.
  intros Hw Hk i Hi. split.
  - intros [<- <-]. by apply split_index.
  - intros ->. destruct (join_index ix k Hk) as [-> ->]. by rewrite Nat2Z.id.
Qed.

(** Taking and giving back one bit. *)
Lemma take_bit b ix w k :
  wf b → map b !! ix = Some w → 0 ≤ k < 32 → Z.testbit w k = true →
  let b' := set_word b ix (Z.lxor w (Z.shiftl 1 k)) in
  wf b' ∧ (∀ i, free b' i ↔ free b i ∧ i ≠ Z.of_nat ix * 32 + k).
Proof.
  intros Hwf Hw Hk Hb b'.
  assert (∀ i, free b' i ↔ free b i ∧ i ≠ Z.of_nat ix * 32 + k) as Hfree.
  { intros i. destruct (decide (0 ≤ i)) as [Hi|Hi]; [|unfold free; naive_solver lia].
    unfold b'. rewrite (free_set_word b ix w) by done. pose proof (free_mono b ix w k Hw Hk i Hi) as Heq.
    destruct (decide (Z.to_nat (i / 32) = ix)) as [He|Hne]; [|naive_solver].
    rewrite Z.lxor_spec, Z.shiftl_1_l, Z.pow2_bits_eqb by lia.
    assert (free b i ↔ Z.testbit w (i mod 32) = true) as ->.
    { unfold free. rewrite He, Hw. naive_solver. }
    destruct (k =? i mod 32) eqn:E; z_bool.
    - rewrite <-E, Hb. simpl. naive_solver.
    - rewrite xorb_false_r. naive_solver. }
  split; [|done]. destruct Hwf as [H1 H2 H3 H4]. split.
  - unfold b', set_word. cbn [map nwords]. by rewrite length_insert.
  - intros i v. unfold b', set_word. cbn [map]. intros [(<- & <- & _)|[_ Hv]]%list_lookup_insert_Some; [|by eapply H2].
    pose proof (H2 _ _ Hw) as Hr. split.
    + apply Z.lxor_nonneg. rewrite Z.shiftl_1_l. pose proof (Z.pow_nonneg 2 k). lia.
    + destruct (decide (Z.lxor w (Z.shiftl 1 k) ≤ 0)); [lia|]. apply Z.log2_lt_pow2; [lia|].
      eapply Z.le_lt_trans; [apply Z.log2_lxor; [lia|rewrite Z.shiftl_1_l; apply Z.pow_nonneg; lia]|].
      rewrite Z.shiftl_1_l, Z.log2_pow2 by lia.
      assert (Z.log2 w < 32); [|lia]. destruct (decide (w = 0)) as [->|]; [done|]. apply Z.log2_lt_pow2; lia.
  - done.
  - intros i [Hf _]%Hfree. by apply H4.
Qed.

Lemma give_bit b ix w k :
  wf b → map b !! ix = Some w → 0 ≤ k < 32 → Z.of_nat ix * 32 + k < nbits b →
  let b' := set_word b ix (Z.lor w (Z.shiftl 1 k)) in
  wf b' ∧ (∀ i, free b' i ↔ free b i ∨ i = Z.of_nat ix * 32 + k).
Proof.
  intros Hwf Hw Hk Hn b'.
  assert (∀ i, free b' i ↔ free b i ∨ i = Z.of_nat ix * 32 + k) as Hfree.
  { intros i. destruct (decide (0 ≤ i)) as [Hi|Hi]; [|unfold free; naive_solver lia].
    unfold b'. rewrite (free_set_word b ix w) by done. pose proof (free_mono b ix w k Hw Hk i Hi) as Heq.
    destruct (decide (Z.to_nat (i / 32) = ix)) as [He|Hne]; [|naive_solver].
    rewrite Z.lor_spec, Z.shiftl_1_l, Z.pow2_bits_eqb by lia.
    assert (free b i ↔ Z.testbit w (i mod 32) = true) as ->.
    { unfold free. rewrite He, Hw. naive_solver. }
    destruct (k =? i mod 32) eqn:E; z_bool.
    - rewrite orb_true_r. naive_solver.
    - rewrite orb_false_r. naive_solver. }
  split; [|done]. destruct Hwf as [H1 H2 H3 H4]. split.
  - unfold b', set_word. cbn [map nwords]. by rewrite length_insert.
  - intros i v. unfold b', set_word. cbn [map]. intros [(<- & <- & _)|[_ Hv]]%list_lookup_insert_Some; [|by eapply H2].
    pose proof (H2 _ _ Hw) as Hr. split.
    + apply Z.lor_nonneg. rewrite Z.shiftl_1_l. pose proof (Z.pow_nonneg 2 k). lia.
    + destruct (decide (Z.lor w (Z.shiftl 1 k) ≤ 0)); [lia|]. apply Z.log2_lt_pow2; [lia|].
      rewrite Z.log2_lor; [|lia|rewrite Z.shiftl_1_l; apply Z.pow_nonneg; lia].
      rewrite Z.shiftl_1_l, Z.log2_pow2 by lia.
      assert (Z.log2 w < 32); [|lia]. destruct (decide (w = 0)) as [->|]; [done|]. apply Z.log2_lt_pow2; lia.
  - done.
  - intros i [Hf| ->]%Hfree; [by apply H4|done].
Qed.

Lemma bitmap_alloc_run b :
  wf b →
  (∃ i b', bitmap_alloc b = Ret ((0, i), b') ∧ free b i ∧ (∀ j, j < i → ¬ free b j) ∧ wf b' ∧
     nbits b' = nbits b ∧ (∀ j, free b' j ↔ free b j ∧ j ≠ i)) ∨
  (bitmap_alloc b = Ret ((- E_NO_MEM, 0), b) ∧ ∀ j, ¬ free b j).
Proof.
  intros Hwf. unfold bitmap_alloc. pose proof (find_word_spec (map b) 0) as Hfw.
  destruct (find_word (map b) 0) as [[ix w]|] eqn:Ew.
  - left. destruct Hfw as (_ & Hw & Hw0 & Hbefore). rewrite Nat.sub_0_r in Hw, Hbefore.
    pose proof (find_offset_spec (Z.to_nat WORD_BITS) 0 w ltac:(done)) as Hfo.
    destruct (find_offset (Z.to_nat WORD_BITS) 0 w) as [k|] eqn:Ek.
    + destruct Hfo as (Hk & Hbit & Hlow). change (0 + Z.of_nat (Z.to_nat WORD_BITS)) with 32 in Hk.
      destruct (take_bit b ix w k Hwf Hw Hk Hbit) as [Hwf' Hfree'].
      exists (Z.of_nat ix * 32 + k), (set_word b ix (Z.lxor w (Z.shiftl 1 k))). split_and!; try done.
      * step using reflexivity. by rewrite Ew, Ek.
      * split; [lia|]. exists w. destruct (join_index ix k Hk) as [-> ->]. by rewrite Nat2Z.id.
      * intros j Hj (Hj0 & v & Hv & Hvb). destruct (split_index j Hj0) as [Hjs Hjm].
        destruct (decide (Z.to_nat (j / 32) < ix)%nat) as [Hlt|Hge].
        -- rewrite (Hbefore _ Hlt) in Hv. injection Hv as <-. by rewrite Z.bits_0 in Hvb.
        -- assert (Z.to_nat (j / 32) = ix) as He by lia. rewrite He in Hv. rewrite Hw in Hv. injection Hv as <-.
           rewrite Hlow in Hvb; [done|]. lia.
    + exfalso. destruct (u32_nonzero_bit w (wf_words b Hwf ix w Hw) Hw0) as (j & Hj & Hb).
      rewrite Hfo in Hb; [done|]. change (0 + Z.of_nat (Z.to_nat WORD_BITS)) with 32. lia.
  - right. split. { step using reflexivity. by rewrite Ew. } intros j (_ & w & Hw & Hb).
    rewrite (Hfw _ _ Hw), Z.bits_0 in Hb. done.
Qed.

Lemma bitmap_translate_run b i :
  wf b → 0 ≤ i < nbits b →
  ∃ w, map b !! Z.to_nat (i / 32) = Some w ∧
    bitmap_translate i b = Ret ((Z.to_nat (i / 32), w, Z.shiftl 1 (i mod 32)), b) ∧
    (free b i ↔ Z.testbit w (i mod 32) = true).
Proof.
  intros Hwf Hi. assert (∃ w, map b !! Z.to_nat (i / 32) = Some w) as [w Hw].
  { apply lookup_lt_is_Some. pose proof (wf_len b Hwf). pose proof (wf_bits b Hwf).
    destruct (split_index i ltac:(lia)). lia. }
  exists w. split_and!; [done| |].
  - unfold bitmap_translate. step using reflexivity.
    step using (unfold assert; rewrite (proj2 (Z.ltb_lt _ _)) by lia; reflexivity).
    cbv zeta. change WORD_BITS with 32. step using (unfold deref; rewrite Hw; reflexivity). done.
  - unfold free. rewrite Hw. naive_solver.
Qed.

Lemma bitmap_test_run b i :
  wf b → 0 ≤ i < nbits b → bitmap_test i b = Ret (bool_decide (free b i), b).
Proof.
  intros Hwf Hi. destruct (bitmap_translate_run b i Hwf Hi) as (w & Hw & Ht & Hf).
  unfold bitmap_test. step using (exact Ht). cbv beta iota. rewrite land_bit, negb_involutive by (destruct (split_index i); lia).
  destruct (bool_decide_reflect (free b i)) as [H|H].
  - by rewrite (proj1 Hf H).
  - destruct (Z.testbit w (i mod 32)); [|done]. by destruct H; apply Hf.
Qed.

Lemma bitmap_free_run b i :
  wf b → 0 ≤ i < nbits b → ¬ free b i →
  ∃ b', bitmap_free i b = Ret (tt, b') ∧ wf b' ∧ nbits b' = nbits b ∧ (∀ j, free b' j ↔ free b j ∨ j = i).
Proof.
  intros Hwf Hi Hn. destruct (bitmap_translate_run b i Hwf Hi) as (w & Hw & Ht & Hf).
  destruct (split_index i ltac:(lia)) as [Heq Hm].
  destruct (give_bit b (Z.to_nat (i / 32)) w (i mod 32) Hwf Hw Hm) as [Hwf' Hfree']; [lia|].
  rewrite <-Heq in Hfree'. exists (set_word b (Z.to_nat (i / 32)) (Z.lor w (Z.shiftl 1 (i mod 32)))). split_and!; try done.
  unfold bitmap_free. step using (exact Ht). cbv beta iota.
  assert (Z.testbit w (i mod 32) = false) as Hb by (apply not_true_is_false; by rewrite <-Hf).
  step using (unfold assert; rewrite land_bit, Hb by lia; reflexivity). done.
Qed.

(** [bitmap_alloc] takes the lowest free block and no other, and answers -E_NO_MEM exactly when
    every block is in use; the padding bits behind the last block are never handed out. *)
Theorem bitmap_alloc_correct b :
  wf b →
  (∃ i b', bitmap_alloc b = Ret ((0, i), b') ∧ i < nbits b ∧ free b i ∧ (∀ j, j < i → ¬ free b j) ∧
     wf b' ∧ (∀ j, free b' j ↔ free b j ∧ j ≠ i)) ∨
  (bitmap_alloc b = Ret ((- E_NO_MEM, 0), b) ∧ ∀ j, ¬ free b j).
Proof.
  intros Hwf. destruct (bitmap_alloc_run b Hwf) as [(i & b' & Hrun & Hf & Hl & Hwf' & _ & Hfree)|H]; [left|by right].
  exists i, b'. split_and!; try done. by apply (wf_pad b Hwf).
Qed.

(** A bitmap of 40 blocks of which the first 33 are in use. *)
Definition demo_bitmap : bitmap := mkBitmap 40 2 [0; 0xFE].

Lemma demo_bitmap_wf : wf demo_bitmap.
Proof.
  split.
  - done.
  - intros [|[|i]] w Hw; simplify_eq/=; lia.
  - done.
  - intros i (Hi & w & Hw & Hb). destruct (split_index i Hi) as [Heq Hm].
    destruct (Z.to_nat (i / 32)) as [|[|n]] eqn:E; simpl in Hw; simplify_eq.
    + by rewrite Z.bits_0 in Hb.
    + assert (i mod 32 < 8); [|simpl; lia]. apply Z.nle_gt. intros Hge.
      rewrite Z.bits_above_log2 in Hb; [done|done|]. change (Z.log2 254) with 7. lia.
Qed.

Lemma bitmap_alloc_correct_witness : ∃ b', bitmap_alloc demo_bitmap = Ret ((0, 33), b').
Proof.
  destruct (bitmap_alloc_correct demo_bitmap demo_bitmap_wf) as [(i & b' & Hrun & _)|[_ Hn]].
  - exists b'. rewrite Hrun. vm_compute in Hrun. by injection Hrun as <- <-.
  - destruct (Hn 33). split; [done|]. by exists 254.
Defined.

End Bitmap.
