(* ===== verification/SfsDisk.v ===== *)
(** The simple file system on disk: the structures of kern/fs/sfs/sfs.h with their byte layout, and the
    block input and output of kern/fs/sfs/sfs_io.c.

    The disk is a map from byte addresses to bytes; an address that has never been written reads as 0.
    The device accepts every transfer of a block below [super.blocks], which [sfs_do_mount] checks
    against the size of the device.  The functions run with the locks they take held. *)
From S2P Require Import Prelude Bitmap.

Module SfsDisk.
Import Bitmap.
Set Default Proof Using "Type".

Definition SFS_MAGIC : Z := 0x2f8dbe2a.
Definition SFS_BLKSIZE : Z := PGSIZE.
Definition SFS_NDIRECT : Z := 12.
Definition SFS_MAX_INFO_LEN : Z := 31.
Definition SFS_MAX_FNAME_LEN : Z := 255.
Definition SFS_MAX_FILE_SIZE : Z := 1024 * 1024 * 128.
Definition SFS_BLKN_SUPER : Z := 0.
Definition SFS_BLKN_ROOT : Z := 1.
Definition SFS_BLKN_FREEMAP : Z := 2.
Definition SFS_BLKBITS : Z := SFS_BLKSIZE * 8.
Definition SFS_BLK_NENTRY : Z := SFS_BLKSIZE / 4.
Definition SFS_TYPE_FILE : Z := 1.
Definition SFS_TYPE_DIR : Z := 2.
Definition SFS_TYPE_LINK : Z := 3.

Record sfs_super := mkSuper { magic : Z; blocks : Z; unused_blocks : Z; info : list Z }.

Record sfs_disk_inode := mkDin {
  size : Z; type : Z; nlinks : Z; nblocks : Z; direct : list Z; indirect : Z }.

Record sfs_disk_entry := mkEntry { e_ino : Z; e_name : list Z }.

(** [struct sfs_inode] with the reference and open counts of the [struct inode] around it; its [ino] is
    its key in [inodes]. *)
Record sfs_inode := mkSin { din : sfs_disk_inode; dirty : bool; reclaim_count : Z; ref_count : Z; open_count : Z }.

(** [struct sfs_fs] with the device it is mounted on.  [inodes] are the inodes in memory, those on
    [inode_list] and in the hash table.  [allocs] is the record of the calls of [kmalloc], whose outcomes are
    given from outside: how many there were ([calls]), and how many of the objects they returned have not
    been given back ([unfreed]). *)
Record heap_log := mkLog { calls : Z; unfreed : Z }.
Record sfs_fs := mkSfs {
  super : sfs_super; super_dirty : bool; freemap : bitmap; disk : gmap Z Z; inodes : gmap Z sfs_inode; allocs : heap_log }.

Definition set_super (s : sfs_fs) (x : sfs_super) (d : bool) : sfs_fs :=
  mkSfs x d (freemap s) (disk s) (inodes s) (allocs s).
Definition set_freemap (s : sfs_fs) (x : bitmap) : sfs_fs :=
  mkSfs (super s) (super_dirty s) x (disk s) (inodes s) (allocs s).
Definition set_disk (s : sfs_fs) (x : gmap Z Z) : sfs_fs :=
  mkSfs (super s) (super_dirty s) (freemap s) x (inodes s) (allocs s).
Definition set_inodes (s : sfs_fs) (x : gmap Z sfs_inode) : sfs_fs :=
  mkSfs (super s) (super_dirty s) (freemap s) (disk s) x (allocs s).
Definition set_allocs (s : sfs_fs) (x : heap_log) : sfs_fs :=
  mkSfs (super s) (super_dirty s) (freemap s) (disk s) (inodes s) x.

(** * Bytes *)

(** Little-endian integers of [n] bytes. *)
Fixpoint le (n : nat) (x : Z) : list Z :=
  match n with
  | O => []
  | S n' => x mod 256 :: le n' (x / 256)
  end.
Fixpoint unle (l : list Z) : Z :=
  match l with
  | [] => 0
  | b :: l' => b + 256 * unle l'
  end.

(** [n] bytes of [l] from [off] on; what is not there is 0. *)
Definition bytes (l : list Z) (off n : nat) : list Z := take n (drop off l ++ replicate n 0).
Definition int_at (l : list Z) (off n : nat) : Z := unle (bytes l off n).

(** The layout of [struct sfs_disk_inode]: 64 bytes. *)
Definition encode_inode (d : sfs_disk_inode) : list Z :=
  le 4 (size d) ++ le 2 (type d) ++ le 2 (nlinks d) ++ le 4 (nblocks d) ++
  concat (le 4 <$> direct d) ++ le 4 (indirect d).
Definition decode_inode (l : list Z) : sfs_disk_inode :=
  mkDin (int_at l 0 4) (int_at l 4 2) (int_at l 6 2) (int_at l 8 4)
    ((λ i, int_at l (12 + 4 * i) 4) <$> seq 0 12) (int_at l 60 4).
Definition inode_bytes : Z := 64.

(** The layout of [struct sfs_disk_entry]: the inode number and 256 bytes of name. *)
Definition decode_entry (l : list Z) : sfs_disk_entry := mkEntry (int_at l 0 4) (bytes l 4 256).
Definition entry_bytes : Z := 260.

(** The layout of [struct sfs_super]: 44 bytes. *)
Definition encode_super (s : sfs_super) : list Z :=
  le 4 (magic s) ++ le 4 (blocks s) ++ le 4 (unused_blocks s) ++ info s.

(** The C string at the head of a buffer. *)
Fixpoint cstring (l : list Z) : list Z :=
  match l with
  | [] => []
  | c :: l' => if c =? 0 then [] else c :: cstring l'
  end.

Definition byte_at (d : gmap Z Z) (a : Z) : Z := default 0 (d !! a).
Definition read_bytes (d : gmap Z Z) (a n : Z) : list Z := byte_at d <$> seqZ a n.
Definition write_bytes (d : gmap Z Z) (a : Z) (l : list Z) : gmap Z Z := map_seqZ a l ∪ d.

(** * sfs_io.c *)

(** [sfs_rwblock_nolock] for reading and for writing. *)
Definition check_blkno (blkno : Z) (check : bool) : M sfs_fs unit :=
  s ← get; assert ((negb (blkno =? 0) || negb check) && (blkno <? blocks (super s))).

Definition sfs_rblock_nolock (blkno : Z) (check : bool) : M sfs_fs (Z * list Z) :=
  check_blkno blkno check ;;
  s ← get; mret (0, read_bytes (disk s) (blkno * SFS_BLKSIZE) SFS_BLKSIZE).

Definition sfs_wblock_nolock (buf : list Z) (blkno : Z) (check : bool) : M sfs_fs Z :=
  check_blkno blkno check ;;
  modify (λ s, set_disk s (write_bytes (disk s) (blkno * SFS_BLKSIZE) (take (Z.to_nat SFS_BLKSIZE) buf))) ;;
  mret 0.

(** [sfs_rwblock]: [nblks] consecutive blocks. *)
Fixpoint sfs_rblock (blkno : Z) (nblks : nat) : M sfs_fs (Z * list Z) :=
  match nblks with
  | O => mret (0, [])
  | S n =>
      '(ret, b) ← sfs_rblock_nolock blkno true;
      if negb (ret =? 0) then mret (ret, []) else
      '(ret', b') ← sfs_rblock (blkno + 1) n; mret (ret', b ++ b')
  end.

Fixpoint sfs_wblock (buf : list Z) (blkno : Z) (nblks : nat) : M sfs_fs Z :=
  match nblks with
  | O => mret 0
  | S n =>
      ret ← sfs_wblock_nolock buf blkno true;
      if negb (ret =? 0) then mret ret else sfs_wblock (drop (Z.to_nat SFS_BLKSIZE) buf) (blkno + 1) n
  end.

Definition check_range (len offset : Z) : M sfs_fs unit :=
  assert ((0 <=? offset) && (offset <? SFS_BLKSIZE) && (offset + len <=? SFS_BLKSIZE)).

Definition sfs_rbuf (len blkno offset : Z) : M sfs_fs (Z * list Z) :=
  check_range len offset ;;
  '(ret, b) ← sfs_rblock_nolock blkno true;
  mret (ret, if ret =? 0 then take (Z.to_nat len) (drop (Z.to_nat offset) b) else []).

Definition sfs_wbuf (buf : list Z) (blkno offset : Z) : M sfs_fs Z :=
  check_range (Z.of_nat (length buf)) offset ;;
  '(ret, b) ← sfs_rblock_nolock blkno true;
  if negb (ret =? 0) then mret ret else
  sfs_wblock_nolock (take (Z.to_nat offset) b ++ buf ++ drop (Z.to_nat offset + length buf) b) blkno true.

Definition sfs_sync_super : M sfs_fs Z :=
  s ← get;
  let b := encode_super (super s) in
  sfs_wblock_nolock (b ++ replicate (Z.to_nat SFS_BLKSIZE - length b) 0) SFS_BLKN_SUPER false.

Definition sfs_freemap_blocks (s : sfs_super) : Z := ROUNDUP_DIV (blocks s) SFS_BLKBITS.

Definition sfs_sync_freemap : M sfs_fs Z :=
  s ← get;
  sfs_wblock (concat (le 4 <$> (bitmap_getdata (freemap s)).1)) SFS_BLKN_FREEMAP
    (Z.to_nat (sfs_freemap_blocks (super s))).

Fixpoint sfs_clear_block (blkno : Z) (nblks : nat) : M sfs_fs Z :=
  match nblks with
  | O => mret 0
  | S n =>
      ret ← sfs_wblock_nolock (replicate (Z.to_nat SFS_BLKSIZE) 0) blkno true;
      if negb (ret =? 0) then mret ret else sfs_clear_block (blkno + 1) n
  end.

(** * The layout can be read back *)

Lemma length_le n x : length (le n x) = n.
Proof. revert x. induction n as [|n IH]; intros x; simpl; [done|]. by rewrite IH. Qed.

Lemma unle_le n x : 0 ≤ x < 256 ^ Z.of_nat n → unle (le n x) = x.
Proof.
  revert x. induction n as [|n IH]; intros x Hx; cbn [le unle].
  - change (256 ^ Z.of_nat 0) with 1 in Hx. lia.
  - rewrite IH; [pose proof (Z.div_mod x 256); lia|].
    rewrite Nat2Z.inj_succ, Z.pow_succ_r in Hx by lia.
    split; [apply Z.div_pos; lia|apply Z.div_lt_upper_bound; lia].
Qed.

Lemma le_bytes n x b : b ∈ le n x → 0 ≤ b < 256.
Proof.
  revert x. induction n as [|n IH]; intros x; cbn [le]; [by intros ?%elem_of_nil|].
  intros [->|Hb]%elem_of_cons; [apply Z.mod_pos_bound; lia|by eapply IH].
Qed.

Lemma bytes_app l1 l2 n : length l1 = n → bytes (l1 ++ l2) 0 n = l1.
Proof. intros <-. unfold bytes. rewrite drop_0, <-app_assoc. apply take_app_length. Qed.

Lemma int_at_skip k x l off n : (k ≤ off)%nat → int_at (le k x ++ l) off n = int_at l (off - k) n.
Proof.
  intros H. unfold int_at, bytes. rewrite drop_app_ge by (rewrite length_le; lia). by rewrite length_le.
Qed.

Lemma int_at_here k x l : 0 ≤ x < 256 ^ Z.of_nat k → int_at (le k x ++ l) 0 k = x.
Proof. intros H. unfold int_at. rewrite bytes_app by apply length_le. by apply unle_le. Qed.

(** Reads the field at a literal offset of a concatenation of encoded fields. *)
Ltac read_field :=
  repeat (rewrite int_at_skip by lia; cbn [Nat.sub]); apply int_at_here; cbn; lia.

(** What the kernel writes for an inode it reads back: every field of every inode survives the
    translation to the 64 bytes on disk, whatever follows them in the block. *)
Theorem inode_layout_roundtrip d rest :
  is_u32 (size d) → 0 ≤ type d < 2 ^ 16 → 0 ≤ nlinks d < 2 ^ 16 → is_u32 (nblocks d) →
  length (direct d) = 12%nat → Forall (λ x, is_u32 x) (direct d) → is_u32 (indirect d) →
  decode_inode (encode_inode d ++ rest) = d ∧ length (encode_inode d) = 64%nat.
Proof.
  destruct d as [sz ty nl nb dir ind]. cbn [size type nlinks nblocks direct indirect]. intros H1 H2 H3 H4 Hlen Hdir H5.
  do 12 (destruct dir as [|? dir]; [done|]). destruct dir; [|done].
  rewrite !Forall_cons in Hdir. destruct_and! Hdir.
  unfold encode_inode. cbn [size type nlinks nblocks direct indirect fmap list_fmap concat]. rewrite app_nil_r. split.
  - rewrite <-!app_assoc. unfold decode_inode. cbn [fmap list_fmap seq Nat.add Nat.mul]. f_equal; [read_field..| |read_field].
    repeat (f_equal; [read_field|]). f_equal. read_field.
  - rewrite !length_app, !length_le. done.
Qed.

Lemma inode_layout_roundtrip_witness :
  decode_inode (encode_inode (mkDin 5000 1 1 2 [7; 9; 0; 0; 0; 0; 0; 0; 0; 0; 0; 0] 0) ++ [1; 2; 3]) =
    mkDin 5000 1 1 2 [7; 9; 0; 0; 0; 0; 0; 0; 0; 0; 0; 0] 0.
Proof.
  apply (inode_layout_roundtrip (mkDin 5000 1 1 2 [7; 9; 0; 0; 0; 0; 0; 0; 0; 0; 0; 0] 0) [1; 2; 3]); simpl; try lia.
  repeat constructor; lia.
Defined.

(** * Reading and writing the disk *)

Lemma byte_write d a l x :
  byte_at (write_bytes d a l) x = if decide (a ≤ x < a + Z.of_nat (length l)) then l !!! Z.to_nat (x - a) else byte_at d x.
Proof.
  unfold byte_at, write_bytes. case_decide as H.
  - destruct (lookup_lt_is_Some_2 l (Z.to_nat (x - a))) as [v Hv]; [lia|].
    rewrite (lookup_union_Some_l _ _ _ v); [simpl; symmetry; by apply list_lookup_total_correct|].
    apply lookup_map_seqZ_Some. split; [lia|done].
  - rewrite lookup_union_r; [done|]. apply lookup_map_seqZ_None. lia.
Qed.

Lemma length_read d a n : 0 ≤ n → Z.of_nat (length (read_bytes d a n)) = n.
Proof. intros. unfold read_bytes. rewrite length_fmap, length_seqZ. lia. Qed.

Lemma lookup_read d a n i : (i < Z.to_nat n)%nat → read_bytes d a n !! i = Some (byte_at d (a + Z.of_nat i)).
Proof.
  intros Hi. unfold read_bytes. rewrite list_lookup_fmap, (proj2 (lookup_seqZ a n i (a + Z.of_nat i))) by lia. done.
Qed.

Lemma read_ext d d' a n : (∀ x, a ≤ x < a + n → byte_at d x = byte_at d' x) → read_bytes d a n = read_bytes d' a n.
Proof.
  intros H. unfold read_bytes. apply list_fmap_ext. intros i x Hx. apply lookup_seqZ in Hx as [-> Hx]. apply H. lia.
Qed.

Lemma read_take_drop d a n off len :
  0 ≤ off → 0 ≤ len → off + len ≤ n →
  take (Z.to_nat len) (drop (Z.to_nat off) (read_bytes d a n)) = read_bytes d (a + off) len.
Proof.
  intros H1 H2 H3. apply list_eq. intros i. destruct (decide (i < Z.to_nat len)%nat) as [Hi|Hi].
  - rewrite lookup_take_lt, lookup_drop, !lookup_read by lia. do 2 f_equal. lia.
  - rewrite lookup_take_ge by lia. symmetry. apply lookup_ge_None. unfold read_bytes. rewrite length_fmap, length_seqZ. lia.
Qed.

Lemma read_write_same d a l : read_bytes (write_bytes d a l) a (Z.of_nat (length l)) = l.
Proof.
  apply list_eq. intros i. destruct (decide (i < length l)%nat) as [Hi|Hi].
  - rewrite lookup_read by lia. rewrite byte_write, decide_True by lia.
    replace (Z.to_nat (a + Z.of_nat i - a)) with i by lia. by rewrite list_lookup_lookup_total_lt.
  - rewrite !(proj2 (lookup_ge_None _ _)); [done|lia|]. unfold read_bytes. rewrite length_fmap, length_seqZ. lia.
Qed.

End SfsDisk.
