(* ===== verification/Iobuf.v ===== *)
(** The transfer descriptors of kern/fs/iobuf.c.  A buffer is the part of memory from [io_base] on; memory
    maps addresses to bytes. *)
From S2P Require Import Prelude SfsDisk.

Module Iobuf.
Import SfsDisk.
Set Default Proof Using "Type".

(** [struct iobuf]. *)
Record iobuf := mkIobuf { io_base : Z; io_offset : Z; io_len : Z; io_resid : Z }.

Definition iobuf_init (base len offset : Z) : iobuf := mkIobuf base offset len len.

Definition iobuf_used (iob : iobuf) : Z := u32 (io_len iob - io_resid iob).

(** The state of the functions: memory and the descriptor. *)
Notation state := (gmap Z Z * iobuf)%type.

Definition iobuf_skip (n : Z) : M state unit :=
  s ← get;
  assert (n <=? io_resid s.2) ;;
  put (s.1, mkIobuf (io_base s.2 + n) (io_offset s.2 + n) (io_len s.2) (io_resid s.2 - n)).

(** [iobuf_move]: the result and [*copiedp]; [m2b] says that [data] goes to the buffer. *)
Definition iobuf_move (data len : Z) (m2b : bool) : M state (Z * Z) :=
  s ← get;
  let alen := if len <? io_resid s.2 then len else io_resid s.2 in
  when (0 <? alen)
    (let src := if m2b then data else io_base s.2 in
     let dst := if m2b then io_base s.2 else data in
     put (write_bytes s.1 dst (read_bytes s.1 src alen), s.2) ;;
     iobuf_skip alen) ;;
  let left := if 0 <? alen then len - alen else len in
  mret (if left =? 0 then 0 else - E_NO_MEM, alen).

Definition iobuf_move_zeros (len : Z) : M state (Z * Z) :=
  s ← get;
  let alen := if len <? io_resid s.2 then len else io_resid s.2 in
  when (0 <? alen)
    (put (write_bytes s.1 (io_base s.2) (replicate (Z.to_nat alen) 0), s.2) ;;
     iobuf_skip alen) ;;
  let left := if 0 <? alen then len - alen else len in
  mret (if left =? 0 then 0 else - E_NO_MEM, alen).

(** ** What a transfer does *)

Definition advanced (iob : iobuf) (n : Z) : iobuf :=
  mkIobuf (io_base iob + n) (io_offset iob + n) (io_len iob) (io_resid iob - n).

Lemma iobuf_skip_run (m m' : gmap Z Z) iob n :
  n ≤ io_resid iob → (put (m', iob) ;; iobuf_skip n) (m, iob) = Ret (tt, (m', advanced iob n)).
Proof.
  intros H. rewrite (M_bind_step _ _ _ tt (m', iob)) by done. unfold iobuf_skip.
  rewrite (M_bind_step _ _ _ (m', iob) (m', iob)) by done.
  rewrite (M_bind_step _ _ _ tt (m', iob)) by (unfold assert; simpl; by rewrite (proj2 (Z.leb_le _ _)) by lia). done.
Qed.

(** [iobuf_move] copies as many bytes as both sides allow, to or from the place where the transfer
    stands, advances the descriptor by exactly that many, reports the number, and answers -E_NO_MEM
    exactly when not everything could be moved; nothing outside the destination changes. *)
Theorem iobuf_move_correct (m : gmap Z Z) (iob : iobuf) (data len : Z) (m2b : bool) :
  0 ≤ len → 0 ≤ io_resid iob →
  let n := Z.min len (io_resid iob) in
  let src := if m2b then data else io_base iob in
  let dst := if m2b then io_base iob else data in
  ∃ m' : gmap Z Z, iobuf_move data len m2b (m, iob) =
          Ret ((if bool_decide (len ≤ io_resid iob) then 0 else - E_NO_MEM, n), (m', advanced iob n)) ∧
    read_bytes m' dst n = read_bytes m src n ∧
    (∀ a, ¬ (dst ≤ a < dst + n) → byte_at m' a = byte_at m a) ∧
    iobuf_used (advanced iob n) = u32 (iobuf_used iob + n).
Proof.
  intros Hlen Hres n src dst. unfold iobuf_move. rewrite (M_bind_step _ _ _ (m, iob) (m, iob)) by done. cbn [fst snd].
  assert ((if len <? io_resid iob then len else io_resid iob) = n) as -> by (unfold n; destruct (len <? io_resid iob) eqn:E; z_bool; lia).
  assert (0 ≤ n) as Hn by lia.
  assert (iobuf_used (advanced iob n) = u32 (iobuf_used iob + n)) as Hused.
  { unfold iobuf_used, advanced. simpl. unfold u32. rewrite Zplus_mod_idemp_l. f_equal. lia. }
  destruct (0 <? n) eqn:E; z_bool.
  - fold src dst. set (m' := write_bytes m dst (read_bytes m src n)). exists m'. split_and!; [| | |done].
    + rewrite (M_bind_step _ _ _ tt (m', advanced iob n)) by (apply iobuf_skip_run; lia).
      unfold mret, M_ret. do 3 f_equal. destruct (bool_decide_reflect (len ≤ io_resid iob)).
      * rewrite (proj2 (Z.eqb_eq _ _)) by lia. done.
      * rewrite (proj2 (Z.eqb_neq _ _)) by lia. done.
    + unfold m'. rewrite <-(length_read m src n) at 2 by lia. apply read_write_same.
    + intros a Ha. unfold m'. rewrite byte_write, length_read, decide_False by lia. done.
  - assert (n = 0) as Hn0 by lia. rewrite Hn0. exists m. split_and!; [|done|done|by rewrite Hn0 in Hused].
    unfold when. rewrite (M_bind_step _ _ (m, iob) tt (m, iob)) by done. unfold mret, M_ret.
    assert (advanced iob 0 = iob) as -> by (destruct iob; unfold advanced; simpl; f_equal; lia).
    do 3 f_equal. destruct (bool_decide_reflect (len ≤ io_resid iob)).
    + rewrite (proj2 (Z.eqb_eq _ _)) by lia. done.
    + rewrite (proj2 (Z.eqb_neq _ _)) by lia. done.
Qed.

Lemma iobuf_move_correct_witness :
  ∃ m' : gmap Z Z, iobuf_move 100 8 false ((map_seqZ 16 [1; 2; 3; 4; 5]), mkIobuf 16 0 5 5) =
    Ret ((- E_NO_MEM, 5), (m', mkIobuf 21 5 5 0)) ∧ read_bytes m' 100 5 = [1; 2; 3; 4; 5].
Proof.
  destruct (iobuf_move_correct (map_seqZ 16 [1; 2; 3; 4; 5]) (mkIobuf 16 0 5 5) 100 8 false) as (m' & Hrun & Hr & _).
  - done.
  - done.
  - exists m'. split; [exact Hrun|]. change (read_bytes m' 100 5 = [1; 2; 3; 4; 5]) in Hr. exact Hr.
Defined.

End Iobuf.
