(* ===== verification/SfsInode.v ===== *)
(** The operations of kern/fs/sfs/sfs_inode.c and the counts of kern/fs/vfs/inode.c on inodes.

    An inode in memory is named by its inode number: [sfs_load_inode], the only function that makes one,
    first looks the number up in the hash table.  The functions run with the locks they take held.  Out
    parameters are part of the result; one that the function leaves unset is [undef]. *)
From S2P Require Import Prelude Bitmap SfsDisk Iobuf.

Module SfsInode.
Import Bitmap SfsDisk Iobuf.
Set Default Proof Using "Type".

Definition E_BUSY : Z := 15.
Definition MAX_INODE_COUNT : Z := 0x10000.
Definition sfs_dentry_size : Z := 256.
Definition S_IFREG : Z := 4096.
Definition S_IFDIR : Z := 8192.
Definition S_IFLNK : Z := 12288.
Definition O_RDONLY : Z := 0.
Definition O_APPEND : Z := 32.
Definition O_ACCMODE : Z := 3.

(** The kernel heap as the file system sees it.  The [i]-th call of [kmalloc], for [n] bytes, answers
    NULL or an address; the bytes there are whatever the heap holds, [heap_bytes i], at least a page of
    them.  [undef] is the value of a local variable that was never assigned. *)
Class heap_env := {
  heap_addr : Z → Z → option Z;
  heap_bytes : Z → list Z;
  undef : Z }.

Section sfs.
Context `{E : heap_env}.

(** [kmalloc]: the address and the content. *)
Definition kmalloc (n : Z) : M sfs_fs (option (Z * list Z)) :=
  s ← get;
  let i := calls (allocs s) in
  put (set_allocs s (mkLog (i + 1) (if heap_addr i n then unfreed (allocs s) + 1 else unfreed (allocs s)))) ;;
  mret ((λ a, (a, heap_bytes i)) <$> heap_addr i n).

(** [kfree] of an object that is held. *)
Definition kfree : M sfs_fs unit :=
  modify (λ s, set_allocs s (mkLog (calls (allocs s)) (unfreed (allocs s) - 1))).

(** * Inodes in memory *)

Definition sin_at (ino : Z) : M sfs_fs sfs_inode := deref (λ s, inodes s !! ino).
Definition sin_set (ino : Z) (x : sfs_inode) : M sfs_fs unit := modify (λ s, set_inodes s (<[ino := x]> (inodes s))).
Definition sin_upd (ino : Z) (f : sfs_inode → sfs_inode) : M sfs_fs unit := x ← sin_at ino; sin_set ino (f x).
Definition din_of (ino : Z) : M sfs_fs sfs_disk_inode := x ← sin_at ino; mret (din x).

Definition set_din (d : sfs_disk_inode) (x : sfs_inode) : sfs_inode :=
  mkSin d (dirty x) (reclaim_count x) (ref_count x) (open_count x).
Definition set_dirty (b : bool) (x : sfs_inode) : sfs_inode :=
  mkSin (din x) b (reclaim_count x) (ref_count x) (open_count x).
Definition set_reclaim (n : Z) (x : sfs_inode) : sfs_inode :=
  mkSin (din x) (dirty x) n (ref_count x) (open_count x).
Definition set_ref (n : Z) (x : sfs_inode) : sfs_inode :=
  mkSin (din x) (dirty x) (reclaim_count x) n (open_count x).
Definition set_open (n : Z) (x : sfs_inode) : sfs_inode :=
  mkSin (din x) (dirty x) (reclaim_count x) (ref_count x) n.

Definition set_size (n : Z) (d : sfs_disk_inode) : sfs_disk_inode :=
  mkDin n (type d) (nlinks d) (nblocks d) (direct d) (indirect d).
Definition set_nblocks (n : Z) (d : sfs_disk_inode) : sfs_disk_inode :=
  mkDin (size d) (type d) (nlinks d) n (direct d) (indirect d).
Definition set_direct (i v : Z) (d : sfs_disk_inode) : sfs_disk_inode :=
  mkDin (size d) (type d) (nlinks d) (nblocks d) (<[Z.to_nat i := v]> (direct d)) (indirect d).
Definition set_indirect (v : Z) (d : sfs_disk_inode) : sfs_disk_inode :=
  mkDin (size d) (type d) (nlinks d) (nblocks d) (direct d) v.
Definition din_upd (ino : Z) (f : sfs_disk_inode → sfs_disk_inode) : M sfs_fs unit :=
  sin_upd ino (λ x, set_din (f (din x)) x).

(** [inode_check], with the test of [__vop_op] that the table of the inode's type has the operation:
    [dirs] and [files] say whether [sfs_node_dirops] and [sfs_node_fileops] have it. *)
Definition inode_check (ino : Z) (dirs files : bool) : M sfs_fs unit :=
  x ← sin_at ino;
  assert (if type (din x) =? SFS_TYPE_DIR then dirs else files) ;;
  assert ((open_count x <=? ref_count x) && (0 <=? open_count x)) ;;
  assert ((ref_count x <? MAX_INODE_COUNT) && (open_count x <? MAX_INODE_COUNT)).

Definition inode_ref_inc (ino : Z) : M sfs_fs Z :=
  sin_upd ino (λ x, set_ref (ref_count x + 1) x) ;;
  x ← sin_at ino; mret (ref_count x).

(** * Blocks *)

Definition fm {A} (m : M bitmap A) : M sfs_fs A := λ s,
  match m (freemap s) with
  | Ret (a, b) => Ret (a, set_freemap s b)
  | Err e => Err e
  end.

Definition sfs_block_inuse (ino : Z) : M sfs_fs bool :=
  s ← get;
  if negb (ino =? 0) && (ino <? blocks (super s)) then b ← fm (bitmap_test ino); mret (negb b)
  else fail EPanic.

Definition add_unused (n : Z) (s : sfs_fs) : sfs_fs :=
  set_super s (mkSuper (magic (super s)) (blocks (super s)) (u32 (unused_blocks (super s) + n)) (info (super s))) true.

Definition sfs_block_alloc : M sfs_fs (Z * Z) :=
  '(ret, ino) ← fm bitmap_alloc;
  if negb (ret =? 0) then mret (ret, undef) else
  s ← get;
  assert (0 <? unused_blocks (super s)) ;;
  modify (add_unused (-1)) ;;
  b ← sfs_block_inuse ino; assert b ;;
  ret ← sfs_clear_block ino 1;
  mret (ret, ino).

Definition sfs_block_free (ino : Z) : M sfs_fs unit :=
  b ← sfs_block_inuse ino; assert b ;;
  fm (bitmap_free ino) ;;
  modify (add_unused 1).

(** * Loading an inode *)

(** [sfs_get_ops] answers a table of operations or panics; the table follows from the type. *)
Definition sfs_get_ops (t : Z) : M sfs_fs unit := assert ((t =? SFS_TYPE_DIR) || (t =? SFS_TYPE_FILE)).

(** [sizeof(struct inode)], the size that [alloc_inode] requests. *)
Definition inode_size : Z := 64.

Definition sfs_create_inode (d : sfs_disk_inode) (ino : Z) : M sfs_fs Z :=
  node ← kmalloc inode_size;
  match node with
  | None => mret (- E_NO_MEM)
  | Some _ => sfs_get_ops (type d) ;; sin_set ino (mkSin d false 1 1 0) ;; mret 0
  end.

Definition lookup_sfs_nolock (ino : Z) : M sfs_fs bool :=
  s ← get;
  match inodes s !! ino with
  | None => mret false
  | Some _ =>
      n ← inode_ref_inc ino;
      when (n =? 1) (sin_upd ino (λ x, set_reclaim (reclaim_count x + 1) x)) ;;
      mret true
  end.

Definition sfs_load_inode (ino : Z) : M sfs_fs Z :=
  found ← lookup_sfs_nolock ino;
  if (found : bool) then mret 0 else
  k ← kmalloc inode_bytes;
  match k with
  | None => mret (- E_NO_MEM)
  | Some _ =>
      b ← sfs_block_inuse ino; assert b ;;
      '(ret, l) ← sfs_rbuf inode_bytes ino 0;
      if negb (ret =? 0) then kfree ;; mret ret else
      let d := decode_inode l in
      assert (negb (nlinks d =? 0)) ;;
      ret ← sfs_create_inode d ino;
      if negb (ret =? 0) then kfree ;; mret ret else mret 0
  end.

(** * The block map of a file *)

Definition sfs_bmap_get_sub_nolock (ent0 index : Z) (create : bool) : M sfs_fs (Z * Z * Z) :=
  assert (index <? SFS_BLK_NENTRY) ;;
  let offset := index * 4 in
  '(ret, ent, ino, stop) ←
    (if negb (ent0 =? 0) then
       '(ret, l) ← sfs_rbuf 4 ent0 offset;
       if negb (ret =? 0) then mret (ret, ent0, undef, true)
       else mret (0, ent0, unle l, negb (unle l =? 0) || negb create)
     else if negb create then mret (0, ent0, 0, true)
     else
       '(ret, ent) ← sfs_block_alloc;
       mret (ret, ent, 0, negb (ret =? 0)));
  if (stop : bool) then (if negb (ret =? 0) then mret (ret, ent0, undef) else mret (0, ent, ino)) else
  let failed_cleanup ret := when (negb (ent =? ent0)) (sfs_block_free ent) ;; mret (ret, ent0, undef) in
  '(ret, ino) ← sfs_block_alloc;
  if negb (ret =? 0) then failed_cleanup ret else
  ret ← sfs_wbuf (le 4 ino) ent offset;
  if negb (ret =? 0) then sfs_block_free ino ;; failed_cleanup ret else
  mret (0, ent, ino).

Definition sfs_bmap_get_nolock (sin index : Z) (create : bool) : M sfs_fs (Z * Z) :=
  d ← din_of sin;
  let out ino :=
    (if ino =? 0 then mret tt else b ← sfs_block_inuse ino; assert b) ;; mret (0, ino) in
  if index <? SFS_NDIRECT then
    ino ← deref (λ _, direct d !! Z.to_nat index);
    if (ino =? 0) && create then
      '(ret, ino) ← sfs_block_alloc;
      if negb (ret =? 0) then mret (ret, undef) else
      din_upd sin (set_direct index ino) ;;
      sin_upd sin (set_dirty true) ;;
      out ino
    else out ino
  else
    let index := index - SFS_NDIRECT in
    if index <? SFS_BLK_NENTRY then
      '(ret, ent, ino) ← sfs_bmap_get_sub_nolock (indirect d) index create;
      if negb (ret =? 0) then mret (ret, undef) else
      when (negb (ent =? indirect d))
        (assert (indirect d =? 0) ;; din_upd sin (set_indirect ent) ;; sin_upd sin (set_dirty true)) ;;
      out ino
    else fail EPanic.

Definition sfs_bmap_free_sub_nolock (ent index : Z) : M sfs_fs Z :=
  b ← sfs_block_inuse ent; assert (b && (index <? SFS_BLK_NENTRY)) ;;
  let offset := index * 4 in
  '(ret, l) ← sfs_rbuf 4 ent offset;
  if negb (ret =? 0) then mret ret else
  let ino := unle l in
  if negb (ino =? 0) then
    ret ← sfs_wbuf (le 4 0) ent offset;
    if negb (ret =? 0) then mret ret else
    sfs_block_free ino ;; mret 0
  else mret 0.

Definition sfs_bmap_free_nolock (sin index : Z) : M sfs_fs Z :=
  d ← din_of sin;
  if index <? SFS_NDIRECT then
    ino ← deref (λ _, direct d !! Z.to_nat index);
    when (negb (ino =? 0))
      (sfs_block_free ino ;; din_upd sin (set_direct index 0) ;; sin_upd sin (set_dirty true)) ;;
    mret 0
  else
    let index := index - SFS_NDIRECT in
    if (index <? SFS_BLK_NENTRY) && negb (indirect d =? 0) then sfs_bmap_free_sub_nolock (indirect d) index
    else mret 0.

Definition sfs_bmap_load_nolock (sin index : Z) : M sfs_fs (Z * Z) :=
  d ← din_of sin;
  assert (index <=? nblocks d) ;;
  let create := index =? nblocks d in
  '(ret, ino) ← sfs_bmap_get_nolock sin index create;
  if negb (ret =? 0) then mret (ret, undef) else
  b ← sfs_block_inuse ino; assert b ;;
  when create (din_upd sin (λ d, set_nblocks (u32 (nblocks d + 1)) d)) ;;
  mret (0, ino).

Definition sfs_bmap_truncate_nolock (sin : Z) : M sfs_fs Z :=
  d ← din_of sin;
  assert (negb (nblocks d =? 0)) ;;
  ret ← sfs_bmap_free_nolock sin (nblocks d - 1);
  if negb (ret =? 0) then mret ret else
  din_upd sin (λ d, set_nblocks (u32 (nblocks d - 1)) d) ;;
  sin_upd sin (set_dirty true) ;;
  mret 0.

(** * Reading and writing a file *)

(** [buf] after [l] has been stored at [pos]. *)
Definition splice (buf : list Z) (pos : Z) (l : list Z) : list Z :=
  take (Z.to_nat pos) buf ++ l ++ drop (Z.to_nat pos + length l) buf.

(** One transfer of [sfs_io_nolock]: load the block, then [sfs_buf_op] on [size] bytes at [blkoff], or
    [sfs_block_op] on the whole block.  The bytes moved so far are [alen], so that [buf + alen] is the
    place in the caller's buffer.  The result, [alen] and the buffer afterwards. *)
Definition io_chunk (sin : Z) (write whole : bool) (buf : list Z) (alen blkno size blkoff : Z) :
    M sfs_fs (Z * Z * list Z) :=
  '(ret, ino) ← sfs_bmap_load_nolock sin blkno;
  if negb (ret =? 0) then mret (ret, alen, buf) else
  let chunk := take (Z.to_nat size) (drop (Z.to_nat alen) buf) in
  '(ret, l) ←
    (if write then
       ret ← (if whole then sfs_wblock chunk ino 1 else sfs_wbuf chunk ino blkoff);
       mret (ret, chunk)
     else if whole then sfs_rblock ino 1 else sfs_rbuf size ino blkoff);
  if negb (ret =? 0) then mret (ret, alen, buf) else
  mret (0, alen + size, splice buf alen l).

(** The loop over whole blocks. *)
Fixpoint io_blocks (sin : Z) (write : bool) (nblks : nat) (buf : list Z) (alen blkno : Z) :
    M sfs_fs (Z * Z * list Z) :=
  match nblks with
  | O => mret (0, alen, buf)
  | S n =>
      '(ret, alen, buf) ← io_chunk sin write true buf alen blkno SFS_BLKSIZE 0;
      if negb (ret =? 0) then mret (ret, alen, buf) else io_blocks sin write n buf alen (blkno + 1)
  end.

(** Whole blocks, then the beginning of the last one. *)
Definition io_tail (sin : Z) (write : bool) (buf : list Z) (alen blkno nblks endpos : Z) : M sfs_fs (Z * Z * list Z) :=
  '(ret, alen, buf) ← io_blocks sin write (Z.to_nat nblks) buf alen blkno;
  if negb (ret =? 0) then mret (ret, alen, buf) else
  let size := endpos mod SFS_BLKSIZE in
  if negb (size =? 0) then io_chunk sin write false buf alen (blkno + nblks) size 0
  else mret (0, alen, buf).

(** The three phases: the end of the first block, whole blocks, the beginning of the last. *)
Definition io_phases (sin : Z) (write : bool) (buf : list Z) (offset endpos : Z) : M sfs_fs (Z * Z * list Z) :=
  let blkno := offset / SFS_BLKSIZE in
  let nblks := endpos / SFS_BLKSIZE - blkno in
  let blkoff := offset mod SFS_BLKSIZE in
  if negb (blkoff =? 0) then
    let size := if negb (nblks =? 0) then SFS_BLKSIZE - blkoff else endpos - offset in
    '(ret, alen, buf) ← io_chunk sin write false buf 0 blkno size blkoff;
    if negb (ret =? 0) || (nblks =? 0) then mret (ret, alen, buf)
    else io_tail sin write buf alen (blkno + 1) (nblks - 1) endpos
  else io_tail sin write buf 0 blkno nblks endpos.

(** [sfs_io_nolock]: the result, [*alenp] and the buffer. *)
Definition sfs_io_nolock (sin : Z) (buf : list Z) (offset len : Z) (write : bool) : M sfs_fs (Z * Z * list Z) :=
  d ← din_of sin;
  assert (negb (type d =? SFS_TYPE_DIR)) ;;
  let endpos := s32 (offset + len) in
  if (offset <? 0) || (SFS_MAX_FILE_SIZE <=? offset) || (endpos <? offset) then mret (- E_INVAL, 0, buf) else
  if offset =? endpos then mret (0, 0, buf) else
  let endpos := if SFS_MAX_FILE_SIZE <? endpos then SFS_MAX_FILE_SIZE else endpos in
  if negb write && (size d <=? offset) then mret (0, 0, buf) else
  let endpos := if negb write && (size d <? endpos) then size d else endpos in
  '(ret, alen, buf) ← io_phases sin write buf offset endpos;
  d ← din_of sin;
  when (size d <? u32 (offset + alen))
    (din_upd sin (set_size (u32 (offset + alen))) ;; sin_upd sin (set_dirty true)) ;;
  mret (ret, alen, buf).

(** [sfs_io]: memory and the descriptor are the other part of the state. *)
Definition sfs_io (node : Z) (write : bool) (mi : gmap Z Z * iobuf) : M sfs_fs (Z * (gmap Z Z * iobuf)) :=
  let iob := mi.2 in
  '(ret, alen, buf) ←
    sfs_io_nolock node (read_bytes mi.1 (io_base iob) (io_resid iob)) (io_offset iob) (io_resid iob) write;
  let m' := if write then mi.1 else write_bytes mi.1 (io_base iob) buf in
  if negb (alen =? 0) then
    match iobuf_skip alen (m', iob) with
    | Ret (_, mi') => mret (ret, mi')
    | Err e => fail e
    end
  else mret (ret, (m', iob)).

Definition sfs_read (node : Z) := sfs_io node false.
Definition sfs_write (node : Z) := sfs_io node true.

(** * The other operations on one inode *)

Record stat := mkStat { st_mode : Z; st_nlinks : Z; st_blocks : Z; st_size : Z }.

Definition sfs_gettype (node : Z) : M sfs_fs (Z * Z) :=
  d ← din_of node;
  if type d =? SFS_TYPE_DIR then mret (0, S_IFDIR)
  else if type d =? SFS_TYPE_FILE then mret (0, S_IFREG)
  else if type d =? SFS_TYPE_LINK then mret (0, S_IFLNK)
  else fail EPanic.

Definition sfs_fstat (node : Z) : M sfs_fs (Z * stat) :=
  inode_check node true true ;;
  '(ret, mode) ← sfs_gettype node;
  if negb (ret =? 0) then mret (ret, mkStat 0 0 0 0) else
  d ← din_of node;
  mret (0, mkStat mode (nlinks d) (nblocks d) (size d)).

Definition sfs_fsync (node : Z) : M sfs_fs Z :=
  x ← sin_at node;
  if dirty x then
    sin_upd node (set_dirty false) ;;
    ret ← sfs_wbuf (encode_inode (din x)) node 0;
    when (negb (ret =? 0)) (sin_upd node (set_dirty true)) ;;
    mret ret
  else mret 0.

Definition vop_fsync (node : Z) : M sfs_fs Z := inode_check node true true ;; sfs_fsync node.

Definition sfs_openfile (node open_flags : Z) : M sfs_fs Z := mret 0.

Definition sfs_opendir (node open_flags : Z) : M sfs_fs Z :=
  if negb (Z.land open_flags O_ACCMODE =? O_RDONLY) then mret (- E_ISDIR)
  else if negb (Z.land open_flags O_APPEND =? 0) then mret (- E_ISDIR)
  else mret 0.

Definition sfs_close (node : Z) : M sfs_fs Z := vop_fsync node.

(** The loops of [sfs_truncfile]. *)
Fixpoint grow_loop (sin : Z) (n : nat) (nblks : Z) : M sfs_fs Z :=
  match n with
  | O => mret 0
  | S n' =>
      '(ret, _) ← sfs_bmap_load_nolock sin nblks;
      if negb (ret =? 0) then mret ret else grow_loop sin n' (nblks + 1)
  end.

Fixpoint shrink_loop (sin : Z) (n : nat) : M sfs_fs Z :=
  match n with
  | O => mret 0
  | S n' =>
      ret ← sfs_bmap_truncate_nolock sin;
      if negb (ret =? 0) then mret ret else shrink_loop sin n'
  end.

Definition sfs_truncfile (node len : Z) : M sfs_fs Z :=
  if (len <? 0) || (SFS_MAX_FILE_SIZE <? len) then mret (- E_INVAL) else
  d ← din_of node;
  let tblks := ROUNDUP_DIV len SFS_BLKSIZE in
  if size d =? len then assert (tblks =? nblocks d) ;; mret 0 else
  let nblks := nblocks d in
  ret ← (if nblks <? tblks then grow_loop node (Z.to_nat (tblks - nblks)) nblks
         else shrink_loop node (Z.to_nat (nblks - tblks)));
  if negb (ret =? 0) then mret ret else
  d ← din_of node;
  assert (nblocks d =? tblks) ;;
  din_upd node (set_size len) ;;
  sin_upd node (set_dirty true) ;;
  mret 0.

Definition vop_truncate (node len : Z) : M sfs_fs Z := inode_check node false true ;; sfs_truncfile node len.

Definition sfs_tryseek (node pos : Z) : M sfs_fs Z :=
  if (pos <? 0) || (SFS_MAX_FILE_SIZE <=? pos) then mret (- E_INVAL) else
  d ← din_of node;
  if size d <? pos then vop_truncate node pos else mret 0.

(** [sfs_reclaim], with [sfs_remove_links] and [inode_kill], which frees the inode. *)
Definition inode_kill (node : Z) : M sfs_fs unit :=
  x ← sin_at node;
  assert (ref_count x =? 0) ;;
  assert (open_count x =? 0) ;;
  modify (λ s, set_inodes s (delete node (inodes s))) ;;
  kfree.

Definition sfs_reclaim (node : Z) : M sfs_fs Z :=
  x ← sin_at node;
  assert (0 <? reclaim_count x) ;;
  sin_upd node (set_reclaim (reclaim_count x - 1)) ;;
  if negb (reclaim_count x - 1 =? 0) || negb (ref_count x =? 0) then mret (- E_BUSY) else
  ret ← (if nlinks (din x) =? 0 then vop_truncate node 0 else mret 0);
  if negb (ret =? 0) then mret ret else
  x ← sin_at node;
  ret ← (if dirty x then vop_fsync node else mret 0);
  if negb (ret =? 0) then mret ret else
  d ← din_of node;
  when (nlinks d =? 0)
    (sfs_block_free node ;; when (negb (indirect d =? 0)) (sfs_block_free (indirect d))) ;;
  kfree ;;
  inode_kill node ;;
  mret 0.

(** * Counts, kern/fs/vfs/inode.c *)

Definition inode_ref_dec (node : Z) : M sfs_fs Z :=
  x ← sin_at node;
  assert (0 <? ref_count x) ;;
  sin_upd node (set_ref (ref_count x - 1)) ;;
  (if ref_count x - 1 =? 0 then inode_check node true true ;; _ ← sfs_reclaim node; mret tt else mret tt) ;;
  mret (ref_count x - 1).

Definition inode_open_inc (node : Z) : M sfs_fs Z :=
  sin_upd node (λ x, set_open (open_count x + 1) x) ;;
  x ← sin_at node; mret (open_count x).

Definition inode_open_dec (node : Z) : M sfs_fs Z :=
  x ← sin_at node;
  assert (0 <? open_count x) ;;
  sin_upd node (set_open (open_count x - 1)) ;;
  (if open_count x - 1 =? 0 then inode_check node true true ;; _ ← sfs_close node; mret tt else mret tt) ;;
  mret (open_count x - 1).

End sfs.
End SfsInode.
