(* ===== verification/SfsFile.v ===== *)
(** The contents of files: what the block map of an inode means, and that [sfs_bmap_load_nolock] and
    [sfs_io_nolock] (kern/fs/sfs/sfs_inode.c) read and write it. *)
From S2P Require Import Prelude Bitmap SfsDisk Iobuf SfsInode.

Module SfsFile.
Import Bitmap SfsDisk Iobuf SfsInode.
Set Default Proof Using "Type".
Notation card := stdpp.base.size.

(** * Free and used blocks *)

(** The free blocks of a mounted file system are [F], all of them blocks of the file system other than
    the super block, and the super block knows how many there are. *)
Record fs_ok (s : sfs_fs) (F : gset Z) : Prop := {
  ok_wf : wf (freemap s);
  ok_blocks : blocks (super s) ≤ nbits (freemap s) ∧ blocks (super s) < 2 ^ 32;
  ok_free : ∀ i, free (freemap s) i ↔ i ∈ F;
  ok_range : ∀ i, i ∈ F → 0 < i < blocks (super s);
  ok_unused : unused_blocks (super s) = Z.of_nat (card F) }.

Definition used (B : Z) (F : gset Z) (b : Z) : Prop := 0 < b < B ∧ b ∉ F.

Lemma set_freemap_same s : set_freemap s (freemap s) = s.
Proof. by destruct s. Qed.

Lemma size_F_bound s F : fs_ok s F → Z.of_nat (card F) < 2 ^ 32.
Proof.
  intros [_ [_ HB] _ Hr _].
  assert (F ⊆ list_to_set (seqZ 0 (blocks (super s)))) as Hsub.
  { intros i Hi. apply elem_of_list_to_set, elem_of_seqZ. specialize (Hr i Hi). lia. }
  apply subseteq_size in Hsub. rewrite size_list_to_set in Hsub by apply NoDup_seqZ. rewrite length_seqZ in Hsub. lia.
Qed.

Section run.
Context `{E : heap_env}.

Lemma inuse_run s F i :
  fs_ok s F → 0 < i < blocks (super s) → sfs_block_inuse i s = Ret (bool_decide (i ∉ F), s).
Proof.
  intros Hok Hi. pose proof (ok_wf _ _ Hok) as Hwf. pose proof (ok_blocks _ _ Hok).
  unfold sfs_block_inuse. step using reflexivity.
  rewrite (proj2 (Z.eqb_neq i 0)), (proj2 (Z.ltb_lt _ _)) by lia. cbn [negb andb].
  step using (unfold fm; rewrite bitmap_test_run by (done || lia); reflexivity).
  rewrite set_freemap_same. unfold mret, M_ret. do 2 f_equal.
  rewrite (bool_decide_ext _ _ (ok_free _ _ Hok i)). destruct (bool_decide_reflect (i ∈ F)), (bool_decide_reflect (i ∉ F)); tauto.
Qed.

Lemma used_run s F i : fs_ok s F → used (blocks (super s)) F i → sfs_block_inuse i s = Ret (true, s).
Proof. intros Hok [Hi Hn]. rewrite (inuse_run s F) by done. by rewrite bool_decide_true. Qed.

(** What a change of the disk only leaves in place. *)
Lemma fs_ok_disk s F d : fs_ok s F → fs_ok (set_disk s d) F.
Proof. intros []. by split. Qed.

Lemma fs_ok_inodes s F m : fs_ok s F → fs_ok (set_inodes s m) F.
Proof. intros []. by split. Qed.

Lemma wblock_nolock_run s b buf check :
  0 < b < blocks (super s) →
  sfs_wblock_nolock buf b check s = Ret (0, set_disk s (write_bytes (disk s) (b * 4096) (take 4096 buf))).
Proof.
  intros Hb. unfold sfs_wblock_nolock, check_blkno.
  assert ((s ← get; assert ((negb (b =? 0) || negb check) && (b <? blocks (super s)))) s = Ret (tt, s)) as H.
  { step using reflexivity. unfold assert. by rewrite (proj2 (Z.eqb_neq b 0)), (proj2 (Z.ltb_lt _ _)) by lia. }
  step using (exact H). step using reflexivity. done.
Qed.

Lemma rblock_nolock_run s b check :
  0 < b < blocks (super s) → sfs_rblock_nolock b check s = Ret ((0, read_bytes (disk s) (b * 4096) 4096), s).
Proof.
  intros Hb. unfold sfs_rblock_nolock, check_blkno.
  assert ((s ← get; assert ((negb (b =? 0) || negb check) && (b <? blocks (super s)))) s = Ret (tt, s)) as H.
  { step using reflexivity. unfold assert. by rewrite (proj2 (Z.eqb_neq b 0)), (proj2 (Z.ltb_lt _ _)) by lia. }
  step using (exact H). step using reflexivity. done.
Qed.

Lemma rbuf_run s b len off :
  0 < b < blocks (super s) → 0 ≤ off < 4096 → 0 ≤ len → off + len ≤ 4096 →
  sfs_rbuf len b off s = Ret ((0, read_bytes (disk s) (b * 4096 + off) len), s).
Proof.
  intros Hb Ho Hl Hle. unfold sfs_rbuf, check_range.
  step using (unfold assert; rewrite !(proj2 (Z.leb_le _ _)), (proj2 (Z.ltb_lt _ _)) by (change SFS_BLKSIZE with 4096; lia); reflexivity).
  step using (by apply rblock_nolock_run). cbn [Z.eqb]. by rewrite read_take_drop by lia.
Qed.

(** [d'] is [d] with [l] stored at [a]. *)
Definition patched (d d' : gmap Z Z) (a : Z) (l : list Z) : Prop :=
  ∀ x, byte_at d' x = if decide (a ≤ x < a + Z.of_nat (length l)) then l !!! Z.to_nat (x - a) else byte_at d x.

Lemma write_patched d a l : patched d (write_bytes d a l) a l.
Proof. intros x. apply byte_write. Qed.

Lemma wbuf_run s b buf off :
  0 < b < blocks (super s) → 0 ≤ off < 4096 → off + Z.of_nat (length buf) ≤ 4096 →
  ∃ d', sfs_wbuf buf b off s = Ret (0, set_disk s d') ∧ patched (disk s) d' (b * 4096 + off) buf.
Proof.
  intros Hb Ho Hle. set (blk := read_bytes (disk s) (b * 4096) 4096).
  assert (length blk = 4096%nat) as Hblk by (pose proof (length_read (disk s) (b * 4096) 4096); unfold blk; lia).
  set (new := take (Z.to_nat off) blk ++ buf ++ drop (Z.to_nat off + length buf) blk).
  assert (length new = 4096%nat) as Hnew by (unfold new; rewrite !length_app, length_take, length_drop; lia).
  exists (write_bytes (disk s) (b * 4096) new). split.
  - unfold sfs_wbuf, check_range.
    step using (unfold assert; rewrite !(proj2 (Z.leb_le _ _)), (proj2 (Z.ltb_lt _ _)) by (change SFS_BLKSIZE with 4096; lia); reflexivity).
    step using (by apply rblock_nolock_run). cbn [Z.eqb negb]. fold blk. fold new.
    rewrite wblock_nolock_run by done. by rewrite take_ge by lia.
  - intros x. rewrite byte_write, Hnew. case_decide as H1; case_decide as H2; try lia.
    + unfold new. rewrite lookup_total_app_r by (rewrite length_take; lia).
      rewrite length_take, lookup_total_app_l by lia. f_equal. lia.
    + assert (∀ i, (i < 4096)%nat → blk !! i = Some (byte_at (disk s) (b * 4096 + Z.of_nat i))) as Hat.
      { intros i Hi. apply lookup_read. lia. }
      apply list_lookup_total_correct. unfold new. destruct (decide (x - b * 4096 < off)).
      * rewrite lookup_app_l by (rewrite length_take; lia). rewrite lookup_take_lt by lia. rewrite Hat by lia. do 2 f_equal. lia.
      * rewrite lookup_app_r by (rewrite length_take; lia). rewrite length_take, lookup_app_r by lia.
        rewrite lookup_drop, Hat by lia. do 2 f_equal. lia.
Qed.

(** Taking a block: it was free, it is zeroed, nothing else on the disk changes. *)
Record took (s : sfs_fs) (F : gset Z) (b : Z) (s' : sfs_fs) : Prop := {
  took_free : b ∈ F;
  took_ok : fs_ok s' (F ∖ {[b]});
  took_disk : patched (disk s) (disk s') (b * 4096) (replicate 4096 0);
  took_inodes : inodes s' = inodes s;
  took_super : blocks (super s') = blocks (super s) ∧ super_dirty s' = true;
  took_allocs : allocs s' = allocs s }.

Lemma card_remove (F : gset Z) b : b ∈ F → Z.of_nat (card (F ∖ {[b]})) = Z.of_nat (card F) - 1.
Proof.
  intros Hb. rewrite size_difference by set_solver. rewrite size_singleton.
  assert (0 < card F)%nat; [|lia]. apply Nat.neq_0_lt_0. intros H0. apply size_empty_inv in H0. set_solver.
Qed.

Lemma block_alloc_run s F :
  fs_ok s F → F ≠ ∅ → ∃ b s', sfs_block_alloc s = Ret ((0, b), s') ∧ took s F b s'.
Proof.
  intros Hok Hne. destruct (bitmap_alloc_run (freemap s) (ok_wf _ _ Hok)) as
    [(b & fm' & Hrun & Hfree & _ & Hwf & Hn & Hfree')|[_ Hnone]].
  2: { apply set_choose_L in Hne as [b Hb]. by apply (ok_free _ _ Hok), Hnone in Hb. }
  apply (ok_free _ _ Hok) in Hfree as Hb. pose proof (ok_range _ _ Hok b Hb) as Hr. pose proof (card_remove F b Hb) as Hc.
  set (s1 := set_freemap s fm'). set (s2 := add_unused (-1) s1).
  assert (fs_ok s2 (F ∖ {[b]})) as Hok2.
  { destruct Hok as [H1 H2 H3 H4 H5]. split; cbn; [done|by rewrite Hn| | |].
    - intros i. rewrite Hfree', H3. set_solver.
    - intros i Hi. apply H4. set_solver.
    - rewrite Hc, H5. apply u32_small. pose proof (size_F_bound s F ltac:(by split)). lia. }
  set (s3 := set_disk s2 (write_bytes (disk s2) (b * 4096) (replicate 4096 0))). exists b, s3. split.
  - unfold sfs_block_alloc. step using (unfold fm; rewrite Hrun; reflexivity). cbn [Z.eqb negb]. fold s1.
    step using reflexivity.
    step using (unfold assert; rewrite (proj2 (Z.ltb_lt _ _)) by (cbn; rewrite (ok_unused _ _ Hok); lia); reflexivity).
    step using reflexivity. fold s2.
    step using (apply (used_run s2 _ _ Hok2); split; [exact Hr|set_solver]). step using reflexivity.
    assert (sfs_clear_block b 1 s2 = Ret (0, s3)) as Hclr.
    { cbn [sfs_clear_block]. step using (by apply wblock_nolock_run).
      cbn [Z.eqb negb]. unfold s3. by rewrite take_ge by by rewrite length_replicate. }
    step using (exact Hclr). done.
  - split; [done|by apply fs_ok_disk|apply write_patched|done|done|done].
Qed.

Lemma block_alloc_none s F :
  fs_ok s F → F = ∅ → sfs_block_alloc s = Ret ((- E_NO_MEM, undef), s).
Proof.
  intros Hok ->. destruct (bitmap_alloc_run (freemap s) (ok_wf _ _ Hok)) as [(b & fm' & _ & Hfree & _)|[Hrun _]].
  - apply (ok_free _ _ Hok) in Hfree. set_solver.
  - unfold sfs_block_alloc. step using (unfold fm; rewrite Hrun; reflexivity). cbn. by rewrite set_freemap_same.
Qed.

Lemma block_free_run s F b :
  fs_ok s F → used (blocks (super s)) F b →
  ∃ s', sfs_block_free b s = Ret (tt, s') ∧ fs_ok s' (F ∪ {[b]}) ∧ disk s' = disk s ∧ inodes s' = inodes s ∧
    blocks (super s') = blocks (super s) ∧ allocs s' = allocs s.
Proof.
  intros Hok [Hr Hb]. pose proof (ok_blocks _ _ Hok).
  destruct (bitmap_free_run (freemap s) b (ok_wf _ _ Hok)) as (fm' & Hrun & Hwf & Hn & Hfree').
  { lia. } { by rewrite (ok_free _ _ Hok). }
  assert (fs_ok (add_unused 1 (set_freemap s fm')) (F ∪ {[b]})) as Hok'.
  { assert (Z.of_nat (card (F ∪ {[b]})) = Z.of_nat (card F) + 1) as Hc.
    { rewrite size_union by set_solver. rewrite size_singleton. lia. }
    assert (fs_ok (set_super (set_freemap s fm') (mkSuper (magic (super s)) (blocks (super s)) (Z.of_nat (card F) + 1) (info (super s))) true) (F ∪ {[b]})) as Hx.
    { destruct Hok as [H1 H2 H3 H4 H5]. split; cbn; [done|by rewrite Hn| | |done].
      - intros i. rewrite Hfree', H3. set_solver.
      - intros i [Hi| ->%elem_of_singleton]%elem_of_union; [by apply H4|done]. }
    pose proof (size_F_bound _ _ Hx) as Hs. rewrite Hc in Hs. unfold add_unused. cbn [super set_freemap].
    rewrite (ok_unused _ _ Hok), u32_small by lia. exact Hx. }
  eexists. split.
  - unfold sfs_block_free. step using (by apply (used_run s F)). step using reflexivity.
    step using (unfold fm; rewrite Hrun; reflexivity). reflexivity.
  - done.
Qed.

End run.

(** * The block map *)

(** The [j]-th entry of an indirect block. *)
Definition entry (dk : gmap Z Z) (ent j : Z) : Z := unle (read_bytes dk (ent * 4096 + j * 4) 4).

(** The block with the [i]-th part of the file, 0 when there is none. *)
Definition bmap (dk : gmap Z Z) (d : sfs_disk_inode) (i : Z) : Z :=
  if decide (i < 12) then direct d !!! Z.to_nat i
  else if decide (indirect d = 0) then 0 else entry dk (indirect d) (i - 12).

Definition NMAX : Z := 12 + 1024.

(** The map of a file: the blocks it has are in use, and no block serves twice. *)
Record file_ok (dk : gmap Z Z) (B : Z) (F : gset Z) (d : sfs_disk_inode) : Prop := {
  f_direct : length (direct d) = 12%nat;
  f_n : 0 ≤ nblocks d ≤ NMAX;
  f_used : ∀ i, 0 ≤ i < nblocks d → used B F (bmap dk d i);
  f_rest : ∀ i, nblocks d ≤ i < NMAX → bmap dk d i = 0;
  f_ind : indirect d ≠ 0 → used B F (indirect d);
  f_inj : ∀ i j, 0 ≤ i < nblocks d → 0 ≤ j < nblocks d → bmap dk d i = bmap dk d j → i = j;
  f_sep : ∀ i, 0 ≤ i < nblocks d → bmap dk d i ≠ indirect d }.

(** The byte of the file at position [p]. *)
Definition file_byte (dk : gmap Z Z) (d : sfs_disk_inode) (p : Z) : Z :=
  byte_at dk (bmap dk d (p / 4096) * 4096 + p mod 4096).

(** The blocks of the file. *)
Definition owns (dk : gmap Z Z) (d : sfs_disk_inode) (b : Z) : Prop :=
  b ≠ 0 ∧ b = indirect d ∨ ∃ i, 0 ≤ i < nblocks d ∧ b = bmap dk d i.

(** ** Bytes by block *)

Lemma block_of_addr b off : 0 ≤ off < 4096 → (b * 4096 + off) / 4096 = b ∧ (b * 4096 + off) mod 4096 = off.
Proof.
  intros. rewrite Z.div_add_l, Z.div_small, Z.add_0_r by lia.
  by rewrite Z.add_comm, Z.mod_add, Z.mod_small by lia.
Qed.

Lemma addr_split a : a = a / 4096 * 4096 + a mod 4096 ∧ 0 ≤ a mod 4096 < 4096.
Proof. pose proof (Z.div_mod a 4096). pose proof (Z.mod_pos_bound a 4096). lia. Qed.

Lemma patched_outside dk dk' b off l a :
  patched dk dk' (b * 4096 + off) l → 0 ≤ off → off + Z.of_nat (length l) ≤ 4096 → a / 4096 ≠ b →
  byte_at dk' a = byte_at dk a.
Proof. intros Hp H1 H2 Ha. rewrite Hp, decide_False; [done|]. pose proof (addr_split a). nia. Qed.

Lemma ind_entry_ext dk dk' e j :
  0 ≤ j < 1024 → (∀ a, a / 4096 = e → byte_at dk' a = byte_at dk a) → entry dk' e j = entry dk e j.
Proof.
  intros Hj H. unfold entry. f_equal. apply read_ext. intros x Hx. apply H.
  pose proof (addr_split x). nia.
Qed.

Lemma entry_zero dk e j : 0 ≤ j < 1024 → (∀ a, a / 4096 = e → byte_at dk a = 0) → entry dk e j = 0.
Proof.
  intros Hj H. unfold entry. replace (read_bytes dk (e * 4096 + j * 4) 4) with [0; 0; 0; 0]; [done|].
  unfold read_bytes. set (a := e * 4096 + j * 4). change (seqZ a 4) with [0 + a; 1 + a; 2 + a; 3 + a]. cbn [fmap list_fmap].
  assert (∀ k, 0 ≤ k < 4 → byte_at dk (k + a) = 0) as Hz.
  { intros k Hk. apply H. pose proof (addr_split (k + a)). subst a. nia. }
  by rewrite !Hz by lia.
Qed.

Lemma entry_patched dk dk' e i j b :
  patched dk dk' (e * 4096 + i * 4) (le 4 b) → 0 ≤ i < 1024 → 0 ≤ j < 1024 → is_u32 b →
  entry dk' e j = if decide (j = i) then b else entry dk e j.
Proof.
  intros Hp Hi Hj Hb. unfold entry. case_decide as Hji.
  - subst j. replace (read_bytes dk' (e * 4096 + i * 4) 4) with (le 4 b); [by apply unle_le|].
    apply list_eq. intros k. destruct (decide (k < 4)%nat) as [Hk|Hk].
    + rewrite lookup_read by lia. rewrite Hp, length_le, decide_True by lia.
      replace (Z.to_nat _) with k by lia. by apply list_lookup_lookup_total_lt; rewrite length_le.
    + rewrite !(proj2 (lookup_ge_None _ _)); [done| |by rewrite length_le; lia].
      pose proof (length_read dk' (e * 4096 + i * 4) 4). lia.
  - f_equal. apply read_ext. intros x Hx. rewrite Hp, length_le, decide_False; [done|lia].
Qed.

Lemma took_zero s F b s' a : took s F b s' → a / 4096 = b → byte_at (disk s') a = 0.
Proof.
  intros Ht <-. rewrite (took_disk _ _ _ _ Ht), length_replicate. destruct (addr_split a).
  rewrite decide_True by lia. apply lookup_total_replicate_2. lia.
Qed.

Lemma took_outside s F b s' a : took s F b s' → a / 4096 ≠ b → byte_at (disk s') a = byte_at (disk s) a.
Proof.
  intros Ht Ha. pose proof (took_disk _ _ _ _ Ht) as Hp. replace (b * 4096) with (b * 4096 + 0) in Hp by lia.
  eapply patched_outside; [done|lia| |done]. by rewrite length_replicate.
Qed.

Section load.
Context `{E : heap_env}.

(** ** The indirect block *)

(** [s'] is [s] with the block [b] attached as entry [index] of the indirect block [ent], which is [e]
    unless [e] is 0 and [ent] is new. *)
Record attached (s : sfs_fs) (F : gset Z) (e index ent b : Z) (s' : sfs_fs) (F' : gset Z) : Prop := {
  at_b : b ∈ F ∧ b ∉ F' ∧ ent ∉ F' ∧ ent ≠ b;
  at_ent : if decide (e = 0) then ent ∈ F else ent = e;
  at_F : F' ⊆ F ∧ Z.of_nat (card F') = Z.of_nat (card F) - (if decide (e = 0) then 2 else 1);
  at_ok : fs_ok s' F';
  at_same : inodes s' = inodes s ∧ blocks (super s') = blocks (super s) ∧ allocs s' = allocs s;
  at_frame : ∀ a, a / 4096 ∉ F → e = 0 ∨ a / 4096 ≠ e → byte_at (disk s') a = byte_at (disk s) a;
  at_zero : ∀ a, a / 4096 = b → byte_at (disk s') a = 0;
  at_entry : ∀ j, 0 ≤ j < 1024 →
    entry (disk s') ent j = if decide (j = index) then b else if decide (e = 0) then 0 else entry (disk s) e j }.

Lemma sub_tail s F e index :
  fs_ok s F → used (blocks (super s)) F e → F ≠ ∅ → 0 ≤ index < 1024 →
  ∃ b s1 s', sfs_block_alloc s = Ret ((0, b), s1) ∧ sfs_wbuf (le 4 b) e (index * 4) s1 = Ret (0, s') ∧
    attached s F e index e b s' (F ∖ {[b]}).
Proof.
  intros Hok [He HeF] Hne Hi. destruct (block_alloc_run s F Hok Hne) as (b & s1 & Hrun & Ht).
  pose proof (took_free _ _ _ _ Ht) as Hb. pose proof (ok_range _ _ Hok b Hb) as Hbr.
  destruct (took_super _ _ _ _ Ht) as [HB _]. pose proof (ok_blocks _ _ Hok) as [_ HBu].
  assert (e ≠ b) as Heb by (intros ->; done).
  destruct (wbuf_run s1 e (le 4 b) (index * 4)) as (d' & Hw & Hp); [by rewrite HB|lia|rewrite length_le; lia|].
  exists b, s1, (set_disk s1 d'). split_and!; [done|done|].
  assert (∀ a, a / 4096 ≠ e → byte_at d' a = byte_at (disk s1) a) as Hout.
  { intros a Ha. eapply patched_outside; [exact Hp|lia|rewrite length_le; lia|done]. }
  split; cbn [disk set_disk inodes super allocs].
  - set_solver.
  - rewrite decide_False by lia. done.
  - rewrite decide_False by lia. split; [set_solver|by apply card_remove].
  - apply fs_ok_disk, Ht.
  - by rewrite (took_inodes _ _ _ _ Ht), (took_allocs _ _ _ _ Ht).
  - intros a Ha1 Ha2. rewrite Hout by lia. eapply took_outside; [done|]. intros Heq. by rewrite Heq in Ha1.
  - intros a Ha. rewrite Hout by congruence. by eapply took_zero.
  - intros j Hj. rewrite (entry_patched _ _ _ _ _ _ Hp) by lia. rewrite (decide_False (P := e = 0)) by lia.
    case_decide; [done|]. apply ind_entry_ext; [done|]. intros a Ha. eapply took_outside; [done|congruence].
Qed.

Lemma sub_run s F e index :
  fs_ok s F → 0 ≤ index < 1024 →
  (e ≠ 0 → used (blocks (super s)) F e ∧ entry (disk s) e index = 0) →
  (if decide (e = 0) then 2 else 1) ≤ Z.of_nat (card F) →
  ∃ ent b s' F', sfs_bmap_get_sub_nolock e index true s = Ret ((0, ent, b), s') ∧ attached s F e index ent b s' F'.
Proof.
  intros Hok Hi He Hc. unfold sfs_bmap_get_sub_nolock.
  assert (assert (index <? SFS_BLK_NENTRY) s = Ret (tt, s)) as Hassert.
  { unfold assert. by rewrite (proj2 (Z.ltb_lt _ _)) by (change SFS_BLK_NENTRY with 1024; lia). }
  destruct (decide (e = 0)) as [->|He0].
  - destruct (block_alloc_run s F Hok) as (ent & s1 & Hrun1 & Ht1).
    { intros ->. rewrite size_empty in Hc. lia. }
    pose proof (took_free _ _ _ _ Ht1) as Hent. pose proof (ok_range _ _ Hok ent Hent) as Hr.
    destruct (took_super _ _ _ _ Ht1) as [HB1 _]. pose proof (card_remove F ent Hent) as Hc1.
    destruct (sub_tail s1 (F ∖ {[ent]}) ent index) as (b & s2 & s' & Hrun2 & Hw & Hat).
    { apply Ht1. } { split; [by rewrite HB1|set_solver]. } { intros Hn. rewrite Hn, size_empty in Hc1. lia. } { done. }
    exists ent, b, s', (F ∖ {[ent]} ∖ {[b]}). split.
    + step using (exact Hassert). cbn [Z.eqb negb].
      assert (('(ret, ent) ← sfs_block_alloc; mret (ret, ent, 0, negb (ret =? 0))) s = Ret ((0, ent, 0, false), s1)) as H1.
      { step using (exact Hrun1). done. }
      step using (exact H1). cbv beta iota. step using (exact Hrun2). cbn [Z.eqb negb]. step using (exact Hw). done.
    + destruct Hat as [H1 H2 H3 H4 H5 H6 H7 H8]. rewrite decide_False in H2 by lia. rewrite decide_False in H3 by lia.
      split; rewrite ?decide_True by done; [set_solver|set_solver| |done| | |done|].
      * split; [set_solver|lia].
      * rewrite (took_inodes _ _ _ _ Ht1), (took_allocs _ _ _ _ Ht1), HB1 in H5. done.
      * intros a Ha1 Ha2. rewrite H6; [|set_solver|right; intros Heq; by rewrite Heq in Ha1]. eapply took_outside; [done|]. intros Heq. by rewrite Heq in Ha1.
      * intros j Hj. rewrite H8 by done. destruct (decide (j = index)); [done|]. rewrite (decide_False (P := ent = 0)) by lia.
        rewrite (decide_True (P := 0 = 0)) by done.
        apply entry_zero; [done|]. intros a Ha. by eapply took_zero.
  - destruct (He He0) as [Hu Hz].
    destruct (sub_tail s F e index Hok Hu) as (b & s1 & s' & Hrun & Hw & Hat).
    { intros ->. rewrite size_empty in Hc. lia. } { done. }
    exists e, b, s', (F ∖ {[b]}). split; [|done].
    step using (exact Hassert). rewrite (proj2 (Z.eqb_neq e 0)) by done. cbn [negb].
    assert (('(ret, l) ← sfs_rbuf 4 e (index * 4); if negb (ret =? 0) then mret (ret, e, undef, true)
       else mret (0, e, unle l, negb (unle l =? 0) || negb true)) s = Ret ((0, e, 0, false), s)) as H1.
    { destruct Hu. step using (apply rbuf_run; [done|lia|lia|lia]). cbn [Z.eqb negb]. fold (entry (disk s) e index). by rewrite Hz. }
    step using (exact H1). cbv beta iota. step using (exact Hrun). cbn [Z.eqb negb]. step using (exact Hw). done.
Qed.

(** ** Inodes in memory *)

Definition put_sin (s : sfs_fs) (i : Z) (x : sfs_inode) : sfs_fs := set_inodes s (<[i := x]> (inodes s)).

Lemma put_sin_at s i x : inodes (put_sin s i x) !! i = Some x.
Proof. apply lookup_insert_eq. Qed.

Lemma put_sin_put s i x y : put_sin (put_sin s i x) i y = put_sin s i y.
Proof. unfold put_sin, set_inodes. cbn. by rewrite insert_insert_eq. Qed.

Lemma put_sin_same s i x : inodes s !! i = Some x → put_sin s i x = s.
Proof. intros H. unfold put_sin, set_inodes. rewrite insert_id by done. by destruct s. Qed.

Lemma sin_at_run s i x : inodes s !! i = Some x → sin_at i s = Ret (x, s).
Proof. intros H. unfold sin_at, deref. by rewrite H. Qed.

Lemma din_of_run s i x : inodes s !! i = Some x → din_of i s = Ret (din x, s).
Proof. intros H. unfold din_of. step using (by apply sin_at_run). done. Qed.

Lemma sin_upd_run s i x f : inodes s !! i = Some x → sin_upd i f s = Ret (tt, put_sin s i (f x)).
Proof. intros H. unfold sin_upd. step using (by apply sin_at_run). done. Qed.

Lemma out_run s F b : fs_ok s F → (b ≠ 0 → used (blocks (super s)) F b) →
  ((if b =? 0 then mret tt else c ← sfs_block_inuse b; assert c) ;; mret (0, b)) s = Ret ((0, b), s).
Proof.
  intros Hok Hb. destruct (b =? 0) eqn:E0; z_bool; [done|].
  assert ((c ← sfs_block_inuse b; assert c) s = Ret (tt, s)) as H.
  { step using (by apply (used_run s F); auto). done. }
  step using (exact H). done.
Qed.

(** ** Looking up a block the file has *)

Lemma bmap_get_existing s F sin x i :
  fs_ok s F → inodes s !! sin = Some x → file_ok (disk s) (blocks (super s)) F (din x) → 0 ≤ i < nblocks (din x) →
  sfs_bmap_get_nolock sin i false s = Ret ((0, bmap (disk s) (din x) i), s).
Proof.
  intros Hok Hx Hf Hi. pose proof (f_n _ _ _ _ Hf). pose proof (f_used _ _ _ _ Hf i Hi) as Hu. unfold NMAX in *.
  unfold sfs_bmap_get_nolock. step using (by apply din_of_run). cbv zeta. change SFS_NDIRECT with 12. change SFS_BLK_NENTRY with 1024.
  unfold bmap in *. destruct (decide (i < 12)) as [Hlt|Hge].
  - rewrite (proj2 (Z.ltb_lt _ _)) by done.
    assert (direct (din x) !! Z.to_nat i = Some (direct (din x) !!! Z.to_nat i)) as Hd.
    { apply list_lookup_lookup_total_lt. rewrite (f_direct _ _ _ _ Hf). lia. }
    step using (unfold deref; rewrite Hd; reflexivity). rewrite andb_false_r. apply (out_run _ F); auto.
  - rewrite (proj2 (Z.ltb_ge _ _)), (proj2 (Z.ltb_lt _ _)) by lia.
    destruct (decide (indirect (din x) = 0)) as [H0|H0]; [destruct Hu; lia|].
    destruct (f_ind _ _ _ _ Hf H0) as [He HeF]. set (e := indirect (din x)) in *.
    assert (sfs_bmap_get_sub_nolock e (i - 12) false s = Ret ((0, e, entry (disk s) e (i - 12)), s)) as Hsub.
    { unfold sfs_bmap_get_sub_nolock. step using (unfold assert; rewrite (proj2 (Z.ltb_lt _ _)) by (change SFS_BLK_NENTRY with 1024; lia); reflexivity).
      rewrite (proj2 (Z.eqb_neq e 0)) by done. cbn [negb].
      assert (('(ret, l) ← sfs_rbuf 4 e ((i - 12) * 4); if negb (ret =? 0) then mret (ret, e, undef, true)
         else mret (0, e, unle l, negb (unle l =? 0) || negb false)) s = Ret ((0, e, entry (disk s) e (i - 12), true), s)) as H1.
      { step using (apply rbuf_run; [done|lia|lia|lia]). cbn [Z.eqb negb]. by rewrite orb_true_r. }
      step using (exact H1). done. }
    step using (exact Hsub). cbv beta iota. cbn [Z.eqb negb]. fold e. rewrite Z.eqb_refl. cbn [Z.eqb negb when]. step using reflexivity. apply (out_run _ F); auto.
Qed.

Lemma bmap_load_existing s F sin x i :
  fs_ok s F → inodes s !! sin = Some x → file_ok (disk s) (blocks (super s)) F (din x) → 0 ≤ i < nblocks (din x) →
  sfs_bmap_load_nolock sin i s = Ret ((0, bmap (disk s) (din x) i), s).
Proof.
  intros Hok Hx Hf Hi. unfold sfs_bmap_load_nolock. step using (by apply din_of_run).
  step using (unfold assert; rewrite (proj2 (Z.leb_le _ _)) by lia; reflexivity).
  rewrite (proj2 (Z.eqb_neq i (nblocks (din x)))) by lia.
  step using (by apply (bmap_get_existing s F)). cbn [Z.eqb negb].
  step using (by apply (used_run s F); [done|apply (f_used _ _ _ _ Hf)]). step using reflexivity. done.
Qed.

(** ** Appending a block *)

Lemma append_file dk dk' B F F' d d' b :
  file_ok dk B F d → nblocks d < NMAX → nblocks d' = nblocks d + 1 → length (direct d') = 12%nat →
  (∀ i, 0 ≤ i < NMAX → bmap dk' d' i = if decide (i = nblocks d) then b else bmap dk d i) →
  used B F' b → F' ⊆ F → b ∈ F →
  (indirect d' = indirect d ∨ indirect d' ∈ F ∧ indirect d' ≠ b) → (indirect d' ≠ 0 → used B F' (indirect d')) →
  file_ok dk' B F' d'.
Proof.
  intros [H1 H2 H3 H4 H5 H6 H7] Hlt Hn Hlen Hmap Hb HF HbF Hind Hind'.
  assert (∀ i, 0 ≤ i < nblocks d → bmap dk' d' i = bmap dk d i) as Hold.
  { intros i Hi. rewrite Hmap, decide_False by lia. done. }
  assert (bmap dk' d' (nblocks d) = b) as Hnew by (rewrite Hmap, decide_True by lia; done).
  assert (∀ i, 0 ≤ i < nblocks d → bmap dk d i ≠ b) as Hne.
  { intros i Hi Heq. destruct (H3 i Hi) as [_ Hx]. by rewrite Heq in Hx. }
  assert (∀ i, 0 ≤ i < nblocks d' → i = nblocks d ∨ 0 ≤ i < nblocks d) as Hcase by (intros; lia).
  split; [done|lia| | |done| |].
  - intros i Hi. destruct (Hcase i Hi) as [->|Hi']; [by rewrite Hnew|]. rewrite Hold by done.
    destruct (H3 i Hi') as [? ?]. split; [done|set_solver].
  - intros i Hi. rewrite Hmap, decide_False by lia. apply H4. lia.
  - intros i j Hi Hj. destruct (Hcase i Hi) as [->|Hi'], (Hcase j Hj) as [->|Hj']; rewrite ?Hnew, ?Hold by done.
    + done.
    + intros Heq. by destruct (Hne j Hj').
    + intros Heq. by destruct (Hne i Hi').
    + by apply H6.
  - intros i Hi. destruct (Hcase i Hi) as [->|Hi'].
    + rewrite Hnew. destruct Hind as [->|[_ Hx]]; [|congruence]. intros ->.
      destruct (decide (indirect d = 0)) as [H0|H0]; [destruct Hb; lia|]. by destruct (H5 H0).
    + rewrite Hold by done. destruct Hind as [->|[Hx _]]; [by apply H7|]. intros Heq. destruct (H3 i Hi') as [_ Hnot].
      by rewrite Heq in Hnot.
Qed.

(** What a call with the index behind the last block does: the block [b] is new, it is the last of the
    file, and it is zero; the file keeps its blocks and their bytes. *)
Record appended (sin : Z) (s : sfs_fs) (F : gset Z) (x : sfs_inode) (b : Z)
    (s' : sfs_fs) (F' : gset Z) (x' : sfs_inode) : Prop := {
  ap_ok : fs_ok s' F';
  ap_same : blocks (super s') = blocks (super s) ∧ allocs s' = allocs s;
  ap_inodes : inodes s' = <[sin := x']> (inodes s);
  ap_meta : size (din x') = size (din x) ∧ type (din x') = type (din x) ∧ nlinks (din x') = nlinks (din x) ∧
            ref_count x' = ref_count x ∧ open_count x' = open_count x ∧ reclaim_count x' = reclaim_count x;
  ap_n : nblocks (din x') = nblocks (din x) + 1;
  ap_b : b ∈ F ∧ F' ⊆ F;
  ap_card : Z.of_nat (card F') = Z.of_nat (card F) - 1 - (if decide (indirect (din x') = indirect (din x)) then 0 else 1);
  ap_ind : indirect (din x') = indirect (din x) ∨
           indirect (din x) = 0 ∧ indirect (din x') ∈ F ∧ indirect (din x') ≠ 0 ∧ nblocks (din x) = 12;
  ap_file : file_ok (disk s') (blocks (super s)) F' (din x');
  ap_map : ∀ i, 0 ≤ i < NMAX → bmap (disk s') (din x') i = if decide (i = nblocks (din x)) then b else bmap (disk s) (din x) i;
  ap_frame : ∀ a, a / 4096 ∉ F → indirect (din x) = 0 ∨ a / 4096 ≠ indirect (din x) → byte_at (disk s') a = byte_at (disk s) a;
  ap_zero : ∀ a, a / 4096 = b → byte_at (disk s') a = 0 }.

(** [sfs_bmap_load_nolock] from the run of [sfs_bmap_get_nolock]. *)
Lemma load_of_get s sin x b s1 x1 F' :
  inodes s !! sin = Some x → nblocks (din x) < NMAX → 0 ≤ nblocks (din x) →
  sfs_bmap_get_nolock sin (nblocks (din x)) true s = Ret ((0, b), put_sin s1 sin x1) →
  fs_ok s1 F' → used (blocks (super s1)) F' b → nblocks (din x1) = nblocks (din x) →
  sfs_bmap_load_nolock sin (nblocks (din x)) s =
    Ret ((0, b), put_sin s1 sin (set_din (set_nblocks (nblocks (din x) + 1) (din x1)) x1)).
Proof.
  intros Hx Hlt H0 Hget Hok Hu Hn. unfold NMAX in *. unfold sfs_bmap_load_nolock. step using (by apply din_of_run).
  step using (unfold assert; rewrite (proj2 (Z.leb_le _ _)) by lia; reflexivity). rewrite Z.eqb_refl.
  step using (exact Hget). cbn [Z.eqb negb].
  step using (by apply (used_run _ F'); [by apply fs_ok_inodes|]). step using reflexivity.
  unfold when, din_upd. step using (apply sin_upd_run, put_sin_at). rewrite put_sin_put, Hn, u32_small by lia. done.
Qed.

Lemma append_direct s F sin x :
  fs_ok s F → inodes s !! sin = Some x → file_ok (disk s) (blocks (super s)) F (din x) →
  nblocks (din x) < 12 → F ≠ ∅ →
  ∃ b s' F' x', sfs_bmap_load_nolock sin (nblocks (din x)) s = Ret ((0, b), s') ∧ appended sin s F x b s' F' x'.
Proof.
  intros Hok Hx Hf Hlt Hne. destruct (block_alloc_run s F Hok Hne) as (b & s1 & Hrun & Ht).
  pose proof (took_free _ _ _ _ Ht) as Hb. pose proof (ok_range _ _ Hok b Hb) as Hbr. pose proof (f_n _ _ _ _ Hf) as Hn.
  destruct (took_super _ _ _ _ Ht) as [HB _]. pose proof (took_ok _ _ _ _ Ht) as Hok1.
  set (n := nblocks (din x)) in *. unfold NMAX in *.
  set (x1 := set_dirty true (set_din (set_direct n b (din x)) x)).
  assert (used (blocks (super s1)) (F ∖ {[b]}) b) as Hub by (rewrite HB; split; [done|set_solver]).
  assert (inodes s1 !! sin = Some x) as Hx1 by by rewrite (took_inodes _ _ _ _ Ht).
  assert (direct (din x) !! Z.to_nat n = Some 0) as Hd.
  { rewrite list_lookup_lookup_total_lt by (rewrite (f_direct _ _ _ _ Hf); lia). f_equal.
    pose proof (f_rest _ _ _ _ Hf n) as Hr. unfold bmap in Hr. rewrite decide_True in Hr by lia. apply Hr. unfold NMAX. lia. }
  assert (sfs_bmap_get_nolock sin n true s = Ret ((0, b), put_sin s1 sin x1)) as Hget.
  { unfold sfs_bmap_get_nolock. step using (by apply din_of_run). rewrite (proj2 (Z.ltb_lt _ _)) by done.
    step using (unfold deref; rewrite Hd; reflexivity). cbn [Z.eqb andb]. step using (exact Hrun). cbn [Z.eqb negb].
    unfold din_upd. step using (by apply sin_upd_run). step using (apply sin_upd_run, put_sin_at). rewrite put_sin_put.
    apply (out_run _ (F ∖ {[b]})); [by apply fs_ok_inodes|done]. }
  assert (∀ a, a / 4096 ∉ F → byte_at (disk s1) a = byte_at (disk s) a) as Hframe.
  { intros a Ha. eapply took_outside; [done|]. intros Heq. by rewrite Heq in Ha. }
  eexists b, _, (F ∖ {[b]}), _. split.
  { apply (load_of_get s sin x b s1 x1 (F ∖ {[b]})); try done; unfold NMAX; fold n; lia. }
  assert (∀ i, 0 ≤ i < NMAX → bmap (disk s1) (set_nblocks (n + 1) (set_direct n b (din x))) i =
            if decide (i = n) then b else bmap (disk s) (din x) i) as Hmap.
  { intros i Hi. unfold bmap. cbn [direct indirect set_nblocks set_direct]. destruct (decide (i < 12)) as [Hi12|Hi12].
    - case_decide as Hin; [subst i|].
      + apply list_lookup_total_insert_eq. rewrite (f_direct _ _ _ _ Hf). lia.
      + apply list_lookup_total_insert_ne. lia.
    - rewrite (decide_False (P := i = n)) by lia. destruct (decide (indirect (din x) = 0)) as [|H0]; [done|].
      destruct (f_ind _ _ _ _ Hf H0) as [_ Hnot].
      apply ind_entry_ext; [unfold NMAX in Hi; lia|]. intros a Ha. apply Hframe. by rewrite Ha. }
  split; cbn [disk inodes super allocs put_sin set_inodes din x1 set_dirty set_din ref_count open_count reclaim_count].
  - by apply fs_ok_inodes.
  - by rewrite (took_allocs _ _ _ _ Ht).
  - by rewrite (took_inodes _ _ _ _ Ht).
  - done.
  - done.
  - set_solver.
  - rewrite (card_remove F b Hb), decide_True by done. lia.
  - by left.
  - apply (append_file (disk s) _ _ F _ (din x) _ b); try done; cbn; [unfold NMAX; lia|by rewrite length_insert, (f_direct _ _ _ _ Hf)|by rewrite <-HB|set_solver|by left|].
    intros H0. destruct (f_ind _ _ _ _ Hf H0). split; [done|set_solver].
  - done.
  - intros a Ha _. by apply Hframe.
  - intros a Ha. by eapply took_zero.
Qed.

Lemma append_indirect s F sin x :
  fs_ok s F → inodes s !! sin = Some x → file_ok (disk s) (blocks (super s)) F (din x) →
  12 ≤ nblocks (din x) < NMAX → (if decide (indirect (din x) = 0) then 2 else 1) ≤ Z.of_nat (card F) →
  ∃ b s' F' x', sfs_bmap_load_nolock sin (nblocks (din x)) s = Ret ((0, b), s') ∧ appended sin s F x b s' F' x'.
Proof.
  intros Hok Hx Hf Hn Hc. set (n := nblocks (din x)) in *. set (e := indirect (din x)) in *. unfold NMAX in Hn.
  destruct (sub_run s F e (n - 12)) as (ent & b & s1 & F' & Hsub & Hat); [done|lia| |done|].
  { intros H0. split; [by apply (f_ind _ _ _ _ Hf)|]. pose proof (f_rest _ _ _ _ Hf n) as Hr.
    unfold bmap in Hr. rewrite !decide_False in Hr by lia. apply Hr. unfold NMAX. lia. }
  destruct Hat as [(Hb & HbF & HentF & Hne) Hent [HF Hcard] Hok1 (Hin & HB & Hal) Hframe Hzero Hentry].
  pose proof (ok_range _ _ Hok b Hb) as Hbr.
  assert (0 < ent < blocks (super s)) as Hentr.
  { destruct (decide (e = 0)) as [|H0]; [by apply (ok_range _ _ Hok)|]. subst ent. by destruct (f_ind _ _ _ _ Hf H0). }
  assert (used (blocks (super s1)) F' b) as Hub by (rewrite HB; by split).
  assert (inodes s1 !! sin = Some x) as Hx1 by by rewrite Hin.
  assert (e = 0 → n = 12) as Hn12.
  { intros H0. destruct (decide (n = 12)); [done|]. destruct (f_used _ _ _ _ Hf 12) as [Hu _]; [fold n; lia|].
    unfold bmap in Hu. rewrite decide_False, decide_True in Hu by done. lia. }
  set (x1 := if decide (ent = e) then x else set_dirty true (set_din (set_indirect ent (din x)) x)).
  assert (sfs_bmap_get_nolock sin n true s = Ret ((0, b), put_sin s1 sin x1)) as Hget.
  { unfold sfs_bmap_get_nolock. step using (by apply din_of_run). cbv zeta. change SFS_NDIRECT with 12. change SFS_BLK_NENTRY with 1024.
    rewrite (proj2 (Z.ltb_ge _ _)), (proj2 (Z.ltb_lt _ _)) by lia. step using (exact Hsub). cbv beta iota. cbn [Z.eqb negb].
    fold e. unfold x1. destruct (decide (ent = e)) as [->|Hee].
    - rewrite Z.eqb_refl. cbn [negb when]. step using reflexivity. rewrite put_sin_same by done. apply (out_run _ F'); auto.
    - rewrite (proj2 (Z.eqb_neq ent e)) by done. cbn [negb when]. destruct (decide (e = 0)) as [He0|]; [|done].
      assert ((assert (e =? 0) ;; din_upd sin (set_indirect ent) ;; sin_upd sin (set_dirty true)) s1 =
        Ret (tt, put_sin s1 sin (set_dirty true (set_din (set_indirect ent (din x)) x)))) as Hupd.
      { rewrite He0. step using reflexivity. unfold din_upd. step using (by apply sin_upd_run).
        rewrite (sin_upd_run _ _ (set_din (set_indirect ent (din x)) x)) by apply put_sin_at. by rewrite put_sin_put. }
      step using (exact Hupd). apply (out_run _ F'); [by apply fs_ok_inodes|done]. }
  assert (size (din x1) = size (din x) ∧ type (din x1) = type (din x) ∧ nlinks (din x1) = nlinks (din x) ∧
    ref_count x1 = ref_count x ∧ open_count x1 = open_count x ∧ reclaim_count x1 = reclaim_count x ∧
    nblocks (din x1) = n ∧ direct (din x1) = direct (din x) ∧ indirect (din x1) = ent) as (Hm1 & Hm2 & Hm3 & Hm4 & Hm5 & Hm6 & Hm7 & Hm8 & Hm9).
  { unfold x1. destruct (decide (ent = e)) as [->|]; done. }
  eexists b, _, F', _. split.
  { apply (load_of_get s sin x b s1 x1 F'); try done; unfold NMAX; fold n; lia. }
  assert (∀ i, 0 ≤ i < NMAX → bmap (disk s1) (set_nblocks (n + 1) (din x1)) i =
            if decide (i = n) then b else bmap (disk s) (din x) i) as Hmap.
  { intros i Hi. unfold NMAX in Hi. unfold bmap. cbn [direct indirect set_nblocks]. rewrite Hm8, Hm9. fold e.
    destruct (decide (i < 12)) as [Hi12|Hi12]; [by rewrite decide_False by lia|].
    rewrite (decide_False (P := ent = 0)) by lia. rewrite Hentry by lia.
    destruct (decide (i = n)) as [->|Hin']; [by rewrite decide_True|]. by rewrite (decide_False (P := i - 12 = n - 12)) by lia. }
  clearbody x1.
  split; cbn [disk inodes super allocs put_sin set_inodes din set_din set_nblocks size type nlinks nblocks indirect ref_count open_count reclaim_count].
  - by apply fs_ok_inodes.
  - done.
  - by rewrite Hin.
  - done.
  - done.
  - done.
  - change (indirect (din (set_din (set_nblocks (nblocks (din x) + 1) (din x1)) x1))) with (indirect (din x1)). rewrite Hm9, Hcard. fold e. destruct (decide (e = 0)), (decide (ent = e)); lia.
  - change (indirect (din (set_din (set_nblocks (nblocks (din x) + 1) (din x1)) x1))) with (indirect (din x1)). rewrite Hm9. fold e. destruct (decide (e = 0)) as [He0|]; [right|by left]. split_and!; [done|done|lia|by apply Hn12].
  - apply (append_file (disk s) _ _ F _ (din x) _ b); try done; cbn; rewrite ?Hm8, ?Hm9.
    + unfold NMAX. fold n. lia.
    + apply (f_direct _ _ _ _ Hf).
    + fold e. destruct (decide (e = 0)); [by right|by left].
    + intros _. by split.
  - done.
  - done.
  - done.
Qed.

(** The free blocks that appending one block takes. *)
Definition append_need (d : sfs_disk_inode) : Z := if decide (12 ≤ nblocks d ∧ indirect d = 0) then 2 else 1.

Lemma append_run s F sin x :
  fs_ok s F → inodes s !! sin = Some x → file_ok (disk s) (blocks (super s)) F (din x) →
  nblocks (din x) < NMAX → append_need (din x) ≤ Z.of_nat (card F) →
  ∃ b s' F' x', sfs_bmap_load_nolock sin (nblocks (din x)) s = Ret ((0, b), s') ∧ appended sin s F x b s' F' x'.
Proof.
  intros Hok Hx Hf Hlt Hneed. unfold append_need in Hneed.
  destruct (decide (12 ≤ nblocks (din x))) as [Hge|].
  - apply append_indirect; try done. destruct (decide (indirect (din x) = 0)).
    + rewrite decide_True in Hneed; done.
    + rewrite decide_False in Hneed; [done|tauto].
  - apply append_direct; try done; [lia|]. intros ->. rewrite decide_False, size_empty in Hneed by tauto. lia.
Qed.

Lemma append_full s sin x :
  fs_ok s ∅ → inodes s !! sin = Some x → file_ok (disk s) (blocks (super s)) ∅ (din x) → nblocks (din x) < NMAX →
  sfs_bmap_load_nolock sin (nblocks (din x)) s = Ret ((- E_NO_MEM, undef), s).
Proof.
  intros Hok Hx Hf Hlt. pose proof (f_n _ _ _ _ Hf) as Hn. pose proof (block_alloc_none s ∅ Hok eq_refl) as Hnone.
  pose proof (f_rest _ _ _ _ Hf (nblocks (din x)) ltac:(lia)) as H0. unfold NMAX in *.
  set (n := nblocks (din x)) in *. unfold bmap in H0.
  assert (sfs_bmap_get_nolock sin n true s = Ret ((- E_NO_MEM, undef), s)) as Hget.
  { unfold sfs_bmap_get_nolock. step using (by apply din_of_run). cbv zeta. change SFS_NDIRECT with 12. change SFS_BLK_NENTRY with 1024.
    destruct (decide (n < 12)) as [H12|H12].
    - rewrite (proj2 (Z.ltb_lt _ _)) by done.
      step using (unfold deref; rewrite list_lookup_lookup_total_lt, H0 by (rewrite (f_direct _ _ _ _ Hf); lia); reflexivity).
      cbn [Z.eqb andb]. step using (exact Hnone). done.
    - rewrite (proj2 (Z.ltb_ge _ _)), (proj2 (Z.ltb_lt _ _)) by lia. set (e := indirect (din x)) in *.
      assert (sfs_bmap_get_sub_nolock e (n - 12) true s = Ret ((- E_NO_MEM, e, undef), s)) as Hsub.
      { unfold sfs_bmap_get_sub_nolock. step using (unfold assert; rewrite (proj2 (Z.ltb_lt _ _)) by (change SFS_BLK_NENTRY with 1024; lia); reflexivity).
        destruct (decide (e = 0)) as [He|He].
        - rewrite He. cbn [Z.eqb negb].
          assert (('(ret, ent) ← sfs_block_alloc; mret (ret, ent, 0, negb (ret =? 0))) s = Ret ((- E_NO_MEM, undef, 0, true), s)) as H1.
          { step using (exact Hnone). done. }
          step using (exact H1). done.
        - destruct (f_ind _ _ _ _ Hf He) as [Hr _]. fold e in Hr. rewrite (proj2 (Z.eqb_neq e 0)) by done. cbn [negb].
          assert (('(ret, l) ← sfs_rbuf 4 e ((n - 12) * 4); if negb (ret =? 0) then mret (ret, e, undef, true)
            else mret (0, e, unle l, negb (unle l =? 0) || negb true)) s = Ret ((0, e, 0, false), s)) as H1.
          { step using (apply rbuf_run; [done|lia|lia|lia]). cbn [Z.eqb negb]. fold (entry (disk s) e (n - 12)). by rewrite H0. }
          step using (exact H1). cbv beta iota. step using (exact Hnone). cbn. rewrite Z.eqb_refl. done. }
      step using (exact Hsub). done. }
  unfold sfs_bmap_load_nolock. step using (by apply din_of_run). fold n.
  step using (unfold assert; rewrite (proj2 (Z.leb_le _ _)) by lia; reflexivity). rewrite Z.eqb_refl.
  step using (exact Hget). done.
Qed.

Lemma load_too_big s sin x :
  inodes s !! sin = Some x → nblocks (din x) = NMAX → sfs_bmap_load_nolock sin NMAX s = Err EPanic.
Proof.
  intros Hx Hn. unfold sfs_bmap_load_nolock. step using (by apply din_of_run). rewrite Hn.
  step using reflexivity. rewrite Z.eqb_refl. apply M_bind_err.
  unfold sfs_bmap_get_nolock. step using (by apply din_of_run). done.
Qed.

(** [sfs_bmap_load_nolock] answers the block with the [i]-th part of a file the file has, without
    changing anything; for the index behind the last one it appends one zeroed block that was free
    (and makes the indirect block when the first twelve are used up) and keeps every other part of
    the file where it was; on a full disk it answers -E_NO_MEM and changes nothing; and behind the
    12 + 1024 blocks that the inode can name it panics. *)
Theorem bmap_load_correct s F sin x i :
  fs_ok s F → inodes s !! sin = Some x → file_ok (disk s) (blocks (super s)) F (din x) → 0 ≤ i ≤ nblocks (din x) →
  (i < nblocks (din x) → sfs_bmap_load_nolock sin i s = Ret ((0, bmap (disk s) (din x) i), s)) ∧
  (i = nblocks (din x) → i < NMAX → append_need (din x) ≤ Z.of_nat (card F) →
     ∃ b s' F' x', sfs_bmap_load_nolock sin i s = Ret ((0, b), s') ∧ appended sin s F x b s' F' x') ∧
  (i = nblocks (din x) → i < NMAX → F = ∅ → sfs_bmap_load_nolock sin i s = Ret ((- E_NO_MEM, undef), s)) ∧
  (i = NMAX → sfs_bmap_load_nolock sin i s = Err EPanic).
Proof.
  intros Hok Hx Hf Hi. pose proof (f_n _ _ _ _ Hf). split_and!.
  - intros Hlt. apply (bmap_load_existing s F); try done. lia.
  - intros -> Hlt Hneed. by apply append_run.
  - intros -> Hlt ->. by apply append_full.
  - intros ->. apply (load_too_big s sin x); [done|lia].
Qed.

End load.

(** * Writing *)

(** The free blocks that growing a file to [N] blocks takes. *)
Definition cost (d : sfs_disk_inode) (N : Z) : Z :=
  N - nblocks d + (if decide (12 < N ∧ indirect d = 0) then 1 else 0).

Lemma cost_mono d N N' : N ≤ N' → cost d N ≤ cost d N'.
Proof. intros H. unfold cost. case_decide; case_decide; lia. Qed.

(** From [s] to [s'] the file has got [n] blocks, holds [l] at [lo] and has kept its other bytes; new
    bytes outside [l] are zero; outside the file no block that was in use has changed. *)
Record wrote (sin n lo : Z) (l : list Z) (s : sfs_fs) (F : gset Z) (x : sfs_inode)
    (s' : sfs_fs) (F' : gset Z) (x' : sfs_inode) : Prop := {
  w_ok : fs_ok s' F';
  w_same : blocks (super s') = blocks (super s) ∧ allocs s' = allocs s;
  w_inodes : inodes s' = <[sin := x']> (inodes s);
  w_meta : size (din x') = size (din x) ∧ type (din x') = type (din x) ∧ nlinks (din x') = nlinks (din x) ∧
           ref_count x' = ref_count x ∧ open_count x' = open_count x ∧ reclaim_count x' = reclaim_count x;
  w_n : nblocks (din x') = n ∧ nblocks (din x) ≤ n ∧ lo + Z.of_nat (length l) ≤ 4096 * n;
  w_F : F' ⊆ F;
  w_cost : ∀ N, n ≤ N → cost (din x) N ≤ Z.of_nat (card F) → cost (din x') N ≤ Z.of_nat (card F');
  w_file : file_ok (disk s') (blocks (super s)) F' (din x');
  w_bytes : ∀ p, 0 ≤ p < 4096 * n → file_byte (disk s') (din x') p =
    if decide (lo ≤ p < lo + Z.of_nat (length l)) then l !!! Z.to_nat (p - lo)
    else if decide (p < 4096 * nblocks (din x)) then file_byte (disk s) (din x) p else 0;
  w_frame : ∀ a, a / 4096 ∉ F → ¬ owns (disk s) (din x) (a / 4096) → byte_at (disk s') a = byte_at (disk s) a;
  w_owns : ∀ b, owns (disk s') (din x') b → owns (disk s) (din x) b ∨ b ∈ F }.

Lemma wrote_app sin n1 n2 lo l1 l2 s F x s1 F1 x1 s2 F2 x2 :
  wrote sin n1 lo l1 s F x s1 F1 x1 → wrote sin n2 (lo + Z.of_nat (length l1)) l2 s1 F1 x1 s2 F2 x2 →
  wrote sin n2 lo (l1 ++ l2) s F x s2 F2 x2.
Proof.
  intros [A1 [A2 A2'] A3 A4 (A5 & A5' & A5'') A6 A7 A8 A9 A10 A11] [B1 [B2 B2'] B3 B4 (B5 & B5' & B5'') B6 B7 B8 B9 B10 B11].
  split; try done.
  - split; congruence.
  - rewrite B3, A3. apply insert_insert_eq.
  - destruct_and!; split_and!; congruence.
  - rewrite length_app. lia.
  - by trans F1.
  - intros N HN Hc. apply B7; [done|]. apply A7; [lia|done].
  - by rewrite <-A2.
  - intros p Hp. rewrite B9 by done. rewrite length_app, A5. destruct (decide (lo + Z.of_nat (length l1) ≤ p < _)) as [H2|H2].
    + rewrite decide_True by lia. rewrite lookup_total_app_r by lia. f_equal. lia.
    + destruct (decide (p < 4096 * n1)) as [H1|H1].
      * rewrite A9 by lia. destruct (decide (lo ≤ p < lo + Z.of_nat (length l1))) as [H3|H3].
        -- rewrite decide_True by lia. by rewrite lookup_total_app_l by lia.
        -- by rewrite (decide_False (P := lo ≤ p < lo + Z.of_nat _)) by lia.
      * rewrite (decide_False (P := p < 4096 * nblocks (din x))) by lia.
        by rewrite (decide_False (P := lo ≤ p < lo + Z.of_nat _)) by lia.
  - intros a Ha Ho. rewrite B10, A10; [done|done|done|set_solver|]. intros [?|?]%A11; done.
  - intros b [Hb|Hb]%B11; [by apply A11|right; set_solver].
Qed.

(** A change inside one block of the file. *)
Lemma wrote_patch sin s F x i off l dk' :
  fs_ok s F → inodes s !! sin = Some x → file_ok (disk s) (blocks (super s)) F (din x) →
  0 ≤ i < nblocks (din x) → 0 ≤ off → off + Z.of_nat (length l) ≤ 4096 →
  patched (disk s) dk' (bmap (disk s) (din x) i * 4096 + off) l →
  wrote sin (nblocks (din x)) (i * 4096 + off) l s F x (set_disk s dk') F x.
Proof.
  intros Hok Hx Hf Hi Ho Hle Hp. set (d := din x) in *. set (b := bmap (disk s) d i) in *.
  assert (∀ a, a / 4096 ≠ b → byte_at dk' a = byte_at (disk s) a) as Hout by (intros a Ha; by eapply patched_outside).
  assert (∀ j, 0 ≤ j < NMAX → bmap dk' d j = bmap (disk s) d j) as Hmap.
  { intros j Hj. unfold NMAX in Hj. unfold bmap. destruct (decide (j < 12)); [done|].
    destruct (decide (indirect d = 0)) as [|H0]; [done|]. apply ind_entry_ext; [lia|]. intros a Ha. apply Hout.
    rewrite Ha. intros Heq. by apply (f_sep _ _ _ _ Hf i Hi). }
  pose proof (f_n _ _ _ _ Hf) as Hn.
  split; cbn [disk set_disk super allocs inodes]; fold d; try done.
  - by apply fs_ok_disk.
  - by rewrite insert_id.
  - lia.
  - destruct Hf as [H1 H2 H3 H4 H5 H6 H7]. split; try done.
    + intros j Hj. rewrite Hmap by lia. by apply H3.
    + intros j Hj. rewrite Hmap by lia. by apply H4.
    + intros j k Hj Hk. rewrite !Hmap by lia. by apply H6.
    + intros j Hj. rewrite Hmap by lia. by apply H7.
  - intros p Hpr. rewrite (decide_True (P := p < 4096 * nblocks d)) by lia. unfold file_byte.
    destruct (addr_split p) as [Hps Hpm]. set (j := p / 4096) in *. set (m := p mod 4096) in *.
    assert (0 ≤ j < nblocks d) as Hj by lia. rewrite Hmap by lia. rewrite Hp.
    destruct (decide (j = i)) as [->|Hji].
    + fold b. replace (b * 4096 + m - (b * 4096 + off)) with (p - (i * 4096 + off)) by lia.
      destruct (decide (b * 4096 + off ≤ b * 4096 + m < _)), (decide (i * 4096 + off ≤ p < _)); try lia; done.
    + assert (bmap (disk s) d j ≠ b) as Hne by (intros Heq; by apply Hji, (f_inj _ _ _ _ Hf)).
      rewrite !decide_False by nia. done.
  - intros a Ha Hno. apply Hout. intros Heq. apply Hno. right. by exists i.
  - intros c [Hc|(j & Hj & ->)]; left; [by left|right]. exists j. rewrite Hmap by lia. done.
Qed.

Section write.
Context `{E : heap_env}.

(** Loading a block with an index the file has or the next one. *)
Lemma load_any sin s F x i lo :
  fs_ok s F → inodes s !! sin = Some x → file_ok (disk s) (blocks (super s)) F (din x) →
  0 ≤ i ≤ nblocks (din x) → i < NMAX → cost (din x) (Z.max (nblocks (din x)) (i + 1)) ≤ Z.of_nat (card F) → lo ≤ 4096 * (i + 1) →
  ∃ b s1 F1 x1, sfs_bmap_load_nolock sin i s = Ret ((0, b), s1) ∧
    wrote sin (Z.max (nblocks (din x)) (i + 1)) lo [] s F x s1 F1 x1 ∧ bmap (disk s1) (din x1) i = b.
Proof.
  intros Hok Hx Hf Hi Hlt Hc Hlo. destruct (decide (i < nblocks (din x))) as [Hold|Hnew].
  - rewrite (bmap_load_existing s F sin x i) by (done || lia). eexists _, s, F, x. split_and!; [done| |done].
    rewrite Z.max_l by lia. split; try done; [by rewrite insert_id|simpl; lia| |by intros b; left].
    intros p Hp. rewrite decide_False by (simpl; lia). by rewrite decide_True by lia.
  - assert (i = nblocks (din x)) as -> by lia. rewrite Z.max_r in * by lia.
    destruct (append_run s F sin x) as (b & s1 & F1 & x1 & Hrun & Hap); try done.
    { unfold cost in Hc. unfold append_need. case_decide; case_decide; lia. }
    destruct Hap as [P1 P2 P3 P4 P5 [P6 P6'] P7 P8 P9 P10 P11 P12].
    exists b, s1, F1, x1. split_and!; [done| |by rewrite P10, decide_True by lia].
    pose proof (f_n _ _ _ _ Hf) as Hn. split; try done.
    + simpl. lia.
    + intros N HN Hc'. unfold cost in *. rewrite P5, P7.
      destruct P8 as [->|(H0 & Hin & Hne & H12)].
      * rewrite (decide_True (P := indirect (din x) = indirect (din x))) by done. case_decide; lia.
      * rewrite (decide_False (P := indirect (din x1) = indirect (din x))) by congruence.
        rewrite (decide_False (P := 12 < N ∧ indirect (din x1) = 0)) by tauto.
        rewrite (decide_True (P := 12 < N ∧ indirect (din x) = 0)) in Hc' by lia. lia.
    + intros p Hp. rewrite decide_False by (simpl; lia). unfold file_byte. destruct (addr_split p) as [Hps Hpm].
      set (j := p / 4096) in *. rewrite P10 by (unfold NMAX in *; lia). destruct (decide (j = nblocks (din x))) as [Hj|Hj].
      * rewrite decide_False by lia. apply P12. by apply block_of_addr.
      * rewrite decide_True by lia. destruct (f_used _ _ _ _ Hf j ltac:(lia)) as [Hu1 Hu2].
        destruct (block_of_addr (bmap (disk s) (din x) j) (p mod 4096) Hpm) as [Hb _].
        apply P11; rewrite Hb; [done|]. right. apply (f_sep _ _ _ _ Hf). lia.
    + intros a Ha Hno. apply P11; [done|]. destruct (decide (indirect (din x) = 0)) as [|H0]; [by left|right].
      intros Heq. apply Hno. left. by rewrite Heq.
    + intros c [[Hc0 ->]|(j & Hj & ->)].
      * destruct P8 as [Heq|(H0 & Hin & _)]; [|by right]. left. left. split; congruence.
      * rewrite P10 by (unfold NMAX in *; lia). destruct (decide (j = nblocks (din x))); [by right|]. left. right. exists j. split; [lia|done].
Qed.

Lemma wrote_refl sin s F x lo :
  fs_ok s F → inodes s !! sin = Some x → file_ok (disk s) (blocks (super s)) F (din x) → lo ≤ 4096 * nblocks (din x) →
  wrote sin (nblocks (din x)) lo [] s F x s F x.
Proof.
  intros Hok Hx Hf Hlo. split; try done; [by rewrite insert_id|simpl; lia| |by intros b; left].
  intros p Hp. rewrite decide_False by (simpl; lia). by rewrite decide_True by lia.
Qed.

Lemma splice_same buf alen n :
  0 ≤ alen → 0 ≤ n → alen + n ≤ Z.of_nat (length buf) →
  splice buf alen (take (Z.to_nat n) (drop (Z.to_nat alen) buf)) = buf.
Proof.
  intros H1 H2 H3. unfold splice. rewrite length_take, length_drop.
  replace (Nat.min (Z.to_nat n) (length buf - Z.to_nat alen))%nat with (Z.to_nat n) by lia.
  rewrite <-drop_drop, take_drop, take_drop. done.
Qed.

(** The transfer of one chunk to its block. *)
Lemma block_write s b chunk off (whole : bool) :
  0 < b < blocks (super s) → 0 ≤ off < 4096 → off + Z.of_nat (length chunk) ≤ 4096 →
  (whole = true → off = 0 ∧ length chunk = 4096%nat) →
  ∃ d', (ret ← (if whole then sfs_wblock chunk b 1 else sfs_wbuf chunk b off); mret (ret, chunk)) s = Ret ((0, chunk), set_disk s d') ∧
    patched (disk s) d' (b * 4096 + off) chunk.
Proof.
  intros Hb Ho Hle Hw. destruct whole.
  - destruct Hw as [-> Hlen]; [done|]. exists (write_bytes (disk s) (b * 4096) chunk). split.
    + assert (sfs_wblock chunk b 1 s = Ret (0, set_disk s (write_bytes (disk s) (b * 4096) chunk))) as Hrun.
      { cbn [sfs_wblock]. step using (by apply wblock_nolock_run). cbn [Z.eqb negb]. by rewrite take_ge by lia. }
      step using (exact Hrun). done.
    + rewrite Z.add_0_r. apply write_patched.
  - destruct (wbuf_run s b chunk off) as (d' & Hrun & Hp); try done. exists d'. split; [|done]. step using (exact Hrun). done.
Qed.

Lemma chunk_write sin s F x whole buf alen i n off :
  fs_ok s F → inodes s !! sin = Some x → file_ok (disk s) (blocks (super s)) F (din x) →
  0 ≤ i ≤ nblocks (din x) → i < NMAX → cost (din x) (Z.max (nblocks (din x)) (i + 1)) ≤ Z.of_nat (card F) →
  0 ≤ off → 0 < n → off + n ≤ 4096 → 0 ≤ alen → alen + n ≤ Z.of_nat (length buf) → (whole = true → off = 0 ∧ n = 4096) →
  ∃ s' F' x', io_chunk sin true whole buf alen i n off s = Ret ((0, alen + n, buf), s') ∧
    wrote sin (Z.max (nblocks (din x)) (i + 1)) (i * 4096 + off) (take (Z.to_nat n) (drop (Z.to_nat alen) buf)) s F x s' F' x'.
Proof.
  intros Hok Hx Hf Hi Hlt Hc Ho Hn Hon Ha Hlen Hwh. set (chunk := take (Z.to_nat n) (drop (Z.to_nat alen) buf)).
  assert (length chunk = Z.to_nat n) as Hchunk by (unfold chunk; rewrite length_take, length_drop; lia).
  destruct (load_any sin s F x i (i * 4096 + off)) as (b & s1 & F1 & x1 & Hload & Hw & Hb); try done; [lia|].
  assert (inodes s1 !! sin = Some x1) as Hx1 by (rewrite (w_inodes _ _ _ _ _ _ _ _ _ _ Hw); apply lookup_insert_eq).
  destruct (w_same _ _ _ _ _ _ _ _ _ _ Hw) as [HB _]. destruct (w_n _ _ _ _ _ _ _ _ _ _ Hw) as (Hn1 & _).
  pose proof (w_file _ _ _ _ _ _ _ _ _ _ Hw) as Hf1. rewrite <-HB in Hf1. pose proof (w_ok _ _ _ _ _ _ _ _ _ _ Hw) as Hok1.
  destruct (f_used _ _ _ _ Hf1 i ltac:(lia)) as [Hbr _]. rewrite Hb in Hbr.
  destruct (block_write s1 b chunk off whole) as (d' & Hrun & Hp); [done|lia|lia| |].
  { intros ->. destruct Hwh; [done|]. split; [done|lia]. }
  exists (set_disk s1 d'), F1, x1. split.
  - unfold io_chunk. step using (exact Hload). cbn [Z.eqb negb]. fold chunk. step using (exact Hrun). cbn [Z.eqb negb].
    unfold chunk. by rewrite splice_same by lia.
  - rewrite <-Hb in Hp. pose proof (wrote_patch sin s1 F1 x1 i off chunk d' Hok1 Hx1 Hf1 ltac:(lia) Ho ltac:(lia) Hp) as Hw2.
    rewrite Hn1 in Hw2. rewrite <-(app_nil_l chunk). eapply wrote_app; [exact Hw|]. simpl. by rewrite Z.add_0_r.
Qed.

Lemma wrote_at sin n lo l s F x s' F' x' :
  wrote sin n lo l s F x s' F' x' →
  fs_ok s' F' ∧ inodes s' !! sin = Some x' ∧ file_ok (disk s') (blocks (super s')) F' (din x') ∧ nblocks (din x') = n.
Proof.
  intros [H1 [H2 _] H3 _ [H4 _] _ _ H5 _ _ _]. split_and!; [done| |by rewrite H2|done].
  rewrite H3. apply lookup_insert_eq.
Qed.

Lemma blocks_write sin k : ∀ s F x buf alen i,
  fs_ok s F → inodes s !! sin = Some x → file_ok (disk s) (blocks (super s)) F (din x) →
  0 ≤ i ≤ nblocks (din x) → i + Z.of_nat k ≤ NMAX →
  cost (din x) (Z.max (nblocks (din x)) (i + Z.of_nat k)) ≤ Z.of_nat (card F) →
  0 ≤ alen → alen + 4096 * Z.of_nat k ≤ Z.of_nat (length buf) →
  ∃ s' F' x', io_blocks sin true k buf alen i s = Ret ((0, alen + 4096 * Z.of_nat k, buf), s') ∧
    wrote sin (Z.max (nblocks (din x)) (i + Z.of_nat k)) (i * 4096) (take (Z.to_nat (4096 * Z.of_nat k)) (drop (Z.to_nat alen) buf)) s F x s' F' x'.
Proof.
  induction k as [|k IH]; intros s F x buf alen i Hok Hx Hf Hi Hlt Hc Ha Hlen.
  - exists s, F, x. cbn [io_blocks]. replace (alen + 4096 * Z.of_nat 0) with alen by lia. split; [done|].
    rewrite Z.max_l by lia. change (Z.to_nat (4096 * Z.of_nat 0)) with O. apply wrote_refl; try done. lia.
  - destruct (chunk_write sin s F x true buf alen i 4096 0) as (s1 & F1 & x1 & Hrun1 & Hw1); try done; try lia.
    { etrans; [|exact Hc]. apply cost_mono. lia. }
    destruct (wrote_at _ _ _ _ _ _ _ _ _ _ Hw1) as (Hok1 & Hx1 & Hf1 & Hn1).
    destruct (IH s1 F1 x1 buf (alen + 4096) (i + 1)) as (s2 & F2 & x2 & Hrun2 & Hw2); try done; try lia.
    { apply (w_cost _ _ _ _ _ _ _ _ _ _ Hw1); [lia|]. rewrite Hn1.
      replace (Z.max (Z.max (nblocks (din x)) (i + 1)) (i + 1 + Z.of_nat k)) with (Z.max (nblocks (din x)) (i + Z.of_nat (S k))) by lia. done. }
    exists s2, F2, x2. split.
    + cbn [io_blocks]. change SFS_BLKSIZE with 4096. step using (exact Hrun1). cbn [Z.eqb negb]. rewrite Hrun2. do 4 f_equal. lia.
    + rewrite Hn1 in Hw2. replace (Z.max (Z.max (nblocks (din x)) (i + 1)) (i + 1 + Z.of_nat k)) with (Z.max (nblocks (din x)) (i + Z.of_nat (S k))) in Hw2 by lia.
      rewrite Z.add_0_r in Hw1. eapply (wrote_app _ _ _ _ _ (take (Z.to_nat (4096 * Z.of_nat k)) (drop (Z.to_nat (alen + 4096)) buf))) in Hw1.
      2: { rewrite length_take, length_drop. replace (i * 4096 + _) with ((i + 1) * 4096) by lia. exact Hw2. }
      replace (Z.to_nat (4096 * Z.of_nat (S k))) with (Z.to_nat 4096 + Z.to_nat (4096 * Z.of_nat k))%nat by lia.
      rewrite <-take_take_drop, drop_drop. replace (Z.to_nat alen + Z.to_nat 4096)%nat with (Z.to_nat (alen + 4096)) by lia. exact Hw1.
Qed.

Lemma tail_write sin s F x buf alen i k endpos :
  fs_ok s F → inodes s !! sin = Some x → file_ok (disk s) (blocks (super s)) F (din x) →
  0 ≤ i ≤ nblocks (din x) → 0 ≤ k → endpos / 4096 = i + k → endpos ≤ 4096 * NMAX →
  cost (din x) (Z.max (nblocks (din x)) ((endpos + 4095) / 4096)) ≤ Z.of_nat (card F) →
  0 ≤ alen → alen + (endpos - i * 4096) = Z.of_nat (length buf) →
  ∃ s' F' x', io_tail sin true buf alen i k endpos s = Ret ((0, Z.of_nat (length buf), buf), s') ∧
    wrote sin (Z.max (nblocks (din x)) ((endpos + 4095) / 4096)) (i * 4096) (drop (Z.to_nat alen) buf) s F x s' F' x'.
Proof.
  intros Hok Hx Hf Hi Hk Hdiv Hmax Hc Ha Hlen. destruct (addr_split endpos) as [He Hm]. rewrite Hdiv in He. set (r := endpos mod 4096) in *.
  set (N := Z.max (nblocks (din x)) ((endpos + 4095) / 4096)) in *.
  assert ((endpos + 4095) / 4096 = if decide (r = 0) then i + k else i + k + 1) as Hceil.
  { destruct (decide (r = 0)); symmetry; [apply (Z.div_unique_pos _ _ _ 4095)|apply (Z.div_unique_pos _ _ _ (r - 1))]; lia. }
  destruct (blocks_write sin (Z.to_nat k) s F x buf alen i) as (s1 & F1 & x1 & Hrun1 & Hw1); try done.
  { rewrite Z2Nat.id by lia. lia. }
  { rewrite Z2Nat.id by lia. etrans; [|exact Hc]. apply cost_mono. unfold N. rewrite Hceil. case_decide; lia. }
  { lia. }
  rewrite Z2Nat.id in Hrun1, Hw1 by lia. destruct (wrote_at _ _ _ _ _ _ _ _ _ _ Hw1) as (Hok1 & Hx1 & Hf1 & Hn1).
  unfold io_tail. change SFS_BLKSIZE with 4096. fold r. destruct (decide (r = 0)) as [Hr|Hr].
  - exists s1, F1, x1. split.
    + step using (exact Hrun1). cbn [Z.eqb negb]. rewrite Hr. cbn [Z.eqb negb]. unfold mret, M_ret. do 4 f_equal. lia.
    + unfold N. rewrite Hceil. rewrite take_ge in Hw1 by (rewrite length_drop; lia). exact Hw1.
  - destruct (chunk_write sin s1 F1 x1 false buf (alen + 4096 * k) (i + k) r 0) as (s2 & F2 & x2 & Hrun2 & Hw2); try done; try lia.
    { apply (w_cost _ _ _ _ _ _ _ _ _ _ Hw1); [lia|]. rewrite Hn1. unfold N in Hc. rewrite Hceil in Hc.
      replace (Z.max (Z.max (nblocks (din x)) (i + k)) (i + k + 1)) with (Z.max (nblocks (din x)) (i + k + 1)) by lia. done. }
    exists s2, F2, x2. split.
    + step using (exact Hrun1). cbn [Z.eqb negb]. rewrite (proj2 (Z.eqb_neq r 0)) by done. cbn [negb].
      rewrite Hrun2. do 4 f_equal. lia.
    + rewrite Hn1 in Hw2. replace (Z.max (Z.max (nblocks (din x)) (i + k)) (i + k + 1)) with N in Hw2 by lia.
      eapply (wrote_app _ _ _ _ _ (take (Z.to_nat r) (drop (Z.to_nat (alen + 4096 * k)) buf))) in Hw1.
      2: { rewrite length_take, length_drop. replace (i * 4096 + _) with ((i + k) * 4096 + 0) by lia. exact Hw2. }
      rewrite (take_ge (drop (Z.to_nat (alen + 4096 * k)) buf)) in Hw1 by (rewrite length_drop; lia).
      replace (Z.to_nat (alen + 4096 * k)) with (Z.to_nat alen + Z.to_nat (4096 * k))%nat in Hw1 by lia.
      rewrite <-drop_drop, take_drop in Hw1. exact Hw1.
Qed.

Lemma phases_write sin s F x buf offset endpos :
  fs_ok s F → inodes s !! sin = Some x → file_ok (disk s) (blocks (super s)) F (din x) →
  0 ≤ offset < endpos → offset / 4096 ≤ nblocks (din x) → endpos ≤ 4096 * NMAX →
  cost (din x) (Z.max (nblocks (din x)) ((endpos + 4095) / 4096)) ≤ Z.of_nat (card F) →
  endpos - offset = Z.of_nat (length buf) →
  ∃ s' F' x', io_phases sin true buf offset endpos s = Ret ((0, Z.of_nat (length buf), buf), s') ∧
    wrote sin (Z.max (nblocks (din x)) ((endpos + 4095) / 4096)) offset buf s F x s' F' x'.
Proof.
  intros Hok Hx Hf Ho Hb Hmax Hc Hlen. destruct (addr_split offset) as [Hos Hom]. destruct (addr_split endpos) as [Hes Hem].
  unfold io_phases. change SFS_BLKSIZE with 4096. set (i := offset / 4096) in *. set (off := offset mod 4096) in *.
  set (j := endpos / 4096) in *. assert (0 ≤ i) by (apply Z.div_pos; lia). assert (i ≤ j) as Hij by lia.
  destruct (off =? 0) eqn:E0; z_bool; cbn [negb].
  - destruct (tail_write sin s F x buf 0 i (j - i) endpos) as (s' & F' & x' & Hrun & Hw); try done; try lia.
    exists s', F', x'. split; [done|]. rewrite drop_0 in Hw. by replace offset with (i * 4096) by lia.
  - destruct (decide (j = i)) as [Hji|Hji].
    + replace (j - i) with 0 by lia. cbn [Z.eqb negb].
      assert ((endpos + 4095) / 4096 = i + 1) as Hceil by (symmetry; apply (Z.div_unique_pos _ _ _ (endpos mod 4096 - 1)); lia).
      rewrite Hceil in *. destruct (chunk_write sin s F x false buf 0 i (endpos - offset) off) as (s' & F' & x' & Hrun & Hw); try done; try lia.
      exists s', F', x'. split.
      { step using (exact Hrun). cbn [Z.eqb negb orb]. unfold mret, M_ret. do 4 f_equal. lia. }
      change (Z.to_nat 0) with O in Hw. rewrite drop_0, take_ge in Hw by lia. by replace offset with (i * 4096 + off) by lia.
    + rewrite (proj2 (Z.eqb_neq (j - i) 0)) by lia. cbn [negb].
      assert (i + 1 ≤ (endpos + 4095) / 4096) as Hceil by (apply Z.div_le_lower_bound; lia).
      destruct (chunk_write sin s F x false buf 0 i (4096 - off) off) as (s1 & F1 & x1 & Hrun1 & Hw1); try done; try lia.
      { etrans; [|exact Hc]. apply cost_mono. lia. }
      destruct (wrote_at _ _ _ _ _ _ _ _ _ _ Hw1) as (Hok1 & Hx1 & Hf1 & Hn1).
      assert (Z.max (nblocks (din x1)) ((endpos + 4095) / 4096) = Z.max (nblocks (din x)) ((endpos + 4095) / 4096)) as HN by lia.
      destruct (tail_write sin s1 F1 x1 buf (4096 - off) (i + 1) (j - i - 1) endpos) as (s2 & F2 & x2 & Hrun2 & Hw2); try done; try lia.
      { rewrite HN. apply (w_cost _ _ _ _ _ _ _ _ _ _ Hw1); [lia|done]. }
      exists s2, F2, x2. split.
      { step using (exact Hrun1). cbn [Z.eqb negb orb]. exact Hrun2. }
      rewrite HN in Hw2. eapply (wrote_app _ _ _ _ _ (drop (Z.to_nat (4096 - off)) buf)) in Hw1.
      2: { rewrite length_take, length_drop. replace (i * 4096 + off + _) with ((i + 1) * 4096) by lia. exact Hw2. }
      change (Z.to_nat 0) with O in Hw1. rewrite drop_0, take_drop in Hw1. by replace offset with (i * 4096 + off) by lia.
Qed.

Lemma file_ok_size dk B F d n : file_ok dk B F d → file_ok dk B F (set_size n d).
Proof. intros [H1 H2 H3 H4 H5 H6 H7]. by split. Qed.

(** The inode after its size has been moved to [e], when it was smaller. *)
Definition moved_end (e : Z) (x : sfs_inode) : sfs_inode :=
  if size (din x) <? e then set_dirty true (set_din (set_size e (din x)) x) else x.

Lemma moved_end_spec e x :
  size (din (moved_end e x)) = Z.max (size (din x)) e ∧ nblocks (din (moved_end e x)) = nblocks (din x) ∧
  (∀ dk p, file_byte dk (din (moved_end e x)) p = file_byte dk (din x) p) ∧
  (∀ dk B F, file_ok dk B F (din x) → file_ok dk B F (din (moved_end e x))).
Proof.
  unfold moved_end. destruct (size (din x) <? e) eqn:Ec; z_bool; split_and!; try done; try (cbn; lia).
  intros dk B F. apply file_ok_size.
Qed.

Lemma write_run sin s F x buf offset :
  fs_ok s F → inodes s !! sin = Some x → file_ok (disk s) (blocks (super s)) F (din x) →
  type (din x) ≠ SFS_TYPE_DIR → buf ≠ [] → 0 ≤ offset → offset / 4096 ≤ nblocks (din x) →
  let e := offset + Z.of_nat (length buf) in
  let N := Z.max (nblocks (din x)) ((e + 4095) / 4096) in
  e ≤ 4096 * NMAX → cost (din x) N ≤ Z.of_nat (card F) →
  ∃ s1 F' x1, wrote sin N offset buf s F x s1 F' x1 ∧
    sfs_io_nolock sin buf offset (Z.of_nat (length buf)) true s =
      Ret ((0, Z.of_nat (length buf), buf), put_sin s1 sin (moved_end e x1)).
Proof.
  intros Hok Hx Hf Hty Hne Ho Hb e N Hmax Hc.
  assert (0 < Z.of_nat (length buf)) as Hpos by (destruct buf; [done|simpl; lia]).
  destruct (phases_write sin s F x buf offset e) as (s1 & F1 & x1 & Hrun & Hw); try done; try lia.
  destruct (wrote_at _ _ _ _ _ _ _ _ _ _ Hw) as (Hok1 & Hx1 & Hf1 & Hn1).
  assert (NMAX = 1036) as HNM by done. rewrite HNM in Hmax. exists s1, F1, x1. split; [done|].
  unfold sfs_io_nolock. step using (by apply din_of_run).
  step using (unfold assert; rewrite (proj2 (Z.eqb_neq _ _)) by done; reflexivity).
  rewrite s32_small by lia. cbv zeta. change SFS_MAX_FILE_SIZE with 134217728. fold e.
  rewrite (proj2 (Z.ltb_ge offset 0)), (proj2 (Z.leb_gt 134217728 offset)), (proj2 (Z.ltb_ge e offset)) by lia. cbn [orb].
  rewrite (proj2 (Z.eqb_neq offset e)), (proj2 (Z.ltb_ge 134217728 e)) by lia. cbn [negb andb].
  step using (exact Hrun). cbv beta iota. step using (by apply din_of_run). rewrite u32_small by lia. fold e.
  unfold moved_end. destruct (size (din x1) <? e); unfold when, din_upd.
  - set (x2 := set_dirty true (set_din (set_size e (din x1)) x1)).
    assert ((sin_upd sin (λ x, set_din (set_size e (din x)) x) ;; sin_upd sin (set_dirty true)) s1 = Ret (tt, put_sin s1 sin x2)) as Hu.
    { step using (by apply sin_upd_run). rewrite (sin_upd_run _ _ (set_din (set_size e (din x1)) x1)) by apply put_sin_at.
      by rewrite put_sin_put. }
    step using (exact Hu). done.
  - rewrite put_sin_same by done. done.
Qed.

(** C3: writing [buf] at [offset] into a file whose last block is not before [offset], up to an end within the
    format's limit of 4144 KB (12 direct and 1024 indirect blocks; beyond it the kernel panics), with enough free
    blocks: the whole buffer is written, the file then holds it at [offset] and has its other bytes
    as before, new bytes around it are zero, its size grows exactly when the end moves, its map stays
    sound, and no block in use that is not the file's has changed. *)
Theorem sfs_write_correct sin s F x buf offset :
  fs_ok s F → inodes s !! sin = Some x → file_ok (disk s) (blocks (super s)) F (din x) →
  type (din x) ≠ SFS_TYPE_DIR → buf ≠ [] → 0 ≤ offset → offset / 4096 ≤ nblocks (din x) →
  let e := offset + Z.of_nat (length buf) in
  let N := Z.max (nblocks (din x)) ((e + 4095) / 4096) in
  e ≤ 4096 * NMAX → cost (din x) N ≤ Z.of_nat (card F) →
  ∃ s' F' x', sfs_io_nolock sin buf offset (Z.of_nat (length buf)) true s = Ret ((0, Z.of_nat (length buf), buf), s') ∧
    fs_ok s' F' ∧ F' ⊆ F ∧ inodes s' = <[sin := x']> (inodes s) ∧
    file_ok (disk s') (blocks (super s')) F' (din x') ∧ nblocks (din x') = N ∧
    size (din x') = Z.max (size (din x)) e ∧
    (∀ p, 0 ≤ p < 4096 * N → file_byte (disk s') (din x') p =
       if decide (offset ≤ p < e) then buf !!! Z.to_nat (p - offset)
       else if decide (p < 4096 * nblocks (din x)) then file_byte (disk s) (din x) p else 0) ∧
    (∀ a, a / 4096 ∉ F → ¬ owns (disk s) (din x) (a / 4096) → byte_at (disk s') a = byte_at (disk s) a).
Proof.
  intros Hok Hx Hf Hty Hne Ho Hb e N Hmax Hc.
  destruct (write_run sin s F x buf offset) as (s1 & F1 & x1 & Hw & Hrun); try done.
  destruct (wrote_at _ _ _ _ _ _ _ _ _ _ Hw) as (Hok1 & Hx1 & Hf1 & Hn1). destruct (w_meta _ _ _ _ _ _ _ _ _ _ Hw) as (Hsz & _).
  destruct (moved_end_spec e x1) as (H1 & H2 & H3 & H4). exists (put_sin s1 sin (moved_end e x1)), F1, (moved_end e x1).
  split_and!; cbn [put_sin set_inodes inodes disk super].
  - done.
  - by apply fs_ok_inodes.
  - apply (w_F _ _ _ _ _ _ _ _ _ _ Hw).
  - rewrite (w_inodes _ _ _ _ _ _ _ _ _ _ Hw). apply insert_insert_eq.
  - by apply H4.
  - by rewrite H2.
  - by rewrite H1, Hsz.
  - intros p Hp. rewrite H3. by apply (w_bytes _ _ _ _ _ _ _ _ _ _ Hw).
  - apply (w_frame _ _ _ _ _ _ _ _ _ _ Hw).
Qed.

End write.

(** * Reading *)

Definition file_bytes (dk : gmap Z Z) (d : sfs_disk_inode) (lo n : Z) : list Z := file_byte dk d <$> seqZ lo n.

Lemma length_file_bytes dk d lo n : 0 ≤ n → Z.of_nat (length (file_bytes dk d lo n)) = n.
Proof. intros. unfold file_bytes. rewrite length_fmap, length_seqZ. lia. Qed.

Lemma file_bytes_app dk d lo n m : 0 ≤ n → 0 ≤ m →
  file_bytes dk d lo (n + m) = file_bytes dk d lo n ++ file_bytes dk d (lo + n) m.
Proof. intros. unfold file_bytes. by rewrite seqZ_app, fmap_app by lia. Qed.

Lemma file_bytes_block dk d i off n :
  0 ≤ off → off + n ≤ 4096 → file_bytes dk d (i * 4096 + off) n = read_bytes dk (bmap dk d i * 4096 + off) n.
Proof.
  intros Ho Hn. unfold file_bytes, read_bytes. apply list_eq. intros k. rewrite !list_lookup_fmap.
  destruct (decide (k < Z.to_nat n)%nat) as [Hk|Hk].
  - rewrite (proj2 (lookup_seqZ _ _ _ (i * 4096 + off + Z.of_nat k))), (proj2 (lookup_seqZ _ _ _ (bmap dk d i * 4096 + off + Z.of_nat k))) by lia.
    simpl. f_equal. unfold file_byte. destruct (block_of_addr i (off + Z.of_nat k)) as [Hd Hm]; [lia|].
    rewrite Z.add_assoc in Hd, Hm. rewrite Hd, Hm. f_equal. lia.
  - rewrite !lookup_seqZ_ge by lia. done.
Qed.

Lemma splice_at P R l : splice (P ++ R) (Z.of_nat (length P)) l = P ++ l ++ drop (length l) R.
Proof.
  unfold splice. rewrite Nat2Z.id, take_app_length. do 2 f_equal.
  rewrite drop_app_ge by lia. f_equal. lia.
Qed.

Section read.
Context `{E : heap_env}.

Lemma chunk_read sin s F x (whole : bool) P R i n off :
  fs_ok s F → inodes s !! sin = Some x → file_ok (disk s) (blocks (super s)) F (din x) →
  0 ≤ i < nblocks (din x) → 0 ≤ off → 0 < n → off + n ≤ 4096 → (whole = true → off = 0 ∧ n = 4096) →
  io_chunk sin false whole (P ++ R) (Z.of_nat (length P)) i n off s =
    Ret ((0, Z.of_nat (length P) + n, P ++ file_bytes (disk s) (din x) (i * 4096 + off) n ++ drop (Z.to_nat n) R), s).
Proof.
  intros Hok Hx Hf Hi Ho Hn Hon Hwh. destruct (f_used _ _ _ _ Hf i Hi) as [Hb _]. set (b := bmap (disk s) (din x) i) in *.
  assert ((if whole then sfs_rblock b 1 else sfs_rbuf n b off) s = Ret ((0, read_bytes (disk s) (b * 4096 + off) n), s)) as Hop.
  { destruct whole; [|apply rbuf_run; [done|lia|lia|lia]]. destruct Hwh as [-> ->]; [done|]. cbn [sfs_rblock].
    step using (by apply rblock_nolock_run). cbn [Z.eqb negb]. step using reflexivity. cbv beta iota.
    rewrite app_nil_r, Z.add_0_r. done. }
  unfold io_chunk. step using (by apply (bmap_load_existing s F sin x)). cbn [Z.eqb negb]. fold b.
  step using (exact Hop). cbn [Z.eqb negb]. rewrite splice_at, file_bytes_block by lia. fold b.
  pose proof (length_read (disk s) (b * 4096 + off) n ltac:(lia)) as Hl. unfold mret, M_ret. do 6 f_equal. lia.
Qed.

Lemma blocks_read sin s F x k : ∀ P R i,
  fs_ok s F → inodes s !! sin = Some x → file_ok (disk s) (blocks (super s)) F (din x) →
  0 ≤ i → i + Z.of_nat k ≤ nblocks (din x) →
  io_blocks sin false k (P ++ R) (Z.of_nat (length P)) i s =
    Ret ((0, Z.of_nat (length P) + 4096 * Z.of_nat k,
          P ++ file_bytes (disk s) (din x) (i * 4096) (4096 * Z.of_nat k) ++ drop (Z.to_nat (4096 * Z.of_nat k)) R), s).
Proof.
  induction k as [|k IH]; intros P R i Hok Hx Hf Hi Hlt.
  - cbn [io_blocks]. change (4096 * Z.of_nat 0) with 0. change (Z.to_nat 0) with O. rewrite drop_0, Z.add_0_r. done.
  - cbn [io_blocks]. change SFS_BLKSIZE with 4096.
    step using (apply (chunk_read sin s F x true P R i 4096 0); try done; lia). cbn [Z.eqb negb].
    rewrite Z.add_0_r. set (B := file_bytes (disk s) (din x) (i * 4096) 4096).
    assert (Z.of_nat (length B) = 4096) as HB by by apply length_file_bytes.
    rewrite (app_assoc P). replace (Z.of_nat (length P) + 4096) with (Z.of_nat (length (P ++ B))) by (rewrite length_app; lia).
    rewrite IH by (done || lia). rewrite length_app, drop_drop, <-app_assoc.
    replace (4096 * Z.of_nat (S k)) with (4096 + 4096 * Z.of_nat k) by lia. rewrite file_bytes_app by lia. fold B. rewrite <-app_assoc.
    replace ((i + 1) * 4096) with (i * 4096 + 4096) by lia. do 4 f_equal; [lia|]. do 3 f_equal. lia.
Qed.

Lemma tail_read sin s F x P R i k endpos :
  fs_ok s F → inodes s !! sin = Some x → file_ok (disk s) (blocks (super s)) F (din x) →
  0 ≤ i → 0 ≤ k → endpos / 4096 = i + k → endpos ≤ 4096 * nblocks (din x) →
  io_tail sin false (P ++ R) (Z.of_nat (length P)) i k endpos s =
    Ret ((0, Z.of_nat (length P) + (endpos - i * 4096),
          P ++ file_bytes (disk s) (din x) (i * 4096) (endpos - i * 4096) ++ drop (Z.to_nat (endpos - i * 4096)) R), s).
Proof.
  intros Hok Hx Hf Hi Hk Hdiv Hmax. destruct (addr_split endpos) as [He Hm]. rewrite Hdiv in He.
  unfold io_tail. change SFS_BLKSIZE with 4096. set (r := endpos mod 4096) in *.
  step using (apply (blocks_read sin s F x); [done|done|done|done|lia]). rewrite Z2Nat.id by lia. cbn [Z.eqb negb].
  destruct (r =? 0) eqn:Er; z_bool; cbn [negb].
  - replace (4096 * k) with (endpos - i * 4096) by lia. done.
  - set (B := file_bytes (disk s) (din x) (i * 4096) (4096 * k)).
    assert (Z.of_nat (length B) = 4096 * k) as HB by (apply length_file_bytes; lia).
    rewrite (app_assoc P). replace (Z.of_nat (length P) + 4096 * k) with (Z.of_nat (length (P ++ B))) by (rewrite length_app; lia).
    rewrite (chunk_read sin s F x) by (done || lia). rewrite length_app, drop_drop, <-app_assoc, Z.add_0_r.
    replace (endpos - i * 4096) with (4096 * k + r) by lia. rewrite file_bytes_app by lia. fold B. rewrite <-app_assoc.
    replace ((i + k) * 4096) with (i * 4096 + 4096 * k) by lia. do 4 f_equal; [lia|]. do 3 f_equal. lia.
Qed.

Lemma phases_read sin s F x R offset endpos :
  fs_ok s F → inodes s !! sin = Some x → file_ok (disk s) (blocks (super s)) F (din x) →
  0 ≤ offset < endpos → endpos ≤ 4096 * nblocks (din x) →
  io_phases sin false R offset endpos s =
    Ret ((0, endpos - offset, file_bytes (disk s) (din x) offset (endpos - offset) ++ drop (Z.to_nat (endpos - offset)) R), s).
Proof.
  intros Hok Hx Hf Ho Hmax. destruct (addr_split offset) as [Hos Hom]. destruct (addr_split endpos) as [Hes Hem].
  unfold io_phases. change SFS_BLKSIZE with 4096. set (i := offset / 4096) in *. set (off := offset mod 4096) in *.
  set (j := endpos / 4096) in *. assert (0 ≤ i) by (apply Z.div_pos; lia). assert (i ≤ j) as Hij by lia.
  destruct (off =? 0) eqn:E0; z_bool; cbn [negb].
  - rewrite (tail_read sin s F x [] R) by (done || lia). replace (i * 4096) with offset by lia. done.
  - destruct (decide (j = i)) as [Hji|Hji].
    + replace (j - i) with 0 by lia. cbn [Z.eqb negb].
      step using (apply (chunk_read sin s F x false [] R); try done; lia). cbn [Z.eqb negb orb].
      replace (i * 4096 + off) with offset by lia. done.
    + rewrite (proj2 (Z.eqb_neq (j - i) 0)) by lia. cbn [negb].
      step using (apply (chunk_read sin s F x false [] R); try done; lia). cbn [Z.eqb negb orb].
      replace (i * 4096 + off) with offset by lia. set (B := file_bytes (disk s) (din x) offset (4096 - off)).
      assert (Z.of_nat (length B) = 4096 - off) as HB by (apply length_file_bytes; lia).
      rewrite app_nil_l. change (Z.of_nat (length [])) with 0. rewrite Z.add_0_l. rewrite <-HB.
      rewrite (tail_read sin s F x B) by (done || lia). rewrite drop_drop.
      replace (endpos - offset) with ((4096 - off) + (endpos - (i + 1) * 4096)) by lia. rewrite file_bytes_app by lia. fold B.
      replace (offset + (4096 - off)) with ((i + 1) * 4096) by lia. rewrite <-app_assoc. do 4 f_equal; [lia|]. do 2 f_equal. lia.
Qed.

Lemma read_run sin s F x buf offset len :
  fs_ok s F → inodes s !! sin = Some x → file_ok (disk s) (blocks (super s)) F (din x) →
  type (din x) ≠ SFS_TYPE_DIR → size (din x) ≤ 4096 * nblocks (din x) →
  0 ≤ offset < SFS_MAX_FILE_SIZE → 0 ≤ len → offset + len < 2 ^ 31 →
  let n := Z.max 0 (Z.min (offset + len) (size (din x)) - offset) in
  sfs_io_nolock sin buf offset len false s =
    Ret ((0, n, file_bytes (disk s) (din x) offset n ++ drop (Z.to_nat n) buf), s).
Proof.
  intros Hok Hx Hf Hty Hsz Ho Hl Hle n. pose proof (f_n _ _ _ _ Hf) as HN. unfold NMAX in HN.
  change SFS_MAX_FILE_SIZE with 134217728 in *. unfold sfs_io_nolock. step using (by apply din_of_run).
  step using (unfold assert; rewrite (proj2 (Z.eqb_neq _ _)) by done; reflexivity).
  rewrite s32_small by lia. cbv zeta. change SFS_MAX_FILE_SIZE with 134217728. set (e := offset + len) in *.
  rewrite (proj2 (Z.ltb_ge offset 0)), (proj2 (Z.leb_gt 134217728 offset)), (proj2 (Z.ltb_ge e offset)) by lia. cbn [orb].
  destruct (decide (offset < e ∧ offset < size (din x))) as [[H1 H2]|Hnone].
  - rewrite (proj2 (Z.eqb_neq offset e)), (proj2 (Z.leb_gt _ offset)) by lia. cbn [negb andb].
    assert ((if size (din x) <? (if 134217728 <? e then 134217728 else e) then size (din x) else if 134217728 <? e then 134217728 else e)
      = Z.min e (size (din x))) as -> by (destruct (134217728 <? e) eqn:?; case_match; z_bool; lia).
    step using (apply (phases_read sin s F x); [done|done|done|lia|lia]). cbv beta iota.
    step using (by apply din_of_run). replace (Z.min e (size (din x)) - offset) with n by lia.
    rewrite u32_small by lia. rewrite (proj2 (Z.ltb_ge (size (din x)) (offset + n))) by lia. done.
  - replace n with 0 by lia. change (Z.to_nat 0) with O. rewrite drop_0. change (file_bytes (disk s) (din x) offset 0) with (@nil Z).
    destruct (offset =? e) eqn:Ee; z_bool; [done|]. rewrite (proj2 (Z.leb_le _ offset)) by lia. done.
Qed.

(** Reading gives exactly the bytes of the file in the range asked for, cut at the end of the
    file, reports how many they are, and changes neither the file system nor the rest of the buffer. *)
Theorem sfs_read_correct sin s F x buf offset len :
  fs_ok s F → inodes s !! sin = Some x → file_ok (disk s) (blocks (super s)) F (din x) →
  type (din x) ≠ SFS_TYPE_DIR → size (din x) ≤ 4096 * nblocks (din x) →
  0 ≤ offset < SFS_MAX_FILE_SIZE → 0 ≤ len → offset + len < 2 ^ 31 → Z.of_nat (length buf) = len →
  ∃ n buf', sfs_io_nolock sin buf offset len false s = Ret ((0, n, buf'), s) ∧
    n = Z.max 0 (Z.min (offset + len) (size (din x)) - offset) ∧ length buf' = length buf ∧
    (∀ k, 0 ≤ k < len → buf' !!! Z.to_nat k =
       if decide (k < n) then file_byte (disk s) (din x) (offset + k) else buf !!! Z.to_nat k).
Proof.
  intros Hok Hx Hf Hty Hsz Ho Hl Hle Hlen. rewrite (read_run sin s F x) by done. cbv zeta.
  set (n := Z.max 0 (Z.min (offset + len) (size (din x)) - offset)). eexists n, _. split_and!; [done|done| |].
  - pose proof (length_file_bytes (disk s) (din x) offset n ltac:(lia)). rewrite length_app, length_drop. lia.
  - intros k Hk. pose proof (length_file_bytes (disk s) (din x) offset n ltac:(lia)) as Hfl. case_decide as Hkn.
    + rewrite lookup_total_app_l by lia. apply list_lookup_total_correct. unfold file_bytes. rewrite list_lookup_fmap.
      rewrite (proj2 (lookup_seqZ _ _ _ (offset + k))) by lia. done.
    + rewrite lookup_total_app_r by lia. rewrite lookup_total_drop. f_equal. lia.
Qed.

(** C4: what has been written can be read back: after a write the same range reads as the bytes
    written, whatever the buffer held. *)
Theorem sfs_write_read sin s F x buf offset :
  fs_ok s F → inodes s !! sin = Some x → file_ok (disk s) (blocks (super s)) F (din x) →
  type (din x) ≠ SFS_TYPE_DIR → 0 ≤ size (din x) ≤ 4096 * nblocks (din x) →
  buf ≠ [] → 0 ≤ offset → offset / 4096 ≤ nblocks (din x) →
  let e := offset + Z.of_nat (length buf) in
  e ≤ 4096 * NMAX → cost (din x) (Z.max (nblocks (din x)) ((e + 4095) / 4096)) ≤ Z.of_nat (card F) →
  ∃ s', sfs_io_nolock sin buf offset (Z.of_nat (length buf)) true s = Ret ((0, Z.of_nat (length buf), buf), s') ∧
    ∀ r, length r = length buf →
      sfs_io_nolock sin r offset (Z.of_nat (length buf)) false s' = Ret ((0, Z.of_nat (length buf), buf), s').
Proof.
  intros Hok Hx Hf Hty Hsz Hne Ho Hb e Hmax Hc. set (N := Z.max (nblocks (din x)) ((e + 4095) / 4096)) in *.
  destruct (write_run sin s F x buf offset) as (s1 & F1 & x1 & Hw & Hrun); try done.
  destruct (wrote_at _ _ _ _ _ _ _ _ _ _ Hw) as (Hok1 & Hx1 & Hf1 & Hn1).
  destruct (w_meta _ _ _ _ _ _ _ _ _ _ Hw) as (Hs1 & Ht1 & _). destruct (moved_end_spec e x1) as (H1 & H2 & H3 & H4).
  assert (type (din (moved_end e x1)) = type (din x)) as Ht2 by (unfold moved_end; by case_match).
  assert (nblocks (din x) ≤ N) as HnN by lia.
  assert (e ≤ 4096 * N) as HeN.
  { pose proof (Z.div_mod (e + 4095) 4096). pose proof (Z.mod_pos_bound (e + 4095) 4096). lia. }
  exists (put_sin s1 sin (moved_end e x1)). split; [done|]. intros r Hr. set (len := Z.of_nat (length buf)) in *.
  change (4096 * NMAX) with 4243456 in Hmax.
  rewrite (read_run sin _ F1 (moved_end e x1)); [|by apply fs_ok_inodes|apply put_sin_at|by apply H4|by rewrite Ht2|rewrite H1, H2, Hs1, Hn1; fold e N; lia|change SFS_MAX_FILE_SIZE with 134217728; lia|lia|lia].
  replace (Z.max 0 _) with len by lia. do 4 f_equal. rewrite drop_ge, app_nil_r by lia.
  apply list_eq. intros k. unfold file_bytes. rewrite list_lookup_fmap. destruct (decide (k < length buf)%nat) as [Hk|Hk].
  - rewrite (proj2 (lookup_seqZ _ _ _ (offset + Z.of_nat k))) by lia. simpl. rewrite H3.
    assert (0 ≤ offset + Z.of_nat k < 4096 * N) as Hp by lia.
    rewrite (w_bytes _ _ _ _ _ _ _ _ _ _ Hw _ Hp). rewrite decide_True by lia.
    replace (Z.to_nat _) with k by lia. symmetry. by apply list_lookup_lookup_total_lt.
  - rewrite lookup_seqZ_ge by lia. symmetry. apply lookup_ge_None. lia.
Qed.

End read.

(** * An example: a file system of 32 blocks, those from 8 on free, with an empty file at block 5 *)

#[local] Instance demo_heap : heap_env := {| heap_addr := λ _ _, Some 0; heap_bytes := λ _, replicate 4096 0; undef := 0 |}.

Definition demo_sin : sfs_inode := mkSin (mkDin 0 SFS_TYPE_FILE 1 0 (replicate 12 0) 0) false 1 1 1.
Definition demo_fs : sfs_fs :=
  mkSfs (mkSuper SFS_MAGIC 32 24 (replicate 32 0)) false (mkBitmap 32 1 [0xFFFFFF00]) ∅ {[5 := demo_sin]} (mkLog 0 0).
Definition demo_F : gset Z := list_to_set (seqZ 8 24).

Lemma demo_free_bits i : 0 ≤ i < 32 → Z.testbit 0xFFFFFF00 i = bool_decide (8 ≤ i).
Proof.
  intros Hi. assert (Forall (λ i, Z.testbit 0xFFFFFF00 i = bool_decide (8 ≤ i)) (seqZ 0 32)) as Hall by (vm_compute; repeat constructor).
  rewrite Forall_forall in Hall. apply Hall, elem_of_seqZ. lia.
Qed.

Lemma demo_fs_ok : fs_ok demo_fs demo_F.
Proof.
  assert (∀ i, free (freemap demo_fs) i ↔ 8 ≤ i < 32) as Hfree.
  { intros i. unfold free. cbn [freemap demo_fs map]. split.
    - intros (Hi & w & Hw & Hb). destruct (split_index i Hi) as [Heq Hm]. destruct (Z.to_nat (i / 32)) as [|n] eqn:En; [|by destruct n].
      simpl in Hw. injection Hw as <-. rewrite demo_free_bits in Hb by done. apply bool_decide_eq_true in Hb. lia.
    - intros Hi. split; [lia|]. exists 0xFFFFFF00. rewrite Z.div_small, Z.mod_small by lia. split; [done|].
      rewrite demo_free_bits by lia. apply bool_decide_eq_true. lia. }
  split.
  - split; [done| |done|].
    + intros [|[|i]] w Hw; simplify_eq/=; lia.
    + intros i Hi. apply Hfree in Hi. simpl. lia.
  - done.
  - intros i. rewrite Hfree. unfold demo_F. rewrite elem_of_list_to_set, elem_of_seqZ. lia.
  - intros i. unfold demo_F. rewrite elem_of_list_to_set, elem_of_seqZ. simpl. lia.
  - done.
Qed.

Lemma demo_file_ok : file_ok (disk demo_fs) (blocks (super demo_fs)) demo_F (din demo_sin).
Proof.
  split; cbn [nblocks demo_sin din direct indirect]; try done; try lia.
  intros i Hi. unfold bmap. cbn [direct indirect]. destruct (decide (i < 12)); [|by rewrite decide_True].
  apply lookup_total_replicate_2. lia.
Qed.

Lemma bmap_load_correct_witness :
  ∃ b s' F' x', sfs_bmap_load_nolock 5 0 demo_fs = Ret ((0, b), s') ∧ appended 5 demo_fs demo_F demo_sin b s' F' x'.
Proof.
  destruct (bmap_load_correct demo_fs demo_F 5 demo_sin 0 demo_fs_ok eq_refl demo_file_ok ltac:(done)) as (_ & H & _).
  apply H; [done|done|]. done.
Defined.

Lemma sfs_write_correct_witness :
  ∃ s' F' x', sfs_io_nolock 5 [1; 2; 3] 0 3 true demo_fs = Ret ((0, 3, [1; 2; 3]), s') ∧ size (din x') = 3 ∧ fs_ok s' F'.
Proof.
  destruct (sfs_write_correct 5 demo_fs demo_F demo_sin [1; 2; 3] 0 demo_fs_ok eq_refl demo_file_ok) as
    (s' & F' & x' & Hrun & Hok & _ & _ & _ & _ & Hsz & _); try done.
  exists s', F', x'. split_and!; [exact Hrun|exact Hsz|exact Hok].
Defined.

Lemma sfs_read_correct_witness :
  ∃ buf', sfs_io_nolock 5 [9; 9] 0 2 false demo_fs = Ret ((0, 0, buf'), demo_fs) ∧ length buf' = 2%nat.
Proof.
  destruct (sfs_read_correct 5 demo_fs demo_F demo_sin [9; 9] 0 2 demo_fs_ok eq_refl demo_file_ok) as
    (n & buf' & Hrun & -> & Hlen & _); try done.
  exists buf'. split; [exact Hrun|exact Hlen].
Defined.

Lemma sfs_write_read_witness :
  ∃ s', sfs_io_nolock 5 [1; 2; 3] 0 3 true demo_fs = Ret ((0, 3, [1; 2; 3]), s') ∧
    sfs_io_nolock 5 [0; 0; 0] 0 3 false s' = Ret ((0, 3, [1; 2; 3]), s').
Proof.
  destruct (sfs_write_read 5 demo_fs demo_F demo_sin [1; 2; 3] 0 demo_fs_ok eq_refl demo_file_ok) as (s' & Hrun & Hread); try done.
  exists s'. split; [exact Hrun|exact (Hread [0; 0; 0] eq_refl)].
Defined.

End SfsFile.
