(* ===== verification/SfsDir.v ===== *)
(** The directory operations of kern/fs/sfs/sfs_inode.c and the file system operations of
    kern/fs/sfs/sfs_fs.c.

    A name is the list of its characters without the terminating NUL.  Entries and inodes that the code
    builds in memory from [kmalloc] and writes with [sfs_wblock] are written with the bytes that follow
    them in the heap, as the code does: the transfer is of a whole block. *)
From S2P Require Import Prelude Bitmap SfsDisk Iobuf SfsInode.

Module SfsDir.
Import Bitmap SfsDisk Iobuf SfsInode.
Set Default Proof Using "Type".

Section dir.
Context `{E : heap_env}.

(** * Reading a directory *)

Definition sfs_dirent_read_nolock (sin slot : Z) : M sfs_fs (Z * sfs_disk_entry) :=
  d ← din_of sin;
  assert ((type d =? SFS_TYPE_DIR) && (0 <=? slot) && (slot <? nblocks d)) ;;
  '(ret, ino) ← sfs_bmap_load_nolock sin slot;
  if negb (ret =? 0) then mret (ret, mkEntry undef []) else
  b ← sfs_block_inuse ino; assert b ;;
  '(ret, l) ← sfs_rbuf entry_bytes ino 0;
  if negb (ret =? 0) then mret (ret, mkEntry undef []) else
  let e := decode_entry l in
  mret (0, mkEntry (e_ino e) (<[Z.to_nat SFS_MAX_FNAME_LEN := 0]> (e_name e))).

(** The loop of [sfs_dirent_search_nolock]: the result, [*ino_store], [*slot] and [*empty_slot]. *)
Fixpoint search_loop (sin : Z) (name : list Z) (n : nat) (i empty : Z) : M sfs_fs (Z * Z * Z * Z) :=
  match n with
  | O => mret (- E_NOENT, undef, undef, empty)
  | S n' =>
      '(ret, e) ← sfs_dirent_read_nolock sin i;
      if negb (ret =? 0) then mret (ret, undef, undef, empty)
      else if e_ino e =? 0 then search_loop sin name n' (i + 1) i
      else if bool_decide (name = cstring (e_name e)) then mret (0, e_ino e, i, empty)
      else search_loop sin name n' (i + 1) empty
  end.

Definition sfs_dirent_search_nolock (sin : Z) (name : list Z) : M sfs_fs (Z * Z * Z * Z) :=
  assert (Z.of_nat (length name) <=? SFS_MAX_FNAME_LEN) ;;
  k ← kmalloc entry_bytes;
  match k with
  | None => mret (- E_NO_MEM, undef, undef, undef)
  | Some _ =>
      d ← din_of sin;
      let nslots := s32 (nblocks d) in
      r ← search_loop sin name (Z.to_nat nslots) 0 nslots;
      kfree ;; mret r
  end.

Fixpoint findino_loop (sin ino : Z) (n : nat) (i : Z) : M sfs_fs (Z * sfs_disk_entry) :=
  match n with
  | O => mret (- E_NOENT, mkEntry undef [])
  | S n' =>
      '(ret, e) ← sfs_dirent_read_nolock sin i;
      if negb (ret =? 0) then mret (ret, e)
      else if e_ino e =? ino then mret (0, e)
      else findino_loop sin ino n' (i + 1)
  end.

Definition sfs_dirent_findino_nolock (sin ino : Z) : M sfs_fs (Z * sfs_disk_entry) :=
  d ← din_of sin; findino_loop sin ino (Z.to_nat (s32 (nblocks d))) 0.

(** [sfs_lookup_once]: the result, the inode and [*slot]. *)
Definition sfs_lookup_once (sin : Z) (name : list Z) : M sfs_fs (Z * Z * Z) :=
  '(ret, ino, slot, _) ← sfs_dirent_search_nolock sin name;
  if ret =? 0 then ret ← sfs_load_inode ino; mret (ret, ino, slot)
  else mret (ret, ino, slot).

Definition dots : list Z := [46; 46].

(** The loop of [sfs_namefile]: [ptr] and [resid] run down as names are put in front.  Each round but
    the last takes at least one byte of [resid], so that [resid + 2] rounds are enough. *)
Fixpoint name_loop (fuel : nat) (m : gmap Z Z) (node ptr resid : Z) : M sfs_fs (Z * (gmap Z Z * Z * Z)) :=
  match fuel with
  | O => fail EFuel
  | S fuel =>
      '(ret, parent, _) ← sfs_lookup_once node dots;
      if negb (ret =? 0) then _ ← inode_ref_dec node; mret (ret, (m, ptr, resid)) else
      _ ← inode_ref_dec node;
      if node =? parent then _ ← inode_ref_dec node; mret (0, (m, ptr, resid)) else
      d ← din_of parent;
      assert (type d =? SFS_TYPE_DIR) ;;
      '(ret, e) ← sfs_dirent_findino_nolock parent node;
      if negb (ret =? 0) then _ ← inode_ref_dec parent; mret (ret, (m, ptr, resid)) else
      let name := cstring (e_name e) in
      let alen := Z.of_nat (length name) + 1 in
      if resid <? alen then _ ← inode_ref_dec parent; mret (- E_NO_MEM, (m, ptr, resid)) else
      name_loop fuel (write_bytes m (ptr - alen) (name ++ [47])) parent (ptr - alen) (resid - alen)
  end.

Definition sfs_namefile (node : Z) (mi : gmap Z Z * iobuf) : M sfs_fs (Z * (gmap Z Z * iobuf)) :=
  let '(m, iob) := mi in
  if io_resid iob <=? 2 then mret (- E_NO_MEM, mi) else
  k ← kmalloc entry_bytes;
  match k with
  | None => mret (- E_NO_MEM, mi)
  | Some _ =>
      let resid := io_resid iob - 2 in
      _ ← inode_ref_inc node;
      '(ret, (m, ptr, resid)) ← name_loop (Z.to_nat resid + 2) m node (io_base iob + io_resid iob) resid;
      if negb (ret =? 0) then kfree ;; mret (ret, (m, iob)) else
      let alen := io_resid iob - resid - 2 in
      let m := write_bytes m (io_base iob + 1) (read_bytes m ptr alen) in
      let m := write_bytes (write_bytes m (io_base iob) [47]) (io_base iob + 1 + alen) [0] in
      match iobuf_skip alen (m, iob) with
      | Ret (_, mi') => kfree ;; mret (0, mi')
      | Err e => fail e
      end
  end.

Fixpoint getdirentry_loop (sin slot : Z) (n : nat) (i : Z) : M sfs_fs (Z * sfs_disk_entry) :=
  match n with
  | O => mret (- E_NOENT, mkEntry undef [])
  | S n' =>
      '(ret, e) ← sfs_dirent_read_nolock sin i;
      if negb (ret =? 0) then mret (ret, e)
      else if negb (e_ino e =? 0) then
        (if slot =? 0 then mret (0, e) else getdirentry_loop sin (slot - 1) n' (i + 1))
      else getdirentry_loop sin slot n' (i + 1)
  end.

Definition sfs_getdirentry_sub_nolock (sin slot : Z) : M sfs_fs (Z * sfs_disk_entry) :=
  d ← din_of sin; getdirentry_loop sin slot (Z.to_nat (s32 (nblocks d))) 0.

(** [sfs_getdirentry]: the entry is in the heap, at the address [kmalloc] gave, 4 bytes before its name. *)
Definition sfs_getdirentry (node : Z) (mi : gmap Z Z * iobuf) : M sfs_fs (Z * (gmap Z Z * iobuf)) :=
  k ← kmalloc entry_bytes;
  match k with
  | None => mret (- E_NO_MEM, mi)
  | Some (addr, _) =>
      let offset := io_offset mi.2 in
      if (offset <? 0) || negb (offset mod sfs_dentry_size =? 0) then kfree ;; mret (- E_INVAL, mi) else
      let slot := offset / sfs_dentry_size in
      d ← din_of node;
      if nblocks d <? slot then kfree ;; mret (- E_NOENT, mi) else
      '(ret, e) ← sfs_getdirentry_sub_nolock node slot;
      if negb (ret =? 0) then kfree ;; mret (ret, mi) else
      match iobuf_move (addr + 4) sfs_dentry_size true (write_bytes mi.1 (addr + 4) (e_name e), mi.2) with
      | Ret ((ret, _), mi') => kfree ;; mret (ret, mi')
      | Err e => fail e
      end
  end.

Definition sfs_lookup (node : Z) (path : list Z) : M sfs_fs (Z * Z) :=
  assert (match path with [] => false | c :: _ => negb (c =? 47) end) ;;
  _ ← inode_ref_inc node;
  d ← din_of node;
  if negb (type d =? SFS_TYPE_DIR) then _ ← inode_ref_dec node; mret (- E_NOTDIR, undef) else
  '(ret, subnode, _) ← sfs_lookup_once node path;
  _ ← inode_ref_dec node;
  mret (ret, if ret =? 0 then subnode else undef).

(** * Changing a directory *)

(** The entry that [sfs_create] and [sfs_mkdir] build in the heap ([limit] is 256) and [sfs_rename]
    ([limit] is 255): the number, the characters up to [limit] of them, a NUL, and what the heap holds. *)
Definition entry_page (ino : Z) (name : list Z) (limit : nat) (heap : list Z) : list Z :=
  le 4 ino ++ take limit name ++ [0] ++ drop (5 + length (take limit name)) heap.

Definition inode_page (d : sfs_disk_inode) (heap : list Z) : list Z := encode_inode d ++ drop 64 heap.

(** What the functions do last: [vop_fsync] of the directory, then the super block and the map. *)
Definition flush (sin ret : Z) : M sfs_fs Z :=
  _ ← vop_fsync sin;
  s ← get;
  if super_dirty s then
    modify (λ s, set_super s (super s) false) ;;
    _ ← sfs_sync_super; sfs_sync_freemap
  else mret ret.

Definition sfs_create (node : Z) (name : list Z) : M sfs_fs (Z * option Z) :=
  _ ← inode_ref_inc node;
  d ← din_of node;
  if negb (type d =? SFS_TYPE_DIR) then _ ← inode_ref_dec node; mret (- E_NOTDIR, None) else
  '(_, indexAddr) ← sfs_bmap_get_nolock node (nblocks d) true;
  '(_, fileNodeAddr) ← sfs_block_alloc;
  k1 ← kmalloc entry_bytes;
  h1 ← deref (λ _, snd <$> k1);
  k2 ← kmalloc inode_bytes;
  h2 ← deref (λ _, snd <$> k2);
  let newBlkInode := mkDin 0 SFS_TYPE_FILE 1 0 (replicate 12 0) 0 in
  ret ← sfs_wblock (entry_page fileNodeAddr name 256 h1) indexAddr 1;
  assert (ret =? 0) ;;
  ret ← sfs_wblock (inode_page newBlkInode h2) fileNodeAddr 1;
  assert (ret =? 0) ;;
  ld ← sfs_load_inode fileNodeAddr;
  din_upd node (λ d, set_nblocks (u32 (nblocks d + 1)) d) ;;
  sin_upd node (set_dirty true) ;;
  ret ← flush node ret;
  _ ← inode_ref_dec node;
  mret (ret, if ld =? 0 then Some fileNodeAddr else None).

Definition sfs_mkdir (node : Z) (name : list Z) : M sfs_fs Z :=
  _ ← inode_ref_inc node;
  d ← din_of node;
  if negb (type d =? SFS_TYPE_DIR) then _ ← inode_ref_dec node; mret (- E_NOTDIR) else
  '(_, indexAddr) ← sfs_bmap_get_nolock node (nblocks d) true;
  '(_, newDirNodeAddr) ← sfs_block_alloc;
  '(_, newDirIndirectAddr) ← sfs_block_alloc;
  k1 ← kmalloc inode_bytes;
  h1 ← deref (λ _, snd <$> k1);
  let newBlkInode := mkDin 4096 SFS_TYPE_DIR 1 0 (replicate 12 0) newDirIndirectAddr in
  k2 ← kmalloc entry_bytes;
  h2 ← deref (λ _, snd <$> k2);
  din_upd node (λ d, set_nblocks (u32 (nblocks d + 1)) d) ;;
  sin_upd node (set_dirty true) ;;
  _ ← sfs_wblock (entry_page newDirNodeAddr name 256 h2) indexAddr 1;
  ret ← sfs_wblock (inode_page newBlkInode h1) newDirNodeAddr 1;
  ret ← flush node ret;
  _ ← inode_ref_dec node;
  mret ret.

Definition sfs_dir_entry_replace (sin src_slot des_slot : Z) : M sfs_fs Z :=
  d ← din_of sin;
  let ent := indirect d in
  let offset slot := s32 (u32 ((slot - 12) * 4)) in
  '(ret, src) ←
    (if src_slot <? 12 then
       src ← deref (λ _, direct d !! Z.to_nat src_slot);
       din_upd sin (set_direct src_slot 0) ;; mret (0, src)
     else
       '(ret, l) ← sfs_rbuf 4 ent (offset src_slot);
       if negb (ret =? 0) then mret (ret, undef) else
       ret ← sfs_wbuf (le 4 0) ent (offset src_slot); mret (ret, unle l));
  if negb (ret =? 0) then mret ret else
  if des_slot <? 12 then din_upd sin (set_direct des_slot src) ;; mret 0
  else sfs_wbuf (le 4 src) ent (offset des_slot).

(** The loop that [sfs_delete] runs for the blocks of the file. *)
Fixpoint delete_loop (sin : Z) (n : nat) : M sfs_fs unit :=
  match n with
  | O => mret tt
  | S n' => _ ← sfs_bmap_truncate_nolock sin; delete_loop sin n'
  end.

(** The part of [sfs_delete] that files and directories share: the inode block is freed, the entry's
    block is freed, the last entry takes its slot, and everything is flushed. *)
Definition delete_entry (sin : Z) (name : list Z) (slot ret : Z) : M sfs_fs Z :=
  '(_, ino_index, _, _) ← sfs_dirent_search_nolock sin name;
  sfs_block_free ino_index ;;
  _ ← sfs_bmap_free_nolock sin slot;
  d ← din_of sin;
  _ ← sfs_dir_entry_replace sin (u32 (nblocks d - 1)) slot;
  din_upd sin (λ d, set_nblocks (u32 (nblocks d - 1)) d) ;;
  sin_upd sin (set_dirty true) ;;
  flush sin ret.

Definition sfs_delete (node : Z) (name : list Z) (ty : Z) : M sfs_fs Z :=
  _ ← inode_ref_inc node;
  if ty =? 1 then
    d ← din_of node;
    if negb (type d =? SFS_TYPE_DIR) then _ ← inode_ref_dec node; mret (- E_NOTDIR) else
    '(ret, file, file_slot) ← sfs_lookup_once node name;
    if negb (ret =? 0) then mret ret else
    fd ← din_of file;
    delete_loop node (Z.to_nat (s32 (nblocks fd))) ;;
    ret ← delete_entry node name file_slot ret;
    _ ← inode_ref_dec node; mret ret
  else if ty =? 2 then
    '(ret, dir, dir_slot) ← sfs_lookup_once node name;
    if negb (ret =? 0) then mret ret else
    dd ← din_of dir;
    sfs_block_free (indirect dd) ;;
    ret ← delete_entry node name dir_slot ret;
    _ ← inode_ref_dec node; mret ret
  else _ ← inode_ref_dec node; mret undef.

Definition sfs_rename (node : Z) (old_name new_name : list Z) : M sfs_fs Z :=
  _ ← inode_ref_inc node;
  d ← din_of node;
  if negb (type d =? SFS_TYPE_DIR) then _ ← inode_ref_dec node; mret (- E_NOTDIR) else
  '(ret, rename_node, rename_slot) ← sfs_lookup_once node old_name;
  if negb (ret =? 0) then mret ret else
  '(_, ino_entry_index) ← sfs_bmap_load_nolock node rename_slot;
  k ← kmalloc entry_bytes;
  h ← deref (λ _, snd <$> k);
  _ ← sfs_clear_block ino_entry_index 1;
  ret ← sfs_wblock (entry_page rename_node new_name 255 h) ino_entry_index 1;
  sin_upd node (set_dirty true) ;;
  _ ← vop_fsync node;
  _ ← inode_ref_dec node;
  mret ret.

(** * kern/fs/sfs/sfs_fs.c *)

Fixpoint sync_inodes (l : list Z) : M sfs_fs unit :=
  match l with
  | [] => mret tt
  | i :: l' => _ ← vop_fsync i; sync_inodes l'
  end.

Definition sfs_sync : M sfs_fs Z :=
  s ← get;
  sync_inodes (elements (dom (inodes s))) ;;
  s ← get;
  if super_dirty s then
    let set_sd b := modify (λ s, set_super s (super s) b) in
    set_sd false ;;
    ret ← sfs_sync_super;
    if negb (ret =? 0) then set_sd true ;; mret ret else
    ret ← sfs_sync_freemap;
    if negb (ret =? 0) then set_sd true ;; mret ret else mret 0
  else mret 0.

Definition sfs_get_root : M sfs_fs Z :=
  ret ← sfs_load_inode SFS_BLKN_ROOT;
  if negb (ret =? 0) then fail EPanic else mret SFS_BLKN_ROOT.

Definition sfs_unmount : M sfs_fs Z :=
  s ← get;
  if negb (bool_decide (inodes s = ∅)) then mret (- E_BUSY) else
  assert (negb (super_dirty s)) ;; mret 0.

Fixpoint cleanup_loop (n : nat) : M sfs_fs unit :=
  match n with
  | O => mret tt
  | S n' => ret ← sfs_sync; if ret =? 0 then mret tt else cleanup_loop n'
  end.

Definition sfs_cleanup : M sfs_fs unit := cleanup_loop 32.

End dir.

(** ** Mounting *)

(** A block device: its size in blocks, the size of its blocks, its content. *)
Record device := mkDev { d_blocks : Z; d_blocksize : Z; d_bytes : gmap Z Z }.

Definition E_NA_DEV : Z := 14.
Definition SFS_HLIST_SIZE : Z := 1024.

(** [sfs_init_read] through [disk0_io] of kern/fs/devs/dev_disk0.c. *)
Definition sfs_init_read (dev : device) (blkno : Z) : Z * list Z :=
  if d_blocks dev <? u32 (blkno + 1) then (- E_INVAL, [])
  else (0, read_bytes (d_bytes dev) (blkno * SFS_BLKSIZE) SFS_BLKSIZE).

(** The words of a freemap block. *)
Fixpoint words (n : nat) (l : list Z) : list Z :=
  match n with
  | O => []
  | S n' => unle (take 4 l) :: words n' (drop 4 l)
  end.

Fixpoint read_freemap (dev : device) (blkno : Z) (nblks : nat) : Z * list Z :=
  match nblks with
  | O => (0, [])
  | S n =>
      let '(ret, l) := sfs_init_read dev blkno in
      if negb (ret =? 0) then (ret, []) else
      let '(ret', ws) := read_freemap dev (blkno + 1) n in (ret', words 1024 l ++ ws)
  end.

Definition sfs_init_freemap (dev : device) (b : bitmap) (blkno nblks : Z) : res (Z * bitmap) :=
  let '(_, len) := bitmap_getdata b in
  if negb (len =? nblks * SFS_BLKSIZE) then Err EPanic else
  let '(ret, ws) := read_freemap dev blkno (Z.to_nat nblks) in
  Ret (ret, if ret =? 0 then mkBitmap (nbits b) (nwords b) ws else b).

Fixpoint count_free (n : nat) (i acc : Z) : M bitmap Z :=
  match n with
  | O => mret acc
  | S n' => b ← bitmap_test i; count_free n' (i + 1) (if (b : bool) then acc + 1 else acc)
  end.

Definition sfs_freemap_bits (s : sfs_super) : Z := ROUNDUP (blocks s) SFS_BLKBITS.

Definition decode_super (l : list Z) : sfs_super :=
  mkSuper (int_at l 0 4) (int_at l 4 4) (int_at l 8 4) (<[Z.to_nat SFS_MAX_INFO_LEN := 0]> (bytes l 12 32)).

(** [sfs_do_mount]; the booleans are the outcomes of [alloc_fs] and of the calls of [kmalloc] for the
    buffer, the hash list and the two parts of the map. *)
Definition sfs_do_mount (k_fs k_buf k_hash k_b1 k_b2 : bool) (dev : device) : res (Z * option sfs_fs) :=
  if negb (d_blocksize dev =? SFS_BLKSIZE) then Ret (- E_NA_DEV, None)
  else if negb k_fs then Ret (- E_NO_MEM, None)
  else if negb k_buf then Ret (- E_NO_MEM, None)
  else
    let '(ret, l) := sfs_init_read dev SFS_BLKN_SUPER in
    if negb (ret =? 0) then Ret (ret, None) else
    let super := decode_super l in
    if negb (magic super =? SFS_MAGIC) then Ret (- E_INVAL, None)
    else if d_blocks dev <? blocks super then Ret (- E_INVAL, None)
    else if negb k_hash then Ret (- E_NO_MEM, None)
    else
      ob ← bitmap_create k_b1 k_b2 (sfs_freemap_bits super);
      match ob with
      | None => Ret (- E_NO_MEM, None)
      | Some fmap =>
          '(ret, fmap) ← sfs_init_freemap dev fmap SFS_BLKN_FREEMAP (sfs_freemap_blocks super);
          if negb (ret =? 0) then Ret (ret, None) else
          '(unused, fmap) ← count_free (Z.to_nat (sfs_freemap_bits super)) 0 0 fmap;
          if negb (u32 unused =? unused_blocks super) then Err EPanic else
          Ret (0, Some (mkSfs super false fmap (d_bytes dev) ∅ (mkLog 0 0)))
      end.

End SfsDir.
