(* ===== verification/Mksfs.v ===== *)
(** The tool that builds the disk images, tools/mksfs.c: it copies a directory of the host into a new file system.

    The directory of the host is a tree, in the order in which [readdir] lists it.  An inode or a block in the memory
    of the tool is named by its number on the disk, which [sfs_alloc_ino] gives out once.  [bug] ends the tool. *)
From S2P Require Import Prelude Bitmap SfsDisk SfsInode SfsFile.

Module Mksfs.
Import SfsDisk.
Set Default Proof Using "Type".

(** * Data *)

Definition GOLDEN_RATIO_PRIME_32 : Z := 0x9e370001.
Definition HASH_SHIFT : Z := 10.
Definition HASH_LIST_SIZE : Z := Z.shiftl 1 HASH_SHIFT.
Definition __hash32 (val bits : Z) : Z := Z.shiftr (u32 (val * GOLDEN_RATIO_PRIME_32)) (32 - bits).
Definition hash32 (val : Z) : Z := __hash32 val HASH_SHIFT.
Definition hash64 (val : Z) : Z := __hash32 (u32 val) HASH_SHIFT.

Definition SFS_MAX_NBLKS : Z := 1024 * 512.
Definition SFS_L0_NBLKS : Z := SFS_NDIRECT.
Definition SFS_L1_NBLKS : Z := SFS_BLK_NENTRY + SFS_L0_NBLKS.
Definition SFS_L2_NBLKS : Z := SFS_BLK_NENTRY * SFS_BLK_NENTRY + SFS_L1_NBLKS.
Definition SFS_LN_NBLKS : Z := SFS_MAX_FILE_SIZE / SFS_BLKSIZE.

(** [struct cache_inode].  The structure on the disk is the kernel's, followed by [db_indirect], which the kernel does
    not know. *)
Record cache_inode := mkCi {
  inode : sfs_disk_inode; db_indirect : Z; real : Z; nblks : Z; l1 : option Z; l2 : option Z }.

(** [struct sfs_fs] with the image.  [node_at] and [words_at] are the [cache_inode]s and the content of the
    [cache_block]s; [inodes] and [blocks] are the chains of the hash tables; [entry_name] is what is left in the
    static entry of [add_entry]. *)
Record mkfs := mkMkfs {
  super : sfs_super; ninos : Z; next_ino : Z; image : gmap Z Z;
  node_at : gmap Z cache_inode; words_at : gmap Z (list Z);
  inodes : gmap Z (list Z); blocks : gmap Z (list Z);
  subpath : list (list Z); entry_name : list Z }.

Definition set_alloc (s : mkfs) (sb : sfs_super) (n : Z) : mkfs :=
  mkMkfs sb (ninos s) n (image s) (node_at s) (words_at s) (inodes s) (blocks s) (subpath s) (entry_name s).
Definition set_image (s : mkfs) (x : gmap Z Z) : mkfs :=
  mkMkfs (super s) (ninos s) (next_ino s) x (node_at s) (words_at s) (inodes s) (blocks s) (subpath s) (entry_name s).
Definition set_nodes (s : mkfs) (x : gmap Z cache_inode) (h : gmap Z (list Z)) : mkfs :=
  mkMkfs (super s) (ninos s) (next_ino s) (image s) x (words_at s) h (blocks s) (subpath s) (entry_name s).
Definition set_words (s : mkfs) (x : gmap Z (list Z)) (h : gmap Z (list Z)) : mkfs :=
  mkMkfs (super s) (ninos s) (next_ino s) (image s) (node_at s) x (inodes s) h (subpath s) (entry_name s).
Definition set_subpath (s : mkfs) (x : list (list Z)) : mkfs :=
  mkMkfs (super s) (ninos s) (next_ino s) (image s) (node_at s) (words_at s) (inodes s) (blocks s) x (entry_name s).
Definition set_name (s : mkfs) (x : list Z) : mkfs :=
  mkMkfs (super s) (ninos s) (next_ino s) (image s) (node_at s) (words_at s) (inodes s) (blocks s) (subpath s) x.

(** A node of the host: [real] is its inode number there.  [HDenied] cannot be opened, [HOther] is neither a file, nor
    a directory, nor a link. *)
Inductive hnode :=
| HReg (real : Z) (data : list Z)
| HDir (real : Z) (l : list (list Z * hnode))
| HLnk (real : Z) (target : list Z)
| HDenied
| HOther.

Definition bug {A} : M mkfs A := fail EPanic.

(** * Numbers, blocks and inodes *)

Definition sfs_alloc_ino : M mkfs Z :=
  s ← get;
  if next_ino s <? ninos s then
    put (set_alloc s (mkSuper (magic (super s)) (SfsDisk.blocks (super s)) (u32 (unused_blocks (super s) - 1)) (info (super s)))
      (next_ino s + 1)) ;;
    mret (next_ino s)
  else bug.

(** The chain of bucket [h] of a table. *)
Definition chain (t : gmap Z (list Z)) (h : Z) : list Z := default [] (t !! h).

Definition alloc_cache_block (ino : Z) : M mkfs Z :=
  i ← (if negb (ino =? 0) then mret ino else sfs_alloc_ino);
  let head := hash32 ino in
  modify (λ s, set_words s (<[i := replicate (Z.to_nat SFS_BLK_NENTRY) 0]> (words_at s))
    (<[head := i :: chain (blocks s) head]> (blocks s))) ;;
  mret i.

Definition search_cache_block (ino : Z) : M mkfs (option Z) :=
  gets (λ s, snd <$> list_find (λ p, p = ino) (chain (blocks s) (hash32 ino))).

Definition alloc_cache_inode (r ino ty : Z) : M mkfs Z :=
  i ← (if negb (ino =? 0) then mret ino else sfs_alloc_ino);
  let ci := mkCi (mkDin 0 ty 0 0 (replicate 12 0) 0) 0 r 0 None None in
  let head := hash64 r in
  modify (λ s, set_nodes s (<[i := ci]> (node_at s)) (<[head := i :: chain (inodes s) head]> (inodes s))) ;;
  mret i.

Definition has_real (s : mkfs) (r i : Z) : Prop := real <$> node_at s !! i = Some r.
#[export] Instance has_real_dec s r i : Decision (has_real s r i).
Proof. unfold has_real. apply _. Defined.

Definition search_cache_inode (r : Z) : M mkfs (option Z) :=
  gets (λ s, snd <$> list_find (has_real s r) (chain (inodes s) (hash64 r))).

(** Access through a [struct cache_inode *]. *)
Definition ci_at (ino : Z) : M mkfs cache_inode := deref (λ s, node_at s !! ino).
Definition ci_set (ino : Z) (ci : cache_inode) : M mkfs unit := modify (λ s, set_nodes s (<[ino := ci]> (node_at s)) (inodes s)).

(** [((uint32_t * )cb->cache)[i]]. *)
Definition word_at (p i : Z) : M mkfs Z := deref (λ s, l ← words_at s !! p; l !! Z.to_nat i).
Definition word_set (p i v : Z) : M mkfs unit :=
  l ← deref (λ s, words_at s !! p);
  modify (λ s, set_words s (<[p := <[Z.to_nat i := v]> l]> (words_at s)) (blocks s)).

(** * The image *)

Definition create_sfs (junk : list Z) (st_size : Z) (img : gmap Z Z) : res mkfs :=
  let ninos := u32 (st_size / SFS_BLKSIZE) in
  let ninos := if SFS_MAX_NBLKS <? ninos then SFS_MAX_NBLKS else ninos in
  let next := SFS_BLKN_FREEMAP + (ninos + SFS_BLKBITS - 1) / SFS_BLKBITS in
  if ninos <=? next then Err EPanic else
  let info := [115; 105; 109; 112; 108; 101; 32; 102; 105; 108; 101; 32; 115; 121; 115; 116; 101; 109; 0] ++ junk in
  let s := mkMkfs (mkSuper SFS_MAGIC ninos (ninos - next) info) ninos next img ∅ ∅ ∅ ∅ [] (replicate 256 0) in
  '(_, s) ← alloc_cache_inode 0 SFS_BLKN_ROOT SFS_TYPE_DIR s;
  Ret s.

Definition subpath_push (name : list Z) : M mkfs unit := modify (λ s, set_subpath s (subpath s ++ [name])).
Definition subpath_pop : M mkfs unit :=
  s ← get; assert (bool_decide (subpath s ≠ [])) ;; put (set_subpath s (take (length (subpath s) - 1) (subpath s))).

(** The block that [write_block] writes for [data]. *)
Definition block_of (data : list Z) : list Z := data ++ replicate (Z.to_nat SFS_BLKSIZE - length data) 0.
Definition write_block (data : list Z) (ino : Z) : M mkfs unit :=
  s ← get;
  assert ((Z.of_nat (length data) <=? SFS_BLKSIZE) && (ino <? ninos s)) ;;
  put (set_image s (write_bytes (image s) (ino * SFS_BLKSIZE) (block_of data))).

Definition encode_node (ci : cache_inode) : list Z := encode_inode (inode ci) ++ le 4 (db_indirect ci).
Definition encode_words (l : list Z) : list Z := concat (le 4 <$> l).

Definition flush_cache_block (p : Z) : M mkfs unit :=
  l ← deref (λ s, words_at s !! p); write_block (encode_words l) p.
Definition flush_cache_inode (ino : Z) : M mkfs unit :=
  ci ← ci_at ino; write_block (encode_node ci) ino.

(** [for (j = start; j < end; j ++) data[j / bits] |= (1 << (j % bits))]. *)
Fixpoint set_bits (n : nat) (j : Z) (data : list Z) : list Z :=
  match n with
  | O => data
  | S n' => set_bits n' (j + 1) (<[Z.to_nat (j / 32) := Z.lor (data !!! Z.to_nat (j / 32)) (Z.shiftl 1 (j mod 32))]> data)
  end.

(** The words of the map for the blocks from [i] on. *)
Definition map_words (ninos next i : Z) : list Z :=
  let zeros := replicate (Z.to_nat SFS_BLK_NENTRY) 0 in
  if next <? i + SFS_BLKBITS then
    let start := if i <? next then next - i else 0 in
    let end_ := if ninos <? i + SFS_BLKBITS then ninos - i else SFS_BLKBITS in
    set_bits (Z.to_nat (end_ - start)) start zeros
  else zeros.

(** The loop over the blocks of the map. *)
Fixpoint write_map (n : nat) (i ino : Z) : M mkfs unit :=
  match n with
  | O => mret tt
  | S n' =>
      s ← get;
      write_block (encode_words (map_words (ninos s) (next_ino s) i)) ino ;;
      write_map n' (i + SFS_BLKBITS) (ino + 1)
  end.

Fixpoint for_each {A} (f : A → M mkfs unit) (l : list A) : M mkfs unit :=
  match l with
  | [] => mret tt
  | x :: l' => f x ;; for_each f l'
  end.

(** Both tables, bucket by bucket. *)
Definition flush_bucket (i : Z) : M mkfs unit :=
  s ← get;
  for_each flush_cache_block (chain (blocks s) i) ;;
  for_each flush_cache_inode (chain (inodes s) i).

Definition close_sfs : M mkfs unit :=
  s ← get;
  write_map (Z.to_nat ((ninos s + SFS_BLKBITS - 1) / SFS_BLKBITS)) 0 SFS_BLKN_FREEMAP ;;
  write_block (encode_super (super s)) SFS_BLKN_SUPER ;;
  for_each flush_bucket (seqZ 0 HASH_LIST_SIZE).

Definition open_img (junk imgname : list Z) (st_size : Z) (img : gmap Z Z) : res mkfs :=
  let expect := [46; 105; 109; 103] in
  if (length imgname <=? length expect)%nat || negb (bool_decide (drop (length imgname - length expect) imgname = expect)) then Err EPanic
  else create_sfs junk st_size img.

(** * Growing files *)

(** The new values of [*cbp] and [*inop]. *)
Definition update_cache (cb : option Z) (ino : Z) : M mkfs (Z * Z) :=
  if ino =? 0 then
    p ← alloc_cache_block 0; mret (p, p)
  else if bool_decide (cb = Some ino) then mret (ino, ino)
  else
    r ← search_cache_block ino;
    match r with
    | Some p => assert (p =? ino) ;; mret (p, ino)
    | None => fail EPanic
    end.

Definition with_l1 (ci : cache_inode) (p ino : Z) : cache_inode :=
  mkCi (SfsInode.set_indirect ino (inode ci)) (db_indirect ci) (real ci) (nblks ci) (Some p) (l2 ci).
Definition with_cached (ci : cache_inode) (p1 : Z) : cache_inode :=
  mkCi (inode ci) (db_indirect ci) (real ci) (nblks ci) (Some p1) (l2 ci).
Definition with_l2 (ci : cache_inode) (p ino : Z) : cache_inode :=
  mkCi (inode ci) ino (real ci) (nblks ci) (l1 ci) (Some p).

(** The entry for block number [ino] at the end of the map of [file]. *)
Definition link_block (file ino : Z) : M mkfs unit :=
  ci ← ci_at file;
  let n := nblks ci in
  if n <? SFS_L0_NBLKS then
    ci_set file (mkCi (SfsInode.set_direct n ino (inode ci)) (db_indirect ci) (real ci) n (l1 ci) (l2 ci))
  else if n <? SFS_L1_NBLKS then
    '(p, e) ← update_cache (l1 ci) (indirect (inode ci));
    ci_set file (with_l1 ci p e) ;;
    word_set p (n - SFS_L0_NBLKS) ino
  else if n <? SFS_L2_NBLKS then
    let n := n - SFS_L1_NBLKS in
    '(p2, e2) ← update_cache (l2 ci) (db_indirect ci);
    ci_set file (with_l2 ci p2 e2) ;;
    d ← word_at p2 (n / SFS_BLK_NENTRY);
    '(p1, e1) ← update_cache (l1 ci) d;
    word_set p2 (n / SFS_BLK_NENTRY) e1 ;;
    ci_set file (with_cached (with_l2 ci p2 e2) p1) ;;
    word_set p1 (n mod SFS_BLK_NENTRY) ino
  else mret tt.

Definition grow (sz : Z) (ci : cache_inode) : cache_inode :=
  let d := inode ci in
  mkCi (mkDin (u32 (size d + sz)) (type d) (nlinks d) (u32 (nblocks d + 1)) (direct d) (indirect d))
    (db_indirect ci) (real ci) (nblks ci + 1) (l1 ci) (l2 ci).

Definition append_block (file sz ino : Z) : M mkfs unit :=
  assert (sz <=? SFS_BLKSIZE) ;;
  ci ← ci_at file;
  if SFS_LN_NBLKS <=? nblks ci then bug else
  link_block file ino ;;
  ci ← ci_at file;
  ci_set file (grow sz ci).

Definition inc_links (ci : cache_inode) : cache_inode :=
  let d := inode ci in
  mkCi (mkDin (size d) (type d) (u16 (nlinks d + 1)) (nblocks d) (direct d) (indirect d))
    (db_indirect ci) (real ci) (nblks ci) (l1 ci) (l2 ci).

(** [strcpy(entry->name, name)] into the static entry. *)
Definition copy_name (old name : list Z) : list Z := name ++ [0] ++ drop (length name + 1) old.

Definition add_entry (current file : Z) (name : list Z) : M mkfs unit :=
  cu ← ci_at current;
  assert ((type (inode cu) =? SFS_TYPE_DIR) && (Z.of_nat (length name) <=? SFS_MAX_FNAME_LEN)) ;;
  modify (λ s, set_name s (copy_name (entry_name s) name)) ;;
  entry_ino ← sfs_alloc_ino;
  nm ← gets entry_name;
  write_block (le 4 file ++ nm) entry_ino ;;
  append_block current 256 entry_ino ;;
  ci ← ci_at file;
  ci_set file (inc_links ci).

(** * Copying the host *)

(** The loop of [open_file]: [data] is what is still to be read. *)
Fixpoint file_loop (fuel : nat) (file : Z) (data : list Z) (last : Z) : M mkfs unit :=
  match fuel with
  | O => fail EFuel
  | S fuel' =>
      let buffer := take (Z.to_nat SFS_BLKSIZE) data in
      let ret := Z.of_nat (length buffer) in
      if ret =? 0 then mret tt else
      assert (last =? SFS_BLKSIZE) ;;
      ino ← sfs_alloc_ino;
      write_block buffer ino ;;
      append_block file ret ino ;;
      file_loop fuel' file (drop (Z.to_nat SFS_BLKSIZE) data) ret
  end.
Definition file_rounds (data : list Z) : nat := Z.to_nat (Z.of_nat (length data) / SFS_BLKSIZE + 2).
Definition open_file (file : Z) (data : list Z) : M mkfs unit := file_loop (file_rounds data) file data SFS_BLKSIZE.

Definition open_link (file : Z) (target : list Z) : M mkfs unit :=
  ino ← sfs_alloc_ino;
  let buffer := take (Z.to_nat SFS_BLKSIZE) target in
  let ret := Z.of_nat (length buffer) in
  if ret =? SFS_BLKSIZE then bug else
  write_block buffer ino ;;
  append_block file ret ino.

Definition add_file (current : Z) (filename : list Z) (r : Z) (data : list Z) : M mkfs unit :=
  o ← search_cache_inode r;
  file ← match o with
         | Some f => mret f
         | None => f ← alloc_cache_inode r 0 SFS_TYPE_FILE; open_file f data ;; mret f
         end;
  add_entry current file filename.

Definition add_link (current : Z) (filename : list Z) (r : Z) (target : list Z) : M mkfs unit :=
  file ← alloc_cache_inode r 0 SFS_TYPE_LINK;
  open_link file target ;;
  add_entry current file filename.

(** [open_dir] of a directory with the entries [l]; [add] is the body of its loop. *)
Definition dir_loop (add : Z → list Z → hnode → M mkfs unit) (current : Z) : list (list Z * hnode) → M mkfs unit :=
  fix loop l := match l with
                | [] => mret tt
                | (name, n) :: l' => add current name n ;; loop l'
                end.
Definition open_dir (add : Z → list Z → hnode → M mkfs unit) (current parent : Z) (l : list (list Z * hnode)) : M mkfs unit :=
  add_entry current current [46] ;;
  add_entry current parent [46; 46] ;;
  dir_loop add current l.

Definition add_dir (add : Z → list Z → hnode → M mkfs unit) (parent : Z) (dirname : list Z) (r : Z)
    (l : list (list Z * hnode)) : M mkfs unit :=
  o ← search_cache_inode r;
  assert (bool_decide (o = None)) ;;
  current ← alloc_cache_inode r 0 SFS_TYPE_DIR;
  subpath_push dirname ;;
  open_dir add current parent l ;;
  subpath_pop ;;
  add_entry parent current dirname.

(** The body of the loop of [open_dir], for one entry of the directory. *)
Definition hidden (name : list Z) : bool := match name with 46 :: _ => true | _ => false end.

Fixpoint add_node (current : Z) (name : list Z) (n : hnode) : M mkfs unit :=
  if hidden name then mret tt else
  if SFS_MAX_FNAME_LEN <? Z.of_nat (length name) then bug else
  match n with
  | HLnk r target => add_link current name r target
  | HDenied => bug
  | HDir r l => add_dir add_node current name r l
  | HReg r data => add_file current name r data
  | HOther => mret tt
  end.

Definition create_img (home : list (list Z * hnode)) : M mkfs unit :=
  open_dir add_node SFS_BLKN_ROOT SFS_BLKN_ROOT home ;;
  close_sfs.

(** The tool: the image file afterwards. *)
Definition main (junk imgname : list Z) (st_size : Z) (img : gmap Z Z) (home : list (list Z * hnode)) : res (gmap Z Z) :=
  s ← open_img junk imgname st_size img;
  '(_, s) ← create_img home s;
  Ret (image s).

(** * The state of the tool *)

(** What a block of the image is for: an inode, the indirect block of a file, the [i]-th block of a file. *)
Inductive use := UNode | UInd (ino : Z) | UData (ino i : Z).

Implicit Types (s : mkfs) (own : gmap Z use) (W : gmap Z (list Z)) (ci : cache_inode).

(** The block with the [i]-th part of a file, with the indirect blocks [W]. *)
Definition mblk W (d : sfs_disk_inode) (i : Z) : Z :=
  if decide (i < 12) then direct d !!! Z.to_nat i
  else if decide (indirect d = 0) then 0
  else default [] (W !! indirect d) !!! Z.to_nat (i - 12).

(** The map of a file that has at most as many blocks as the kernel can reach. *)
Record node_ok W own (k ino : Z) ci : Prop := {
  n_direct : length (direct (inode ci)) = 12%nat;
  n_count : 0 ≤ nblks ci ≤ 1036 ∧ nblocks (inode ci) = nblks ci;
  n_links : 0 ≤ nlinks (inode ci) ≤ k;
  n_size : 0 ≤ size (inode ci) ≤ 4096 * nblks ci;
  n_type : 0 ≤ type (inode ci) < 65536;
  n_double : db_indirect ci = 0 ∧ l2 ci = None;
  n_ind : if decide (nblks ci ≤ 12) then indirect (inode ci) = 0
          else l1 ci = Some (indirect (inode ci)) ∧ own !! indirect (inode ci) = Some (UInd ino);
  n_data : ∀ i, 0 ≤ i < nblks ci → own !! mblk W (inode ci) i = Some (UData ino i);
  n_rest : ∀ i, nblks ci ≤ i < 1036 → mblk W (inode ci) i = 0 }.

(** The first block behind the map. *)
Definition first (n : Z) : Z := 2 + (n + 32767) / 32768.

(** [k] bounds the number of entries made so far. *)
Record inv (k : Z) own s : Prop := {
  v_sizes : first (ninos s) ≤ next_ino s ≤ ninos s ∧ 0 < ninos s ≤ 524288;
  v_super : super s = mkSuper SFS_MAGIC (ninos s) (ninos s - next_ino s) (info (super s)) ∧ length (info (super s)) = 32%nat;
  v_range : ∀ b u, own !! b = Some u → b = 1 ∧ u = UNode ∨ first (ninos s) ≤ b < next_ino s;
  v_nodes : ∀ i, is_Some (node_at s !! i) ↔ own !! i = Some UNode;
  v_words : ∀ p l, words_at s !! p = Some l → length l = 1024%nat ∧ ∃ ino, own !! p = Some (UInd ino);
  v_inds : ∀ p ino, own !! p = Some (UInd ino) → is_Some (words_at s !! p);
  v_node : ∀ i ci, node_at s !! i = Some ci → node_ok (words_at s) own k i ci;
  v_ichain : ∀ h i, i ∈ chain (inodes s) h → is_Some (node_at s !! i);
  v_itable : ∀ i ci, node_at s !! i = Some ci → i ∈ chain (inodes s) (hash64 (real ci));
  v_bchain : ∀ h p, p ∈ chain (blocks s) h → is_Some (words_at s !! p);
  v_btable : ∀ p, is_Some (words_at s !! p) → p ∈ chain (blocks s) 0;
  v_name : length (entry_name s) = 256%nat }.

(** Inode [i] has at least [n] links. *)
Definition linked_by s (i n : Z) : Prop := ∃ ci, node_at s !! i = Some ci ∧ n ≤ nlinks (inode ci).

(** From [s] to [s'] only the files in [A] have grown. *)
Record grew (A : gset Z) own s own' s' : Prop := {
  g_own : own ⊆ own';
  g_data : ∀ b ino i a, own !! b = Some (UData ino i) → a / 4096 = b → byte_at (image s') a = byte_at (image s) a;
  g_node : ∀ i ci, node_at s !! i = Some ci → ∃ ci', node_at s' !! i = Some ci' ∧ real ci' = real ci ∧
    type (inode ci') = type (inode ci) ∧
    (i ∉ A → nblks ci' = nblks ci ∧ size (inode ci') = size (inode ci) ∧
      ∀ j, 0 ≤ j < 1036 → mblk (words_at s') (inode ci') j = mblk (words_at s) (inode ci) j);
  g_const : ninos s' = ninos s ∧ subpath s' = subpath s ∧ next_ino s ≤ next_ino s';
  g_links : ∀ i n, linked_by s i n → linked_by s' i n }.

Lemma grew_trans A own0 s0 own1 s1 own2 s2 : grew A own0 s0 own1 s1 → grew A own1 s1 own2 s2 → grew A own0 s0 own2 s2.
Proof.
  intros [O1 D1 N1 (C1 & C1' & C1'') L1] [O2 D2 N2 (C2 & C2' & C2'') L2]. split; [..|auto].
  - by trans own1.
  - intros b ino i a Hb Ha. rewrite (D2 b ino i) by (done || by eapply lookup_weaken). by eapply D1.
  - intros i ci Hi. destruct (N1 i ci Hi) as (c1 & Hc1 & Hr1 & Ht1 & Hm1). destruct (N2 i c1 Hc1) as (c2 & Hc2 & Hr2 & Ht2 & Hm2).
    exists c2. split_and!; [done|congruence|congruence|]. intros HA. destruct (Hm1 HA) as (? & ? & Hj1), (Hm2 HA) as (? & ? & Hj2).
    split_and!; [congruence|congruence|]. intros j Hj. by rewrite Hj2, Hj1.
  - split_and!; [congruence|congruence|lia].
Qed.

Lemma grew_mono A A' own s own' s' : A ⊆ A' → grew A own s own' s' → grew A' own s own' s'.
Proof.
  intros HA [O D N C L]. split; [done|done| |done|done]. intros i ci Hi. destruct (N i ci Hi) as (c & ? & ? & ? & Hm).
  exists c. split_and!; [done..|]. intros Hn. apply Hm. set_solver.
Qed.

(** A directory that is new may be taken out of the files that grow. *)
Lemma grew_new A own s own' s' i : node_at s !! i = None → grew ({[i]} ∪ A) own s own' s' → grew A own s own' s'.
Proof.
  intros Hi [O D N C L]. split; [done|done| |done|done]. intros j ci Hj. destruct (N j ci Hj) as (c & ? & ? & ? & Hm).
  exists c. split_and!; [done..|]. intros Hn. apply Hm. intros [->%elem_of_singleton|]%elem_of_union; [congruence|done].
Qed.

(** ** Taking a number *)

Definition alloced (s : mkfs) (n : Z) : mkfs :=
  set_alloc s (mkSuper SFS_MAGIC (ninos s) (ninos s - n) (info (super s))) n.

Lemma first_bounds n : 0 < n → 3 ≤ first n.
Proof. intros. unfold first. assert (1 ≤ (n + 32767) / 32768) by (apply Z.div_le_lower_bound; lia). lia. Qed.

Lemma alloc_ino_run k own s : inv k own s → next_ino s < ninos s → sfs_alloc_ino s = Ret (next_ino s, alloced s (next_ino s + 1)).
Proof.
  intros H Hn. destruct (v_super _ _ _ H) as [Hs _]. destruct (v_sizes _ _ _ H) as [[Hf Hx] Hm].
  pose proof (first_bounds (ninos s)).
  unfold sfs_alloc_ino. step using reflexivity. rewrite (proj2 (Z.ltb_lt _ _) Hn). unfold put, alloced.
  rewrite Hs. cbn [magic SfsDisk.blocks unused_blocks info]. rewrite u32_small by lia.
  step using reflexivity. unfold mret, M_ret. do 3 f_equal. f_equal. lia.
Qed.

(** ** A file that gets one more block *)

(** [s] after the block [b] was written and [file] changed to [ci]. *)
Definition put_state s (n' b : Z) (data : list Z) (file : Z) ci W (H : gmap Z (list Z)) : mkfs :=
  mkMkfs (mkSuper SFS_MAGIC (ninos s) (ninos s - n') (info (super s))) (ninos s) n'
    (write_bytes (image s) (b * 4096) (block_of data)) (<[file := ci]> (node_at s)) W (inodes s) H (subpath s) (entry_name s).

Lemma length_block_of data : (length data ≤ 4096)%nat → length (block_of data) = 4096%nat.
Proof. intros. unfold block_of. rewrite length_app, length_replicate. change (Z.to_nat SFS_BLKSIZE) with 4096%nat. lia. Qed.

Lemma mblk_ext W W' d i : (indirect d ≠ 0 → W' !! indirect d = W !! indirect d) → mblk W' d i = mblk W d i.
Proof. intros H. unfold mblk. destruct (decide (i < 12)); [done|]. destruct (decide (indirect d = 0)); [done|]. by rewrite H. Qed.

Lemma node_ind W own k i ci : node_ok W own k i ci → indirect (inode ci) ≠ 0 → own !! indirect (inode ci) = Some (UInd i).
Proof. intros H Hn. pose proof (n_ind _ _ _ _ _ H) as Hi. case_decide; naive_solver. Qed.

Lemma node_ok_mono W W' own own' k k' i ci : node_ok W own k i ci → own ⊆ own' → k ≤ k' →
  (indirect (inode ci) ≠ 0 → W' !! indirect (inode ci) = W !! indirect (inode ci)) → node_ok W' own' k' i ci.
Proof.
  intros [] Ho Hk HW. split; try done; try lia.
  - case_decide; [done|]. destruct n_ind0. split; [done|]. by eapply lookup_weaken.
  - intros j Hj. rewrite (mblk_ext W) by done. eapply lookup_weaken; [|done]. auto.
  - intros j Hj. rewrite (mblk_ext W) by done. auto.
Qed.

Section put.
Context (k : Z) (own own' : gmap Z use) (s : mkfs) (file : Z) (ci ci' : cache_inode).
Context (W : gmap Z (list Z)) (H : gmap Z (list Z)) (b n' : Z) (data : list Z).
Hypothesis Hinv : inv k own s.
Hypothesis Hci : node_at s !! file = Some ci.
Hypothesis Hold : own ⊆ own'.
Hypothesis Hnew : ∀ x u, own' !! x = Some u → own !! x = Some u ∨ next_ino s ≤ x < n' ∧ u ≠ UNode.
Hypothesis Hb : next_ino s ≤ b < n' ∧ n' ≤ ninos s.
Hypothesis Hdata : (length data ≤ 4096)%nat.
Hypothesis Hnode : node_ok W own' k file ci'.
Hypothesis Hsame : real ci' = real ci ∧ type (inode ci') = type (inode ci) ∧ nlinks (inode ci') = nlinks (inode ci).
Hypothesis HW : ∀ q j, own !! q = Some (UInd j) → j ≠ file → W !! q = words_at s !! q.
Hypothesis HW1 : ∀ q l, W !! q = Some l → length l = 1024%nat ∧ ∃ ino, own' !! q = Some (UInd ino).
Hypothesis HW2 : ∀ q ino, own' !! q = Some (UInd ino) → is_Some (W !! q).
Hypothesis HH1 : ∀ h q, q ∈ chain H h → is_Some (W !! q).
Hypothesis HH2 : ∀ q, is_Some (W !! q) → q ∈ chain H 0.

Lemma put_others i cj : i ≠ file → node_at s !! i = Some cj → indirect (inode cj) ≠ 0 →
  W !! indirect (inode cj) = words_at s !! indirect (inode cj).
Proof using Hinv HW.
  intros Hi Hcj Hn. apply (HW _ i); [|done]. eapply node_ind; [|done]. by apply (v_node _ _ _ Hinv).
Qed.

Lemma inv_put : inv k own' (put_state s n' b data file ci' W H).
Proof using All.
  destruct Hinv. assert (is_Some (node_at s !! file)) as Hfile by eauto. split; cbn; try done.
  - lia.
  - split; [done|apply v_super0].
  - intros x u Hx. destruct (Hnew x u Hx) as [Hx'|[Hx' _]]; [destruct (v_range0 x u Hx'); [by left|right; lia]|right; lia].
  - intros i. rewrite lookup_insert_is_Some'. split.
    + intros [<-|Hi]; (eapply lookup_weaken; [|exact Hold]); by apply v_nodes0.
    + intros Hi. destruct (Hnew i UNode Hi) as [Hi'|[_ Hi']]; [|done]. right. by apply v_nodes0.
  - intros i cj [[<- <-]|[Hi Hcj]]%lookup_insert_Some; [done|].
    eapply node_ok_mono; [by apply v_node0|done|done|]. by eapply put_others.
  - intros h i Hi. apply lookup_insert_is_Some'. right. by eapply v_ichain0.
  - intros i cj [[<- <-]|[Hi Hcj]]%lookup_insert_Some; [destruct Hsame as [-> _]|]; by apply v_itable0.
Qed.

Lemma grew_put A : file ∈ A → grew A own s own' (put_state s n' b data file ci' W H).
Proof using All.
  intros HA. split; cbn; [done| | |split_and!; [done|done|lia]|].
  - intros x ino i a Hx <-. destruct (v_range _ _ _ Hinv _ _ Hx) as [[_ ?]|Hr]; [done|].
    rewrite byte_write, length_block_of, decide_False; [done| |done]. pose proof (SfsFile.addr_split a). lia.
  - intros i cj Hcj. destruct (decide (i = file)) as [->|Hi].
    + exists ci'. rewrite lookup_insert_eq. assert (cj = ci) as -> by congruence. destruct Hsame as (? & ? & _). split_and!; [done..|]. by intros [].
    + exists cj. rewrite lookup_insert_ne by done. split_and!; [done..|]. intros _. split_and!; [done..|].
      intros j _. apply mblk_ext. by eapply put_others.
  - intros i n (cj & Hcj & Hl). destruct (decide (i = file)) as [->|Hi].
    + exists ci'. cbn. rewrite lookup_insert_eq. destruct Hsame as (_ & _ & ->). split; [done|]. congruence.
    + exists cj. cbn. by rewrite lookup_insert_ne.
Qed.

End put.

(** ** Appending a block *)

(** The numbers that the next block of a file takes. *)
Definition need ci : Z := if decide (nblks ci = 12) then 2 else 1.

Record put_ok own s (file : Z) ci (data : list Z) (sz b : Z) own' s' ci' : Prop := {
  p_own : own' !! b = Some (UData file (nblks ci));
  p_node : node_at s' = <[file := ci']> (node_at s);
  p_ci : nblks ci' = nblks ci + 1 ∧ size (inode ci') = size (inode ci) + sz ∧ type (inode ci') = type (inode ci) ∧
    real ci' = real ci ∧ nlinks (inode ci') = nlinks (inode ci);
  p_map : ∀ i, 0 ≤ i ≤ nblks ci →
    mblk (words_at s') (inode ci') i = if decide (i = nblks ci) then b else mblk (words_at s) (inode ci) i;
  p_image : image s' = write_bytes (image s) (b * 4096) (block_of data);
  p_same : inodes s' = inodes s ∧ entry_name s' = entry_name s;
  p_next : next_ino s' = next_ino s + need ci }.

(** [ci'] is [ci] with the block [b] at the end of its map. *)
Lemma node_grow W W' own own' k file ci ci' sz b :
  node_ok W own k file ci → own ⊆ own' → nblks ci < 1036 → 0 ≤ sz ≤ 4096 →
  nblks ci' = nblks ci + 1 ∧ nblocks (inode ci') = nblks ci + 1 ∧ size (inode ci') = size (inode ci) + sz ∧
    type (inode ci') = type (inode ci) ∧ nlinks (inode ci') = nlinks (inode ci) ∧ db_indirect ci' = 0 ∧ l2 ci' = None →
  length (direct (inode ci')) = 12%nat →
  (if decide (nblks ci < 12) then indirect (inode ci') = 0
   else l1 ci' = Some (indirect (inode ci')) ∧ own' !! indirect (inode ci') = Some (UInd file)) →
  own' !! b = Some (UData file (nblks ci)) →
  (∀ i, 0 ≤ i < 1036 → mblk W' (inode ci') i = if decide (i = nblks ci) then b else mblk W (inode ci) i) →
  node_ok W' own' k file ci'.
Proof.
  intros [] Ho Hn Hsz (H1 & H2 & H3 & H4 & H5 & H6 & H7) Hd Hi Hb Hm. split; try done; try lia.
  - destruct (decide (nblks ci < 12)), (decide (nblks ci' ≤ 12)); try done; lia.
  - intros i Hi'. rewrite Hm by lia. destruct (decide (i = nblks ci)) as [->|]; [done|]. eapply lookup_weaken; [|done]. apply n_data0. lia.
  - intros i Hi'. rewrite Hm, decide_False by lia. apply n_rest0. lia.
Qed.

(** The link that [link_block] makes, in a state in which [b] has just been written. *)
Record linked own s (file : Z) ci (b : Z) own' (ci1 : cache_inode) W (H : gmap Z (list Z)) (n' : Z) : Prop := {
  k_next : n' = next_ino s + need ci;
  k_own : own' = <[b := UData file (nblks ci)]> own ∨
    ∃ p, p = next_ino s + 1 ∧ n' = p + 1 ∧ own' = <[p := UInd file]> (<[b := UData file (nblks ci)]> own);
  k_fields : nblks ci1 = nblks ci ∧ real ci1 = real ci ∧ db_indirect ci1 = db_indirect ci ∧ l2 ci1 = l2 ci ∧
    type (inode ci1) = type (inode ci) ∧ nlinks (inode ci1) = nlinks (inode ci) ∧ size (inode ci1) = size (inode ci) ∧
    nblocks (inode ci1) = nblocks (inode ci) ∧ length (direct (inode ci1)) = 12%nat;
  k_ind : if decide (nblks ci < 12) then indirect (inode ci1) = 0
          else l1 ci1 = Some (indirect (inode ci1)) ∧ own' !! indirect (inode ci1) = Some (UInd file);
  k_map : ∀ i, 0 ≤ i < 1036 → mblk W (inode ci1) i = if decide (i = nblks ci) then b else mblk (words_at s) (inode ci) i;
  k_keep : ∀ q j, own !! q = Some (UInd j) → j ≠ file → W !! q = words_at s !! q;
  k_words : ∀ q l, W !! q = Some l → length l = 1024%nat ∧ ∃ ino, own' !! q = Some (UInd ino);
  k_inds : ∀ q ino, own' !! q = Some (UInd ino) → is_Some (W !! q);
  k_chain : ∀ h q, q ∈ chain H h → is_Some (W !! q);
  k_table : ∀ q, is_Some (W !! q) → q ∈ chain H 0 }.

Section link.
Context (k : Z) (own : gmap Z use) (s : mkfs) (file : Z) (ci : cache_inode) (data : list Z).
Hypothesis Hinv : inv k own s.
Hypothesis Hci : node_at s !! file = Some ci.
Hypothesis Hn : nblks ci < 1036.
Hypothesis Hroom : next_ino s + need ci ≤ ninos s.
Notation b := (next_ino s).

Lemma not_owned x : next_ino s ≤ x → own !! x = None.
Proof using Hinv.
  intros Hx. destruct (own !! x) eqn:E; [|done]. pose proof (v_sizes _ _ _ Hinv) as [? ?]. pose proof (first_bounds (ninos s)).
  destruct (v_range _ _ _ Hinv _ _ E) as [[-> _]|?]; lia.
Qed.

(** After [sfs_alloc_ino] and [write_block]. *)
Definition written : mkfs := set_image (alloced s (b + 1)) (write_bytes (image s) (b * 4096) (block_of data)).

Lemma link_direct : nblks ci < 12 →
  let ci1 := mkCi (SfsInode.set_direct (nblks ci) b (inode ci)) (db_indirect ci) (real ci) (nblks ci) (l1 ci) (l2 ci) in
  link_block file b written = Ret (tt, put_state s (b + need ci) b data file ci1 (words_at s) (blocks s)) ∧
  linked own s file ci b (<[b := UData file (nblks ci)]> own) ci1 (words_at s) (blocks s) (b + need ci).
Proof using All.
  intros Hlt ci1. pose proof (v_node _ _ _ Hinv _ _ Hci) as Hok. pose proof (n_count _ _ _ _ _ Hok) as [Hc _].
  pose proof (not_owned b ltac:(lia)) as Hfree. pose proof (n_direct _ _ _ _ _ Hok) as Hd. pose proof (n_ind _ _ _ _ _ Hok) as Hi.
  rewrite decide_True in Hi by lia. assert (need ci = 1) as Hneed by (unfold need; rewrite decide_False; lia). split.
  - unfold link_block. step using (unfold ci_at, deref, written; cbn; rewrite Hci; reflexivity).
    change SFS_L0_NBLKS with 12. rewrite (proj2 (Z.ltb_lt _ _) Hlt). by rewrite Hneed.
  - split; try done; cbn.
    + by left.
    + by rewrite length_insert.
    + by rewrite decide_True by done.
    + intros i Hi'. unfold mblk. cbn. destruct (decide (i < 12)).
      * case_decide as E; [rewrite E; apply list_lookup_total_insert_eq; lia|]. apply list_lookup_total_insert_ne. lia.
      * by rewrite (decide_False (P := i = nblks ci)) by lia.
    + intros q l Hq. destruct (v_words _ _ _ Hinv _ _ Hq) as [? [ino Ho]]. split; [done|]. exists ino.
      rewrite lookup_insert_ne; [done|]. intros <-. congruence.
    + intros q ino [[_ ?]|[_ Hq]]%lookup_insert_Some; [done|]. by eapply v_inds.
    + apply (v_bchain _ _ _ Hinv).
    + apply (v_btable _ _ _ Hinv).
Qed.

(** One entry of the indirect block [p]. *)
Lemma mblk_ind W' d1 p l i : direct d1 = direct (inode ci) → indirect d1 = p → p ≠ 0 → W' !! p = Some (<[Z.to_nat (nblks ci - 12) := b]> l) →
  length l = 1024%nat → 12 ≤ nblks ci → 0 ≤ i < 1036 →
  (∀ j, 12 ≤ j < 1036 → mblk (words_at s) (inode ci) j = l !!! Z.to_nat (j - 12)) →
  mblk W' d1 i = if decide (i = nblks ci) then b else mblk (words_at s) (inode ci) i.
Proof using Hn.
  intros Hd Hp Hp0 HW Hl H12 Hi Hold. destruct (decide (i < 12)) as [Hlt|Hge].
  - rewrite (decide_False (P := i = nblks ci)) by lia. unfold mblk. rewrite !(decide_True (P := i < 12)) by done. by rewrite Hd.
  - rewrite Hold by lia. unfold mblk. rewrite (decide_False (P := i < 12)) by done. rewrite decide_False by congruence.
    rewrite Hp, HW. cbn. destruct (decide (i = nblks ci)) as [->|Hne].
    + apply list_lookup_total_insert_eq. lia.
    + apply list_lookup_total_insert_ne. lia.
Qed.

Lemma link_indirect : 12 < nblks ci →
  let p := indirect (inode ci) in
  let W := <[p := <[Z.to_nat (nblks ci - 12) := b]> (default [] (words_at s !! p))]> (words_at s) in
  link_block file b written = Ret (tt, put_state s (b + need ci) b data file (with_l1 ci p p) W (blocks s)) ∧
  linked own s file ci b (<[b := UData file (nblks ci)]> own) (with_l1 ci p p) W (blocks s) (b + need ci).
Proof using All.
  intros Hlt p W. pose proof (v_node _ _ _ Hinv _ _ Hci) as Hok. pose proof (n_count _ _ _ _ _ Hok) as [Hc _].
  pose proof (not_owned b ltac:(lia)) as Hfree. pose proof (n_direct _ _ _ _ _ Hok) as Hd. pose proof (n_ind _ _ _ _ _ Hok) as Hi.
  rewrite decide_False in Hi by lia. destruct Hi as [Hl1 Hip]. fold p in Hl1, Hip.
  assert (need ci = 1) as Hneed by (unfold need; rewrite decide_False; lia).
  destruct (v_inds _ _ _ Hinv _ _ Hip) as [l Hl]. destruct (v_words _ _ _ Hinv _ _ Hl) as [Hlen _].
  assert (p ≠ 0) as Hp0. { intros E. rewrite E in Hip. pose proof (v_sizes _ _ _ Hinv). pose proof (first_bounds (ninos s)).
    destruct (v_range _ _ _ Hinv _ _ Hip) as [[? _]|?]; lia. }
  unfold W. rewrite Hl. cbn [default]. split.
  - unfold link_block. step using (unfold ci_at, deref, written; cbn; rewrite Hci; reflexivity).
    change SFS_L0_NBLKS with 12. change SFS_L1_NBLKS with 1036. rewrite (proj2 (Z.ltb_ge _ _)), (proj2 (Z.ltb_lt _ _)) by lia.
    assert (update_cache (l1 ci) (indirect (inode ci)) written = Ret ((p, p), written)) as Hup.
    { unfold update_cache. fold p. rewrite (proj2 (Z.eqb_neq _ _) Hp0), bool_decide_true by done. done. }
    step using (exact Hup). cbv beta iota. step using reflexivity. unfold word_set.
    step using (unfold deref; cbn; rewrite Hl; reflexivity). by rewrite Hneed.
  - split; try done; cbn.
    + by left.
    + rewrite decide_False by lia. split; [done|]. rewrite lookup_insert_ne; [done|congruence].
    + intros i Hi. apply (mblk_ind _ _ p l); try done; [by rewrite lookup_insert_eq|lia|].
      intros j Hj. unfold mblk. rewrite decide_False by lia. fold p. by rewrite decide_False, Hl by done.
    + intros q j Hq Hj. apply lookup_insert_ne. intros <-. rewrite Hip in Hq. congruence.
    + intros q l' [[<- <-]|[Hne Hq]]%lookup_insert_Some.
      * rewrite length_insert. split; [done|]. exists file. rewrite lookup_insert_ne; [done|congruence].
      * destruct (v_words _ _ _ Hinv _ _ Hq) as [? [ino Ho]]. split; [done|]. exists ino. rewrite lookup_insert_ne; [done|congruence].
    + intros q ino [[_ ?]|[_ Hq]]%lookup_insert_Some; [done|]. apply lookup_insert_is_Some'. right. by eapply v_inds.
    + intros h q Hq. apply lookup_insert_is_Some'. right. by eapply v_bchain.
    + intros q [<-|Hq]%lookup_insert_is_Some'; [|by apply (v_btable _ _ _ Hinv)]. apply (v_btable _ _ _ Hinv). by eexists.
Qed.

(** The first entry of a new indirect block. *)
Lemma link_first : nblks ci = 12 →
  let p := b + 1 in
  let W := <[p := <[0%nat := b]> (replicate 1024 0)]> (<[p := replicate 1024 0]> (words_at s)) in
  let H := <[0 := p :: chain (blocks s) 0]> (blocks s) in
  link_block file b written = Ret (tt, put_state s (b + need ci) b data file (with_l1 ci p p) W H) ∧
  linked own s file ci b (<[p := UInd file]> (<[b := UData file (nblks ci)]> own)) (with_l1 ci p p) W H (b + need ci).
Proof using All.
  intros H12 p W H. pose proof (v_node _ _ _ Hinv _ _ Hci) as Hok. pose proof (v_sizes _ _ _ Hinv) as [? ?]. pose proof (first_bounds (ninos s)).
  pose proof (not_owned b ltac:(lia)) as Hfree. pose proof (not_owned p ltac:(lia)) as Hfp. pose proof (n_direct _ _ _ _ _ Hok) as Hd.
  pose proof (n_ind _ _ _ _ _ Hok) as Hi. rewrite decide_True in Hi by lia. destruct (v_super _ _ _ Hinv) as [Hsup _].
  assert (need ci = 2) as Hneed by (unfold need; by rewrite decide_True).
  assert (b ≠ p) as Hbp by lia. split.
  - unfold link_block. step using (unfold ci_at, deref, written; cbn; rewrite Hci; reflexivity).
    change SFS_L0_NBLKS with 12. change SFS_L1_NBLKS with 1036. rewrite (proj2 (Z.ltb_ge _ _)), (proj2 (Z.ltb_lt _ _)) by lia.
    rewrite Hi.
    assert (sfs_alloc_ino written = Ret (p, alloced written (p + 1))) as Hal.
    { unfold sfs_alloc_ino. step using reflexivity. cbn [next_ino ninos written set_image alloced set_alloc].
      rewrite (proj2 (Z.ltb_lt _ _)) by lia. cbn [super unused_blocks magic SfsDisk.blocks info written set_image alloced set_alloc ninos].
      rewrite u32_small by lia. step using reflexivity. unfold mret, M_ret, written, alloced, set_alloc, set_image. cbn. do 4 f_equal. lia. }
    assert (update_cache (l1 ci) 0 written = Ret ((p, p),
      set_words (alloced written (p + 1)) (<[p := replicate 1024 0]> (words_at s)) H)) as Hup.
    { unfold update_cache. change (0 =? 0) with true. cbv iota. unfold alloc_cache_block. change (negb (0 =? 0)) with false. cbv iota.
      assert ((i ← sfs_alloc_ino; modify (λ s, set_words s (<[i := replicate (Z.to_nat SFS_BLK_NENTRY) 0]> (words_at s))
        (<[hash32 0 := i :: chain (blocks s) (hash32 0)]> (blocks s))) ;; mret i) written =
        Ret (p, set_words (alloced written (p + 1)) (<[p := replicate 1024 0]> (words_at s)) H)) as Ha.
      { step using (exact Hal). reflexivity. }
      by step using (exact Ha). }
    step using (exact Hup). cbv beta iota. step using reflexivity. unfold word_set.
    step using (unfold deref; cbn; rewrite lookup_insert_eq; reflexivity). rewrite Hneed, H12.
    unfold put_state. unfold modify. do 2 f_equal. unfold set_words, ci_set, set_nodes, alloced, written, set_image, set_alloc. cbn.
    f_equal; [|lia]. f_equal. lia.
  - assert (own !! p = None ∧ own !! b = None) as [] by done. split; try done; cbn.
    + right. exists p. split_and!; [done|lia|done].
    + rewrite decide_False by lia. split; [done|]. apply lookup_insert_eq.
    + intros i Hi'. apply (mblk_ind _ _ p (replicate 1024 0)); try done; try lia.
      * rewrite H12. apply lookup_insert_eq.
      * intros j Hj. rewrite (n_rest _ _ _ _ _ Hok) by lia. symmetry. apply lookup_total_replicate_2. lia.
    + intros q j Hq Hj. unfold W. rewrite !lookup_insert_ne by congruence. done.
    + intros q l' [[<- <-]|[Hne Hq]]%lookup_insert_Some.
      * rewrite length_insert, length_replicate. split; [done|]. exists file. apply lookup_insert_eq.
      * rewrite lookup_insert_ne in Hq by done. destruct (v_words _ _ _ Hinv _ _ Hq) as [? [ino Ho]].
        split; [done|]. exists ino. rewrite !lookup_insert_ne by congruence. done.
    + intros q ino [[<- _]|[_ [[_ ?]|[_ Hq]]%lookup_insert_Some]]%lookup_insert_Some; [unfold W; by rewrite lookup_insert_eq|done|].
      do 2 (apply lookup_insert_is_Some'; right). by eapply v_inds.
    + intros h q. unfold chain, H. destruct (decide (h = 0)) as [->|Hh].
      * rewrite lookup_insert_eq. cbn. intros [->|Hq]%elem_of_cons; [unfold W; by rewrite lookup_insert_eq|].
        do 2 (apply lookup_insert_is_Some'; right). by apply (v_bchain _ _ _ Hinv 0).
      * rewrite lookup_insert_ne by done. intros Hq. do 2 (apply lookup_insert_is_Some'; right). by apply (v_bchain _ _ _ Hinv h).
    + intros q Hq. unfold chain, H. rewrite lookup_insert_eq. cbn. apply elem_of_cons.
      apply lookup_insert_is_Some' in Hq as [->|[->|Hq]%lookup_insert_is_Some']; [by left|by left|]. right. by apply (v_btable _ _ _ Hinv).
Qed.

Lemma link_run : ∃ own' ci1 W H, link_block file b written = Ret (tt, put_state s (b + need ci) b data file ci1 W H) ∧
  linked own s file ci b own' ci1 W H (b + need ci).
Proof using All.
  destruct (Z.lt_trichotomy (nblks ci) 12) as [Hlt|[Heq|Hgt]].
  - eexists _, _, _, _. by apply link_direct.
  - eexists _, _, _, _. by apply link_first.
  - eexists _, _, _, _. by apply link_indirect.
Qed.

Lemma append_block_run sz : 0 ≤ sz ≤ 4096 → ∃ own' ci1 W H,
  append_block file sz b written = Ret (tt, put_state s (b + need ci) b data file (grow sz ci1) W H) ∧
  linked own s file ci b own' ci1 W H (b + need ci).
Proof using All.
  intros Hsz. destruct link_run as (own' & ci1 & W & H & Hrun & Hl). exists own', ci1, W, H. split; [|done].
  unfold append_block. step using (unfold assert; rewrite (proj2 (Z.leb_le sz SFS_BLKSIZE)) by (change SFS_BLKSIZE with 4096; lia); reflexivity).
  step using (unfold ci_at, deref, written; cbn; rewrite Hci; reflexivity).
  change SFS_LN_NBLKS with 32768. rewrite (proj2 (Z.leb_gt _ _)) by lia. step using (exact Hrun).
  step using (unfold ci_at, deref; cbn; rewrite lookup_insert_eq; reflexivity).
  unfold ci_set, modify, put_state, set_nodes. cbn. by rewrite insert_insert_eq.
Qed.

End link.

(** A block of data at the end of a file: [sfs_alloc_ino], [write_block] and [append_block]. *)
Lemma put_block_run k own s file ci data sz A :
  inv k own s → node_at s !! file = Some ci → nblks ci < 1036 → next_ino s + need ci ≤ ninos s → (length data ≤ 4096)%nat →
  0 ≤ sz ≤ 4096 → file ∈ A →
  let b := next_ino s in
  ∃ own' s' ci', sfs_alloc_ino s = Ret (b, alloced s (b + 1)) ∧
    write_block data b (alloced s (b + 1)) = Ret (tt, written s data) ∧
    append_block file sz b (written s data) = Ret (tt, s') ∧
    inv k own' s' ∧ grew A own s own' s' ∧ put_ok own s file ci data sz b own' s' ci'.
Proof.
  intros Hinv Hci Hn Hroom Hdata Hsz HA b. pose proof (v_node _ _ _ Hinv _ _ Hci) as Hok.
  assert (1 ≤ need ci ≤ 2) as Hneed by (unfold need; case_decide; lia).
  destruct (append_block_run k own s file ci data Hinv Hci Hn Hroom sz Hsz) as (own' & ci1 & W & H & Hrun & Hl).
  pose proof (not_owned k own s Hinv) as Hfree.
  destruct Hl as [_ Hown (F1 & F2 & F3 & F4 & F5 & F6 & F7 & F8 & F9) Hind Hmap Hkeep Hw1 Hw2 Hh1 Hh2].
  assert (own' !! b = Some (UData file (nblks ci)) ∧ own ⊆ own' ∧
    ∀ x u, own' !! x = Some u → own !! x = Some u ∨ next_ino s ≤ x < b + need ci ∧ u ≠ UNode) as (Hb & Hsub & Hnew).
  { pose proof (Hfree b ltac:(lia)) as Hb0. destruct Hown as [->|(p & Hp & Hp' & ->)].
    - split_and!; [apply lookup_insert_eq|by apply insert_subseteq|].
      intros x u [[<- <-]|[_ ?]]%lookup_insert_Some; [right; split; [lia|done]|by left].
    - split_and!; [rewrite lookup_insert_ne by lia; apply lookup_insert_eq| |].
      + trans (<[b := UData file (nblks ci)]> own); apply insert_subseteq; [done|]. rewrite lookup_insert_ne by lia. apply Hfree. lia.
      + intros x u [[<- <-]|[_ [[<- <-]|[_ ?]]%lookup_insert_Some]]%lookup_insert_Some; [right; split; [lia|done]|right; split; [lia|done]|by left]. }
  pose proof (n_count _ _ _ _ _ Hok) as [Hc Hc']. pose proof (n_size _ _ _ _ _ Hok) as Hs. pose proof (n_double _ _ _ _ _ Hok) as [Hd1 Hd2].
  assert (nblks (grow sz ci1) = nblks ci + 1 ∧ nblocks (inode (grow sz ci1)) = nblks ci + 1 ∧
    size (inode (grow sz ci1)) = size (inode ci) + sz) as (G1 & G2 & G3).
  { unfold grow. cbn. rewrite F1, F7, F8, Hc', !u32_small by lia. done. }
  assert (node_ok W own' k file (grow sz ci1)) as Hnode.
  { eapply (node_grow (words_at s) W own own' k file ci _ sz b); try done. split_and!; try done; cbn; congruence. }
  exists own', (put_state s (b + need ci) b data file (grow sz ci1) W H), (grow sz ci1). split_and!.
  - eapply alloc_ino_run; [done|lia].
  - unfold write_block. step using reflexivity.
    step using (unfold assert; cbn; rewrite (proj2 (Z.leb_le _ _)), (proj2 (Z.ltb_lt _ _)) by (change SFS_BLKSIZE with 4096; lia); reflexivity).
    done.
  - done.
  - eapply inv_put; try done; cbn; first [lia|split_and!; congruence].
  - eapply grew_put; try done; cbn; first [lia|split_and!; congruence].
  - split; try done.
    intros i Hi. cbn. apply Hmap. lia.
Qed.

(** * Files and directories in the tool *)

(** [ino] is a file or a link with the bytes [data]. *)
Definition file_is s (ino ty : Z) (data : list Z) : Prop :=
  ∃ ci, node_at s !! ino = Some ci ∧ type (inode ci) = ty ∧ size (inode ci) = Z.of_nat (length data) ∧
    ∀ j, 0 ≤ j < Z.of_nat (length data) →
      byte_at (image s) (mblk (words_at s) (inode ci) (j / 4096) * 4096 + j mod 4096) = data !!! Z.to_nat j.

(** An entry in the first bytes of its block. *)
Definition entry_is (d : gmap Z Z) (b : Z) (name : list Z) (ino : Z) : Prop :=
  ∃ rest, read_bytes d (b * 4096) 260 = le 4 ino ++ name ++ [0] ++ rest.

(** [ino] is a directory with the entries [l]. *)
Definition dir_is s (ino : Z) (l : list (list Z * Z)) : Prop :=
  ∃ ci, node_at s !! ino = Some ci ∧ type (inode ci) = SFS_TYPE_DIR ∧ nblks ci = Z.of_nat (length l) ∧
    ∀ i e, l !! i = Some e → entry_is (image s) (mblk (words_at s) (inode ci) (Z.of_nat i)) e.1 e.2.

Definition shown (e : list Z * hnode) : bool := negb (hidden e.1) && match e.2 with HOther => false | _ => true end.
Definition visible (l : list (list Z * hnode)) : list (list Z * hnode) := filter (λ e, shown e = true) l.

(** The image has what the host has under [n]; the directories in [A] are still growing. *)
Inductive kept (A : gset Z) s : Z → hnode → Prop :=
| kept_reg ino r data : ino ∉ A → file_is s ino SFS_TYPE_FILE data → kept A s ino (HReg r data)
| kept_lnk ino r target : ino ∉ A → file_is s ino SFS_TYPE_LINK target → kept A s ino (HLnk r target)
| kept_dir ino parent r l ents : ino ∉ A → dir_is s ino (([46], ino) :: ([46; 46], parent) :: ents) → linked_by s parent 0 →
    Forall2 (λ e x, e.1 = x.1 ∧ linked_by s x.2 1 ∧ kept A s x.2 e.2) (visible l) ents → kept A s ino (HDir r l).

Lemma hnode_ind' (P : hnode → Prop) :
  (∀ r d, P (HReg r d)) → (∀ r l, Forall (λ e, P e.2) l → P (HDir r l)) → (∀ r t, P (HLnk r t)) → P HDenied → P HOther → ∀ n, P n.
Proof.
  intros H1 H2 H3 H4 H5. fix IH 1. intros [r d|r l|r t| |]; [apply H1| |apply H3|apply H4|apply H5].
  apply H2. induction l as [|[name n] l IHl]; constructor; [apply IH|exact IHl].
Qed.

(** ** What lasts *)

Lemma data_owned k own s i ci j : inv k own s → node_at s !! i = Some ci → 0 ≤ j < nblks ci →
  own !! mblk (words_at s) (inode ci) j = Some (UData i j) ∧ j < 1036.
Proof.
  intros Hinv Hi Hj. pose proof (v_node _ _ _ Hinv _ _ Hi) as Hok. split; [by apply (n_data _ _ _ _ _ Hok)|].
  pose proof (n_count _ _ _ _ _ Hok). lia.
Qed.

Lemma file_block k own s i ci j : inv k own s → node_at s !! i = Some ci → 0 ≤ j < size (inode ci) → 0 ≤ j / 4096 < nblks ci.
Proof.
  intros Hinv Hi Hj. pose proof (n_size _ _ _ _ _ (v_node _ _ _ Hinv _ _ Hi)). split; [apply Z.div_pos; lia|].
  apply Z.div_lt_upper_bound; lia.
Qed.

Lemma file_is_grew k A own s own' s' ino ty data : inv k own s → grew A own s own' s' → ino ∉ A → file_is s ino ty data → file_is s' ino ty data.
Proof.
  intros Hinv Hg HA (ci & Hci & Hty & Hsz & Hd). destruct (g_node _ _ _ _ _ Hg _ _ Hci) as (ci' & Hci' & _ & Hty' & Hm).
  destruct (Hm HA) as (Hn & Hs & Hmap). exists ci'. split_and!; [done|congruence|congruence|]. intros j Hj.
  assert (0 ≤ j / 4096 < nblks ci) as Hb by (eapply file_block; [done|done|lia]).
  destruct (data_owned k own s ino ci (j / 4096) Hinv Hci Hb) as [Ho Hlt].
  rewrite Hmap by lia. rewrite (g_data _ _ _ _ _ Hg _ _ _ _ Ho); [by apply Hd|].
  apply SfsFile.block_of_addr, Z.mod_pos_bound. lia.
Qed.

Lemma entry_is_ext d d' b name ino : (∀ a, a / 4096 = b → byte_at d' a = byte_at d a) → entry_is d b name ino → entry_is d' b name ino.
Proof.
  intros H (rest & Hr). exists rest. rewrite <-Hr. apply read_ext. intros x Hx. apply H.
  replace x with (b * 4096 + (x - b * 4096)) by lia. apply SfsFile.block_of_addr. lia.
Qed.

Lemma dir_is_grew k A own s own' s' ino l : inv k own s → grew A own s own' s' → ino ∉ A → dir_is s ino l → dir_is s' ino l.
Proof.
  intros Hinv Hg HA (ci & Hci & Hty & Hn & He). destruct (g_node _ _ _ _ _ Hg _ _ Hci) as (ci' & Hci' & _ & Hty' & Hm).
  destruct (Hm HA) as (Hn' & Hs & Hmap). exists ci'. split_and!; [done|congruence|congruence|]. intros i e Hi.
  assert (i < length l)%nat as Hlt by by eapply lookup_lt_Some.
  destruct (data_owned k own s ino ci (Z.of_nat i) Hinv Hci) as [Ho Hlt']; [lia|].
  rewrite Hmap by lia. eapply entry_is_ext; [|by apply He]. intros a Ha. by eapply g_data.
Qed.

Lemma Forall2_under {X Y} (P Q : X → Y → Prop) l k : Forall (λ x, ∀ y, P x y → Q x y) l → Forall2 P l k → Forall2 Q l k.
Proof. intros H HP. induction HP; constructor; inversion H; auto. Qed.

Lemma kept_grew k A B own s own' s' n : inv k own s → grew B own s own' s' → B ⊆ A → ∀ x, kept A s x n → kept A s' x n.
Proof.
  intros Hinv Hg HB. induction n as [r d|r l IH|r t| |] using hnode_ind'; intros x Hk; inversion Hk; subst.
  - constructor; [done|]. eapply file_is_grew; [done|done|set_solver|done].
  - econstructor; [done|eapply dir_is_grew; [done|done|set_solver|done]|by eapply g_links|].
    eapply Forall2_under; [|done]. apply Forall_forall. intros e [_ He]%list_elem_of_filter y (? & Hl & Hy).
    split_and!; [done|by eapply g_links|]. rewrite Forall_forall in IH. by apply IH.
  - constructor; [done|]. eapply file_is_grew; [done|done|set_solver|done].
Qed.

(** ** Small steps *)

Lemma inv_name k own s nm : inv k own s → length nm = 256%nat → inv k own (set_name s nm).
Proof. intros [] Hn. by split. Qed.
Lemma inv_subpath k own s l : inv k own s → inv k own (set_subpath s l).
Proof. intros []. by split. Qed.

(** A step that changes no file. *)
Lemma grew_same A own s s' : image s' = image s → node_at s' = node_at s → words_at s' = words_at s → ninos s' = ninos s →
  subpath s' = subpath s → next_ino s' = next_ino s → grew A own s own s'.
Proof.
  intros E1 E2 E3 E4 E5 E6. split; [done|by rewrite E1| |by rewrite E6|unfold linked_by; by rewrite E2]. intros i ci Hi. exists ci.
  rewrite E2, E3. by split_and!.
Qed.

Definition put_node s (i : Z) ci : mkfs := set_nodes s (<[i := ci]> (node_at s)) (inodes s).

Lemma inc_links_run k own s file cf : inv k own s → node_at s !! file = Some cf → k + 1 < 65536 →
  inv (k + 1) own (put_node s file (inc_links cf)) ∧ grew ∅ own s own (put_node s file (inc_links cf)).
Proof.
  intros Hinv Hf Hk. assert (is_Some (node_at s !! file)) as Hsome by eauto.
  pose proof (v_node _ _ _ Hinv _ _ Hf) as Hok. split.
  - destruct Hinv. split; cbn; try done.
    + intros i. rewrite lookup_insert_is_Some'. rewrite <-v_nodes0. naive_solver.
    + intros i ci [[<- <-]|[_ Hi]]%lookup_insert_Some.
      * destruct Hok. split; cbn; try done. unfold u16. rewrite Z.mod_small by lia. lia.
      * eapply node_ok_mono; [by apply v_node0|done|lia|done].
    + intros h i Hi. apply lookup_insert_is_Some'. right. by eapply v_ichain0.
    + intros i ci [[<- <-]|[_ Hi]]%lookup_insert_Some; [by apply (v_itable0 _ cf)|by apply v_itable0].
  - split; cbn; [done|done| |done|]; [intros i ci Hi|intros i n (ci & Hi & Hl)]; (destruct (decide (i = file)) as [->|Hne]).
    + exists (inc_links cf). rewrite lookup_insert_eq. assert (ci = cf) as -> by congruence. by split_and!.
    + exists ci. rewrite lookup_insert_ne by done. by split_and!.
    + exists (inc_links cf). cbn. rewrite lookup_insert_eq. assert (ci = cf) as -> by congruence. split; [done|].
      pose proof (n_links _ _ _ _ _ Hok). unfold u16. rewrite Z.mod_small; lia.
    + exists ci. cbn. by rewrite lookup_insert_ne.
Qed.

(** The real numbers that the table of inodes has. *)
Definition reals s (r : Z) : Prop := ∃ i ci, node_at s !! i = Some ci ∧ real ci = r.

Definition new_ci (r ty : Z) : cache_inode := mkCi (mkDin 0 ty 0 0 (replicate 12 0) 0) 0 r 0 None None.

Lemma new_node_ok W own k i r ty : 0 ≤ k → 0 ≤ ty < 65536 → node_ok W own k i (new_ci r ty).
Proof.
  intros. split; cbn; try done; try lia. intros j Hj. unfold mblk. cbn. destruct (decide (j < 12)); [|done].
  apply (lookup_total_replicate_2 12). lia.
Qed.

Lemma alloc_inode_run k own s r ty : inv k own s → 0 ≤ k → 0 ≤ ty < 65536 → next_ino s < ninos s →
  let i := next_ino s in
  ∃ s', alloc_cache_inode r 0 ty s = Ret (i, s') ∧ inv k (<[i := UNode]> own) s' ∧ grew ∅ own s (<[i := UNode]> own) s' ∧
    node_at s !! i = None ∧ node_at s' = <[i := new_ci r ty]> (node_at s) ∧ next_ino s' = i + 1.
Proof.
  intros Hinv Hk Hty Hlt i. pose proof (alloc_ino_run k own s Hinv Hlt) as Hal. fold i in Hal.
  assert (own !! i = None) as Hfree by (eapply not_owned; [done|lia]).
  assert (node_at s !! i = None) as Hnone.
  { apply eq_None_not_Some. rewrite (v_nodes _ _ _ Hinv). congruence. }
  assert (own ⊆ <[i := UNode]> own) as Hsub by by apply insert_subseteq.
  eexists. split_and!.
  - unfold alloc_cache_inode. change (negb (0 =? 0)) with false. cbv iota. step using (exact Hal). reflexivity.
  - pose proof (v_sizes _ _ _ Hinv). destruct Hinv. split; cbn; try done; try lia.
    + split; [|by apply v_super0]. by f_equal.
    + intros b u [[<- <-]|[_ Hb]]%lookup_insert_Some; [right; lia|]. destruct (v_range0 b u Hb); [by left|right; lia].
    + intros j. rewrite lookup_insert_is_Some'. destruct (decide (i = j)) as [<-|Hne]; [rewrite lookup_insert_eq; naive_solver|].
      rewrite lookup_insert_ne by done. rewrite <-v_nodes0. naive_solver.
    + intros p l Hp. destruct (v_words0 p l Hp) as [? [ino Ho]]. split; [done|]. exists ino. by eapply lookup_weaken.
    + intros p ino [[_ ?]|[_ Hp]]%lookup_insert_Some; [done|by eapply v_inds0].
    + intros j ci [[<- <-]|[_ Hj]]%lookup_insert_Some; [by apply new_node_ok|]. eapply node_ok_mono; [by apply v_node0|done|done|done].
    + intros h j Hj. apply lookup_insert_is_Some'. unfold chain in Hj. destruct (decide (hash64 r = h)) as [<-|Hne].
      * rewrite lookup_insert_eq in Hj. apply elem_of_cons in Hj as [->|Hj]; [by left|right; by apply (v_ichain0 (hash64 r))].
      * rewrite lookup_insert_ne in Hj by done. right. by apply (v_ichain0 h).
    + intros j ci Hj. unfold chain. apply lookup_insert_Some in Hj as [[<- <-]|[Hne Hj]].
      * rewrite lookup_insert_eq. left.
      * apply v_itable0 in Hj. unfold chain in Hj. destruct (decide (hash64 r = hash64 (real ci))) as [->|Hh].
        -- rewrite lookup_insert_eq. by right.
        -- by rewrite lookup_insert_ne.
  - split; cbn; [done|done| |split_and!; [done|done|lia]|]; [intros j ci Hj|intros j n (ci & Hj & Hl)]; exists ci; cbn;
      rewrite lookup_insert_ne by congruence; by split_and!.
  - done.
  - done.
  - done.
Qed.

(** [search_cache_inode]. *)
Lemma search_inode_run k own s r : inv k own s →
  ∃ o, search_cache_inode r s = Ret (o, s) ∧
    match o with Some i => ∃ ci, node_at s !! i = Some ci ∧ real ci = r | None => ¬ reals s r end.
Proof.
  intros Hinv. unfold search_cache_inode, gets. eexists. split; [done|].
  destruct (list_find (has_real s r) (chain (inodes s) (hash64 r))) as [[n i]|] eqn:E; cbn.
  - apply list_find_Some in E as (_ & Hr & _). unfold has_real in Hr. destruct (node_at s !! i) as [ci|] eqn:Hi; [|done].
    exists ci. split; [done|]. by injection Hr.
  - intros (i & ci & Hi & <-). apply list_find_None in E. rewrite Forall_forall in E.
    apply (E i); [by eapply v_itable|]. unfold has_real. by rewrite Hi.
Qed.

(** ** Entries *)

(** The number that is kept for the indirect block of a file. *)
Definition spare ci : Z := if decide (nblks ci ≤ 12) then 1 else 0.

Lemma need_spare ci ci' : nblks ci' = nblks ci + 1 → need ci + spare ci' = 1 + spare ci.
Proof. intros E. unfold need, spare. rewrite E. repeat case_decide; lia. Qed.

Lemma take_block_of data n : (n ≤ length data)%nat → take n (block_of data) = take n data.
Proof. intros. unfold block_of. by rewrite take_app_le. Qed.

(** The first bytes of a block that has just been written. *)
Lemma read_block d b data n : (length data ≤ 4096)%nat → 0 ≤ n ≤ Z.of_nat (length data) →
  read_bytes (write_bytes d (b * 4096) (block_of data)) (b * 4096) n = take (Z.to_nat n) data.
Proof.
  intros Hl Hn. pose proof (read_write_same d (b * 4096) (block_of data)) as H. rewrite length_block_of in H by done.
  change (Z.of_nat 4096) with 4096 in H. rewrite <-(take_block_of data) by lia. rewrite <-H at 2.
  rewrite <-(drop_0 (read_bytes _ _ 4096)).
  change 0%nat with (Z.to_nat 0). rewrite read_take_drop by lia. f_equal. lia.
Qed.

Lemma dir_is_put own s cur ci data b own' s' ci' k l e A :
  inv k own s → node_at s !! cur = Some ci → nblks ci < 1036 → put_ok own s cur ci data 256 b own' s' ci' → grew A own s own' s' →
  (∃ rest, data = le 4 e.2 ++ e.1 ++ [0] ++ rest) → length data = 260%nat → dir_is s cur l → dir_is s' cur (l ++ [e]).
Proof.
  intros Hinv Hci Hn Hp Hg (rest & Hdata) Hlen (ci0 & Hci0 & Hty & Hnl & He). assert (ci0 = ci) as -> by congruence.
  destruct Hp as [_ Hnode (P1 & P2 & P3 & P4 & P5) Hmap Himg _ _]. exists ci'. split_and!.
  - rewrite Hnode. apply lookup_insert_eq.
  - congruence.
  - rewrite length_app. cbn. lia.
  - intros i x Hx. assert (i < length (l ++ [e]))%nat as Hi by by eapply lookup_lt_Some. rewrite length_app in Hi. cbn in Hi.
    rewrite Hmap by lia. case_decide as E.
    + rewrite lookup_app_r in Hx by lia. replace (i - length l)%nat with O in Hx by lia. injection Hx as <-.
      exists rest. rewrite Himg, read_block by lia. rewrite take_ge by lia. done.
    + rewrite lookup_app_l in Hx by lia. destruct (data_owned k own s cur ci (Z.of_nat i) Hinv Hci) as [Ho _]; [lia|].
      eapply entry_is_ext; [|by apply He]. intros a Ha. by eapply g_data.
Qed.

Lemma length_copy_name old name : length old = 256%nat → (length name ≤ 255)%nat → length (copy_name old name) = 256%nat.
Proof. intros H1 H2. unfold copy_name. rewrite !length_app, length_drop. cbn. lia. Qed.

Lemma add_entry_run k own s cur file name ci cf :
  inv k own s → node_at s !! cur = Some ci → type (inode ci) = SFS_TYPE_DIR → node_at s !! file = Some cf →
  (length name ≤ 255)%nat → nblks ci < 1036 → next_ino s + need ci ≤ ninos s → k + 1 < 65536 →
  ∃ own' s' ci', add_entry cur file name s = Ret (tt, s') ∧ inv (k + 1) own' s' ∧ grew {[cur]} own s own' s' ∧
    node_at s' !! cur = Some ci' ∧ nblks ci' = nblks ci + 1 ∧ next_ino s' + spare ci' = next_ino s + spare ci + 1 ∧
    (∀ l, dir_is s cur l → dir_is s' cur (l ++ [(name, file)])) ∧ (∀ r, reals s' r → reals s r) ∧
    dom (node_at s') = dom (node_at s) ∧ linked_by s' file 1.
Proof.
  intros Hinv Hci Hty Hf Hname Hn Hroom Hk. set (nm := copy_name (entry_name s) name).
  assert (length nm = 256%nat) as Hnm by (apply length_copy_name; [apply (v_name _ _ _ Hinv)|done]).
  set (s0 := set_name s nm). pose proof (inv_name k own s nm Hinv Hnm) as Hinv0. fold s0 in Hinv0.
  set (data := le 4 file ++ nm). assert (length data = 260%nat) as Hdl by (unfold data; rewrite length_app, length_le; lia).
  destruct (put_block_run k own s0 cur ci data 256 {[cur]}) as (own1 & s1 & ci1 & Hal & Hwr & Hap & Hinv1 & Hg1 & Hp);
    [done|done|done|exact Hroom|lia|lia|set_solver|].
  assert (grew {[cur]} own s own s0) as Hg0 by by apply grew_same.
  destruct (g_node _ _ _ _ _ Hg1 _ _ Hf) as (cf1 & Hcf1 & Hr1 & _).
  destruct (inc_links_run k own1 s1 file cf1 Hinv1 Hcf1 Hk) as [Hinv2 Hg2]. set (s2 := put_node s1 file (inc_links cf1)) in *.
  assert (node_at s1 !! cur = Some ci1) as Hc1 by (rewrite (p_node _ _ _ _ _ _ _ _ _ _ Hp); apply lookup_insert_eq).
  destruct (p_ci _ _ _ _ _ _ _ _ _ _ Hp) as (P1 & P2 & P3 & P4 & P5).
  assert (∃ ci2, node_at s2 !! cur = Some ci2 ∧ nblks ci2 = nblks ci1) as (ci2 & Hc2 & Hn2).
  { destruct (g_node _ _ _ _ _ Hg2 _ _ Hc1) as (ci2 & ? & _ & _ & H). exists ci2. split; [done|]. by destruct (H ltac:(set_solver)). }
  exists own1, s2, ci2. split_and!.
  - unfold add_entry. step using (unfold ci_at, deref; rewrite Hci; reflexivity).
    step using (unfold assert; rewrite Hty, Z.eqb_refl, (proj2 (Z.leb_le _ _)) by (change SFS_MAX_FNAME_LEN with 255; lia); reflexivity).
    step using reflexivity. fold nm. fold s0. step using (exact Hal). step using reflexivity.
    change (entry_name (alloced s0 (next_ino s0 + 1))) with nm. fold data. step using (exact Hwr). step using (exact Hap).
    step using (unfold ci_at, deref; rewrite Hcf1; reflexivity). reflexivity.
  - done.
  - eapply grew_trans; [done|]. eapply grew_trans; [exact Hg1|]. eapply grew_mono; [|exact Hg2]. set_solver.
  - done.
  - lia.
  - pose proof (need_spare ci ci2 ltac:(lia)). change (next_ino s2) with (next_ino s1). rewrite (p_next _ _ _ _ _ _ _ _ _ _ Hp).
    change (next_ino s0) with (next_ino s). lia.
  - intros l Hl. eapply dir_is_grew; [exact Hinv1|exact Hg2|set_solver|].
    assert (dir_is s0 cur l) as Hl0 by exact Hl.
    eapply dir_is_put; [exact Hinv0|exact Hci|done|exact Hp|exact Hg1| |done|done]. by eexists.
  - intros r (i & c & Hi & Hr). unfold s2, put_node in Hi. cbn in Hi. rewrite (p_node _ _ _ _ _ _ _ _ _ _ Hp) in Hi.
    destruct (decide (i = file)) as [->|Hne].
    + rewrite lookup_insert_eq in Hi. injection Hi as <-. exists file, cf. split; [done|]. cbn in Hr. congruence.
    + rewrite lookup_insert_ne in Hi by done. apply lookup_insert_Some in Hi as [[<- <-]|[_ Hi]]; [|by exists i, c].
      exists cur, ci. split; [done|]. congruence.
  - unfold s2, put_node. cbn. rewrite (p_node _ _ _ _ _ _ _ _ _ _ Hp), !dom_insert_L. cbn.
    assert (file ∈ dom (node_at s) ∧ cur ∈ dom (node_at s)) as [] by (split; apply elem_of_dom; eauto). set_solver.
  - exists (inc_links cf1). split; [apply lookup_insert_eq|]. cbn. pose proof (n_links _ _ _ _ _ (v_node _ _ _ Hinv1 _ _ Hcf1)).
    unfold u16. rewrite Z.mod_small; lia.
Qed.

(** ** Files *)

Lemma same_reals s s' file ci ci' : node_at s' = <[file := ci']> (node_at s) → node_at s !! file = Some ci → real ci' = real ci →
  (∀ r, reals s' r → reals s r) ∧ dom (node_at s') = dom (node_at s).
Proof.
  intros E Hci Hr. split.
  - intros r (i & c & Hi & <-). rewrite E in Hi. apply lookup_insert_Some in Hi as [[<- <-]|[_ Hi]]; [exists file, ci|exists i, c]; by split.
  - rewrite E, dom_insert_L. assert (file ∈ dom (node_at s)) by (apply elem_of_dom; eauto). set_solver.
Qed.

Lemma file_is_put k own s file ci data b own' s' ci' A ty data0 :
  inv k own s → node_at s !! file = Some ci → Z.of_nat (length data0) = 4096 * nblks ci → (length data ≤ 4096)%nat →
  put_ok own s file ci data (Z.of_nat (length data)) b own' s' ci' → grew A own s own' s' → file_is s file ty data0 →
  file_is s' file ty (data0 ++ data).
Proof.
  intros Hinv Hci Hfull Hl Hp Hg (c & Hc & Hty & Hsz & Hd). assert (c = ci) as -> by congruence.
  destruct Hp as [_ Hnode (P1 & P2 & P3 & P4 & P5) Hmap Himg _ _]. exists ci'. split_and!.
  - rewrite Hnode. apply lookup_insert_eq.
  - congruence.
  - rewrite length_app. lia.
  - intros j Hj. rewrite length_app in Hj. pose proof (SfsFile.addr_split j) as [Hj' Hjm].
    assert (0 ≤ j / 4096 ≤ nblks ci) as Hq. { split; [apply Z.div_pos; lia|]. lia. }
    rewrite Hmap by done. case_decide as E.
    + rewrite Himg, byte_write, length_block_of, decide_True by lia. rewrite lookup_total_app_r by lia.
      unfold block_of. rewrite lookup_total_app_l by lia. f_equal. lia.
    + rewrite lookup_total_app_l by lia. destruct (data_owned k own s file ci (j / 4096) Hinv Hci) as [Ho _]; [lia|].
      rewrite (g_data _ _ _ _ _ Hg _ _ _ _ Ho); [apply Hd; lia|]. by apply SfsFile.block_of_addr.
Qed.

(** The number of blocks of [n] bytes. *)
Definition nb (data : list Z) : Z := (Z.of_nat (length data) + 4095) / 4096.

Lemma nb_cons data : data ≠ [] → nb data = 1 + nb (drop 4096 data).
Proof.
  intros Hne. unfold nb. rewrite length_drop. assert (0 < Z.of_nat (length data)) by (destruct data; [done|cbn; lia]).
  destruct (decide (Z.of_nat (length data) ≤ 4096)).
  - replace (length data - 4096)%nat with O by lia. change ((Z.of_nat 0 + 4095) / 4096) with 0.
    symmetry. apply (Z.div_unique _ _ _ (Z.of_nat (length data) - 1)); lia.
  - rewrite Nat2Z.inj_sub by lia. change (Z.of_nat 4096) with 4096.
    replace (Z.of_nat (length data) + 4095) with (Z.of_nat (length data) - 4096 + 4095 + 1 * 4096) by lia. rewrite Z.div_add by lia. lia.
Qed.
Lemma nb_pos data : 0 ≤ nb data.
Proof. unfold nb. apply Z.div_pos; lia. Qed.

(** What adding bytes to [file] brings about. *)
Record filled k own s (file : Z) ci (n : Z) own' s' : Prop := {
  fl_inv : inv k own' s';
  fl_grew : grew {[file]} own s own' s';
  fl_next : ∃ ci', node_at s' !! file = Some ci' ∧ next_ino s' + spare ci' = next_ino s + spare ci + n;
  fl_reals : (∀ r, reals s' r → reals s r) ∧ dom (node_at s') = dom (node_at s) }.

Lemma file_loop_run k file fuel : ∀ own s data data0 last ci ty,
  inv k own s → node_at s !! file = Some ci → file_is s file ty data0 →
  data = [] ∨ Z.of_nat (length data0) = 4096 * nblks ci ∧ last = SFS_BLKSIZE →
  nblks ci + nb data ≤ 1036 → next_ino s + spare ci + nb data ≤ ninos s → nb data < Z.of_nat fuel →
  ∃ own' s', file_loop fuel file data last s = Ret (tt, s') ∧ filled k own s file ci (nb data) own' s' ∧ file_is s' file ty (data0 ++ data).
Proof.
  induction fuel as [|fuel IH]; intros own s data data0 last ci ty Hinv Hci Hf Hor Hn Hroom Hfuel; [pose proof (nb_pos data); lia|].
  cbn [file_loop]. change (Z.to_nat SFS_BLKSIZE) with 4096%nat. destruct (decide (data = [])) as [->|Hne].
  - exists own, s. split_and!; [done| |by rewrite app_nil_r]. split; [done|by apply grew_same|exists ci; split; [done|change (nb []) with 0; lia]|done].
  - destruct Hor as [?|[Hfull ->]]; [done|]. rewrite nb_cons in * by done. pose proof (nb_pos (drop 4096 data)) as Hpos.
    set (buf := take 4096 data). assert (0 < Z.of_nat (length buf) ≤ 4096) as Hbuf.
    { unfold buf. rewrite length_take. destruct data; [done|]. cbn [length]. lia. }
    rewrite (proj2 (Z.eqb_neq _ _)) by lia. step using reflexivity.
    destruct (put_block_run k own s file ci buf (Z.of_nat (length buf)) {[file]}) as (own1 & s1 & ci1 & Hal & Hwr & Hap & Hinv1 & Hg1 & Hp);
      [done|done|lia| |lia|lia|set_solver|].
    { unfold need, spare in *. repeat case_decide; lia. }
    step using (exact Hal). step using (exact Hwr). step using (exact Hap).
    destruct (p_ci _ _ _ _ _ _ _ _ _ _ Hp) as (P1 & _ & _ & P4 & _). pose proof (need_spare ci ci1 P1) as Hns.
    pose proof (p_next _ _ _ _ _ _ _ _ _ _ Hp) as Hnext. destruct (g_const _ _ _ _ _ Hg1) as (Hni & _ & _).
    assert (node_at s1 !! file = Some ci1) as Hc1 by (rewrite (p_node _ _ _ _ _ _ _ _ _ _ Hp); apply lookup_insert_eq).
    assert (file_is s1 file ty (data0 ++ buf)) as Hf1 by (eapply file_is_put; [exact Hinv|done|done|lia|exact Hp|exact Hg1|done]).
    destruct (IH own1 s1 (drop 4096 data) (data0 ++ buf) (Z.of_nat (length buf)) ci1 ty) as (own2 & s2 & Hrun & [I2 G2 (c2 & Hc2 & Hn2) [R2 D2]] & Hf2);
      [done|done|done| |lia|lia|lia|].
    { destruct (decide (Z.of_nat (length data) ≤ 4096)); [left; apply drop_ge; lia|]. right. change SFS_BLKSIZE with 4096.
      unfold buf. rewrite length_app, length_take. lia. }
    destruct (same_reals s s1 file ci ci1) as [R1 D1]; [apply Hp|done|done|].
    exists own2, s2. split_and!; [done| |].
    + split; [done|by eapply grew_trans| |].
      * exists c2. split; [done|]. lia.
      * split; [auto|congruence].
    + rewrite <-app_assoc in Hf2. unfold buf in Hf2. by rewrite take_drop in Hf2.
Qed.

(** A new block is entered under the hash of 0, so that [search_cache_block] does not find it. *)
Lemma new_block_lost s p s' : alloc_cache_block 0 s = Ret (p, s') → hash32 p ≠ 0 → chain (blocks s) (hash32 p) = [] →
  search_cache_block p s' = Ret (None, s').
Proof.
  intros Hrun Hp Hc. unfold alloc_cache_block in Hrun. change (negb (0 =? 0)) with false in Hrun. cbv iota in Hrun.
  bind_inv Hrun. unfold sfs_alloc_ino in Hrun0. bind_inv Hrun0. injection Hrun1 as <- <-.
  destruct (next_ino s <? ninos s); [|done]. bind_inv Hrun0. injection Hrun1 as <- <-. injection Hrun0 as <- <-.
  bind_inv Hrun. injection Hrun0 as <- <-. injection Hrun as <- <-. unfold search_cache_block, gets. do 2 f_equal. cbn.
  unfold chain in *. change (hash32 0) with 0. rewrite lookup_insert_ne by done. by rewrite Hc.
Qed.

End Mksfs.
