(* ===== verification/Image.v ===== *)
(** Disk images: what tools/mksfs.c writes is a file system that the kernel mounts, and in which it finds the files of
    the host. *)
From S2P Require Import Prelude Bitmap SfsDisk Iobuf SfsInode SfsFile SfsDir Mksfs.

Module Image.
Import Bitmap SfsDisk Mksfs.
Set Default Proof Using "Type".
Implicit Types (s : mkfs) (own : gmap Z use) (ci : cache_inode).

(** * The host *)

(** Sums and lists over the entries that are copied. *)
Definition over {X} (op : X → X → X) (e0 : X) (f : hnode → X) (l : list (list Z * hnode)) : X :=
  foldr (λ e a, if shown e then op (f e.2) a else a) e0 l.

(** Numbers that [n] takes in the image, at most, and entries made for it. *)
Fixpoint cost (n : hnode) : Z :=
  match n with
  | HReg _ data => 2 + nb data
  | HLnk _ _ => 3
  | HDir _ l => 4 + over Z.add 0 (λ n, 1 + cost n) l
  | _ => 0
  end.
Fixpoint ents (n : hnode) : Z :=
  match n with
  | HDir _ l => 3 + over Z.add 0 ents l
  | _ => 1
  end.

(** The inode numbers on the host. *)
Fixpoint dirs (n : hnode) : list Z :=
  match n with
  | HDir r l => r :: over app [] dirs l
  | _ => []
  end.
Fixpoint links (n : hnode) : list Z :=
  match n with
  | HDir r l => over app [] links l
  | HLnk r _ => [r]
  | _ => []
  end.
Fixpoint regs (n : hnode) : list (Z * list Z) :=
  match n with
  | HReg r data => [(r, data)]
  | HDir r l => over app [] regs l
  | _ => []
  end.

Definition name_ok (name : list Z) : Prop := (length name ≤ 255)%nat ∧ name ≠ [] ∧ Forall (λ c, 0 < c < 256 ∧ c ≠ 47) name.

(** What the image can hold and the kernel can read. *)
Inductive host_ok : hnode → Prop :=
| ho_reg r data : nb data ≤ 1036 → host_ok (HReg r data)
| ho_lnk r target : Z.of_nat (length target) < 4096 → host_ok (HLnk r target)
| ho_dir r l : 2 + Z.of_nat (length (visible l)) ≤ 1036 → NoDup (visible l).*1 →
    Forall (λ e, hidden e.1 = true ∨ name_ok e.1 ∧ (e.2 = HOther ∨ host_ok e.2)) l → host_ok (HDir r l).

Lemma cost_pos n : 0 ≤ cost n.
Proof.
  induction n as [r d|r l IH|r t| |] using hnode_ind'; cbn [cost]; try lia; [pose proof (nb_pos d); lia|].
  assert (0 ≤ over Z.add 0 (λ n, 1 + cost n) l); [|lia].
  unfold over. induction IH as [|e l He _ IHl]; cbn [foldr]; [lia|]. destruct (shown e); lia.
Qed.
Lemma ents_pos n : 1 ≤ ents n.
Proof.
  induction n as [r d|r l IH|r t| |] using hnode_ind'; cbn [ents]; try lia.
  assert (0 ≤ over Z.add 0 ents l); [|lia].
  unfold over. induction IH as [|e l He _ IHl]; cbn [foldr]; [lia|]. destruct (shown e); lia.
Qed.

Lemma over_pos l : 0 ≤ over Z.add 0 ents l ∧ 0 ≤ over Z.add 0 (λ n, 1 + cost n) l.
Proof.
  unfold over. induction l as [|e l IH]; cbn [foldr]; [lia|]. pose proof (ents_pos e.2). pose proof (cost_pos e.2).
  destruct (shown e); lia.
Qed.

(** * Copying the tree *)

Section tree.
(** The files of the whole host, with their inode numbers. *)
Context (R : list (Z * list Z)).

(** An inode that the tool has for a file of the host holds the bytes of the file. *)
Definition faithful (A : gset Z) s : Prop :=
  ∀ i ci d, node_at s !! i = Some ci → (real ci, d) ∈ R → i ∉ A ∧ file_is s i SFS_TYPE_FILE d.

Record ready (A : gset Z) (k : Z) own s (cur : Z) ci : Prop := {
  r_inv : inv k own s;
  r_faithful : faithful A s;
  r_open : A ⊆ dom (node_at s);
  r_cur : cur ∈ A ∧ node_at s !! cur = Some ci ∧ type (inode ci) = SFS_TYPE_DIR;
  r_k : 0 ≤ k }.

(** Directories, links and files that are to come. *)
Record sane (D L : list Z) (F : list (Z * list Z)) s : Prop := {
  s_nodup : NoDup D;
  s_new : ∀ r, r ∈ D → ¬ reals s r;
  s_dl : ∀ r, r ∈ D → r ∉ L;
  s_files : (∀ r, r ∈ D ∨ r ∈ L → r ∉ R.*1) ∧ F ⊆ R }.

(** The inodes that [s'] has and [s] did not have are those of [D], [L] and [F]. *)
Definition seen (D L : list Z) (F : list (Z * list Z)) s s' : Prop :=
  ∀ r, reals s' r → reals s r ∨ r ∈ D ∨ r ∈ L ∨ r ∈ F.*1.

Lemma sane_app D1 D2 L1 L2 F1 F2 s : sane (D1 ++ D2) (L1 ++ L2) (F1 ++ F2) s →
  sane D1 L1 F1 s ∧ ∀ s', seen D1 L1 F1 s s' → sane D2 L2 F2 s'.
Proof.
  intros [(N1 & N12 & N2)%NoDup_app H2 H3 [H4 H5]]. split.
  - split; [done|set_solver|set_solver|set_solver].
  - intros s' Hs. split; [done| |set_solver|set_solver]. intros r Hr Hr'. destruct (Hs r Hr') as [?|[?|[?|Hf]]].
    + apply (H2 r); [set_solver|done].
    + by apply (N12 r).
    + apply (H3 r); set_solver.
    + apply (H4 r); [set_solver|]. apply list_elem_of_fmap in Hf as ([r' d] & -> & Hf). apply list_elem_of_fmap. exists (r', d). set_solver.
Qed.

Lemma faithful_grew A B k own s own' s' : faithful A s → inv k own s → grew B own s own' s' → B ⊆ A →
  (∀ i ci d, node_at s' !! i = Some ci → node_at s !! i = None → (real ci, d) ∈ R → i ∉ A ∧ file_is s' i SFS_TYPE_FILE d) →
  faithful A s'.
Proof.
  intros Hf Hinv Hg HB Hnew i ci' d Hi' Hd. destruct (node_at s !! i) as [ci|] eqn:Hi; [|by eapply Hnew].
  destruct (g_node _ _ _ _ _ Hg _ _ Hi) as (c & Hc & Hr & _). assert (c = ci') as -> by congruence. rewrite Hr in Hd.
  destruct (Hf i ci d Hi Hd) as [HA Hfile]. split; [done|]. eapply file_is_grew; [done|done|set_solver|done].
Qed.

Lemma grew_dom A own s own' s' : grew A own s own' s' → dom (node_at s) ⊆ dom (node_at s').
Proof. intros Hg i [ci Hi]%elem_of_dom. destruct (g_node _ _ _ _ _ Hg _ _ Hi) as (c & Hc & _). apply elem_of_dom. eauto. Qed.

Lemma kept_weaken A A' s n : A ⊆ A' → ∀ x, kept A' s x n → kept A s x n.
Proof.
  intros HA. induction n as [r d|r l IH|r t| |] using hnode_ind'; intros x Hk; inversion Hk; subst.
  - constructor; [set_solver|done].
  - econstructor; [set_solver|done|done|]. eapply Forall2_under; [|done]. apply Forall_forall.
    intros e [_ He]%list_elem_of_filter y (? & ? & Hy). split_and!; [done|done|]. rewrite Forall_forall in IH. by apply IH.
  - constructor; [set_solver|done].
Qed.

(** What [add_node] of [n] into the directory [cur] brings about. *)
Record copied (A : gset Z) (k : Z) own s (cur : Z) ci (name : list Z) (n : hnode) (own' : gmap Z use) s' ci' (x : Z) : Prop := {
  c_ready : ready A (k + ents n) own' s' cur ci';
  c_count : nblks ci' = nblks ci + 1;
  c_grew : grew {[cur]} own s own' s';
  c_entry : ∀ l, dir_is s cur l → dir_is s' cur (l ++ [(name, x)]);
  c_kept : linked_by s' x 1 ∧ kept A s' x n;
  c_next : next_ino s' + spare ci' ≤ next_ino s + spare ci + 1 + cost n;
  c_seen : seen (dirs n) (links n) (regs n) s s' }.

(** ** One node *)

(** The entry in [cur] for [x], made when the node is complete. *)
Lemma finish_entry A k own0 s0 cur ci own s x name n cx c :
  ready A k own0 s0 cur ci → nblks ci < 1036 → (length name ≤ 255)%nat → c + 1 < 65536 → k ≤ c → c + 1 = k + ents n →
  inv c own s → faithful A s → grew ∅ own0 s0 own s → node_at s !! x = Some cx → kept A s x n →
  next_ino s ≤ next_ino s0 + cost n → next_ino s0 + spare ci + 1 + cost n ≤ ninos s0 →
  seen (dirs n) (links n) (regs n) s0 s →
  ∃ own' s' ci', add_entry cur x name s = Ret (tt, s') ∧ copied A k own0 s0 cur ci name n own' s' ci' x.
Proof.
  intros [Hinv0 Hf0 HA0 (Hcur & Hci & Hty) Hk] Hn Hname Hc Hkc Hents Hinv Hf Hg Hx Hkept Hnext Hroom Hseen.
  destruct (g_node _ _ _ _ _ Hg _ _ Hci) as (ci1 & Hci1 & _ & Hty1 & Hm1). destruct (Hm1 ltac:(set_solver)) as (Hn1 & _ & _).
  destruct (g_const _ _ _ _ _ Hg) as (Hni & _ & _).
  assert (need ci1 ≤ 1 + spare ci1) by (unfold need, spare; repeat case_decide; lia).
  assert (spare ci1 = spare ci) as Hsp by (unfold spare; by rewrite Hn1).
  destruct (add_entry_run c own s cur x name ci1 cx) as (own' & s' & ci' & Hrun & Hinv' & Hg' & Hci' & Hn' & Hnext' & Hdir & Hreals & Hdom & Hlink);
    [done|done|congruence|done|done|lia|lia|done|].
  exists own', s', ci'. split; [done|].
  assert (grew {[cur]} own0 s0 own' s') as Hgg by (eapply grew_trans; [eapply grew_mono; [|exact Hg]; set_solver|done]).
  assert (kept A s' x n) as Hk' by (eapply kept_grew; [exact Hinv|exact Hg'|set_solver|done]).
  split.
  - rewrite <-Hents. split.
    + done.
    + eapply faithful_grew; [exact Hf|exact Hinv|exact Hg'|set_solver|]. intros i ci2 d Hi Hnone. exfalso.
      assert (i ∈ dom (node_at s)) as Hd by (rewrite <-Hdom; apply elem_of_dom; eauto). apply elem_of_dom in Hd as [? ?]. congruence.
    + etrans; [exact HA0|]. by eapply grew_dom.
    + split_and!; [done|done|]. destruct (g_node _ _ _ _ _ Hgg _ _ Hci) as (c2 & Hc2 & _ & Ht2 & _). congruence.
    + lia.
  - lia.
  - done.
  - intros l Hl. apply Hdir. eapply dir_is_grew; [exact Hinv0|exact Hg|set_solver|done].
  - done.
  - lia.
  - intros r Hr. apply Hseen, Hreals, Hr.
Qed.

Lemma grew_refl B own s : grew B own s own s.
Proof. by apply grew_same. Qed.

Lemma empty_file s i r ty : node_at s !! i = Some (new_ci r ty) → file_is s i ty [].
Proof. intros Hi. exists (new_ci r ty). split_and!; [done..|]. intros j Hj. cbn in Hj. lia. Qed.

(** A new inode that has been filled. *)
Record made (A : gset Z) (k : Z) own s (r ty : Z) own' s' (x n : Z) : Prop := {
  m_inv : inv k own' s';
  m_grew : grew ∅ own s own' s';
  m_fresh : node_at s !! x = None ∧ x ∉ A;
  m_node : ∃ cx, node_at s' !! x = Some cx ∧ real cx = r;
  m_others : ∀ i ci', node_at s' !! i = Some ci' → node_at s !! i = None → i = x;
  m_next : next_ino s' ≤ next_ino s + 2 + n;
  m_seen : ∀ r', reals s' r' → reals s r' ∨ r' = r }.

Lemma new_made A k own s r ty : inv k own s → 0 ≤ k → 0 ≤ ty < 65536 → next_ino s < ninos s → A ⊆ dom (node_at s) →
  let x := next_ino s in
  ∃ own1 s1, alloc_cache_inode r 0 ty s = Ret (x, s1) ∧ inv k own1 s1 ∧ node_at s1 !! x = Some (new_ci r ty) ∧ next_ino s1 = x + 1 ∧
    ninos s1 = ninos s ∧ grew ∅ own s own1 s1 ∧ node_at s !! x = None ∧ x ∉ A ∧ dom (node_at s1) = {[x]} ∪ dom (node_at s) ∧
    (∀ r', reals s1 r' → reals s r' ∨ r' = r) ∧
    ∀ n own2 s2, filled k own1 s1 x (new_ci r ty) n own2 s2 → made A k own s r ty own2 s2 x n.
Proof.
  intros Hinv Hk Hty Hlt HA x. destruct (alloc_inode_run k own s r ty Hinv Hk Hty Hlt) as (s1 & Hrun & Hinv1 & Hg & Hnone & Hnode & Hnext).
  assert (x ∉ A) as HxA. { intros HxA. apply HA, elem_of_dom in HxA as [? ?]. unfold x in *. congruence. }
  assert (node_at s1 !! x = Some (new_ci r ty)) as Hx by (rewrite Hnode; apply lookup_insert_eq).
  assert (∀ r', reals s1 r' → reals s r' ∨ r' = r) as Hreals.
  { intros r' (i & c & Hi & <-). rewrite Hnode in Hi. apply lookup_insert_Some in Hi as [[<- <-]|[_ Hi]]; [by right|left; by exists i, c]. }
  assert (dom (node_at s1) = {[x]} ∪ dom (node_at s)) as Hdom1 by (rewrite Hnode, dom_insert_L; done).
  eexists _, s1. split_and!; [done|done|done|done|by destruct (g_const _ _ _ _ _ Hg)|done|done|done|done|done|].
  intros n own2 s2 [Hinv2 Hg2 (cx & Hcx & Hn2) [Hr2 Hd2]]. split.
  - done.
  - apply (grew_new ∅ _ _ _ _ x Hnone). eapply grew_trans; [eapply grew_mono; [|exact Hg]|eapply grew_mono; [|exact Hg2]]; set_solver.
  - done.
  - destruct (g_node _ _ _ _ _ Hg2 _ _ Hx) as (c & Hc & Hr & _). by exists c.
  - intros i ci' Hi Hs. assert (i ∈ dom (node_at s1)) as Hi1 by (rewrite <-Hd2; apply elem_of_dom; eauto).
    rewrite Hdom1 in Hi1. apply elem_of_union in Hi1 as [?%elem_of_singleton|Hi1]; [done|]. apply elem_of_dom in Hi1 as [? ?]. congruence.
  - change (spare (new_ci r ty)) with 1 in Hn2. assert (0 ≤ spare cx) by (unfold spare; case_decide; lia). lia.
  - intros r' Hr'. by apply Hreals, Hr2.
Qed.

Lemma add_link_run A k own s cur ci name r target :
  let n := HLnk r target in
  ready A k own s cur ci → nblks ci < 1036 → (length name ≤ 255)%nat → Z.of_nat (length target) < 4096 →
  k + ents n < 65536 → next_ino s + spare ci + 1 + cost n ≤ ninos s → sane (dirs n) (links n) (regs n) s →
  ∃ own' s' ci' x, add_link cur name r target s = Ret (tt, s') ∧ copied A k own s cur ci name n own' s' ci' x.
Proof.
  intros n Hready Hn Hname Ht Hk Hroom [_ _ _ [HR _]]. pose proof Hready as [Hinv Hf HA Hcur Hk0]. cbn [n ents cost] in *.
  assert (0 ≤ spare ci) by (unfold spare; case_decide; lia).
  destruct (new_made A k own s r SFS_TYPE_LINK) as (own1 & s1 & Hal & Hinv1 & Hx & Hnx & Hni & Hg1 & Hnone & HxA & _ & _ & Hmade);
    [done|done|done|lia|done|]. set (x := next_ino s) in *.
  destruct (put_block_run k own1 s1 x (new_ci r SFS_TYPE_LINK) target (Z.of_nat (length target)) {[x]}) as (own2 & s2 & ci2 & Hb & Hw & Hp & Hinv2 & Hg2 & Hput);
    [done|done|cbn; lia|change (need (new_ci r SFS_TYPE_LINK)) with 1; lia|lia|lia|set_solver|].
  destruct (p_ci _ _ _ _ _ _ _ _ _ _ Hput) as (P1 & _ & _ & P4 & _). pose proof (need_spare (new_ci r SFS_TYPE_LINK) ci2 P1) as Hns.
  assert (filled k own1 s1 x (new_ci r SFS_TYPE_LINK) 1 own2 s2) as Hfill.
  { split; [done|done| |].
    - exists ci2. split; [rewrite (p_node _ _ _ _ _ _ _ _ _ _ Hput); apply lookup_insert_eq|]. rewrite (p_next _ _ _ _ _ _ _ _ _ _ Hput). lia.
    - eapply same_reals; [apply Hput|done|done]. }
  destruct (Hmade _ _ _ Hfill) as [_ Hg _ (cx & Hcx & Hrx) Hoth Hnext Hseen].
  assert (file_is s2 x SFS_TYPE_LINK target) as Hfile.
  { rewrite <-(app_nil_l target). eapply file_is_put; [exact Hinv1|done|done|lia|exact Hput|exact Hg2|by eapply empty_file]. }
  destruct (finish_entry A k own s cur ci own2 s2 x name n cx k) as (own' & s' & ci' & Hrun & Hcop); try done; cbn [n cost ents]; try lia.
  - eapply faithful_grew; [exact Hf|exact Hinv|exact Hg|set_solver|]. intros i c d Hi Hni' Hd. exfalso.
    assert (i = x) as -> by by eapply Hoth. assert (c = cx) as -> by congruence. rewrite Hrx in Hd. apply (HR r); [right; left|].
    apply list_elem_of_fmap. by exists (r, d).
  - by constructor.
  - intros r' Hr'. destruct (Hseen r' Hr') as [?| ->]; [by left|]. right. right. left. left.
  - exists own', s', ci', x. split; [|done]. unfold add_link. step using (exact Hal).
    assert (open_link x target s1 = Ret (tt, s2)) as Hol.
    { unfold open_link. step using (exact Hb). change (Z.to_nat SFS_BLKSIZE) with 4096%nat. rewrite take_ge by lia.
      rewrite (proj2 (Z.eqb_neq _ _)) by (change SFS_BLKSIZE with 4096; lia). step using (exact Hw). exact Hp. }
    step using (exact Hol). exact Hrun.
Qed.

Section nodes.
Hypothesis R_fun : ∀ r d d', (r, d) ∈ R → (r, d') ∈ R → d = d'.

Lemma rounds_enough data : nb data < Z.of_nat (file_rounds data).
Proof using Type.
  unfold file_rounds, nb. change SFS_BLKSIZE with 4096. pose proof (Z.div_pos (Z.of_nat (length data)) 4096).
  assert ((Z.of_nat (length data) + 4095) / 4096 ≤ (Z.of_nat (length data) + 1 * 4096) / 4096) by (apply Z.div_le_mono; lia).
  rewrite Z.div_add in * by lia. lia.
Qed.

(** A file, unless it is there under another name. *)
Lemma add_file_run A k own s cur ci name r data :
  let n := HReg r data in
  ready A k own s cur ci → nblks ci < 1036 → (length name ≤ 255)%nat → nb data ≤ 1036 →
  k + ents n < 65536 → next_ino s + spare ci + 1 + cost n ≤ ninos s → sane (dirs n) (links n) (regs n) s →
  ∃ own' s' ci' x, add_file cur name r data s = Ret (tt, s') ∧ copied A k own s cur ci name n own' s' ci' x.
Proof using R_fun.
  intros n Hready Hn Hname Hnb Hk Hroom [_ _ _ [_ HF]]. pose proof Hready as [Hinv Hf HA Hcur Hk0]. cbn [n ents cost regs] in *.
  assert (0 ≤ spare ci) by (unfold spare; case_decide; lia). pose proof (nb_pos data) as Hpos.
  assert ((r, data) ∈ R) as Hr by (apply HF; left).
  destruct (search_inode_run k own s r Hinv) as (o & Hs & Ho). unfold add_file. step using (exact Hs).
  destruct o as [f|].
  - destruct Ho as (cf & Hcf & Hrf). rewrite <-Hrf in Hr. destruct (Hf f cf data Hcf Hr) as [HfA Hfile]. step using reflexivity.
    destruct (finish_entry A k own s cur ci own s f name n cf k) as (own' & s' & ci' & Hrun & Hcop); try done; cbn [n cost ents]; try lia.
    + apply grew_refl.
    + by constructor.
    + intros r' Hr'. by left.
    + by exists own', s', ci', f.
  - destruct (new_made A k own s r SFS_TYPE_FILE) as (own1 & s1 & Hal & Hinv1 & Hx & Hnx & Hni & Hg1 & Hnone & HxA & _ & _ & Hmade);
      [done|done|done|lia|done|]. set (x := next_ino s) in *.
    destruct (file_loop_run k x (file_rounds data) own1 s1 data [] SFS_BLKSIZE (new_ci r SFS_TYPE_FILE) SFS_TYPE_FILE) as (own2 & s2 & Hloop & Hfill & Hfile);
      [done|done|by eapply empty_file|by right|cbn; lia|change (spare (new_ci r SFS_TYPE_FILE)) with 1; lia|apply rounds_enough|].
    destruct (Hmade _ _ _ Hfill) as [Hinv2 Hg _ (cx & Hcx & Hrx) Hoth Hnext Hseen]. rewrite app_nil_l in Hfile.
    destruct (finish_entry A k own s cur ci own2 s2 x name n cx k) as (own' & s' & ci' & Hrun & Hcop); try done; cbn [n cost ents]; try lia.
    + eapply faithful_grew; [exact Hf|exact Hinv|exact Hg|set_solver|]. intros i c d Hi Hni' Hd.
      assert (i = x) as -> by by eapply Hoth. assert (c = cx) as -> by congruence. rewrite Hrx in Hd.
      rewrite (R_fun r d data) by done. by split.
    + by constructor.
    + intros r' Hr'. destruct (Hseen r' Hr') as [?| ->]; [by left|]. right. right. right. left.
    + exists own', s', ci', x. split; [|done].
      assert ((f ← alloc_cache_inode r 0 SFS_TYPE_FILE; open_file f data ;; mret f) s = Ret (x, s2)) as Hnew.
      { step using (exact Hal). by step using (exact Hloop). }
      step using (exact Hnew). exact Hrun.
Qed.

(** ** Directories *)

Definition copies (n : hnode) : Prop := ∀ A k own s cur ci name,
  ready A k own s cur ci → nblks ci < 1036 → (length name ≤ 255)%nat → hidden name = false → host_ok n →
  k + ents n < 65536 → next_ino s + spare ci + 1 + cost n ≤ ninos s → sane (dirs n) (links n) (regs n) s →
  ∃ own' s' ci' x, add_node cur name n s = Ret (tt, s') ∧ copied A k own s cur ci name n own' s' ci' x.

(** The entries [l] of the host, with the inodes [es] in the image. *)
Record copied_all (A : gset Z) (k : Z) own s (cur : Z) ci (l : list (list Z * hnode)) (es : list (list Z * Z)) own' s' ci' : Prop := {
  ca_ready : ready A (k + over Z.add 0 ents l) own' s' cur ci';
  ca_grew : grew {[cur]} own s own' s';
  ca_entries : ∀ l0, dir_is s cur l0 → dir_is s' cur (l0 ++ es);
  ca_kept : Forall2 (λ e x, e.1 = x.1 ∧ linked_by s' x.2 1 ∧ kept A s' x.2 e.2) (visible l) es;
  ca_next : next_ino s' + spare ci' ≤ next_ino s + spare ci + over Z.add 0 (λ n, 1 + cost n) l;
  ca_seen : seen (over app [] dirs l) (over app [] links l) (over app [] regs l) s s' }.

Lemma over_cons {X} op (e0 : X) f e l : over op e0 f (e :: l) = if shown e then op (f e.2) (over op e0 f l) else over op e0 f l.
Proof using Type. done. Qed.

Lemma visible_cons e l : visible (e :: l) = if shown e then e :: visible l else visible l.
Proof using Type. unfold visible. rewrite filter_cons. by destruct (shown e). Qed.

Lemma skipped cur e s : (hidden e.1 = true ∨ (length e.1 ≤ 255)%nat) → shown e = false → add_node cur e.1 e.2 s = Ret (tt, s).
Proof using Type.
  destruct e as [name n]. unfold shown. cbn. intros Hl Hs. destruct n; cbn [add_node]; destruct (hidden name) eqn:Hh; try done.
  destruct Hl as [?|Hl]; [done|]. by rewrite (proj2 (Z.ltb_ge _ _)) by (change SFS_MAX_FNAME_LEN with 255; lia).
Qed.

Lemma dir_loop_run A cur l : Forall (λ e, copies e.2) l → ∀ k own s ci,
  ready A k own s cur ci → nblks ci + Z.of_nat (length (visible l)) ≤ 1036 →
  Forall (λ e, hidden e.1 = true ∨ name_ok e.1 ∧ (e.2 = HOther ∨ host_ok e.2)) l →
  k + over Z.add 0 ents l < 65536 → next_ino s + spare ci + over Z.add 0 (λ n, 1 + cost n) l ≤ ninos s →
  sane (over app [] dirs l) (over app [] links l) (over app [] regs l) s →
  ∃ own' s' ci' es, dir_loop add_node cur l s = Ret (tt, s') ∧ copied_all A k own s cur ci l es own' s' ci'.
Proof using R_fun.
  induction 1 as [|e l He _ IH]; intros k own s ci Hready Hn Hok Hk Hroom Hsane.
  { exists own, s, ci, []. split; [done|]. split; cbn.
    - by rewrite Z.add_0_r.
    - apply grew_refl.
    - intros l0 Hl0. by rewrite app_nil_r.
    - constructor.
    - lia.
    - intros r Hr. by left. }
  apply Forall_cons in Hok as [Hoke Hok]. destruct e as [name n].
  assert ((length name ≤ 255)%nat ∨ hidden name = true) as Hlen by (destruct Hoke as [?|[[? _] _]]; [by right|by left]).
  destruct (over_pos l) as [Hep Hcp].
  cbn [dir_loop]. rewrite !over_cons in *. rewrite visible_cons in *. destruct (shown (name, n)) eqn:Hsh.
  2: { destruct (IH k own s ci Hready Hn Hok Hk Hroom Hsane) as (own' & s' & ci' & es & Hrun & Hca).
       exists own', s', ci', es. split.
       - step using (apply (skipped cur (name, n)); [cbn; tauto|done]). exact Hrun.
       - destruct Hca as [C1 C2 C3 C4 C5 C6]. split; rewrite ?over_cons, ?visible_cons, ?Hsh; done. }
  cbn [length snd] in *. destruct (sane_app _ _ _ _ _ _ _ Hsane) as [Hs1 Hs2].
  assert (hidden name = false ∧ n ≠ HOther) as [Hh Hno].
  { unfold shown in Hsh. cbn in Hsh. destruct (hidden name); [done|]. split; [done|]. by destruct n. }
  destruct Hoke as [?|[[Hnm _] [?|Hhost]]]; [cbn in *; congruence|done|]. cbn in Hnm, Hhost.
  destruct (He A k own s cur ci name Hready) as (own1 & s1 & ci1 & x & Hrun1 & [R1 N1 G1 E1 K1 X1 S1]); [lia|done|done|done|lia|lia|done|].
  destruct (g_const _ _ _ _ _ G1) as (Hni & _ & _).
  destruct (IH (k + ents n) own1 s1 ci1 R1) as (own2 & s2 & ci2 & es & Hrun2 & [R2 G2 E2 K2 X2 S2]); [lia|done|lia|lia|by apply Hs2|].
  exists own2, s2, ci2, ((name, x) :: es). split; [by step using (exact Hrun1)|].
  split; rewrite ?over_cons, ?visible_cons, ?Hsh; cbn [snd].
  - by rewrite Z.add_assoc.
  - by eapply grew_trans.
  - intros l0 Hl0. specialize (E2 _ (E1 _ Hl0)). by rewrite <-app_assoc in E2.
  - constructor; [|done]. destruct K1. split_and!; [done|by eapply g_links|]. cbn. eapply kept_grew; [apply R1|exact G2| |done].
    destruct (r_cur _ _ _ _ _ _ R1). set_solver.
  - lia.
  - intros r Hr. destruct (S2 r Hr) as [Hr1|Hr1]; [|rewrite fmap_app; set_solver].
    destruct (S1 r Hr1) as [?|Hr2]; [by left|]. rewrite fmap_app. set_solver.
Qed.

(** [subpath] is only shown in messages. *)
Lemma kept_subpath A s p n : ∀ x, kept A s x n → kept A (set_subpath s p) x n.
Proof using Type.
  induction n as [r d|r l IH|r t| |] using hnode_ind'; intros x Hk; inversion Hk; subst.
  - by constructor.
  - econstructor; [done|done|done|]. eapply Forall2_under; [|done]. apply Forall_forall.
    intros e [_ He]%list_elem_of_filter y (? & ? & Hy). split_and!; [done|done|]. rewrite Forall_forall in IH. by apply IH.
  - by constructor.
Qed.

Lemma grew_subpath B own s p own' s' : grew B own (set_subpath s p) own' s' → subpath s' = p ∧ grew B own s own' (set_subpath s' (subpath s)).
Proof using Type. intros [G1 G2 G3 (G4 & G5 & G6) G7]. split; [done|]. by split. Qed.

Lemma pop_run s p name : subpath s = p ++ [name] → subpath_pop s = Ret (tt, set_subpath s p).
Proof using Type.
  intros E. unfold subpath_pop. step using reflexivity. rewrite E. step using (unfold assert; rewrite bool_decide_true by (by destruct p); reflexivity).
  rewrite length_app. cbn [length]. replace (length p + 1 - 1)%nat with (length p) by lia. by rewrite take_app_length.
Qed.

(** The entry for the directory itself or for its parent. *)
Lemma dots_run A k own s x ci file cf name :
  ready A k own s x ci → node_at s !! file = Some cf → (length name ≤ 255)%nat → nblks ci < 1036 → next_ino s + need ci ≤ ninos s → k + 1 < 65536 →
  ∃ own' s' ci', add_entry x file name s = Ret (tt, s') ∧ ready A (k + 1) own' s' x ci' ∧ grew {[x]} own s own' s' ∧
    nblks ci' = nblks ci + 1 ∧ next_ino s' + spare ci' = next_ino s + spare ci + 1 ∧
    (∀ l, dir_is s x l → dir_is s' x (l ++ [(name, file)])) ∧ (∀ r, reals s' r → reals s r) ∧ linked_by s' file 1.
Proof using R_fun.
  intros [Hinv Hf HA (HxA & Hx & Hty) Hk] Hfile Hname Hn Hroom Hk1.
  destruct (add_entry_run k own s x file name ci cf) as (own' & s' & ci' & Hrun & Hinv' & Hg & Hx' & Hn' & Hnext & Hdir & Hreals & Hdom & Hlink); try done.
  exists own', s', ci'. split_and!; try done. split; [done| |by rewrite Hdom| |lia].
  - eapply faithful_grew; [exact Hf|exact Hinv|exact Hg|set_solver|]. intros i ci2 d Hi Hnone. exfalso.
    assert (i ∈ dom (node_at s)) as Hd by (rewrite <-Hdom; apply elem_of_dom; eauto). apply elem_of_dom in Hd as [? ?]. congruence.
  - split_and!; [done|done|]. destruct (g_node _ _ _ _ _ Hg _ _ Hx) as (c & Hc & _ & Ht & _). congruence.
Qed.

Definition entries_ok (l : list (list Z * hnode)) : Prop :=
  Forall (λ e, hidden e.1 = true ∨ name_ok e.1 ∧ (e.2 = HOther ∨ host_ok e.2)) l.

Lemma open_dir_run A k own s x ci parent cp l :
  Forall (λ e, copies e.2) l → ready A k own s x ci → dir_is s x [] → nblks ci = 0 → node_at s !! parent = Some cp →
  2 + Z.of_nat (length (visible l)) ≤ 1036 → entries_ok l → k + 2 + over Z.add 0 ents l < 65536 →
  next_ino s + spare ci + 2 + over Z.add 0 (λ n, 1 + cost n) l ≤ ninos s →
  sane (over app [] dirs l) (over app [] links l) (over app [] regs l) s →
  ∃ own' s' ci' es, open_dir add_node x parent l s = Ret (tt, s') ∧ ready A (k + 2 + over Z.add 0 ents l) own' s' x ci' ∧
    grew {[x]} own s own' s' ∧ dir_is s' x (([46], x) :: ([46; 46], parent) :: es) ∧
    Forall2 (λ e y, e.1 = y.1 ∧ linked_by s' y.2 1 ∧ kept A s' y.2 e.2) (visible l) es ∧
    next_ino s' ≤ next_ino s + spare ci + 2 + over Z.add 0 (λ n, 1 + cost n) l ∧
    seen (over app [] dirs l) (over app [] links l) (over app [] regs l) s s' ∧ linked_by s' x 1.
Proof using R_fun.
  intros Hcop Hready Hdir Hn0 Hp Hvis Hok Hk Hroom Hsane.
  destruct (over_pos l) as [Hep Hcp].
  destruct (r_cur _ _ _ _ _ _ Hready) as (HxA & Hx & _).
  assert (need ci = 1 ∧ spare ci = 1) as [Hne Hsp] by (unfold need, spare; rewrite Hn0; done).
  destruct (dots_run A k own s x ci x ci [46] Hready Hx) as (own1 & s1 & ci1 & Hrun1 & R1 & G1 & N1 & X1 & D1 & S1 & L1); [cbn; lia|lia|lia|lia|].
  destruct (g_const _ _ _ _ _ G1) as (Hni & _ & _). destruct (g_node _ _ _ _ _ G1 _ _ Hp) as (cp1 & Hcp1 & _).
  assert (need ci1 = 1 ∧ spare ci1 = 1) as [Hne1 Hsp1] by (unfold need, spare; rewrite N1, Hn0; done).
  destruct (dots_run A (k + 1) own1 s1 x ci1 parent cp1 [46; 46] R1 Hcp1) as (own2 & s2 & ci2 & Hrun2 & R2 & G2 & N2 & X2 & D2 & S2 & _); [cbn; lia|lia|lia|lia|].
  destruct (g_const _ _ _ _ _ G2) as (Hni2 & _ & _). replace (k + 1 + 1) with (k + 2) in R2 by lia.
  destruct (dir_loop_run A x l Hcop (k + 2) own2 s2 ci2 R2) as (own3 & s3 & ci3 & es & Hrun3 & [R3 G3 E3 K3 X3 S3]); [lia|done|lia|lia| |].
  { destruct Hsane as [Z1 Z2 Z3 Z4]. split; [done| |done|done]. intros r Hr Hr'. apply (Z2 r Hr), S1, S2, Hr'. }
  exists own3, s3, ci3, es. split_and!.
  - unfold open_dir. step using (exact Hrun1). step using (exact Hrun2). exact Hrun3.
  - done.
  - eapply grew_trans; [exact G1|]. by eapply grew_trans.
  - exact (E3 _ (D2 _ (D1 _ Hdir))).
  - done.
  - assert (0 ≤ spare ci3) by (unfold spare; case_decide; lia). lia.
  - intros r Hr. destruct (S3 r Hr) as [?|?]; [left; by apply S1, S2|by right].
  - by eapply g_links, g_links, L1.
Qed.

Lemma add_dir_run A k own s cur ci name r l :
  let n := HDir r l in
  Forall (λ e, copies e.2) l →
  ready A k own s cur ci → nblks ci < 1036 → (length name ≤ 255)%nat → host_ok n →
  k + ents n < 65536 → next_ino s + spare ci + 1 + cost n ≤ ninos s → sane (dirs n) (links n) (regs n) s →
  ∃ own' s' ci' x, add_dir add_node cur name r l s = Ret (tt, s') ∧ copied A k own s cur ci name n own' s' ci' x.
Proof using R_fun.
  intros n Hcop Hready Hn Hname Hhost Hk Hroom Hsane. pose proof Hready as [Hinv Hf HA (HcA & Hci & Hcty) Hk0].
  inversion Hhost as [| |? ? Hvis Hnd Hok]; subst. cbn [n ents cost dirs links regs] in *. destruct Hsane as [Z1 Z2 Z3 [Z4 Z5]].
  assert (0 ≤ spare ci) by (unfold spare; case_decide; lia).
  destruct (over_pos l) as [Hep Hcp].
  destruct (search_inode_run k own s r Hinv) as (o & Hs & Ho).
  assert (o = None) as ->. { destruct o as [f|]; [|done]. exfalso. apply (Z2 r); [left|]. destruct Ho as (cf & ? & ?). by exists f, cf. }
  destruct (new_made A k own s r SFS_TYPE_DIR) as (own1 & s1 & Hal & Hinv1 & Hx & Hnx & Hni & Hg1 & Hnone & HxA & Hdom1 & Hreals1 & _);
    [done|done|done|lia|done|]. set (x := next_ino s) in *.
  set (A' := {[x]} ∪ A). set (p := subpath s1 ++ [name]). set (s2 := set_subpath s1 p).
  assert (r ∉ R.*1) as HrR by (apply Z4; left; left).
  assert (ready A' k own1 s2 x (new_ci r SFS_TYPE_DIR)) as Hready2.
  { split; [by apply inv_subpath| |cbn; rewrite Hdom1; set_solver|split_and!; [set_solver|done|done]|done].
    intros i c d Hi Hd. assert (c ≠ new_ci r SFS_TYPE_DIR) as Hc.
    { intros ->. apply HrR. apply list_elem_of_fmap. by exists (r, d). }
    assert (i ≠ x) as Hix by (intros ->; cbn in Hi; congruence).
    assert (faithful A s1) as Hf1.
    { eapply faithful_grew; [exact Hf|exact Hinv|exact Hg1|set_solver|]. intros i' c' d' Hi' Hn' Hd'. exfalso.
      assert (i' ∈ dom (node_at s1)) as Hdi by (apply elem_of_dom; eauto). rewrite Hdom1 in Hdi.
      apply elem_of_union in Hdi as [->%elem_of_singleton|[? ?]%elem_of_dom]; [|congruence].
      rewrite Hx in Hi'. injection Hi' as <-. apply HrR. apply list_elem_of_fmap. by exists (r, d'). }
    destruct (Hf1 i c d Hi Hd) as [HiA Hfile]. split; [set_solver|exact Hfile]. }
  destruct (g_node _ _ _ _ _ Hg1 _ _ Hci) as (cc & Hcc & _).
  destruct (open_dir_run A' k own1 s2 x (new_ci r SFS_TYPE_DIR) cur cc l) as (own3 & s3 & ci3 & es & Hrun3 & R3 & G3 & D3 & K3 & X3 & S3 & _);
    [done|done| |done|done|done|done|lia| | |].
  { exists (new_ci r SFS_TYPE_DIR). split_and!; [done..|]. intros i e Hi. by rewrite lookup_nil in Hi. }
  { change (spare (new_ci r SFS_TYPE_DIR)) with 1. cbn [next_ino ninos s2 set_subpath]. lia. }
  { split; [by inversion Z1| |set_solver|set_solver]. intros r' Hr' Hre. destruct (Hreals1 r' Hre) as [?| ->]; [apply (Z2 r'); [by right|done]|].
    inversion Z1. done. }
  destruct (grew_subpath _ _ _ _ _ _ G3) as [Hsub G4]. set (s4 := set_subpath s3 (subpath s1)) in *.
  assert (grew ∅ own s own3 s4) as G.
  { apply (grew_new ∅ _ _ _ _ x Hnone). eapply grew_trans; [eapply grew_mono; [|exact Hg1]|eapply grew_mono; [|exact G4]]; set_solver. }
  destruct (r_cur _ _ _ _ _ _ R3) as (_ & Hx3 & _). change (spare (new_ci r SFS_TYPE_DIR)) with 1 in X3. cbn [next_ino s2 set_subpath] in X3.
  destruct (finish_entry A k own s cur ci own3 s4 x name n ci3 (k + 2 + over Z.add 0 ents l)) as (own' & s' & ci' & Hrun & Hcopied);
    try done; cbn [n cost ents]; try lia.
  - apply inv_subpath, R3.
  - intros i c d Hi Hd. destruct (r_faithful _ _ _ _ _ _ R3 i c d Hi Hd) as [HiA Hfile]. split; [set_solver|exact Hfile].
  - econstructor; [done|exact D3|eapply (g_links _ _ _ _ _ G)|].
    { exists ci. split; [done|]. by apply (n_links _ _ _ _ _ (v_node _ _ _ Hinv _ _ Hci)). }
    eapply Forall2_impl; [exact K3|]. intros e y (? & ? & Hy). split_and!; [done|done|].
    apply kept_subpath. eapply kept_weaken; [|exact Hy]. set_solver.
  - change (next_ino s4) with (next_ino s3). lia.
  - intros r' Hr'. destruct (S3 r' Hr') as [Hr1|Hr1].
    + destruct (Hreals1 r' Hr1) as [?| ->]; [by left|right; left; left].
    + right. cbn [n dirs links regs]. destruct Hr1 as [?|?]; [left; by right|by right].
  - exists own', s', ci', x. split; [|done]. unfold add_dir. step using (exact Hs). step using reflexivity. step using (exact Hal).
    step using reflexivity. fold p. fold s2. step using (exact Hrun3). step using (eapply pop_run, Hsub). exact Hrun.
Qed.

(** Every node is copied. *)
Lemma copies_all n : copies n.
Proof using R_fun.
  induction n as [r d|r l IH|r t| |] using hnode_ind'; intros A k own s cur ci name Hready Hn Hname Hh Hhost Hk Hroom Hsane.
  all: cbn [add_node]; rewrite Hh, (proj2 (Z.ltb_ge _ _)) by (change SFS_MAX_FNAME_LEN with 255; lia).
  - inversion Hhost. by apply add_file_run.
  - by apply add_dir_run.
  - inversion Hhost. by apply add_link_run.
  - inversion Hhost.
  - inversion Hhost.
Qed.

End nodes.
End tree.

(** ** The whole image *)

(** A directory of the host that can be copied.  Its inode number stands for the number 0 that the tool gives to the
    root. *)
Record home_ok (home : list (list Z * hnode)) : Prop := {
  h_ok : host_ok (HDir 0 home);
  h_fun : ∀ r d d', (r, d) ∈ regs (HDir 0 home) → (r, d') ∈ regs (HDir 0 home) → d = d';
  h_dirs : NoDup (dirs (HDir 0 home));
  h_apart : ∀ r, r ∈ dirs (HDir 0 home) → r ∉ links (HDir 0 home);
  h_files : ∀ r, r ∈ dirs (HDir 0 home) ∨ r ∈ links (HDir 0 home) → r ∉ (regs (HDir 0 home)).*1;
  h_ents : ents (HDir 0 home) < 65536 }.

(** The number of blocks that the tool uses of an image file. *)
Definition nblocks_of (st_size : Z) : Z := Z.min (st_size / 4096) 524288.

Definition start_state (junk : list Z) (N : Z) (img : gmap Z Z) : mkfs :=
  mkMkfs (mkSuper SFS_MAGIC N (N - first N)
      ([115; 105; 109; 112; 108; 101; 32; 102; 105; 108; 101; 32; 115; 121; 115; 116; 101; 109; 0] ++ junk))
    N (first N) img {[1 := new_ci 0 SFS_TYPE_DIR]} ∅ {[0 := [1]]} ∅ [] (replicate 256 0).

Lemma create_sfs_run junk st_size img : 0 ≤ st_size < 2 ^ 44 → first (nblocks_of st_size) < nblocks_of st_size →
  create_sfs junk st_size img = Ret (start_state junk (nblocks_of st_size) img).
Proof.
  intros Hs Hf. assert (0 ≤ st_size / 4096 < 2 ^ 32) by (split; [apply Z.div_pos; lia|apply Z.div_lt_upper_bound; lia]).
  unfold create_sfs. change SFS_BLKSIZE with 4096. rewrite u32_small by lia. change SFS_MAX_NBLKS with 524288.
  assert ((if 524288 <? st_size / 4096 then 524288 else st_size / 4096) = nblocks_of st_size) as ->.
  { unfold nblocks_of. destruct (Z.ltb_spec 524288 (st_size / 4096)); lia. }
  set (N := nblocks_of st_size) in *. cbv zeta.
  assert (SFS_BLKN_FREEMAP + (N + SFS_BLKBITS - 1) / SFS_BLKBITS = first N) as ->.
  { unfold first. change SFS_BLKN_FREEMAP with 2. change SFS_BLKBITS with 32768. f_equal. f_equal. lia. }
  rewrite (proj2 (Z.leb_gt _ _)) by lia. unfold start_state. done.
Qed.

Lemma start_inv junk N img : length junk = 13%nat → first N ≤ N → 0 < N ≤ 524288 → inv 0 {[1 := UNode]} (start_state junk N img).
Proof.
  intros Hj Hf HN. split; cbn; try done; try lia.
  - split; [done|]. cbn. lia.
  - intros b u [<- <-]%lookup_singleton_Some. by left.
  - intros i. rewrite lookup_singleton_is_Some, lookup_singleton_Some. naive_solver.
  - intros p ino [_ ?]%lookup_singleton_Some. done.
  - intros i ci [<- <-]%lookup_singleton_Some. by apply new_node_ok.
  - intros h i. unfold chain. destruct (decide (h = 0)) as [->|Hh].
    + rewrite lookup_singleton_eq. cbn. intros ->%list_elem_of_singleton. by rewrite lookup_singleton_eq.
    + rewrite lookup_singleton_ne by done. by intros ?%elem_of_nil.
  - intros i ci [<- <-]%lookup_singleton_Some. change (hash64 (real (new_ci 0 SFS_TYPE_DIR))) with 0.
    unfold chain. rewrite lookup_singleton_eq. left.
  - intros h p. unfold chain. rewrite lookup_empty. by intros ?%elem_of_nil.
  - intros p [? ?]. done.
Qed.

Lemma tree_run junk st_size img home : length junk = 13%nat → home_ok home → 0 ≤ st_size < 2 ^ 44 →
  let N := nblocks_of st_size in
  first N + cost (HDir 0 home) ≤ N →
  ∃ s0 s k own, create_sfs junk st_size img = Ret s0 ∧ open_dir add_node SFS_BLKN_ROOT SFS_BLKN_ROOT home s0 = Ret (tt, s) ∧
    inv k own s ∧ k < 65536 ∧ ninos s = N ∧ linked_by s 1 1 ∧ kept ∅ s 1 (HDir 0 home).
Proof.
  intros Hj [Hok Hfun Hnd Hap Hfl Hen] Hsz N Hcost. inversion Hok as [| |? ? Hvis Hnames Hes]; subst. cbn [cost ents dirs links regs] in *.
  destruct (over_pos home) as [Hep Hcp]. assert (0 ≤ N) as HN0. { unfold N, nblocks_of. pose proof (Z.div_pos st_size 4096). lia. }
  assert (first N < N ∧ 0 < N ≤ 524288) as [Hf HN].
  { unfold first in *. pose proof (Z.div_pos (N + 32767) 32768). unfold N, nblocks_of in *. lia. }
  set (s0 := start_state junk N img). set (R := over app [] regs home) in *.
  destruct (open_dir_run R Hfun {[1]} 0 {[1 := UNode]} s0 1 (new_ci 0 SFS_TYPE_DIR) 1 (new_ci 0 SFS_TYPE_DIR) home) as
    (own & s & ci & es & Hrun & Hready & Hg & Hdir & Hkept & _ & _ & Hl); try done; cbn; try lia.
  - apply Forall_forall. intros e _. by apply copies_all.
  - split; [by apply start_inv; [|lia|]| |cbn; by rewrite dom_singleton_L|split_and!; [set_solver|done|done]|done].
    intros i c d Hi Hd. cbn in Hi. apply lookup_singleton_Some in Hi as [<- <-]. exfalso. apply (Hfl 0); [left; left|]. apply list_elem_of_fmap. by exists (0, d).
  - exists (new_ci 0 SFS_TYPE_DIR). split_and!; [done..|]. intros i e Hi. by rewrite lookup_nil in Hi.
  - change (spare (new_ci 0 SFS_TYPE_DIR)) with 1. lia.
  - inversion Hnd. split; [done| |set_solver|set_solver]. intros r Hr (i & c & Hi & <-). cbn in Hi.
    by apply lookup_singleton_Some in Hi as [<- <-].
  - exists s0, s, (0 + 2 + over Z.add 0 ents home), own. split_and!; [by apply create_sfs_run|done|apply Hready|lia| |done|].
    + by destruct (g_const _ _ _ _ _ Hg).
    + econstructor; [set_solver|exact Hdir| |].
      { destruct Hl as (c & ? & ?). exists c. split; [done|lia]. }
      eapply Forall2_impl; [exact Hkept|]. intros e y (? & ? & ?). split_and!; [done|done|].
      eapply kept_weaken; [|done]. set_solver.
Qed.

End Image.
