(* ===== verification/ImageMount.v ===== *)
(** The image that tools/mksfs.c leaves, as the kernel sees it: [close_sfs] brings the inodes, the indirect blocks, the
    map and the super block to the disk; [sfs_do_mount] accepts the disk; [sfs_lookup] finds every file of the host under
    its name, and [sfs_io_nolock] reads its bytes. *)
From S2P Require Import Prelude Bitmap SfsDisk Iobuf SfsInode SfsFile SfsDir Mksfs Image.

Module ImageMount.
Import Bitmap SfsDisk SfsInode Mksfs Image.
Set Default Proof Using "Type".

(** The node of the host at the end of a path. *)
Fixpoint at_path (n : hnode) (path : list (list Z)) : option hnode :=
  match path with
  | [] => Some n
  | name :: path' =>
      match n with
      | HDir _ l => '(_, (_, n')) ← list_find (λ e, e.1 = name) (visible l); at_path n' path'
      | _ => None
      end
  end.

(** * The map of free blocks *)

(** Bit [x] of a list of words. *)
Definition bit_of (l : list Z) (x : Z) : bool := Z.testbit (l !!! Z.to_nat (x / 32)) (x mod 32).

Lemma set_bits_spec n : ∀ j l x, 0 ≤ j → j + Z.of_nat n ≤ 32 * Z.of_nat (length l) → 0 ≤ x < 32 * Z.of_nat (length l) →
  bit_of (set_bits n j l) x = bit_of l x || bool_decide (j ≤ x < j + Z.of_nat n).
Proof.
  induction n as [|n IH]; intros j l x Hj Hn Hx; cbn [set_bits].
  - rewrite bool_decide_false by lia. by rewrite orb_false_r.
  - pose proof (split_index j ltac:(lia)) as [Hj1 Hj2]. pose proof (split_index x ltac:(lia)) as [Hx1 Hx2].
    rewrite IH by (rewrite ?length_insert; lia).
    assert (bit_of (<[Z.to_nat (j / 32) := Z.lor (l !!! Z.to_nat (j / 32)) (Z.shiftl 1 (j mod 32))]> l) x = bit_of l x || bool_decide (x = j)) as ->.
    { unfold bit_of. destruct (decide (Z.to_nat (x / 32) = Z.to_nat (j / 32))) as [E|E].
      - rewrite E, list_lookup_total_insert_eq by lia. rewrite Z.lor_spec, Z.shiftl_1_l, Z.pow2_bits_eqb by lia. f_equal.
        destruct (Z.eqb_spec (j mod 32) (x mod 32)); [rewrite bool_decide_true by lia|rewrite bool_decide_false by congruence]; done.
      - rewrite list_lookup_total_insert_ne by done. rewrite bool_decide_false by congruence. by rewrite orb_false_r. }
    rewrite <-orb_assoc. f_equal.
    destruct (decide (j ≤ x < j + Z.of_nat (S n))) as [H|H].
    + rewrite (bool_decide_true (j ≤ x < j + Z.of_nat (S n))) by done. destruct (decide (x = j)); [by rewrite bool_decide_true|].
      rewrite (bool_decide_true (j + 1 ≤ x < j + 1 + Z.of_nat n)) by lia. apply orb_true_r.
    + rewrite !bool_decide_false by lia. done.
Qed.

Lemma set_bits_words n : ∀ j l, 0 ≤ j → Forall (λ w, is_u32 w) l → Forall (λ w, is_u32 w) (set_bits n j l).
Proof.
  induction n as [|n IH]; intros j l Hj Hl; cbn [set_bits]; [done|]. apply IH; [lia|].
  destruct (decide (Z.to_nat (j / 32) < length l)%nat) as [Hlt|Hge]; [|by rewrite list_insert_ge by lia].
  apply Forall_insert; [done|]. assert (is_u32 (l !!! Z.to_nat (j / 32))) as Hw.
  { apply (Forall_lookup_1 _ _ _ _ Hl (list_lookup_lookup_total_lt _ _ Hlt)). }
  pose proof (Z.mod_pos_bound j 32). rewrite Z.shiftl_1_l. assert (0 < 2 ^ (j mod 32)) by (apply Z.pow_pos_nonneg; lia). split.
  - apply Z.lor_nonneg. lia.
  - apply Z.log2_lt_cancel. rewrite Z.log2_lor, Z.log2_pow2 by lia. rewrite Z.log2_pow2 by lia.
    apply Z.max_lub_lt; [|lia]. destruct (decide (l !!! Z.to_nat (j / 32) = 0)) as [->|]; [cbn; lia|]. apply Z.log2_lt_pow2; lia.
Qed.

(** The words of the map that the tool writes. *)
Lemma map_words_spec n next i x : 0 ≤ i < n → next ≤ n → 0 ≤ x < 32768 → bit_of (map_words n next i) x = bool_decide (next ≤ i + x < n).
Proof.
  intros Hi Hn Hx. unfold map_words. change (Z.to_nat SFS_BLK_NENTRY) with 1024%nat. change SFS_BLKBITS with 32768.
  assert (bit_of (replicate 1024 0) x = false) as Hz.
  { unfold bit_of. pose proof (split_index x ltac:(lia)). rewrite (lookup_total_replicate_2 1024) by lia. apply Z.bits_0. }
  destruct (Z.ltb_spec next (i + 32768)) as [Hlt|Hge].
  - rewrite set_bits_spec; rewrite ?length_replicate; try lia; [|destruct (Z.ltb_spec i next); lia|].
    + rewrite Hz. cbn [orb]. apply bool_decide_ext. destruct (Z.ltb_spec i next), (Z.ltb_spec n (i + 32768)); lia.
    + destruct (Z.ltb_spec i next), (Z.ltb_spec n (i + 32768)); lia.
  - rewrite Hz. rewrite bool_decide_false by lia. done.
Qed.

Lemma map_words_u32 n next i : Forall (λ w, is_u32 w) (map_words n next i).
Proof.
  unfold map_words. assert (Forall (λ w, is_u32 w) (replicate (Z.to_nat SFS_BLK_NENTRY) 0)) as Hz by (apply Forall_replicate; lia).
  case_match; [|done]. apply set_bits_words; [|done]. destruct (Z.ltb_spec i next); lia.
Qed.

(** * Words *)

Lemma length_encode_words l : length (encode_words l) = (4 * length l)%nat.
Proof. unfold encode_words. induction l as [|x l IH]; [done|]. cbn [fmap list_fmap concat]. rewrite length_app, length_le. cbn. cbn in IH. lia. Qed.

Lemma encode_words_at l j : (j < length l)%nat → take 4 (drop (4 * j) (encode_words l)) = le 4 (l !!! j).
Proof.
  revert j. induction l as [|x l IH]; intros j Hj; [cbn in Hj; lia|]. unfold encode_words. cbn [fmap list_fmap concat].
  destruct j as [|j].
  - cbn [Nat.mul]. rewrite drop_0. rewrite take_app_le by (rewrite length_le; lia). by rewrite take_ge by (rewrite length_le; lia).
  - rewrite drop_app_ge by (rewrite length_le; lia). rewrite length_le. replace (4 * S j - 4)%nat with (4 * j)%nat by lia. apply IH. cbn in Hj. lia.
Qed.

Lemma words_encode l : Forall (λ w, is_u32 w) l → SfsDir.words (length l) (encode_words l) = l.
Proof.
  induction 1 as [|w l Hw _ IH]; [done|]. unfold encode_words. cbn [fmap list_fmap concat length SfsDir.words].
  rewrite take_app_le, drop_app_ge by (rewrite length_le; lia). rewrite length_le, take_ge by (rewrite length_le; lia).
  change (4 - 4)%nat with 0%nat. rewrite drop_0. rewrite unle_le by done. f_equal. exact IH.
Qed.

Lemma concat_lookup (ls : list (list Z)) q l r : Forall (λ l, length l = 1024%nat) ls → ls !! q = Some l → (r < 1024)%nat →
  concat ls !! (q * 1024 + r)%nat = l !! r.
Proof.
  intros Hls. revert q. induction Hls as [|x ls Hx _ IH]; intros q Hq Hr; [by rewrite lookup_nil in Hq|].
  cbn [concat]. destruct q as [|q].
  - injection Hq as <-. rewrite lookup_app_l by lia. done.
  - rewrite lookup_app_r by lia. rewrite Hx. replace (S q * 1024 + r - 1024)%nat with (q * 1024 + r)%nat by lia. by apply IH.
Qed.

Lemma length_concat (ls : list (list Z)) : Forall (λ l, length l = 1024%nat) ls → length (concat ls) = (length ls * 1024)%nat.
Proof. induction 1 as [|x ls Hx _ IH]; [done|]. cbn [concat length]. rewrite length_app, Hx, IH. lia. Qed.

(** * Closing the image *)

(** [d'] is [d] with the blocks in [L] replaced by those of [f]. *)
Definition flushed (f : Z → list Z) (L : gset Z) (d d' : gmap Z Z) : Prop :=
  ∀ a, byte_at d' a = if decide (a / 4096 ∈ L) then block_of (f (a / 4096)) !!! Z.to_nat (a mod 4096) else byte_at d a.

Lemma flushed_none f d : flushed f ∅ d d.
Proof. intros a. by rewrite decide_False by set_solver. Qed.

Lemma flushed_trans f L1 L2 d1 d2 d3 : flushed f L1 d1 d2 → flushed f L2 d2 d3 → flushed f (L1 ∪ L2) d1 d3.
Proof.
  intros H1 H2 a. rewrite H2, H1. destruct (decide (a / 4096 ∈ L2)) as [Ha|Ha]; [by rewrite decide_True by set_solver|].
  destruct (decide (a / 4096 ∈ L1)); [by rewrite decide_True by set_solver|by rewrite decide_False by set_solver].
Qed.

Lemma flushed_write f b d : (length (f b) ≤ 4096)%nat → flushed f {[b]} d (write_bytes d (b * 4096) (block_of (f b))).
Proof.
  intros Hl a. rewrite byte_write, length_block_of by done. pose proof (SfsFile.addr_split a).
  destruct (decide (a / 4096 = b)) as [<-|Hne].
  - rewrite !decide_True by (set_solver || lia). f_equal. lia.
  - rewrite !decide_False by (set_solver || lia). done.
Qed.

Section close.
Context (s : mkfs) (k : Z) (own : gmap Z use).
Hypothesis Hinv : inv k own s.
Hypothesis Hk : k < 65536.
Notation N := (ninos s).
Notation W := (words_at s).

(** The content of the blocks that [close_sfs] writes. *)
Definition meta (b : Z) : list Z :=
  if decide (b = 0) then encode_super (super s)
  else if decide (2 ≤ b < first N) then encode_words (map_words N (next_ino s) ((b - 2) * 32768))
  else match node_at s !! b with
       | Some ci => encode_node ci
       | None => match W !! b with Some l => encode_words l | None => [] end
       end.

Lemma length_set_bits n : ∀ j l, length (set_bits n j l) = length l.
Proof. induction n as [|n IH]; intros j l; cbn [set_bits]; [done|]. by rewrite IH, length_insert. Qed.

Lemma length_map_words i : length (map_words N (next_ino s) i) = 1024%nat.
Proof. unfold map_words. case_match; [by rewrite length_set_bits|done]. Qed.

Lemma length_encode_inode d : length (direct d) = 12%nat → length (encode_inode d) = 64%nat.
Proof.
  intros H. unfold encode_inode. rewrite !length_app, !length_le.
  change (concat (le 4 <$> direct d)) with (encode_words (direct d)). rewrite length_encode_words. lia.
Qed.

Lemma meta_super : meta 0 = encode_super (super s).
Proof. done. Qed.
Lemma meta_map b : 2 ≤ b < first N → meta b = encode_words (map_words N (next_ino s) ((b - 2) * 32768)).
Proof. intros H. unfold meta. by rewrite decide_False, decide_True by lia. Qed.
Lemma not_low b : b = 1 ∨ first N ≤ b → b ≠ 0 ∧ ¬ 2 ≤ b < first N.
Proof using Hinv. pose proof (v_sizes _ _ _ Hinv) as [? ?]. pose proof (first_bounds N). lia. Qed.
Lemma owned_high b u : own !! b = Some u → b = 1 ∨ first N ≤ b.
Proof using Hinv. intros Hb. destruct (v_range _ _ _ Hinv _ _ Hb) as [[-> _]|?]; [by left|right; lia]. Qed.
Lemma meta_node b ci : node_at s !! b = Some ci → meta b = encode_node ci.
Proof using Hinv.
  intros Hb. assert (own !! b = Some UNode) as Ho by (apply (v_nodes _ _ _ Hinv); eauto).
  destruct (not_low b (owned_high _ _ Ho)). unfold meta. by rewrite !decide_False, Hb by done.
Qed.
Lemma meta_words b l : W !! b = Some l → meta b = encode_words l.
Proof using Hinv.
  intros Hb. destruct (v_words _ _ _ Hinv _ _ Hb) as [_ [ino Ho]]. destruct (not_low b (owned_high _ _ Ho)). unfold meta.
  rewrite !decide_False by done. destruct (node_at s !! b) eqn:E; [|by rewrite Hb].
  assert (own !! b = Some UNode) by (apply (v_nodes _ _ _ Hinv); eauto). congruence.
Qed.

(** A step of the closing: the blocks [L] are written. *)
Definition writes (m : M mkfs unit) (L : gset Z) : Prop :=
  ∀ d, ∃ d', m (set_image s d) = Ret (tt, set_image s d') ∧ flushed meta L d d'.

Lemma writes_block b data : meta b = data → (length data ≤ 4096)%nat → b < N → writes (write_block data b) {[b]}.
Proof.
  intros <- Hl Hb d. eexists. split; [|by apply flushed_write]. unfold write_block. step using reflexivity.
  by step using (unfold assert; cbn; rewrite (proj2 (Z.leb_le _ _)), (proj2 (Z.ltb_lt _ _)) by (change SFS_BLKSIZE with 4096; lia); reflexivity).
Qed.

Lemma writes_seq m1 m2 L1 L2 : writes m1 L1 → writes m2 L2 → writes (m1 ;; m2) (L1 ∪ L2).
Proof.
  intros H1 H2 d. destruct (H1 d) as (d1 & E1 & F1). destruct (H2 d1) as (d2 & E2 & F2). exists d2.
  split; [by step using (exact E1)|by eapply flushed_trans].
Qed.

Lemma writes_each {X} (f : X → M mkfs unit) (L : X → gset Z) l : (∀ x, x ∈ l → writes (f x) (L x)) → writes (for_each f l) (⋃ (L <$> l)).
Proof.
  induction l as [|x l IH]; intros H; cbn [for_each fmap list_fmap union_list foldr].
  - intros d. exists d. split; [done|apply flushed_none].
  - apply writes_seq; [apply H; left|apply IH]. intros y Hy. apply H. by right.
Qed.

Lemma writes_get {X} (g : mkfs → X) (f : X → M mkfs unit) L : (∀ d, g (set_image s d) = g s) → writes (f (g s)) L →
  writes (x ← gets g; f x) L.
Proof. intros Hg H d. destruct (H d) as (d' & E & F). exists d'. split; [|done]. unfold gets. step using reflexivity. by rewrite Hg. Qed.

Lemma writes_words p : is_Some (W !! p) → writes (flush_cache_block p) {[p]}.
Proof using Hinv.
  intros [l Hl]. destruct (v_words _ _ _ Hinv _ _ Hl) as [Hlen [ino Ho]].
  assert (writes (write_block (encode_words l) p) {[p]}) as Hw.
  { apply writes_block; [by apply meta_words|rewrite length_encode_words; lia|].
    pose proof (v_sizes _ _ _ Hinv). pose proof (first_bounds N). destruct (v_range _ _ _ Hinv _ _ Ho) as [[-> _]|?]; lia. }
  intros d. destruct (Hw d) as (d' & E & F). exists d'. split; [|done]. unfold flush_cache_block.
  by step using (unfold deref; cbn; rewrite Hl; reflexivity).
Qed.

Lemma writes_node i : is_Some (node_at s !! i) → writes (flush_cache_inode i) {[i]}.
Proof using Hinv.
  intros [ci Hi]. pose proof (v_node _ _ _ Hinv _ _ Hi) as Hok. assert (own !! i = Some UNode) as Ho by (apply (v_nodes _ _ _ Hinv); eauto).
  assert (writes (write_block (encode_node ci) i) {[i]}) as Hw.
  { apply writes_block; [by apply meta_node| |].
    - unfold encode_node. rewrite length_app, length_le, length_encode_inode; [lia|apply Hok].
    - pose proof (v_sizes _ _ _ Hinv). pose proof (first_bounds N). destruct (v_range _ _ _ Hinv _ _ Ho) as [[-> _]|?]; lia. }
  intros d. destruct (Hw d) as (d' & E & F). exists d'. split; [|done]. unfold flush_cache_inode, ci_at.
  by step using (unfold deref; cbn; rewrite Hi; reflexivity).
Qed.

Lemma writes_map n : ∀ i b, i = (b - 2) * 32768 → 2 ≤ b → b + Z.of_nat n ≤ first N → writes (write_map n i b) (list_to_set (seqZ b (Z.of_nat n))).
Proof using Hinv.
  pose proof (v_sizes _ _ _ Hinv) as [? ?]. induction n as [|n IH]; intros i b Hi Hb Hn; cbn [write_map].
  - intros d. exists d. split; [done|apply flushed_none].
  - assert (list_to_set (seqZ b (Z.of_nat (S n))) = {[b]} ∪ list_to_set (seqZ (b + 1) (Z.of_nat n)) :> gset Z) as ->.
    { rewrite seqZ_cons by lia. cbn [list_to_set]. do 3 f_equal; lia. }
    assert (writes (write_block (encode_words (map_words N (next_ino s) i)) b ;; write_map n (i + SFS_BLKBITS) (b + 1))
      ({[b]} ∪ list_to_set (seqZ (b + 1) (Z.of_nat n)))) as Hw.
    { apply writes_seq; [|apply IH; change SFS_BLKBITS with 32768; lia]. apply writes_block; [by rewrite meta_map, <-Hi by lia| |lia].
      rewrite length_encode_words, length_map_words. lia. }
    intros d. destruct (Hw d) as (d' & E & F). exists d'. split; [|done]. by step using reflexivity.
Qed.

(** The blocks of the chains of one bucket. *)
Definition bucket (i : Z) : gset Z := list_to_set (chain (blocks s) i) ∪ list_to_set (chain (inodes s) i).

Lemma union_singletons (l : list Z) : ⋃ ((λ x, {[x]}) <$> l) = list_to_set l :> gset Z.
Proof. induction l as [|x l IH]; [done|]. cbn [fmap list_fmap union_list foldr list_to_set]. by rewrite <-IH. Qed.

Lemma writes_bucket i : writes (flush_bucket i) (bucket i).
Proof using Hinv.
  assert (writes (for_each flush_cache_block (chain (blocks s) i) ;; for_each flush_cache_inode (chain (inodes s) i)) (bucket i)) as Hw.
  { apply writes_seq; rewrite <-union_singletons; apply writes_each.
    - intros p Hp. apply writes_words. by eapply v_bchain.
    - intros j Hj. apply writes_node. by eapply v_ichain. }
  intros d. destruct (Hw d) as (d' & E & F). exists d'. split; [|done]. unfold flush_bucket. step using reflexivity. exact E.
Qed.

(** All blocks that [close_sfs] writes. *)
Definition meta_blocks : gset Z := list_to_set (seqZ 2 (first N - 2)) ∪ ({[0]} ∪ ⋃ (bucket <$> seqZ 0 1024)).

Lemma writes_close : writes close_sfs meta_blocks.
Proof using Hinv.
  pose proof (v_sizes _ _ _ Hinv) as [? ?]. destruct (v_super _ _ _ Hinv) as [Hsup Hinfo].
  assert (Z.to_nat ((N + SFS_BLKBITS - 1) / SFS_BLKBITS) = Z.to_nat (first N - 2)) as Hn.
  { unfold first. change SFS_BLKBITS with 32768. replace (N + 32768 - 1) with (N + 32767) by lia. f_equal. lia. }
  assert (writes (write_map (Z.to_nat (first N - 2)) 0 SFS_BLKN_FREEMAP ;; write_block (encode_super (super s)) SFS_BLKN_SUPER ;;
    for_each flush_bucket (seqZ 0 HASH_LIST_SIZE)) meta_blocks) as Hw.
  { pose proof (first_bounds N). unfold meta_blocks. apply writes_seq; [|apply writes_seq].
    - assert (list_to_set (seqZ 2 (first N - 2)) = list_to_set (seqZ 2 (Z.of_nat (Z.to_nat (first N - 2)))) :> gset Z) as ->.
      { do 2 f_equal. lia. }
      apply writes_map; [done|done|]. change SFS_BLKN_FREEMAP with 2. lia.
    - apply writes_block; [done| |change SFS_BLKN_SUPER with 0; lia]. unfold encode_super. rewrite !length_app, !length_le. lia.
    - change HASH_LIST_SIZE with 1024. apply writes_each. intros i _. apply writes_bucket. }
  intros d. destruct (Hw d) as (d' & E & F). exists d'. split; [|done]. unfold close_sfs. step using reflexivity.
  cbn [ninos set_image super]. by rewrite Hn.
Qed.

Lemma hash64_range r : 0 ≤ hash64 r < 1024.
Proof.
  unfold hash64, __hash32. change (32 - HASH_SHIFT) with 22. set (x := u32 r * GOLDEN_RATIO_PRIME_32). pose proof (u32_range x).
  rewrite Z.shiftr_div_pow2 by lia. split; [apply Z.div_pos; lia|apply Z.div_lt_upper_bound; lia].
Qed.

Lemma in_bucket b i : 0 ≤ i < 1024 → b ∈ bucket i → b ∈ meta_blocks.
Proof.
  intros Hi Hb. unfold meta_blocks. apply elem_of_union. right. apply elem_of_union. right. apply elem_of_union_list.
  exists (bucket i). split; [|done]. apply list_elem_of_fmap. exists i. split; [done|]. by apply elem_of_seqZ.
Qed.

Lemma node_written i ci : node_at s !! i = Some ci → i ∈ meta_blocks.
Proof using Hinv.
  intros Hi. apply (in_bucket _ (hash64 (real ci)) (hash64_range _)). unfold bucket. apply elem_of_union. right.
  apply elem_of_list_to_set. by eapply v_itable.
Qed.
Lemma words_written p : is_Some (W !! p) → p ∈ meta_blocks.
Proof using Hinv.
  intros Hp. apply (in_bucket _ 0); [lia|]. unfold bucket. apply elem_of_union. left. apply elem_of_list_to_set. by eapply v_btable.
Qed.
Lemma data_not_written b ino i : own !! b = Some (UData ino i) → b ∉ meta_blocks.
Proof using Hinv.
  intros Hb. destruct (not_low b (owned_high _ _ Hb)) as [H0 Hlow]. unfold meta_blocks.
  intros [Hin|[->%elem_of_singleton|Hin]%elem_of_union]%elem_of_union; [|done|].
  - apply elem_of_list_to_set, elem_of_seqZ in Hin. lia.
  - apply elem_of_union_list in Hin as (X & HX & Hin). apply list_elem_of_fmap in HX as (j & -> & _).
    apply elem_of_union in Hin as [Hin%elem_of_list_to_set|Hin%elem_of_list_to_set].
    + destruct (v_bchain _ _ _ Hinv _ _ Hin) as [l Hl]. destruct (v_words _ _ _ Hinv _ _ Hl) as [_ [? ?]]. congruence.
    + apply (v_ichain _ _ _ Hinv) in Hin. apply (v_nodes _ _ _ Hinv) in Hin. congruence.
Qed.

(** ** The disk afterwards *)

Section disk.
Context (dk : gmap Z Z).
Hypothesis Hdk : flushed meta meta_blocks (image s) dk.

Lemma read_meta b off n : b ∈ meta_blocks → (length (meta b) ≤ 4096)%nat → 0 ≤ off → 0 ≤ n → off + n ≤ Z.of_nat (length (meta b)) →
  read_bytes dk (b * 4096 + off) n = take (Z.to_nat n) (drop (Z.to_nat off) (meta b)).
Proof using Hdk.
  intros Hb Hl Ho Hn Hle. rewrite <-(read_take_drop dk (b * 4096) (Z.of_nat (length (meta b)))) by lia. do 2 f_equal.
  rewrite <-(take_ge (meta b) (length (meta b))) at 2 by lia. rewrite <-(Nat2Z.id (length (meta b))) at 2.
  rewrite <-(read_block ∅ b (meta b)) by lia. apply read_ext. intros x Hx.
  assert (x / 4096 = b) as Hxb. { replace x with (b * 4096 + (x - b * 4096)) by lia. apply SfsFile.block_of_addr. lia. }
  pose proof (SfsFile.addr_split x). rewrite Hdk, Hxb, decide_True by done. rewrite byte_write, length_block_of, decide_True by lia. f_equal. lia.
Qed.

Lemma data_kept b ino i a : own !! b = Some (UData ino i) → a / 4096 = b → byte_at dk a = byte_at (image s) a.
Proof using Hdk Hinv. intros Hb <-. rewrite Hdk, decide_False; [done|]. by eapply data_not_written. Qed.

Lemma mblk_range i ci j : node_at s !! i = Some ci → 0 ≤ j < 1036 → is_u32 (mblk W (inode ci) j).
Proof using Hinv.
  intros Hi Hj. pose proof (v_node _ _ _ Hinv _ _ Hi) as Hok. pose proof (v_sizes _ _ _ Hinv). pose proof (first_bounds N).
  destruct (decide (j < nblks ci)) as [Hlt|Hge].
  - pose proof (n_data _ _ _ _ _ Hok j ltac:(lia)) as Ho. destruct (v_range _ _ _ Hinv _ _ Ho) as [[-> _]|?]; lia.
  - rewrite (n_rest _ _ _ _ _ Hok) by lia. lia.
Qed.

Lemma ind_range i ci : node_at s !! i = Some ci → indirect (inode ci) = 0 ∨ own !! indirect (inode ci) = Some (UInd i).
Proof using Hinv.
  intros Hi. destruct (decide (indirect (inode ci) = 0)); [by left|right]. eapply node_ind; [|done]. by eapply v_node.
Qed.

Lemma disk_inode i ci : node_at s !! i = Some ci → decode_inode (read_bytes dk (i * 4096) 64) = inode ci.
Proof using Hinv Hk Hdk.
  intros Hi. pose proof (v_node _ _ _ Hinv _ _ Hi) as Hok. pose proof (v_sizes _ _ _ Hinv). pose proof (first_bounds N).
  pose proof (length_encode_inode (inode ci) (n_direct _ _ _ _ _ Hok)) as Hlen. pose proof (meta_node _ _ Hi) as Hmeta.
  assert (length (encode_node ci) = 68%nat) as Hlen' by (unfold encode_node; rewrite length_app, length_le; lia).
  replace (i * 4096) with (i * 4096 + 0) by lia. rewrite read_meta; [|by eapply node_written|rewrite Hmeta; lia|lia|lia|rewrite Hmeta; lia].
  rewrite Hmeta. change (Z.to_nat 0) with 0%nat. rewrite drop_0. unfold encode_node. change (Z.to_nat 64) with 64%nat. rewrite <-Hlen, take_app_length.
  rewrite <-(app_nil_r (encode_inode (inode ci))). pose proof (n_count _ _ _ _ _ Hok) as [? Hc]. pose proof (n_size _ _ _ _ _ Hok). pose proof (n_links _ _ _ _ _ Hok).
  apply inode_layout_roundtrip; try lia.
  - apply Hok.
  - apply Hok.
  - apply Forall_forall. intros x Hx. apply list_elem_of_lookup in Hx as [j Hj]. pose proof (lookup_lt_Some _ _ _ Hj) as Hlt.
    rewrite (n_direct _ _ _ _ _ Hok) in Hlt. pose proof (mblk_range i ci (Z.of_nat j) Hi ltac:(lia)) as Hr. unfold mblk in Hr.
    rewrite decide_True in Hr by lia. rewrite Nat2Z.id in Hr. by rewrite (list_lookup_total_correct _ _ _ Hj) in Hr.
  - destruct (ind_range i ci Hi) as [->|Ho]; [lia|]. destruct (v_range _ _ _ Hinv _ _ Ho) as [[-> _]|?]; lia.
Qed.

Lemma disk_map i ci j : node_at s !! i = Some ci → 0 ≤ j < 1036 → SfsFile.bmap dk (inode ci) j = mblk W (inode ci) j.
Proof using Hinv Hdk.
  intros Hi Hj. pose proof (mblk_range i ci j Hi Hj) as Hr. unfold SfsFile.bmap. unfold mblk in *. destruct (decide (j < 12)); [done|].
  destruct (decide (indirect (inode ci) = 0)) as [|H0]; [done|]. destruct (ind_range i ci Hi) as [?|Ho]; [done|].
  set (p := indirect (inode ci)) in *. destruct (v_inds _ _ _ Hinv _ _ Ho) as [l Hl]. destruct (v_words _ _ _ Hinv _ _ Hl) as [Hlen _].
  pose proof (meta_words _ _ Hl) as Hmeta. rewrite Hl in *. cbn [default] in *. unfold SfsFile.entry.
  rewrite read_meta; [|by apply words_written; eauto|rewrite Hmeta, length_encode_words; lia|lia|lia|rewrite Hmeta, length_encode_words; lia].
  rewrite Hmeta. change (Z.to_nat 4) with 4%nat. replace (Z.to_nat ((j - 12) * 4)) with (4 * Z.to_nat (j - 12))%nat by lia.
  rewrite encode_words_at by lia. apply unle_le. exact Hr.
Qed.

(** The blocks that are left. *)
Definition left_over : gset Z := list_to_set (seqZ (next_ino s) (N - next_ino s)).

Lemma owned_used b u : own !! b = Some u → SfsFile.used N left_over b.
Proof using Hinv.
  intros Hb. pose proof (v_sizes _ _ _ Hinv). pose proof (first_bounds N). unfold SfsFile.used, left_over.
  rewrite elem_of_list_to_set, elem_of_seqZ. destruct (v_range _ _ _ Hinv _ _ Hb) as [[-> _]|?]; lia.
Qed.

Lemma disk_file_ok i ci : node_at s !! i = Some ci → SfsFile.file_ok dk N left_over (inode ci).
Proof using Hinv Hdk.
  intros Hi. pose proof (v_node _ _ _ Hinv _ _ Hi) as Hok. pose proof (n_count _ _ _ _ _ Hok) as [Hc Hc'].
  assert (∀ j, 0 ≤ j < nblocks (inode ci) → own !! SfsFile.bmap dk (inode ci) j = Some (UData i j)) as Hown.
  { intros j Hj. rewrite (disk_map i ci j) by (done || lia). apply Hok. lia. }
  split.
  - apply Hok.
  - unfold SfsFile.NMAX. lia.
  - intros j Hj. eapply owned_used. by apply Hown.
  - intros j Hj. unfold SfsFile.NMAX in Hj. rewrite (disk_map i ci j) by (done || lia). apply Hok. lia.
  - intros H0. destruct (ind_range i ci Hi) as [?|Ho]; [done|]. by eapply owned_used.
  - intros j j' Hj Hj' E. pose proof (Hown j Hj) as H1. pose proof (Hown j' Hj') as H2. rewrite E in H1. congruence.
  - intros j Hj E. pose proof (Hown j Hj) as H1. rewrite E in H1. destruct (ind_range i ci Hi) as [E0|Ho]; [|congruence].
    rewrite E0 in H1. destruct (owned_used _ _ H1). lia.
Qed.

(** * Mounting *)

Context (nblk : Z).
Hypothesis Hdev : N ≤ nblk < 2 ^ 32.
Notation dev := (SfsDir.mkDev nblk 4096 dk).

(** The words of block [q] of the map, and the number of its blocks. *)
Definition mw (q : Z) : list Z := map_words N (next_ino s) (q * 32768).
Definition map_blocks : Z := first N - 2.
Notation m := map_blocks.

Lemma init_read_run b : 0 ≤ b < N → SfsDir.sfs_init_read dev b = (0, read_bytes dk (b * 4096) 4096).
Proof using Hdev.
  intros Hb. unfold SfsDir.sfs_init_read. cbn [SfsDir.d_blocks SfsDir.d_bytes]. rewrite u32_small by lia.
  by rewrite (proj2 (Z.ltb_ge _ _)) by lia.
Qed.

Lemma read_freemap_run n : ∀ b, 2 ≤ b → b + Z.of_nat n ≤ first N →
  SfsDir.read_freemap dev b n = (0, concat (mw <$> seqZ (b - 2) (Z.of_nat n))).
Proof using Hinv Hdk Hdev.
  pose proof (v_sizes _ _ _ Hinv) as [? ?]. induction n as [|n IH]; intros b Hb Hn; cbn [SfsDir.read_freemap]; [done|].
  rewrite init_read_run by lia. change (negb (0 =? 0)) with false. cbv iota. rewrite IH by lia.
  assert (read_bytes dk (b * 4096) 4096 = encode_words (mw (b - 2))) as ->.
  { pose proof (meta_map b ltac:(lia)) as Hm. fold (mw (b - 2)) in Hm.
    assert (length (meta b) = 4096%nat) as Hl by (rewrite Hm, length_encode_words; unfold mw; by rewrite length_map_words).
    replace (b * 4096) with (b * 4096 + 0) by lia. rewrite read_meta by (try lia; unfold meta_blocks; apply elem_of_union; left; apply elem_of_list_to_set, elem_of_seqZ; lia).
    change (Z.to_nat 0) with 0%nat. rewrite drop_0, take_ge by lia. done. }
  assert (SfsDir.words 1024 (encode_words (mw (b - 2))) = mw (b - 2)) as ->.
  { rewrite <-(length_map_words (( b - 2) * 32768)). apply words_encode, map_words_u32. }
  rewrite (seqZ_cons (b - 2)) by lia. cbn [fmap list_fmap concat]. replace (Z.succ (b - 2)) with (b + 1 - 2) by lia.
  replace (Z.pred (Z.of_nat (S n))) with (Z.of_nat n) by lia. done.
Qed.

Definition disk_map_words : list Z := concat (mw <$> seqZ 0 m).

Lemma mw_lengths : Forall (λ l, length l = 1024%nat) (mw <$> seqZ 0 m).
Proof. apply Forall_fmap, Forall_forall. intros q _. apply length_map_words. Qed.

Lemma m_bounds : N ≤ m * 32768 < N + 32768 ∧ 0 < m.
Proof using Hinv.
  pose proof (v_sizes _ _ _ Hinv) as [? ?]. unfold map_blocks, first. pose proof (Z.div_mod (N + 32767) 32768). pose proof (Z.mod_pos_bound (N + 32767) 32768). lia.
Qed.

Lemma length_disk_map : Z.of_nat (length disk_map_words) = m * 1024.
Proof using Hinv. pose proof m_bounds. unfold disk_map_words. rewrite (length_concat _ mw_lengths), length_fmap, length_seqZ. lia. Qed.

Definition disk_freemap : bitmap := mkBitmap (m * 32768) (m * 1024) disk_map_words.

Lemma disk_word i : 0 ≤ i < m * 32768 → ∃ w, disk_map_words !! Z.to_nat (i / 32) = Some w ∧ Z.testbit w (i mod 32) = bool_decide (next_ino s ≤ i < N).
Proof using Hinv.
  intros Hi. pose proof m_bounds. pose proof (v_sizes _ _ _ Hinv) as [? ?].
  set (q := i / 32768). set (x := i mod 32768). assert (i = q * 32768 + x ∧ 0 ≤ x < 32768) as [Hix Hx].
  { pose proof (Z.div_mod i 32768). pose proof (Z.mod_pos_bound i 32768). unfold q, x. lia. }
  assert (0 ≤ q < m) as Hq by lia.
  assert (i / 32 = q * 1024 + x / 32 ∧ i mod 32 = x mod 32) as [Hd Hm].
  { rewrite Hix. replace (q * 32768 + x) with (q * 1024 * 32 + x) by lia. rewrite Z.div_add_l by lia. split; [done|].
    rewrite Z.add_comm. by rewrite Z.mod_add by lia. }
  assert (0 ≤ x / 32 < 1024) as Hr by (split; [apply Z.div_pos; lia|apply Z.div_lt_upper_bound; lia]).
  assert ((mw <$> seqZ 0 m) !! Z.to_nat q = Some (mw q)) as Hlq.
  { rewrite list_lookup_fmap, (proj2 (lookup_seqZ 0 m (Z.to_nat q) q)) by lia. done. }
  exists (mw q !!! Z.to_nat (x / 32)). split.
  - rewrite Hd. replace (Z.to_nat (q * 1024 + x / 32)) with (Z.to_nat q * 1024 + Z.to_nat (x / 32))%nat by lia.
    unfold disk_map_words. rewrite (concat_lookup _ _ (mw q)); [|apply mw_lengths|done|lia].
    apply list_lookup_lookup_total_lt. unfold mw. rewrite length_map_words. lia.
  - rewrite Hm. change (bit_of (mw q) x = bool_decide (next_ino s ≤ i < N)). unfold mw. rewrite map_words_spec by lia. by rewrite Hix.
Qed.

Lemma disk_free i : free disk_freemap i ↔ next_ino s ≤ i < N.
Proof using Hinv.
  pose proof m_bounds. pose proof (v_sizes _ _ _ Hinv) as [? ?]. pose proof (first_bounds N). unfold free, disk_freemap. cbn [Bitmap.map]. split.
  - intros (Hi & w & Hw & Hb). assert (Z.to_nat (i / 32) < length disk_map_words)%nat as Hlt by by eapply lookup_lt_Some.
    pose proof length_disk_map. destruct (split_index i Hi). destruct (disk_word i) as (w' & Hw' & Hb'); [lia|].
    rewrite Hw in Hw'. injection Hw' as <-. rewrite Hb in Hb'. symmetry in Hb'. by apply bool_decide_eq_true in Hb'.
  - intros Hi. split; [lia|]. destruct (disk_word i) as (w & Hw & Hb); [lia|]. exists w. split; [done|]. by rewrite Hb, bool_decide_true.
Qed.

Lemma disk_map_wf : wf disk_freemap.
Proof using Hinv.
  split.
  - apply length_disk_map.
  - intros i w Hw. cbn in Hw. apply list_elem_of_lookup_2 in Hw. unfold disk_map_words in Hw.
    apply list_elem_of_In, in_concat in Hw as (l & Hl & Hw). apply list_elem_of_In, list_elem_of_fmap in Hl as (q & -> & _).
    pose proof (map_words_u32 N (next_ino s) (q * 32768)) as HF. rewrite Forall_forall in HF. apply HF. by apply list_elem_of_In.
  - cbn. lia.
  - intros i Hi%disk_free. cbn. pose proof m_bounds. lia.
Qed.

Lemma count_free_run n : ∀ i acc, 0 ≤ i → i + Z.of_nat n ≤ m * 32768 →
  SfsDir.count_free n i acc disk_freemap = Ret (acc + Z.max 0 (Z.min (i + Z.of_nat n) N - Z.max i (next_ino s)), disk_freemap).
Proof using Hinv.
  pose proof (v_sizes _ _ _ Hinv) as [? ?]. induction n as [|n IH]; intros i acc Hi Hn; cbn [SfsDir.count_free].
  - unfold mret, M_ret. do 2 f_equal. lia.
  - step using (apply bitmap_test_run; [apply disk_map_wf|cbn; lia]). rewrite (bool_decide_ext _ _ (disk_free i)). rewrite IH by lia. do 2 f_equal.
    destruct (decide (next_ino s ≤ i < N)); [rewrite bool_decide_true by done|rewrite bool_decide_false by done]; lia.
Qed.

Lemma super_read : ∃ inf, SfsDir.decode_super (read_bytes dk (SFS_BLKN_SUPER * 4096) 4096) = mkSuper SFS_MAGIC N (N - next_ino s) inf.
Proof using Hinv Hdk.
  pose proof (v_sizes _ _ _ Hinv) as [? ?]. pose proof (first_bounds N). destruct (v_super _ _ _ Hinv) as [Hsup Hinfo].
  set (l := read_bytes dk (SFS_BLKN_SUPER * 4096) 4096).
  assert (length (encode_super (super s)) = 44%nat) as Hlen by (unfold encode_super; rewrite !length_app, !length_le; lia).
  assert (take 44 l = encode_super (super s)) as Htake.
  { change 44%nat with (Z.to_nat 44). rewrite <-(drop_0 l). change 0%nat with (Z.to_nat 0). unfold l. rewrite read_take_drop by lia.
    change (SFS_BLKN_SUPER * 4096 + 0) with (0 * 4096 + 0). rewrite read_meta; rewrite ?meta_super; try lia.
    - change (Z.to_nat 0) with 0%nat. rewrite drop_0. rewrite take_ge by lia. done.
    - unfold meta_blocks. apply elem_of_union. right. apply elem_of_union. left. by apply elem_of_singleton. }
  rewrite <-(take_drop 44 l), Htake. unfold SfsDir.decode_super, encode_super. rewrite Hsup. cbn [magic SfsDisk.blocks unused_blocks info].
  rewrite <-!app_assoc. eexists. f_equal; read_field.
Qed.

Lemma freemap_size n i : let sb := mkSuper SFS_MAGIC N n i in
  SfsDir.sfs_freemap_bits sb = m * 32768 ∧ sfs_freemap_blocks sb = m ∧
  ∃ ws, bitmap_create true true (m * 32768) = Ret (Some (mkBitmap (m * 32768) (m * 1024) ws)).
Proof using Hinv.
  pose proof m_bounds. pose proof (v_sizes _ _ _ Hinv) as [? ?]. cbv zeta.
  assert (m = (N + 32767) / 32768) as Hm by (unfold map_blocks, first; lia).
  assert (m ≤ 17) as Hm17 by lia. split_and!.
  - unfold SfsDir.sfs_freemap_bits, ROUNDUP. cbn [SfsDisk.blocks]. change SFS_BLKBITS with 32768.
    rewrite u32_small, ROUNDDOWN_spec by lia. rewrite Hm. replace (N + 32768 - 1) with (N + 32767) by lia. lia.
  - unfold sfs_freemap_blocks, ROUNDUP_DIV. cbn [SfsDisk.blocks]. change SFS_BLKBITS with 32768. rewrite u32_small by lia. rewrite Hm. f_equal. lia.
  - eexists. unfold bitmap_create, WORD_BITS.
    assert (ROUNDUP_DIV (m * 32768) 32 = m * 1024) as ->.
    { unfold ROUNDUP_DIV. rewrite u32_small by lia. symmetry. apply (Z.div_unique _ _ _ 31); lia. }
    cbv zeta. rewrite !u32_small by lia. rewrite (proj2 (Z.eqb_neq (m * 32768) 0)), (proj2 (Z.ltb_lt _ _)) by lia. cbn [negb andb].
    rewrite (proj2 (Z.eqb_eq (m * 32768) (m * 1024 * 32))) by lia. cbn [negb]. reflexivity.
Qed.

(** The file system that the kernel has then. *)
Definition mounted (inf : list Z) : sfs_fs := mkSfs (mkSuper SFS_MAGIC N (N - next_ino s) inf) false disk_freemap dk ∅ (mkLog 0 0).

Lemma mount_run : ∃ inf, SfsDir.sfs_do_mount true true true true true dev = Ret (0, Some (mounted inf)) ∧
  SfsFile.fs_ok (mounted inf) left_over.
Proof using Hinv Hdk Hdev.
  pose proof m_bounds. pose proof (v_sizes _ _ _ Hinv) as [? ?]. pose proof (first_bounds N). destruct super_read as [inf Hsup].
  exists inf. split.
  - unfold SfsDir.sfs_do_mount. cbn [SfsDir.d_blocksize SfsDir.d_blocks]. change (negb (4096 =? SFS_BLKSIZE)) with false. cbn [negb].
    rewrite init_read_run by (change SFS_BLKN_SUPER with 0; lia). change (negb (0 =? 0)) with false. cbv iota. rewrite Hsup.
    cbn [magic SfsDisk.blocks unused_blocks]. change (negb (SFS_MAGIC =? SFS_MAGIC)) with false. cbv iota zeta.
    rewrite (proj2 (Z.ltb_ge _ _)) by lia. destruct (freemap_size (N - next_ino s) inf) as (Hbits & Hblocks & ws & Hcreate).
    rewrite Hbits, Hblocks, Hcreate. unfold mbind, res_bind. unfold SfsDir.sfs_init_freemap, bitmap_getdata. cbn [nwords nbits Bitmap.map].
    rewrite (proj2 (Z.eqb_eq (4 * (m * 1024)) (m * SFS_BLKSIZE))) by (change SFS_BLKSIZE with 4096; lia). cbn [negb].
    rewrite read_freemap_run by (change SFS_BLKN_FREEMAP with 2; unfold map_blocks; lia).
    change (SFS_BLKN_FREEMAP - 2) with 0. rewrite Z2Nat.id by lia. change (0 =? 0) with true. cbn [negb].
    fold disk_map_words. fold disk_freemap. rewrite count_free_run by lia. rewrite u32_small by lia.
    rewrite (proj2 (Z.eqb_eq _ (N - next_ino s))) by lia. done.
  - split; cbn.
    + apply disk_map_wf.
    + lia.
    + intros i. rewrite disk_free. unfold left_over. rewrite elem_of_list_to_set, elem_of_seqZ. lia.
    + intros i Hi. unfold left_over in Hi. apply elem_of_list_to_set, elem_of_seqZ in Hi. lia.
    + unfold left_over. rewrite size_list_to_set by apply NoDup_seqZ. rewrite length_seqZ. lia.
Qed.

(** * Finding files *)

Section kernel.
Context `{E : heap_env}.
Hypothesis heap_some : ∀ i n, is_Some (heap_addr i n).

(** The kernel works on the image; the inodes that it has in memory are those of the disk. *)
Record live (sk : sfs_fs) : Prop := {
  lv_ok : SfsFile.fs_ok sk left_over;
  lv_disk : disk sk = dk ∧ SfsDisk.blocks (SfsDisk.super sk) = N;
  lv_inodes : ∀ i x, SfsDisk.inodes sk !! i = Some x → (∃ ci, node_at s !! i = Some ci ∧ din x = inode ci) ∧ 1 ≤ ref_count x }.

(** Inode [i] is in memory with [n] references at least. *)
Definition loaded (sk : sfs_fs) (i n : Z) : Prop := ∃ x, SfsDisk.inodes sk !! i = Some x ∧ n ≤ ref_count x.

Lemma live_allocs sk n : live sk → live (set_allocs sk n).
Proof. intros [[] ? ?]. split; [by split|done|done]. Qed.

Lemma live_put sk i x ci : live sk → node_at s !! i = Some ci → din x = inode ci → 1 ≤ ref_count x →
  live (SfsFile.put_sin sk i x) ∧ loaded (SfsFile.put_sin sk i x) i (ref_count x) ∧
  ∀ j n, loaded sk j n → j = i ∧ ref_count x < n ∨ loaded (SfsFile.put_sin sk i x) j n.
Proof.
  intros [Hok Hd Hi] Hci Hx Hr. split.
  - split; [by apply SfsFile.fs_ok_inodes|done|]. intros j y. cbn. intros [[<- <-]|[_ Hy]]%lookup_insert_Some; [|by apply Hi]. split; [by exists ci|done].
  - split; [exists x; split; [apply lookup_insert_eq|done]|]. intros j n (y & Hy & Hn). destruct (decide (j = i)) as [->|Hj].
    + destruct (decide (ref_count x < n)); [by left|right]. exists x. split; [apply lookup_insert_eq|lia].
    + right. exists y. split; [|done]. cbn. by rewrite lookup_insert_ne.
Qed.

Lemma heap_kmalloc_run sk n : ∃ a w, SfsInode.kmalloc n sk = Ret (Some a, set_allocs sk w).
Proof using heap_some.
  unfold SfsInode.kmalloc. destruct (heap_some (calls (allocs sk)) n) as [a Ha]. eexists _, _. step using reflexivity. cbv zeta. step using reflexivity. by rewrite Ha.
Qed.

Lemma load_inode_run sk i ci : live sk → node_at s !! i = Some ci → 1 ≤ nlinks (inode ci) →
  type (inode ci) = SFS_TYPE_DIR ∨ type (inode ci) = SFS_TYPE_FILE →
  ∃ sk', sfs_load_inode i sk = Ret (0, sk') ∧ live sk' ∧ loaded sk' i 1 ∧ (∀ j n, loaded sk j n → loaded sk' j n).
Proof using Hinv Hk Hdk heap_some.
  intros Hlive Hi Hl Hty. unfold sfs_load_inode, lookup_sfs_nolock.
  assert (own !! i = Some UNode) as Ho by (apply (v_nodes _ _ _ Hinv); eauto). pose proof (owned_used _ _ Ho) as Hused.
  destruct (SfsDisk.inodes sk !! i) as [x|] eqn:Hx.
  - destruct (lv_inodes _ Hlive i x Hx) as [(c & Hc & Hdin) Href]. assert (c = ci) as -> by congruence.
    set (x' := set_ref (ref_count x + 1) x). destruct (live_put sk i x' ci Hlive Hi Hdin) as (Hlive' & Hhere & Hload); [cbn; lia|].
    exists (SfsFile.put_sin sk i x'). split; [|split_and!; [done|destruct Hhere as (y & ? & ?); exists y; split; [done|cbn in *; lia]|]].
    2: { intros j n Hj. destruct (Hload j n Hj) as [[-> Hn]|?]; [|done]. destruct Hj as (y & Hy & ?). cbn in Hn. assert (y = x) as -> by congruence. lia. }
    assert ((s0 ← get; match SfsDisk.inodes s0 !! i with None => mret false | Some _ =>
      n ← inode_ref_inc i; when (n =? 1) (sin_upd i (λ x, set_reclaim (reclaim_count x + 1) x)) ;; mret true end) sk = Ret (true, SfsFile.put_sin sk i x')) as Hlook.
    { step using reflexivity. rewrite Hx.
      assert (inode_ref_inc i sk = Ret (ref_count x + 1, SfsFile.put_sin sk i x')) as Hinc.
      { unfold inode_ref_inc. step using (by apply SfsFile.sin_upd_run). by step using (by apply SfsFile.sin_at_run, SfsFile.put_sin_at). }
      step using (exact Hinc). unfold when. by rewrite (proj2 (Z.eqb_neq _ _)) by lia. }
    by step using (exact Hlook).
  - destruct (heap_kmalloc_run sk inode_bytes) as (a1 & w1 & Ha1). set (sk1 := set_allocs sk w1) in *.
    destruct (heap_kmalloc_run sk1 inode_size) as (a2 & w2 & Ha2). set (sk2 := set_allocs sk1 w2) in *.
    pose proof (live_allocs _ w1 Hlive) as Hlive1. fold sk1 in Hlive1. pose proof (live_allocs _ w2 Hlive1) as Hlive2. fold sk2 in Hlive2.
    set (x := mkSin (inode ci) false 1 1 0). destruct (live_put sk2 i x ci Hlive2 Hi eq_refl) as (Hlive' & Hhere & Hload); [cbn; lia|].
    exists (SfsFile.put_sin sk2 i x). split; [|split_and!; [done|done|]].
    2: { intros j n Hj. destruct (Hload j n Hj) as [[-> Hn]|?]; [|done]. destruct Hj as (y & Hy & ?). congruence. }
    assert ((s0 ← get; match SfsDisk.inodes s0 !! i with None => mret false | Some _ =>
      n ← inode_ref_inc i; when (n =? 1) (sin_upd i (λ x, set_reclaim (reclaim_count x + 1) x)) ;; mret true end) sk = Ret (false, sk)) as Hlook.
    { step using reflexivity. by rewrite Hx. }
    destruct (lv_disk _ Hlive1) as [Hd1 Hb1]. rewrite <-Hb1 in Hused.
    step using (exact Hlook). cbv iota. step using (exact Ha1). cbv beta iota. step using (apply (SfsFile.used_run sk1 left_over); [apply Hlive1|done]).
    step using reflexivity. step using (apply SfsFile.rbuf_run; [apply Hused|lia|change inode_bytes with 64; lia|change inode_bytes with 64; lia]).
    cbv beta iota zeta. change (negb (0 =? 0)) with false. cbv iota. rewrite Hd1, Z.add_0_r. change inode_bytes with 64. rewrite (disk_inode i ci Hi).
    step using (unfold assert; rewrite (proj2 (Z.eqb_neq _ _)) by lia; reflexivity).
    assert (sfs_get_ops (type (inode ci)) sk2 = Ret (tt, sk2)) as Hops.
    { unfold sfs_get_ops, assert. destruct Hty as [->| ->]; done. }
    assert (sfs_create_inode (inode ci) i sk1 = Ret (0, SfsFile.put_sin sk2 i x)) as Hcr.
    { unfold sfs_create_inode. step using (exact Ha2). cbv beta iota. by step using (exact Hops). }
    step using (exact Hcr). reflexivity.
Qed.

Lemma cstring_name name rest : Forall (λ c, 0 < c < 256 ∧ c ≠ 47) name → cstring (name ++ 0 :: rest) = name.
Proof. induction 1 as [|c l Hc _ IH]; [done|]. cbn [app cstring]. rewrite (proj2 (Z.eqb_neq c 0)) by lia. by rewrite IH. Qed.

(** What the kernel makes of an entry. *)
Lemma decode_entry_run l ino name rest : l = le 4 ino ++ name ++ [0] ++ rest → length l = 260%nat → is_u32 ino → name_ok name →
  let e := decode_entry l in e_ino e = ino ∧ cstring (<[Z.to_nat SFS_MAX_FNAME_LEN := 0]> (e_name e)) = name.
Proof.
  intros Hl Hlen Hino (Hn & _ & Hc). unfold decode_entry. cbn [e_ino e_name]. split.
  - rewrite Hl. by apply int_at_here.
  - assert (bytes l 4 256 = name ++ [0] ++ rest) as ->.
    { unfold bytes. rewrite take_app_le by (rewrite length_drop; lia). rewrite take_ge by (rewrite length_drop; lia). rewrite Hl.
      rewrite drop_app_ge by (rewrite length_le; lia). rewrite length_le. by rewrite drop_0. }
    change (Z.to_nat SFS_MAX_FNAME_LEN) with 255%nat. destruct (decide (length name = 255)%nat) as [E1|E1].
    + rewrite <-E1. rewrite insert_app_r_alt by lia. rewrite Nat.sub_diag. by apply cstring_name.
    + rewrite insert_app_r_alt by lia. destruct (255 - length name)%nat as [|q] eqn:Eq; [lia|]. cbn [app insert list_insert]. by apply cstring_name.
Qed.

Lemma dirent_read_run sk d ci slot name ino : live sk → loaded sk d 1 → node_at s !! d = Some ci → type (inode ci) = SFS_TYPE_DIR →
  0 ≤ slot < nblks ci → entry_is (image s) (mblk W (inode ci) slot) name ino → is_u32 ino → name_ok name →
  ∃ e, SfsDir.sfs_dirent_read_nolock d slot sk = Ret ((0, e), sk) ∧ e_ino e = ino ∧ cstring (e_name e) = name.
Proof using Hinv Hdk.
  intros Hlive (x & Hx & _) Hd Hty Hslot (rest & Hrest) Hino Hname. destruct (lv_inodes _ Hlive d x Hx) as [(c & Hc & Hdin) _]. assert (c = ci) as -> by congruence.
  pose proof (v_node _ _ _ Hinv _ _ Hd) as Hok. pose proof (n_count _ _ _ _ _ Hok) as [Hc1 Hc2].
  destruct (lv_disk _ Hlive) as [Hdisk Hblocks]. pose proof (n_data _ _ _ _ _ Hok slot Hslot) as Ho. set (b := mblk W (inode ci) slot) in *.
  assert (SfsFile.bmap (disk sk) (din x) slot = b) as Hb by (rewrite Hdisk, Hdin; apply (disk_map d ci slot Hd); lia).
  assert (SfsFile.file_ok (disk sk) (SfsDisk.blocks (SfsDisk.super sk)) left_over (din x)) as Hfok.
  { rewrite Hdisk, Hblocks, Hdin. by apply (disk_file_ok d). }
  assert (SfsFile.used (SfsDisk.blocks (SfsDisk.super sk)) left_over b) as Hused by (rewrite Hblocks; by eapply owned_used).
  assert (read_bytes dk (b * 4096) 260 = le 4 ino ++ name ++ [0] ++ rest) as Hread.
  { rewrite <-Hrest. apply read_ext. intros a Ha. eapply data_kept; [exact Ho|].
    replace a with (b * 4096 + (a - b * 4096)) by lia. apply SfsFile.block_of_addr. lia. }
  assert (length (read_bytes dk (b * 4096) 260) = 260%nat) as Hlen by (apply Nat2Z.inj; by rewrite length_read).
  pose proof (decode_entry_run _ ino name rest Hread Hlen Hino Hname) as [He1 He2].
  set (e := decode_entry (read_bytes dk (b * 4096) 260)) in *. exists (mkEntry (e_ino e) (<[Z.to_nat SFS_MAX_FNAME_LEN := 0]> (e_name e))).
  split; [|split; [exact He1|exact He2]]. unfold SfsDir.sfs_dirent_read_nolock. step using (by apply SfsFile.din_of_run).
  step using (unfold assert; rewrite Hdin, Hty, Z.eqb_refl, (proj2 (Z.leb_le _ _)), (proj2 (Z.ltb_lt _ _)) by lia; reflexivity).
  step using (apply (SfsFile.bmap_load_existing sk left_over d x); [apply Hlive|done|done|rewrite Hdin; lia]). rewrite Hb.
  cbv beta iota. change (negb (0 =? 0)) with false. cbv iota. step using (apply (SfsFile.used_run sk left_over); [apply Hlive|done]). step using reflexivity.
  step using (apply SfsFile.rbuf_run; [apply Hused|lia|change entry_bytes with 260; lia|change entry_bytes with 260; lia]).
  cbv beta iota. change (negb (0 =? 0)) with false. cbv iota zeta. rewrite Hdisk, Z.add_0_r. reflexivity.
Qed.

(** The entries of a directory that the kernel can look through. *)
Definition entries_fine (l : list (list Z * Z)) : Prop := Forall (λ e, name_ok e.1 ∧ 0 < e.2 < 2 ^ 32) l.

Lemma search_loop_run sk d name l j ino : live sk → loaded sk d 1 → dir_is s d l → entries_fine l →
  l !! j = Some (name, ino) → (∀ i e, (i < j)%nat → l !! i = Some e → e.1 ≠ name) →
  ∀ n i empty, (i ≤ j)%nat → (i + n = length l)%nat →
  SfsDir.search_loop d name n (Z.of_nat i) empty sk = Ret ((0, ino, Z.of_nat j, empty), sk).
Proof using Hinv Hdk.
  intros Hlive Hd (ci & Hci & Hty & Hn & Hes) Hfine Hj Hbefore. pose proof (lookup_lt_Some _ _ _ Hj) as Hjl.
  induction n as [|n IH]; intros i empty Hi Hin; [lia|]. cbn [SfsDir.search_loop].
  destruct (lookup_lt_is_Some_2 l i ltac:(lia)) as [e He]. destruct (Forall_lookup_1 _ _ _ _ Hfine He) as [Hname Hino].
  destruct (dirent_read_run sk d ci (Z.of_nat i) e.1 e.2) as (de & Hread & Hde1 & Hde2); [done|done|done|done|lia|by apply Hes|lia|done|].
  step using (exact Hread). cbv beta iota. change (negb (0 =? 0)) with false. cbv iota. rewrite Hde1, (proj2 (Z.eqb_neq _ _)) by lia. rewrite Hde2.
  destruct (decide (i = j)) as [->|Hne].
  - assert (e = (name, ino)) as -> by congruence. by rewrite bool_decide_true.
  - rewrite bool_decide_false by (intros E0; apply (Hbefore i e); [lia|done|done]).
    replace (Z.of_nat i + 1) with (Z.of_nat (S i)) by lia. apply IH; lia.
Qed.

(** Looking a name up in a directory. *)
Lemma sfs_lookup_run sk d name l j ino ci : live sk → loaded sk d 1 → dir_is s d l → entries_fine l →
  l !! j = Some (name, ino) → (∀ i e, (i < j)%nat → l !! i = Some e → e.1 ≠ name) →
  node_at s !! ino = Some ci → 1 ≤ nlinks (inode ci) → type (inode ci) = SFS_TYPE_DIR ∨ type (inode ci) = SFS_TYPE_FILE →
  ∃ sk', SfsDir.sfs_lookup d name sk = Ret ((0, ino), sk') ∧ live sk' ∧ loaded sk' ino 1.
Proof using Hinv Hk Hdk heap_some.
  intros Hlive (x & Hx & Hr) Hdir Hfine Hj Hbefore Hci Hl Hty. pose proof Hdir as (cd & Hcd & Htd & Hn & _).
  destruct (lv_inodes _ Hlive d x Hx) as [(c & Hc & Hdin) _]. assert (c = cd) as -> by congruence.
  pose proof (v_node _ _ _ Hinv _ _ Hcd) as Hok. pose proof (n_count _ _ _ _ _ Hok) as [Hc1 Hc2].
  destruct (Forall_lookup_1 _ _ _ _ Hfine Hj) as [(Hname & Hne & Hchars) _]. cbn [fst] in *.
  set (x1 := set_ref (ref_count x + 1) x). set (sk1 := SfsFile.put_sin sk d x1).
  destruct (live_put sk d x1 cd Hlive Hcd Hdin) as (Hlive1 & Hhere1 & _); [cbn; lia|]. fold sk1 in Hlive1, Hhere1.
  assert (inode_ref_inc d sk = Ret (ref_count x + 1, sk1)) as Hinc.
  { unfold inode_ref_inc. step using (by apply SfsFile.sin_upd_run). by step using (by apply SfsFile.sin_at_run, SfsFile.put_sin_at). }
  destruct (heap_kmalloc_run sk1 entry_bytes) as (a & w & Ha). set (sk2 := set_allocs sk1 w) in *.
  pose proof (live_allocs _ w Hlive1) as Hlive2. fold sk2 in Hlive2.
  set (w' := mkLog (calls w) (unfreed w - 1)). set (sk2' := set_allocs sk2 w'). pose proof (live_allocs _ w' Hlive2) as Hlive2'. fold sk2' in Hlive2'.
  assert (loaded sk2 d 2) as Hhere2. { destruct Hhere1 as (y & ? & ?). exists y. split; [done|]. cbn in *. lia. }
  assert (loaded sk2 d 1) as Hhere2' by (destruct Hhere2 as (y & ? & ?); exists y; split; [done|lia]).
  assert (SfsDisk.inodes sk2 !! d = Some x1) as Hx2 by apply lookup_insert_eq.
  destruct (load_inode_run sk2' ino ci Hlive2' Hci Hl Hty) as (sk3 & Hload & Hlive3 & Hthere & Hmono).
  destruct (Hmono d 2 Hhere2) as (x3 & Hx3 & Hr3). destruct (lv_inodes _ Hlive3 d x3 Hx3) as [(c3 & Hc3 & Hdin3) _].
  set (x4 := set_ref (ref_count x3 - 1) x3). destruct (live_put sk3 d x4 c3 Hlive3 Hc3 Hdin3) as (Hlive4 & _ & Hmono4); [cbn; lia|].
  assert (SfsDir.sfs_dirent_search_nolock d name sk1 = Ret ((0, ino, Z.of_nat j, s32 (nblocks (din x1))), sk2')) as Hsearch.
  { unfold SfsDir.sfs_dirent_search_nolock.
    step using (unfold assert; rewrite (proj2 (Z.leb_le _ _)) by (change SFS_MAX_FNAME_LEN with 255; lia); reflexivity).
    step using (exact Ha). cbv iota. step using (by apply SfsFile.din_of_run). cbv zeta. change (din x1) with (din x). rewrite Hdin, Hc2, Hn, s32_small by lia.
    rewrite Nat2Z.id.
    by step using (exact (search_loop_run sk2 d name l j ino Hlive2 Hhere2' Hdir Hfine Hj Hbefore (length l) 0%nat _ ltac:(lia) eq_refl)). }
  assert (SfsDir.sfs_lookup_once d name sk1 = Ret ((0, ino, Z.of_nat j), sk3)) as Honce.
  { unfold SfsDir.sfs_lookup_once. step using (exact Hsearch). cbv beta iota. change (0 =? 0) with true. cbv iota. by step using (exact Hload). }
  assert (inode_ref_dec d sk3 = Ret (ref_count x3 - 1, SfsFile.put_sin sk3 d x4)) as Hdec.
  { unfold inode_ref_dec. step using (by apply SfsFile.sin_at_run). step using (unfold assert; rewrite (proj2 (Z.ltb_lt _ _)) by lia; reflexivity).
    step using (by apply SfsFile.sin_upd_run). rewrite (proj2 (Z.eqb_neq _ _)) by lia. by step using reflexivity. }
  exists (SfsFile.put_sin sk3 d x4). split_and!; [|done|].
  - unfold SfsDir.sfs_lookup. assert ((match name with [] => false | c0 :: _ => negb (c0 =? 47) end) = true) as Hfirst.
    { destruct name as [|c0 name']; [done|]. apply Forall_cons in Hchars as [[_ ?] _]. by rewrite (proj2 (Z.eqb_neq _ _)). }
    step using (unfold assert; rewrite Hfirst; reflexivity). step using (exact Hinc).
    step using (apply SfsFile.din_of_run, SfsFile.put_sin_at). change (din x1) with (din x). rewrite Hdin, Htd. change (negb (SFS_TYPE_DIR =? SFS_TYPE_DIR)) with false.
    cbv iota. step using (exact Honce). cbv beta iota. step using (exact Hdec). reflexivity.
  - destruct (Hmono4 ino 1 Hthere) as [[-> Hlt]|?]; [|done]. cbn in Hlt. lia.
Qed.

(** [sfs_lookup], name by name. *)
Fixpoint walk (node : Z) (path : list (list Z)) : M sfs_fs (Z * Z) :=
  match path with
  | [] => mret (0, node)
  | name :: path' =>
      '(ret, sub) ← SfsDir.sfs_lookup node name;
      if negb (ret =? 0) then mret (ret, sub) else walk sub path'
  end.

Lemma linked_range i n : linked_by s i n → 0 < i < 2 ^ 32.
Proof using Hinv.
  intros (ci & Hi & _). assert (own !! i = Some UNode) as Ho by (apply (v_nodes _ _ _ Hinv); eauto).
  pose proof (v_sizes _ _ _ Hinv) as [? ?]. pose proof (first_bounds N). destruct (v_range _ _ _ Hinv _ _ Ho) as [[-> _]|?]; lia.
Qed.

Lemma visible_ok l e : entries_ok l → e ∈ visible l → name_ok e.1 ∧ hidden e.1 = false ∧ host_ok e.2.
Proof using Type.
  intros Hok [Hs He]%list_elem_of_filter. unfold entries_ok in Hok. rewrite Forall_forall in Hok. destruct (Hok e He) as [Hh|[Hn Hh]]; unfold shown in Hs.
  - by rewrite Hh in Hs.
  - apply andb_true_iff in Hs as [Hs1 Hs2]. split_and!; [done|by destruct (hidden e.1)|]. destruct Hh as [Hh|?]; [by rewrite Hh in Hs2|done].
Qed.

(** The way down to a file of the host. *)
Lemma walk_run path : ∀ sk x n r data, live sk → loaded sk x 1 → linked_by s x 1 → host_ok n → kept ∅ s x n →
  at_path n path = Some (HReg r data) →
  ∃ i sk', walk x path sk = Ret ((0, i), sk') ∧ live sk' ∧ loaded sk' i 1 ∧ file_is s i SFS_TYPE_FILE data.
Proof using Hinv Hk Hdk heap_some.
  induction path as [|name path IH]; intros sk x n r data Hlive Hx Hlx Hhost Hkept Hpath.
  - injection Hpath as ->. inversion Hkept; subst. by exists x, sk.
  - destruct n as [| r0 l | | |]; try done. cbn [at_path] in Hpath. destruct (list_find (λ e, e.1 = name) (visible l)) as [[q [name' n']]|] eqn:Hfind; [|done].
    cbn in Hpath. apply list_find_Some in Hfind as (Hq & Hname & Hfirst). cbn in Hname. subst name'.
    inversion Hkept as [| |? parent ? ? es _ Hdir Hpar Hes]; subst. inversion Hhost as [| |? ? _ Hnd Hok]; subst.
    pose proof (Forall2_length _ _ _ Hes) as Hlen. pose proof (lookup_lt_Some _ _ _ Hq) as Hql.
    destruct (lookup_lt_is_Some_2 es q ltac:(lia)) as [[name2 x'] Hx'].
    destruct (Forall2_lookup_lr _ _ _ _ _ _ Hes Hq Hx') as (Hnm & Hlink & Hkept'). cbn in Hnm, Hlink, Hkept'. subst name2.
    destruct (visible_ok l (name, n') Hok ltac:(by eapply list_elem_of_lookup_2)) as (Hnok & Hhid & Hhost'). cbn in Hnok, Hhid, Hhost'.
    assert (entries_fine (([46], x) :: ([46; 46], parent) :: es)) as Hfine.
    { assert (name_ok [46] ∧ name_ok [46; 46]) as [? ?] by (unfold name_ok; cbn; split; (split_and!; [lia|done|repeat constructor; lia])).
      constructor; [split; [done|by eapply linked_range]|]. constructor; [split; [done|by eapply linked_range]|].
      apply Forall_lookup. intros p [nm y] Hy. destruct (lookup_lt_is_Some_2 (visible l) p) as [e He].
      { rewrite Hlen. by eapply lookup_lt_Some. }
      destruct (Forall2_lookup_lr _ _ _ _ _ _ Hes He Hy) as (Hnm & Hly & _). cbn in Hnm, Hly. cbn. rewrite <-Hnm. split; [|by eapply linked_range].
      apply (visible_ok l e Hok). by eapply list_elem_of_lookup_2. }
    destruct Hlink as (ci & Hci & Hlinks). assert (linked_by s x' 1) as Hlx' by (by exists ci).
    assert (type (inode ci) = SFS_TYPE_DIR ∨ type (inode ci) = SFS_TYPE_FILE) as Hty.
    { destruct n'; try by destruct path.
      - inversion Hkept' as [? ? ? _ (c & Hc & Ht & _)| |]; subst. right. congruence.
      - inversion Hkept' as [| |? ? ? ? ? _ (c & Hc & Ht & _) _ _]; subst. left. congruence. }
    destruct (sfs_lookup_run sk x name (([46], x) :: ([46; 46], parent) :: es) (S (S q)) x' ci) as (sk1 & Hrun & Hlive1 & Hload1); try done.
    { intros [|[|i]] e Hi He; cbn in He.
      - injection He as <-. cbn. by intros <-.
      - injection He as <-. cbn. by intros <-.
      - destruct (lookup_lt_is_Some_2 (visible l) i ltac:(lia)) as [e' He']. destruct (Forall2_lookup_lr _ _ _ _ _ _ Hes He' He) as (Hnm & _).
        rewrite <-Hnm. apply (Hfirst i e'); [done|lia]. }
    destruct (IH sk1 x' n' r data Hlive1 Hload1 Hlx' Hhost' Hkept' Hpath) as (i & sk2 & Hwalk & Hrest).
    exists i, sk2. split; [|done]. cbn [walk]. step using (exact Hrun). cbv beta iota. change (negb (0 =? 0)) with false. exact Hwalk.
Qed.

(** Reading the file that was found. *)
Lemma found_read sk i data buf : live sk → loaded sk i 1 → file_is s i SFS_TYPE_FILE data →
  Z.of_nat (length data) ≤ Z.of_nat (length buf) < 2 ^ 31 →
  sfs_io_nolock i buf 0 (Z.of_nat (length buf)) false sk = Ret ((0, Z.of_nat (length data), data ++ drop (length data) buf), sk).
Proof using Hinv Hdk.
  intros Hlive (x & Hx & _) (ci & Hci & Hty & Hsz & Hd) Hlen. destruct (lv_inodes _ Hlive i x Hx) as [(c & Hc & Hdin) _]. assert (c = ci) as -> by congruence.
  destruct (lv_disk _ Hlive) as [Hdisk Hblocks]. pose proof (v_node _ _ _ Hinv _ _ Hci) as Hok. pose proof (n_count _ _ _ _ _ Hok) as [Hc1 Hc2].
  rewrite (SfsFile.read_run i sk left_over x); [|apply Hlive|done| | | |change SFS_MAX_FILE_SIZE with 134217728; lia|lia|lia].
  - cbv zeta. rewrite Hdin, Hsz, Hdisk. replace (Z.max 0 (Z.min (0 + Z.of_nat (length buf)) (Z.of_nat (length data)) - 0)) with (Z.of_nat (length data)) by lia.
    rewrite Nat2Z.id. do 4 f_equal. apply list_eq. intros j. unfold SfsFile.file_bytes. rewrite list_lookup_fmap.
    destruct (decide (j < length data)%nat) as [Hj|Hj].
    + rewrite (proj2 (lookup_seqZ 0 _ j (Z.of_nat j))) by lia. rewrite (list_lookup_lookup_total_lt data j Hj). cbn. f_equal.
      unfold SfsFile.file_byte. assert (0 ≤ Z.of_nat j / 4096 < nblks ci) as Hb by (eapply file_block; [done|done|lia]).
      rewrite (disk_map i ci) by (done || lia). destruct (data_owned k own s i ci (Z.of_nat j / 4096) Hinv Hci Hb) as [Ho _].
      rewrite (data_kept _ _ _ _ Ho); [rewrite Hd by lia; by rewrite Nat2Z.id|]. apply SfsFile.block_of_addr, Z.mod_pos_bound. lia.
    + rewrite !(proj2 (lookup_ge_None _ _)); [done|lia|]. rewrite length_seqZ. lia.
  - rewrite Hdisk, Hblocks, Hdin. by apply (disk_file_ok i).
  - rewrite Hdin, Hty. done.
  - rewrite Hdin, Hc2. pose proof (n_size _ _ _ _ _ Hok). lia.
Qed.

End kernel.
End disk.
End close.

(** * From the host to the kernel *)

Definition dot_img : list Z := [46; 105; 109; 103].

Lemma open_img_run junk base st_size img : base ≠ [] → open_img junk (base ++ dot_img) st_size img = create_sfs junk st_size img.
Proof.
  intros Hb. unfold open_img. cbv zeta. fold dot_img. rewrite length_app. change (length dot_img) with 4%nat.
  assert (length base ≠ 0%nat) by (by destruct base). rewrite (proj2 (Nat.leb_gt _ _)) by lia.
  replace (length base + 4 - 4)%nat with (length base) by lia. rewrite drop_app_length, bool_decide_true by done. done.
Qed.

(** The tool does not fail on a host that fits, and leaves the disk that the lemmas above describe. *)
Lemma main_run junk base st_size img home : length junk = 13%nat → base ≠ [] → home_ok home → 0 ≤ st_size < 2 ^ 44 →
  first (nblocks_of st_size) + cost (HDir 0 home) ≤ nblocks_of st_size →
  ∃ s k own dk, main junk (base ++ dot_img) st_size img home = Ret dk ∧ inv k own s ∧ k < 65536 ∧ ninos s = nblocks_of st_size ∧
    linked_by s 1 1 ∧ kept ∅ s 1 (HDir 0 home) ∧ flushed (meta s) (meta_blocks s) (image s) dk.
Proof.
  intros Hj Hb Hhome Hsz Hcost. destruct (tree_run junk st_size img home Hj Hhome Hsz Hcost) as (s0 & s & k & own & Hcr & Hop & Hinv & Hk & Hn & Hl & Hkept).
  destruct (writes_close s k own Hinv (image s)) as (dk & Hclose & Hfl). exists s, k, own, dk. split_and!; try done.
  assert (set_image s (image s) = s) as Hs by by destruct s. rewrite Hs in Hclose.
  unfold main. rewrite open_img_run by done. rewrite Hcr. unfold mbind at 1, res_bind. unfold create_img, mbind at 1, res_bind.
  step using (exact Hop). rewrite Hclose. done.
Qed.

(** C15: the disk image that tools/mksfs.c builds from a directory of the host is a file system of the kernel with the
    files of the host.  When the host fits, the tool ends without failure; [sfs_do_mount] accepts the image,
    with a map of free blocks that agrees with the super block; a lookup of the names on the path of any file of the host,
    also of one with several names, succeeds, and a read of what was found gives the bytes of the file. *)
Theorem image_readable `{E : heap_env} junk base st_size img home nblk :
  (∀ i n, is_Some (heap_addr i n)) → length junk = 13%nat → base ≠ [] → home_ok home → 0 ≤ st_size < 2 ^ 44 →
  first (nblocks_of st_size) + cost (HDir 0 home) ≤ nblocks_of st_size → nblocks_of st_size ≤ nblk < 2 ^ 32 →
  ∃ dk sk F, main junk (base ++ dot_img) st_size img home = Ret dk ∧
    SfsDir.sfs_do_mount true true true true true (SfsDir.mkDev nblk 4096 dk) = Ret (0, Some sk) ∧ SfsFile.fs_ok sk F ∧
    ∀ path r data, at_path (HDir 0 home) path = Some (HReg r data) →
      ∃ i sk', (root ← SfsDir.sfs_get_root; walk root path) sk = Ret ((0, i), sk') ∧
        ∀ buf, Z.of_nat (length data) ≤ Z.of_nat (length buf) < 2 ^ 31 →
          sfs_io_nolock i buf 0 (Z.of_nat (length buf)) false sk' =
            Ret ((0, Z.of_nat (length data), data ++ drop (length data) buf), sk').
Proof.
  intros Hheap Hj Hb Hhome Hsz Hcost Hdev.
  destruct (main_run junk base st_size img home Hj Hb Hhome Hsz Hcost) as (s & k & own & dk & Hmain & Hinv & Hk & Hn & Hl & Hkept & Hfl).
  rewrite <-Hn in Hdev. destruct (mount_run s k own Hinv dk Hfl nblk Hdev) as (inf & Hmount & Hok).
  exists dk, (mounted s dk inf), (left_over s). split_and!; [done|done|done|]. intros path r data Hpath.
  assert (live s dk (mounted s dk inf)) as Hlive by (split; [done|done|intros i x Hi; cbn in Hi; by rewrite lookup_empty in Hi]).
  pose proof Hl as (ci & Hci & Hl1). inversion Hkept as [| |? ? ? ? ? _ (c & Hc & Hty & _) _ _]; subst. assert (c = ci) as -> by congruence.
  destruct (load_inode_run s k own Hinv Hk dk Hfl Hheap (mounted s dk inf) 1 ci Hlive Hci Hl1 ltac:(by left)) as (sk1 & Hload & Hlive1 & Hthere & _).
  destruct (walk_run s k own Hinv Hk dk Hfl Hheap path sk1 1 (HDir 0 home) r data Hlive1 Hthere Hl (h_ok _ Hhome) Hkept Hpath) as (i & sk2 & Hwalk & Hlive2 & Hload2 & Hfile).
  exists i, sk2. split.
  - assert (SfsDir.sfs_get_root (mounted s dk inf) = Ret (SFS_BLKN_ROOT, sk1)) as Hroot by (unfold SfsDir.sfs_get_root; by step using (exact Hload)).
    step using (exact Hroot). exact Hwalk.
  - intros buf Hbuf. by eapply found_read.
Qed.

(** ** An example: a file with two names, one of them in a directory *)

#[local] Instance demo_env : heap_env := {| heap_addr := λ _ _, Some 0; heap_bytes := λ _, []; undef := 77 |}.

Definition demo_sub : list (list Z * hnode) := [([104], HReg 7 [1; 2; 3])].
Definition demo_home : list (list Z * hnode) := [([104; 105], HReg 7 [1; 2; 3]); ([46; 120], HOther); ([100], HDir 8 demo_sub)].

Lemma demo_name name : (length name ≤ 255)%nat → name ≠ [] → bool_decide (Forall (λ c, 0 < c < 256 ∧ c ≠ 47) name) = true → name_ok name.
Proof. intros H1 H2 H3%bool_decide_eq_true. by split. Qed.

Lemma demo_sub_ok : host_ok (HDir 8 demo_sub).
Proof.
  constructor; [vm_compute; discriminate|by apply (bool_decide_unpack _)|]. constructor; [|constructor]. right.
  split; [apply demo_name; [cbn; lia|done|done]|]. right. constructor. vm_compute. discriminate.
Qed.

Lemma demo_home_ok : home_ok demo_home.
Proof.
  split.
  - constructor; [vm_compute; discriminate|by apply (bool_decide_unpack _)|].
    constructor; [|constructor; [by left|constructor; [|constructor]]]; right; (split; [apply demo_name; [cbn; lia|done|done]|]); right.
    + constructor. vm_compute. discriminate.
    + apply demo_sub_ok.
  - change (regs (HDir 0 demo_home)) with [(7, [1; 2; 3]); (7, [1; 2; 3])].
    intros r d d' H1 H2. rewrite !elem_of_cons, elem_of_nil in H1, H2. naive_solver.
  - change (dirs (HDir 0 demo_home)) with [0; 8]. by apply (bool_decide_unpack _).
  - change (links (HDir 0 demo_home)) with (@nil Z). intros r _. apply not_elem_of_nil.
  - change (dirs (HDir 0 demo_home)) with [0; 8]. change (links (HDir 0 demo_home)) with (@nil Z).
    change (regs (HDir 0 demo_home)).*1 with [7; 7]. intros r Hr H7. rewrite !elem_of_cons, !elem_of_nil in *. lia.
  - vm_compute. reflexivity.
Qed.

Lemma image_readable_witness :
  ∃ dk sk i sk', main (replicate 13 0) [102; 115; 46; 105; 109; 103] (32 * 4096) ∅ demo_home = Ret dk ∧
    SfsDir.sfs_do_mount true true true true true (SfsDir.mkDev 32 4096 dk) = Ret (0, Some sk) ∧
    (root ← SfsDir.sfs_get_root; walk root [[100]; [104]]) sk = Ret ((0, i), sk') ∧
    sfs_io_nolock i [0; 0; 0; 9] 0 4 false sk' = Ret ((0, 3, [1; 2; 3; 9]), sk').
Proof.
  destruct (image_readable (replicate 13 0) [102; 115] (32 * 4096) ∅ demo_home 32) as (dk & sk & F & Hmain & Hmount & _ & Hfiles).
  - intros i n. by eexists.
  - reflexivity.
  - done.
  - exact demo_home_ok.
  - lia.
  - vm_compute. discriminate.
  - vm_compute. intuition discriminate.
  - destruct (Hfiles [[100]; [104]] 7 [1; 2; 3]) as (i & sk' & Hwalk & Hread); [vm_compute; reflexivity|].
    exists dk, sk, i, sk'. split_and!; [exact Hmain|exact Hmount|exact Hwalk|]. apply (Hread [0; 0; 0; 9]). vm_compute. intuition discriminate.
Defined.

End ImageMount.
