(* ===== verification/Vfs.v ===== *)
(** The virtual file system: device inodes (kern/fs/devs/dev.c), the device table (kern/fs/vfs/vfsdev.c),
    the boot file system (vfs.c), path names (vfslookup.c, vfspath.c) and operations on paths
    (vfsfile.c), over the simple file system.

    A path is a buffer of characters without its terminating NUL; [get_device] overwrites the colon of
    a device name in the buffer, so that the functions hand the buffer on. *)
From S2P Require Import Prelude SfsDisk Iobuf SfsInode SfsDir.

Module Vfs.
Import SfsDisk Iobuf SfsInode SfsDir.
Set Default Proof Using "Type".

Definition E_NO_DEV : Z := 13.
Definition E_UNIMP : Z := 20.
Definition FS_MAX_DNAME_LEN : Z := 31.
Definition S_IFMT : Z := 28672.
Definition S_IFCHR : Z := 16384.
Definition S_IFBLK : Z := 20480.
Definition O_WRONLY : Z := 1.
Definition O_RDWR : Z := 2.
Definition O_CREAT : Z := 4.
Definition O_EXCL : Z := 8.
Definition O_TRUNC : Z := 16.

(** [struct inode]: an inode of a mounted file system, or the inode of a device. *)
Inductive node :=
| NSfs (fs ino : Z)
| NDev (dev : Z).

#[global] Instance node_eq_dec : EqDecision node.
Proof. solve_decision. Defined.

(** [vfs_dev_t]. *)
Record vfs_dev := mkVdev { devname : list Z; devnode : option Z; vd_fs : option Z; mountable : bool }.

(** [struct file] and [struct files_struct] of kern/fs/file.h and fs.h. *)
Inductive fd_status := FD_NONE | FD_INIT | FD_OPENED | FD_CLOSED.

#[global] Instance fd_status_eq_dec : EqDecision fd_status.
Proof. solve_decision. Defined.

Record file := mkFile {
  status : fd_status; readable : bool; writable : bool; fd : Z; pos : Z; f_node : option node; fopen_count : Z }.

Record files_struct := mkFiles { pwd : option node; fd_array : list file; files_count : Z }.

(** The functions a driver puts into [struct device], with the state [D] of the drivers: [d_io] works
    on memory and a transfer descriptor. *)
Class dev_ops (D : Type) := {
  dv_blocks : Z → Z;
  dv_blocksize : Z → Z;
  d_open : Z → Z → M D Z;
  d_close : Z → M D Z;
  d_io : Z → bool → gmap Z Z * iobuf → M D (Z * (gmap Z Z * iobuf)) }.

Section vfs.
Context `{E : heap_env} {D : Type} `{DV : dev_ops D}.

(** The state: the mounted file systems, the device table, the counts of the device inodes, the boot
    file system, the open files of every process and those of the running one, memory, the drivers. *)
Record vfs := mkVfs {
  fss : gmap Z sfs_fs; vdev_list : list vfs_dev; dev_counts : gmap Z (Z * Z); bootfs_node : option node;
  filesps : gmap Z files_struct; filesp : Z; mem : gmap Z Z; drivers : D }.

Definition set_fss (s : vfs) x := mkVfs x (vdev_list s) (dev_counts s) (bootfs_node s) (filesps s) (filesp s) (mem s) (drivers s).
Definition set_vdevs (s : vfs) x := mkVfs (fss s) x (dev_counts s) (bootfs_node s) (filesps s) (filesp s) (mem s) (drivers s).
Definition set_counts (s : vfs) x := mkVfs (fss s) (vdev_list s) x (bootfs_node s) (filesps s) (filesp s) (mem s) (drivers s).
Definition set_bootfs (s : vfs) x := mkVfs (fss s) (vdev_list s) (dev_counts s) x (filesps s) (filesp s) (mem s) (drivers s).
Definition set_filesps (s : vfs) x := mkVfs (fss s) (vdev_list s) (dev_counts s) (bootfs_node s) x (filesp s) (mem s) (drivers s).
Definition set_mem (s : vfs) x := mkVfs (fss s) (vdev_list s) (dev_counts s) (bootfs_node s) (filesps s) (filesp s) x (drivers s).
Definition set_drivers (s : vfs) x := mkVfs (fss s) (vdev_list s) (dev_counts s) (bootfs_node s) (filesps s) (filesp s) (mem s) x.

(** Running an operation of one file system, of the drivers. *)
Definition fs_do {A} (f : Z) (m : M sfs_fs A) : M vfs A := λ s,
  match fss s !! f with
  | None => Err EFault
  | Some x => match m x with Ret (a, x') => Ret (a, set_fss s (<[f := x']> (fss s))) | Err e => Err e end
  end.
Definition dev_do {A} (m : M D A) : M vfs A := λ s,
  match m (drivers s) with Ret (a, d) => Ret (a, set_drivers s d) | Err e => Err e end.

(** * Device inodes *)

Definition counts_at (d : Z) : M vfs (Z * Z) := deref (λ s, dev_counts s !! d).
Definition counts_set (d : Z) (c : Z * Z) : M vfs unit := modify (λ s, set_counts s (<[d := c]> (dev_counts s))).

Definition dev_check (d : Z) (has : bool) : M vfs unit :=
  '(r, o) ← counts_at d;
  assert has ;;
  assert ((o <=? r) && (0 <=? o)) ;;
  assert ((r <? MAX_INODE_COUNT) && (o <? MAX_INODE_COUNT)).

Definition dev_open (d open_flags : Z) : M vfs Z :=
  if negb (Z.land open_flags (Z.lor O_CREAT (Z.lor O_TRUNC (Z.lor O_EXCL O_APPEND))) =? 0) then mret (- E_INVAL)
  else dev_do (d_open d open_flags).

Definition dev_close (d : Z) : M vfs Z := dev_do (d_close d).

Definition dev_io (d : Z) (write : bool) (iob : iobuf) : M vfs (Z * iobuf) :=
  s ← get;
  '(ret, (m, iob')) ← dev_do (d_io d write (mem s, iob));
  modify (λ s, set_mem s m) ;;
  mret (ret, iob').

Definition dev_gettype (d : Z) : Z * Z := (0, if 0 <? dv_blocks d then S_IFBLK else S_IFCHR).

Definition dev_fstat (d : Z) : Z * stat :=
  let '(_, mode) := dev_gettype d in (0, mkStat mode 1 (dv_blocks d) (u32 (dv_blocks d * dv_blocksize d))).

Definition dev_tryseek (d p : Z) : Z :=
  if 0 <? dv_blocks d then
    if (u32 p mod dv_blocksize d =? 0) && (0 <=? p) && (u32 p <? u32 (dv_blocks d * dv_blocksize d)) then 0 else - E_INVAL
  else - E_INVAL.

(** * Operations on inodes, the vop_ macros of kern/fs/vfs/inode.h *)

(** The check of [__vop_op]; the flags say which of the three tables has the operation. *)
Definition vop_check (n : node) (dirs files devs : bool) : M vfs unit :=
  match n with
  | NSfs f i => fs_do f (inode_check i dirs files)
  | NDev d => dev_check d devs
  end.

Definition vop_ref_inc (n : node) : M vfs Z :=
  match n with
  | NSfs f i => fs_do f (inode_ref_inc i)
  | NDev d => '(r, o) ← counts_at d; counts_set d (r + 1, o) ;; mret (r + 1)
  end.

(** The last reference to a device inode calls [vop_reclaim], which its table does not have. *)
Definition vop_ref_dec (n : node) : M vfs Z :=
  match n with
  | NSfs f i => fs_do f (inode_ref_dec i)
  | NDev d =>
      '(r, o) ← counts_at d;
      assert (0 <? r) ;;
      counts_set d (r - 1, o) ;;
      when (r - 1 =? 0) (fail EPanic) ;;
      mret (r - 1)
  end.

Definition vop_open_inc (n : node) : M vfs Z :=
  match n with
  | NSfs f i => fs_do f (inode_open_inc i)
  | NDev d => '(r, o) ← counts_at d; counts_set d (r, o + 1) ;; mret (o + 1)
  end.

Definition vop_open_dec (n : node) : M vfs Z :=
  match n with
  | NSfs f i => fs_do f (inode_open_dec i)
  | NDev d =>
      '(r, o) ← counts_at d;
      assert (0 <? o) ;;
      counts_set d (r, o - 1) ;;
      (if o - 1 =? 0 then dev_check d true ;; _ ← dev_close d; mret tt else mret tt) ;;
      mret (o - 1)
  end.

Definition vop_open (n : node) (open_flags : Z) : M vfs Z :=
  vop_check n true true true ;;
  match n with
  | NSfs f i =>
      fs_do f (d ← din_of i; if type d =? SFS_TYPE_DIR then sfs_opendir i open_flags else sfs_openfile i open_flags)
  | NDev d => dev_open d open_flags
  end.

(** Reading ([write] false) and writing; [iob] works on the memory of the state. *)
Definition vop_io (n : node) (write : bool) (iob : iobuf) : M vfs (Z * iobuf) :=
  vop_check n false true true ;;
  match n with
  | NSfs f i =>
      s ← get;
      '(ret, (m, iob')) ← fs_do f (sfs_io i write (mem s, iob));
      modify (λ s, set_mem s m) ;;
      mret (ret, iob')
  | NDev d => dev_io d write iob
  end.
Definition vop_read (n : node) := vop_io n false.
Definition vop_write (n : node) := vop_io n true.

Definition vop_fstat (n : node) : M vfs (Z * stat) :=
  vop_check n true true true ;;
  match n with
  | NSfs f i => fs_do f (sfs_fstat i)
  | NDev d => mret (dev_fstat d)
  end.

Definition vop_gettype (n : node) : M vfs (Z * Z) :=
  vop_check n true true true ;;
  match n with
  | NSfs f i => fs_do f (sfs_gettype i)
  | NDev d => mret (dev_gettype d)
  end.

Definition vop_fsync (n : node) : M vfs Z :=
  vop_check n true true false ;;
  match n with NSfs f i => fs_do f (sfs_fsync i) | NDev d => fail EPanic end.

Definition vop_tryseek (n : node) (p : Z) : M vfs Z :=
  vop_check n false true true ;;
  match n with
  | NSfs f i => fs_do f (sfs_tryseek i p)
  | NDev d => mret (dev_tryseek d p)
  end.

Definition vop_truncate (n : node) (len : Z) : M vfs Z :=
  vop_check n false true false ;;
  match n with NSfs f i => fs_do f (sfs_truncfile i len) | NDev d => fail EPanic end.

Definition vop_namefile (n : node) (iob : iobuf) : M vfs (Z * iobuf) :=
  vop_check n true false false ;;
  match n with
  | NSfs f i =>
      s ← get;
      '(ret, (m, iob')) ← fs_do f (sfs_namefile i (mem s, iob));
      modify (λ s, set_mem s m) ;; mret (ret, iob')
  | NDev d => fail EPanic
  end.

Definition vop_getdirentry (n : node) (iob : iobuf) : M vfs (Z * iobuf) :=
  vop_check n true false false ;;
  match n with
  | NSfs f i =>
      s ← get;
      '(ret, (m, iob')) ← fs_do f (sfs_getdirentry i (mem s, iob));
      modify (λ s, set_mem s m) ;; mret (ret, iob')
  | NDev d => fail EPanic
  end.

Definition vop_lookup (n : node) (path : list Z) : M vfs (Z * option node) :=
  vop_check n true false true ;;
  match n with
  | NSfs f i => '(ret, j) ← fs_do f (sfs_lookup i path); mret (ret, if ret =? 0 then Some (NSfs f j) else None)
  | NDev d =>
      (* dev_lookup *)
      match path with
      | [] => _ ← vop_ref_inc n; mret (0, Some n)
      | _ => mret (- E_NOENT, None)
      end
  end.

Definition vop_create (n : node) (name : list Z) (excl : bool) : M vfs (Z * option node) :=
  vop_check n true true false ;;
  match n with
  | NSfs f i => '(ret, oj) ← fs_do f (sfs_create i name); mret (ret, NSfs f <$> oj)
  | NDev d => fail EPanic
  end.

Definition vop_delete (n : node) (name : list Z) (ty : Z) : M vfs Z :=
  vop_check n true true false ;;
  match n with NSfs f i => fs_do f (sfs_delete i name ty) | NDev d => fail EPanic end.

Definition vop_mkdir (n : node) (name : list Z) : M vfs Z :=
  vop_check n true false false ;;
  match n with NSfs f i => fs_do f (sfs_mkdir i name) | NDev d => fail EPanic end.

Definition vop_rename (n : node) (old_name new_name : list Z) : M vfs Z :=
  vop_check n true true false ;;
  match n with NSfs f i => fs_do f (sfs_rename i old_name new_name) | NDev d => fail EPanic end.

(** * The device table, vfsdev.c *)

Definition fsop_get_root (f : Z) : M vfs node := i ← fs_do f sfs_get_root; mret (NSfs f i).

Fixpoint cleanup_devs (l : list vfs_dev) : M vfs unit :=
  match l with
  | [] => mret tt
  | v :: l' => match vd_fs v with Some f => fs_do f sfs_cleanup | None => mret tt end ;; cleanup_devs l'
  end.
Definition vfs_cleanup : M vfs unit := s ← get; cleanup_devs (vdev_list s).

Definition find_dev (name : list Z) (l : list vfs_dev) : option vfs_dev := list_find (λ v, devname v = name) l ≫= λ x, Some x.2.

Definition vfs_get_root (name : list Z) : M vfs (Z * option node) :=
  s ← get;
  match find_dev name (vdev_list s) with
  | None => mret (- E_NO_DEV, None)
  | Some v =>
      match vd_fs v with
      | Some f => n ← fsop_get_root f; mret (0, Some n)
      | None =>
          if mountable v then mret (- E_NA_DEV, None)
          else match devnode v with
               | Some d => _ ← vop_ref_inc (NDev d); mret (0, Some (NDev d))
               | None => fail EFault
               end
      end
  end.

Definition vfs_get_devname (f : Z) : M vfs (option (list Z)) :=
  s ← get; mret (list_find (λ v, vd_fs v = Some f) (vdev_list s) ≫= λ x, Some (devname x.2)).

Definition check_devname_conflict (name : list Z) (l : list vfs_dev) : bool :=
  negb (existsb (λ v, bool_decide (devname v = name)) l).

(** The booleans are the outcomes of [strdup] and [kmalloc]. *)
Definition vfs_do_add (k_name k_dev : bool) (name : list Z) (dn : option Z) (f : option Z) (mnt : bool) : M vfs Z :=
  assert (match dn with None => negb mnt | Some _ => true end) ;;
  if FS_MAX_DNAME_LEN <? Z.of_nat (length name) then mret (- E_TOO_BIG)
  else if negb (k_name && k_dev) then mret (- E_NO_MEM)
  else
    s ← get;
    if negb (check_devname_conflict name (vdev_list s)) then mret (- E_EXISTS)
    else put (set_vdevs s (mkVdev name dn f mnt :: vdev_list s)) ;; mret 0.

Definition vfs_add_fs (k_name k_dev : bool) (name : list Z) (f : Z) : M vfs Z := vfs_do_add k_name k_dev name None (Some f) false.
Definition vfs_add_dev (k_name k_dev : bool) (name : list Z) (d : Z) (mnt : bool) : M vfs Z :=
  vfs_do_add k_name k_dev name (Some d) None mnt.

Definition find_mount (name : list Z) (l : list vfs_dev) : option (nat * vfs_dev) :=
  list_find (λ v, mountable v = true ∧ devname v = name) l.

(** [mountfunc] gives the result and, on success, the new file system, which gets the number [f]. *)
Definition vfs_mount (name : list Z) (mountfunc : Z → res (Z * option sfs_fs)) (f : Z) : M vfs Z :=
  s ← get;
  match find_mount name (vdev_list s) with
  | None => mret (- E_NO_DEV)
  | Some (i, v) =>
      if bool_decide (vd_fs v ≠ None) then mret (- E_BUSY) else
      d ← deref (λ _, devnode v);
      match mountfunc d with
      | Err e => fail e
      | Ret (ret, ofs) =>
          if ret =? 0 then
            match ofs with
            | None => fail EPanic
            | Some x =>
                put (set_vdevs (set_fss s (<[f := x]> (fss s)))
                       (<[i := mkVdev (devname v) (devnode v) (Some f) (mountable v)]> (vdev_list s))) ;;
                mret 0
            end
          else mret ret
      end
  end.

(** The unmounting that [vfs_unmount] and [vfs_unmount_all] share: sync, unmount, forget. *)
Definition unmount_dev (i : nat) (v : vfs_dev) (f : Z) : M vfs Z :=
  ret ← fs_do f sfs_sync;
  if negb (ret =? 0) then mret ret else
  ret ← fs_do f sfs_unmount;
  when (ret =? 0)
    (modify (λ s, set_vdevs (set_fss s (delete f (fss s)))
                    (<[i := mkVdev (devname v) (devnode v) None (mountable v)]> (vdev_list s)))) ;;
  mret ret.

Definition vfs_unmount (name : list Z) : M vfs Z :=
  s ← get;
  match find_mount name (vdev_list s) with
  | None => mret (- E_NO_DEV)
  | Some (i, v) => match vd_fs v with None => mret (- E_INVAL) | Some f => unmount_dev i v f end
  end.

Fixpoint unmount_loop (i : nat) (l : list vfs_dev) : M vfs unit :=
  match l with
  | [] => mret tt
  | v :: l' =>
      match vd_fs v with
      | Some f => if mountable v then _ ← unmount_dev i v f; mret tt else mret tt
      | None => mret tt
      end ;;
      unmount_loop (S i) l'
  end.
Definition vfs_unmount_all : M vfs Z := s ← get; unmount_loop 0 (vdev_list s) ;; mret 0.

(** * The current directory and the boot file system, vfspath.c and vfs.c *)

Definition cur_files : M vfs files_struct := deref (λ s, filesps s !! filesp s).
Definition set_cur_files (f : files_struct → files_struct) : M vfs unit :=
  x ← cur_files; modify (λ s, set_filesps s (<[filesp s := f x]> (filesps s))).

Definition vfs_get_curdir : M vfs (Z * option node) :=
  x ← cur_files;
  match pwd x with
  | Some n => _ ← vop_ref_inc n; mret (0, Some n)
  | None => mret (- E_NOENT, None)
  end.

Definition vfs_set_curdir (dir : option node) : M vfs Z :=
  x ← cur_files;
  let old := pwd x in
  if bool_decide (old = dir) then mret 0 else
  ret ← match dir with
        | None => mret 0
        | Some n =>
            '(ret, ty) ← vop_gettype n;
            if negb (ret =? 0) then mret ret
            else if negb (Z.land ty S_IFMT =? S_IFDIR) then mret (- E_NOTDIR)
            else _ ← vop_ref_inc n; mret 0
        end;
  if negb (ret =? 0) then mret ret else
  set_cur_files (λ x, mkFiles dir (fd_array x) (files_count x)) ;;
  match old with Some o => _ ← vop_ref_dec o; mret 0 | None => mret 0 end.

Definition vfs_get_bootfs : M vfs (Z * option node) :=
  s ← get;
  match bootfs_node s with
  | Some n => _ ← vop_ref_inc n; mret (0, Some n)
  | None => mret (- E_NOENT, None)
  end.

Definition change_bootfs (n : option node) : M vfs unit :=
  s ← get;
  put (set_bootfs s n) ;;
  match bootfs_node s with Some o => _ ← vop_ref_dec o; mret tt | None => mret tt end.

(** * Path names, vfslookup.c *)

Definition SLASH : Z := 47.
Definition COLON : Z := 58.

(** The first colon or slash of the string. *)
Fixpoint first_sep (l : list Z) (i : Z) : Z * Z :=
  match l with
  | [] => (-1, -1)
  | c :: l' => if c =? COLON then (i, -1) else if c =? SLASH then (-1, i) else first_sep l' (i + 1)
  end.

(** The index of the first character that is not a slash, from [i] on. *)
Fixpoint skip_slashes (l : list Z) (i : Z) : Z :=
  match l with
  | c :: l' => if c =? SLASH then skip_slashes l' (i + 1) else i
  | [] => i
  end.

(** The string that starts at [i] in the buffer. *)
Definition cstr (buf : list Z) (i : Z) : list Z := cstring (drop (Z.to_nat i) buf).

(** [get_device]: the result, the node, where the rest of the path starts, and the buffer. *)
Definition get_device (path : list Z) : M vfs (Z * option node * Z * list Z) :=
  let '(colon, slash) := first_sep (cstr path 0) 0 in
  if (colon <? 0) && negb (slash =? 0) then
    '(ret, n) ← vfs_get_curdir; mret (ret, n, 0, path)
  else if 0 <? colon then
    let path' := <[Z.to_nat colon := 0]> path in
    let sub := skip_slashes (cstr path' (colon + 1)) (colon + 1) in
    '(ret, n) ← vfs_get_root (cstr path' 0); mret (ret, n, sub, path')
  else
    '(ret, n) ←
      (if slash =? 0 then vfs_get_bootfs
       else
         '(ret, n) ← vfs_get_curdir;
         if negb (ret =? 0) then mret (ret, n) else
         match n with
         | Some (NSfs f i) => r ← fsop_get_root f; _ ← vop_ref_dec (NSfs f i); mret (0, Some r)
         | _ => fail EPanic
         end);
    if negb (ret =? 0) then mret (ret, n, 0, path) else
    mret (0, n, skip_slashes (cstr path 1) 1, path).

Definition vfs_lookup (path : list Z) : M vfs (Z * option node * list Z) :=
  '(ret, n, sub, path) ← get_device path;
  if negb (ret =? 0) then mret (ret, None, path) else
  n ← deref (λ _, n);
  match cstr path sub with
  | [] => mret (0, Some n, path)
  | name => '(ret, r) ← vop_lookup n name; _ ← vop_ref_dec n; mret (ret, r, path)
  end.

Definition vfs_lookup_parent (path : list Z) : M vfs (Z * option node * list Z * list Z) :=
  '(ret, n, sub, path) ← get_device path;
  if negb (ret =? 0) then mret (ret, None, [], path) else mret (0, n, cstr path sub, path).

Definition vfs_chdir (path : list Z) : M vfs Z :=
  '(ret, n, _) ← vfs_lookup path;
  if negb (ret =? 0) then mret ret else
  n ← deref (λ _, n);
  ret ← vfs_set_curdir (Some n);
  _ ← vop_ref_dec n; mret ret.

(** [vfs_getcwd]; the device name and the colon are copied from where they are in memory, [dn] and [cn]. *)
Definition vfs_getcwd (dn cn : Z) (iob : iobuf) : M vfs (Z * iobuf) :=
  '(ret, n) ← vfs_get_curdir;
  if negb (ret =? 0) then mret (ret, iob) else
  n ← deref (λ _, n);
  f ← match n with NSfs f _ => mret f | NDev _ => fail EPanic end;
  o ← vfs_get_devname f;
  name ← deref (λ _, o);
  let move (data len : Z) (iob : iobuf) : M vfs (Z * iobuf) :=
    s ← get;
    match iobuf_move data len true (mem s, iob) with
    | Ret ((ret, _), (m, iob')) => put (set_mem s m) ;; mret (ret, iob')
    | Err e => fail e
    end in
  modify (λ s, set_mem s (write_bytes (mem s) dn name)) ;;
  '(ret, iob) ← move dn (Z.of_nat (length name)) iob;
  if negb (ret =? 0) then _ ← vop_ref_dec n; mret (ret, iob) else
  modify (λ s, set_mem s (write_bytes (mem s) cn [COLON])) ;;
  '(ret, iob) ← move cn 1 iob;
  if negb (ret =? 0) then _ ← vop_ref_dec n; mret (ret, iob) else
  '(ret, iob) ← vop_namefile n iob;
  _ ← vop_ref_dec n; mret (ret, iob).

Definition vfs_set_bootfs (fsname : option (list Z)) : M vfs Z :=
  match fsname with
  | None => change_bootfs None ;; mret 0
  | Some name =>
      (* [strchr(fsname, ':')] must be the last character *)
      if negb (match list_find (λ c, c = COLON) name with Some (i, _) => bool_decide (S i = length name) | None => false end)
      then mret (- E_INVAL) else
      ret ← vfs_chdir name;
      if negb (ret =? 0) then mret ret else
      '(ret, n) ← vfs_get_curdir;
      if negb (ret =? 0) then mret ret else
      change_bootfs n ;; mret 0
  end.

(** * Operations on paths, vfsfile.c *)

Definition can_write (open_flags : Z) : bool :=
  let a := Z.land open_flags O_ACCMODE in (a =? O_WRONLY) || (a =? O_RDWR).

Definition vfs_open (path : list Z) (open_flags : Z) : M vfs (Z * option node) :=
  if Z.land open_flags O_ACCMODE =? 3 then mret (- E_INVAL, None)
  else if negb (Z.land open_flags O_TRUNC =? 0) && negb (can_write open_flags) then mret (- E_INVAL, None)
  else
    let excl := negb (Z.land open_flags O_EXCL =? 0) in
    let create := negb (Z.land open_flags O_CREAT =? 0) in
    '(ret, n, path) ← vfs_lookup path;
    '(ret, n) ←
      (if negb (ret =? 0) then
         if (ret =? - E_NOENT) && create then
           '(ret, dir, name, _) ← vfs_lookup_parent path;
           if negb (ret =? 0) then mret (inl ret, None) else
           dir ← deref (λ _, dir);
           '(_, n) ← vop_create dir name excl; mret (inr tt, n)
         else mret (inl ret, None)
       else if excl && create then mret (inl (- E_EXISTS), None)
       else mret (inr tt, n));
    match ret with
    | inl ret => mret (ret, None)
    | inr _ =>
        n ← deref (λ _, n);
        ret ← vop_open n open_flags;
        if negb (ret =? 0) then _ ← vop_ref_dec n; mret (ret, None) else
        _ ← vop_open_inc n;
        ret ← (if negb (Z.land open_flags O_TRUNC =? 0) || create then vop_truncate n 0 else mret 0);
        if negb (ret =? 0) then _ ← vop_open_dec n; _ ← vop_ref_dec n; mret (ret, None) else
        mret (0, Some n)
    end.

Definition vfs_close (n : node) : M vfs Z := _ ← vop_open_dec n; _ ← vop_ref_dec n; mret 0.

Definition vfs_delete (path : list Z) (ty : Z) : M vfs Z :=
  '(ret, dir, name, _) ← vfs_lookup_parent path;
  if negb (ret =? 0) then mret ret else dir ← deref (λ _, dir); vop_delete dir name ty.

Definition vfs_rename (old_path new_path : list Z) : M vfs Z :=
  '(ret, dir, name, _) ← vfs_lookup_parent old_path;
  if negb (ret =? 0) then mret ret else dir ← deref (λ _, dir); vop_rename dir name new_path.

Definition vfs_mkdir (path : list Z) : M vfs Z :=
  '(ret, dir, name, _) ← vfs_lookup_parent path;
  if negb (ret =? 0) then mret ret else dir ← deref (λ _, dir); vop_mkdir dir name.

Definition vfs_unlink (path : list Z) : M vfs Z := mret (- E_UNIMP).
Definition vfs_link (old_path new_path : list Z) : M vfs Z := mret (- E_UNIMP).
Definition vfs_symlink (old_path new_path : list Z) : M vfs Z := mret (- E_UNIMP).
Definition vfs_readlink (path : list Z) : M vfs Z := mret (- E_UNIMP).

End vfs.
End Vfs.
