(* ===== verification/File.v ===== *)
(** Open files: the descriptor tables of kern/fs/file.c and kern/fs/fs.c over the virtual file system. *)
From S2P Require Import Prelude SfsDisk Iobuf SfsInode SfsDir Vfs.

Module File.
Import SfsDisk Iobuf SfsInode SfsDir Vfs.
Set Default Proof Using "Type".

(** [FILES_STRUCT_NENTRY]: (PGSIZE - sizeof(struct files_struct)) / sizeof(struct file), 4072 / 28. *)
Definition FILES_STRUCT_NENTRY : nat := 145.
Definition NO_FD : Z := - 0x9527.
Definition LSEEK_SET : Z := 0.
Definition LSEEK_CUR : Z := 1.
Definition LSEEK_END : Z := 2.
Definition CLONE_FS : Z := 0x800.

Section file.
Context `{E : heap_env} {D : Type} `{DV : dev_ops D}.

Notation vfs := (vfs (D := D)).

Definition testfd (fd : Z) : bool := (0 <=? fd) && (fd <? Z.of_nat FILES_STRUCT_NENTRY).

(** A [struct file *] is the table it is in and its index there. *)
Definition file_at (t : Z) (i : nat) : M vfs file := deref (λ s, x ← filesps s !! t; fd_array x !! i).
Definition file_upd (t : Z) (i : nat) (f : file → file) : M vfs unit :=
  x ← deref (λ s, filesps s !! t);
  y ← deref (λ _, fd_array x !! i);
  modify (λ s, set_filesps s (<[t := mkFiles (pwd x) (<[i := f y]> (fd_array x)) (files_count x)]> (filesps s))).

Definition set_status (st : fd_status) (f : file) : file :=
  mkFile st (readable f) (writable f) (fd f) (pos f) (f_node f) (fopen_count f).
Definition set_fopen (n : Z) (f : file) : file :=
  mkFile (status f) (readable f) (writable f) (fd f) (pos f) (f_node f) n.
Definition set_pos (p : Z) (f : file) : file :=
  mkFile (status f) (readable f) (writable f) (fd f) p (f_node f) (fopen_count f).
Definition set_fnode (n : option node) (f : file) : file :=
  mkFile (status f) (readable f) (writable f) (fd f) (pos f) n (fopen_count f).
Definition set_rw (r w : bool) (f : file) : file :=
  mkFile (status f) r w (fd f) (pos f) (f_node f) (fopen_count f).

(** [get_fd_array]: the table of the running process. *)
Definition get_fd_array : M vfs Z :=
  t ← gets filesp;
  x ← cur_files;
  assert (0 <? files_count x) ;; mret t.

(** The table that [fd_array_init] makes. *)
Definition fd_array_init : list file := (λ i, mkFile FD_NONE false false (Z.of_nat i) 0 None 0) <$> seq 0 FILES_STRUCT_NENTRY.

Fixpoint find_none (l : list file) (i : nat) : option nat :=
  match l with
  | [] => None
  | f :: l' => if bool_decide (status f = FD_NONE) then Some i else find_none l' (S i)
  end.

Definition fd_found (t : Z) (i : nat) : M vfs (Z * nat) :=
  f ← file_at t i;
  assert (fopen_count f =? 0) ;;
  file_upd t i (λ f, set_fnode None (set_status FD_INIT f)) ;;
  mret (0, i).

(** [fd_array_alloc]: the result and the index of the descriptor. *)
Definition fd_array_alloc (fd : Z) : M vfs (Z * nat) :=
  t ← get_fd_array;
  x ← cur_files;
  if fd =? NO_FD then
    match find_none (fd_array x) 0 with
    | Some i => fd_found t i
    | None => mret (- E_MAX_OPEN, O)
    end
  else if testfd fd then
    f ← file_at t (Z.to_nat fd);
    if bool_decide (status f = FD_NONE) then fd_found t (Z.to_nat fd) else mret (- E_BUSY, O)
  else mret (- E_INVAL, O).

Definition fd_array_free (t : Z) (i : nat) : M vfs unit :=
  f ← file_at t i;
  assert (bool_decide (status f = FD_INIT ∨ status f = FD_CLOSED)) ;;
  assert (fopen_count f =? 0) ;;
  (if bool_decide (status f = FD_CLOSED) then n ← deref (λ _, f_node f); _ ← vfs_close n; mret tt else mret tt) ;;
  file_upd t i (set_status FD_NONE).

Definition fd_array_acquire (t : Z) (i : nat) : M vfs unit :=
  f ← file_at t i;
  assert (bool_decide (status f = FD_OPENED)) ;;
  file_upd t i (λ f, set_fopen (fopen_count f + 1) f).

Definition fd_array_release (t : Z) (i : nat) : M vfs unit :=
  f ← file_at t i;
  assert (bool_decide (status f = FD_OPENED ∨ status f = FD_CLOSED)) ;;
  assert (0 <? fopen_count f) ;;
  file_upd t i (λ f, set_fopen (fopen_count f - 1) f) ;;
  when (fopen_count f - 1 =? 0) (fd_array_free t i).

Definition fd_array_open (t : Z) (i : nat) : M vfs unit :=
  f ← file_at t i;
  assert (bool_decide (status f = FD_INIT) && bool_decide (f_node f ≠ None)) ;;
  file_upd t i (set_status FD_OPENED) ;;
  file_upd t i (λ f, set_fopen (fopen_count f + 1) f).

Definition fd_array_close (t : Z) (i : nat) : M vfs unit :=
  f ← file_at t i;
  assert (bool_decide (status f = FD_OPENED)) ;;
  assert (0 <? fopen_count f) ;;
  file_upd t i (set_status FD_CLOSED) ;;
  file_upd t i (λ f, set_fopen (fopen_count f - 1) f) ;;
  when (fopen_count f - 1 =? 0) (fd_array_free t i).

Definition fd_array_dup (t : Z) (to : nat) (t' : Z) (from : nat) : M vfs unit :=
  x ← file_at t to;
  y ← file_at t' from;
  assert (bool_decide (status x = FD_INIT) && bool_decide (status y = FD_OPENED)) ;;
  file_upd t to (λ x, set_rw (readable y) (writable y) (set_pos (pos y) x)) ;;
  n ← deref (λ _, f_node y);
  _ ← vop_ref_inc n;
  _ ← vop_open_inc n;
  file_upd t to (set_fnode (Some n)) ;;
  fd_array_open t to.

(** [fd2file]: the result and the descriptor. *)
Definition fd2file (fd_ : Z) : M vfs (Z * (Z * nat)) :=
  if testfd fd_ then
    t ← get_fd_array;
    f ← file_at t (Z.to_nat fd_);
    if bool_decide (status f = FD_OPENED) && (fd f =? fd_) then mret (0, (t, Z.to_nat fd_)) else mret (- E_INVAL, (t, O))
  else mret (- E_INVAL, (0, O)).

Definition file_testfd (fd_ : Z) (rd wr : bool) : M vfs bool :=
  '(ret, (t, i)) ← fd2file fd_;
  if negb (ret =? 0) then mret false else
  f ← file_at t i;
  mret (negb (rd && negb (readable f)) && negb (wr && negb (writable f))).

Definition file_open (path : list Z) (open_flags : Z) : M vfs Z :=
  let a := Z.land open_flags O_ACCMODE in
  if negb ((a =? O_RDONLY) || (a =? O_WRONLY) || (a =? O_RDWR)) then mret (- E_INVAL) else
  let rd := (a =? O_RDONLY) || (a =? O_RDWR) in
  let wr := (a =? O_WRONLY) || (a =? O_RDWR) in
  '(ret, i) ← fd_array_alloc NO_FD;
  if negb (ret =? 0) then mret ret else
  t ← gets filesp;
  '(ret, n) ← vfs_open path open_flags;
  if negb (ret =? 0) then fd_array_free t i ;; mret ret else
  n ← deref (λ _, n);
  file_upd t i (set_pos 0) ;;
  '(ret, p) ←
    (if negb (Z.land open_flags O_APPEND =? 0) then '(ret, st) ← vop_fstat n; mret (ret, st_size st) else mret (0, 0));
  if negb (ret =? 0) then _ ← vfs_close n; fd_array_free t i ;; mret ret else
  file_upd t i (λ f, set_rw rd wr (set_fnode (Some n) (set_pos (s32 p) f))) ;;
  fd_array_open t i ;;
  f ← file_at t i; mret (fd f).

Definition file_delete (path : list Z) (ty : Z) : M vfs Z := vfs_delete path ty.
Definition file_mkdir (path : list Z) : M vfs Z := vfs_mkdir path.

Definition file_close (fd_ : Z) : M vfs Z :=
  '(ret, (t, i)) ← fd2file fd_;
  if negb (ret =? 0) then mret ret else fd_array_close t i ;; mret 0.

(** [file_read] ([write] false) and [file_write]: the result and [*copied_store]. *)
Definition file_io (write : bool) (fd_ base len : Z) : M vfs (Z * Z) :=
  '(ret, (t, i)) ← fd2file fd_;
  if negb (ret =? 0) then mret (ret, 0) else
  f ← file_at t i;
  if negb (if write then writable f else readable f) then mret (- E_INVAL, 0) else
  fd_array_acquire t i ;;
  f ← file_at t i;
  n ← deref (λ _, f_node f);
  '(ret, iob) ← vop_io n write (iobuf_init base len (pos f));
  let copied := iobuf_used iob in
  f ← file_at t i;
  when (bool_decide (status f = FD_OPENED)) (file_upd t i (λ f, set_pos (s32 (pos f + copied)) f)) ;;
  fd_array_release t i ;;
  mret (ret, copied).
Definition file_read := file_io false.
Definition file_write := file_io true.

Definition file_seek (fd_ p whence : Z) : M vfs Z :=
  '(ret, (t, i)) ← fd2file fd_;
  if negb (ret =? 0) then mret ret else
  fd_array_acquire t i ;;
  f ← file_at t i;
  n ← deref (λ _, f_node f);
  '(ret, p) ←
    (if whence =? LSEEK_SET then mret (0, p)
     else if whence =? LSEEK_CUR then mret (0, s32 (p + pos f))
     else if whence =? LSEEK_END then '(ret, st) ← vop_fstat n; mret (ret, if ret =? 0 then s32 (p + st_size st) else p)
     else mret (- E_INVAL, p));
  ret ← (if ret =? 0 then
           ret ← vop_tryseek n p;
           when (ret =? 0) (file_upd t i (set_pos p)) ;; mret ret
         else mret ret);
  fd_array_release t i ;;
  mret ret.

(** The operations that only pass through to the inode, between acquire and release. *)
Definition file_pass {A} (fd_ : Z) (dflt : A) (m : node → M vfs (Z * A)) : M vfs (Z * A) :=
  '(ret, (t, i)) ← fd2file fd_;
  if negb (ret =? 0) then mret (ret, dflt) else
  fd_array_acquire t i ;;
  f ← file_at t i;
  n ← deref (λ _, f_node f);
  '(ret, a) ← m n;
  fd_array_release t i ;;
  mret (ret, a).

Definition file_fstat (fd_ : Z) : M vfs (Z * stat) := file_pass fd_ (mkStat 0 0 0 0) vop_fstat.
Definition file_fsync (fd_ : Z) : M vfs Z :=
  '(ret, _) ← file_pass fd_ tt (λ n, ret ← Vfs.vop_fsync n; mret (ret, tt)); mret ret.

(** [file_getdirentry] on the entry whose name is at [name]: the result and the new offset. *)
Definition file_getdirentry (fd_ name offset : Z) : M vfs (Z * Z) :=
  file_pass fd_ offset (λ n,
    '(ret, iob) ← vop_getdirentry n (iobuf_init name 256 offset);
    mret (ret, if ret =? 0 then s32 (offset + iobuf_used iob) else offset)).

Definition file_dup (fd1 fd2 : Z) : M vfs Z :=
  '(ret, (t, i)) ← fd2file fd1;
  if negb (ret =? 0) then mret ret else
  '(ret, j) ← fd_array_alloc fd2;
  if negb (ret =? 0) then mret ret else
  fd_array_dup t j t i ;;
  f ← file_at t j; mret (fd f).

(** * kern/fs/fs.c *)

(** [files_create]: [t] is what [kmalloc] answers. *)
Definition files_create (t : option Z) : M vfs (option Z) :=
  match t with
  | None => mret None
  | Some t => modify (λ s, set_filesps s (<[t := mkFiles None fd_array_init 0]> (filesps s))) ;; mret (Some t)
  end.

(** The loops over the table from index [i] on; [all] for [files_destroy], which asserts that every
    descriptor is free afterwards. *)
Fixpoint close_loop (all : bool) (t : Z) (n i : nat) : M vfs unit :=
  match n with
  | O => mret tt
  | S n' =>
      f ← file_at t i;
      when (bool_decide (status f = FD_OPENED)) (fd_array_close t i) ;;
      f ← file_at t i;
      assert (negb all || bool_decide (status f = FD_NONE)) ;;
      close_loop all t n' (S i)
  end.

Definition files_destroy (t : Z) : M vfs unit :=
  x ← deref (λ s, filesps s !! t);
  assert (files_count x =? 0) ;;
  match pwd x with Some n => _ ← vop_ref_dec n; mret tt | None => mret tt end ;;
  close_loop true t FILES_STRUCT_NENTRY 0 ;;
  modify (λ s, set_filesps s (delete t (filesps s))).

Definition files_closeall (t : Z) : M vfs unit :=
  x ← deref (λ s, filesps s !! t);
  assert (0 <? files_count x) ;;
  close_loop false t (FILES_STRUCT_NENTRY - 2) 2.

Fixpoint dup_loop (to from : Z) (n i : nat) : M vfs unit :=
  match n with
  | O => mret tt
  | S n' =>
      f ← file_at from i;
      (if bool_decide (status f = FD_OPENED) then file_upd to i (set_status FD_INIT) ;; fd_array_dup to i from i else mret tt) ;;
      dup_loop to from n' (S i)
  end.

Definition dup_files (to from : Z) : M vfs Z :=
  x ← deref (λ s, filesps s !! to);
  y ← deref (λ s, filesps s !! from);
  assert ((files_count x =? 0) && (0 <? files_count y)) ;;
  modify (λ s, set_filesps s (<[to := mkFiles (pwd y) (fd_array x) (files_count x)]> (filesps s))) ;;
  match pwd y with Some n => _ ← vop_ref_inc n; mret tt | None => mret tt end ;;
  dup_loop to from FILES_STRUCT_NENTRY 0 ;;
  mret 0.

Definition add_count (t c : Z) : M vfs Z :=
  x ← deref (λ s, filesps s !! t);
  modify (λ s, set_filesps s (<[t := mkFiles (pwd x) (fd_array x) (files_count x + c)]> (filesps s))) ;;
  mret (files_count x + c).
Definition files_count_inc (t : Z) : M vfs Z := add_count t 1.
Definition files_count_dec (t : Z) : M vfs Z := add_count t (-1).

(** * The open files of a new and of an ending process, kern/process/proc.c *)

(** [copy_fs]: the result and what [proc->filesp] becomes; [t] is what [kmalloc] answers. *)
Definition copy_fs (clone_flags : Z) (t : option Z) : M vfs (Z * option Z) :=
  old ← gets filesp;
  if negb (Z.land clone_flags CLONE_FS =? 0) then
    _ ← files_count_inc old; mret (0, Some old)
  else
    o ← files_create t;
    match o with
    | None => mret (- E_NO_MEM, None)
    | Some t =>
        ret ← dup_files t old;
        if negb (ret =? 0) then files_destroy t ;; mret (ret, None)
        else _ ← files_count_inc t; mret (0, Some t)
    end.

Definition put_fs (t : option Z) : M vfs unit :=
  match t with
  | None => mret tt
  | Some t => c ← files_count_dec t; when (c =? 0) (files_destroy t)
  end.

End file.
End File.
