(* ===== verification/Sysfile.v ===== *)
(** The system calls on files, kern/fs/sysfile.c: between the memory of a process and open files.

    A call copies path names and data through buffers of the kernel heap, under the lock of the address space.
    The state keeps which buffers are held and whether the lock is taken, so that a call that would leave one
    of them behind can be told from one that does not. *)
From S2P Require Import Prelude PageTable Vma Vmm Bitmap SfsDisk Iobuf SfsInode SfsFile SfsDir Vfs File.

Module Sysfile.
Import Vma SfsDisk Iobuf SfsInode SfsDir Vfs File.
Set Default Proof Using "Type".

Definition IOBUF_SIZE : Z := 4096.
Definition FS_MAX_FPATH_LEN : Z := 4095.
Definition sizeof_stat : Z := 16.
Definition sizeof_dirent : Z := 260.

(** What [kmalloc] answers when the buffers in the set are held. *)
Class kheap := { kaddr : gset Z → Z → option Z }.
(** A block lies in kernel memory, and is not one that is held. *)
Class kheap_laws `{KH : kheap} := {
  kaddr_kernel H n a : kaddr H n = Some a → PageTable.KERNBASE ≤ a ∧ a + n ≤ 2 ^ 32;
  kaddr_new H n a : kaddr H n = Some a → a ∉ H }.

Section sysfile.
Context `{E : heap_env} {D : Type} `{DV : dev_ops D} `{KH : kheap}.
(** The kernel stack, where the local variables of the calls are. *)
Context (kstack : Z).

Notation vfs := (vfs (D := D)).

Record usys := mkUsys {
  fsys : vfs;
  um : option mm_struct;      (* current->mm *)
  locked : bool;              (* mm_sem of it is taken *)
  heap : gset Z }.

Definition set_fsys (s : usys) x : usys := mkUsys x (um s) (locked s) (heap s).
Definition in_fs {A} (c : M vfs A) : M usys A := λ s,
  match c (fsys s) with Ret (a, f) => Ret (a, set_fsys s f) | Err e => Err e end.
Definition in_uvm {A} (c : M Vmm.uvm A) : M usys A := λ s,
  match c (Vmm.mkUvm (um s) (mem (fsys s))) with
  | Ret (a, v) => Ret (a, mkUsys (set_mem (fsys s) (Vmm.bytes v)) (Vmm.umm v) (locked s) (heap s))
  | Err e => Err e
  end.

Definition kmalloc (n : Z) : M usys (option Z) :=
  s ← get;
  match kaddr (heap s) n with
  | None => mret None
  | Some a => put (mkUsys (fsys s) (um s) (locked s) ({[a]} ∪ heap s)) ;; mret (Some a)
  end.
Definition kfree (a : Z) : M usys unit :=
  s ← get;
  if bool_decide (a ∈ heap s) then put (mkUsys (fsys s) (um s) (locked s) (heap s ∖ {[a]})) else fail EFault.

(** The running process waits for itself when it takes the lock a second time. *)
Definition lock_mm : M usys unit :=
  s ← get;
  match um s with
  | None => mret tt
  | Some _ => if locked s then fail EFault else put (mkUsys (fsys s) (um s) true (heap s))
  end.
Definition unlock_mm : M usys unit :=
  s ← get; match um s with None => mret tt | Some _ => put (mkUsys (fsys s) (um s) false (heap s)) end.

(** Words and strings in memory. *)
Definition load_word (a : Z) : M usys Z := gets (λ s, unle (read_bytes (mem (fsys s)) a 4)).
Definition store_words (a : Z) (l : list Z) : M usys unit :=
  modify (λ s, set_fsys s (set_mem (fsys s) (write_bytes (mem (fsys s)) a (mjoin (le 4 <$> l))))).
Definition path_at (a : Z) : M usys (list Z) := gets (λ s, cstring (read_bytes (mem (fsys s)) a (FS_MAX_FPATH_LEN + 1))).

(** [copy_path]: the result and [*to]. *)
Definition copy_path (from : Z) : M usys (Z * Z) :=
  o ← kmalloc (FS_MAX_FPATH_LEN + 1);
  match o with
  | None => mret (- E_NO_MEM, 0)
  | Some buffer =>
      lock_mm ;;
      ok ← in_uvm (Vmm.copy_string buffer from (FS_MAX_FPATH_LEN + 1));
      unlock_mm ;;
      if negb ok then kfree buffer ;; mret (- E_INVAL, 0) else mret (0, buffer)
  end.

(** The calls on one path. *)
Definition on_path (path : Z) (f : list Z → M vfs Z) : M usys Z :=
  '(ret, p) ← copy_path path;
  if negb (ret =? 0) then mret ret else
  l ← path_at p;
  ret ← in_fs (f l);
  kfree p ;; mret ret.
Definition sysfile_open (path open_flags : Z) : M usys Z := on_path path (λ l, file_open l open_flags).
Definition sysfile_delete (path ty : Z) : M usys Z := on_path path (λ l, file_delete l ty).
Definition sysfile_chdir (path : Z) : M usys Z := on_path path vfs_chdir.
Definition sysfile_unlink (path : Z) : M usys Z := on_path path vfs_unlink.
Definition sysfile_mkdir (path : Z) : M usys Z := on_path path file_mkdir.

(** The calls on two paths. *)
Definition on_paths (path1 path2 : Z) (f : list Z → list Z → M vfs Z) : M usys Z :=
  '(ret, p1) ← copy_path path1;
  if negb (ret =? 0) then mret ret else
  '(ret, p2) ← copy_path path2;
  if negb (ret =? 0) then kfree p1 ;; mret ret else
  l1 ← path_at p1;
  l2 ← path_at p2;
  ret ← in_fs (f l1 l2);
  kfree p1 ;; kfree p2 ;; mret ret.
Definition sysfile_link (path1 path2 : Z) : M usys Z := on_paths path1 path2 vfs_link.
Definition sysfile_rename (path1 path2 : Z) : M usys Z := on_paths path1 path2 vfs_rename.

Definition sysfile_close (fd : Z) : M usys Z := in_fs (file_close fd).
Definition sysfile_seek (fd pos whence : Z) : M usys Z := in_fs (file_seek fd pos whence).
Definition sysfile_fsync (fd : Z) : M usys Z := in_fs (file_fsync fd).
Definition sysfile_dup (fd1 fd2 : Z) : M usys Z := in_fs (file_dup fd1 fd2).
Definition sysfile_pipe (fd_store : Z) : M usys Z := mret (- E_UNIMP).
Definition sysfile_mkfifo (name open_flags : Z) : M usys Z := mret (- E_UNIMP).

(** One round of [sysfile_read]: [ret], [alen], and whether the bytes reached the process. *)
Definition read_round (fd buffer base len : Z) : M usys (Z * Z * bool) :=
  '(ret, alen) ← in_fs (file_read fd buffer (if len <? IOBUF_SIZE then len else IOBUF_SIZE));
  if alen =? 0 then mret (ret, alen, false) else
  lock_mm ;;
  ok ← in_uvm (Vmm.copy_to_user base buffer alen);
  (if ok : bool then assert (alen <=? len) else mret tt) ;;
  unlock_mm ;;
  mret (if negb ok && (ret =? 0) then - E_INVAL else ret, alen, ok).

(** Every round but the last brings [len] down, so that [len] rounds and one are enough. *)
Fixpoint read_loop (fuel : nat) (fd buffer base len copied ret : Z) : M usys (Z * Z) :=
  match fuel with
  | O => fail EFuel
  | S fuel' =>
      if len =? 0 then mret (copied, ret) else
      '(ret, alen, ok) ← read_round fd buffer base len;
      let n := if ok : bool then alen else 0 in
      if negb (ret =? 0) || (alen =? 0) then mret (u32 (copied + n), ret)
      else read_loop fuel' fd buffer (u32 (base + n)) (len - n) (u32 (copied + n)) ret
  end.

Definition sysfile_read (fd base len : Z) : M usys Z :=
  if len =? 0 then mret 0 else
  ok ← in_fs (file_testfd fd true false);
  if negb ok then mret (- E_INVAL) else
  o ← kmalloc IOBUF_SIZE;
  match o with
  | None => mret (- E_NO_MEM)
  | Some buffer =>
      '(copied, ret) ← read_loop (S (Z.to_nat len)) fd buffer base len 0 0;
      kfree buffer ;;
      mret (if negb (copied =? 0) then s32 copied else ret)
  end.


Fixpoint write_loop (fuel : nat) (fd buffer base len copied ret : Z) : M usys (Z * Z) :=
  match fuel with
  | O => fail EFuel
  | S fuel' =>
      if len =? 0 then mret (copied, ret) else
      let alen := if len <? IOBUF_SIZE then len else IOBUF_SIZE in
      lock_mm ;;
      ok ← in_uvm (Vmm.copy_from_user buffer base alen false);
      unlock_mm ;;
      if negb ok then mret (copied, - E_INVAL) else
      '(ret, alen) ← in_fs (file_write fd buffer alen);
      (if alen =? 0 then mret tt else assert (alen <=? len)) ;;
      if negb (ret =? 0) || (alen =? 0) then mret (u32 (copied + alen), ret)
      else write_loop fuel' fd buffer (u32 (base + alen)) (len - alen) (u32 (copied + alen)) ret
  end.

Definition sysfile_write (fd base len : Z) : M usys Z :=
  if len =? 0 then mret 0 else
  ok ← in_fs (file_testfd fd false true);
  if negb ok then mret (- E_INVAL) else
  o ← kmalloc IOBUF_SIZE;
  match o with
  | None => mret (- E_NO_MEM)
  | Some buffer =>
      '(copied, ret) ← write_loop (S (Z.to_nat len)) fd buffer base len 0 0;
      kfree buffer ;;
      mret (if negb (copied =? 0) then s32 copied else ret)
  end.

(** [sysfile_fstat]; the local [struct stat] is on the kernel stack. *)
Definition sysfile_fstat (fd ustat : Z) : M usys Z :=
  '(ret, st) ← in_fs (file_fstat fd);
  if negb (ret =? 0) then mret ret else
  store_words kstack [st_mode st; st_nlinks st; st_blocks st; st_size st] ;;
  lock_mm ;;
  ok ← in_uvm (Vmm.copy_to_user ustat kstack sizeof_stat);
  unlock_mm ;;
  mret (if negb ok then - E_INVAL else ret).

(** [sysfile_getcwd]; [dn] and [cn] are where [vfs_getcwd] has its strings. *)
Definition sysfile_getcwd (dn cn buf len : Z) : M usys Z :=
  if len =? 0 then mret (- E_INVAL) else
  lock_mm ;;
  ok ← in_uvm (Vmm.mem_check buf len true);
  ret ← (if ok : bool then '(ret, _) ← in_fs (vfs_getcwd dn cn (iobuf_init buf len 0)); mret ret else mret (- E_INVAL));
  unlock_mm ;;
  mret ret.

(** [sysfile_getdirentry]: the offset and the name of a [struct dirent]. *)
Definition sysfile_getdirentry (fd udirent : Z) : M usys Z :=
  o ← kmalloc sizeof_dirent;
  match o with
  | None => mret (- E_NO_MEM)
  | Some direntp =>
      lock_mm ;;
      ok ← in_uvm (Vmm.copy_from_user direntp udirent 4 true);
      unlock_mm ;;
      if negb ok then kfree direntp ;; mret (- E_INVAL) else
      off ← load_word direntp;
      '(ret, off') ← in_fs (file_getdirentry fd (direntp + 4) (s32 off));
      store_words direntp [u32 off'] ;;
      if negb (ret =? 0) then kfree direntp ;; mret ret else
      lock_mm ;;
      ok ← in_uvm (Vmm.copy_to_user udirent direntp sizeof_dirent);
      unlock_mm ;;
      kfree direntp ;;
      mret (if negb ok then - E_INVAL else ret)
  end.

(** * Reading and writing one open file *)

Notation SFS_card := stdpp.base.size.

(** Descriptor [fd_] of the running process is open, with the entry [y], on inode [ino] of file system [f]. *)
Record opened (v : vfs) (fd_ : Z) (y : file) (f ino : Z) : Prop := {
  op_fd : 0 ≤ fd_ < Z.of_nat FILES_STRUCT_NENTRY;
  op_table : ∃ x, filesps v !! filesp v = Some x ∧ 0 < files_count x ∧ fd_array x !! Z.to_nat fd_ = Some y;
  op_status : status y = FD_OPENED ∧ fd y = fd_ ∧ 0 < fopen_count y;
  op_node : f_node y = Some (NSfs f ino) }.

(** The inode is a file with a sound map, and its counts are in range. *)
Record backed (v : vfs) (f ino : Z) (s : sfs_fs) (F : gset Z) (x : sfs_inode) : Prop := {
  bk_fs : fss v !! f = Some s;
  bk_ok : SfsFile.fs_ok s F;
  bk_inode : inodes s !! ino = Some x;
  bk_file : SfsFile.file_ok (disk s) (blocks (super s)) F (din x);
  bk_type : type (din x) ≠ SFS_TYPE_DIR;
  bk_size : 0 ≤ size (din x) ≤ 4096 * nblocks (din x);
  bk_counts : 0 ≤ open_count x ≤ ref_count x ∧ ref_count x < MAX_INODE_COUNT }.

Definition put_fd (v : vfs) (i : nat) (y : file) : vfs :=
  match filesps v !! filesp v with
  | Some x => set_filesps v (<[filesp v := mkFiles (pwd x) (<[i := y]> (fd_array x)) (files_count x)]> (filesps v))
  | None => v
  end.

Lemma put_fd_put v i y y' : put_fd (put_fd v i y) i y' = put_fd v i y'.
Proof.
  unfold put_fd at 2 3. destruct (filesps v !! filesp v) as [x|] eqn:Hx; [|unfold put_fd; by rewrite Hx].
  unfold put_fd. simpl. rewrite lookup_insert_eq. unfold set_filesps. simpl. rewrite insert_insert_eq, list_insert_insert_eq. done.
Qed.

Lemma put_fd_filesp v i y : filesp (put_fd v i y) = filesp v.
Proof. unfold put_fd. by destruct (filesps v !! filesp v). Qed.
Lemma put_fd_fss v i y : fss (put_fd v i y) = fss v.
Proof. unfold put_fd. by destruct (filesps v !! filesp v). Qed.
Lemma put_fd_mem v i y : mem (put_fd v i y) = mem v.
Proof. unfold put_fd. by destruct (filesps v !! filesp v). Qed.
Lemma put_fd_set v i y fs m : set_mem (set_fss (put_fd v i y) fs) m = put_fd (set_mem (set_fss v fs) m) i y.
Proof. unfold put_fd. simpl. by destruct (filesps v !! filesp v). Qed.

Lemma opened_put v fd_ y y' f ino : opened v fd_ y f ino → status y' = FD_OPENED → fd y' = fd_ → 0 < fopen_count y' →
  f_node y' = Some (NSfs f ino) → opened (put_fd v (Z.to_nat fd_) y') fd_ y' f ino.
Proof.
  intros [Hfd (x & Hx & Hc & Hy) _ _] H1 H2 H3 H4. split; [done| |done|done]. unfold put_fd. rewrite Hx. simpl.
  rewrite lookup_insert_eq. eexists. split_and!; [done|done|]. simpl. apply list_lookup_insert_eq. by eapply lookup_lt_Some.
Qed.

Lemma opened_set v fd_ y f ino fs m : opened v fd_ y f ino → opened (set_mem (set_fss v fs) m) fd_ y f ino.
Proof. intros [H1 H2 H3 H4]. by split. Qed.

Lemma file_at_run v fd_ y f ino : opened v fd_ y f ino → file_at (filesp v) (Z.to_nat fd_) v = Ret (y, v).
Proof. intros [_ (x & Hx & _ & Hy) _ _]. unfold file_at, deref. rewrite Hx. simpl. by rewrite Hy. Qed.

Lemma file_upd_run v fd_ y f ino g : opened v fd_ y f ino →
  file_upd (filesp v) (Z.to_nat fd_) g v = Ret (tt, put_fd v (Z.to_nat fd_) (g y)).
Proof.
  intros [_ (x & Hx & _ & Hy) _ _]. unfold file_upd. step using (unfold deref; rewrite Hx; reflexivity).
  step using (unfold deref; rewrite Hy; reflexivity). unfold put_fd. by rewrite Hx.
Qed.

Lemma fd2file_run v fd_ y f ino : opened v fd_ y f ino → fd2file fd_ v = Ret ((0, (filesp v, Z.to_nat fd_)), v).
Proof.
  intros Ho. pose proof Ho as [[Hfd1 Hfd2] (x & Hx & Hc & Hy) (Hst & Hfd & _) _]. unfold fd2file, testfd.
  rewrite (proj2 (Z.leb_le _ _) Hfd1), (proj2 (Z.ltb_lt _ _) Hfd2). cbn [andb].
  assert (get_fd_array v = Ret (filesp v, v)) as Hg.
  { unfold get_fd_array. step using reflexivity. step using (unfold cur_files, deref; rewrite Hx; reflexivity).
    unfold assert. rewrite (proj2 (Z.ltb_lt _ _) Hc). done. }
  step using (exact Hg). step using (by eapply file_at_run). rewrite bool_decide_true, Hfd, Z.eqb_refl by done. done.
Qed.

Lemma acquire_run v fd_ y f ino : opened v fd_ y f ino →
  fd_array_acquire (filesp v) (Z.to_nat fd_) v = Ret (tt, put_fd v (Z.to_nat fd_) (set_fopen (fopen_count y + 1) y)).
Proof.
  intros Ho. pose proof (op_status _ _ _ _ _ Ho) as (Hst & _ & _). unfold fd_array_acquire.
  step using (by eapply file_at_run). step using (unfold assert; rewrite bool_decide_true by done; reflexivity).
  by erewrite file_upd_run.
Qed.

Lemma fd_release_run v fd_ y f ino : opened v fd_ y f ino → 1 < fopen_count y →
  fd_array_release (filesp v) (Z.to_nat fd_) v = Ret (tt, put_fd v (Z.to_nat fd_) (set_fopen (fopen_count y - 1) y)).
Proof.
  intros Ho Hc. pose proof (op_status _ _ _ _ _ Ho) as (Hst & _ & _). unfold fd_array_release.
  step using (by eapply file_at_run). step using (unfold assert; rewrite bool_decide_true by auto; reflexivity).
  step using (unfold assert; rewrite (proj2 (Z.ltb_lt _ _)) by lia; reflexivity).
  step using (by eapply file_upd_run). unfold when. by rewrite (proj2 (Z.eqb_neq _ _)) by lia.
Qed.

(** [file_io] when the operation of the inode returns. *)
Lemma file_io_run v fd_ y f ino (write : bool) base len ret iob fs m :
  opened v fd_ y f ino → (if write then writable y else readable y) = true →
  (∀ v0, fss v0 = fss v → mem v0 = mem v →
    vop_io (NSfs f ino) write (iobuf_init base len (pos y)) v0 = Ret ((ret, iob), set_mem (set_fss v0 fs) m)) →
  file_io write fd_ base len v = Ret ((ret, iobuf_used iob),
    put_fd (set_mem (set_fss v fs) m) (Z.to_nat fd_) (set_pos (s32 (pos y + iobuf_used iob)) y)).
Proof.
  intros Ho Hrw Hio. pose proof (op_status _ _ _ _ _ Ho) as (Hst & Hfd & Hc). pose proof (op_node _ _ _ _ _ Ho) as Hn.
  set (i := Z.to_nat fd_). set (y1 := set_fopen (fopen_count y + 1) y). unfold file_io.
  step using (by eapply fd2file_run). cbv beta iota. change (negb (0 =? 0)) with false. cbv iota. step using (by eapply file_at_run). cbv beta.
  rewrite Hrw. change (negb true) with false. cbv iota. step using (by eapply acquire_run). fold i y1.
  assert (opened (put_fd v i y1) fd_ y1 f ino) as Ho1 by (by apply (opened_put v fd_ y); simpl; try done; try lia).
  assert (filesp v = filesp (put_fd v i y1)) as E1 by by rewrite put_fd_filesp.
  step using (rewrite E1; by eapply file_at_run). step using (unfold deref; simpl; rewrite Hn; reflexivity).
  step using (apply Hio; [apply put_fd_fss|apply put_fd_mem]). cbv beta iota zeta. rewrite put_fd_set. set (v1 := set_mem (set_fss v fs) m).
  assert (opened (put_fd v1 i y1) fd_ y1 f ino) as Ho2.
  { unfold v1. rewrite <-put_fd_set. by apply opened_set. }
  assert (filesp v = filesp (put_fd v1 i y1)) as E2 by by rewrite put_fd_filesp.
  step using (rewrite E2; by eapply file_at_run). change (status y1) with (status y). rewrite bool_decide_true by done. unfold when.
  step using (rewrite E2; by eapply file_upd_run). rewrite put_fd_put. cbv beta.
  set (y2 := set_pos _ _). assert (opened (put_fd v1 i y2) fd_ y2 f ino) as Ho3.
  { unfold v1, y2. rewrite <-put_fd_set. apply opened_set. apply (opened_put v fd_ y); simpl; try done; lia. }
  assert (filesp v = filesp (put_fd v1 i y2)) as E3 by by rewrite put_fd_filesp.
  step using (rewrite E3; eapply fd_release_run; [done|simpl; lia]). rewrite put_fd_put. unfold mret, M_ret. do 3 f_equal.
  unfold set_fopen, set_pos, y2, y1. destruct y. simpl. f_equal. lia.
Qed.

Lemma fs_do_run {A} (v : vfs) f s (c : M sfs_fs A) a s' : fss v !! f = Some s → c s = Ret (a, s') →
  fs_do f c v = Ret (a, set_fss v (<[f := s']> (fss v))).
Proof. intros Hs Hc. unfold fs_do. by rewrite Hs, Hc. Qed.

Lemma inode_check_run s ino x : inodes s !! ino = Some x → type (din x) ≠ SFS_TYPE_DIR →
  0 ≤ open_count x ≤ ref_count x ∧ ref_count x < MAX_INODE_COUNT → inode_check ino false true s = Ret (tt, s).
Proof.
  intros Hx Ht [Ho Hr]. unfold inode_check. step using (by apply SfsFile.sin_at_run). unfold assert. rewrite (proj2 (Z.eqb_neq _ _) Ht).
  rewrite !(proj2 (Z.leb_le _ _)), !(proj2 (Z.ltb_lt _ _)) by lia. done.
Qed.

Lemma set_fss_same (v : vfs) f s : fss v !! f = Some s → set_fss v (<[f := s]> (fss v)) = v.
Proof. intros Hs. rewrite insert_id by done. by destruct v. Qed.

(** [vop_io] on a file, from what [sfs_io] does. *)
Lemma vop_io_run (v : vfs) f ino s F x write iob ret m' iob' s' : backed v f ino s F x →
  sfs_io ino write (mem v, iob) s = Ret ((ret, (m', iob')), s') →
  vop_io (NSfs f ino) write iob v = Ret ((ret, iob'), set_mem (set_fss v (<[f := s']> (fss v))) m').
Proof.
  intros [Hs _ Hx _ Ht _ Hc] Hio. unfold vop_io. simpl vop_check.
  step using (by eapply fs_do_run, inode_check_run). rewrite set_fss_same by done.
  step using reflexivity. step using (by eapply fs_do_run). done.
Qed.

(** [m'] is [m] with [l] at [a]. *)
Definition filled (m m' : gmap Z Z) (a : Z) (l : list Z) : Prop :=
  ∀ b, byte_at m' b = if decide (a ≤ b < a + Z.of_nat (length l)) then l !!! Z.to_nat (b - a) else byte_at m b.

Lemma filled_nil m a : filled m m a [].
Proof. intros b. simpl. by rewrite decide_False by lia. Qed.

Lemma file_read_run v fd_ y f ino s F x base len :
  opened v fd_ y f ino → readable y = true → backed v f ino s F x →
  0 ≤ pos y < SFS_MAX_FILE_SIZE → 0 ≤ len ≤ IOBUF_SIZE →
  let n := Z.max 0 (Z.min (pos y + len) (size (din x)) - pos y) in
  ∃ m', file_read fd_ base len v = Ret ((0, n), put_fd (set_mem v m') (Z.to_nat fd_) (set_pos (pos y + n) y)) ∧
    filled (mem v) m' base (SfsFile.file_bytes (disk s) (din x) (pos y) n).
Proof.
  intros Ho Hr Hb Hp Hl n. pose proof Hb as [Hs Hok Hx Hf Ht Hsz Hc]. change SFS_MAX_FILE_SIZE with 134217728 in Hp.
  change IOBUF_SIZE with 4096 in Hl. assert (0 ≤ n ≤ len) as Hn by (unfold n; lia).
  set (l := SfsFile.file_bytes (disk s) (din x) (pos y) n). set (m := mem v).
  set (buf := l ++ drop (Z.to_nat n) (read_bytes m base len)).
  pose proof (SfsFile.length_file_bytes (disk s) (din x) (pos y) n ltac:(lia)) as Hlen. fold l in Hlen.
  set (iob := iobuf_init base len (pos y)). set (iob' := if n =? 0 then iob else advanced iob n).
  assert (sfs_io ino false (m, iob) s = Ret ((0, (write_bytes m base buf, iob')), s)) as Hio.
  { unfold sfs_io. cbn [fst snd io_base io_resid io_offset iob iobuf_init].
    step using (apply (SfsFile.read_run ino s F x); try done; lia). cbv beta iota zeta. fold n l buf.
    unfold iob'. destruct (Z.eqb_spec n 0) as [|Hn0]; [done|]. cbn [negb]. unfold iobuf_skip.
    unfold mbind, M_bind, get, assert, put. cbn [fst snd]. fold iob. cbn [io_resid iob iobuf_init].
    by rewrite (proj2 (Z.leb_le _ _)) by lia. }
  exists (write_bytes m base buf). split.
  - unfold file_read. erewrite (file_io_run v fd_ y f ino false base len 0 iob' (<[f := s]> (fss v)) (write_bytes m base buf)); [|done|done|].
    + assert (iobuf_used iob' = n) as ->.
      { unfold iobuf_used, iob'. destruct (Z.eqb_spec n 0) as [->|]; cbn; [by rewrite Z.sub_diag|]. rewrite u32_small; lia. }
      rewrite s32_small by lia. by rewrite set_fss_same.
    + intros v0 Hfs Hm. rewrite <-Hfs. eapply (vop_io_run v0 f ino s F x); [|by rewrite Hm]. split; try done. by rewrite Hfs.
  - intros b. rewrite byte_write. unfold buf. rewrite length_app, length_drop.
    pose proof (length_read m base len ltac:(lia)) as Hrl. fold l.
    destruct (decide (base ≤ b < base + Z.of_nat (length l))) as [Hin|Hout].
    + rewrite decide_True by lia. by rewrite lookup_total_app_l by lia.
    + destruct (decide (base ≤ b < _)) as [Hin|]; [|done]. rewrite lookup_total_app_r by lia. rewrite lookup_total_drop.
      apply list_lookup_total_correct. rewrite lookup_read by lia. do 2 f_equal. lia.
Qed.

(** ** The memory of the process *)

(** The process may read or write the [len] bytes at [addr]. *)
Definition may (m : mm_struct) (write : bool) (addr len : Z) : Prop :=
  PageTable.USERBASE ≤ addr ∧ addr + len ≤ PageTable.USERTOP ∧ ∀ x, addr ≤ x < addr + len → Exists (allows write x) (areas m).

Lemma may_extent m m' w addr len : extent <$> areas m' = extent <$> areas m → may m w addr len → may m' w addr len.
Proof.
  intros He (H1 & H2 & H3). split_and!; try done. intros x Hx. specialize (H3 x Hx). symmetry in He.
  rewrite Exists_exists in *. destruct H3 as (v & Hv & Ha). destruct (extent_elem _ _ v He Hv) as (v' & Hv' & Heq).
  exists v'. split; [done|]. by eapply allows_extent.
Qed.

Lemma may_sub m w addr len addr' len' : may m w addr len → addr ≤ addr' → addr' + len' ≤ addr + len → may m w addr' len'.
Proof. intros (H1 & H2 & H3) ??. split_and!; [lia|lia|]. intros x Hx. apply H3. lia. Qed.

Lemma mem_check_true m b addr len w : mm_ok m → may m w addr len → 0 < len →
  ∃ m', Vmm.mem_check addr len w (Vmm.mkUvm (Some m) b) = Ret (true, Vmm.mkUvm (Some m') b) ∧ mm_ok m' ∧
    extent <$> areas m' = extent <$> areas m.
Proof.
  intros Hok (H1 & H2 & H3) Hl. destruct (user_mem_check_run m addr len w Hok) as (r & m' & Hrun & Hok' & _ & He & Hr).
  assert (r = true) as ->.
  { apply Hr. unfold PageTable.USER_ACCESS, PageTable.USERBASE, PageTable.USERTOP in *. rewrite u32_small by lia.
    rewrite !(proj2 (Z.leb_le _ _)), (proj2 (Z.ltb_lt _ _)) by lia. done. }
  exists m'. split_and!; try done. unfold Vmm.mem_check. simpl. by rewrite Hrun.
Qed.

Lemma lock_mm_run s m : um s = Some m → locked s = false → lock_mm s = Ret (tt, mkUsys (fsys s) (um s) true (heap s)).
Proof. intros Hm Hl. unfold lock_mm, get, mbind, M_bind. by rewrite Hm, Hl. Qed.

(** The bytes that a call may read or write: those of the process or, when it has no address space, of the kernel. *)
Definition reach (o : option mm_struct) (write : bool) (addr len : Z) : Prop :=
  match o with
  | Some m => mm_ok m ∧ may m write addr len
  | None => PageTable.KERNBASE ≤ addr ∧ addr + len ≤ Vmm.KERNTOP
  end.
(** A check of addresses may move the area that it found last to the front, no more. *)
Definition same_um (o o' : option mm_struct) : Prop :=
  match o, o' with
  | Some m, Some m' => mm_ok m' ∧ extent <$> areas m' = extent <$> areas m
  | None, None => True
  | _, _ => False
  end.

Lemma reach_sub o w addr len addr' len' : reach o w addr len → addr ≤ addr' → addr' + len' ≤ addr + len → reach o w addr' len'.
Proof. destruct o as [m|]; simpl; [|lia]. intros [Hok H] ??. split; [done|]. by eapply may_sub. Qed.
Lemma reach_same o o' w addr len : same_um o o' → reach o w addr len → reach o' w addr len.
Proof. destruct o, o'; simpl; try done. intros [Hok He] [_ H]. split; [done|]. by eapply may_extent. Qed.
Lemma reach_bounds o w addr len : reach o w addr len → 0 ≤ addr ∧ addr + len < 2 ^ 32.
Proof.
  destruct o; simpl; [intros [_ (H1 & H2 & _)]|]; unfold PageTable.USERBASE, PageTable.USERTOP, PageTable.KERNBASE, Vmm.KERNTOP in *; lia.
Qed.
Lemma same_um_trans o o1 o2 : same_um o o1 → same_um o1 o2 → same_um o o2.
Proof. destruct o, o1, o2; simpl; try done. intros [_ H1] [H2 H3]. split; [done|]. congruence. Qed.

Lemma reach_refl o w addr len : reach o w addr len → same_um o o.
Proof. destruct o; simpl; [|done]. by intros [Hok _]. Qed.
(** The lock is the one of the address space. *)
Definition locks (o : option mm_struct) : bool := match o with Some _ => true | None => false end.
Lemma unlock_run v o o' h : same_um o o' → unlock_mm (mkUsys v o' (locks o) h) = Ret (tt, mkUsys v o' false h).
Proof. by destruct o, o'. Qed.

(** A copy under the lock. *)
Lemma copy_run s o (write : bool) dst src n :
  um s = o → locked s = false → reach o write (if write then dst else src) n → 0 < n →
  ∃ o' b', ∀ A (k : bool → M usys A),
    (lock_mm ;; ok ← in_uvm (if write then Vmm.copy_to_user dst src n else Vmm.copy_from_user dst src n false); k ok) s =
      k true (mkUsys (set_mem (fsys s) b') o' (locks o) (heap s)) ∧
    same_um o o' ∧
    ∀ a, byte_at b' a = if decide (dst ≤ a < dst + n) then byte_at (mem (fsys s)) (src + (a - dst)) else byte_at (mem (fsys s)) a.
Proof.
  intros Hm Hlk Hr Hn.
  assert (∃ o', Vmm.mem_check (if write then dst else src) n write (Vmm.mkUvm o (mem (fsys s))) =
    Ret (true, Vmm.mkUvm o' (mem (fsys s))) ∧ same_um o o') as (o' & Hchk & Hsame).
  { destruct o as [m|].
    - destruct Hr as [Hok Hmay]. destruct (mem_check_true m (mem (fsys s)) (if write then dst else src) n write) as (m' & Hchk & Hok' & He); [done..|].
      exists (Some m'). split; [exact Hchk|done].
    - exists None. split; [|done]. cbn [reach] in Hr.
      unfold Vmm.mem_check, Vmm.KERN_ACCESS, Vmm.KERNTOP, PageTable.KERNBASE in *. cbn [Vmm.umm].
      rewrite u32_small, !(proj2 (Z.leb_le _ _)), (proj2 (Z.ltb_lt _ _)) by lia. done. }
  destruct (Vmm.memcpy_run (Vmm.mkUvm o' (mem (fsys s))) dst src n) as (u & Hcp & Hum & Hc); [lia|].
  exists o', (Vmm.bytes u). intros A k. split_and!; [|done|exact Hc].
  assert (lock_mm s = Ret (tt, mkUsys (fsys s) o (locks o) (heap s))) as Hlock.
  { unfold lock_mm, get, mbind, M_bind. rewrite Hm. destruct o; [by rewrite Hlk|]. destruct s; simpl in *. by subst. }
  step using (exact Hlock).
  assert (in_uvm (if write then Vmm.copy_to_user dst src n else Vmm.copy_from_user dst src n false)
    (mkUsys (fsys s) o (locks o) (heap s)) = Ret (true, mkUsys (set_mem (fsys s) (Vmm.bytes u)) o' (locks o) (heap s))) as Hin.
  { unfold in_uvm. cbn [um fsys]. assert ((if write then Vmm.copy_to_user dst src n else Vmm.copy_from_user dst src n false)
      (Vmm.mkUvm o (mem (fsys s))) = Ret (true, u)) as ->.
    - destruct write; [unfold Vmm.copy_to_user|unfold Vmm.copy_from_user]; cbv iota in Hchk;
        rewrite (M_bind_step _ _ _ _ _ Hchk); cbv iota; by rewrite (M_bind_step _ _ _ _ _ Hcp).
    - simpl in Hum. by rewrite Hum. }
  step using (exact Hin). done.
Qed.

(** ** Reading *)

Lemma set_mem_put v i y m : set_mem (put_fd v i y) m = put_fd (set_mem v m) i y.
Proof. unfold put_fd. simpl. by destruct (filesps v !! filesp v). Qed.

Lemma backed_put v i y m f ino s F x : backed v f ino s F x → backed (put_fd (set_mem v m) i y) f ino s F x.
Proof. intros [H1 H2 H3 H4 H5 H6 H7]. split; try done. by rewrite put_fd_fss. Qed.

Lemma opened_move v fd_ y f ino m p : opened v fd_ y f ino →
  opened (put_fd (set_mem v m) (Z.to_nat fd_) (set_pos p y)) fd_ (set_pos p y) f ino.
Proof.
  intros Ho. pose proof (op_status _ _ _ _ _ Ho) as (H1 & H2 & H3). apply (opened_put _ fd_ y); try done.
  - by destruct Ho.
  - apply (op_node _ _ _ _ _ Ho).
Qed.

(** The process [s] with address space [o] after it got [n] bytes of the file at [base]. *)
Record got (s : usys) (o : option mm_struct) (fd_ : Z) (y : file) (d : sfs_fs) (x : sfs_inode) (buffer base n : Z) (s' : usys)
    (o' : option mm_struct) : Prop := {
  g_um : um s' = o' ∧ same_um o o';
  g_rest : locked s' = false ∧ heap s' = heap s;
  g_fsys : fsys s' = put_fd (set_mem (fsys s) (mem (fsys s'))) (Z.to_nat fd_) (set_pos (pos y + n) y);
  g_mem : ∀ a, ¬ buffer ≤ a < buffer + IOBUF_SIZE → byte_at (mem (fsys s')) a =
    if decide (base ≤ a < base + n) then SfsFile.file_byte (disk d) (din x) (pos y + (a - base)) else byte_at (mem (fsys s)) a }.

Lemma set_pos_same y p : p = pos y → set_pos p y = y.
Proof. intros ->. by destruct y. Qed.

Lemma put_fd_same v fd_ y f ino m : opened v fd_ y f ino → m = mem v → put_fd (set_mem v m) (Z.to_nat fd_) y = v.
Proof.
  intros [_ (x & Hx & _ & Hy) _ _] ->. unfold put_fd. simpl. rewrite Hx, list_insert_id by done. destruct x; simpl.
  rewrite insert_id by done. by destruct v.
Qed.

(** The buffer of the kernel is not where the bytes go. *)
Definition apart_of (buffer base len : Z) : Prop := base + len ≤ buffer ∨ buffer + IOBUF_SIZE ≤ base.

(** One round. *)
Lemma read_round_run s o fd_ y f ino d F x buffer base len :
  opened (fsys s) fd_ y f ino → readable y = true → backed (fsys s) f ino d F x → 0 ≤ pos y < SFS_MAX_FILE_SIZE →
  um s = o → locked s = false → apart_of buffer base len → reach o true base len → 0 < len →
  let n := Z.max 0 (Z.min (pos y + Z.min len IOBUF_SIZE) (size (din x)) - pos y) in
  ∃ s' o', read_round fd_ buffer base len s = Ret ((0, n, negb (n =? 0)), s') ∧ got s o fd_ y d x buffer base n s' o'.
Proof.
  intros Ho Hr Hb Hp Hm Hlk Hbuf Hmay Hlen n. unfold read_round. unfold apart_of in Hbuf.
  set (c := if len <? IOBUF_SIZE then len else IOBUF_SIZE).
  assert (c = Z.min len IOBUF_SIZE) as Hc by (unfold c; destruct (Z.ltb_spec len IOBUF_SIZE); lia). clearbody c.
  destruct (file_read_run (fsys s) fd_ y f ino d F x buffer c) as (m1 & Hrun & Hfill); [done|done|done|done|unfold IOBUF_SIZE in *; lia|].
  rewrite Hc in Hrun, Hfill. fold n in Hrun, Hfill. set (v1 := put_fd _ _ _) in Hrun. rewrite <-Hc in Hrun.
  assert (in_fs (file_read fd_ buffer c) s = Ret ((0, n), set_fsys s v1)) as Hin by (unfold in_fs; by rewrite Hrun).
  assert (∀ b, ¬ buffer ≤ b < buffer + IOBUF_SIZE → byte_at m1 b = byte_at (mem (fsys s)) b) as Hout.
  { intros b Hb'. rewrite Hfill. rewrite decide_False; [done|].
    pose proof (SfsFile.length_file_bytes (disk d) (din x) (pos y) n ltac:(unfold n; lia)). unfold n, IOBUF_SIZE in *. lia. }
  assert (mem v1 = m1) as Hm1 by (unfold v1; by rewrite put_fd_mem).
  step using (exact Hin). cbv beta iota. destruct (Z.eqb_spec n 0) as [Hn|Hn].
  { exists (set_fsys s v1), o. split; [done|]. split; [split; [done|by eapply reach_refl]|done| |].
    - cbn [fsys set_fsys]. by rewrite Hm1.
    - intros a Ha. cbn [fsys set_fsys]. rewrite Hm1, Hout by done. by rewrite decide_False by lia. }
  assert (0 < n ≤ len ∧ n ≤ 4096) as Hnb by (unfold n, IOBUF_SIZE in *; lia).
  destruct (copy_run (set_fsys s v1) o true base buffer n) as (o' & b' & Hcp); [done|done| |lia|].
  { apply (reach_sub o true base len); [done|lia|lia]. }
  destruct (Hcp _ (λ ok, (if ok : bool then assert (n <=? len) else mret tt) ;; unlock_mm ;;
    mret (if negb ok && (0 =? 0) then - E_INVAL else 0, n, ok))) as (Hstep & Hsame & Hby).
  cbv beta iota in Hstep. exists (mkUsys (set_mem v1 b') o' false (heap s)), o'. split.
  { etrans; [exact Hstep|]. step using (unfold assert; rewrite (proj2 (Z.leb_le _ _)) by lia; reflexivity).
    step using (apply unlock_run, Hsame). reflexivity. }
  split; [done|done| |].
  - cbn [fsys]. change (mem (set_mem v1 b')) with b'. unfold v1. by rewrite set_mem_put.
  - intros a Ha. cbn [fsys]. change (mem (set_mem v1 b')) with b'. rewrite Hby. cbn [fsys set_fsys]. rewrite Hm1.
    destruct (decide (base ≤ a < base + n)) as [Hin'|]; [|by apply Hout]. rewrite Hfill.
    pose proof (SfsFile.length_file_bytes (disk d) (din x) (pos y) n ltac:(lia)) as Hl. rewrite decide_True by lia.
    apply list_lookup_total_correct. unfold SfsFile.file_bytes. rewrite list_lookup_fmap, lookup_seqZ_lt by lia. simpl. do 2 f_equal. lia.
Qed.

Lemma got_trans s o fd_ y d x buffer base n1 n2 s1 o1 s2 o2 :
  0 ≤ n1 → 0 ≤ n2 → got s o fd_ y d x buffer base n1 s1 o1 →
  got s1 o1 fd_ (set_pos (pos y + n1) y) d x buffer (base + n1) n2 s2 o2 → got s o fd_ y d x buffer base (n1 + n2) s2 o2.
Proof.
  intros Hn1 Hn2 [(A1 & A2) [A4 A5] A6 A7] [(B1 & B2) [B4 B5] B6 B7]. split.
  - split; [done|]. by eapply same_um_trans.
  - split; congruence.
  - clear B7 A7. revert B6 A6. generalize (mem (fsys s2)) (mem (fsys s1)). intros b2 b1 -> ->. rewrite set_mem_put, put_fd_put.
    unfold set_pos. cbn [pos status readable writable fd f_node fopen_count]. by rewrite Z.add_assoc.
  - intros a Ha. rewrite B7 by done. cbn [pos set_pos].
    destruct (decide (base + n1 ≤ a < base + n1 + n2)) as [H2|H2].
    + rewrite decide_True by lia. f_equal. lia.
    + rewrite A7 by done. destruct (decide (base ≤ a < base + n1)); [by rewrite decide_True by lia|by rewrite decide_False by lia].
Qed.

Lemma got_none s o fd_ y f ino d x buffer base :
  opened (fsys s) fd_ y f ino → um s = o → same_um o o → locked s = false → got s o fd_ y d x buffer base 0 s o.
Proof.
  intros Ho Hm Hok Hl. split; [done|done| |].
  - rewrite set_pos_same by lia. symmetry. by eapply put_fd_same.
  - intros a _. by rewrite decide_False by lia.
Qed.

Lemma read_loop_run fuel s o fd_ y f ino d F x buffer base len copied :
  opened (fsys s) fd_ y f ino → readable y = true → backed (fsys s) f ino d F x → 0 ≤ pos y < SFS_MAX_FILE_SIZE →
  um s = o → locked s = false → apart_of buffer base len → reach o true base len → 0 ≤ len →
  0 ≤ copied → copied + len < 2 ^ 32 → (Z.to_nat len < fuel)%nat →
  let n := Z.max 0 (Z.min (pos y + len) (size (din x)) - pos y) in
  ∃ s' o', read_loop fuel fd_ buffer base len copied 0 s = Ret ((copied + n, 0), s') ∧ got s o fd_ y d x buffer base n s' o'.
Proof.
  revert s o y base len copied. induction fuel as [|fuel IH]; intros s o y base len copied Ho Hr Hb Hp Hm Hlk Hbuf Hmay Hlen Hcp Hcl Hf n;
    [lia|]. cbn [read_loop]. destruct (Z.eqb_spec len 0) as [Hl0|Hl0].
  { assert (n = 0) as -> by (unfold n; lia). exists s, o. rewrite Z.add_0_r. split; [done|]. eapply got_none; try done. by eapply reach_refl. }
  destruct (read_round_run s o fd_ y f ino d F x buffer base len) as (s1 & o1 & Hrun & Hgot); try done; [lia|].
  set (n1 := Z.max 0 (Z.min (pos y + Z.min len IOBUF_SIZE) (size (din x)) - pos y)) in *.
  assert (0 ≤ n1 ≤ len) as Hn1 by (unfold n1, IOBUF_SIZE in *; lia).
  step using (exact Hrun). cbv beta iota zeta. change (negb (0 =? 0)) with false. cbn [orb].
  destruct (Z.eqb_spec n1 0) as [Hz|Hnz].
  { cbn [negb]. rewrite u32_small by lia. rewrite Z.add_0_r. assert (n = n1) as -> by (unfold n, n1, IOBUF_SIZE in *; lia).
    exists s1, o1. split; [by rewrite Hz, Z.add_0_r|done]. }
  cbn [negb]. pose proof (g_um _ _ _ _ _ _ _ _ _ _ _ Hgot) as (Hm1 & Hs1).
  pose proof (g_rest _ _ _ _ _ _ _ _ _ _ _ Hgot) as (Hlk1 & _). pose proof (g_fsys _ _ _ _ _ _ _ _ _ _ _ Hgot) as Hfs.
  destruct (reach_bounds _ _ _ _ Hmay) as [Hu1 Hu2]. pose proof Hb as [_ _ _ Hfile _ Hsz _]. pose proof (SfsFile.f_n _ _ _ _ Hfile) as Hnb.
  rewrite !u32_small by lia.
  destruct (IH s1 o1 (set_pos (pos y + n1) y) (base + n1) (len - n1) (copied + n1)) as (s2 & o2 & Hrun2 & Hgot2); try done.
  - rewrite Hfs. by apply opened_move.
  - rewrite Hfs. by apply backed_put.
  - cbn [pos set_pos]. unfold SfsFile.NMAX in Hnb. change SFS_MAX_FILE_SIZE with 134217728 in *. unfold n1 in *. lia.
  - unfold apart_of in *. lia.
  - apply (reach_same o); [done|]. by apply (reach_sub o true base len); [|lia|lia].
  - lia.
  - lia.
  - lia.
  - lia.
  - cbn [pos set_pos] in Hrun2, Hgot2. set (n2 := Z.max 0 _) in Hrun2, Hgot2. assert (n = n1 + n2) as -> by (unfold n, n2, n1, IOBUF_SIZE in *; lia).
    exists s2, o2. split; [rewrite Hrun2; do 3 f_equal; lia|]. eapply got_trans; [lia| |done|done]. unfold n2. lia.
Qed.

Lemma testfd_run v fd_ y f ino rd wr : opened v fd_ y f ino → (rd = true → readable y = true) → (wr = true → writable y = true) →
  file_testfd fd_ rd wr v = Ret (true, v).
Proof.
  intros Ho Hrd Hwr. unfold file_testfd. step using (by eapply fd2file_run). cbv beta iota. change (negb (0 =? 0)) with false. cbv iota.
  step using (by eapply file_at_run). unfold mret, M_ret. do 2 f_equal.
  destruct rd, wr; rewrite ?Hrd, ?Hwr by done; done.
Qed.

Lemma set_fsys_same s : set_fsys s (fsys s) = s.
Proof. by destruct s. Qed.

Lemma buffer_alloc_run s n a : kaddr (heap s) n = Some a → kmalloc n s = Ret (Some a, mkUsys (fsys s) (um s) (locked s) ({[a]} ∪ heap s)).
Proof. intros Ha. unfold kmalloc, get, mbind, M_bind. by rewrite Ha. Qed.

Lemma buffer_free_run s H a : heap s = {[a]} ∪ H → a ∉ H → kfree a s = Ret (tt, mkUsys (fsys s) (um s) (locked s) H).
Proof.
  intros Hs Ha. unfold kfree, get, mbind, M_bind. rewrite Hs, bool_decide_true by set_solver. unfold put. do 3 f_equal. set_solver.
Qed.

(** ** Writing *)

(** From [d] to [d'] the file [ino] has got [n] blocks and holds [l] at [lo], as in [SfsFile.wrote], and its size is
    at least the end of [l]. *)
Record stored (ino n lo : Z) (l : list Z) (d : sfs_fs) (F : gset Z) (x : sfs_inode) (d' : sfs_fs) (F' : gset Z)
    (x' : sfs_inode) : Prop := {
  st_ok : SfsFile.fs_ok d' F';
  st_same : blocks (super d') = blocks (super d);
  st_inodes : inodes d' = <[ino := x']> (inodes d);
  st_meta : type (din x') = type (din x) ∧ ref_count x' = ref_count x ∧ open_count x' = open_count x;
  st_end : size (din x') = Z.max (size (din x)) (lo + Z.of_nat (length l));
  st_n : nblocks (din x') = n ∧ nblocks (din x) ≤ n ∧ lo + Z.of_nat (length l) ≤ 4096 * n;
  st_F : F' ⊆ F;
  st_cost : ∀ N, n ≤ N → SfsFile.cost (din x) N ≤ Z.of_nat (SFS_card F) → SfsFile.cost (din x') N ≤ Z.of_nat (SFS_card F');
  st_file : SfsFile.file_ok (disk d') (blocks (super d')) F' (din x');
  st_bytes : ∀ p, 0 ≤ p < 4096 * n → SfsFile.file_byte (disk d') (din x') p =
    if decide (lo ≤ p < lo + Z.of_nat (length l)) then l !!! Z.to_nat (p - lo)
    else if decide (p < 4096 * nblocks (din x)) then SfsFile.file_byte (disk d) (din x) p else 0;
  st_frame : ∀ a, a / 4096 ∉ F → ¬ SfsFile.owns (disk d) (din x) (a / 4096) → byte_at (disk d') a = byte_at (disk d) a;
  st_owns : ∀ b, SfsFile.owns (disk d') (din x') b → SfsFile.owns (disk d) (din x) b ∨ b ∈ F }.

Lemma wrote_stored ino n lo l d F x d1 F' x1 : SfsFile.wrote ino n lo l d F x d1 F' x1 →
  let x' := SfsFile.moved_end (lo + Z.of_nat (length l)) x1 in stored ino n lo l d F x (SfsFile.put_sin d1 ino x') F' x'.
Proof.
  intros [A1 [A2 _] A3 (M1 & M2 & _ & M3 & M4 & _) (A5 & A5' & A5'') A6 A7 A8 A9 A10 A11]. set (e := lo + Z.of_nat (length l)). intros x'.
  destruct (SfsFile.moved_end_spec e x1) as (H1 & H2 & H3 & H4). fold x' in H1, H2, H3, H4.
  assert (∀ dk b, SfsFile.owns dk (din x') b → SfsFile.owns dk (din x1) b) as Ho.
  { intros dk b. unfold x', SfsFile.moved_end. by destruct (_ <? _). }
  assert (∀ N, SfsFile.cost (din x') N = SfsFile.cost (din x1) N) as Hcost.
  { intros N. unfold x', SfsFile.moved_end. by destruct (_ <? _). }
  split; cbn [SfsFile.put_sin set_inodes inodes disk super].
  - by apply SfsFile.fs_ok_inodes.
  - done.
  - rewrite A3. apply insert_insert_eq.
  - unfold x', SfsFile.moved_end. destruct (_ <? _); simpl; done.
  - by rewrite H1, M1.
  - by rewrite H2.
  - done.
  - intros N HN Hc. rewrite Hcost. by apply A7.
  - rewrite A2. by apply H4.
  - intros p Hp. rewrite H3. by apply A9.
  - done.
  - intros b Hb. by apply A11, Ho.
Qed.

Lemma stored_app ino n1 n2 lo l1 l2 d F x d1 F1 x1 d2 F2 x2 :
  stored ino n1 lo l1 d F x d1 F1 x1 → stored ino n2 (lo + Z.of_nat (length l1)) l2 d1 F1 x1 d2 F2 x2 →
  stored ino n2 lo (l1 ++ l2) d F x d2 F2 x2.
Proof.
  intros [A1 A2 A3 A4 Ae (A5 & A5' & A5'') A6 A7 A8 A9 A10 A11] [B1 B2 B3 B4 Be (B5 & B5' & B5'') B6 B7 B8 B9 B10 B11].
  split; try done.
  - congruence.
  - rewrite B3, A3. apply insert_insert_eq.
  - destruct_and!; split_and!; congruence.
  - rewrite Be, Ae, length_app. lia.
  - rewrite length_app. lia.
  - by trans F1.
  - intros N HN Hc. apply B7; [done|]. apply A7; [lia|done].
  - intros p Hp. rewrite B9 by done. rewrite length_app, A5. destruct (decide (lo + Z.of_nat (length l1) ≤ p < _)) as [H2|H2].
    + rewrite decide_True by lia. rewrite lookup_total_app_r by lia. f_equal. lia.
    + destruct (decide (p < 4096 * n1)) as [H1|H1].
      * rewrite A9 by lia. destruct (decide (lo ≤ p < lo + Z.of_nat (length l1))) as [H3|H3].
        -- rewrite decide_True by lia. by rewrite lookup_total_app_l by lia.
        -- by rewrite (decide_False (P := lo ≤ p < lo + Z.of_nat _)) by lia.
      * rewrite (decide_False (P := p < 4096 * nblocks (din x))) by lia.
        by rewrite (decide_False (P := lo ≤ p < lo + Z.of_nat _)) by lia.
  - intros a Ha Hn. rewrite B10, A10; [done|done|done|set_solver|]. intros [?|?]%A11; done.
  - intros b [Hb|Hb]%B11; [by apply A11|right; set_solver].
Qed.

Definition blocks_for (e n : Z) : Z := Z.max n ((e + 4095) / 4096).

Lemma file_write_run v fd_ y f ino d F x base len :
  opened v fd_ y f ino → writable y = true → backed v f ino d F x →
  0 ≤ pos y → pos y / 4096 ≤ nblocks (din x) → 0 < len ≤ IOBUF_SIZE →
  let e := pos y + len in let N := blocks_for e (nblocks (din x)) in
  e ≤ 4096 * SfsFile.NMAX → SfsFile.cost (din x) N ≤ Z.of_nat (SFS_card F) →
  ∃ d' F' x', file_write fd_ base len v =
      Ret ((0, len), put_fd (set_mem (set_fss v (<[f := d']> (fss v))) (mem v)) (Z.to_nat fd_) (set_pos e y)) ∧
    stored ino N (pos y) (read_bytes (mem v) base len) d F x d' F' x'.
Proof.
  intros Ho Hw Hb Hp Hpn Hl e N He Hc. pose proof Hb as [Hs Hok Hx Hf Ht Hsz Hcn]. change (4096 * SfsFile.NMAX) with 4243456 in He.
  change IOBUF_SIZE with 4096 in Hl. set (m := mem v). set (buf := read_bytes m base len).
  pose proof (length_read m base len ltac:(lia)) as Hbl. fold buf in Hbl.
  set (iob := iobuf_init base len (pos y)).
  destruct (SfsFile.write_run ino d F x buf (pos y)) as (d1 & F' & x1 & Hwr & Hrun); try done.
  { intros E0. rewrite E0 in Hbl. simpl in Hbl. lia. }
  { rewrite Hbl. change (4096 * SfsFile.NMAX) with 4243456. lia. }
  { rewrite Hbl. done. }
  pose proof (wrote_stored _ _ _ _ _ _ _ _ _ _ Hwr) as Hst. cbv zeta in Hst. rewrite Hbl in Hrun, Hst.
  set (d' := SfsFile.put_sin d1 ino _) in *. set (x' := SfsFile.moved_end _ _) in *. exists d', F', x'. split; [|exact Hst].
  assert (sfs_io ino true (m, iob) d = Ret ((0, (m, advanced iob len)), d')) as Hio.
  { unfold sfs_io. cbn [fst snd io_base io_resid io_offset iob iobuf_init]. fold buf.
    step using (exact Hrun). cbv beta iota zeta. rewrite (proj2 (Z.eqb_neq len 0)) by lia. cbn [negb]. unfold iobuf_skip.
    unfold mbind, M_bind, get, assert, put. cbn [fst snd]. fold iob. cbn [io_resid iob iobuf_init].
    by rewrite (proj2 (Z.leb_le _ _)) by lia. }
  unfold file_write. erewrite (file_io_run v fd_ y f ino true base len 0 (advanced iob len) (<[f := d']> (fss v)) m); [|done|done|].
  - assert (iobuf_used (advanced iob len) = len) as ->.
    { unfold iobuf_used. cbn. rewrite u32_small; lia. }
    rewrite s32_small by lia. done.
  - intros v0 Hfs Hm. rewrite <-Hfs. eapply (vop_io_run v0 f ino d F x); [|by rewrite Hm]. split; try done. by rewrite Hfs.
Qed.

Lemma opened_write v fd_ y f ino fs m p : opened v fd_ y f ino →
  opened (put_fd (set_mem (set_fss v fs) m) (Z.to_nat fd_) (set_pos p y)) fd_ (set_pos p y) f ino.
Proof. intros Ho. apply opened_move. by destruct Ho. Qed.

Lemma backed_stored v i y m f ino n lo l d F x d' F' x' : backed v f ino d F x → stored ino n lo l d F x d' F' x' →
  backed (put_fd (set_mem (set_fss v (<[f := d']> (fss v))) m) i y) f ino d' F' x'.
Proof.
  intros [H1 H2 H3 H4 H5 H6 H7] [A1 A2 A3 (M1 & M2 & M3) A4 (A5 & A5' & A5'') A6 A7 A8 A9 A10 A11]. split.
  - rewrite put_fd_fss. cbn. apply lookup_insert_eq.
  - done.
  - rewrite A3. apply lookup_insert_eq.
  - done.
  - by rewrite M1.
  - rewrite A4, A5. lia.
  - by rewrite M2, M3.
Qed.

(** The process [s] after the [len] bytes at [base] are in the file. *)
Record gave (s : usys) (m : mm_struct) (fd_ : Z) (y : file) (f : Z) (d' : sfs_fs) (buffer len : Z) (s' : usys) (m' : mm_struct) : Prop := {
  v_um : um s' = Some m' ∧ mm_ok m' ∧ extent <$> areas m' = extent <$> areas m;
  v_rest : locked s' = false ∧ heap s' = heap s;
  v_fsys : fsys s' = put_fd (set_mem (set_fss (fsys s) (<[f := d']> (fss (fsys s)))) (mem (fsys s'))) (Z.to_nat fd_) (set_pos (pos y + len) y);
  v_mem : ∀ a, ¬ buffer ≤ a < buffer + IOBUF_SIZE → byte_at (mem (fsys s')) a = byte_at (mem (fsys s)) a }.

Lemma gave_trans s m fd_ y f d1 d2 buffer n1 n2 s1 m1 s2 m2 :
  gave s m fd_ y f d1 buffer n1 s1 m1 → gave s1 m1 fd_ (set_pos (pos y + n1) y) f d2 buffer n2 s2 m2 →
  gave s m fd_ y f d2 buffer (n1 + n2) s2 m2.
Proof.
  intros [(A1 & A2 & A3) [A4 A5] A6 A7] [(B1 & B2 & B3) [B4 B5] B6 B7]. split.
  - split_and!; congruence.
  - split; congruence.
  - clear B7 A7. revert B6 A6. generalize (mem (fsys s2)) (mem (fsys s1)). intros b2 b1 -> ->.
    rewrite put_fd_fss. cbn [fss set_mem set_fss]. rewrite insert_insert_eq, put_fd_set, put_fd_put.
    unfold set_pos. cbn [pos status readable writable fd f_node fopen_count]. by rewrite Z.add_assoc.
  - intros a Ha. by rewrite B7, A7.
Qed.

(** One chunk of [c] bytes: the copy from the process, then the write. *)
Lemma write_chunk_run s m fd_ y f ino d F x buffer base c :
  opened (fsys s) fd_ y f ino → writable y = true → backed (fsys s) f ino d F x → 0 ≤ pos y → pos y / 4096 ≤ nblocks (din x) →
  um s = Some m → mm_ok m → locked s = false → PageTable.KERNBASE ≤ buffer → may m false base c → 0 < c ≤ IOBUF_SIZE →
  let e := pos y + c in let N := blocks_for e (nblocks (din x)) in
  e ≤ 4096 * SfsFile.NMAX → SfsFile.cost (din x) N ≤ Z.of_nat (SFS_card F) →
  ∃ s' m' d' F' x', gave s m fd_ y f d' buffer c s' m' ∧ stored ino N (pos y) (read_bytes (mem (fsys s)) base c) d F x d' F' x' ∧
    ∀ A (k0 : M usys A) (k : Z * Z → M usys A),
      (lock_mm ;; ok ← in_uvm (Vmm.copy_from_user buffer base c false); unlock_mm ;;
       if negb ok then k0 else p ← in_fs (file_write fd_ buffer c); k p) s = k (0, c) s'.
Proof.
  intros Ho Hw Hb Hp Hpn Hm Hok Hlk Hbuf Hmay Hc e N He Hcost. unfold PageTable.KERNBASE in Hbuf.
  destruct (copy_run s (Some m) false buffer base c) as (o1 & b1 & Hcp); [done|done|done|lia|].
  destruct (Hcp _ (λ _, mret ())) as (_ & Hsame & Hby). destruct o1 as [m1|]; [|done]. destruct Hsame as [Hok1 He1].
  set (v1 := set_mem (fsys s) b1).
  assert (opened v1 fd_ y f ino) as Ho1 by (by destruct Ho). assert (backed v1 f ino d F x) as Hb1 by (by destruct Hb).
  destruct (file_write_run v1 fd_ y f ino d F x buffer c) as (d' & F' & x' & Hrun & Hst); try done.
  assert (read_bytes (mem v1) buffer c = read_bytes (mem (fsys s)) base c) as Hread.
  { apply list_eq. intros k. destruct (decide (k < Z.to_nat c)%nat).
    - rewrite !lookup_read by lia. cbn. rewrite Hby, decide_True by lia. do 2 f_equal. lia.
    - rewrite !lookup_ge_None_2; [done| |]; unfold read_bytes; rewrite length_fmap, length_seqZ; lia. }
  rewrite Hread in Hst. set (v2 := put_fd _ _ _) in Hrun.
  exists (mkUsys v2 (Some m1) false (heap s)), m1, d', F', x'. split_and!; [|done|].
  - split; [done|done| |].
    + cbn [fsys]. unfold v2 at 2. rewrite put_fd_mem. done.
    + intros a Ha. cbn [fsys]. unfold v2. rewrite put_fd_mem. cbn. rewrite Hby. unfold IOBUF_SIZE in *. by rewrite decide_False by lia.
  - intros A k0 k. destruct (Hcp _ (λ ok, unlock_mm ;; if negb ok then k0 else p ← in_fs (file_write fd_ buffer c); k p)) as (Hstep & _).
    etrans; [exact Hstep|]. step using reflexivity. change (negb true) with false. cbv iota.
    step using (unfold in_fs; cbn [fsys]; fold v1; rewrite Hrun; reflexivity). done.
Qed.

Lemma blocks_for_mono e e' n : e ≤ e' → blocks_for e n ≤ blocks_for e' n.
Proof. intros H. unfold blocks_for. pose proof (Z.div_le_mono (e + 4095) (e' + 4095) 4096). lia. Qed.

Lemma blocks_for_trans e e' n : e ≤ e' → blocks_for e' (blocks_for e n) = blocks_for e' n.
Proof. intros H. unfold blocks_for. pose proof (Z.div_le_mono (e + 4095) (e' + 4095) 4096). lia. Qed.

Lemma read_bytes_app m a n k : 0 ≤ n → 0 ≤ k → read_bytes m a (n + k) = read_bytes m a n ++ read_bytes m (a + n) k.
Proof. intros. unfold read_bytes. by rewrite seqZ_app, fmap_app by lia. Qed.

Lemma cstring_before l r : (∀ c, c ∈ l → c ≠ 0) → cstring (l ++ 0 :: r) = l.
Proof.
  induction l as [|c l IH]; intros Hl; [done|]. simpl. rewrite (proj2 (Z.eqb_neq c 0)) by (apply Hl; set_solver).
  rewrite IH by set_solver. done.
Qed.

Lemma cstring_read b a n k : 0 ≤ n → n < k → byte_at b (a + n) = 0 → (∀ i, 0 ≤ i < n → byte_at b (a + i) ≠ 0) →
  cstring (read_bytes b a k) = read_bytes b a n.
Proof.
  intros Hn Hk Hz Hnz. replace k with (n + (1 + (k - n - 1))) by lia. rewrite !read_bytes_app by lia.
  assert (read_bytes b (a + n) 1 = [0]) as ->.
  { unfold read_bytes. rewrite seqZ_cons by lia. simpl. by rewrite Hz. }
  apply cstring_before. intros c Hc. apply list_elem_of_lookup in Hc as [i Hi].
  assert (i < Z.to_nat n)%nat as Hlt.
  { apply lookup_lt_Some in Hi. unfold read_bytes in Hi. rewrite length_fmap, length_seqZ in Hi. lia. }
  rewrite lookup_read in Hi by done. injection Hi as <-. apply Hnz. lia.
Qed.

Lemma write_loop_run fuel s m fd_ y f ino d F x buffer base len copied :
  opened (fsys s) fd_ y f ino → writable y = true → backed (fsys s) f ino d F x → 0 ≤ pos y → pos y / 4096 ≤ nblocks (din x) →
  um s = Some m → mm_ok m → locked s = false → PageTable.KERNBASE ≤ buffer → may m false base len → 0 < len →
  0 ≤ copied → copied + len < 2 ^ 32 → (Z.to_nat len < fuel)%nat →
  let e := pos y + len in let N := blocks_for e (nblocks (din x)) in
  e ≤ 4096 * SfsFile.NMAX → SfsFile.cost (din x) N ≤ Z.of_nat (SFS_card F) →
  ∃ s' m' d' F' x', write_loop fuel fd_ buffer base len copied 0 s = Ret ((copied + len, 0), s') ∧
    gave s m fd_ y f d' buffer len s' m' ∧ stored ino N (pos y) (read_bytes (mem (fsys s)) base len) d F x d' F' x'.
Proof.
  revert s m y d F x base len copied. induction fuel as [|fuel IH];
    intros s m y d F x base len copied Ho Hw Hb Hp Hpn Hm Hok Hlk Hbuf Hmay Hlen Hcp Hcl Hf e N He Hcost; [lia|].
  cbn [write_loop]. rewrite (proj2 (Z.eqb_neq len 0)) by lia. set (c := if len <? IOBUF_SIZE then len else IOBUF_SIZE).
  assert (c = Z.min len IOBUF_SIZE) as Hc by (unfold c; destruct (Z.ltb_spec len IOBUF_SIZE); lia). clearbody c.
  unfold IOBUF_SIZE in Hc. pose proof Hmay as (Hu1 & Hu2 & _). unfold PageTable.USERTOP, PageTable.USERBASE in Hu1, Hu2.
  set (N1 := blocks_for (pos y + c) (nblocks (din x))). assert (N1 ≤ N) as HN by (apply blocks_for_mono; unfold e; lia).
  destruct (write_chunk_run s m fd_ y f ino d F x buffer base c) as (s1 & m1 & d1 & F1 & x1 & Hgave & Hst & Hrun); try done.
  { by apply (may_sub m false base len); [|lia|lia]. }
  { unfold IOBUF_SIZE. lia. }
  { unfold e in He. lia. }
  { etrans; [|exact Hcost]. by apply SfsFile.cost_mono. }
  rewrite Hrun. cbv beta iota. rewrite (proj2 (Z.eqb_neq c 0)) by lia.
  step using (unfold assert; rewrite (proj2 (Z.leb_le _ _)) by lia; reflexivity). change (negb (0 =? 0)) with false. cbn [orb].
  rewrite !u32_small by lia. destruct (decide (c = len)) as [->|Hne].
  { destruct fuel; [lia|]. cbn [write_loop]. rewrite Z.sub_diag. exists s1, m1, d1, F1, x1. done. }
  pose proof (v_um _ _ _ _ _ _ _ _ _ _ Hgave) as (Hm1 & Hok1 & He1). pose proof (v_rest _ _ _ _ _ _ _ _ _ _ Hgave) as (Hlk1 & _).
  pose proof (v_fsys _ _ _ _ _ _ _ _ _ _ Hgave) as Hfs. pose proof (v_mem _ _ _ _ _ _ _ _ _ _ Hgave) as Hmem.
  pose proof (st_n _ _ _ _ _ _ _ _ _ _ Hst) as (Hn1 & Hn2 & Hn3). fold N1 in Hn1, Hn3.
  pose proof (length_read (mem (fsys s)) base c ltac:(lia)) as Hrl. rewrite Hrl in Hn3.
  assert (blocks_for (pos y + c + (len - c)) (nblocks (din x1)) = N) as HN2.
  { rewrite Hn1. unfold N1. rewrite blocks_for_trans by lia. unfold N, e. f_equal. lia. }
  destruct (IH s1 m1 (set_pos (pos y + c) y) d1 F1 x1 (base + c) (len - c) (copied + c)) as (s2 & m2 & d2 & F2 & x2 & Hrun2 & Hg2 & Hst2); try done;
    cbn [pos set_pos]; try lia.
  - rewrite Hfs. by apply opened_write.
  - rewrite Hfs. by eapply backed_stored.
  - rewrite Hn1. apply Z.div_le_upper_bound; lia.
  - apply (may_extent m); [done|]. by apply (may_sub m false base len); [|lia|lia].
  - rewrite HN2. by apply (st_cost _ _ _ _ _ _ _ _ _ _ Hst).
  - cbn [pos set_pos] in Hst2. rewrite HN2 in Hst2. exists s2, m2, d2, F2, x2. split_and!.
    + rewrite Hrun2. do 3 f_equal. lia.
    + replace len with (c + (len - c)) by lia. by eapply gave_trans.
    + replace len with (c + (len - c)) by lia. rewrite read_bytes_app by lia. eapply stored_app; [done|]. rewrite Hrl.
      assert (read_bytes (mem (fsys s)) (base + c) (len - c) = read_bytes (mem (fsys s1)) (base + c) (len - c)) as ->; [|done].
      apply read_ext. intros a Ha. symmetry. apply Hmem. unfold PageTable.KERNBASE in Hbuf. lia.
Qed.

(** * What a call leaves held *)

(** After [c] the lock is as before and the blocks held are those before, less [H]. *)
Definition leaves {A} (H : gset Z) (c : M usys A) : Prop := ∀ s a s', c s = Ret (a, s') →
  heap s' = heap s ∖ H ∧ locked s' = locked s ∧ (um s' = None ↔ um s = None).
Notation restores := (leaves ∅).
Definition keeps_mm {A} (c : M Vmm.uvm A) : Prop := ∀ s a s', c s = Ret (a, s') → (Vmm.umm s' = None ↔ Vmm.umm s = None).

Lemma leaves_bind {A B} H (c : M usys A) (k : A → M usys B) : restores c → (∀ a, leaves H (k a)) → leaves H (c ≫= k).
Proof.
  intros Hc Hk s b s'. unfold mbind, M_bind. destruct (c s) as [[a s1]|] eqn:E1; [|done]. intros E2.
  destruct (Hc _ _ _ E1) as (A1 & A2 & A3), (Hk _ _ _ _ E2) as (B1 & B2 & B3). rewrite B1, A1, B2, A2, B3, A3, difference_empty_L. done.
Qed.
Lemma leaves_end {A B} H (c : M usys A) (k : A → M usys B) : leaves H c → (∀ a, restores (k a)) → leaves H (c ≫= k).
Proof.
  intros Hc Hk s b s'. unfold mbind, M_bind. destruct (c s) as [[a s1]|] eqn:E1; [|done]. intros E2.
  destruct (Hc _ _ _ E1) as (A1 & A2 & A3), (Hk _ _ _ _ E2) as (B1 & B2 & B3). rewrite B1, A1, B2, A2, B3, A3, difference_empty_L. done.
Qed.
Lemma leaves_both {A B} H1 H2 (c : M usys A) (k : A → M usys B) :
  leaves H1 c → (∀ a, leaves H2 (k a)) → leaves (H2 ∪ H1) (c ≫= k).
Proof.
  intros Hc Hk s b s'. unfold mbind, M_bind. destruct (c s) as [[a s1]|] eqn:E1; [|done]. intros E2.
  destruct (Hc _ _ _ E1) as (A1 & A2 & A3), (Hk _ _ _ _ E2) as (B1 & B2 & B3). rewrite B1, A1, B2, A2, B3, A3.
  split_and!; [|done|done]. apply leibniz_equiv. intros z. rewrite !elem_of_difference, elem_of_union. tauto.
Qed.
Lemma restores_ret {A} (a : A) : restores (mret a).
Proof. intros s b s' [= <- <-]. by rewrite difference_empty_L. Qed.
Lemma restores_fail {A} e : restores (fail (A := A) e).
Proof. intros s b s' [=]. Qed.
Lemma restores_assert b : restores (assert b).
Proof. destruct b; [apply (restores_ret tt)|apply restores_fail]. Qed.
Lemma restores_in_fs {A} (c : M vfs A) : restores (in_fs c).
Proof. intros s a s'. unfold in_fs. destruct (c _) as [[]|]; [|done]. intros [= <- <-]. by rewrite difference_empty_L. Qed.
Lemma restores_gets {A} (f : usys → A) : restores (gets f).
Proof. intros s a s' [= <- <-]. by rewrite difference_empty_L. Qed.
Lemma restores_words a l : restores (store_words a l).
Proof. intros s b s' [= <- <-]. by rewrite difference_empty_L. Qed.
Lemma restores_in_uvm {A} (c : M Vmm.uvm A) : keeps_mm c → restores (in_uvm c).
Proof.
  intros Hc s a s'. unfold in_uvm. destruct (c _) as [[b v]|] eqn:E0; [|done]. intros [= <- <-]. rewrite difference_empty_L.
  specialize (Hc _ _ _ E0). done.
Qed.
Lemma leaves_kfree a : leaves {[a]} (kfree a).
Proof. intros s b s'. unfold kfree, get, mbind, M_bind. case_bool_decide; [|done]. by intros [= <- <-]. Qed.
(** A part of the code between [lock_mm] and [unlock_mm]. *)
Lemma leaves_locked {A B} H (c : M usys A) (k : A → M usys B) : restores c → (∀ a, leaves H (k a)) →
  leaves H (lock_mm ;; a ← c; unlock_mm ;; k a).
Proof.
  intros Hc Hk s b s'. unfold mbind, M_bind. destruct (lock_mm s) as [[[] s1]|] eqn:E1; [|done].
  destruct (c s1) as [[a s2]|] eqn:E2; [|done]. destruct (unlock_mm s2) as [[[] s3]|] eqn:E3; [|done]. intros E4.
  destruct (Hc _ _ _ E2) as (A1 & A2 & A3), (Hk _ _ _ _ E4) as (B1 & B2 & B3). rewrite difference_empty_L in A1.
  assert (heap s3 = heap s ∧ locked s3 = locked s ∧ (um s3 = None ↔ um s = None)) as (D1 & D2 & D3); [|by rewrite B1, D1, B2, D2, B3, D3].
  revert E1 E3. unfold lock_mm, unlock_mm, get, mbind, M_bind.
  destruct (um s) eqn:Eu; [destruct (locked s) eqn:El; [done|]|]; intros [= <-]; (destruct (um s2) eqn:Eu2; intros [= <-]); cbn in *;
    rewrite ?A1, ?A2, ?Eu, ?Eu2, ?El; intuition congruence.
Qed.

Lemma leaves_locked2 {A B} H (c : M usys A) (c2 : A → M usys unit) (k : A → M usys B) :
  restores c → (∀ a, restores (c2 a)) → (∀ a, leaves H (k a)) → leaves H (lock_mm ;; a ← c; c2 a ;; unlock_mm ;; k a).
Proof.
  intros Hc Hc2 Hk s b s' Hrun. refine (leaves_locked H (a ← c; c2 a ;; mret a) k _ Hk s b s' _).
  { apply leaves_bind; [done|]. intros a. apply leaves_bind; [done|intros _; apply restores_ret]. }
  rewrite <-Hrun. clear. unfold mbind, M_bind. destruct (lock_mm s) as [[[] s1]|]; [|done]. destruct (c s1) as [[a s2]|]; [|done].
  by destruct (c2 a s2) as [[[] s3]|].
Qed.

Lemma keeps_bind {A B} (c : M Vmm.uvm A) (k : A → M Vmm.uvm B) : keeps_mm c → (∀ a, keeps_mm (k a)) → keeps_mm (c ≫= k).
Proof.
  intros Hc Hk s b s'. unfold mbind, M_bind. destruct (c s) as [[a s1]|] eqn:E1; [|done]. intros E2.
  by rewrite (Hk _ _ _ _ E2), (Hc _ _ _ E1).
Qed.
Lemma keeps_ret {A} (a : A) : keeps_mm (mret a).
Proof. by intros s b s' [= <- <-]. Qed.
Lemma keeps_check a n w : keeps_mm (Vmm.mem_check a n w).
Proof.
  intros s b s'. unfold Vmm.mem_check. destruct (Vmm.umm s) eqn:Eu; [|intros [= <- <-]; by rewrite Eu].
  destruct (user_mem_check _ _ _ _) as [[]|]; [|done]. by intros [= <- <-].
Qed.
Lemma keeps_memcpy a b n : keeps_mm (Vmm.memcpy a b n).
Proof. by intros s ? s' [= <- <-]. Qed.
Lemma keeps_gets {A} (f : Vmm.uvm → A) : keeps_mm (gets f).
Proof. by intros s b s' [= <- <-]. Qed.
Lemma keeps_fail {A} e : keeps_mm (fail (A := A) e).
Proof. by intros s b s' [=]. Qed.

Ltac keeps :=
  repeat first
    [ apply keeps_ret | apply keeps_check | apply keeps_memcpy | apply keeps_gets | apply keeps_fail
    | apply keeps_bind; [|intros ?] | case_match ].

Lemma keeps_to a b n : keeps_mm (Vmm.copy_to_user a b n).
Proof. unfold Vmm.copy_to_user. keeps. Qed.
Lemma keeps_from a b n w : keeps_mm (Vmm.copy_from_user a b n w).
Proof. unfold Vmm.copy_from_user. keeps. Qed.
Lemma keeps_string_loop fuel : ∀ a b n part, keeps_mm (Vmm.copy_string_loop fuel a b n part).
Proof.
  induction fuel as [|fuel IH]; intros a b n part; cbn [Vmm.copy_string_loop]; [apply keeps_fail|].
  unfold Vmm.strnlen. repeat first [apply IH | progress keeps].
Qed.
Lemma keeps_string a b n : keeps_mm (Vmm.copy_string a b n).
Proof. apply keeps_string_loop. Qed.

Ltac restores :=
  repeat first
    [ apply restores_ret | apply restores_in_fs | apply restores_gets | apply restores_words | apply restores_assert | apply restores_fail
    | apply leaves_kfree | apply restores_in_uvm; first [apply keeps_to|apply keeps_from|apply keeps_string|apply keeps_check]
    | apply leaves_locked; [|intros ?] | apply leaves_bind; [solve [restores]|intros ?] | apply leaves_end; [solve [restores]|intros ?]
    | case_match ].

(** ** The calls *)

Context `{KL : !kheap_laws}.

(** [kmalloc] and what follows. *)
Lemma leaves_kmalloc {A} H n (k0 : M usys A) (k : Z → M usys A) : leaves H k0 → (∀ a, leaves ({[a]} ∪ H) (k a)) →
  leaves H (o ← kmalloc n; match o with None => k0 | Some a => k a end).
Proof using KL.
  intros H0 Hk s b s'. unfold kmalloc, get, mbind, M_bind. destruct (kaddr (heap s) n) as [a|] eqn:Ea; [|apply H0].
  cbn. intros E1. destruct (Hk a _ _ _ E1) as (A1 & A2 & A3). cbn in *. pose proof (kaddr_new _ _ _ Ea). split_and!; [|done|done].
  rewrite A1. set_solver.
Qed.

(** [copy_path] leaves its buffer to the caller. *)
Lemma copy_path_held {A} H path (k0 : Z → M usys A) (k : Z → M usys A) : (∀ r, leaves H (k0 r)) → (∀ a, leaves ({[a]} ∪ H) (k a)) →
  leaves H ('(ret, p) ← copy_path path; if negb (ret =? 0) then k0 ret else k p).
Proof using KL.
  intros H0 Hk. unfold copy_path.
  assert (∀ s b s', (o ← kmalloc (FS_MAX_FPATH_LEN + 1); match o with
    | None => k0 (- E_NO_MEM)
    | Some buffer => lock_mm ;; ok ← in_uvm (Vmm.copy_string buffer path (FS_MAX_FPATH_LEN + 1)); unlock_mm ;;
        if negb ok then kfree buffer ;; k0 (- E_INVAL) else k buffer end) s = Ret (b, s') →
    heap s' = heap s ∖ H ∧ locked s' = locked s ∧ (um s' = None ↔ um s = None)) as Hr.
  { apply leaves_kmalloc; [apply H0|]. intros a. apply leaves_locked; [restores|]. intros ok. destruct ok; [apply Hk|].
    rewrite union_comm_L. apply leaves_both; [apply leaves_kfree|intros _; apply H0]. }
  intros s b s' Hrun. apply (Hr s b s'). rewrite <-Hrun. clear. unfold mbind, M_bind.
  destruct (kmalloc _ s) as [[[a|] s1]|]; try done. destruct (lock_mm s1) as [[[] s2]|]; [|done].
  destruct (in_uvm _ s2) as [[ok s3]|]; [|done]. destruct (unlock_mm s3) as [[[] s4]|]; [|done]. destruct ok; [done|]. cbn [negb].
  by destruct (kfree a s4) as [[[] s5]|].
Qed.


(** The calls, with their arguments; [kstack], [dn] and [cn] are where the kernel has its own data. *)
Inductive sys_call :=
| COpen (path open_flags : Z) | CDelete (path ty : Z) | CClose (fd : Z) | CRead (fd base len : Z) | CWrite (fd base len : Z)
| CSeek (fd pos whence : Z) | CFstat (fd ustat : Z) | CFsync (fd : Z) | CChdir (path : Z) | CLink (path1 path2 : Z)
| CRename (path1 path2 : Z) | CUnlink (path : Z) | CGetcwd (dn cn buf len : Z) | CMkdir (path : Z) | CGetdirentry (fd udirent : Z)
| CDup (fd1 fd2 : Z) | CPipe (fd_store : Z) | CMkfifo (name open_flags : Z).

Definition run_call (c : sys_call) : M usys Z :=
  match c with
  | COpen path fl => sysfile_open path fl
  | CDelete path ty => sysfile_delete path ty
  | CClose fd => sysfile_close fd
  | CRead fd base len => sysfile_read fd base len
  | CWrite fd base len => sysfile_write fd base len
  | CSeek fd pos whence => sysfile_seek fd pos whence
  | CFstat fd ustat => sysfile_fstat fd ustat
  | CFsync fd => sysfile_fsync fd
  | CChdir path => sysfile_chdir path
  | CLink path1 path2 => sysfile_link path1 path2
  | CRename path1 path2 => sysfile_rename path1 path2
  | CUnlink path => sysfile_unlink path
  | CGetcwd dn cn buf len => sysfile_getcwd dn cn buf len
  | CMkdir path => sysfile_mkdir path
  | CGetdirentry fd udirent => sysfile_getdirentry fd udirent
  | CDup fd1 fd2 => sysfile_dup fd1 fd2
  | CPipe fd_store => sysfile_pipe fd_store
  | CMkfifo name fl => sysfile_mkfifo name fl
  end.

Lemma restores_read_round fd buffer base len : restores (read_round fd buffer base len).
Proof.
  unfold read_round. apply leaves_bind; [restores|]. intros [ret alen]. case_match; [restores|].
  apply leaves_locked2; intros; restores.
Qed.
Lemma restores_read_loop fuel fd buffer : ∀ base len copied ret, restores (read_loop fuel fd buffer base len copied ret).
Proof.
  induction fuel as [|fuel IH]; intros base len copied ret; cbn [read_loop]; [restores|]. case_match; [restores|].
  apply leaves_bind; [apply restores_read_round|]. intros [[r alen] ok]. cbv zeta. case_match; [restores|apply IH].
Qed.
Lemma restores_write_loop fuel fd buffer : ∀ base len copied ret, restores (write_loop fuel fd buffer base len copied ret).
Proof.
  induction fuel as [|fuel IH]; intros base len copied ret; cbn [write_loop]; [restores|]. case_match; [restores|].
  apply leaves_locked; [restores|]. intros ok. case_match; [restores|]. apply leaves_bind; [restores|]. intros [r alen].
  apply leaves_bind; [restores|intros _]. case_match; [restores|apply IH].
Qed.
Lemma restores_on_path path f : restores (on_path path f).
Proof using KL.
  apply (copy_path_held ∅ path mret (λ p, l ← path_at p; ret ← in_fs (f l); kfree p ;; mret ret)); [intros; restores|].
  intros a. rewrite union_empty_r_L. apply leaves_bind; [restores|]. intros l. apply leaves_bind; [restores|]. intros r.
  apply leaves_end; [apply leaves_kfree|intros; restores].
Qed.
Lemma leaves_two p1 p2 (f : list Z → list Z → M vfs Z) : leaves ({[p2]} ∪ {[p1]})
  (l1 ← path_at p1; l2 ← path_at p2; ret ← in_fs (f l1 l2); kfree p1 ;; kfree p2 ;; mret ret).
Proof.
  do 3 (apply leaves_bind; [restores|intros ?]). apply leaves_both; [apply leaves_kfree|]. intros _.
  apply leaves_end; [apply leaves_kfree|intros; restores].
Qed.
Lemma restores_on_paths path1 path2 f : restores (on_paths path1 path2 f).
Proof using KL.
  unfold on_paths. refine (copy_path_held ∅ path1 mret _ restores_ret _). intros p1. rewrite union_empty_r_L.
  refine (copy_path_held {[p1]} path2 (λ ret, kfree p1 ;; mret ret) _ _ (λ p2, leaves_two p1 p2 f)).
  intros r. apply leaves_end; [apply leaves_kfree|intros; restores].
Qed.

Lemma restores_buffer {A} n (k0 : M usys A) (k : Z → M usys A) : restores k0 → (∀ a, leaves {[a]} (k a)) →
  restores (o ← kmalloc n; match o with None => k0 | Some a => k a end).
Proof using KL. intros H0 Hk. apply leaves_kmalloc; [done|]. intros a. rewrite union_empty_r_L. apply Hk. Qed.

(** C8: Whatever the arguments and whatever the outcome, a call on files that returns has released the lock of the
    address space and has freed every buffer (path, transfer buffer, directory entry) that the functions of
    sysfile.c themselves took with [kmalloc], on each of their error paths too.  This is about the buffers of that
    file only: what the layers below keep (an inode in memory) or lose ([sfs_create], [sfs_mkdir] and [sfs_rename]
    never free the entries and inodes they build) is counted separately, see [create_leaks]. *)
Theorem sysfile_restores c s r s' : run_call c s = Ret (r, s') → heap s' = heap s ∧ locked s' = locked s.
Proof using KL.
  intros Hrun. assert (restores (run_call c)) as Hc; [|destruct (Hc _ _ _ Hrun) as (A1 & A2 & _); by rewrite A1, difference_empty_L].
  destruct c; cbn [run_call]; try apply restores_on_path; try apply restores_on_paths; try solve [restores].
  - unfold sysfile_read. case_match; [restores|]. apply leaves_bind; [restores|]. intros ok. case_match; [restores|].
    apply restores_buffer; [restores|]. intros a. apply leaves_bind; [apply restores_read_loop|]. intros [cp ret].
    apply leaves_end; [apply leaves_kfree|intros; restores].
  - unfold sysfile_write. case_match; [restores|]. apply leaves_bind; [restores|]. intros ok. case_match; [restores|].
    apply restores_buffer; [restores|]. intros a. apply leaves_bind; [apply restores_write_loop|]. intros [cp ret].
    apply leaves_end; [apply leaves_kfree|intros; restores].
  - unfold sysfile_getcwd. case_match; [restores|]. intros s1 r1 s1' H1.
    refine (leaves_locked ∅ (ok ← in_uvm (Vmm.mem_check buf len true); if ok : bool then
      '(ret, _) ← in_fs (vfs_getcwd dn cn (iobuf_init buf len 0)); mret ret else mret (- E_INVAL)) mret _ restores_ret s1 r1 s1' _); [restores|].
    rewrite <-H1. clear. unfold mbind, M_bind. destruct (lock_mm s1) as [[[] s2]|]; [|done].
    by destruct (in_uvm _ s2) as [[[] s3]|].
  - unfold sysfile_getdirentry. apply restores_buffer; [restores|]. intros a. apply leaves_locked; [restores|]. intros ok. case_match.
    { apply leaves_end; [apply leaves_kfree|intros; restores]. }
    apply leaves_bind; [restores|]. intros off. apply leaves_bind; [restores|]. intros [ret off']. apply leaves_bind; [restores|]. intros _.
    case_match; [apply leaves_end; [apply leaves_kfree|intros; restores]|]. apply leaves_locked; [restores|]. intros ok2.
    apply leaves_end; [apply leaves_kfree|intros; restores].
Qed.

(** ** Path names *)

(** [copy_path] finds the string of the process, or answers -E_INVAL. *)
Lemma copy_path_run s m path buffer :
  um s = Some m → mm_ok m → Vmm.user_areas m → locked s = false → is_u32 path → kaddr (heap s) (FS_MAX_FPATH_LEN + 1) = Some buffer →
  let u := Vmm.mkUvm (um s) (mem (fsys s)) in
  ∃ m' b', mm_ok m' ∧ extent <$> areas m' = extent <$> areas m ∧
    (∀ a, ¬ buffer ≤ a < buffer + (FS_MAX_FPATH_LEN + 1) → byte_at b' a = byte_at (mem (fsys s)) a) ∧
    ((∀ n, ¬ Vmm.has_string u path (FS_MAX_FPATH_LEN + 1) n) ∧
       copy_path path s = Ret ((- E_INVAL, 0), mkUsys (set_mem (fsys s) b') (Some m') false (heap s)) ∨
     ∃ n, Vmm.has_string u path (FS_MAX_FPATH_LEN + 1) n ∧
       copy_path path s = Ret ((0, buffer), mkUsys (set_mem (fsys s) b') (Some m') false ({[buffer]} ∪ heap s)) ∧
       cstring (read_bytes b' buffer (FS_MAX_FPATH_LEN + 1)) = read_bytes (mem (fsys s)) path n).
Proof using KL.
  intros Hm Hok Hua Hlk Hp Hka u. destruct (kaddr_kernel _ _ _ Hka) as [Hk1 Hk2]. pose proof (kaddr_new _ _ _ Hka) as Hnew.
  change (FS_MAX_FPATH_LEN + 1) with 4096 in *.
  destruct (Vmm.copy_string_run u m buffer path 4096) as (r & u' & m' & Hrun & Hm' & Hok' & He & Hout & Hr); try done.
  exists m', (Vmm.bytes u'). split_and!; [done|done|exact Hout|].
  set (s1 := mkUsys (fsys s) (um s) (locked s) ({[buffer]} ∪ heap s)). set (s2 := mkUsys (fsys s) (um s) true ({[buffer]} ∪ heap s)).
  set (s3 := mkUsys (set_mem (fsys s) (Vmm.bytes u')) (Some m') true ({[buffer]} ∪ heap s)).
  set (s4 := mkUsys (set_mem (fsys s) (Vmm.bytes u')) (Some m') false ({[buffer]} ∪ heap s)).
  assert (copy_path path s = (if negb r then kfree buffer ;; mret (- E_INVAL, 0) else mret (0, buffer)) s4) as Hcp.
  { unfold copy_path. change (FS_MAX_FPATH_LEN + 1) with 4096. step using (by apply buffer_alloc_run). cbv beta iota.
    step using (by eapply (lock_mm_run s1)). assert (in_uvm (Vmm.copy_string buffer path 4096) s2 = Ret (r, s3)) as Hin.
    { unfold in_uvm. cbn [um fsys s2]. fold u. rewrite Hrun. by rewrite Hm'. }
    step using (exact Hin). by step using reflexivity. }
  destruct r; cbn [negb] in Hcp.
  - destruct Hr as (n & Hn & Hc). right. exists n. split_and!; [done|done|]. pose proof Hn as (Hn1 & [Hn2 Hn3] & _).
    assert (∀ i, 0 ≤ i ≤ n → byte_at (Vmm.bytes u') (buffer + i) = byte_at (mem (fsys s)) (path + i)) as Hc' by exact Hc.
    rewrite (cstring_read _ _ n); [|lia|lia|rewrite Hc' by lia; exact Hn2|intros i Hi; rewrite Hc' by lia; by apply Hn3].
    apply list_eq. intros k. destruct (decide (k < Z.to_nat n)%nat).
    + rewrite !lookup_read by done. by rewrite Hc' by lia.
    + rewrite !lookup_ge_None_2; [done| |]; unfold read_bytes; rewrite length_fmap, length_seqZ; lia.
  - left. split; [done|]. rewrite Hcp. step using (by apply (buffer_free_run s4 (heap s))). done.
Qed.

(** The calls on one path, and the operation that they hand the path to. *)
Definition path_op (c : sys_call) : option (Z * (list Z → M vfs Z)) :=
  match c with
  | COpen path fl => Some (path, λ l, file_open l fl)
  | CDelete path ty => Some (path, λ l, file_delete l ty)
  | CChdir path => Some (path, vfs_chdir)
  | CUnlink path => Some (path, vfs_unlink)
  | CMkdir path => Some (path, file_mkdir)
  | _ => None
  end.

(** C7: A call on a path answers -E_INVAL, with the files and everything else but the buffer unchanged, exactly when no
    string of at most 4095 bytes that the process may read lies at the address; otherwise it is the operation on
    that string, and the buffer is released. *)
Theorem sysfile_path c path f s m buffer :
  path_op c = Some (path, f) → um s = Some m → mm_ok m → Vmm.user_areas m → locked s = false → is_u32 path →
  kaddr (heap s) (FS_MAX_FPATH_LEN + 1) = Some buffer →
  let has_string := Vmm.has_string (Vmm.mkUvm (um s) (mem (fsys s))) path (FS_MAX_FPATH_LEN + 1) in
  ∃ m' b', mm_ok m' ∧ extent <$> areas m' = extent <$> areas m ∧
    (∀ a, ¬ buffer ≤ a < buffer + (FS_MAX_FPATH_LEN + 1) → byte_at b' a = byte_at (mem (fsys s)) a) ∧
    ((∀ n, ¬ has_string n) ∧ run_call c s = Ret (- E_INVAL, mkUsys (set_mem (fsys s) b') (Some m') false (heap s)) ∨
     ∃ n, has_string n ∧
       run_call c s =
         match f (read_bytes (mem (fsys s)) path n) (set_mem (fsys s) b') with
         | Ret (r, v) => Ret (r, mkUsys v (Some m') false (heap s))
         | Err e => Err e
         end).
Proof using KL.
  intros Hop Hm Hok Hua Hlk Hp Hka. destruct (copy_path_run s m path buffer) as (m' & b' & H1 & H2 & H3 & H4); try done.
  exists m', b'. split_and!; try done. pose proof (kaddr_new _ _ _ Hka) as Hnew.
  assert (run_call c s = on_path path f s) as -> by (destruct c; try done; injection Hop as <- <-; done). unfold on_path.
  destruct H4 as [[Hno Hrun]|(n & Hn & Hrun & Hstr)]; [left; split; [done|]|right; exists n; split; [done|]].
  - by step using (exact Hrun).
  - step using (exact Hrun). cbv beta iota. change (negb (0 =? 0)) with false. cbv iota.
    step using reflexivity. cbn [fsys mem set_mem]. rewrite Hstr. unfold mbind at 1, M_bind at 1, in_fs. cbn [fsys].
    destruct (f _ _) as [[r v]|]; [|done]. by step using (by apply (buffer_free_run _ (heap s))).
Qed.

Lemma sysfile_read_run s o fd_ y f ino d F x buffer base len :
  opened (fsys s) fd_ y f ino → readable y = true → backed (fsys s) f ino d F x → 0 ≤ pos y < SFS_MAX_FILE_SIZE →
  um s = o → locked s = false → reach o true base len → 0 ≤ len → kaddr (heap s) IOBUF_SIZE = Some buffer → apart_of buffer base len →
  let n := Z.max 0 (Z.min (pos y + len) (size (din x)) - pos y) in
  ∃ s' o', sysfile_read fd_ base len s = Ret (n, s') ∧ got s o fd_ y d x buffer base n s' o' ∧
    opened (fsys s') fd_ (set_pos (pos y + n) y) f ino ∧ fss (fsys s') = fss (fsys s).
Proof using KL.
  intros Ho Hr Hb Hp Hm Hlk Hreach Hlen Hka Hap n. pose proof (kaddr_new _ _ _ Hka) as Hnew.
  unfold sysfile_read. destruct (Z.eqb_spec len 0) as [Hl0|Hl0].
  { assert (n = 0) as -> by (unfold n; lia). exists s, o. split_and!; [done| |by rewrite set_pos_same by lia|done].
    eapply got_none; try done. by eapply reach_refl. }
  assert (in_fs (file_testfd fd_ true false) s = Ret (true, s)) as Ht.
  { unfold in_fs. erewrite testfd_run by done. by rewrite set_fsys_same. }
  step using (exact Ht). change (negb true) with false. cbv iota. step using (by apply buffer_alloc_run). cbv beta iota.
  set (s0 := mkUsys (fsys s) (um s) (locked s) ({[buffer]} ∪ heap s)). pose proof (reach_bounds _ _ _ _ Hreach) as [Hu1 Hu2].
  destruct (read_loop_run (S (Z.to_nat len)) s0 o fd_ y f ino d F x buffer base len 0) as (s1 & o1 & Hrun & [Hg1 [Hg2 Hg3] Hg4 Hg5]);
    try done; try lia. fold n in Hrun, Hg4, Hg5.
  step using (exact Hrun). cbv beta iota. step using (apply (buffer_free_run s1 (heap s)); [done|done]).
  pose proof Hb as [_ _ _ Hfile _ Hsz _]. pose proof (SfsFile.f_n _ _ _ _ Hfile) as Hnb. unfold SfsFile.NMAX in Hnb.
  assert (0 ≤ n < 2 ^ 31) as Hn by (unfold n; lia).
  eexists _, o1. split.
  { rewrite Z.add_0_l, s32_small by lia. destruct (Z.eqb_spec n 0) as [E0|]; [rewrite E0|]; reflexivity. }
  cbn [fsys um locked heap]. split_and!; [done|rewrite Hg4; by apply opened_move|]. rewrite Hg4. by rewrite put_fd_fss.
Qed.

(** C6: [read] on an open file gives the process exactly the bytes of the file from the position of the descriptor
    on, as many as it asked for and the file has, moves the position behind them, and answers their number; the
    file system, the lock, the kernel heap and every byte of memory other than those and the buffer stay. *)
Theorem sysfile_read_correct s m fd_ y f ino d F x buffer base len :
  opened (fsys s) fd_ y f ino → readable y = true → backed (fsys s) f ino d F x → 0 ≤ pos y < SFS_MAX_FILE_SIZE →
  um s = Some m → mm_ok m → locked s = false → may m true base len → 0 ≤ len → kaddr (heap s) IOBUF_SIZE = Some buffer →
  let n := Z.max 0 (Z.min (pos y + len) (size (din x)) - pos y) in
  ∃ s' m', sysfile_read fd_ base len s = Ret (n, s') ∧
    opened (fsys s') fd_ (set_pos (pos y + n) y) f ino ∧ fss (fsys s') = fss (fsys s) ∧
    um s' = Some m' ∧ mm_ok m' ∧ extent <$> areas m' = extent <$> areas m ∧ locked s' = false ∧ heap s' = heap s ∧
    ∀ a, ¬ buffer ≤ a < buffer + IOBUF_SIZE → byte_at (mem (fsys s')) a =
      if decide (base ≤ a < base + n) then SfsFile.file_byte (disk d) (din x) (pos y + (a - base)) else byte_at (mem (fsys s)) a.
Proof using KL.
  intros Ho Hr Hb Hp Hm Hok Hlk Hmay Hlen Hka n. destruct (kaddr_kernel _ _ _ Hka) as [Hbuf _].
  destruct (sysfile_read_run s (Some m) fd_ y f ino d F x buffer base len) as (s' & o' & Hrun & [[Hu Hsame] [Hl Hh] _ Hmem] & Ho' & Hfs); try done.
  { left. destruct Hmay as (_ & Hu & _). unfold PageTable.USERTOP, PageTable.KERNBASE in *. lia. }
  destruct o' as [m'|]; [|done]. destruct Hsame as [Hok' He]. exists s', m'. split_and!; done.
Qed.

(** C5: [write] of [len] bytes to an open file whose last block is not before the position, up to an end within the
    format's limit of 4144 KB, with enough free blocks and a kernel heap that can give the 4 KB buffer:
    the call answers [len], the file holds the bytes of the process at the position and its other bytes as before,
    the position is behind them, no block in use of another file has changed, and the lock, the kernel heap and
    all memory but the buffer stay as they were. *)
Theorem sysfile_write_correct s m fd_ y f ino d F x buffer base len :
  opened (fsys s) fd_ y f ino → writable y = true → backed (fsys s) f ino d F x → 0 ≤ pos y → pos y / 4096 ≤ nblocks (din x) →
  um s = Some m → mm_ok m → locked s = false → may m false base len → 0 < len → kaddr (heap s) IOBUF_SIZE = Some buffer →
  let e := pos y + len in let N := blocks_for e (nblocks (din x)) in
  e ≤ 4096 * SfsFile.NMAX → SfsFile.cost (din x) N ≤ Z.of_nat (SFS_card F) →
  ∃ s' m' d' F' x', sysfile_write fd_ base len s = Ret (len, s') ∧
    opened (fsys s') fd_ (set_pos e y) f ino ∧ backed (fsys s') f ino d' F' x' ∧
    size (din x') = Z.max (size (din x)) e ∧ nblocks (din x') = N ∧
    (∀ p, 0 ≤ p < 4096 * N → SfsFile.file_byte (disk d') (din x') p =
       if decide (pos y ≤ p < e) then byte_at (mem (fsys s)) (base + (p - pos y))
       else if decide (p < 4096 * nblocks (din x)) then SfsFile.file_byte (disk d) (din x) p else 0) ∧
    (∀ a, a / 4096 ∉ F → ¬ SfsFile.owns (disk d) (din x) (a / 4096) → byte_at (disk d') a = byte_at (disk d) a) ∧
    um s' = Some m' ∧ mm_ok m' ∧ extent <$> areas m' = extent <$> areas m ∧ locked s' = false ∧ heap s' = heap s ∧
    ∀ a, ¬ buffer ≤ a < buffer + IOBUF_SIZE → byte_at (mem (fsys s')) a = byte_at (mem (fsys s)) a.
Proof using KL.
  intros Ho Hw Hb Hp Hpn Hm Hok Hlk Hmay Hlen Hka e N He Hcost. destruct (kaddr_kernel _ _ _ Hka) as [Hbuf _].
  pose proof (kaddr_new _ _ _ Hka) as Hnew. unfold sysfile_write. rewrite (proj2 (Z.eqb_neq len 0)) by lia.
  assert (in_fs (file_testfd fd_ false true) s = Ret (true, s)) as Ht.
  { unfold in_fs. erewrite testfd_run by done. by rewrite set_fsys_same. }
  step using (exact Ht). change (negb true) with false. cbv iota. step using (by apply buffer_alloc_run). cbv beta iota.
  set (s0 := mkUsys (fsys s) (um s) (locked s) ({[buffer]} ∪ heap s)). change (4096 * SfsFile.NMAX) with 4243456 in He. unfold e in He.
  destruct (write_loop_run (S (Z.to_nat len)) s0 m fd_ y f ino d F x buffer base len 0) as (s1 & m1 & d1 & F1 & x1 & Hrun & Hg & Hst);
    try done; try lia. pose proof Hg as [Hg1 [Hg2 Hg3] Hg4 Hg5]. fold e in Hg4. fold e N in Hst.
  step using (exact Hrun). cbv beta iota. step using (apply (buffer_free_run s1 (heap s)); [done|done]).
  pose proof (length_read (mem (fsys s)) base len ltac:(lia)) as Hrl.
  assert (backed (fsys s1) f ino d1 F1 x1) as Hb1 by (rewrite Hg4; by eapply backed_stored).
  eexists _, m1, d1, F1, x1. split.
  { rewrite Z.add_0_l, s32_small by lia. rewrite (proj2 (Z.eqb_neq len 0)) by lia. reflexivity. }
  cbn [fsys um locked heap]. split_and!; try done.
  - rewrite Hg4. by apply opened_write.
  - rewrite (st_end _ _ _ _ _ _ _ _ _ _ Hst). cbn [fsys s0]. by rewrite Hrl.
  - apply (st_n _ _ _ _ _ _ _ _ _ _ Hst).
  - intros p Hp'. rewrite (st_bytes _ _ _ _ _ _ _ _ _ _ Hst p Hp'). cbn [fsys s0]. rewrite Hrl. fold e.
    destruct (decide (pos y ≤ p < e)) as [Hin|]; [|done]. apply list_lookup_total_correct. unfold e in Hin. rewrite lookup_read by lia.
    do 2 f_equal. lia.
  - apply (st_frame _ _ _ _ _ _ _ _ _ _ Hst).
  - apply Hg1.
  - apply Hg1.
  - apply Hg1.
Qed.

End sysfile.

(** * An example: a process with a text area and a stack, and a file of three bytes open as descriptor 3 *)

#[local] Instance demo_heap : heap_env := {| heap_addr := λ _ _, Some 0; heap_bytes := λ _, replicate 4096 0; undef := 0 |}.
#[local] Instance demo_devs : dev_ops unit :=
  {| dv_blocks := λ _, 0; dv_blocksize := λ _, 1; d_open := λ _ _, mret 0; d_close := λ _, mret 0; d_io := λ _ _ x, mret (0, x) |}.
(** A heap with one page. *)
#[local] Instance demo_kheap : kheap :=
  {| kaddr := λ H n, if bool_decide (0xC1000000 ∉ H ∧ n ≤ 4096) then Some 0xC1000000 else None |}.
#[local] Instance demo_kheap_laws : kheap_laws.
Proof. split; intros H n a; simpl; case_bool_decide as Hd; try done; intros [= <-]; unfold PageTable.KERNBASE; [lia|tauto]. Qed.

Definition demo_file : sfs_inode := mkSin (mkDin 3 SFS_TYPE_FILE 1 1 (7 :: replicate 11 0) 0) false 1 1 1.
Definition demo_disk : gmap Z Z := {[ 28672 := 104; 28673 := 105; 28674 := 10 ]}.
Definition demo_sfs : sfs_fs := set_inodes (set_disk SfsFile.demo_fs demo_disk) {[5 := demo_file]}.
Definition demo_fd : file := mkFile FD_OPENED true true 3 0 (Some (NSfs 0 5)) 1.
Definition demo_files : vfs (D := unit) :=
  mkVfs {[0 := demo_sfs]} [] ∅ None {[0 := mkFiles None (<[3%nat := demo_fd]> fd_array_init) 1]} 0
    {[ 0x800000 := 108; 0x800001 := 115; 0x800002 := 0 ]} tt.
Definition demo_user : usys (D := unit) := mkUsys demo_files (Some demo_mm) false ∅.

Lemma demo_opened : opened (fsys demo_user) 3 demo_fd 0 5.
Proof. split; try done. exists (mkFiles None (<[3%nat := demo_fd]> fd_array_init) 1). split_and!; done. Qed.

Lemma demo_backed : backed (fsys demo_user) 0 5 demo_sfs SfsFile.demo_F demo_file.
Proof.
  split; try done.
  - apply SfsFile.fs_ok_inodes, SfsFile.fs_ok_disk, SfsFile.demo_fs_ok.
  - assert (∀ i, 1 ≤ i < 12 → SfsFile.bmap demo_disk (din demo_file) i = 0) as Hz.
    { intros i Hi. unfold SfsFile.bmap. rewrite decide_True by lia. cbn [direct din demo_file].
      replace (Z.to_nat i) with (S (Z.to_nat (i - 1))) by lia. apply (lookup_total_replicate_2 11). lia. }
    split; cbn [nblocks din demo_file indirect]; try done; try lia.
    + intros i Hi. assert (i = 0) as -> by lia. split; [by vm_compute|]. apply (bool_decide_unpack (7 ∉ SfsFile.demo_F)). by vm_compute.
    + intros i Hi. destruct (decide (i < 12)); [apply Hz; lia|]. unfold SfsFile.bmap. by rewrite decide_False by lia.
    + intros i Hi. assert (i = 0) as -> by lia. by vm_compute.
Qed.

Lemma demo_may w base len : 0xAFF01000 ≤ base → base + len ≤ 0xB0000000 → may demo_mm w base len.
Proof.
  intros H1 H2. unfold may, PageTable.USERBASE, PageTable.USERTOP. split_and!; [lia|lia|]. intros x Hx. apply Exists_exists.
  exists demo_stack. split; [apply list_elem_of_In; vm_compute; tauto|]. unfold allows, contains. cbn [vm_start vm_end vm_flags demo_stack].
  rewrite (proj2 (Z.leb_le _ _)), (proj2 (Z.ltb_lt _ _)) by lia. split_and!; [done|by destruct w|]. intros _ _. change PGSIZE with 4096. lia.
Qed.

Lemma sysfile_read_correct_witness :
  ∃ s', sysfile_read 3 0xAFF02000 100 demo_user = Ret (3, s') ∧ byte_at (mem (fsys s')) 0xAFF02001 = 105.
Proof.
  destruct (sysfile_read_correct demo_user demo_mm 3 demo_fd 0 5 demo_sfs SfsFile.demo_F demo_file 0xC1000000 0xAFF02000 100)
    as (s' & m' & Hrun & _ & _ & _ & _ & _ & _ & _ & Hm).
  - apply demo_opened.
  - done.
  - apply demo_backed.
  - done.
  - done.
  - apply demo_mm_ok.
  - done.
  - apply demo_may; lia.
  - lia.
  - by vm_compute.
  - exists s'. split; [exact Hrun|]. rewrite Hm by (unfold IOBUF_SIZE; lia). by vm_compute.
Defined.

Lemma sysfile_write_correct_witness :
  ∃ s' m' d' x', sysfile_write 3 0xAFF02000 5000 demo_user = Ret (5000, s') ∧ um s' = Some m' ∧ nblocks (din x') = 2 ∧
    SfsFile.file_byte (disk d') (din x') 1 = 0.
Proof.
  destruct (sysfile_write_correct demo_user demo_mm 3 demo_fd 0 5 demo_sfs SfsFile.demo_F demo_file 0xC1000000 0xAFF02000 5000)
    as (s' & m' & d' & F' & x' & Hrun & _ & _ & _ & Hn & Hby & _ & Hm & _).
  - apply demo_opened.
  - done.
  - apply demo_backed.
  - done.
  - done.
  - done.
  - apply demo_mm_ok.
  - done.
  - apply demo_may; lia.
  - lia.
  - by vm_compute.
  - by vm_compute.
  - by vm_compute.
  - exists s', m', d', x'. split; [exact Hrun|]. split; [exact Hm|]. split; [exact Hn|].
    rewrite (Hby 1); [|split; [lia|by vm_compute]]. by vm_compute.
Defined.

Lemma sysfile_restores_witness : ∃ s', run_call 0 (CRead 3 0xAFF02000 2) demo_user = Ret (2, s') ∧ heap s' = ∅.
Proof.
  destruct (run_call 0 (CRead 3 0xAFF02000 2) demo_user) as [[r s']|] eqn:E0; [|by vm_compute in E0].
  exists s'. split; [|apply (sysfile_restores 0 (CRead 3 0xAFF02000 2) demo_user r s' E0)].
  assert (fst <$> run_call 0 (CRead 3 0xAFF02000 2) demo_user = Ret 2) as E1 by (vm_compute; reflexivity).
  rewrite E0 in E1. by injection E1 as ->.
Defined.

(** Address 0x700000 is in no area. *)
Lemma sysfile_path_witness : ∃ s', run_call 0 (CMkdir 0x700000) demo_user = Ret (- E_INVAL, s') ∧ heap s' = ∅.
Proof.
  destruct (sysfile_path 0 (CMkdir 0x700000) 0x700000 file_mkdir demo_user demo_mm 0xC1000000)
    as (m' & b' & _ & _ & _ & [[_ Hrun]|(n & Hn & _)]).
  - done.
  - done.
  - apply demo_mm_ok.
  - intros v Hv. unfold areas in Hv. cbn in Hv. set_unfold in Hv. destruct Hv as [->|[->|[]]]; vm_compute; intuition discriminate.
  - done.
  - by split.
  - by vm_compute.
  - eexists. split; [exact Hrun|done].
  - exfalso. destruct Hn as (Hn & _ & Hr). destruct (Hr 0x700000) as (m & Hm & Hrd); [lia|]. injection Hm as <-.
    unfold Vmm.readable in Hrd. apply Exists_exists in Hrd as (v & Hv & Hc & _). unfold areas in Hv. cbn in Hv. set_unfold in Hv.
    destruct Hv as [->|[->|[]]]; by vm_compute in Hc.
Defined.

End Sysfile.
