(* ===== verification/Opens.v ===== *)
(** The open count of an inode is the number of open descriptors that refer to it.

    First: no operation of the simple file system changes an open count, but for the two that are meant
    to.  Then the same for the virtual file system, where opening and closing add and take one.  Then
    the descriptor tables: every system call on files keeps count and descriptors equal. *)
From S2P Require Import Prelude Bitmap SfsDisk Iobuf SfsInode SfsDir Vfs File.

Module Opens.
Import Bitmap SfsDisk Iobuf SfsInode SfsDir Vfs File.
Set Default Proof Using "Type".

(** * The simple file system *)

Definition sfs_opens (s : sfs_fs) (i : Z) : Z := from_option open_count 0 (inodes s !! i).

(** The action changes no open count. *)
Definition quiet {A} (m : M sfs_fs A) : Prop :=
  ∀ s a s', m s = Ret (a, s') → ∀ i, sfs_opens s' i = sfs_opens s i.

Create HintDb quiet.

Lemma quiet_bind {A B} (m : M sfs_fs A) (f : A → M sfs_fs B) : quiet m → (∀ a, quiet (f a)) → quiet (m ≫= f).
Proof. intros Hm Hf s b s' (a & s1 & H1 & H2)%M_bind_Ret i. by rewrite (Hf _ _ _ _ H2), (Hm _ _ _ H1). Qed.

Lemma quiet_ret {A} (a : A) : quiet (mret a).
Proof. by intros s b s' [= <- <-]. Qed.
Lemma quiet_get : quiet get.
Proof. by intros s b s' [= <- <-]. Qed.
Lemma quiet_fail {A} e : quiet (A := A) (fail e).
Proof. done. Qed.
Lemma quiet_assert b : quiet (assert b).
Proof. intros s a s'. unfold assert. destruct b; [|done]. by intros [= <- <-]. Qed.
Lemma quiet_deref {A} (f : sfs_fs → option A) : quiet (deref f).
Proof. intros s a s'. unfold deref. destruct (f s); [|done]. by intros [= <- <-]. Qed.
Lemma quiet_when b m : quiet m → quiet (when b m).
Proof. intros Hm. destruct b; [done|apply quiet_ret]. Qed.
Lemma quiet_modify f : (∀ s, inodes (f s) = inodes s) → quiet (modify f).
Proof. intros Hf s a s' [= <- <-] i. unfold sfs_opens. by rewrite Hf. Qed.
Lemma quiet_fm {A} (m : M bitmap A) : quiet (fm m).
Proof. intros s a s'. unfold fm. destruct (m (freemap s)) as [[b x]|]; [|done]. by intros [= <- <-]. Qed.

#[local] Hint Resolve quiet_ret quiet_get quiet_fail quiet_assert quiet_deref quiet_fm : quiet.

(** Steps through the structure of an action. *)
Ltac quiet_step :=
  match goal with
  | |- ∀ _, _ => intros ?
  | |- quiet (mbind _ _) => apply quiet_bind
  | |- quiet (when _ _) => apply quiet_when
  | |- quiet (modify _) => apply quiet_modify; intros ?; reflexivity
  | |- quiet (if ?b then _ else _) => destruct b
  | |- quiet (match ?x with _ => _ end) => destruct x
  | |- quiet _ => solve [eauto with quiet nocore]
  end.
Ltac quiet := repeat quiet_step.

Lemma quiet_upd i f : (∀ x, open_count (f x) = open_count x) → quiet (sin_upd i f).
Proof.
  intros Hf s a s' (x & s1 & H1 & H2)%M_bind_Ret. unfold sin_at, deref in H1. destruct (inodes s !! i) as [y|] eqn:Hi; [|done].
  injection H1 as -> ->. unfold sin_set, modify in H2. injection H2 as <- <-. intros j. unfold sfs_opens. cbn [inodes set_inodes].
  destruct (decide (i = j)) as [->|]; [by rewrite lookup_insert_eq, Hi; simpl|by rewrite lookup_insert_ne].
Qed.

Ltac quiet_upd := apply quiet_upd; intros []; reflexivity.

Section sfs.
Context `{E : heap_env}.

Lemma quiet_kmalloc n : quiet (kmalloc n).
Proof. intros s a s'. unfold kmalloc. unM. by intros [= <- <-]. Qed.
Lemma quiet_kfree : quiet kfree.
Proof. intros s a s'. unfold kfree. unM. by intros [= <- <-]. Qed.
Lemma quiet_sin_at i : quiet (sin_at i).
Proof. unfold sin_at. quiet. Qed.
Lemma quiet_din_of i : quiet (din_of i).
Proof. unfold din_of. quiet. Qed.
Lemma quiet_din_upd i f : quiet (din_upd i f).
Proof. unfold din_upd. quiet_upd. Qed.
Lemma quiet_dirty i b : quiet (sin_upd i (set_dirty b)).
Proof. quiet_upd. Qed.
Lemma quiet_reclaim i n : quiet (sin_upd i (set_reclaim n)).
Proof. quiet_upd. Qed.
Lemma quiet_reclaim' i f : quiet (sin_upd i (λ x, set_reclaim (f x) x)).
Proof. quiet_upd. Qed.
Lemma quiet_ref i n : quiet (sin_upd i (set_ref n)).
Proof. quiet_upd. Qed.
Lemma quiet_ref' i f : quiet (sin_upd i (λ x, set_ref (f x) x)).
Proof. quiet_upd. Qed.
#[local] Hint Resolve quiet_kmalloc quiet_kfree quiet_sin_at quiet_din_of quiet_din_upd quiet_dirty quiet_reclaim quiet_reclaim' quiet_ref quiet_ref' : quiet.

Lemma quiet_inode_check i d f : quiet (inode_check i d f).
Proof. unfold inode_check. quiet. Qed.
Lemma quiet_ref_inc i : quiet (inode_ref_inc i).
Proof. unfold inode_ref_inc. quiet. Qed.
Lemma quiet_inuse i : quiet (sfs_block_inuse i).
Proof. unfold sfs_block_inuse. quiet. Qed.
#[local] Hint Resolve quiet_inode_check quiet_ref_inc quiet_inuse : quiet.

Lemma quiet_check_blkno b c : quiet (check_blkno b c).
Proof. unfold check_blkno. quiet. Qed.
#[local] Hint Resolve quiet_check_blkno : quiet.
Lemma quiet_rblock_nolock b c : quiet (sfs_rblock_nolock b c).
Proof. unfold sfs_rblock_nolock. quiet. Qed.
Lemma quiet_wblock_nolock l b c : quiet (sfs_wblock_nolock l b c).
Proof. unfold sfs_wblock_nolock. quiet. Qed.
#[local] Hint Resolve quiet_rblock_nolock quiet_wblock_nolock : quiet.
Lemma quiet_rblock n : ∀ b, quiet (sfs_rblock b n).
Proof. induction n; intros b; simpl; quiet. Qed.
Lemma quiet_wblock n : ∀ l b, quiet (sfs_wblock l b n).
Proof. induction n; intros l b; simpl; quiet. Qed.
Lemma quiet_clear n : ∀ b, quiet (sfs_clear_block b n).
Proof. induction n; intros b; cbn [sfs_clear_block]; quiet. Qed.
Lemma quiet_rbuf n b o : quiet (sfs_rbuf n b o).
Proof. unfold sfs_rbuf, check_range. quiet. Qed.
Lemma quiet_wbuf l b o : quiet (sfs_wbuf l b o).
Proof. unfold sfs_wbuf, check_range. quiet. Qed.
Lemma quiet_sync_super : quiet sfs_sync_super.
Proof. unfold sfs_sync_super. quiet. Qed.
#[local] Hint Resolve quiet_rblock quiet_wblock quiet_clear quiet_rbuf quiet_wbuf quiet_sync_super : quiet.
Lemma quiet_sync_freemap : quiet sfs_sync_freemap.
Proof. unfold sfs_sync_freemap. quiet. Qed.
Lemma quiet_block_alloc : quiet sfs_block_alloc.
Proof. unfold sfs_block_alloc. quiet. Qed.
Lemma quiet_block_free i : quiet (sfs_block_free i).
Proof. unfold sfs_block_free. quiet. Qed.
#[local] Hint Resolve quiet_sync_freemap quiet_block_alloc quiet_block_free : quiet.

Lemma quiet_bmap_get_sub e i c : quiet (sfs_bmap_get_sub_nolock e i c).
Proof. unfold sfs_bmap_get_sub_nolock. quiet. Qed.
#[local] Hint Resolve quiet_bmap_get_sub : quiet.
Lemma quiet_bmap_get n i c : quiet (sfs_bmap_get_nolock n i c).
Proof. unfold sfs_bmap_get_nolock. quiet. Qed.
Lemma quiet_bmap_free_sub e i : quiet (sfs_bmap_free_sub_nolock e i).
Proof. unfold sfs_bmap_free_sub_nolock. quiet. Qed.
#[local] Hint Resolve quiet_bmap_get quiet_bmap_free_sub : quiet.
Lemma quiet_bmap_free n i : quiet (sfs_bmap_free_nolock n i).
Proof. unfold sfs_bmap_free_nolock. quiet. Qed.
Lemma quiet_bmap_load n i : quiet (sfs_bmap_load_nolock n i).
Proof. unfold sfs_bmap_load_nolock. quiet. Qed.
#[local] Hint Resolve quiet_bmap_free quiet_bmap_load : quiet.
Lemma quiet_bmap_truncate n : quiet (sfs_bmap_truncate_nolock n).
Proof. unfold sfs_bmap_truncate_nolock. quiet. Qed.
#[local] Hint Resolve quiet_bmap_truncate : quiet.

Lemma quiet_io_chunk n w wh l a b z o : quiet (io_chunk n w wh l a b z o).
Proof. unfold io_chunk. quiet. Qed.
#[local] Hint Resolve quiet_io_chunk : quiet.
Lemma quiet_io_blocks n w k : ∀ l a b, quiet (io_blocks n w k l a b).
Proof. induction k; intros l a b; cbn [io_blocks]; quiet. Qed.
#[local] Hint Resolve quiet_io_blocks : quiet.
Lemma quiet_io_tail n w l a b k e : quiet (io_tail n w l a b k e).
Proof. unfold io_tail. quiet. Qed.
#[local] Hint Resolve quiet_io_tail : quiet.
Lemma quiet_io_phases n w l o e : quiet (io_phases n w l o e).
Proof. unfold io_phases. quiet. Qed.
#[local] Hint Resolve quiet_io_phases : quiet.
Lemma quiet_io_nolock n l o k w : quiet (sfs_io_nolock n l o k w).
Proof. unfold sfs_io_nolock. quiet. Qed.
#[local] Hint Resolve quiet_io_nolock : quiet.
Lemma quiet_sfs_io n w mi : quiet (sfs_io n w mi).
Proof. unfold sfs_io. quiet. Qed.
Lemma quiet_gettype n : quiet (sfs_gettype n).
Proof. unfold sfs_gettype. quiet. Qed.
#[local] Hint Resolve quiet_sfs_io quiet_gettype : quiet.
Lemma quiet_fstat n : quiet (sfs_fstat n).
Proof. unfold sfs_fstat. quiet. Qed.
Lemma quiet_fsync n : quiet (sfs_fsync n).
Proof. unfold sfs_fsync. quiet. Qed.
#[local] Hint Resolve quiet_fstat quiet_fsync : quiet.
Lemma quiet_vop_fsync n : quiet (SfsInode.vop_fsync n).
Proof. unfold SfsInode.vop_fsync. quiet. Qed.
Lemma quiet_grow n k : ∀ b, quiet (grow_loop n k b).
Proof. induction k; intros b; cbn [grow_loop]; quiet. Qed.
Lemma quiet_shrink n k : quiet (shrink_loop n k).
Proof. induction k; cbn [shrink_loop]; quiet. Qed.
#[local] Hint Resolve quiet_vop_fsync quiet_grow quiet_shrink : quiet.
Lemma quiet_truncfile n l : quiet (sfs_truncfile n l).
Proof. unfold sfs_truncfile. quiet. Qed.
#[local] Hint Resolve quiet_truncfile : quiet.
Lemma quiet_vop_truncate n l : quiet (SfsInode.vop_truncate n l).
Proof. unfold SfsInode.vop_truncate. quiet. Qed.
#[local] Hint Resolve quiet_vop_truncate : quiet.
Lemma quiet_tryseek n p : quiet (sfs_tryseek n p).
Proof. unfold sfs_tryseek. quiet. Qed.

(** Only an inode without openings is given up. *)
Lemma quiet_kill n : quiet (inode_kill n).
Proof.
  intros s a s' H i. unfold inode_kill, sin_at in H. unM. destruct (inodes s !! n) as [x|] eqn:Hn; [|done].
  destruct (ref_count x =? 0); [|done]. destruct (open_count x =? 0) eqn:Ho; [|done]. z_bool. unfold kfree, modify in H. injection H as <- <-.
  unfold sfs_opens. cbn [inodes set_inodes set_allocs]. destruct (decide (n = i)) as [->|].
  - rewrite lookup_delete_eq, Hn. simpl. lia.
  - by rewrite lookup_delete_ne.
Qed.
#[local] Hint Resolve quiet_tryseek quiet_kill : quiet.
Lemma quiet_sfs_reclaim n : quiet (sfs_reclaim n).
Proof. unfold sfs_reclaim. quiet. Qed.
#[local] Hint Resolve quiet_sfs_reclaim : quiet.
Lemma quiet_ref_dec n : quiet (inode_ref_dec n).
Proof. unfold inode_ref_dec. quiet. Qed.
#[local] Hint Resolve quiet_ref_dec : quiet.

(** A new inode has no openings, as has one that is not in memory. *)
Lemma create_inode_opens d i s a s' :
  inodes s !! i = None → sfs_create_inode d i s = Ret (a, s') → ∀ j, sfs_opens s' j = sfs_opens s j.
Proof.
  intros Hi (k & s1 & H1 & H2)%M_bind_Ret j.
  assert (inodes s1 = inodes s) as Hs1 by (unfold kmalloc in H1; unM; by injection H1 as <- <-).
  destruct k as [p|]; [|by injection H2 as <- <-; unfold sfs_opens; rewrite Hs1].
  unfold sfs_get_ops, sin_set in H2. unM. destruct (_ || _); [|done]. injection H2 as <- <-.
  unfold sfs_opens. cbn [inodes set_inodes]. rewrite Hs1. destruct (decide (i = j)) as [->|].
  - by rewrite lookup_insert_eq, Hi.
  - by rewrite lookup_insert_ne.
Qed.

(** The actions before it leave the inodes alone. *)
Definition still {A} (m : M sfs_fs A) : Prop := ∀ s a s', m s = Ret (a, s') → inodes s' = inodes s.

Lemma still_bind {A B} (m : M sfs_fs A) (f : A → M sfs_fs B) : still m → (∀ a, still (f a)) → still (m ≫= f).
Proof. intros Hm Hf s b s' (a & s1 & H1 & H2)%M_bind_Ret. by rewrite (Hf _ _ _ _ H2), (Hm _ _ _ H1). Qed.

Lemma still_inuse i : still (sfs_block_inuse i).
Proof.
  intros s a s' H. unfold sfs_block_inuse, fm in H. unM. destruct (_ && _); [|done].
  destruct (bitmap_test i (freemap s)) as [[b x]|]; [|done]. by injection H as <- <-.
Qed.

Lemma still_rbuf n b o : still (sfs_rbuf n b o).
Proof.
  intros s a s' H. unfold sfs_rbuf, sfs_rblock_nolock, check_blkno, check_range in H. unM.
  repeat (destruct (_ && _); [|done]). by injection H as <- <-.
Qed.

Lemma quiet_load_inode i : quiet (sfs_load_inode i).
Proof.
  intros s a s' (found & s1 & H1 & H2)%M_bind_Ret. assert (quiet (lookup_sfs_nolock i)) as Hq.
  { unfold lookup_sfs_nolock. quiet. }
  pose proof (Hq _ _ _ H1) as Hs1. destruct found; [by injection H2 as <- <-|].
  assert (inodes s1 !! i = None) as Hi.
  { unfold lookup_sfs_nolock in H1. apply M_bind_Ret in H1 as (s0 & s2 & [= <- <-] & H1). destruct (inodes s !! i) eqn:Ei.
    - apply M_bind_Ret in H1 as (n & s3 & _ & H1). apply M_bind_Ret in H1 as ([] & s4 & _ & H1). done.
    - by injection H1 as <-. }
  clear H1. intros j. rewrite <-Hs1. clear Hs1 Hq. apply M_bind_Ret in H2 as (k & s2 & Hk & H2).
  assert (inodes s2 = inodes s1) as Hs2 by (unfold kmalloc in Hk; unM; by injection Hk as <- <-).
  destruct k as [p|]; [|injection H2 as <- <-; unfold sfs_opens; by rewrite Hs2].
  apply M_bind_Ret in H2 as (b & s3 & Hb & H2). apply still_inuse in Hb.
  apply M_bind_Ret in H2 as ([] & s4 & Ha & H2). assert (s4 = s3) as -> by (unfold assert in Ha; destruct b; [by injection Ha|done]).
  apply M_bind_Ret in H2 as ([ret l] & s5 & Hr & H2). apply still_rbuf in Hr.
  assert (inodes s5 = inodes s1) as Hs5 by congruence. destruct (negb (ret =? 0)).
  - apply M_bind_Ret in H2 as ([] & s6 & Hf & [= <- <-]). injection Hf as <-. unfold sfs_opens. cbn [inodes set_allocs]. by rewrite Hs5.
  - apply M_bind_Ret in H2 as ([] & s6 & Ha2 & H2).
    assert (s6 = s5) as -> by (unfold assert in Ha2; destruct (negb _); [by injection Ha2|done]).
    apply M_bind_Ret in H2 as (ret2 & s7 & Hc & H2). transitivity (sfs_opens s7 j).
    { destruct (negb (ret2 =? 0)); [apply M_bind_Ret in H2 as ([] & s8 & Hf & [= <- <-]); by injection Hf as <-|by injection H2 as <- <-]. }
    rewrite (create_inode_opens _ _ _ _ _ ltac:(by rewrite Hs5) Hc). unfold sfs_opens. by rewrite Hs5.
Qed.
#[local] Hint Resolve quiet_load_inode : quiet.

Lemma quiet_dirent_read n i : quiet (sfs_dirent_read_nolock n i).
Proof. unfold sfs_dirent_read_nolock. quiet. Qed.
#[local] Hint Resolve quiet_dirent_read : quiet.
Lemma quiet_search_loop n l k : ∀ i e, quiet (search_loop n l k i e).
Proof. induction k; intros i e; cbn [search_loop]; quiet. Qed.
#[local] Hint Resolve quiet_search_loop : quiet.
Lemma quiet_search n l : quiet (sfs_dirent_search_nolock n l).
Proof. unfold sfs_dirent_search_nolock. quiet. Qed.
Lemma quiet_findino_loop n j k : ∀ i, quiet (findino_loop n j k i).
Proof. induction k; intros i; cbn [findino_loop]; quiet. Qed.
#[local] Hint Resolve quiet_search quiet_findino_loop : quiet.
Lemma quiet_findino n j : quiet (sfs_dirent_findino_nolock n j).
Proof. unfold sfs_dirent_findino_nolock. quiet. Qed.
Lemma quiet_lookup_once n l : quiet (sfs_lookup_once n l).
Proof. unfold sfs_lookup_once. quiet. Qed.
#[local] Hint Resolve quiet_findino quiet_lookup_once : quiet.
Lemma quiet_name_loop k : ∀ m n p r, quiet (name_loop k m n p r).
Proof. induction k; intros m n p r; cbn [name_loop]; quiet. Qed.
#[local] Hint Resolve quiet_name_loop : quiet.
Lemma quiet_namefile n mi : quiet (sfs_namefile n mi).
Proof. unfold sfs_namefile. quiet. Qed.
Lemma quiet_getdirentry_loop n k : ∀ j i, quiet (getdirentry_loop n j k i).
Proof. induction k; intros j i; cbn [getdirentry_loop]; quiet. Qed.
#[local] Hint Resolve quiet_getdirentry_loop : quiet.
Lemma quiet_getdirentry n mi : quiet (sfs_getdirentry n mi).
Proof. unfold sfs_getdirentry, sfs_getdirentry_sub_nolock. quiet. Qed.
Lemma quiet_sfs_lookup n l : quiet (sfs_lookup n l).
Proof. unfold sfs_lookup. quiet. Qed.
Lemma quiet_flush n r : quiet (flush n r).
Proof. unfold flush. quiet. Qed.
#[local] Hint Resolve quiet_flush : quiet.
Lemma quiet_create n l : quiet (sfs_create n l).
Proof. unfold sfs_create. quiet. Qed.
Lemma quiet_mkdir n l : quiet (sfs_mkdir n l).
Proof. unfold sfs_mkdir. quiet. Qed.
Lemma quiet_entry_replace n a b : quiet (sfs_dir_entry_replace n a b).
Proof. unfold sfs_dir_entry_replace. quiet. Qed.
#[local] Hint Resolve quiet_entry_replace : quiet.
Lemma quiet_delete_entry n l i r : quiet (delete_entry n l i r).
Proof. unfold delete_entry. quiet. Qed.
Lemma quiet_delete_loop n k : quiet (delete_loop n k).
Proof. induction k; cbn [delete_loop]; quiet. Qed.
#[local] Hint Resolve quiet_delete_entry quiet_delete_loop : quiet.
Lemma quiet_delete n l t : quiet (sfs_delete n l t).
Proof. unfold sfs_delete. quiet. Qed.
Lemma quiet_rename n l1 l2 : quiet (sfs_rename n l1 l2).
Proof. unfold sfs_rename. quiet. Qed.
Lemma quiet_sync_inodes l : quiet (sync_inodes l).
Proof. induction l; cbn [sync_inodes]; quiet. Qed.
#[local] Hint Resolve quiet_sync_inodes : quiet.
Lemma quiet_sync : quiet sfs_sync.
Proof. unfold sfs_sync. quiet. Qed.
#[local] Hint Resolve quiet_sync : quiet.
Lemma quiet_get_root : quiet sfs_get_root.
Proof. unfold sfs_get_root. quiet. Qed.
Lemma quiet_cleanup k : quiet (cleanup_loop k).
Proof. induction k; cbn [cleanup_loop]; quiet. Qed.

(** The two operations that change it. *)
Lemma open_inc_opens i s a s' j :
  inode_open_inc i s = Ret (a, s') → sfs_opens s' j = sfs_opens s j + (if decide (j = i) then 1 else 0).
Proof.
  intros H. unfold inode_open_inc, sin_upd, sin_set, sin_at in H. unM. destruct (inodes s !! i) as [x|] eqn:Hi; [|done].
  cbn [inodes set_inodes] in H. rewrite lookup_insert_eq in H. injection H as <- <-. unfold sfs_opens. cbn [inodes set_inodes].
  destruct (decide (j = i)) as [->|]; [rewrite lookup_insert_eq, Hi; done|rewrite lookup_insert_ne by done; lia].
Qed.

Lemma open_dec_opens i s a s' j :
  inode_open_dec i s = Ret (a, s') → sfs_opens s' j = sfs_opens s j - (if decide (j = i) then 1 else 0).
Proof.
  intros (x & s1 & H1 & H)%M_bind_Ret. unfold sin_at, deref in H1. destruct (inodes s !! i) as [y|] eqn:Hi; [|done]. injection H1 as -> ->.
  apply M_bind_Ret in H as ([] & s2 & Ha & H). assert (s2 = s1) as -> by (unfold assert in Ha; destruct (_ <? _); [by injection Ha|done]).
  apply M_bind_Ret in H as ([] & s3 & Hu & H). apply M_bind_Ret in Hu as (y & s4 & Hy & Hu).
  unfold sin_at, deref in Hy. rewrite Hi in Hy. injection Hy as <- <-. unfold sin_set, modify in Hu. injection Hu as <-.
  assert (sfs_opens s' j = sfs_opens (set_inodes s1 (<[i := set_open (open_count x - 1) x]> (inodes s1))) j) as ->.
  { match type of H with ?m ?st = _ => assert (quiet m) as Hq; [unfold sfs_close; quiet|apply (Hq _ _ _ H)] end. }
  unfold sfs_opens. cbn [inodes set_inodes].
  destruct (decide (j = i)) as [->|]; [rewrite lookup_insert_eq, Hi; done|rewrite lookup_insert_ne by done; lia].
Qed.

End sfs.

#[export] Hint Resolve quiet_ret quiet_get quiet_fail quiet_assert quiet_deref quiet_fm quiet_kmalloc quiet_kfree quiet_sin_at quiet_din_of quiet_din_upd quiet_dirty quiet_reclaim quiet_reclaim' quiet_ref quiet_ref' quiet_inode_check quiet_ref_inc quiet_inuse quiet_check_blkno quiet_rblock_nolock quiet_wblock_nolock quiet_rblock quiet_wblock quiet_clear quiet_rbuf quiet_wbuf quiet_sync_super quiet_sync_freemap quiet_block_alloc quiet_block_free quiet_bmap_get_sub quiet_bmap_get quiet_bmap_free_sub quiet_bmap_free quiet_bmap_load quiet_bmap_truncate quiet_io_chunk quiet_io_blocks quiet_io_tail quiet_io_phases quiet_io_nolock quiet_sfs_io quiet_gettype quiet_fstat quiet_fsync quiet_vop_fsync quiet_grow quiet_shrink quiet_truncfile quiet_vop_truncate quiet_tryseek quiet_kill quiet_sfs_reclaim quiet_ref_dec quiet_load_inode quiet_dirent_read quiet_search_loop quiet_search quiet_findino_loop quiet_findino quiet_lookup_once quiet_name_loop quiet_namefile quiet_getdirentry_loop quiet_getdirentry quiet_sfs_lookup quiet_flush quiet_create quiet_mkdir quiet_entry_replace quiet_delete_entry quiet_delete_loop quiet_delete quiet_rename quiet_sync_inodes quiet_sync quiet_get_root quiet_cleanup : quiet.

(** * The virtual file system *)

Section vfs.
Context `{E : heap_env} {D : Type} `{DV : dev_ops D}.

Notation vfs := (vfs (D := D)).

Definition opens (s : vfs) (n : node) : Z :=
  match n with
  | NSfs f i => from_option (λ x, sfs_opens x i) 0 (fss s !! f)
  | NDev d => from_option snd 0 (dev_counts s !! d)
  end.

(** The descriptor tables. *)
Definition fds (s : vfs) : gmap Z (list file) := fd_array <$> filesps s.

Definition one (n k : node) : Z := if decide (n = k) then 1 else 0.

(** The action changes the open counts by [δ], which may depend on its result, and no descriptor. *)
Definition shifts {A} (m : M vfs A) (δ : A → node → Z) : Prop :=
  ∀ s a s', m s = Ret (a, s') → (∀ k, opens s' k = opens s k + δ a k) ∧ fds s' = fds s ∧ filesp s' = filesp s.

Notation vquiet m := (shifts m (λ _ _, 0)).

Lemma shifts_bind {A B} (m : M vfs A) (f : A → M vfs B) δ1 δ :
  shifts m δ1 → (∀ a, shifts (f a) (λ b k, δ b k - δ1 a k)) → shifts (m ≫= f) δ.
Proof.
  intros Hm Hf s b s' (a & s1 & H1 & H2)%M_bind_Ret. destruct (Hm _ _ _ H1) as (A1 & A2 & A3), (Hf _ _ _ _ H2) as (B1 & B2 & B3).
  split_and!; [|congruence|congruence]. intros k. rewrite B1, A1. lia.
Qed.

(** The usual case: the first action is quiet. *)
Lemma shifts_bind_quiet {A B} (m : M vfs A) (f : A → M vfs B) δ : vquiet m → (∀ a, shifts (f a) δ) → shifts (m ≫= f) δ.
Proof.
  intros Hm Hf. eapply shifts_bind; [exact Hm|]. intros a s b s' H. destruct (Hf _ _ _ _ H) as (H1 & H2). split; [|done].
  intros k. rewrite H1. lia.
Qed.

Lemma shifts_ret {A} (a : A) (δ : A → node → Z) : (∀ k, δ a k = 0) → shifts (mret a) δ.
Proof. intros Hd s b s' [= <- <-]. split; [|done]. intros k. rewrite Hd. lia. Qed.
Lemma shifts_ret0 {A} (a : A) : vquiet (mret a).
Proof. by apply shifts_ret. Qed.
Lemma shifts_fail {A} e (δ : A → node → Z) : shifts (fail e) δ.
Proof. done. Qed.

Lemma vquiet_same {A} (m : M vfs A) :
  (∀ s a s', m s = Ret (a, s') → fss s' = fss s ∧ dev_counts s' = dev_counts s ∧ fds s' = fds s ∧ filesp s' = filesp s) → vquiet m.
Proof. intros Hm s a s' H. destruct (Hm _ _ _ H) as (H1 & H2 & H3). split; [|done]. intros []; simpl; rewrite ?H1, ?H2; lia. Qed.

Lemma vquiet_get : vquiet get.
Proof. apply vquiet_same. by intros s a s' [= <- <-]. Qed.
Lemma vquiet_gets {A} (f : vfs → A) : vquiet (gets f).
Proof. apply vquiet_same. by intros s a s' [= <- <-]. Qed.
Lemma vquiet_assert b : vquiet (assert b).
Proof. apply vquiet_same. intros s a s'. unfold assert. destruct b; [|done]. by intros [= <- <-]. Qed.
Lemma vquiet_deref {A} (f : vfs → option A) : vquiet (deref f).
Proof. apply vquiet_same. intros s a s'. unfold deref. destruct (f s); [|done]. by intros [= <- <-]. Qed.
Lemma vquiet_when b (m : M vfs unit) : vquiet m → vquiet (when b m).
Proof. intros Hm. destruct b; [done|apply shifts_ret0]. Qed.
Lemma vquiet_mem f : vquiet (modify (λ s, set_mem s (f s))).
Proof. apply vquiet_same. by intros s a s' [= <- <-]. Qed.
Lemma vquiet_dev_do {A} (m : M D A) : vquiet (dev_do m).
Proof. apply vquiet_same. intros s a s'. unfold dev_do. destruct (m (drivers s)) as [[b d]|]; [|done]. by intros [= <- <-]. Qed.

Lemma fs_do_opens {A} f (m : M sfs_fs A) (δ : A → Z → Z) :
  (∀ x a x', m x = Ret (a, x') → ∀ i, sfs_opens x' i = sfs_opens x i + δ a i) →
  shifts (fs_do f m) (λ a k, match k with NSfs f' i => if decide (f' = f) then δ a i else 0 | NDev _ => 0 end).
Proof.
  intros Hm s a s'. unfold fs_do. destruct (fss s !! f) as [x|] eqn:Hf; [|done].
  destruct (m x) as [[b x']|] eqn:Hx; [|done]. intros [= <- <-]. split; [|done]. intros [f' i|d]; simpl; [|lia].
  destruct (decide (f' = f)) as [->|]; [rewrite lookup_insert_eq, Hf; simpl; by apply Hm|rewrite lookup_insert_ne by done; lia].
Qed.

Lemma vquiet_fs_do {A} f (m : M sfs_fs A) : quiet m → vquiet (fs_do f m).
Proof.
  intros Hm s a s' H. destruct (fs_do_opens f m (λ _ _, 0) ltac:(intros x b x' Hx i; rewrite (Hm _ _ _ Hx); lia) _ _ _ H) as (H1 & H2).
  split; [|done]. intros k. rewrite H1. destruct k; [destruct (decide _)|]; lia.
Qed.

Create HintDb vquiet.
#[local] Hint Resolve shifts_ret0 shifts_fail vquiet_get vquiet_gets vquiet_assert vquiet_deref vquiet_mem vquiet_dev_do : vquiet.

Ltac vq_step :=
  match goal with
  | |- ∀ _, _ => intros ?
  | |- shifts (mbind _ _) _ => apply shifts_bind_quiet
  | |- shifts (when _ _) _ => apply vquiet_when
  | |- shifts (fs_do _ _) _ => apply vquiet_fs_do; quiet
  | |- shifts (if ?b then _ else _) _ => destruct b
  | |- shifts (match ?x with _ => _ end) _ => destruct x
  | |- shifts _ _ => solve [eauto with vquiet nocore]
  end.
Ltac vq := repeat vq_step.

Lemma vquiet_dev_check d b : vquiet (dev_check d b).
Proof. unfold dev_check, counts_at. vq. Qed.
#[local] Hint Resolve vquiet_dev_check : vquiet.
Lemma vquiet_check n a b c : vquiet (vop_check n a b c).
Proof. unfold vop_check. vq. Qed.
#[local] Hint Resolve vquiet_check : vquiet.

(** A device count changes by what its second part changes. *)
Lemma counts_set_opens d c s a s' k :
  counts_set d c s = Ret (a, s') → opens s' k = opens s k + (if decide (k = NDev d) then c.2 - opens s k else 0).
Proof.
  unfold counts_set, modify. intros [= <- <-]. destruct k as [f i|d']; simpl; [lia|].
  destruct (decide (NDev d' = NDev d)) as [[= ->]|Hne].
  - rewrite lookup_insert_eq. simpl. lia.
  - rewrite lookup_insert_ne by congruence. lia.
Qed.

Lemma counts_inv d c s s' : counts_at d s = Ret (c, s') → s' = s ∧ dev_counts s !! d = Some c ∧ opens s (NDev d) = c.2.
Proof. unfold counts_at, deref. destruct (dev_counts s !! d) as [c'|] eqn:Hd; [|done]. intros [= <- <-]. simpl. by rewrite Hd. Qed.

Lemma counts_fds d c s a s' : counts_set d c s = Ret (a, s') → fds s' = fds s ∧ filesp s' = filesp s.
Proof. by intros [= <- <-]. Qed.

Lemma vquiet_ref_inc n : vquiet (vop_ref_inc n).
Proof.
  destruct n as [f i|d]; unfold vop_ref_inc; [vq|].
  intros s a s' ([x o] & s1 & (-> & _ & Ho)%counts_inv & H)%M_bind_Ret.
  apply M_bind_Ret in H as ([] & s2 & H & [= <- <-]). split; [|by eapply counts_fds].
  intros k. rewrite (counts_set_opens _ _ _ _ _ _ H). destruct (decide (k = NDev d)) as [->|]; simpl in *; lia.
Qed.

Lemma vquiet_ref_dec n : vquiet (vop_ref_dec n).
Proof.
  destruct n as [f i|d]; unfold vop_ref_dec; [vq|].
  intros s a s' ([x o] & s1 & (-> & _ & Ho)%counts_inv & H)%M_bind_Ret. revert s a s' Ho H.
  intros s a s' Ho ([] & s1 & Ha & H)%M_bind_Ret.
  assert (s1 = s) as -> by (unfold assert in Ha; destruct (_ <? _); [by injection Ha|done]).
  apply M_bind_Ret in H as ([] & s2 & H & H2). 
  assert (s2 = s') as ->.
  { apply M_bind_Ret in H2 as ([] & s3 & H3 & [= <- <-]). destruct (x - 1 =? 0); [done|by injection H3]. }
  split; [|by eapply counts_fds].
  intros k. rewrite (counts_set_opens _ _ _ _ _ _ H). destruct (decide (k = NDev d)) as [->|]; simpl in *; lia.
Qed.
#[local] Hint Resolve vquiet_ref_inc vquiet_ref_dec : vquiet.

(** Opening and closing. *)
Lemma open_inc_shifts n : shifts (vop_open_inc n) (λ _, one n).
Proof.
  destruct n as [f i|d]; unfold vop_open_inc; intros s a s' H.
  - destruct (fs_do_opens f _ (λ _ j, if decide (j = i) then 1 else 0) (λ x b x' Hx j, open_inc_opens i x b x' j Hx) _ _ _ H) as (H1 & H2).
    split; [|done]. intros k. rewrite H1. unfold one. destruct k as [f' j|]; [|by rewrite decide_False by done].
    destruct (decide (f' = f)), (decide (j = i)), (decide (NSfs f i = NSfs f' j)); naive_solver lia.
  - apply M_bind_Ret in H as ([x o] & s1 & (-> & _ & Ho)%counts_inv & H). apply M_bind_Ret in H as ([] & s2 & H & [= <- <-]).
    split; [|by eapply counts_fds]. intros k. rewrite (counts_set_opens _ _ _ _ _ _ H). unfold one.
    destruct (decide (k = NDev d)) as [->|]; [rewrite decide_True by done|rewrite decide_False by congruence]; simpl in *; lia.
Qed.

Lemma open_dec_shifts n : shifts (vop_open_dec n) (λ _ k, - one n k).
Proof.
  destruct n as [f i|d]; unfold vop_open_dec; intros s a s' H.
  - destruct (fs_do_opens f _ (λ _ j, - (if decide (j = i) then 1 else 0))
      (λ x b x' Hx j, ltac:(rewrite (open_dec_opens i x b x' j Hx); lia)) _ _ _ H) as (H1 & H2).
    split; [|done]. intros k. rewrite H1. unfold one. destruct k as [f' j|]; [|by rewrite decide_False by done].
    destruct (decide (f' = f)), (decide (j = i)), (decide (NSfs f i = NSfs f' j)); naive_solver lia.
  - apply M_bind_Ret in H as ([x o] & s1 & (-> & _ & Ho)%counts_inv & H).
    apply M_bind_Ret in H as ([] & s2 & Ha & H). assert (s2 = s) as -> by (unfold assert in Ha; destruct (_ <? _); [by injection Ha|done]).
    apply M_bind_Ret in H as ([] & s3 & H3 & H).
    match type of H with ?m ?st = _ => assert (vquiet m) as Hq; [unfold dev_close; vq|destruct (Hq _ _ _ H) as (Q1 & Q2 & Q3)] end.
    destruct (counts_fds _ _ _ _ _ H3) as [F1 F2]. split_and!; [|congruence|congruence].
    intros k. rewrite Q1, (counts_set_opens _ _ _ _ _ _ H3). unfold one.
    destruct (decide (k = NDev d)) as [->|]; [rewrite decide_True by done|rewrite decide_False by congruence]; simpl in *; lia.
Qed.

Lemma vquiet_vop_open n fl : vquiet (vop_open n fl).
Proof. unfold vop_open, dev_open, sfs_opendir, sfs_openfile. vq. Qed.
Lemma vquiet_vop_io n w iob : vquiet (vop_io n w iob).
Proof. unfold vop_io, dev_io. vq. Qed.
Lemma vquiet_vop_fstat n : vquiet (vop_fstat n).
Proof. unfold vop_fstat. vq. Qed.
Lemma vquiet_vop_gettype n : vquiet (vop_gettype n).
Proof. unfold vop_gettype. vq. Qed.
Lemma vquiet_vop_fsync n : vquiet (Vfs.vop_fsync n).
Proof. unfold Vfs.vop_fsync. vq. Qed.
Lemma vquiet_vop_tryseek n p : vquiet (vop_tryseek n p).
Proof. unfold vop_tryseek. vq. Qed.
Lemma vquiet_vop_truncate n l : vquiet (Vfs.vop_truncate n l).
Proof. unfold Vfs.vop_truncate. vq. Qed.
Lemma vquiet_vop_namefile n iob : vquiet (vop_namefile n iob).
Proof. unfold vop_namefile. vq. Qed.
Lemma vquiet_vop_getdirentry n iob : vquiet (vop_getdirentry n iob).
Proof. unfold vop_getdirentry. vq. Qed.
Lemma vquiet_vop_lookup n l : vquiet (vop_lookup n l).
Proof. unfold vop_lookup. vq. Qed.
Lemma vquiet_vop_create n l b : vquiet (vop_create n l b).
Proof. unfold vop_create. vq. Qed.
Lemma vquiet_vop_delete n l t : vquiet (vop_delete n l t).
Proof. unfold vop_delete. vq. Qed.
Lemma vquiet_vop_mkdir n l : vquiet (vop_mkdir n l).
Proof. unfold vop_mkdir. vq. Qed.
Lemma vquiet_vop_rename n l1 l2 : vquiet (vop_rename n l1 l2).
Proof. unfold vop_rename. vq. Qed.
#[local] Hint Resolve vquiet_vop_open vquiet_vop_io vquiet_vop_fstat vquiet_vop_gettype vquiet_vop_fsync vquiet_vop_tryseek
  vquiet_vop_truncate vquiet_vop_namefile vquiet_vop_getdirentry vquiet_vop_lookup vquiet_vop_create vquiet_vop_delete
  vquiet_vop_mkdir vquiet_vop_rename : vquiet.

Lemma vquiet_fsop_root f : vquiet (fsop_get_root f).
Proof. unfold fsop_get_root. vq. Qed.
#[local] Hint Resolve vquiet_fsop_root : vquiet.
Lemma vquiet_get_root l : vquiet (vfs_get_root l).
Proof. unfold vfs_get_root. vq. Qed.
Lemma vquiet_get_curdir : vquiet vfs_get_curdir.
Proof. unfold vfs_get_curdir, cur_files. vq. Qed.
Lemma vquiet_get_bootfs : vquiet vfs_get_bootfs.
Proof. unfold vfs_get_bootfs. vq. Qed.
#[local] Hint Resolve vquiet_get_root vquiet_get_curdir vquiet_get_bootfs : vquiet.
Lemma vquiet_get_device l : vquiet (get_device l).
Proof. unfold get_device. vq. Qed.
#[local] Hint Resolve vquiet_get_device : vquiet.
Lemma vquiet_lookup l : vquiet (vfs_lookup l).
Proof. unfold vfs_lookup. vq. Qed.
Lemma vquiet_lookup_parent l : vquiet (vfs_lookup_parent l).
Proof. unfold vfs_lookup_parent. vq. Qed.
#[local] Hint Resolve vquiet_lookup vquiet_lookup_parent : vquiet.

(** Only the working directory changes. *)
Lemma vquiet_set_pwd n : vquiet (set_cur_files (λ x, mkFiles n (fd_array x) (files_count x))).
Proof.
  apply vquiet_same. intros s a s' (x & s1 & Hx & H)%M_bind_Ret. unfold cur_files, deref in Hx.
  destruct (filesps s !! filesp s) as [y|] eqn:Hy; [|done]. injection Hx as <- <-.
  unfold modify in H. injection H as <- <-. split_and!; try done. unfold fds. cbn [filesps set_filesps]. rewrite fmap_insert. cbn [fd_array]. apply insert_id. by rewrite lookup_fmap, Hy.
Qed.
#[local] Hint Resolve vquiet_set_pwd : vquiet.
Lemma vquiet_set_curdir n : vquiet (vfs_set_curdir n).
Proof. unfold vfs_set_curdir, cur_files. vq. Qed.
#[local] Hint Resolve vquiet_set_curdir : vquiet.
Lemma vquiet_chdir l : vquiet (vfs_chdir l).
Proof. unfold vfs_chdir. vq. Qed.
Lemma vquiet_delete l t : vquiet (vfs_delete l t).
Proof. unfold vfs_delete. vq. Qed.
Lemma vquiet_rename l1 l2 : vquiet (vfs_rename l1 l2).
Proof. unfold vfs_rename. vq. Qed.
Lemma vquiet_mkdir l : vquiet (vfs_mkdir l).
Proof. unfold vfs_mkdir. vq. Qed.

Lemma close_shifts n : shifts (vfs_close n) (λ _ k, - one n k).
Proof.
  unfold vfs_close. eapply shifts_bind; [apply open_dec_shifts|]. intros a.
  intros s b s' H. match type of H with ?m ?st = _ => assert (vquiet m) as Hq; [vq|destruct (Hq _ _ _ H) as (Q1 & Q2)] end.
  split; [|done]. intros k. rewrite Q1. lia.
Qed.

(** [vfs_open] adds one opening to the inode it returns, and none when it fails. *)
Definition opened (r : Z * option node) (k : node) : Z :=
  if r.1 =? 0 then from_option (λ n, one n k) 0 r.2 else 0.

Lemma open_shifts l fl : shifts (vfs_open l fl) opened.
Proof.
  assert (∀ ret, ret ≠ 0 → ∀ k, opened (ret, None) k = 0) as Hz.
  { intros ret Hr k. unfold opened. simpl. by destruct (ret =? 0). }
  unfold vfs_open. destruct (Z.land fl O_ACCMODE =? 3); [by apply shifts_ret, Hz|].
  destruct (_ && _); [by apply shifts_ret, Hz|].
  apply shifts_bind_quiet; [vq|]. intros [[ret n] path]. apply shifts_bind_quiet; [vq|]. intros [[r|u] n']; [by apply shifts_ret; intros k; unfold opened; simpl; by case_match|].
  apply shifts_bind_quiet; [vq|]. intros m. apply shifts_bind_quiet; [vq|]. intros ret1.
  destruct (negb (ret1 =? 0)) eqn:Er; [apply shifts_bind_quiet; [vq|]; intros _; apply shifts_ret; intros k; unfold opened; simpl; by case_match|].
  eapply shifts_bind; [apply open_inc_shifts|]. intros ?. apply shifts_bind_quiet; [vq|]. intros ret2.
  destruct (negb (ret2 =? 0)) eqn:Er2.
  - eapply shifts_bind; [apply open_dec_shifts|]. intros ?. apply shifts_bind_quiet; [vq|]. intros _. apply shifts_ret. intros k.
    unfold opened. simpl. case_match; lia.
  - apply shifts_ret. intros k. unfold opened. simpl. lia.
Qed.

(** * Descriptors *)

(** What a descriptor holds: an opened or closed one keeps its inode open. *)
Definition holds (f : file) (k : node) : Z :=
  match status f with
  | FD_OPENED | FD_CLOSED => from_option (λ n, one n k) 0 (f_node f)
  | _ => 0
  end.
Definition held (l : list file) (k : node) : Z := Zsum ((λ f, holds f k) <$> l).
(** The number of descriptors, of all processes, that hold [k]. *)
Definition holders (m : gmap Z (list file)) (k : node) : Z := map_fold (λ _ l a, held l k + a) 0 m.
Definition bal (s : vfs) (k : node) : Z := opens s k - holders (fds s) k.

(** The descriptor [i] of the table [t], and the tables with another value there. *)
Definition fat (m : gmap Z (list file)) (t : Z) (i : nat) : option file := m !! t ≫= λ l, l !! i.
Definition fput (m : gmap Z (list file)) (t : Z) (i : nat) (f : file) : gmap Z (list file) := alter (<[i := f]>) t m.

Lemma held_insert l i f g k : l !! i = Some f → held (<[i := g]> l) k = held l k - holds f k + holds g k.
Proof.
  intros Hf. rewrite insert_take_drop by (by eapply lookup_lt_Some). rewrite <-(take_drop_middle l i f Hf) at 3. unfold held.
  rewrite !fmap_app, !fmap_cons, !Zsum_app. simpl. lia.
Qed.

Lemma holders_insert m t l k : m !! t = None → holders (<[t := l]> m) k = held l k + holders m k.
Proof. intros Ht. unfold holders. rewrite map_fold_insert_L; [done| |done]. intros; lia. Qed.
Lemma holders_delete m t l k : m !! t = Some l → holders m k = held l k + holders (delete t m) k.
Proof. intros Ht. rewrite <-(insert_delete_id m t l Ht) at 1. apply holders_insert, lookup_delete_eq. Qed.

Lemma holders_fput m t i f g k : fat m t i = Some f → holders (fput m t i g) k = holders m k - holds f k + holds g k.
Proof.
  unfold fat, fput. intros (l & Hl & Hf)%bind_Some. rewrite (holders_delete m t l k Hl).
  rewrite (holders_delete (alter _ t m) t (<[i := g]> l)); [|by rewrite lookup_alter_eq, Hl].
  rewrite (held_insert _ _ _ _ _ Hf), delete_alter_eq. lia.
Qed.

Lemma fat_fput m t i f g : fat m t i = Some f → fat (fput m t i g) t i = Some g.
Proof.
  unfold fat, fput. intros (l & Hl & Hf)%bind_Some. rewrite lookup_alter_eq, Hl. simpl. apply list_lookup_insert_eq. by eapply lookup_lt_Some.
Qed.
Lemma fat_fput_ne m t i g t' j : (t', j) ≠ (t, i) → fat (fput m t i g) t' j = fat m t' j.
Proof.
  intros Hne. unfold fat, fput. destruct (decide (t' = t)) as [->|].
  - rewrite lookup_alter_eq. destruct (m !! t) as [l|]; [|done]. simpl. apply list_lookup_insert_ne. congruence.
  - by rewrite lookup_alter_ne.
Qed.

Lemma fput_fput m t i f g : fput (fput m t i f) t i g = fput m t i g.
Proof.
  unfold fput. apply map_eq. intros j. destruct (decide (j = t)) as [->|]; [|by rewrite !lookup_alter_ne].
  rewrite !lookup_alter_eq. destruct (m !! t) as [l|]; [|done]. simpl. f_equal. apply list_insert_insert_eq.
Qed.

Lemma assert_inv b (s : vfs) a s' : assert b s = Ret (a, s') → b = true ∧ s' = s.
Proof. unfold assert. destruct b; [|done]. by intros [= <- <-]. Qed.
Lemma deref_inv {A} (f : vfs → option A) s a s' : deref f s = Ret (a, s') → f s = Some a ∧ s' = s.
Proof. unfold deref. destruct (f s); [|done]. by intros [= <- <-]. Qed.

Lemma fat_fds s t i : fat (fds s) t i = (x ← filesps s !! t; fd_array x !! i).
Proof. unfold fat, fds. rewrite lookup_fmap. by destruct (filesps s !! t). Qed.

Lemma file_at_inv t i s f s' : file_at t i s = Ret (f, s') → fat (fds s) t i = Some f ∧ s' = s.
Proof. unfold file_at. intros [H ->]%deref_inv. by rewrite fat_fds. Qed.

(** Writing a descriptor moves the balance by what it held and now holds. *)
Lemma upd_run t i g s a s' : file_upd t i g s = Ret (a, s') → ∃ f, fat (fds s) t i = Some f ∧ fds s' = fput (fds s) t i (g f) ∧
  (∀ k, bal s' k = bal s k + holds f k - holds (g f) k) ∧ filesp s' = filesp s.
Proof.
  unfold file_upd. intros (x & s1 & [Hx ->]%deref_inv & H)%M_bind_Ret. apply M_bind_Ret in H as (f & s1 & [Hf ->]%deref_inv & H).
  unfold modify in H. injection H as <- <-. exists f. assert (fat (fds s) t i = Some f) as Hfat by (rewrite fat_fds, Hx; done).
  assert (∀ y, y = set_filesps s (<[t := mkFiles (pwd x) (<[i := g f]> (fd_array x)) (files_count x)]> (filesps s)) → fds y = fput (fds s) t i (g f)) as Hput.
  { intros y ->. unfold fds, fput. cbn [filesps set_filesps]. rewrite fmap_insert. cbn [fd_array]. apply map_eq. intros j.
    destruct (decide (j = t)) as [->|]; [rewrite lookup_insert_eq, lookup_alter_eq, lookup_fmap, Hx; done|].
    by rewrite lookup_insert_ne, lookup_alter_ne by done. }
  specialize (Hput _ eq_refl). split_and!; [done|done| |done]. intros k. unfold bal. rewrite Hput, (holders_fput _ _ _ _ _ _ Hfat).
  assert (∀ y, fss y = fss s → dev_counts y = dev_counts s → opens y k = opens s k) as -> by (intros y H1 H2; unfold opens; by rewrite H1, H2); [lia|done|done].
Qed.

(** The action writes only the descriptor [i] of [t], and keeps the balance. *)
Definition moved (t : Z) (i : nat) (s s' : vfs) : Prop :=
  (∃ g, fds s' = fput (fds s) t i g) ∧ (∀ k, bal s' k = bal s k) ∧ filesp s' = filesp s.

Lemma moved_trans t i s1 s2 s3 : moved t i s1 s2 → moved t i s2 s3 → moved t i s1 s3.
Proof.
  intros ((g & Hg) & H1 & F1) ((h & Hh) & H2 & F2). split_and!; [|intros k; by rewrite H2|congruence].
  exists h. by rewrite Hh, Hg, fput_fput.
Qed.

Lemma upd_moved t i g s a s' : (∀ f k, holds (g f) k = holds f k) → file_upd t i g s = Ret (a, s') → moved t i s s'.
Proof.
  intros Hg (f & Hf & H1 & H2 & H3)%upd_run. split_and!; [by eexists| |done]. intros k. rewrite H2, Hg. lia.
Qed.

Lemma free_run t i s a s' : fd_array_free t i s = Ret (a, s') →
  ∃ f, fat (fds s) t i = Some f ∧ fds s' = fput (fds s) t i (set_status FD_NONE f) ∧ (∀ k, bal s' k = bal s k) ∧ filesp s' = filesp s.
Proof.
  unfold fd_array_free. intros (f & s1 & [Hf ->]%file_at_inv & H)%M_bind_Ret.
  apply M_bind_Ret in H as ([] & s1 & [Hst%bool_decide_eq_true ->]%assert_inv & H).
  apply M_bind_Ret in H as ([] & s1 & [_ ->]%assert_inv & H). apply M_bind_Ret in H as ([] & s1 & Hc & H). exists f.
  assert ((∀ k, bal s1 k = bal s k - holds f k) ∧ fds s1 = fds s ∧ filesp s1 = filesp s) as (B1 & F1 & P1).
  { destruct Hst as [Hst|Hst]; rewrite Hst in Hc.
    - rewrite bool_decide_eq_false_2 in Hc by done. injection Hc as <-. split_and!; try done. intros k. unfold holds. rewrite Hst. lia.
    - rewrite bool_decide_eq_true_2 in Hc by done. apply M_bind_Ret in Hc as (n & s2 & [Hn ->]%deref_inv & Hc).
      apply M_bind_Ret in Hc as (r & s2 & Hc & [= <-]). destruct (close_shifts _ _ _ _ Hc) as (H1 & H2 & H3). split_and!; try done.
      intros k. unfold bal, holds. rewrite H1, H2, Hst, Hn. simpl. lia. }
  apply upd_run in H as (f' & Hf' & F2 & B2 & P2). rewrite F1 in *. assert (f' = f) as -> by congruence.
  split_and!; [done|done| |congruence]. intros k. rewrite B2, B1. unfold holds at 3. simpl. lia.
Qed.

Lemma free_moved t i s a s' : fd_array_free t i s = Ret (a, s') → moved t i s s'.
Proof. intros (f & _ & H1 & H2 & H3)%free_run. split_and!; [by eexists|done|done]. Qed.

Lemma fput_same m t i : ∃ g, m = fput m t i g.
Proof.
  destruct (fat m t i) as [f|] eqn:Hf; [exists f|exists (mkFile FD_NONE false false 0 0 None 0)]; unfold fat, fput in *; symmetry; apply map_eq;
    intros j; (destruct (decide (j = t)) as [->|]; [rewrite lookup_alter_eq|by rewrite lookup_alter_ne]);
    destruct (m !! t) as [l|]; try done; simpl in *; f_equal; [by apply list_insert_id|apply list_insert_ge; by apply lookup_ge_None].
Qed.

Notation mv t i m := (∀ s a s', m s = Ret (a, s') → moved t i s s').

Lemma mv_bind {A B} t i (m : M vfs A) (f : A → M vfs B) : mv t i m → (∀ a, mv t i (f a)) → mv t i (m ≫= f).
Proof. intros Hm Hf s b s' (a & s1 & H1 & H2)%M_bind_Ret. eapply moved_trans; [by eapply Hm|by eapply Hf]. Qed.
Lemma mv_quiet {A} t i (m : M vfs A) : vquiet m → mv t i m.
Proof.
  intros Hm s a s' H. destruct (Hm _ _ _ H) as (H1 & H2 & H3). split_and!; [|intros k; unfold bal; rewrite H1, H2; lia|done].
  rewrite H2. apply fput_same.
Qed.
Lemma mv_when t i b (m : M vfs unit) : mv t i m → mv t i (when b m).
Proof. intros Hm. destruct b; [done|]. apply mv_quiet, shifts_ret0. Qed.

Lemma vquiet_file_at t i : vquiet (file_at t i).
Proof. unfold file_at. vq. Qed.
#[local] Hint Resolve vquiet_file_at : vquiet.

Ltac mv_step :=
  match goal with
  | |- ∀ s a s', mbind _ _ s = _ → _ => apply mv_bind
  | |- ∀ s a s', when _ _ s = _ → _ => apply mv_when
  | |- ∀ s a s', file_upd _ _ _ s = _ → _ => intros ? ? ?; apply upd_moved; done
  | |- ∀ s a s', fd_array_free _ _ s = _ → _ => exact (free_moved _ _)
  | |- ∀ s a s', (if ?b then _ else _) s = _ → _ => destruct b
  | |- ∀ s a s', _ s = _ → _ => apply mv_quiet; solve [vq]
  | |- ∀ _, _ => intros ?
  end.
Ltac mv := repeat mv_step.

Lemma acquire_moved t i : mv t i (fd_array_acquire t i).
Proof. unfold fd_array_acquire. mv. Qed.
Lemma release_moved t i : mv t i (fd_array_release t i).
Proof. unfold fd_array_release. mv. Qed.

Lemma close_moved t i : mv t i (fd_array_close t i).
Proof.
  unfold fd_array_close. intros s a s' (f & s1 & [Hf ->]%file_at_inv & H)%M_bind_Ret.
  apply M_bind_Ret in H as ([] & s1 & [Hst%bool_decide_eq_true ->]%assert_inv & H).
  apply M_bind_Ret in H as ([] & s1 & [_ ->]%assert_inv & H). apply M_bind_Ret in H as ([] & s1 & Hu & H).
  apply moved_trans with s1.
  - apply upd_run in Hu as (f' & Hf' & F2 & B2 & P2). assert (f' = f) as -> by congruence. split_and!; [by eexists| |done].
    intros k. rewrite B2. unfold holds. rewrite Hst. simpl. lia.
  - revert H. match goal with |- ?m _ = _ → _ => assert (mv t i m) as Hq by mv end. apply Hq.
Qed.

(** A descriptor that is marked open starts to hold its inode. *)
Lemma open_run t i s a s' : fd_array_open t i s = Ret (a, s') → ∃ f n, fat (fds s) t i = Some f ∧ f_node f = Some n ∧
  (∃ g, fds s' = fput (fds s) t i g) ∧ (∀ k, bal s' k = bal s k - one n k) ∧ filesp s' = filesp s.
Proof.
  unfold fd_array_open. intros (f & s1 & [Hf ->]%file_at_inv & H)%M_bind_Ret.
  apply M_bind_Ret in H as ([] & s1 & [[Hst%bool_decide_eq_true Hn%bool_decide_eq_true]%andb_true_iff ->]%assert_inv & H).
  apply M_bind_Ret in H as ([] & s1 & (f' & Hf' & F1 & B1 & P1)%upd_run & H). assert (f' = f) as -> by congruence.
  apply upd_moved in H as ((g & Hg) & B2 & P2); [|done]. destruct (f_node f) as [n|] eqn:Hfn; [|done].
  exists f, n. split_and!; [done|done| | |congruence].
  - exists g. by rewrite Hg, F1, fput_fput.
  - intros k. rewrite B2, B1. unfold holds. simpl. rewrite Hst, Hfn. simpl. lia.
Qed.

Lemma dup_moved t to t' from : mv t to (fd_array_dup t to t' from).
Proof.
  unfold fd_array_dup. intros s a s' (x & s1 & [Hx ->]%file_at_inv & H)%M_bind_Ret.
  apply M_bind_Ret in H as (y & s1 & [Hy ->]%file_at_inv & H).
  apply M_bind_Ret in H as ([] & s1 & [[Hst%bool_decide_eq_true _]%andb_true_iff ->]%assert_inv & H).
  apply M_bind_Ret in H as ([] & s1 & (x' & Hx' & F1 & B1 & P1)%upd_run & H). assert (x' = x) as -> by congruence.
  apply M_bind_Ret in H as (n & s2 & [Hn ->]%deref_inv & H).
  apply M_bind_Ret in H as (r2 & s2 & (H2 & F2 & P2)%vquiet_ref_inc & H).
  apply M_bind_Ret in H as (r3 & s3 & (H3 & F3 & P3)%open_inc_shifts & H).
  apply M_bind_Ret in H as ([] & s4 & (z & Hz & F4 & B4 & P4)%upd_run & H).
  rewrite F3, F2, F1, (fat_fput _ _ _ _ _ Hx) in Hz. injection Hz as <-. rewrite F3, F2, F1, fput_fput in F4.
  apply open_run in H as (w & n' & Hw & Hn' & (g & Hg) & B5 & P5). rewrite F4, (fat_fput _ _ _ _ _ Hx) in Hw. injection Hw as <-.
  injection Hn' as <-. split_and!; [|intros k|congruence].
  - exists g. by rewrite Hg, F4, fput_fput.
  - rewrite B5, B4. unfold holds. simpl. rewrite Hst. unfold bal at 1. rewrite H3, H2, F3, F2. fold (bal s1 k).
    specialize (B1 k). unfold holds in B1. simpl in B1. rewrite Hst in B1. unfold bal in *. lia.
Qed.

Lemma find_none_spec l i j : find_none l i = Some j → ∃ f, l !! (j - i)%nat = Some f ∧ status f = FD_NONE ∧ (i ≤ j)%nat.
Proof.
  revert i. induction l as [|f l IH]; intros i; simpl; [done|]. case_bool_decide as Hf.
  - intros [= <-]. exists f. rewrite Nat.sub_diag. by split_and!.
  - intros (g & Hg & Hs & Hle)%IH. exists g. split_and!; [|done|lia]. by replace (j - i)%nat with (S (j - S i)) by lia.
Qed.

Lemma found_run t i f s r s' : fd_found t i s = Ret (r, s') → fat (fds s) t i = Some f → status f = FD_NONE →
  r = (0, i) ∧ moved t i s s' ∧ ∃ g, fat (fds s') t i = Some g ∧ status g = FD_INIT.
Proof.
  unfold fd_found. intros (f0 & s1 & [Hf0 ->]%file_at_inv & H)%M_bind_Ret Hf Hst.
  apply M_bind_Ret in H as ([] & s1 & [_ ->]%assert_inv & H).
  apply M_bind_Ret in H as ([] & s1 & (f' & Hf' & F1 & B1 & P1)%upd_run & [= <- <-]). assert (f' = f) as -> by congruence.
  split_and!; [done| |]. 
  - split_and!; [by eexists| |done]. intros k. rewrite B1. unfold holds. rewrite Hst. simpl. lia.
  - rewrite F1, (fat_fput _ _ _ _ _ Hf). by eexists.
Qed.

Lemma cur_files_inv (s : vfs) x s' : cur_files s = Ret (x, s') → filesps s !! filesp s = Some x ∧ s' = s.
Proof. unfold cur_files. by intros [Hx ->]%deref_inv. Qed.

Lemma get_fd_array_inv (s : vfs) t s' : get_fd_array s = Ret (t, s') → t = filesp s ∧ s' = s ∧ ∃ x, filesps s !! t = Some x ∧ 0 < files_count x.
Proof.
  unfold get_fd_array. intros (t' & s1 & [= <- <-] & H)%M_bind_Ret. apply M_bind_Ret in H as (x & s1 & [Hx ->]%cur_files_inv & H).
  apply M_bind_Ret in H as ([] & s1 & [Hc%Z.ltb_lt ->]%assert_inv & [= <- <-]). by eauto.
Qed.

Lemma alloc_run fd s ret i s' : fd_array_alloc fd s = Ret ((ret, i), s') →
  (ret ≠ 0 ∧ s' = s) ∨ (ret = 0 ∧ moved (filesp s) i s s' ∧ ∃ g, fat (fds s') (filesp s) i = Some g ∧ status g = FD_INIT).
Proof.
  unfold fd_array_alloc. intros (t & s1 & (-> & -> & _)%get_fd_array_inv & H)%M_bind_Ret.
  apply M_bind_Ret in H as (x & s1 & [Hx ->]%cur_files_inv & H). destruct (fd =? NO_FD).
  - destruct (find_none _ _) as [j|] eqn:Hj; [|injection H as <- <- <-; by left].
    apply find_none_spec in Hj as (f & Hf & Hst & _). rewrite Nat.sub_0_r in Hf.
    assert (fat (fds s) (filesp s) j = Some f) as Hfat by (by rewrite fat_fds, Hx).
    destruct (found_run _ _ _ _ _ _ H Hfat Hst) as ([= -> ->] & Hm). by right.
  - destruct (testfd fd); [|injection H as <- <- <-; by left].
    apply M_bind_Ret in H as (f & s1 & [Hf ->]%file_at_inv & H). case_bool_decide as Hst; [|injection H as <- <- <-; by left].
    destruct (found_run _ _ _ _ _ _ H Hf Hst) as ([= -> ->] & Hm). by right.
Qed.

(** The action keeps the balance and the lengths of the tables. *)
Definition tables (s : vfs) : Prop := ∀ t l, fds s !! t = Some l → length l = FILES_STRUCT_NENTRY.
Definition level {A} (m : M vfs A) : Prop := ∀ s a s', tables s → m s = Ret (a, s') → (∀ k, bal s' k = bal s k) ∧ tables s'.

Lemma tables_put s s' t i g : fds s' = fput (fds s) t i g → tables s → tables s'.
Proof.
  intros Hf Ht t' l. rewrite Hf. unfold fput. destruct (decide (t' = t)) as [->|].
  - rewrite lookup_alter_eq. intros (l0 & Hl & ->)%fmap_Some. rewrite length_insert. by eapply Ht.
  - rewrite lookup_alter_ne by done. apply Ht.
Qed.

Lemma moved_level t i s s' : tables s → moved t i s s' → (∀ k, bal s' k = bal s k) ∧ tables s'.
Proof. intros Ht ((g & Hg) & B & _). split; [done|]. by eapply tables_put. Qed.

Lemma level_bind {A B} (m : M vfs A) (f : A → M vfs B) : level m → (∀ a, level (f a)) → level (m ≫= f).
Proof.
  intros Hm Hf s b s' Ht (a & s1 & H1 & H2)%M_bind_Ret. destruct (Hm _ _ _ Ht H1) as [A1 A2], (Hf _ _ _ _ A2 H2) as [B1 B2].
  split; [|done]. intros k. by rewrite B1.
Qed.
Lemma level_mv {A} t i (m : M vfs A) : mv t i m → level m.
Proof. intros Hm s a s' Ht H. by eapply moved_level, Hm. Qed.
Lemma level_quiet {A} (m : M vfs A) : vquiet m → level m.
Proof. intros Hm. apply (level_mv 0 0). by apply mv_quiet. Qed.
Lemma level_when b (m : M vfs unit) : level m → level (when b m).
Proof. intros Hm. destruct b; [done|]. apply level_quiet, shifts_ret0. Qed.
Lemma level_upd t i g : (∀ f k, holds (g f) k = holds f k) → level (file_upd t i g).
Proof. intros Hg. apply (level_mv t i). intros s a s'. by apply upd_moved. Qed.
Lemma level_alloc fd : level (fd_array_alloc fd).
Proof. intros s [ret i] s' Ht [[_ ->]|(_ & Hm & _)]%alloc_run; [done|]. by eapply moved_level. Qed.

Ltac level_step :=
  match goal with
  | |- level (mbind _ _) => apply level_bind
  | |- level (when _ _) => apply level_when
  | |- level (file_upd _ _ _) => apply level_upd; done
  | |- level (fd_array_alloc _) => apply level_alloc
  | |- level (fd_array_acquire ?t ?i) => exact (level_mv t i _ (acquire_moved t i))
  | |- level (fd_array_release ?t ?i) => exact (level_mv t i _ (release_moved t i))
  | |- level (fd_array_close ?t ?i) => exact (level_mv t i _ (close_moved t i))
  | |- level (fd_array_dup ?t ?i ?t' ?j) => exact (level_mv t i _ (dup_moved t i t' j))
  | |- level (if ?b then _ else _) => destruct b
  | |- level (match ?x with _ => _ end) => destruct x
  | |- level _ => solve [assumption | apply level_quiet; solve [vq]]
  | |- ∀ _, _ => intros ?
  end.
Ltac lv := repeat level_step.

Lemma vquiet_fd2file fd : vquiet (fd2file fd).
Proof. unfold fd2file, get_fd_array, cur_files. vq. Qed.
#[local] Hint Resolve vquiet_fd2file : vquiet.

Lemma level_close fd : level (file_close fd).
Proof. unfold file_close. lv. Qed.
Lemma level_io w fd base len : level (file_io w fd base len).
Proof. unfold file_io. lv. Qed.
Lemma level_seek fd p w : level (file_seek fd p w).
Proof. unfold file_seek. lv. Qed.
Lemma level_pass {A} fd (d : A) m : (∀ n, vquiet (m n)) → level (file_pass fd d m).
Proof. intros Hm. assert (∀ n, level (m n)) by (intros n; by apply level_quiet). unfold file_pass. lv. Qed.
Lemma level_dup fd1 fd2 : level (file_dup fd1 fd2).
Proof. unfold file_dup. lv. Qed.

Lemma level_free t i : level (fd_array_free t i).
Proof. apply (level_mv t i). intros s a s'. apply free_moved. Qed.

(** Storing the inode in a descriptor under construction and marking it open takes over the opening. *)
Lemma attach_run t i n upd g s s1 s' a b : fat (fds s) t i = Some g → status g = FD_INIT →
  (∀ f, status (upd f) = status f ∧ f_node (upd f) = Some n) →
  file_upd t i upd s = Ret (a, s1) → fd_array_open t i s1 = Ret (b, s') →
  (∀ k, bal s' k = bal s k - one n k) ∧ (tables s → tables s').
Proof.
  intros Hg Hst Hupd (g' & Hg' & F1 & B1 & P1)%upd_run (f & n' & Hf & Hn & (h & F2) & B2 & P2)%open_run.
  assert (g' = g) as -> by congruence. rewrite F1, (fat_fput _ _ _ _ _ Hg) in Hf. injection Hf as <-.
  destruct (Hupd g) as [Hs Hn']. assert (n' = n) as -> by congruence. split.
  - intros k. rewrite B2, B1. unfold holds. rewrite Hs, Hst. lia.
  - apply (tables_put _ _ t i h). by rewrite F2, F1, fput_fput.
Qed.

(** [file_open] gives the opening of [vfs_open] to the descriptor, or takes it back. *)
Lemma level_open path fl : level (file_open path fl).
Proof.
  unfold file_open. destruct (negb _); [by lv|]. intros s r s' Ht ([ret i] & s1 & Ha & H)%M_bind_Ret.
  destruct (level_alloc _ _ _ _ Ht Ha) as [B1 T1]. apply alloc_run in Ha as [[Hr ->]|(-> & Hm & g & Hg & Hst)].
  { apply Z.eqb_neq in Hr. rewrite Hr in H. injection H as <- <-. done. }
  destruct Hm as (_ & _ & P1). simpl in H. apply M_bind_Ret in H as (t & s2 & [= <- <-] & H). rewrite <-P1 in Hg.
  apply M_bind_Ret in H as ([ret n] & s2 & Hvo & H). destruct (open_shifts _ _ _ _ _ Hvo) as (H2 & F2 & P2).
  assert (tables s2) as T2 by (unfold tables; by rewrite F2).
  assert (∀ k, bal s2 k = bal s k + opened (ret, n) k) as B2 by (intros k; rewrite <-B1; unfold bal; rewrite H2, F2; lia).
  clear Hvo H2. unfold opened in B2. simpl in B2. destruct (ret =? 0); simpl in H.
  2: { match type of H with ?m _ = _ => assert (level m) as Hq by (lv; apply level_free) end. destruct (Hq _ _ _ T2 H) as [B3 T3].
       split; [|done]. intros k. rewrite B3, B2. lia. }
  apply M_bind_Ret in H as (n' & s3 & [Hn ->]%deref_inv & H). subst n. simpl in B2. rename n' into n.
  apply M_bind_Ret in H as ([] & s3 & Hu & H). destruct (level_upd _ _ (set_pos 0) ltac:(done) _ _ _ T2 Hu) as [B3 T3].
  apply upd_run in Hu as (g' & Hg' & F3 & _ & P3). rewrite F2, Hg in Hg'. injection Hg' as <-.
  apply M_bind_Ret in H as ([ret2 p] & s4 & Hfs & H).
  assert (fds s4 = fds s3 ∧ (∀ k, bal s4 k = bal s3 k)) as [F4 B4].
  { revert Hfs. match goal with |- ?m _ = _ → _ => assert (vquiet m) as Hq by vq end. intros (Q1 & Q2 & Q3)%Hq. split; [done|].
    intros k. unfold bal. rewrite Q1, Q2. lia. }
  assert (tables s4) as T4 by (unfold tables; by rewrite F4).
  assert (∀ k, bal s4 k = bal s k + one n k) as B5 by (intros k; by rewrite B4, B3). clear Hfs B1 B2 B3 B4.
  destruct (negb (ret2 =? 0)).
  - apply M_bind_Ret in H as (r5 & s5 & (H5 & F5 & _)%close_shifts & H). assert (tables s5) as T5 by (unfold tables; by rewrite F5).
    match type of H with ?m _ = _ => assert (level m) as Hq by (lv; apply level_free) end. destruct (Hq _ _ _ T5 H) as [B6 T6].
    split; [|done]. intros k. rewrite B6. specialize (B5 k). unfold bal in *. rewrite H5, F5. lia.
  - apply M_bind_Ret in H as (r5 & s5 & Hu & H). apply M_bind_Ret in H as (r6 & s6 & Ho & H).
    apply M_bind_Ret in H as (f & s7 & [_ ->]%file_at_inv & [= <- <-]).
    assert (fat (fds s4) (filesp s1) i = Some (set_pos 0 g)) as Hg4 by (rewrite F4, F3, F2; by eapply fat_fput).
    eapply attach_run in Ho as [B7 T7]; [|exact Hg4|exact Hst| |exact Hu]; [|by intros f'].
    split; [|by auto]. intros k. rewrite B7, B5. lia.
Qed.

Lemma level_close_loop all t n i : level (close_loop all t n i).
Proof. revert i. induction n as [|n IH]; intros i; simpl; lv. apply IH. Qed.
Lemma level_closeall t : level (files_closeall t).
Proof. unfold files_closeall. lv. apply level_close_loop. Qed.

(** After the loop of [files_destroy] the descriptors it has passed are free. *)
Lemma moved_fat t i s s' t' j : moved t i s s' → (t', j) ≠ (t, i) → fat (fds s') t' j = fat (fds s) t' j.
Proof. intros ((g & ->) & _) Hne. by apply fat_fput_ne. Qed.

Lemma close_loop_run t n i s a s' : close_loop true t n i s = Ret (a, s') →
  (∀ j, (j < i)%nat → fat (fds s') t j = fat (fds s) t j) ∧
  (∀ j f, (i ≤ j < i + n)%nat → fat (fds s') t j = Some f → status f = FD_NONE).
Proof.
  revert i s. induction n as [|n IH]; intros i s; simpl; [intros [= <- <-]; split; [done|lia]|].
  intros (f & s1 & [Hf ->]%file_at_inv & H)%M_bind_Ret. apply M_bind_Ret in H as ([] & s1 & Hw & H).
  assert (moved t i s s1) as Hm by (revert Hw; apply mv_when, close_moved).
  apply M_bind_Ret in H as (f' & s2 & [Hf' ->]%file_at_inv & H).
  apply M_bind_Ret in H as ([] & s2 & [Hst%bool_decide_eq_true ->]%assert_inv & H). apply IH in H as [H1 H2]. split.
  - intros j Hj. rewrite H1 by lia. apply (moved_fat _ _ _ _ _ _ Hm). intros [=]. lia.
  - intros j g Hj Hg. destruct (decide (j = i)) as [->|]; [rewrite H1 in Hg by lia; congruence|]. apply (H2 j); [lia|done].
Qed.

(** A table without open descriptors can be forgotten, or made. *)
Lemma held_free l k : Forall (λ f, status f = FD_NONE) l → held l k = 0.
Proof. unfold held. induction 1 as [|f l Hf _ IH]; [done|]. rewrite fmap_cons. simpl. rewrite IH. unfold holds. by rewrite Hf. Qed.

Lemma level_destroy t : level (files_destroy t).
Proof.
  unfold files_destroy. intros s a s' Ht (x & s1 & [Hx ->]%deref_inv & H)%M_bind_Ret.
  apply M_bind_Ret in H as ([] & s1 & [_ ->]%assert_inv & H). apply M_bind_Ret in H as ([] & s1 & Hp & H).
  assert ((∀ k, bal s1 k = bal s k) ∧ tables s1) as [B1 T1].
  { revert Hp. match goal with |- ?m _ = _ → _ => assert (level m) as Hq by lv end. by apply Hq. }
  apply M_bind_Ret in H as ([] & s2 & Hl & H). destruct (level_close_loop _ _ _ _ _ _ _ T1 Hl) as [B2 T2].
  apply close_loop_run in Hl as [_ Hfree]. unfold modify in H. injection H as Hs'.
  assert (fds s' = delete t (fds s2)) as F3 by (subst s'; apply fmap_delete).
  assert (∀ k, opens s' k = opens s2 k) as O3 by (by subst s'). clear Hs'. split.
  - intros k. rewrite <-B1, <-B2. unfold bal. rewrite F3, O3. f_equal. destruct (fds s2 !! t) as [l|] eqn:Hl.
    + rewrite (holders_delete _ _ _ k Hl), held_free; [done|]. apply Forall_lookup. intros j f Hj. apply (Hfree j).
      * pose proof (T2 _ _ Hl). apply lookup_lt_Some in Hj. lia.
      * unfold fat. by rewrite Hl.
    + by rewrite delete_id.
  - intros t' l. rewrite F3, lookup_delete_Some. intros [_ Hl]. by eapply T2.
Qed.

(** Copying the descriptors of a parent into a table that has none in use. *)
Lemma dup_loop_run to from n i s a s' : tables s →
  (∀ j f, (i ≤ j)%nat → fat (fds s) to j = Some f → status f = FD_NONE) →
  dup_loop to from n i s = Ret (a, s') → (∀ k, bal s' k = bal s k) ∧ tables s'.
Proof.
  revert i s. induction n as [|n IH]; intros i s Ht Hfree; simpl; [by intros [= <- <-]|].
  intros (f & s1 & [_ ->]%file_at_inv & H)%M_bind_Ret. apply M_bind_Ret in H as ([] & s1 & Hd & H).
  assert (moved to i s s1) as Hm.
  { case_bool_decide; [|injection Hd as <-; by apply (mv_quiet _ _ (mret tt) (shifts_ret0 tt) s tt)].
    apply M_bind_Ret in Hd as ([] & s2 & (g & Hg & F2 & B2 & P2)%upd_run & Hd). apply moved_trans with s2; [|by eapply dup_moved].
    split_and!; [by eexists| |done]. intros k. rewrite B2. unfold holds. rewrite (Hfree i g ltac:(lia) Hg). simpl. lia. }
  destruct (moved_level _ _ _ _ Ht Hm) as [B1 T1]. destruct (IH (S i) s1 T1) as [B2 T2]; [|done|split; [intros k; by rewrite B2|done]].
  intros j g Hj Hg. apply (Hfree j g); [lia|]. rewrite <-Hg. symmetry. apply (moved_fat _ _ _ _ _ _ Hm). intros [=]. lia.
Qed.

Lemma same_fds_level (s s' : vfs) : fss s' = fss s → dev_counts s' = dev_counts s → fds s' = fds s → tables s →
  (∀ k, bal s' k = bal s k) ∧ tables s'.
Proof.
  intros H1 H2 H3 Ht. split; [|unfold tables; by rewrite H3]. intros k. unfold bal. rewrite H3. f_equal. unfold opens. by rewrite H1, H2.
Qed.

(** Changing the other fields of a table. *)
Lemma fds_table (s : vfs) t x p c : filesps s !! t = Some x →
  fds (set_filesps s (<[t := mkFiles p (fd_array x) c]> (filesps s))) = fds s.
Proof. intros Hx. unfold fds. cbn [filesps set_filesps]. rewrite fmap_insert. apply insert_id. by rewrite lookup_fmap, Hx. Qed.

Lemma dup_files_run to from s r s' l : tables s → fds s !! to = Some l → Forall (λ f, status f = FD_NONE) l →
  dup_files to from s = Ret (r, s') → r = 0 ∧ (∀ k, bal s' k = bal s k) ∧ tables s'.
Proof.
  unfold dup_files. intros Ht Hl Hfree (x & s1 & [Hx ->]%deref_inv & H)%M_bind_Ret.
  apply M_bind_Ret in H as (y & s1 & [Hy ->]%deref_inv & H). apply M_bind_Ret in H as ([] & s1 & [_ ->]%assert_inv & H).
  apply M_bind_Ret in H as ([] & s1 & Hm & H). unfold modify in Hm. injection Hm as Hm.
  assert (fds s1 = fds s) as F1 by (subst s1; by apply fds_table).
  destruct (same_fds_level s s1) as [B1 T1]; try (by subst s1).
  apply M_bind_Ret in H as ([] & s2 & Hp & H).
  assert (fds s2 = fds s1 ∧ (∀ k, bal s2 k = bal s1 k)) as [F2 B2].
  { revert Hp. match goal with |- ?m _ = _ → _ => assert (vquiet m) as Hq by vq end. intros (Q1 & Q2 & Q3)%Hq. split; [done|].
    intros k. unfold bal. rewrite Q1, Q2. lia. }
  apply M_bind_Ret in H as ([] & s3 & Hd & [= <- <-]). apply dup_loop_run in Hd as [B3 T3].
  - split_and!; [done| |done]. intros k. by rewrite B3, B2.
  - unfold tables. by rewrite F2.
  - intros j f _. rewrite F2, F1. unfold fat. rewrite Hl. simpl. intros Hj. by eapply (Forall_lookup_1 _ _ _ _ Hfree).
Qed.

Lemma level_add_count t c : level (add_count t c).
Proof.
  unfold add_count. intros s r s' Ht (x & s1 & [Hx ->]%deref_inv & H)%M_bind_Ret.
  apply M_bind_Ret in H as ([] & s1 & Hm & [= <- <-]). unfold modify in Hm. injection Hm as Hm.
  apply same_fds_level; try (by subst s1). subst s1. by apply fds_table.
Qed.

Lemma fd_array_init_free : Forall (λ f, status f = FD_NONE) fd_array_init ∧ length fd_array_init = FILES_STRUCT_NENTRY.
Proof.
  unfold fd_array_init. split; [|by rewrite length_fmap, length_seq]. apply Forall_fmap, Forall_forall. by intros i _.
Qed.

(** [copy_fs], when [kmalloc] answers memory that is not in use. *)
Lemma copy_fs_run fl t s r s' : tables s → (∀ t', t = Some t' → filesps s !! t' = None) → copy_fs fl t s = Ret (r, s') →
  (∀ k, bal s' k = bal s k) ∧ tables s'.
Proof.
  unfold copy_fs, files_count_inc. intros Ht Hfresh (old & s1 & [= <- <-] & H)%M_bind_Ret. destruct (negb _).
  { revert H. match goal with |- ?m _ = _ → _ => assert (level m) as Hq by (lv; apply level_add_count) end. by apply Hq. }
  apply M_bind_Ret in H as (o & s1 & Hc & H). destruct t as [t|]; [|by injection Hc as <- <-; injection H as <- <-].
  unfold files_create in Hc. apply M_bind_Ret in Hc as ([] & s2 & Hc & [= <- <-]). unfold modify in Hc. injection Hc as Hc.
  destruct fd_array_init_free as [Hfree Hlen].
  assert (fds s2 = <[t := fd_array_init]> (fds s)) as F2 by (subst s2; unfold fds; cbn [filesps set_filesps]; by rewrite fmap_insert).
  assert (fds s !! t = None) as Hnone by (unfold fds; by rewrite lookup_fmap, (Hfresh t eq_refl)).
  assert (tables s2) as T2.
  { intros t' l. rewrite F2. destruct (decide (t' = t)) as [->|]; [rewrite lookup_insert_eq; by intros [= <-]|].
    rewrite lookup_insert_ne by done. apply Ht. }
  assert (∀ k, bal s2 k = bal s k) as B2.
  { intros k. unfold bal. rewrite F2, holders_insert by done. rewrite held_free by done. f_equal. by subst s2. }
  apply M_bind_Ret in H as (ret & s3 & Hd & H).
  apply (dup_files_run _ _ _ _ _ fd_array_init T2) in Hd as (-> & B3 & T3); [|by rewrite F2, lookup_insert_eq|done]. simpl in H.
  match type of H with ?m _ = _ => assert (level m) as Hq by (lv; apply level_add_count) end.
  destruct (Hq _ _ _ T3 H) as [B4 T4]. split; [|done]. intros k. by rewrite B4, B3.
Qed.

Lemma level_put_fs t : level (put_fs t).
Proof. unfold put_fs, files_count_dec. lv; [apply level_add_count|apply level_destroy]. Qed.

(** * The calls of processes *)

(** What the processes ask for, one call after the other; [CSwitch] is the scheduler's choice of
    another process, [CFork] and [CExit] what process creation and exit do with open files. *)
Inductive fcall :=
| COpen (path : list Z) (open_flags : Z)
| CClose (fd : Z)
| CRead (fd base len : Z)
| CWrite (fd base len : Z)
| CSeek (fd p whence : Z)
| CFstat (fd : Z)
| CFsync (fd : Z)
| CGetdirentry (fd name offset : Z)
| CDup (fd1 fd2 : Z)
| CDelete (path : list Z) (ty : Z)
| CMkdir (path : list Z)
| CRename (old_path new_path : list Z)
| CChdir (path : list Z)
| CCloseall (t : Z)
| CFork (clone_flags : Z) (t : option Z)
| CExit (t : option Z)
| CSwitch (t : Z).

Definition call (c : fcall) : M vfs unit :=
  match c with
  | COpen path fl => _ ← file_open path fl; mret tt
  | CClose fd => _ ← file_close fd; mret tt
  | CRead fd base len => _ ← file_read fd base len; mret tt
  | CWrite fd base len => _ ← file_write fd base len; mret tt
  | CSeek fd p w => _ ← file_seek fd p w; mret tt
  | CFstat fd => _ ← file_fstat fd; mret tt
  | CFsync fd => _ ← file_fsync fd; mret tt
  | CGetdirentry fd nm o => _ ← file_getdirentry fd nm o; mret tt
  | CDup fd1 fd2 => _ ← file_dup fd1 fd2; mret tt
  | CDelete path ty => _ ← file_delete path ty; mret tt
  | CMkdir path => _ ← file_mkdir path; mret tt
  | CRename p1 p2 => _ ← vfs_rename p1 p2; mret tt
  | CChdir path => _ ← vfs_chdir path; mret tt
  | CCloseall t => files_closeall t
  | CFork fl t => _ ← copy_fs fl t; mret tt
  | CExit t => put_fs t
  | CSwitch t => modify (λ s, mkVfs (fss s) (vdev_list s) (dev_counts s) (bootfs_node s) (filesps s) t (mem s) (drivers s))
  end.

(** [kmalloc] never answers memory that is in use. *)
Definition call_ok (c : fcall) (s : vfs) : Prop :=
  match c with CFork _ (Some t) => filesps s !! t = None | _ => True end.

Inductive fstep : vfs → vfs → Prop :=
| fstep_call c s s' : call_ok c s → call c s = Ret (tt, s') → fstep s s'.

(** Every open count is the number of descriptors that hold the inode. *)
Definition counted (s : vfs) : Prop := tables s ∧ ∀ k, opens s k = holders (fds s) k.

Lemma level_call c s s' : tables s → call_ok c s → call c s = Ret (tt, s') → (∀ k, bal s' k = bal s k) ∧ tables s'.
Proof.
  intros Ht Hok H. destruct c;
    try (lazymatch type of H with call (CFork _ _) _ = _ => fail | _ => idtac end; revert Ht H; match goal with |- _ → ?m s = _ → _ => assert (level m) as Hq; [|apply Hq] end; unfold call;
         first [apply level_put_fs | apply level_closeall
               | apply level_bind; [|intros; apply level_quiet, shifts_ret0]]);
    [apply level_open|apply level_close|apply level_io|apply level_io|apply level_seek|by apply level_pass; intros; vq
    | unfold file_fsync; apply level_bind; [apply level_pass; intros; vq|intros [? ?]; apply level_quiet, shifts_ret0]
    |apply level_pass; intros; vq|apply level_dup
    |apply level_quiet, vquiet_delete|apply level_quiet, vquiet_mkdir|apply level_quiet, vquiet_rename|apply level_quiet, vquiet_chdir| |].
  - unfold call in H. apply M_bind_Ret in H as (r & s1 & H & [= <-]). eapply copy_fs_run; [done| |exact H].
    intros t' ->. exact Hok.
  - unfold call, modify in H. injection H as <-. by apply same_fds_level.
Qed.

Lemma fstep_counted s s' : fstep s s' → counted s → counted s'.
Proof.
  intros [c s1 s1' Hok H] [Ht Hc]. destruct (level_call _ _ _ Ht Hok H) as [B T]. split; [done|].
  intros k. specialize (B k). specialize (Hc k). unfold bal in B. lia.
Qed.

Lemma reach_counted s s' : rtc fstep s s' → counted s → counted s'.
Proof. induction 1; eauto using fstep_counted. Qed.

Lemma holds_pos f k : 0 ≤ holds f k.
Proof. unfold holds. destruct (status f), (f_node f); simpl; unfold one; try lia; case_decide; lia. Qed.
Lemma held_pos l k : 0 ≤ held l k.
Proof. unfold held. induction l as [|f l IH]; [done|]. rewrite fmap_cons. simpl. pose proof (holds_pos f k). lia. Qed.
Lemma holders_pos m k : 0 ≤ holders m k.
Proof. induction m as [|t l m Ht IH] using map_ind; [done|]. rewrite holders_insert by done. pose proof (held_pos l k). lia. Qed.

Lemma holders_ge m t i f k : fat m t i = Some f → holds f k ≤ holders m k.
Proof.
  unfold fat. intros (l & Hl & Hf)%bind_Some. rewrite (holders_delete _ _ _ k Hl). pose proof (holders_pos (delete t m) k).
  assert (holds f k ≤ held l k); [|lia]. rewrite <-(take_drop_middle l i f Hf). unfold held.
  rewrite fmap_app, fmap_cons, Zsum_app. simpl. pose proof (held_pos (take i l) k). pose proof (held_pos (drop (S i) l) k). unfold held in *. lia.
Qed.

(** A list of calls, run one after the other. *)
#[global] Instance call_ok_dec c s : Decision (call_ok c s).
Proof. destruct c as [| | | | | | | | | | | | | | ? []| |]; simpl; apply _. Defined.

Fixpoint run_calls (l : list fcall) (s : vfs) : res vfs :=
  match l with
  | [] => Ret s
  | c :: l' => if decide (call_ok c s) then '(_, s') ← call c s; run_calls l' s' else Err EPanic
  end.

Lemma run_calls_reach l s s' : run_calls l s = Ret s' → rtc fstep s s'.
Proof.
  revert s. induction l as [|c l IH]; intros s; simpl; [by intros [= ->]|]. destruct (decide _) as [Hok|]; [|done].
  destruct (call c s) as [[[] s1]|e] eqn:Hc; [|done]. simpl. intros H. eapply rtc_l; [by econstructor|by apply IH].
Qed.

(** C23: every sequence of calls on files, by any processes, among them opening, closing, duplicating,
    reading, creating, deleting and renaming, process creation and exit, keeps the open count of every
    inode equal to the number of descriptors, in the tables of all processes, that hold it. *)
Theorem open_counts s s' : rtc fstep s s' → tables s → (∀ k, opens s k = holders (fds s) k) →
  ∀ k, opens s' k = holders (fds s') k.
Proof. intros Hr Ht Hc. by apply (reach_counted _ _ Hr). Qed.

(** C24: no descriptor dangles: after every sequence of calls, the inode of an open descriptor is still
    in memory, with a positive open count, whatever was deleted or reclaimed meanwhile. *)
Theorem no_dangling s s' t i f fs ino : rtc fstep s s' → tables s → (∀ k, opens s k = holders (fds s) k) →
  fat (fds s') t i = Some f → status f = FD_OPENED → f_node f = Some (NSfs fs ino) →
  ∃ x sin, fss s' !! fs = Some x ∧ inodes x !! ino = Some sin ∧ 0 < open_count sin.
Proof.
  intros Hr Ht Hc Hf Hst Hn. destruct (reach_counted _ _ Hr (conj Ht Hc)) as [_ Hc']. specialize (Hc' (NSfs fs ino)).
  pose proof (holders_ge _ _ _ _ (NSfs fs ino) Hf) as Hge. unfold holds in Hge. rewrite Hst, Hn in Hge. simpl in Hge, Hc'.
  unfold one in Hge. rewrite decide_True in Hge by done. destruct (fss s' !! fs) as [x|]; [|simpl in Hc'; lia]. simpl in Hc'. exists x.
  unfold sfs_opens in Hc'. destruct (inodes x !! ino) as [y|]; simpl in Hc'; [|lia]. exists y. split_and!; [done|done|lia].
Qed.

End vfs.

(** * An example: an empty directory, one process; it creates a file, duplicates and closes the
    descriptor, forks, and the child closes its copy. *)

#[local] Instance demo_heap : heap_env := {| heap_addr := λ _ _, Some 0; heap_bytes := λ _, replicate 4096 0; undef := 0 |}.
#[local] Instance demo_devs : dev_ops unit :=
  {| dv_blocks := λ _, 0; dv_blocksize := λ _, 1; d_open := λ _ _, mret 0; d_close := λ _, mret 0; d_io := λ _ _ x, mret (0, x) |}.

Definition demo_root : sfs_inode := mkSin (mkDin 0 SFS_TYPE_DIR 1 0 (replicate 12 0) 0) false 1 1 0.
Definition demo_dir : sfs_fs :=
  mkSfs (mkSuper SFS_MAGIC 32 24 (replicate 32 0)) false (mkBitmap 32 1 [0xFFFFFF00]) ∅ {[1 := demo_root]} (mkLog 0 0).
Definition demo_vfs : vfs (D := unit) :=
  mkVfs {[0 := demo_dir]} [mkVdev [100; 105; 115; 107; 48] (Some 0) (Some 0) true] ∅ (Some (NSfs 0 1))
    {[0 := mkFiles (Some (NSfs 0 1)) fd_array_init 1]} 0 ∅ tt.
Definition demo_calls : list fcall :=
  [COpen [120] (Z.lor O_CREAT O_RDWR); CDup 0 NO_FD; CClose 0; CFork 0 (Some 7); CSwitch 7; CClose 1; CSwitch 0].
Definition demo_end : vfs (D := unit) := match run_calls demo_calls demo_vfs with Ret s => s | Err _ => demo_vfs end.

Lemma demo_reach : rtc fstep demo_vfs demo_end.
Proof. unfold demo_end. destruct (run_calls demo_calls demo_vfs) eqn:H; [by eapply run_calls_reach|done]. Qed.

Lemma demo_fds : fds demo_vfs = {[0 := fd_array_init]}.
Proof. unfold fds. cbn [filesps demo_vfs]. apply map_fmap_singleton. Qed.

Lemma demo_tables : tables demo_vfs.
Proof. intros t l. rewrite demo_fds, lookup_singleton_Some. intros [_ <-]. apply fd_array_init_free. Qed.

Lemma demo_counted k : opens demo_vfs k = holders (fds demo_vfs) k.
Proof.
  rewrite demo_fds. rewrite <-insert_empty, holders_insert, held_free by (done || apply fd_array_init_free).
  destruct k as [f i|d]; [|done]. simpl. destruct (decide (f = 0)) as [->|]; [|by rewrite lookup_singleton_ne].
  rewrite lookup_singleton_eq. unfold sfs_opens. simpl. destruct (decide (i = 1)) as [->|]; [by rewrite lookup_singleton_eq|by rewrite lookup_singleton_ne].
Qed.

Lemma open_counts_witness : opens demo_end (NSfs 0 9) = 1 ∧ holders (fds demo_end) (NSfs 0 9) = 1.
Proof.
  assert (opens demo_end (NSfs 0 9) = 1) as H by (vm_compute; reflexivity). split; [exact H|].
  rewrite <-(open_counts demo_vfs demo_end demo_reach demo_tables demo_counted). exact H.
Defined.

Lemma no_dangling_witness :
  ∃ x sin, fss demo_end !! 0 = Some x ∧ inodes x !! 9 = Some sin ∧ 0 < open_count sin.
Proof.
  apply (no_dangling demo_vfs demo_end 0 1 (mkFile FD_OPENED true true 1 0 (Some (NSfs 0 9)) 1) 0 9 demo_reach demo_tables demo_counted);
    [vm_compute; reflexivity|reflexivity|reflexivity].
Defined.

(** [sfs_create] keeps one new inode in memory, two objects of the heap, and leaves two more behind: the entry and
    the disk inode that it built and wrote. *)
Lemma create_leaks :
  (λ '(r, s'), (r, (base.size (inodes s') - base.size (inodes demo_dir))%nat, unfreed (allocs s') - unfreed (allocs demo_dir)))
    <$> sfs_create 1 [120] demo_dir = Ret ((0, Some 9), 1%nat, 4).
Proof. vm_compute. reflexivity. Qed.

End Opens.
