(* ===== verification/Cstring.v ===== *)
(** Strings and formatted output: libs/string.c, the string instructions of libs/x86.h that it uses,
    libs/printfmt.c and libs/rand.c.

    Memory is a map from addresses to bytes, in which addresses that were never written hold 0; addresses
    do not wrap around.  A scan for a zero byte therefore ends within as many steps as the map has entries,
    plus one, and that is the fuel of the loops.  The format and the strings that are printed are values:
    what [putch] does is taken not to change them. *)
From Stdlib Require Import Ascii String.
From S2P Require Import Prelude.

Module Cstring.
Set Default Proof Using "Type".

Notation mem := (gmap Z Z).
Definition byte (b : mem) (a : Z) : Z := default 0 (b !! a).
Definition write (a v : Z) : M mem unit := modify (λ b, <[a := u8 v]> b).
(** The value of a [char], which is signed. *)
Definition s8 (x : Z) : Z := if u8 x <? 128 then u8 x else u8 x - 256.

(** * libs/string.c *)

Definition scan_fuel : M mem nat := gets (λ b, S (base.size b)).

Fixpoint strlen_loop (fuel : nat) (cnt s : Z) : M mem Z :=
  match fuel with
  | O => fail EFuel
  | S fuel' => c ← gets (λ b, byte b s); if c =? 0 then mret cnt else strlen_loop fuel' (cnt + 1) (s + 1)
  end.
Definition strlen (s : Z) : M mem Z := n ← scan_fuel; strlen_loop n 0 s.

Fixpoint strnlen_loop (n : nat) (cnt s : Z) : M mem Z :=
  match n with
  | O => mret cnt
  | S n' => c ← gets (λ b, byte b s); if c =? 0 then mret cnt else strnlen_loop n' (cnt + 1) (s + 1)
  end.
Definition strnlen (s len : Z) : M mem Z := strnlen_loop (Z.to_nat len) 0 s.

(** [lodsb; stosb; testb; jne]. *)
Fixpoint strcpy_loop (fuel : nat) (dst src : Z) : M mem unit :=
  match fuel with
  | O => fail EFuel
  | S fuel' =>
      c ← gets (λ b, byte b src);
      write dst c ;;
      if c =? 0 then mret tt else strcpy_loop fuel' (dst + 1) (src + 1)
  end.
Definition strcpy (dst src : Z) : M mem Z := n ← scan_fuel; strcpy_loop n dst src ;; mret dst.
Definition strcat (dst src : Z) : M mem Z := n ← strlen dst; strcpy (dst + n) src.

Fixpoint strncpy_loop (n : nat) (p src : Z) : M mem unit :=
  match n with
  | O => mret tt
  | S n' =>
      c ← gets (λ b, byte b src);
      write p c ;;
      strncpy_loop n' (p + 1) (if c =? 0 then src else src + 1)
  end.
Definition strncpy (dst src len : Z) : M mem Z := strncpy_loop (Z.to_nat len) dst src ;; mret dst.

(** [lodsb; scasb; jne]: the result is -1 or 1 when the bytes differ. *)
Fixpoint strcmp_loop (fuel : nat) (s1 s2 : Z) : M mem Z :=
  match fuel with
  | O => fail EFuel
  | S fuel' =>
      c1 ← gets (λ b, byte b s1);
      c2 ← gets (λ b, byte b s2);
      if negb (c1 =? c2) then mret (if c1 <? c2 then -1 else 1)
      else if c1 =? 0 then mret 0 else strcmp_loop fuel' (s1 + 1) (s2 + 1)
  end.
Definition strcmp (s1 s2 : Z) : M mem Z := n ← scan_fuel; strcmp_loop n s1 s2.

Fixpoint strncmp_loop (n : nat) (s1 s2 : Z) : M mem Z :=
  match n with
  | O => mret 0
  | S n' =>
      c1 ← gets (λ b, byte b s1);
      c2 ← gets (λ b, byte b s2);
      if negb (c1 =? 0) && (c1 =? c2) then strncmp_loop n' (s1 + 1) (s2 + 1) else mret (c1 - c2)
  end.
Definition strncmp (s1 s2 n : Z) : M mem Z := strncmp_loop (Z.to_nat n) s1 s2.

(** The address, 0 for NULL. *)
Fixpoint strchr_loop (fuel : nat) (s c : Z) : M mem Z :=
  match fuel with
  | O => fail EFuel
  | S fuel' =>
      x ← gets (λ b, byte b s);
      if x =? 0 then mret 0 else if x =? u8 c then mret s else strchr_loop fuel' (s + 1) c
  end.
Definition strchr (s c : Z) : M mem Z := n ← scan_fuel; strchr_loop n s c.

Fixpoint strfind_loop (fuel : nat) (s c : Z) : M mem Z :=
  match fuel with
  | O => fail EFuel
  | S fuel' =>
      x ← gets (λ b, byte b s);
      if x =? 0 then mret s else if x =? u8 c then mret s else strfind_loop fuel' (s + 1) c
  end.
Definition strfind (s c : Z) : M mem Z := n ← scan_fuel; strfind_loop n s c.

(** ** strtol *)

Fixpoint skip_blanks (fuel : nat) (s : Z) : M mem Z :=
  match fuel with
  | O => fail EFuel
  | S fuel' => c ← gets (λ b, byte b s); if (c =? 32) || (c =? 9) then skip_blanks fuel' (s + 1) else mret s
  end.

(** The value of a digit or letter. *)
Definition digit (c : Z) : option Z :=
  if (48 <=? c) && (c <=? 57) then Some (c - 48)
  else if (97 <=? c) && (c <=? 122) then Some (c - 97 + 10)
  else if (65 <=? c) && (c <=? 90) then Some (c - 65 + 10)
  else None.

Fixpoint strtol_digits (fuel : nat) (s base val : Z) : M mem (Z * Z) :=
  match fuel with
  | O => fail EFuel
  | S fuel' =>
      c ← gets (λ b, s8 (byte b s));
      match digit c with
      | None => mret (val, s)
      | Some dig => if base <=? dig then mret (val, s)
                    else strtol_digits fuel' (s + 1) base (s32 (val * base + dig))
      end
  end.

(** The value and what [*endptr] is set to. *)
Definition strtol (s base : Z) : M mem (Z * Z) :=
  n ← scan_fuel;
  s1 ← skip_blanks n s;
  c ← gets (λ b, byte b s1);
  let s2 := if (c =? 43) || (c =? 45) then s1 + 1 else s1 in
  let neg := c =? 45 in
  c0 ← gets (λ b, byte b s2);
  c1 ← gets (λ b, byte b (s2 + 1));
  let '(s3, base') :=
    if ((base =? 0) || (base =? 16)) && ((c0 =? 48) && (c1 =? 120)) then (s2 + 2, 16)
    else if (base =? 0) && (c0 =? 48) then (s2 + 1, 8)
    else if base =? 0 then (s2, 10) else (s2, base) in
  '(val, e) ← strtol_digits n s3 base' 0;
  mret (if neg then s32 (- val) else val, e).

(** ** Memory *)

Fixpoint stos_loop (n : nat) (p c : Z) : M mem unit :=
  match n with
  | O => mret tt
  | S n' => write p c ;; stos_loop n' (p + 1) c
  end.
Definition memset (s c n : Z) : M mem Z := stos_loop (Z.to_nat n) s c ;; mret s.

(** [movsb] and [movsl]: [w] bytes are read before they are written. *)
Definition movs (w : nat) (dst src : Z) : M mem unit :=
  cs ← gets (λ b, (λ i, byte b (src + i)) <$> seqZ 0 (Z.of_nat w));
  modify (λ b, list_to_map (zip (seqZ dst (Z.of_nat w)) cs) ∪ b).
Fixpoint rep_movs (n w : nat) (dst src : Z) : M mem unit :=
  match n with
  | O => mret tt
  | S n' => movs w dst src ;; rep_movs n' w (dst + Z.of_nat w) (src + Z.of_nat w)
  end.
(** [std; rep movsb]: the addresses go down. *)
Fixpoint rep_movs_down (n : nat) (dst src : Z) : M mem unit :=
  match n with
  | O => mret tt
  | S n' => movs 1 dst src ;; rep_movs_down n' (dst - 1) (src - 1)
  end.

Definition memcpy (dst src n : Z) : M mem Z :=
  rep_movs (Z.to_nat (n / 4)) 4 dst src ;;
  rep_movs (Z.to_nat (Z.land n 3)) 1 (dst + 4 * (n / 4)) (src + 4 * (n / 4)) ;;
  mret dst.
Definition memmove (dst src n : Z) : M mem Z :=
  if dst <? src then memcpy dst src n
  else rep_movs_down (Z.to_nat n) (n - 1 + dst) (n - 1 + src) ;; mret dst.

Fixpoint memcmp_loop (n : nat) (s1 s2 : Z) : M mem Z :=
  match n with
  | O => mret 0
  | S n' =>
      c1 ← gets (λ b, byte b s1);
      c2 ← gets (λ b, byte b s2);
      if negb (c1 =? c2) then mret (c1 - c2) else memcmp_loop n' (s1 + 1) (s2 + 1)
  end.
Definition memcmp (v1 v2 n : Z) : M mem Z := memcmp_loop (Z.to_nat n) v1 v2.

(** * libs/printfmt.c *)

(** [do_div] of libs/x86.h: quotient and remainder of a 64-bit number by a 32-bit one, by two
    divisions of the processor; [divl] faults when the quotient needs more than 32 bits. *)
Definition divl (upper low base : Z) : res (Z * Z) :=
  let n := upper * 2 ^ 32 + low in
  if (base =? 0) || (2 ^ 32 <=? n / base) then Err EFault else Ret (n / base, n mod base).
Definition do_div (n base : Z) : res (Z * Z) :=
  let low := n mod 2 ^ 32 in
  let high := n / 2 ^ 32 in
  if (negb (high =? 0)) && (base =? 0) then Err EFault else
  let upper := if high =? 0 then high else high mod base in
  let high' := if high =? 0 then high else high / base in
  '(q, r) ← divl upper low base;
  mret (high' * 2 ^ 32 + q, r).

Definition codes (s : string) : list Z := (λ c, Z.of_N (N_of_ascii c)) <$> list_ascii_of_string s.

Definition error_strings : list string :=
  [""; "unspecified error"; "bad process"; "invalid parameter"; "out of memory"; "out of processes";
   "segmentation fault"; ""; "invalid elf file"; "process is killed"; "panic failure"; ""; "";
   "no such device"; "device not available"; "device/file is busy"; "no such file or directory";
   "is a directory"; "not a directory"; "cross device link"; "unimplemented feature"; "illegal seek";
   "too many files are open"; "file or directory already exists"; "directory is not empty"]%string.
Definition MAXERROR : Z := 24.
(** [error_string[err]]; the entries that were not given are NULL. *)
Definition error_string (err : Z) : option (list Z) :=
  match codes <$> error_strings !! Z.to_nat err with
  | Some (c :: l) => Some (c :: l)
  | _ => None
  end.

(** The characters printed.  A number of 64 bits has at most 64 digits. *)
Fixpoint printnum (fuel : nat) (num base width padc : Z) : res (list Z) :=
  match fuel with
  | O => Err EFuel
  | S fuel' =>
      '(result, mod_) ← do_div num base;
      head ← (if base <=? num then printnum fuel' result base (width - 1) padc
              else mret (replicate (Z.to_nat (width - 1)) padc));
      d ← match codes "0123456789abcdef" !! Z.to_nat mod_ with Some d => Ret d | None => Err EFault end;
      mret (head ++ [d])
  end.

(** What a format takes from the argument list: integers, given by their 64-bit pattern, and strings. *)
Inductive arg := AInt (x : Z) | AStr (l : list Z) | ANull.

Definition s64 (x : Z) : Z := if u64 x <? 2 ^ 63 then u64 x else u64 x - 2 ^ 64.
Definition getuint (x lflag : Z) : Z := if 2 <=? lflag then u64 x else u32 x.
Definition getint (x lflag : Z) : Z := if 2 <=? lflag then s64 x else s32 x.

Record flags := mkFlags { padc : Z; width : Z; precision : Z; lflag : Z; altflag : bool }.
Definition flags0 : flags := mkFlags 32 (-1) (-1) 0 false.
Definition set_padc (f : flags) c : flags := mkFlags c (width f) (precision f) (lflag f) (altflag f).
Definition process_precision (f : flags) (p : Z) : flags :=
  if width f <? 0 then mkFlags (padc f) p (-1) (lflag f) (altflag f)
  else mkFlags (padc f) (width f) p (lflag f) (altflag f).

(** The loop of the width field. *)
Fixpoint field_digits (acc : Z) (fmt : list Z) : Z * list Z :=
  match fmt with
  | c :: rest => if (48 <=? c) && (c <=? 57) then field_digits (s32 (acc * 10 + c - 48)) rest else (acc, fmt)
  | [] => (acc, [])
  end.

(** From the label [reswitch] to the conversion character, 0 at the end of the format. *)
Fixpoint reswitch (fuel : nat) (f : flags) (fmt : list Z) (args : list arg) : res (flags * Z * list Z * list arg) :=
  match fuel with
  | O => Err EFuel
  | S fuel' =>
      match fmt with
      | [] => mret (f, 0, [], args)
      | ch :: rest =>
          if (ch =? 45) || (ch =? 48) then reswitch fuel' (set_padc f ch) rest args                   (* - 0 *)
          else if (49 <=? ch) && (ch <=? 57) then
            let '(p, rest') := field_digits (ch - 48) rest in reswitch fuel' (process_precision f p) rest' args
          else if ch =? 42 then                                                                       (* star *)
            match args with
            | AInt p :: args' => reswitch fuel' (process_precision f (s32 p)) rest args'
            | _ => Err EFault
            end
          else if ch =? 46 then                                                                       (* . *)
            reswitch fuel' (if width f <? 0 then mkFlags (padc f) 0 (precision f) (lflag f) (altflag f) else f) rest args
          else if ch =? 35 then reswitch fuel' (mkFlags (padc f) (width f) (precision f) (lflag f) true) rest args
          else if ch =? 108 then
            reswitch fuel' (mkFlags (padc f) (width f) (precision f) (lflag f + 1) (altflag f)) rest args
          else mret (f, ch, rest, args)
      end
  end.

Definition number (f : flags) (num base : Z) : res (list Z) := printnum 64 num base (width f) (padc f).

(** Case 's'. *)
Definition print_string (f : flags) (p : list Z) : list Z :=
  let n := Z.min (Z.of_nat (length p)) (u32 (precision f)) in
  let left := (0 <? width f) && negb (padc f =? 45) in
  let pad := if left then Z.max 0 (width f - n) else 0 in
  let width' := if left then Z.min 0 (width f - n) else width f in
  let chars := if precision f <? 0 then p else take (Z.to_nat (precision f)) p in
  replicate (Z.to_nat pad) (padc f) ++
  ((λ c, let ch := s8 c in if altflag f && ((ch <? 32) || (126 <? ch)) then 63 else ch) <$> chars) ++
  replicate (Z.to_nat (width' - Z.of_nat (length chars))) 32.

(** Case 'e': [printfmt(putch, fd, putdat, "error %d", err)] or the text. *)
Definition print_error (x : Z) : res (list Z) :=
  let err := if s32 x <? 0 then s32 (- s32 x) else s32 x in
  if err <? 0 then Err EFault
  else match (if MAXERROR <? err then None else error_string err) with
       | Some p => mret p
       | None => d ← number flags0 err 10; mret (codes "error " ++ d)
       end.

(** One conversion: the characters and the arguments left; [None] for a sequence that is not recognised. *)
Definition convert (f : flags) (ch : Z) (args : list arg) : res (option (list Z * list arg)) :=
  let int k := match args with AInt x :: args' => o ← k x; mret (Some (o, args')) | _ => Err EFault end in
  if ch =? 99 then int (λ x, mret [s32 x])
  else if ch =? 101 then int print_error
  else if ch =? 115 then
    match args with
    | AStr p :: args' => mret (Some (print_string f p, args'))
    | ANull :: args' => mret (Some (print_string f (codes "(null)"), args'))
    | _ => Err EFault
    end
  else if ch =? 100 then
    int (λ x, let n := getint x (lflag f) in
              if n <? 0 then o ← number f (u64 (- n)) 10; mret (45 :: o) else number f n 10)
  else if ch =? 117 then int (λ x, number f (getuint x (lflag f)) 10)
  else if ch =? 111 then int (λ x, number f (getuint x (lflag f)) 8)
  else if ch =? 112 then int (λ x, o ← number f (u32 x) 16; mret (48 :: 120 :: o))
  else if ch =? 120 then int (λ x, number f (getuint x (lflag f)) 16)
  else if ch =? 37 then mret (Some ([37], args))
  else mret None.

(** The characters handed to [putch].  After a sequence that is not recognised, '%' is printed and the
    format is read again behind it. *)
Fixpoint vprintfmt (fuel : nat) (fmt : list Z) (args : list arg) : res (list Z) :=
  match fuel with
  | O => Err EFuel
  | S fuel' =>
      match fmt with
      | [] => mret []
      | c :: rest =>
          if negb (c =? 37) then o ← vprintfmt fuel' rest args; mret (c :: o)
          else
            '(f, ch, rest', args') ← reswitch (S (length rest)) flags0 rest args;
            r ← convert f ch args';
            match r with
            | Some (o, args'') => o' ← vprintfmt fuel' rest' args''; mret (o ++ o')
            | None => o ← vprintfmt fuel' rest args'; mret (37 :: o)
            end
      end
  end.

(** [struct sprintbuf]: [buf], a pointer, and [cnt], an int. *)
Definition sprintputch (ebuf : Z) (st : Z * Z) (ch : Z) : M mem (Z * Z) :=
  let cnt := s32 (st.2 + 1) in
  if st.1 <? ebuf then write st.1 ch ;; mret (u32 (st.1 + 1), cnt) else mret (st.1, cnt).
Fixpoint put_all (ebuf : Z) (st : Z * Z) (out : list Z) : M mem (Z * Z) :=
  match out with
  | [] => mret st
  | ch :: out' => st' ← sprintputch ebuf st ch; put_all ebuf st' out'
  end.
Definition vsnprintf (str size : Z) (fmt : list Z) (args : list arg) : M mem Z :=
  let ebuf := u32 (str + size - 1) in
  if (str =? 0) || (ebuf <? str) then mret (- E_INVAL) else
  out ← (λ b, o ← vprintfmt (S (length fmt)) fmt args; mret (o, b));
  st ← put_all ebuf (str, 0) out;
  write st.1 0 ;;
  mret st.2.
Definition snprintf (str size : Z) (fmt : string) (args : list arg) : M mem Z := vsnprintf str size (codes fmt) args.

(** * libs/rand.c *)

Definition RAND_MAX : Z := 2147483647.
(** The state is [next]. *)
Definition rand : M Z Z := λ next,
  let next' := Z.land (u64 (next * 0x5DEECE66D + 0xB)) (Z.shiftl 1 48 - 1) in
  '(_, r) ← do_div (Z.shiftr next' 12) (RAND_MAX + 1);
  mret (s32 r, next').
Definition srand (seed : Z) : M Z unit := put (u32 seed).

(** * Moving memory *)

(** [b'] is [b] after [n] bytes were moved from [src] to [dst], as if through a buffer. *)
Definition moved (b b' : mem) (dst src n : Z) : Prop :=
  ∀ a, byte b' a = if decide (dst ≤ a < dst + n) then byte b (src + (a - dst)) else byte b a.

Lemma movs_run w dst src b : ∃ b', movs w dst src b = Ret (tt, b') ∧ moved b b' dst src (Z.of_nat w).
Proof.
  eexists. split; [reflexivity|]. intros a. unfold byte at 1.
  set (cs := (λ i, byte b (src + i)) <$> seqZ 0 (Z.of_nat w)).
  assert (length cs = w) as Hlen by (unfold cs; rewrite length_fmap, length_seqZ; lia).
  assert (NoDup (zip (seqZ dst (Z.of_nat w)) cs).*1) as Hnd.
  { rewrite fst_zip by (rewrite length_seqZ; lia). apply NoDup_seqZ. }
  destruct (decide (dst ≤ a < dst + Z.of_nat w)) as [Ha|Ha].
  - assert ((list_to_map (zip (seqZ dst (Z.of_nat w)) cs) : mem) !! a = Some (byte b (src + (a - dst)))) as E.
    { apply elem_of_list_to_map_1; [done|]. apply list_elem_of_lookup. exists (Z.to_nat (a - dst)).
      rewrite lookup_zip_with, lookup_seqZ_lt by lia. unfold cs. simpl. rewrite list_lookup_fmap, lookup_seqZ_lt by lia.
      simpl. do 2 f_equal; [lia|f_equal; lia]. }
    by rewrite (lookup_union_Some_l _ _ _ _ E).
  - rewrite lookup_union_r; [done|]. apply not_elem_of_list_to_map_1.
    rewrite fst_zip by (rewrite length_seqZ; lia). rewrite elem_of_seqZ. lia.
Qed.

(** Going up is safe when the source is not below the destination, or the two do not overlap. *)
Lemma rep_movs_run n w dst src b :
  dst ≤ src ∨ src + Z.of_nat n * Z.of_nat w ≤ dst →
  ∃ b', rep_movs n w dst src b = Ret (tt, b') ∧ moved b b' dst src (Z.of_nat n * Z.of_nat w).
Proof.
  revert dst src b. induction n as [|n IH]; intros dst src b Hov.
  { exists b. split; [done|]. intros a. by rewrite decide_False by lia. }
  destruct (movs_run w dst src b) as (b1 & H1 & M1).
  destruct (IH (dst + Z.of_nat w) (src + Z.of_nat w) b1) as (b2 & H2 & M2); [lia|].
  exists b2. split; [cbn [rep_movs]; step_by H1; exact H2|].
  intros a. rewrite (M2 a), !(M1 _). replace (src + Z.of_nat w + (a - (dst + Z.of_nat w))) with (src + (a - dst)) by lia.
  destruct (decide (dst + Z.of_nat w ≤ a < dst + Z.of_nat w + Z.of_nat n * Z.of_nat w)) as [H|H].
  - rewrite (decide_False (P := dst ≤ src + (a - dst) < dst + Z.of_nat w)) by lia. by rewrite decide_True by lia.
  - destruct (decide (dst ≤ a < dst + Z.of_nat w)); [by rewrite decide_True by lia|by rewrite decide_False by lia].
Qed.

Lemma rep_movs_down_run n dst src b :
  src ≤ dst →
  ∃ b', rep_movs_down n (dst + Z.of_nat n - 1) (src + Z.of_nat n - 1) b = Ret (tt, b') ∧ moved b b' dst src (Z.of_nat n).
Proof.
  revert b. induction n as [|n IH]; intros b Hle.
  { exists b. split; [done|]. intros a. by rewrite decide_False by lia. }
  destruct (movs_run 1 (dst + Z.of_nat (S n) - 1) (src + Z.of_nat (S n) - 1) b) as (b1 & H1 & M1).
  destruct (IH b1 Hle) as (b2 & H2 & M2). exists b2. split.
  - cbn [rep_movs_down]. step using (exact H1). rewrite <-H2. f_equal; lia.
  - intros a. rewrite (M2 a), !(M1 _). destruct (decide (dst ≤ a < dst + Z.of_nat n)).
    + rewrite decide_False by lia. by rewrite decide_True by lia.
    + destruct (decide (dst + Z.of_nat (S n) - 1 ≤ a < dst + Z.of_nat (S n) - 1 + Z.of_nat 1)).
      * rewrite decide_True by lia. f_equal. lia.
      * by rewrite decide_False by lia.
Qed.

Lemma memcpy_copies dst src n b :
  0 ≤ n → dst ≤ src ∨ src + n ≤ dst → ∃ b', memcpy dst src n b = Ret (dst, b') ∧ moved b b' dst src n.
Proof.
  intros Hn Hov. unfold memcpy. change 3 with (Z.ones 2). rewrite Z.land_ones by done. change (2 ^ 2) with 4.
  pose proof (Z.div_mod n 4). pose proof (Z.mod_pos_bound n 4). pose proof (Z.div_pos n 4 Hn eq_refl).
  destruct (rep_movs_run (Z.to_nat (n / 4)) 4 dst src b) as (b1 & Hr1 & M1); [lia|].
  destruct (rep_movs_run (Z.to_nat (n mod 4)) 1 (dst + 4 * (n / 4)) (src + 4 * (n / 4)) b1) as (b2 & Hr2 & M2); [lia|].
  exists b2. split; [step_by Hr1; by step_by Hr2|].
  rewrite !Z2Nat.id in * by lia.
  intros a. rewrite (M2 a), !(M1 _). replace (src + 4 * (n / 4) + (a - (dst + 4 * (n / 4)))) with (src + (a - dst)) by lia.
  destruct (decide (dst + 4 * (n / 4) ≤ a < dst + 4 * (n / 4) + n mod 4 * Z.of_nat 1)).
  - rewrite decide_False by lia. by rewrite decide_True by lia.
  - destruct (decide (dst ≤ a < dst + n / 4 * Z.of_nat 4)); [by rewrite decide_True by lia|by rewrite decide_False by lia].
Qed.

Lemma memmove_moves dst src n b :
  0 ≤ n → ∃ b', memmove dst src n b = Ret (dst, b') ∧ moved b b' dst src n.
Proof.
  intros Hn. unfold memmove. destruct (Z.ltb_spec dst src) as [Hlt|Hge].
  - apply memcpy_copies; [done|lia].
  - destruct (rep_movs_down_run (Z.to_nat n) dst src b) as (b' & H & Hm); [lia|]. rewrite Z2Nat.id in * by done.
    exists b'. split; [|done]. replace (n - 1 + dst) with (dst + n - 1) by lia.
    replace (n - 1 + src) with (src + n - 1) by lia. by step using (exact H).
Qed.

(** C38: [memmove] moves any block, however source and destination overlap: the destination ends up with the
    bytes the source had before, and no other byte changes. *)
Theorem memmove_correct dst src n b :
  0 ≤ n → ∃ b', memmove dst src n b = Ret (dst, b') ∧ moved b b' dst src n.
Proof. apply memmove_moves. Qed.

(** * Numbers *)

(** The two divisions of [do_div] make one division of 64 bits. *)
Lemma do_div_run n base : 0 ≤ n < 2 ^ 64 → 0 < base < 2 ^ 32 → do_div n base = Ret (n / base, n mod base).
Proof.
  intros Hn Hb. unfold do_div, divl.
  pose proof (Z.div_mod n (2 ^ 32) ltac:(lia)) as Hd. pose proof (Z.mod_pos_bound n (2 ^ 32) ltac:(lia)) as Hm.
  set (high := n / 2 ^ 32) in *. set (low := n mod 2 ^ 32) in *.
  assert ((base =? 0) = false) as -> by (apply Z.eqb_neq; lia). rewrite andb_false_r.
  assert (0 ≤ high) as Hh by (apply Z.div_pos; lia).
  set (upper := if high =? 0 then high else high mod base). set (high' := if high =? 0 then high else high / base).
  assert (high = high' * base + upper ∧ 0 ≤ upper < base) as [Hhi Hup].
  { unfold upper, high'. destruct (Z.eqb_spec high 0) as [->|]; [lia|].
    pose proof (Z.div_mod high base). pose proof (Z.mod_pos_bound high base). lia. }
  clearbody upper high' high low. subst n.
  assert ((upper * 2 ^ 32 + low) / base < 2 ^ 32) as Hq by (apply Z.div_lt_upper_bound; nia).
  simpl orb. rewrite (proj2 (Z.leb_gt _ _) Hq). unfold mbind, res_bind, mret, res_ret.
  replace (2 ^ 32 * high + low) with (high' * 2 ^ 32 * base + (upper * 2 ^ 32 + low)) by nia.
  by rewrite Z.div_add_l, (Z.add_comm (high' * 2 ^ 32 * base)), Z.mod_add by lia.
Qed.

(** The number that the digits [ds] stand for. *)
Definition value (base : Z) (ds : list Z) (acc : Z) : Z := foldl (λ v c, v * base + default 0 (digit c)) acc ds.
(** A character for a digit below [base]. *)
Definition digit_char (base c : Z) : Prop := ∃ d, digit c = Some d ∧ 0 ≤ d < base ∧ 0 < c < 128 ∧ c ≠ 43 ∧ c ≠ 45 ∧ c ≠ 32.

Lemma hex_digit d : 0 ≤ d < 16 →
  ∃ c, codes "0123456789abcdef" !! Z.to_nat d = Some c ∧ digit c = Some d ∧ 0 < c < 128 ∧ c ≠ 43 ∧ c ≠ 45 ∧ c ≠ 32.
Proof.
  intros Hd. assert (d ∈ seqZ 0 16) as Hin by (apply elem_of_seqZ; lia). clear Hd. revert d Hin. apply Forall_forall.
  let l := eval vm_compute in (seqZ 0 16) in change (seqZ 0 16) with l.
  repeat (apply Forall_cons; split; [eexists; split; [vm_compute; reflexivity|vm_compute; intuition discriminate]|]). by apply Forall_nil_2.
Qed.

(** [printnum] prints the digits of the number, padded on the left to the width. *)
Lemma printnum_run fuel num base width padc :
  2 ≤ base ≤ 16 → 0 ≤ num < base ^ Z.of_nat fuel → num < 2 ^ 64 → (0 < fuel)%nat →
  ∃ ds, printnum fuel num base width padc =
      Ret (replicate (Z.to_nat (width - Z.of_nat (length ds))) padc ++ ds) ∧
    ds ≠ [] ∧ Forall (digit_char base) ds ∧ value base ds 0 = num.
Proof.
  revert num width. induction fuel as [|fuel IH]; intros num width Hb Hn H64 Hf; [lia|].
  cbn [printnum]. rewrite do_div_run by lia. unfold mbind at 1, res_bind at 1.
  pose proof (Z.mod_pos_bound num base). pose proof (Z.div_mod num base).
  destruct (hex_digit (num mod base)) as (c & Hc & Hdig & Hr); [lia|].
  assert (digit_char base c) as Hdc by (exists (num mod base); split_and!; [done|lia..]).
  destruct (Z.leb_spec base num) as [Hge|Hlt].
  - assert (0 < num / base) as Hpos by (apply Z.div_str_pos; lia).
    assert (num / base < num) as Hless by (apply Z.div_lt; lia).
    rewrite Nat2Z.inj_succ, Z.pow_succ_r in Hn by lia.
    assert (num / base < base ^ Z.of_nat fuel) as Hup by (apply Z.div_lt_upper_bound; lia).
    destruct (IH (num / base) (width - 1)) as (ds & Hrun & Hne & Hall & Hval); [done|lia|lia| |].
    { destruct fuel; [simpl in Hup; lia|lia]. }
    exists (ds ++ [c]). split_and!.
    + rewrite Hrun. unfold mbind, res_bind. rewrite Hc. unfold mret, res_ret. rewrite length_app. simpl length.
      rewrite app_assoc. do 4 f_equal. lia.
    + destruct ds; discriminate.
    + apply Forall_app. split; [done|]. by apply Forall_cons.
    + unfold value. rewrite foldl_app. fold (value base ds 0). rewrite Hval. simpl. rewrite Hdig. simpl. lia.
  - exists [c]. split_and!; [|done|by apply Forall_cons|].
    + unfold mbind, res_bind, mret, res_ret. rewrite Hc. done.
    + unfold value. simpl. rewrite Hdig. simpl. rewrite Z.mod_small; lia.
Qed.

Lemma number_run f num base : 2 ≤ base ≤ 16 → 0 ≤ num < 2 ^ 64 →
  ∃ ds, number f num base = Ret (replicate (Z.to_nat (width f - Z.of_nat (length ds))) (padc f) ++ ds) ∧
    ds ≠ [] ∧ Forall (digit_char base) ds ∧ value base ds 0 = num.
Proof.
  intros Hb Hn. pose proof (Z.pow_le_mono_l 2 base 64 ltac:(lia)). apply printnum_run; lia.
Qed.

(** ** Reading numbers *)

(** The bytes of [l], none of them zero, followed by a zero byte. *)
Definition str_at (b : mem) (s : Z) (l : list Z) : Prop :=
  (∀ i c, l !! i = Some c → byte b (s + Z.of_nat i) = c ∧ 0 < c < 256) ∧ byte b (s + Z.of_nat (length l)) = 0.

Lemma str_at_cons b s c l : str_at b s (c :: l) → byte b s = c ∧ 0 < c < 256 ∧ str_at b (s + 1) l.
Proof.
  intros [H1 H2]. destruct (H1 0%nat c) as [Hc Hr]; [done|]. rewrite Z.add_0_r in Hc. split_and!; [done|lia|lia|split].
  - intros i c' Hi. destruct (H1 (S i) c' Hi) as [Hx ?]. split; [|done]. rewrite <-Hx. f_equal. lia.
  - rewrite <-H2. f_equal. simpl. lia.
Qed.

(** There is fuel for every character of a string and for its end. *)
Lemma str_at_size b s l : str_at b s l → (length l ≤ base.size b)%nat.
Proof.
  intros [H1 _]. rewrite <-size_dom.
  assert (list_to_set ((λ i, s + Z.of_nat i) <$> seq 0 (length l)) ⊆ dom b) as Hsub.
  { intros a Ha. apply elem_of_list_to_set, list_elem_of_fmap in Ha as (i & -> & Hi). apply elem_of_seq in Hi.
    destruct (lookup_lt_is_Some_2 l i) as [c Hc]; [lia|]. destruct (H1 i c Hc) as [Hb Hr]. apply elem_of_dom.
    unfold byte in Hb. destruct (b !! (s + Z.of_nat i)); [done|]. simpl in Hb. lia. }
  apply subseteq_size in Hsub. rewrite size_list_to_set, length_fmap, length_seq in Hsub; [done|].
  assert (Inj eq eq (λ i : nat, s + Z.of_nat i)) as Hinj by (intros i j ?; lia). apply (NoDup_fmap_2 _), NoDup_seq.
Qed.

Lemma s8_small c : 0 ≤ c < 128 → s8 c = c.
Proof. intros. unfold s8, u8. rewrite Z.mod_small by lia. by rewrite (proj2 (Z.ltb_lt _ _)) by lia. Qed.

Lemma s32_mod x y k : x = y + k * 2 ^ 32 → s32 x = s32 y.
Proof. intros ->. unfold s32, u32. by rewrite Z.mod_add. Qed.

Lemma s32_spec x : ∃ k, s32 x = x + k * 2 ^ 32.
Proof.
  unfold s32, u32. pose proof (Z.div_mod x (2 ^ 32)). case_decide; [exists (- (x / 2 ^ 32))|exists (- (x / 2 ^ 32) - 1)]; lia.
Qed.

(** The digits up to the end of a string; the value wraps around. *)
Lemma strtol_digits_run fuel b s base ds val :
  str_at b s ds → Forall (digit_char base) ds → (length ds < fuel)%nat →
  strtol_digits fuel s base (s32 val) b = Ret ((s32 (value base ds val), s + Z.of_nat (length ds)), b).
Proof.
  revert fuel s val. induction ds as [|c ds IH]; intros fuel s val Hs Hall Hf.
  - destruct fuel; [simpl in Hf; lia|]. destruct Hs as [_ Hz]. simpl in Hz |- *. rewrite Z.add_0_r in *.
    step using reflexivity. rewrite Hz. done.
  - destruct fuel as [|fuel]; [simpl in Hf; lia|]. apply str_at_cons in Hs as (Hc & _ & Hs').
    apply Forall_cons in Hall as [(d & Hd & Hdr & Hcr & _) Hall]. cbn [strtol_digits].
    step using reflexivity. rewrite Hc, s8_small, Hd by lia. rewrite (proj2 (Z.leb_gt _ _)) by lia.
    destruct (s32_spec val) as [k Hk]. rewrite (s32_mod (s32 val * base + d) (val * base + d) (k * base)) by lia.
    rewrite IH; [|done|done|simpl in Hf; lia]. unfold value. simpl. rewrite Hd. simpl. do 3 f_equal. lia.
Qed.

(** Decimal notation with a sign. *)
Definition decimal (n : Z) (l : list Z) : Prop :=
  ∃ ds, ds ≠ [] ∧ Forall (digit_char 10) ds ∧ value 10 ds 0 = Z.abs n ∧ l = if n <? 0 then 45 :: ds else ds.

Lemma strtol_decimal b s n l :
  str_at b s l → decimal n l → - 2 ^ 31 ≤ n < 2 ^ 31 →
  strtol s 10 b = Ret ((n, s + Z.of_nat (length l)), b).
Proof.
  intros Hs (ds & Hne & Hall & Hval & Hl) Hn. pose proof (str_at_size _ _ _ Hs) as Hsz. unfold strtol.
  step using reflexivity. set (fuel := S (base.size b)) in *.
  assert (∃ c l', l = c :: l' ∧ 0 < c < 256 ∧ c ≠ 32 ∧ c ≠ 9 ∧ byte b s = c ∧ (c =? 45) = (n <? 0) ∧ c ≠ 43) as
    (c & l' & Hcl & Hc0 & Hc1 & Hc2 & Hcb & Hc3 & Hc4).
  { destruct (n <? 0).
    - exists 45, ds. rewrite Hl in Hs. apply str_at_cons in Hs as (? & _ & _). split_and!; done || lia.
    - destruct ds as [|c ds']; [done|]. exists c, ds'. rewrite Hl in Hs. apply str_at_cons in Hs as (? & _ & _).
      apply Forall_cons in Hall as [(d & Hd & Hdr & Hcr & ? & ? & ?) _].
      split_and!; try done; try lia. intros ->. discriminate Hd. }
  assert (skip_blanks fuel s b = Ret (s, b)) as Hskip.
  { unfold fuel. cbn [skip_blanks]. step using reflexivity. rewrite Hcb.
    by rewrite (proj2 (Z.eqb_neq c 32)), (proj2 (Z.eqb_neq c 9)) by done. }
  step using (exact Hskip). step using reflexivity. rewrite Hcb, (proj2 (Z.eqb_neq c 43)) by done. simpl orb.
  step using reflexivity. step using reflexivity. change ((10 =? 0) || (10 =? 16)) with false. cbn [andb].
  change (10 =? 0) with false. cbn [andb]. cbv iota beta.
  assert (strtol_digits fuel (if c =? 45 then s + 1 else s) 10 0 b =
    Ret ((s32 (Z.abs n), s + Z.of_nat (length l)), b)) as Hdig.
  { rewrite Hc3, Hl, <-Hval. destruct (n <? 0).
    - rewrite Hl in Hs. apply str_at_cons in Hs as (_ & _ & Hs). change 0 with (s32 0) at 1.
      rewrite (strtol_digits_run fuel b (s + 1) 10 ds 0) by (done || (rewrite Hl in Hsz; simpl in Hsz; unfold fuel; lia)).
      do 3 f_equal. simpl. lia.
    - rewrite Hl in Hs. change 0 with (s32 0) at 1.
      by rewrite (strtol_digits_run fuel b s 10 ds 0) by (done || (rewrite Hl in Hsz; unfold fuel; lia)). }
  step using (exact Hdig). cbv beta iota. rewrite Hc3. destruct (Z.ltb_spec n 0) as [Hneg|Hpos].
  - unfold mret, M_ret. do 3 f_equal. destruct (s32_spec (Z.abs n)) as [k Hk].
    rewrite (s32_mod (- s32 (Z.abs n)) n (- k)) by lia. by apply s32_small.
  - unfold mret, M_ret. do 3 f_equal. rewrite Z.abs_eq by done. by apply s32_small.
Qed.

(** * Formatted output *)

(** A format whose arguments do not fit reads what is not there; nothing else goes wrong. *)
Definition fault_only {A} (r : res A) : Prop := match r with Ret _ => True | Err e => e = EFault end.

Lemma fault_only_bind {A B} (m : res A) (f : A → res B) :
  fault_only m → (∀ a, m = Ret a → fault_only (f a)) → fault_only (m ≫= f).
Proof. destruct m; simpl; auto. Qed.

Lemma field_digits_length acc fmt : (length (field_digits acc fmt).2 ≤ length fmt)%nat.
Proof.
  revert acc. induction fmt as [|c fmt IH]; intros acc; simpl; [done|]. case_match; [|done].
  specialize (IH (s32 (acc * 10 + c - 48))). lia.
Qed.

Lemma reswitch_run fuel f fmt args : (length fmt < fuel)%nat →
  fault_only (reswitch fuel f fmt args) ∧
  ∀ f' ch rest args', reswitch fuel f fmt args = Ret (f', ch, rest, args') → (length rest ≤ length fmt)%nat.
Proof.
  revert f fmt args. induction fuel as [|fuel IH]; intros f fmt args Hf; [lia|].
  destruct fmt as [|ch rest]; simpl in Hf |- *; [by split; [|intros ? ? ? ? [= <- <- <- <-]]|].
  assert (∀ f2 rest2 args2, (length rest2 ≤ length rest)%nat → fault_only (reswitch fuel f2 rest2 args2) ∧
    ∀ f' ch rest' args', reswitch fuel f2 rest2 args2 = Ret (f', ch, rest', args') → (length rest' ≤ S (length rest))%nat) as IH'.
  { intros f2 rest2 args2 Hle. destruct (IH f2 rest2 args2) as [H1 H2]; [lia|]. split; [done|].
    intros ? ? ? ? Hr. apply H2 in Hr. lia. }
  pose proof (field_digits_length (ch - 48) rest) as Hfd. destruct (field_digits (ch - 48) rest) as [p rest2].
  repeat case_match; simpl in *; try (by apply IH'); try (split; [done|congruence]).
  split; [done|]. intros ? ? ? ? [= <- <- <- <-]. lia.
Qed.

Lemma number_fault f num base : 2 ≤ base ≤ 16 → 0 ≤ num < 2 ^ 64 → fault_only (number f num base).
Proof. intros Hb Hn. destruct (number_run f num base Hb Hn) as (ds & -> & _). done. Qed.

Lemma u64_range x : 0 ≤ u64 x < 2 ^ 64.
Proof. apply Z.mod_pos_bound. lia. Qed.
Lemma getuint_range x l : 0 ≤ getuint x l < 2 ^ 64.
Proof. unfold getuint. pose proof (u64_range x). pose proof (u32_range x). case_match; lia. Qed.
Lemma getint_range x l : - 2 ^ 63 ≤ getint x l < 2 ^ 63.
Proof.
  unfold getint, s64. pose proof (s32_range x). pose proof (u64_range x).
  case_match; [|lia]. destruct (Z.ltb_spec (u64 x) (2 ^ 63)); lia.
Qed.

Lemma print_error_fault x : fault_only (print_error x).
Proof.
  unfold print_error. set (err := if s32 x <? 0 then _ else _). destruct (Z.ltb_spec err 0); [done|].
  destruct (if MAXERROR <? err then None else error_string err); [done|]. apply fault_only_bind; [|done].
  apply number_fault; [lia|]. pose proof (s32_range x). pose proof (s32_range (- s32 x)). unfold err in *.
  destruct (s32 x <? 0); lia.
Qed.

Lemma convert_fault f ch args : fault_only (convert f ch args).
Proof.
  unfold convert. cbv zeta.
  assert (∀ k, (∀ x, fault_only (k x)) → fault_only (match args with
    | AInt x :: args' => o ← k x; mret (Some (o, args')) | _ => Err EFault end : res (option (list Z * list arg)))) as Hint.
  { intros k Hk. destruct args as [|[x|l|] args']; simpl; try done. by apply fault_only_bind. }
  destruct (ch =? 99); [by apply Hint|]. destruct (ch =? 101); [apply Hint, print_error_fault|].
  destruct (ch =? 115); [by destruct args as [|[]]|].
  destruct (ch =? 100).
  { apply Hint. intros x. pose proof (getint_range x (lflag f)). destruct (Z.ltb_spec (getint x (lflag f)) 0).
    - apply fault_only_bind; [|done]. apply number_fault; [lia|apply u64_range].
    - apply number_fault; lia. }
  destruct (ch =? 117); [apply Hint; intros x; apply number_fault; [lia|apply getuint_range]|].
  destruct (ch =? 111); [apply Hint; intros x; apply number_fault; [lia|apply getuint_range]|].
  destruct (ch =? 112).
  { apply Hint. intros x. apply fault_only_bind; [|done]. apply number_fault; [lia|]. pose proof (u32_range x). lia. }
  destruct (ch =? 120); [apply Hint; intros x; apply number_fault; [lia|apply getuint_range]|].
  by destruct (ch =? 37).
Qed.

Lemma vprintfmt_fault fuel fmt args : (length fmt < fuel)%nat → fault_only (vprintfmt fuel fmt args).
Proof.
  revert fmt args. induction fuel as [|fuel IH]; intros fmt args Hf; [lia|].
  destruct fmt as [|c rest]; [done|]. cbn [vprintfmt]. simpl in Hf. destruct (negb (c =? 37)).
  { apply fault_only_bind; [apply IH; lia|done]. }
  destruct (reswitch_run (S (length rest)) flags0 rest args) as [H1 H2]; [lia|].
  apply fault_only_bind; [done|]. intros [[[f ch] rest'] args'] Hr. apply H2 in Hr.
  apply fault_only_bind; [apply convert_fault|]. intros [[o args'']|] _; (apply fault_only_bind; [apply IH; lia|done]).
Qed.

Lemma put_all_run ebuf buf cnt out b :
  0 ≤ buf → is_u32 ebuf → let k := Z.min (Z.of_nat (length out)) (Z.max 0 (ebuf - buf)) in
  ∃ b', put_all ebuf (buf, s32 cnt) out b = Ret ((buf + k, s32 (cnt + Z.of_nat (length out))), b') ∧
    ∀ a, byte b' a = if decide (buf ≤ a < buf + k) then u8 (out !!! Z.to_nat (a - buf)) else byte b a.
Proof.
  revert buf cnt b. induction out as [|c out IH]; intros buf cnt b H0 He k.
  { exists b. split; [simpl; rewrite Z.add_0_r; unfold mret, M_ret; do 3 f_equal; simpl in k; lia|].
    intros a. by rewrite decide_False by (simpl in k; lia). }
  assert (k = Z.min (Z.of_nat (length out) + 1) (Z.max 0 (ebuf - buf))) as Hk by (unfold k; simpl length; lia). clearbody k.
  assert (s32 (s32 cnt + 1) = s32 (cnt + 1)) as Hcnt.
  { destruct (s32_spec cnt) as [z Hz]. apply (s32_mod _ _ z). lia. }
  assert (cnt + Z.of_nat (length (c :: out)) = cnt + 1 + Z.of_nat (length out)) as -> by (simpl length; lia).
  cbn [put_all]. unfold sprintputch. cbn [fst snd]. rewrite Hcnt. destruct (Z.ltb_spec buf ebuf) as [Hlt|Hge].
  - rewrite (u32_small (buf + 1)) by lia.
    destruct (IH (buf + 1) (cnt + 1) (<[buf := u8 c]> b)) as (b' & Hrun & Hb); [lia|done|]. exists b'. split.
    + step using (reflexivity). rewrite Hrun. do 3 f_equal; simpl; lia.
    + intros a. rewrite Hb. unfold byte. destruct (decide (a = buf)) as [->|Hne].
      * rewrite decide_False, lookup_insert_eq, decide_True by lia. by rewrite Z.sub_diag.
      * rewrite lookup_insert_ne by done.
        destruct (decide (buf + 1 ≤ a < buf + 1 + Z.min (Z.of_nat (length out)) (Z.max 0 (ebuf - (buf + 1))))).
        -- rewrite decide_True by lia. replace (Z.to_nat (a - buf)) with (S (Z.to_nat (a - (buf + 1)))) by lia. done.
        -- by rewrite decide_False by lia.
  - destruct (IH buf (cnt + 1) b) as (b' & Hrun & Hb); [lia|done|]. exists b'. split.
    + step using (reflexivity). rewrite Hrun. do 3 f_equal; simpl; lia.
    + intros a. rewrite Hb. by rewrite !decide_False by lia.
Qed.

(** What is in the buffer: as many characters as fit, and a zero byte. *)
Definition printed (b b' : mem) (str size : Z) (out : list Z) : Prop :=
  let k := Z.min (Z.of_nat (length out)) (size - 1) in
  ∀ a, byte b' a = if decide (a = str + k) then 0
                   else if decide (str ≤ a < str + k) then u8 (out !!! Z.to_nat (a - str)) else byte b a.

(** A buffer of [size] bytes at [str] that does not reach past the end of the address space. *)
Definition buffer_at (str size : Z) : Prop := 0 < str ∧ 0 < size ∧ str + size ≤ 2 ^ 32.
#[global] Instance buffer_at_dec str size : Decision (buffer_at str size).
Proof. unfold buffer_at. apply _. Defined.

Lemma vsnprintf_run str size fmt args out b :
  buffer_at str size → vprintfmt (S (length fmt)) fmt args = Ret out →
  ∃ b', vsnprintf str size fmt args b = Ret (s32 (Z.of_nat (length out)), b') ∧ printed b b' str size out.
Proof.
  intros (Hstr & Hsize & Hend) Hout. unfold vsnprintf. cbv zeta. rewrite u32_small by lia.
  rewrite (proj2 (Z.eqb_neq str 0)) by lia. rewrite (proj2 (Z.ltb_ge _ _)) by lia. cbn [orb].
  destruct (put_all_run (str + size - 1) str 0 out b) as (b1 & Hput & Hb1); [lia|lia|].
  set (k := Z.min (Z.of_nat (length out)) (Z.max 0 (str + size - 1 - str))) in *.
  exists (<[str + k := u8 0]> b1). split.
  - erewrite (M_bind_step _ _ b out b) by (by rewrite Hout). by step using (exact Hput).
  - intros a. unfold byte at 1. replace (Z.min (Z.of_nat (length out)) (size - 1)) with k by lia.
    destruct (decide (a = str + k)) as [->|Hne]; [by rewrite lookup_insert_eq|].
    rewrite lookup_insert_ne by done. apply Hb1.
Qed.

(** C39: [vsnprintf] ends, writes nothing outside the [size] bytes of the buffer, leaves there a string with
    as many of the characters as fit, and returns how many characters the whole output has (as a 32-bit int).
    A null buffer, one of size 0 and one that reaches past the end of the address space are refused with
    -E_INVAL and nothing is written.  When the conversion itself faults, on an argument that is missing, is of
    the wrong kind, or is the smallest int given to %e, [vsnprintf] faults too; there is no other error. *)
Theorem vsnprintf_correct str size fmt args b :
  is_u32 str → is_u32 size →
  if decide (buffer_at str size) then
    match vprintfmt (S (length fmt)) fmt args with
    | Ret out => ∃ b', vsnprintf str size fmt args b = Ret (s32 (Z.of_nat (length out)), b') ∧ printed b b' str size out
    | Err e => e = EFault ∧ vsnprintf str size fmt args b = Err EFault
    end
  else vsnprintf str size fmt args b = Ret (- E_INVAL, b).
Proof.
  intros Hstr Hsize. case_decide as Hd.
  - pose proof (vprintfmt_fault (S (length fmt)) fmt args ltac:(lia)) as Hf.
    destruct (vprintfmt (S (length fmt)) fmt args) as [out|e] eqn:Hout; [by apply vsnprintf_run|].
    simpl in Hf. subst e. split; [done|]. destruct Hd as (? & ? & ?). unfold vsnprintf. cbv zeta. rewrite u32_small by lia.
    rewrite (proj2 (Z.eqb_neq str 0)), (proj2 (Z.ltb_ge _ _)) by lia. cbn [orb]. apply M_bind_err. cbv beta. by rewrite Hout.
  - unfold vsnprintf. destruct (Z.eqb_spec str 0) as [|Hne]; [done|]. rewrite (proj2 (Z.ltb_lt _ _)); [done|].
    unfold buffer_at in Hd. destruct (decide (size = 0)) as [->|]; [rewrite u32_small; lia|].
    unfold u32. rewrite <-(Z.mod_unique (str + size - 1) (2 ^ 32) 1 (str + size - 1 - 2 ^ 32)); lia.
Qed.

(** The output of [printf] for an integer. *)
Lemma print_decimal n : - 2 ^ 31 ≤ n < 2 ^ 31 → ∃ l, vprintfmt 3 (codes "%d") [AInt n] = Ret l ∧ decimal n l.
Proof.
  intros Hn. assert (∀ r, convert flags0 100 [AInt n] = Ret (Some (r, [])) → vprintfmt 3 (codes "%d") [AInt n] = Ret r) as Hv.
  { intros r Hr. change (codes "%d") with [37; 100]. cbn [vprintfmt]. change (negb (37 =? 37)) with false. cbv iota.
    change (reswitch (S (length [100])) flags0 [100] [AInt n]) with (Ret (flags0, 100, @nil Z, [AInt n])).
    unfold mbind, res_bind, mret, res_ret. cbv beta iota. rewrite Hr. by rewrite app_nil_r. }
  assert (getint n 0 = n) as Hg by (unfold getint; simpl; by apply s32_small).
  assert (number flags0 (Z.abs n) 10 = number flags0 (if n <? 0 then u64 (- n) else n) 10) as Hab.
  { f_equal. destruct (Z.ltb_spec n 0); [|lia]. unfold u64. rewrite Z.mod_small; lia. }
  destruct (number_run flags0 (Z.abs n) 10) as (ds & Hrun & Hne & Hall & Hval); [lia|lia|].
  rewrite Hab in Hrun. replace (Z.to_nat (width flags0 - Z.of_nat (length ds))) with 0%nat in Hrun by (simpl; lia). simpl in Hrun.
  exists (if n <? 0 then 45 :: ds else ds). split; [|by exists ds].
  apply Hv. unfold convert. simpl. rewrite Hg. destruct (n <? 0).
  - unfold mbind, res_bind, mret, res_ret. by rewrite Hrun.
  - unfold mbind, res_bind, mret, res_ret. by rewrite Hrun.
Qed.

Lemma decimal_bytes n l : decimal n l → ∀ i c, l !! i = Some c → 0 < c < 128.
Proof.
  intros (ds & _ & Hall & _ & ->) i c Hc. rewrite Forall_forall in Hall.
  assert (c = 45 ∨ c ∈ ds) as [->|Hin].
  { destruct (n <? 0); [destruct i; simplify_eq/=; [by left|]|]; right; by eapply list_elem_of_lookup_2. }
  - lia.
  - destruct (Hall c Hin) as (d & _ & _ & ? & _). done.
Qed.

(** What [snprintf] writes for an integer, [strtol] reads back: with a buffer that holds all of it, the
    number printed with "%d" is the number that [strtol] finds there in base 10, up to the end of the string. *)
Theorem print_strtol_roundtrip str size n b :
  buffer_at str size → - 2 ^ 31 ≤ n < 2 ^ 31 →
  ∃ len b', snprintf str size "%d" [AInt n] b = Ret (s32 len, b') ∧
    (len < size → strtol str 10 b' = Ret ((n, str + len), b')).
Proof.
  intros Hbuf Hn. destruct (print_decimal n Hn) as (l & Hl & Hdec).
  destruct (vsnprintf_run str size (codes "%d") [AInt n] l b Hbuf Hl) as (b' & Hrun & Hp).
  exists (Z.of_nat (length l)), b'. split; [exact Hrun|]. intros Hlt.
  apply strtol_decimal; [|done|done]. unfold printed in Hp. rewrite Z.min_l in Hp by lia. split.
  - intros i c Hc. pose proof (lookup_lt_Some _ _ _ Hc). pose proof (decimal_bytes n l Hdec i c Hc).
    split; [|lia]. rewrite Hp, decide_False, decide_True by lia.
    replace (str + Z.of_nat i - str) with (Z.of_nat i) by lia. rewrite Nat2Z.id.
    rewrite (list_lookup_total_correct _ _ _ Hc). unfold u8. rewrite Z.mod_small; lia.
  - by rewrite Hp, decide_True by lia.
Qed.

(** ** Witnesses *)

Lemma memmove_correct_witness :
  ∃ b', memmove 11 10 3 {[ 10 := 1; 11 := 2; 12 := 3 ]} = Ret (11, b') ∧ byte b' 13 = 3 ∧ byte b' 10 = 1.
Proof.
  destruct (memmove_correct 11 10 3 {[ 10 := 1; 11 := 2; 12 := 3 ]}) as (b' & Hrun & Hm); [lia|].
  exists b'. split; [exact Hrun|]. split; [exact (Hm 13)|exact (Hm 10)].
Defined.

Lemma print_strtol_roundtrip_witness :
  ∃ len b', snprintf 0x1000 32 "%d" [AInt (-204)] ∅ = Ret (s32 len, b') ∧
    (len < 32 → strtol 0x1000 10 b' = Ret ((-204, 0x1000 + len), b')).
Proof. apply (print_strtol_roundtrip 0x1000 32 (-204) ∅); unfold buffer_at; lia. Defined.

Lemma vsnprintf_correct_witness :
  (∃ b', vsnprintf 0x1000 4 (codes "%d!") [AInt (-204)] ∅ = Ret (5, b') ∧ byte b' 0x1002 = 48 ∧ byte b' 0x1003 = 0) ∧
  vsnprintf 0x1000 0xFFFFFFFF (codes "%d!") [AInt (-204)] ∅ = Ret (- E_INVAL, ∅).
Proof.
  split.
  - destruct (vsnprintf_correct 0x1000 4 (codes "%d!") [AInt (-204)] ∅ ltac:(lia) ltac:(lia)) as (b' & Hrun & Hb).
    exists b'. split; [exact Hrun|]. split; [exact (Hb 0x1002)|exact (Hb 0x1003)].
  - exact (vsnprintf_correct 0x1000 0xFFFFFFFF (codes "%d!") [AInt (-204)] ∅ ltac:(lia) ltac:(lia)).
Defined.

End Cstring.
