(* ===== verification/Console.v ===== *)
(** The console: kern/driver/console.c and picirq.c, with the printing and reading of kern/libs/stdio.c and
    readline.c on top of it.

    Ports are accessed through the class [ports]; what the serial line and the keyboard controller answer is
    the class [input_dev].  The text memory of the display is byte memory, written two bytes at a time. *)
From Stdlib Require Import Ascii String.
From S2P Require Import Prelude Cstring.

Module Console.
Import Cstring.
Set Default Proof Using "Type".

(** The instructions [inb] and [outb] on a machine in state [P]. *)
Class ports (P : Type) := { inb : Z → P → Z * P; outb : Z → Z → P → P }.

(** * Constants *)

Definition COM1 : Z := 0x3F8.
Definition COM_RX : Z := 0.
Definition COM_TX : Z := 0.
Definition COM_DLL : Z := 0.
Definition COM_DLM : Z := 1.
Definition COM_IER : Z := 1.
Definition COM_IER_RDI : Z := 1.
Definition COM_IIR : Z := 2.
Definition COM_FCR : Z := 2.
Definition COM_LCR : Z := 3.
Definition COM_LCR_DLAB : Z := 0x80.
Definition COM_LCR_WLEN8 : Z := 3.
Definition COM_MCR : Z := 4.
Definition COM_LSR : Z := 5.
Definition COM_LSR_DATA : Z := 1.
Definition COM_LSR_TXRDY : Z := 0x20.
Definition CRT_ROWS : Z := 25.
Definition CRT_COLS : Z := 80.
Definition CRT_SIZE : Z := CRT_ROWS * CRT_COLS.
Definition LPTPORT : Z := 0x378.
Definition CONSBUFSIZE : Z := 512.
Definition KBSTATP : Z := 0x64.
Definition KBS_DIB : Z := 1.
Definition KBDATAP : Z := 0x60.
Definition IO_PIC1 : Z := 0x20.
Definition IO_PIC2 : Z := 0xA0.
Definition IRQ_SLAVE : Z := 2.
Definition IRQ_OFFSET : Z := 32.
Definition IRQ_KBD : Z := 1.
Definition IRQ_COM1 : Z := 4.

Definition SHIFT : Z := Z.shiftl 1 0.
Definition CTL : Z := Z.shiftl 1 1.
Definition ALT : Z := Z.shiftl 1 2.
Definition CAPSLOCK : Z := Z.shiftl 1 3.
Definition NUMLOCK : Z := Z.shiftl 1 4.
Definition SCROLLLOCK : Z := Z.shiftl 1 5.
Definition E0ESC : Z := Z.shiftl 1 6.

Definition KEY_HOME : Z := 0xE0.
Definition KEY_END : Z := 0xE1.
Definition KEY_UP : Z := 0xE2.
Definition KEY_DN : Z := 0xE3.
Definition KEY_LF : Z := 0xE4.
Definition KEY_RT : Z := 0xE5.
Definition KEY_PGUP : Z := 0xE6.
Definition KEY_PGDN : Z := 0xE7.
Definition KEY_INS : Z := 0xE8.
Definition KEY_DEL : Z := 0xE9.

(** * Tables of the keyboard *)

(** An initialised array of 256 bytes: the entries from 0 on, and the designated ones. *)
Definition table (from0 : list Z) (designated : list (Z * Z)) (i : Z) : Z :=
  default (nth (Z.to_nat i) from0 0) ((list_to_map designated : gmap Z Z) !! i).

Definition shiftcode : Z → Z :=
  table [] [(0x1D, CTL); (0x2A, SHIFT); (0x36, SHIFT); (0x38, ALT); (0x9D, CTL); (0xB8, ALT)].
Definition togglecode : Z → Z := table [] [(0x3A, CAPSLOCK); (0x45, NUMLOCK); (0x46, SCROLLLOCK)].

Definition keypad : list (Z * Z) :=
  [(0xC7, KEY_HOME); (0x9C, 10); (0xB5, 47); (0xC8, KEY_UP); (0xC9, KEY_PGUP); (0xCB, KEY_LF);
   (0xCD, KEY_RT); (0xCF, KEY_END); (0xD0, KEY_DN); (0xD1, KEY_PGDN); (0xD2, KEY_INS); (0xD3, KEY_DEL)].

Definition normalmap : Z → Z := table
  [0; 27; 49; 50; 51; 52; 53; 54;          (*  ESC 1 2 3 4 5 6 *)
   55; 56; 57; 48; 45; 61; 8; 9;           (* 7 8 9 0 - = BS TAB *)
   113; 119; 101; 114; 116; 121; 117; 105; (* q w e r t y u i *)
   111; 112; 91; 93; 10; 0; 97; 115;       (* o p [ ] NL . a s *)
   100; 102; 103; 104; 106; 107; 108; 59;  (* d f g h j k l ; *)
   39; 96; 0; 92; 122; 120; 99; 118;       (* ' ` . \ z x c v *)
   98; 110; 109; 44; 46; 47; 0; 42;        (* b n m , . / . * *)
   0; 32; 0; 0; 0; 0; 0; 0;
   0; 0; 0; 0; 0; 0; 0; 55;
   56; 57; 45; 52; 53; 54; 43; 49;
   50; 51; 48; 46; 0; 0; 0; 0] keypad.

Definition shiftmap : Z → Z := table
  [0; 27; 33; 64; 35; 36; 37; 94;          (*  ESC ! @ # $ % ^ *)
   38; 42; 40; 41; 95; 43; 8; 9;           (* & * ( ) _ + BS TAB *)
   81; 87; 69; 82; 84; 89; 85; 73;         (* Q W E R T Y U I *)
   79; 80; 123; 125; 10; 0; 65; 83;        (* O P { } NL . A S *)
   68; 70; 71; 72; 74; 75; 76; 58;         (* D F G H J K L : *)
   34; 126; 0; 124; 90; 88; 67; 86;        (* quote ~ . | Z X C V *)
   66; 78; 77; 60; 62; 63; 0; 42;          (* B N M < > ? . * *)
   0; 32; 0; 0; 0; 0; 0; 0;
   0; 0; 0; 0; 0; 0; 0; 55;
   56; 57; 45; 52; 53; 54; 43; 49;
   50; 51; 48; 46; 0; 0; 0; 0] keypad.

Definition C (x : Z) : Z := u8 (x - 64).
Definition ctlmap : Z → Z := table
  [0; 0; 0; 0; 0; 0; 0; 0; 0; 0; 0; 0; 0; 0; 0; 0;
   C 81; C 87; C 69; C 82; C 84; C 89; C 85; C 73;
   C 79; C 80; 0; 0; 13; 0; C 65; C 83;
   C 68; C 70; C 71; C 72; C 74; C 75; C 76; 0;
   0; 0; 0; C 92; C 90; C 88; C 67; C 86;
   C 66; C 78; C 77; 0; 0; C 47; 0; 0]
  [(0x97, KEY_HOME); (0xB5, C 47); (0xC8, KEY_UP); (0xC9, KEY_PGUP); (0xCB, KEY_LF); (0xCD, KEY_RT);
   (0xCF, KEY_END); (0xD0, KEY_DN); (0xD1, KEY_PGDN); (0xD2, KEY_INS); (0xD3, KEY_DEL)].

Definition charcode (i : Z) : Z → Z :=
  if i =? 0 then normalmap else if i =? 1 then shiftmap else ctlmap.

(** * State *)

Record console (P : Type) := mkConsole {
  hw : P;
  text : mem;                                  (* text memory of the display *)
  crt_buf : Z; crt_pos : Z; addr_6845 : Z;
  serial_exists : bool;
  cbuf : gmap Z Z; rpos : Z; wpos : Z;         (* cons *)
  shift : Z;                                   (* of kbd_proc_data *)
  irq_mask : Z; did_init : bool }.
Arguments mkConsole {P}.
Arguments hw {P}. Arguments text {P}. Arguments crt_buf {P}. Arguments crt_pos {P}. Arguments addr_6845 {P}.
Arguments serial_exists {P}. Arguments cbuf {P}. Arguments rpos {P}. Arguments wpos {P}. Arguments shift {P}.
Arguments irq_mask {P}. Arguments did_init {P}.

Section console.
Context {P : Type} `{ports P}.
Implicit Types s : console P.

Definition set_hw s x : console P := mkConsole x (text s) (crt_buf s) (crt_pos s) (addr_6845 s) (serial_exists s) (cbuf s) (rpos s) (wpos s) (shift s) (irq_mask s) (did_init s).
Definition set_text s x : console P := mkConsole (hw s) x (crt_buf s) (crt_pos s) (addr_6845 s) (serial_exists s) (cbuf s) (rpos s) (wpos s) (shift s) (irq_mask s) (did_init s).
Definition set_crt_pos s x : console P := mkConsole (hw s) (text s) (crt_buf s) x (addr_6845 s) (serial_exists s) (cbuf s) (rpos s) (wpos s) (shift s) (irq_mask s) (did_init s).
Definition set_serial s x : console P := mkConsole (hw s) (text s) (crt_buf s) (crt_pos s) (addr_6845 s) x (cbuf s) (rpos s) (wpos s) (shift s) (irq_mask s) (did_init s).
Definition set_cons s b r w : console P := mkConsole (hw s) (text s) (crt_buf s) (crt_pos s) (addr_6845 s) (serial_exists s) b r w (shift s) (irq_mask s) (did_init s).
Definition set_shift s x : console P := mkConsole (hw s) (text s) (crt_buf s) (crt_pos s) (addr_6845 s) (serial_exists s) (cbuf s) (rpos s) (wpos s) x (irq_mask s) (did_init s).
Definition set_irq s m d : console P := mkConsole (hw s) (text s) (crt_buf s) (crt_pos s) (addr_6845 s) (serial_exists s) (cbuf s) (rpos s) (wpos s) (shift s) m d.

Definition in8 (port : Z) : M (console P) Z := λ s, let '(v, h) := inb port (hw s) in Ret (u8 v, set_hw s h).
Definition out8 (port v : Z) : M (console P) unit := modify (λ s, set_hw s (outb port (u8 v) (hw s))).
Definition in_text {A} (c : M mem A) : M (console P) A := λ s,
  match c (text s) with Ret (a, b) => Ret (a, set_text s b) | Err e => Err e end.

(** * Output *)

Definition delay : M (console P) unit := in8 0x84 ;; in8 0x84 ;; in8 0x84 ;; in8 0x84 ;; mret tt.

(** [for (i = 0; !(inb(port) & mask) && i < n; i ++) delay();] *)
Fixpoint wait_bit (n : nat) (port mask : Z) : M (console P) unit :=
  v ← in8 port;
  if negb (Z.land v mask =? 0) then mret tt else
  match n with
  | O => mret tt
  | S n' => delay ;; wait_bit n' port mask
  end.
Definition spins : nat := Z.to_nat 12800.

Definition lpt_putc_sub (c : Z) : M (console P) unit :=
  wait_bit spins (LPTPORT + 1) 0x80 ;;
  out8 (LPTPORT + 0) c ;;
  out8 (LPTPORT + 2) (Z.lor (Z.lor 0x08 0x04) 0x01) ;;
  out8 (LPTPORT + 2) 0x08.
Definition lpt_putc (c : Z) : M (console P) unit :=
  if negb (c =? 8) then lpt_putc_sub c else lpt_putc_sub 8 ;; lpt_putc_sub 32 ;; lpt_putc_sub 8.

(** [crt_buf[i] = v]. *)
Definition cell_set (i v : Z) : M (console P) unit :=
  a ← gets crt_buf;
  in_text (write (a + 2 * i) v) ;;
  in_text (write (a + 2 * i + 1) (Z.shiftr v 8)).

(** The loop that clears the last row. *)
Fixpoint clear_cells (n : nat) (i : Z) : M (console P) unit :=
  match n with
  | O => mret tt
  | S n' => cell_set i (Z.lor 0x0700 32) ;; clear_cells n' (i + 1)
  end.

(** The switch of [cga_putc], and its scrolling. *)
Definition cga_place (c : Z) : M (console P) unit :=
  let k := Z.land c 0xFF in
  if k =? 8 then
    p ← gets crt_pos;
    when (0 <? p) (modify (λ s, set_crt_pos s (u16 (p - 1))) ;; cell_set (p - 1) (Z.lor (Z.land c (Z.lnot 0xFF)) 32))
  else if (k =? 10) || (k =? 13) then
    when (k =? 10) (modify (λ s, set_crt_pos s (u16 (crt_pos s + CRT_COLS)))) ;;
    modify (λ s, set_crt_pos s (u16 (crt_pos s - crt_pos s mod CRT_COLS)))
  else
    p ← gets crt_pos;
    cell_set p c ;;
    modify (λ s, set_crt_pos s (u16 (p + 1))).

Definition cga_scroll : M (console P) unit :=
  a ← gets crt_buf;
  _ ← in_text (memmove a (a + 2 * CRT_COLS) ((CRT_SIZE - CRT_COLS) * 2));
  clear_cells (Z.to_nat CRT_COLS) (CRT_SIZE - CRT_COLS) ;;
  modify (λ s, set_crt_pos s (u16 (crt_pos s - CRT_COLS))).

Definition cga_putc (c : Z) : M (console P) unit :=
  let c := if Z.land c (Z.lnot 0xFF) =? 0 then Z.lor c 0x0700 else c in
  cga_place c ;;
  p ← gets crt_pos;
  when (CRT_SIZE <=? p) cga_scroll ;;
  a ← gets addr_6845;
  p ← gets crt_pos;
  out8 a 14 ;;
  out8 (a + 1) (Z.shiftr p 8) ;;
  out8 a 15 ;;
  out8 (a + 1) p.

Definition serial_putc_sub (c : Z) : M (console P) unit :=
  wait_bit spins (COM1 + COM_LSR) COM_LSR_TXRDY ;;
  out8 (COM1 + COM_TX) c.
Definition serial_putc (c : Z) : M (console P) unit :=
  if negb (c =? 8) then serial_putc_sub c else serial_putc_sub 8 ;; serial_putc_sub 32 ;; serial_putc_sub 8.

Definition cons_putc (c : Z) : M (console P) unit := lpt_putc c ;; cga_putc c ;; serial_putc c.

(** kern/libs/stdio.c. *)
Fixpoint cputch_all (out : list Z) (cnt : Z) : M (console P) Z :=
  match out with
  | [] => mret cnt
  | c :: out' => cons_putc c ;; cputch_all out' (cnt + 1)
  end.
Definition vcprintf (fmt : list Z) (args : list arg) : M (console P) Z :=
  out ← (λ s, o ← vprintfmt (S (length fmt)) fmt args; mret (o, s));
  cputch_all out 0.
Definition cprintf (fmt : string) (args : list arg) : M (console P) Z := vcprintf (codes fmt) args.
Definition cputchar (c : Z) : M (console P) unit := cons_putc c.
Definition cputs (str : list Z) : M (console P) Z :=
  n ← cputch_all (s8 <$> str) 0; cons_putc 10 ;; mret (n + 1).

(** * Input *)

Definition serial_proc_data : M (console P) Z :=
  v ← in8 (COM1 + COM_LSR);
  if Z.land v COM_LSR_DATA =? 0 then mret (-1) else
  c ← in8 (COM1 + COM_RX);
  mret (if c =? 127 then 8 else c).

(** [cons.buf[cons.wpos ++] = c], with the wrap-around. *)
Definition cons_store (c : Z) : M (console P) unit :=
  w ← gets wpos;
  _ ← deref (λ s, cbuf s !! w);
  modify (λ s, set_cons s (<[w := u8 c]> (cbuf s)) (rpos s) (if w + 1 =? CONSBUFSIZE then 0 else w + 1)).

Fixpoint cons_intr (fuel : nat) (proc : M (console P) Z) : M (console P) unit :=
  match fuel with
  | O => fail EFuel
  | S fuel' =>
      c ← proc;
      if c =? -1 then mret tt else
      when (negb (c =? 0)) (cons_store c) ;;
      cons_intr fuel' proc
  end.

Definition serial_intr (fuel : nat) : M (console P) unit :=
  e ← gets serial_exists; when e (cons_intr fuel serial_proc_data).

(** The scan code [data] in the state [shift]: the new state and the character, 0 when there is none. *)
Definition kbd_decode (shift data : Z) : Z * Z :=
  if data =? 0xE0 then (Z.lor shift E0ESC, 0)
  else if negb (Z.land data 0x80 =? 0) then
    let data := if negb (Z.land shift E0ESC =? 0) then data else Z.land data 0x7F in
    (Z.land shift (Z.lnot (Z.lor (shiftcode data) E0ESC)), 0)
  else
    let '(data, shift) :=
      if negb (Z.land shift E0ESC =? 0) then (Z.lor data 0x80, Z.land shift (Z.lnot E0ESC)) else (data, shift) in
    let shift := Z.lxor (Z.lor shift (shiftcode data)) (togglecode data) in
    let c := charcode (Z.land shift (Z.lor CTL SHIFT)) data in
    (shift,
     if negb (Z.land shift CAPSLOCK =? 0) then
       if (97 <=? c) && (c <=? 122) then c + (65 - 97)
       else if (65 <=? c) && (c <=? 90) then c + (97 - 65) else c
     else c).

Definition kbd_proc_data : M (console P) Z :=
  v ← in8 KBSTATP;
  if Z.land v KBS_DIB =? 0 then mret (-1) else
  data ← in8 KBDATAP;
  sh ← gets shift;
  let '(sh', c) := kbd_decode sh data in
  modify (λ s, set_shift s sh') ;;
  when ((Z.land (Z.lnot sh') (Z.lor CTL ALT) =? 0) && (c =? KEY_DEL))
    (_ ← vcprintf (codes "Rebooting!" ++ [10]) []; out8 0x92 0x3) ;;
  mret c.

Definition kbd_intr (fuel : nat) : M (console P) unit := cons_intr fuel kbd_proc_data.

Definition cons_getc (fuel : nat) : M (console P) Z :=
  serial_intr fuel ;;
  kbd_intr fuel ;;
  r ← gets rpos;
  w ← gets wpos;
  if negb (r =? w) then
    c ← deref (λ s, cbuf s !! r);
    modify (λ s, set_cons s (cbuf s) (if r + 1 =? CONSBUFSIZE then 0 else r + 1) w) ;;
    mret c
  else mret 0.

(** kern/libs/stdio.c and readline.c. *)
Fixpoint getchar (tries fuel : nat) : M (console P) Z :=
  match tries with
  | O => fail EFuel
  | S tries' => c ← cons_getc fuel; if c =? 0 then getchar tries' fuel else mret c
  end.

Definition BUFSIZE : Z := 1024.
(** The line is in [buf], from 0 on; [None] is the null pointer. *)
Fixpoint readline_loop (n tries fuel : nat) (buf : mem) (i : Z) : M (console P) (option mem) :=
  match n with
  | O => fail EFuel
  | S n' =>
      c ← getchar tries fuel;
      if c <? 0 then mret None
      else if (32 <=? c) && (i <? BUFSIZE - 1) then
        cputchar c ;; readline_loop n' tries fuel (<[i := u8 c]> buf) (i + 1)
      else if (c =? 8) && (0 <? i) then
        cputchar c ;; readline_loop n' tries fuel buf (i - 1)
      else if (c =? 10) || (c =? 13) then
        cputchar c ;; mret (Some (<[i := 0]> buf))
      else readline_loop n' tries fuel buf i
  end.
Definition readline (n tries fuel : nat) (prompt : option (list Z)) (buf : mem) : M (console P) (option mem) :=
  _ ← match prompt with Some p => cprintf "%s" [AStr p] | None => mret 0 end;
  readline_loop n tries fuel buf 0.

(** * Initialisation *)

(** kern/driver/picirq.c. *)
Definition pic_setmask (mask : Z) : M (console P) unit :=
  modify (λ s, set_irq s (u16 mask) (did_init s)) ;;
  d ← gets did_init;
  when d (out8 (IO_PIC1 + 1) (u16 mask) ;; out8 (IO_PIC2 + 1) (Z.shiftr (u16 mask) 8)).
Definition pic_enable (irq : Z) : M (console P) unit :=
  m ← gets irq_mask; pic_setmask (Z.land m (Z.lnot (Z.shiftl 1 irq))).
Definition pic_init : M (console P) unit :=
  modify (λ s, set_irq s (irq_mask s) true) ;;
  out8 (IO_PIC1 + 1) 0xFF ;; out8 (IO_PIC2 + 1) 0xFF ;;
  out8 IO_PIC1 0x11 ;; out8 (IO_PIC1 + 1) IRQ_OFFSET ;; out8 (IO_PIC1 + 1) (Z.shiftl 1 IRQ_SLAVE) ;; out8 (IO_PIC1 + 1) 0x3 ;;
  out8 IO_PIC2 0x11 ;; out8 (IO_PIC2 + 1) (IRQ_OFFSET + 8) ;; out8 (IO_PIC2 + 1) IRQ_SLAVE ;; out8 (IO_PIC2 + 1) 0x3 ;;
  out8 IO_PIC1 0x68 ;; out8 IO_PIC1 0x0a ;; out8 IO_PIC2 0x68 ;; out8 IO_PIC2 0x0a ;;
  m ← gets irq_mask;
  when (negb (m =? 0xFFFF)) (pic_setmask m).

Definition serial_init : M (console P) unit :=
  out8 (COM1 + COM_FCR) 0 ;;
  out8 (COM1 + COM_LCR) COM_LCR_DLAB ;;
  out8 (COM1 + COM_DLL) (u8 (115200 / 9600)) ;;
  out8 (COM1 + COM_DLM) 0 ;;
  out8 (COM1 + COM_LCR) (Z.land COM_LCR_WLEN8 (Z.lnot COM_LCR_DLAB)) ;;
  out8 (COM1 + COM_MCR) 0 ;;
  out8 (COM1 + COM_IER) COM_IER_RDI ;;
  v ← in8 (COM1 + COM_LSR);
  modify (λ s, set_serial s (negb (v =? 0xFF))) ;;
  in8 (COM1 + COM_IIR) ;;
  in8 (COM1 + COM_RX) ;;
  when (negb (v =? 0xFF)) (pic_enable IRQ_COM1).

Definition kbd_init (fuel : nat) : M (console P) unit := kbd_intr fuel ;; pic_enable IRQ_KBD.

End console.

(** * What the devices answer *)

Definition CGA_BASE : Z := 0x3D4.
Definition MONO_BASE : Z := 0x3B4.

(** Registers that configure the serial line or the keyboard controller. *)
Definition control_port (port : Z) : Prop := COM1 < port ≤ COM1 + 7 ∨ port = KBDATAP ∨ port = KBSTATP.

(** [serial_in] and [kbd_in] are the bytes that wait at the serial line and at the keyboard controller: the status
    registers tell whether there are any, reading the data register takes the first one, and other accesses
    leave them. *)
Class input_dev (P : Type) `{ports P} := {
  serial_in : P → list Z;
  kbd_in : P → list Z;
  inb_keeps port p : port ≠ COM1 + COM_RX → port ≠ KBDATAP →
    serial_in (inb port p).2 = serial_in p ∧ kbd_in (inb port p).2 = kbd_in p;
  outb_keeps port v p : ¬ control_port port → serial_in (outb port v p) = serial_in p ∧ kbd_in (outb port v p) = kbd_in p;
  lsr_data p : Z.land (u8 (inb (COM1 + COM_LSR) p).1) COM_LSR_DATA = 0 ↔ serial_in p = [];
  rx_data p c l : serial_in p = c :: l →
    u8 (inb (COM1 + COM_RX) p).1 = c ∧ serial_in (inb (COM1 + COM_RX) p).2 = l ∧ kbd_in (inb (COM1 + COM_RX) p).2 = kbd_in p;
  kb_status p : Z.land (u8 (inb KBSTATP p).1) KBS_DIB = 0 ↔ kbd_in p = [];
  kb_data p c l : kbd_in p = c :: l →
    u8 (inb KBDATAP p).1 = c ∧ kbd_in (inb KBDATAP p).2 = l ∧ serial_in (inb KBDATAP p).2 = serial_in p }.

Section proofs.
Context {P : Type} `{input_dev P}.
Implicit Types s : console P.

(** ** Output only writes ports *)

Definition addr_ok s : Prop := addr_6845 s = CGA_BASE ∨ addr_6845 s = MONO_BASE.
Definition same_in (h h' : P) : Prop := serial_in h' = serial_in h ∧ kbd_in h' = kbd_in h.

Definition hw_only {A} (m : M (console P) A) : Prop :=
  ∀ s, addr_ok s → ∃ a h, m s = Ret (a, set_hw s h) ∧ same_in (hw s) h.

Lemma same_in_trans h1 h2 h3 : same_in h1 h2 → same_in h2 h3 → same_in h1 h3.
Proof. unfold same_in. intros [-> ->] [-> ->]. done. Qed.

Lemma hw_ret {A} (a : A) : hw_only (mret a).
Proof. intros s _. exists a, (hw s). split; [by destruct s|done]. Qed.

Lemma hw_bind {A B} (m : M (console P) A) (f : A → M (console P) B) : hw_only m → (∀ a, hw_only (f a)) → hw_only (m ≫= f).
Proof.
  intros Hm Hf s Hs. destruct (Hm s Hs) as (a & h & E & Hh). destruct (Hf a (set_hw s h) Hs) as (b & h' & E' & Hh').
  exists b, h'. split; [step_by E; exact E'|]. unfold same_in in *. simpl in *. naive_solver congruence.
Qed.

Lemma hw_in8 port : port ≠ COM1 + COM_RX → port ≠ KBDATAP → hw_only (in8 port).
Proof.
  intros H1 H2 s _. unfold in8. destruct (inb port (hw s)) as [v h] eqn:E. exists (u8 v), h. split; [done|].
  pose proof (inb_keeps port (hw s) H1 H2) as Hk. by rewrite E in Hk.
Qed.

Lemma hw_out8 port v : ¬ control_port port → hw_only (out8 port v).
Proof. intros Hp s _. eexists _, _. split; [reflexivity|]. by apply outb_keeps. Qed.

Lemma hw_delay : hw_only delay.
Proof. unfold delay. repeat (apply hw_bind; [by apply hw_in8|intros _]). apply hw_ret. Qed.

Lemma hw_wait n port mask : port ≠ COM1 + COM_RX → port ≠ KBDATAP → hw_only (wait_bit n port mask).
Proof.
  intros H1 H2. induction n as [|n IH]; cbn [wait_bit]; (apply hw_bind; [by apply hw_in8|intros v]); destruct (negb _); try apply hw_ret.
  apply hw_bind; [apply hw_delay|done].
Qed.

Ltac port := first [discriminate | unfold control_port, COM1, COM_RX, COM_TX, COM_LSR, LPTPORT, KBDATAP, KBSTATP; lia].

Lemma hw_lpt_sub c : hw_only (lpt_putc_sub c).
Proof. unfold lpt_putc_sub. apply hw_bind; [apply hw_wait; port|intros _]. repeat (apply hw_bind; [apply hw_out8; port|intros _]). apply hw_out8; port. Qed.

Lemma hw_lpt c : hw_only (lpt_putc c).
Proof. unfold lpt_putc. destruct (negb _); [apply hw_lpt_sub|]. repeat (apply hw_bind; [apply hw_lpt_sub|intros _]). apply hw_lpt_sub. Qed.

Lemma hw_serial_sub c : hw_only (serial_putc_sub c).
Proof. unfold serial_putc_sub. apply hw_bind; [apply hw_wait; port|intros _]. apply hw_out8; port. Qed.

Lemma hw_serial c : hw_only (serial_putc c).
Proof. unfold serial_putc. destruct (negb _); [apply hw_serial_sub|]. repeat (apply hw_bind; [apply hw_serial_sub|intros _]). apply hw_serial_sub. Qed.

(** ** The display *)

Definition cell s (i : Z) : Z := byte (text s) (crt_buf s + 2 * i) + 256 * byte (text s) (crt_buf s + 2 * i + 1).
Definition cells s : list Z := cell s <$> seqZ 0 CRT_SIZE.

Lemma cells_lookup s i : cells s !! i = if decide (Z.of_nat i < CRT_SIZE) then Some (cell s (Z.of_nat i)) else None.
Proof.
  unfold cells. rewrite list_lookup_fmap. destruct (decide _).
  - rewrite lookup_seqZ_lt by lia. done.
  - rewrite lookup_seqZ_ge by lia. done.
Qed.

Lemma length_cells s : length (cells s) = Z.to_nat CRT_SIZE.
Proof. unfold cells. by rewrite length_fmap, length_seqZ. Qed.

(** What a terminal of [CRT_ROWS] rows shows after a character: its cells, row by row, and the cursor. *)
Definition blank : Z := 0x0720.
Definition term_place (c : Z) (t : list Z * Z) : list Z * Z :=
  let '(l, p) := t in
  let k := Z.land c 0xFF in
  if k =? 8 then if 0 <? p then (<[Z.to_nat (p - 1) := u16 (Z.lor (Z.land c (Z.lnot 0xFF)) 32)]> l, p - 1) else (l, p)
  else if k =? 10 then (l, (p / CRT_COLS + 1) * CRT_COLS)
  else if k =? 13 then (l, p / CRT_COLS * CRT_COLS)
  else (<[Z.to_nat p := u16 c]> l, p + 1).
Definition term_putc (c : Z) (t : list Z * Z) : list Z * Z :=
  let '(l, p) := term_place (if Z.land c (Z.lnot 0xFF) =? 0 then Z.lor c 0x0700 else c) t in
  if p <? CRT_SIZE then (l, p)
  else (drop (Z.to_nat CRT_COLS) l ++ replicate (Z.to_nat CRT_COLS) blank, p - CRT_COLS).

Definition screen s : list Z * Z := (cells s, crt_pos s).

(** Everything but the display and the devices. *)
Definition other s := (crt_buf s, addr_6845 s, serial_exists s, cbuf s, rpos s, wpos s, shift s, irq_mask s, did_init s).

Lemma mem_byte_write b a v x : byte (<[a := u8 v]> b) x = if decide (x = a) then u8 v else byte b x.
Proof. unfold byte. destruct (decide (x = a)) as [->|]; [by rewrite lookup_insert_eq|by rewrite lookup_insert_ne]. Qed.

Lemma cell_bytes v : u8 v + 256 * u8 (Z.shiftr v 8) = u16 v.
Proof.
  unfold u8, u16. rewrite Z.shiftr_div_pow2 by lia. change (2 ^ 16) with (2 ^ 8 * 2 ^ 8).
  rewrite Z.rem_mul_r by lia. lia.
Qed.

Lemma cell_set_run i v s : ∃ b, cell_set i v s = Ret (tt, set_text s b) ∧
  ∀ j, cell (set_text s b) j = if decide (j = i) then u16 v else cell s j.
Proof.
  eexists. split; [reflexivity|]. intros j. unfold cell. cbn [text crt_buf set_text]. rewrite !mem_byte_write.
  destruct (decide (j = i)) as [->|].
  - rewrite (decide_False (P := crt_buf s + 2 * i = _)), !decide_True by lia. apply cell_bytes.
  - by rewrite !decide_False by lia.
Qed.

Lemma clear_run n i s : ∃ b, clear_cells n i s = Ret (tt, set_text s b) ∧
  ∀ j, cell (set_text s b) j = if decide (i ≤ j < i + Z.of_nat n) then blank else cell s j.
Proof.
  revert i s. induction n as [|n IH]; intros i s.
  - exists (text s). split; [by destruct s|]. intros j. by rewrite decide_False by lia.
  - destruct (cell_set_run i (Z.lor 0x0700 32) s) as (b1 & E1 & C1). destruct (IH (i + 1) (set_text s b1)) as (b2 & E2 & C2).
    exists b2. split; [cbn [clear_cells]; step_by E1; exact E2|]. intros j.
    change (set_text s b2) with (set_text (set_text s b1) b2). rewrite C2, C1.
    destruct (decide (j = i)) as [->|].
    + rewrite decide_False, decide_True by lia. done.
    + destruct (decide (i + 1 ≤ j < i + 1 + Z.of_nat n)); [by rewrite decide_True by lia|by rewrite decide_False by lia].
Qed.

Lemma scroll_run s : ∃ b,
  cga_scroll s = Ret (tt, set_crt_pos (set_text s b) (u16 (crt_pos s - CRT_COLS))) ∧
  cells (set_text s b) = drop (Z.to_nat CRT_COLS) (cells s) ++ replicate (Z.to_nat CRT_COLS) blank.
Proof.
  destruct (memmove_moves (crt_buf s) (crt_buf s + 2 * CRT_COLS) ((CRT_SIZE - CRT_COLS) * 2) (text s)) as (b1 & E1 & M1); [done|].
  destruct (clear_run (Z.to_nat CRT_COLS) (CRT_SIZE - CRT_COLS) (set_text s b1)) as (b2 & E2 & C2).
  exists b2. split.
  - unfold cga_scroll. step using done. cbv beta. step using (unfold in_text; rewrite E1; reflexivity). step_by E2. reflexivity.
  - change (set_text s b2) with (set_text (set_text s b1) b2). apply list_eq. intros i.
    rewrite cells_lookup, C2. change CRT_SIZE with 2000 in *. change CRT_COLS with 80 in *.
    pose proof (length_cells s) as Hlen. change CRT_SIZE with 2000 in Hlen.
    destruct (decide (Z.of_nat i < 1920)).
    + rewrite decide_True, decide_False by lia. rewrite lookup_app_l by (rewrite length_drop; lia).
      rewrite lookup_drop, cells_lookup. change CRT_SIZE with 2000. rewrite decide_True by lia. f_equal. unfold cell. simpl.
      rewrite !(M1 _). rewrite !decide_True by lia. f_equal; [f_equal; lia|]. do 2 f_equal. lia.
    + rewrite lookup_app_r, length_drop by (rewrite length_drop; lia). destruct (decide (Z.of_nat i < 2000)).
      * rewrite decide_True, lookup_replicate_2 by lia. done.
      * rewrite lookup_ge_None_2; [done|]. rewrite length_replicate. lia.
Qed.

Lemma cells_insert s b i v : 0 ≤ i < CRT_SIZE → (∀ j, cell (set_text s b) j = if decide (j = i) then v else cell s j) →
  cells (set_text s b) = <[Z.to_nat i := v]> (cells s).
Proof.
  intros Hi Hc. apply list_eq. intros j. rewrite cells_lookup, Hc. destruct (decide (Z.of_nat j = i)) as [Hj|Hj].
  - replace (Z.to_nat i) with j by lia. rewrite decide_True by lia.
    rewrite list_lookup_insert_eq; [done|]. rewrite length_cells. lia.
  - rewrite list_lookup_insert_ne by lia. by rewrite cells_lookup.
Qed.

Definition pos_ok s : Prop := 0 ≤ crt_pos s < CRT_SIZE.

Lemma place_run c s : pos_ok s → ∃ b p, cga_place c s = Ret (tt, set_crt_pos (set_text s b) p) ∧ 0 ≤ p ≤ CRT_SIZE ∧
  (cells (set_text s b), p) = term_place c (screen s).
Proof.
  intros Hp. unfold pos_ok in Hp. change CRT_SIZE with 2000 in *. unfold cga_place, term_place, screen. cbv zeta.
  assert (∀ x, 0 ≤ x < 65536 → u16 x = x) as U by (intros; apply Z.mod_small; lia).
  assert (set_text s (text s) = s) as Hid by (by destruct s).
  assert (set_crt_pos s (crt_pos s) = s) as Hid2 by (by destruct s).
  pose proof (Z.div_mod (crt_pos s) 80 ltac:(lia)) as Hdm. pose proof (Z.mod_pos_bound (crt_pos s) 80 ltac:(lia)) as Hmb.
  destruct (Z.eqb_spec (Z.land c 0xFF) 8) as [_|_]; [|destruct (Z.eqb_spec (Z.land c 0xFF) 10) as [E|_]].
  - step using done. cbv beta. destruct (Z.ltb_spec 0 (crt_pos s)).
    + set (v := Z.lor (Z.land c (Z.lnot 255)) 32).
      destruct (cell_set_run (crt_pos s - 1) v (set_crt_pos s (crt_pos s - 1))) as (b & Hr & Hc).
      exists b, (crt_pos s - 1). split_and!; [|lia|lia|].
      * cbn [when]. step using done. rewrite U by lia. exact Hr.
      * f_equal. apply cells_insert; [change CRT_SIZE with 2000; lia|exact Hc].
    + exists (text s), (crt_pos s). rewrite Hid, Hid2. split_and!; [done|lia|lia|done].
  - rewrite E. cbn [orb Z.eqb Pos.eqb]. exists (text s), ((crt_pos s / 80 + 1) * 80). rewrite Hid. split_and!; [|lia|lia|done].
    step using done. unfold modify. cbn [crt_pos set_crt_pos]. change CRT_COLS with 80. rewrite (U (crt_pos s + 80)) by lia.
    assert ((crt_pos s + 80) mod 80 = crt_pos s mod 80) as -> by (apply (Z.mod_add (crt_pos s) 1 80); lia).
    rewrite U by lia. do 2 f_equal. unfold set_crt_pos. simpl. f_equal. lia.
  - destruct (Z.eqb_spec (Z.land c 0xFF) 13) as [_|_]; cbn [orb].
    + exists (text s), (crt_pos s / 80 * 80). rewrite Hid. split_and!; [|lia|lia|done].
      step using done. unfold modify. change CRT_COLS with 80. rewrite U by lia. do 2 f_equal. unfold set_crt_pos. f_equal. lia.
    + destruct (cell_set_run (crt_pos s) c s) as (b & Hr & Hc). exists b, (crt_pos s + 1). split_and!; [|lia|lia|].
      * step using done. step_by Hr. unfold modify. by rewrite U by lia.
      * f_equal. by apply cells_insert.
Qed.

Lemma cga_run c s : addr_ok s → pos_ok s →
  ∃ b p h, cga_putc c s = Ret (tt, set_hw (set_crt_pos (set_text s b) p) h) ∧ same_in (hw s) h ∧ 0 ≤ p < CRT_SIZE ∧
    (cells (set_text s b), p) = term_putc c (screen s).
Proof.
  intros Ha Hp. unfold cga_putc, term_putc. cbv zeta. set (c' := if Z.land c (Z.lnot 0xFF) =? 0 then Z.lor c 0x0700 else c).
  destruct (place_run c' s Hp) as (b & p & Hr & Hpb & <-).
  assert (∃ b2 p2, when (CRT_SIZE <=? p) cga_scroll (set_crt_pos (set_text s b) p) = Ret (tt, set_crt_pos (set_text s b2) p2) ∧
    0 ≤ p2 < CRT_SIZE ∧ (cells (set_text s b2), p2) = if p <? CRT_SIZE then (cells (set_text s b), p)
      else (drop (Z.to_nat CRT_COLS) (cells (set_text s b)) ++ replicate (Z.to_nat CRT_COLS) blank, p - CRT_COLS)) as (b2 & p2 & Hs & Hp2 & <-).
  { destruct (Z.leb_spec CRT_SIZE p) as [Hge|Hlt].
    - destruct (scroll_run (set_crt_pos (set_text s b) p)) as (b2 & Hs & Hc). exists b2, (p - CRT_COLS).
      assert (p = 2000) as -> by (change CRT_SIZE with 2000 in *; lia).
      split_and!; [exact Hs|done|done|]. rewrite (proj2 (Z.ltb_ge 2000 CRT_SIZE)) by done. f_equal. exact Hc.
    - exists b, p. rewrite (proj2 (Z.ltb_lt p CRT_SIZE)) by done. split_and!; [done|lia|lia|done]. }
  set (s2 := set_crt_pos (set_text s b2) p2) in *.
  assert (hw_only (out8 (addr_6845 s) 14 ;; out8 (addr_6845 s + 1) (Z.shiftr p2 8) ;; out8 (addr_6845 s) 15 ;; out8 (addr_6845 s + 1) p2)) as Hout.
  { repeat (apply hw_bind; [|intros _]); apply hw_out8; unfold addr_ok, CGA_BASE, MONO_BASE in Ha; unfold control_port, COM1, KBDATAP, KBSTATP; lia. }
  destruct (Hout s2 Ha) as ([] & h & Ho & Hh). exists b2, p2, h. split_and!; [|exact Hh|lia|lia|done].
  step_by Hr. step using done. cbv beta. step using (exact Hs). step using done. step using done. exact Ho.
Qed.

(** A character on all three devices. *)
Lemma putc_run c s : addr_ok s → pos_ok s →
  ∃ s', cons_putc c s = Ret (tt, s') ∧ same_in (hw s) (hw s') ∧ other s' = other s ∧ pos_ok s' ∧
    screen s' = term_putc c (screen s).
Proof.
  intros Ha Hp. destruct (hw_lpt c s Ha) as ([] & h1 & E1 & S1). set (s1 := set_hw s h1) in *.
  destruct (cga_run c s1 Ha Hp) as (b & p & h2 & E2 & S2 & Hp2 & Hsc). set (s2 := set_hw (set_crt_pos (set_text s1 b) p) h2) in *.
  destruct (hw_serial c s2 Ha) as ([] & h3 & E3 & S3). exists (set_hw s2 h3). split_and!.
  - unfold cons_putc. step_by E1. step_by E2. exact E3.
  - eapply same_in_trans; [exact S1|]. eapply same_in_trans; [exact S2|exact S3].
  - done.
  - exact Hp2.
  - exact Hsc.
Qed.

(** ** The input buffer *)

Definition ring_ok s : Prop :=
  0 ≤ rpos s < CONSBUFSIZE ∧ 0 ≤ wpos s < CONSBUFSIZE ∧ ∀ i, 0 ≤ i < CONSBUFSIZE → is_Some (cbuf s !! i).
Definition queued s : Z := (wpos s - rpos s) mod CONSBUFSIZE.
(** The characters that were stored and not yet taken, oldest first. *)
Definition contents s : list Z := (λ i, default 0 (cbuf s !! ((rpos s + i) mod CONSBUFSIZE))) <$> seqZ 0 (queued s).

Lemma queued_range s : 0 ≤ queued s < CONSBUFSIZE.
Proof. apply Z.mod_pos_bound. done. Qed.

Lemma length_contents s : Z.of_nat (length (contents s)) = queued s.
Proof. unfold contents. rewrite length_fmap, length_seqZ. pose proof (queued_range s). lia. Qed.

Lemma mod_ring x : 0 ≤ x < 1024 → x mod CONSBUFSIZE = if decide (x < 512) then x else x - 512.
Proof.
  intros Hx. change CONSBUFSIZE with 512. destruct (decide _); [apply Z.mod_small; lia|].
  symmetry. apply (Z.mod_unique_pos _ _ 1); lia.
Qed.

Lemma queued_eq s : ring_ok s → queued s = if decide (rpos s ≤ wpos s) then wpos s - rpos s else wpos s - rpos s + 512.
Proof.
  intros (Hr & Hw & _). unfold queued. change CONSBUFSIZE with 512 in *. destruct (decide _); [apply Z.mod_small; lia|].
  symmetry. apply (Z.mod_unique_pos _ _ (-1)); lia.
Qed.

Lemma seqZ_snoc n : 0 ≤ n → seqZ 0 (n + 1) = seqZ 0 n ++ [n].
Proof.
  intros Hn. by rewrite seqZ_app by lia.
Qed.

Lemma store_ok c s : ring_ok s →
  let s' := set_cons s (<[wpos s := u8 c]> (cbuf s)) (rpos s) (if wpos s + 1 =? CONSBUFSIZE then 0 else wpos s + 1) in
  cons_store c s = Ret (tt, s') ∧ ring_ok s'.
Proof.
  intros (Hr & Hw & Hb) s'. destruct (Hb (wpos s) Hw) as [x Hx]. split.
  - unfold cons_store. step using done. cbv beta. step using (unfold deref; rewrite Hx; reflexivity). done.
  - split_and!; simpl; [lia|lia|case_match; z_bool; lia|case_match; z_bool; lia|].
    intros i Hi. destruct (decide (i = wpos s)) as [->|]; [rewrite lookup_insert_eq; eauto|]. rewrite lookup_insert_ne by done. auto.
Qed.

Lemma cons_store_run c s : ring_ok s → queued s < CONSBUFSIZE - 1 →
  ∃ b w, cons_store c s = Ret (tt, set_cons s b (rpos s) w) ∧ ring_ok (set_cons s b (rpos s) w) ∧
    contents (set_cons s b (rpos s) w) = contents s ++ [u8 c].
Proof.
  intros Hok Hq. pose proof Hok as (Hr & Hw & Hb). destruct (Hb (wpos s) Hw) as [x Hx].
  exists (<[wpos s := u8 c]> (cbuf s)), (if wpos s + 1 =? CONSBUFSIZE then 0 else wpos s + 1).
  destruct (store_ok c s Hok) as [Hrun Hok']. split_and!; [done|done|].
  pose proof (queued_eq _ Hok) as Eq. pose proof (queued_eq _ Hok') as Eq'. simpl in Eq'.
    assert (queued (set_cons s (<[wpos s := u8 c]> (cbuf s)) (rpos s) (if wpos s + 1 =? CONSBUFSIZE then 0 else wpos s + 1)) = queued s + 1) as E1.
    { rewrite Eq', Eq. change CONSBUFSIZE with 512 in *. destruct (Z.eqb_spec (wpos s + 1) 512); repeat destruct (decide _); lia. }
    unfold contents. rewrite E1, seqZ_snoc, fmap_app by apply queued_range. simpl. f_equal; [|f_equal].
    + apply list_fmap_ext. intros _ i Hi%list_elem_of_lookup_2. apply elem_of_seqZ in Hi.
      rewrite lookup_insert_ne; [done|]. clear E1 Eq' Hok'. change CONSBUFSIZE with 512 in *.
      destruct (decide (rpos s ≤ wpos s)); rewrite mod_ring by lia; destruct (decide _); lia.
    + replace ((rpos s + queued s) mod CONSBUFSIZE) with (wpos s); [by rewrite lookup_insert_eq|].
      clear E1 Eq' Hok'. change CONSBUFSIZE with 512 in *.
      destruct (decide (rpos s ≤ wpos s)); rewrite mod_ring by lia; destruct (decide _); lia.
Qed.

(** Taking the first character. *)
Lemma take_run s c l : ring_ok s → contents s = c :: l →
  let r := if rpos s + 1 =? CONSBUFSIZE then 0 else rpos s + 1 in
  rpos s ≠ wpos s ∧ cbuf s !! rpos s = Some c ∧ ring_ok (set_cons s (cbuf s) r (wpos s)) ∧ contents (set_cons s (cbuf s) r (wpos s)) = l.
Proof.
  intros Hok Hc r. pose proof Hok as (Hr & Hw & Hb). destruct (Hb (rpos s) Hr) as [x Hx].
  pose proof (length_contents s) as Hlen. rewrite Hc in Hlen. simpl in Hlen. pose proof (queued_eq _ Hok) as Eq.
  assert (ring_ok (set_cons s (cbuf s) r (wpos s))) as Hok'.
  { unfold r, ring_ok. change CONSBUFSIZE with 512 in *. split_and!; simpl; [destruct (Z.eqb_spec (rpos s + 1) 512); lia..|lia|lia|done]. }
  pose proof (queued_eq _ Hok') as Eq'. simpl in Eq'.
  assert (rpos s ≠ wpos s) as Hne by (destruct (decide _); lia).
  assert (queued s = queued (set_cons s (cbuf s) r (wpos s)) + 1) as E1.
  { rewrite Eq', Eq. unfold r. change CONSBUFSIZE with 512 in *. destruct (Z.eqb_spec (rpos s + 1) 512); repeat destruct (decide _); lia. }
  pose proof (queued_range (set_cons s (cbuf s) r (wpos s))) as Hq'.
  unfold contents in Hc. rewrite E1, Z.add_comm, seqZ_app in Hc by lia. simpl in Hc. injection Hc as Hc1 Hc2.
  split_and!; [done| |done|].
  - rewrite Hx. f_equal. rewrite Z.add_0_r in Hc1. rewrite Z.mod_small in Hc1 by lia. by rewrite Hx in Hc1.
  - rewrite <-Hc2. unfold contents. simpl. apply list_eq. intros j. rewrite !list_lookup_fmap.
    destruct (decide (Z.of_nat j < queued (set_cons s (cbuf s) r (wpos s)))).
    + rewrite !lookup_seqZ_lt by lia. simpl. f_equal. f_equal. f_equal. unfold r. change CONSBUFSIZE with 512 in *.
      destruct (Z.eqb_spec (rpos s + 1) 512).
      * rewrite <-(Z.mod_add (0 + (0 + Z.of_nat j)) 1 512) by lia. f_equal. lia.
      * f_equal. lia.
    + by rewrite !lookup_seqZ_ge by lia.
Qed.

Definition console_ok s : Prop := addr_ok s ∧ pos_ok s ∧ ring_ok s.

Lemma cputch_all_run l cnt s : addr_ok s → pos_ok s →
  ∃ s', cputch_all l cnt s = Ret (cnt + Z.of_nat (length l), s') ∧ same_in (hw s) (hw s') ∧ other s' = other s ∧ pos_ok s' ∧
    screen s' = foldl (λ t c, term_putc c t) (screen s) l.
Proof.
  revert cnt s. induction l as [|c l IH]; intros cnt s Ha Hp.
  - exists s. rewrite Z.add_0_r. done.
  - destruct (putc_run c s Ha Hp) as (s1 & E1 & S1 & O1 & P1 & T1).
    assert (addr_ok s1) as Ha1 by (unfold addr_ok, other in *; congruence).
    destruct (IH (cnt + 1) s1 Ha1 P1) as (s2 & E2 & S2 & O2 & P2 & T2). exists s2. split_and!.
    + cbn [cputch_all]. step_by E1. rewrite E2. do 2 f_equal. simpl. lia.
    + by eapply same_in_trans.
    + congruence.
    + done.
    + by rewrite T2, T1.
Qed.

(** ** Polling the serial line *)

Definition serial_chars (l : list Z) : list Z := filter (λ c, c ≠ 0) ((λ c, if c =? 127 then 8 else c) <$> l).

Lemma u8_range x : 0 ≤ u8 x < 256.
Proof. apply Z.mod_pos_bound. lia. Qed.

Lemma u8_id x : 0 ≤ x < 256 → u8 x = x.
Proof. intros. by apply Z.mod_small. Qed.

Lemma serial_data_run s : match serial_in (hw s) with
  | [] => ∃ h, serial_proc_data s = Ret (-1, set_hw s h) ∧ same_in (hw s) h
  | c :: l => ∃ h, serial_proc_data s = Ret (if c =? 127 then 8 else c, set_hw s h) ∧ serial_in h = l ∧ kbd_in h = kbd_in (hw s) ∧ 0 ≤ c < 256
  end.
Proof.
  unfold serial_proc_data. pose proof (lsr_data (hw s)) as Hd.
  destruct (inb_keeps (COM1 + COM_LSR) (hw s)) as [K1 K2]; [done|done|].
  destruct (inb (COM1 + COM_LSR) (hw s)) as [v h] eqn:E. simpl in Hd, K1, K2.
  assert (in8 (COM1 + COM_LSR) s = Ret (u8 v, set_hw s h)) as E1 by (unfold in8; by rewrite E).
  destruct (serial_in (hw s)) as [|c l] eqn:Hl.
  - exists h. step_by E1. rewrite (proj2 (Z.eqb_eq _ _) (proj2 Hd eq_refl)). split; [done|]. split; [congruence|done].
  - rewrite <-K1 in Hl. destruct (rx_data h c l) as (R1 & R2 & R3); [congruence|].
    destruct (inb (COM1 + COM_RX) h) as [v2 h2] eqn:E2. simpl in R1, R2, R3. exists h2. step_by E1.
    rewrite (proj2 (Z.eqb_neq _ _)) by (intros Hz; by apply Hd in Hz).
    assert (in8 (COM1 + COM_RX) (set_hw s h) = Ret (u8 v2, set_hw s h2)) as E3 by (unfold in8; simpl; by rewrite E2).
    step_by E3. rewrite R1. split_and!; [done|done|congruence|..]; rewrite <-R1; apply u8_range.
Qed.

Lemma serial_poll l fuel s : console_ok s → serial_in (hw s) = l → (length l < fuel)%nat →
  queued s + Z.of_nat (length (serial_chars l)) < CONSBUFSIZE →
  ∃ s', cons_intr fuel serial_proc_data s = Ret (tt, s') ∧ console_ok s' ∧ serial_in (hw s') = [] ∧
    kbd_in (hw s') = kbd_in (hw s) ∧ (shift s', serial_exists s') = (shift s, serial_exists s) ∧
    contents s' = contents s ++ serial_chars l.
Proof.
  revert fuel s. induction l as [|c l IH]; intros fuel s Hok Hl Hf Hq; (destruct fuel as [|fuel]; [simpl in Hf; lia|]);
    pose proof (serial_data_run s) as Hd; rewrite Hl in Hd; cbn [cons_intr].
  - destruct Hd as (h & E & Hs1 & Hs2). exists (set_hw s h). step_by E. split_and!; try done; simpl; [congruence|].
    by rewrite app_nil_r.
  - destruct Hd as (h & E & Hs1 & Hs2 & Hc). step_by E. set (c' := if c =? 127 then 8 else c) in *.
    assert (0 ≤ c' < 256) as Hc' by (unfold c'; destruct (c =? 127); lia).
    rewrite (proj2 (Z.eqb_neq c' (-1))) by lia. unfold serial_chars in *. rewrite fmap_cons in *. fold c' in Hq |- *.
    destruct Hok as (Ha & Hp & Hr). destruct (Z.eqb_spec c' 0) as [Hz|Hz]; cbn [negb when].
    + rewrite filter_cons_False in * by tauto. step using done.
      destruct (IH fuel (set_hw s h)) as (s' & ? & ? & ? & Hk & ? & Hcon); [done|done|simpl in Hf; lia|done|].
      exists s'. split_and!; try done. by rewrite Hk.
    + rewrite filter_cons_True in * by done. simpl in Hq.
      destruct (cons_store_run c' (set_hw s h)) as (b & w & Es & Hr' & Hcon'); [done|simpl in Hq; unfold queued in *; simpl; lia|].
      step_by Es. pose proof (length_contents (set_hw s h)) as Hl1. pose proof (length_contents (set_cons (set_hw s h) b (rpos (set_hw s h)) w)) as Hl2.
      rewrite Hcon', length_app in Hl2. simpl length in Hl2. change (queued (set_hw s h)) with (queued s) in Hl1.
      destruct (IH fuel (set_cons (set_hw s h) b (rpos (set_hw s h)) w)) as (s' & ? & ? & ? & Hk & ? & Hcon); [done|done|simpl in Hf; lia|lia|].
      exists s'. split_and!; try done; [by rewrite Hk|]. rewrite Hcon, Hcon', u8_id by done. by rewrite <-app_assoc.
Qed.

Lemma other_frame s s' : other s' = other s →
  (addr_ok s → addr_ok s') ∧ (ring_ok s → ring_ok s') ∧ shift s' = shift s ∧ contents s' = contents s ∧
  serial_exists s' = serial_exists s.
Proof.
  unfold other. intros E. injection E as E1 E2 E3 E4 E5 E6 E7 E8 E9.
  unfold addr_ok, ring_ok, contents, queued. rewrite E2, E3, E4, E5, E6, E7. done.
Qed.

(** ** Polling the keyboard *)

Definition is_byte (x : Z) : Prop := 0 ≤ x < 256.

Lemma table_range from0 des i : Forall is_byte from0 → Forall (λ x, is_byte x.2) des → is_byte (table from0 des i).
Proof.
  intros H1 H2. unfold table. destruct (_ !! i) as [v|] eqn:E; simpl.
  - apply elem_of_list_to_map_2 in E. rewrite Forall_forall in H2. by apply (H2 _ E).
  - destruct (nth_in_or_default (Z.to_nat i) from0 0) as [Hin| ->]; [|unfold is_byte; lia].
    rewrite Forall_forall in H1. apply H1. by apply list_elem_of_In.
Qed.

Lemma charcode_range k i : is_byte (charcode k i).
Proof.
  unfold charcode. destruct (k =? 0); [|destruct (k =? 1)]; apply table_range;
    repeat (constructor; [vm_compute; split; [discriminate|reflexivity]|]); constructor.
Qed.

Lemma decode_range sh d : is_byte (kbd_decode sh d).2.
Proof.
  unfold kbd_decode. destruct (d =? 0xE0); [unfold is_byte; simpl; lia|]. destruct (negb _); [unfold is_byte; simpl; lia|].
  destruct (if negb (Z.land sh E0ESC =? 0) then _ else _) as [d' sh']. cbv zeta. cbn [snd].
  set (c := charcode _ _). assert (is_byte c) as Hc by apply charcode_range. clearbody c. unfold is_byte in *.
  destruct (negb _); [|done]. destruct (Z.leb_spec 97 c), (Z.leb_spec c 122), (Z.leb_spec 65 c), (Z.leb_spec c 90); simpl; lia.
Qed.

(** The characters of a sequence of scan codes. *)
Fixpoint kbd_chars (sh : Z) (l : list Z) : list Z :=
  match l with
  | [] => []
  | d :: l' => let '(sh', c) := kbd_decode sh d in (if c =? 0 then [] else [c]) ++ kbd_chars sh' l'
  end.

Lemma kbd_data_run s : console_ok s → match kbd_in (hw s) with
  | [] => ∃ h, kbd_proc_data s = Ret (-1, set_hw s h) ∧ same_in (hw s) h
  | d :: l => ∃ s', kbd_proc_data s = Ret ((kbd_decode (shift s) d).2, s') ∧ console_ok s' ∧ kbd_in (hw s') = l ∧
      serial_in (hw s') = serial_in (hw s) ∧ shift s' = (kbd_decode (shift s) d).1 ∧ contents s' = contents s ∧
      serial_exists s' = serial_exists s
  end.
Proof.
  intros (Ha & Hp & Hr). unfold kbd_proc_data. pose proof (kb_status (hw s)) as Hd.
  destruct (inb_keeps KBSTATP (hw s)) as [K1 K2]; [done|done|].
  destruct (inb KBSTATP (hw s)) as [v h] eqn:E. simpl in Hd, K1, K2.
  assert (in8 KBSTATP s = Ret (u8 v, set_hw s h)) as E1 by (unfold in8; by rewrite E).
  destruct (kbd_in (hw s)) as [|d l] eqn:Hl.
  - exists h. step_by E1. rewrite (proj2 (Z.eqb_eq _ _) (proj2 Hd eq_refl)). split; [done|]. split; [done|congruence].
  - rewrite <-K2 in Hl. destruct (kb_data h d l) as (R1 & R2 & R3); [congruence|].
    destruct (inb KBDATAP h) as [v2 h2] eqn:E2. simpl in R1, R2, R3. step_by E1.
    rewrite (proj2 (Z.eqb_neq _ _)) by (intros Hz; by apply Hd in Hz).
    assert (in8 KBDATAP (set_hw s h) = Ret (u8 v2, set_hw s h2)) as E3 by (unfold in8; simpl; by rewrite E2).
    step_by E3. rewrite R1. step using done. change (shift (set_hw s h2)) with (shift s).
    destruct (kbd_decode (shift s) d) as [sh' c] eqn:Ed. step using done. set (s3 := set_shift (set_hw s h2) sh').
    destruct (_ && _); cbn [when].
    + destruct (cputch_all_run (codes "Rebooting!" ++ [10]) 0 s3) as (s4 & E4 & S4 & O4 & P4 & _); [done|done|].
      assert (vcprintf (codes "Rebooting!" ++ [10]) [] s3 = Ret (11, s4)) as E5.
      { unfold vcprintf. step using (vm_compute; reflexivity). exact E4. }
      assert (addr_ok s4 ∧ ring_ok s4 ∧ shift s4 = sh' ∧ contents s4 = contents s ∧ serial_exists s4 = serial_exists s) as (A4 & R4 & Sh4 & C4 & X4).
      { apply other_frame in O4 as (? & ? & ? & ? & ?). split_and!; [auto|auto|done|done|done]. }
      destruct (hw_out8 0x92 0x3 ltac:(unfold control_port, COM1, KBDATAP, KBSTATP; lia) s4 A4) as ([] & h5 & E6 & S5).
      exists (set_hw s4 h5). split_and!; try done.
      * unfold mbind at 1, M_bind at 1. unfold mbind at 1, M_bind at 1. rewrite E5. rewrite E6. done.
      * simpl. destruct S5 as [_ ->], S4 as [_ ->]. done.
      * simpl. destruct S5 as [-> _], S4 as [-> _]. simpl. congruence.
    + exists s3. split_and!; try done. simpl. congruence.
Qed.

Lemma kbd_poll l fuel s : console_ok s → kbd_in (hw s) = l → (length l < fuel)%nat →
  queued s + Z.of_nat (length (kbd_chars (shift s) l)) < CONSBUFSIZE →
  ∃ s', cons_intr fuel kbd_proc_data s = Ret (tt, s') ∧ console_ok s' ∧ kbd_in (hw s') = [] ∧
    serial_in (hw s') = serial_in (hw s) ∧ serial_exists s' = serial_exists s ∧ contents s' = contents s ++ kbd_chars (shift s) l.
Proof.
  revert fuel s. induction l as [|d l IH]; intros fuel s Hok Hl Hf Hq; (destruct fuel as [|fuel]; [simpl in Hf; lia|]);
    pose proof (kbd_data_run s Hok) as Hd; rewrite Hl in Hd; cbn [cons_intr].
  - destruct Hd as (h & E & Hs1 & Hs2). exists (set_hw s h). step_by E. split_and!; try done; simpl; [congruence|].
    by rewrite app_nil_r.
  - destruct Hd as (s1 & E & Hok1 & Hk1 & Hse & Hsh & Hcon & Hex). step_by E. pose proof (decode_range (shift s) d) as Hc.
    cbn [kbd_chars] in *. destruct (kbd_decode (shift s) d) as [sh' c]. simpl in Hc, Hsh, Hq |- *. unfold is_byte in Hc.
    rewrite (proj2 (Z.eqb_neq c (-1))) by lia. pose proof (length_contents s) as Hl0. pose proof (length_contents s1) as Hl1.
    rewrite Hcon in Hl1. destruct (Z.eqb_spec c 0) as [Hz|Hz]; cbn [negb when].
    + step using done. destruct (IH fuel s1) as (s' & ? & ? & ? & Hk & Hx & Hcon'); [done|done|simpl in Hf; lia|rewrite Hsh; simpl in Hq; lia|].
      exists s'. split_and!; try done; [congruence|congruence|]. by rewrite Hcon', Hcon, Hsh.
    + simpl in Hq. destruct Hok1 as (Ha & Hp & Hr).
      destruct (cons_store_run c s1) as (b & w & Es & Hr' & Hst); [done|lia|]. step_by Es.
      set (s2 := set_cons s1 b (rpos s1) w) in *. pose proof (length_contents s2) as Hl2. rewrite Hst, length_app, Hcon in Hl2. simpl length in Hl2.
      destruct (IH fuel s2) as (s' & ? & ? & ? & Hk & Hx & Hcon'); [done|done|simpl in Hf; lia|change (shift s2) with (shift s1); rewrite Hsh; lia|].
      exists s'. split_and!; try done; [by rewrite Hk|by rewrite Hx|].
      rewrite Hcon', Hst, Hcon, u8_id by done. change (shift s2) with (shift s1). rewrite Hsh. by rewrite <-app_assoc.
Qed.

(** ** [cons_getc] *)

(** What the console holds and the devices have waiting. *)
Definition pending s : list Z :=
  contents s ++ (if serial_exists s then serial_chars (serial_in (hw s)) else []) ++ kbd_chars (shift s) (kbd_in (hw s)).

(** [fuel] is more than what the devices have waiting. *)
Definition enough (fuel : nat) s : Prop := (length (serial_in (hw s)) < fuel)%nat ∧ (length (kbd_in (hw s)) < fuel)%nat.

Lemma getc_run fuel s : console_ok s → enough fuel s → Z.of_nat (length (pending s)) < CONSBUFSIZE →
  ∃ s', cons_getc fuel s = Ret (default 0 (head (pending s)), s') ∧ console_ok s' ∧ pending s' = tail (pending s) ∧
    contents s' = tail (pending s) ∧ kbd_in (hw s') = [] ∧ enough fuel s'.
Proof.
  intros Hok [Hf1 Hf2] Hlen. unfold pending in Hlen. rewrite !length_app in Hlen. pose proof (length_contents s) as Hc0.
  assert (∃ s1, serial_intr fuel s = Ret (tt, s1) ∧ console_ok s1 ∧ kbd_in (hw s1) = kbd_in (hw s) ∧
    (shift s1, serial_exists s1) = (shift s, serial_exists s) ∧ (length (serial_in (hw s1)) < fuel)%nat ∧
    (serial_exists s = true → serial_in (hw s1) = []) ∧
    contents s1 = contents s ++ (if serial_exists s then serial_chars (serial_in (hw s)) else [])) as
    (s1 & E1 & Hok1 & Hk1 & Hx1 & Hl1 & Hs1 & C1).
  { unfold serial_intr. destruct (serial_exists s) eqn:Hx.
    - destruct (serial_poll (serial_in (hw s)) fuel s Hok eq_refl Hf1) as (s1 & E & ? & Hn & ? & ? & ?); [lia|].
      exists s1. split_and!; try done; [unfold gets, mbind, M_bind; rewrite Hx; exact E|congruence|rewrite Hn; simpl; lia].
    - exists s. split_and!; try done; [unfold gets, mbind, M_bind; by rewrite Hx|congruence|by rewrite app_nil_r]. }
  injection Hx1 as Hsh1 Hex1.
  pose proof (length_contents s1) as Hc1. rewrite C1, length_app in Hc1.
  destruct (kbd_poll (kbd_in (hw s)) fuel s1 Hok1 Hk1 Hf2) as (s2 & E2 & Hok2 & Hk2 & Hse2 & Hex2 & C2); [rewrite Hsh1; lia|].
  assert (contents s2 = pending s) as Hp by (unfold pending; by rewrite C2, C1, Hsh1, app_assoc).
  destruct Hok2 as (Ha & Hpos & Hr). unfold cons_getc. step_by E1.
  step using (exact E2). step using done. step using done. cbv beta.
  assert (∀ s3, console_ok s3 → contents s3 = tail (pending s) → hw s3 = hw s2 → shift s3 = shift s2 → serial_exists s3 = serial_exists s2 →
    console_ok s3 ∧ pending s3 = tail (pending s) ∧ contents s3 = tail (pending s) ∧ kbd_in (hw s3) = [] ∧ enough fuel s3) as Hdone.
  { intros s3 Hok3 C3 Hh3 Hsh3 Hex3. split_and!; [done| |done|by rewrite Hh3|].
    - unfold pending at 1. rewrite C3, Hh3, Hk2, Hex3, Hex2, Hex1, Hse2. simpl. rewrite app_nil_r.
      destruct (serial_exists s); [rewrite Hs1 by done; simpl|]; by rewrite app_nil_r.
    - unfold enough. rewrite Hh3, Hk2, Hse2. split; [done|simpl; lia]. }
  rewrite <-Hp in *. destruct (contents s2) as [|c l] eqn:Hc2.
  - pose proof (length_contents s2) as Hq. rewrite Hc2, (queued_eq _ Hr) in Hq. simpl in Hq.
    assert (rpos s2 = wpos s2) as Hrw by (destruct Hr as (? & ? & _); change CONSBUFSIZE with 512 in *; destruct (decide _); lia).
    rewrite (proj2 (Z.eqb_eq _ _) Hrw). exists s2. split; [done|]. apply Hdone; [done|by rewrite Hc2|done|done|done].
  - destruct (take_run s2 c l Hr Hc2) as (Hne & Hb & Hr3 & C3). rewrite (proj2 (Z.eqb_neq _ _) Hne). cbn [negb].
    eexists. split.
    + step using (unfold deref; rewrite Hb; reflexivity). step using done. reflexivity.
    + apply Hdone; [done|exact C3|done|done|done].
Qed.

(** ** Reading a line *)

(** The line after one more character: printable ones are appended while there is room, a backspace removes the
    last one, other characters are dropped. *)
Definition edit (acc : list Z) (c : Z) : list Z :=
  if (32 <=? c) && (Z.of_nat (length acc) <? BUFSIZE - 1) then acc ++ [c]
  else if c =? 8 then take (length acc - 1) acc else acc.

Definition typed (c : Z) : Prop := 0 < c < 256 ∧ c ≠ 10 ∧ c ≠ 13.
Definition holds (buf : mem) (acc : list Z) : Prop := ∀ k x, acc !! k = Some x → buf !! Z.of_nat k = Some x.

Lemma getchar_run tries fuel s c l : console_ok s → enough fuel s → Z.of_nat (length (pending s)) < CONSBUFSIZE →
  pending s = c :: l → c ≠ 0 →
  ∃ s', getchar (S tries) fuel s = Ret (c, s') ∧ console_ok s' ∧ pending s' = l ∧ enough fuel s'.
Proof.
  intros Hok Hf Hlen Hp Hc. destruct (getc_run fuel s Hok Hf Hlen) as (s' & E & ? & Hp' & _ & _ & ?). rewrite Hp in *.
  exists s'. split_and!; [|done|done|done]. cbn [getchar]. step_by E. simpl. by rewrite (proj2 (Z.eqb_neq c 0) Hc).
Qed.

(** Output leaves the input alone. *)
Lemma pending_frame s s' : same_in (hw s) (hw s') → other s' = other s → pos_ok s' → console_ok s →
  console_ok s' ∧ pending s' = pending s ∧ ∀ fuel, enough fuel s → enough fuel s'.
Proof.
  intros [S1 S2] Ho Hp (Ha & _ & Hr). destruct (other_frame _ _ Ho) as (Ha' & Hr' & Hsh & Hc & Hx).
  split_and!; [split_and!; auto| |].
  - unfold pending. by rewrite Hc, Hx, S1, S2, Hsh.
  - unfold enough. by rewrite S1, S2.
Qed.

Lemma echo_run c s : console_ok s →
  ∃ s', cputchar c s = Ret (tt, s') ∧ console_ok s' ∧ pending s' = pending s ∧ ∀ fuel, enough fuel s → enough fuel s'.
Proof.
  intros Hok. pose proof Hok as (Ha & Hp & _). destruct (putc_run c s Ha Hp) as (s' & E & S & O & P' & _).
  exists s'. split; [exact E|]. by apply pending_frame.
Qed.

Lemma holds_snoc buf acc c : holds buf acc → holds (<[Z.of_nat (length acc) := c]> buf) (acc ++ [c]).
Proof.
  intros Hb k x Hk. destruct (decide (k = length acc)) as [->|Hne].
  - rewrite lookup_insert_eq. rewrite list_lookup_middle in Hk by done. done.
  - rewrite lookup_insert_ne by lia. apply Hb. pose proof (lookup_lt_Some _ _ _ Hk) as Hlt. rewrite length_app in Hlt. simpl in Hlt.
    rewrite lookup_app_l in Hk by lia. done.
Qed.

Lemma holds_take buf acc n : holds buf acc → holds buf (take n acc).
Proof. intros Hb k x Hk. apply lookup_take_Some in Hk as [Hk _]. auto. Qed.

Lemma readline_loop_run l nl rest tries fuel : (nl = 10 ∨ nl = 13) → Forall typed l →
  ∀ n buf acc s, (length l < n)%nat → console_ok s → enough fuel s → Z.of_nat (length (pending s)) < CONSBUFSIZE →
  pending s = l ++ nl :: rest → holds buf acc →
  ∃ buf' s', readline_loop n (S tries) fuel buf (Z.of_nat (length acc)) s = Ret (Some buf', s') ∧ console_ok s' ∧ pending s' = rest ∧
    holds buf' (foldl edit acc l ++ [0]).
Proof.
  intros Hnl Hl. induction Hl as [|c l Hc Hl IH]; intros n buf acc s Hn Hok Hf Hlen Hp Hb;
    (destruct n as [|n]; [simpl in Hn; lia|]); cbn [readline_loop]; simpl in Hp.
  - destruct (getchar_run tries fuel s nl rest Hok Hf Hlen Hp) as (s1 & E1 & Hok1 & Hp1 & _); [lia|].
    destruct (echo_run nl s1 Hok1) as (s2 & E2 & Hok2 & Hp2 & _). exists (<[Z.of_nat (length acc) := 0]> buf), s2.
    split_and!; [|done|congruence|by apply holds_snoc]. step_by E1.
    rewrite (proj2 (Z.ltb_ge nl 0)), (proj2 (Z.leb_gt 32 nl)), (proj2 (Z.eqb_neq nl 8)) by lia. cbn [andb].
    assert ((nl =? 10) || (nl =? 13) = true) as -> by (destruct Hnl as [->| ->]; done). by step_by E2.
  - destruct Hc as (Hc & H10 & H13).
    destruct (getchar_run tries fuel s c (l ++ nl :: rest) Hok Hf Hlen Hp) as (s1 & E1 & Hok1 & Hp1 & Hf1); [lia|].
    assert (Z.of_nat (length (pending s1)) < CONSBUFSIZE) as Hlen1 by (rewrite Hp in Hlen; rewrite Hp1; simpl in Hlen; lia).
    step_by E1. rewrite (proj2 (Z.ltb_ge c 0)) by lia. cbn [foldl].
    destruct (echo_run c s1 Hok1) as (s2 & E2 & Hok2 & Hp2 & Hf2).
    set (goal := λ r : res (option mem * console P), ∃ buf' s', r = Ret (Some buf', s') ∧ console_ok s' ∧ pending s' = rest ∧
      holds buf' (foldl edit (edit acc c) l ++ [0])).
    assert (∀ buf2, holds buf2 (edit acc c) → goal (readline_loop n (S tries) fuel buf2 (Z.of_nat (length (edit acc c))) s2)) as Hecho.
    { intros buf2 Hb2. apply IH; [simpl in Hn; lia|done|by apply Hf2|by rewrite Hp2|congruence|done]. }
    assert (edit acc c = acc → goal (readline_loop n (S tries) fuel buf (Z.of_nat (length acc)) s1)) as Hdrop.
    { intros Ee. unfold goal. rewrite Ee. apply IH; [simpl in Hn; lia|done..]. }
    change (goal ((if (32 <=? c) && (Z.of_nat (length acc) <? BUFSIZE - 1) then
        cputchar c ;; readline_loop n (S tries) fuel (<[Z.of_nat (length acc) := u8 c]> buf) (Z.of_nat (length acc) + 1)
      else if (c =? 8) && (0 <? Z.of_nat (length acc)) then
        cputchar c ;; readline_loop n (S tries) fuel buf (Z.of_nat (length acc) - 1)
      else if (c =? 10) || (c =? 13) then cputchar c ;; mret (Some (<[Z.of_nat (length acc) := 0]> buf))
      else readline_loop n (S tries) fuel buf (Z.of_nat (length acc))) s1)).
    rewrite (proj2 (Z.eqb_neq c 10)), (proj2 (Z.eqb_neq c 13)) by done. cbn [orb]. unfold edit in Hecho, Hdrop.
    destruct ((32 <=? c) && (Z.of_nat (length acc) <? BUFSIZE - 1)).
    + step_by E2. rewrite u8_id by lia. rewrite length_app, Nat2Z.inj_add in Hecho. apply Hecho. by apply holds_snoc.
    + destruct (c =? 8); cbn [andb]; [|by apply Hdrop].
      destruct (Z.ltb_spec 0 (Z.of_nat (length acc))).
      * step_by E2. replace (Z.of_nat (length acc) - 1) with (Z.of_nat (length (take (length acc - 1) acc))) by (rewrite length_take; lia).
        apply Hecho. by apply holds_take.
      * apply Hdrop. assert (acc = []) as -> by (apply nil_length_inv; lia). done.
Qed.

(** ** Whatever arrives *)

(** The routine of a device yields the waiting data one by one, and then -1; it leaves the other device. *)
Definition yields (proc : M (console P) Z) (data rest : P → list Z) : Prop :=
  ∀ s, console_ok s → ∃ c s', proc s = Ret (c, s') ∧ console_ok s' ∧ rest (hw s') = rest (hw s) ∧
    (data (hw s) = [] → c = -1) ∧ (data (hw s) ≠ [] → (is_byte c ∧ (length (data (hw s')) < length (data (hw s)))%nat)).

Lemma serial_yields : yields serial_proc_data serial_in kbd_in.
Proof.
  intros s Hok. pose proof (serial_data_run s) as Hd. destruct (serial_in (hw s)) as [|c l].
  - destruct Hd as (h & E & _ & Hk). eexists _, _. split; [exact E|]. done.
  - destruct Hd as (h & E & Hs & Hk & Hc). eexists _, _. split; [exact E|]. split_and!; [apply Hok..|done|done|].
    intros _. simpl. rewrite Hs. split; [unfold is_byte; destruct (c =? 127); lia|lia].
Qed.

Lemma kbd_yields : yields kbd_proc_data kbd_in serial_in.
Proof.
  intros s Hok. pose proof (kbd_data_run s Hok) as Hd. destruct (kbd_in (hw s)) as [|d l].
  - destruct Hd as (h & E & Hk & _). eexists _, _. split; [exact E|]. done.
  - destruct Hd as (s' & E & Hok' & Hk & Hs & _). eexists _, _. split; [exact E|]. split_and!; [apply Hok'..|done|done|].
    intros _. rewrite Hk. split; [apply decode_range|simpl; lia].
Qed.

Lemma intr_ok proc data rest fuel s : yields proc data rest → console_ok s → (length (data (hw s)) < fuel)%nat →
  ∃ s', cons_intr fuel proc s = Ret (tt, s') ∧ console_ok s' ∧ rest (hw s') = rest (hw s).
Proof.
  intros Hy. revert s. induction fuel as [|fuel IH]; intros s Hok Hf; [lia|]. cbn [cons_intr].
  destruct (Hy s Hok) as (c & s1 & E & Hok1 & Hre & Hnil & Hcons). step_by E. rewrite <-Hre. destruct (decide (data (hw s) = [])) as [Hd|Hd].
  - rewrite (Hnil Hd). exists s1. done.
  - destruct (Hcons Hd) as [Hc Hl]. unfold is_byte in Hc. rewrite (proj2 (Z.eqb_neq c (-1))) by lia.
    destruct (Z.eqb_spec c 0); cbn [negb when].
    + step using done. apply IH; [done|lia].
    + destruct Hok1 as (Ha & Hp & Hr). destruct (store_ok c s1 Hr) as [Es Hr']. step_by Es.
      match goal with |- context [cons_intr fuel proc ?x] => apply (IH x) end; [done|simpl; lia].
Qed.

(** C37: The console stays well-formed whatever is typed, also when more arrives than the input buffer holds: the
    cursor is on the screen, the positions of the input buffer are inside it, and [cons_getc] ends. *)
Theorem cons_getc_well_formed fuel s : console_ok s → enough fuel s →
  ∃ c s', cons_getc fuel s = Ret (c, s') ∧ console_ok s'.
Proof.
  intros Hok [Hf1 Hf2].
  assert (∃ s1, serial_intr fuel s = Ret (tt, s1) ∧ console_ok s1 ∧ kbd_in (hw s1) = kbd_in (hw s)) as (s1 & E1 & Hok1 & Hk1).
  { unfold serial_intr. destruct (serial_exists s) eqn:Hx.
    - destruct (intr_ok _ _ _ fuel s serial_yields Hok Hf1) as (s1 & E & ?). exists s1. split; [|done].
      unfold gets, mbind, M_bind. rewrite Hx. exact E.
    - exists s. split; [|done]. unfold gets, mbind, M_bind. by rewrite Hx. }
  rewrite <-Hk1 in Hf2. destruct (intr_ok _ _ _ fuel s1 kbd_yields Hok1 Hf2) as (s2 & E2 & Hok2 & _).
  unfold cons_getc. step_by E1. step using (exact E2). step using done. step using done. cbv beta.
  destruct (Z.eqb_spec (rpos s2) (wpos s2)) as [He|Hne]; cbn [negb]; [by eexists _, _|].
  destruct Hok2 as (Ha & Hp & Hr & Hw & Hb). destruct (Hb (rpos s2) Hr) as [x Hx].
  eexists _, _. unfold deref, mbind, M_bind, modify. rewrite Hx. split; [reflexivity|].
  split; [done|]. split; [apply Hp|]. unfold ring_ok. simpl. split_and!; [case_match; z_bool; lia..|lia|lia|done].
Qed.

(** [cons_putc] shows the character as a terminal does: it is written at the cursor, a backspace erases
    the character before, line feed and carriage return move the cursor, and a full screen scrolls up by a row.
    The waiting input is not touched. *)
Theorem cons_putc_refines c s : console_ok s →
  ∃ s', cons_putc c s = Ret (tt, s') ∧ console_ok s' ∧ screen s' = term_putc c (screen s) ∧ pending s' = pending s.
Proof.
  intros Hok. pose proof Hok as (Ha & Hp & _). destruct (putc_run c s Ha Hp) as (s' & E & S & O & P' & T).
  destruct (pending_frame s s' S O P' Hok) as (? & ? & _). by exists s'.
Qed.

(** [cons_getc] hands out the input in the order in which it came: first what is in the buffer, then the bytes
    of the serial line, then the characters of the scan codes, as long as it all fits into the buffer. *)
Theorem cons_getc_fifo fuel s : console_ok s → enough fuel s → Z.of_nat (length (pending s)) < CONSBUFSIZE →
  ∃ s', cons_getc fuel s = Ret (default 0 (head (pending s)), s') ∧ console_ok s' ∧ pending s' = tail (pending s).
Proof. intros Hok Hf Hl. destruct (getc_run fuel s Hok Hf Hl) as (s' & ? & ? & ? & _). by exists s'. Qed.

(** [readline] returns the line that was typed up to the first newline or carriage return, with the backspaces
    applied and cut at the size of the buffer, terminated by a zero byte; what was typed after it waits. *)
Theorem readline_correct l nl rest tries fuel buf s :
  nl = 10 ∨ nl = 13 → Forall typed l → console_ok s → enough fuel s → Z.of_nat (length (pending s)) < CONSBUFSIZE →
  pending s = l ++ nl :: rest →
  ∃ buf' s', readline (S (length l)) (S tries) fuel None buf s = Ret (Some buf', s') ∧ console_ok s' ∧ pending s' = rest ∧
    holds buf' (foldl edit [] l ++ [0]).
Proof.
  intros Hnl Ht Hok Hf Hlen Hp. unfold readline. step using done.
  eapply (readline_loop_run l nl rest tries fuel Hnl Ht (S (length l)) buf [] s); [lia|done..|]. by intros k x Hk.
Qed.

End proofs.

(** * Witnesses *)

(** A serial line and a keyboard with the given bytes waiting, and devices that are ready for output. *)
Definition demo_ports : Type := list Z * list Z.

#[export] Instance demo_machine : ports demo_ports := {
  inb port p :=
    if port =? COM1 + COM_LSR then (match p.1 with [] => 0x20 | _ => 0x21 end, p)
    else if port =? COM1 + COM_RX then match p.1 with [] => (0, p) | c :: l => (c, (l, p.2)) end
    else if port =? KBSTATP then (match p.2 with [] => 0 | _ => 1 end, p)
    else if port =? KBDATAP then match p.2 with [] => (0, p) | c :: l => (c, (p.1, l)) end
    else (0x80, p);
  outb _ _ p := p }.

#[export] Program Instance demo_input : input_dev demo_ports := {
  serial_in p := u8 <$> p.1;
  kbd_in p := u8 <$> p.2 }.
Next Obligation.
  intros port [l1 l2] H1 H2. simpl. destruct (port =? COM1 + COM_LSR); [done|].
  destruct (Z.eqb_spec port (COM1 + COM_RX)); [done|]. destruct (port =? KBSTATP); [done|].
  by destruct (Z.eqb_spec port KBDATAP).
Qed.
Next Obligation. done. Qed.
Next Obligation. intros [[|c l1] l2]; done. Qed.
Next Obligation. intros [[|c l1] l2] c' l; simpl; [done|]. intros [= <- <-]. done. Qed.
Next Obligation. intros [l1 [|c l2]]; done. Qed.
Next Obligation. intros [l1 [|c l2]] c' l; simpl; [done|]. intros [= <- <-]. done. Qed.

Definition demo_ring : gmap Z Z := list_to_map ((λ i, (i, 0)) <$> seqZ 0 CONSBUFSIZE).

Lemma demo_ring_full i : 0 ≤ i < CONSBUFSIZE → demo_ring !! i = Some 0.
Proof.
  intros Hi. apply elem_of_list_to_map_1; [|apply list_elem_of_fmap; exists i; split; [done|by apply elem_of_seqZ]].
  rewrite <-list_fmap_compose. change (fst ∘ (λ i : Z, (i, 0))) with (λ i : Z, i). rewrite list_fmap_id. apply NoDup_seqZ.
Qed.

Definition demo (l1 l2 : list Z) (p : Z) : console demo_ports :=
  mkConsole (l1, l2) ∅ 0xB8000 p CGA_BASE true demo_ring 510 510 0 0 true.

Lemma demo_ok l1 l2 p : 0 ≤ p < CRT_SIZE → console_ok (demo l1 l2 p).
Proof.
  intros Hp. split; [by left|]. split; [exact Hp|]. split; [done|]. split; [done|].
  intros i Hi. exists 0. by apply demo_ring_full.
Qed.

Lemma cons_getc_well_formed_witness : ∃ c s', cons_getc 3 (demo [97; 127] [30] 0) = Ret (c, s') ∧ console_ok s'.
Proof. apply (cons_getc_well_formed 3 (demo [97; 127] [30] 0)); [by apply demo_ok|split; simpl; lia]. Defined.

Lemma cons_putc_refines_witness : ∃ s', cons_putc 10 (demo [97] [] 1999) = Ret (tt, s') ∧ console_ok s' ∧
  screen s' = term_putc 10 (screen (demo [97] [] 1999)) ∧ pending s' = pending (demo [97] [] 1999).
Proof. apply (cons_putc_refines 10 (demo [97] [] 1999)). by apply demo_ok. Defined.

Lemma cons_getc_fifo_witness : ∃ s', cons_getc 3 (demo [97; 127] [30] 0) = Ret (97, s') ∧ console_ok s' ∧ pending s' = [8; 97].
Proof.
  assert (pending (demo [97; 127] [30] 0) = [97; 8; 97]) as Hp by (vm_compute; reflexivity).
  destruct (cons_getc_fifo 3 (demo [97; 127] [30] 0)) as (s' & E & Hok & Hp'); [by apply demo_ok|split; simpl; lia|by rewrite Hp|].
  rewrite Hp in E, Hp'. exists s'. split; [exact E|]. split; [exact Hok|exact Hp'].
Defined.

Lemma readline_correct_witness : ∃ buf' s', readline 4 1 5 None ∅ (demo [97; 98; 127; 10] [] 0) = Ret (Some buf', s') ∧
  console_ok s' ∧ pending s' = [] ∧ holds buf' [97; 0].
Proof.
  assert (pending (demo [97; 98; 127; 10] [] 0) = [97; 98; 8; 10]) as Hp by (vm_compute; reflexivity).
  destruct (readline_correct [97; 98; 8] 10 [] 0 5 ∅ (demo [97; 98; 127; 10] [] 0)) as (buf' & s' & E & Hok & Hr & Hb);
    [by left|repeat constructor; done|by apply demo_ok|split; simpl; lia|by rewrite Hp|exact Hp|].
  exists buf', s'. split; [exact E|]. split; [exact Hok|]. split; [exact Hr|exact Hb].
Defined.

(** When as many characters arrive as the buffer has places, it looks empty, and they are lost. *)
Example cons_overrun : match serial_intr 513 (demo (replicate 512 97) [] 0) with
  | Ret (_, s) => rpos s = wpos s
  | Err _ => False
  end.
Proof. vm_compute. reflexivity. Qed.

(** Control and Home do not give [KEY_HOME], unlike the other keys of the block. *)
Example ctl_home : (kbd_decode (Z.lor CTL E0ESC) 0x47).2 = 0 ∧ (kbd_decode (Z.lor CTL E0ESC) 0x48).2 = KEY_UP.
Proof. done. Qed.

End Console.
