(* ===== verification/Devices.v ===== *)
(** The device drivers of the file system, kern/fs/devs: the disk dev_disk0.c over the sectors of kern/driver/ide.c,
    the keyboard buffer dev_stdin.c over the wait queues of Sync.v, and dev_stdout.c over the console. *)
From S2P Require Import Prelude Dll ProcData Sched Sync SfsDisk Iobuf SfsInode SfsDir Vfs Cstring Console.

Module Devices.
Import SfsDisk Iobuf SfsInode.
Set Default Proof Using "Type".

(** * The disk *)

Definition SECTSIZE : Z := 512.
Definition MAX_NSECS : Z := 128.
Definition MAX_DISK_NSECS : Z := 0x10000000.
Definition DISK0_BLKSIZE : Z := PGSIZE.
Definition DISK0_BUFSIZE : Z := 4 * DISK0_BLKSIZE.
Definition DISK0_BLK_NSECT : Z := DISK0_BLKSIZE / SECTSIZE.

(** The file disk: whether it was found, its size, and the transfer of one sector of bytes, which fails when the
    status register shows an error. *)
Class disk_hw (D : Type) := {
  disk_valid : D → bool;
  disk_sectors : D → Z;
  sec_read : Z → M D (option (list Z));
  sec_write : Z → list Z → M D bool }.

(** What the driver relies on while [disk_good] holds of the disk: sectors hold what was written to them. *)
Class disk_laws `{HW : disk_hw D} := {
  sector : D → Z → list Z;
  disk_good : D → Prop;
  disk_good_valid d : disk_good d → disk_valid d = true;
  sector_length d k : length (sector d k) = 512%nat;
  sec_read_good d k : disk_good d →
    ∃ d', sec_read k d = Ret (Some (sector d k), d') ∧ disk_good d' ∧ ∀ t, sector d' t = sector d t;
  sec_write_good d k l : disk_good d → length l = 512%nat →
    ∃ d', sec_write k l d = Ret (true, d') ∧ disk_good d' ∧ ∀ t, sector d' t = if decide (t = k) then l else sector d t }.

Section disk0.
Context {D : Type} `{HW : disk_hw D}.

(** [ide_read_secs] and [ide_write_secs], between the disk and memory. *)
Definition ide_check (secno nsecs : Z) : M D unit :=
  v ← gets disk_valid;
  assert ((nsecs <=? MAX_NSECS) && v) ;;
  assert ((secno <? MAX_DISK_NSECS) && (u32 (secno + nsecs) <=? MAX_DISK_NSECS)).

Fixpoint ide_read_loop (n : nat) (secno dst : Z) (m : gmap Z Z) : M D (Z * gmap Z Z) :=
  match n with
  | O => mret (0, m)
  | S n' =>
      r ← sec_read secno;
      match r with
      | None => mret (-1, m)
      | Some l => ide_read_loop n' (secno + 1) (dst + SECTSIZE) (write_bytes m dst l)
      end
  end.
Definition ide_read_secs (secno dst nsecs : Z) (m : gmap Z Z) : M D (Z * gmap Z Z) :=
  ide_check secno nsecs ;; ide_read_loop (Z.to_nat nsecs) secno dst m.

Fixpoint ide_write_loop (n : nat) (secno src : Z) (m : gmap Z Z) : M D Z :=
  match n with
  | O => mret 0
  | S n' =>
      ok ← sec_write secno (read_bytes m src SECTSIZE);
      if ok : bool then ide_write_loop n' (secno + 1) (src + SECTSIZE) m else mret (-1)
  end.
Definition ide_write_secs (secno src nsecs : Z) (m : gmap Z Z) : M D Z :=
  ide_check secno nsecs ;; ide_write_loop (Z.to_nat nsecs) secno src m.

(** The state of the driver. *)
Record disk0 := mkDisk0 {
  disk0_buffer : Z;
  d_blocks : Z;
  disk0_sem : Z;
  dsk : D }.

Definition in_dsk {A} (c : M D A) : M disk0 A := λ s,
  match c (dsk s) with Ret (a, d) => Ret (a, mkDisk0 (disk0_buffer s) (d_blocks s) (disk0_sem s) d) | Err e => Err e end.

(** The semaphore: a process that finds it taken waits until [unlock_disk0] of another one. *)
Definition lock_disk0 : M disk0 unit :=
  s ← get;
  if 0 <? disk0_sem s then put (mkDisk0 (disk0_buffer s) (d_blocks s) (disk0_sem s - 1) (dsk s)) else fail EFault.
Definition unlock_disk0 : M disk0 unit := modify (λ s, mkDisk0 (disk0_buffer s) (d_blocks s) (disk0_sem s + 1) (dsk s)).

Definition disk0_open (open_flags : Z) : M disk0 Z := mret 0.
Definition disk0_close : M disk0 Z := mret 0.

Definition disk0_read_blks_nolock (blkno nblks : Z) (m : gmap Z Z) : M disk0 (gmap Z Z) :=
  b ← gets disk0_buffer;
  '(ret, m') ← in_dsk (ide_read_secs (u32 (blkno * DISK0_BLK_NSECT)) b (u32 (nblks * DISK0_BLK_NSECT)) m);
  if negb (ret =? 0) then fail EPanic else mret m'.
Definition disk0_write_blks_nolock (blkno nblks : Z) (m : gmap Z Z) : M disk0 unit :=
  b ← gets disk0_buffer;
  ret ← in_dsk (ide_write_secs (u32 (blkno * DISK0_BLK_NSECT)) b (u32 (nblks * DISK0_BLK_NSECT)) m);
  if negb (ret =? 0) then fail EPanic else mret tt.

(** [iobuf_move] to or from the buffer: the bytes moved. *)
Definition move (len : Z) (m2b : bool) (mi : gmap Z Z * iobuf) : M disk0 (Z * (gmap Z Z * iobuf)) := λ s,
  match iobuf_move (disk0_buffer s) len m2b mi with Ret ((_, copied), mi') => Ret ((copied, mi'), s) | Err e => Err e end.

(** The loop of [disk0_io]; every round transfers a block at least. *)
Fixpoint disk0_loop (fuel : nat) (write : bool) (resid blkno : Z) (mi : gmap Z Z * iobuf) : M disk0 (gmap Z Z * iobuf) :=
  if resid =? 0 then mret mi else
  match fuel with
  | O => fail EFuel
  | S fuel' =>
      if write then
        '(copied, mi) ← move DISK0_BUFSIZE false mi;
        assert (negb (copied =? 0) && (copied <=? resid) && (copied mod DISK0_BLKSIZE =? 0)) ;;
        let nblks := copied / DISK0_BLKSIZE in
        disk0_write_blks_nolock blkno nblks mi.1 ;;
        disk0_loop fuel' write (resid - copied) (u32 (blkno + nblks)) mi
      else
        let alen := if resid <? DISK0_BUFSIZE then resid else DISK0_BUFSIZE in
        let nblks := alen / DISK0_BLKSIZE in
        m ← disk0_read_blks_nolock blkno nblks mi.1;
        '(copied, mi) ← move alen true (m, mi.2);
        assert ((copied =? alen) && (copied mod DISK0_BLKSIZE =? 0)) ;;
        disk0_loop fuel' write (resid - copied) (u32 (blkno + nblks)) mi
  end.

Definition disk0_io (write : bool) (mi : gmap Z Z * iobuf) : M disk0 (Z * (gmap Z Z * iobuf)) :=
  let offset := io_offset mi.2 in
  let resid := io_resid mi.2 in
  let blkno := u32 (Z.quot offset DISK0_BLKSIZE) in
  let nblks := resid / DISK0_BLKSIZE in
  if negb (Z.rem offset DISK0_BLKSIZE =? 0) || negb (resid mod DISK0_BLKSIZE =? 0) then mret (- E_INVAL, mi) else
  n ← gets d_blocks;
  if n <? u32 (blkno + nblks) then mret (- E_INVAL, mi) else
  if nblks =? 0 then mret (0, mi) else
  lock_disk0 ;;
  mi ← disk0_loop (Z.to_nat nblks) write resid blkno mi;
  unlock_disk0 ;;
  mret (0, mi).

(** [disk0_device_init]; [mem] is what [kmalloc] answers. *)
Definition disk0_device_init (mem : option Z) (d : D) : res disk0 :=
  if negb (disk_valid d) then Err EPanic else
  match mem with
  | None => Err EPanic
  | Some b => Ret (mkDisk0 b (disk_sectors d / DISK0_BLK_NSECT) 1 d)
  end.

(** ** The disk as a sequence of bytes *)

Context {HL : disk_laws}.

Definition disk_byte (d : D) (a : Z) : Z := sector d (a / 512) !!! Z.to_nat (a mod 512).

Lemma secs_check_run d secno nsecs : disk_good d → 0 < nsecs ≤ 128 → 0 ≤ secno → secno + nsecs ≤ MAX_DISK_NSECS →
  ide_check secno nsecs d = Ret (tt, d).
Proof.
  intros Hg Hn Hs Hb. unfold MAX_DISK_NSECS in *. unfold ide_check, mbind, M_bind, gets, assert. rewrite disk_good_valid by done.
  rewrite (proj2 (Z.leb_le nsecs MAX_NSECS)) by (unfold MAX_NSECS; lia). cbn [andb].
  rewrite u32_small by lia. unfold MAX_DISK_NSECS. by rewrite (proj2 (Z.ltb_lt _ _)), (proj2 (Z.leb_le _ _)) by lia.
Qed.

Lemma sector_bytes a k : k * 512 ≤ a < (k + 1) * 512 → a / 512 = k ∧ a mod 512 = a - k * 512.
Proof. intros H. pose proof (Z.div_mod a 512). pose proof (Z.mod_pos_bound a 512). lia. Qed.

Lemma secs_write_run n d k src m : disk_good d →
  ∃ d', ide_write_loop n k src m d = Ret (0, d') ∧ disk_good d' ∧
    ∀ a, disk_byte d' a = if decide (k * 512 ≤ a < (k + Z.of_nat n) * 512) then byte_at m (src + (a - k * 512)) else disk_byte d a.
Proof.
  revert d k src. induction n as [|n IH]; intros d k src Hg; cbn [ide_write_loop].
  { exists d. split_and!; [done|done|]. intros a. by rewrite decide_False by lia. }
  destruct (sec_write_good d k (read_bytes m src SECTSIZE) Hg) as (d1 & Hw & Hg1 & Hs1).
  { unfold read_bytes, SECTSIZE. by rewrite length_fmap, length_seqZ. }
  destruct (IH d1 (k + 1) (src + SECTSIZE) Hg1) as (d' & Hrun & Hg' & Hd). exists d'. split_and!; [|done|].
  - by step using (exact Hw).
  - intros a. rewrite Hd. unfold SECTSIZE. destruct (decide ((k + 1) * 512 ≤ a < (k + 1 + Z.of_nat n) * 512)) as [H1|H1].
    + rewrite decide_True by lia. f_equal. lia.
    + unfold disk_byte at 1. rewrite Hs1. destruct (decide (a / 512 = k)) as [Hk|Hk].
      * pose proof (Z.div_mod a 512). pose proof (Z.mod_pos_bound a 512). rewrite decide_True by lia.
        apply list_lookup_total_correct. rewrite lookup_read by (unfold SECTSIZE; lia). do 2 f_equal. lia.
      * rewrite decide_False; [done|]. intros Ha. apply Hk. apply sector_bytes. lia.
Qed.

Lemma secs_read_run n d k dst m : disk_good d →
  ∃ m' d', ide_read_loop n k dst m d = Ret ((0, m'), d') ∧ disk_good d' ∧ (∀ a, disk_byte d' a = disk_byte d a) ∧
    ∀ a, byte_at m' a = if decide (dst ≤ a < dst + Z.of_nat n * 512) then disk_byte d (k * 512 + (a - dst)) else byte_at m a.
Proof.
  revert d k dst m. induction n as [|n IH]; intros d k dst m Hg; cbn [ide_read_loop].
  { exists m, d. split_and!; try done. intros a. by rewrite decide_False by lia. }
  destruct (sec_read_good d k Hg) as (d1 & Hr & Hg1 & Hs1).
  assert (∀ a, disk_byte d1 a = disk_byte d a) as Hd1 by (intros a; unfold disk_byte; by rewrite Hs1).
  destruct (IH d1 (k + 1) (dst + SECTSIZE) (write_bytes m dst (sector d k)) Hg1) as (m' & d' & Hrun & Hg' & Hd & Hm).
  exists m', d'. split_and!; [by step using (exact Hr)|done|intros a; by rewrite Hd, Hd1|]. intros a. rewrite Hm. unfold SECTSIZE.
  destruct (decide (dst + 512 ≤ a < dst + 512 + Z.of_nat n * 512)) as [H1|H1].
  - rewrite decide_True by lia. rewrite Hd1. f_equal. lia.
  - rewrite byte_write, sector_length. destruct (decide (dst ≤ a < dst + Z.of_nat 512)) as [H2|H2].
    + rewrite decide_True by lia. unfold disk_byte. destruct (sector_bytes (k * 512 + (a - dst)) k) as [-> ->]; [lia|]. f_equal. lia.
    + by rewrite decide_False by lia.
Qed.

Definition with_dsk (s : disk0) (d : D) : disk0 := mkDisk0 (disk0_buffer s) (d_blocks s) (disk0_sem s) d.

(** [m'] is [m] with the [n] bytes at [dst] read from [f]. *)
Definition over (m m' : gmap Z Z) (dst n : Z) (f : Z → Z) : Prop :=
  ∀ a, byte_at m' a = if decide (dst ≤ a < dst + n) then f (a - dst) else byte_at m a.

Lemma move_run s len (m2b : bool) m iob : 0 ≤ len → 0 ≤ io_resid iob →
  let n := Z.min len (io_resid iob) in
  let src := if m2b then disk0_buffer s else io_base iob in
  let dst := if m2b then io_base iob else disk0_buffer s in
  ∃ m', move len m2b (m, iob) s = Ret ((n, (m', advanced iob n)), s) ∧ over m m' dst n (λ i, byte_at m (src + i)).
Proof.
  intros Hl Hr n src dst. destruct (iobuf_move_correct m iob (disk0_buffer s) len m2b Hl Hr) as (m' & Hrun & Hrd & Hout & _).
  fold n src dst in Hrun, Hrd, Hout. exists m'. split; [unfold move; by rewrite Hrun|]. intros a.
  destruct (decide (dst ≤ a < dst + n)) as [Ha|Ha]; [|by apply Hout].
  assert (read_bytes m' dst n !! Z.to_nat (a - dst) = read_bytes m src n !! Z.to_nat (a - dst)) as Heq by by rewrite Hrd.
  rewrite !lookup_read in Heq by lia. rewrite Z2Nat.id in Heq by lia. injection Heq as Heq. rewrite <-Heq. f_equal. lia.
Qed.

(** The blocks of the disk that the driver can name. *)
Definition MAX_BLKS : Z := 0x2000000.

Lemma write_blks_run s blkno nblks m : disk_good (dsk s) → 0 < nblks ≤ 4 → 0 ≤ blkno → blkno + nblks ≤ MAX_BLKS →
  ∃ d', disk0_write_blks_nolock blkno nblks m s = Ret (tt, with_dsk s d') ∧ disk_good d' ∧
    ∀ a, disk_byte d' a = if decide (blkno * 4096 ≤ a < (blkno + nblks) * 4096) then byte_at m (disk0_buffer s + (a - blkno * 4096))
      else disk_byte (dsk s) a.
Proof.
  intros Hg Hn Hb Hm. unfold MAX_BLKS in Hm.
  destruct (secs_write_run (Z.to_nat (nblks * 8)) (dsk s) (blkno * 8) (disk0_buffer s) m Hg) as (d' & Hrun & Hg' & Hd).
  exists d'. split_and!; [|done|].
  - unfold disk0_write_blks_nolock. step using reflexivity. change DISK0_BLK_NSECT with 8. rewrite !u32_small by lia.
    assert (in_dsk (ide_write_secs (blkno * 8) (disk0_buffer s) (nblks * 8) m) s = Ret (0, with_dsk s d')) as Hin.
    { unfold in_dsk, ide_write_secs. unfold mbind, M_bind. rewrite secs_check_run by (done || unfold MAX_DISK_NSECS; lia).
      by rewrite Hrun. }
    by step using (exact Hin).
  - intros a. rewrite Hd. rewrite Z2Nat.id by lia.
    destruct (decide (blkno * 8 * 512 ≤ a < (blkno * 8 + nblks * 8) * 512)).
    + rewrite decide_True by lia. f_equal. lia.
    + by rewrite decide_False by lia.
Qed.

Lemma read_blks_run s blkno nblks m : disk_good (dsk s) → 0 < nblks ≤ 4 → 0 ≤ blkno → blkno + nblks ≤ MAX_BLKS →
  ∃ m' d', disk0_read_blks_nolock blkno nblks m s = Ret (m', with_dsk s d') ∧ disk_good d' ∧
    (∀ a, disk_byte d' a = disk_byte (dsk s) a) ∧
    over m m' (disk0_buffer s) (nblks * 4096) (λ i, disk_byte (dsk s) (blkno * 4096 + i)).
Proof.
  intros Hg Hn Hb Hm. unfold MAX_BLKS in Hm.
  destruct (secs_read_run (Z.to_nat (nblks * 8)) (dsk s) (blkno * 8) (disk0_buffer s) m Hg) as (m' & d' & Hrun & Hg' & Hd & Hby).
  exists m', d'. split_and!; [|done|done|].
  - unfold disk0_read_blks_nolock. step using reflexivity. change DISK0_BLK_NSECT with 8. rewrite !u32_small by lia.
    assert (in_dsk (ide_read_secs (blkno * 8) (disk0_buffer s) (nblks * 8) m) s = Ret ((0, m'), with_dsk s d')) as Hin.
    { unfold in_dsk, ide_read_secs. unfold mbind, M_bind. rewrite secs_check_run by (done || unfold MAX_DISK_NSECS; lia).
      by rewrite Hrun. }
    by step using (exact Hin).
  - intros a. rewrite Hby. rewrite Z2Nat.id by lia.
    destruct (decide (disk0_buffer s ≤ a < disk0_buffer s + nblks * 8 * 512)).
    + rewrite decide_True by lia. f_equal. lia.
    + by rewrite decide_False by lia.
Qed.

(** What a transfer of [n] bytes between [base] in memory and block [blkno] on the disk leaves. *)
Record moved (write : bool) (b base n blkno : Z) (m : gmap Z Z) (d : D) (m' : gmap Z Z) (d' : D) : Prop := {
  mv_good : disk_good d';
  mv_disk : ∀ a, disk_byte d' a =
    if decide (write = true ∧ blkno * 4096 ≤ a < blkno * 4096 + n) then byte_at m (base + (a - blkno * 4096)) else disk_byte d a;
  mv_mem : ∀ a, ¬ b ≤ a < b + DISK0_BUFSIZE → byte_at m' a =
    if decide (write = false ∧ base ≤ a < base + n) then disk_byte d (blkno * 4096 + (a - base)) else byte_at m a }.

Lemma moved_none write b base blkno m d : disk_good d → moved write b base 0 blkno m d m d.
Proof. intros Hg. split; [done| |]; intros a; [|intros _]; by rewrite decide_False by lia. Qed.

Lemma moved_app write b base k n blkno m d m1 d1 m2 d2 :
  0 ≤ k → 0 ≤ n → (base + k * 4096 + n ≤ b ∨ b + DISK0_BUFSIZE ≤ base) →
  moved write b base (k * 4096) blkno m d m1 d1 → moved write b (base + k * 4096) n (blkno + k) m1 d1 m2 d2 →
  moved write b base (k * 4096 + n) blkno m d m2 d2.
Proof.
  intros Hk Hn Hsep [A1 A2 A3] [B1 B2 B3]. unfold DISK0_BUFSIZE, DISK0_BLKSIZE, PGSIZE in *. split; [done| |].
  - intros a. rewrite B2, A2. destruct write.
    + destruct (decide (true = true ∧ (blkno + k) * 4096 ≤ a < _)) as [[_ H2]|H2].
      * rewrite decide_True by lia. rewrite A3 by lia. rewrite decide_False by naive_solver. f_equal. lia.
      * destruct (decide (true = true ∧ blkno * 4096 ≤ a < blkno * 4096 + k * 4096)) as [[_ H1]|H1].
        -- by rewrite decide_True by lia.
        -- by rewrite decide_False by naive_solver lia.
    + by rewrite !decide_False by naive_solver.
  - intros a Ha. rewrite B3 by done. destruct write.
    + rewrite decide_False by naive_solver. rewrite A3 by done. by rewrite !decide_False by naive_solver.
    + destruct (decide (false = false ∧ base + k * 4096 ≤ a < _)) as [[_ H2]|H2].
      * rewrite decide_True by lia. rewrite A2, decide_False by naive_solver. f_equal. lia.
      * rewrite A3 by done. destruct (decide (false = false ∧ base ≤ a < base + k * 4096)) as [[_ H1]|H1].
        -- by rewrite decide_True by lia.
        -- by rewrite decide_False by naive_solver lia.
Qed.

Lemma advanced_app iob n k : advanced (advanced iob n) k = advanced iob (n + k).
Proof. unfold advanced. simpl. f_equal; lia. Qed.

(** The body of one round, for writing and for reading, on [k] blocks. *)
Lemma round_write s m iob k blkno : disk_good (dsk s) → 0 < k ≤ 4 → 0 ≤ blkno → blkno + k ≤ MAX_BLKS →
  Z.min DISK0_BUFSIZE (io_resid iob) = k * 4096 → 0 ≤ io_resid iob → (io_base iob + k * 4096 ≤ disk0_buffer s ∨ disk0_buffer s + DISK0_BUFSIZE ≤ io_base iob) →
  ∃ m' d', move DISK0_BUFSIZE false (m, iob) s = Ret ((k * 4096, (m', advanced iob (k * 4096))), s) ∧
    disk0_write_blks_nolock blkno k m' s = Ret (tt, with_dsk s d') ∧
    moved true (disk0_buffer s) (io_base iob) (k * 4096) blkno m (dsk s) m' d'.
Proof.
  intros Hg Hk Hb Hm Hmin Hr Hsep. destruct (move_run s DISK0_BUFSIZE false m iob) as (m' & Hmv & Hov); [done|done|].
  cbv zeta in Hmv, Hov. rewrite Hmin in Hmv, Hov.
  destruct (write_blks_run s blkno k m' Hg Hk Hb Hm) as (d' & Hw & Hg' & Hd). exists m', d'. split_and!; [done|done|]. split; [done| |].
  - intros a. rewrite Hd. destruct (decide (blkno * 4096 ≤ a < (blkno + k) * 4096)) as [Ha|Ha].
    + rewrite decide_True by lia. rewrite Hov, decide_True by lia. f_equal. lia.
    + by rewrite decide_False by lia.
  - intros a Ha. unfold DISK0_BUFSIZE, DISK0_BLKSIZE, PGSIZE in *. rewrite Hov, decide_False by lia. by rewrite decide_False by naive_solver.
Qed.

Lemma round_read s m iob k blkno : disk_good (dsk s) → 0 < k ≤ 4 → 0 ≤ blkno → blkno + k ≤ MAX_BLKS →
  k * 4096 ≤ io_resid iob → (io_base iob + k * 4096 ≤ disk0_buffer s ∨ disk0_buffer s + DISK0_BUFSIZE ≤ io_base iob) →
  ∃ m1 m' d', disk0_read_blks_nolock blkno k m s = Ret (m1, with_dsk s d') ∧
    move (k * 4096) true (m1, iob) (with_dsk s d') = Ret ((k * 4096, (m', advanced iob (k * 4096))), with_dsk s d') ∧
    moved false (disk0_buffer s) (io_base iob) (k * 4096) blkno m (dsk s) m' d'.
Proof.
  intros Hg Hk Hb Hm Hr Hsep. unfold DISK0_BUFSIZE, DISK0_BLKSIZE, PGSIZE in *.
  destruct (read_blks_run s blkno k m Hg Hk Hb Hm) as (m1 & d' & Hrun & Hg' & Hd & Hov1).
  destruct (move_run (with_dsk s d') (k * 4096) true m1 iob) as (m' & Hmv & Hov); [lia|lia|]. cbv zeta in Hmv, Hov.
  rewrite Z.min_l in Hmv, Hov by lia. exists m1, m', d'. split_and!; [done|done|]. split; [done| |].
  - intros a. by rewrite Hd, decide_False by naive_solver.
  - intros a Ha. unfold DISK0_BUFSIZE, DISK0_BLKSIZE, PGSIZE in *. rewrite Hov. cbn [disk0_buffer with_dsk].
    destruct (decide (io_base iob ≤ a < io_base iob + k * 4096)) as [H1|H1].
    + rewrite decide_True by done. rewrite Hov1, decide_True by lia. f_equal. lia.
    + rewrite decide_False by naive_solver. rewrite Hov1. by rewrite decide_False by lia.
Qed.

Lemma disk0_loop_run fuel write s m iob nblks blkno : disk_good (dsk s) → 0 ≤ nblks → 0 ≤ blkno → blkno + nblks ≤ MAX_BLKS →
  io_resid iob = nblks * 4096 → (Z.to_nat nblks ≤ fuel)%nat →
  (io_base iob + nblks * 4096 ≤ disk0_buffer s ∨ disk0_buffer s + DISK0_BUFSIZE ≤ io_base iob) →
  ∃ m' d', disk0_loop fuel write (nblks * 4096) blkno (m, iob) s = Ret ((m', advanced iob (nblks * 4096)), with_dsk s d') ∧
    moved write (disk0_buffer s) (io_base iob) (nblks * 4096) blkno m (dsk s) m' d'.
Proof.
  revert s m iob nblks blkno. induction fuel as [|fuel IH]; intros s m iob nblks blkno Hg Hn Hb Hm Hres Hf Hsep.
  { assert (nblks = 0) as -> by lia. exists m, (dsk s). split; [|by apply moved_none]. simpl.
    unfold mret, M_ret. do 3 f_equal; [destruct iob; unfold advanced; simpl; f_equal; lia|by destruct s]. }
  cbn [disk0_loop]. destruct (Z.eqb_spec (nblks * 4096) 0) as [H0|H0].
  { assert (nblks = 0) as -> by lia. exists m, (dsk s). split; [|by apply moved_none].
    unfold mret, M_ret. do 3 f_equal; [destruct iob; unfold advanced; simpl; f_equal; lia|by destruct s]. }
  set (k := Z.min 4 nblks). assert (0 < k ≤ 4 ∧ k ≤ nblks) as [Hk Hkn] by (unfold k; lia).
  assert (Z.min DISK0_BUFSIZE (nblks * 4096) = k * 4096) as Hmin by (unfold DISK0_BUFSIZE, DISK0_BLKSIZE, PGSIZE, k; lia).
  assert (k * 4096 / DISK0_BLKSIZE = k) as Hdiv by (unfold DISK0_BLKSIZE, PGSIZE; by rewrite Z.div_mul).
  assert (k * 4096 mod DISK0_BLKSIZE = 0) as Hmod by (unfold DISK0_BLKSIZE, PGSIZE; by rewrite Z.mod_mul).
  unfold MAX_BLKS in *. destruct write.
  - destruct (round_write s m iob k blkno) as (m1 & d1 & Hmv & Hw & Hmoved);
      [done|lia|done|unfold MAX_BLKS; lia|by rewrite Hres|lia|lia|].
    step using (exact Hmv). cbv beta iota zeta. step using (unfold assert; rewrite (proj2 (Z.eqb_neq _ _)), (proj2 (Z.leb_le _ _)), Hmod by lia; reflexivity).
    rewrite Hdiv. step using (exact Hw). rewrite u32_small by lia.
    destruct (IH (with_dsk s d1) m1 (advanced iob (k * 4096)) (nblks - k) (blkno + k)) as (m2 & d2 & Hrun & Hmoved2);
      cbn [dsk with_dsk disk0_buffer io_base io_resid advanced]; try lia; [apply Hmoved|].
    replace (nblks * 4096 - k * 4096) with ((nblks - k) * 4096) by lia. exists m2, d2. split.
    + rewrite Hrun, advanced_app. do 4 f_equal. lia.
    + replace (nblks * 4096) with (k * 4096 + (nblks - k) * 4096) by lia. eapply moved_app; [lia|lia| |done|done]. lia.
  - assert ((if nblks * 4096 <? DISK0_BUFSIZE then nblks * 4096 else DISK0_BUFSIZE) = k * 4096) as ->.
    { rewrite <-Hmin. destruct (Z.ltb_spec (nblks * 4096) DISK0_BUFSIZE); lia. }
    cbv zeta. rewrite Hdiv.
    destruct (round_read s m iob k blkno) as (m0 & m1 & d1 & Hr & Hmv & Hmoved);
      [done|lia|done|unfold MAX_BLKS; lia|lia|lia|].
    cbn [fst snd]. step using (exact Hr). step using (exact Hmv). cbv beta iota.
    step using (unfold assert; rewrite Z.eqb_refl, Hmod; reflexivity). rewrite u32_small by lia.
    destruct (IH (with_dsk s d1) m1 (advanced iob (k * 4096)) (nblks - k) (blkno + k)) as (m2 & d2 & Hrun & Hmoved2);
      cbn [dsk with_dsk disk0_buffer io_base io_resid advanced]; try lia; [apply Hmoved|].
    replace (nblks * 4096 - k * 4096) with ((nblks - k) * 4096) by lia. exists m2, d2. split.
    + rewrite Hrun, advanced_app. do 4 f_equal. lia.
    + replace (nblks * 4096) with (k * 4096 + (nblks - k) * 4096) by lia. eapply moved_app; [lia|lia| |done|done]. lia.
Qed.

(** C9: The disk driver makes of sectors a sequence of bytes: a transfer of whole blocks inside the disk moves the
    bytes between memory and the same positions of the disk, in as many rounds through the buffer of four blocks
    as it takes, leaves every other byte of the disk and of memory outside the buffer as it was, advances the
    descriptor over all of it and releases the semaphore; a transfer that is not of whole blocks, or reaches
    behind the end, answers -E_INVAL and does nothing. *)
Theorem disk0_io_correct write s m iob :
  disk_good (dsk s) → disk0_sem s = 1 → 0 ≤ io_offset iob < 2 ^ 31 → is_u32 (io_resid iob) → d_blocks s ≤ MAX_BLKS →
  (io_base iob + io_resid iob ≤ disk0_buffer s ∨ disk0_buffer s + DISK0_BUFSIZE ≤ io_base iob) →
  let offset := io_offset iob in let n := io_resid iob in
  if decide (offset mod 4096 = 0 ∧ n mod 4096 = 0 ∧ offset + n ≤ 4096 * d_blocks s) then
    ∃ m' d', disk0_io write (m, iob) s = Ret ((0, (m', advanced iob n)), with_dsk s d') ∧ disk_good d' ∧
      (∀ a, disk_byte d' a =
         if decide (write = true ∧ offset ≤ a < offset + n) then byte_at m (io_base iob + (a - offset)) else disk_byte (dsk s) a) ∧
      (∀ a, ¬ disk0_buffer s ≤ a < disk0_buffer s + DISK0_BUFSIZE → byte_at m' a =
         if decide (write = false ∧ io_base iob ≤ a < io_base iob + n) then disk_byte (dsk s) (offset + (a - io_base iob)) else byte_at m a)
  else disk0_io write (m, iob) s = Ret ((- E_INVAL, (m, iob)), s).
Proof.
  intros Hg Hsem Ho Hr Hbl Hsep offset n. unfold MAX_BLKS in *. unfold disk0_io. cbn [snd]. fold offset n.
  change DISK0_BLKSIZE with 4096. rewrite Z.rem_mod_nonneg, Z.quot_div_nonneg by lia.
  pose proof (Z.div_mod offset 4096) as D1. pose proof (Z.mod_pos_bound offset 4096) as D2.
  pose proof (Z.div_mod n 4096) as D3. pose proof (Z.mod_pos_bound n 4096) as D4.
  assert (0 ≤ offset / 4096) as D5 by (apply Z.div_pos; lia). assert (0 ≤ n / 4096) as D6 by (apply Z.div_pos; lia).
  rewrite (u32_small (offset / 4096)) by lia. rewrite (u32_small (offset / 4096 + n / 4096)) by lia.
  destruct (Z.eqb_spec (offset mod 4096) 0) as [H1|H1]; [|rewrite decide_False by tauto; done].
  destruct (Z.eqb_spec (n mod 4096) 0) as [H2|H2]; [|rewrite decide_False by tauto; done]. cbn [negb orb].
  step using reflexivity. destruct (Z.ltb_spec (d_blocks s) (offset / 4096 + n / 4096)) as [H3|H3].
  { rewrite decide_False by lia. done. }
  rewrite decide_True by lia. destruct (Z.eqb_spec (n / 4096) 0) as [H4|H4].
  { assert (n = 0) as -> by lia. exists m, (dsk s). split_and!; [|done|intros a; by rewrite decide_False by lia|intros a _; by rewrite decide_False by lia].
    unfold mret, M_ret. do 4 f_equal; [destruct iob; unfold advanced; simpl; f_equal; lia|by destruct s]. }
  set (s0 := mkDisk0 (disk0_buffer s) (d_blocks s) 0 (dsk s)).
  assert (lock_disk0 s = Ret (tt, s0)) as Hlock by (unfold lock_disk0, get, mbind, M_bind; by rewrite Hsem).
  step using (exact Hlock).
  destruct (disk0_loop_run (Z.to_nat (n / 4096)) write s0 m iob (n / 4096) (offset / 4096)) as (m' & d' & Hrun & [Hg' Hd Hm]);
    [done|lia|lia|unfold MAX_BLKS; lia|fold n; lia|lia|cbn [disk0_buffer s0]; fold n in Hsep; lia|].
  replace (n / 4096 * 4096) with n in Hrun, Hd, Hm by lia. replace (offset / 4096 * 4096) with offset in Hd, Hm by lia.
  step using (exact Hrun). step using reflexivity. exists m', d'. split_and!; [|done|done|done].
  unfold mret, M_ret. do 2 f_equal. unfold with_dsk. cbn. by rewrite Hsem.
Qed.

End disk0.
(** * The keyboard buffer *)

Import Dll ProcData Sched Sync.

Definition STDIN_BUFSIZE : Z := 4096.

Record stdin := mkStdin {
  stdin_buffer : gmap Z Z;
  p_rpos : Z;
  p_wpos : Z;
  sy : sync }.

Section stdin.
Context (c : sched_class).
(** The address of [__wait_queue]. *)
Context (wq : Z).

Definition in_sy {A} (m : M sync A) : M stdin A := λ s,
  match m (sy s) with Ret (a, x) => Ret (a, mkStdin (stdin_buffer s) (p_rpos s) (p_wpos s) x) | Err e => Err e end.

Definition dev_stdin_write (ch : Z) : M stdin unit :=
  if ch =? 0 then mret tt else
  modify (λ s, mkStdin (<[Z.rem (p_wpos s) STDIN_BUFSIZE := ch]> (stdin_buffer s)) (p_rpos s)
    (if s32 (p_wpos s - p_rpos s) <? STDIN_BUFSIZE then s32 (p_wpos s + 1) else p_wpos s) (sy s)) ;;
  e ← in_sy (wait_queue_empty wq);
  if negb e then in_sy (wakeup_queue c wq WT_KBD true) else mret tt.

(** The loop of [dev_stdin_read] as long as there are characters: [n] are still asked for. *)
Fixpoint take_chars (n : nat) (got : list Z) : M stdin (list Z) :=
  match n with
  | O => mret got
  | S n' =>
      s ← get;
      if p_rpos s <? p_wpos s then
        let ch := default 0 (stdin_buffer s !! Z.rem (p_rpos s) STDIN_BUFSIZE) in
        put (mkStdin (stdin_buffer s) (s32 (p_rpos s + 1)) (p_wpos s) (sy s)) ;;
        take_chars n' (got ++ [ch])
      else mret got
  end.

(** [dev_stdin_read] from [try_again] up to its return or the call of [schedule] inside it, with the wait [w] on the
    stack: the characters it has, and whether it returns. *)
Definition stdin_read_go (w : Z) (len : nat) (got : list Z) : M stdin (list Z * bool) :=
  got ← take_chars (len - length got) got;
  if bool_decide (length got = len) then mret (got, true) else
  in_sy (wait_current_set wq w WT_KBD) ;;
  in_sy (sc_do (schedule c)) ;;
  mret (got, false).
Definition dev_stdin_read (w : Z) (len : nat) : M stdin (list Z * bool) := stdin_read_go w len [].
(** The rest, from the return of [schedule] on. *)
Definition dev_stdin_read_end (w : Z) (len : nat) (got : list Z) : M stdin (list Z * bool) :=
  in_sy (wait_current_del wq w) ;;
  x ← in_sy (wait_at w);
  if wakeup_flags x =? WT_KBD then stdin_read_go w len got else mret (got, true).

Definition stdin_open (open_flags : Z) : M stdin Z := mret (if negb (open_flags =? O_RDONLY) then - E_INVAL else 0).
Definition stdin_close : M stdin Z := mret 0.

(** [stdin_device_init]. *)
Definition stdin_device_init : M stdin unit :=
  modify (λ s, mkStdin (stdin_buffer s) 0 0 (sy s)) ;; in_sy (wait_queue_init wq).

(** ** Processes that read, and the interrupts that bring characters *)

(** [readers]: the processes inside [dev_stdin_read] past the call of [schedule], with the wait, the length and what
    they have; [outputs]: what the completed calls asked for and got, and whether the process was being killed
    then; [arrived] and [taken]: the characters that came and those that were read. *)
Record tty := mkTty {
  sd : stdin;
  readers : gmap Z (Z * nat * list Z);
  outputs : list (nat * list Z * bool);
  arrived : list Z;
  taken : list Z }.

Inductive top :=
| TKey (ch : Z)                (* the interrupt hands a character to [dev_stdin_write] *)
| TRead (w : Z) (len : nat)    (* the running process calls [dev_stdin_read] *)
| TResume                      (* it returns from the [schedule] inside *)
| TKill (q : Z)                (* it calls [do_kill] for the process [q] *)
| TYield.

(** The process is marked as exiting. *)
Definition exiting (pr : proc_struct) : bool := negb (Z.land (flags pr) PF_EXITING =? 0).

(** A read, from the state before and what it had, to the state after. *)
Definition after_read (y : tty) (p w : Z) (len : nat) (got : list Z) (r : res (list Z * bool * stdin)) : res tty :=
  match r with
  | Ret ((got', done), s) =>
      Ret (mkTty s (if done : bool then delete p (readers y) else <[p := (w, len, got')]> (readers y))
        (if done then (len, got', from_option exiting false (procs (sc (sy s)) !! p)) :: outputs y else outputs y)
        (arrived y) (taken y ++ drop (length got) got'))
  | Err e => Err e
  end.

Definition tstep (o : top) (y : tty) : res tty :=
  let p := current (sc (sy (sd y))) in
  match o with
  | TKey ch =>
      match dev_stdin_write ch (sd y) with
      | Ret (_, s) => Ret (mkTty s (readers y) (outputs y) (if ch =? 0 then arrived y else arrived y ++ [ch]) (taken y))
      | Err e => Err e
      end
  | TRead w len => after_read y p w len [] (dev_stdin_read w len (sd y))
  | TResume =>
      match readers y !! p with
      | Some (w, len, got) => after_read y p w len got (dev_stdin_read_end w len got (sd y))
      | None => Ret y
      end
  | TKill q =>
      match in_sy (sc_do (kill_proc c q)) (sd y) with
      | Ret (_, s) => Ret (mkTty s (readers y) (outputs y) (arrived y) (taken y))
      | Err e => Err e
      end
  | TYield =>
      match in_sy (sc_do (schedule c)) (sd y) with
      | Ret (_, s) => Ret (mkTty s (readers y) (outputs y) (arrived y) (taken y))
      | Err e => Err e
      end
  end.

End stdin.

(** ** The wait queue *)

Section waitq.
Context (c : sched_class) `{L : !sched_laws c} (wq : Z).

(** What holds of a process [p] inside a read, with the wait [w]: it sleeps on the queue, or it is still there but
    was killed, or a character has woken it. *)
Definition rwait (s : sync) (p w : Z) : Prop :=
  ∃ fl pr, waits s !! w = Some (mkWait p fl wq) ∧ procs (sc s) !! p = Some pr ∧ p ≠ idleproc (sc s) ∧
    ((w ∈ queue_of s wq ∧ fl = WT_INTERRUPTED ∧
        (state pr = PROC_SLEEPING ∧ wait_state pr = WT_KBD ∨ state pr = PROC_RUNNABLE ∧ exiting pr = true)) ∨
     (w ∉ queue_of s wq ∧ fl = WT_KBD ∧ state pr = PROC_RUNNABLE)).

(** [R] maps the processes inside a read to their waits. *)
Record wok (s : sync) (R : gmap Z Z) : Prop := {
  wk_sched : sched_ok c (sc s);
  wk_queue : is_Some (queues s !! wq);
  wk_nodup : NoDup (queue_of s wq);
  wk_entry : ∀ q w, w ∈ queue_of s q → q = wq ∧ ∃ p, R !! p = Some w;
  wk_wait : ∀ p w, R !! p = Some w → rwait s p w }.

Lemma rwait_view s x p w : same_view (procs (sc s)) (procs x) → idleproc x = idleproc (sc s) → rwait s p w → rwait (set_sc s x) p w.
Proof.
  intros Hv Hi (fl & pr & Hw & Hp & Hid & Hd). specialize (Hv p). rewrite Hp in Hv.
  unfold rwait. simpl. destruct (procs x !! p) as [pr'|]; [|done]. injection Hv as Hst _ Hws Hfl.
  exists fl, pr'. split_and!; try done; [congruence|]. unfold exiting. by rewrite Hst, Hws, Hfl.
Qed.

Lemma schedule_wok s R : wok s R →
  ∃ x, sc_do (schedule c) s = Ret (tt, set_sc s x) ∧ wok (set_sc s x) R ∧ runnable x (current x) ∧ idleproc x = idleproc (sc s).
Proof.
  intros [Hs Hq Hnd He Hw]. destruct (schedule_run c (sc s) Hs) as (x & Hrun & Hok & Hcur & Hv & Hi & _).
  exists x. split_and!; [unfold sc_do; by rewrite Hrun| |done|done]. split; try done. intros p w Hp. apply rwait_view; auto.
Qed.

Lemma wait_unique s p q w : rwait s p w → rwait s q w → p = q.
Proof. intros (? & ? & H1 & _) (? & ? & H2 & _). congruence. Qed.

Lemma wake_one s R w l : wok s R → queue_of s wq = w :: l →
  ∃ s', wakeup_wait c wq w WT_KBD true s = Ret (tt, s') ∧ wok s' R ∧ queue_of s' wq = l ∧ sems s' = sems s ∧
    current (sc s') = current (sc s) ∧ (runnable (sc s) (current (sc s)) → runnable (sc s') (current (sc s'))).
Proof.
  intros [Hs Hq Hnd He Hw] Hl. destruct (He wq w) as [_ [p Hp]]; [rewrite Hl; set_solver|].
  destruct (Hw p w Hp) as (fl & pr & Hwt & Hpr & Hid & Hcase).
  destruct Hcase as [(_ & _ & Hst)|(Hn & _)]; [|rewrite Hl in Hn; set_solver].
  destruct (wakeup_run c (sc s) p pr Hs Hpr ltac:(intuition congruence)) as (x & Hrun & Hok & Hrp & Hcur & Hidx & _ & _ & Hv & _).
  pose proof Hnd as Hnd'. rewrite Hl in Hnd'. apply NoDup_cons in Hnd' as [Hwl Hndl].
  set (s' := mkSync x (<[w := mkWait p WT_KBD wq]> (waits s)) (<[wq := l]> (queues s)) (sems s)).
  assert (∀ m, queue_of s' m = if decide (m = wq) then l else queue_of s m) as Hqo by apply (queue_of_insert s wq l).
  assert (linked s w = true) as Hlk by (apply linked_spec; exists wq; rewrite Hl; set_solver).
  assert (wait_queue_del wq w s = Ret (tt, set_queues s (<[wq := l]> (queues s)))) as Hdel.
  { unfold wait_queue_del, check_linked. rewrite (M_bind_step _ _ s tt s).
    - unfold upd_queue. step using (by apply queue_at_run). rewrite Hl.
      assert (seq_del w (w :: l) = l) as ->; [|done]. apply (seq_del_split w [] l); [set_solver|done].
    - unfold wait_in_queue. step using reflexivity. step using (by apply wait_at_run). rewrite Hlk.
      unfold assert. simpl. by rewrite Z.eqb_refl. }
  exists s'. split_and!; [| |by rewrite Hqo, decide_True|done|done|].
  - unfold wakeup_wait, when. step using (exact Hdel). step using (by apply wait_at_run). step using reflexivity.
    unfold sc_do. simpl. by rewrite Hrun.
  - split.
    + done.
    + simpl. rewrite lookup_insert_eq. eauto.
    + by rewrite Hqo, decide_True.
    + intros q w'. rewrite Hqo. case_decide as Hqw; [subst|by apply He]. intros Hin. apply He. rewrite Hl. set_solver.
    + intros q w' Hq'. destruct (decide (w' = w)) as [->|Hne].
      * assert (q = p) as -> by (eapply (wait_unique s); by apply Hw). destruct Hrp as (pr' & Hpr' & Hst').
        exists WT_KBD, pr'. simpl. rewrite lookup_insert_eq, Hidx. split_and!; try done. right. by rewrite Hqo, decide_True.
      * destruct (Hw q w' Hq') as (fl' & qr & H1 & H2 & H3 & H4).
        assert (q ≠ p) as Hqp by (intros ->; congruence). specialize (Hv q Hqp). rewrite H2 in Hv.
        destruct (procs x !! q) as [qr'|] eqn:Eq; [|done]. injection Hv as Hs1 _ Hs2 Hs3.
        exists fl', qr'. simpl. rewrite Hidx, lookup_insert_ne by done. split_and!; try done. rewrite Hqo, decide_True by done.
        unfold exiting in *. rewrite Hs1, Hs2, Hs3. rewrite Hl, elem_of_cons in H4. tauto.
  - simpl. rewrite Hcur. intros (cr & Hc & Hcs). destruct (decide (current (sc s) = p)) as [->|Hcp]; [done|].
    specialize (Hv _ Hcp). rewrite Hc in Hv. unfold runnable. destruct (procs x !! current (sc s)) as [cr'|]; [|done].
    injection Hv as Hs1 _. exists cr'. split; congruence.
Qed.

Lemma wake_all l : ∀ s R fuel, wok s R → queue_of s wq = l → (length l < fuel)%nat →
  ∃ s', wake_del_loop c fuel wq WT_KBD s = Ret (tt, s') ∧ wok s' R ∧ queue_of s' wq = [] ∧
    current (sc s') = current (sc s) ∧ (runnable (sc s) (current (sc s)) → runnable (sc s') (current (sc s'))).
Proof.
  induction l as [|w l IH]; intros s R [|fuel] Hok Hl Hf; simpl in Hf; [lia| |lia|]; cbn [wake_del_loop].
  - exists s. split_and!; try done. step using (apply wait_queue_first_run, Hok). by rewrite Hl.
  - destruct (wake_one s R w l Hok Hl) as (s1 & Hrun & Hok1 & Hq1 & _ & Hc1 & Hr1).
    destruct (IH s1 R fuel Hok1 Hq1 ltac:(lia)) as (s' & Hrun' & Hok' & Hq' & Hc' & Hr').
    exists s'. split_and!; try done; [|congruence|auto].
    step using (apply wait_queue_first_run, Hok). rewrite Hl. cbn [head]. by step using (exact Hrun).
Qed.

Lemma block_wok s R w : wok s R → runnable (sc s) (current (sc s)) → current (sc s) ≠ idleproc (sc s) →
  (∀ p, R !! p = Some w → p = current (sc s)) → (∀ w', R !! current (sc s) = Some w' → w' ∉ queue_of s wq) → w ∉ queue_of s wq →
  ∃ s', wait_current_set wq w WT_KBD s = Ret (tt, s') ∧ wok s' (<[current (sc s) := w]> R) ∧ queue_of s' wq = queue_of s wq ++ [w].
Proof.
  intros [Hs Hq Hnd He Hw] (pr & Hp & Hr) Hidle Hfresh Hmine Hwq. set (p := current (sc s)) in *.
  assert (∀ m, w ∉ queue_of s m) as Hnq by (intros m Hin; destruct (He m w Hin) as [-> _]; done).
  set (pr' := set_wait_state (set_state pr PROC_SLEEPING) WT_KBD).
  set (x := set_procs (sc s) (<[p := pr']> (procs (sc s)))).
  set (s' := mkSync x (<[w := mkWait p WT_INTERRUPTED wq]> (waits s)) (<[wq := queue_of s wq ++ [w]]> (queues s)) (sems s)).
  assert (∀ m, queue_of s' m = if decide (m = wq) then queue_of s wq ++ [w] else queue_of s m) as Hqo by apply (queue_of_insert s wq).
  exists s'. split_and!; [| |by rewrite Hqo, decide_True].
  - unfold wait_current_set. step using reflexivity. step using reflexivity. set (s0 := set_sc s (sc s)).
    assert (sc_do (proc_upd p (λ q, set_wait_state (set_state q PROC_SLEEPING) WT_KBD))
      (set_waits s0 (<[w := mkWait p WT_INTERRUPTED 0]> (waits s0))) =
      Ret (tt, set_sc (set_waits s0 (<[w := mkWait p WT_INTERRUPTED 0]> (waits s0))) x)) as Hu.
    { unfold sc_do. simpl. by rewrite (proc_upd_run _ _ _ _ Hp). }
    step using (exact Hu). unfold wait_queue_add, wait_in_queue. step using reflexivity.
    replace (linked _ w) with false.
    2:{ symmetry. apply not_true_is_false. rewrite linked_spec. intros (m' & Hin). by apply (Hnq m'). }
    step using reflexivity. step using (apply wait_at_run; simpl; apply lookup_insert_eq). step using reflexivity.
    unfold upd_queue. step using (by apply queue_at_run). unfold s', modify, set_queues, set_waits, set_sc. simpl.
    by rewrite insert_insert_eq.
  - split.
    + simpl. by apply (sched_ok_leave c (sc s) pr (λ q, set_wait_state (set_state q PROC_SLEEPING) WT_KBD)).
    + simpl. rewrite lookup_insert_eq. eauto.
    + rewrite Hqo, decide_True by done. apply NoDup_app. split_and!; [done| |apply NoDup_singleton].
      intros w' Hw' ->%list_elem_of_singleton. done.
    + intros q w'. rewrite Hqo. intros Hin.
      assert (q = wq ∧ (w' ∈ queue_of s wq ∨ w' = w)) as [-> [Hin'|Heq]].
      { destruct (decide (q = wq)) as [->|]; [set_solver|]. destruct (He q w' Hin); done. }
      * destruct (He wq w' Hin') as [_ [q Hqd]]. split; [done|]. exists q. rewrite lookup_insert_ne; [done|].
        intros <-. by apply (Hmine w').
      * rewrite Heq. split; [done|]. exists p. apply lookup_insert_eq.
    + intros q w' [[<- <-]|[Hqp Hqd]]%lookup_insert_Some.
      * exists WT_INTERRUPTED, pr'. simpl. rewrite !lookup_insert_eq. split_and!; try done. left. rewrite Hqo, decide_True by done. split; [set_solver|]. split; [done|by left].
      * assert (w' ≠ w) as Hne by (intros ->; apply Hqp; symmetry; by apply Hfresh).
        destruct (Hw q w' Hqd) as (fl & qr & H1 & H2 & H3 & H4). exists fl, qr. simpl. rewrite !lookup_insert_ne by done.
        split_and!; try done. rewrite Hqo, decide_True by done. rewrite elem_of_app, list_elem_of_singleton. tauto.
Qed.

(** The running process was woken by a character. *)
Lemma resume_wok s R w : wok s R → runnable (sc s) (current (sc s)) → R !! current (sc s) = Some w → w ∉ queue_of s wq →
  wait_current_del wq w s = Ret (tt, s) ∧ ∃ x, waits s !! w = Some x ∧ wakeup_flags x = WT_KBD.
Proof.
  intros [Hs Hq Hnd He Hw] (pr & Hp & Hr) HR Hnq. destruct (Hw _ w HR) as (fl & pr' & Hwt & Hpr & _ & Hcase).
  destruct Hcase as [(? & _)|(_ & -> & _)]; [done|]. split; [|by eexists].
  assert (linked s w = false) as Hl.
  { apply not_true_is_false. rewrite linked_spec. intros (m & Hin). destruct (He m w Hin) as [-> _]. done. }
  unfold wait_current_del, wait_in_queue. step using reflexivity. by rewrite Hl.
Qed.

(** It was killed while its wait is on the queue: the wait is taken off, and shows another flag. *)
Lemma interrupted_wok s R w : wok s R → runnable (sc s) (current (sc s)) → R !! current (sc s) = Some w → w ∈ queue_of s wq →
  ∃ s', wait_current_del wq w s = Ret (tt, s') ∧ sc s' = sc s ∧ wok s' (delete (current (sc s)) R) ∧
    queue_of s' wq = seq_del w (queue_of s wq) ∧ (∃ x, waits s' !! w = Some x ∧ wakeup_flags x ≠ WT_KBD) ∧
    ∃ pr, procs (sc s) !! current (sc s) = Some pr ∧ exiting pr = true.
Proof.
  intros [Hs Hq Hnd He Hw] (pr & Hp & Hr) HR Hin. destruct (Hw _ w HR) as (fl & pr' & Hwt & Hpr & _ & Hcase).
  rewrite Hp in Hpr. injection Hpr as <-.
  destruct Hcase as [(_ & -> & [[Hst _]|[_ Hex]])|(? & _)]; [congruence| |done].
  assert (linked s w = true) as Hlk by (apply linked_spec; by exists wq).
  set (s' := set_queues s (<[wq := seq_del w (queue_of s wq)]> (queues s))).
  assert (∀ m, queue_of s' m = if decide (m = wq) then seq_del w (queue_of s wq) else queue_of s m) as Hqo by apply (queue_of_insert s wq).
  exists s'. split_and!; [|done| |by rewrite Hqo, decide_True|by exists (mkWait (current (sc s)) WT_INTERRUPTED wq)|by exists pr].
  - unfold wait_current_del, wait_in_queue at 1. step using reflexivity. rewrite Hlk. unfold when, wait_queue_del.
    assert (check_linked wq w s = Ret (tt, s)) as Hc.
    { unfold check_linked, wait_in_queue. step using reflexivity. step using (by apply wait_at_run). rewrite Hlk. unfold assert. simpl. by rewrite Z.eqb_refl. }
    step using (exact Hc). unfold upd_queue. by step using (by apply queue_at_run).
  - split; [done|simpl; rewrite lookup_insert_eq; eauto|rewrite Hqo, decide_True by done; by apply NoDup_filter| |].
    + intros q w'. rewrite Hqo. intros Hin'. assert (q = wq ∧ w' ≠ w ∧ w' ∈ queue_of s wq) as (-> & Hne & Hin2).
      { case_decide as Hqw; [subst; by apply elem_of_seq_del in Hin' as [? ?]|]. by destruct (He q w' Hin'). }
      destruct (He wq w' Hin2) as [_ [p Hpw]]. split; [done|]. exists p. rewrite lookup_delete_ne; [done|]. intros <-. congruence.
    + intros q w' [Hqp Hqd]%lookup_delete_Some. assert (w' ≠ w) as Hne.
      { intros ->. apply Hqp. eapply (wait_unique s); by apply Hw. }
      destruct (Hw q w' Hqd) as (fl & qr & H1 & H2 & H3 & H4). exists fl, qr. split_and!; try done.
      rewrite Hqo, decide_True, elem_of_seq_del by done. tauto.
Qed.

(** Killing a process, one inside a read or another one. *)
Lemma kill_wok s R q qr : wok s R → procs (sc s) !! q = Some qr → state qr ≠ PROC_ZOMBIE →
  ∃ r x, sc_do (kill_proc c q) s = Ret (r, set_sc s x) ∧ wok (set_sc s x) R ∧ current x = current (sc s) ∧
    (runnable (sc s) (current (sc s)) → runnable x (current x)).
Proof.
  intros [Hs Hq Hnd He Hw] Hqr Hz. unfold sc_do. destruct (Z.land (flags qr) PF_EXITING =? 0) eqn:Hfl.
  2: { exists (- E_KILLED), (sc s). split_and!; try done.
       unfold kill_proc. rewrite (M_bind_step _ _ _ _ _ (proc_at_run _ _ _ Hqr)). by rewrite Hfl. }
  set (qr1 := set_flags qr (Z.lor (flags qr) PF_EXITING)). set (x1 := set_procs (sc s) (<[q := qr1]> (procs (sc s)))).
  assert (exiting qr1 = true) as Hex1.
  { unfold exiting, qr1. cbn [flags set_flags]. rewrite Z.land_lor_distr_l. apply negb_true_iff, Z.eqb_neq.
    change (Z.land PF_EXITING PF_EXITING) with 1. rewrite Z.lor_comm. intros [? _]%Z.lor_eq_0_iff. done. }
  assert (sched_ok c x1) as Hok1 by by apply (sched_ok_upd c (sc s) q qr (λ y, set_flags y (Z.lor (flags y) PF_EXITING))).
  assert (procs x1 !! q = Some qr1) as Hq1 by apply lookup_insert_eq.
  assert (∀ p, p ≠ q → procs x1 !! p = procs (sc s) !! p) as Ho1 by (intros; by apply lookup_insert_ne).
  assert (∃ x2, when (interruptible (wait_state qr)) (wakeup_proc c q) x1 = Ret (tt, x2) ∧ sched_ok c x2 ∧
    current x2 = current (sc s) ∧ idleproc x2 = idleproc (sc s) ∧
    (∀ p, p ≠ q → view <$> procs x2 !! p = view <$> procs (sc s) !! p) ∧
    (∃ qr2, procs x2 !! q = Some qr2 ∧ exiting qr2 = true ∧
       (state qr = PROC_RUNNABLE → state qr2 = PROC_RUNNABLE) ∧
       (interruptible (wait_state qr) = true → state qr2 = PROC_RUNNABLE) ∧
       (interruptible (wait_state qr) = false → state qr2 = state qr))) as (x2 & Hrun & Hok2 & Hc2 & Hi2 & Hv2 & qr2 & Hq2 & Hex2 & Hr2 & Hint & Hnot).
  { destruct (interruptible (wait_state qr)); unfold when.
    - destruct (wakeup_run c x1 q qr1 Hok1 Hq1 Hz) as (x2 & Hrun & Hok2 & (qr2 & Hq2 & Hst2) & Hc2 & Hi2 & _ & _ & Hv2 & _ & _ & Hkin).
      exists x2. split_and!; try done; [intros p Hp; by rewrite Hv2, Ho1|]. exists qr2. split_and!; try done.
      specialize (Hkin q). rewrite Hq2, Hq1 in Hkin. injection Hkin as _ Hkf _. unfold exiting. rewrite Hkf. exact Hex1.
    - exists x1. split_and!; try done; [intros p Hp; by rewrite Ho1|]. by exists qr1. }
  exists 0, x2. split_and!; try done.
  - unfold kill_proc. rewrite (M_bind_step _ _ _ _ _ (proc_at_run _ _ _ Hqr)), Hfl.
    rewrite (M_bind_step _ _ _ _ _ (proc_upd_run _ _ (λ y, set_flags y (Z.lor (flags y) PF_EXITING)) _ Hqr)). fold qr1 x1.
    by rewrite (M_bind_step _ _ _ _ _ Hrun).
  - split; try done. intros p w Hp. destruct (Hw p w Hp) as (fl & pr & H1 & H2 & H3 & H4). simpl. destruct (decide (p = q)) as [->|Hpq].
    + rewrite Hqr in H2. injection H2 as <-. exists fl, qr2. simpl. rewrite Hi2. split_and!; try done.
      destruct H4 as [(A1 & A2 & [[_ A3]|[A3 _]])|(A1 & A2 & A3)].
      * left. split_and!; try done. right. split; [|done]. apply Hint. by rewrite A3.
      * left. split_and!; try done. right. auto.
      * right. auto.
    + specialize (Hv2 p Hpq). rewrite H2 in Hv2. destruct (procs x2 !! p) as [pr2|] eqn:E2; [|done]. injection Hv2 as V1 _ V2 V3.
      exists fl, pr2. simpl. rewrite E2, Hi2. split_and!; try done. unfold exiting in *. by rewrite V1, V2, V3.
  - rewrite Hc2. intros (cr & Hcr & Hcs). destruct (decide (current (sc s) = q)) as [Hcq|Hcq].
    + rewrite Hcq in Hcr |- *. exists qr2. split; [done|]. apply Hr2. congruence.
    + specialize (Hv2 _ Hcq). rewrite Hcr in Hv2. unfold runnable. destruct (procs x2 !! current (sc s)) as [cr2|]; [|done].
      injection Hv2 as V1 _. exists cr2. split; congruence.
Qed.

Lemma forget_wok s R p w : wok s R → R !! p = Some w → w ∉ queue_of s wq → wok s (delete p R).
Proof.
  intros [Hs Hq Hnd He Hw] Hp Hnq. split; try done.
  - intros q w' Hin. destruct (He q w' Hin) as [-> [p' Hp']]. split; [done|]. exists p'. rewrite lookup_delete_ne; [done|].
    intros ->. congruence.
  - intros q w' [_ Hq']%lookup_delete_Some. by apply Hw.
Qed.

End waitq.

(** ** The ring *)

Definition pending (s : stdin) : list Z :=
  (λ i, default 0 (stdin_buffer s !! Z.rem i STDIN_BUFSIZE)) <$> seqZ (p_rpos s) (p_wpos s - p_rpos s).
Record ring_ok (s : stdin) : Prop := {
  rg_pos : 0 ≤ p_rpos s ≤ p_wpos s;
  rg_size : p_wpos s - p_rpos s ≤ STDIN_BUFSIZE;
  rg_max : p_wpos s < 2 ^ 31 }.

Lemma length_pending s : ring_ok s → Z.of_nat (length (pending s)) = p_wpos s - p_rpos s.
Proof. intros [? _ _]. unfold pending. rewrite length_fmap, length_seqZ. lia. Qed.

Lemma slot_ne i j : 0 ≤ i → i < j → j - i < STDIN_BUFSIZE → Z.rem i STDIN_BUFSIZE ≠ Z.rem j STDIN_BUFSIZE.
Proof.
  unfold STDIN_BUFSIZE. intros H1 H2 H3. rewrite !Z.rem_mod_nonneg by lia. intros E.
  pose proof (Z.div_mod i 4096). pose proof (Z.div_mod j 4096). lia.
Qed.

(** The state after a character has been stored. *)
Definition put_char (s : stdin) (ch : Z) : stdin :=
  mkStdin (<[Z.rem (p_wpos s) STDIN_BUFSIZE := ch]> (stdin_buffer s)) (p_rpos s) (p_wpos s + 1) (sy s).

Lemma put_char_ok s ch : ring_ok s → Z.of_nat (length (pending s)) < STDIN_BUFSIZE → p_wpos s + 1 < 2 ^ 31 →
  ring_ok (put_char s ch) ∧ pending (put_char s ch) = pending s ++ [ch].
Proof.
  intros Hok Hlt Hmax. rewrite (length_pending s Hok) in Hlt. destruct Hok as [H1 H2 H3]. split; [split; simpl; lia|].
  unfold pending. cbn [put_char p_rpos p_wpos stdin_buffer].
  replace (p_wpos s + 1 - p_rpos s) with ((p_wpos s - p_rpos s) + 1) by lia. rewrite seqZ_app, fmap_app by lia. f_equal.
  - apply list_fmap_ext. intros k i Hk. apply lookup_seqZ in Hk as [-> Hk]. rewrite lookup_insert_ne; [done|].
    symmetry. apply slot_ne; lia.
  - replace (p_rpos s + (p_wpos s - p_rpos s)) with (p_wpos s) by lia. rewrite seqZ_cons by lia. simpl. by rewrite lookup_insert_eq.
Qed.

Lemma take_chars_run n : ∀ s got, ring_ok s →
  ∃ s', take_chars n got s = Ret (got ++ take n (pending s), s') ∧ ring_ok s' ∧ pending s' = drop n (pending s) ∧ sy s' = sy s.
Proof.
  induction n as [|n IH]; intros s got Hok; cbn [take_chars].
  { exists s. rewrite take_0, app_nil_r. by split_and!. }
  pose proof Hok as [H1 H2 H3]. step using reflexivity. destruct (Z.ltb_spec (p_rpos s) (p_wpos s)) as [Hlt|Hge].
  - rewrite s32_small by lia. set (s1 := mkStdin (stdin_buffer s) (p_rpos s + 1) (p_wpos s) (sy s)).
    assert (ring_ok s1) as Hok1 by (split; simpl; lia).
    assert (pending s = default 0 (stdin_buffer s !! Z.rem (p_rpos s) STDIN_BUFSIZE) :: pending s1) as Hp.
    { unfold pending at 1. rewrite seqZ_cons by lia. simpl. f_equal. unfold pending. simpl. f_equal. f_equal; lia. }
    destruct (IH s1 (got ++ [default 0 (stdin_buffer s !! Z.rem (p_rpos s) STDIN_BUFSIZE)]) Hok1) as (s' & Hrun & Hok' & Hp' & Hs').
    exists s'. split_and!; [|done|by rewrite Hp|done]. step using reflexivity. fold s1. rewrite Hrun, Hp. simpl. by rewrite <-app_assoc.
  - assert (pending s = []) as Hp by (unfold pending; by rewrite seqZ_nil by lia). rewrite Hp.
    exists s. rewrite take_nil, app_nil_r, drop_nil. by split_and!.
Qed.

(** ** No character is lost or duplicated *)

Section tty.
Context (c : sched_class) `{L : !sched_laws c} (wq : Z).

Definition waits_of (y : tty) : gmap Z Z := (λ x : Z * nat * list Z, x.1.1) <$> readers y.

(** A read that is over has all that it asked for, or its process was being killed. *)
Definition answered (x : nat * list Z * bool) : Prop :=
  let '(len, got, killed) := x in (length got ≤ len)%nat ∧ (killed = false → length got = len).

Record tinv (y : tty) : Prop := {
  t_ring : ring_ok (sd y);
  t_wait : wok c wq (sy (sd y)) (waits_of y);
  t_run : runnable (sc (sy (sd y))) (current (sc (sy (sd y))));
  t_fifo : arrived y = taken y ++ pending (sd y);
  t_sleep : queue_of (sy (sd y)) wq ≠ [] → pending (sd y) = [];
  t_got : ∀ p w len got, readers y !! p = Some (w, len, got) → (length got < len)%nat;
  t_out : Forall answered (outputs y) }.

Definition tenabled (o : top) (y : tty) : Prop :=
  let p := current (sc (sy (sd y))) in
  match o with
  | TKey ch => Z.of_nat (length (pending (sd y))) < STDIN_BUFSIZE ∧ p_wpos (sd y) + 1 < 2 ^ 31
  | TRead w len => readers y !! p = None ∧ p ≠ idleproc (sc (sy (sd y))) ∧ ∀ q, waits_of y !! q ≠ Some w
  | TResume => is_Some (readers y !! p)
  | TKill q => ∃ qr, procs (sc (sy (sd y))) !! q = Some qr ∧ state qr ≠ PROC_ZOMBIE
  | TYield => True
  end.

Lemma in_sy_run {A} s (m : M sync A) a x : m (sy s) = Ret (a, x) →
  in_sy m s = Ret (a, mkStdin (stdin_buffer s) (p_rpos s) (p_wpos s) x).
Proof. intros E. unfold in_sy. by rewrite E. Qed.

Lemma key_step ch y : tinv y → tenabled (TKey ch) y → ∃ y', tstep c wq (TKey ch) y = Ret y' ∧ tinv y'.
Proof.
  intros [Hr Hw Hrun Hf Hsl Hg Ho] [Hlt Hmax]. unfold tstep, dev_stdin_write. destruct (Z.eqb_spec ch 0) as [|Hch].
  { eexists. split; [reflexivity|]. by split. }
  pose proof (length_pending _ Hr) as Hlp. pose proof Hr as [R1 R2 R3]. unfold STDIN_BUFSIZE in *.
  destruct (put_char_ok (sd y) ch Hr Hlt Hmax) as [Hr1 Hp1].
  assert (mkStdin (<[Z.rem (p_wpos (sd y)) 4096 := ch]> (stdin_buffer (sd y))) (p_rpos (sd y))
    (if s32 (p_wpos (sd y) - p_rpos (sd y)) <? 4096 then s32 (p_wpos (sd y) + 1) else p_wpos (sd y)) (sy (sd y)) = put_char (sd y) ch) as Hput.
  { unfold put_char. rewrite !s32_small by lia. by rewrite (proj2 (Z.ltb_lt _ _)) by lia. }
  set (s1 := put_char (sd y) ch) in *. rewrite (M_bind_step _ _ (sd y) tt s1) by (unfold modify, STDIN_BUFSIZE; by rewrite Hput).
  assert (wait_queue_empty wq (sy s1) = Ret (bool_decide (queue_of (sy (sd y)) wq = []), sy s1)) as He.
  { unfold wait_queue_empty. step using (apply queue_at_run, Hw). done. }
  rewrite (M_bind_step _ _ _ _ _ (in_sy_run s1 _ _ _ He)). replace (mkStdin _ _ _ _) with s1 by (by destruct s1).
  case_bool_decide as Hq; cbn [negb].
  { eexists. split; [reflexivity|]. split; try done; simpl.
    - by rewrite Hf, Hp1, app_assoc. }
  destruct (queue_of (sy (sd y)) wq) as [|w l] eqn:Hl; [done|].
  destruct (wake_all c wq (w :: l) (sy s1) (waits_of y) (S (length (w :: l)))) as (x & Hx & Hwx & Hqx & Hcx & Hrx); [done|done|lia|].
  assert (wakeup_queue c wq WT_KBD true (sy s1) = Ret (tt, x)) as Hwake.
  { unfold wakeup_queue. step using (apply queue_at_run, Hw). change (queue_of (sy s1) wq) with (queue_of (sy (sd y)) wq). rewrite Hl. exact Hx. }
  rewrite (in_sy_run s1 _ _ _ Hwake). eexists. split; [reflexivity|]. split; simpl; try done.
  - destruct Hr1. by split.
  - apply Hrx. exact Hrun.
  - rewrite Hf, <-app_assoc. f_equal. symmetry. exact Hp1.
Qed.

(** What a round of reading does: it has all it asked for, or it has taken everything and sleeps. *)
Lemma read_go_run s R w len got :
  ring_ok s → wok c wq (sy s) R → runnable (sc (sy s)) (current (sc (sy s))) → current (sc (sy s)) ≠ idleproc (sc (sy s)) →
  (∀ p, R !! p = Some w → p = current (sc (sy s))) → (∀ w', R !! current (sc (sy s)) = Some w' → w' ∉ queue_of (sy s) wq) →
  w ∉ queue_of (sy s) wq → (length got ≤ len)%nat →
  let l := take (len - length got) (pending s) in
  ∃ s', ring_ok s' ∧ pending s' = drop (len - length got) (pending s) ∧
    (length (got ++ l) = len ∧ stdin_read_go c wq w len got s = Ret ((got ++ l, true), s') ∧ sy s' = sy s ∨
     (length (got ++ l) < len)%nat ∧ stdin_read_go c wq w len got s = Ret ((got ++ l, false), s') ∧ pending s' = [] ∧
       wok c wq (sy s') (<[current (sc (sy s)) := w]> R) ∧ runnable (sc (sy s')) (current (sc (sy s')))).
Proof.
  intros Hr Hw Hrun Hid H1 H2 H3 Hlen l.
  destruct (take_chars_run (len - length got) s got Hr) as (s1 & Ht & Hr1 & Hp1 & Hs1). fold l in Ht.
  unfold stdin_read_go. assert (length (got ++ l) ≤ len)%nat as Hle by (unfold l; rewrite length_app, length_take; lia).
  destruct (decide (length (got ++ l) = len)) as [Heq|Hne].
  - exists s1. split_and!; [done|done|]. left. split_and!; [done| |done]. step using (exact Ht). by rewrite bool_decide_true.
  - assert (drop (len - length got) (pending s) = []) as Hd.
    { apply drop_ge. unfold l in Hne, Hle. rewrite length_app, length_take in Hne, Hle. lia. }
    rewrite <-Hs1 in Hw, Hrun, Hid, H1, H2, H3.
    destruct (block_wok c wq (sy s1) R w Hw Hrun Hid H1 H2 H3) as (x1 & Hb & Hw1 & _).
    destruct (schedule_wok c wq x1 _ Hw1) as (x2 & Hsc & Hw2 & Hr2 & _).
    exists (mkStdin (stdin_buffer s1) (p_rpos s1) (p_wpos s1) (set_sc x1 x2)).
    split_and!; [by destruct Hr1; split|exact Hp1|]. right. split_and!; [lia| |by rewrite <-Hd, <-Hp1|by rewrite <-Hs1|done].
    step using (exact Ht). rewrite bool_decide_false by done. step using (by apply in_sy_run). by step using (by apply in_sy_run).
Qed.

Lemma waits_insert y p w len got : waits_of (mkTty (sd y) (<[p := (w, len, got)]> (readers y)) (outputs y) (arrived y) (taken y)) =
  <[p := w]> (waits_of y).
Proof. unfold waits_of. simpl. by rewrite fmap_insert. Qed.

(** A call or its continuation, given what holds of the process before. *)
Lemma read_step y w len got : tinv y →
  let p := current (sc (sy (sd y))) in
  p ≠ idleproc (sc (sy (sd y))) → (∀ q, waits_of y !! q = Some w → q = p) →
  (readers y !! p = None ∨ ∃ len' got', readers y !! p = Some (w, len', got')) → w ∉ queue_of (sy (sd y)) wq → (length got ≤ len)%nat →
  ∃ y', after_read y p w len got (stdin_read_go c wq w len got (sd y)) = Ret y' ∧ tinv y'.
Proof.
  intros [Hr Hw Hrun Hf Hsl Hg Ho] p Hid Hfresh Hmine Hnq Hlen.
  destruct (read_go_run (sd y) (waits_of y) w len got) as (s' & Hr' & Hp' & Hcase); try done.
  { intros w' Hw'. unfold waits_of in Hw'. rewrite lookup_fmap in Hw'. fold p in Hw'.
    destruct Hmine as [Hm|(len' & got' & Hm)]; rewrite Hm in Hw'; [done|]. simpl in Hw'. by injection Hw' as <-. }
  set (l := take (len - length got) (pending (sd y))) in *.
  assert (arrived y = (taken y ++ drop (length got) (got ++ l)) ++ pending s') as Hf'.
  { rewrite Hf, Hp', drop_app_length, <-app_assoc. unfold l. by rewrite take_drop. }
  destruct Hcase as [(Heq & -> & Hs)|(Hlt & -> & Hpn & Hw' & Hrun')]; simpl; (eexists; split; [reflexivity|]); split; simpl; rewrite ?Hs; try done.
  - unfold waits_of. simpl. rewrite fmap_delete. destruct Hmine as [Hm|(len' & got' & Hm)].
    + rewrite delete_id; [done|]. rewrite lookup_fmap. fold p. by rewrite Hm.
    + apply (forget_wok c wq _ _ p w); [done| |done]. unfold waits_of. rewrite lookup_fmap. by rewrite Hm.
  - intros Hq. rewrite Hp', (Hsl Hq). apply drop_nil.
  - intros q w1 len1 got1 [_ Hq]%lookup_delete_Some. by eapply Hg.
  - constructor; [|done]. split; [lia|done].
  - unfold waits_of. simpl. rewrite fmap_insert. exact Hw'.
  - intros q w1 len1 got1 [[_ [= <- <- <-]]|[_ Hq]]%lookup_insert_Some; [done|by eapply Hg].
Qed.

(** The running process comes back from [schedule] although its wait is on the queue: it was killed, and its read
    returns what it has. *)
Lemma interrupted_step y w len got : tinv y →
  let p := current (sc (sy (sd y))) in
  readers y !! p = Some (w, len, got) → w ∈ queue_of (sy (sd y)) wq →
  ∃ y', tstep c wq TResume y = Ret y' ∧ tinv y' ∧ readers y' = delete p (readers y) ∧ outputs y' = (len, got, true) :: outputs y.
Proof.
  intros [Hr Hw Hrun Hf Hsl Hg Ho] p Hp Hin. unfold tstep. fold p. rewrite Hp.
  assert (waits_of y !! p = Some w) as HR by (unfold waits_of; by rewrite lookup_fmap, Hp).
  destruct (interrupted_wok c wq _ _ w Hw Hrun HR Hin) as (x & Hdel & Hsc & Hwx & Hqx & (wx & Hwt & Hfl) & pr & Hpr & Hex). fold p in Hwx, Hpr.
  set (s1 := mkStdin (stdin_buffer (sd y)) (p_rpos (sd y)) (p_wpos (sd y)) x).
  assert (dev_stdin_read_end c wq w len got (sd y) = Ret ((got, true), s1)) as ->.
  { unfold dev_stdin_read_end. step using (apply in_sy_run; exact Hdel). step using (apply in_sy_run, wait_at_run; exact Hwt).
    by rewrite (proj2 (Z.eqb_neq _ _) Hfl). }
  cbn [after_read]. rewrite drop_all, app_nil_r. cbn [sy s1]. rewrite Hsc, Hpr. cbn [from_option]. rewrite Hex.
  eexists. split; [reflexivity|]. split; [|done]. split; simpl; try done.
  - by destruct Hr; split.
  - unfold waits_of. simpl. by rewrite fmap_delete.
  - by rewrite Hsc.
  - intros _. apply Hsl. intros He. rewrite He in Hin. by apply elem_of_nil in Hin.
  - intros q w1 len1 got1 [_ Hq]%lookup_delete_Some. by eapply Hg.
  - constructor; [|done]. split; [|done]. specialize (Hg _ _ _ _ Hp). lia.
Qed.

(** It was woken by a character, and goes on reading. *)
Lemma woken_step y w len got : tinv y →
  let p := current (sc (sy (sd y))) in
  readers y !! p = Some (w, len, got) → w ∉ queue_of (sy (sd y)) wq → ∃ y', tstep c wq TResume y = Ret y' ∧ tinv y'.
Proof.
  intros Hy p Hp Hnq. unfold tstep. fold p. rewrite Hp. pose proof Hy as [Hr Hw Hrun Hf Hsl Hg Ho].
  assert (waits_of y !! p = Some w) as HR by (unfold waits_of; by rewrite lookup_fmap, Hp).
  destruct (resume_wok c wq _ _ w Hw Hrun HR Hnq) as (Hdel & x & Hx & Hfl).
  assert (dev_stdin_read_end c wq w len got (sd y) = stdin_read_go c wq w len got (sd y)) as ->.
  { unfold dev_stdin_read_end. step using (apply in_sy_run; exact Hdel). replace (mkStdin _ _ _ _) with (sd y) by (by destruct (sd y)).
    step using (apply in_sy_run, wait_at_run; exact Hx). replace (mkStdin _ _ _ _) with (sd y) by (by destruct (sd y)).
    by rewrite Hfl, Z.eqb_refl. }
  apply read_step; try done.
  - by destruct (wk_wait _ _ _ _ Hw _ _ HR) as (? & ? & _ & _ & ? & _).
  - intros q Hq. eapply (wait_unique wq); by apply Hw.
  - right. eauto.
  - specialize (Hg _ _ _ _ Hp). lia.
Qed.

Lemma tstep_run o y : tinv y → tenabled o y → ∃ y', tstep c wq o y = Ret y' ∧ tinv y'.
Proof.
  intros Hy Hen. destruct o as [ch|w len| |q|]; [by apply key_step|..].
  - destruct Hen as (Hnone & Hid & Hfresh). apply read_step; try done.
    + intros q Hq. by destruct (Hfresh q).
    + by left.
    + intros Hin. destruct (wk_entry _ _ _ _ (t_wait _ Hy) _ _ Hin) as [_ [q Hq]]. by apply (Hfresh q).
    + simpl. lia.
  - destruct Hen as [[[w len] got] Hp]. destruct (decide (w ∈ queue_of (sy (sd y)) wq)) as [Hin|Hnin]; [|by eapply woken_step].
    destruct (interrupted_step y w len got Hy Hp Hin) as (y' & ? & ? & _). by exists y'.
  - destruct Hen as (qr & Hq & Hz). unfold tstep. destruct Hy as [Hr Hw Hrun Hf Hsl Hg Ho].
    destruct (kill_wok c wq _ _ q qr Hw Hq Hz) as (r & x & Hk & Hwx & Hcx & Hrx).
    rewrite (in_sy_run _ _ _ _ Hk). eexists. split; [reflexivity|]. split; simpl; try done; [by destruct Hr; split|by apply Hrx].
  - unfold tstep. destruct Hy as [Hr Hw Hrun Hf Hsl Hg Ho]. destruct (schedule_wok c wq _ _ Hw) as (x & Hsc & Hwx & Hrx & _).
    rewrite (in_sy_run _ _ _ _ Hsc). eexists. split; [reflexivity|]. split; simpl; try done. by destruct Hr; split.
Qed.

Inductive treaches (y : tty) : tty → Prop :=
| treaches_here : treaches y y
| treaches_step o y1 y2 : treaches y y1 → tenabled o y1 → tstep c wq o y1 = Ret y2 → treaches y y2.

Lemma treaches_inv y y' : tinv y → treaches y y' → tinv y'.
Proof.
  intros Hy. induction 1 as [|o y1 y2 _ IH Hen Hrun]; [done|].
  destruct (tstep_run o y1 IH Hen) as (y2' & Hrun' & Hy2). rewrite Hrun in Hrun'. by injection Hrun' as <-.
Qed.

(** C10: Characters typed reach the readers in order and none is lost or read twice, however interrupts, readers and
    kills of living processes interleave, as long as the buffer does not overrun and fewer than 2^31 characters come: the
    characters that arrived are those read, in order, then those in the buffer.  A read that returns has as many as
    it asked for, unless its process was being killed.  Whatever is on the wait queue belongs to a process inside a
    read, and while there is something on it the buffer is empty.  A reader that comes back with its wait still on
    the queue, which is so only after [do_kill], returns at once with what it has and leaves the queue.  No step that
    is enabled fails. *)
Theorem stdin_fifo y y' : tinv y → treaches y y' →
  let p := current (sc (sy (sd y'))) in
  arrived y' = taken y' ++ pending (sd y') ∧
  Forall answered (outputs y') ∧
  (∀ w, w ∈ queue_of (sy (sd y')) wq → pending (sd y') = [] ∧ ∃ q len got, readers y' !! q = Some (w, len, got)) ∧
  (∀ w len got, readers y' !! p = Some (w, len, got) → w ∈ queue_of (sy (sd y')) wq →
     ∃ y2, tstep c wq TResume y' = Ret y2 ∧ readers y2 !! p = None ∧ outputs y2 = (len, got, true) :: outputs y') ∧
  (∀ o, tenabled o y' → ∃ y2, tstep c wq o y' = Ret y2).
Proof.
  intros Hy Hr p. pose proof (treaches_inv y y' Hy Hr) as Hy'. split_and!; [apply Hy'|apply Hy'|..].
  - intros w Hin. split; [apply Hy'; intros He; rewrite He in Hin; by apply elem_of_nil in Hin|].
    destruct (wk_entry _ _ _ _ (t_wait _ Hy') _ _ Hin) as [_ [q Hq]]. unfold waits_of in Hq. rewrite lookup_fmap in Hq.
    destruct (readers y' !! q) as [[[w' len] got]|] eqn:E; [|done]. injection Hq as ->. by exists q, len, got.
  - intros w len got Hp Hin. destruct (interrupted_step y' w len got Hy' Hp Hin) as (y2 & Hrun & _ & Hrd & Ho).
    exists y2. split_and!; [done| |done]. rewrite Hrd. apply lookup_delete_eq.
  - intros o Hen. destruct (tstep_run o y' Hy' Hen) as (y2 & ? & _). eauto.
Qed.

End tty.

(** [stdin_io]: on writing, and, on reading, what it makes of the characters that [dev_stdin_read] returned. *)
Definition stdin_io_write (mi : gmap Z Z * iobuf) : Z * (gmap Z Z * iobuf) := (- E_INVAL, mi).
Definition stdin_io_read (got : list Z) (mi : gmap Z Z * iobuf) : Z * (gmap Z Z * iobuf) :=
  let ret := Z.of_nat (length got) in
  let iob := mi.2 in
  (ret, (write_bytes mi.1 (io_base iob) got,
    if 0 <? ret then mkIobuf (io_base iob) (io_offset iob) (io_len iob) (io_resid iob - ret) else iob)).

(** When the buffer is full the next character takes the place of the oldest one that was not read. *)
Definition full_stdin : stdin := mkStdin (list_to_map ((λ i, (i, 65)) <$> seqZ 0 4096)) 0 4096 (mkSync demo_sched ∅ {[9 := []]} ∅).
Example stdin_overrun :
  head (pending full_stdin) = Some 65 ∧
  match dev_stdin_write rr_sched_class 9 66 full_stdin with
  | Ret (_, s) => p_wpos s = 4096 ∧ head (pending s) = Some 66
  | Err _ => False
  end.
Proof. split; vm_compute; [reflexivity|split; reflexivity]. Qed.

(** * Standard output *)

Section stdout.
Context {P : Type} `{Console.ports P}.

Definition stdout_open (open_flags : Z) : M (Console.console P) Z := mret (if negb (open_flags =? Vfs.O_WRONLY) then - E_INVAL else 0).
Definition stdout_close : M (Console.console P) Z := mret 0.

Fixpoint stdout_loop (n : nat) (data : Z) (m : gmap Z Z) : M (Console.console P) unit :=
  match n with
  | O => mret tt
  | S n' => Console.cputchar (Cstring.s8 (byte_at m data)) ;; stdout_loop n' (data + 1) m
  end.
Definition stdout_io (write : bool) (mi : gmap Z Z * iobuf) : M (Console.console P) (Z * (gmap Z Z * iobuf)) :=
  let iob := mi.2 in
  if write then
    stdout_loop (Z.to_nat (io_resid iob)) (io_base iob) mi.1 ;;
    mret (0, (mi.1, mkIobuf (io_base iob) (io_offset iob) (io_len iob) 0))
  else mret (- E_INVAL, mi).
End stdout.

Section stdout_proofs.
Context {P : Type} `{Console.input_dev P}.

Lemma stdout_loop_run m n : ∀ a s, Console.console_ok s →
  ∃ s', stdout_loop n a m s = Ret (tt, s') ∧ Console.console_ok s' ∧ Console.pending s' = Console.pending s ∧
    Console.screen s' = foldl (λ t c, Console.term_putc c t) (Console.screen s) (Cstring.s8 <$> read_bytes m a (Z.of_nat n)).
Proof.
  induction n as [|n IH]; intros a s Hok; cbn [stdout_loop].
  { exists s. by split_and!. }
  pose proof Hok as (Ha & Hp & _). destruct (Console.putc_run (Cstring.s8 (byte_at m a)) s Ha Hp) as (s1 & E1 & S1 & O1 & P1 & T1).
  destruct (Console.pending_frame s s1 S1 O1 P1 Hok) as (Hok1 & Hpd1 & _).
  destruct (IH (a + 1) s1 Hok1) as (s' & E' & Hok' & Hpd' & Hsc'). exists s'. split_and!; [|done|congruence|].
  - unfold Console.cputchar. by step using (exact E1).
  - rewrite Hsc', T1. unfold read_bytes. rewrite (seqZ_cons a) by lia. simpl. by replace (Z.pred (Z.of_nat (S n))) with (Z.of_nat n) by lia.
Qed.

(** Writing to the standard output puts the bytes of the buffer on the terminal, one after the other. *)
Theorem stdout_io_correct m iob s : Console.console_ok s → 0 ≤ io_resid iob →
  ∃ s', stdout_io true (m, iob) s = Ret ((0, (m, mkIobuf (io_base iob) (io_offset iob) (io_len iob) 0)), s') ∧
    Console.console_ok s' ∧ Console.pending s' = Console.pending s ∧
    Console.screen s' = foldl (λ t c, Console.term_putc c t) (Console.screen s) (Cstring.s8 <$> read_bytes m (io_base iob) (io_resid iob)).
Proof.
  intros Hok Hr. destruct (stdout_loop_run m (Z.to_nat (io_resid iob)) (io_base iob) s Hok) as (s' & E & H1 & H2 & H3).
  exists s'. rewrite Z2Nat.id in H3 by done. split_and!; [|done|done|done]. unfold stdout_io. cbn [fst snd]. by step using (exact E).
Qed.
End stdout_proofs.

(** * Examples *)

(** A disk of 16 sectors that never fails. *)
Definition demo_sector (d : gmap Z (list Z)) (k : Z) : list Z :=
  let l := default [] (d !! k) in if decide (length l = 512%nat) then l else replicate 512 0.
#[local] Instance demo_hw : disk_hw (gmap Z (list Z)) := {|
  disk_valid _ := true;
  disk_sectors _ := 16;
  sec_read k d := Ret (Some (demo_sector d k), d);
  sec_write k l d := Ret (true, <[k := l]> d) |}.
#[local] Program Instance demo_disk_laws : disk_laws (HW := demo_hw) := {| sector := demo_sector; disk_good := λ _, True |}.
Next Obligation. done. Qed.
Next Obligation. intros d k. unfold demo_sector. case_decide; [done|]. by rewrite length_replicate. Qed.
Next Obligation. intros d k _. by exists d. Qed.
Next Obligation.
  intros d k l _ Hl. exists (<[k := l]> d). split_and!; [done|done|]. intros t. unfold demo_sector.
  destruct (decide (t = k)) as [->|Hne]; [rewrite lookup_insert_eq; simpl; by rewrite decide_True|by rewrite lookup_insert_ne by congruence].
Qed.

Definition demo_disk0 : disk0 (D := gmap Z (list Z)) := mkDisk0 0x10000 2 1 ∅.

Lemma disk0_io_correct_witness :
  ∃ m' d', disk0_io true ({[0x8002 := 7]}, mkIobuf 0x8000 4096 4096 4096) demo_disk0 =
      Ret ((0, (m', mkIobuf 0x9000 8192 4096 0)), with_dsk demo_disk0 d') ∧
    disk_byte d' 4098 = 7.
Proof.
  pose proof (disk0_io_correct true demo_disk0 {[0x8002 := 7]} (mkIobuf 0x8000 4096 4096 4096)) as Hd.
  destruct Hd as (m' & d' & Hrun & _ & Hby & _).
  - done.
  - done.
  - done.
  - done.
  - done.
  - left. vm_compute. discriminate.
  - exists m', d'. split; [exact Hrun|]. rewrite Hby. by vm_compute.
Defined.

(** Process 1 asks for two characters and sleeps; process 2 kills it, and it comes back when the others have had
    their turn. *)
Definition demo_tty : tty := mkTty (mkStdin ∅ 0 0 (mkSync demo_sched ∅ {[9 := []]} ∅)) ∅ [] [] [].
Definition tafter (o : top) (y : tty) : tty := match tstep rr_sched_class 9 o y with Ret y' => y' | Err _ => y end.
Definition demo_killed : tty := tafter TYield (tafter TYield (tafter (TKill 1) (tafter (TRead 100 2) demo_tty))).

Lemma demo_tinv : tinv rr_sched_class 9 demo_tty.
Proof.
  assert (∀ q, queue_of (sy (sd demo_tty)) q = []) as Hq.
  { intros q. unfold queue_of. simpl. destruct (decide (q = 9)) as [->|]; [by rewrite lookup_singleton_eq|by rewrite lookup_singleton_ne]. }
  split; try done.
  - split.
    + apply demo_sched_ok.
    + simpl. rewrite lookup_singleton_eq. eauto.
    + rewrite Hq. constructor.
    + intros q w. rewrite Hq. by intros ?%elem_of_nil.
    + intros p w H. unfold waits_of in H. simpl in H. by rewrite fmap_empty, lookup_empty in H.
  - eexists. by split; [vm_compute|].
Qed.

Lemma demo_read_reached : treaches rr_sched_class 9 demo_tty (tafter (TRead 100 2) demo_tty).
Proof.
  apply (treaches_step _ _ _ (TRead 100 2) demo_tty).
  - apply treaches_here.
  - split_and!; [by vm_compute|by vm_compute|]. intros q H. unfold waits_of in H. simpl in H. by rewrite fmap_empty, lookup_empty in H.
  - by vm_compute.
Qed.

Lemma demo_killed_reached : treaches rr_sched_class 9 demo_tty demo_killed.
Proof.
  apply (treaches_step _ _ _ TYield (tafter TYield (tafter (TKill 1) (tafter (TRead 100 2) demo_tty)))); [|done|by vm_compute].
  apply (treaches_step _ _ _ TYield (tafter (TKill 1) (tafter (TRead 100 2) demo_tty))); [|done|by vm_compute].
  apply (treaches_step _ _ _ (TKill 1) (tafter (TRead 100 2) demo_tty)); [apply demo_read_reached| |by vm_compute].
  eexists. split; [by vm_compute|done].
Qed.

Lemma stdin_fifo_witness :
  current (sc (sy (sd demo_killed))) = 1 ∧ ∃ y2, tstep rr_sched_class 9 TResume demo_killed = Ret y2 ∧ outputs y2 = [(2%nat, [], true)].
Proof.
  destruct (stdin_fifo rr_sched_class 9 demo_tty demo_killed demo_tinv demo_killed_reached) as (_ & _ & _ & Hs & _).
  split; [by vm_compute|]. destruct (Hs 100 2%nat []) as (y2 & Hrun & _ & Ho); [by vm_compute|vm_compute; left|].
  exists y2. split; [exact Hrun|exact Ho].
Defined.

End Devices.
