(* ===== verification/Exec.v ===== *)
(** Loading programs, [load_icode] of kern/process/proc.c with libs/elf.h: a new address space is filled from
    an ELF file and the arguments are put on the stack of the process.

    The files are behind the interface [exec_files]; the address spaces are those of AddrSpace.v.  Memory is
    written by bytes here, through the words of the machine. *)
From S2P Require Import Prelude Dll Frames PmmManager FitAlloc PageTable Vma Swap Vmm AddrSpace SfsDisk.

Module Exec.
Import Frames PmmManager PageTable Vma Vmm AddrSpace.
Set Default Proof Using "Type".

(** libs/error.h and libs/elf.h. *)
Definition E_INVAL_ELF : Z := 8.
Definition ELF_MAGIC : Z := 0x464C457F.
Definition ELF_PT_LOAD : Z := 1.
Definition ELF_PF_X : Z := 1.
Definition ELF_PF_W : Z := 2.
Definition ELF_PF_R : Z := 4.
Definition sizeof_elfhdr : Z := 52.
Definition sizeof_proghdr : Z := 32.

Definition USTACKTOP : Z := USERTOP.
Definition USTACKSIZE : Z := 256 * PGSIZE.
Definition EXEC_MAX_ARG_NUM : Z := 32.
Definition EXEC_MAX_ARG_LEN : Z := 4095.
Definition USER_CS : Z := 0x1B.
Definition USER_DS : Z := 0x23.
Definition FL_IF : Z := 0x200.
Definition LSEEK_SET : Z := 0.

Record elfhdr := mkElf {
  e_magic : Z; e_type : Z; e_machine : Z; e_version : Z; e_entry : Z; e_phoff : Z; e_shoff : Z; e_flags : Z;
  e_ehsize : Z; e_phentsize : Z; e_phnum : Z; e_shentsize : Z; e_shnum : Z; e_shstrndx : Z }.

Record proghdr := mkPh {
  p_type : Z; p_offset : Z; p_va : Z; p_pa : Z; p_filesz : Z; p_memsz : Z; p_flags : Z; p_align : Z }.

(** The fields of the two structures in the bytes that were read into them. *)
Definition elf_of (l : list Z) : elfhdr :=
  let f off n := SfsDisk.int_at l off n in
  mkElf (f 0%nat 4%nat) (f 16%nat 2%nat) (f 18%nat 2%nat) (f 20%nat 4%nat) (f 24%nat 4%nat) (f 28%nat 4%nat) (f 32%nat 4%nat)
    (f 36%nat 4%nat) (f 40%nat 2%nat) (f 42%nat 2%nat) (f 44%nat 2%nat) (f 46%nat 2%nat) (f 48%nat 2%nat) (f 50%nat 2%nat).
Definition ph_of (l : list Z) : proghdr :=
  let f off := SfsDisk.int_at l off 4 in
  mkPh (f 0%nat) (f 4%nat) (f 8%nat) (f 12%nat) (f 16%nat) (f 20%nat) (f 24%nat) (f 28%nat).

(** The part of the trap frame that is not zero when a program starts. *)
Record trapframe := mkTf { tf_cs : Z; tf_ds : Z; tf_es : Z; tf_ss : Z; tf_esp : Z; tf_eip : Z; tf_eflags : Z }.

(** What [load_icode] uses of kern/fs/sysfile.c; [sysfile_read] answers with the bytes that it put into the
    buffer. *)
Class exec_files (F : Type) := {
  sysfile_seek : Z → Z → Z → M F Z;
  sysfile_read : Z → Z → M F (Z * list Z);
  sysfile_close : Z → M F Z }.

(** [file_holds fd c]: the descriptor is open for reading on a file with the bytes [c]; [file_at fd c off]: and it
    is positioned at [off].  A seek inside the file moves the position and a read of bytes that are there, a page at
    most, returns them. *)
Class exec_files_laws (F : Type) `{exec_files F} := {
  file_holds : Z → list Z → F → Prop;
  file_at : Z → list Z → Z → F → Prop;
  ef_seek e fd c off : file_holds fd c e → 0 ≤ off ≤ Z.of_nat (length c) →
    ∃ e', sysfile_seek fd off LSEEK_SET e = Ret (0, e') ∧ file_at fd c off e';
  ef_read e fd c off len : file_at fd c off e → 0 < len ≤ PGSIZE → off + len ≤ Z.of_nat (length c) →
    ∃ e', sysfile_read fd len e = Ret ((len, take (Z.to_nat len) (drop (Z.to_nat off) c)), e') ∧ file_holds fd c e';
  ef_close e fd c : file_holds fd c e → ∃ r e', sysfile_close fd e = Ret (r, e') }.

Section exec.
Context {S : Type} `{PM : pmm_manager S} {SW : swapper (S := S)} {F : Type} `{EF : exec_files F}.
Notation machine := (machine (S := S)).
Notation astate := (astate (S := S)).
Context (kmalloc : gmap Z vma_struct → option Z) (kmalloc_mm : gset Z → option Z) (boot_pgdir : Z).
(** What the kernel does on a page fault, before the access is tried again. *)
Context (page_fault : Z → M machine unit).

(** * Bytes of memory *)

(** Byte [o] of frame [f]. *)
Definition frame_byte (m : machine) (f o : Z) : Z := Z.land (Z.shiftr (read m (f, o / 4)) (8 * (o mod 4))) 255.
Definition put_byte (f o b : Z) (m : machine) : machine :=
  set_mem m (<[(f, o / 4) :=
    Z.lor (Z.ldiff (read m (f, o / 4)) (Z.shiftl 255 (8 * (o mod 4)))) (Z.shiftl b (8 * (o mod 4)))]> (mem m)).
Fixpoint put_bytes (f o : Z) (l : list Z) (m : machine) : machine :=
  match l with
  | [] => m
  | b :: l' => put_bytes f (o + 1) l' (put_byte f o b m)
  end.

(** Stores through the directory that the processor uses. *)
Definition user_store_byte (a b : Z) : M machine unit :=
  let try (k : M machine unit) : M machine unit :=
    m ← get;
    let pte := pte_at m (cr3 m) (vpn a) in
    if present pte then put (put_byte (frame_of pte) (a mod 4096) b m) else k in
  try (page_fault a ;; try (fail EFault)).
Fixpoint user_store (a : Z) (l : list Z) : M machine unit :=
  match l with
  | [] => mret tt
  | b :: l' => user_store_byte a b ;; user_store (u32 (a + 1)) l'
  end.

(** * State *)

Record xstate := mkX { xa : astate; xf : F; xtf : gmap Z trapframe }.
Definition in_xa {A} (c : M astate A) : M xstate A := λ s,
  match c (xa s) with Ret (a, x) => Ret (a, mkX x (xf s) (xtf s)) | Err e => Err e end.
Definition in_xf {A} (c : M F A) : M xstate A := λ s,
  match c (xf s) with Ret (a, x) => Ret (a, mkX (xa s) x (xtf s)) | Err e => Err e end.
Definition in_xm {A} (c : M machine A) : M xstate A := in_xa (in_amc c).
(** An operation on the areas of address space [k]. *)
Definition in_mm {A} (k : Z) (c : M mm_struct A) : M astate A :=
  x ← space_at k;
  match c (a_mm x) with
  | Ret (a, t) => space_set k (mkAspace t (a_pgdir x) (a_locked x)) ;; mret a
  | Err e => fail e
  end.

(** * load_icode *)

(** [load_icode_read]: the result, and the bytes that are in the buffer then. *)
Definition load_icode_read (fd len offset : Z) : M xstate (Z * list Z) :=
  ret ← in_xf (sysfile_seek fd offset LSEEK_SET);
  if negb (ret =? 0) then mret (ret, []) else
  '(ret, bs) ← in_xf (sysfile_read fd len);
  if negb (u32 ret =? len) then mret (if ret <? 0 then ret else -1, bs) else mret (0, bs).

(** The size of the piece of [start .. end_] in the page at [la - PGSIZE]. *)
Definition piece (start end_ la : Z) : Z :=
  let size := u32 (PGSIZE - u32 (start + PGSIZE - la)) in
  if end_ <? la then u32 (size - u32 (la - end_)) else size.

Definition page_at (d la perm : Z) : M xstate (option Z) := in_xm (pgdir_alloc_page d la perm).

(** The loop that reads the segment; the result, and [start], [la] and [page] after it. *)
Fixpoint text_loop (fuel : nat) (d fd perm end_ start la offset : Z) (page : option Z) : M xstate (Z * (Z * Z * option Z)) :=
  match fuel with
  | O => fail EFuel
  | Datatypes.S fuel' =>
      if negb (start <? end_) then mret (0, (start, la, page)) else
      r ← page_at d la perm;
      match r with
      | None => mret (- E_NO_MEM, (start, la, None))
      | Some p =>
          let off := u32 (start - la) in
          let la' := u32 (la + PGSIZE) in
          let size := piece start end_ la' in
          f ← in_xm (KADDR (page2pa p));
          '(ret, bs) ← load_icode_read fd size offset;
          in_xm (modify (put_bytes f off bs)) ;;
          if negb (ret =? 0) then mret (ret, (start, la', Some p))
          else text_loop fuel' d fd perm end_ (u32 (start + size)) la' (s32 (offset + size)) (Some p)
      end
  end.

(** [memset(page2kva(page) + off, 0, size)]. *)
Definition clear_bytes (page off size : Z) : M xstate unit :=
  f ← in_xm (KADDR (page2pa page));
  in_xm (modify (put_bytes f off (replicate (Z.to_nat size) 0))).

(** The loop that makes the zero pages behind it. *)
Fixpoint bss_loop (fuel : nat) (d perm end_ start la : Z) : M xstate Z :=
  match fuel with
  | O => fail EFuel
  | Datatypes.S fuel' =>
      if negb (start <? end_) then mret 0 else
      r ← page_at d la perm;
      match r with
      | None => mret (- E_NO_MEM)
      | Some p =>
          let off := u32 (start - la) in
          let la' := u32 (la + PGSIZE) in
          let size := piece start end_ la' in
          clear_bytes p off size ;;
          bss_loop fuel' d perm end_ (u32 (start + size)) la'
      end
  end.

Definition seg_flags (ph : proghdr) : Z :=
  let vm := if negb (Z.land (p_flags ph) ELF_PF_X =? 0) then VM_EXEC else 0 in
  let vm := if negb (Z.land (p_flags ph) ELF_PF_W =? 0) then Z.lor vm VM_WRITE else vm in
  if negb (Z.land (p_flags ph) ELF_PF_R =? 0) then Z.lor vm VM_READ else vm.
Definition seg_perm (ph : proghdr) : Z :=
  if negb (Z.land (seg_flags ph) VM_WRITE =? 0) then Z.lor PTE_U PTE_W else PTE_U.

(** A round takes a page, so that the pages of the segment and one round more are enough. *)
Definition seg_fuel (ph : proghdr) : nat := Z.to_nat (p_memsz ph / PGSIZE + 3).

(** What follows the reading of a segment: the rest of its last page and the pages behind are cleared. *)
Definition seg_tail (ph : proghdr) (d start la : Z) (page : option Z) : M xstate Z :=
  let end_ := u32 (p_va ph + p_memsz ph) in
  if start <? la then
    if start =? end_ then mret 0 else
    page ← deref (λ _, page);
    let off := u32 (start + PGSIZE - la) in
    let size := piece start end_ la in
    clear_bytes page off size ;;
    let start' := u32 (start + size) in
    assert ((end_ <? la) && (start' =? end_) || (la <=? end_) && (start' =? la)) ;;
    bss_loop (seg_fuel ph) d (seg_perm ph) end_ start' la
  else bss_loop (seg_fuel ph) d (seg_perm ph) end_ start la.

(** One program header: 0 to go on with the next, or the error. *)
Definition load_segment (k fd : Z) (ph : proghdr) : M xstate Z :=
  if negb (p_type ph =? ELF_PT_LOAD) then mret 0 else
  if p_memsz ph <? p_filesz ph then mret (- E_INVAL_ELF) else
  if p_filesz ph =? 0 then mret 0 else
  '(ret, _) ← in_xa (in_mm k (mm_map kmalloc (p_va ph) (p_memsz ph) (seg_flags ph)));
  if negb (ret =? 0) then mret ret else
  x ← in_xa (space_at k);
  let d := a_pgdir x in
  let perm := seg_perm ph in
  '(ret, (start, la, page)) ← text_loop (seg_fuel ph) d fd perm (u32 (p_va ph + p_filesz ph))
    (p_va ph) (ROUNDDOWN (p_va ph) PGSIZE) (s32 (p_offset ph)) None;
  if negb (ret =? 0) then mret ret else
  seg_tail ph d start la page.

(** The headers [phnum], [phnum + 1], ... : [n] of them are left. *)
Fixpoint load_segments (n : nat) (k fd : Z) (elf : elfhdr) (phnum : Z) : M xstate Z :=
  match n with
  | O => mret 0
  | Datatypes.S n' =>
      '(ret, bs) ← load_icode_read fd sizeof_proghdr (s32 (e_phoff elf + sizeof_proghdr * phnum));
      if negb (ret =? 0) then mret ret else
      ret ← load_segment k fd (ph_of bs);
      if negb (ret =? 0) then mret ret else load_segments n' k fd elf (phnum + 1)
  end.

(** [assert(pgdir_alloc_page(...) != NULL)] for the topmost pages of the stack. *)
Fixpoint stack_pages (n : nat) (d i : Z) : M xstate unit :=
  match n with
  | O => mret tt
  | Datatypes.S n' =>
      r ← page_at d (USTACKTOP - i * PGSIZE) PTE_USER;
      match r with
      | None => fail EPanic
      | Some _ => stack_pages n' d (i + 1)
      end
  end.

(** [strnlen(kargv[i], EXEC_MAX_ARG_LEN + 1)], for a string given by the bytes before its end. *)
Definition arg_len (str : list Z) : Z := Z.min (Z.of_nat (length str)) (EXEC_MAX_ARG_LEN + 1).

(** The arguments [l], from [stacktop + argv_size] on, with their addresses in [uargv]. *)
Fixpoint put_args (l : list (list Z)) (i uargv stacktop argv_size : Z) : M xstate unit :=
  match l with
  | [] => mret tt
  | str :: l' =>
      in_xm (user_store (u32 (stacktop + argv_size)) (str ++ [0])) ;;
      in_xm (user_store (u32 (uargv + 4 * i)) (SfsDisk.le 4 (u32 (stacktop + argv_size)))) ;;
      put_args l' (i + 1) uargv stacktop (u32 (argv_size + (arg_len str + 1)))
  end.

(** The loop that adds the sizes of the arguments. *)
Fixpoint argv_total (l : list (list Z)) (argv_size : Z) : Z :=
  match l with
  | [] => argv_size
  | str :: l' => argv_total l' (u32 (argv_size + (arg_len str + 1)))
  end.

(** [lcr3(PADDR(d))]. *)
Definition lcr3 (d : Z) : M machine unit :=
  modify (λ m, mkMachine (pm m) (mem m) (npage m) d ∅ (swap_init_ok m)).

(** From the stack area on. *)
Definition start_user (current k : Z) (kargv : list (list Z)) (entry : Z) : M xstate Z :=
  x ← in_xa (space_at k);
  let d := a_pgdir x in
  stack_pages 4 d 1 ;;
  in_xa (mm_count_add k 1) ;;
  in_xa (modify (λ s, mkAstate (amc s) (mms s) (<[current := k]> (mm_of s)) (<[current := page2pa d]> (cr3_of s)) (swapq s))) ;;
  in_xm (lcr3 d) ;;
  let argc := Z.of_nat (length kargv) in
  let argv_size := argv_total kargv 0 in
  let stacktop := u32 (USTACKTOP - (argv_size / 4 + 1) * 4) in
  let uargv := u32 (stacktop - argc * 4) in
  put_args kargv 0 uargv stacktop 0 ;;
  let stacktop := u32 (uargv - 4) in
  in_xm (user_store stacktop (SfsDisk.le 4 argc)) ;;
  modify (λ s, mkX (xa s) (xf s) (<[current := mkTf USER_CS USER_DS USER_DS USER_DS stacktop entry FL_IF]> (xtf s))) ;;
  mret 0.

(** [load_icode] for the running process [current]; [kargv] are the strings of the arguments. *)
Definition load_icode (current fd : Z) (kargv : list (list Z)) : M xstate Z :=
  assert (Z.of_nat (length kargv) <=? EXEC_MAX_ARG_NUM) ;;
  o ← in_xa (gets (λ s, mm_of s !! current));
  match o with
  | Some _ => fail EPanic                       (* panic("load_icode: current->mm must be empty.") *)
  | None =>
      r ← in_xa (new_space kmalloc_mm);
      match r with
      | None => mret (- E_NO_MEM)
      | Some k =>
          let cleanup_mm (ret : Z) : M xstate Z := in_xa (destroy_space k) ;; mret ret in
          let cleanup_pgdir (ret : Z) : M xstate Z := in_xa (put_pgdir k) ;; cleanup_mm ret in
          let cleanup_mmap (ret : Z) : M xstate Z := in_xa (exit_space k) ;; cleanup_pgdir ret in
          e ← in_xa (setup_pgdir boot_pgdir k);
          if negb (e =? 0) then cleanup_mm (- E_NO_MEM) else
          '(ret, bs) ← load_icode_read fd sizeof_elfhdr 0;
          if negb (ret =? 0) then cleanup_pgdir ret else
          let elf := elf_of bs in
          if negb (e_magic elf =? ELF_MAGIC) then cleanup_pgdir (- E_INVAL_ELF) else
          ret ← load_segments (Z.to_nat (e_phnum elf)) k fd elf 0;
          if negb (ret =? 0) then cleanup_mmap ret else
          in_xf (sysfile_close fd) ;;
          '(ret, _) ← in_xa (in_mm k (mm_map kmalloc (USTACKTOP - USTACKSIZE) USTACKSIZE (Z.lor (Z.lor VM_READ VM_WRITE) VM_STACK)));
          if negb (ret =? 0) then cleanup_mmap ret else
          start_user current k kargv (e_entry elf)
      end
  end.

(** * What the stores do *)

Implicit Types (m : machine).

(** Replacing byte [k] of a word. *)
Lemma byte_of_set w k b j : 0 ≤ k → 0 ≤ j → 0 ≤ b < 256 →
  Z.land (Z.shiftr (Z.lor (Z.ldiff w (Z.shiftl 255 (8 * k))) (Z.shiftl b (8 * k))) (8 * j)) 255 =
  if decide (j = k) then b else Z.land (Z.shiftr w (8 * j)) 255.
Proof.
  intros Hk Hj Hb. change 255 with (Z.ones 8).
  assert (b = Z.land b (Z.ones 8)) as Hbl by (rewrite Z.land_ones, Z.mod_small; lia).
  apply Z.bits_inj'. intros n Hn. rewrite Z.land_spec, Z.shiftr_spec, Z.lor_spec, Z.ldiff_spec, !Z.shiftl_spec by lia.
  assert (∀ x, Z.testbit (Z.ones 8) x = (0 <=? x) && (x <? 8)) as Hones by (intros x; apply Z.testbit_ones; lia).
  rewrite Hbl, !Z.land_spec, !Hones. rewrite (proj2 (Z.leb_le 0 n)) by lia. destruct (decide (j = k)) as [->|Hjk].
  - replace (n + 8 * k - 8 * k) with n by lia. rewrite (proj2 (Z.leb_le 0 n)), Z.land_spec, Hones, (proj2 (Z.leb_le 0 n)) by lia.
    destruct (n <? 8); simpl; by rewrite ?andb_false_r, ?andb_true_r.
  - rewrite Z.land_spec, Z.shiftr_spec, Hones, (proj2 (Z.leb_le 0 n)) by lia.
    destruct (Z.ltb_spec n 8); simpl; [|by rewrite !andb_false_r]. rewrite !andb_true_r.
    assert ((0 <=? n + 8 * j - 8 * k) && (n + 8 * j - 8 * k <? 8) = false) as ->.
    { apply andb_false_iff. rewrite Z.leb_gt, Z.ltb_ge. lia. }
    by rewrite andb_false_r, andb_true_r, orb_false_r.
Qed.

Lemma frame_byte_put m f o b f' o' : 0 ≤ o → 0 ≤ o' → 0 ≤ b < 256 →
  frame_byte (put_byte f o b m) f' o' = if decide (f' = f ∧ o' = o) then b else frame_byte m f' o'.
Proof.
  intros Ho Ho' Hb. unfold frame_byte, put_byte. unfold read at 1. cbn [mem set_mem]. rewrite lookup_insert.
  pose proof (Z.mod_pos_bound o 4) as M1. pose proof (Z.mod_pos_bound o' 4) as M2.
  pose proof (Z.div_mod o 4) as D1. pose proof (Z.div_mod o' 4) as D2.
  destruct (decide ((f, o / 4) = (f', o' / 4))) as [[= <- Hq]|Hne].
  - simpl. rewrite byte_of_set by lia. rewrite Hq. repeat case_decide; try done; lia.
  - fold (read m (f', o' / 4)). rewrite decide_False; [done|]. intros [-> ->]. done.
Qed.

Definition is_bytes (l : list Z) : Prop := Forall (λ b, 0 ≤ b < 256) l.

Lemma frame_byte_puts m f o l f' o' : 0 ≤ o → 0 ≤ o' → is_bytes l →
  frame_byte (put_bytes f o l m) f' o' =
    if decide (f' = f ∧ o ≤ o' < o + Z.of_nat (length l)) then l !!! Z.to_nat (o' - o) else frame_byte m f' o'.
Proof.
  intros Ho Ho' Hl. revert o m Ho. induction Hl as [|b l Hb Hl IH]; intros o m Ho; cbn [put_bytes length].
  - rewrite decide_False by lia. done.
  - rewrite IH by lia. rewrite frame_byte_put by lia. destruct (decide (f' = f ∧ o' = o)) as [[-> ->]|Hne].
    + rewrite decide_False by lia. rewrite decide_True by lia. by rewrite Z.sub_diag.
    + destruct (decide (f' = f ∧ o + 1 ≤ o' < o + 1 + Z.of_nat (length l))) as [Hd|Hd].
      * rewrite decide_True by lia. replace (Z.to_nat (o' - o)) with (Datatypes.S (Z.to_nat (o' - (o + 1)))) by lia. done.
      * rewrite decide_False by lia. done.
Qed.

Lemma put_bytes_words f o l m : ∃ w, put_bytes f o l m = set_mem m w ∧ ∀ g i, g ≠ f → read (set_mem m w) (g, i) = read m (g, i).
Proof.
  revert o m. induction l as [|b l IH]; intros o m; cbn [put_bytes].
  - exists (mem m). split; [by destruct m|done].
  - destruct (IH (o + 1) (put_byte f o b m)) as (w & Hw & Hr). exists w. split; [exact Hw|].
    intros g i Hg. transitivity (read (put_byte f o b m) (g, i)); [by apply Hr|].
    unfold put_byte, read. cbn [mem set_mem]. rewrite lookup_insert_ne; [done|]. congruence.
Qed.

(** ** The memory that a program sees *)

Context `{PL : !pmm_laws S}.
Context (lo hi : Z).
Notation space_ok := (space_ok lo hi).
Notation in_range := (in_range lo hi).
Notation data_frame := (data_frame lo hi).
Notation range_pages := (range_pages lo hi).
Notation grow := (grow lo hi).

(** The byte at address [a], as directory [d] translates it. *)
Definition user_byte m (d a : Z) : option Z :=
  let pte := pte_at m d (vpn a) in if present pte then Some (frame_byte m (frame_of pte) (a mod 4096)) else None.

(** A directory in order in which no frame is mapped twice. *)
Record private m (d : Z) : Prop := {
  pv_ok : space_ok m d;
  pv_inj v w : in_range v → in_range w → present (pte_at m d v) = true → present (pte_at m d w) = true →
    frame_of (pte_at m d v) = frame_of (pte_at m d w) → v = w }.

Lemma land_entry p perm :
  Z.land (Z.lor (Z.lor (page2pa p) PTE_P) perm) PTE_USER = Z.lor PTE_P (Z.land perm PTE_USER).
Proof.
  rewrite !Z.land_lor_distr_l. replace (Z.land (page2pa p) PTE_USER) with 0; [done|]. symmetry.
  unfold page2pa, PTE_USER. change 7 with (Z.ones 3). rewrite Z.land_ones, Z.shiftl_mul_pow2 by lia.
  apply Z.mod_divide; [lia|]. exists (p * 2 ^ 9). lia.
Qed.

Lemma vpn_add v o : 0 ≤ o < 4096 → vpn (4096 * v + o) = v ∧ (4096 * v + o) mod 4096 = o.
Proof.
  intros Ho. unfold vpn. rewrite (Z.mul_comm 4096), Z.div_add_l, Z.div_small by lia.
  rewrite (Z.add_comm _ o), Z.mod_add, Z.mod_small by lia. lia.
Qed.

Lemma user_byte_page m d v a : 4096 * v ≤ a < 4096 * (v + 1) → present (pte_at m d v) = true →
  user_byte m d a = Some (frame_byte m (frame_of (pte_at m d v)) (a - 4096 * v)).
Proof.
  intros Ho Hp. unfold user_byte. destruct (vpn_add v (a - 4096 * v)) as [H1 H2]; [lia|].
  replace (4096 * v + (a - 4096 * v)) with a in H1, H2 by lia. by rewrite H1, H2, Hp.
Qed.

(** Bytes of pages whose entry and frame are kept. *)
Lemma user_byte_kept m m' d a :
  pte_at m' d (vpn a) = pte_at m d (vpn a) →
  (present (pte_at m d (vpn a)) = true → ∀ i, read m' (frame_of (pte_at m d (vpn a)), i) = read m (frame_of (pte_at m d (vpn a)), i)) →
  user_byte m' d a = user_byte m d a.
Proof.
  intros Hpte Hr. unfold user_byte. rewrite Hpte. destruct (present (pte_at m d (vpn a))); [|done].
  unfold frame_byte. by rewrite Hr.
Qed.

Lemma user_byte_grow X m m' d a : space_ok m d → grow X d m m' → in_range (vpn a) →
  pte_at m' d (vpn a) = pte_at m d (vpn a) → frame_of (pte_at m d (vpn a)) ∉ X → user_byte m' d a = user_byte m d a.
Proof.
  intros Hok Hg Ha Hpte HX. apply user_byte_kept; [done|]. intros Hp.
  destruct (so_map _ _ _ _ Hok _ Ha Hp) as [Hu Hd]. by apply (gr_keep _ _ _ _ _ _ Hg).
Qed.

(** The pages [v .. v' - 1] of [d] were mapped, and the bytes at [a0 .. a1 - 1] in them are those of [g]. *)
Record laid (d v v' perm : Z) (g : Z → Z) (a0 a1 : Z) m m' : Prop := {
  ld_private : private m' d;
  ld_grow : grow ∅ d m m';
  ld_pte w : in_range w → ¬ (v ≤ w < v') → pte_at m' d w = pte_at m d w;
  ld_range w : v ≤ w < v' → in_range w;
  ld_fresh w : v ≤ w < v' → frame_of (pte_at m' d w) ∈ pm_free (pm m);
  ld_perm w : v ≤ w < v' → present (pte_at m' d w) = true ∧ Z.land (pte_at m' d w) PTE_USER = Z.lor PTE_P (Z.land perm PTE_USER);
  ld_bytes a : a0 ≤ a < a1 → user_byte m' d a = Some (g a);
  ld_same a : in_range (vpn a) → ¬ (v ≤ vpn a < v') → user_byte m' d a = user_byte m d a;
  ld_cost : (size (pm_free (pm m)) ≤ 2 * Z.to_nat (v' - v) + size (pm_free (pm m')))%nat }.

Lemma laid_none d v perm g a m : private m d → laid d v v perm g a a m m.
Proof. intros Hp. split; try done; try lia. apply grow_refl, Hp. Qed.

Lemma laid_join d v k v' perm g a0 a1 a2 m m1 m2 :
  v ≤ k ≤ v' → (∀ w, v ≤ w < k → in_range w) → (∀ a, a0 ≤ a < a1 → v ≤ vpn a < k) →
  laid d v k perm g a0 a1 m m1 → laid d k v' perm g a1 a2 m1 m2 → laid d v v' perm g a0 a2 m m2.
Proof.
  intros Hk Hr Ha H1 H2. split.
  - apply H2.
  - eapply grow_trans; [apply H1|apply H2].
  - intros w Hw Hn. rewrite (ld_pte _ _ _ _ _ _ _ _ _ H2), (ld_pte _ _ _ _ _ _ _ _ _ H1); [done|done|lia|done|lia].
  - intros w Hw. destruct (decide (w < k)); [apply H1; lia|apply H2; lia].
  - intros w Hw. destruct (decide (w < k)) as [Hlt|Hge].
    + rewrite (ld_pte _ _ _ _ _ _ _ _ _ H2); [|apply Hr; lia|lia]. apply (ld_fresh _ _ _ _ _ _ _ _ _ H1). lia.
    + apply (gr_free _ _ _ _ _ _ (ld_grow _ _ _ _ _ _ _ _ _ H1)). apply (ld_fresh _ _ _ _ _ _ _ _ _ H2). lia.
  - intros w Hw. destruct (decide (w < k)).
    + rewrite (ld_pte _ _ _ _ _ _ _ _ _ H2); [apply H1; lia|apply Hr; lia|lia].
    + apply H2. lia.
  - intros a Haa. destruct (decide (a < a1)) as [Hlt|]; [|apply H2; lia].
    specialize (Ha a ltac:(lia)). rewrite (ld_same _ _ _ _ _ _ _ _ _ H2); [apply H1; lia|apply Hr; lia|lia].
  - intros a Har Hn. rewrite (ld_same _ _ _ _ _ _ _ _ _ H2), (ld_same _ _ _ _ _ _ _ _ _ H1); [done|done|lia|done|lia].
  - pose proof (ld_cost _ _ _ _ _ _ _ _ _ H1). pose proof (ld_cost _ _ _ _ _ _ _ _ _ H2). lia.
Qed.

(** One page: the frame that [pgdir_alloc_page] takes is filled with the bytes [l]. *)
Lemma page_laid m d v perm off l (g : Z → Z) :
  private m d → 0 ≤ v → 4096 * v < 2 ^ 32 → in_range v → 0 ≤ perm < 4096 → (2 ≤ size (pm_free (pm m)))%nat →
  present (pte_at m d v) = false → 0 ≤ off → off + Z.of_nat (length l) ≤ 4096 → is_bytes l →
  (∀ o, off ≤ o < off + Z.of_nat (length l) → g (4096 * v + o) = l !!! Z.to_nat (o - off)) →
  ∃ p m1, pgdir_alloc_page d (4096 * v) perm m = Ret (Some p, m1) ∧ KADDR (page2pa p) m1 = Ret (p, m1) ∧
    p ∈ pm_free (pm m) ∧ frame_of (pte_at (put_bytes p off l m1) d v) = p ∧ npage (put_bytes p off l m1) = npage m1 ∧
    laid d v (v + 1) perm g (4096 * v + off) (4096 * v + off + Z.of_nat (length l)) m (put_bytes p off l m1).
Proof.
  intros [Hok Hinj] Hv0 Hv1 Hv Hperm Hsz Habs Hoff Hlen Hl Hg.
  destruct (pgdir_alloc_fresh lo hi m d (4096 * v) perm) as (p & m1 & Hrun & Hp & Hgr & Hu & Hd & Hr & Hpte & Hcost);
    rewrite ?vpn_page in *; try done; [lia|].
  destruct (put_bytes_words p off l m1) as (w & Hw & Hread).
  destruct (data_words lo hi m1 d p w (gr_ok _ _ _ _ _ _ Hgr) Hd Hread) as (Hg2 & _ & Hpte2). rewrite <-Hw in Hg2, Hpte2.
  set (m2 := put_bytes p off l m1) in *.
  assert (grow ∅ d m m2) as Hg3.
  { apply (grow_fresh _ _ p); [done|]. eapply grow_trans; [eapply grow_weaken; [|exact Hgr]; set_solver|exact Hg2]. }
  assert (∀ x, in_range x → pte_at m2 d x = if decide (x = v) then Z.lor (Z.lor (page2pa p) PTE_P) perm else pte_at m d x) as Hpt.
  { intros x Hx. rewrite Hpte2, Hpte by done. done. }
  assert (frame_of (Z.lor (Z.lor (page2pa p) PTE_P) perm) = p) as Hfe by (apply frame_of_entry; [done|lia]).
  assert (∀ x, in_range x → present (pte_at m d x) = true → frame_of (pte_at m d x) ≠ p) as Hnp.
  { intros x Hx Hxp E. destruct (so_map _ _ _ _ Hok x Hx Hxp) as [Hxu _]. rewrite E in Hxu. by apply (used_not_free _ _ Hxu). }
  assert (∀ a, in_range (vpn a) → vpn a ≠ v → user_byte m2 d a = user_byte m d a) as Hsame.
  { intros a Ha Hav. apply (user_byte_grow ∅); [done|done|done| |set_solver]. rewrite Hpt by done. by rewrite decide_False. }
  exists p, m1. fold m2. split_and!.
  - done.
  - by apply (KADDR_page lo hi m1 d); [apply Hgr|].
  - done.
  - rewrite Hpt by done. by rewrite decide_True.
  - by rewrite Hw.
  - split.
    + split; [apply Hg3|]. intros x y Hx Hy. rewrite !Hpt by done. repeat case_decide; subst; try done.
      * rewrite Hfe. intros _ Hyp E. symmetry in E. by apply Hnp in E.
      * rewrite Hfe. intros Hxp _ E. by apply Hnp in E.
      * by apply Hinj.
    + done.
    + intros x Hx Hn. rewrite Hpt, decide_False by (done || lia). done.
    + intros x Hx. by replace x with v by lia.
    + intros x Hx. replace x with v by lia. rewrite Hpt, decide_True, Hfe by done. done.
    + intros x Hx. replace x with v by lia. rewrite Hpt, decide_True by done. split; [apply present_entry|apply land_entry].
    + intros a Ha. rewrite (user_byte_page m2 d v) by (first [lia|rewrite Hpt, decide_True by done; apply present_entry]).
      rewrite Hpt, decide_True, Hfe by done. f_equal. unfold m2. rewrite frame_byte_puts by (done || lia).
      rewrite decide_True by lia. rewrite <-Hg by lia. f_equal. lia.
    + intros a Ha Hn. apply Hsame; [done|lia].
    + replace (v + 1 - v) with 1 by lia. pose proof (table_cost_le m d v).
      assert (pm m2 = pm m1) as -> by (by rewrite Hw). lia.
Qed.

(** More bytes for the last page that was mapped. *)
Lemma tail_laid m m1 d v k perm g a0 a1 l :
  laid d v k perm g a0 a1 m m1 → v < k → in_range (k - 1) → 4096 * (k - 1) ≤ a1 → a1 + Z.of_nat (length l) ≤ 4096 * k →
  frame_of (pte_at m1 d (k - 1)) ∈ pm_free (pm m) → is_bytes l →
  (∀ a, a0 ≤ a < a1 → in_range (vpn a) ∧ vpn a < k) →
  (∀ a, a1 ≤ a < a1 + Z.of_nat (length l) → g a = l !!! Z.to_nat (a - a1)) →
  laid d v k perm g a0 (a1 + Z.of_nat (length l)) m (put_bytes (frame_of (pte_at m1 d (k - 1))) (a1 - 4096 * (k - 1)) l m1).
Proof.
  intros H Hvk Hk1 Ha1 Ha1' Hfree Hl Hin Hg. set (p := frame_of (pte_at m1 d (k - 1))) in *. set (off := a1 - 4096 * (k - 1)).
  destruct (ld_private _ _ _ _ _ _ _ _ _ H) as [Hok Hinj].
  destruct (ld_perm _ _ _ _ _ _ _ _ _ H (k - 1) ltac:(lia)) as [Hp _].
  destruct (so_map _ _ _ _ Hok _ Hk1 Hp) as [Hu Hd].
  destruct (put_bytes_words p off l m1) as (w & Hw & Hread).
  destruct (data_words lo hi m1 d p w Hok Hd Hread) as (Hg2 & _ & Hpt). rewrite <-Hw in Hg2, Hpt.
  set (m2 := put_bytes p off l m1) in *.
  assert (∀ a, in_range (vpn a) → vpn a ≠ k - 1 → user_byte m2 d a = user_byte m1 d a) as Hsame.
  { intros a Ha Hne. unfold user_byte at 1 2. rewrite Hpt by done. destruct (present (pte_at m1 d (vpn a))) eqn:Hpa; [|done].
    f_equal. unfold frame_byte. f_equal. f_equal. rewrite Hw. apply Hread. intros E. apply Hne. by apply Hinj. }
  assert (∀ a, 4096 * (k - 1) ≤ a < 4096 * k → user_byte m2 d a =
    if decide (a1 ≤ a < a1 + Z.of_nat (length l)) then Some (l !!! Z.to_nat (a - a1)) else user_byte m1 d a) as Hlast.
  { intros a Ha. rewrite !(user_byte_page _ d (k - 1)) by (first [lia|rewrite ?Hpt by done; done]). rewrite Hpt by done. fold p.
    unfold m2. rewrite frame_byte_puts by (done || lia).
    destruct (decide (a1 ≤ a < a1 + Z.of_nat (length l))).
    - rewrite decide_True by lia. do 2 f_equal. f_equal. lia.
    - rewrite decide_False by lia. done. }
  split.
  - split; [apply Hg2|]. intros x y Hx Hy. rewrite !Hpt by done. by apply Hinj.
  - apply (grow_fresh _ _ p); [done|]. eapply grow_trans; [eapply grow_weaken; [|apply H]; set_solver|exact Hg2].
  - intros x Hx Hn. rewrite Hpt by done. by apply (ld_pte _ _ _ _ _ _ _ _ _ H).
  - apply (ld_range _ _ _ _ _ _ _ _ _ H).
  - intros x Hx. rewrite Hpt by (by apply (ld_range _ _ _ _ _ _ _ _ _ H)). by apply (ld_fresh _ _ _ _ _ _ _ _ _ H).
  - intros x Hx. rewrite Hpt by (by apply (ld_range _ _ _ _ _ _ _ _ _ H)). by apply (ld_perm _ _ _ _ _ _ _ _ _ H).
  - intros a Ha. destruct (decide (4096 * (k - 1) ≤ a)) as [Hge|Hlt].
    + rewrite Hlast by lia. case_decide; [f_equal; symmetry; by apply Hg|]. apply (ld_bytes _ _ _ _ _ _ _ _ _ H). lia.
    + destruct (Hin a ltac:(lia)) as [Har Hak]. rewrite Hsame; [apply (ld_bytes _ _ _ _ _ _ _ _ _ H); lia|done|].
      unfold vpn. assert (a / 4096 < k - 1); [|lia]. apply Z.div_lt_upper_bound; lia.
  - intros a Ha Hn. rewrite Hsame; [by apply (ld_same _ _ _ _ _ _ _ _ _ H)|done|lia].
  - pose proof (ld_cost _ _ _ _ _ _ _ _ _ H). assert (pm m2 = pm m1) as -> by (by rewrite Hw). done.
Qed.

(** ** Reading a segment *)

Definition st (s : xstate) m (e : F) : xstate := mkX (set_amc (xa s) m) e (xtf s).

Lemma in_xm_run {A} (c : M machine A) s a m' : c (amc (xa s)) = Ret (a, m') → in_xm c s = Ret (a, st s m' (xf s)).
Proof. intros H. unfold in_xm, in_xa, in_amc. by rewrite H. Qed.

Lemma st_st s m e m' e' : st (st s m e) m' e' = st s m' e'.
Proof. done. Qed.

Lemma piece_spec start end_ v : 0 ≤ v → 4096 * (v + 1) < 2 ^ 32 → 4096 * v ≤ start < 4096 * (v + 1) → start < end_ < 2 ^ 32 →
  piece start end_ (4096 * (v + 1)) = Z.min end_ (4096 * (v + 1)) - start ∧ u32 (start - 4096 * v) = start - 4096 * v.
Proof.
  intros Hv Hv1 Hs He. unfold piece, PGSIZE. rewrite (u32_small (start - 4096 * v)) by lia. split; [|done].
  rewrite (u32_small (start + 4096 - 4096 * (v + 1))) by lia.
  rewrite (u32_small (4096 - _)) by lia. destruct (Z.ltb_spec end_ (4096 * (v + 1))).
  - rewrite (u32_small (4096 * (v + 1) - end_)) by lia. rewrite u32_small by lia. lia.
  - lia.
Qed.

Context `{EL : !exec_files_laws F}.

Definition slice (c : list Z) (off len : Z) : list Z := take (Z.to_nat len) (drop (Z.to_nat off) c).

Lemma slice_length c off len : 0 ≤ off → 0 ≤ len → off + len ≤ Z.of_nat (length c) → Z.of_nat (length (slice c off len)) = len.
Proof. intros. unfold slice. rewrite length_take, length_drop. lia. Qed.

Lemma slice_lookup c off len i : 0 ≤ off → 0 ≤ i < len → off + len ≤ Z.of_nat (length c) →
  slice c off len !!! Z.to_nat i = c !!! Z.to_nat (off + i).
Proof.
  intros. unfold slice. rewrite !list_lookup_total_alt. rewrite lookup_take_lt by lia. rewrite lookup_drop. do 2 f_equal. lia.
Qed.

Lemma slice_bytes c off len : is_bytes c → is_bytes (slice c off len).
Proof. intros. by apply Forall_take, Forall_drop. Qed.

Lemma load_icode_read_run s fd c off len :
  file_holds fd c (xf s) → 0 ≤ off → 0 < len ≤ 4096 → off + len ≤ Z.of_nat (length c) → Z.of_nat (length c) < 2 ^ 31 →
  ∃ e, load_icode_read fd len off s = Ret ((0, slice c off len), st s (amc (xa s)) e) ∧ file_holds fd c e.
Proof.
  intros Hc Ho Hl Hlen Hmax. destruct (ef_seek (xf s) fd c off Hc) as (e1 & Hseek & Hat); [lia|].
  destruct (ef_read e1 fd c off len Hat Hl Hlen) as (e2 & Hread & Hc2). exists e2. split; [|done].
  assert (∀ x : astate, set_amc x (amc x) = x) as Hid by (clear; intros []; done).
  unfold load_icode_read. step using (unfold in_xf; rewrite Hseek; reflexivity). change (negb (0 =? 0)) with false. cbv iota.
  step using (unfold in_xf; cbn [xf]; rewrite Hread; reflexivity). cbv beta iota.
  rewrite u32_small by lia. rewrite Z.eqb_refl. cbn [negb]. unfold st. by rewrite Hid.
Qed.

Lemma text_loop_run fuel : ∀ s c d fd perm end_ start v offset page (g : Z → Z),
  let m := amc (xa s) in let v' := (end_ - 1) / 4096 + 1 in
  private m d → file_holds fd c (xf s) → 0 ≤ v → 4096 * v ≤ start < 4096 * (v + 1) → start < end_ → 4096 * v' ≤ USERTOP →
  v' - v < Z.of_nat fuel → (∀ w, v ≤ w < v' → in_range w ∧ present (pte_at m d w) = false) →
  (2 * Z.to_nat (v' - v) ≤ size (pm_free (pm m)))%nat → 0 ≤ perm < 4096 →
  0 ≤ offset → offset + (end_ - start) ≤ Z.of_nat (length c) → Z.of_nat (length c) < 2 ^ 31 → is_bytes c →
  (∀ a, start ≤ a < end_ → g a = c !!! Z.to_nat (offset + (a - start))) →
  ∃ p m' e', text_loop fuel d fd perm end_ start (4096 * v) offset page s =
      Ret ((0, (end_, 4096 * v', Some p)), st s m' e') ∧ file_holds fd c e' ∧
    laid d v v' perm g start end_ m m' ∧ p = frame_of (pte_at m' d (v' - 1)) ∧ p ∈ pm_free (pm m).
Proof.
  induction fuel as [|fuel IH]; intros s c d fd perm end_ start v offset page g m v' Hpv Hc Hv Hs He Htop Hf Hr Hsz Hperm Ho Hol Hmax Hcb Hg.
  { exfalso. unfold v' in Hf. assert (v ≤ (end_ - 1) / 4096) by (apply Z.div_le_lower_bound; lia). lia. }
  unfold USERTOP in Htop.
  assert (4096 * (v' - 1) ≤ end_ - 1 < 4096 * v') as Hv'.
  { unfold v'. pose proof (Z.div_mod (end_ - 1) 4096). pose proof (Z.mod_pos_bound (end_ - 1) 4096). lia. }
  assert (v < v') as Hvv by (assert (4096 * v < 4096 * v') by lia; lia).
  destruct (piece_spec start end_ v) as [Hpiece Hoff]; [lia|lia|lia|lia|].
  set (sz := Z.min end_ (4096 * (v + 1)) - start) in *.
  assert (u32 (4096 * v + PGSIZE) = 4096 * (v + 1)) as Hla by (unfold PGSIZE; rewrite u32_small; lia).
  pose proof (slice_length c offset sz Ho ltac:(lia) ltac:(lia)) as Hlen.
  destruct (Hr v ltac:(lia)) as [Hvr Hvabs].
  destruct (page_laid m d v perm (start - 4096 * v) (slice c offset sz) g) as (p & m1 & Hal & HK & Hpf & Hfr & _ & Hld);
    rewrite ?Hlen; try done; try lia; [by apply slice_bytes| |].
  { intros o Hoo. rewrite Hg by lia. rewrite slice_lookup by lia. f_equal. lia. }
  rewrite Hlen in Hld. replace (4096 * v + (start - 4096 * v)) with start in Hld by lia.
  set (m2 := put_bytes p (start - 4096 * v) (slice c offset sz) m1) in *.
  destruct (load_icode_read_run (st s m1 (xf s)) fd c offset sz) as (e1 & Hread & Hc1); try done; try lia.
  rewrite st_st in Hread. change (amc (xa (st s m1 (xf s)))) with m1 in Hread.
  assert (text_loop (Datatypes.S fuel) d fd perm end_ start (4096 * v) offset page s =
    text_loop fuel d fd perm end_ (start + sz) (4096 * (v + 1)) (offset + sz) (Some p) (st s m2 e1)) as Hround.
  { cbn [text_loop]. rewrite (proj2 (Z.ltb_lt _ _)) by lia. cbn [negb]. cbv iota.
    step using (unfold page_at; apply in_xm_run; exact Hal). cbv iota zeta. rewrite Hla, Hpiece, Hoff.
    step using (apply in_xm_run; exact HK). step using (exact Hread). cbv beta iota.
    step using (apply in_xm_run; reflexivity). change (negb (0 =? 0)) with false. cbv iota.
    rewrite (u32_small (start + sz)) by lia. rewrite (s32_small (offset + sz)) by lia. done. }
  destruct (decide (end_ ≤ 4096 * (v + 1))) as [Hlast|Hmore].
  - assert (v' = v + 1) as Ev by lia. assert (start + sz = end_) as Es by lia. exists p, m2, e1. split_and!; [| |by rewrite Ev, <-Es| |].
    + rewrite Hround, Ev, Es. destruct fuel; [lia|]. cbn [text_loop]. by rewrite (proj2 (Z.ltb_ge _ _)) by lia.
    + done.
    + by replace (v' - 1) with v by lia.
    + done.
  - assert (start + sz = 4096 * (v + 1)) as Es by lia.
    destruct (IH (st s m2 e1) c d fd perm end_ (start + sz) (v + 1) (offset + sz) (Some p) g) as (q & m' & e' & Hrun & Hce & Hld' & Hq & Hqf);
      cbn [xa st amc set_amc xf]; try done; try lia.
    + apply Hld.
    + intros w Hw. destruct (Hr w) as [Hwr Hwa]; [lia|]. split; [done|]. rewrite (ld_pte _ _ _ _ _ _ _ _ _ Hld); [done|done|lia].
    + fold v'. pose proof (ld_cost _ _ _ _ _ _ _ _ _ Hld). lia.
    + intros a Ha. rewrite Hg by lia. do 2 f_equal. lia.
    + cbn [xa st amc set_amc xf] in Hrun, Hld', Hqf. fold v' in Hrun, Hld', Hq. exists q, m', e'. split_and!; [|done| |done|].
      * by rewrite Hround, Hrun, st_st.
      * eapply laid_join; [|..|exact Hld|exact Hld']; [lia| |].
        -- intros w Hw. apply Hr. lia.
        -- intros a Ha. unfold vpn. split; [apply Z.div_le_lower_bound|apply Z.div_lt_upper_bound]; lia.
      * by apply (gr_free _ _ _ _ _ _ (ld_grow _ _ _ _ _ _ _ _ _ Hld)).
Qed.

Lemma bss_loop_run fuel : ∀ s d perm end_ v (g : Z → Z),
  let m := amc (xa s) in let v' := (end_ - 1) / 4096 + 1 in
  private m d → 0 ≤ v → 4096 * v ≤ end_ → 4096 * v' ≤ USERTOP → v' - v < Z.of_nat fuel →
  (∀ w, v ≤ w < v' → in_range w ∧ present (pte_at m d w) = false) →
  (2 * Z.to_nat (v' - v) ≤ size (pm_free (pm m)))%nat → 0 ≤ perm < 4096 →
  (∀ a, 4096 * v ≤ a < end_ → g a = 0) →
  ∃ m', bss_loop fuel d perm end_ (4096 * v) (4096 * v) s = Ret (0, st s m' (xf s)) ∧
    laid d v v' perm g (4096 * v) end_ m m'.
Proof.
  induction fuel as [|fuel IH]; intros s d perm end_ v g m v' Hpv Hv He Htop Hf Hr Hsz Hperm Hg.
  { exfalso. unfold v' in Hf. assert (v - 1 ≤ (end_ - 1) / 4096) by (apply Z.div_le_lower_bound; lia). lia. }
  unfold USERTOP in Htop.
  assert (4096 * (v' - 1) ≤ end_ - 1 < 4096 * v') as Hv'.
  { unfold v'. pose proof (Z.div_mod (end_ - 1) 4096). pose proof (Z.mod_pos_bound (end_ - 1) 4096). lia. }
  cbn [bss_loop]. destruct (Z.ltb_spec (4096 * v) end_) as [Hlt|Hge]; cbn [negb]; cbv iota.
  2:{ exists m. assert (v' = v) as -> by lia. assert (end_ = 4096 * v) as -> by lia. split; [|by apply laid_none].
    unfold st. assert (∀ x : astate, set_amc x (amc x) = x) as Hid by (clear; intros []; done). unfold m. rewrite Hid. by destruct s. }
  assert (v < v') as Hvv by lia.
  destruct (piece_spec (4096 * v) end_ v) as [Hpiece Hoff]; [lia|lia|lia|lia|].
  set (sz := Z.min end_ (4096 * (v + 1)) - 4096 * v) in *. set (l := replicate (Z.to_nat sz) 0).
  assert (u32 (4096 * v + PGSIZE) = 4096 * (v + 1)) as Hla by (unfold PGSIZE; rewrite u32_small; lia).
  assert (Z.of_nat (length l) = sz) as Hlen by (unfold l; rewrite length_replicate; lia).
  destruct (Hr v ltac:(lia)) as [Hvr Hvabs].
  destruct (page_laid m d v perm 0 l g) as (p & m1 & Hal & HK & Hpf & Hfr & _ & Hld); rewrite ?Hlen; try done; try lia.
  { apply Forall_replicate. lia. }
  { intros o Hoo. rewrite Hg by lia. unfold l. rewrite lookup_total_replicate_2 by lia. done. }
  rewrite Hlen, Z.add_0_r in Hld. set (m2 := put_bytes p 0 l m1) in *.
  step using (unfold page_at; apply in_xm_run; exact Hal). cbv iota zeta. rewrite Hla, Hpiece, Hoff, Z.sub_diag.
  assert (clear_bytes p 0 sz (st s m1 (xf s)) = Ret (tt, st s m2 (xf s))) as Hclr.
  { unfold clear_bytes. step using (apply in_xm_run; exact HK). by erewrite in_xm_run by reflexivity. }
  step using (exact Hclr). rewrite (u32_small (4096 * v + sz)) by lia.
  destruct (decide (end_ ≤ 4096 * (v + 1))) as [Hlast|Hmore].
  - assert (v' = v + 1) as Ev by lia. assert (4096 * v + sz = end_) as Es by lia. rewrite Es in *. exists m2.
    split; [|by rewrite Ev]. destruct fuel; [lia|]. cbn [bss_loop]. by rewrite (proj2 (Z.ltb_ge _ _)) by lia.
  - assert (4096 * v + sz = 4096 * (v + 1)) as Es by lia. rewrite Es in *.
    destruct (IH (st s m2 (xf s)) d perm end_ (v + 1) g) as (m' & Hrun & Hld'); cbn [xa st amc set_amc]; try done; try lia.
    + apply Hld.
    + intros w Hw. destruct (Hr w) as [Hwr Hwa]; [lia|]. split; [done|]. rewrite (ld_pte _ _ _ _ _ _ _ _ _ Hld); [done|done|lia].
    + fold v'. pose proof (ld_cost _ _ _ _ _ _ _ _ _ Hld). lia.
    + intros a Ha. apply Hg. lia.
    + cbn [xa st amc set_amc] in Hrun, Hld'. fold v' in Hrun, Hld'. exists m'. split; [by rewrite Hrun, st_st|].
      eapply laid_join; [|..|exact Hld|exact Hld']; [lia| |].
      * intros w Hw. apply Hr. lia.
      * intros a Ha. unfold vpn. split; [apply Z.div_le_lower_bound|apply Z.div_lt_upper_bound]; lia.
Qed.

(** ** A whole segment *)

(** The pages of a segment, and the byte that belongs at address [a] of it when [c] is the file. *)
Definition seg_first (ph : proghdr) : Z := p_va ph / 4096.
Definition seg_last (ph : proghdr) : Z := (p_va ph + p_memsz ph - 1) / 4096 + 1.
Definition seg_byte (c : list Z) (ph : proghdr) (a : Z) : Z :=
  if decide (a < p_va ph + p_filesz ph) then c !!! Z.to_nat (p_offset ph + (a - p_va ph)) else 0.
Definition seg_area (ph : proghdr) : vma_struct := mkVma (4096 * seg_first ph) (4096 * seg_last ph) (seg_flags ph) 0.

Record seg_ok (c : list Z) (ph : proghdr) : Prop := {
  sg_type : p_type ph = ELF_PT_LOAD;
  sg_size : 0 < p_filesz ph ≤ p_memsz ph;
  sg_file : 0 ≤ p_offset ph ∧ p_offset ph + p_filesz ph ≤ Z.of_nat (length c);
  sg_user : USERBASE ≤ 4096 * seg_first ph ∧ 4096 * seg_last ph ≤ USERTOP - USTACKSIZE }.

Lemma seg_perm_range ph : 0 ≤ seg_perm ph < 4096.
Proof. unfold seg_perm. destruct (negb (Z.land (seg_flags ph) VM_WRITE =? 0)); (split; [discriminate|reflexivity]). Qed.

Lemma seg_bounds c ph : seg_ok c ph → let f := seg_first ph in let l := seg_last ph in
  512 ≤ f ∧ 4096 * f ≤ p_va ph < 4096 * (f + 1) ∧ 4096 * (l - 1) ≤ p_va ph + p_memsz ph - 1 < 4096 * l ∧ f < l ∧
  4096 * l ≤ 0xAFF00000 ∧ ROUNDDOWN (p_va ph) PGSIZE = 4096 * f ∧
  ROUNDUP (u32 (p_va ph + p_memsz ph)) PGSIZE = 4096 * l ∧ u32 (p_va ph + p_memsz ph) = p_va ph + p_memsz ph ∧
  u32 (p_va ph + p_filesz ph) = p_va ph + p_filesz ph ∧ l - f < Z.of_nat (seg_fuel ph).
Proof.
  intros [_ [H1 H2] _ [H3 H4]] f l. unfold USERBASE, USERTOP, USTACKSIZE, PGSIZE in *. fold f in H3. fold l in H4.
  assert (4096 * f ≤ p_va ph < 4096 * (f + 1)) as Hf.
  { unfold f, seg_first. pose proof (Z.div_mod (p_va ph) 4096). pose proof (Z.mod_pos_bound (p_va ph) 4096). lia. }
  assert (4096 * (l - 1) ≤ p_va ph + p_memsz ph - 1 < 4096 * l) as Hl.
  { unfold l, seg_last. pose proof (Z.div_mod (p_va ph + p_memsz ph - 1) 4096).
    pose proof (Z.mod_pos_bound (p_va ph + p_memsz ph - 1) 4096). lia. }
  assert (u32 (p_va ph + p_memsz ph) = p_va ph + p_memsz ph) as Hu by (apply u32_small; lia).
  assert (f < l) as Hfl by lia.
  split_and!; try lia.
  - rewrite ROUNDDOWN_spec by lia. done.
  - rewrite Hu. unfold ROUNDUP. rewrite u32_small by lia. rewrite ROUNDDOWN_spec by lia. f_equal.
    symmetry. apply Z.div_unique_pos with (p_va ph + p_memsz ph + 4096 - 1 - 4096 * l); lia.
  - apply u32_small. lia.
  - unfold seg_fuel, PGSIZE. pose proof (Z.div_mod (p_memsz ph) 4096). pose proof (Z.mod_pos_bound (p_memsz ph) 4096). lia.
Qed.

Lemma bss_loop_end fuel d perm end_ la s : (0 < fuel)%nat → bss_loop fuel d perm end_ end_ la s = Ret (0, s).
Proof. intros Hf. destruct fuel; [lia|]. cbn [bss_loop]. by rewrite Z.ltb_irrefl. Qed.

Lemma seg_tail_run s c ph d m p :
  seg_ok c ph → let m1 := amc (xa s) in let v1 := (p_va ph + p_filesz ph - 1) / 4096 + 1 in
  laid d (seg_first ph) v1 (seg_perm ph) (seg_byte c ph) (p_va ph) (p_va ph + p_filesz ph) m m1 →
  p = frame_of (pte_at m1 d (v1 - 1)) → p ∈ pm_free (pm m) →
  (∀ w, seg_first ph ≤ w < seg_last ph → in_range w ∧ present (pte_at m d w) = false) →
  (2 * Z.to_nat (seg_last ph - seg_first ph) ≤ size (pm_free (pm m)))%nat →
  ∃ m', seg_tail ph d (p_va ph + p_filesz ph) (4096 * v1) (Some p) s = Ret (0, st s m' (xf s)) ∧
    laid d (seg_first ph) (seg_last ph) (seg_perm ph) (seg_byte c ph) (p_va ph) (p_va ph + p_memsz ph) m m'.
Proof.
  intros Hok m1 v1 Hld Hp Hpf Hr Hsz. pose proof (sg_size _ _ Hok) as Hsize.
  destruct (seg_bounds c ph Hok) as (Hf0 & Hf & Hl & Hfl & Hl0 & _ & _ & Hu & _ & Hfuel).
  set (f := seg_first ph) in *. set (l := seg_last ph) in *. set (e1 := p_va ph + p_filesz ph) in *. set (e2 := p_va ph + p_memsz ph) in *.
  assert (4096 * (v1 - 1) ≤ e1 - 1 < 4096 * v1) as Hv1.
  { unfold v1. pose proof (Z.div_mod (e1 - 1) 4096). pose proof (Z.mod_pos_bound (e1 - 1) 4096). lia. }
  assert (f < v1 ≤ l) as Hfv by lia.
  assert (l = (e2 - 1) / 4096 + 1) as El by reflexivity.
  assert (∀ a, e1 ≤ a → seg_byte c ph a = 0) as Hzero by (intros a Ha; unfold seg_byte; rewrite decide_False by lia; done).
  assert (∀ a, p_va ph ≤ a < e2 → in_range (vpn a) ∧ f ≤ vpn a < l) as Hin.
  { intros a Ha. assert (f ≤ vpn a < l); [|split; [apply Hr; lia|lia]].
    unfold vpn. split; [apply Z.div_le_lower_bound|apply Z.div_lt_upper_bound]; lia. }
  (* the pages behind *)
  assert (∀ s2, laid d f v1 (seg_perm ph) (seg_byte c ph) (p_va ph) (4096 * v1) m (amc (xa s2)) → 4096 * v1 ≤ e2 →
    ∃ m', bss_loop (seg_fuel ph) d (seg_perm ph) e2 (4096 * v1) (4096 * v1) s2 = Ret (0, st s2 m' (xf s2)) ∧
      laid d f l (seg_perm ph) (seg_byte c ph) (p_va ph) e2 m m') as Hrest.
  { intros s2 Hld2 Hle. destruct (bss_loop_run (seg_fuel ph) s2 d (seg_perm ph) e2 v1 (seg_byte c ph)) as (m' & Hrun & Hld');
      rewrite <-?El; try done; try lia.
    - apply Hld2.
    - unfold USERTOP. lia.
    - intros w Hw. destruct (Hr w) as [Hwr Hwa]; [lia|]. split; [done|]. rewrite (ld_pte _ _ _ _ _ _ _ _ _ Hld2); [done|done|lia].
    - pose proof (ld_cost _ _ _ _ _ _ _ _ _ Hld2). lia.
    - apply seg_perm_range.
    - intros a Ha. apply Hzero. lia.
    - rewrite <-El in Hld'. exists m'. split; [done|]. eapply laid_join; [|..|exact Hld2|exact Hld']; [lia| |].
      + intros w Hw. apply Hr. lia.
      + intros a Ha. unfold vpn. split; [apply Z.div_le_lower_bound|apply Z.div_lt_upper_bound]; lia. }
  unfold seg_tail. fold e2. rewrite Hu. cbv zeta. destruct (Z.ltb_spec e1 (4096 * v1)) as [Hlt|Hge].
  2:{ assert (e1 = 4096 * v1) as E by lia. rewrite E in *. destruct (Hrest s) as (m' & Hrun & Hld'); [done|lia|]. by exists m'. }
  destruct (Z.eqb_spec e1 e2) as [E|Hne].
  { exists m1. assert (v1 = l) as <- by lia. rewrite <-E. split; [|done].
    unfold st, m1. assert (∀ x : astate, set_amc x (amc x) = x) as Hid by (clear; intros []; done). rewrite Hid. by destruct s. }
  destruct (piece_spec e1 e2 (v1 - 1)) as [Hpiece _]; [lia|lia|lia|lia|]. replace (v1 - 1 + 1) with v1 in Hpiece by lia.
  set (sz := Z.min e2 (4096 * v1) - e1) in *. set (zs := replicate (Z.to_nat sz) 0).
  assert (Z.of_nat (length zs) = sz) as Hlen by (unfold zs; rewrite length_replicate; lia).
  assert (u32 (e1 + PGSIZE - 4096 * v1) = e1 - 4096 * (v1 - 1)) as Hoff by (unfold PGSIZE; rewrite u32_small; lia).
  assert (laid d f v1 (seg_perm ph) (seg_byte c ph) (p_va ph) (e1 + sz) m (put_bytes p (e1 - 4096 * (v1 - 1)) zs m1)) as Hld2.
  { rewrite <-Hlen, Hp. apply tail_laid; rewrite ?Hlen; try done; try lia.
    - apply Hr. lia.
    - by rewrite <-Hp.
    - apply Forall_replicate. lia.
    - intros a Ha. destruct (Hin a); [lia|]. split; [done|]. unfold vpn. apply Z.div_lt_upper_bound; lia.
    - intros a Ha. rewrite Hzero by lia. unfold zs. rewrite lookup_total_replicate_2 by lia. done. }
  set (m2 := put_bytes p (e1 - 4096 * (v1 - 1)) zs m1) in *.
  assert (p ∈ used m1) as Hpu.
  { rewrite Hp. apply (so_map _ _ _ _ (pv_ok _ _ (ld_private _ _ _ _ _ _ _ _ _ Hld))); [apply Hr; lia|].
    apply (ld_perm _ _ _ _ _ _ _ _ _ Hld). lia. }
  assert (clear_bytes p (e1 - 4096 * (v1 - 1)) sz s = Ret (tt, st s m2 (xf s))) as Hclr.
  { unfold clear_bytes. step using (apply in_xm_run; apply (KADDR_page lo hi m1 d); [apply (ld_private _ _ _ _ _ _ _ _ _ Hld)|done]).
    by erewrite in_xm_run by reflexivity. }
  step using reflexivity. rewrite Hoff, Hpiece. step using (exact Hclr). rewrite (u32_small (e1 + sz)) by lia.
  destruct (Z.ltb_spec e2 (4096 * v1)) as [Hlt2|Hge2].
  - assert (e1 + sz = e2) as Es by lia. rewrite Es in *. rewrite Z.eqb_refl. exists m2. assert (v1 = l) as <- by lia. split; [|done].
    step using reflexivity. rewrite bss_loop_end by lia. done.
  - assert (e1 + sz = 4096 * v1) as Es by lia. rewrite Es in *. rewrite Z.eqb_refl, (proj2 (Z.leb_le _ _)) by lia.
    destruct (Hrest (st s m2 (xf s))) as (m' & Hrun & Hld'); [done|lia|]. exists m'. split; [|done].
    step using (rewrite orb_true_r; reflexivity). by rewrite Hrun, st_st.
Qed.

(** [mm_map] does not touch the number of users of the address space. *)
Definition keeps_count {A} (c : M mm_struct A) : Prop := ∀ t a t', c t = Ret (a, t') → mm_count t' = mm_count t.

Lemma count_kept_ret {A} (a : A) : keeps_count (mret a).
Proof. intros t a' t' [= _ <-]. done. Qed.
Lemma count_kept_bind {A B} (c : M mm_struct A) (f : A → M mm_struct B) :
  keeps_count c → (∀ a, keeps_count (f a)) → keeps_count (c ≫= f).
Proof. intros Hc Hf t b t' H. apply M_bind_Ret in H as (a & t1 & H1 & H2). rewrite (Hf a t1 b t' H2). by eapply Hc. Qed.
Lemma count_kept_gets {A} (f : mm_struct → A) : keeps_count (gets f).
Proof. intros t a t' [= _ <-]. done. Qed.
Lemma keeps_deref {A} (f : mm_struct → option A) : keeps_count (deref f).
Proof. intros t a t'. unfold deref. destruct (f t); [|done]. by intros [= _ <-]. Qed.
Lemma keeps_assert b : keeps_count (assert b).
Proof. intros t a t'. unfold assert. destruct b; [|done]. by intros [=]; subst. Qed.
Lemma keeps_modify f : (∀ t, mm_count (f t) = mm_count t) → keeps_count (modify f).
Proof. intros Hf t a t' [= _ <-]. apply Hf. Qed.

Create HintDb keeps.
#[local] Hint Resolve count_kept_ret count_kept_bind count_kept_gets keeps_deref keeps_assert keeps_modify : keeps.
#[local] Hint Extern 1 (mm_count _ = mm_count _) => reflexivity : keeps.

Lemma mm_map_count addr len flags : keeps_count (mm_map kmalloc addr len flags).
Proof.
  assert (∀ l x, keeps_count (find_in_list x l)) as Hfl.
  { induction l as [|p l IH]; intros x; cbn [find_in_list]; [auto with keeps|].
    apply count_kept_bind; [apply keeps_deref|]. intros v. destruct (contains v x); auto with keeps. }
  assert (∀ l x q, keeps_count (insert_walk x q l)) as Hiw.
  { induction l as [|p l IH]; intros x q; cbn [insert_walk]; [auto with keeps|].
    apply count_kept_bind; [apply keeps_deref|]. intros v. destruct (x <? vm_start v); auto with keeps. }
  assert (∀ v w, keeps_count (check_vma_overlap v w)) as Hco by (intros; unfold check_vma_overlap; auto with keeps).
  assert (∀ p, keeps_count (vma_at p)) as Hva by (intros; apply keeps_deref).
  assert (∀ x, keeps_count (find_vma x)) as Hfv.
  { intros x. unfold find_vma. apply count_kept_bind; [auto with keeps|]. intros c.
    apply count_kept_bind; [destruct c; auto with keeps|]. intros h. apply count_kept_bind; [auto with keeps|]. intros l.
    apply count_kept_bind; [destruct h; auto with keeps|]. intros [p|]; auto 6 with keeps. }
  assert (∀ p, keeps_count (insert_vma_struct p)) as Hins.
  { intros p. unfold insert_vma_struct. apply count_kept_bind; [auto|]. intros v. apply count_kept_bind; [auto with keeps|]. intros ?.
    apply count_kept_bind; [auto with keeps|]. intros l. apply count_kept_bind; [auto|]. intros [q1 q2]. cbn [fst snd].
    apply count_kept_bind; [destruct q1; auto with keeps|]. intros ?. apply count_kept_bind; [destruct q2; auto with keeps|].
    auto with keeps. }
  unfold mm_map. apply count_kept_bind; [auto with keeps|]. intros ?. destruct (negb _); [auto with keeps|].
  apply count_kept_bind; [auto|]. intros r. apply count_kept_bind; [destruct r; auto with keeps|]. intros [|]; [auto with keeps|].
  apply count_kept_bind.
  - unfold vma_create. apply count_kept_bind; [auto with keeps|]. intros [p|]; auto with keeps.
  - intros [p|]; auto with keeps.
Qed.

Hypothesis kmalloc_fresh : ∀ h p, kmalloc h = Some p → h !! p = None.
Hypothesis kmalloc_some : ∀ h, is_Some (kmalloc h).

(** The state with the machine [m], the areas [t] in address space [k] with directory [d], and the files [e]. *)
Definition with_space (s : xstate) (k d : Z) m (t : mm_struct) (e : F) : xstate :=
  mkX (mkAstate m (<[k := mkAspace t d false]> (mms (xa s))) (mm_of (xa s)) (cr3_of (xa s)) (swapq (xa s))) e (xtf s).

Lemma with_space_again s k d m t e m' t' e' : with_space (with_space s k d m t e) k d m' t' e' = with_space s k d m' t' e'.
Proof. unfold with_space. simpl. by rewrite insert_insert_eq. Qed.
Lemma st_with_space s k d m t e m' e' : st (with_space s k d m t e) m' e' = with_space s k d m' t e'.
Proof. done. Qed.

(** [mm_map] of a range of whole pages that is disjoint from the areas there are. *)
Lemma map_area s k d t addr len flags f l :
  mms (xa s) !! k = Some (mkAspace t d false) → mm_ok t →
  ROUNDDOWN addr PGSIZE = 4096 * f → ROUNDUP (u32 (addr + len)) PGSIZE = 4096 * l → 512 ≤ f < l → 4096 * l ≤ USERTOP →
  Forall (disjoint (mkVma (4096 * f) (4096 * l) flags 0)) (areas t) →
  ∃ p t', in_xa (in_mm k (mm_map kmalloc addr len flags)) s = Ret ((0, p), with_space s k d (amc (xa s)) t' (xf s)) ∧
    mm_ok t' ∧ areas t' ≡ₚ mkVma (4096 * f) (4096 * l) flags 0 :: areas t ∧ mm_count t' = mm_count t.
Proof using kmalloc_fresh kmalloc_some.
  intros Hk Ht Hs He Hfl Hl Hd.
  destruct (mm_map_correct kmalloc kmalloc_fresh t addr len flags Ht) as [_ Hmap].
  { rewrite Hs, He. unfold USER_ACCESS, USERBASE. unfold USERTOP in Hl |- *. rewrite !andb_true_iff, !Z.leb_le, Z.ltb_lt. lia. }
  rewrite Hs, He in Hmap. rewrite decide_True in Hmap by done. destruct Hmap as (p & t' & Hrun & Ht' & Hperm).
  - apply Forall_forall. intros v Hv. rewrite Forall_forall in Hd. specialize (Hd v Hv).
    pose proof (ordered_nonempty _ v (mo_ordered _ Ht) Hv) as Hne. unfold disjoint in Hd. simpl in Hd. unfold contains.
    apply andb_false_iff. rewrite Z.leb_gt, Z.ltb_ge. lia.
  - apply kmalloc_some.
  - exists (Some p), t'. split_and!; [|done|done|].
    + unfold in_xa, in_mm. rewrite (M_bind_step _ _ _ _ _ (space_at_run (xa s) k _ Hk)). cbn [a_mm a_pgdir a_locked].
      by rewrite Hrun.
    + by eapply mm_map_count.
Qed.

(** Room for a segment: its pages belong to user space and are not mapped, and its area meets no other. *)
Record seg_room m (d : Z) (t : mm_struct) (ph : proghdr) : Prop := {
  rm_pages w : seg_first ph ≤ w < seg_last ph → in_range w ∧ present (pte_at m d w) = false;
  rm_area : Forall (disjoint (seg_area ph)) (areas t) }.

Definition seg_pages (ph : proghdr) : nat := Z.to_nat (seg_last ph - seg_first ph).

(** The bytes of the segment are where the header says. *)
Definition seg_loaded (c : list Z) (ph : proghdr) m (d : Z) : Prop :=
  (∀ a, p_va ph ≤ a < p_va ph + p_memsz ph → user_byte m d a = Some (seg_byte c ph a)) ∧
  (∀ w, seg_first ph ≤ w < seg_last ph → present (pte_at m d w) = true ∧
     Z.land (pte_at m d w) PTE_USER = Z.lor PTE_P (seg_perm ph)).

Lemma seg_perm_user ph : Z.land (seg_perm ph) PTE_USER = seg_perm ph.
Proof. unfold seg_perm. by destruct (negb (Z.land (seg_flags ph) VM_WRITE =? 0)). Qed.

Lemma load_segment_run s k fd c ph d t :
  let m := amc (xa s) in
  mms (xa s) !! k = Some (mkAspace t d false) → mm_ok t → private m d → file_holds fd c (xf s) →
  Z.of_nat (length c) < 2 ^ 31 → is_bytes c → seg_ok c ph → seg_room m d t ph →
  (2 * seg_pages ph ≤ size (pm_free (pm m)))%nat →
  ∃ m' t' e', load_segment k fd ph s = Ret (0, with_space s k d m' t' e') ∧ file_holds fd c e' ∧
    mm_ok t' ∧ areas t' ≡ₚ seg_area ph :: areas t ∧ mm_count t' = mm_count t ∧
    laid d (seg_first ph) (seg_last ph) (seg_perm ph) (seg_byte c ph) (p_va ph) (p_va ph + p_memsz ph) m m'.
Proof using kmalloc_fresh kmalloc_some.
  intros m Hk Ht Hpv Hc Hmax Hcb Hok [Hr Ha] Hsz. pose proof (sg_size _ _ Hok) as Hsize. pose proof (sg_file _ _ Hok) as Hfile.
  destruct (seg_bounds c ph Hok) as (Hf0 & Hf & Hl & Hfl & Hl0 & Hrd & Hru & Hu & Huf & Hfuel).
  destruct (map_area s k d t (p_va ph) (p_memsz ph) (seg_flags ph) (seg_first ph) (seg_last ph)) as (q & t1 & Hmap & Ht1 & Hperm & Hcnt);
    try done; [unfold USERTOP; lia|].
  set (s1 := with_space s k d m t1 (xf s)). set (v1 := (p_va ph + p_filesz ph - 1) / 4096 + 1).
  assert (4096 * (v1 - 1) ≤ p_va ph + p_filesz ph - 1 < 4096 * v1) as Hv1.
  { unfold v1. pose proof (Z.div_mod (p_va ph + p_filesz ph - 1) 4096). pose proof (Z.mod_pos_bound (p_va ph + p_filesz ph - 1) 4096). lia. }
  unfold seg_pages in Hsz.
  destruct (text_loop_run (seg_fuel ph) s1 c d fd (seg_perm ph) (p_va ph + p_filesz ph) (p_va ph) (seg_first ph) (p_offset ph) None (seg_byte c ph))
    as (p & m2 & e2 & Htext & Hc2 & Hld & Hp & Hpf); fold v1; try done; try lia.
  { unfold USERTOP. lia. }
  { intros w Hw. apply Hr. lia. }
  { change (amc (xa s1)) with m. lia. }
  { apply seg_perm_range. }
  { intros a Haa. unfold seg_byte. by rewrite decide_True by lia. }
  fold v1 in Htext, Hld, Hp. change (amc (xa s1)) with m in Hld, Hpf.
  destruct (seg_tail_run (st s1 m2 e2) c ph d m p Hok) as (m' & Htail & Hld'); try done.
  exists m', t1, e2. split_and!; try done.
  unfold load_segment. rewrite (sg_type _ _ Hok). change (negb (ELF_PT_LOAD =? ELF_PT_LOAD)) with false. cbv iota.
  rewrite (proj2 (Z.ltb_ge _ _)), (proj2 (Z.eqb_neq _ _)) by lia.
  step using (exact Hmap). cbv beta iota. change (negb (0 =? 0)) with false. cbv iota. fold m s1.
  assert (in_xa (space_at k) s1 = Ret (mkAspace t1 d false, s1)) as Hsp.
  { unfold in_xa. rewrite (space_at_run (xa s1) k (mkAspace t1 d false)); [by destruct s1 as [[]]|apply lookup_insert_eq]. }
  step using (exact Hsp). cbv zeta. cbn [a_pgdir]. rewrite Huf, Hrd, s32_small by lia.
  step using (exact Htext). cbv beta iota. change (negb (0 =? 0)) with false. cbv iota.
  fold v1 in Htail. rewrite Htail. done.
Qed.

(** ** All segments *)

(** The segments that an ELF file asks to be loaded, among a list of headers. *)
Definition segments (hs : list proghdr) : list proghdr := filter (λ ph, p_type ph = ELF_PT_LOAD) hs.

Fixpoint separate (hs : list proghdr) : Prop :=
  match hs with
  | [] => True
  | ph :: hs' => Forall (λ q, seg_last ph ≤ seg_first q ∨ seg_last q ≤ seg_first ph) hs' ∧ separate hs'
  end.

Definition in_segs (hs : list proghdr) (w : Z) : Prop := Exists (λ ph, seg_first ph ≤ w < seg_last ph) hs.
Definition total_pages (hs : list proghdr) : nat := foldr (λ ph n, seg_pages ph + n)%nat 0%nat hs.

Record all_loaded (c : list Z) (hs : list proghdr) (d : Z) m m' : Prop := {
  al_private : private m' d;
  al_grow : grow ∅ d m m';
  al_pte w : in_range w → ¬ in_segs hs w → pte_at m' d w = pte_at m d w;
  al_same a : in_range (vpn a) → ¬ in_segs hs (vpn a) → user_byte m' d a = user_byte m d a;
  al_fresh w : in_segs hs w → frame_of (pte_at m' d w) ∈ pm_free (pm m);
  al_segs : Forall (λ ph, seg_loaded c ph m' d) hs;
  al_cost : (size (pm_free (pm m)) ≤ 2 * total_pages hs + size (pm_free (pm m')))%nat }.

Lemma seg_loaded_keep c ph m m' d :
  seg_ok c ph → seg_loaded c ph m d → (∀ w, seg_first ph ≤ w < seg_last ph → pte_at m' d w = pte_at m d w) →
  (∀ a, seg_first ph ≤ vpn a < seg_last ph → user_byte m' d a = user_byte m d a) → seg_loaded c ph m' d.
Proof.
  intros Hok [H1 H2] Hp Ha. split.
  - intros a Haa. rewrite Ha; [by apply H1|]. destruct (seg_bounds c ph Hok) as (_ & Hf & Hl & _).
    unfold vpn. split; [apply Z.div_le_lower_bound|apply Z.div_lt_upper_bound]; lia.
  - intros w Hw. rewrite Hp by done. by apply H2.
Qed.

Lemma all_loaded_cons c ph hs d m m1 m2 :
  seg_ok c ph → Forall (λ q, seg_last ph ≤ seg_first q ∨ seg_last q ≤ seg_first ph) hs →
  laid d (seg_first ph) (seg_last ph) (seg_perm ph) (seg_byte c ph) (p_va ph) (p_va ph + p_memsz ph) m m1 →
  all_loaded c hs d m1 m2 → all_loaded c (ph :: hs) d m m2.
Proof.
  intros Hok Hsep Hld Hal.
  assert (∀ w, seg_first ph ≤ w < seg_last ph → in_range w ∧ ¬ in_segs hs w) as Hdis.
  { intros w Hw. split; [by apply (ld_range _ _ _ _ _ _ _ _ _ Hld)|]. intros Hin. apply Exists_exists in Hin as (q & Hq & Hwq).
    rewrite Forall_forall in Hsep. specialize (Hsep q Hq). lia. }
  split.
  - apply (al_private _ _ _ _ _ Hal).
  - eapply grow_trans; [apply (ld_grow _ _ _ _ _ _ _ _ _ Hld)|apply (al_grow _ _ _ _ _ Hal)].
  - intros w Hw Hn. unfold in_segs in Hn. rewrite Exists_cons in Hn. rewrite (al_pte _ _ _ _ _ Hal); [|done|by intros ?; apply Hn; right].
    apply (ld_pte _ _ _ _ _ _ _ _ _ Hld); [done|]. by intros ?; apply Hn; left.
  - intros a Ha Hn. unfold in_segs in Hn. rewrite Exists_cons in Hn. rewrite (al_same _ _ _ _ _ Hal); [|done|by intros ?; apply Hn; right].
    apply (ld_same _ _ _ _ _ _ _ _ _ Hld); [done|]. by intros ?; apply Hn; left.
  - intros w Hw. apply Exists_cons in Hw as [Hw|Hw].
    + destruct (Hdis w Hw) as [Hwr Hwn]. rewrite (al_pte _ _ _ _ _ Hal) by done. by apply (ld_fresh _ _ _ _ _ _ _ _ _ Hld).
    + apply (gr_free _ _ _ _ _ _ (ld_grow _ _ _ _ _ _ _ _ _ Hld)). by apply (al_fresh _ _ _ _ _ Hal).
  - constructor; [|apply Hal]. apply (seg_loaded_keep c ph m1); [done| | |].
    + split; [apply (ld_bytes _ _ _ _ _ _ _ _ _ Hld)|]. intros w Hw. rewrite <-(seg_perm_user ph).
      by apply (ld_perm _ _ _ _ _ _ _ _ _ Hld).
    + intros w Hw. by apply (al_pte _ _ _ _ _ Hal); apply Hdis.
    + intros a Ha. by apply (al_same _ _ _ _ _ Hal); apply Hdis.
  - pose proof (ld_cost _ _ _ _ _ _ _ _ _ Hld). pose proof (al_cost _ _ _ _ _ Hal). simpl. unfold seg_pages. lia.
Qed.

Definition header (c : list Z) (elf : elfhdr) (i : Z) : proghdr := ph_of (slice c (e_phoff elf + sizeof_proghdr * i) sizeof_proghdr).

Lemma load_segments_run n : ∀ s k fd c elf i d t,
  let m := amc (xa s) in let hs := segments (header c elf <$> seqZ i (Z.of_nat n)) in
  mms (xa s) !! k = Some (mkAspace t d false) → mm_ok t → private m d → file_holds fd c (xf s) →
  Z.of_nat (length c) < 2 ^ 31 → is_bytes c → 0 ≤ i → 0 ≤ e_phoff elf →
  e_phoff elf + sizeof_proghdr * (i + Z.of_nat n) ≤ Z.of_nat (length c) →
  Forall (seg_ok c) hs → separate hs → Forall (seg_room m d t) hs →
  (2 * total_pages hs ≤ size (pm_free (pm m)))%nat →
  ∃ m' t' e', load_segments n k fd elf i s = Ret (0, with_space s k d m' t' e') ∧ file_holds fd c e' ∧
    mm_ok t' ∧ areas t' ≡ₚ (seg_area <$> hs) ++ areas t ∧ mm_count t' = mm_count t ∧ all_loaded c hs d m m'.
Proof using kmalloc_fresh kmalloc_some.
  induction n as [|n IH]; intros s k fd c elf i d t m hs Hk Ht Hpv Hc Hmax Hcb Hi Hph Hin Hoks Hsep Hroom Hsz.
  { exists m, t, (xf s). split_and!; try done.
    - cbn [load_segments]. unfold with_space, m. rewrite insert_id by done. by destruct s as [[]].
    - split; [done|by apply grow_refl, Hpv|done|done| |constructor|cbn; lia]. intros w Hw. by apply Exists_nil in Hw. }
  cbn [load_segments]. unfold sizeof_proghdr in Hin.
  destruct (load_icode_read_run s fd c (e_phoff elf + sizeof_proghdr * i) sizeof_proghdr) as (e1 & Hread & Hc1);
    unfold sizeof_proghdr; try done; try lia.
  assert (seqZ i (Z.of_nat (Datatypes.S n)) = i :: seqZ (Z.succ i) (Z.of_nat n)) as Hseq.
  { rewrite seqZ_cons by lia. by replace (Z.pred (Z.of_nat (Datatypes.S n))) with (Z.of_nat n) by lia. }
  unfold hs in *. clear hs. rewrite Hseq, fmap_cons in Hoks, Hsep, Hroom, Hsz |- *. set (ph := header c elf i) in *.
  set (rest := header c elf <$> seqZ (Z.succ i) (Z.of_nat n)) in *.
  rewrite s32_small by (unfold sizeof_proghdr; lia). step using (exact Hread). cbv beta iota. fold (header c elf i) ph.
  change (negb (0 =? 0)) with false. cbv iota. set (s1 := st s (amc (xa s)) e1).
  assert (xa s1 = xa s) as Hxa by (unfold s1, st; simpl; by destruct (xa s)).
  unfold segments in Hoks, Hsep, Hroom, Hsz |- *. rewrite filter_cons in Hoks, Hsep, Hroom, Hsz |- *.
  destruct (decide (p_type ph = ELF_PT_LOAD)) as [Hno|Hyes].
  - (* a segment *)
    fold (segments rest) in Hoks, Hsep, Hroom, Hsz |- *. apply Forall_cons in Hoks as [Hok Hoks]. destruct Hsep as [Hsep1 Hsep].
    apply Forall_cons in Hroom as [Hrm Hroom]. cbn [total_pages foldr] in Hsz. fold (total_pages (segments rest)) in Hsz.
    destruct (load_segment_run s1 k fd c ph d t) as (m1 & t1 & e2 & Hrun & Hc2 & Ht1 & Hperm & Hcnt & Hld); rewrite ?Hxa; fold m; try done; [lia|].
    rewrite Hxa in Hld. fold m in Hld.
    assert (with_space s1 k d m1 t1 e2 = with_space s k d m1 t1 e2) as Hws by (unfold with_space; by rewrite Hxa).
    rewrite Hws in Hrun. step using (exact Hrun). change (negb (0 =? 0)) with false. cbv iota.
    destruct (IH (with_space s k d m1 t1 e2) k fd c elf (i + 1) d t1) as (m' & t' & e' & Hrun' & Hc' & Ht' & Hperm' & Hcnt' & Hal);
      change (amc (xa (with_space s k d m1 t1 e2))) with m1; fold (Z.succ i) in *; fold rest; fold m; unfold sizeof_proghdr; try done; try lia.
    + apply lookup_insert_eq.
    + apply Hld.
    + apply Forall_forall. intros q Hq. rewrite Forall_forall in Hroom, Hsep1. specialize (Hsep1 q Hq). destruct (Hroom q Hq) as [R1 R2]. split.
      * intros w Hw. destruct (R1 w Hw) as [Hwr Hwa]. split; [done|]. rewrite (ld_pte _ _ _ _ _ _ _ _ _ Hld); [done|done|lia].
      * rewrite Hperm. constructor; [|done]. unfold disjoint, seg_area. simpl. lia.
    + pose proof (ld_cost _ _ _ _ _ _ _ _ _ Hld). unfold seg_pages in Hsz. lia.
    + exists m', t', e'. split_and!; try done.
      * by rewrite Hrun', with_space_again.
      * rewrite Hperm', Hperm. simpl. by rewrite Permutation_middle.
      * congruence.
      * by eapply all_loaded_cons.
  - (* no segment *)
    fold (segments rest) in Hoks, Hsep, Hroom, Hsz |- *.
    assert (load_segment k fd ph s1 = Ret (0, s1)) as Hskip.
    { unfold load_segment. by rewrite (proj2 (Z.eqb_neq _ _) Hyes). }
    step using (exact Hskip). change (negb (0 =? 0)) with false. cbv iota.
    destruct (IH s1 k fd c elf (i + 1) d t) as (m' & t' & e' & Hrun' & Hrest); rewrite ?Hxa; fold (Z.succ i) in *; fold rest; fold m; unfold sizeof_proghdr; try done; try lia.
    rewrite Hxa in Hrest. exists m', t', e'. split; [|done]. rewrite Hrun'. unfold with_space. by rewrite Hxa.
Qed.

(** ** The stack *)

Definition stack_first : Z := 0xAFF00.
Definition stack_last : Z := 0xB0000.
Definition stack_area : vma_struct := mkVma (USTACKTOP - USTACKSIZE) USTACKTOP (Z.lor (Z.lor VM_READ VM_WRITE) VM_STACK) 0.

(** Pages that were mapped from the top down. *)
Lemma laid_down d v k v' perm g m m1 m2 :
  v ≤ k ≤ v' → (∀ w, k ≤ w < v' → in_range w) →
  laid d k v' perm g 0 0 m m1 → laid d v k perm g 0 0 m1 m2 → laid d v v' perm g 0 0 m m2.
Proof.
  intros Hk Hr H1 H2. split.
  - apply (ld_private _ _ _ _ _ _ _ _ _ H2).
  - eapply grow_trans; [apply (ld_grow _ _ _ _ _ _ _ _ _ H1)|apply (ld_grow _ _ _ _ _ _ _ _ _ H2)].
  - intros w Hw Hn. rewrite (ld_pte _ _ _ _ _ _ _ _ _ H2), (ld_pte _ _ _ _ _ _ _ _ _ H1); [done|done|lia|done|lia].
  - intros w Hw. destruct (decide (w < k)); [apply (ld_range _ _ _ _ _ _ _ _ _ H2); lia|apply Hr; lia].
  - intros w Hw. destruct (decide (w < k)) as [Hlt|Hge].
    + apply (gr_free _ _ _ _ _ _ (ld_grow _ _ _ _ _ _ _ _ _ H1)). apply (ld_fresh _ _ _ _ _ _ _ _ _ H2). lia.
    + rewrite (ld_pte _ _ _ _ _ _ _ _ _ H2); [|apply Hr; lia|lia]. apply (ld_fresh _ _ _ _ _ _ _ _ _ H1). lia.
  - intros w Hw. destruct (decide (w < k)); [apply (ld_perm _ _ _ _ _ _ _ _ _ H2); lia|].
    rewrite (ld_pte _ _ _ _ _ _ _ _ _ H2); [apply (ld_perm _ _ _ _ _ _ _ _ _ H1); lia|apply Hr; lia|lia].
  - intros a Ha. lia.
  - intros a Ha Hn. rewrite (ld_same _ _ _ _ _ _ _ _ _ H2), (ld_same _ _ _ _ _ _ _ _ _ H1); [done|done|lia|done|lia].
  - pose proof (ld_cost _ _ _ _ _ _ _ _ _ H1). pose proof (ld_cost _ _ _ _ _ _ _ _ _ H2). lia.
Qed.

Lemma laid_no_bytes d v v' perm g a0 a1 m m' : laid d v v' perm g a0 a1 m m' → laid d v v' perm g 0 0 m m'.
Proof. intros []. split; try done. intros a Ha. lia. Qed.

Lemma stack_pages_run n : ∀ s d i,
  let m := amc (xa s) in
  private m d → 1 ≤ i → i + Z.of_nat n ≤ 257 →
  (∀ w, stack_last - i - Z.of_nat n < w ≤ stack_last - i → in_range w ∧ present (pte_at m d w) = false) →
  (2 * n ≤ size (pm_free (pm m)))%nat →
  ∃ m', stack_pages n d i s = Ret (tt, st s m' (xf s)) ∧
    laid d (stack_last - i - Z.of_nat n + 1) (stack_last - i + 1) PTE_USER (λ _, 0) 0 0 m m'.
Proof.
  induction n as [|n IH]; intros s d i m Hpv Hi Hn Hr Hsz.
  { exists m. split.
    - cbn [stack_pages]. unfold st, m. destruct s as [[] ? ?]. done.
    - replace (stack_last - i - Z.of_nat 0 + 1) with (stack_last - i + 1) by lia. by apply laid_none. }
  unfold stack_last in *. set (v := 0xB0000 - i) in *. destruct (Hr v) as [Hvr Hva]; [unfold v; lia|].
  destruct (page_laid m d v PTE_USER 0 [] (λ _, 0)) as (p & m1 & Hal & HK & Hpf & Hfr & _ & Hld).
  all: try (cbn [length]; unfold is_bytes, PTE_USER; first [done|constructor; done|unfold v; lia|intros; lia]).
  change (put_bytes p 0 [] m1) with m1 in *. apply laid_no_bytes in Hld.
  destruct (IH (st s m1 (xf s)) d (i + 1)) as (m' & Hrun & Hld'); cbn [xa st amc set_amc]; try lia.
  - apply (ld_private _ _ _ _ _ _ _ _ _ Hld).
  - intros w Hw. destruct (Hr w) as [Hwr Hwa]; [lia|]. split; [done|].
    rewrite (ld_pte _ _ _ _ _ _ _ _ _ Hld); [done|done|]. unfold v in *. lia.
  - pose proof (ld_cost _ _ _ _ _ _ _ _ _ Hld). replace (v + 1 - v) with 1 in * by lia. lia.
  - exists m'. split.
    + cbn [stack_pages]. replace (USTACKTOP - i * PGSIZE) with (4096 * v) by (unfold USTACKTOP, USERTOP, PGSIZE, v; lia).
      step using (unfold page_at; apply in_xm_run; exact Hal). cbv iota. by rewrite Hrun, st_st.
    + cbn [xa st amc set_amc] in Hld'. apply (laid_down d _ v (v + 1) PTE_USER _ m m1 m'); [unfold v; lia| |done|].
      * intros w Hw. by replace w with v by lia.
      * replace (0xB0000 - (i + 1) - Z.of_nat n + 1) with (v - Z.of_nat (Datatypes.S n) + 1) in Hld' by (unfold v; lia).
        by replace (0xB0000 - (i + 1) + 1) with v in Hld' by (unfold v; lia).
Qed.

(** ** Stores through the directory in use *)

(** The bytes [l] were stored at [a]. *)
Record stored (d a : Z) (l : list Z) m m' : Prop := {
  sd_private : private m' d;
  sd_pm : pm m' = pm m ∧ cr3 m' = cr3 m ∧ npage m' = npage m ∧ swap_init_ok m' = swap_init_ok m;
  sd_pte v : in_range v → pte_at m' d v = pte_at m d v;
  sd_bytes x : in_range (vpn x) → user_byte m' d x =
    if decide (a ≤ x < a + Z.of_nat (length l)) then Some (l !!! Z.to_nat (x - a)) else user_byte m d x;
  sd_other f i : (∀ x, a ≤ x < a + Z.of_nat (length l) → frame_of (pte_at m d (vpn x)) ≠ f) → read m' (f, i) = read m (f, i) }.

Lemma store_byte_run m d a b :
  private m d → cr3 m = d → in_range (vpn a) → present (pte_at m d (vpn a)) = true → 0 ≤ b < 256 →
  user_store_byte a b m = Ret (tt, put_byte (frame_of (pte_at m d (vpn a))) (a mod 4096) b m) ∧
  stored d a [b] m (put_byte (frame_of (pte_at m d (vpn a))) (a mod 4096) b m).
Proof.
  intros [Hok Hinj] Hcr Ha Hp Hb. set (p := frame_of (pte_at m d (vpn a))) in *. split.
  { unfold user_store_byte. step using reflexivity. by rewrite Hcr, Hp. }
  destruct (so_map _ _ _ _ Hok _ Ha Hp) as [Hu Hd]. fold p in Hu, Hd.
  destruct (put_bytes_words p (a mod 4096) [b] m) as (w & Hw & Hread). cbn [put_bytes] in Hw.
  destruct (data_words lo hi m d p w Hok Hd Hread) as (Hg & _ & Hpt). rewrite <-Hw in Hg, Hpt, Hread.
  set (m2 := put_byte p (a mod 4096) b m) in *.
  pose proof (Z.mod_pos_bound a 4096 ltac:(lia)) as Hmod.
  split.
  - split; [apply Hg|]. intros x y Hx Hy. rewrite !Hpt by done. by apply Hinj.
  - by rewrite Hw.
  - done.
  - intros x Hx. unfold user_byte. rewrite Hpt by done. cbn [length].
    destruct (present (pte_at m d (vpn x))) eqn:Hpx.
    + unfold m2. rewrite frame_byte_put; [|lia|apply Z.mod_pos_bound; lia|lia].
      destruct (decide (x = a)) as [->|Hxa].
      * rewrite decide_True by done. rewrite decide_True by lia. by rewrite Z.sub_diag.
      * rewrite (decide_False (P := a ≤ x < a + Z.of_nat 1)) by lia. rewrite decide_False; [done|].
        intros [Hf Hm]. apply Hxa. unfold p in Hf. apply Hinj in Hf; [|done..]. unfold vpn in Hf.
        rewrite (Z.div_mod x 4096), (Z.div_mod a 4096) by lia. congruence.
    + rewrite decide_False; [done|]. intros Hxa. replace x with a in Hpx by lia. congruence.
  - intros f i Hf. apply Hread. intros ->. apply (Hf a); [cbn; lia|done].
Qed.

Lemma stored_trans d a b l m m1 m2 :
  is_bytes l → stored d a [b] m m1 → stored d (a + 1) l m1 m2 →
  (∀ x, a ≤ x < a + 1 + Z.of_nat (length l) → in_range (vpn x)) → stored d a (b :: l) m m2.
Proof.
  intros Hl H1 H2 Hr. destruct (sd_pm _ _ _ _ _ H1) as (P1 & P2 & P3 & P4). destruct (sd_pm _ _ _ _ _ H2) as (Q1 & Q2 & Q3 & Q4). split.
  - apply H2.
  - split_and!; congruence.
  - intros v Hv. by rewrite (sd_pte _ _ _ _ _ H2), (sd_pte _ _ _ _ _ H1).
  - intros x Hx. rewrite (sd_bytes _ _ _ _ _ H2), (sd_bytes _ _ _ _ _ H1) by done. cbn [length].
    destruct (decide (x = a)) as [->|Hne].
    + rewrite decide_False, decide_True, decide_True by lia. by rewrite Z.sub_diag.
    + destruct (decide (a + 1 ≤ x < a + 1 + Z.of_nat (length l))).
      * rewrite decide_True by lia. replace (Z.to_nat (x - a)) with (Datatypes.S (Z.to_nat (x - (a + 1)))) by lia. done.
      * rewrite decide_False, decide_False by lia. done.
  - intros f i Hf. cbn [length] in Hf. rewrite (sd_other _ _ _ _ _ H2), (sd_other _ _ _ _ _ H1); [done| |].
    + intros x Hx. cbn [length] in Hx. apply Hf. lia.
    + intros x Hx. rewrite (sd_pte _ _ _ _ _ H1); [apply Hf; lia|apply Hr; lia].
Qed.

Lemma user_store_run l : ∀ m d a,
  private m d → cr3 m = d → is_bytes l → 0 ≤ a → a + Z.of_nat (length l) < 2 ^ 32 →
  (∀ x, a ≤ x < a + Z.of_nat (length l) → in_range (vpn x) ∧ present (pte_at m d (vpn x)) = true) →
  ∃ m', user_store a l m = Ret (tt, m') ∧ stored d a l m m'.
Proof.
  induction l as [|b l IH]; intros m d a Hpv Hcr Hl Ha Hlen Hr.
  { exists m. split; [done|]. split; try done. intros x Hx. rewrite decide_False; [done|]. simpl. lia. }
  apply Forall_cons in Hl as [Hb Hl]. cbn [length] in Hlen, Hr. destruct (Hr a ltac:(lia)) as [Har Hap].
  destruct (store_byte_run m d a b Hpv Hcr Har Hap Hb) as [Hrun Hst]. set (m1 := put_byte _ _ _ m) in *.
  destruct (IH m1 d (a + 1)) as (m' & Hrun' & Hst'); [apply Hst|by destruct (sd_pm _ _ _ _ _ Hst) as (_ & -> & _)|done|lia|lia| |].
  { intros x Hx. destruct (Hr x) as [Hxr Hxp]; [lia|]. split; [done|]. by rewrite (sd_pte _ _ _ _ _ Hst). }
  exists m'. split.
  - cbn [user_store]. step using (exact Hrun). rewrite u32_small by lia. exact Hrun'.
  - eapply stored_trans; [done|exact Hst|exact Hst'|]. intros x Hx. apply Hr. lia.
Qed.

(** ** The arguments *)

(** Only bytes at addresses of [Q] have changed, in the pages [vb .. ve - 1]. *)
Record touched (d vb ve : Z) (Q : Z → Prop) m m' : Prop := {
  tc_private : private m' d;
  tc_pm : pm m' = pm m ∧ cr3 m' = cr3 m ∧ npage m' = npage m ∧ swap_init_ok m' = swap_init_ok m;
  tc_pte v : in_range v → pte_at m' d v = pte_at m d v;
  tc_same x : in_range (vpn x) → ¬ Q x → user_byte m' d x = user_byte m d x;
  tc_other f i : (∀ w, vb ≤ w < ve → frame_of (pte_at m d w) ≠ f) → read m' (f, i) = read m (f, i) }.

Definition user_bytes m (d a : Z) (l : list Z) : Prop :=
  ∀ j, 0 ≤ j < Z.of_nat (length l) → user_byte m d (a + j) = Some (l !!! Z.to_nat j).

Definition writable m (d vb ve : Z) : Prop := ∀ w, vb ≤ w < ve → in_range w ∧ present (pte_at m d w) = true.

Lemma page_of_addr vb ve x : 4096 * vb ≤ x < 4096 * ve → vb ≤ vpn x < ve.
Proof. intros. unfold vpn. split; [apply Z.div_le_lower_bound|apply Z.div_lt_upper_bound]; lia. Qed.

Lemma touched_trans d vb ve (Q R P : Z → Prop) m m1 m2 :
  writable m d vb ve → (∀ x, Q x → P x) → (∀ x, R x → P x) →
  touched d vb ve Q m m1 → touched d vb ve R m1 m2 → touched d vb ve P m m2.
Proof.
  intros Hw HQ HR H1 H2. destruct (tc_pm _ _ _ _ _ _ H1) as (P1 & P2 & P3 & P4). destruct (tc_pm _ _ _ _ _ _ H2) as (Q1 & Q2 & Q3 & Q4). split.
  - apply (tc_private _ _ _ _ _ _ H2).
  - split_and!; congruence.
  - intros v Hv. by rewrite (tc_pte _ _ _ _ _ _ H2), (tc_pte _ _ _ _ _ _ H1).
  - intros x Hx Hn. rewrite (tc_same _ _ _ _ _ _ H2), (tc_same _ _ _ _ _ _ H1); auto.
  - intros f i Hf. rewrite (tc_other _ _ _ _ _ _ H2), (tc_other _ _ _ _ _ _ H1); [done|done|].
    intros w Hww. rewrite (tc_pte _ _ _ _ _ _ H1) by (by apply Hw). by apply Hf.
Qed.

Lemma touched_writable d vb ve Q m m' : touched d vb ve Q m m' → writable m d vb ve → writable m' d vb ve.
Proof. intros H Hw w Hww. destruct (Hw w Hww) as [H1 H2]. split; [done|]. by rewrite (tc_pte _ _ _ _ _ _ H). Qed.

Lemma in_xm_store s d vb ve a l :
  let m := amc (xa s) in
  private m d → cr3 m = d → writable m d vb ve → is_bytes l → 0 ≤ vb → 4096 * vb ≤ a →
  a + Z.of_nat (length l) ≤ 4096 * ve → 4096 * ve < 2 ^ 32 →
  ∃ m', in_xm (user_store a l) s = Ret (tt, st s m' (xf s)) ∧ user_bytes m' d a l ∧
    touched d vb ve (λ x, a ≤ x < a + Z.of_nat (length l)) m m'.
Proof.
  intros m Hpv Hcr Hw Hl Hvb Ha Hend Hve.
  assert (∀ x, a ≤ x < a + Z.of_nat (length l) → vb ≤ vpn x < ve) as Hpg by (intros x Hx; apply page_of_addr; lia).
  destruct (user_store_run l m d a) as (m' & Hrun & Hst); try done; try lia.
  { intros x Hx. apply Hw, Hpg, Hx. }
  exists m'. split_and!; [by apply in_xm_run| |].
  - intros j Hj. rewrite (sd_bytes _ _ _ _ _ Hst) by (apply Hw, Hpg; lia). rewrite decide_True by lia. do 2 f_equal. f_equal. lia.
  - split; try apply Hst.
    + intros x Hx Hn. rewrite (sd_bytes _ _ _ _ _ Hst) by done. by rewrite decide_False.
    + intros f i Hf. apply (sd_other _ _ _ _ _ Hst). intros x Hx. apply Hf, Hpg, Hx.
Qed.

Lemma user_bytes_keep d vb ve Q m m' a l :
  touched d vb ve Q m m' → writable m d vb ve → 4096 * vb ≤ a → a + Z.of_nat (length l) ≤ 4096 * ve →
  (∀ x, a ≤ x < a + Z.of_nat (length l) → ¬ Q x) → user_bytes m d a l → user_bytes m' d a l.
Proof.
  intros Ht Hw Ha Hl Hq H j Hj. rewrite (tc_same _ _ _ _ _ _ Ht); [by apply H| |apply Hq; lia].
  apply Hw, page_of_addr. lia.
Qed.

(** The bytes that the arguments take with their ends. *)
Definition args_size (l : list (list Z)) : Z := foldr (λ str n, Z.of_nat (length str) + 1 + n) 0 l.
Definition arg_ok (str : list Z) : Prop := is_bytes str ∧ Z.of_nat (length str) ≤ EXEC_MAX_ARG_LEN.

Lemma arg_len_ok str : arg_ok str → arg_len str = Z.of_nat (length str).
Proof. intros [_ H]. unfold arg_len. lia. Qed.

Lemma args_size_nonneg l : 0 ≤ args_size l.
Proof. induction l as [|str l IH]; cbn [args_size foldr]; [lia|]. fold (args_size l). lia. Qed.

Lemma argv_total_run l : ∀ n, Forall arg_ok l → 0 ≤ n → n + args_size l < 2 ^ 32 → argv_total l n = n + args_size l.
Proof.
  induction l as [|str l IH]; intros n Hl Hn Hb; cbn [argv_total args_size foldr] in *; [lia|]. fold (args_size l) in *.
  apply Forall_cons in Hl as [Hstr Hl]. pose proof (args_size_nonneg l). rewrite (arg_len_ok str Hstr), u32_small by lia.
  rewrite IH by (done || lia). lia.
Qed.

Lemma le_is_bytes n x : is_bytes (SfsDisk.le n x).
Proof. revert x. induction n as [|n IH]; intros x; cbn [SfsDisk.le]; constructor; [apply Z.mod_pos_bound; lia|apply IH]. Qed.

Lemma put_args_run l : ∀ s d vb ve i uargv top asz,
  let m := amc (xa s) in
  private m d → cr3 m = d → writable m d vb ve → Forall arg_ok l → 0 ≤ vb → 0 ≤ i → 0 ≤ asz →
  4096 * vb ≤ uargv → uargv + 4 * (i + Z.of_nat (length l)) ≤ top → top + asz + args_size l ≤ 4096 * ve → 4096 * ve < 2 ^ 32 →
  ∃ m', put_args l i uargv top asz s = Ret (tt, st s m' (xf s)) ∧
    touched d vb ve (λ x, uargv + 4 * i ≤ x < uargv + 4 * (i + Z.of_nat (length l)) ∨ top + asz ≤ x < top + asz + args_size l) m m' ∧
    ∀ j str, l !! j = Some str →
      user_bytes m' d (top + asz + args_size (take j l)) (str ++ [0]) ∧
      user_bytes m' d (uargv + 4 * (i + Z.of_nat j)) (SfsDisk.le 4 (top + asz + args_size (take j l))).
Proof.
  induction l as [|str l IH]; intros s d vb ve i uargv top asz m Hpv Hcr Hw Hl Hvb Hi Hasz Hua Hut Htop Hve.
  { exists m. split_and!; [|by split|done]. cbn [put_args]. unfold st, m. by destruct s as [[] ? ?]. }
  apply Forall_cons in Hl as [Hstr Hl]. cbn [length args_size foldr] in *. fold (args_size l) in *. pose proof (args_size_nonneg l) as Hnn.
  pose proof (arg_len_ok str Hstr) as Hal. destruct Hstr as [Hstr _].
  assert (Z.of_nat (length (str ++ [0])) = Z.of_nat (length str) + 1) as Hlen by (rewrite length_app; simpl; lia).
  assert (Z.of_nat (length (SfsDisk.le 4 (top + asz))) = 4) as Hlen4 by reflexivity.
  destruct (in_xm_store s d vb ve (top + asz) (str ++ [0])) as (m1 & Hrun1 & Hb1 & Ht1); rewrite ?Hlen; try done; try lia.
  { apply Forall_app. split; [done|]. repeat constructor; lia. }
  rewrite Hlen in Ht1. pose proof (touched_writable _ _ _ _ _ _ Ht1 Hw) as Hw1. destruct (tc_pm _ _ _ _ _ _ Ht1) as (_ & Hcr1 & _).
  destruct (in_xm_store (st s m1 (xf s)) d vb ve (uargv + 4 * i) (SfsDisk.le 4 (top + asz))) as (m2 & Hrun2 & Hb2 & Ht2);
    cbn [xa st amc set_amc]; rewrite ?Hlen4; try done; try lia; [apply (tc_private _ _ _ _ _ _ Ht1)|by rewrite Hcr1|apply le_is_bytes|].
  cbn [xa st amc set_amc xf] in Hrun2, Ht2. rewrite Hlen4 in Ht2. rewrite st_st in Hrun2.
  pose proof (touched_writable _ _ _ _ _ _ Ht2 Hw1) as Hw2. destruct (tc_pm _ _ _ _ _ _ Ht2) as (_ & Hcr2 & _).
  destruct (IH (st s m2 (xf s)) d vb ve (i + 1) uargv top (asz + (Z.of_nat (length str) + 1))) as (m' & Hrun & Ht & Hargs);
    cbn [xa st amc set_amc xf]; try done; try lia; [apply (tc_private _ _ _ _ _ _ Ht2)|by rewrite Hcr2, Hcr1|].
  cbn [xa st amc set_amc xf] in Hrun, Ht, Hargs. rewrite st_st in Hrun. exists m'. split_and!.
  - cbn [put_args]. rewrite Hal, !u32_small by lia. step using (exact Hrun1). step using (exact Hrun2). exact Hrun.
  - set (R := λ x, uargv + 4 * i ≤ x < uargv + 4 * (i + Z.of_nat (Datatypes.S (length l))) ∨
      top + asz ≤ x < top + asz + (Z.of_nat (length str) + 1 + args_size l)).
    assert (touched d vb ve R m1 m') as HR by (eapply touched_trans; [exact Hw1| | |exact Ht2|exact Ht]; unfold R; cbv beta; intros x Hx; lia).
    eapply touched_trans; [exact Hw| | |exact Ht1|exact HR]; unfold R; cbv beta; intros x Hx; lia.
  - intros j str' Hj. destruct j as [|j]; cbn in Hj.
    + injection Hj as <-. cbn [take args_size foldr]. rewrite !Z.add_0_r. split.
      * eapply user_bytes_keep; [exact Ht|done|lia|rewrite Hlen; lia|rewrite Hlen; cbv beta; lia|].
        eapply user_bytes_keep; [exact Ht2|done|lia|rewrite Hlen; lia|rewrite Hlen; cbv beta; lia|done].
      * eapply user_bytes_keep; [exact Ht|done|lia|rewrite Hlen4; lia|rewrite Hlen4; cbv beta; lia|done].
    + destruct (Hargs j str' Hj) as [H1 H2]. cbn [take args_size foldr]. fold (args_size (take j l)).
      replace (top + asz + (Z.of_nat (length str) + 1 + args_size (take j l)))
        with (top + (asz + (Z.of_nat (length str) + 1)) + args_size (take j l)) by lia.
      replace (i + Z.of_nat (Datatypes.S j)) with (i + 1 + Z.of_nat j) by lia. done.
Qed.

(** Where the arguments go: the strings, below them their addresses, below these the number of them. *)
Definition args_top (kargv : list (list Z)) : Z := USTACKTOP - (args_size kargv / 4 + 1) * 4.
Definition args_ptr (kargv : list (list Z)) : Z := args_top kargv - 4 * Z.of_nat (length kargv).

Record args_ready m (d : Z) (kargv : list (list Z)) : Prop := {
  ar_argc : user_bytes m d (args_ptr kargv - 4) (SfsDisk.le 4 (Z.of_nat (length kargv)));
  ar_argv j str : kargv !! j = Some str →
    user_bytes m d (args_top kargv + args_size (take j kargv)) (str ++ [0]) ∧
    user_bytes m d (args_ptr kargv + 4 * Z.of_nat j) (SfsDisk.le 4 (args_top kargv + args_size (take j kargv))) }.

Definition start_tf (kargv : list (list Z)) (entry : Z) : trapframe :=
  mkTf USER_CS USER_DS USER_DS USER_DS (args_ptr kargv - 4) entry FL_IF.

Definition use_dir (d : Z) m : machine := mkMachine (pm m) (mem m) (npage m) d ∅ (swap_init_ok m).

Lemma private_use_dir d m : private m d → private (use_dir d m) d.
Proof.
  intros [Hok Hinj]. split; [|done]. destruct Hok. split; try done.
Qed.

(** The arguments fit into the four pages that the stack gets. *)
Definition args_fit (kargv : list (list Z)) : Prop := 4 * 0xB0000 * 1024 - 0x4000 ≤ args_ptr kargv - 4.

Lemma args_bounds kargv : args_fit kargv →
  let n := Z.of_nat (length kargv) in
  0 ≤ args_size kargv < 0x4000 ∧ u32 (args_size kargv) = args_size kargv ∧
  u32 (USTACKTOP - (args_size kargv / 4 + 1) * 4) = args_top kargv ∧ u32 (args_top kargv - n * 4) = args_ptr kargv ∧
  u32 (args_ptr kargv - 4) = args_ptr kargv - 4 ∧ args_top kargv + args_size kargv ≤ USTACKTOP ∧ 4096 * 0xAFFFC ≤ args_ptr kargv - 4 ∧
  args_ptr kargv + 4 * n = args_top kargv.
Proof.
  unfold args_fit, args_ptr, args_top, USTACKTOP, USERTOP. cbv zeta. set (n := Z.of_nat (length kargv)). intros Hfit. pose proof (args_size_nonneg kargv) as Hnn.
  pose proof (Z.div_mod (args_size kargv) 4 ltac:(lia)). pose proof (Z.mod_pos_bound (args_size kargv) 4 ltac:(lia)).
  assert (0 ≤ n) by lia. assert (0 ≤ args_size kargv < 0x4000) as Hsz by lia.
  rewrite (Z.mul_comm n 4). split_and!; try lia; apply u32_small; lia.
Qed.

Lemma start_user_run s current k kargv entry d t :
  let m := amc (xa s) in
  mms (xa s) !! k = Some (mkAspace t d false) → private m d → args_fit kargv → Forall arg_ok kargv →
  (∀ w, 0xAFFFC ≤ w < 0xB0000 → in_range w ∧ present (pte_at m d w) = false) → (8 ≤ size (pm_free (pm m)))%nat →
  ∃ m', start_user current k kargv entry s =
      Ret (0, mkX (mkAstate m' (<[k := mkAspace (set_mm_count t (mm_count t + 1)) d false]> (mms (xa s)))
                    (<[current := k]> (mm_of (xa s))) (<[current := page2pa d]> (cr3_of (xa s))) (swapq (xa s)))
                  (xf s) (<[current := start_tf kargv entry]> (xtf s))) ∧
    private m' d ∧ cr3 m' = d ∧ args_ready m' d kargv ∧
    (∀ w, in_range w → ¬ (0xAFFFC ≤ w < 0xB0000) → pte_at m' d w = pte_at m d w) ∧
    (∀ a, in_range (vpn a) → ¬ (0xAFFFC ≤ vpn a < 0xB0000) → user_byte m' d a = user_byte m d a) ∧
    (∀ f i, f ∈ used m → data_frame m d f → read m' (f, i) = read m (f, i)).
Proof.
  intros m Hk Hpv Hfit Hkb Hr Hsz.
  destruct (args_bounds kargv Hfit) as (Hs1 & Hs2 & Hs3 & Hs4 & Hs5 & Hs6 & Hs7 & Hs8). set (n := Z.of_nat (length kargv)) in *.
  destruct (stack_pages_run 4 s d 1) as (m1 & Hstack & Hld); [exact Hpv|lia|lia| |fold m; lia|].
  { intros w Hw. apply Hr. unfold stack_last in Hw. lia. }
  unfold stack_last in Hld. change (laid d 0xAFFFC 0xB0000 PTE_USER (λ _, 0) 0 0 m m1) in Hld.
  set (m2 := use_dir d m1).
  assert (private m2 d) as Hpv2 by apply private_use_dir, (ld_private _ _ _ _ _ _ _ _ _ Hld).
  assert (writable m2 d 0xAFFFC 0xB0000) as Hw2.
  { intros w Hw. split; [by apply Hr|]. by apply (ld_perm _ _ _ _ _ _ _ _ _ Hld). }
  set (t' := set_mm_count t (mm_count t + 1)).
  set (s2 := mkX (mkAstate m2 (<[k := mkAspace t' d false]> (mms (xa s))) (<[current := k]> (mm_of (xa s)))
     (<[current := page2pa d]> (cr3_of (xa s))) (swapq (xa s))) (xf s) (xtf s)).
  unfold USTACKTOP, USERTOP in Hs6.
  assert (argv_total kargv 0 = args_size kargv) as Hsum by (rewrite argv_total_run; [lia|done|lia|lia]).
  destruct (put_args_run kargv s2 d 0xAFFFC 0xB0000 0 (args_ptr kargv) (args_top kargv) 0) as (m3 & Hargs & Ht3 & Hget); try done; try lia.
  change (amc (xa s2)) with m2 in Ht3. destruct (tc_pm _ _ _ _ _ _ Ht3) as (_ & Hcr3 & _).
  pose proof (touched_writable _ _ _ _ _ _ Ht3 Hw2) as Hw3.
  destruct (in_xm_store (st s2 m3 (xf s)) d 0xAFFFC 0xB0000 (args_ptr kargv - 4) (SfsDisk.le 4 n)) as (m4 & Hargc & Hb4 & Ht4);
    cbn [xa st amc set_amc]; [apply (tc_private _ _ _ _ _ _ Ht3)|by rewrite Hcr3|done|apply le_is_bytes|lia|lia|cbn [length SfsDisk.le]; lia|lia|].
  cbn [xa st amc set_amc] in Ht4. cbn [length SfsDisk.le] in Ht4.
  exists m4. split_and!.
  - unfold start_user.
    assert (in_xa (space_at k) s = Ret (mkAspace t d false, s)) as E1.
    { unfold in_xa. rewrite (space_at_run (xa s) k _ Hk). by destruct s. }
    step using (exact E1). cbv zeta. cbn [a_pgdir]. step using (exact Hstack).
    assert (in_xa (mm_count_add k 1) (st s m1 (xf s)) = Ret (mm_count t + 1, with_space s k d m1 t' (xf s))) as E2.
    { unfold in_xa, mm_count_add. rewrite (M_bind_step _ _ _ _ _ (space_at_run (xa (st s m1 (xf s))) k _ Hk)). done. }
    step using (exact E2). step using reflexivity. step using reflexivity. fold n. rewrite Hsum, Hs3, Hs4, Hs5.
    assert (put_args kargv 0 (args_ptr kargv) (args_top kargv) 0 s2 = Ret (tt, st s2 m3 (xf s))) as E3 by exact Hargs.
    step using (exact E3). step using (exact Hargc). step using reflexivity. done.
  - apply (tc_private _ _ _ _ _ _ Ht4).
  - destruct (tc_pm _ _ _ _ _ _ Ht4) as (_ & -> & _). by rewrite Hcr3.
  - split; [done|]. intros j str Hj. destruct (Hget j str Hj) as [H1 H2]. rewrite Z.add_0_r in H1, H2. rewrite Z.add_0_l in H2.
    assert (args_size (take j kargv) + (Z.of_nat (length str) + 1) ≤ args_size kargv) as Hsub.
    { clear -Hj. revert j Hj. induction kargv as [|x l IH]; intros [|j] Hj; cbn in Hj; [done|done| |].
      - injection Hj as <-. cbn [take args_size foldr]. pose proof (args_size_nonneg l). fold (args_size l). lia.
      - specialize (IH j Hj). cbn [take args_size foldr]. fold (args_size l) (args_size (take j l)). lia. }
    pose proof (args_size_nonneg (take j kargv)).
    assert (Z.of_nat j < n) by (unfold n; apply lookup_lt_Some in Hj; lia). split.
    + eapply user_bytes_keep; [exact Ht4|done|lia|rewrite length_app; simpl; lia|rewrite length_app; simpl; lia|done].
    + eapply user_bytes_keep; [exact Ht4|done|lia|cbn [length SfsDisk.le]; lia|cbn [length SfsDisk.le]; cbv beta; lia|done].
  - intros w Hw Hn. rewrite (tc_pte _ _ _ _ _ _ Ht4), (tc_pte _ _ _ _ _ _ Ht3) by done. by apply (ld_pte _ _ _ _ _ _ _ _ _ Hld).
  - intros a Ha Hn.
    assert (¬ 4096 * 0xAFFFC ≤ a < 4096 * 0xB0000) as Hna by (intros Haa; apply Hn, page_of_addr; lia).
    rewrite (tc_same _ _ _ _ _ _ Ht4); [|done|lia]. rewrite (tc_same _ _ _ _ _ _ Ht3); [|done|lia].
    by apply (ld_same _ _ _ _ _ _ _ _ _ Hld).
  - intros f i Hf Hd.
    assert (∀ w, 0xAFFFC ≤ w < 0xB0000 → frame_of (pte_at m1 d w) ≠ f) as Hnf.
    { intros w Hw <-. apply (used_not_free m _ Hf). by apply (ld_fresh _ _ _ _ _ _ _ _ _ Hld). }
    rewrite (tc_other _ _ _ _ _ _ Ht4), (tc_other _ _ _ _ _ _ Ht3).
    + by apply (gr_keep _ _ _ _ _ _ (ld_grow _ _ _ _ _ _ _ _ _ Hld)).
    + exact Hnf.
    + intros w Hw. rewrite (tc_pte _ _ _ _ _ _ Ht3) by (by apply Hr). by apply Hnf.
Qed.

(** ** Loading a program *)

(** [c] is an ELF file with the loadable segments [hs]: the headers are in the file; every loadable segment has
    some of its bytes in the file ([seg_ok]; the loader passes over the others), names bytes of the file and
    pages below the stack; and no two segments have a page in common. *)
Record elf_ok (c : list Z) (elf : elfhdr) (hs : list proghdr) : Prop := {
  eo_bytes : is_bytes c ∧ Z.of_nat (length c) < 2 ^ 31;
  eo_head : sizeof_elfhdr ≤ Z.of_nat (length c) ∧ elf = elf_of (slice c 0 sizeof_elfhdr);
  eo_magic : e_magic elf = ELF_MAGIC;
  eo_phs : 0 ≤ e_phoff elf ∧ 0 ≤ e_phnum elf ∧ e_phoff elf + sizeof_proghdr * e_phnum elf ≤ Z.of_nat (length c);
  eo_segs : hs = segments (header c elf <$> seqZ 0 (e_phnum elf));
  eo_ok : Forall (seg_ok c) hs;
  eo_separate : separate hs }.

(** The process has no memory, the kernel's directory is in use, and memory is left for the program. *)
Record loadable (s : xstate) (current k fd : Z) (c : list Z) (hs : list proghdr) : Prop := {
  lb_user : lo = 0 ∧ 704 ≤ hi ≤ PDX VPT;
  lb_mm : mm_of (xa s) !! current = None;
  lb_space : kmalloc_mm (dom (mms (xa s))) = Some k ∧ k ∉ dom (mms (xa s));
  lb_boot : space_ok (amc (xa s)) boot_pgdir ∧ cr3 (amc (xa s)) = boot_pgdir ∧
    ∀ y, lo ≤ y < hi → present (pde_at (amc (xa s)) boot_pgdir y) = false;
  lb_file : file_holds fd c (xf s);
  lb_memory : (9 + 2 * total_pages hs ≤ size (pm_free (pm (amc (xa s)))))%nat }.

Record program_loaded (c : list Z) (hs : list proghdr) (kargv : list (list Z)) (d : Z) m m' : Prop := {
  pl_dir : private m' d ∧ cr3 m' = d;
  pl_segs : Forall (λ ph, seg_loaded c ph m' d) hs;
  pl_args : args_ready m' d kargv;
  pl_others f i : f ∈ used m → read m' (f, i) = read m (f, i) }.

Lemma user_in_range w : lo = 0 ∧ 704 ≤ hi ≤ PDX VPT → 512 ≤ w < 0xB0000 → in_range w.
Proof. intros [-> Hhi] Hw. unfold PageTable.in_range. lia. Qed.

Lemma seg_below c hs w : Forall (seg_ok c) hs → in_segs hs w → 512 ≤ w < 0xAFF00.
Proof.
  intros Hok Hin. apply Exists_exists in Hin as (ph & Hph & Hw). rewrite Forall_forall in Hok.
  destruct (seg_bounds c ph (Hok ph Hph)) as (H1 & _ & _ & _ & H2 & _). lia.
Qed.

Lemma load_icode_run s current fd c elf hs k kargv :
  elf_ok c elf hs → loadable s current k fd c hs →
  Z.of_nat (length kargv) ≤ EXEC_MAX_ARG_NUM → Forall arg_ok kargv → args_fit kargv →
  ∃ m' d t e, load_icode current fd kargv s =
      Ret (0, mkX (mkAstate m' (<[k := mkAspace t d false]> (mms (xa s)))
                    (<[current := k]> (mm_of (xa s))) (<[current := page2pa d]> (cr3_of (xa s)))
                    (init_priv (swap_init_ok (amc (xa s))) k (swapq (xa s))))
                  e (<[current := start_tf kargv (e_entry elf)]> (xtf s))) ∧
    mm_ok t ∧ mm_count t = 1 ∧ areas t ≡ₚ stack_area :: (seg_area <$> hs) ∧
    program_loaded c hs kargv d (amc (xa s)) m'.
Proof using kmalloc_fresh kmalloc_some.
  intros [[Hcb Hmax] [Hhl Helf] Hmagic (Hp1 & Hp2 & Hp3) Hhs Hoks Hsep] [Huser Hmm [Hk Hkn] (Hbok & Hbcr & Hbno) Hfile Hmem] Hargc Hkb Hfit.
  set (m := amc (xa s)) in *.
  set (q0 := init_priv (swap_init_ok m) k (swapq (xa s))).
  set (a1 := set_swapq (set_mms (xa s) (<[k := mkAspace mm_create 0 false]> (mms (xa s)))) q0).
  set (s0 := mkX (set_swapq (xa s) q0) (xf s) (xtf s)).
  destruct (setup_pgdir_run lo hi boot_pgdir a1 k (mkAspace mm_create 0 false) boot_pgdir) as (d & m1 & Hset & Hnd);
    [done|done|lia|lia| | |apply lookup_insert_eq|].
  { change (cr3 m ∉ pm_free (pm m)). rewrite Hbcr. apply Hbok. }
  { change (pm_free (pm m) ≠ ∅). intros He. rewrite He, size_empty in Hmem. lia. }
  change (amc a1) with m in Hnd. pose proof Hnd as (_ & Hokd & Hdf & _ & Hz & _ & Hkeep & _ & Hfree1 & _).
  assert (private m1 d) as Hpv1.
  { split; [done|]. intros v w Hv _ Hpv. by rewrite Hz in Hpv. }
  set (s1 := with_space s0 k d m1 mm_create (xf s)).
  assert (mm_ok mm_create) as Hmc by (split; [constructor|set_solver|done|done|done]).
  unfold sizeof_elfhdr in Hhl.
  destruct (load_icode_read_run s1 fd c 0 sizeof_elfhdr) as (e1 & Hread & Hc1); unfold sizeof_elfhdr; [done|lia|lia|lia|done|].
  set (s2 := with_space s0 k d m1 mm_create e1).
  assert ((2 * total_pages hs + 8 ≤ size (pm_free (pm m1)))%nat) as Hsz1.
  { rewrite Hfree1. pose proof (size_remove_one (pm_free (pm m)) d). lia. }
  destruct (load_segments_run (Z.to_nat (e_phnum elf)) s2 k fd c elf 0 d mm_create) as (m2 & t2 & e2 & Hsegs & Hc2 & Ht2 & Hperm2 & Hcnt2 & Hal);
    change (amc (xa s2)) with m1; rewrite ?Z2Nat.id, <-?Hhs by done; [apply lookup_insert_eq|done|done|done|done|done|lia|done|lia|done|done| |lia|].
  { apply Forall_forall. intros ph Hph. split; [|constructor]. intros w Hw.
    assert (in_range w) as Hwr. { apply user_in_range; [done|]. assert (512 ≤ w < 0xAFF00); [|lia].
      apply (seg_below c hs); [done|]. apply Exists_exists. eauto. }
    split; [done|]. by rewrite Hz. }
  change (amc (xa s2)) with m1 in Hal. rewrite Z2Nat.id, <-Hhs in Hperm2, Hal by done.
  unfold s2 in Hsegs. rewrite with_space_again in Hsegs. fold s2 in Hsegs.
  destruct (ef_close e2 fd c Hc2) as (rc & e3 & Hclose).
  set (s3 := with_space s0 k d m2 t2 e3).
  destruct (map_area s3 k d t2 (USTACKTOP - USTACKSIZE) USTACKSIZE (Z.lor (Z.lor VM_READ VM_WRITE) VM_STACK) stack_first stack_last)
    as (q & t3 & Hmap & Ht3 & Hperm3 & Hcnt3); [apply lookup_insert_eq|done|reflexivity|reflexivity|unfold stack_first, stack_last; lia|unfold stack_last, USERTOP; lia| |].
  { rewrite Hperm2. rewrite app_nil_r. apply Forall_fmap, Forall_forall. intros ph Hph. rewrite Forall_forall in Hoks.
    destruct (seg_bounds c ph (Hoks ph Hph)) as (_ & _ & _ & _ & H2 & _). left. unfold stack_first. cbn [vm_end vm_start seg_area]. lia. }
  assert (with_space s3 k d (amc (xa s3)) t3 (xf s3) = with_space s0 k d m2 t3 e3) as Hws by apply with_space_again.
  rewrite Hws in Hmap. set (s4 := with_space s0 k d m2 t3 e3) in *.
  destruct (start_user_run s4 current k kargv (e_entry elf) d t3) as (m' & Hstart & Hpv' & Hcr' & Hargs & Hpte' & Hub' & Hrd');
    [apply lookup_insert_eq|apply (al_private _ _ _ _ _ Hal)|done|done| | |].
  { change (amc (xa s4)) with m2. intros w Hw. assert (in_range w) as Hwr by (apply user_in_range; [done|lia]). split; [done|].
    rewrite (al_pte _ _ _ _ _ Hal), Hz; [done|done|done|]. intros Hin. apply (seg_below c) in Hin; [|done]. lia. }
  { change (amc (xa s4)) with m2. pose proof (al_cost _ _ _ _ _ Hal). lia. }
  change (amc (xa s4)) with m2 in Hpte', Hub', Hrd'.
  exists m', d, (set_mm_count t3 (mm_count t3 + 1)), e3. split_and!.
  - unfold load_icode. step using (unfold assert; rewrite (proj2 (Z.leb_le _ _) Hargc); reflexivity).
    assert (in_xa (gets (λ s0 : astate, mm_of s0 !! current)) s = Ret (None, s)) as E0.
    { unfold in_xa, gets. rewrite Hmm. by destruct s. }
    step using (exact E0). cbv iota.
    assert (in_xa (new_space kmalloc_mm) s = Ret (Some k, mkX a1 (xf s) (xtf s))) as E1.
    { unfold in_xa, new_space. rewrite (M_bind_step _ _ _ _ _ (eq_refl : get (xa s) = Ret (xa s, xa s))). by rewrite Hk. }
    step using (exact E1). cbv iota zeta.
    assert (in_xa (setup_pgdir boot_pgdir k) (mkX a1 (xf s) (xtf s)) = Ret (0, s1)) as E2.
    { unfold in_xa. cbn [xa xf xtf]. rewrite Hset. unfold s1, with_space, a1, s0. cbn [mms set_mms set_amc set_swapq xa xf xtf amc mm_of cr3_of swapq a_mm a_locked].
      unfold set_mms, set_amc, set_swapq. cbn [mms amc mm_of cr3_of swapq]. by rewrite insert_insert_eq. }
    step using (exact E2). change (negb (0 =? 0)) with false. cbv iota.
    step using (exact Hread). cbv beta iota. change (negb (0 =? 0)) with false. cbv iota. rewrite <-Helf, Hmagic, Z.eqb_refl. cbn [negb]. cbv iota.
    change (st s1 (amc (xa s1)) e1) with s2. step using (exact Hsegs). change (negb (0 =? 0)) with false. cbv iota.
    step using (unfold in_xf; cbn [xf with_space]; rewrite Hclose; reflexivity).
    step using (exact Hmap). cbv beta iota. change (negb (0 =? 0)) with false. cbv iota. rewrite Hstart. unfold s4, with_space. cbn [xa xf xtf mms mm_of cr3_of swapq].
    by rewrite insert_insert_eq.
  - by destruct Ht3; split.
  - cbn [mm_count set_mm_count]. rewrite Hcnt3, Hcnt2. done.
  - change (areas (set_mm_count t3 (mm_count t3 + 1))) with (areas t3). rewrite Hperm3, Hperm2, app_nil_r. done.
  - split; [done| |done|].
    + pose proof (al_segs _ _ _ _ _ Hal) as Hsl. rewrite Forall_forall in Hsl, Hoks |- *. intros ph Hph.
      assert (∀ w, seg_first ph ≤ w < seg_last ph → in_range w ∧ ¬ (0xAFFFC ≤ w < 0xB0000)) as Hin.
      { intros w Hw. assert (512 ≤ w < 0xAFF00); [|split; [apply user_in_range; [done|lia]|lia]].
        apply (seg_below c hs); [by apply Forall_forall|]. apply Exists_exists. eauto. }
      apply (seg_loaded_keep c ph m2); [by apply Hoks|by apply Hsl| |].
      * intros w Hw. by apply Hpte'; apply Hin.
      * intros a Ha. by apply Hub'; apply Hin.
    + intros f i Hf. destruct (Hkeep f Hf) as (Hf1 & _ & Hi1 & Hd1).
      destruct (gr_keep _ _ _ _ _ _ (al_grow _ _ _ _ _ Hal) f Hf1 (not_elem_of_empty _) Hd1) as (Hd2 & _ & Hi2).
      rewrite Hrd', Hi2, Hi1; [done| |done]. by eapply gr_used; [apply (al_grow _ _ _ _ _ Hal)|].
Qed.

End exec.
End Exec.
