(* ===== verification/ExecFile.v ===== *)
(** The files that programs are loaded from: the system calls of Sysfile.v on a file of the disk, made by a process
    that has no address space, keep the promises that [load_icode] of Exec.v relies on.  A program file on the disk
    is so loaded through the whole file system. *)
From S2P Require Import Prelude Dll Frames PmmManager FitAlloc PageTable Vma Swap Vmm AddrSpace Bitmap SfsDisk Iobuf SfsInode SfsFile SfsDir Vfs File Sysfile Exec.

Module ExecFile.
Import Vma SfsDisk Iobuf SfsInode Vfs File Sysfile.
Set Default Proof Using "Type".

Section exec_file.
Context `{E : heap_env} {D : Type} `{DV : dev_ops D} `{KH : kheap}.
(** The page of the kernel that the bytes are read into. *)
Context (kbuf : Z).
Notation usys := (usys (D := D)).
Notation vfs := (vfs (D := D)).

#[export] Instance sys_files : Exec.exec_files usys := {|
  Exec.sysfile_seek := Sysfile.sysfile_seek;
  Exec.sysfile_read fd len :=
    ret ← Sysfile.sysfile_read fd kbuf len;
    bs ← gets (λ s, read_bytes (mem (fsys s)) kbuf (Z.max 0 ret));
    mret (ret, bs);
  Exec.sysfile_close := Sysfile.sysfile_close |}.

(** * Seeking *)

Lemma tryseek_run s ino x p : inodes s !! ino = Some x → 0 ≤ p ≤ size (din x) → p < SFS_MAX_FILE_SIZE → sfs_tryseek ino p s = Ret (0, s).
Proof.
  intros Hx Hp Hm. unfold sfs_tryseek. rewrite (proj2 (Z.ltb_ge _ _)), (proj2 (Z.leb_gt _ _)) by lia. cbn [orb].
  step using (by apply SfsFile.din_of_run).
  by rewrite (proj2 (Z.ltb_ge _ _)) by lia.
Qed.

Lemma file_seek_run (v : vfs) fd_ y f ino s F x p :
  opened v fd_ y f ino → backed v f ino s F x → 0 ≤ p ≤ size (din x) → p < SFS_MAX_FILE_SIZE →
  file_seek fd_ p Exec.LSEEK_SET v = Ret (0, put_fd v (Z.to_nat fd_) (set_pos p y)).
Proof.
  intros Ho Hb Hp Hm. pose proof (op_status _ _ _ _ _ Ho) as (Hst & Hfd & Hc). pose proof (op_node _ _ _ _ _ Ho) as Hn.
  pose proof Hb as [Hs _ Hx _ Ht _ Hcnt]. set (i := Z.to_nat fd_). set (y1 := set_fopen (fopen_count y + 1) y). unfold file_seek.
  step using (by eapply fd2file_run). cbv beta iota. change (negb (0 =? 0)) with false. cbv iota.
  step using (by eapply acquire_run). fold i y1.
  assert (opened (put_fd v i y1) fd_ y1 f ino) as Ho1 by (by apply (opened_put v fd_ y); simpl; try done; try lia).
  assert (filesp v = filesp (put_fd v i y1)) as E1 by by rewrite put_fd_filesp.
  step using (rewrite E1; by eapply file_at_run). step using (unfold deref; simpl; rewrite Hn; reflexivity).
  change (Exec.LSEEK_SET =? LSEEK_SET) with true. cbv iota. step using reflexivity. cbv beta iota. change (0 =? 0) with true. cbv iota.
  assert (fss (put_fd v i y1) !! f = Some s) as Hs1 by (by rewrite put_fd_fss).
  assert (vop_tryseek (NSfs f ino) p (put_fd v i y1) = Ret (0, put_fd v i y1)) as Hseek.
  { unfold vop_tryseek. simpl vop_check. step using (by eapply fs_do_run, inode_check_run). rewrite set_fss_same by done.
    erewrite fs_do_run; [by rewrite set_fss_same|done|]. by eapply tryseek_run. }
  set (y2 := set_pos p y1).
  assert (opened (put_fd (put_fd v i y1) i y2) fd_ y2 f ino) as Ho2 by (apply (opened_put _ fd_ y1); simpl; try done; lia).
  rewrite put_fd_put in Ho2. assert (filesp v = filesp (put_fd v i y2)) as E2 by by rewrite put_fd_filesp.
  assert ((ret ← vop_tryseek (NSfs f ino) p; when (ret =? 0) (file_upd (filesp v) i (set_pos p)) ;; mret ret) (put_fd v i y1) =
    Ret (0, put_fd v i y2)) as Hmove.
  { step using (exact Hseek). unfold when. change (0 =? 0) with true. cbv iota.
    step using (rewrite E1; by eapply file_upd_run). by rewrite put_fd_put. }
  step using (exact Hmove). step using (rewrite E2; eapply fd_release_run; [done|simpl; lia]). rewrite put_fd_put. unfold mret, M_ret. do 3 f_equal.
  unfold y2, y1, set_pos, set_fopen. destruct y. simpl. f_equal. lia.
Qed.

(** * Closing *)

Notation put_sin := SfsFile.put_sin.

(** An inode without changes that is still linked. *)
Record clean (x : sfs_inode) : Prop := {
  cl_dirty : dirty x = false;
  cl_links : nlinks (din x) ≠ 0;
  cl_reclaim : 0 < reclaim_count x;
  cl_counts : 0 ≤ open_count x ≤ ref_count x ∧ ref_count x < MAX_INODE_COUNT }.

Lemma check_run s ino x : inodes s !! ino = Some x → clean x → inode_check ino true true s = Ret (tt, s).
Proof.
  intros Hx [_ _ _ [Ho Hr]]. unfold inode_check. step using (by apply SfsFile.sin_at_run). unfold assert.
  rewrite !(proj2 (Z.leb_le _ _)), !(proj2 (Z.ltb_lt _ _)) by lia. by destruct (type (din x) =? SFS_TYPE_DIR).
Qed.

Lemma open_dec_run s ino x : inodes s !! ino = Some x → clean x → 0 < open_count x →
  inode_open_dec ino s = Ret (open_count x - 1, put_sin s ino (set_open (open_count x - 1) x)).
Proof.
  intros Hx [Hd Hl Hr [Ho Hm]] Hpos. unfold inode_open_dec. step using (by apply SfsFile.sin_at_run).
  step using (unfold assert; rewrite (proj2 (Z.ltb_lt _ _) Hpos); reflexivity). step using (by apply SfsFile.sin_upd_run).
  set (x1 := set_open (open_count x - 1) x).
  assert (inodes (put_sin s ino x1) !! ino = Some x1) as Hx1 by apply SfsFile.put_sin_at.
  assert (clean x1) as Hc1 by (split; [done|done|done|simpl; lia]).
  destruct (open_count x - 1 =? 0); [|by step using reflexivity].
  assert ((inode_check ino true true ;; _ ← sfs_close ino; mret tt) (put_sin s ino x1) = Ret (tt, put_sin s ino x1)) as Hcl.
  { step using (by eapply check_run). assert (sfs_close ino (put_sin s ino x1) = Ret (0, put_sin s ino x1)) as Hs.
    { unfold sfs_close, SfsInode.vop_fsync, sfs_fsync. step using (by eapply check_run). step using (by apply SfsFile.sin_at_run).
      change (dirty x1) with (dirty x). by rewrite Hd. }
    by step using (exact Hs). }
  by step using (exact Hcl).
Qed.

Lemma sfs_reclaim_run s ino x : inodes s !! ino = Some x → clean x → open_count x = 0 → ∃ r s', sfs_reclaim ino s = Ret (r, s').
Proof.
  intros Hx [Hd Hl Hr [Ho Hm]] Hopen. unfold sfs_reclaim. step using (by apply SfsFile.sin_at_run).
  step using (unfold assert; rewrite (proj2 (Z.ltb_lt _ _) Hr); reflexivity). step using (by apply SfsFile.sin_upd_run).
  set (x1 := set_reclaim (reclaim_count x - 1) x).
  assert (inodes (put_sin s ino x1) !! ino = Some x1) as Hx1 by apply SfsFile.put_sin_at.
  destruct (negb (reclaim_count x - 1 =? 0) || negb (ref_count x =? 0)) eqn:Hbusy; [by eexists _, _|].
  apply orb_false_iff in Hbusy as [_ Href%negb_false_iff].
  rewrite (proj2 (Z.eqb_neq _ _) Hl). step using reflexivity. change (negb (0 =? 0)) with false. cbv iota.
  step using (by apply SfsFile.sin_at_run). change (dirty x1) with (dirty x). rewrite Hd. step using reflexivity.
  change (negb (0 =? 0)) with false. cbv iota. step using (by apply SfsFile.din_of_run).
  change (nlinks (din x1)) with (nlinks (din x)). unfold when. rewrite (proj2 (Z.eqb_neq _ _) Hl). step using reflexivity.
  step using reflexivity.
  match goal with |- ∃ _ _, _ ?s0 = _ => set (s1 := s0) end.
  assert (∃ s2, inode_kill ino s1 = Ret (tt, s2)) as [s2 Hkill].
  { eexists. unfold inode_kill. step using (by apply SfsFile.sin_at_run).
    step using (unfold assert; change (ref_count x1) with (ref_count x); rewrite Href; reflexivity).
    step using (unfold assert; change (open_count x1) with (open_count x); rewrite Hopen; reflexivity). reflexivity. }
  eexists _, _. step using (exact Hkill). reflexivity.
Qed.

Lemma ref_dec_run s ino x : inodes s !! ino = Some x → clean x → open_count x < ref_count x → ∃ r s', inode_ref_dec ino s = Ret (r, s').
Proof.
  intros Hx [Hd Hl Hr [Ho Hm]] Hlt. unfold inode_ref_dec. step using (by apply SfsFile.sin_at_run).
  step using (unfold assert; rewrite (proj2 (Z.ltb_lt _ _)) by lia; reflexivity). step using (by apply SfsFile.sin_upd_run).
  set (x1 := set_ref (ref_count x - 1) x).
  assert (inodes (put_sin s ino x1) !! ino = Some x1) as Hx1 by apply SfsFile.put_sin_at.
  assert (clean x1) as Hc1 by (split; [done|done|done|simpl; lia]).
  destruct (Z.eqb_spec (ref_count x - 1) 0) as [H0|].
  2: { step using reflexivity. by eexists _, _. }
  destruct (sfs_reclaim_run (put_sin s ino x1) ino x1) as (r & s' & Hrec); [done|done|simpl; lia|].
  assert ((inode_check ino true true ;; _ ← sfs_reclaim ino; mret tt) (put_sin s ino x1) = Ret (tt, s')) as Hc.
  { step using (by eapply check_run). by step using (exact Hrec). }
  eexists _, s'. step using (exact Hc). reflexivity.
Qed.

(** Entry [i] of the table of the running process. *)
Definition entry (v : vfs) (i : nat) (y : file) : Prop := ∃ x, filesps v !! filesp v = Some x ∧ fd_array x !! i = Some y.

Lemma entry_at v i y : entry v i y → file_at (filesp v) i v = Ret (y, v).
Proof. intros (x & Hx & Hy). unfold file_at, deref. rewrite Hx. simpl. by rewrite Hy. Qed.
Lemma entry_upd v i y g : entry v i y → file_upd (filesp v) i g v = Ret (tt, put_fd v i (g y)).
Proof.
  intros (x & Hx & Hy). unfold file_upd. step using (unfold deref; rewrite Hx; reflexivity).
  step using (unfold deref; rewrite Hy; reflexivity). unfold put_fd. by rewrite Hx.
Qed.
Lemma entry_put v i y y' : entry v i y → entry (put_fd v i y') i y'.
Proof.
  intros (x & Hx & Hy). unfold entry, put_fd. rewrite Hx. eexists. cbn [filesps filesp set_filesps]. rewrite lookup_insert_eq.
  split; [done|]. apply list_lookup_insert_eq. by eapply lookup_lt_Some.
Qed.

Lemma vfs_close_run (v : vfs) f ino s x : fss v !! f = Some s → inodes s !! ino = Some x → clean x → 0 < open_count x →
  ∃ fs, vfs_close (NSfs f ino) v = Ret (0, set_fss v fs).
Proof.
  intros Hs Hx Hc Ho. set (x1 := set_open (open_count x - 1) x).
  destruct (ref_dec_run (put_sin s ino x1) ino x1) as (r & s' & Hdec);
    [apply SfsFile.put_sin_at|destruct Hc; split; [done|done|done|simpl; lia]|destruct Hc; simpl; lia|].
  eexists. unfold vfs_close. simpl vop_open_dec. step using (by eapply fs_do_run, open_dec_run).
  simpl vop_ref_dec. step using (eapply fs_do_run; [apply lookup_insert_eq|exact Hdec]). reflexivity.
Qed.

Lemma file_close_run (v : vfs) fd_ y f ino s x :
  opened v fd_ y f ino → fss v !! f = Some s → inodes s !! ino = Some x → clean x → 0 < open_count x →
  ∃ v', file_close fd_ v = Ret (0, v').
Proof.
  intros Ho Hs Hx Hc Hpos. pose proof Ho as [_ (t & Ht & _ & Hy) (Hst & Hfd & Hcnt) Hn]. set (i := Z.to_nat fd_) in *.
  assert (entry v i y) as Hen by (by exists t).
  set (y1 := set_status FD_CLOSED y). set (y2 := set_fopen (fopen_count y - 1) y1).
  assert (∃ v', fd_array_close (filesp v) i v = Ret (tt, v')) as (v' & Hclose).
  { unfold fd_array_close. step using (by eapply entry_at). step using (unfold assert; rewrite bool_decide_true by done; reflexivity).
    step using (unfold assert; rewrite (proj2 (Z.ltb_lt _ _) Hcnt); reflexivity). step using (by eapply entry_upd).
    assert (filesp v = filesp (put_fd v i y1)) as E1 by by rewrite put_fd_filesp.
    step using (rewrite E1; eapply entry_upd, entry_put; exact Hen). rewrite put_fd_put.
    change (set_fopen (fopen_count y1 - 1) y1) with y2. unfold when.
    destruct (Z.eqb_spec (fopen_count y - 1) 0) as [H0|]; [|by eexists].
    set (v2 := put_fd v i y2). assert (filesp v = filesp v2) as E2 by (unfold v2; by rewrite put_fd_filesp).
    destruct (vfs_close_run v2 f ino s x) as (fs & Hvc); [by unfold v2; rewrite put_fd_fss|done|done|done|].
    assert (entry v2 i y2) as Hen2 by (by eapply entry_put).
    assert ((n ← deref (λ _, f_node y2); _ ← vfs_close n; mret tt) v2 = Ret (tt, set_fss v2 fs)) as Hcl.
    { step using (unfold deref; change (f_node y2) with (f_node y); rewrite Hn; reflexivity). by step using (exact Hvc). }
    unfold fd_array_free. eexists. step using (rewrite E2; by eapply entry_at).
    step using (unfold assert; rewrite bool_decide_true by (right; reflexivity); reflexivity).
    step using (unfold assert; change (fopen_count y2) with (fopen_count y - 1); rewrite H0; reflexivity).
    rewrite bool_decide_true by reflexivity. step using (exact Hcl).
    change (filesp v2) with (filesp (set_fss v2 fs)) in E2. rewrite E2. apply entry_upd. exact Hen2. }
  exists v'. unfold file_close. step using (by eapply fd2file_run). cbv beta iota. change (negb (0 =? 0)) with false. cbv iota.
  by step using (exact Hclose).
Qed.

(** * The promises *)

Context `{KL : !kheap_laws}.
Hypothesis kbuf_kernel : PageTable.KERNBASE ≤ kbuf ∧ kbuf + PGSIZE ≤ Vmm.KERNTOP.
Hypothesis kbuf_own : ∀ H a, kaddr H IOBUF_SIZE = Some a → apart_of a kbuf PGSIZE.

(** The descriptor is open, with the entry [y], on a file of the disk with the bytes [c]; the process has no address
    space, and the kernel heap has a page left. *)
Record held (fd_ : Z) (c : list Z) (y : file) (u : usys) : Prop := {
  hd_file : ∃ f ino s F x, opened (fsys u) fd_ y f ino ∧ backed (fsys u) f ino s F x ∧ clean x ∧ 0 < open_count x ∧
    c = SfsFile.file_bytes (disk s) (din x) 0 (size (din x));
  hd_read : readable y = true;
  hd_pos : 0 ≤ pos y < SFS_MAX_FILE_SIZE;
  hd_kernel : um u = None ∧ locked u = false ∧ is_Some (kaddr (heap u) IOBUF_SIZE) }.

Lemma file_below s F x (v : vfs) f ino : backed v f ino s F x → 0 ≤ size (din x) < SFS_MAX_FILE_SIZE.
Proof.
  intros [_ _ _ Hf _ Hsz _]. pose proof (SfsFile.f_n _ _ _ _ Hf) as Hn. unfold SfsFile.NMAX in Hn.
  change SFS_MAX_FILE_SIZE with 134217728. lia.
Qed.

Lemma held_seek u fd_ c y off : held fd_ c y u → 0 ≤ off ≤ Z.of_nat (length c) →
  ∃ u', Exec.sysfile_seek fd_ off Exec.LSEEK_SET u = Ret (0, u') ∧ held fd_ c (set_pos off y) u'.
Proof.
  intros [(f & ino & s & F & x & Ho & Hb & Hc & Hop & Hcc) Hr Hp (Hu & Hl & Hk)] Hoff. pose proof (file_below _ _ _ _ _ _ Hb) as Hsz.
  assert (Z.of_nat (length c) = size (din x)) as Hlen by (rewrite Hcc, SfsFile.length_file_bytes by lia; lia).
  exists (set_fsys u (put_fd (fsys u) (Z.to_nat fd_) (set_pos off y))). split.
  - unfold Exec.sysfile_seek, sys_files, Sysfile.sysfile_seek, in_fs. erewrite file_seek_run; [done|done|done|lia|lia].
  - pose proof (op_status _ _ _ _ _ Ho) as (H1 & H2 & H3). pose proof (op_node _ _ _ _ _ Ho) as H4.
    split; [|done|simpl; lia|done]. exists f, ino, s, F, x. split_and!; try done.
    + by apply (opened_put _ fd_ y).
    + destruct Hb. split; try done. cbn [fsys set_fsys]. by rewrite put_fd_fss.
Qed.

Lemma held_read u fd_ c y len : held fd_ c y u → 0 < len ≤ PGSIZE → pos y + len ≤ Z.of_nat (length c) →
  ∃ u', Exec.sysfile_read fd_ len u = Ret ((len, take (Z.to_nat len) (drop (Z.to_nat (pos y)) c)), u') ∧ held fd_ c (set_pos (pos y + len) y) u'.
Proof using kbuf_kernel kbuf_own KL.
  intros [(f & ino & s & F & x & Ho & Hb & Hc & Hop & Hcc) Hr Hp (Hu & Hl & [a Ha])] Hlen Hend. pose proof (file_below _ _ _ _ _ _ Hb) as Hsz.
  assert (Z.of_nat (length c) = size (din x)) as Hsize by (rewrite Hcc, SfsFile.length_file_bytes by lia; lia).
  pose proof (kbuf_own _ _ Ha) as Hown. unfold apart_of in Hown. unfold PGSIZE in *.
  destruct (sysfile_read_run u None fd_ y f ino s F x a kbuf len) as (u' & o' & Hrun & [[Hu' Hsame] [Hl' Hh'] Hfs Hmem] & Ho' & Hfss);
    try done; try lia; [cbn [reach]; lia|unfold apart_of; lia|].
  replace (Z.max 0 (Z.min (pos y + len) (size (din x)) - pos y)) with len in * by lia. destruct o'; [done|].
  exists u'. split.
  - unfold Exec.sysfile_read, sys_files. step using (exact Hrun). step using reflexivity. unfold mret, M_ret. do 2 f_equal. f_equal.
    rewrite Z.max_r by lia. apply list_eq. intros j. rewrite Hcc. destruct (decide (j < Z.to_nat len)%nat) as [Hj|Hj].
    + rewrite lookup_read by lia. rewrite lookup_take_lt, lookup_drop by lia. unfold SfsFile.file_bytes.
      rewrite list_lookup_fmap, lookup_seqZ_lt by lia. simpl. f_equal. rewrite Hmem by lia. rewrite decide_True by lia. f_equal. lia.
    + rewrite lookup_take_ge by lia. apply lookup_ge_None_2. unfold read_bytes. rewrite length_fmap, length_seqZ. lia.
  - split; [|done|simpl; lia|]; [|split_and!; [done|done|rewrite Hh'; by eexists]].
    exists f, ino, s, F, x. split_and!; try done. destruct Hb. split; try done. by rewrite Hfss.
Qed.

Lemma held_close u fd_ c y : held fd_ c y u → ∃ r u', Exec.sysfile_close fd_ u = Ret (r, u').
Proof.
  intros [(f & ino & s & F & x & Ho & Hb & Hc & Hop & _) _ _ _].
  destruct (file_close_run (fsys u) fd_ y f ino s x) as (v' & Hcl); [done|apply Hb|apply Hb|done|done|].
  eexists _, _. unfold Exec.sysfile_close, sys_files, Sysfile.sysfile_close, in_fs. by rewrite Hcl.
Qed.

#[export] Instance sys_files_laws : Exec.exec_files_laws usys.
Proof using kbuf_kernel kbuf_own KL.
  refine {| Exec.file_holds := λ fd_ c u, ∃ y, held fd_ c y u; Exec.file_at := λ fd_ c off u, ∃ y, held fd_ c y u ∧ pos y = off |}.
  - intros u fd_ c off [y H] Hoff. destruct (held_seek u fd_ c y off H Hoff) as (u' & Hrun & H'). exists u'. split; [done|]. by eexists.
  - intros u fd_ c off len (y & H & <-) Hlen Hend. destruct (held_read u fd_ c y len H Hlen Hend) as (u' & Hrun & H').
    exists u'. split; [done|]. by eexists.
  - intros u fd_ c [y H]. by eapply held_close.
Defined.

(** * Programs on the disk *)

Section program.
Import Frames PmmManager PageTable AddrSpace Exec.
Context {S : Type} `{PM : pmm_manager S} {SW : swapper (S := S)} `{PL : !pmm_laws S}.
Context (kmalloc : gmap Z vma_struct → option Z) (kmalloc_mm : gset Z → option Z) (boot_pgdir : Z) (page_fault : Z → M (machine (S := S)) unit).
Hypothesis kmalloc_fresh : ∀ h p, kmalloc h = Some p → h !! p = None.
Hypothesis kmalloc_some : ∀ h, is_Some (kmalloc h).

(** C11: [load_icode] of an ELF file of the disk whose loadable segments all have some bytes in the file (the
    loader passes over a segment of zeroes only; such files are not covered), lie in user memory below the stack
    and have no page in common, when memory is left and there are at most 32 arguments which fit, with their
    pointers, into the 16 KB of stack mapped at the start: the call returns 0; the process has a new
    address space, with an area for every loadable segment and one for the stack; every byte of a segment is the
    byte of the file, or 0 behind the part that is in the file; the arguments and their number are on the stack;
    the trap frame starts the program at its entry point with its stack; every frame that was in use has the
    words that it had; and when the kernel swaps, its queue of swappable pages has been started anew. *)
Theorem load_icode_correct (s : xstate (S := S) (F := usys)) current fd c elf hs k kargv :
  elf_ok c elf hs → loadable kmalloc_mm boot_pgdir user_lo user_hi s current k fd c hs →
  Z.of_nat (length kargv) ≤ EXEC_MAX_ARG_NUM → Forall arg_ok kargv → args_fit kargv →
  ∃ m' d t e, load_icode kmalloc kmalloc_mm boot_pgdir page_fault current fd kargv s =
      Ret (0, mkX (mkAstate m' (<[k := mkAspace t d false]> (mms (xa s)))
                    (<[current := k]> (mm_of (xa s))) (<[current := page2pa d]> (cr3_of (xa s)))
                    (init_priv (swap_init_ok (amc (xa s))) k (swapq (xa s))))
                  e (<[current := start_tf kargv (e_entry elf)]> (xtf s))) ∧
    mm_ok t ∧ mm_count t = 1 ∧ areas t ≡ₚ stack_area :: (seg_area <$> hs) ∧
    program_loaded user_lo user_hi c hs kargv d (amc (xa s)) m'.
Proof using kmalloc_fresh kmalloc_some kbuf_kernel kbuf_own KL. intros. by eapply load_icode_run. Qed.

End program.
End exec_file.
(** * An example: a program of four bytes of text and four of data that the file does not have *)

Import Frames PmmManager FitAlloc PageTable AddrSpace Exec.
#[local] Existing Instance firstfit_pmm_manager.
#[local] Existing Instance firstfit_laws.
#[local] Existing Instance PageTable.no_swap.
#[local] Existing Instance Sysfile.demo_heap.
#[local] Existing Instance Sysfile.demo_devs.
#[local] Existing Instance Sysfile.demo_kheap.
#[local] Existing Instance Sysfile.demo_kheap_laws.

Definition demo_kbuf : Z := 0xC2000000.
#[local] Instance demo_sys : exec_files (usys (D := unit)) := sys_files demo_kbuf.

Definition demo_elf : list Z :=
  mjoin [le 4 ELF_MAGIC; replicate 12 0; le 2 2; le 2 3; le 4 1; le 4 0x800010; le 4 52; le 4 0; le 4 0;
         le 2 52; le 2 32; le 2 1; le 2 0; le 2 0; le 2 0;
         le 4 ELF_PT_LOAD; le 4 84; le 4 0x800010; le 4 0x800010; le 4 4; le 4 8; le 4 7; le 4 4096;
         [0x31; 0xC0; 0xEB; 0xFE]].
Definition demo_hdr : elfhdr := elf_of (slice demo_elf 0 sizeof_elfhdr).
Definition demo_ph : proghdr := mkPh ELF_PT_LOAD 84 0x800010 0x800010 4 8 7 4096.

Definition demo_prog : sfs_inode := mkSin (mkDin 88 SFS_TYPE_FILE 1 1 (7 :: replicate 11 0) 0) false 1 1 1.
Definition demo_image : gmap Z Z := list_to_map (zip (seqZ 28672 88) demo_elf).
Definition demo_image_fs : sfs_fs := set_inodes (set_disk SfsFile.demo_fs demo_image) {[5 := demo_prog]}.
Definition demo_open : file := mkFile FD_OPENED true false 3 0 (Some (NSfs 0 5)) 1.
Definition demo_files : vfs (D := unit) :=
  mkVfs {[0 := demo_image_fs]} [] ∅ None {[0 := mkFiles None (<[3%nat := demo_open]> fd_array_init) 1]} 0 ∅ tt.
Definition demo_caller : usys (D := unit) := mkUsys demo_files None false ∅.

(** Twenty free frames; the directory of the kernel is in frame 0. *)
Definition demo_frames : pmm := mkPmm (list_to_map ((λ i, (i, mkPage 0 1 0)) <$> seqZ 0 24)) [] 0.
Definition demo_pool : pmm := FitAlloc.run (fit_init_memmap 2 20) demo_frames.
Definition demo_machine : @machine pmm := mkMachine demo_pool ∅ 24 0 ∅ false.
Definition demo_start : xstate (S := pmm) (F := usys (D := unit)) := mkX (mkAstate demo_machine ∅ ∅ ∅ (mkQueue [] ∅)) demo_caller ∅.

Lemma demo_frames_page i pg : pages demo_frames !! i = Some pg → 0 ≤ i < 24 ∧ pg = mkPage 0 1 0.
Proof.
  intros H. apply elem_of_list_to_map_2, list_elem_of_fmap in H as (j & [= -> ->] & Hj).
  apply elem_of_seqZ in Hj. split; [lia|done].
Qed.

Lemma demo_frames_inv : fit_inv demo_frames.
Proof.
  split; [done| |done|done]. split; [..|done].
  - intros i [pg Hi]. apply demo_frames_page in Hi as [? _]. unfold max_frames. lia.
  - intros i pg Hi. apply demo_frames_page in Hi as [_ ->]. simpl. split; [done|set_solver].
  - intros b Hb. by apply elem_of_nil in Hb.
  - intros i Hi. apply elem_of_free_set in Hi as (b & Hb & _). by apply elem_of_nil in Hb.
Qed.

Lemma demo_pool_inv : fit_inv demo_pool.
Proof.
  destruct (fit_init_memmap_run demo_frames [] 2 20 demo_frames_inv) as (s' & Hrun & Hfa & _); [lia| |done|].
  - intros i Hi. exists (mkPage 0 1 0). split; [|done].
    cbn [pages demo_frames]. apply (elem_of_list_to_map_1' (M := gmap Z)).
    + intros pg Hpg. by apply list_elem_of_fmap in Hpg as (j & [= _ ->] & _).
    + apply list_elem_of_fmap. exists i. split; [done|]. apply elem_of_seqZ. lia.
  - unfold demo_pool, FitAlloc.run. rewrite Hrun. by eapply fit_inv_intro.
Qed.

Lemma demo_no_entry f i : read demo_machine (f, i) = 0.
Proof. unfold read, demo_machine, PageTable.mem. by rewrite lookup_empty. Qed.

Lemma demo_ram_ok : space_ok user_lo user_hi demo_machine 0.
Proof.
  assert (∀ d, pde_at demo_machine 0 d = 0) as Hpde by (intros d; apply demo_no_entry).
  assert (∀ v, pte_at demo_machine 0 v = 0) as Hpte by (intros v; apply pte_at_absent; by rewrite Hpde).
  assert (used demo_machine = ∅) as Hused by (apply (bool_decide_unpack _); vm_compute; exact I).
  split.
  - apply demo_pool_inv.
  - intros f Hf.
    assert (set_Forall (λ f, f < 24) (pm_frames (pm demo_machine))) as H by (apply (bool_decide_unpack _); vm_compute; exact I).
    by apply H.
  - apply (bool_decide_unpack _). vm_compute. exact I.
  - intros d _. by rewrite Hpde.
  - intros d d' _ _. by rewrite Hpde.
  - intros v _. by rewrite Hpte.
  - intros f Hf. rewrite Hused in Hf. exfalso. exact (not_elem_of_empty f Hf).
  - intros _ v e _ He. unfold demo_machine, tlb in He. by rewrite lookup_empty in He.
Qed.

Lemma demo_kbuf_kernel : KERNBASE ≤ demo_kbuf ∧ demo_kbuf + PGSIZE ≤ Vmm.KERNTOP.
Proof. vm_compute. intuition discriminate. Qed.
Lemma demo_kbuf_own H a : kaddr H IOBUF_SIZE = Some a → apart_of a demo_kbuf PGSIZE.
Proof. simpl. case_bool_decide; [|done]. intros [= <-]. right. by vm_compute. Qed.
#[local] Instance demo_sys_laws : exec_files_laws (usys (D := unit)) := sys_files_laws demo_kbuf demo_kbuf_kernel demo_kbuf_own.

Lemma demo_backed_prog : backed (fsys demo_caller) 0 5 demo_image_fs SfsFile.demo_F demo_prog.
Proof.
  split; try done.
  - apply SfsFile.fs_ok_inodes, SfsFile.fs_ok_disk, SfsFile.demo_fs_ok.
  - assert (∀ i, 1 ≤ i < 12 → SfsFile.bmap demo_image (din demo_prog) i = 0) as Hz.
    { intros i Hi. unfold SfsFile.bmap. rewrite decide_True by lia. cbn [direct din demo_prog].
      replace (Z.to_nat i) with (Datatypes.S (Z.to_nat (i - 1))) by lia. apply (lookup_total_replicate_2 11). lia. }
    split; cbn [nblocks din demo_prog indirect]; try done; try lia.
    + intros i Hi. assert (i = 0) as -> by lia. split; [by vm_compute|]. apply (bool_decide_unpack (7 ∉ SfsFile.demo_F)). by vm_compute.
    + intros i Hi. destruct (decide (i < 12)); [apply Hz; lia|]. unfold SfsFile.bmap. by rewrite decide_False by lia.
    + intros i Hi. assert (i = 0) as -> by lia. by vm_compute.
Qed.

Lemma demo_held : file_holds 3 demo_elf demo_caller.
Proof.
  exists demo_open. split; [|done|done|split_and!; [done|done|by eexists]].
  exists 0, 5, demo_image_fs, SfsFile.demo_F, demo_prog. split_and!.
  - split; try done. exists (mkFiles None (<[3%nat := demo_open]> fd_array_init) 1). split_and!; done.
  - apply demo_backed_prog.
  - split; done.
  - done.
  - vm_compute. reflexivity.
Qed.

Lemma demo_elf_ok : elf_ok demo_elf demo_hdr [demo_ph].
Proof.
  split.
  - split; [|vm_compute; reflexivity]. apply (bool_decide_unpack (Forall (λ b, 0 ≤ b < 256) demo_elf)). vm_compute. exact I.
  - split; [vm_compute; discriminate|reflexivity].
  - vm_compute. reflexivity.
  - vm_compute. intuition discriminate.
  - vm_compute. reflexivity.
  - apply Forall_singleton. split; vm_compute; intuition discriminate.
  - split; [constructor|exact I].
Qed.

Lemma demo_loadable : loadable demo_new_mm 0 user_lo user_hi demo_start 7 9 3 demo_elf [demo_ph].
Proof.
  split.
  - vm_compute. intuition discriminate.
  - reflexivity.
  - split; [reflexivity|]. cbn [mms xa demo_start]. rewrite dom_empty_L. apply not_elem_of_empty.
  - split_and!; [apply demo_ram_ok|reflexivity|]. intros y _. change (present (read demo_machine (0, y)) = false).
    by rewrite demo_no_entry.
  - apply demo_held.
  - apply (bool_decide_unpack _). vm_compute. exact I.
Qed.

Lemma load_icode_correct_witness :
  ∃ s' d t, load_icode demo_kmalloc demo_new_mm 0 (λ _, fail EPanic) 7 3 [[104; 105]] demo_start = Ret (0, s') ∧
    mms (xa s') !! 9 = Some (mkAspace t d false) ∧
    user_byte (amc (xa s')) d 0x800013 = Some 0xFE ∧ user_byte (amc (xa s')) d 0x800014 = Some 0.
Proof.
  destruct (load_icode_correct demo_kbuf demo_kbuf_kernel demo_kbuf_own demo_kmalloc demo_new_mm 0 (λ _, fail EPanic)
    demo_kmalloc_fresh (λ h, ex_intro _ _ eq_refl) demo_start 7 3 demo_elf demo_hdr [demo_ph] 9 [[104; 105]])
    as (m' & d & t & e & Hrun & _ & _ & _ & Hpl).
  - exact demo_elf_ok.
  - exact demo_loadable.
  - vm_compute. discriminate.
  - apply Forall_singleton. split; [|vm_compute; discriminate]. repeat constructor; lia.
  - vm_compute. discriminate.
  - eexists _, d, t. split; [exact Hrun|]. split; [reflexivity|].
    pose proof (Forall_inv (pl_segs _ _ _ _ _ _ _ _ Hpl)) as Hs. cbn [amc xa].
    split.
    + rewrite (proj1 Hs); [vm_compute; reflexivity|vm_compute; intuition discriminate].
    + rewrite (proj1 Hs); [vm_compute; reflexivity|vm_compute; intuition discriminate].
Defined.

End ExecFile.
