(* ===== verification/Trap.v ===== *)
(** System calls and traps: the stubs of user/libs/syscall.c, the table of kern/syscall/syscall.c and [trap] of
    kern/trap/trap.c.

    The functions that the table leads to are behind the interface [kernel]: a call of one of them is a value of
    [kcall].  A call that does not return, because the process exits, answers [None]. *)
From S2P Require Import Prelude ProcData.

Module Trap.
Import ProcData.
Set Default Proof Using "Type".

(** libs/unistd.h. *)
Definition T_SYSCALL : Z := 0x80.
Definition SYS_exit : Z := 1.
Definition SYS_fork : Z := 2.
Definition SYS_wait : Z := 3.
Definition SYS_exec : Z := 4.
Definition SYS_yield : Z := 10.
Definition SYS_sleep : Z := 11.
Definition SYS_kill : Z := 12.
Definition SYS_gettime : Z := 17.
Definition SYS_getpid : Z := 18.
Definition SYS_putc : Z := 30.
Definition SYS_pgdir : Z := 31.
Definition SYS_open : Z := 100.
Definition SYS_close : Z := 101.
Definition SYS_read : Z := 102.
Definition SYS_write : Z := 103.
Definition SYS_seek : Z := 104.
Definition SYS_delete : Z := 105.
Definition SYS_fstat : Z := 110.
Definition SYS_fsync : Z := 111.
Definition SYS_getcwd : Z := 121.
Definition SYS_mkdir : Z := 122.
Definition SYS_chcwd : Z := 123.
Definition SYS_getdirentry : Z := 128.
Definition SYS_dup : Z := 130.
Definition SYS_malloc : Z := 131.
Definition SYS_mem : Z := 132.
Definition SYS_rename : Z := 133.
Definition SYS_check_pmm : Z := 134.
Definition SYS_check_swap : Z := 135.
Definition SYS_check_sched : Z := 136.
Definition SYS_change_swap : Z := 137.
Definition SYS_listProc : Z := 139.
Definition SYS_current_vm : Z := 140.
Definition SYS_queue : Z := 150.
Definition SYS_change_sched : Z := 152.
Definition SYS_stride_queue : Z := 153.
Definition SYS_list_wait : Z := 154.
Definition SYS_lab6_set_priority : Z := 255.

(** kern/trap/trap.h and kern/mm/memlayout.h. *)
Definition T_PGFLT : Z := 14.
Definition IRQ_OFFSET : Z := 32.
Definition IRQ_TIMER : Z := 0.
Definition IRQ_KBD : Z := 1.
Definition IRQ_COM1 : Z := 4.
Definition IRQ_IDE1 : Z := 14.
Definition IRQ_IDE2 : Z := 15.
Definition T_SWITCH_TOU : Z := 120.
Definition T_SWITCH_TOK : Z := 121.
Definition KERNEL_CS : Z := 8.
Definition MAX_ARGS : Z := 5.

Record pushregs := mkRegs {
  reg_edi : Z; reg_esi : Z; reg_ebp : Z; reg_oesp : Z; reg_ebx : Z; reg_edx : Z; reg_ecx : Z; reg_eax : Z }.
Record trapframe := mkFrame {
  tf_regs : pushregs; tf_gs : Z; tf_fs : Z; tf_es : Z; tf_ds : Z; tf_trapno : Z; tf_err : Z; tf_eip : Z; tf_cs : Z;
  tf_eflags : Z; tf_esp : Z; tf_ss : Z }.

Definition set_eax (f : trapframe) (v : Z) : trapframe :=
  let r := tf_regs f in
  mkFrame (mkRegs (reg_edi r) (reg_esi r) (reg_ebp r) (reg_oesp r) (reg_ebx r) (reg_edx r) (reg_ecx r) v)
    (tf_gs f) (tf_fs f) (tf_es f) (tf_ds f) (tf_trapno f) (tf_err f) (tf_eip f) (tf_cs f) (tf_eflags f) (tf_esp f) (tf_ss f).

(** The kernel function that a handler calls, with its arguments. *)
Inductive kcall :=
  | do_exit (error_code : Z) | do_fork (stack : Z) | do_wait (pid store : Z) | do_execve (name argc argv : Z)
  | do_yield | do_kill (pid : Z) | current_pid | cputchar (c : Z) | print_pgdir | ticks
  | lab6_set_priority (priority : Z) | do_sleep (time : Z)
  | sysfile_open (path open_flags : Z) | sysfile_delete (path type : Z) | sysfile_close (fd : Z)
  | sysfile_read (fd base len : Z) | sysfile_write (fd base len : Z) | sysfile_seek (fd pos whence : Z)
  | sysfile_fstat (fd stat : Z) | sysfile_fsync (fd : Z) | sysfile_getcwd (buf len : Z) | sysfile_mkdir (path : Z)
  | sysfile_getdirentry (fd direntp : Z) | sysfile_dup (fd1 fd2 : Z) | do_malloc (n : Z) | do_queue | print_listProc
  | print_current_vm | do_mem | sysfile_chdir (path : Z) | sysfile_rename (old_name new_name : Z) | pmm_user_check
  | swap_user_check | sched_user_check | do_change_swap (mode : Z) | do_change_sched (mode : Z) | do_stride_queue
  | do_list_wait.

(** What traps use of the kernel: the calls, with the trap frame that [do_execve] makes of the caller's; [do_pgfault]
    in the address space [check_mm_struct] or in that of the process; the clock, the console and the scheduler; and
    what they look at of the current process. *)
Class kernel (K : Type) := {
  call : kcall → M K (option (Z * option trapframe));
  do_pgfault : bool → Z → M K Z;
  ticks_inc : M K unit;
  run_timer_list : M K unit;
  cons_getc : M K Z;
  dev_stdin_write : Z → M K unit;
  schedule : M K unit;
  check_mm : K → bool;
  has_current : K → bool;
  is_idle : K → bool;
  exiting : K → bool;
  need_resched : K → bool }.

Section trap.
Context {K : Type} `{KE : kernel K}.
(** What is in [%eax] when a handler without a result returns. *)
Context (undef : Z).

(** The trap frames by their address, [current->tf], and the rest. *)
Record tstate := mkT { tframes : gmap Z trapframe; tf : Z; kst : K }.
Definition in_k {A} (c : M K A) : M tstate A := λ s,
  match c (kst s) with Ret (a, k) => Ret (a, mkT (tframes s) (tf s) k) | Err e => Err e end.
Definition frame_at (t : Z) : M tstate trapframe := deref (λ s, tframes s !! t).
Definition frame_set (t : Z) (f : trapframe) : M tstate unit := modify (λ s, mkT (<[t := f]> (tframes s)) (tf s) (kst s)).
Definition set_tf (t : Z) : M tstate unit := modify (λ s, mkT (tframes s) t (kst s)).

(** * kern/syscall/syscall.c *)

(** A handler that returns what the function answers, one that returns 0 and one that returns nothing. *)
Definition returns (c : kcall) : M tstate (option (Z * option trapframe)) := in_k (call c).
Definition returns_0 (c : kcall) : M tstate (option (Z * option trapframe)) :=
  r ← in_k (call c); mret ((λ x : Z * option trapframe, (0, x.2)) <$> r).
Definition returns_void (c : kcall) : M tstate (option (Z * option trapframe)) :=
  r ← in_k (call c); mret ((λ x : Z * option trapframe, (undef, x.2)) <$> r).

Notation handler := (list Z → M tstate (option (Z * option trapframe))).
Notation "a .[ i ]" := (a !!! i%nat) (at level 2, i at level 200, format "a .[ i ]").

Definition sys_exit : handler := λ arg, returns (do_exit (s32 arg.[0])).
Definition sys_fork : handler := λ arg, t ← gets tf; f ← frame_at t; returns (do_fork (tf_esp f)).
Definition sys_wait : handler := λ arg, returns (do_wait (s32 arg.[0]) arg.[1]).
Definition sys_exec : handler := λ arg, returns (do_execve arg.[0] (s32 arg.[1]) arg.[2]).
Definition sys_yield : handler := λ arg, returns do_yield.
Definition sys_kill : handler := λ arg, returns (do_kill (s32 arg.[0])).
Definition sys_getpid : handler := λ arg, returns current_pid.
Definition sys_putc : handler := λ arg, returns_0 (cputchar (s32 arg.[0])).
Definition sys_pgdir : handler := λ arg, returns_0 print_pgdir.
Definition sys_gettime : handler := λ arg, returns ticks.
Definition sys_lab6_set_priority : handler := λ arg, returns_0 (lab6_set_priority arg.[0]).
Definition sys_sleep : handler := λ arg, returns (do_sleep arg.[0]).
Definition sys_open : handler := λ arg, returns (sysfile_open arg.[0] arg.[1]).
Definition sys_delete : handler := λ arg, returns (sysfile_delete arg.[0] arg.[1]).
Definition sys_close : handler := λ arg, returns (sysfile_close (s32 arg.[0])).
Definition sys_read : handler := λ arg, returns (sysfile_read (s32 arg.[0]) arg.[1] arg.[2]).
Definition sys_write : handler := λ arg, returns (sysfile_write (s32 arg.[0]) arg.[1] arg.[2]).
Definition sys_seek : handler := λ arg, returns (sysfile_seek (s32 arg.[0]) (s32 arg.[1]) (s32 arg.[2])).
Definition sys_fstat : handler := λ arg, returns (sysfile_fstat (s32 arg.[0]) arg.[1]).
Definition sys_fsync : handler := λ arg, returns (sysfile_fsync (s32 arg.[0])).
Definition sys_getcwd : handler := λ arg, returns (sysfile_getcwd arg.[0] arg.[1]).
Definition sys_mkdir : handler := λ arg, returns (sysfile_mkdir arg.[0]).
Definition sys_getdirentry : handler := λ arg, returns (sysfile_getdirentry (s32 arg.[0]) arg.[1]).
Definition sys_dup : handler := λ arg, returns (sysfile_dup (s32 arg.[0]) (s32 arg.[1])).
Definition sys_malloc : handler := λ arg, returns (do_malloc (s32 arg.[0])).
Definition sys_queue : handler := λ arg, returns_void do_queue.
Definition sys_listProc : handler := λ arg, returns_0 print_listProc.
Definition sys_current_vm : handler := λ arg, returns_void print_current_vm.
Definition sys_mem : handler := λ arg, returns_void do_mem.
Definition sys_chcwd : handler := λ arg, returns (sysfile_chdir arg.[0]).
Definition sys_rename : handler := λ arg, returns (sysfile_rename arg.[0] arg.[1]).
Definition sys_check_pmm : handler := λ arg, returns_void pmm_user_check.
Definition sys_check_swap : handler := λ arg, returns_void swap_user_check.
Definition sys_check_sched : handler := λ arg, returns_void sched_user_check.
Definition sys_change_swap : handler := λ arg, returns_0 (do_change_swap arg.[0]).
Definition sys_change_sched : handler := λ arg, returns_0 (do_change_sched arg.[0]).
Definition sys_stride_queue : handler := λ arg, returns_0 do_stride_queue.
Definition sys_list_wait : handler := λ arg, returns_void do_list_wait.

Definition syscall_list : list (Z * handler) :=
  [(SYS_exit, sys_exit); (SYS_fork, sys_fork); (SYS_wait, sys_wait); (SYS_exec, sys_exec); (SYS_yield, sys_yield);
   (SYS_kill, sys_kill); (SYS_getpid, sys_getpid); (SYS_putc, sys_putc); (SYS_pgdir, sys_pgdir); (SYS_gettime, sys_gettime);
   (SYS_lab6_set_priority, sys_lab6_set_priority); (SYS_sleep, sys_sleep); (SYS_open, sys_open); (SYS_delete, sys_delete);
   (SYS_close, sys_close); (SYS_read, sys_read); (SYS_write, sys_write); (SYS_seek, sys_seek); (SYS_fstat, sys_fstat);
   (SYS_fsync, sys_fsync); (SYS_getcwd, sys_getcwd); (SYS_mkdir, sys_mkdir); (SYS_chcwd, sys_chcwd);
   (SYS_getdirentry, sys_getdirentry); (SYS_dup, sys_dup); (SYS_malloc, sys_malloc); (SYS_mem, sys_mem);
   (SYS_queue, sys_queue); (SYS_listProc, sys_listProc); (SYS_current_vm, sys_current_vm); (SYS_rename, sys_rename);
   (SYS_check_pmm, sys_check_pmm); (SYS_check_swap, sys_check_swap); (SYS_check_sched, sys_check_sched);
   (SYS_change_swap, sys_change_swap); (SYS_change_sched, sys_change_sched); (SYS_stride_queue, sys_stride_queue);
   (SYS_list_wait, sys_list_wait)].
Definition NUM_SYSCALLS : Z := 256.
(** The entry of the array; the ones between are NULL. *)
Definition syscalls (num : Z) : option handler := (λ x : nat * (Z * handler), x.2.2) <$> list_find (λ p : Z * handler, p.1 = num) syscall_list.

(** [None] when the process has exited. *)
Definition syscall : M tstate (option unit) :=
  t ← gets tf;
  f ← frame_at t;
  let r := tf_regs f in
  let num := s32 (reg_eax r) in
  match (if (0 <=? num) && (num <? NUM_SYSCALLS) then syscalls num else None) with
  | None => fail EPanic                         (* panic("undefined syscall ...") *)
  | Some h =>
      o ← h [reg_edx r; reg_ecx r; reg_ebx r; reg_edi r; reg_esi r];
      match o with
      | None => mret None
      | Some (ret, new) =>
          match new with Some f' => frame_set t f' | None => mret tt end ;;
          f ← frame_at t;
          frame_set t (set_eax f (u32 ret)) ;;
          mret (Some tt)
      end
  end.

(** * kern/trap/trap.c *)

Definition trap_in_kernel (f : trapframe) : bool := tf_cs f =? KERNEL_CS.

Definition pgfault_handler (tf_err : Z) : M K Z :=
  c ← gets check_mm;
  if c : bool then i ← gets is_idle; assert i ;; do_pgfault true tf_err else
  h ← gets has_current;
  if negb h then fail EPanic else do_pgfault false tf_err.

(** [None] when the process has exited. *)
Definition trap_dispatch (t : Z) : M tstate (option unit) :=
  f ← frame_at t;
  let no := tf_trapno f in
  if no =? T_PGFLT then
    ret ← in_k (pgfault_handler (tf_err f));
    if negb (ret =? 0) then fail EPanic else mret (Some tt)
  else if no =? T_SYSCALL then syscall
  else if no =? IRQ_OFFSET + IRQ_TIMER then
    in_k ticks_inc ;; c ← in_k (gets has_current); assert c ;; in_k run_timer_list ;; mret (Some tt)
  else if (no =? IRQ_OFFSET + IRQ_COM1) || (no =? IRQ_OFFSET + IRQ_KBD) then
    c ← in_k cons_getc; in_k (dev_stdin_write c) ;; mret (Some tt)
  else if (no =? T_SWITCH_TOU) || (no =? T_SWITCH_TOK) then fail EPanic
  else if (no =? IRQ_OFFSET + IRQ_IDE1) || (no =? IRQ_OFFSET + IRQ_IDE2) then mret (Some tt)
  else
    c ← in_k (gets has_current);
    if c : bool then _ ← in_k (call (do_exit (- E_KILLED))); mret None
    else fail EPanic.

Definition trap (t : Z) : M tstate (option unit) :=
  c ← in_k (gets has_current);
  if negb c then trap_dispatch t else
  otf ← gets tf;
  set_tf t ;;
  f ← frame_at t;
  let in_kernel := trap_in_kernel f in
  o ← trap_dispatch t;
  match o with
  | None => mret None
  | Some _ =>
      set_tf otf ;;
      if in_kernel : bool then mret (Some tt) else
      e ← in_k (gets exiting);
      if e : bool then _ ← in_k (call (do_exit (- E_KILLED))); mret None else
      n ← in_k (gets need_resched);
      (if n : bool then in_k schedule else mret tt) ;;
      mret (Some tt)
  end.

(** * user/libs/syscall.c *)

(** The processor saves the registers of the program at [t], the kernel runs, and the registers are restored. *)
Definition interrupt (t : Z) (f : trapframe) : M tstate (option trapframe) :=
  frame_set t f ;;
  o ← trap t;
  match o with None => mret None | Some _ => f ← frame_at t; mret (Some f) end.

(** The registers at [int T_SYSCALL]; [ctx] has those that the stub does not load. *)
Definition call_frame (ctx : trapframe) (num : Z) (a : list Z) : trapframe :=
  let r := tf_regs ctx in
  mkFrame (mkRegs a.[3] a.[4] (reg_ebp r) (reg_oesp r) a.[2] a.[0] a.[1] (u32 num))
    (tf_gs ctx) (tf_fs ctx) (tf_es ctx) (tf_ds ctx) T_SYSCALL (tf_err ctx) (tf_eip ctx) (tf_cs ctx) (tf_eflags ctx) (tf_esp ctx) (tf_ss ctx).

(** [syscall(num, ...)]: [va_arg] finds [junk] behind the arguments that were given.  The registers afterwards, with
    the result in [%eax]. *)
Definition user_syscall (junk : list Z) (t : Z) (ctx : trapframe) (num : Z) (args : list Z) : M tstate (option trapframe) :=
  interrupt t (call_frame ctx num (take (Z.to_nat MAX_ARGS) ((u32 <$> args) ++ junk))).

(** What the stub of each call passes on: its number and its arguments. *)
Definition stub (c : kcall) : Z * list Z :=
  match c with
  | do_exit error_code => (SYS_exit, [error_code])
  | do_fork _ => (SYS_fork, [])
  | do_wait pid store => (SYS_wait, [pid; store])
  | do_yield => (SYS_yield, [])
  | do_kill pid => (SYS_kill, [pid])
  | current_pid => (SYS_getpid, [])
  | cputchar c => (SYS_putc, [c])
  | print_pgdir => (SYS_pgdir, [])
  | lab6_set_priority priority => (SYS_lab6_set_priority, [priority])
  | do_sleep time => (SYS_sleep, [time])
  | ticks => (SYS_gettime, [])
  | do_execve name argc argv => (SYS_exec, [name; argc; argv])
  | sysfile_open path open_flags => (SYS_open, [path; open_flags])
  | sysfile_delete path ty => (SYS_delete, [path; ty])
  | sysfile_close fd => (SYS_close, [fd])
  | sysfile_read fd base len => (SYS_read, [fd; base; len])
  | sysfile_write fd base len => (SYS_write, [fd; base; len])
  | sysfile_seek fd pos whence => (SYS_seek, [fd; pos; whence])
  | sysfile_fstat fd st => (SYS_fstat, [fd; st])
  | sysfile_fsync fd => (SYS_fsync, [fd])
  | sysfile_getcwd buf len => (SYS_getcwd, [buf; len])
  | sysfile_mkdir path => (SYS_mkdir, [path])
  | sysfile_getdirentry fd d => (SYS_getdirentry, [fd; d])
  | sysfile_dup fd1 fd2 => (SYS_dup, [fd1; fd2])
  | do_malloc n => (SYS_malloc, [n])
  | do_queue => (SYS_queue, [])
  | print_listProc => (SYS_listProc, [])
  | print_current_vm => (SYS_current_vm, [])
  | do_mem => (SYS_mem, [])
  | sysfile_chdir path => (SYS_chcwd, [path])
  | sysfile_rename a b => (SYS_rename, [a; b])
  | pmm_user_check => (SYS_check_pmm, [])
  | swap_user_check => (SYS_check_swap, [])
  | sched_user_check => (SYS_check_sched, [])
  | do_change_swap mode => (SYS_change_swap, [mode])
  | do_change_sched mode => (SYS_change_sched, [mode])
  | do_stride_queue => (SYS_stride_queue, [])
  | do_list_wait => (SYS_list_wait, [])
  end.
Definition user_call (junk : list Z) (t : Z) (ctx : trapframe) (c : kcall) : M tstate (option trapframe) :=
  user_syscall junk t ctx (stub c).1 (stub c).2.

(** * A system call is a call *)

(** The arguments have the types of the stub: [int], or unsigned and pointers. *)
Definition is_int (x : Z) : Prop := - 2 ^ 31 ≤ x < 2 ^ 31.
Definition typed (c : kcall) : Prop :=
  match c with
  | do_exit x | do_kill x | cputchar x | do_malloc x | sysfile_close x | sysfile_fsync x => is_int x
  | do_wait x y | sysfile_fstat x y | sysfile_getdirentry x y => is_int x ∧ is_u32 y
  | sysfile_dup x y => is_int x ∧ is_int y
  | do_execve x y z => is_u32 x ∧ is_int y ∧ is_u32 z
  | sysfile_seek x y z => is_int x ∧ is_int y ∧ is_int z
  | sysfile_read x y z | sysfile_write x y z => is_int x ∧ is_u32 y ∧ is_u32 z
  | lab6_set_priority x | do_sleep x | sysfile_mkdir x | sysfile_chdir x | do_change_swap x | do_change_sched x => is_u32 x
  | sysfile_open x y | sysfile_delete x y | sysfile_getcwd x y | sysfile_rename x y => is_u32 x ∧ is_u32 y
  | _ => True
  end.

(** What the caller gets, from what the function answers. *)
Inductive answer := Value | Zero | Nothing.
Definition answer_of (c : kcall) : answer :=
  match c with
  | cputchar _ | print_pgdir | lab6_set_priority _ | print_listProc | do_change_swap _ | do_change_sched _ | do_stride_queue => Zero
  | do_queue | print_current_vm | do_mem | pmm_user_check | swap_user_check | sched_user_check | do_list_wait => Nothing
  | _ => Value
  end.
Definition answered (c : kcall) (r : Z) : Z := match answer_of c with Value => r | Zero => 0 | Nothing => undef end.

(** The specification: the kernel function runs, a killed process ends, and another process may get its turn before
    the program goes on with [ctx] and the answer. *)
Definition spec_call (ctx : trapframe) (c : kcall) : M K (option trapframe) :=
  o ← call (match c with do_fork _ => do_fork (tf_esp ctx) | _ => c end);
  match o with
  | None => mret None
  | Some (r, new) =>
      e ← gets exiting;
      if e : bool then _ ← call (do_exit (- E_KILLED)); mret None else
      n ← gets need_resched;
      (if n : bool then schedule else mret tt) ;;
      mret (Some (set_eax (default ctx new) (u32 (answered c r))))
  end.
(** ** The table *)

Definition handler_of (c : kcall) : handler :=
  match c with
  | do_exit _ => sys_exit | do_fork _ => sys_fork | do_wait _ _ => sys_wait | do_execve _ _ _ => sys_exec
  | do_yield => sys_yield | do_kill _ => sys_kill | current_pid => sys_getpid | cputchar _ => sys_putc
  | print_pgdir => sys_pgdir | ticks => sys_gettime | lab6_set_priority _ => sys_lab6_set_priority | do_sleep _ => sys_sleep
  | sysfile_open _ _ => sys_open | sysfile_delete _ _ => sys_delete | sysfile_close _ => sys_close
  | sysfile_read _ _ _ => sys_read | sysfile_write _ _ _ => sys_write | sysfile_seek _ _ _ => sys_seek
  | sysfile_fstat _ _ => sys_fstat | sysfile_fsync _ => sys_fsync | sysfile_getcwd _ _ => sys_getcwd
  | sysfile_mkdir _ => sys_mkdir | sysfile_getdirentry _ _ => sys_getdirentry | sysfile_dup _ _ => sys_dup
  | do_malloc _ => sys_malloc | do_queue => sys_queue | print_listProc => sys_listProc | print_current_vm => sys_current_vm
  | do_mem => sys_mem | sysfile_chdir _ => sys_chcwd | sysfile_rename _ _ => sys_rename | pmm_user_check => sys_check_pmm
  | swap_user_check => sys_check_swap | sched_user_check => sys_check_sched | do_change_swap _ => sys_change_swap
  | do_change_sched _ => sys_change_sched | do_stride_queue => sys_stride_queue | do_list_wait => sys_list_wait
  end.

Lemma syscalls_stub c : syscalls (stub c).1 = Some (handler_of c) ∧ 0 ≤ (stub c).1 < NUM_SYSCALLS.
Proof. destruct c; (split; [reflexivity|vm_compute; intuition discriminate]). Qed.

Lemma s32_u32 x : is_int x → s32 (u32 x) = x.
Proof.
  unfold is_int. intros Hx. rewrite <-(s32_small x Hx) at 2. unfold s32. assert (u32 (u32 x) = u32 x) as ->; [|done].
  unfold u32. apply Z.mod_mod. done.
Qed.

Definition kernel_call (f : trapframe) (c : kcall) : kcall := match c with do_fork _ => do_fork (tf_esp f) | _ => c end.

Lemma fork_run f s arg : tframes s !! tf s = Some f → sys_fork arg s = returns (do_fork (tf_esp f)) s.
Proof.
  intros Hf. unfold sys_fork. step using reflexivity. step using (unfold frame_at, deref; rewrite Hf; reflexivity). done.
Qed.

(** The registers that the kernel finds are the arguments of the stub, and the handler calls the function with them. *)
Lemma handler_run junk c f s (a := take (Z.to_nat MAX_ARGS) ((u32 <$> (stub c).2) ++ junk)) :
  typed c → tframes s !! tf s = Some f →
  handler_of c [a.[0]; a.[1]; a.[2]; a.[3]; a.[4]] s =
    (r ← in_k (call (kernel_call f c)); mret ((λ x : Z * option trapframe, (answered c x.1, x.2)) <$> r)) s.
Proof.
  intros Ht Hf.
  assert (∀ k, returns k s = (r ← in_k (call k); mret ((λ x : Z * option trapframe, (x.1, x.2)) <$> r)) s) as Hret.
  { intros k. unfold returns, mbind, M_bind. destruct (in_k (call k) s) as [[[[r n]|] s']|e]; reflexivity. }
  destruct c; cbn [typed] in Ht; unfold handler_of, kernel_call;
    lazymatch goal with
    | |- sys_fork _ _ = _ => rewrite (fork_run f) by done
    | |- ?h _ _ = _ => unfold h
    end.
  all: unfold a; change (Z.to_nat MAX_ARGS) with 5%nat; cbn -[u32 s32 in_k call returns]; rewrite ?s32_u32, ?u32_small by tauto; try apply Hret; reflexivity.
Qed.

(** ** The way into the kernel and back *)

Definition passed (junk : list Z) (ctx : trapframe) (c : kcall) : trapframe :=
  call_frame ctx (stub c).1 (take (Z.to_nat MAX_ARGS) ((u32 <$> (stub c).2) ++ junk)).

Lemma syscall_run junk t ctx c s :
  typed c → tf s = t → tframes s !! t = Some (passed junk ctx c) →
  syscall s =
    match call (kernel_call (passed junk ctx c) c) (kst s) with
    | Err e => Err e
    | Ret (None, k) => Ret (None, mkT (tframes s) t k)
    | Ret (Some (r, new), k) =>
        Ret (Some tt, mkT (<[t := set_eax (default (passed junk ctx c) new) (u32 (answered c r))]> (tframes s)) t k)
    end.
Proof.
  intros Ht <- Hf. destruct (syscalls_stub c) as [Hs Hn]. set (f := passed junk ctx c) in *.
  assert (s32 (reg_eax (tf_regs f)) = (stub c).1) as Hnum.
  { unfold f, passed, call_frame. cbn [tf_regs reg_eax]. apply s32_u32. unfold is_int, NUM_SYSCALLS in *. lia. }
  unfold syscall. step using reflexivity. step using (unfold frame_at, deref; rewrite Hf; reflexivity). cbv zeta.
  rewrite Hnum, (proj2 (Z.leb_le _ _)), (proj2 (Z.ltb_lt _ _)) by lia. cbn [andb]. rewrite Hs.
  pose proof (handler_run junk c f s Ht Hf) as Hh. cbv zeta in Hh. unfold mbind, M_bind at 1. 
  change [reg_edx (tf_regs f); reg_ecx (tf_regs f); reg_ebx (tf_regs f); reg_edi (tf_regs f); reg_esi (tf_regs f)]
    with [((take (Z.to_nat MAX_ARGS) ((u32 <$> (stub c).2) ++ junk)).[0]); ((take (Z.to_nat MAX_ARGS) ((u32 <$> (stub c).2) ++ junk)).[1]);
          ((take (Z.to_nat MAX_ARGS) ((u32 <$> (stub c).2) ++ junk)).[2]); ((take (Z.to_nat MAX_ARGS) ((u32 <$> (stub c).2) ++ junk)).[3]);
          ((take (Z.to_nat MAX_ARGS) ((u32 <$> (stub c).2) ++ junk)).[4])].
  rewrite Hh. unfold mbind, M_bind, in_k. destruct (call (kernel_call f c) (kst s)) as [[[[r new]|] k]|e]; [|done|done].
  cbn [fmap option_fmap option_map mret M_ret fst snd]. unfold frame_at, frame_set, deref, modify, mret, M_ret.
  destruct new as [g|]; cbn [tframes tf kst default].
  - rewrite lookup_insert_eq. cbn [tframes tf kst]. by rewrite insert_insert_eq.
  - rewrite Hf. done.
Qed.

(** What [trap] does after the call, when it came from a program. *)
Definition trap_end : M tstate (option unit) :=
  e ← in_k (gets exiting);
  if e : bool then _ ← in_k (call (do_exit (- E_KILLED))); mret None else
  n ← in_k (gets need_resched);
  (if n : bool then in_k schedule else mret tt) ;;
  mret (Some tt).

Lemma trap_run t f s (s1 := mkT (tframes s) t (kst s)) :
  has_current (kst s) = true → tframes s !! t = Some f → trap_in_kernel f = false → tf_trapno f = T_SYSCALL →
  trap t s =
    match syscall s1 with
    | Err e => Err e
    | Ret (None, s') => Ret (None, s')
    | Ret (Some _, s') => trap_end (mkT (tframes s') (tf s) (kst s'))
    end.
Proof.
  intros Hc Hf Hk Hno. assert (in_k (gets has_current) s = Ret (true, s)) as E0 by (unfold in_k, gets; rewrite Hc; by destruct s).
  assert (trap_dispatch t s1 = syscall s1) as Hdis.
  { unfold trap_dispatch. step using (unfold frame_at, deref; simpl; rewrite Hf; reflexivity). cbv zeta. by rewrite Hno. }
  unfold trap. step using (exact E0). cbn [negb]. step using reflexivity. step using reflexivity. fold s1.
  step using (unfold frame_at, deref; simpl; rewrite Hf; reflexivity). cbv zeta. rewrite Hk.
  change ((trap_dispatch t ≫= λ o, match o with None => mret None | Some _ => set_tf (tf s) ;; trap_end end) s1 =
    match syscall s1 with Err e => Err e | Ret (None, s') => Ret (None, s') | Ret (Some _, s') => trap_end (mkT (tframes s') (tf s) (kst s')) end).
  unfold mbind at 1, M_bind at 1. rewrite Hdis. by destruct (syscall s1) as [[[[]|] s']|e].
Qed.

(** C14: a system call is a call.  Whatever the program asks for through the stubs, with arguments of the right types and
    whatever is behind them: the kernel runs the function that is meant, with these arguments; then a process that was
    killed ends and another one may run; and the program goes on with its registers as they were, the answer in
    [%eax].  The frame of an interrupted trap is current again, and no other trap frame has changed. *)
Theorem user_call_correct junk t ctx c s :
  typed c → trap_in_kernel ctx = false → has_current (kst s) = true →
  match spec_call (passed junk ctx c) c (kst s) with
  | Err e => user_call junk t ctx c s = Err e
  | Ret (o, k) => ∃ s', user_call junk t ctx c s = Ret (o, s') ∧ kst s' = k ∧ (is_Some o → tf s' = tf s) ∧
      ∀ t', t' ≠ t → tframes s' !! t' = tframes s !! t'
  end.
Proof.
  intros Ht Hk Hc. set (f := passed junk ctx c). set (s1 := mkT (<[t := f]> (tframes s)) t (kst s)).
  assert (trap_in_kernel f = false) as Hkf by exact Hk.
  assert (tframes s1 !! t = Some f) as Hf by apply lookup_insert_eq.
  pose proof (syscall_run junk t ctx c s1 Ht eq_refl Hf) as Hsys. fold f in Hsys. change (kst s1) with (kst s) in Hsys.
  assert (∀ g (n : Z), n ≠ t → (<[t := g]> (tframes s1)) !! n = tframes s !! n) as Hoth.
  { intros g n Hn. unfold s1. cbn [tframes]. by rewrite !lookup_insert_ne. }
  set (s0 := mkT (<[t := f]> (tframes s)) (tf s) (kst s)).
  assert (user_call junk t ctx c s =
    match syscall s1 with
    | Err e => Err e
    | Ret (None, s') => Ret (None, s')
    | Ret (Some _, s') =>
        (o ← trap_end; match o with None => mret None | Some _ => f ← frame_at t; mret (Some f) end) (mkT (tframes s') (tf s) (kst s'))
    end) as ->.
  { change (user_call junk t ctx c s) with
      ((o ← trap t; match o with None => mret None | Some _ => f ← frame_at t; mret (Some f) end) s0).
    unfold mbind at 1, M_bind at 1. rewrite (trap_run t f s0 Hc (lookup_insert_eq _ _ _) Hkf eq_refl).
    change (mkT (tframes s0) t (kst s0)) with s1. by destruct (syscall s1) as [[[[]|] s']|e]. }
  rewrite Hsys. unfold spec_call. fold (kernel_call f c).
  unfold mbind, M_bind. destruct (call (kernel_call f c) (kst s)) as [[[[r new]|] k]|e]; [| |reflexivity].
  2: { eexists. split_and!; [reflexivity|done|by intros []|]. intros n Hn. cbn [tframes s1]. by rewrite lookup_insert_ne. }
  set (g := set_eax _ _). unfold trap_end. unfold mbind, M_bind, in_k, gets. cbn [kst tframes tf].
  destruct (exiting k).
  - cbn [kst tframes tf]. destruct (call (do_exit (- E_KILLED)) k) as [[o k']|e]; [|reflexivity].
    eexists. split_and!; [reflexivity|done|by intros []|]. cbn [tframes]. apply Hoth.
  - assert (∀ k', ∃ s', (f ← frame_at t; mret (Some f)) (mkT (<[t := g]> (tframes s1)) (tf s) k') = Ret (Some g, s') ∧ kst s' = k' ∧
      tf s' = tf s ∧ ∀ t', t' ≠ t → tframes s' !! t' = tframes s !! t') as Hend.
    { intros k'. eexists. split_and!.
      - step using (unfold frame_at, deref; simpl; rewrite lookup_insert_eq; reflexivity). reflexivity.
      - done.
      - done.
      - cbn [tframes]. apply Hoth. }
    cbn [kst tframes tf]. destruct (need_resched k).
    + cbn [kst tframes tf]. destruct (schedule k) as [[[] k']|e]; [|reflexivity].
      destruct (Hend k') as (s' & Hrun & H1 & H2 & H3). exists s'. split; [exact Hrun|]. split_and!; done.
    + destruct (Hend k) as (s' & Hrun & H1 & H2 & H3). exists s'. split; [exact Hrun|]. split_and!; done.
Qed.

(** ** What programs can do to the kernel *)

(** A number without an entry in the table stops the kernel. *)
Lemma undefined_syscall f s : tframes s !! tf s = Some f → syscalls (s32 (reg_eax (tf_regs f))) = None → syscall s = Err EPanic.
Proof.
  intros Hf Hn. unfold syscall. step using reflexivity. step using (unfold frame_at, deref; rewrite Hf; reflexivity). cbv zeta.
  rewrite Hn. by destruct (_ && _).
Qed.

(** So does an access of a program to an address that it does not have: the handler gives up before [do_exit]. *)
Lemma user_fault_panics t f s k r : has_current (kst s) = true → tframes s !! t = Some f → tf_trapno f = T_PGFLT →
  pgfault_handler (tf_err f) (kst s) = Ret (r, k) → r ≠ 0 → trap t s = Err EPanic.
Proof.
  intros Hc Hf Hno Hp Hr. unfold trap.
  step using (unfold in_k, gets; rewrite Hc; reflexivity). cbn [negb]. step using reflexivity. step using reflexivity.
  step using (unfold frame_at, deref; simpl; rewrite Hf; reflexivity). cbv zeta.
  assert (trap_dispatch t (mkT (tframes s) t (kst s)) = Err EPanic) as Hd; [|unfold mbind, M_bind; simpl; by rewrite Hd].
  unfold trap_dispatch. step using (unfold frame_at, deref; simpl; rewrite Hf; reflexivity). cbv zeta. rewrite Hno.
  change (T_PGFLT =? T_PGFLT) with true. cbv iota.
  step using (unfold in_k; cbn [kst]; rewrite Hp; reflexivity). by rewrite (proj2 (Z.eqb_neq _ _)).
Qed.

End trap.

(** A kernel that answers a read with the length and the descriptor. *)
#[local] Instance demo_kernel : kernel Z := {|
  call c k := match c with sysfile_read fd base len => Ret (Some (len + fd, None), base) | _ => Ret (None, k) end;
  do_pgfault _ _ k := Ret (0, k); ticks_inc k := Ret (tt, k); run_timer_list k := Ret (tt, k); cons_getc k := Ret (0, k);
  dev_stdin_write _ k := Ret (tt, k); schedule k := Ret (tt, k); check_mm _ := false; has_current _ := true; is_idle _ := false; exiting _ := false; need_resched _ := true |}.
Definition demo_regs : trapframe := mkFrame (mkRegs 1 2 3 4 5 6 7 8) 0 0 0x23 0x23 0 0 0x800020 0x1B 0x200 0xAFFFFF00 0x23.

Lemma user_call_correct_witness :
  ∃ f s', user_call 0 [9; 9; 9; 9; 9] 0xC0008000 demo_regs (sysfile_read (-1) 0x900000 16) (mkT ∅ 0 0) = Ret (Some f, s') ∧
    reg_eax (tf_regs f) = 15 ∧ tf_esp f = 0xAFFFFF00 ∧ kst s' = 0x900000.
Proof.
  pose proof (user_call_correct 0 [9; 9; 9; 9; 9] 0xC0008000 demo_regs (sysfile_read (-1) 0x900000 16) (mkT ∅ 0 0)) as H.
  destruct H as (s' & Hrun & Hk & _).
  - vm_compute. intuition discriminate.
  - reflexivity.
  - reflexivity.
  - eexists _, s'. split; [exact Hrun|]. split; [reflexivity|]. split; [reflexivity|exact Hk].
Defined.

End Trap.
