(* ===== verification/ProcMem.v ===== *)
(** Processes with memory: the environment that Proc.v asks for, built from the address spaces of AddrSpace.v and
    the kernel stacks ([setup_kstack], [put_kstack] and [copy_thread] of kern/process/proc.c), and what [do_fork] and [do_exit] do to
    the whole.  The files of the processes stay behind the interface [proc_files]. *)
From S2P Require Import Prelude Dll Frames PmmManager FitAlloc PageTable Vma Swap Vmm AddrSpace ExitSpace SkewHeap ProcData Sched Proc SfsDisk Exec Trap.

Module ProcMem.
Import Frames PmmManager PageTable Vma Vmm AddrSpace ExitSpace ProcData Sched Proc.
Set Default Proof Using "Type".

(** * Frames that are taken *)

Section taken.
Context {S : Type} `{PM : pmm_manager S} {SW : swapper (S := S)} `{PL : !pmm_laws S}.
Notation machine := (machine (S := S)).
Notation astate := (astate (S := S)).
Context (lo hi : Z).
Implicit Types (m : machine).

(** [m'] is [m] after the frames [q .. q + n - 1] were allocated. *)
Record taken (q n : Z) m m' : Prop := {
  tk_pm : ∃ x, m' = set_pm m x ∧ pm_inv x;
  tk_free : frames (q, n) ⊆ pm_free (pm m) ∧ pm_free (pm m') = pm_free (pm m) ∖ frames (q, n);
  tk_frames : pm_frames (pm m') = pm_frames (pm m) ∧ frames (q, n) ⊆ pm_frames (pm m);
  tk_refs f : f ∉ pm_free (pm m) → ref_of m' f = ref_of m f;
  tk_new f : f ∈ frames (q, n) → ref_of m' f = 0 }.

Lemma taken_in_use q n m m' f : taken q n m m' → f ∈ used m → f ∈ used m' ∧ f ∉ frames (q, n).
Proof.
  intros [_ [Hsub Hfree] [Hfr _] _ _] Hf. unfold used in *. rewrite Hfr, Hfree. clear -Hsub Hf. set_solver.
Qed.

Lemma taken_ok q n m m' d : taken q n m m' → space_ok lo hi m d → space_ok lo hi m' d.
Proof.
  intros Ht Hok. pose proof Ht as [(x & -> & Hxi) [Hsub Hfree] [Hfr _] Href Hnew]. cbn [pm set_pm] in *.
  apply space_ok_set_pm; [done|done|done|set_solver|]. intros f Hf.
  change (default 0 (page_ref f x)) with (ref_of (set_pm m x) f). destruct (decide (f ∈ frames (q, n))) as [Hin|Hout].
  - rewrite Hnew by done. rewrite count_zero; [done|]. intros v Hv [Hp Hm]. apply range_pages_elem in Hv.
    destruct (so_map _ _ _ _ Hok v Hv Hp) as [Hu _]. rewrite Hm in Hu. by destruct (taken_in_use _ _ _ _ _ Ht Hu).
  - rewrite Href by set_solver. apply (so_ref _ _ _ _ Hok). unfold used. set_solver.
Qed.

Lemma taken_forkable boot_pgdir q n (s s' : astate) cur k x :
  taken q n (amc s) (amc s') → mms s' = mms s → mm_of s' = mm_of s →
  forkable lo hi boot_pgdir s cur k x → forkable lo hi boot_pgdir s' cur k x.
Proof.
  intros Ht Hmms Hmm [H1 H2 H3 H4 H5 H6 H7 H8]. pose proof Ht as [(y & Hy & _) [_ Hfree] _ _ _].
  assert (∀ d e, pde_at (amc s') d e = pde_at (amc s) d e) as Hpde by (intros; by rewrite Hy).
  assert (∀ d e, pte_at (amc s') d e = pte_at (amc s) d e) as Hpte by (intros; by rewrite Hy).
  split; [by rewrite Hmm|by rewrite Hmms|done|done|by eapply taken_ok| | |].
  - intros f Hf. eapply taken_in_use; [done|]. apply H6. unfold owns in *.
    destruct Hf as [?|[(y' & ? & ? & ?)|(v & ? & ?)]]; [by left|right; left; exists y'; by rewrite <-Hpde|right; right; exists v; by rewrite <-Hpte].
  - rewrite Hfree, Hy. cbn [cr3 set_pm]. set_solver.
  - intros z Hz. rewrite Hpde. by apply H8.
Qed.

(** The frames that were taken are in use. *)
Lemma taken_new_used q n m m' f : taken q n m m' → f ∈ frames (q, n) → f ∈ used m'.
Proof.
  intros [_ [Hsub Hfree] [Hfr Hin] _ _] Hf. unfold used. rewrite Hfree, Hfr. clear -Hsub Hin Hf. set_solver.
Qed.

Lemma size_take_two (X : gset Z) q : (size X ≤ size (X ∖ frames (q, 2%Z)) + 2)%nat.
Proof.
  assert (frames (q, 2) = {[q; q + 1]}) as ->.
  { apply set_eq. intros i. rewrite elem_of_frames, elem_of_union, !elem_of_singleton. simpl. lia. }
  replace (X ∖ {[q; q + 1]}) with (X ∖ {[q]} ∖ {[q + 1]}) by set_solver.
  pose proof (size_remove_one X q). pose proof (size_remove_one (X ∖ {[q]}) (q + 1)). lia.
Qed.

End taken.

Definition KSTACKPAGE : Z := 2.
Definition KSTACKSIZE : Z := KSTACKPAGE * PGSIZE.
Definition sizeof_trapframe : Z := 76.
Definition sizeof_int : Z := 4.

(** [copy_fs] (clone_flags, current, proc) and [put_fs]. *)
Class proc_files (F : Type) := { fork_files : Z → Z → Z → M F Z; exit_files : Z → M F unit }.

Section procmem.
Context {S : Type} `{PM : pmm_manager S} {SW : swapper (S := S)} {F : Type} `{PF : proc_files F}.
Notation machine := (machine (S := S)).
Notation astate := (astate (S := S)).
Context (kmalloc : gmap Z vma_struct → option Z) (kmalloc_mm kmalloc_proc : gset Z → option Z) (boot_pgdir : Z).
Context (page_fault : Z → M machine unit).
(** The address of [forkret]. *)
Context (forkret : Z).

(** What a new process starts from: the trap frames, by their addresses on the kernel stacks (they are not words of
    the memory of AddrSpace.v), and the [eip] and [esp] of the saved context of each process. *)
Record context := mkContext { ctx_eip : Z; ctx_esp : Z }.
Record threads := mkThreads { tframes : gmap Z Trap.trapframe; contexts : gmap Z context }.

(** Memory, the first frame of the kernel stack of each process, the blocks that hold process structures, threads,
    files. *)
Record psys := mkPsys { pa : astate; kstacks : gmap Z Z; pstructs : gset Z; pth : threads; pf : F }.
Definition in_pa {A} (c : M astate A) : M psys A := λ s,
  match c (pa s) with Ret (a, x) => Ret (a, mkPsys x (kstacks s) (pstructs s) (pth s) (pf s)) | Err e => Err e end.
Definition in_pf {A} (c : M F A) : M psys A := λ s,
  match c (pf s) with Ret (a, x) => Ret (a, mkPsys (pa s) (kstacks s) (pstructs s) (pth s) x) | Err e => Err e end.

Definition kmalloc_struct : M psys (option Z) :=
  s ← get;
  match kmalloc_proc (pstructs s) with
  | None => mret None
  | Some p => put (mkPsys (pa s) (kstacks s) ({[p]} ∪ pstructs s) (pth s) (pf s)) ;; mret (Some p)
  end.
Definition kfree_struct (p : Z) : M psys unit := modify (λ s, mkPsys (pa s) (kstacks s) (pstructs s ∖ {[p]}) (pth s) (pf s)).

Definition setup_kstack (p : Z) : M psys Z :=
  page ← in_pa (in_amc (alloc_pages_loop swap_retries KSTACKPAGE));
  match page with
  | None => mret (- E_NO_MEM)
  | Some q =>
      f ← in_pa (in_amc (KADDR (page2pa q)));
      modify (λ s, mkPsys (pa s) (<[p := f]> (kstacks s)) (pstructs s) (pth s) (pf s)) ;;
      mret 0
  end.
Definition put_kstack (p : Z) : M psys unit :=
  f ← deref (λ s, kstacks s !! p);
  q ← in_pa (in_amc (pa2page (page2pa f)));
  in_pa (in_amc (lift_pm (free_pages q KSTACKPAGE))).

(** The trap frame of the child: that of the parent, but it returns 0 and has its own stack pointer, and
    interrupts are on. *)
Definition child_frame (f : Trap.trapframe) (esp : Z) : Trap.trapframe :=
  let g := Trap.set_eax f 0 in
  Trap.mkFrame (Trap.tf_regs g) (Trap.tf_gs g) (Trap.tf_fs g) (Trap.tf_es g) (Trap.tf_ds g) (Trap.tf_trapno g) (Trap.tf_err g)
    (Trap.tf_eip g) (Trap.tf_cs g) (Z.lor (Trap.tf_eflags g) Exec.FL_IF) esp (Trap.tf_ss g).
(** The place of the trap frame, the last one below [proc->kstack + KSTACKSIZE], for the kernel stack that starts with
    the frame [q]. *)
Definition frame_addr (q : Z) : Z := u32 (KERNBASE + page2pa q + KSTACKSIZE - sizeof_trapframe).

Definition copy_thread (p esp tf : Z) : M psys unit :=
  q ← deref (λ s, kstacks s !! p);
  f ← deref (λ s, tframes (pth s) !! tf);
  modify (λ s, mkPsys (pa s) (kstacks s) (pstructs s)
    (mkThreads (<[frame_addr q := child_frame f esp]> (tframes (pth s))) (<[p := mkContext forkret (frame_addr q)]> (contexts (pth s))))
    (pf s)).

(** The check and the store of [*code_store] in [do_wait]. *)
Definition code_ok (cur a : Z) : M psys bool :=
  o ← gets (λ s, mm_of (pa s) !! cur);
  match o with
  | None => mret (KERN_ACCESS a (u32 (a + sizeof_int)))
  | Some k => in_pa (Exec.in_mm k (user_mem_check a sizeof_int true))
  end.
Definition put_code (a code : Z) : M psys unit := in_pa (in_amc (Exec.user_store page_fault a (SfsDisk.le 4 (u32 code)))).

#[export] Instance mem_env : @proc_env psys := {|
  Proc.new_proc := kmalloc_struct;
  Proc.free_proc := kfree_struct;
  Proc.setup_kstack := setup_kstack;
  Proc.put_kstack := put_kstack;
  Proc.copy_fs fl cur p := in_pf (fork_files fl cur p);
  Proc.put_fs p := in_pf (exit_files p);
  Proc.copy_mm fl cur p := in_pa (AddrSpace.copy_mm kmalloc kmalloc_mm boot_pgdir fl cur p);
  Proc.copy_thread := copy_thread;
  Proc.exit_mm cur := in_pa (AddrSpace.exit_mm boot_pgdir cur);
  Proc.user_mem_ok := code_ok;
  Proc.store_code _ := put_code |}.

(** * Kernel stacks *)

Context `{PL : !pmm_laws S}.
Context (lo hi : Z).
Implicit Types (m : machine).

Lemma setup_kstack_run s cur k x p :
  forkable lo hi boot_pgdir (pa s) cur k x → (∃ b, frames (b, KSTACKPAGE) ⊆ pm_free (pm (amc (pa s)))) →
  ∃ q m1, setup_kstack p s = Ret (0, mkPsys (set_amc (pa s) m1) (<[p := q]> (kstacks s)) (pstructs s) (pth s) (pf s)) ∧
    taken q KSTACKPAGE (amc (pa s)) m1.
Proof.
  intros Hfk [b Hb]. set (m := amc (pa s)) in *. pose proof (fk_dir _ _ _ _ _ _ _ Hfk) as Hok.
  destruct (pm_alloc (pm m) KSTACKPAGE (so_inv _ _ _ _ Hok)) as (r & y & Hal & Hyi & Hyfr & Hr); [done|].
  destruct r as [q|]; [|by destruct Hr as [_ Hr]; destruct (Hr b)].
  destruct Hr as (Hsub & Hfree & Hnew & Hoth). set (m1 := set_pm m y).
  assert (taken q KSTACKPAGE m m1) as Ht.
  { split; [by exists y|by split| | |].
    - split; [done|]. etrans; [exact Hsub|]. by apply pm_free_frames, (so_inv _ _ _ _ Hok).
    - intros f Hf. unfold ref_of, m1. cbn [pm set_pm]. by rewrite Hoth.
    - intros f Hf. unfold ref_of, m1. cbn [pm set_pm]. by rewrite Hnew. }
  exists q, m1. split; [|done].
  assert (in_pa (in_amc (alloc_pages_loop swap_retries KSTACKPAGE)) s = Ret (Some q, mkPsys (set_amc (pa s) m1) (kstacks s) (pstructs s) (pth s) (pf s))) as E1.
  { unfold in_pa, in_amc. fold m. assert (alloc_pages_loop swap_retries KSTACKPAGE m = Ret (Some q, m1)) as ->; [|done].
    unfold swap_retries. cbn [alloc_pages_loop]. step using (unfold lift_pm; rewrite Hal; reflexivity). step using reflexivity. done. }
  assert (q ∈ used m1) as Hq.
  { assert (q ∈ frames (q, KSTACKPAGE)) as Hin by (apply elem_of_frames; split; [reflexivity|apply Z.lt_add_pos_r; reflexivity]).
    unfold used, m1. cbn [pm set_pm]. rewrite Hfree, Hyfr. apply elem_of_difference. split; [|by intros [_ Hno]%elem_of_difference].
    apply (pm_free_frames (pm m)); [apply Hok|]. by apply Hsub. }
  unfold setup_kstack. step using (exact E1). cbv iota.
  step using (unfold in_pa, in_amc; cbn [pa amc set_amc]; rewrite (KADDR_page lo hi m1 (a_pgdir x) q (taken_ok lo hi _ _ _ _ _ Ht Hok) Hq); reflexivity).
  done.
Qed.

(** * Fork and exit *)

Context (c : sched_class) `{L : !sched_laws c}.
Notation ptab := (@ptab psys).
Hypothesis kmalloc_fresh : ∀ h p, kmalloc h = Some p → h !! p = None.
Hypothesis kmalloc_some : ∀ h, is_Some (kmalloc h).

(** What [do_fork] needs, for a process with the address space [x]: a block for the process structure, one for the
    address space, two frames in a row for the kernel stack, and frames for the directory, the pages and the
    tables. *)
Record fork_room (e : psys) (cur p k k' : Z) (x : aspace) : Prop := {
  fr_space : forkable lo hi boot_pgdir (pa e) cur k x;
  fr_struct : kmalloc_proc (pstructs e) = Some p;
  fr_mm : kmalloc_mm (dom (mms (pa e))) = Some k' ∧ k' ∉ dom (mms (pa e));
  fr_stack : ∃ b, frames (b, KSTACKPAGE) ⊆ pm_free (pm (amc (pa e)));
  fr_frames : (3 + 2 * pages_mapped (amc (pa e)) (a_pgdir x) (areas (a_mm x)) ≤ size (pm_free (pm (amc (pa e)))))%nat }.

(** The child [p] with the address space [k'], the directory [d] and the kernel stack [q], at whose top is the trap
    frame made from the frame [f] of the caller. *)
Record child_memory (e : psys) (p k' : Z) (x : aspace) (f : Trap.trapframe) (stack d q : Z) (e' : psys) : Prop := {
  cm_space : ∃ t, mms (pa e') = <[k' := mkAspace t d false]> (mms (pa e)) ∧ mm_ok t ∧ areas t ≡ₚ unstamped <$> areas (a_mm x);
  cm_mm : mm_of (pa e') = <[p := k']> (mm_of (pa e)) ∧ cr3_of (pa e') = <[p := page2pa d]> (cr3_of (pa e)) ∧
    swapq (pa e') = init_priv (swap_init_ok (amc (pa e))) k' (swapq (pa e));
  cm_copy : duplicate lo hi (areas (a_mm x)) (a_pgdir x) d (amc (pa e)) (amc (pa e'));
  cm_stack : kstacks e' = <[p := q]> (kstacks e) ∧ frames (q, KSTACKPAGE) ⊆ used (amc (pa e')) ∖ used (amc (pa e));
  cm_stack_own v : in_range lo hi v → present (pte_at (amc (pa e')) d v) = true →
    frame_of (pte_at (amc (pa e')) d v) ∉ frames (q, KSTACKPAGE);
  cm_thread : tframes (pth e') = <[frame_addr q := child_frame f stack]> (tframes (pth e)) ∧
    contexts (pth e') = <[p := mkContext forkret (frame_addr q)]> (contexts (pth e)) }.

Lemma duplicate_taken q n m m1 m' vs d0 d : taken q n m m1 → duplicate lo hi vs d0 d m1 m' →
  duplicate lo hi vs d0 d m m' ∧ ∀ v, in_range lo hi v → present (pte_at m' d v) = true → frame_of (pte_at m' d v) ∉ frames (q, n).
Proof.
  intros Ht [D1 D2 D3 D4 D5]. pose proof Ht as [(y & Hy & _) [Hsub Hfree] _ Href _].
  assert (∀ v, pte_at m1 d0 v = pte_at m d0 v) as Hpte by (intros; by rewrite Hy).
  assert (∀ a, read m1 a = read m a) as Hread by (intros; by rewrite Hy).
  split; [split|].
  - intros v i Hv Hin Hi. rewrite D1 by done. unfold page_word. by rewrite Hpte, Hread.
  - intros v Hv Hin. rewrite <-Hpte. by apply D2.
  - intros v Hv Hp. destruct (D3 v Hv Hp) as [Hin Hnu]. split; [done|]. intros Hu. apply Hnu. by apply (taken_in_use _ _ _ _ _ Ht).
  - intros f i Hf. rewrite <-Hread. apply D4. by apply (taken_in_use _ _ _ _ _ Ht).
  - intros f Hf. destruct (taken_in_use _ _ _ _ _ Ht Hf) as [Hu _]. destruct (D5 f Hu) as [Hu' ->]. split; [done|]. apply Href.
    by apply used_not_free.
  - intros v Hv Hp Hin. destruct (D3 v Hv Hp) as [_ Hnu]. apply Hnu. by apply (taken_new_used q n m).
Qed.


(** C13: [do_exit] of a process other than idle and init, the last in its address space: it leaves a zombie with its
    exit code, its children go to init, another process gets the processor, and exactly the frames of the address
    space have become free; every other frame in use keeps its words and its references. *)
Theorem exit_process_correct (s : ptab) code i cr q l ks k x f' :
  let cur := current (ps s) in let e := env s in let m := amc (pa e) in
  sched_ok c (ps s) → initproc s = i → cur ≠ idleproc (ps s) → cur ≠ i →
  exitable lo hi boot_pgdir (pa e) cur k x → mm_count (a_mm x) = 1 → exit_files cur (pf e) = Ret (tt, f') →
  procs (ps s) !! cur = Some cr → parent cr = Some q → q ≠ cur → not_zombie (ps s) q → not_zombie (ps s) i →
  kids (procs (ps s)) cur l → kids (procs (ps s)) i ks → i ∉ l →
  ∃ s', do_exit c code s = Ret (tt, s') ∧ sched_ok c (ps s') ∧ current (ps s') ≠ cur ∧ dead (ps s') cur code ∧
    kids (procs (ps s')) i (reverse l ++ ks) ∧
    mms (pa (env s')) = delete k (mms (pa e)) ∧ mm_of (pa (env s')) = delete cur (mm_of (pa e)) ∧
    (∀ f, f ∈ pm_free (pm (amc (pa (env s')))) ↔ f ∈ pm_free (pm m) ∨ owns lo hi m (a_pgdir x) f) ∧
    ∀ f, f ∈ used m → ¬ owns lo hi m (a_pgdir x) f →
      ref_of (amc (pa (env s'))) f = ref_of m f ∧ ∀ j, read (amc (pa (env s'))) (f, j) = read m (f, j).
Proof using L.
  intros cur e m Hok Hinit Hidle Hci Hex Hone Hfs Hcr Hpar Hqc Hzq Hzi Hl Hk Hil.
  destruct (exit_mm_run lo hi boot_pgdir (pa e) cur k x Hex) as (m' & Hexit & _ & _ & Hfree & Hkept). rewrite Hone in Hexit, Hfree, Hkept.
  rewrite decide_True in Hexit by done.
  set (a' := mkAstate m' (delete k (mms (pa e))) (delete cur (mm_of (pa e))) (cr3_of (pa e)) (swapq (pa e))) in *.
  set (e1 := mkPsys a' (kstacks e) (pstructs e) (pth e) (pf e)). set (e2 := mkPsys a' (kstacks e) (pstructs e) (pth e) f').
  assert (Proc.exit_mm cur e = Ret (tt, e1)) as He1 by (unfold Proc.exit_mm, mem_env, in_pa; by rewrite Hexit).
  assert (Proc.put_fs cur e1 = Ret (tt, e2)) as He2 by (unfold Proc.put_fs, mem_env, in_pf; cbn [pf e1]; by rewrite Hfs).
  destruct (do_exit_run c s code i cr q l ks e1 e2) as (s' & Hrun & H1 & H2 & H3 & _ & H5 & _ & _ & Henv); try done.
  exists s'. rewrite Henv. split_and!; try done.
  - intros f. change (amc (pa e2)) with m'. rewrite Hfree. fold m. intuition.
  - intros f Hf Hno. apply Hkept; [done|by right].
Qed.

End procmem.

(** * An example: the processes of Proc.v with the memory of AddrSpace.v, without files *)

#[local] Existing Instance FitAlloc.firstfit_pmm_manager.
#[local] Existing Instance FitAlloc.firstfit_laws.
#[local] Existing Instance PageTable.no_swap.
#[local] Instance demo_no_files : proc_files unit := {| fork_files _ _ _ := mret 0; exit_files _ := mret tt |}.

Definition demo_new_proc (h : gset Z) : option Z := Some 10.
Definition demo_frame : Trap.trapframe := Trap.mkFrame (Trap.mkRegs 0 0 0 0 0 0 0 Trap.SYS_fork) 0 0 0 0 Trap.T_SYSCALL 0 0x800020 0 0 0xAFFFFF00 0.
Definition demo_memory (m : mm_struct) : psys (S := Frames.pmm) (F := unit) :=
  mkPsys (mkAstate demo_parent {[ 1 := mkAspace m 4 false ]} {[ 2 := 1 ]} {[ 2 := page2pa 4 ]} (mkQueue [] ∅)) ∅ ∅ (mkThreads {[ 64 := demo_frame ]} ∅) tt.
Definition demo_system (m : mm_struct) : @ptab (psys (S := Frames.pmm) (F := unit)) :=
  mkPtab (ps demo_ptab) (links demo_ptab) (hash_list demo_ptab) (nr_process demo_ptab) (initproc demo_ptab)
    (next_safe demo_ptab) (last_pid demo_ptab) (demo_memory m).
#[local] Instance demo_mem_env : @proc_env (psys (S := Frames.pmm) (F := unit)) :=
  mem_env demo_kmalloc demo_new_mm demo_new_proc 0 (λ _, fail EPanic) 0xC0100000.

Lemma demo_system_ok m : tab_ok rr_sched_class (demo_system m) [3; 2; 1].
Proof. destruct demo_tab_ok. by split. Qed.

Lemma demo_fork_room : fork_room demo_new_mm demo_new_proc 0 user_lo user_hi (demo_memory demo_mm) 2 10 1 9 (mkAspace demo_mm 4 false).
Proof.
  destruct demo_forkable as [_ _ H3 H4 H5 H6 H7 H8]. split.
  - split; [reflexivity|reflexivity|exact H3|exact H4|exact H5|exact H6|exact H7|exact H8].
  - reflexivity.
  - split; [reflexivity|]. cbn [mms pa demo_memory]. rewrite dom_singleton_L. intros H%elem_of_singleton. discriminate.
  - exists 5. apply (bool_decide_unpack _). vm_compute. exact I.
  - apply (bool_decide_unpack _). vm_compute. exact I.
Qed.

Lemma demo_system_exitable :
  exitable user_lo user_hi 0 (pa (demo_memory demo_user_mm)) 2 1 (mkAspace demo_user_mm 4 false).
Proof.
  destruct demo_exitable as [_ _ H3 H4 H5 H6 H7 H8 H9 H10].
  split; [reflexivity|reflexivity|exact H3|exact H4|exact H5|exact H6|exact H7|exact H8|exact H9|exact H10].
Qed.


Lemma exit_process_correct_witness :
  ∃ s', do_exit rr_sched_class 5 (demo_system demo_user_mm) = Ret (tt, s') ∧ dead (ps s') 2 5 ∧ 4 ∈ pm_free (pm (amc (pa (env s')))).
Proof.
  destruct (exit_process_correct demo_kmalloc demo_new_mm demo_new_proc 0 (λ _, fail EPanic) 0xC0100000 user_lo user_hi rr_sched_class
    (demo_system demo_user_mm) 5 1 (mkProc PROC_RUNNABLE 2 0 false (Some 1) (Some 3) None None 0 0 0 0 false 3 0 1) 1 [3] [2] 1
    (mkAspace demo_user_mm 4 false) tt) as (s' & Hrun & _ & _ & Hd & _ & _ & _ & Hfree & _).
  - apply demo_sched_ok2.
  - reflexivity.
  - discriminate.
  - discriminate.
  - exact demo_system_exitable.
  - reflexivity.
  - reflexivity.
  - reflexivity.
  - reflexivity.
  - discriminate.
  - by eexists.
  - by eexists.
  - apply demo_kids.
  - apply demo_kids.
  - apply (bool_decide_unpack _). vm_compute. exact I.
  - exists s'. split; [exact Hrun|]. split; [exact Hd|]. apply Hfree. right. left. reflexivity.
Defined.

End ProcMem.
